(* ===== verification/_CoqProject ===== *)
-Q . S2P
Prelude.v
Position.v
TextRange.v
Selection.v
ExtTypes.v
ArraysFind.v
Interval.v
OffsetRange.v
LineRange.v
PrefixSum.v
TextChange.v
Length.v
EolCounter.v
DocLength.v
EditInfos.v
CombineEdits.v
SmallSet.v
Ast.v
Concat23.v
Store.v
RbTree.v
RbRep.v
RbMeta.v
RbInsert.v
RbWalk.v
RbFixDelete.v
RbDelete.v
PtBuffer.v
PtSpan.v
Strings.v
PieceTree.v
PtState.v
PtEdit.v
PtSearch.v
PtInsert.v
PtDelete.v
PtQuery.v
PtLines.v
PtRead.v
PtBuild.v
PtContent.v
TextBuffer.v
TextBuilder.v
EditText.v
EditPositions.v
ApplyEdits.v
UndoEdits.v
TextModel.v
EditStackData.v
UndoRedo.v
UndoEnds.v
EditStack.v
ModelEdits.v
RawChanges.v
Cuts.v
ModelUndo.v
PushEdits.v
HistoryData.v
History.v
Mirror.v
ExtDocument.v
TextSnapshot.v
Diff.v
DiffDp.v
DiffOptimize.v
Myers.v
MyersState.v
MyersRound.v
MyersBounds.v
MyersPhase.v
MyersProof.v
LinesDiff.v
CharSlice.v
