(* ===== verification/Prelude.v ===== *)
(** * Verified core of the Tongji Code editor

    The repository is a code editor: a workbench of services and user interface
    ([src/src/vs/workbench], [src/src/vs/platform]) around a text editor
    ([src/src/vs/editor]).  This development models the data structures in the middle of
    that editor, under [src/src/vs/editor/common] and [src/src/vs/base/common], which every
    edit goes through and whose errors corrupt a document, with the service of the platform
    that undoes the edits and the documents that extensions read.

    ** How the parts interact

    The text of a model is a [PieceTreeBase]: the pieces of some buffers, in the order of a
    red-black tree that keeps the length and the line feeds left of every node.  A text
    model addresses its text by [Position] and [Range]; a cursor is a [Selection].
    An edit of the model is recorded for undo as a list of [TextChange]s, which is composed
    with the changes of the next keystrokes in one element of the [EditStack], until a stop
    turns the element to bytes; the [UndoRedoService] keeps the elements of every resource,
    and undoing calls the element, which makes the reverse edits on the model.  Every edit is
    reported as raw changes of lines to the views, and as changes of ranges to the
    [MirrorTextModel]s of workers and of the extension host, which keep the lines and, in a
    [PrefixSumComputer], their lengths; an extension reads such a document through
    [ExtHostDocumentData] with the positions and ranges of the API.  The bracket pair tree of a
    model is a (2,3) tree whose nodes carry a [Length], the number of lines and columns
    packed in one number, and a [SmallImmutableSet] of missing brackets; after an edit, the
    parser asks a [BeforeEditPositionMapper] where in the old tree it is, reuses old nodes
    and joins them with [concat23Trees]; edits not yet parsed are combined with
    [combineTextEditInfos].  A diff of two texts starts with an alignment of their lines, by
    dynamic programming or, for long texts, by the algorithm of Myers, which is then made
    easier to read; the characters of the lines that changed are compared in the same way.  Diffs and view zones compute with [LineRange], [LineRangeSet],
    [OffsetRange] and [OffsetRangeSet], which find their place with the binary searches of
    [arraysFind].

    ** Files

    - Prelude: numbers, exceptions, arrays and loops of the language, shared lemmas and
      tactics.
    - Store: programs over a state that may throw, and the weakest precondition their
      proofs use.
    - RbTree: the nodes and every operation of [pieceTreeTextBuffer/rbTreeBase.ts], on a
      heap of records that point to each other, where [SENTINEL] is a record like the
      others.  RbRep says when such a heap is a red-black tree with right metadata;
      RbMeta, RbInsert, RbWalk, RbFixDelete and RbDelete verify the operations.
    - PtBuffer: line starts, cursors and the functions between cursors and offsets of
      [pieceTreeBase.ts], and the theory of line breaks.  PtSpan: the text between two
      cursors.
    - PieceTree: the rest of [pieceTreeBase.ts] (module [SC] the search cache, [PT] the tree,
      [Snapshot] the snapshots).  PtState: which pieces a state has, and the rules for the
      steps of a program.  PtEdit: the edits of a node.  PtSearch: finding a node, the
      cache, and [represents], the document of a state.  PtInsert, PtDelete: the two edits
      of a document.  PtQuery: visiting the nodes.  PtLines: offsets and positions.  PtRead:
      the text of a range.  PtBuild: [create] and [setEOL].  PtContent: the content of a
      line.
    - Strings: the functions of [base/common/strings.ts] that a buffer uses.  TextBuffer:
      [pieceTreeTextBuffer.ts], module [TB], with the records of [editor/common/model.ts];
      TextBuilder: [pieceTreeTextBufferBuilder.ts], modules [Builder] and [Factory], and the
      scan of a chunk.  EditText: what a list of edits does to a text, without a tree, and
      the sorting and the overlap test of [applyEdits]; EditPositions: where a text ends and
      the ranges of the inserted texts.  ApplyEdits, UndoEdits: [applyEdits] on a buffer, and
      its reverse edits.  TextSnapshot: snapshots read to the end, [snapshotToString] of
      [textfiles.ts] and [TextModelSnapshot] of [textModel.ts].
    - TextModel: [model/textModel.ts], module [TM]: versions, validation, reading, edits with
      the raw changes of [textModelEvents.ts], and the edits of undo and redo.  ModelEdits:
      what the validation promises; RawChanges: the raw changes on the lines of a view.
    - EditStackData: the data of an element of [model/editStack.ts] and their bytes (module
      [SD]).  EditStack: the elements (module [SE]), the stack (module [ES]) and the methods
      of the text model that use it (module [TME]).  UndoRedo:
      [platform/undoRedo/common/undoRedoService.ts] for elements of one resource, of any
      type, with the two operations the service calls as parameters; UndoEnds: its loops end,
      and its invariant.
    - Cuts: which cuts of a text the changes of an element respect.  ModelUndo: [_applyUndo]
      and [_applyRedo] on a model.  PushEdits: what pushing edits records.  HistoryData: what
      the data of an element lead from and to, and calling an element.  History: the line of
      states that model and stacks together refine.
    - Mirror: [model/mirrorTextModel.ts] (module [MTM]) and the text queries of
      [services/editorSimpleWorker.ts] (module [MM]).  ExtTypes: [Position], [Range] and
      [Selection] of [workbench/api/common/extHostTypes.ts] (modules [EP], [ER], [ES]).
      ExtDocument: [workbench/api/common/extHostDocumentData.ts] (module [ED]).
    - Position, TextRange, Selection: [core/position.ts], [core/range.ts],
      [core/selection.ts].  Records with the fields of the classes; each method is a
      definition of the module [Pos], [Rng] or [Sel].
    - ArraysFind: [base/common/arraysFind.ts].
    - Interval: the interface of half-open integer intervals (a class with laws) and the
      theory of normalized lists of them.  OffsetRange and LineRange
      ([core/offsetRange.ts], [core/lineRange.ts]) implement it; their sets are clients.
    - PrefixSum: [model/prefixSumComputer.ts], both computers, against the specification
      [sum_to]; the class [IndexOfService] is what a client may rely on.
    - TextChange: [core/textChange.ts] with the byte accessors of [base/common/buffer.ts].
    - Length, DocLength: [bracketPairsTree/length.ts], and documents as lengths see them.
    - EolCounter: [core/eolCounter.ts] against [splitLines] of [base/common/strings.ts].
    - EditInfos, CombineEdits: [beforeEditPositionMapper.ts], [combineTextEditInfos.ts].
    - SmallSet, Ast, Concat23: [smallImmutableSet.ts], [ast.ts], [concat23Trees.ts].
    - Diff: [diff/defaultLinesDiffComputer/algorithms/diffAlgorithm.ts], [lineSequence.ts] and
      what a list of diffs [describes].  DiffDp: [dynamicProgrammingDiffing.ts] (module [DP]).
      DiffOptimize: [heuristicSequenceOptimizations.ts].  Myers: [myersDiffAlgorithm.ts]
      (module [MD]); MyersState: one diagonal; MyersRound: one round; MyersBounds: which
      diagonals the rounds visit; MyersPhase: the invariant of the rounds; MyersProof: the
      search ends, and its path gives the diffs.  LinesDiff: the first half of [computeDiff]
      (module [LD]).  CharSlice: [linesSliceCharSequence.ts] (module [CS]), and [refineDiff] up
      to where it looks at words.

    ** How the code is translated

    A number of the code is a [Z]: the code keeps its numbers below 2^53, where doubles are
    exact, and the operators that do truncate ([|0], [>>>0], [<<], stores into typed
    arrays) are written out.  A string is the list of its UTF-16 code units.  An array is a
    list; reading outside it is [undefined], that is [None].  A method that mutates its
    receiver takes and returns the receiver; a function that throws has a [result].  A
    [while] loop is [while] of this file, with fuel: the fuel given is always a bound read
    off the code (the length of the array that is searched, the distance of two indices,
    the number of allocated nodes), every property about a loop shows that the loop ends by its own condition, and the
    proofs go through [while_inv], whose measure shows it.  The loops of the undo service that
    call each other are two fixpoints with [undo_fuel] and [redo_fuel], twice the elements on
    the stacks and two more, and are shown to end within it.  The rounds of the algorithm of
    Myers have four times the two lengths and twenty, and are shown to need no more than the
    two lengths and four.

    Objects that are shared and mutated, the nodes of the piece tree, are in a heap [gmap].
    The last element of the undo stack, which the edit stack changes in place, is changed
    where the service keeps it.

    ** What the theorems show

    - Piece tree: [insert] and [delete] return, on every tree that represents a document and
      for every offset in it, a tree that represents the document with the text inserted or
      removed, with the right length and line count, a valid cache and the CR LF pairs in
      one piece each; what they assume is that the change buffer stays below 2^31 - 1 code
      units and that a tree marked as normalized stays so: no text with another line break is
      put into it, and no half of a CR LF is taken away.  The queries
      on such a tree give what they give on the document: offsets and positions, the text of
      a range, the content and the length of a line, a code unit; [setEOL] replaces every line ending.
    - Text buffer: [applyEdits] makes all edits at once, in whatever order they come, or
      throws when two overlap; the changes it reports, replayed one by one, make the new
      text; its text changes rewrite the old text to the new one in the sense of the undo
      stack's compressor; its reverse edits give the old text back.  Loading a file chunk
      by chunk and saving it gives the file, unless a chunk is a byte order mark alone, or a
      single CR or high surrogate, with a byte order mark before it or not (the examples of
      TextBuilder show such chunks doubled and lost).  A snapshot reads the text there was when it was
      taken, however the tree is edited meanwhile.
    - Text model: any range is made one of the text, and moved out of surrogate pairs: an empty
      one before the pair, another to the outside at both ends; the raw changes of an edit turn
      the lines of a view to the lines of the model, and nothing is reported when no edit
      changes anything.
    - Undo and redo: for any possible commands (edits, another line ending, stops, their
      withdrawal, undo, redo) model, edit stack and service refine a line of states with a place on it,
      through the compression of changes and the bytes of the elements, so that the
      alternative version number identifies the text and the line ending; what is assumed is
      that the decoder of the platform gives well-formed text back, that edits keep to the
      line ending of the model and to the size of a change buffer, and that line endings and
      edits are not mixed in one step, as undoing such a step goes wrong.  Elements come back
      from their bytes.  The service undoes and redoes whatever groups there are, whatever
      the elements do, in a bounded number of steps, and its stacks stay well-formed;
      restoring a snapshot, however, forgets more than it should.
    - Mirrored models and documents: a mirror that gets the changes of an edit, in their
      order, has the lines of the model; its positions and offsets belong to each other; the
      document of the extension host and the mirror of a worker answer alike; the lines of a
      document tile its text.
    - Red-black tree: insertion and deletion keep a red-black search tree with right metadata
      and change the sequence of pieces by the one piece; [next] and [prev] end and walk
      that sequence.  Nothing outside the tree changes.
    - Sets of ranges: [addRange], [getUnion], [getIntersection], [subtractFrom] keep a set
      normalized and denote union, intersection and difference of sets of integers.
    - Prefix sums: queries in any order between updates give the sums of the values as they
      are, and both implementations agree.
    - Text changes: composing two consecutive edit lists gives a list that rewrites the
      first text to the last; writing and reading back is the identity on well-formed text.
    - Lengths: the packed operations refine those of [LengthObj], and lengths add up along
      a text; a single pass counts the breaks that splitting finds.
    - Edits of the bracket pair tree: the mapper that answers increasing queries refines a
      search from scratch, and combining edits describes both in a row.
    - Bracket pair tree: sets of small keys behave as sets; joining balanced trees gives a
      balanced tree with the same leaves and right cached fields, without throwing.
    - Diffs: both algorithms end, for all sequences and however the clock answers, with diffs
      that lead from one sequence to the other, although the algorithm of Myers computes with
      entries that were never set; the optimizations keep what diffs describe, when of two
      neighbours both can be moved or neither; so the line alignments of two texts lead from
      the trimmed lines of one to those of the other.  The alignments can also throw, and the
      diff of Myers need not be a shortest one.  The characters of changed lines are compared
      in slices, whose offsets are translated to the positions of the same characters in the
      text, so that a diff of slices is one of ranges of the two texts.
    - Positions, ranges, selections: the tests decide what their names say, and the
      operations on ranges are those on the sets of positions.

    ** What is not modelled

    The user interface, its services and the bundled extensions make up most of the
    repository.  What they do is to call the platform: the DOM, the file system, processes,
    the network, and each other through dependency injection and promises, so that a model of
    them would be a model of parameters.  The Rust command line client and the build scripts
    are not in the language of the editor.  Of the modelled files, the [toString] methods are
    left out, and besides:

    - [ast.ts]: [computeMinIndentation], which reads the text model.  [pieceTreeBase.ts]:
      [findMatchesLineByLine] and what it calls, which rest on regular expressions, and
      [equal], which compares two trees.
    - [textModel.ts]: decorations, injected text, tokens, searching, options, and the order in
      which listeners are called.
    - [undoRedoService.ts], [editStack.ts]: elements of several resources, elements that are
      undone asynchronously, labels and dialogs; a dialog ends a call and
      [confirmAndContinueUndo] goes on with its answer.
    - [editorSimpleWorker.ts], [extHostDocumentData.ts], [extHostTypes.ts]: words and their
      regular expressions, saving, the duck typing of arguments, the other types of the API.
    - [defaultLinesDiffComputer.ts], [heuristicSequenceOptimizations.ts]: the extension of
      diffs to words and what follows it, and moved lines.

    The theorems on [applyEdits] are those of calls that do not ask for the lines with
    automatic white space; that part is modelled. *)

From stdpp Require Export base numbers list option gmap sorting.
From Stdlib Require Export ZArith Lia.

#[global] Open Scope Z_scope.

(** ** JavaScript numbers

    Every number of the modelled code is an integer of magnitude below [2^53],
    on which doubles are exact; it is a [Z].  The operators that do truncate are
    written out: [x | 0] is [to_int32], [x >>> 0] is [to_uint32w]. *)

Definition to_uint32w (x : Z) : Z := x mod 2 ^ 32.

Definition to_int32 (x : Z) : Z :=
  let m := x mod 2 ^ 32 in if m <? 2 ^ 31 then m else m - 2 ^ 32.

Definition MAX_SAFE_INTEGER : Z := 2 ^ 53 - 1.

(** Integers that survive [x | 0] unchanged. *)
Definition is_int32 (x : Z) : Prop := - 2 ^ 31 <= x < 2 ^ 31.

Definition is_uint32 (x : Z) : Prop := 0 <= x < 2 ^ 32.

(** ** Exceptions *)

Inductive js_error : Type :=
  | BugIndicatingError
  | RangeError
  | TypeError
  | OtherError.

Inductive result (A : Type) : Type :=
  | Ok (a : A)
  | Throw (e : js_error).
Arguments Ok {A} a.
Arguments Throw {A} e.

Definition result_bind {A B} (m : result A) (f : A -> result B) : result B :=
  match m with Ok a => f a | Throw e => Throw e end.

Definition result_map {A B} (f : A -> B) (m : result A) : result B :=
  result_bind m (fun a => Ok (f a)).

Declare Scope js_scope.
Delimit Scope js_scope with js.

Notation "'let*' x ':=' m 'in' k" := (result_bind m (fun x => k))
  (at level 10, x pattern, m at level 100, k at level 200) : js_scope.

(** [Array.prototype.map] with a callback that may throw. *)
Fixpoint result_mapM {A B} (f : A -> result B) (l : list A) : result (list B) :=
  match l with
  | [] => Ok []
  | a :: l' => result_bind (f a) (fun b => result_map (cons b) (result_mapM f l'))
  end.

(** ** Arrays *)

Definition zlen {A} (l : list A) : Z := Z.of_nat (length l).

(** [l[i]]; [None] is [undefined]. *)
Definition at_ {A} (l : list A) (i : Z) : option A :=
  if i <? 0 then None else l !! Z.to_nat i.

Notation "l .[ i ]" := (at_ l i) (at level 1, left associativity, format "l .[ i ]") : js_scope.

(** The relative index of [slice] and [splice]. *)
Definition rel_index (n i : Z) : Z := if i <? 0 then Z.max (n + i) 0 else Z.min i n.

Definition slice {A} (l : list A) (s e : Z) : list A :=
  let n := zlen l in
  let s' := rel_index n s in
  let e' := rel_index n e in
  take (Z.to_nat (e' - s')) (drop (Z.to_nat s') l).

Definition slice_from {A} (l : list A) (s : Z) : list A := slice l s (zlen l).

Definition splice {A} (l : list A) (s del : Z) (ins : list A) : list A :=
  let n := zlen l in
  let s' := rel_index n s in
  let del' := Z.min (Z.max del 0) (n - s') in
  take (Z.to_nat s') l ++ ins ++ drop (Z.to_nat (s' + del')) l.

(** [l[i] = a] for an index inside the array. *)
Definition set_at {A} (l : list A) (i : Z) (a : A) : list A :=
  if i <? 0 then l else <[Z.to_nat i := a]> l.

(** [[lo, lo + 1, ..., hi - 1]], the indices of [for (i = lo; i < hi; i++)]. *)
Definition zrange (lo hi : Z) : list Z :=
  (fun k => lo + Z.of_nat k) <$> seq 0 (Z.to_nat (hi - lo)).

Definition opt_list {A} (o : option A) : list A :=
  match o with Some a => [a] | None => [] end.

(** ** While loops

    [while fuel c b s] runs [while (c) b] from [s].  The fuel of each loop of the
    development is a bound computed from the state, and [while_rule] proves that
    with it the loop leaves because its condition is false. *)

Fixpoint while {S} (fuel : nat) (c : S -> bool) (b : S -> S) (s : S) : S :=
  match fuel with
  | O => s
  | Datatypes.S fuel' => if c s then while fuel' c b (b s) else s
  end.

Section while_rules.
Context {S : Type} (c : S -> bool) (b : S -> S).
Context (I : S -> Prop) (m : S -> nat).
Hypothesis Hstep : forall s, I s -> c s = true -> I (b s) /\ (m (b s) < m s)%nat.

Lemma while_rule fuel s :
  I s -> (m s <= fuel)%nat -> I (while fuel c b s) /\ c (while fuel c b s) = false.
Proof.
  revert s. induction fuel as [|fuel IH]; intros s HI Hm; simpl.
  - split; [done|]. destruct (c s) eqn:E; [|done].
    destruct (Hstep s HI E). lia.
  - destruct (c s) eqn:E; [|done].
    destruct (Hstep s HI E). apply IH; [done|lia].
Qed.
End while_rules.

(** Reason about the loop of the goal with an invariant and a measure: the step, the
    start and the fuel are left to prove, then what holds when the loop leaves. *)
Tactic Notation "while_inv" constr(inv) constr(measure) "as" simple_intropattern(pat) :=
  match goal with
  | |- context [while ?f ?c ?b ?st] =>
      destruct (while_rule c b inv measure) with (fuel := f) (s := st) as pat
  end.

Lemma while_ext {S} fuel (c c' : S -> bool) (b b' : S -> S) s :
  (forall s, c s = c' s) -> (forall s, b s = b' s) -> while fuel c b s = while fuel c' b' s.
Proof.
  intros Hc Hb. revert s. induction fuel as [|fuel IH]; intros s; simpl; [done|].
  by rewrite Hc, Hb, IH.
Qed.

(** ** Automation *)

Ltac bdestruct_one :=
  match goal with
  | |- context [?x <? ?y] => destruct (Z.ltb_spec x y)
  | |- context [?x <=? ?y] => destruct (Z.leb_spec x y)
  | |- context [?x =? ?y] => destruct (Z.eqb_spec x y)
  | H : context [?x <? ?y] |- _ => destruct (Z.ltb_spec x y)
  | H : context [?x <=? ?y] |- _ => destruct (Z.leb_spec x y)
  | H : context [?x =? ?y] |- _ => destruct (Z.eqb_spec x y)
  end.

(** Case analysis on every integer comparison in sight, closing by [lia]. *)
Ltac bdestr := repeat (bdestruct_one; simpl in *; try lia; try done).

(** Case analysis on every [if] of the goal and the hypotheses, the conditions
    being left to [lia], which reads the boolean comparisons. *)
Ltac ifdestr :=
  repeat match goal with
  | |- context [if ?b then _ else _] => destruct b eqn:?
  | H : context [if ?b then _ else _] |- _ => destruct b eqn:?
  end.

Ltac zbool := intros; ifdestr; simpl in *; try done; try lia.

Create HintDb js.
Create Rewrite HintDb js_len.

(** ** Lemmas on lists and integers *)

Lemma to_int32_id x : is_int32 x -> to_int32 x = x.
Proof.
  unfold is_int32, to_int32. intros H.
  destruct (Z.ltb_spec (x mod 2 ^ 32) (2 ^ 31)); Z.div_mod_to_equations; lia.
Qed.

Lemma to_int32_range x : is_int32 (to_int32 x).
Proof.
  unfold is_int32, to_int32. destruct (Z.ltb_spec (x mod 2 ^ 32) (2 ^ 31)); Z.div_mod_to_equations; lia.
Qed.

Lemma to_uint32w_id x : is_uint32 x -> to_uint32w x = x.
Proof. unfold is_uint32, to_uint32w. intros. rewrite Z.mod_small; lia. Qed.

Lemma zlen_replicate {A} n (x : A) : 0 <= n -> zlen (replicate (Z.to_nat n) x) = n.
Proof. unfold zlen. rewrite length_replicate. lia. Qed.

Lemma zlen_nonneg {A} (l : list A) : 0 <= zlen l.
Proof. unfold zlen. lia. Qed.

Lemma zlen_nil {A} : zlen (@nil A) = 0.
Proof. done. Qed.

Lemma zlen_cons {A} (a : A) l : zlen (a :: l) = zlen l + 1.
Proof. unfold zlen. simpl. lia. Qed.

Lemma zlen_app {A} (l k : list A) : zlen (l ++ k) = zlen l + zlen k.
Proof. unfold zlen. rewrite length_app. lia. Qed.

Lemma at_lt {A} (l : list A) i x : at_ l i = Some x -> 0 <= i < zlen l.
Proof.
  unfold at_, zlen. destruct (Z.ltb_spec i 0); [done|].
  intros Hl%lookup_lt_Some. lia.
Qed.

Lemma at_in_range {A} (l : list A) i : 0 <= i < zlen l -> exists x, at_ l i = Some x.
Proof.
  unfold at_, zlen. intros ?. destruct (Z.ltb_spec i 0); [lia|].
  apply lookup_lt_is_Some_2. lia.
Qed.

Lemma at_elem_of {A} (l : list A) i x : at_ l i = Some x -> x ∈ l.
Proof. unfold at_. destruct (Z.ltb_spec i 0); [done|]. apply list_elem_of_lookup_2. Qed.

Lemma at_nat {A} (l : list A) (k : nat) : at_ l (Z.of_nat k) = l !! k.
Proof. unfold at_. destruct (Z.ltb_spec (Z.of_nat k) 0); [lia|]. by rewrite Nat2Z.id. Qed.

Lemma elem_of_at {A} (l : list A) x : x ∈ l -> exists i, at_ l i = Some x.
Proof. intros [k Hk]%list_elem_of_lookup. exists (Z.of_nat k). by rewrite at_nat. Qed.

Lemma at_app_last {A} (l : list A) x j y :
  at_ (l ++ [x]) j = Some y <-> at_ l j = Some y /\ j < zlen l \/ j = zlen l /\ y = x.
Proof.
  unfold at_, zlen. destruct (Z.ltb_spec j 0).
  { split; [done|]. intros [[? ?]|[? ?]]; [done|lia]. }
  destruct (decide (Z.to_nat j < length l)%nat).
  - rewrite lookup_app_l by done. split; [intros; left; split; [done|lia]|].
    intros [[? ?]|[? ?]]; [done|lia].
  - rewrite lookup_app_r by lia. split.
    + intros [Hj Hy]%list_lookup_singleton_Some. right. split; [lia|done].
    + intros [[? ?]|[-> ->]]; [lia|]. apply list_lookup_singleton_Some. split; [lia|done].
Qed.

Lemma at_app_l {A} (l k : list A) i : i < zlen l -> at_ (l ++ k) i = at_ l i.
Proof. unfold at_, zlen. intros. destruct (Z.ltb_spec i 0); [done|]. apply lookup_app_l. lia. Qed.

Lemma at_app_r {A} (l k : list A) i : zlen l <= i -> at_ (l ++ k) i = at_ k (i - zlen l).
Proof.
  unfold at_, zlen. intros. destruct (Z.ltb_spec i 0); [lia|]. destruct (Z.ltb_spec (i - Z.of_nat (length l)) 0); [lia|].
  rewrite lookup_app_r by lia. f_equal. lia.
Qed.

Lemma drop_at {A} (l : list A) i x : at_ l i = Some x -> drop (Z.to_nat i) l = x :: drop (Z.to_nat (i + 1)) l.
Proof.
  intros Hx. pose proof (at_lt _ _ _ Hx). unfold at_ in Hx. destruct (Z.ltb_spec i 0); [done|].
  rewrite (drop_S _ _ _ Hx). do 2 f_equal. lia.
Qed.

Lemma zlen_take {A} (l : list A) k : 0 <= k <= zlen l -> zlen (take (Z.to_nat k) l) = k.
Proof. unfold zlen. rewrite length_take. lia. Qed.

Lemma zlen_drop {A} (l : list A) k : 0 <= k <= zlen l -> zlen (drop (Z.to_nat k) l) = zlen l - k.
Proof. unfold zlen. rewrite length_drop. lia. Qed.

Lemma at_singleton {A} (a : A) j x : at_ [a] j = Some x -> j = 0 /\ x = a.
Proof.
  unfold at_. destruct (Z.ltb_spec j 0); [done|].
  intros [? ->]%list_lookup_singleton_Some. split; [lia|done].
Qed.

Lemma at_take {A} (l : list A) (n : nat) i : i < Z.of_nat n -> at_ (take n l) i = at_ l i.
Proof.
  unfold at_. intros ?. destruct (Z.ltb_spec i 0); [done|]. apply lookup_take_lt. lia.
Qed.

Lemma zrange_snoc lo hi : lo < hi -> zrange lo hi = zrange lo (hi - 1) ++ [hi - 1].
Proof.
  intros ?. unfold zrange. replace (Z.to_nat (hi - lo)) with (S (Z.to_nat (hi - 1 - lo))) by lia.
  rewrite seq_S, fmap_app. simpl. do 2 f_equal. lia.
Qed.

Lemma zrange_cons lo hi : lo < hi -> zrange lo hi = lo :: zrange (lo + 1) hi.
Proof.
  intros ?. unfold zrange. replace (Z.to_nat (hi - lo)) with (S (Z.to_nat (hi - (lo + 1)))) by lia.
  simpl. f_equal; [lia|]. rewrite <- seq_shift, <- list_fmap_compose.
  apply list_fmap_ext. intros ? ? ?. simpl. lia.
Qed.

Lemma zrange_nil lo hi : hi <= lo -> zrange lo hi = [].
Proof. intros ?. unfold zrange. by replace (Z.to_nat (hi - lo)) with O by lia. Qed.

Lemma elem_of_zrange lo hi n : n ∈ zrange lo hi <-> lo <= n < hi.
Proof.
  unfold zrange. rewrite list_elem_of_fmap. setoid_rewrite elem_of_seq. split.
  - intros (k & -> & ?). lia.
  - intros ?. exists (Z.to_nat (n - lo)). lia.
Qed.

Lemma NoDup_zrange lo hi : NoDup (zrange lo hi).
Proof. unfold zrange. apply NoDup_fmap_2; [intros ???; lia|apply NoDup_seq]. Qed.

Lemma zlen_zrange lo hi : lo <= hi -> zlen (zrange lo hi) = hi - lo.
Proof. unfold zlen, zrange. rewrite length_fmap, length_seq. lia. Qed.

#[export] Hint Rewrite @zlen_nil @zlen_cons @zlen_app : js_len.
#[export] Hint Resolve zlen_nonneg to_int32_range : js.
