(* ===== verification/Position.v ===== *)
(** * Positions of a text model

    [src/src/vs/editor/common/core/position.ts]: the class [Position], a 1-based
    line number and column.  The static functions take [IPosition | null]; a null
    argument is [None].  The order on positions is the lexicographic one,
    [pos_le]; the tests and the comparator of the code are related to it. *)

From S2P Require Import Prelude.

Record Position : Type := mkPosition { lineNumber : Z; column : Z }.

#[export] Instance Position_eq_dec : EqDecision Position.
Proof. solve_decision. Defined.

Module Pos.

(** [with(newLineNumber = this.lineNumber, newColumn = this.column)] *)
Definition with_ (this : Position) (newLineNumber newColumn : option Z) : Position :=
  let l := default (lineNumber this) newLineNumber in
  let c := default (column this) newColumn in
  if (l =? lineNumber this) && (c =? column this) then this else mkPosition l c.

Definition delta (this : Position) (deltaLineNumber deltaColumn : option Z) : Position :=
  with_ this (Some (lineNumber this + default 0 deltaLineNumber))
             (Some (column this + default 0 deltaColumn)).

Definition equals (a b : option Position) : bool :=
  match a, b with
  | None, None => true
  | Some a, Some b => (lineNumber a =? lineNumber b) && (column a =? column b)
  | _, _ => false
  end.

Definition isBefore (a b : Position) : bool :=
  if lineNumber a <? lineNumber b then true
  else if lineNumber b <? lineNumber a then false
  else column a <? column b.

Definition isBeforeOrEqual (a b : Position) : bool :=
  if lineNumber a <? lineNumber b then true
  else if lineNumber b <? lineNumber a then false
  else column a <=? column b.

Definition compare (a b : Position) : Z :=
  let aLineNumber := to_int32 (lineNumber a) in
  let bLineNumber := to_int32 (lineNumber b) in
  if aLineNumber =? bLineNumber then to_int32 (column a) - to_int32 (column b)
  else aLineNumber - bLineNumber.

Definition clone (this : Position) : Position := mkPosition (lineNumber this) (column this).

End Pos.

(** The reading order of positions. *)
Definition pos_le (a b : Position) : Prop :=
  lineNumber a < lineNumber b \/ lineNumber a = lineNumber b /\ column a <= column b.

Definition pos_lt (a b : Position) : Prop :=
  lineNumber a < lineNumber b \/ lineNumber a = lineNumber b /\ column a < column b.

Definition pos_int32 (a : Position) : Prop := is_int32 (lineNumber a) /\ is_int32 (column a).

(** Least and greatest of two positions. *)
Definition pos_min (a b : Position) : Position := if Pos.isBefore b a then b else a.
Definition pos_max (a b : Position) : Position := if Pos.isBefore a b then b else a.

#[export] Instance pos_le_dec a b : Decision (pos_le a b).
Proof. unfold pos_le. apply _. Defined.

#[export] Instance pos_le_total_order : TotalOrder pos_le.
Proof.
  unfold pos_le. split; [split; [split|]|].
  - intros []; simpl; lia.
  - intros [] [] []; simpl; lia.
  - intros [] [] ??; simpl in *; f_equal; lia.
  - intros [] []. unfold strict. simpl.
    destruct (decide (lineNumber0 = lineNumber1)), (decide (column0 = column1)); subst; auto;
      lia.
Qed.

Lemma pos_ext a b : lineNumber a = lineNumber b -> column a = column b -> a = b.
Proof. destruct a, b; simpl; congruence. Qed.

Lemma isBefore_spec a b : Pos.isBefore a b = true <-> pos_lt a b.
Proof. unfold Pos.isBefore, pos_lt. split; zbool. Qed.

Lemma isBeforeOrEqual_spec a b : Pos.isBeforeOrEqual a b = true <-> pos_le a b.
Proof. unfold Pos.isBeforeOrEqual, pos_le. split; zbool. Qed.

Lemma compare_int32 a b :
  pos_int32 a -> pos_int32 b ->
  Pos.compare a b = if lineNumber a =? lineNumber b then column a - column b
                    else lineNumber a - lineNumber b.
Proof.
  intros [? ?] [? ?]. unfold Pos.compare. by rewrite !to_int32_id by done.
Qed.

(** on 32-bit positions the comparator [Position.compare] decides the reading
    order: its sign says before, equal or after, as [isBefore], [equals] and
    [isBeforeOrEqual] do, so that sorting with it sorts in reading order. *)
Theorem compare_decides_order a b :
  pos_int32 a -> pos_int32 b ->
  (Pos.compare a b < 0 <-> Pos.isBefore a b = true) /\
  (Pos.compare a b = 0 <-> Pos.equals (Some a) (Some b) = true) /\
  (Pos.compare a b <= 0 <-> Pos.isBeforeOrEqual a b = true) /\
  (Pos.compare a b = 0 <-> a = b).
Proof.
  intros Ha Hb. rewrite (compare_int32 a b Ha Hb), isBefore_spec, isBeforeOrEqual_spec.
  unfold Pos.equals, pos_lt, pos_le.
  destruct a as [la ca], b as [lb cb]; simpl.
  assert (E : mkPosition la ca = mkPosition lb cb <-> la = lb /\ ca = cb).
  { split; [by intros [= -> ->]|by intros [-> ->]]. }
  rewrite E. zbool.
Qed.

Lemma compare_decides_order_witness :
  Pos.compare (mkPosition 3 7) (mkPosition 4 1) < 0 <->
  Pos.isBefore (mkPosition 3 7) (mkPosition 4 1) = true.
Proof.
  apply (compare_decides_order (mkPosition 3 7) (mkPosition 4 1));
    unfold pos_int32, is_int32; simpl; lia.
Defined.

(** ** The lattice of positions *)

Ltac pos_unfold :=
  unfold pos_min, pos_max, Pos.isBefore, Pos.isBeforeOrEqual, pos_le, pos_lt in *; simpl in *.

Lemma pos_le_min a b c : pos_le c (pos_min a b) <-> pos_le c a /\ pos_le c b.
Proof. pos_unfold. zbool. Qed.

Lemma pos_max_le a b c : pos_le (pos_max a b) c <-> pos_le a c /\ pos_le b c.
Proof. pos_unfold. zbool. Qed.

Lemma pos_min_le a b c : pos_le a c -> pos_le (pos_min a b) c.
Proof. pos_unfold. zbool. Qed.

Lemma pos_le_max a b c : pos_le c a -> pos_le c (pos_max a b).
Proof. pos_unfold. zbool. Qed.

Lemma pos_min_le_r a b c : pos_le b c -> pos_le (pos_min a b) c.
Proof. pos_unfold. zbool. Qed.

Lemma pos_le_max_r a b c : pos_le c b -> pos_le c (pos_max a b).
Proof. pos_unfold. zbool. Qed.

Lemma pos_not_le a b : ~ pos_le a b <-> pos_lt b a.
Proof. pos_unfold. lia. Qed.

Lemma pos_le_trans a b c : pos_le a b -> pos_le b c -> pos_le a c.
Proof. pos_unfold. lia. Qed.

Lemma pos_le_refl a : pos_le a a.
Proof. pos_unfold. lia. Qed.

#[export] Hint Resolve pos_le_refl pos_min_le pos_le_max pos_min_le_r pos_le_max_r : js.
