(* ===== verification/TextRange.v ===== *)
(** * Ranges of a text model

    [src/src/vs/editor/common/core/range.ts]: the class [Range].  The record is also
    [IRange], the interface of the static functions, whose values need not be
    ordered; the constructor of the class, [new_Range], orders its ends.  A range
    is read as the set of positions [containsPosition] accepts, and the operations
    are proved to be the operations on those sets. *)

From S2P Require Import Prelude Position.

Record Range : Type := mkRange {
  startLineNumber : Z; startColumn : Z; endLineNumber : Z; endColumn : Z }.

#[export] Instance Range_eq_dec : EqDecision Range.
Proof. solve_decision. Defined.

Module Rng.

(** The constructor. *)
Definition new_Range (sl sc el ec : Z) : Range :=
  if (sl >? el) || ((sl =? el) && (sc >? ec)) then mkRange el ec sl sc
  else mkRange sl sc el ec.

Definition isEmpty (range : Range) : bool :=
  (startLineNumber range =? endLineNumber range) && (startColumn range =? endColumn range).

Definition containsPosition (range : Range) (position : Position) : bool :=
  if (lineNumber position <? startLineNumber range)
     || (lineNumber position >? endLineNumber range) then false
  else if (lineNumber position =? startLineNumber range)
          && (column position <? startColumn range) then false
  else if (lineNumber position =? endLineNumber range)
          && (column position >? endColumn range) then false
  else true.

Definition strictContainsPosition (range : Range) (position : Position) : bool :=
  if (lineNumber position <? startLineNumber range)
     || (lineNumber position >? endLineNumber range) then false
  else if (lineNumber position =? startLineNumber range)
          && (column position <=? startColumn range) then false
  else if (lineNumber position =? endLineNumber range)
          && (column position >=? endColumn range) then false
  else true.

Definition containsRange (range otherRange : Range) : bool :=
  if (startLineNumber otherRange <? startLineNumber range)
     || (endLineNumber otherRange <? startLineNumber range) then false
  else if (startLineNumber otherRange >? endLineNumber range)
          || (endLineNumber otherRange >? endLineNumber range) then false
  else if (startLineNumber otherRange =? startLineNumber range)
          && (startColumn otherRange <? startColumn range) then false
  else if (endLineNumber otherRange =? endLineNumber range)
          && (endColumn otherRange >? endColumn range) then false
  else true.

Definition strictContainsRange (range otherRange : Range) : bool :=
  if (startLineNumber otherRange <? startLineNumber range)
     || (endLineNumber otherRange <? startLineNumber range) then false
  else if (startLineNumber otherRange >? endLineNumber range)
          || (endLineNumber otherRange >? endLineNumber range) then false
  else if (startLineNumber otherRange =? startLineNumber range)
          && (startColumn otherRange <=? startColumn range) then false
  else if (endLineNumber otherRange =? endLineNumber range)
          && (endColumn otherRange >=? endColumn range) then false
  else true.

Definition plusRange (a b : Range) : Range :=
  let '(sl, sc) :=
    if startLineNumber b <? startLineNumber a then (startLineNumber b, startColumn b)
    else if startLineNumber b =? startLineNumber a then
      (startLineNumber b, Z.min (startColumn b) (startColumn a))
    else (startLineNumber a, startColumn a) in
  let '(el, ec) :=
    if endLineNumber b >? endLineNumber a then (endLineNumber b, endColumn b)
    else if endLineNumber b =? endLineNumber a then
      (endLineNumber b, Z.max (endColumn b) (endColumn a))
    else (endLineNumber a, endColumn a) in
  new_Range sl sc el ec.

Definition intersectRanges (a b : Range) : option Range :=
  let '(sl, sc) :=
    if startLineNumber a <? startLineNumber b then (startLineNumber b, startColumn b)
    else if startLineNumber a =? startLineNumber b then
      (startLineNumber a, Z.max (startColumn a) (startColumn b))
    else (startLineNumber a, startColumn a) in
  let '(el, ec) :=
    if endLineNumber a >? endLineNumber b then (endLineNumber b, endColumn b)
    else if endLineNumber a =? endLineNumber b then
      (endLineNumber a, Z.min (endColumn a) (endColumn b))
    else (endLineNumber a, endColumn a) in
  if sl >? el then None
  else if (sl =? el) && (sc >? ec) then None
  else Some (new_Range sl sc el ec).

Definition equalsRange (a b : option Range) : bool :=
  match a, b with
  | None, None => true
  | Some a, Some b =>
      (startLineNumber a =? startLineNumber b) && (startColumn a =? startColumn b)
      && (endLineNumber a =? endLineNumber b) && (endColumn a =? endColumn b)
  | _, _ => false
  end.

Definition getEndPosition (range : Range) : Position :=
  mkPosition (endLineNumber range) (endColumn range).

Definition getStartPosition (range : Range) : Position :=
  mkPosition (startLineNumber range) (startColumn range).

Definition setEndPosition (this : Range) (el ec : Z) : Range :=
  new_Range (startLineNumber this) (startColumn this) el ec.

Definition setStartPosition (this : Range) (sl sc : Z) : Range :=
  new_Range sl sc (endLineNumber this) (endColumn this).

Definition collapseToStart (range : Range) : Range :=
  new_Range (startLineNumber range) (startColumn range)
            (startLineNumber range) (startColumn range).

Definition collapseToEnd (range : Range) : Range :=
  new_Range (endLineNumber range) (endColumn range)
            (endLineNumber range) (endColumn range).

Definition delta (this : Range) (lineCount : Z) : Range :=
  new_Range (startLineNumber this + lineCount) (startColumn this)
            (endLineNumber this + lineCount) (endColumn this).

(** [fromPositions(start, end = start)] *)
Definition fromPositions (start : Position) (end_ : option Position) : Range :=
  let e := default start end_ in
  new_Range (lineNumber start) (column start) (lineNumber e) (column e).

Definition lift (range : option Range) : option Range :=
  match range with
  | None => None
  | Some r => Some (new_Range (startLineNumber r) (startColumn r)
                              (endLineNumber r) (endColumn r))
  end.

Definition areIntersectingOrTouching (a b : Range) : bool :=
  if (endLineNumber a <? startLineNumber b)
     || ((endLineNumber a =? startLineNumber b) && (endColumn a <? startColumn b)) then false
  else if (endLineNumber b <? startLineNumber a)
          || ((endLineNumber b =? startLineNumber a) && (endColumn b <? startColumn a)) then false
  else true.

Definition areIntersecting (a b : Range) : bool :=
  if (endLineNumber a <? startLineNumber b)
     || ((endLineNumber a =? startLineNumber b) && (endColumn a <=? startColumn b)) then false
  else if (endLineNumber b <? startLineNumber a)
          || ((endLineNumber b =? startLineNumber a) && (endColumn b <=? startColumn a)) then false
  else true.

Definition compareRangesUsingStarts (a b : option Range) : Z :=
  match a, b with
  | Some a, Some b =>
      let aStartLineNumber := to_int32 (startLineNumber a) in
      let bStartLineNumber := to_int32 (startLineNumber b) in
      if aStartLineNumber =? bStartLineNumber then
        let aStartColumn := to_int32 (startColumn a) in
        let bStartColumn := to_int32 (startColumn b) in
        if aStartColumn =? bStartColumn then
          let aEndLineNumber := to_int32 (endLineNumber a) in
          let bEndLineNumber := to_int32 (endLineNumber b) in
          if aEndLineNumber =? bEndLineNumber then
            to_int32 (endColumn a) - to_int32 (endColumn b)
          else aEndLineNumber - bEndLineNumber
        else aStartColumn - bStartColumn
      else aStartLineNumber - bStartLineNumber
  | _, _ => (if a is Some _ then 1 else 0) - (if b is Some _ then 1 else 0)
  end.

Definition compareRangesUsingEnds (a b : Range) : Z :=
  if endLineNumber a =? endLineNumber b then
    if endColumn a =? endColumn b then
      if startLineNumber a =? startLineNumber b then startColumn a - startColumn b
      else startLineNumber a - startLineNumber b
    else endColumn a - endColumn b
  else endLineNumber a - endLineNumber b.

Definition spansMultipleLines (range : Range) : bool :=
  endLineNumber range >? startLineNumber range.

End Rng.

Import Rng.

(** ** Specification *)

(** What every value built by the constructor satisfies. *)
Definition range_wf (r : Range) : Prop := pos_le (getStartPosition r) (getEndPosition r).

(** The positions of a range, its two ends included. *)
Definition in_range (p : Position) (r : Range) : Prop :=
  pos_le (getStartPosition r) p /\ pos_le p (getEndPosition r).

Definition range_int32 (r : Range) : Prop :=
  pos_int32 (getStartPosition r) /\ pos_int32 (getEndPosition r).

(** Reading order of ranges: by starts, then by ends. *)
Definition starts_le (a b : Range) : Prop :=
  pos_lt (getStartPosition a) (getStartPosition b) \/
  getStartPosition a = getStartPosition b /\ pos_le (getEndPosition a) (getEndPosition b).

Definition ends_le (a b : Range) : Prop :=
  pos_lt (getEndPosition a) (getEndPosition b) \/
  getEndPosition a = getEndPosition b /\ pos_le (getStartPosition a) (getStartPosition b).

Ltac range_unfold :=
  unfold range_wf, in_range, starts_le, ends_le, range_int32, pos_int32, pos_le, pos_lt,
    getStartPosition, getEndPosition, new_Range in *; simpl in *.

Lemma new_Range_wf sl sc el ec : range_wf (new_Range sl sc el ec).
Proof. range_unfold. zbool. Qed.

Lemma new_Range_id sl sc el ec :
  pos_le (mkPosition sl sc) (mkPosition el ec) -> new_Range sl sc el ec = mkRange sl sc el ec.
Proof. range_unfold. zbool. Qed.

#[export] Hint Resolve new_Range_wf : js.

Lemma containsPosition_spec r p : containsPosition r p = true <-> in_range p r.
Proof. unfold containsPosition. range_unfold. split; zbool. Qed.

Lemma position_eq_iff a b : a = b <-> lineNumber a = lineNumber b /\ column a = column b.
Proof. split; [by intros ->|intros []; by apply pos_ext]. Qed.

(** The range between two positions in order. *)
Definition between (s e : Position) : Range :=
  mkRange (lineNumber s) (column s) (lineNumber e) (column e).

Lemma containsRange_ends r o :
  range_wf o ->
  (containsRange r o = true <->
     pos_le (getStartPosition r) (getStartPosition o) /\
     pos_le (getEndPosition o) (getEndPosition r)).
Proof. intros ?. unfold containsRange. range_unfold. split; zbool. Qed.

Lemma plusRange_between a b :
  range_wf a -> range_wf b ->
  plusRange a b = between (pos_min (getStartPosition a) (getStartPosition b))
                          (pos_max (getEndPosition a) (getEndPosition b)).
Proof.
  intros Ha Hb. unfold plusRange, between, pos_min, pos_max, Pos.isBefore.
  range_unfold. repeat case_match; simplify_eq/=; f_equal; lia.
Qed.

Lemma intersectRanges_between a b :
  intersectRanges a b =
  let s := pos_max (getStartPosition a) (getStartPosition b) in
  let e := pos_min (getEndPosition a) (getEndPosition b) in
  if decide (pos_le s e) then Some (between s e) else None.
Proof.
  assert (Hs : (if startLineNumber a <? startLineNumber b
                then (startLineNumber b, startColumn b)
                else if startLineNumber a =? startLineNumber b
                then (startLineNumber a, Z.max (startColumn a) (startColumn b))
                else (startLineNumber a, startColumn a)) =
    let s := pos_max (getStartPosition a) (getStartPosition b) in (lineNumber s, column s)).
  { unfold pos_max, Pos.isBefore. simpl. repeat case_match; f_equal; simpl; lia. }
  assert (He : (if endLineNumber a >? endLineNumber b
                then (endLineNumber b, endColumn b)
                else if endLineNumber a =? endLineNumber b
                then (endLineNumber a, Z.min (endColumn a) (endColumn b))
                else (endLineNumber a, endColumn a)) =
    let e := pos_min (getEndPosition a) (getEndPosition b) in (lineNumber e, column e)).
  { unfold pos_min, Pos.isBefore. simpl. repeat case_match; f_equal; simpl; lia. }
  unfold intersectRanges. rewrite Hs, He. cbv zeta iota.
  generalize (pos_max (getStartPosition a) (getStartPosition b)).
  generalize (pos_min (getEndPosition a) (getEndPosition b)). intros [el ec] [sl sc].
  unfold between. case_decide; range_unfold; zbool.
Qed.

(** A range contains another one exactly when it contains all its positions;
    [strictContainsRange] adds that both ends lie strictly inside. *)
Theorem containsRange_subset r o :
  range_wf o ->
  (containsRange r o = true <-> forall p, in_range p o -> in_range p r) /\
  (strictContainsRange r o = true <->
     pos_lt (getStartPosition r) (getStartPosition o) /\
     pos_lt (getEndPosition o) (getEndPosition r)).
Proof.
  intros Hwf. split.
  - rewrite containsRange_ends by done. split.
    + intros [? ?] p [? ?]. split; eauto using pos_le_trans.
    + intros H. split; apply (H (_ : Position)); split; auto with js.
  - unfold strictContainsRange. range_unfold. split; zbool.
Qed.

Lemma containsRange_subset_witness :
  containsRange (mkRange 1 5 3 1) (mkRange 2 1 2 9) = true /\
  in_range (mkPosition 2 4) (mkRange 1 5 3 1).
Proof.
  split; [reflexivity|].
  apply (proj1 (proj1 (containsRange_subset (mkRange 1 5 3 1) (mkRange 2 1 2 9)
    ltac:(vm_compute; right; split; [reflexivity|discriminate]))) eq_refl).
  vm_compute. split; right; split; first [reflexivity|discriminate].
Defined.

Lemma between_start s e : getStartPosition (between s e) = s.
Proof. by destruct s. Qed.

Lemma between_end s e : getEndPosition (between s e) = e.
Proof. by destruct e. Qed.

Lemma touching_ends a b :
  range_wf a -> range_wf b ->
  (areIntersectingOrTouching a b = true <->
   pos_le (pos_max (getStartPosition a) (getStartPosition b))
          (pos_min (getEndPosition a) (getEndPosition b))).
Proof.
  intros Ha Hb. rewrite pos_le_min, !pos_max_le.
  unfold areIntersectingOrTouching. range_unfold. split; zbool.
Qed.

(** [intersectRanges] returns exactly the common positions of two ranges, and
    [null] exactly when there is none, which is when the ranges do not even touch. *)
Theorem intersectRanges_spec a b :
  range_wf a -> range_wf b ->
  match intersectRanges a b with
  | Some r => range_wf r /\ (forall p, in_range p r <-> in_range p a /\ in_range p b)
              /\ areIntersectingOrTouching a b = true
  | None => (forall p, ~ (in_range p a /\ in_range p b))
            /\ areIntersectingOrTouching a b = false
  end.
Proof.
  intros Ha Hb. rewrite intersectRanges_between. cbv zeta.
  pose proof (touching_ends a b Ha Hb) as Ht.
  case_decide as Hd; [split_and!|split].
  - done.
  - intros p. unfold in_range. rewrite between_start, between_end, pos_max_le, pos_le_min. tauto.
  - by apply Ht.
  - intros p [[??] [??]]. apply Hd. apply pos_le_trans with p.
    + by apply pos_max_le.
    + by apply pos_le_min.
  - by apply not_true_is_false; rewrite Ht.
Qed.

Lemma intersectRanges_spec_witness :
  intersectRanges (mkRange 1 1 3 4) (mkRange 2 2 5 1) = Some (mkRange 2 2 3 4) /\
  areIntersectingOrTouching (mkRange 1 1 3 4) (mkRange 2 2 5 1) = true.
Proof.
  split; [reflexivity|].
  apply (intersectRanges_spec (mkRange 1 1 3 4) (mkRange 2 2 5 1));
    range_unfold; lia.
Defined.

(** [plusRange] is the least range that contains both its arguments. *)
Theorem plusRange_least a b :
  range_wf a -> range_wf b ->
  range_wf (plusRange a b) /\
  containsRange (plusRange a b) a = true /\
  containsRange (plusRange a b) b = true /\
  (forall c, range_wf c -> containsRange c a = true -> containsRange c b = true ->
     containsRange c (plusRange a b) = true).
Proof.
  intros Ha Hb. rewrite plusRange_between by done.
  assert (Hwf : range_wf (between (pos_min (getStartPosition a) (getStartPosition b))
                                  (pos_max (getEndPosition a) (getEndPosition b)))).
  { unfold range_wf. rewrite between_start, between_end. auto with js. }
  split_and!; [done|..].
  - apply containsRange_ends; [done|]. rewrite between_start, between_end. auto with js.
  - apply containsRange_ends; [done|]. rewrite between_start, between_end. auto with js.
  - intros c _. rewrite !containsRange_ends by done.
    rewrite between_start, between_end, pos_max_le, pos_le_min. tauto.
Qed.

Lemma plusRange_least_witness :
  containsRange (plusRange (mkRange 1 1 1 4) (mkRange 2 2 5 1)) (mkRange 1 1 1 4) = true.
Proof.
  destruct (plusRange_least (mkRange 1 1 1 4) (mkRange 2 2 5 1)) as (_ & H & _);
    [range_unfold; lia | range_unfold; lia | exact H].
Defined.

(** [areIntersectingOrTouching] holds exactly when two ranges share a position,
    and [areIntersecting] exactly when each starts strictly before the other ends. *)
Theorem areIntersecting_spec a b :
  range_wf a -> range_wf b ->
  (areIntersectingOrTouching a b = true <-> exists p, in_range p a /\ in_range p b) /\
  (areIntersecting a b = true <->
     pos_lt (getStartPosition a) (getEndPosition b) /\
     pos_lt (getStartPosition b) (getEndPosition a)).
Proof.
  intros Ha Hb. split.
  - rewrite touching_ends by done. split.
    + rewrite pos_le_min. intros [??].
      exists (pos_max (getStartPosition a) (getStartPosition b)).
      unfold in_range. auto 6 with js.
    + intros [p [[??] [??]]]. apply pos_le_trans with p;
        [by apply pos_max_le|by apply pos_le_min].
  - unfold areIntersecting. range_unfold. split; zbool.
Qed.

Lemma areIntersecting_spec_witness :
  areIntersectingOrTouching (mkRange 1 1 2 4) (mkRange 2 4 5 1) = true /\
  exists p, in_range p (mkRange 1 1 2 4) /\ in_range p (mkRange 2 4 5 1).
Proof.
  split; [reflexivity|].
  apply (areIntersecting_spec (mkRange 1 1 2 4) (mkRange 2 4 5 1));
    [range_unfold; lia | range_unfold; lia | reflexivity].
Defined.

(** Ranges that only touch are not intersecting, whatever the comment of the
    function says. *)
Lemma areIntersecting_touching :
  areIntersecting (mkRange 1 1 1 5) (mkRange 1 5 1 9) = false.
Proof. reflexivity. Qed.

Lemma compareStarts_int32 a b :
  range_int32 a -> range_int32 b ->
  compareRangesUsingStarts (Some a) (Some b) =
  if startLineNumber a =? startLineNumber b then
    if startColumn a =? startColumn b then
      if endLineNumber a =? endLineNumber b then endColumn a - endColumn b
      else endLineNumber a - endLineNumber b
    else startColumn a - startColumn b
  else startLineNumber a - startLineNumber b.
Proof.
  unfold range_int32, pos_int32; simpl. intros [[??] [??]] [[??] [??]].
  unfold compareRangesUsingStarts. by rewrite !to_int32_id by done.
Qed.

Lemma range_eq_iff a b :
  a = b <-> getStartPosition a = getStartPosition b /\ getEndPosition a = getEndPosition b.
Proof.
  split; [by intros ->|]. destruct a, b. unfold getStartPosition, getEndPosition; simpl.
  by intros [[= -> ->] [= -> ->]].
Qed.

(** The two comparators sort ranges by starts then ends, and by ends then
    starts: non-positive exactly in that order, and zero only on equal ranges; a
    missing range sorts before any other. *)
Theorem compareRanges_sorts a b :
  range_int32 a -> range_int32 b ->
  (compareRangesUsingStarts (Some a) (Some b) <= 0 <-> starts_le a b) /\
  (compareRangesUsingStarts (Some a) (Some b) = 0 <-> a = b) /\
  (compareRangesUsingEnds a b <= 0 <-> ends_le a b) /\
  (compareRangesUsingEnds a b = 0 <-> a = b) /\
  compareRangesUsingStarts None (Some b) < 0 /\
  compareRangesUsingStarts (Some a) None > 0.
Proof.
  intros Ha Hb. rewrite (compareStarts_int32 a b Ha Hb), range_eq_iff, !position_eq_iff.
  unfold compareRangesUsingEnds, starts_le, ends_le. rewrite !position_eq_iff.
  clear Ha Hb. range_unfold. zbool.
Qed.

Lemma compareRanges_sorts_witness :
  compareRangesUsingStarts (Some (mkRange 1 1 2 4)) (Some (mkRange 1 1 3 1)) <= 0.
Proof.
  apply (proj1 (compareRanges_sorts (mkRange 1 1 2 4) (mkRange 1 1 3 1)
    ltac:(unfold range_int32, pos_int32, is_int32; simpl; lia)
    ltac:(unfold range_int32, pos_int32, is_int32; simpl; lia))).
  right. split; [reflexivity|]. unfold pos_le. simpl. lia.
Defined.
