(* ===== verification/Selection.v ===== *)
(** * Selections: ranges with an orientation

    [src/src/vs/editor/common/core/selection.ts].  A selection is its anchor and its active
    position; the range it extends is the one [Range]'s constructor makes of them. *)

From S2P Require Import Prelude Position TextRange.

Inductive SelectionDirection : Type := LTR | RTL.

#[export] Instance SelectionDirection_eq_dec : EqDecision SelectionDirection.
Proof. solve_decision. Defined.

(** [base] is the part inherited from [Range]. *)
Record Selection : Type := mkSelection {
  base : Range;
  selectionStartLineNumber : Z; selectionStartColumn : Z;
  positionLineNumber : Z; positionColumn : Z }.

Module Sel.

Definition new_Selection (sl sc pl pc : Z) : Selection :=
  mkSelection (Rng.new_Range sl sc pl pc) sl sc pl pc.

Definition selectionsEqual (a b : Selection) : bool :=
  (selectionStartLineNumber a =? selectionStartLineNumber b) &&
  (selectionStartColumn a =? selectionStartColumn b) &&
  (positionLineNumber a =? positionLineNumber b) &&
  (positionColumn a =? positionColumn b).

Definition getDirection (this : Selection) : SelectionDirection :=
  if (selectionStartLineNumber this =? startLineNumber (base this)) &&
     (selectionStartColumn this =? startColumn (base this)) then LTR else RTL.

Definition setEndPosition (this : Selection) (el ec : Z) : Selection :=
  if decide (getDirection this = LTR)
  then new_Selection (startLineNumber (base this)) (startColumn (base this)) el ec
  else new_Selection el ec (startLineNumber (base this)) (startColumn (base this)).

Definition getPosition (this : Selection) : Position :=
  mkPosition (positionLineNumber this) (positionColumn this).

Definition getSelectionStart (this : Selection) : Position :=
  mkPosition (selectionStartLineNumber this) (selectionStartColumn this).

Definition setStartPosition (this : Selection) (sl sc : Z) : Selection :=
  if decide (getDirection this = LTR)
  then new_Selection sl sc (endLineNumber (base this)) (endColumn (base this))
  else new_Selection (endLineNumber (base this)) (endColumn (base this)) sl sc.

Definition fromPositions (start : Position) (end_ : option Position) : Selection :=
  let e := default start end_ in
  new_Selection (lineNumber start) (column start) (lineNumber e) (column e).

Definition createWithDirection (sl sc el ec : Z) (direction : SelectionDirection) : Selection :=
  if decide (direction = LTR) then new_Selection sl sc el ec else new_Selection el ec sl sc.

Definition fromRange (range : Range) (direction : SelectionDirection) : Selection :=
  if decide (direction = LTR)
  then new_Selection (startLineNumber range) (startColumn range) (endLineNumber range) (endColumn range)
  else new_Selection (endLineNumber range) (endColumn range) (startLineNumber range) (startColumn range).

Definition liftSelection (sel : Selection) : Selection :=
  new_Selection (selectionStartLineNumber sel) (selectionStartColumn sel)
    (positionLineNumber sel) (positionColumn sel).

(** The loop over the two arrays, of the same length. *)
Fixpoint all_equal (a b : list Selection) : bool :=
  match a, b with
  | x :: a', y :: b' => if negb (selectionsEqual x y) then false else all_equal a' b'
  | _, _ => true
  end.

(** [None] is [null] or [undefined]. *)
Definition selectionsArrEqual (a b : option (list Selection)) : bool :=
  match a, b with
  | Some _, None | None, Some _ => false
  | None, None => true
  | Some a, Some b => if negb (zlen a =? zlen b) then false else all_equal a b
  end.

End Sel.

Import Sel.

(** What the constructor maintains. *)
Definition sel_wf (s : Selection) : Prop :=
  base s = Rng.new_Range (selectionStartLineNumber s) (selectionStartColumn s)
             (positionLineNumber s) (positionColumn s).

Lemma new_Selection_wf sl sc pl pc : sel_wf (new_Selection sl sc pl pc).
Proof. done. Qed.

Lemma new_Range_swap sl sc el ec :
  pos_le (mkPosition sl sc) (mkPosition el ec) -> Rng.new_Range el ec sl sc = mkRange sl sc el ec.
Proof.
  unfold pos_le, Rng.new_Range. simpl. intros.
  destruct (_ || _) eqn:E; [done|]. assert (sl = el /\ sc = ec) as [-> ->] by lia. done.
Qed.

(** The selection from [s] to [e] or back. *)
Definition oriented (s e : Position) (d : SelectionDirection) : Selection :=
  createWithDirection (lineNumber s) (column s) (lineNumber e) (column e) d.

(** Both orders of the ends give one range, and the direction tells them apart. *)
Lemma oriented_base s e d : pos_le s e -> base (oriented s e d) = between s e.
Proof.
  destruct s, e, d; intros; unfold oriented, createWithDirection, between; simpl;
    [by apply new_Range_id|by apply new_Range_swap].
Qed.

Lemma oriented_direction s e d : pos_lt s e -> getDirection (oriented s e d) = d.
Proof.
  intros Hlt. assert (Hle : pos_le s e) by (unfold pos_lt, pos_le in *; lia).
  unfold getDirection. rewrite (oriented_base s e d Hle). destruct s, e, d; unfold pos_lt in *; simpl in *;
    destruct (_ && _) eqn:?; try done; exfalso; lia.
Qed.

Lemma setEnd_oriented this e :
  setEndPosition this (lineNumber e) (column e) =
  oriented (Rng.getStartPosition (base this)) e (getDirection this).
Proof. unfold setEndPosition, oriented, createWithDirection. by destruct (decide _). Qed.

Lemma setStart_oriented this p :
  setStartPosition this (lineNumber p) (column p) =
  oriented p (Rng.getEndPosition (base this)) (getDirection this).
Proof. unfold setStartPosition, oriented, createWithDirection. by destruct (decide _). Qed.

(** A selection's range runs from the smaller to the greater of its two ends and its
    direction tells which is the anchor; building a selection from a range and a direction
    loses neither; moving an end to a place beyond the other keeps the other end
    and the direction. *)
Theorem selection_orientation s :
  sel_wf s ->
  Rng.getStartPosition (base s) = pos_min (getSelectionStart s) (getPosition s) /\
  Rng.getEndPosition (base s) = pos_max (getSelectionStart s) (getPosition s) /\
  (getDirection s = LTR <-> pos_le (getSelectionStart s) (getPosition s)) /\
  liftSelection s = s /\
  (Rng.isEmpty (base s) = false -> fromRange (base s) (getDirection s) = s) /\
  (forall e, pos_lt (Rng.getStartPosition (base s)) e ->
     let s' := setEndPosition s (lineNumber e) (column e) in
     base s' = between (Rng.getStartPosition (base s)) e /\ getDirection s' = getDirection s) /\
  (forall p, pos_lt p (Rng.getEndPosition (base s)) ->
     let s' := setStartPosition s (lineNumber p) (column p) in
     base s' = between p (Rng.getEndPosition (base s)) /\ getDirection s' = getDirection s).
Proof.
  intros Hwf.
  assert (Hends : forall e, pos_lt (Rng.getStartPosition (base s)) e ->
    pos_le (Rng.getStartPosition (base s)) e) by (unfold pos_lt, pos_le; intros; lia).
  assert (Hstarts : forall p, pos_lt p (Rng.getEndPosition (base s)) ->
    pos_le p (Rng.getEndPosition (base s))) by (unfold pos_lt, pos_le; intros; lia).
  split; [|split; [|split; [|split; [|split; [|split]]]]].
  6-7: cbv zeta; intros x Hx; rewrite ?setEnd_oriented, ?setStart_oriented;
        (split; [apply oriented_base; by auto|by apply oriented_direction]).
  all: destruct s as [b sl sc pl pc]; unfold sel_wf in Hwf; simpl in Hwf; subst b;
    unfold getDirection, pos_min, pos_max, Pos.isBefore, pos_le, fromRange, Rng.isEmpty,
      Rng.new_Range, getSelectionStart, getPosition, liftSelection, new_Selection,
      Rng.getStartPosition, Rng.getEndPosition; simpl.
  - zbool; f_equal; lia.
  - zbool; f_equal; lia.
  - split; zbool.
  - done.
  - unfold Rng.new_Range. zbool; f_equal; try lia; f_equal; lia.
Qed.

Lemma selection_orientation_witness :
  let s := new_Selection 3 5 1 2 in
  getDirection s = RTL /\ base s = mkRange 1 2 3 5 /\ fromRange (base s) (getDirection s) = s.
Proof.
  split; [reflexivity|]. split; [reflexivity|].
  destruct (selection_orientation (new_Selection 3 5 1 2) (new_Selection_wf _ _ _ _))
    as (_ & _ & _ & _ & H & _).
  exact (H eq_refl).
Defined.

(** [selectionsArrEqual] decides equality of the anchors and active positions in order. *)
Lemma selectionsEqual_spec a b :
  sel_wf a -> sel_wf b -> (selectionsEqual a b = true <-> a = b).
Proof.
  destruct a as [ba ? ? ? ?], b as [bb ? ? ? ?]. unfold sel_wf, selectionsEqual. simpl.
  intros -> ->. split; [|intros [=]; subst; lia]. intros. f_equal; [f_equal|..]; lia.
Qed.

Lemma selectionsArrEqual_spec a b :
  Forall sel_wf a -> Forall sel_wf b -> (selectionsArrEqual (Some a) (Some b) = true <-> a = b).
Proof.
  intros Ha Hb. simpl. split.
  - destruct (Z.eqb_spec (zlen a) (zlen b)) as [E|]; [|done]. simpl. revert b Hb E.
    induction Ha as [|x a Hx Ha IH]; intros [|y b] Hb E; try done;
      try (rewrite ?zlen_cons, ?zlen_nil in E; pose proof (zlen_nonneg a); pose proof (zlen_nonneg b); lia).
    inversion Hb; subst. simpl.
    destruct (selectionsEqual x y) eqn:Exy; [|done]. simpl. intros.
    apply selectionsEqual_spec in Exy as ->; [|done..]. f_equal. apply IH; [done|rewrite !zlen_cons in E; lia|done].
  - intros ->. rewrite Z.eqb_refl. simpl. clear Ha. induction Hb as [|x b Hx Hb IH]; [done|].
    simpl. assert (selectionsEqual x x = true) as -> by (by apply selectionsEqual_spec). done.
Qed.
