(* ===== verification/ExtTypes.v ===== *)
(** * Positions and ranges of the extension API

    The classes [Position], [Range] and [Selection] of
    [src/src/vs/workbench/api/common/extHostTypes.ts], which count lines and characters from
    0 and whose ranges always have their ends in order.  The overloads that take an object are
    those with its fields; [toJSON] and the duck-typing tests are left out. *)

From S2P Require Import Prelude.

#[local] Open Scope js_scope.

Record ExtPosition : Type := mkPos { line : Z; character : Z }.

#[export] Instance ExtPosition_eq_dec : EqDecision ExtPosition.
Proof. solve_decision. Defined.

Record ExtRange : Type := mkExtRange { start : ExtPosition; end_ : ExtPosition }.

Module EP.

(** The constructor. *)
Definition new (line character : Z) : result ExtPosition :=
  if line <? 0 then Throw OtherError
  else if character <? 0 then Throw OtherError
  else Ok (mkPos line character).

Definition isBefore (this other : ExtPosition) : bool :=
  if line this <? line other then true
  else if line other <? line this then false
  else character this <? character other.

Definition isBeforeOrEqual (this other : ExtPosition) : bool :=
  if line this <? line other then true
  else if line other <? line this then false
  else character this <=? character other.

Definition isAfter (this other : ExtPosition) : bool := negb (isBeforeOrEqual this other).
Definition isAfterOrEqual (this other : ExtPosition) : bool := negb (isBefore this other).
Definition isEqual (this other : ExtPosition) : bool := (line this =? line other) && (character this =? character other).

Definition compareTo (this other : ExtPosition) : Z :=
  if line this <? line other then -1
  else if line this >? line other then 1
  else if character this <? character other then -1
  else if character this >? character other then 1
  else 0.

(** [Position.Min] and [Position.Max], of any number of positions. *)
Definition Min (positions : list ExtPosition) : result ExtPosition :=
  match positions with
  | [] => Throw TypeError
  | p :: rest => Ok (foldl (fun result p => if isBefore p result then p else result) p rest)
  end.

Definition Max (positions : list ExtPosition) : result ExtPosition :=
  match positions with
  | [] => Throw TypeError
  | p :: rest => Ok (foldl (fun result p => if isAfter p result then p else result) p rest)
  end.

Definition translate (this : ExtPosition) (lineDelta characterDelta : Z) : result ExtPosition :=
  if (lineDelta =? 0) && (characterDelta =? 0) then Ok this
  else new (line this + lineDelta) (character this + characterDelta).

(** [with], for [undefined] or a number. *)
Definition with_ (this : ExtPosition) (line_ character_ : option Z) : result ExtPosition :=
  let l := default (line this) line_ in
  let c := default (character this) character_ in
  if (l =? line this) && (c =? character this) then Ok this else new l c.

End EP.

Module ER.

(** The constructor. *)
Definition new (s e : ExtPosition) : ExtRange := if EP.isBefore s e then mkExtRange s e else mkExtRange e s.

Definition new4 (startLine startColumn endLine endColumn : Z) : result ExtRange :=
  let* s := EP.new startLine startColumn in
  let* e := EP.new endLine endColumn in
  Ok (new s e).

Definition contains (this : ExtRange) (position : ExtPosition) : bool :=
  if EP.isBefore position (start this) then false
  else if EP.isBefore (end_ this) position then false
  else true.

Definition containsRange (this other : ExtRange) : bool := contains this (start other) && contains this (end_ other).

Definition isEqual (this other : ExtRange) : bool := EP.isEqual (start this) (start other) && EP.isEqual (end_ this) (end_ other).

Definition intersection (this other : ExtRange) : result (option ExtRange) :=
  let* s := EP.Max [start other; start this] in
  let* e := EP.Min [end_ other; end_ this] in
  if EP.isAfter s e then Ok None else Ok (Some (new s e)).

Definition union (this other : ExtRange) : result ExtRange :=
  if containsRange this other then Ok this
  else if containsRange other this then Ok other
  else
    let* s := EP.Min [start other; start this] in
    let* e := EP.Max [end_ other; end_ this] in
    Ok (new s e).

Definition isEmpty (this : ExtRange) : bool := EP.isEqual (start this) (end_ this).
Definition isSingleLine (this : ExtRange) : bool := line (start this) =? line (end_ this).

Definition with_ (this : ExtRange) (start_ end__ : option ExtPosition) : ExtRange :=
  let s := default (start this) start_ in
  let e := default (end_ this) end__ in
  if EP.isEqual s (start this) && EP.isEqual e (end_ this) then this else new s e.

End ER.

(** A selection is a range whose anchor and active end are known; [anchor_end] says that the
    anchor is the object of the range's end. *)
Record ExtSelection : Type := mkExtSelection { sel_range : ExtRange; anchor : ExtPosition; active : ExtPosition; anchor_end : bool }.

Module ES.

Definition new (anchor active : ExtPosition) : ExtSelection :=
  mkExtSelection (ER.new anchor active) anchor active (negb (EP.isBefore anchor active)).

Definition isReversed (this : ExtSelection) : bool := anchor_end this.

End ES.

(** ** Order *)

Definition ple (a b : ExtPosition) : Prop := line a < line b \/ line a = line b /\ character a <= character b.

Ltac ext_unfold := unfold EP.isAfter, EP.isAfterOrEqual in *; unfold ple, EP.isBefore, EP.isBeforeOrEqual, EP.isAfter, EP.isAfterOrEqual, EP.isEqual in *; simpl in *.

#[export] Instance ple_preorder : PreOrder ple.
Proof. split; [intros a; ext_unfold; lia|intros a b c; ext_unfold; lia]. Qed.

Lemma ple_antisym a b : ple a b -> ple b a -> a = b.
Proof. destruct a, b. ext_unfold. intros. f_equal; lia. Qed.

Lemma isBeforeOrEqual_ple a b : EP.isBeforeOrEqual a b = true <-> ple a b.
Proof. ext_unfold. split; zbool. Qed.

Lemma isBefore_ple a b : EP.isBefore a b = negb (EP.isBeforeOrEqual b a).
Proof. ext_unfold. zbool. Qed.

Lemma isEqual_eq a b : EP.isEqual a b = true <-> a = b.
Proof. destruct a, b. ext_unfold. split; [intros H; f_equal; lia|intros [= -> ->]; lia]. Qed.

(** What the constructor makes. *)
Definition ext_wf (r : ExtRange) : Prop := ple (start r) (end_ r).

Definition in_ext (p : ExtPosition) (r : ExtRange) : Prop := ple (start r) p /\ ple p (end_ r).

Lemma new_ext_wf s e : ext_wf (ER.new s e).
Proof. unfold ext_wf, ER.new. destruct (EP.isBefore s e) eqn:E; revert E; ext_unfold; zbool. Qed.

Lemma contains_in r p : ER.contains r p = true <-> in_ext p r.
Proof. unfold ER.contains, in_ext. ext_unfold. split; zbool. Qed.

Lemma new_ordered s e : ple s e -> ER.new s e = mkExtRange s e.
Proof.
  intros Hle. unfold ER.new. rewrite isBefore_ple. destruct (EP.isBeforeOrEqual e s) eqn:E; [|done]. apply isBeforeOrEqual_ple in E. by rewrite (ple_antisym _ _ Hle E).
Qed.

Lemma new_between a b p : in_ext p (ER.new a b) <-> ple a p /\ ple p b \/ ple b p /\ ple p a.
Proof. unfold in_ext, ER.new. destruct (EP.isBefore a b) eqn:E; revert E; ext_unfold; split; zbool. Qed.

Definition ext_min (a b : ExtPosition) : ExtPosition := if EP.isBefore b a then b else a.
Definition ext_max (a b : ExtPosition) : ExtPosition := if EP.isAfter b a then b else a.

Lemma ext_min_spec a b p : ple p (ext_min a b) <-> ple p a /\ ple p b.
Proof. unfold ext_min. destruct (EP.isBefore b a) eqn:E; revert E; ext_unfold; split; zbool. Qed.

Lemma ext_max_spec a b p : ple (ext_max a b) p <-> ple a p /\ ple b p.
Proof. unfold ext_max. destruct (EP.isAfter b a) eqn:E; revert E; ext_unfold; split; zbool. Qed.

Lemma ple_min_l a b : ple (ext_min a b) a.
Proof. by apply (ext_min_spec a b). Qed.

Lemma ple_min_r a b : ple (ext_min a b) b.
Proof. by apply (ext_min_spec a b). Qed.

Lemma ple_max_l a b : ple a (ext_max a b).
Proof. by apply (ext_max_spec a b). Qed.

Lemma ple_max_r a b : ple b (ext_max a b).
Proof. by apply (ext_max_spec a b). Qed.

Lemma containsRange_in r o : ext_wf o -> ER.containsRange r o = true <-> ple (start r) (start o) /\ ple (end_ o) (end_ r).
Proof.
  intros Hw. unfold ER.containsRange. rewrite andb_true_iff, !contains_in. unfold in_ext, ext_wf in *. split; [tauto|]. intros [H1 H2].
  split; split; try done; by etrans.
Qed.

(** C27: The ranges of the extension API are sets of positions.  Whatever the two ends given to
    the constructor, a range has just these two ends, in order, and [contains] decides whether a
    position is between them.  Of two such ranges, [intersection] is the range of the positions
    that are in both, and is [undefined] exactly when no position is; [union] is the smallest
    range that contains both. *)
Theorem ext_ranges_are_sets r o : ext_wf r -> ext_wf o ->
  (forall a b, ext_wf (ER.new a b) /\ (ER.new a b = mkExtRange a b \/ ER.new a b = mkExtRange b a) /\
    forall p, ER.contains (ER.new a b) p = true <-> ple a p /\ ple p b \/ ple b p /\ ple p a) /\
  (exists i, ER.intersection r o = Ok i /\
    match i with
    | Some i => ext_wf i /\ forall p, ER.contains i p = ER.contains r p && ER.contains o p
    | None => forall p, ER.contains r p && ER.contains o p = false
    end) /\
  (exists u, ER.union r o = Ok u /\ ext_wf u /\ ER.containsRange u r = true /\ ER.containsRange u o = true /\
    forall w, ext_wf w -> ER.containsRange w r = true -> ER.containsRange w o = true -> ER.containsRange w u = true).
Proof.
  intros Hr Ho. assert (Hb : forall x y : bool, (x = true <-> y = true) -> x = y) by (intros [] []; naive_solver). split; [|split].
  - intros a b. split; [apply new_ext_wf|]. split; [unfold ER.new; destruct (EP.isBefore a b); [by left|by right]|]. intros p. rewrite contains_in. apply new_between.
  - unfold ER.intersection. cbn [EP.Max EP.Min result_bind foldl]. fold (ext_max (start o) (start r)) (ext_min (end_ o) (end_ r)). set (s := ext_max _ _). set (e := ext_min _ _).
    destruct (EP.isAfter s e) eqn:E; (eexists; split; [done|]).
    + intros p. apply not_true_iff_false. rewrite andb_true_iff, !contains_in. intros [[H1 H2] [H3 H4]]. unfold EP.isAfter in E. apply negb_true_iff in E.
      assert (Hle : ple s e) by (etrans; [apply ext_max_spec; split; eassumption|by apply ext_min_spec]). apply isBeforeOrEqual_ple in Hle. by rewrite Hle in E.
    + unfold EP.isAfter in E. apply negb_false_iff, isBeforeOrEqual_ple in E. rewrite (new_ordered _ _ E). split; [exact E|]. intros p. apply Hb. rewrite andb_true_iff, !contains_in. unfold in_ext, s, e. cbn [start end_].
      rewrite ext_max_spec, ext_min_spec. tauto.
  - unfold ER.union. destruct (ER.containsRange r o) eqn:E1; [|destruct (ER.containsRange o r) eqn:E2].
    + exists r. split_and!; try done. rewrite containsRange_in by done. split; reflexivity.
    + exists o. split_and!; try done. rewrite containsRange_in by done. split; reflexivity.
    + cbn [EP.Max EP.Min result_bind foldl]. fold (ext_min (start o) (start r)) (ext_max (end_ o) (end_ r)). eexists. split; [done|].
      assert (Hw : ple (ext_min (start o) (start r)) (ext_max (end_ o) (end_ r))) by (etrans; [apply ple_min_l|]; etrans; [exact Ho|apply ple_max_l]).
      rewrite (new_ordered _ _ Hw). split; [exact Hw|]. rewrite !containsRange_in by done. cbn [start end_]. split; [split; [apply ple_min_r|apply ple_max_r]|]. split; [split; [apply ple_min_l|apply ple_max_l]|].
      intros w Hww. rewrite !containsRange_in by done. cbn [start end_]. intros [H1 H2] [H3 H4]. by rewrite ext_min_spec, ext_max_spec.
Qed.

Lemma ext_ranges_are_sets_witness : let r := ER.new (mkPos 1 5) (mkPos 0 2) in let o := ER.new (mkPos 1 0) (mkPos 3 0) in
  ER.intersection r o = Ok (Some (mkExtRange (mkPos 1 0) (mkPos 1 5))) /\ exists u, ER.union r o = Ok u /\ ER.containsRange u r = true.
Proof.
  split; [reflexivity|]. destruct (ext_ranges_are_sets (ER.new (mkPos 1 5) (mkPos 0 2)) (ER.new (mkPos 1 0) (mkPos 3 0)) (new_ext_wf _ _) (new_ext_wf _ _)) as (_ & _ & u & E & _ & H & _).
  exists u. split; [exact E|exact H].
Defined.

(** The tests and the comparison are those of one order. *)
Lemma ext_compare a b : (EP.compareTo a b < 0 <-> EP.isBefore a b = true) /\ (EP.compareTo a b = 0 <-> a = b) /\ (EP.compareTo a b > 0 <-> EP.isAfter a b = true).
Proof.
  assert (Heq : a = b <-> line a = line b /\ character a = character b) by (destruct a, b; cbn; split; [by intros [= -> ->]|by intros [-> ->]]).
  rewrite Heq. unfold EP.compareTo. ext_unfold. split_and!; split; zbool.
Qed.
