(* ===== verification/ArraysFind.v ===== *)
(** * Searching in arrays

    [src/src/vs/base/common/arraysFind.ts]: linear searches, the binary searches for
    the boundary of a monotonous predicate, the class [MonotonousArray] that keeps
    the last boundary between queries, and the extrema under a comparator.

    A predicate of the code may be handed [undefined] when it is asked about an
    index outside the array, so it is a function on [option A]; the clients, which
    stay inside, use [on_item].  Comparators are the interface [TotalComparator]:
    the maxima are proved against it, and the comparators of positions and ranges
    are instances. *)

From S2P Require Import Prelude Position TextRange.

(** A predicate on the items of an array. *)
Definition on_item {A} (p : A -> bool) (o : option A) : bool :=
  match o with Some a => p a | None => false end.

(** ** Linear searches *)

(** [findLastIdx(array, predicate, fromIndex = array.length - 1)] *)
Definition findLastIdx {A} (array : list A) (predicate : option A -> bool)
    (fromIndex : option Z) : Z :=
  let start := default (zlen array - 1) fromIndex in
  while (Z.to_nat (start + 1))
    (fun i => (i >=? 0) && negb (predicate (at_ array i)))
    (fun i => i - 1) (Z.max start (-1)).

(** [findLast] does not hand its third parameter on. *)
Definition findLast {A} (array : list A) (predicate : option A -> bool)
    (fromIdx : option Z) : option A :=
  let idx := findLastIdx array predicate None in
  if idx =? -1 then None else at_ array idx.

(** ** Binary searches *)

Definition findLastIdxMonotonous {A} (array : list A) (predicate : option A -> bool)
    (startIdx : Z) (endIdxEx : option Z) : Z :=
  let '(i, _) :=
    let e := default (zlen array) endIdxEx in
    while (Z.to_nat (e - startIdx))
      (fun '(i, j) => i <? j)
      (fun '(i, j) =>
         let k := (i + j) / 2 in
         if predicate (at_ array k) then (k + 1, j) else (i, k))
      (startIdx, e) in
  i - 1.

Definition findLastMonotonous {A} (array : list A) (predicate : option A -> bool) : option A :=
  let idx := findLastIdxMonotonous array predicate 0 None in
  if idx =? -1 then None else at_ array idx.

Definition findFirstIdxMonotonousOrArrLen {A} (array : list A) (predicate : option A -> bool)
    (startIdx : Z) (endIdxEx : option Z) : Z :=
  let '(i, _) :=
    let e := default (zlen array) endIdxEx in
    while (Z.to_nat (e - startIdx))
      (fun '(i, j) => i <? j)
      (fun '(i, j) =>
         let k := (i + j) / 2 in
         if predicate (at_ array k) then (i, k) else (k + 1, j))
      (startIdx, e) in
  i.

Definition findFirstMonotonous {A} (array : list A) (predicate : option A -> bool) : option A :=
  let idx := findFirstIdxMonotonousOrArrLen array predicate 0 None in
  if idx =? zlen array then None else at_ array idx.

Definition findFirstIdxMonotonous {A} (array : list A) (predicate : option A -> bool)
    (startIdx : Z) (endIdxEx : option Z) : Z :=
  let idx := findFirstIdxMonotonousOrArrLen array predicate startIdx endIdxEx in
  if idx =? zlen array then -1 else idx.

(** ** [MonotonousArray] *)

Record MonotonousArray (A : Type) : Type := mkMonotonousArray {
  array_ : list A;
  findLastMonotonousLastIdx : Z;
  prevFindLastPredicate : option (option A -> bool) }.
Arguments mkMonotonousArray {A}.
Arguments array_ {A}.
Arguments findLastMonotonousLastIdx {A}.
Arguments prevFindLastPredicate {A}.

Definition new_MonotonousArray {A} (array : list A) : MonotonousArray A :=
  mkMonotonousArray array 0 None.

(** The static flag [assertInvariants] is an argument; the method returns its answer
    and the object after the call, or throws. *)
Definition MonotonousArray_findLastMonotonous {A} (assertInvariants : bool)
    (this : MonotonousArray A) (predicate : option A -> bool)
    : result (option A * MonotonousArray A) :=
  let violated :=
    match prevFindLastPredicate this with
    | Some prev => existsb (fun item => prev (Some item) && negb (predicate (Some item))) (array_ this)
    | None => false
    end in
  if assertInvariants && violated then Throw OtherError
  else
    let prev' := if assertInvariants then Some predicate else prevFindLastPredicate this in
    let idx := findLastIdxMonotonous (array_ this) predicate (findLastMonotonousLastIdx this) None in
    Ok (if idx =? -1 then None else at_ (array_ this) idx,
        mkMonotonousArray (array_ this) (idx + 1) prev').

(** ** Extrema under a comparator *)

Definition maxBy_loop {A} (keep : A -> A -> bool) (array : list A) : option A :=
  match array with
  | [] => None
  | a0 :: rest => Some (fold_left (fun max item => if keep item max then item else max) rest a0)
  end.

Definition findFirstMaxBy {A} (array : list A) (comparator : A -> A -> Z) : option A :=
  maxBy_loop (fun item max => comparator item max >? 0) array.

Definition findLastMaxBy {A} (array : list A) (comparator : A -> A -> Z) : option A :=
  maxBy_loop (fun item max => comparator item max >=? 0) array.

Definition findFirstMinBy {A} (array : list A) (comparator : A -> A -> Z) : option A :=
  findFirstMaxBy array (fun a b => - comparator a b).

(** The loop carries [maxIdx] and reads [array[maxIdx]] again at every step. *)
Definition findMaxIdxBy {A} (array : list A) (comparator : A -> A -> Z) : Z :=
  match array with
  | [] => -1
  | _ :: _ =>
      fold_left (fun maxIdx i =>
        match at_ array i, at_ array maxIdx with
        | Some item, Some cur => if comparator item cur >? 0 then i else maxIdx
        | _, _ => maxIdx
        end) (zrange 1 (zlen array)) 0
  end.

Fixpoint mapFindFirst {A R} (items : list A) (mapFn : A -> option R) : option R :=
  match items with
  | [] => None
  | value :: rest =>
      match mapFn value with
      | Some mapped => Some mapped
      | None => mapFindFirst rest mapFn
      end
  end.

(** ** Correctness of the binary searches *)

(** The predicate is [true, ..., true, false, ..., false] on the indices [lo..hi-1]. *)
Definition true_then_false {A} (array : list A) (p : option A -> bool) (lo hi : Z) : Prop :=
  forall i j, lo <= i -> i <= j -> j < hi -> p (at_ array j) = true -> p (at_ array i) = true.

Definition false_then_true {A} (array : list A) (p : option A -> bool) (lo hi : Z) : Prop :=
  true_then_false array (fun o => negb (p o)) lo hi.

Section binary_search.
Context {A : Type} (array : list A) (p : option A -> bool).

(** One loop serves both searches: [go_right] tells whether the middle item sends
    the search to the right. *)
Let go_right (q : option A -> bool) (s e : Z) : Z * Z :=
  while (Z.to_nat (e - s)) (fun '(i, j) => i <? j)
    (fun '(i, j) => let k := (i + j) / 2 in
       if q (at_ array k) then (k + 1, j) else (i, k)) (s, e).

Lemma search_loop q s e :
  s <= e ->
  let '(i, j) := go_right q s e in
  i = j /\ s <= i <= e /\
  (s < i -> q (at_ array (i - 1)) = true) /\ (i < e -> q (at_ array i) = false).
Proof.
  intros Hse. unfold go_right.
  set (I := fun st : Z * Z => let '(i, j) := st in s <= i /\ i <= j /\ j <= e /\
    (s < i -> q (at_ array (i - 1)) = true) /\ (j < e -> q (at_ array j) = false)).
  set (m := fun st : Z * Z => let '(i, j) := st in Z.to_nat (j - i)).
  while_inv I m as [HI Hc].
  - intros [i j]. unfold I, m. simpl. intros (?&?&?&?&?) Hlt.
    assert (i <= (i + j) / 2 < j) by (Z.div_mod_to_equations; lia).
    destruct (q (at_ array ((i + j) / 2))) eqn:E; split; try lia.
    + repeat split; try lia; try done.
      by replace ((i + j) / 2 + 1 - 1) with ((i + j) / 2) by lia.
    + repeat split; try lia; try done.
  - unfold I. repeat split; try lia.
  - unfold m. lia.
  - destruct (while _ _ _ _) as [i j]. unfold I in HI. simpl in *.
    assert (i = j) by lia. subst. destruct HI as (?&?&?&?&?). repeat split; auto; lia.
Qed.

Lemma search_last s e :
  s <= e -> true_then_false array p s e ->
  let k := findLastIdxMonotonous array p s (Some e) in
  s - 1 <= k < e /\
  (forall i, s <= i <= k -> p (at_ array i) = true) /\
  (forall i, k < i < e -> p (at_ array i) = false).
Proof.
  intros Hse Hmono. cbv zeta. pose proof (search_loop p s e Hse) as H.
  unfold findLastIdxMonotonous. simpl. unfold go_right in H.
  destruct (while _ _ _ _) as [i j]. destruct H as (_ & Hi & Hl & Hr).
  repeat split; try lia.
  - intros i' ?. apply (Hmono i' (i - 1)); try lia. apply Hl. lia.
  - intros i' ?. destruct (p (at_ array i')) eqn:E; [|done].
    rewrite <- (Hr ltac:(lia)). symmetry. by apply (Hmono i i'); try lia.
Qed.

Lemma search_first s e :
  s <= e -> false_then_true array p s e ->
  let k := findFirstIdxMonotonousOrArrLen array p s (Some e) in
  s <= k <= e /\
  (forall i, s <= i < k -> p (at_ array i) = false) /\
  (forall i, k <= i < e -> p (at_ array i) = true).
Proof.
  intros Hse Hmono. cbv zeta.
  pose proof (search_loop (fun o => negb (p o)) s e Hse) as H.
  assert (E : findFirstIdxMonotonousOrArrLen array p s (Some e) =
              (go_right (fun o => negb (p o)) s e).1).
  { unfold findFirstIdxMonotonousOrArrLen, go_right. simpl.
    rewrite (while_ext _ (fun '(i, j) => i <? j) (fun '(i, j) => i <? j) _
      (fun '(i, j) => let k := (i + j) / 2 in
         if negb (p (at_ array k)) then (k + 1, j) else (i, k))).
    - by destruct (while _ _ _ _).
    - done.
    - intros [i j]. simpl. by destruct (p _). }
  rewrite E. destruct (go_right _ s e) as [i j]. destruct H as (_ & Hi & Hl & Hr). simpl.
  repeat split; try lia.
  - intros i' ?. apply negb_true_iff. apply (Hmono i' (i - 1)); try lia. apply Hl. lia.
  - intros i' ?. destruct (p (at_ array i')) eqn:E'; [done|].
    assert (Hc : negb (p (at_ array i)) = true).
    { apply (Hmono i i'); try lia. by rewrite E'. }
    rewrite Hr in Hc by lia. done.
Qed.
(** [findLastIdxMonotonous] finds the boundary of a monotonous predicate: the
    result is the last index that satisfies it, or [startIdx - 1]; the loop ends. *)
Theorem findLastIdxMonotonous_correct s e :
  s <= e -> true_then_false array p s e ->
  let k := findLastIdxMonotonous array p s (Some e) in
  s - 1 <= k < e /\
  (forall i, s <= i <= k -> p (at_ array i) = true) /\
  (forall i, k < i < e -> p (at_ array i) = false).
Proof. apply search_last. Qed.

(** [findFirstIdxMonotonousOrArrLen] finds the first index that satisfies a
    monotonous predicate, or [endIdxEx]; the loop ends. *)
Theorem findFirstIdxMonotonous_correct s e :
  s <= e -> false_then_true array p s e ->
  let k := findFirstIdxMonotonousOrArrLen array p s (Some e) in
  s <= k <= e /\
  (forall i, s <= i < k -> p (at_ array i) = false) /\
  (forall i, k <= i < e -> p (at_ array i) = true).
Proof. apply search_first. Qed.
End binary_search.

Lemma findLastIdxMonotonous_correct_witness :
  let k := findLastIdxMonotonous [1; 3; 5; 7] (on_item (fun x => x <=? 4)) 0 (Some 4) in
  k = 1 /\ 0 - 1 <= k < 4.
Proof.
  split; [reflexivity|].
  apply (findLastIdxMonotonous_correct [1; 3; 5; 7] (on_item (fun x => x <=? 4)) 0 4); [lia|].
  intros i j ? ? ?.
  assert (i = 0 \/ i = 1 \/ i = 2 \/ i = 3) as [-> | [-> | [-> | ->]]] by lia;
  assert (j = 0 \/ j = 1 \/ j = 2 \/ j = 3) as [-> | [-> | [-> | ->]]] by lia;
    first [lia | vm_compute; congruence].
Defined.

Lemma findFirstIdxMonotonous_correct_witness :
  let k := findFirstIdxMonotonousOrArrLen [1; 3; 5; 7] (on_item (fun x => 4 <=? x)) 0 (Some 4) in
  k = 2 /\ 0 <= k <= 4.
Proof.
  split; [reflexivity|].
  apply (findFirstIdxMonotonous_correct [1; 3; 5; 7] (on_item (fun x => 4 <=? x)) 0 4); [lia|].
  intros i j ? ? ?.
  assert (i = 0 \/ i = 1 \/ i = 2 \/ i = 3) as [-> | [-> | [-> | ->]]] by lia;
  assert (j = 0 \/ j = 1 \/ j = 2 \/ j = 3) as [-> | [-> | [-> | ->]]] by lia;
    first [lia | vm_compute; congruence].
Defined.

(** The boundary is unique, so two searches with the same answer set agree. *)
Lemma boundary_unique {A} (array : list A) p lo s k k' e :
  lo <= s -> s - 1 <= k < e -> lo - 1 <= k' < e ->
  (forall i, s <= i <= k -> p (at_ array i) = true) ->
  (forall i, k < i < e -> p (at_ array i) = false) ->
  (forall i, lo <= i <= k' -> p (at_ array i) = true) ->
  (forall i, k' < i < e -> p (at_ array i) = false) ->
  (forall i, lo <= i < s -> p (at_ array i) = true) -> k = k'.
Proof.
  intros ??? Ht Hf Ht' Hf' Hlo.
  destruct (Z.lt_trichotomy k k') as [Hlt|[?|Hlt]]; [|done|]; exfalso.
  - specialize (Hf k' ltac:(lia)). rewrite Ht' in Hf by lia. done.
  - specialize (Hf' k ltac:(lia)).
    destruct (decide (s <= k)); [rewrite Ht in Hf' by lia|rewrite Hlo in Hf' by lia]; done.
Qed.

(** ** [MonotonousArray]: resuming the search changes no answer *)

(** A sequence of queries; the answers in order, or the first exception. *)
Fixpoint run_queries {A} (assertInvariants : bool) (this : MonotonousArray A)
    (ps : list (option A -> bool)) : result (list (option A)) :=
  match ps with
  | [] => Ok []
  | p :: ps' =>
      result_bind (MonotonousArray_findLastMonotonous assertInvariants this p)
        (fun '(o, this') => result_map (cons o) (run_queries assertInvariants this' ps'))
  end.

(** Each predicate is monotonous, and weaker than the one before it. *)
Fixpoint weakening {A} (array : list A) (prev : option A -> bool)
    (ps : list (option A -> bool)) : Prop :=
  match ps with
  | [] => True
  | p :: ps' =>
      true_then_false array p 0 (zlen array) /\
      (forall x, prev (Some x) = true -> p (Some x) = true) /\
      weakening array p ps'
  end.

Section monotonous_array.
Context {A : Type}.

Definition MonotonousArray_inv (assertInvariants : bool) (array : list A)
    (prev : option A -> bool) (this : MonotonousArray A) : Prop :=
  array_ this = array /\ 0 <= findLastMonotonousLastIdx this <= zlen array /\
  (forall i, 0 <= i < findLastMonotonousLastIdx this -> prev (at_ array i) = true) /\
  (prevFindLastPredicate this = None \/
   assertInvariants = true /\ prevFindLastPredicate this = Some prev).

Lemma findLastMonotonous_step assert array prev p this :
  MonotonousArray_inv assert array prev this ->
  true_then_false array p 0 (zlen array) ->
  (forall x, prev (Some x) = true -> p (Some x) = true) ->
  exists this', MonotonousArray_findLastMonotonous assert this p =
                  Ok (findLastMonotonous array p, this') /\
                MonotonousArray_inv assert array p this'.
Proof.
  intros (Ha & Hb & Hpre & Hprev) Hmono Hweak.
  assert (Hlo : forall i, 0 <= i < findLastMonotonousLastIdx this -> p (at_ array i) = true).
  { intros i Hi. destruct (at_in_range array i ltac:(lia)) as [x Hx].
    rewrite Hx. apply Hweak. rewrite <- Hx. auto. }
  destruct (search_last array p (findLastMonotonousLastIdx this) (zlen array))
    as (Hk & Ht & Hf); [lia| |].
  { intros i j ???. apply Hmono; lia. }
  destruct (search_last array p 0 (zlen array)) as (Hk' & Ht' & Hf');
    [lia|done|].
  pose proof (boundary_unique _ _ _ _ _ _ _ (proj1 Hb) Hk Hk' Ht Hf Ht' Hf' Hlo) as Heq.
  unfold MonotonousArray_findLastMonotonous.
  assert (Hv : match prevFindLastPredicate this with
    | Some prev => existsb (fun item => prev (Some item) && negb (p (Some item))) (array_ this)
    | None => false end = false).
  { destruct Hprev as [-> | [_ ->]]; [done|]. apply not_true_is_false. rewrite existsb_exists.
    intros (x & _ & [E1 E2]%andb_true_iff). rewrite Hweak in E2 by done. done. }
  rewrite Hv, andb_false_r, Ha. unfold findLastMonotonous.
  change (findLastIdxMonotonous array p ?s None)
    with (findLastIdxMonotonous array p s (Some (zlen array))).
  rewrite Heq. eexists. split; [done|].
  unfold MonotonousArray_inv. simpl. split_and!; try lia; [done|..].
  - intros i Hi. apply Ht'. lia.
  - destruct assert; [by right|]. left. by destruct Hprev as [? | [? _]].
Qed.

Lemma run_queries_from assert array prev this ps :
  MonotonousArray_inv assert array prev this ->
  weakening array prev ps ->
  run_queries assert this ps = Ok ((fun p => findLastMonotonous array p) <$> ps).
Proof.
  revert prev this. induction ps as [|p ps IH]; intros prev this Hinv Hw; simpl; [done|].
  destruct Hw as (Hm & Hle & Hw).
  destruct (findLastMonotonous_step assert array prev p this Hinv Hm Hle) as (this' & -> & H').
  simpl. by rewrite (IH p this' H' Hw).
Qed.

(** A [MonotonousArray] queried with predicates that only get weaker answers
    every query as a search from scratch would, and never throws, whether or not it
    checks its invariants. *)
Theorem MonotonousArray_refines_search assert (array : list A) ps :
  weakening array (fun _ => false) ps ->
  run_queries assert (new_MonotonousArray array) ps =
  Ok ((fun p => findLastMonotonous array p) <$> ps).
Proof.
  intros. eapply run_queries_from; [|done].
  unfold MonotonousArray_inv. simpl. pose proof (zlen_nonneg array).
  split_and!; try lia; try done. by left.
Qed.
End monotonous_array.

Lemma MonotonousArray_refines_search_witness :
  run_queries true (new_MonotonousArray [1; 3; 5])
    [on_item (fun x => x <=? 1); on_item (fun x => x <=? 4)] = Ok [Some 1; Some 3].
Proof.
  rewrite (MonotonousArray_refines_search true [1; 3; 5]).
  - reflexivity.
  - assert (Hmono : forall c, true_then_false [1; 3; 5] (on_item (fun x => x <=? c)) 0 3).
    { intros c i j ???.
      assert (i = 0 \/ i = 1 \/ i = 2) as [-> | [-> | ->]] by lia;
      assert (j = 0 \/ j = 1 \/ j = 2) as [-> | [-> | ->]] by lia; try lia;
        unfold at_; simpl; lia. }
    split; [apply Hmono|]. split; [done|].
    split; [apply Hmono|]. split; [|done]. intros x. simpl. lia.
Defined.

(** ** Comparators and extrema *)

(** What [Comparator<T>] promises to its clients: a total preorder, read off the
    sign. *)
Class TotalComparator {A} (cmp : A -> A -> Z) : Prop := {
  cmp_anti : forall a b, cmp a b < 0 <-> cmp b a > 0;
  cmp_trans : forall a b c, cmp a b <= 0 -> cmp b c <= 0 -> cmp a c <= 0 }.

#[export] Instance position_comparator : TotalComparator Pos.compare.
Proof. split; unfold Pos.compare; zbool. Qed.

#[export] Instance range_ends_comparator : TotalComparator Rng.compareRangesUsingEnds.
Proof. split; unfold Rng.compareRangesUsingEnds; zbool. Qed.

#[export] Instance range_starts_comparator : TotalComparator Rng.compareRangesUsingStarts.
Proof.
  split; unfold Rng.compareRangesUsingStarts.
  - intros [a|] [b|]; zbool.
  - intros [a|] [b|] [c|]; zbool.
Qed.

Section extrema.
Context {A : Type} (cmp : A -> A -> Z) `{!TotalComparator cmp}.

Lemma cmp_refl a : cmp a a = 0.
Proof. pose proof (cmp_anti a a). lia. Qed.

Lemma cmp_lt_le_trans a b c : cmp a b < 0 -> cmp b c <= 0 -> cmp a c < 0.
Proof.
  intros H1 H2. destruct (Z.lt_ge_cases (cmp a c) 0) as [|Hge]; [done|].
  assert (cmp c a <= 0) by (pose proof (cmp_anti a c); lia).
  pose proof (cmp_trans b c a H2 ltac:(done)). pose proof (cmp_anti a b). lia.
Qed.

(** [m] is at index [i], no item is greater, and none before [i] is as great. *)
Definition first_max (l : list A) (i : Z) (m : A) : Prop :=
  at_ l i = Some m /\
  forall j x, at_ l j = Some x -> (j < i -> cmp x m < 0) /\ (i <= j -> cmp x m <= 0).

Definition last_max (l : list A) (i : Z) (m : A) : Prop :=
  at_ l i = Some m /\
  forall j x, at_ l j = Some x -> (j <= i -> cmp x m <= 0) /\ (i < j -> cmp x m < 0).

Lemma first_max_le l i m j x : first_max l i m -> at_ l j = Some x -> cmp x m <= 0.
Proof.
  intros [_ H] Hx. destruct (H j x Hx) as [Ha Hb].
  destruct (Z.lt_ge_cases j i) as [Hl|Hl]; [specialize (Ha Hl); lia|by apply Hb].
Qed.

Lemma last_max_le l i m j x : last_max l i m -> at_ l j = Some x -> cmp x m <= 0.
Proof.
  intros [_ H] Hx. destruct (H j x Hx) as [Ha Hb].
  destruct (Z.lt_ge_cases i j) as [Hl|Hl]; [specialize (Hb Hl); lia|by apply Ha].
Qed.

Lemma maxBy_loop_snoc keep a0 (rest : list A) x :
  maxBy_loop keep ((a0 :: rest) ++ [x]) =
  (fun m => if keep x m : bool then x else m) <$> maxBy_loop keep (a0 :: rest).
Proof. simpl. by rewrite fold_left_app. Qed.

(** One step of the loops: appending an item moves the maximum, or not. *)
Lemma first_max_snoc l i m x :
  first_max l i m ->
  first_max (l ++ [x]) (if cmp x m >? 0 then zlen l else i) (if cmp x m >? 0 then x else m).
Proof.
  intros [Hi Hmax]. pose proof (at_lt _ _ _ Hi). destruct (Z.gtb_spec (cmp x m) 0) as [Hgt|Hle].
  - split; [apply at_app_last; by right|].
    intros j y [[Hy ?]|[-> ->]]%at_app_last; [|rewrite cmp_refl; split; lia].
    pose proof (first_max_le _ _ _ _ _ (conj Hi Hmax) Hy) as Hym.
    pose proof (cmp_anti m x). pose proof (cmp_anti y x). pose proof (cmp_anti x y).
    destruct (Z.lt_ge_cases (cmp y x) 0); [split; lia|exfalso].
    assert (Hxy : cmp x y <= 0) by lia.
    pose proof (cmp_trans x y m Hxy Hym). lia.
  - split; [apply at_app_last; left; split; [done|lia]|].
    intros j y [[Hy ?]|[-> ->]]%at_app_last; [by apply Hmax|split; lia].
Qed.

Lemma last_max_snoc l i m x :
  last_max l i m ->
  last_max (l ++ [x]) (if cmp x m >=? 0 then zlen l else i) (if cmp x m >=? 0 then x else m).
Proof.
  intros [Hi Hmax]. pose proof (at_lt _ _ _ Hi). destruct (Z.geb_spec (cmp x m) 0) as [Hgt|Hle].
  - split; [apply at_app_last; by right|].
    intros j y [[Hy ?]|[-> ->]]%at_app_last; [|rewrite cmp_refl; split; lia].
    pose proof (last_max_le _ _ _ _ _ (conj Hi Hmax) Hy) as Hym.
    assert (Hmx : cmp m x <= 0) by (pose proof (cmp_anti x m); lia).
    pose proof (cmp_trans y m x Hym Hmx). split; lia.
  - split; [apply at_app_last; left; split; [done|lia]|].
    intros j y [[Hy ?]|[-> ->]]%at_app_last; [by apply Hmax|split; lia].
Qed.

Lemma first_max_single a : first_max [a] 0 a.
Proof. split; [done|]. intros j y [-> ->]%at_singleton. rewrite cmp_refl. split; lia. Qed.

Lemma last_max_single a : last_max [a] 0 a.
Proof. split; [done|]. intros j y [-> ->]%at_singleton. rewrite cmp_refl. split; lia. Qed.

Lemma first_max_unique l i m j m' : first_max l i m -> first_max l j m' -> i = j.
Proof.
  intros [Hi H] [Hj H'].
  destruct (H _ _ Hj) as [Ha Hb]. destruct (H' _ _ Hi) as [Hc Hd].
  pose proof (cmp_anti m m'). pose proof (cmp_anti m' m).
  destruct (Z.lt_trichotomy i j) as [|[|]]; [|done|].
  - specialize (Hb ltac:(lia)). specialize (Hc ltac:(lia)). lia.
  - specialize (Ha ltac:(lia)). specialize (Hd ltac:(lia)). lia.
Qed.

Lemma findFirstMaxBy_first_max a0 rest :
  exists i m, findFirstMaxBy (a0 :: rest) cmp = Some m /\ first_max (a0 :: rest) i m.
Proof.
  induction rest as [|x rest (i & m & E & H)] using rev_ind.
  - exists 0, a0. split; [done|apply first_max_single].
  - unfold findFirstMaxBy in *. rewrite app_comm_cons, maxBy_loop_snoc, E. simpl.
    do 2 eexists. split; [done|].
    rewrite app_comm_cons. by apply first_max_snoc.
Qed.

Lemma findLastMaxBy_last_max a0 rest :
  exists i m, findLastMaxBy (a0 :: rest) cmp = Some m /\ last_max (a0 :: rest) i m.
Proof.
  induction rest as [|x rest (i & m & E & H)] using rev_ind.
  - exists 0, a0. split; [done|apply last_max_single].
  - unfold findLastMaxBy in *. rewrite app_comm_cons, maxBy_loop_snoc, E. simpl.
    do 2 eexists. split; [done|].
    rewrite app_comm_cons. by apply last_max_snoc.
Qed.

Lemma findMaxIdxBy_prefix (l : list A) (n : nat) :
  (0 < n <= length l)%nat ->
  exists m, first_max (take n l)
    (fold_left (fun maxIdx i =>
      match at_ l i, at_ l maxIdx with
      | Some item, Some cur => if cmp item cur >? 0 then i else maxIdx
      | _, _ => maxIdx
      end) (zrange 1 (Z.of_nat n)) 0) m.
Proof.
  induction n as [|n IH]; [lia|]. intros Hn.
  destruct n as [|n].
  - destruct l as [|a l]; [simpl in *; lia|]. exists a. apply first_max_single.
  - destruct (IH ltac:(lia)) as [m Hm]. clear IH.
    destruct (lookup_lt_is_Some_2 l (S n) ltac:(lia)) as [x Hx].
    rewrite zrange_snoc by lia. replace (Z.of_nat (S (S n)) - 1) with (Z.of_nat (S n)) by lia.
    rewrite fold_left_app. set (k := fold_left _ _ _) in *. cbn [fold_left].
    rewrite at_nat, Hx.
    pose proof (proj1 Hm) as Hk. pose proof (at_lt _ _ _ Hk) as Hlt.
    rewrite at_take in Hk by (unfold zlen in Hlt; rewrite length_take in Hlt; lia).
    rewrite Hk. rewrite (take_S_r l (S n) x Hx).
    exists (if cmp x m >? 0 then x else m).
    replace (Z.of_nat (S n)) with (zlen (take (S n) l))
      by (unfold zlen; rewrite length_take; lia).
    by apply first_max_snoc.
Qed.
End extrema.

(** under any comparator that is a total preorder, [findFirstMaxBy] and
    [findLastMaxBy] return the first and the last of the greatest items, and
    [findMaxIdxBy] the index of the first; on an empty array they return [undefined]
    and [-1]. *)
Theorem maxBy_correct {A} (cmp : A -> A -> Z) `{!TotalComparator cmp} (l : list A) :
  match l with
  | [] => findFirstMaxBy l cmp = None /\ findLastMaxBy l cmp = None /\ findMaxIdxBy l cmp = -1
  | _ :: _ =>
      (exists i m, findFirstMaxBy l cmp = Some m /\ first_max cmp l i m /\
                   findMaxIdxBy l cmp = i) /\
      (exists i m, findLastMaxBy l cmp = Some m /\ last_max cmp l i m)
  end.
Proof.
  destruct l as [|a0 rest]; [done|]. split; [|apply findLastMaxBy_last_max; apply _].
  destruct (findFirstMaxBy_first_max cmp a0 rest) as (i & m & E & H).
  exists i, m. split_and!; [done..|].
  destruct (findMaxIdxBy_prefix cmp (a0 :: rest) (length (a0 :: rest))) as [m' Hm'].
  { simpl. lia. }
  rewrite firstn_all in Hm'. unfold findMaxIdxBy. change (zlen (a0 :: rest)) with
    (Z.of_nat (length (a0 :: rest))).
  by eapply first_max_unique.
Qed.

(** The comparators of the editor can be used. *)
Example max_of_positions :
  findFirstMaxBy [mkPosition 1 4; mkPosition 3 1; mkPosition 2 9] Pos.compare
  = Some (mkPosition 3 1).
Proof. reflexivity. Qed.

Lemma maxBy_correct_witness :
  exists i m, findLastMaxBy [mkPosition 1 4; mkPosition 3 1; mkPosition 3 1] Pos.compare = Some m /\
    last_max Pos.compare [mkPosition 1 4; mkPosition 3 1; mkPosition 3 1] i m.
Proof.
  exact (proj2 (maxBy_correct Pos.compare [mkPosition 1 4; mkPosition 3 1; mkPosition 3 1])).
Defined.
