(* ===== verification/Interval.v ===== *)
(** * Half-open integer intervals and normalized lists of them

    The interface the classes [OffsetRange] and [LineRange] implement, and the theory
    their sets share: a list of intervals that is sorted and whose members do not
    touch denotes a set of integers, and replacing the members that touch a new
    interval by their join denotes the union. *)

From S2P Require Import Prelude.

Class Interval (A : Type) : Type := {
  lo : A -> Z;
  hi : A -> Z;
  mk : Z -> Z -> A;
  lo_mk : forall s e, lo (mk s e) = s;
  hi_mk : forall s e, hi (mk s e) = e }.

#[export] Hint Rewrite @lo_mk @hi_mk : js_len.

Section intervals.
Context {A : Type} `{!Interval A}.
Implicit Types (r a b : A) (l : list A) (n : Z).

Definition ivl_wf r : Prop := lo r <= hi r.
Definition ivl_nonempty r : Prop := lo r < hi r.
Definition mem n r : Prop := lo r <= n < hi r.
Definition covers l n : Prop := exists r, r ∈ l /\ mem n r.

(** [a] ends strictly before [b] starts. *)
Definition gap a b : Prop := hi a < lo b.

(** Sorted, and no two members touch. *)
Definition normal l : Prop := Forall ivl_wf l /\ StronglySorted gap l.
Definition normal_nonempty l : Prop := Forall ivl_nonempty l /\ StronglySorted gap l.

Definition touches r a : Prop := lo a <= hi r /\ lo r <= hi a.

Lemma covers_nil n : covers [] n <-> False.
Proof. unfold covers. split; [|done]. intros (?&H&_). by apply not_elem_of_nil in H. Qed.

Lemma covers_cons a l n : covers (a :: l) n <-> mem n a \/ covers l n.
Proof. unfold covers. set_solver. Qed.

Lemma covers_app l k n : covers (l ++ k) n <-> covers l n \/ covers k n.
Proof. unfold covers. set_solver. Qed.

Lemma covers_singleton a n : covers [a] n <-> mem n a.
Proof. rewrite covers_cons, covers_nil. tauto. Qed.

Lemma mem_mk n s e : mem n (mk s e) <-> s <= n < e.
Proof. unfold mem. by rewrite lo_mk, hi_mk. Qed.

Lemma normal_nonempty_normal l : normal_nonempty l -> normal l.
Proof.
  intros [H ?]. split; [|done]. eapply Forall_impl; [exact H|].
  unfold ivl_nonempty, ivl_wf. lia.
Qed.

Lemma normal_nil : normal [].
Proof. split; constructor. Qed.

Lemma normal_nonempty_nil : normal_nonempty [].
Proof. split; constructor. Qed.

Lemma gap_trans_wf a b c : ivl_wf b -> gap a b -> gap b c -> gap a c.
Proof. unfold gap, ivl_wf. lia. Qed.

(** Members in order: an earlier one starts and ends before a later one. *)
Lemma normal_lookup_lt l (i j : nat) a b :
  normal l -> l !! i = Some a -> l !! j = Some b -> (i < j)%nat -> gap a b.
Proof.
  intros [_ Hs] Hi Hj Hlt. revert i j Hi Hj Hlt.
  induction Hs as [|x l Hs IH Hx]; intros i j; [done|].
  destruct i as [|i], j as [|j]; simpl; intros Hi Hj Hlt; try lia.
  - simplify_eq. rewrite Forall_forall in Hx. apply Hx. by eapply list_elem_of_lookup_2.
  - eapply IH; eauto. lia.
Qed.

Lemma normal_at_lt l i j a b :
  normal l -> at_ l i = Some a -> at_ l j = Some b -> i < j -> gap a b.
Proof.
  unfold at_. destruct (Z.ltb_spec i 0), (Z.ltb_spec j 0); try done.
  intros. eapply normal_lookup_lt; eauto. lia.
Qed.

Lemma normal_at_wf l i a : normal l -> at_ l i = Some a -> ivl_wf a.
Proof.
  unfold at_. destruct (Z.ltb_spec i 0); [done|]. intros [Hf _] Hl.
  by eapply Forall_lookup_1 in Hf.
Qed.

Lemma normal_nonempty_app l k :
  normal_nonempty (l ++ k) <->
  normal_nonempty l /\ normal_nonempty k /\ forall a b, a ∈ l -> b ∈ k -> gap a b.
Proof. unfold normal_nonempty. rewrite Forall_app, StronglySorted_app. tauto. Qed.

Lemma normal_nonempty_singleton r : normal_nonempty [r] <-> ivl_nonempty r.
Proof.
  unfold normal_nonempty. rewrite Forall_singleton. split; [tauto|].
  intros. split; [done|]. repeat constructor.
Qed.

(** Appending at the end: the last member is the only one to compare with. *)
Lemma normal_nonempty_snoc l a b :
  normal_nonempty (l ++ [a]) -> ivl_nonempty b -> gap a b -> normal_nonempty ((l ++ [a]) ++ [b]).
Proof.
  intros Hn Hb Hg. apply normal_nonempty_app. split_and!; [done|by apply normal_nonempty_singleton|].
  intros x y Hx ->%list_elem_of_singleton.
  apply normal_nonempty_app in Hn as (_ & Ha & Hl). apply normal_nonempty_singleton in Ha.
  apply elem_of_app in Hx as [Hx| ->%list_elem_of_singleton]; [|done].
  specialize (Hl x a Hx (list_elem_of_here _ _)). unfold gap, ivl_nonempty in *. lia.
Qed.

(** The last member may grow to the right. *)
Lemma normal_nonempty_grow l a b :
  normal_nonempty (l ++ [a]) -> lo b = lo a -> hi a <= hi b -> normal_nonempty (l ++ [b]).
Proof.
  intros (Hl & Ha & Hg)%normal_nonempty_app Hlo Hhi. apply normal_nonempty_singleton in Ha.
  apply normal_nonempty_app. split_and!; [done| |].
  - apply normal_nonempty_singleton. unfold ivl_nonempty in *. lia.
  - intros x y Hx ->%list_elem_of_singleton.
    specialize (Hg x a Hx (list_elem_of_here _ _)). unfold gap in *. lia.
Qed.

Lemma take_at_S l i a :
  at_ l i = Some a -> take (Z.to_nat (i + 1)) l = take (Z.to_nat i) l ++ [a].
Proof.
  unfold at_. destruct (Z.ltb_spec i 0); [done|]. intros Hl.
  replace (Z.to_nat (i + 1)) with (S (Z.to_nat i)) by lia. by apply take_S_r.
Qed.

Lemma drop_at_S l i a :
  at_ l i = Some a -> drop (Z.to_nat i) l = a :: drop (Z.to_nat (i + 1)) l.
Proof.
  unfold at_. destruct (Z.ltb_spec i 0); [done|]. intros Hl.
  replace (Z.to_nat (i + 1)) with (S (Z.to_nat i)) by lia. by apply drop_S.
Qed.

(** ** Joining an interval with the members it touches *)

Definition join_block r l : A :=
  match head l, last l with
  | Some a, Some b => mk (Z.min (lo r) (lo a)) (Z.max (hi r) (hi b))
  | _, _ => r
  end.

Lemma normal_head_le l a x : normal l -> head l = Some a -> x ∈ l -> lo a <= lo x.
Proof.
  destruct l as [|a' l]; [done|]. intros [Hf Hs] [= ->] [->|Hx]%elem_of_cons; [lia|].
  apply StronglySorted_inv in Hs as [_ Hs]. rewrite Forall_forall in Hs, Hf.
  specialize (Hs x Hx). specialize (Hf a (list_elem_of_here _ _)).
  unfold gap, ivl_wf in *. lia.
Qed.

Lemma normal_last_le l b x : normal l -> last l = Some b -> x ∈ l -> hi x <= hi b.
Proof.
  intros [Hf Hs] Hb Hx. apply last_Some in Hb as [l' ->].
  apply StronglySorted_app in Hs as (Hs & _ & _). apply Forall_app in Hf as [_ Hf].
  rewrite Forall_singleton in Hf. apply elem_of_app in Hx as [Hx|Hx%list_elem_of_singleton].
  - specialize (Hs x b Hx (list_elem_of_here _ _)). unfold gap, ivl_wf in *. lia.
  - subst. lia.
Qed.

Lemma join_block_bounds r l :
  ivl_wf r -> normal l -> Forall (touches r) l ->
  lo (join_block r l) <= lo r /\ hi r <= hi (join_block r l) /\
  (lo (join_block r l) = lo r \/ exists a, a ∈ l /\ lo a = lo (join_block r l)) /\
  (hi (join_block r l) = hi r \/ exists a, a ∈ l /\ hi a = hi (join_block r l)) /\
  forall n, mem n (join_block r l) <-> mem n r \/ covers l n.
Proof.
  intros Hr Hn Ht. unfold join_block.
  destruct (head l) as [a|] eqn:Ha.
  2:{ destruct l; [|done]. setoid_rewrite covers_nil. split_and!; try lia; tauto. }
  destruct (last l) as [b|] eqn:Hb.
  2:{ apply last_None in Hb as ->. done. }
  assert (Hal : a ∈ l) by (destruct l; simplify_eq/=; left).
  assert (Hbl : b ∈ l).
  { apply last_Some in Hb as [? ->]. apply elem_of_app. right. left. }
  rewrite Forall_forall in Ht.
  pose proof (Ht a Hal) as [Ha1 Ha2]. pose proof (Ht b Hbl) as [Hb1 Hb2].
  rewrite lo_mk, hi_mk. split_and!; try lia.
  - destruct (Z.min_spec (lo r) (lo a)) as [[_ ->]|[_ ->]]; eauto.
  - destruct (Z.max_spec (hi r) (hi b)) as [[_ ->]|[_ ->]]; eauto.
  - intros n. rewrite mem_mk. unfold mem, covers, ivl_wf in *. split.
    + intros [??]. destruct (decide (lo r <= n < hi r)); [by left|right].
      destruct (decide (n < lo r)); [exists a|exists b]; (split; [done|unfold mem; lia]).
    + intros [?|(x & Hx & ?)]; [lia|].
      pose proof (normal_head_le l a x Hn Ha Hx). pose proof (normal_last_le l b x Hn Hb Hx).
      unfold mem in *. lia.
Qed.

Lemma normal_app l k :
  normal (l ++ k) <-> normal l /\ normal k /\ forall a b, a ∈ l -> b ∈ k -> gap a b.
Proof. unfold normal. rewrite Forall_app, StronglySorted_app. tauto. Qed.

Lemma normal_singleton r : normal [r] <-> ivl_wf r.
Proof.
  unfold normal. rewrite Forall_singleton. split; [tauto|].
  intros. split; [done|]. repeat constructor.
Qed.

(** Replacing the block of members that touch [r] by the join keeps the list
    normalized and adds exactly [r] to the set it denotes. *)
Lemma join_block_normal l1 l2 l3 r :
  normal (l1 ++ l2 ++ l3) -> ivl_wf r ->
  (forall a, a ∈ l1 -> gap a r) -> Forall (touches r) l2 -> (forall a, a ∈ l3 -> gap r a) ->
  normal (l1 ++ [join_block r l2] ++ l3) /\
  forall n, covers (l1 ++ [join_block r l2] ++ l3) n <-> covers (l1 ++ l2 ++ l3) n \/ mem n r.
Proof.
  intros Hn Hr H1 H2 H3.
  apply normal_app in Hn as (Hn1 & Hn23 & Hg1). apply normal_app in Hn23 as (Hn2 & Hn3 & Hg2).
  destruct (join_block_bounds r l2 Hr Hn2 H2) as (Hlo & Hhi & Hlo' & Hhi' & Hmem).
  split.
  - apply normal_app. split_and!; [done| |].
    + apply normal_app. split_and!; [|done|].
      * apply normal_singleton. unfold ivl_wf in *. lia.
      * intros a b ->%list_elem_of_singleton Hb. unfold gap in *.
        destruct Hhi' as [-> |(x & Hx & <-)]; [by apply H3|by apply Hg2].
    + intros a b Ha [->%list_elem_of_singleton|Hb]%elem_of_app.
      * unfold gap in *. destruct Hlo' as [-> |(x & Hx & <-)]; [by apply H1|].
        apply Hg1; [done|]. apply elem_of_app. by left.
      * apply Hg1; [done|]. apply elem_of_app. by right.
  - intros n. rewrite !covers_app, covers_singleton, Hmem. tauto.
Qed.

(** ** Replacing a block of an array given by its boundaries *)

Definition block l (i j : Z) : list A := take (Z.to_nat (j - i)) (drop (Z.to_nat i) l).

Lemma block_split l i j :
  0 <= i -> i <= j -> l = take (Z.to_nat i) l ++ block l i j ++ drop (Z.to_nat j) l.
Proof.
  intros ??. unfold block. replace (Z.to_nat j) with (Z.to_nat i + Z.to_nat (j - i))%nat by lia.
  rewrite <- drop_drop, take_drop, take_drop. done.
Qed.

Lemma elem_of_take_at l i a : a ∈ take (Z.to_nat i) l <-> exists k, at_ l k = Some a /\ k < i.
Proof.
  rewrite elem_of_take. split.
  - intros (k & Hk & ?). exists (Z.of_nat k). rewrite at_nat. split; [done|lia].
  - intros (k & Hk & ?). pose proof (at_lt _ _ _ Hk). exists (Z.to_nat k).
    unfold at_ in Hk. destruct (Z.ltb_spec k 0); [done|]. split; [done|lia].
Qed.

Lemma elem_of_drop_at l i a :
  0 <= i -> a ∈ drop (Z.to_nat i) l <-> exists k, at_ l k = Some a /\ i <= k.
Proof.
  intros ?. rewrite list_elem_of_lookup. setoid_rewrite lookup_drop. split.
  - intros (k & Hk). exists (Z.of_nat (Z.to_nat i + k)). rewrite at_nat. split; [done|lia].
  - intros (k & Hk & ?). exists (Z.to_nat k - Z.to_nat i)%nat.
    unfold at_ in Hk. destruct (Z.ltb_spec k 0); [done|].
    by replace (Z.to_nat i + (Z.to_nat k - Z.to_nat i))%nat with (Z.to_nat k) by lia.
Qed.

Lemma elem_of_block l i j a :
  0 <= i -> a ∈ block l i j <-> exists k, at_ l k = Some a /\ i <= k < j.
Proof.
  intros ?. unfold block. rewrite elem_of_take. setoid_rewrite lookup_drop. split.
  - intros (k & Hk & ?). exists (Z.of_nat (Z.to_nat i + k)). rewrite at_nat. split; [done|lia].
  - intros (k & Hk & ?). exists (Z.to_nat k - Z.to_nat i)%nat.
    unfold at_ in Hk. destruct (Z.ltb_spec k 0); [done|]. split; [|lia].
    by replace (Z.to_nat i + (Z.to_nat k - Z.to_nat i))%nat with (Z.to_nat k) by lia.
Qed.

Lemma splice_block l i j (m : A) :
  0 <= i -> i <= j -> j <= zlen l ->
  splice l i (j - i) [m] = take (Z.to_nat i) l ++ [m] ++ drop (Z.to_nat j) l.
Proof.
  intros. unfold splice, rel_index. destruct (Z.ltb_spec i 0); [lia|].
  replace (Z.min i (zlen l)) with i by lia.
  by replace (i + Z.min (Z.max (j - i) 0) (zlen l - i)) with j by lia.
Qed.

Lemma block_head l i j : 0 <= i -> i < j -> j <= zlen l -> head (block l i j) = at_ l i.
Proof.
  intros. destruct (at_in_range l i ltac:(lia)) as [a Ha]. rewrite Ha.
  rewrite head_lookup. unfold block. rewrite lookup_take_lt by lia. rewrite lookup_drop.
  unfold at_ in Ha. destruct (Z.ltb_spec i 0); [done|]. by rewrite Nat.add_0_r.
Qed.

Lemma block_last l i j : 0 <= i -> i < j -> j <= zlen l -> last (block l i j) = at_ l (j - 1).
Proof.
  intros. destruct (at_in_range l (j - 1) ltac:(lia)) as [a Ha]. rewrite Ha.
  assert (Hlen : length (block l i j) = Z.to_nat (j - i)).
  { unfold block, zlen in *. rewrite length_take, length_drop. lia. }
  rewrite last_lookup, Hlen. unfold block. rewrite lookup_take_lt by lia. rewrite lookup_drop.
  unfold at_ in Ha. destruct (Z.ltb_spec (j - 1) 0); [done|].
  by replace (Z.to_nat i + Init.Nat.pred (Z.to_nat (j - i)))%nat with (Z.to_nat (j - 1)) by lia.
Qed.

(** [i] and [j] are the boundaries of the members that touch [r]. *)
Definition touch_bounds l r i j : Prop :=
  0 <= i <= zlen l /\ 0 <= j <= zlen l /\
  (forall k a, at_ l k = Some a -> (k < i <-> hi a < lo r)) /\
  (forall k a, at_ l k = Some a -> (k < j <-> lo a <= hi r)).

Lemma touch_bounds_le l r i j :
  normal l -> ivl_wf r -> touch_bounds l r i j -> i <= j.
Proof.
  intros Hn Hr (Hi & Hj & Hlt & Hle). destruct (Z.le_gt_cases i j) as [|Hc]; [done|exfalso].
  destruct (at_in_range l j ltac:(lia)) as [a Ha].
  pose proof (Hlt j a Ha). pose proof (Hle j a Ha).
  pose proof (normal_at_wf l j a Hn Ha). unfold ivl_wf in *. lia.
Qed.

Lemma insert_normal l r i j :
  normal l -> ivl_wf r -> touch_bounds l r i j ->
  let l' := splice l i (j - i) [join_block r (block l i j)] in
  normal l' /\ forall n, covers l' n <-> covers l n \/ mem n r.
Proof.
  intros Hn Hr Hb. pose proof (touch_bounds_le l r i j Hn Hr Hb) as Hij.
  destruct Hb as (Hi & Hj & Hlt & Hle). cbv zeta. rewrite splice_block by lia.
  pose proof (block_split l i j ltac:(lia) Hij) as E.
  assert (Hn' := Hn). rewrite E in Hn'.
  destruct (join_block_normal _ _ _ r Hn' Hr) as [H1 H2].
  - intros a (k & Hk & ?)%elem_of_take_at. by apply (Hlt k a Hk).
  - rewrite Forall_forall. intros a (k & Hk & ?)%elem_of_block; [|lia].
    pose proof (Hlt k a Hk). pose proof (Hle k a Hk). unfold touches. lia.
  - intros a (k & Hk & ?)%elem_of_drop_at; [|lia].
    pose proof (Hle k a Hk). unfold gap. lia.
  - split; [done|]. intros n. rewrite H2, <- E. done.
Qed.

Lemma insert_nonempty l r i j :
  normal_nonempty l -> ivl_nonempty r -> touch_bounds l r i j ->
  normal_nonempty (splice l i (j - i) [join_block r (block l i j)]).
Proof.
  intros Hn Hr Hb. pose proof (normal_nonempty_normal l Hn) as Hn'.
  assert (Hr' : ivl_wf r) by (unfold ivl_wf, ivl_nonempty in *; lia).
  pose proof (touch_bounds_le l r i j Hn' Hr' Hb) as Hij.
  destruct (insert_normal l r i j Hn' Hr' Hb) as [[_ Hs] _]. split; [|done].
  destruct Hb as (Hi & Hj & Hlt & Hle). rewrite splice_block by lia.
  destruct Hn as [Hf _].
  rewrite !Forall_app, Forall_singleton. split_and!; [by apply Forall_take| |by apply Forall_drop].
  destruct (join_block_bounds r (block l i j) Hr') as (? & ? & _).
  - rewrite (block_split l i j ltac:(lia) Hij) in Hn'.
    apply normal_app in Hn' as (_ & Hn' & _). by apply normal_app in Hn' as (Hn' & _).
  - rewrite Forall_forall. intros a (k & Hk & ?)%elem_of_block; [|lia].
    pose proof (Hlt k a Hk). pose proof (Hle k a Hk). unfold touches. lia.
  - unfold ivl_nonempty in *. lia.
Qed.

(** The bounds are characterised by what holds just before and at them. *)
Lemma touch_bounds_intro l r i j :
  normal l -> 0 <= i <= zlen l -> 0 <= j <= zlen l ->
  (forall k a, at_ l k = Some a -> k < i -> hi a < lo r) ->
  (forall a, at_ l i = Some a -> lo r <= hi a) ->
  (forall k a, at_ l k = Some a -> k < j -> lo a <= hi r) ->
  (forall a, at_ l j = Some a -> hi r < lo a) ->
  touch_bounds l r i j.
Proof.
  intros Hn Hi Hj H1 H2 H3 H4. split_and!; try lia; intros k a Hk; (split; [eauto|]).
  - intros Hlt. destruct (Z.lt_ge_cases k i) as [|Hge]; [done|exfalso].
    destruct (at_in_range l i) as [b Hb]; [apply at_lt in Hk; lia|].
    pose proof (H2 b Hb). destruct (decide (i = k)) as [->|Hne]; [simplify_eq; lia|].
    pose proof (normal_at_lt l i k b a Hn Hb Hk ltac:(lia)).
    pose proof (normal_at_wf l k a Hn Hk). unfold gap, ivl_wf in *. lia.
  - intros Hle. destruct (Z.lt_ge_cases k j) as [|Hge]; [done|exfalso].
    destruct (at_in_range l j) as [b Hb]; [apply at_lt in Hk; lia|].
    pose proof (H4 b Hb). destruct (decide (j = k)) as [->|Hne]; [simplify_eq; lia|].
    pose proof (normal_at_lt l j k b a Hn Hb Hk ltac:(lia)).
    pose proof (normal_at_wf l j b Hn Hb). unfold gap, ivl_wf in *. lia.
Qed.

(** ** Counting *)

(** The integers of the members, in order. *)
Definition elems l : list Z := l ≫= (fun r => zrange (lo r) (hi r)).

Lemma elem_of_elems l n : n ∈ elems l <-> covers l n.
Proof.
  unfold elems, covers. rewrite list_elem_of_bind. setoid_rewrite elem_of_zrange.
  unfold mem. naive_solver.
Qed.

Lemma NoDup_elems l : normal l -> NoDup (elems l).
Proof.
  induction l as [|a l IH]; [constructor|]. intros Hn.
  change (a :: l) with ([a] ++ l) in Hn. apply normal_app in Hn as (_ & Hl & Hg).
  change (elems (a :: l)) with (zrange (lo a) (hi a) ++ elems l).
  apply NoDup_app. split_and!; [apply NoDup_zrange| |by apply IH].
  intros n Hn (b & Hb & ?)%elem_of_elems. apply elem_of_zrange in Hn.
  specialize (Hg a b (list_elem_of_here _ _) Hb). unfold gap, mem in *. lia.
Qed.

Lemma size_covers l (X : gset Z) :
  normal l -> (forall n, n ∈ X <-> covers l n) -> Z.of_nat (size X) = zlen (elems l).
Proof.
  intros Hn HX. assert (X = list_to_set (elems l)) as ->.
  { apply set_eq. intros n. by rewrite HX, elem_of_list_to_set, elem_of_elems. }
  rewrite size_list_to_set by by apply NoDup_elems. done.
Qed.
End intervals.
