(* ===== verification/OffsetRange.v ===== *)
(** * Offset ranges and sets of offsets

    [src/src/vs/editor/common/core/offsetRange.ts]: the class [OffsetRange], whose
    constructor throws on a range that ends before it starts, and [OffsetRangeSet],
    a sorted array of ranges that do not touch.  [OffsetRange] is an instance of
    [Interval]; the set operations are proved to be the operations on sets of
    integers. *)

From S2P Require Import Prelude Interval.

#[local] Open Scope js_scope.

Record OffsetRange : Type := mkOffsetRange { start : Z; endExclusive : Z }.

#[export] Instance OffsetRange_eq_dec : EqDecision OffsetRange.
Proof. solve_decision. Defined.

#[export] Instance OffsetRange_interval : Interval OffsetRange :=
  {| lo := start; hi := endExclusive; mk := mkOffsetRange;
     lo_mk := fun _ _ => eq_refl; hi_mk := fun _ _ => eq_refl |}.

Module OR.

Definition new_OffsetRange (s e : Z) : result OffsetRange :=
  if s >? e then Throw BugIndicatingError else Ok (mkOffsetRange s e).

Definition tryCreate (s e : Z) : result (option OffsetRange) :=
  if s >? e then Ok None else result_map Some (new_OffsetRange s e).

Definition ofLength (length : Z) : result OffsetRange := new_OffsetRange 0 length.

Definition isEmpty (this : OffsetRange) : bool := start this =? endExclusive this.

Definition delta (this : OffsetRange) (offset : Z) : result OffsetRange :=
  new_OffsetRange (start this + offset) (endExclusive this + offset).

Definition deltaStart (this : OffsetRange) (offset : Z) : result OffsetRange :=
  new_OffsetRange (start this + offset) (endExclusive this).

Definition deltaEnd (this : OffsetRange) (offset : Z) : result OffsetRange :=
  new_OffsetRange (start this) (endExclusive this + offset).

Definition length (this : OffsetRange) : Z := endExclusive this - start this.

Definition equals (this other : OffsetRange) : bool :=
  (start this =? start other) && (endExclusive this =? endExclusive other).

Definition containsRange (this other : OffsetRange) : bool :=
  (start this <=? start other) && (endExclusive other <=? endExclusive this).

Definition contains (this : OffsetRange) (offset : Z) : bool :=
  (start this <=? offset) && (offset <? endExclusive this).

Definition join (this other : OffsetRange) : result OffsetRange :=
  new_OffsetRange (Z.min (start this) (start other))
                  (Z.max (endExclusive this) (endExclusive other)).

Definition intersect (this other : OffsetRange) : result (option OffsetRange) :=
  let s := Z.max (start this) (start other) in
  let e := Z.min (endExclusive this) (endExclusive other) in
  if s <=? e then result_map Some (new_OffsetRange s e) else Ok None.

Definition slice {T} (this : OffsetRange) (arr : list T) : list T :=
  Prelude.slice arr (start this) (endExclusive this).

Definition clip (this : OffsetRange) (value : Z) : result Z :=
  if isEmpty this then Throw BugIndicatingError
  else Ok (Z.max (start this) (Z.min (endExclusive this - 1) value)).

Definition clipCyclic (this : OffsetRange) (value : Z) : result Z :=
  if isEmpty this then Throw BugIndicatingError
  else if value <? start this then
    Ok (endExclusive this - Z.rem (start this - value) (length this))
  else if value >=? endExclusive this then
    Ok (start this + Z.rem (value - start this) (length this))
  else Ok value.

Definition map {T} (this : OffsetRange) (f : Z -> T) : list T :=
  fold_left (fun result i => result ++ [f i]) (zrange (start this) (endExclusive this)) [].

(** The first index from [i] on whose range fails the test, or the length. *)
Definition scan (p : OffsetRange -> bool) (l : list OffsetRange) (i : Z) : Z :=
  while (Datatypes.length l)
    (fun i => match l.[i] with Some r => p r | None => false end) (fun i => i + 1) i.

(** The static [addRange(range, sortedRanges)] and the method of [OffsetRangeSet], which
    mutate the array; the result is the array after the call. *)
Definition addRange (range : OffsetRange) (sortedRanges : list OffsetRange)
    : result (list OffsetRange) :=
  let i := scan (fun r => endExclusive r <? start range) sortedRanges 0 in
  let j := scan (fun r => start r <=? endExclusive range) sortedRanges i in
  if i =? j then Ok (splice sortedRanges i 0 [range])
  else
    match sortedRanges.[i], sortedRanges.[j - 1] with
    | Some ri, Some rj =>
        let s := Z.min (start range) (start ri) in
        let e := Z.max (endExclusive range) (endExclusive rj) in
        let* r := new_OffsetRange s e in
        Ok (splice sortedRanges i (j - i) [r])
    | _, _ => Throw TypeError
    end.

End OR.

Module ORSet.

Record OffsetRangeSet : Type := mkSet { sortedRanges : list OffsetRange }.

Definition empty : OffsetRangeSet := mkSet [].

Definition addRange (this : OffsetRangeSet) (range : OffsetRange) : result OffsetRangeSet :=
  result_map mkSet (OR.addRange range (sortedRanges this)).

Definition intersectsStrict (this : OffsetRangeSet) (other : OffsetRange) : bool :=
  let l := sortedRanges this in
  let i := OR.scan (fun r => endExclusive r <=? start other) l 0 in
  match l.[i] with
  | Some r => (i <? zlen l) && (start r <? endExclusive other)
  | None => false
  end.

(** The body of the loop over the ranges. *)
Definition intersect_step (other : OffsetRange) (acc : result OffsetRangeSet)
    (range : OffsetRange) : result OffsetRangeSet :=
  let* result := acc in
  let* intersection := OR.intersect range other in
  match intersection with
  | Some i => addRange result i
  | None => Ok result
  end.

Definition intersectWithRange (this : OffsetRangeSet) (other : OffsetRange)
    : result OffsetRangeSet :=
  fold_left (intersect_step other) (sortedRanges this) (Ok empty).

Definition length (this : OffsetRangeSet) : Z :=
  fold_left (fun prev cur => prev + OR.length cur) (sortedRanges this) 0.

Definition intersectWithRangeLength (this : OffsetRangeSet) (other : OffsetRange) : result Z :=
  result_map length (intersectWithRange this other).

End ORSet.

Import OR.

(** ** Single ranges *)

Definition or_wf (r : OffsetRange) : Prop := start r <= endExclusive r.

Lemma new_OffsetRange_ok s e : s <= e -> new_OffsetRange s e = Ok (mkOffsetRange s e).
Proof. unfold new_OffsetRange. zbool. Qed.

Lemma contains_mem r n : contains r n = true <-> mem n r.
Proof. unfold contains, mem. simpl. lia. Qed.

Lemma intersect_cases a b :
  or_wf a -> or_wf b ->
  match intersect a b with
  | Ok (Some r) => or_wf r /\ forall n, contains r n = true <->
                                        contains a n = true /\ contains b n = true
  | Ok None => endExclusive a < start b \/ endExclusive b < start a
  | Throw _ => False
  end.
Proof.
  unfold or_wf. intros Ha Hb.
  unfold intersect. destruct (Z.leb_spec (Z.max (start a) (start b))
    (Z.min (endExclusive a) (endExclusive b))); [|lia].
  rewrite new_OffsetRange_ok by lia. simpl. split; [lia|].
  intros n. unfold contains. simpl. lia.
Qed.

(** [join] never throws on well-formed ranges and gives the least range over both;
    [intersect] contains exactly the common offsets, and is [undefined] exactly when
    the ranges do not even touch. *)
Theorem join_intersect_spec a b :
  or_wf a -> or_wf b ->
  (exists r, join a b = Ok r /\ or_wf r /\
     (forall c, containsRange c r = true <->
                containsRange c a = true /\ containsRange c b = true)) /\
  match intersect a b with
  | Ok (Some r) => or_wf r /\ forall n, contains r n = true <->
                                        contains a n = true /\ contains b n = true
  | Ok None => endExclusive a < start b \/ endExclusive b < start a
  | Throw _ => False
  end.
Proof.
  intros Ha Hb. split; [|by apply intersect_cases].
  unfold or_wf in *. unfold join. rewrite new_OffsetRange_ok by lia.
  eexists. split; [done|]. simpl.
  split; [lia|]. intros c. unfold containsRange. simpl. lia.
Qed.

Lemma join_intersect_spec_witness :
  exists r, join (mkOffsetRange 1 4) (mkOffsetRange 6 9) = Ok r /\ or_wf r.
Proof.
  destruct (join_intersect_spec (mkOffsetRange 1 4) (mkOffsetRange 6 9)) as [(r & H & W & _) _];
    [unfold or_wf; simpl; lia | unfold or_wf; simpl; lia | exists r; split; [exact H | exact W]].
Defined.

(** [clipCyclic] returns [value + k * length] for some [k]; above the start the
    result is inside the range, below the start it is inside unless the distance to
    the start is a multiple of the length, where the code returns the exclusive end. *)
Theorem clipCyclic_behaviour r v :
  start r < endExclusive r ->
  exists x, clipCyclic r v = Ok x /\
    (exists k, x = v + k * length r) /\
    (start r <= v -> contains r x = true) /\
    (v < start r -> (contains r x = true <-> (start r - v) mod length r <> 0)) /\
    (v < start r -> (start r - v) mod length r = 0 -> x = endExclusive r).
Proof.
  unfold clipCyclic, isEmpty, length, contains. destruct r as [s e]. simpl. intros Hr.
  destruct (Z.eqb_spec s e); [lia|].
  destruct (Z.ltb_spec v s).
  - eexists. split; [done|]. rewrite Z.rem_mod_nonneg by lia.
    pose proof (Z.mod_pos_bound (s - v) (e - s) ltac:(lia)).
    pose proof (Z_div_mod_eq_full (s - v) (e - s)) as E.
    split_and!; try lia. exists ((s - v) / (e - s) + 1). lia.
  - destruct (Z.geb_spec v e).
    + eexists. split; [done|]. rewrite Z.rem_mod_nonneg by lia.
      pose proof (Z.mod_pos_bound (v - s) (e - s) ltac:(lia)).
      pose proof (Z_div_mod_eq_full (v - s) (e - s)) as E.
      split_and!; try lia. exists (- ((v - s) / (e - s))). lia.
    + eexists. split; [done|]. split_and!; try lia. exists 0. lia.
Qed.

Lemma clipCyclic_behaviour_witness :
  clipCyclic (mkOffsetRange 5 10) 4 = Ok 9 /\
  exists x, clipCyclic (mkOffsetRange 5 10) 0 = Ok x /\ x = endExclusive (mkOffsetRange 5 10).
Proof.
  split; [reflexivity|].
  destruct (clipCyclic_behaviour (mkOffsetRange 5 10) 0) as (x & E & _ & _ & _ & H);
    [simpl; lia | exists x; split; [exact E | apply H; [simpl; lia | reflexivity]]].
Defined.

(** ** Sets of offsets *)

Lemma scan_spec p l i :
  0 <= i <= zlen l ->
  let k := scan p l i in
  i <= k <= zlen l /\
  (forall k' r, i <= k' < k -> l.[k'] = Some r -> p r = true) /\
  (forall r, l.[k] = Some r -> p r = false).
Proof.
  intros Hi. cbv zeta. unfold scan.
  set (I := fun k => i <= k <= zlen l /\
                     forall k' r, i <= k' < k -> l.[k'] = Some r -> p r = true).
  while_inv I (fun k => Z.to_nat (zlen l - k)) as [[HI HI'] Hc].
  - intros k [Hk Hp] Hc. destruct (l.[k]) as [r|] eqn:E; [|done].
    pose proof (at_lt _ _ _ E). split; [|lia]. split; [lia|].
    intros k' r' ? Hr'. destruct (decide (k' = k)) as [->|]; [congruence|].
    apply (Hp k'); [lia|done].
  - split; [lia|]. intros. lia.
  - unfold zlen in *. lia.
  - split_and!; [lia|lia|done|]. intros r Hr. by rewrite Hr in Hc.
Qed.

Lemma addRange_bounds l r :
  normal l -> or_wf r ->
  let i := scan (fun x => endExclusive x <? start r) l 0 in
  let j := scan (fun x => start x <=? endExclusive r) l i in
  touch_bounds l r i j.
Proof.
  intros Hn Hr. cbv zeta. pose proof (zlen_nonneg l).
  destruct (scan_spec (fun x => endExclusive x <? start r) l 0) as (Hi & Hi1 & Hi2); [lia|].
  set (i := scan _ l 0) in *.
  destruct (scan_spec (fun x => start x <=? endExclusive r) l i) as (Hj & Hj1 & Hj2); [lia|].
  set (j := scan _ l i) in *. simpl in *.
  apply touch_bounds_intro; simpl; try lia; try done.
  - intros k a Hk Hlt. pose proof (at_lt _ _ _ Hk). specialize (Hi1 k a ltac:(lia) Hk). lia.
  - intros a Ha. specialize (Hi2 a Ha). lia.
  - intros k a Hk Hlt. destruct (decide (k < i)) as [Hki|].
    + pose proof (at_lt _ _ _ Hk). specialize (Hi1 k a ltac:(lia) Hk).
      pose proof (normal_at_wf l k a Hn Hk). unfold ivl_wf, or_wf in *. simpl in *. lia.
    + specialize (Hj1 k a ltac:(lia) Hk). lia.
  - intros a Ha. specialize (Hj2 a Ha). lia.
Qed.

Lemma addRange_ok l r :
  normal l -> or_wf r ->
  exists l', addRange r l = Ok l' /\ normal l' /\
    forall n, covers l' n <-> covers l n \/ mem n r.
Proof.
  intros Hn Hr. pose proof (addRange_bounds l r Hn Hr) as Hb. cbv zeta in Hb.
  unfold addRange. cbv zeta. set (i := scan _ l 0) in *. set (j := scan _ l i) in *.
  pose proof (touch_bounds_le l r i j Hn Hr Hb) as Hij.
  destruct (insert_normal l r i j Hn Hr Hb) as [Hn' Hc].
  destruct (Z.eqb_spec i j) as [Heq|Hne].
  - rewrite <- Heq, Z.sub_diag in Hn', Hc.
    assert (E : block l i i = []) by (unfold block; by rewrite Z.sub_diag).
    rewrite E in Hn', Hc. eauto.
  - destruct Hb as (Hi & Hj & _ & _).
    pose proof (block_head l i j ltac:(lia) ltac:(lia) ltac:(lia)) as Hh.
    pose proof (block_last l i j ltac:(lia) ltac:(lia) ltac:(lia)) as Hl.
    destruct (at_in_range l i ltac:(lia)) as [a Ha].
    destruct (at_in_range l (j - 1) ltac:(lia)) as [b Hlb].
    rewrite Ha, Hlb. unfold join_block in Hn', Hc. rewrite Hh, Hl, Ha, Hlb in Hn', Hc.
    simpl in Hn', Hc. unfold or_wf in Hr. rewrite new_OffsetRange_ok by lia. simpl. eauto.
Qed.

(** A sequence of insertions, by the method of [OffsetRangeSet]. *)
Fixpoint addRanges (s : ORSet.OffsetRangeSet) (rs : list OffsetRange)
    : result ORSet.OffsetRangeSet :=
  match rs with
  | [] => Ok s
  | r :: rs' => let* s' := ORSet.addRange s r in addRanges s' rs'
  end.

(** Inserting any sequence of well-formed ranges in an [OffsetRangeSet] never
    throws, keeps its array sorted with no two ranges touching, and adds exactly the
    offsets of those ranges. *)
Theorem addRange_union s rs :
  normal (ORSet.sortedRanges s) -> Forall or_wf rs ->
  exists s', addRanges s rs = Ok s' /\ normal (ORSet.sortedRanges s') /\
    forall n, covers (ORSet.sortedRanges s') n <->
              covers (ORSet.sortedRanges s) n \/ Exists (fun r => contains r n = true) rs.
Proof.
  intros Hn Hrs. revert s Hn. induction Hrs as [|r rs Hr Hrs IH]; intros s Hn; simpl.
  - exists s. split_and!; [done..|]. intros n. rewrite Exists_nil. tauto.
  - unfold ORSet.addRange. destruct (addRange_ok (ORSet.sortedRanges s) r Hn Hr) as (l' & -> & Hl & Hc).
    simpl. destruct (IH (ORSet.mkSet l') Hl) as (s' & -> & Hs & Hcs).
    exists s'. split_and!; [done..|]. intros n. rewrite Hcs. simpl.
    rewrite Hc, Exists_cons, contains_mem. tauto.
Qed.

Lemma addRange_union_witness :
  addRanges (ORSet.mkSet [mkOffsetRange 0 3; mkOffsetRange 5 8]) [mkOffsetRange 10 12; mkOffsetRange 3 6]
  = Ok (ORSet.mkSet [mkOffsetRange 0 8; mkOffsetRange 10 12]) /\
  exists s', addRanges (ORSet.mkSet [mkOffsetRange 0 3; mkOffsetRange 5 8])
    [mkOffsetRange 10 12; mkOffsetRange 3 6] = Ok s' /\ normal (ORSet.sortedRanges s').
Proof.
  split; [reflexivity|].
  destruct (addRange_union (ORSet.mkSet [mkOffsetRange 0 3; mkOffsetRange 5 8])
              [mkOffsetRange 10 12; mkOffsetRange 3 6]) as (s' & E & N & _).
  - split; repeat constructor; unfold ivl_wf, gap; simpl; lia.
  - repeat constructor; unfold or_wf; simpl; lia.
  - exists s'. split; [exact E | exact N].
Defined.

Import ORSet.

Definition set_covers (s : OffsetRangeSet) (n : Z) : Prop := covers (sortedRanges s) n.
Definition set_normal (s : OffsetRangeSet) : Prop := normal (sortedRanges s).

(** [intersectsStrict] tells whether the set and a non-empty range share an
    offset. *)
Theorem intersectsStrict_spec s r :
  set_normal s -> Forall (fun x => start x < endExclusive x) (sortedRanges s) ->
  start r < endExclusive r ->
  (intersectsStrict s r = true <-> exists n, set_covers s n /\ contains r n = true).
Proof.
  intros Hn Hne Hr. unfold intersectsStrict, set_covers. set (l := sortedRanges s) in *.
  pose proof (zlen_nonneg l).
  destruct (scan_spec (fun x => endExclusive x <=? start r) l 0) as (Hi & Hi1 & Hi2); [lia|].
  set (i := scan _ l 0) in *. setoid_rewrite contains_mem. split.
  - destruct (l.[i]) as [a|] eqn:Ha; [|done]. intros Hlt. specialize (Hi2 a eq_refl).
    rewrite Forall_forall in Hne.
    assert (Hal : a ∈ l) by (eapply at_elem_of; done). specialize (Hne a Hal).
    exists (Z.max (start a) (start r)). split.
    + exists a. split; [done|]. unfold mem. simpl in *. lia.
    + unfold mem. simpl in *. lia.
  - intros (n & (a & Ha & Hna) & Hnr). apply elem_of_at in Ha as [k Hk].
    pose proof (at_lt _ _ _ Hk). unfold mem in *. simpl in *.
    destruct (Z.lt_ge_cases k i) as [Hki|Hki].
    { specialize (Hi1 k a ltac:(lia) Hk). lia. }
    destruct (at_in_range l i ltac:(lia)) as [b Hb]. rewrite Hb.
    assert (start b <= start a).
    { destruct (decide (i = k)) as [->|]; [by simplify_eq|].
      pose proof (normal_at_lt l i k b a Hn Hb Hk ltac:(lia)).
      pose proof (normal_at_wf l i b Hn Hb). unfold gap, ivl_wf in *. simpl in *. lia. }
    lia.
Qed.

Lemma intersectsStrict_spec_witness :
  intersectsStrict (mkSet [mkOffsetRange 0 3; mkOffsetRange 5 8]) (mkOffsetRange 3 6) = true /\
  exists n, set_covers (mkSet [mkOffsetRange 0 3; mkOffsetRange 5 8]) n /\
            contains (mkOffsetRange 3 6) n = true.
Proof.
  split; [reflexivity|].
  apply (intersectsStrict_spec (mkSet [mkOffsetRange 0 3; mkOffsetRange 5 8]) (mkOffsetRange 3 6)).
  - split; repeat constructor; unfold ivl_wf, gap; simpl; lia.
  - repeat constructor.
  - reflexivity.
  - reflexivity.
Defined.

Lemma intersectWithRange_from r l acc :
  or_wf r -> normal l -> set_normal acc ->
  exists s', fold_left (intersect_step r) l (Ok acc) = Ok s' /\ set_normal s' /\
    forall n, set_covers s' n <-> set_covers acc n \/ covers l n /\ contains r n = true.
Proof.
  intros Hr. revert acc. induction l as [|a l IH]; intros acc Hl Hacc.
  - exists acc. split_and!; [done..|]. intros n. rewrite covers_nil. tauto.
  - change (a :: l) with ([a] ++ l) in Hl. apply normal_app in Hl as (Ha & Hl & _).
    apply normal_singleton in Ha. cbn [fold_left]. unfold intersect_step at 2. cbn [result_bind].
    pose proof (intersect_cases a r Ha Hr) as Hi.
    destruct (OR.intersect a r) as [[i|]|]; [| |done]; cbn [result_bind].
    + destruct Hi as [Hiw Hi]. unfold ORSet.addRange.
      destruct (addRange_ok (sortedRanges acc) i Hacc Hiw) as (l' & -> & Hn' & Hc').
      cbn [result_map result_bind]. destruct (IH (mkSet l') Hl Hn') as (s' & -> & Hs & Hcs).
      exists s'. split_and!; [done..|]. intros n. rewrite Hcs, covers_cons. unfold set_covers.
      rewrite Hc', <- (contains_mem i), Hi, !contains_mem. tauto.
    + destruct (IH acc Hl Hacc) as (s' & -> & Hs & Hcs).
      exists s'. split_and!; [done..|]. intros n. rewrite Hcs, covers_cons, contains_mem.
      assert (~ (mem n a /\ mem n r)) by (unfold mem; simpl; lia). tauto.
Qed.

Lemma length_elems s : set_normal s -> ORSet.length s = zlen (elems (sortedRanges s)).
Proof.
  intros [Hw _]. unfold ORSet.length. set (l := sortedRanges s) in *. clearbody l.
  assert (H : forall acc, fold_left (fun prev cur => prev + OR.length cur) l acc =
                          acc + zlen (elems l)).
  { induction Hw as [|a l Ha Hw IH]; intros acc; cbn [fold_left];
      [change (elems []) with (@nil Z); rewrite zlen_nil; lia|].
    rewrite IH. change (elems (a :: l)) with (zrange (lo a) (hi a) ++ elems l).
    rewrite zlen_app, zlen_zrange by exact Ha. unfold OR.length. simpl. lia. }
  by rewrite H.
Qed.

(** [intersectWithRange] never throws on a normalized set and gives the
    normalized set of the common offsets; [intersectWithRangeLength] is their
    number. *)
Theorem intersectWithRange_spec s r (X : gset Z) :
  set_normal s -> or_wf r ->
  (forall n, n ∈ X <-> set_covers s n /\ contains r n = true) ->
  (exists s', intersectWithRange s r = Ok s' /\ set_normal s' /\
     forall n, set_covers s' n <-> n ∈ X) /\
  intersectWithRangeLength s r = Ok (Z.of_nat (size X)).
Proof.
  intros Hs Hr HX.
  destruct (intersectWithRange_from r (sortedRanges s) empty Hr Hs normal_nil)
    as (s' & E & Hn & Hc).
  change (intersectWithRange s r = Ok s') in E.
  assert (HX' : forall n, n ∈ X <-> set_covers s' n).
  { intros n. rewrite HX, Hc. unfold set_covers at 2, empty. rewrite covers_nil. tauto. }
  split.
  - exists s'. split_and!; [done..|]. intros n. by rewrite HX'.
  - unfold intersectWithRangeLength. rewrite E. simpl. f_equal.
    rewrite length_elems by done. symmetry. by apply size_covers.
Qed.

Lemma intersectWithRange_spec_witness :
  intersectWithRangeLength (mkSet [mkOffsetRange 0 3; mkOffsetRange 5 8]) (mkOffsetRange 2 6)
  = Ok (Z.of_nat (size ({[2; 5]} : gset Z))).
Proof.
  apply (intersectWithRange_spec (mkSet [mkOffsetRange 0 3; mkOffsetRange 5 8])
           (mkOffsetRange 2 6) {[2; 5]}).
  - split; repeat constructor; unfold ivl_wf, gap; simpl; lia.
  - unfold or_wf. simpl. lia.
  - intros n. unfold set_covers. simpl. rewrite !covers_cons, covers_nil, contains_mem.
    unfold mem. simpl. rewrite elem_of_union, !elem_of_singleton. lia.
Defined.
