(* ===== verification/LineRange.v ===== *)
(** * Line ranges and sets of lines

    [src/src/vs/editor/common/core/lineRange.ts]: the class [LineRange] (1-based, end
    exclusive) and [LineRangeSet], a sorted array of non-empty ranges that do not
    touch.  The sets find the ranges that touch a new one with the binary searches of
    [ArraysFind]; [LineRange] is an instance of [Interval], through which the set
    operations are proved to be the operations on sets of lines. *)

From S2P Require Import Prelude Position TextRange ArraysFind Interval OffsetRange.

#[local] Open Scope js_scope.

Module LR.

Record LineRange : Type := mkLineRange { startLineNumber : Z; endLineNumberExclusive : Z }.

(** The constructor. *)
Definition new_LineRange (s e : Z) : result LineRange :=
  if s >? e then Throw BugIndicatingError else Ok (mkLineRange s e).

Definition fromRange (range : Range) : result LineRange :=
  new_LineRange (TextRange.startLineNumber range) (TextRange.endLineNumber range).

Definition subtract (a : LineRange) (b : option LineRange) : result (list LineRange) :=
  match b with
  | None => Ok [a]
  | Some b =>
      if (startLineNumber a <? startLineNumber b)
         && (endLineNumberExclusive b <? endLineNumberExclusive a) then
        let* r1 := new_LineRange (startLineNumber a) (startLineNumber b) in
        let* r2 := new_LineRange (endLineNumberExclusive b) (endLineNumberExclusive a) in
        Ok [r1; r2]
      else if (startLineNumber b <=? startLineNumber a)
              && (endLineNumberExclusive a <=? endLineNumberExclusive b) then Ok []
      else if endLineNumberExclusive b <? endLineNumberExclusive a then
        let* r := new_LineRange (Z.max (endLineNumberExclusive b) (startLineNumber a))
                                (endLineNumberExclusive a) in
        Ok [r]
      else
        let* r := new_LineRange (startLineNumber a)
                                (Z.min (startLineNumber b) (endLineNumberExclusive a)) in
        Ok [r]
  end.

Definition ofLength (startLine length : Z) : result LineRange :=
  new_LineRange startLine (startLine + length).

Definition deserialize (lineRange : Z * Z) : result LineRange :=
  new_LineRange lineRange.1 lineRange.2.

Definition contains (this : LineRange) (lineNumber : Z) : bool :=
  (startLineNumber this <=? lineNumber) && (lineNumber <? endLineNumberExclusive this).

Definition isEmpty (this : LineRange) : bool :=
  startLineNumber this =? endLineNumberExclusive this.

Definition delta (this : LineRange) (offset : Z) : result LineRange :=
  new_LineRange (startLineNumber this + offset) (endLineNumberExclusive this + offset).

Definition deltaLength (this : LineRange) (offset : Z) : result LineRange :=
  new_LineRange (startLineNumber this) (endLineNumberExclusive this + offset).

Definition length (this : LineRange) : Z :=
  endLineNumberExclusive this - startLineNumber this.

Definition join (this other : LineRange) : result LineRange :=
  new_LineRange (Z.min (startLineNumber this) (startLineNumber other))
                (Z.max (endLineNumberExclusive this) (endLineNumberExclusive other)).

Definition intersect (this other : LineRange) : result (option LineRange) :=
  let s := Z.max (startLineNumber this) (startLineNumber other) in
  let e := Z.min (endLineNumberExclusive this) (endLineNumberExclusive other) in
  if s <=? e then result_map Some (new_LineRange s e) else Ok None.

Definition intersectsStrict (this other : LineRange) : bool :=
  (startLineNumber this <? endLineNumberExclusive other)
  && (startLineNumber other <? endLineNumberExclusive this).

Definition overlapOrTouch (this other : LineRange) : bool :=
  (startLineNumber this <=? endLineNumberExclusive other)
  && (startLineNumber other <=? endLineNumberExclusive this).

Definition equals (this b : LineRange) : bool :=
  (startLineNumber this =? startLineNumber b)
  && (endLineNumberExclusive this =? endLineNumberExclusive b).

Definition toInclusiveRange (this : LineRange) : option Range :=
  if isEmpty this then None
  else Some (Rng.new_Range (startLineNumber this) 1
                           (endLineNumberExclusive this - 1) MAX_SAFE_INTEGER).

Definition toExclusiveRange (this : LineRange) : Range :=
  Rng.new_Range (startLineNumber this) 1 (endLineNumberExclusive this) 1.

Definition mapToLineArray {T} (this : LineRange) (f : Z -> T) : list T :=
  fold_left (fun result lineNumber => result ++ [f lineNumber])
    (zrange (startLineNumber this) (endLineNumberExclusive this)) [].

Definition serialize (this : LineRange) : Z * Z :=
  (startLineNumber this, endLineNumberExclusive this).

Definition includes (this : LineRange) (lineNumber : Z) : bool :=
  (startLineNumber this <=? lineNumber) && (lineNumber <? endLineNumberExclusive this).

Definition toOffsetRange (this : LineRange) : result OffsetRange :=
  OR.new_OffsetRange (startLineNumber this - 1) (endLineNumberExclusive this - 1).

End LR.

Import LR.

#[export] Instance LineRange_eq_dec : EqDecision LineRange.
Proof. solve_decision. Defined.

#[export] Instance LineRange_interval : Interval LineRange :=
  {| lo := startLineNumber; hi := endLineNumberExclusive; mk := mkLineRange;
     lo_mk := fun _ _ => eq_refl; hi_mk := fun _ _ => eq_refl |}.

Module LRSet.

Record LineRangeSet : Type := mkSet { normalizedRanges : list LineRange }.

(** Index of the first range that touches [range] or lies after it. *)
Definition joinRangeStartIdx (l : list LineRange) (range : LineRange) : Z :=
  findFirstIdxMonotonousOrArrLen l
    (on_item (fun r => endLineNumberExclusive r >=? startLineNumber range)) 0 None.

(** Index after the last range that touches [range] or lies before it. *)
Definition joinRangeEndIdxExclusive (l : list LineRange) (range : LineRange) : Z :=
  findLastIdxMonotonous l
    (on_item (fun r => startLineNumber r <=? endLineNumberExclusive range)) 0 None + 1.

(** The method mutates the array; the result is the set after the call. *)
Definition addRange (this : LineRangeSet) (range : LineRange) : result LineRangeSet :=
  let l := normalizedRanges this in
  if LR.length range =? 0 then Ok this
  else
    let i := joinRangeStartIdx l range in
    let j := joinRangeEndIdxExclusive l range in
    if i =? j then Ok (mkSet (splice l i 0 [range]))
    else if i =? j - 1 then
      match l.[i] with
      | Some joinRange =>
          let* r := LR.join joinRange range in
          Ok (mkSet (set_at l i r))
      | None => Throw TypeError
      end
    else
      match l.[i], l.[j - 1] with
      | Some ri, Some rj =>
          let* r1 := LR.join ri rj in
          let* joinRange := LR.join r1 range in
          Ok (mkSet (splice l i (j - i) [joinRange]))
      | _, _ => Throw TypeError
      end.

Definition contains (this : LineRangeSet) (lineNumber : Z) : bool :=
  match findLastMonotonous (normalizedRanges this)
          (on_item (fun r => startLineNumber r <=? lineNumber)) with
  | Some r => endLineNumberExclusive r >? lineNumber
  | None => false
  end.

Definition intersects (this : LineRangeSet) (range : LineRange) : bool :=
  match findLastMonotonous (normalizedRanges this)
          (on_item (fun r => startLineNumber r <? endLineNumberExclusive range)) with
  | Some r => endLineNumberExclusive r >? startLineNumber range
  | None => false
  end.

(** The loop of [getUnion]: the two indices, the range being grown and the output. *)
Record union_state : Type := mkUnion {
  ui1 : Z; ui2 : Z; ucurrent : option LineRange; uresult : result (list LineRange) }.

Definition union_next (l1 l2 : list LineRange) (i1 i2 : Z) : option LineRange * Z * Z :=
  if (i1 <? zlen l1) && (i2 <? zlen l2) then
    match l1.[i1], l2.[i2] with
    | Some lineRange1, Some lineRange2 =>
        if startLineNumber lineRange1 <? startLineNumber lineRange2
        then (Some lineRange1, i1 + 1, i2) else (Some lineRange2, i1, i2 + 1)
    | _, _ => (None, i1, i2)
    end
  else if i1 <? zlen l1 then (l1.[i1], i1 + 1, i2)
  else (l2.[i2], i1, i2 + 1).

Definition union_step (l1 l2 : list LineRange) (st : union_state) : union_state :=
  let '(next, i1, i2) := union_next l1 l2 (ui1 st) (ui2 st) in
  match ucurrent st, next with
  | None, _ => mkUnion i1 i2 next (uresult st)
  | Some current, Some next =>
      if endLineNumberExclusive current >=? startLineNumber next then
        match new_LineRange (startLineNumber current)
                (Z.max (endLineNumberExclusive current) (endLineNumberExclusive next)) with
        | Ok merged => mkUnion i1 i2 (Some merged) (uresult st)
        | Throw e => mkUnion i1 i2 None (Throw e)
        end
      else mkUnion i1 i2 (Some next) (result_map (fun out => out ++ [current]) (uresult st))
  | Some _, None => st
  end.

Definition getUnion (this other : LineRangeSet) : result LineRangeSet :=
  let l1 := normalizedRanges this in
  let l2 := normalizedRanges other in
  if zlen l1 =? 0 then Ok other
  else if zlen l2 =? 0 then Ok this
  else
    let st := while (Datatypes.length l1 + Datatypes.length l2)
      (fun st => (ui1 st <? zlen l1) || (ui2 st <? zlen l2))
      (union_step l1 l2) (mkUnion 0 0 None (Ok [])) in
    result_map (fun out => mkSet (out ++ opt_list (ucurrent st)))
      (uresult st).

(** One turn of the loop of [subtractFrom]: the output and [startLineNumber]. *)
Definition subtract_step (acc : result (list LineRange * Z)) (r : LineRange)
    : result (list LineRange * Z) :=
  let* (res, s) := acc in
  let* res' :=
    if startLineNumber r >? s then
      let* x := new_LineRange s (startLineNumber r) in Ok (res ++ [x])
    else Ok res in
  Ok (res', endLineNumberExclusive r).

(** What follows that loop: the lines after the last range read. *)
Definition finish_subtract (range : LineRange) (acc : result (list LineRange * Z))
    : result LineRangeSet :=
  let* (res, s) := acc in
  if s <? endLineNumberExclusive range then
    let* x := new_LineRange s (endLineNumberExclusive range) in Ok (mkSet (res ++ [x]))
  else Ok (mkSet res).

Definition subtractFrom (this : LineRangeSet) (range : LineRange) : result LineRangeSet :=
  let l := normalizedRanges this in
  let i := joinRangeStartIdx l range in
  let j := joinRangeEndIdxExclusive l range in
  if i =? j then Ok (mkSet [range])
  else
    finish_subtract range
      (fold_left subtract_step (Prelude.slice l i j) (Ok ([], startLineNumber range))).

(** The loop of [getIntersection]: the two indices and the output. *)
Definition intersection_step (l1 l2 : list LineRange)
    (st : Z * Z * result (list LineRange)) : Z * Z * result (list LineRange) :=
  let '(i1, i2, res) := st in
  match l1.[i1], l2.[i2] with
  | Some r1, Some r2 =>
      let res' :=
        let* out := res in
        let* i := LR.intersect r1 r2 in
        match i with
        | Some i => Ok (if negb (isEmpty i) then out ++ [i] else out)
        | None => Ok out
        end in
      if endLineNumberExclusive r1 <? endLineNumberExclusive r2
      then (i1 + 1, i2, res') else (i1, i2 + 1, res')
  | _, _ => (i1, i2, Throw TypeError)
  end.

Definition getIntersection (this other : LineRangeSet) : result LineRangeSet :=
  let l1 := normalizedRanges this in
  let l2 := normalizedRanges other in
  let '(_, _, res) := while (Datatypes.length l1 + Datatypes.length l2)
    (fun '(i1, i2, _) => (i1 <? zlen l1) && (i2 <? zlen l2))
    (intersection_step l1 l2) (0, 0, Ok []) in
  result_map mkSet res.

Definition getWithDelta (this : LineRangeSet) (value : Z) : result LineRangeSet :=
  result_map mkSet (result_mapM (fun r => LR.delta r value) (normalizedRanges this)).

End LRSet.

(** [LineRange.joinMany]. *)
Definition joinMany (lineRanges : list (list LineRange)) : result (list LineRange) :=
  match lineRanges with
  | [] => Ok []
  | l0 :: rest =>
      result_map LRSet.normalizedRanges
        (fold_left (fun acc l =>
           let* result := acc in LRSet.getUnion result (LRSet.mkSet l)) rest (Ok (LRSet.mkSet l0)))
  end.

(** ** Single ranges *)

Definition lr_wf (r : LineRange) : Prop := startLineNumber r <= endLineNumberExclusive r.

Lemma new_LineRange_ok s e : s <= e -> new_LineRange s e = Ok (mkLineRange s e).
Proof. unfold new_LineRange. zbool. Qed.

Lemma lr_contains_mem r n : LR.contains r n = true <-> mem n r.
Proof. unfold LR.contains, mem. simpl. lia. Qed.

(** [LineRange.subtract] never throws and returns at most two well-formed ranges
    that together contain exactly the lines of the first range that are not in the
    second. *)
Theorem subtract_spec a b :
  lr_wf a -> lr_wf b ->
  exists l, subtract a (Some b) = Ok l /\ Forall lr_wf l /\ zlen l <= 2 /\
    forall n, covers l n <-> LR.contains a n = true /\ LR.contains b n = false.
Proof.
  unfold lr_wf. intros Ha Hb. unfold subtract.
  repeat case_match; rewrite ?new_LineRange_ok by lia; cbn [result_bind]; eexists; (split; [reflexivity|]);
    autorewrite with js_len; (split; [repeat constructor; simpl; lia|]); (split; [lia|]);
    intros n; rewrite ?covers_cons, covers_nil; unfold mem, LR.contains; simpl; lia.
Qed.

Lemma subtract_spec_witness :
  subtract (mkLineRange 1 9) (Some (mkLineRange 3 5)) = Ok [mkLineRange 1 3; mkLineRange 5 9] /\
  exists l, subtract (mkLineRange 1 9) (Some (mkLineRange 3 5)) = Ok l /\ Forall lr_wf l.
Proof.
  split; [reflexivity|].
  destruct (subtract_spec (mkLineRange 1 9) (mkLineRange 3 5)) as (l & E & W & _);
    [unfold lr_wf; simpl; lia | unfold lr_wf; simpl; lia | exists l; split; [exact E | exact W]].
Defined.

(** ** The binary searches find the ranges that touch *)

Import LRSet.

Definition set_covers (s : LineRangeSet) (n : Z) : Prop := covers (normalizedRanges s) n.

(** The invariant of the field [_normalizedRanges]. *)
Definition set_normal (s : LineRangeSet) : Prop := normal_nonempty (normalizedRanges s).

Lemma on_item_at {A} (p : A -> bool) l i a : l.[i] = Some a -> on_item p (l.[i]) = p a.
Proof. by intros ->. Qed.

(** A predicate that holds of later ranges once it holds of one is monotonous. *)
Lemma normal_monotone (l : list LineRange) (p : LineRange -> bool) :
  normal l ->
  (forall a b, ivl_wf a -> ivl_wf b -> gap a b -> p b = true -> p a = true) ->
  true_then_false l (on_item p) 0 (zlen l).
Proof.
  intros Hn Hp i j ???.
  destruct (at_in_range l i ltac:(lia)) as [a Ha]. destruct (at_in_range l j ltac:(lia)) as [b Hb].
  rewrite Ha, Hb. simpl. destruct (decide (i = j)) as [->|]; [by simplify_eq|].
  apply Hp; eauto using normal_at_wf. eapply normal_at_lt; eauto. lia.
Qed.

Lemma findLast_normal (l : list LineRange) (p : LineRange -> bool) :
  normal l ->
  (forall a b, ivl_wf a -> ivl_wf b -> gap a b -> p b = true -> p a = true) ->
  let k := findLastIdxMonotonous l (on_item p) 0 None in
  -1 <= k < zlen l /\
  (forall i a, l.[i] = Some a -> (i <= k <-> p a = true)).
Proof.
  intros Hn Hp. cbv zeta. pose proof (zlen_nonneg l).
  destruct (search_last l (on_item p) 0 (zlen l)) as (Hk & Ht & Hf);
    [lia|by apply normal_monotone|].
  change (findLastIdxMonotonous l (on_item p) 0 None)
    with (findLastIdxMonotonous l (on_item p) 0 (Some (zlen l))).
  set (k := findLastIdxMonotonous _ _ _ _) in *. split; [lia|].
  intros i a Ha. pose proof (at_lt _ _ _ Ha). split.
  - intros ?. rewrite <- (on_item_at p l i a Ha). apply Ht. lia.
  - intros Hpa. destruct (Z.le_gt_cases i k) as [|Hgt]; [done|exfalso].
    specialize (Hf i ltac:(lia)). rewrite Ha in Hf. simpl in Hf. congruence.
Qed.

Lemma findFirst_normal (l : list LineRange) (p : LineRange -> bool) :
  normal l ->
  (forall a b, ivl_wf a -> ivl_wf b -> gap a b -> p a = true -> p b = true) ->
  let k := findFirstIdxMonotonousOrArrLen l (on_item p) 0 None in
  0 <= k <= zlen l /\
  (forall i a, l.[i] = Some a -> (i < k <-> p a = false)).
Proof.
  intros Hn Hp. cbv zeta. pose proof (zlen_nonneg l).
  destruct (search_first l (on_item p) 0 (zlen l)) as (Hk & Hf & Ht); [lia| |].
  { intros i j ???. destruct (at_in_range l i ltac:(lia)) as [a Ha].
    destruct (at_in_range l j ltac:(lia)) as [b Hb]. rewrite Ha, Hb. simpl.
    destruct (decide (i = j)) as [->|]; [by simplify_eq|].
    rewrite !negb_true_iff. intros Hpb. apply not_true_is_false. intros Hpa.
    assert (p b = true); [|congruence].
    apply (Hp a b); eauto using normal_at_wf. eapply normal_at_lt; eauto. lia. }
  change (findFirstIdxMonotonousOrArrLen l (on_item p) 0 None)
    with (findFirstIdxMonotonousOrArrLen l (on_item p) 0 (Some (zlen l))).
  set (k := findFirstIdxMonotonousOrArrLen _ _ _ _) in *. split; [lia|].
  intros i a Ha. pose proof (at_lt _ _ _ Ha). split.
  - intros ?. rewrite <- (on_item_at p l i a Ha). apply Hf. lia.
  - intros Hpa. destruct (Z.lt_ge_cases i k) as [|Hge]; [done|exfalso].
    specialize (Ht i ltac:(lia)). rewrite Ha in Ht. simpl in Ht. congruence.
Qed.

Lemma join_bounds l r :
  normal l -> lr_wf r ->
  touch_bounds l r (joinRangeStartIdx l r) (joinRangeEndIdxExclusive l r).
Proof.
  intros Hn Hr. unfold joinRangeStartIdx, joinRangeEndIdxExclusive.
  destruct (findFirst_normal l (fun x => endLineNumberExclusive x >=? startLineNumber r) Hn)
    as [Hi Hi'].
  { unfold gap, ivl_wf. simpl. intros. lia. }
  destruct (findLast_normal l (fun x => startLineNumber x <=? endLineNumberExclusive r) Hn)
    as [Hj Hj'].
  { unfold gap, ivl_wf. simpl. intros. lia. }
  unfold touch_bounds. simpl. split_and!; try lia.
  - intros k a Ha. rewrite (Hi' k a Ha). lia.
  - intros k a Ha. rewrite <- Z.leb_le, <- (Hj' k a Ha). lia.
Qed.

(** ** The set operations *)

Lemma join_ok a b :
  lr_wf a -> lr_wf b ->
  LR.join a b = Ok (mkLineRange (Z.min (startLineNumber a) (startLineNumber b))
                      (Z.max (endLineNumberExclusive a) (endLineNumberExclusive b))).
Proof. unfold lr_wf, LR.join. intros. by rewrite new_LineRange_ok by lia. Qed.

Lemma set_at_splice {A} (l : list A) i (a : A) :
  0 <= i < zlen l -> set_at l i a = splice l i 1 [a].
Proof.
  intros Hi. unfold set_at, splice, rel_index. destruct (Z.ltb_spec i 0); [lia|].
  replace (Z.min i (zlen l)) with i by lia.
  replace (i + Z.min (Z.max 1 0) (zlen l - i)) with (i + 1) by lia.
  unfold zlen in Hi. rewrite insert_take_drop by lia.
  by replace (Z.to_nat (i + 1)) with (S (Z.to_nat i)) by lia.
Qed.

(** [addRange] replaces the block of touching ranges by their join. *)
Lemma addRange_splice s r :
  set_normal s -> ivl_nonempty r ->
  let l := normalizedRanges s in
  let i := joinRangeStartIdx l r in
  let j := joinRangeEndIdxExclusive l r in
  LRSet.addRange s r = Ok (mkSet (splice l i (j - i) [join_block r (block l i j)])).
Proof.
  intros Hs Hr. cbv zeta. unfold LRSet.addRange. set (l := normalizedRanges s) in *.
  pose proof (normal_nonempty_normal l Hs) as Hn.
  assert (Hrw : lr_wf r) by (unfold lr_wf, ivl_nonempty in *; simpl in *; lia).
  pose proof (join_bounds l r Hn Hrw) as Hb. pose proof (touch_bounds_le l r _ _ Hn Hrw Hb) as Hij.
  set (i := joinRangeStartIdx l r) in *. set (j := joinRangeEndIdxExclusive l r) in *.
  destruct Hb as (Hi & Hj & Hlt & Hle).
  assert (Hlen : (LR.length r =? 0) = false)
    by (unfold LR.length, ivl_nonempty in *; simpl in *; lia).
  rewrite Hlen. destruct (Z.eqb_spec i j) as [<-|Hne].
  { rewrite Z.sub_diag. unfold block. by rewrite Z.sub_diag. }
  pose proof (block_head l i j ltac:(lia) ltac:(lia) ltac:(lia)) as Hh.
  pose proof (block_last l i j ltac:(lia) ltac:(lia) ltac:(lia)) as Hl.
  destruct (at_in_range l i ltac:(lia)) as [a Ha].
  destruct (at_in_range l (j - 1) ltac:(lia)) as [b Hlb].
  pose proof (normal_at_wf l i a Hn Ha) as Haw. pose proof (normal_at_wf l (j - 1) b Hn Hlb) as Hbw.
  unfold join_block. rewrite Hh, Hl, Ha, Hlb. cbn [lo hi mk LineRange_interval].
  destruct (Z.eqb_spec i (j - 1)) as [Heq|Hne'].
  - rewrite join_ok by done. cbn [result_bind]. rewrite set_at_splice by lia.
    replace (j - i) with 1 by lia. assert (a = b) as <- by congruence.
    do 3 f_equal. f_equal; f_equal; lia.
  - pose proof (normal_at_lt l i (j - 1) a b Hn Ha Hlb ltac:(lia)) as Hg.
    unfold gap, ivl_wf, lr_wf in *. simpl in *.
    rewrite join_ok by done. cbn [result_bind].
    rewrite join_ok by (unfold lr_wf; simpl; lia). cbn [result_bind]. simpl.
    do 5 f_equal; lia.
Qed.

(** [LineRangeSet.addRange] keeps the ranges sorted, non-empty and not touching,
    never throws, and adds exactly the lines of the range; an empty range changes
    nothing. *)
Theorem lineSet_addRange_union s r :
  set_normal s -> lr_wf r ->
  exists s', LRSet.addRange s r = Ok s' /\ set_normal s' /\
    (forall n, set_covers s' n <-> set_covers s n \/ LR.contains r n = true).
Proof.
  intros Hs Hr. setoid_rewrite lr_contains_mem.
  destruct (decide (startLineNumber r = endLineNumberExclusive r)) as [He|Hne].
  - exists s. unfold LRSet.addRange, LR.length. rewrite He, Z.sub_diag. split_and!; [done..|].
    intros n. unfold mem. simpl. split; [auto|intros [?|?]; [done|lia]].
  - assert (Hr' : ivl_nonempty r) by (unfold ivl_nonempty, lr_wf in *; simpl; lia).
    rewrite addRange_splice by done. cbv zeta.
    pose proof (normal_nonempty_normal _ Hs) as Hn.
    pose proof (join_bounds _ r Hn Hr) as Hb.
    eexists. split; [done|]. split; [by apply insert_nonempty|].
    intros n. by apply insert_normal.
Qed.

Lemma lineSet_addRange_union_witness :
  LRSet.addRange (mkSet [mkLineRange 1 3; mkLineRange 5 8; mkLineRange 10 12]) (mkLineRange 3 6)
  = Ok (mkSet [mkLineRange 1 8; mkLineRange 10 12]) /\
  exists s', LRSet.addRange (mkSet [mkLineRange 1 3; mkLineRange 5 8; mkLineRange 10 12])
    (mkLineRange 3 6) = Ok s' /\ set_normal s'.
Proof.
  split; [reflexivity|].
  destruct (lineSet_addRange_union (mkSet [mkLineRange 1 3; mkLineRange 5 8; mkLineRange 10 12])
              (mkLineRange 3 6)) as (s' & E & N & _).
  - split; repeat constructor; unfold ivl_nonempty, gap; simpl; lia.
  - unfold lr_wf. simpl. lia.
  - exists s'. split; [exact E | exact N].
Defined.

Lemma findLastMonotonous_normal (l : list LineRange) (p : LineRange -> bool) :
  normal l ->
  (forall a b, ivl_wf a -> ivl_wf b -> gap a b -> p b = true -> p a = true) ->
  match findLastMonotonous l (on_item p) with
  | Some a => a ∈ l /\ p a = true /\ forall b, b ∈ l -> p b = true -> b = a \/ gap b a
  | None => forall b, b ∈ l -> p b = false
  end.
Proof.
  intros Hn Hp. unfold findLastMonotonous.
  destruct (findLast_normal l p Hn Hp) as [Hk Hk']. cbv zeta in *.
  set (k := findLastIdxMonotonous _ _ _ _) in *.
  destruct (Z.eqb_spec k (-1)) as [->|Hne].
  - intros b [i Hi]%elem_of_at. pose proof (at_lt _ _ _ Hi). specialize (Hk' i b Hi).
    destruct (p b); [|done]. exfalso. assert (i <= -1) by by apply Hk'. lia.
  - destruct (at_in_range l k ltac:(lia)) as [a Ha]. rewrite Ha. split_and!.
    + by eapply at_elem_of.
    + apply (Hk' k a Ha). lia.
    + intros b [i Hi]%elem_of_at Hpb. apply (Hk' i b Hi) in Hpb.
      destruct (decide (i = k)) as [->|]; [left; congruence|right].
      eapply normal_at_lt; eauto. lia.
Qed.

(** [LineRangeSet.contains] is membership in the set of lines, and [intersects] with a
    non-empty range tells whether they share a line. *)
Theorem lineSet_contains_spec s :
  set_normal s ->
  (forall n, LRSet.contains s n = true <-> set_covers s n) /\
  (forall r, startLineNumber r < endLineNumberExclusive r ->
     (LRSet.intersects s r = true <-> exists n, set_covers s n /\ LR.contains r n = true)).
Proof.
  intros Hs. pose proof (normal_nonempty_normal _ Hs) as Hn. destruct Hs as [Hf _].
  rewrite Forall_forall in Hf. unfold set_covers, covers.
  split.
  - intros n. unfold LRSet.contains.
    pose proof (findLastMonotonous_normal _ (fun r => startLineNumber r <=? n) Hn) as H.
    destruct (findLastMonotonous _ _) as [a|].
    + destruct H as (Ha & Hpa & Hmax); [unfold gap, ivl_wf; simpl; intros; lia|].
      split; [intros; exists a; split; [done|unfold mem; simpl; lia]|].
      intros (b & Hb & Hm). unfold mem in Hm. simpl in *.
      destruct (Hmax b Hb) as [->|Hg]; [lia|lia|]. unfold gap in Hg. simpl in *. lia.
    + split; [done|]. intros (b & Hb & Hm). unfold mem in Hm. simpl in *.
      rewrite <- (H ltac:(unfold gap, ivl_wf; simpl; intros; lia) b Hb). lia.
  - intros r Hr. unfold LRSet.intersects. setoid_rewrite lr_contains_mem.
    pose proof (findLastMonotonous_normal _
      (fun x => startLineNumber x <? endLineNumberExclusive r) Hn) as H.
    destruct (findLastMonotonous _ _) as [a|].
    + destruct H as (Ha & Hpa & Hmax); [unfold gap, ivl_wf; simpl; intros; lia|].
      specialize (Hf a Ha). unfold ivl_nonempty in Hf. simpl in *. split.
      * intros Hgt. exists (Z.max (startLineNumber a) (startLineNumber r)).
        split; [exists a; split; [done|]|]; unfold mem; simpl; lia.
      * intros (n & (b & Hb & Hm) & Hnr). unfold mem in *. simpl in *.
        destruct (Hmax b Hb) as [->|Hg]; [lia|lia|]. unfold gap in Hg. simpl in *. lia.
    + split; [done|]. intros (n & (b & Hb & Hm) & Hnr). unfold mem in *. simpl in *.
      rewrite <- (H ltac:(unfold gap, ivl_wf; simpl; intros; lia) b Hb). lia.
Qed.

Lemma lineSet_contains_spec_witness :
  LRSet.contains (mkSet [mkLineRange 1 3; mkLineRange 5 8]) 6 = true /\
  set_covers (mkSet [mkLineRange 1 3; mkLineRange 5 8]) 6.
Proof.
  split; [reflexivity|].
  apply (proj1 (lineSet_contains_spec (mkSet [mkLineRange 1 3; mkLineRange 5 8])
    ltac:(split; repeat constructor; unfold ivl_nonempty, gap; simpl; lia)) 6).
  reflexivity.
Defined.

(** ** [getUnion]: merging two sorted arrays *)

Section union.
Context (l1 l2 : list LineRange).
Hypothesis (H1 : normal_nonempty l1) (H2 : normal_nonempty l2).

(** A range not yet read by the loop. *)
Definition unread (i1 i2 : Z) (a : LineRange) : Prop :=
  (exists k, l1.[k] = Some a /\ i1 <= k) \/ (exists k, l2.[k] = Some a /\ i2 <= k).

Lemma later_starts_later l i k a b :
  normal_nonempty l -> l.[i] = Some a -> l.[k] = Some b -> i <= k ->
  startLineNumber a <= startLineNumber b.
Proof.
  intros Hn Ha Hb ?. apply normal_nonempty_normal in Hn.
  destruct (decide (i = k)) as [->|]; [simplify_eq; lia|].
  pose proof (normal_at_lt l i k a b Hn Ha Hb ltac:(lia)).
  pose proof (normal_at_wf l i a Hn Ha). unfold gap, ivl_wf in *. simpl in *. lia.
Qed.

Lemma union_next_spec i1 i2 :
  0 <= i1 <= zlen l1 -> 0 <= i2 <= zlen l2 -> i1 < zlen l1 \/ i2 < zlen l2 ->
  exists a i1' i2', union_next l1 l2 i1 i2 = (Some a, i1', i2') /\
    (i1' = i1 + 1 /\ i2' = i2 /\ l1.[i1] = Some a \/
     i1' = i1 /\ i2' = i2 + 1 /\ l2.[i2] = Some a) /\
    forall b, unread i1 i2 b -> startLineNumber a <= startLineNumber b.
Proof.
  intros Hi1 Hi2 Hc. unfold union_next, unread.
  destruct (Z.ltb_spec i1 (zlen l1)) as [Hl1|Hl1]; destruct (Z.ltb_spec i2 (zlen l2)) as [Hl2|Hl2];
    simpl; [..|lia];
    try (destruct (at_in_range l1 i1 ltac:(lia)) as [a1 Ha1]; rewrite Ha1);
    try (destruct (at_in_range l2 i2 ltac:(lia)) as [a2 Ha2]; rewrite Ha2);
    [destruct (Z.ltb_spec (startLineNumber a1) (startLineNumber a2))|..];
    do 3 eexists; (split; [done|]); (split; [by eauto|]);
    intros b [(k & Hk & ?)|(k & Hk & ?)]; pose proof (at_lt _ _ _ Hk); try lia;
    first [ pose proof (later_starts_later l1 i1 k _ b H1 Ha1 Hk ltac:(lia))
          | pose proof (later_starts_later l2 i2 k _ b H2 Ha2 Hk ltac:(lia)) ]; lia.
Qed.

Definition union_inv (st : union_state) : Prop :=
  0 <= ui1 st <= zlen l1 /\ 0 <= ui2 st <= zlen l2 /\
  exists out, uresult st = Ok out /\
    let all := out ++ opt_list (ucurrent st) in
    normal_nonempty all /\
    (forall n, covers all n <-> covers (take (Z.to_nat (ui1 st)) l1) n \/
                                covers (take (Z.to_nat (ui2 st)) l2) n) /\
    match ucurrent st with
    | Some c => forall b, unread (ui1 st) (ui2 st) b -> startLineNumber c <= startLineNumber b
    | None => out = [] /\ ui1 st = 0 /\ ui2 st = 0
    end.

Definition union_measure (st : union_state) : nat :=
  Z.to_nat (zlen l1 - ui1 st + (zlen l2 - ui2 st)).

Lemma nonempty_at l i a : normal_nonempty l -> l.[i] = Some a -> ivl_nonempty a.
Proof. intros [Hf _] Ha%at_elem_of. rewrite Forall_forall in Hf. auto. Qed.

Lemma unread_mono i1 i2 i1' i2' b :
  i1 <= i1' -> i2 <= i2' -> unread i1' i2' b -> unread i1 i2 b.
Proof. intros ?? [(k & ? & ?)|(k & ? & ?)]; [left|right]; exists k; split; [done|lia|done|lia]. Qed.

Lemma union_step_inv st :
  union_inv st -> (ui1 st <? zlen l1) || (ui2 st <? zlen l2) = true ->
  union_inv (union_step l1 l2 st) /\ (union_measure (union_step l1 l2 st) < union_measure st)%nat.
Proof.
  intros (Hi1 & Hi2 & out & Ho & Hn & Hc & Hcur) Hcond.
  destruct (union_next_spec (ui1 st) (ui2 st) Hi1 Hi2 ltac:(lia))
    as (a & i1' & i2' & E & Hmove & Hmin).
  assert (Hidx : 0 <= i1' <= zlen l1 /\ 0 <= i2' <= zlen l2 /\
                 ui1 st <= i1' /\ ui2 st <= i2' /\ i1' + i2' = ui1 st + ui2 st + 1).
  { destruct Hmove as [(-> & -> & Ha)|(-> & -> & Ha)]; apply at_lt in Ha; lia. }
  assert (Ha : ivl_nonempty a).
  { destruct Hmove as [(_ & _ & Ha)|(_ & _ & Ha)];
      [exact (nonempty_at _ _ _ H1 Ha)|exact (nonempty_at _ _ _ H2 Ha)]. }
  assert (Hread : forall n, covers (take (Z.to_nat i1') l1) n \/ covers (take (Z.to_nat i2') l2) n
    <-> covers (take (Z.to_nat (ui1 st)) l1) n \/ covers (take (Z.to_nat (ui2 st)) l2) n \/ mem n a).
  { intros n. destruct Hmove as [(-> & -> & Hat)|(-> & -> & Hat)];
      rewrite (take_at_S _ _ _ Hat), covers_app, covers_singleton; tauto. }
  assert (Hmin' : forall b, unread i1' i2' b -> startLineNumber a <= startLineNumber b).
  { intros b Hb. apply Hmin. eapply unread_mono; [..|exact Hb]; lia. }
  assert (Har : unread (ui1 st) (ui2 st) a).
  { destruct Hmove as [(_ & _ & Hat)|(_ & _ & Hat)]; [left|right]; eexists; (split; [exact Hat|lia]). }
  unfold union_step. rewrite E. unfold union_measure, union_inv.
  destruct (ucurrent st) as [c|] eqn:Ec.
  - cbn [opt_list] in Hn, Hc.
    destruct (Z.geb_spec (endLineNumberExclusive c) (startLineNumber a)) as [Hge|Hlt].
    + assert (Hcn : ivl_nonempty c)
        by (apply normal_nonempty_app in Hn as (_ & Hn%normal_nonempty_singleton & _); done).
      unfold ivl_nonempty in *. simpl in Ha, Hcn. rewrite new_LineRange_ok by lia. simpl.
      split; [|lia]. split_and!; try lia. exists out. split_and!; [done| | |].
      * apply (normal_nonempty_grow out c); [done|done|simpl; lia].
      * intros n. rewrite Hread. specialize (Hcur a Har).
        specialize (Hc n). rewrite !covers_app, !covers_singleton in *.
        assert (mem n (mkLineRange (startLineNumber c)
          (Z.max (endLineNumberExclusive c) (endLineNumberExclusive a))) <-> mem n c \/ mem n a)
          by (unfold mem; simpl; lia). tauto.
      * intros b Hb. apply Hcur. eapply unread_mono; [..|exact Hb]; lia.
    + simpl. split; [|lia]. split_and!; try lia. exists (out ++ [c]). rewrite Ho.
      split_and!; [done| |  |done].
      * apply normal_nonempty_snoc; [done|done|unfold gap; simpl; lia].
      * intros n. rewrite Hread. rewrite covers_app, covers_singleton, Hc. tauto.
  - destruct Hcur as (-> & ? & ?). simpl. split; [|lia]. split_and!; try lia.
    exists []. rewrite Ho. split_and!; [done| | |done].
    + by apply normal_nonempty_singleton.
    + intros n. rewrite Hread. specialize (Hc n). simpl in *.
      rewrite covers_nil in Hc. rewrite covers_singleton. tauto.
Qed.

Lemma union_loop_spec :
  exists out, let st := while (Datatypes.length l1 + Datatypes.length l2)
    (fun st => (ui1 st <? zlen l1) || (ui2 st <? zlen l2))
    (union_step l1 l2) (mkUnion 0 0 None (Ok [])) in
  uresult st = Ok out /\ normal_nonempty (out ++ opt_list (ucurrent st)) /\
  forall n, covers (out ++ opt_list (ucurrent st)) n <-> covers l1 n \/ covers l2 n.
Proof.
  cbv zeta. while_inv union_inv union_measure as [(Hi1 & Hi2 & out & Ho & Hn & Hc & _) Hcond].
  - exact union_step_inv.
  - unfold union_inv. simpl. pose proof (zlen_nonneg l1). pose proof (zlen_nonneg l2).
    split_and!; try lia. exists []. split_and!; [done|apply normal_nonempty_nil| |done..].
    intros n. simpl. rewrite !covers_nil. tauto.
  - unfold union_measure, zlen. simpl. lia.
  - exists out. split_and!; [done..|]. intros n. rewrite Hc.
    assert (Ht : forall (l : list LineRange) i, i = zlen l -> take (Z.to_nat i) l = l).
    { intros l i ->. apply take_ge. unfold zlen. lia. }
    by rewrite !Ht by lia.
Qed.
End union.

(** [getUnion] never throws, keeps the invariant and contains exactly the lines of the
    two sets. *)
Theorem lineSet_getUnion_union s t :
  set_normal s -> set_normal t ->
  exists u, getUnion s t = Ok u /\ set_normal u /\
    forall n, set_covers u n <-> set_covers s n \/ set_covers t n.
Proof.
  intros Hs Ht. unfold getUnion, set_covers.
  assert (Hz : forall l : list LineRange, zlen l = 0 -> l = []).
  { intros [|? l]; [done|]. rewrite zlen_cons. pose proof (zlen_nonneg l). lia. }
  destruct (Z.eqb_spec (zlen (normalizedRanges s)) 0) as [E%Hz|_].
  { exists t. split_and!; [done..|]. intros n. rewrite E, covers_nil. tauto. }
  destruct (Z.eqb_spec (zlen (normalizedRanges t)) 0) as [E%Hz|_].
  { exists s. split_and!; [done..|]. intros n. rewrite E, covers_nil. tauto. }
  destruct (union_loop_spec _ _ Hs Ht) as (out & Ho & Hn & Hc). cbv zeta in *.
  rewrite Ho. eexists. split; [done|]. split; [exact Hn|exact Hc].
Qed.

Lemma lineSet_getUnion_union_witness :
  getUnion (mkSet [mkLineRange 1 3; mkLineRange 7 9]) (mkSet [mkLineRange 3 5; mkLineRange 8 12])
  = Ok (mkSet [mkLineRange 1 5; mkLineRange 7 12]) /\
  exists u, getUnion (mkSet [mkLineRange 1 3; mkLineRange 7 9])
    (mkSet [mkLineRange 3 5; mkLineRange 8 12]) = Ok u /\ set_normal u.
Proof.
  split; [reflexivity|].
  destruct (lineSet_getUnion_union (mkSet [mkLineRange 1 3; mkLineRange 7 9])
              (mkSet [mkLineRange 3 5; mkLineRange 8 12])) as (u & E & N & _).
  - split; repeat constructor; unfold ivl_nonempty, gap; simpl; lia.
  - split; repeat constructor; unfold ivl_nonempty, gap; simpl; lia.
  - exists u. split; [exact E | exact N].
Defined.

(** ** [subtractFrom] *)

Lemma slice_block (l : list LineRange) i j :
  0 <= i -> i <= j -> j <= zlen l -> Prelude.slice l i j = block l i j.
Proof.
  intros. unfold Prelude.slice, block, rel_index.
  destruct (Z.ltb_spec i 0); [lia|]. destruct (Z.ltb_spec j 0); [lia|].
  by rewrite !Z.min_l by lia.
Qed.

(** What the loop has output when it has read the ranges [B] from the line [s] on: the
    lines of [s, s') that are in none of them. *)
Lemma subtract_loop B res s :
  normal_nonempty B -> (forall b, b ∈ B -> s <= endLineNumberExclusive b) ->
  exists out s', fold_left subtract_step B (Ok (res, s)) = Ok (res ++ out, s') /\
    s <= s' /\ normal_nonempty out /\
    (forall b, b ∈ B -> endLineNumberExclusive b <= s') /\
    (forall x, x ∈ out -> s <= startLineNumber x /\ endLineNumberExclusive x < s' /\
       exists b, b ∈ B /\ endLineNumberExclusive x <= startLineNumber b) /\
    (forall n, covers out n <-> s <= n < s' /\ ~ covers B n).
Proof.
  revert res s. induction B as [|b B IH]; intros res s Hn Hs.
  - exists [], s. rewrite app_nil_r. split_and!; [done|lia|apply normal_nonempty_nil| | |].
    + by intros ? ?%not_elem_of_nil.
    + by intros ? ?%not_elem_of_nil.
    + intros n. rewrite !covers_nil. lia.
  - change (b :: B) with ([b] ++ B) in Hn. apply normal_nonempty_app in Hn as (Hb & HB & Hg).
    apply normal_nonempty_singleton in Hb. unfold ivl_nonempty in Hb. simpl in Hb.
    assert (Hgap : forall x, x ∈ B -> endLineNumberExclusive b < startLineNumber x).
    { intros x Hx. by apply (Hg b x (list_elem_of_here _ _)). }
    assert (HBw : forall x, x ∈ B -> startLineNumber x < endLineNumberExclusive x).
    { destruct HB as [HB _]. rewrite Forall_forall in HB. exact HB. }
    specialize (Hs b (list_elem_of_here _ _)).
    set (first := if startLineNumber b >? s then [mkLineRange s (startLineNumber b)] else []).
    assert (Estep : subtract_step (Ok (res, s)) b = Ok (res ++ first, endLineNumberExclusive b)).
    { unfold subtract_step, first. simpl. destruct (Z.gtb_spec (startLineNumber b) s).
      - by rewrite new_LineRange_ok by lia.
      - by rewrite app_nil_r. }
    cbn [fold_left]. rewrite Estep.
    destruct (IH (res ++ first) (endLineNumberExclusive b) HB) as (out & s' & -> & Hle & Hno & Hend & Hx & Hc).
    { intros x Hx. specialize (Hgap x Hx). specialize (HBw x Hx). lia. }
    exists (first ++ out), s'. rewrite <- app_assoc.
    assert (Hfirst : forall x, x ∈ first ->
      x = mkLineRange s (startLineNumber b) /\ s < startLineNumber b).
    { unfold first. intros x. destruct (Z.gtb_spec (startLineNumber b) s).
      - by intros ->%list_elem_of_singleton.
      - by intros ?%not_elem_of_nil. }
    split_and!; [done|lia| | | |].
    + apply normal_nonempty_app. split_and!; [|done|].
      * unfold first. destruct (Z.gtb_spec (startLineNumber b) s); [|apply normal_nonempty_nil].
        apply normal_nonempty_singleton. unfold ivl_nonempty. simpl. lia.
      * intros x y [-> ?]%Hfirst (Hy & _)%Hx. unfold gap. simpl in *. lia.
    + intros x [->|Hxb]%elem_of_cons; [lia|by apply Hend].
    + intros x [[-> ?]%Hfirst|Hxo]%elem_of_app; simpl.
      * split_and!; try lia. exists b. split; [left|simpl; lia].
      * destruct (Hx x Hxo) as (? & ? & c & Hcb & ?). split_and!; try lia.
        exists c. split; [by right|lia].
    + intros n. rewrite covers_app, Hc, covers_cons. unfold mem at 1. simpl.
      assert (Hf : covers first n <-> s <= n < startLineNumber b).
      { unfold first. destruct (Z.gtb_spec (startLineNumber b) s).
        - rewrite covers_singleton. by unfold mem.
        - rewrite covers_nil. lia. }
      rewrite Hf. assert (HcB : covers B n -> endLineNumberExclusive b < n).
      { intros (x & Hxb & Hm). specialize (Hgap x Hxb). unfold mem in Hm. simpl in Hm. lia. }
      split.
      * intros [?|[? ?]]; (split; [lia|]); intros [?|HB']; try lia;
          first [tauto | specialize (HcB HB'); lia].
      * intros [? Hno']. destruct (decide (n < startLineNumber b)); [left; lia|right].
        split; [|tauto]. destruct (decide (n < endLineNumberExclusive b)); [|lia].
        destruct Hno'. left. lia.
Qed.

(** The rest of the range after the loop, and the result. *)
Lemma subtract_block B r :
  normal_nonempty B -> startLineNumber r < endLineNumberExclusive r ->
  (forall b, b ∈ B -> startLineNumber r <= endLineNumberExclusive b /\
                      startLineNumber b <= endLineNumberExclusive r) ->
  exists d, finish_subtract r (fold_left subtract_step B (Ok ([], startLineNumber r))) = Ok (mkSet d) /\
    normal_nonempty d /\ forall n, covers d n <-> mem n r /\ ~ covers B n.
Proof.
  intros HBn Hr HB.
  destruct (subtract_loop B [] (startLineNumber r) HBn) as (out & s' & -> & Hss & Hno & Hend & Hx & Hc).
  { intros b Hb. by apply HB. }
  set (last := if s' <? endLineNumberExclusive r then [mkLineRange s' (endLineNumberExclusive r)] else []).
  assert (Hlast : forall x, x ∈ last -> x = mkLineRange s' (endLineNumberExclusive r)).
  { unfold last. destruct (_ <? _); [by intros x ->%list_elem_of_singleton|by intros x ?%not_elem_of_nil]. }
  assert (Hl : forall n, covers last n <-> s' <= n < endLineNumberExclusive r).
  { intros n. unfold last. destruct (Z.ltb_spec s' (endLineNumberExclusive r));
      [rewrite covers_singleton; by unfold mem|rewrite covers_nil; lia]. }
  exists (out ++ last). split_and!.
  - unfold finish_subtract, last. simpl. destruct (Z.ltb_spec s' (endLineNumberExclusive r));
      [by rewrite new_LineRange_ok by lia|by rewrite app_nil_r].
  - apply normal_nonempty_app. split_and!; [done| |].
    + unfold last. destruct (Z.ltb_spec s' (endLineNumberExclusive r)); [|apply normal_nonempty_nil].
      apply normal_nonempty_singleton. unfold ivl_nonempty. simpl. lia.
    + intros x y (_ & ? & _)%Hx ->%Hlast. unfold gap. simpl. lia.
  - intros n. rewrite covers_app, Hl, Hc.
    assert (Hout : covers out n -> n < endLineNumberExclusive r).
    { intros (x & Hxo & Hm). destruct (Hx x Hxo) as (_ & _ & b & Hb & ?).
      specialize (HB b Hb). unfold mem in Hm. simpl in Hm. lia. }
    assert (HBs : covers B n -> n < s').
    { intros (b & Hb & Hm). specialize (Hend b Hb). unfold mem in Hm. simpl in Hm. lia. }
    rewrite Hc in Hout. unfold mem. simpl.
    destruct (decide (n < s')), (decide (startLineNumber r <= n)); try lia.
    + split; [intros [Ho|?]; [|lia]|intros [??]; left; split; [lia|done]].
      specialize (Hout Ho). destruct Ho. split; [lia|done].
    + assert (~ covers B n) by (intros ?%HBs; lia). split; [intros [?|?]|intros [??]; right]; try lia.
      split; [lia|done].
Qed.

(** A range meets a set only in the block of the ranges it touches. *)
Lemma covers_touched (l : list LineRange) r i j :
  touch_bounds l r i j -> 0 <= i <= j -> forall n, mem n r -> (covers l n <-> covers (block l i j) n).
Proof.
  intros (Hi & Hj & Hlt & Hle) Hij n Hm. unfold mem in Hm. simpl in Hm, Hlt, Hle.
  split; intros (b & Hb & Hbm); exists b; (split; [|done]).
  - apply elem_of_at in Hb as [k Hk]. apply elem_of_block; [lia|]. exists k. split; [done|].
    specialize (Hlt k b Hk). specialize (Hle k b Hk). unfold mem in Hbm. simpl in Hbm. lia.
  - apply elem_of_block in Hb as (k & Hk & _); [|lia]. by eapply at_elem_of.
Qed.

Lemma block_touches (l : list LineRange) r i j b :
  touch_bounds l r i j -> 0 <= i <= j -> b ∈ block l i j ->
  startLineNumber r <= endLineNumberExclusive b /\ startLineNumber b <= endLineNumberExclusive r.
Proof.
  intros (_ & _ & Hlt & Hle) Hij (k & Hk & ?)%elem_of_block; [|lia].
  specialize (Hlt k b Hk). specialize (Hle k b Hk). simpl in *. lia.
Qed.

(** [subtractFrom] on a non-empty range never throws and returns, as a normalized set,
    exactly the lines of the range that are not in the set. *)
Theorem lineSet_subtractFrom_difference s r :
  set_normal s -> startLineNumber r < endLineNumberExclusive r ->
  exists d, subtractFrom s r = Ok d /\ set_normal d /\
    forall n, set_covers d n <-> LR.contains r n = true /\ ~ set_covers s n.
Proof.
  intros Hs Hr. unfold set_covers. setoid_rewrite lr_contains_mem.
  pose proof (normal_nonempty_normal _ Hs) as Hn. assert (Hrw : lr_wf r) by (unfold lr_wf; lia).
  pose proof (join_bounds _ r Hn Hrw) as Hb. pose proof (touch_bounds_le _ r _ _ Hn Hrw Hb) as Hij.
  pose proof (covers_touched _ r _ _ Hb) as Hcov. pose proof (fun b => block_touches _ r _ _ b Hb) as HB.
  unfold subtractFrom. cbv zeta.
  set (i := joinRangeStartIdx _ r) in *. set (j := joinRangeEndIdxExclusive _ r) in *.
  assert (Hi : 0 <= i <= j /\ j <= zlen (normalizedRanges s)) by (destruct Hb; lia).
  destruct (Z.eqb_spec i j) as [Heq|Hne].
  { eexists. split; [done|]. split; [by apply normal_nonempty_singleton|]. simpl.
    intros n. rewrite covers_singleton. split; [|tauto]. intros Hm. split; [done|].
    rewrite (Hcov ltac:(lia) n Hm). unfold block. rewrite Heq, Z.sub_diag. simpl. rewrite covers_nil; tauto. }
  rewrite slice_block by lia. unfold set_normal in Hs. rewrite (block_split _ i j) in Hs by lia.
  apply normal_nonempty_app in Hs as (_ & Hs & _). apply normal_nonempty_app in Hs as (Hs & _).
  destruct (subtract_block _ r Hs Hr) as (d & -> & Hd & Hc).
  { intros b. apply HB. lia. }
  exists (mkSet d). split_and!; [done|done|]. intros n. simpl. rewrite Hc.
  split; intros [Hm ?]; (split; [done|]); [rewrite Hcov by (done || lia)|rewrite <- Hcov by (done || lia)]; done.
Qed.

Lemma lineSet_subtractFrom_difference_witness :
  subtractFrom (mkSet [mkLineRange 1 3; mkLineRange 5 8; mkLineRange 10 12]) (mkLineRange 2 11)
  = Ok (mkSet [mkLineRange 3 5; mkLineRange 8 10]) /\
  exists d, subtractFrom (mkSet [mkLineRange 1 3; mkLineRange 5 8; mkLineRange 10 12])
    (mkLineRange 2 11) = Ok d /\ set_normal d.
Proof.
  split; [reflexivity|].
  destruct (lineSet_subtractFrom_difference
    (mkSet [mkLineRange 1 3; mkLineRange 5 8; mkLineRange 10 12]) (mkLineRange 2 11))
    as (d & E & N & _).
  - split; repeat constructor; unfold ivl_nonempty, gap; simpl; lia.
  - simpl. lia.
  - exists d. split; [exact E | exact N].
Defined.

(** ** [getIntersection]: walking two sorted arrays *)

Section intersection.
Context (l1 l2 : list LineRange).
Hypothesis (H1 : normal_nonempty l1) (H2 : normal_nonempty l2).

Let rest1 (i : Z) : list LineRange := drop (Z.to_nat i) l1.
Let rest2 (i : Z) : list LineRange := drop (Z.to_nat i) l2.

Definition intersection_inv (st : Z * Z * result (list LineRange)) : Prop :=
  let '(i1, i2, res) := st in
  0 <= i1 <= zlen l1 /\ 0 <= i2 <= zlen l2 /\
  exists out, res = Ok out /\ normal_nonempty out /\
    (forall n, covers l1 n /\ covers l2 n <->
               covers out n \/ covers (rest1 i1) n /\ covers (rest2 i2) n) /\
    (forall x y z, x ∈ out -> y ∈ rest1 i1 -> z ∈ rest2 i2 ->
       endLineNumberExclusive x < Z.max (startLineNumber y) (startLineNumber z)).

Lemma normal_nonempty_drop (l : list LineRange) i r :
  normal_nonempty l -> l.[i] = Some r ->
  startLineNumber r < endLineNumberExclusive r /\
  forall y, y ∈ drop (Z.to_nat (i + 1)) l -> endLineNumberExclusive r < startLineNumber y.
Proof.
  intros Hn Hr. split; [exact (nonempty_at _ _ _ Hn Hr)|].
  apply at_lt in Hr as Hi. intros y (k & Hk & ?)%elem_of_drop_at; [|lia].
  pose proof (normal_at_lt l i k r y (normal_nonempty_normal l Hn) Hr Hk ltac:(lia)) as Hg.
  exact Hg.
Qed.

(** The range pushed for the pair of ranges the loop looks at, if any. *)
Definition pair_out (r1 r2 : LineRange) : list LineRange :=
  let s := Z.max (startLineNumber r1) (startLineNumber r2) in
  let e := Z.min (endLineNumberExclusive r1) (endLineNumberExclusive r2) in
  if s <? e then [mkLineRange s e] else [].

Lemma pair_out_covers r1 r2 n : covers (pair_out r1 r2) n <-> mem n r1 /\ mem n r2.
Proof.
  unfold pair_out. destruct (Z.ltb_spec (Z.max (startLineNumber r1) (startLineNumber r2))
    (Z.min (endLineNumberExclusive r1) (endLineNumberExclusive r2))).
  - rewrite covers_singleton. unfold mem. simpl. lia.
  - rewrite covers_nil. unfold mem. simpl. lia.
Qed.

Lemma elem_of_pair_out r1 r2 x :
  x ∈ pair_out r1 r2 ->
  startLineNumber x = Z.max (startLineNumber r1) (startLineNumber r2) /\
  endLineNumberExclusive x = Z.min (endLineNumberExclusive r1) (endLineNumberExclusive r2).
Proof.
  unfold pair_out. destruct (_ <? _); [|by intros ?%not_elem_of_nil].
  by intros ->%list_elem_of_singleton.
Qed.

Lemma intersection_step_eq i1 i2 out r1 r2 :
  l1.[i1] = Some r1 -> l2.[i2] = Some r2 ->
  intersection_step l1 l2 (i1, i2, Ok out) =
  let res := Ok (out ++ pair_out r1 r2) in
  if endLineNumberExclusive r1 <? endLineNumberExclusive r2
  then (i1 + 1, i2, res) else (i1, i2 + 1, res).
Proof.
  intros E1 E2. unfold intersection_step, pair_out, LR.intersect. rewrite E1, E2.
  cbn [result_bind].
  destruct (Z.leb_spec (Z.max (startLineNumber r1) (startLineNumber r2))
    (Z.min (endLineNumberExclusive r1) (endLineNumberExclusive r2))).
  - rewrite new_LineRange_ok by lia. simpl. unfold isEmpty. simpl.
    destruct (Z.eqb_spec (Z.max (startLineNumber r1) (startLineNumber r2))
      (Z.min (endLineNumberExclusive r1) (endLineNumberExclusive r2)));
    destruct (Z.ltb_spec (Z.max (startLineNumber r1) (startLineNumber r2))
      (Z.min (endLineNumberExclusive r1) (endLineNumberExclusive r2))); simpl; try lia;
    rewrite ?app_nil_r; done.
  - destruct (Z.ltb_spec (Z.max (startLineNumber r1) (startLineNumber r2))
      (Z.min (endLineNumberExclusive r1) (endLineNumberExclusive r2))); [lia|].
    by rewrite app_nil_r.
Qed.

Lemma pair_out_normal out r1 r2 :
  normal_nonempty out ->
  (forall x, x ∈ out ->
     endLineNumberExclusive x < Z.max (startLineNumber r1) (startLineNumber r2)) ->
  normal_nonempty (out ++ pair_out r1 r2).
Proof.
  intros Hn Hg. apply normal_nonempty_app. split_and!; [done| |].
  - unfold pair_out. destruct (Z.ltb_spec (Z.max (startLineNumber r1) (startLineNumber r2))
      (Z.min (endLineNumberExclusive r1) (endLineNumberExclusive r2)));
      [|apply normal_nonempty_nil].
    apply normal_nonempty_singleton. unfold ivl_nonempty. simpl. lia.
  - intros x y Hx [Hy _]%elem_of_pair_out. specialize (Hg x Hx). unfold gap. simpl. lia.
Qed.

Lemma intersection_step_inv st :
  intersection_inv st ->
  (let '(i1, i2, _) := st in (i1 <? zlen l1) && (i2 <? zlen l2)) = true ->
  intersection_inv (intersection_step l1 l2 st) /\
  (let '(i1, i2, _) := intersection_step l1 l2 st in
   Z.to_nat (zlen l1 - i1 + (zlen l2 - i2)) <
   let '(i1, i2, _) := st in Z.to_nat (zlen l1 - i1 + (zlen l2 - i2)))%nat.
Proof.
  destruct st as [[i1 i2] res]. intros (Hi1 & Hi2 & out & -> & Hn & Hc & Hg) Hcond.
  destruct (at_in_range l1 i1 ltac:(lia)) as [r1 E1].
  destruct (at_in_range l2 i2 ltac:(lia)) as [r2 E2].
  destruct (normal_nonempty_drop l1 i1 r1 H1 E1) as [Hr1 Hd1].
  destruct (normal_nonempty_drop l2 i2 r2 H2 E2) as [Hr2 Hd2].
  assert (D1 : rest1 i1 = r1 :: rest1 (i1 + 1)) by by apply drop_at_S.
  assert (D2 : rest2 i2 = r2 :: rest2 (i2 + 1)) by by apply drop_at_S.
  fold (rest1 (i1 + 1)) in Hd1. fold (rest2 (i2 + 1)) in Hd2.
  rewrite (intersection_step_eq _ _ _ _ _ E1 E2). cbv zeta.
  assert (Hno : normal_nonempty (out ++ pair_out r1 r2)).
  { apply pair_out_normal; [done|]. intros x Hx. apply Hg; [done|rewrite D1; left|rewrite D2; left]. }
  assert (Hlater1 : forall n, covers (rest1 (i1 + 1)) n -> endLineNumberExclusive r1 < n).
  { intros n (y & Hy & Hm). specialize (Hd1 y Hy). unfold mem in Hm. simpl in Hm. lia. }
  assert (Hlater2 : forall n, covers (rest2 (i2 + 1)) n -> endLineNumberExclusive r2 < n).
  { intros n (y & Hy & Hm). specialize (Hd2 y Hy). unfold mem in Hm. simpl in Hm. lia. }
  assert (Hc' : forall n, covers l1 n /\ covers l2 n <-> covers out n \/
    (mem n r1 \/ covers (rest1 (i1 + 1)) n) /\ (mem n r2 \/ covers (rest2 (i2 + 1)) n)).
  { intros n. rewrite Hc, D1, D2, !covers_cons. done. }
  destruct (Z.ltb_spec (endLineNumberExclusive r1) (endLineNumberExclusive r2)) as [Hlt|Hge];
    (split; [|lia]); unfold intersection_inv; split_and!; try lia;
    exists (out ++ pair_out r1 r2); split_and!; try done.
  - intros n. rewrite Hc', covers_app, pair_out_covers, D2, covers_cons.
    specialize (Hlater1 n). specialize (Hlater2 n).
    assert (mem n r1 -> ~ covers (rest2 (i2 + 1)) n); [|tauto].
    intros Hm Hcv. specialize (Hlater2 Hcv). unfold mem in Hm. simpl in Hm. lia.
  - intros x y z [Hx|[_ Hx]%elem_of_pair_out]%elem_of_app Hy Hz.
    + apply Hg; [done|rewrite D1; by right|done].
    + specialize (Hd1 y Hy). lia.
  - intros n. rewrite Hc', covers_app, pair_out_covers, D1, covers_cons.
    specialize (Hlater1 n). specialize (Hlater2 n).
    assert (mem n r2 -> ~ covers (rest1 (i1 + 1)) n); [|tauto].
    intros Hm Hcv. specialize (Hlater1 Hcv). unfold mem in Hm. simpl in Hm. lia.
  - intros x y z [Hx|[_ Hx]%elem_of_pair_out]%elem_of_app Hy Hz.
    + apply Hg; [done|done|rewrite D2; by right].
    + specialize (Hd2 z Hz). lia.
Qed.
End intersection.

(** [getIntersection] never throws, keeps the invariant and contains exactly the
    lines common to the two sets. *)
Theorem lineSet_getIntersection_intersection s t :
  set_normal s -> set_normal t ->
  exists u, getIntersection s t = Ok u /\ set_normal u /\
    forall n, set_covers u n <-> set_covers s n /\ set_covers t n.
Proof.
  intros Hs Ht. unfold getIntersection, set_covers.
  set (l1 := normalizedRanges s) in *. set (l2 := normalizedRanges t) in *.
  pose proof (zlen_nonneg l1). pose proof (zlen_nonneg l2).
  while_inv (intersection_inv l1 l2)
    (fun st : Z * Z * result (list LineRange) =>
       let '(i1, i2, _) := st in Z.to_nat (zlen l1 - i1 + (zlen l2 - i2))) as [HI Hcond].
  - intros st Hst Hc. destruct (intersection_step_inv l1 l2 Hs Ht st Hst) as [HI Hm].
    { by destruct st as [[??]?]. }
    split; [exact HI|]. destruct (intersection_step l1 l2 st) as [[??]?], st as [[??]?]. exact Hm.
  - unfold intersection_inv. split_and!; try lia. exists [].
    split_and!; [done|apply normal_nonempty_nil| |by intros ??? ?%not_elem_of_nil].
    intros n. rewrite covers_nil. simpl. tauto.
  - unfold zlen. lia.
  - destruct (while _ _ _ _) as [[i1 i2] res]. destruct HI as (Hi1 & Hi2 & out & -> & Hn & Hc & _).
    eexists. split; [done|]. split; [exact Hn|]. intros n. simpl. rewrite Hc.
    assert (Hd : drop (Z.to_nat i1) l1 = [] \/ drop (Z.to_nat i2) l2 = []).
    { assert (i1 = zlen l1 \/ i2 = zlen l2) as [->| ->] by lia; [left|right];
        apply drop_ge; unfold zlen; lia. }
    destruct Hd as [-> | ->]; rewrite covers_nil; tauto.
Qed.

Lemma lineSet_getIntersection_intersection_witness :
  getIntersection (mkSet [mkLineRange 1 4; mkLineRange 7 9]) (mkSet [mkLineRange 3 8])
  = Ok (mkSet [mkLineRange 3 4; mkLineRange 7 8]) /\
  exists u, getIntersection (mkSet [mkLineRange 1 4; mkLineRange 7 9]) (mkSet [mkLineRange 3 8])
    = Ok u /\ set_normal u.
Proof.
  split; [reflexivity|].
  destruct (lineSet_getIntersection_intersection (mkSet [mkLineRange 1 4; mkLineRange 7 9])
              (mkSet [mkLineRange 3 8])) as (u & E & N & _).
  - split; repeat constructor; unfold ivl_nonempty, gap; simpl; lia.
  - split; repeat constructor; unfold ivl_nonempty, gap; simpl; lia.
  - exists u. split; [exact E | exact N].
Defined.
