(* ===== verification/PrefixSum.v ===== *)
(** * Prefix sums

    [src/src/vs/editor/common/model/prefixSumComputer.ts] and [toUint8], [toUint32] of
    [src/src/vs/base/common/uint.ts]: [PrefixSumComputer] keeps 32-bit prefix sums in
    typed arrays, valid up to an index, and finds the item under a sum by binary search;
    [ConstantTimePrefixSumComputer] keeps an array from sums to items instead.  Both are
    proved to compute the same specification, [sum_to]. *)

From S2P Require Import Prelude.

#[local] Open Scope js_scope.

(** ** [uint.ts] *)

Definition toUint8 (v : Z) : Z :=
  if v <? 0 then 0 else if v >? 255 then 255 else to_int32 v.

Definition toUint32 (v : Z) : Z :=
  if v <? 0 then 0 else if v >? 4294967295 then 4294967295 else to_int32 v.

(** ** Typed arrays *)

(** [new Uint32Array(n)] *)
Definition new_Uint32Array (n : Z) : list Z := replicate (Z.to_nat n) 0.

(** [target.set(source, offset)] *)
Definition ta_set (target source : list Z) (offset : Z) : result (list Z) :=
  if (offset <? 0) || (zlen source + offset >? zlen target) then Throw RangeError
  else Ok (take (Z.to_nat offset) target ++ (to_uint32w <$> source) ++
           drop (Z.to_nat (offset + zlen source)) target).

(** [target.subarray(b, e)] has the relative indices of [slice]. *)
Definition subarray {A} (l : list A) (b e : Z) : list A := slice l b e.
Definition subarray_from {A} (l : list A) (b : Z) : list A := slice_from l b.

(** [target[i] = v]: ignored outside the array. *)
Definition ta_put (target : list Z) (i v : Z) : list Z := set_at target i (to_uint32w v).

(** ** [PrefixSumComputer] *)

Record PrefixSumIndexOfResult : Type := mkIndexOf { index : Z; remainder : Z }.

Module PSC.

Record PrefixSumComputer : Type := mkPSC {
  values : list Z;
  prefixSum : list Z;
  prefixSumValidIndex : Z }.

Definition new_PrefixSumComputer (vs : list Z) : PrefixSumComputer :=
  mkPSC vs (new_Uint32Array (zlen vs)) (-1).

Definition getCount (this : PrefixSumComputer) : Z := zlen (values this).

Definition insertValues (this : PrefixSumComputer) (insertIndex : Z) (insertValues : list Z)
    : result (bool * PrefixSumComputer) :=
  let insertIndex := toUint32 insertIndex in
  let oldValues := values this in
  let oldPrefixSum := prefixSum this in
  let insertValuesLen := zlen insertValues in
  if insertValuesLen =? 0 then Ok (false, this)
  else
    let v0 := new_Uint32Array (zlen oldValues + insertValuesLen) in
    let* v1 := ta_set v0 (subarray oldValues 0 insertIndex) 0 in
    let* v2 := ta_set v1 (subarray_from oldValues insertIndex) (insertIndex + insertValuesLen) in
    let* v3 := ta_set v2 insertValues insertIndex in
    let valid := if insertIndex - 1 <? prefixSumValidIndex this
                 then to_int32 (insertIndex - 1) else prefixSumValidIndex this in
    let p0 := new_Uint32Array (zlen v3) in
    let* p1 := if valid >=? 0 then ta_set p0 (subarray oldPrefixSum 0 (valid + 1)) 0 else Ok p0 in
    Ok (true, mkPSC v3 p1 valid).

Definition setValue (this : PrefixSumComputer) (index value : Z) : bool * PrefixSumComputer :=
  let index := toUint32 index in
  let value := toUint32 value in
  if match (values this).[index] with Some v => v =? value | None => false end then (false, this)
  else
    let valid := if index - 1 <? prefixSumValidIndex this
                 then to_int32 (index - 1) else prefixSumValidIndex this in
    (true, mkPSC (ta_put (values this) index value) (prefixSum this) valid).

Definition removeValues (this : PrefixSumComputer) (startIndex count : Z)
    : result (bool * PrefixSumComputer) :=
  let startIndex := toUint32 startIndex in
  let count := toUint32 count in
  let oldValues := values this in
  let oldPrefixSum := prefixSum this in
  if startIndex >=? zlen oldValues then Ok (false, this)
  else
    let maxCount := zlen oldValues - startIndex in
    let count := if count >=? maxCount then maxCount else count in
    if count =? 0 then Ok (false, this)
    else
      let v0 := new_Uint32Array (zlen oldValues - count) in
      let* v1 := ta_set v0 (subarray oldValues 0 startIndex) 0 in
      let* v2 := ta_set v1 (subarray_from oldValues (startIndex + count)) startIndex in
      let p0 := new_Uint32Array (zlen v2) in
      let valid := if startIndex - 1 <? prefixSumValidIndex this
                   then to_int32 (startIndex - 1) else prefixSumValidIndex this in
      let* p1 := if valid >=? 0 then ta_set p0 (subarray oldPrefixSum 0 (valid + 1)) 0
                 else Ok p0 in
      Ok (true, mkPSC v2 p1 valid).

(** One turn of the loop of [_getPrefixSum]; both reads are inside the arrays. *)
Definition extend_sum (vs : list Z) (p : list Z) (i : Z) : list Z :=
  match p.[i - 1], vs.[i] with
  | Some s, Some v => ta_put p i (s + v)
  | _, _ => p
  end.

(** [None] is the [undefined] read outside the array. *)
Definition getPrefixSum_ (this : PrefixSumComputer) (index : Z) : option Z * PrefixSumComputer :=
  if index <=? prefixSumValidIndex this then ((prefixSum this).[index], this)
  else
    let startIndex := prefixSumValidIndex this + 1 in
    let '(p0, startIndex) :=
      if startIndex =? 0 then
        (match (values this).[0] with Some v => ta_put (prefixSum this) 0 v
                                    | None => prefixSum this end, startIndex + 1)
      else (prefixSum this, startIndex) in
    let index := if index >=? zlen (values this) then zlen (values this) - 1 else index in
    let p1 := fold_left (extend_sum (values this)) (zrange startIndex (index + 1)) p0 in
    (p1.[index],
     mkPSC (values this) p1 (to_int32 (Z.max (prefixSumValidIndex this) index))).

Definition getTotalSum (this : PrefixSumComputer) : option Z * PrefixSumComputer :=
  if zlen (values this) =? 0 then (Some 0, this)
  else getPrefixSum_ this (zlen (values this) - 1).

Definition getPrefixSum (this : PrefixSumComputer) (index : Z) : option Z * PrefixSumComputer :=
  if index <? 0 then (Some 0, this) else getPrefixSum_ this (toUint32 index).

(** The binary search of [getIndexOf]: its variables, and whether it has left by
    [break]. *)
Record search_state : Type := mkSearch {
  low : Z; high : Z; mid : Z; midStop : Z; midStart : Z; found : bool }.

Definition search_step (this : PrefixSumComputer) (sum : Z) (st : search_state) : search_state :=
  let mid := to_int32 (low st + (high st - low st) / 2) in
  let midStop := default 0 ((prefixSum this).[mid]) in
  let midStart := midStop - default 0 ((values this).[mid]) in
  if sum <? midStart then mkSearch (low st) (mid - 1) mid midStop midStart false
  else if sum >=? midStop then mkSearch (mid + 1) (high st) mid midStop midStart false
  else mkSearch (low st) (high st) mid midStop midStart true.

Definition getIndexOf (this : PrefixSumComputer) (sum : Z)
    : PrefixSumIndexOfResult * PrefixSumComputer :=
  let '(_, this) := getTotalSum this in
  let st := while (S (length (values this)))
    (fun st => (low st <=? high st) && negb (found st)) (search_step this sum)
    (mkSearch 0 (zlen (values this) - 1) 0 0 0 false) in
  (mkIndexOf (mid st) (sum - midStart st), this).

End PSC.

(** ** [ConstantTimePrefixSumComputer] *)

(** [target[i] = v] on a plain array, which grows; the holes a write past the end
    would leave (never made, by the invariant below) are filled with 0. *)
Definition arr_put (l : list Z) (i v : Z) : list Z :=
  if i <? 0 then l
  else if i <? zlen l then set_at l i v
  else l ++ replicate (Z.to_nat (i - zlen l)) 0 ++ [v].

(** [target.length = n]; assigning [undefined] throws. *)
Definition set_length (l : list Z) (n : option Z) : result (list Z) :=
  match n with
  | None => Throw RangeError
  | Some n =>
      if (n <? 0) || (n >? 4294967295) then Throw RangeError
      else Ok (take (Z.to_nat n) l ++ replicate (Z.to_nat (n - zlen l)) 0)
  end.

(** [arrayInsert] of [src/src/vs/base/common/arrays.ts]. *)
Definition arrayInsert {T} (target : list T) (insertIndex : Z) (insertArr : list T) : list T :=
  let before := slice target 0 insertIndex in
  let after := slice_from target insertIndex in
  before ++ insertArr ++ after.

Module CT.

Record ConstantTimePrefixSumComputer : Type := mkCT {
  values_ : list Z;
  isValid : bool;
  validEndIndex : Z;
  prefixSum_ : list Z;
  indexBySum : list Z }.

Definition new_ConstantTime (vs : list Z) : ConstantTimePrefixSumComputer :=
  mkCT vs false (-1) [] [].

(** One turn of the outer loop of [_ensureValid]. *)
Definition ensure_step (vs : list Z) (st : list Z * list Z) (i : Z) : list Z * list Z :=
  let '(ps, ibs) := st in
  let value := default 0 (vs.[i]) in
  let sumAbove := if i >? 0 then default 0 (ps.[i - 1]) else 0 in
  (arr_put ps i (sumAbove + value),
   fold_left (fun ibs j => arr_put ibs (sumAbove + j) i) (zrange 0 value) ibs).

Definition ensureValid (this : ConstantTimePrefixSumComputer)
    : result ConstantTimePrefixSumComputer :=
  if isValid this then Ok this
  else
    let '(ps, ibs) := fold_left (ensure_step (values_ this))
      (zrange (validEndIndex this + 1) (zlen (values_ this))) (prefixSum_ this, indexBySum this) in
    let* ps := set_length ps (Some (zlen (values_ this))) in
    let* ibs := set_length ibs (ps.[zlen ps - 1]) in
    Ok (mkCT (values_ this) true (zlen (values_ this) - 1) ps ibs).

Definition getTotalSum (this : ConstantTimePrefixSumComputer)
    : result (Z * ConstantTimePrefixSumComputer) :=
  let* this := ensureValid this in Ok (zlen (indexBySum this), this).

Definition getPrefixSum (this : ConstantTimePrefixSumComputer) (count : Z)
    : result (option Z * ConstantTimePrefixSumComputer) :=
  let* this := ensureValid this in
  if count =? 0 then Ok (Some 0, this) else Ok ((prefixSum_ this).[count - 1], this).

(** The index is [undefined] when no item is under [sum]. *)
Definition getIndexOf (this : ConstantTimePrefixSumComputer) (sum : Z)
    : result (option Z * Z * ConstantTimePrefixSumComputer) :=
  let* this := ensureValid this in
  let idx := (indexBySum this).[sum] in
  let viewLinesAbove :=
    match idx with
    | Some i => if i >? 0 then default 0 ((prefixSum_ this).[i - 1]) else 0
    | None => 0
    end in
  Ok (idx, sum - viewLinesAbove, this).

Definition invalidate (this : ConstantTimePrefixSumComputer) (index : Z)
    : ConstantTimePrefixSumComputer :=
  mkCT (values_ this) false (Z.min (validEndIndex this) (index - 1))
    (prefixSum_ this) (indexBySum this).

Definition with_values (this : ConstantTimePrefixSumComputer) (vs : list Z)
    : ConstantTimePrefixSumComputer :=
  mkCT vs (isValid this) (validEndIndex this) (prefixSum_ this) (indexBySum this).

Definition removeValues (this : ConstantTimePrefixSumComputer) (start deleteCount : Z)
    : ConstantTimePrefixSumComputer :=
  invalidate (with_values this (splice (values_ this) start deleteCount [])) start.

Definition insertValues (this : ConstantTimePrefixSumComputer) (insertIndex : Z)
    (insertArr : list Z) : ConstantTimePrefixSumComputer :=
  invalidate (with_values this (arrayInsert (values_ this) insertIndex insertArr)) insertIndex.

Definition setValue (this : ConstantTimePrefixSumComputer) (index value : Z)
    : ConstantTimePrefixSumComputer :=
  if match (values_ this).[index] with Some v => v =? value | None => false end then this
  else invalidate (with_values this (arr_put (values_ this) index value)) index.

End CT.

Import PSC.

(** ** Specification *)

Fixpoint zsum (l : list Z) : Z :=
  match l with [] => 0 | x :: l' => x + zsum l' end.

(** The sum of the first [k] items. *)
Definition sum_to (vs : list Z) (k : Z) : Z := zsum (take (Z.to_nat k) vs).

(** The item under [sum]: the sums before and after it enclose [sum]. *)
Definition is_index_of (vs : list Z) (sum i : Z) : Prop :=
  0 <= i < zlen vs /\ sum_to vs i <= sum < sum_to vs (i + 1).

Lemma zsum_app l k : zsum (l ++ k) = zsum l + zsum k.
Proof. induction l; simpl; lia. Qed.

Lemma sum_to_0 vs : sum_to vs 0 = 0.
Proof. done. Qed.

Lemma sum_to_S vs k v : vs.[k] = Some v -> sum_to vs (k + 1) = sum_to vs k + v.
Proof.
  unfold at_, sum_to. destruct (Z.ltb_spec k 0); [done|]. intros Hv.
  replace (Z.to_nat (k + 1)) with (S (Z.to_nat k)) by lia.
  rewrite (take_S_r _ _ _ Hv), zsum_app. simpl. lia.
Qed.

Lemma sum_to_all vs k : zlen vs <= k -> sum_to vs k = zsum vs.
Proof. intros. unfold sum_to. rewrite take_ge; [done|]. unfold zlen in *. lia. Qed.

Lemma sum_to_take vs vs' k :
  take (Z.to_nat k) vs = take (Z.to_nat k) vs' -> sum_to vs k = sum_to vs' k.
Proof. unfold sum_to. by intros ->. Qed.

Lemma zsum_nonneg l : Forall (fun x => 0 <= x) l -> 0 <= zsum l.
Proof. induction 1; simpl; lia. Qed.

Lemma sum_to_mono vs j k :
  Forall (fun x => 0 <= x) vs -> 0 <= j <= k -> sum_to vs j <= sum_to vs k.
Proof.
  intros Hf Hjk. unfold sum_to.
  replace (Z.to_nat k) with (Z.to_nat j + Z.to_nat (k - j))%nat by lia.
  rewrite <- (take_drop (Z.to_nat j) (take (Z.to_nat j + _) vs)).
  rewrite take_take, Nat.min_l, zsum_app by lia.
  assert (0 <= zsum (drop (Z.to_nat j) (take (Z.to_nat j + Z.to_nat (k - j)) vs))); [|lia].
  by apply zsum_nonneg, Forall_drop, Forall_take.
Qed.

Lemma sum_to_nonneg vs k : Forall (fun x => 0 <= x) vs -> 0 <= sum_to vs k.
Proof. intros. by apply zsum_nonneg, Forall_take. Qed.

Lemma is_index_of_unique vs sum i j :
  Forall (fun x => 0 <= x) vs -> is_index_of vs sum i -> is_index_of vs sum j -> i = j.
Proof.
  intros Hf [Hi Hi'] [Hj Hj'].
  destruct (Z.lt_trichotomy i j) as [|[|]]; [|done|].
  - pose proof (sum_to_mono vs (i + 1) j Hf ltac:(lia)). lia.
  - pose proof (sum_to_mono vs (j + 1) i Hf ltac:(lia)). lia.
Qed.

(** ** Typed arrays *)

Lemma uint32_fmap_id l : Forall is_uint32 l -> to_uint32w <$> l = l.
Proof. induction 1; simpl; [done|]. rewrite to_uint32w_id by done. by f_equal. Qed.

Lemma ta_set_app (a b c src : list Z) :
  zlen b = zlen src -> ta_set (a ++ b ++ c) src (zlen a) = Ok (a ++ (to_uint32w <$> src) ++ c).
Proof.
  intros Hl. unfold ta_set. pose proof (zlen_nonneg a). pose proof (zlen_nonneg c).
  destruct (_ || _) eqn:E.
  { exfalso. rewrite !zlen_app in E. lia. }
  do 2 f_equal; [|f_equal]; unfold zlen in *.
  - rewrite Nat2Z.id. by rewrite take_app_length.
  - rewrite app_assoc, drop_app_length'; [done|]. rewrite length_app. lia.
Qed.

Lemma new_Uint32Array_app a b :
  0 <= a -> 0 <= b -> new_Uint32Array (a + b) = new_Uint32Array a ++ new_Uint32Array b.
Proof.
  intros. unfold new_Uint32Array. rewrite Z2Nat.inj_add by done. apply replicate_add.
Qed.

Lemma subarray_take {A} (l : list A) k : 0 <= k <= zlen l -> subarray l 0 k = take (Z.to_nat k) l.
Proof.
  intros. unfold subarray, slice, rel_index. simpl. pose proof (zlen_nonneg l).
  destruct (Z.ltb_spec k 0); [lia|].
  rewrite !Z.min_l by lia. by rewrite Z.sub_0_r.
Qed.

Lemma subarray_from_drop {A} (l : list A) k : 0 <= k <= zlen l -> subarray_from l k = drop (Z.to_nat k) l.
Proof.
  intros. unfold subarray_from, slice_from, slice, rel_index. pose proof (zlen_nonneg l).
  destruct (Z.ltb_spec k 0); [lia|]. destruct (Z.ltb_spec (zlen l) 0); [lia|].
  rewrite !Z.min_l by lia. apply take_ge. rewrite length_drop. unfold zlen. lia.
Qed.

Lemma set_prefix (l : list Z) i n :
  0 <= i <= zlen l -> i <= n -> Forall is_uint32 l ->
  ta_set (new_Uint32Array n) (subarray l 0 i) 0 =
  Ok (take (Z.to_nat i) l ++ new_Uint32Array (n - i)).
Proof.
  intros Hi Hn Hl. rewrite subarray_take by done.
  replace n with (i + (n - i)) at 1 by lia. rewrite new_Uint32Array_app by lia.
  pose proof (ta_set_app [] (new_Uint32Array i) (new_Uint32Array (n - i)) (take (Z.to_nat i) l)) as E.
  simpl in E. change (zlen []) with 0 in E. rewrite E.
  - by rewrite uint32_fmap_id by by apply Forall_take.
  - unfold new_Uint32Array. rewrite zlen_replicate, zlen_take by lia. done.
Qed.

Lemma zlen_new n : 0 <= n -> zlen (new_Uint32Array n) = n.
Proof. apply zlen_replicate. Qed.

(** Copying around an insertion, as [insertValues] does. *)
Lemma insert_copy i (old ins : list Z) :
  0 <= i <= zlen old -> Forall is_uint32 old -> Forall is_uint32 ins ->
  result_bind (ta_set (new_Uint32Array (zlen old + zlen ins)) (subarray old 0 i) 0) (fun v1 =>
  result_bind (ta_set v1 (subarray_from old i) (i + zlen ins)) (fun v2 => ta_set v2 ins i)) =
  Ok (take (Z.to_nat i) old ++ ins ++ drop (Z.to_nat i) old).
Proof.
  intros Hi Ho Hins. pose proof (zlen_nonneg ins).
  rewrite set_prefix by (done || lia). cbn [result_bind].
  replace (zlen old + zlen ins - i) with (zlen ins + (zlen old - i)) by lia.
  rewrite new_Uint32Array_app by lia. rewrite subarray_from_drop by done.
  pose proof (ta_set_app (take (Z.to_nat i) old ++ new_Uint32Array (zlen ins))
    (new_Uint32Array (zlen old - i)) [] (drop (Z.to_nat i) old)) as E2.
  rewrite !app_nil_r, zlen_app, zlen_take, !zlen_new, zlen_drop, <- app_assoc in E2 by lia.
  rewrite E2 by lia. cbn [result_bind].
  pose proof (ta_set_app (take (Z.to_nat i) old) (new_Uint32Array (zlen ins))
    (to_uint32w <$> drop (Z.to_nat i) old) ins) as E3.
  rewrite zlen_take in E3 by done. rewrite <- app_assoc, E3 by (rewrite zlen_new; lia).
  by rewrite !uint32_fmap_id by (done || by apply Forall_drop).
Qed.

(** Copying around a removal, as [removeValues] does. *)
Lemma remove_copy i count (old : list Z) :
  0 <= i -> 0 <= count -> i + count <= zlen old -> Forall is_uint32 old ->
  result_bind (ta_set (new_Uint32Array (zlen old - count)) (subarray old 0 i) 0) (fun v1 =>
    ta_set v1 (subarray_from old (i + count)) i) =
  Ok (take (Z.to_nat i) old ++ drop (Z.to_nat (i + count)) old).
Proof.
  intros Hi Hc Hle Ho. rewrite set_prefix by (done || lia). cbn [result_bind].
  rewrite subarray_from_drop by lia.
  pose proof (ta_set_app (take (Z.to_nat i) old) (new_Uint32Array (zlen old - count - i)) []
    (drop (Z.to_nat (i + count)) old)) as E.
  rewrite !app_nil_r, zlen_take in E by lia.
  rewrite E by (rewrite zlen_new, zlen_drop; lia).
  by rewrite uint32_fmap_id by by apply Forall_drop.
Qed.

(** ** The invariant *)

Definition psc_wf (this : PrefixSumComputer) : Prop :=
  Forall is_uint32 (values this) /\ Forall is_uint32 (prefixSum this) /\
  zlen (prefixSum this) = zlen (values this) /\
  zlen (values this) < 2 ^ 31 /\
  -1 <= prefixSumValidIndex this /\ prefixSumValidIndex this <= zlen (values this) - 1 /\
  forall i, 0 <= i <= prefixSumValidIndex this ->
    (prefixSum this).[i] = Some (to_uint32w (sum_to (values this) (i + 1))).

Lemma to_uint32_id v : 0 <= v < 2 ^ 31 -> toUint32 v = v.
Proof.
  intros. unfold toUint32. destruct (Z.ltb_spec v 0); [lia|].
  destruct (Z.gtb_spec v 4294967295); [lia|]. apply to_int32_id. unfold is_int32. lia.
Qed.

Lemma new_psc_wf vs : Forall is_uint32 vs -> zlen vs < 2 ^ 31 -> psc_wf (new_PrefixSumComputer vs).
Proof.
  intros Hv Hl. pose proof (zlen_nonneg vs). unfold psc_wf. simpl.
  split_and!; try done; try lia.
  - apply Forall_replicate. unfold is_uint32. lia.
  - by apply zlen_new.
Qed.

(** Lowering the valid index keeps the sums of an unchanged prefix of the values. *)
Lemma valid_min valid k :
  -1 <= k < 2 ^ 31 -> -1 <= valid ->
  (if k <? valid then to_int32 k else valid) = Z.min k valid.
Proof.
  intros. rewrite to_int32_id by (unfold is_int32; lia). zbool.
Qed.

Lemma sum_to_kept vs vs' n i :
  take (Z.to_nat n) vs = take (Z.to_nat n) vs' -> 0 <= i <= n -> sum_to vs i = sum_to vs' i.
Proof.
  intros Ht Hi. apply sum_to_take.
  rewrite <- (Nat.min_l (Z.to_nat i) (Z.to_nat n)) by lia. rewrite <- !take_take. by f_equal.
Qed.

(** The end of [insertValues] and [removeValues]: a fresh array of sums, of which those
    of an unchanged prefix of the values are kept. *)
Lemma kept_prefix_wf old vs valid :
  psc_wf old -> Forall is_uint32 vs -> zlen vs < 2 ^ 31 ->
  -1 <= valid < zlen vs -> valid <= prefixSumValidIndex old ->
  take (Z.to_nat (valid + 1)) vs = take (Z.to_nat (valid + 1)) (values old) ->
  exists p, (if valid >=? 0
             then ta_set (new_Uint32Array (zlen vs)) (subarray (prefixSum old) 0 (valid + 1)) 0
             else Ok (new_Uint32Array (zlen vs))) = Ok p /\ psc_wf (mkPSC vs p valid).
Proof.
  intros (Hf & Hpf & Hpl & Hl & Hv1 & Hv2 & Hp) Hvs Hlen Hval Hle Htake.
  assert (Hnew : forall n, Forall is_uint32 (new_Uint32Array n)).
  { intros n. apply Forall_replicate. unfold is_uint32. lia. }
  destruct (Z.geb_spec valid 0).
  - rewrite set_prefix by (done || lia). eexists. split; [done|].
    unfold psc_wf. simpl. split_and!; try done; try lia.
    + apply Forall_app. split; [by apply Forall_take|done].
    + rewrite zlen_app, zlen_take, zlen_new by lia. lia.
    + intros i Hi. rewrite at_app_l by (rewrite zlen_take by lia; lia).
      rewrite at_take by lia. rewrite Hp by lia.
      by rewrite (sum_to_kept vs (values old) (valid + 1)) by (done || lia).
  - eexists. split; [done|]. unfold psc_wf. simpl. pose proof (zlen_nonneg vs).
    split_and!; try done; try lia. apply zlen_new. lia.
Qed.

Lemma insertValues_ok this i ins :
  psc_wf this -> 0 <= i <= zlen (values this) -> Forall is_uint32 ins ->
  zlen (values this) + zlen ins < 2 ^ 31 ->
  exists b this', insertValues this i ins = Ok (b, this') /\ psc_wf this' /\
    values this' = take (Z.to_nat i) (values this) ++ ins ++ drop (Z.to_nat i) (values this) /\
    (b = true <-> ins <> []).
Proof.
  intros Hwf Hi Hins Hlen. assert (Hwf' := Hwf). destruct Hwf' as (Hf & Hpf & Hpl & Hl & Hv1 & Hv2 & Hp).
  pose proof (zlen_nonneg ins).
  unfold insertValues. rewrite to_uint32_id by lia.
  destruct (Z.eqb_spec (zlen ins) 0) as [E|Hne].
  { destruct ins as [|x ins]; [|rewrite zlen_cons in E; pose proof (zlen_nonneg ins); lia].
    exists false, this. rewrite app_nil_l, take_drop. done. }
  pose proof (insert_copy i (values this) ins Hi Hf Hins) as E.
  destruct (ta_set _ (subarray _ _ _) 0) as [v1|]; [|done]. cbn [result_bind] in *.
  destruct (ta_set v1 _ _) as [v2|]; [|done]. cbn [result_bind] in *. rewrite E. cbn [result_bind].
  rewrite valid_min by lia.
  set (vs := take _ _ ++ _) in *.
  assert (Hvl : zlen vs = zlen (values this) + zlen ins).
  { unfold vs. rewrite !zlen_app, zlen_take, zlen_drop by lia. lia. }
  destruct (kept_prefix_wf this vs (Z.min (i - 1) (prefixSumValidIndex this))) as (p & Ep & Hwf');
    [done| |lia|lia|lia| |].
  - unfold vs. rewrite !Forall_app. split_and!; [by apply Forall_take|done|by apply Forall_drop].
  - unfold vs. rewrite take_app_le by (unfold zlen in *; rewrite length_take; lia).
    rewrite take_take. f_equal. lia.
  - rewrite Ep. cbn [result_bind]. eexists _, _. split; [done|]. split_and!; [done..|].
    split; [|done]. intros _ ->. done.
Qed.

Lemma removeValues_ok this i count :
  psc_wf this -> 0 <= i < 2 ^ 31 -> 0 <= count < 2 ^ 31 ->
  exists b this', removeValues this i count = Ok (b, this') /\ psc_wf this' /\
    values this' = take (Z.to_nat i) (values this) ++ drop (Z.to_nat (i + count)) (values this).
Proof.
  intros Hwf Hi Hc. assert (Hwf' := Hwf). destruct Hwf' as (Hf & Hpf & Hpl & Hl & Hv1 & Hv2 & Hp).
  unfold removeValues. rewrite !to_uint32_id by lia. pose proof (zlen_nonneg (values this)).
  destruct (Z.geb_spec i (zlen (values this))).
  { exists false, this. split_and!; try done.
    rewrite take_ge, drop_ge, app_nil_r by (unfold zlen in *; lia). done. }
  assert (Hmin : (if count >=? zlen (values this) - i then zlen (values this) - i else count) =
                 Z.min count (zlen (values this) - i)) by zbool.
  rewrite Hmin. clear Hmin. set (c := Z.min count (zlen (values this) - i)).
  assert (Hdrop : drop (Z.to_nat (i + count)) (values this) = drop (Z.to_nat (i + c)) (values this)).
  { destruct (Z.min_spec count (zlen (values this) - i)) as [[? E]|[? E]]; fold c in E; rewrite E;
      [done|]. rewrite !drop_ge; [done|unfold zlen in *; lia..]. }
  rewrite Hdrop.
  destruct (Z.eqb_spec c 0) as [E0|Hne].
  { exists false, this. split_and!; try done. by rewrite E0, Z.add_0_r, take_drop. }
  pose proof (remove_copy i c (values this) ltac:(lia) ltac:(lia) ltac:(lia) Hf) as E.
  destruct (ta_set _ (subarray _ _ _) 0) as [v1|]; [|done]. cbn [result_bind] in *.
  rewrite E. cbn [result_bind]. rewrite valid_min by lia.
  set (vs := take _ _ ++ _) in *.
  assert (Hvl : zlen vs = zlen (values this) - c).
  { unfold vs. rewrite !zlen_app, zlen_take, zlen_drop by lia. lia. }
  destruct (kept_prefix_wf this vs (Z.min (i - 1) (prefixSumValidIndex this))) as (p & Ep & Hwf');
    [done| |lia|lia|lia| |].
  - unfold vs. rewrite !Forall_app. split; [by apply Forall_take|by apply Forall_drop].
  - unfold vs. rewrite take_app_le by (unfold zlen in *; rewrite length_take; lia).
    rewrite take_take. f_equal. lia.
  - rewrite Ep. cbn [result_bind]. eexists _, _. split; [done|]. split; [exact Hwf'|done].
Qed.

Lemma to_uint32w_range x : is_uint32 (to_uint32w x).
Proof. unfold is_uint32, to_uint32w. apply Z.mod_pos_bound. lia. Qed.

Lemma zlen_ta_put l i v : zlen (ta_put l i v) = zlen l.
Proof. unfold ta_put, set_at, zlen. destruct (i <? 0); [done|]. by rewrite length_insert. Qed.

Lemma ta_put_uint32 l i v : Forall is_uint32 l -> Forall is_uint32 (ta_put l i v).
Proof.
  intros. unfold ta_put, set_at. destruct (i <? 0); [done|].
  apply Forall_insert; [done|apply to_uint32w_range].
Qed.

Lemma at_ta_put_eq l i v : 0 <= i < zlen l -> (ta_put l i v).[i] = Some (to_uint32w v).
Proof.
  unfold ta_put, set_at, at_, zlen. intros. destruct (Z.ltb_spec i 0); [lia|].
  apply list_lookup_insert_eq. lia.
Qed.

Lemma at_ta_put_ne l i j v : 0 <= i -> i <> j -> (ta_put l i v).[j] = l.[j].
Proof.
  unfold ta_put, set_at, at_. intros. destruct (Z.ltb_spec i 0); [done|].
  destruct (Z.ltb_spec j 0); [done|]. apply list_lookup_insert_ne. lia.
Qed.

Lemma setValue_ok this i v :
  psc_wf this -> 0 <= i < zlen (values this) -> 0 <= v < 2 ^ 31 ->
  psc_wf (setValue this i v).2 /\ values (setValue this i v).2 = <[Z.to_nat i := v]> (values this).
Proof.
  intros (Hf & Hpf & Hpl & Hl & Hv1 & Hv2 & Hp) Hi Hv. unfold setValue.
  rewrite !to_uint32_id by lia.
  destruct (at_in_range (values this) i Hi) as [x Hx]. rewrite Hx.
  assert (Hx' : values this !! Z.to_nat i = Some x).
  { unfold at_ in Hx. by destruct (Z.ltb_spec i 0); [lia|]. }
  destruct (Z.eqb_spec x v) as [->|Hne].
  { split; [by unfold psc_wf|]. simpl. by rewrite list_insert_id. }
  rewrite valid_min by lia. simpl. split.
  - unfold psc_wf. simpl. rewrite zlen_ta_put. split_and!; try done; try lia.
    + by apply ta_put_uint32.
    + intros j Hj. rewrite Hp by lia. do 2 f_equal. apply sum_to_take.
      unfold ta_put, set_at. destruct (Z.ltb_spec i 0); [lia|].
      rewrite take_insert_ge by lia. done.
  - unfold ta_put, set_at. destruct (Z.ltb_spec i 0); [lia|].
    by rewrite to_uint32w_id by (unfold is_uint32; lia).
Qed.

(** ** The sums *)

(** The sums up to [n - 1] are right. *)
Definition sums_valid (vs p : list Z) (n : Z) : Prop :=
  zlen p = zlen vs /\ Forall is_uint32 p /\
  forall i, 0 <= i < n -> p.[i] = Some (to_uint32w (sum_to vs (i + 1))).

Lemma extend_sum_valid vs p n :
  1 <= n < zlen vs -> sums_valid vs p n -> sums_valid vs (extend_sum vs p n) (n + 1).
Proof.
  intros Hn (Hl & Hu & Hp). unfold extend_sum. rewrite (Hp (n - 1)) by lia.
  destruct (at_in_range vs n ltac:(lia)) as [v Hv]. rewrite Hv. unfold sums_valid.
  rewrite zlen_ta_put. split_and!; [done|by apply ta_put_uint32|].
  intros i Hi. destruct (decide (i = n)) as [->|].
  - rewrite at_ta_put_eq by lia. f_equal. replace (n - 1 + 1) with n by lia.
    rewrite (sum_to_S vs n v Hv). unfold to_uint32w. by rewrite Zplus_mod_idemp_l.
  - rewrite at_ta_put_ne by lia. apply Hp. lia.
Qed.

Lemma extend_sums_valid vs p s (k : nat) :
  1 <= s -> s + Z.of_nat k <= zlen vs -> sums_valid vs p s ->
  sums_valid vs (fold_left (extend_sum vs) (zrange s (s + Z.of_nat k)) p) (s + Z.of_nat k).
Proof.
  intros Hs Hk Hp. induction k as [|k IH].
  - rewrite zrange_nil by lia. simpl. by rewrite Z.add_0_r.
  - rewrite zrange_snoc by lia. replace (s + Z.of_nat (S k) - 1) with (s + Z.of_nat k) by lia.
    rewrite fold_left_app. cbn [fold_left].
    replace (s + Z.of_nat (S k)) with (s + Z.of_nat k + 1) by lia.
    apply extend_sum_valid; [lia|]. apply IH. lia.
Qed.

Lemma getPrefixSum_ok this i :
  psc_wf this -> 0 <= i -> 0 < zlen (values this) ->
  let '(r, this') := getPrefixSum_ this i in
  r = Some (to_uint32w (sum_to (values this) (i + 1))) /\ psc_wf this' /\
  values this' = values this /\ Z.min i (zlen (values this) - 1) <= prefixSumValidIndex this'.
Proof.
  intros Hwf Hi Hlen. assert (Hwf' := Hwf). destruct Hwf' as (Hf & Hpf & Hpl & Hl & Hv1 & Hv2 & Hp).
  unfold getPrefixSum_.
  destruct (Z.leb_spec i (prefixSumValidIndex this)).
  { rewrite Hp by lia. split_and!; try done. lia. }
  set (vs := values this) in *. set (valid := prefixSumValidIndex this) in *.
  destruct (at_in_range vs 0 ltac:(lia)) as [v0 Hv0]. rewrite Hv0.
  assert (H0 : exists p0 s, (if valid + 1 =? 0 then (ta_put (prefixSum this) 0 v0, valid + 1 + 1)
      else (prefixSum this, valid + 1)) = (p0, s) /\
    (1 <= s /\ s <= zlen vs /\ valid + 1 <= s /\ (s = valid + 1 \/ s = 1)) /\ sums_valid vs p0 s).
  { unfold sums_valid. destruct (Z.eqb_spec (valid + 1) 0); do 2 eexists; (split; [done|]).
    - rewrite zlen_ta_put. split; [lia|]. split_and!; [done|by apply ta_put_uint32|].
      intros j Hj. replace j with 0 by lia. rewrite at_ta_put_eq by lia.
      by rewrite (sum_to_S vs 0 v0 Hv0), sum_to_0.
    - split; [lia|]. split_and!; [done|done|]. intros j Hj. apply Hp. lia. }
  destruct H0 as (p0 & s & -> & Hs & Hp0).
  assert (Hidx : (if i >=? zlen vs then zlen vs - 1 else i) = Z.min i (zlen vs - 1)) by zbool.
  rewrite Hidx. clear Hidx. set (e := Z.min i (zlen vs - 1)).
  assert (Hend : exists p1, fold_left (extend_sum vs) (zrange s (e + 1)) p0 = p1 /\
                            sums_valid vs p1 (e + 1)).
  { destruct (Z.lt_ge_cases (e + 1) s).
    - rewrite zrange_nil by lia. eexists. split; [done|]. destruct Hp0 as (? & ? & Hp0).
      split_and!; [done..|]. intros j Hj. apply Hp0. lia.
    - eexists. split; [done|].
      replace (e + 1) with (s + Z.of_nat (Z.to_nat (e + 1 - s))) by lia.
      apply extend_sums_valid; [lia|lia|done]. }
  destruct Hend as (p1 & -> & Hl1 & Hu1 & Hp1).
  replace (to_int32 (Z.max valid e)) with e by (rewrite to_int32_id; unfold is_int32; lia).
  split_and!; simpl; try done; try lia.
  - rewrite Hp1 by lia. f_equal. f_equal.
    destruct (Z.le_gt_cases i (zlen vs - 1)); [f_equal; lia|].
    rewrite !sum_to_all by lia. done.
  - unfold psc_wf. simpl. split_and!; try done; try lia. intros j Hj. apply Hp1. lia.
Qed.

(** [getPrefixSum], [getTotalSum] compute the sums of the specification modulo 2^32, on
    every branch, and keep the values and the invariant. *)
Theorem prefix_sums_correct this :
  psc_wf this -> 0 < zlen (values this) ->
  (forall i, i < 0 -> getPrefixSum this i = (Some 0, this)) /\
  (forall i, 0 <= i < 2 ^ 31 ->
     let '(r, this') := getPrefixSum this i in
     r = Some (sum_to (values this) (i + 1) mod 2 ^ 32) /\
     psc_wf this' /\ values this' = values this) /\
  (let '(r, this') := getTotalSum this in
   r = Some (zsum (values this) mod 2 ^ 32) /\ psc_wf this' /\ values this' = values this).
Proof.
  intros Hwf Hlen. split_and!.
  - intros i Hi. unfold getPrefixSum. zbool.
  - intros i Hi. unfold getPrefixSum. rewrite to_uint32_id by done.
    destruct (Z.ltb_spec i 0); [lia|].
    pose proof (getPrefixSum_ok this i Hwf ltac:(lia) Hlen) as Hg.
    destruct (getPrefixSum_ this i). naive_solver.
  - unfold getTotalSum. destruct (Z.eqb_spec (zlen (values this)) 0); [lia|].
    pose proof (getPrefixSum_ok this (zlen (values this) - 1) Hwf ltac:(lia) Hlen) as Hg.
    destruct (getPrefixSum_ _ _) as [r this'].
    rewrite (sum_to_all _ (zlen (values this) - 1 + 1)) in Hg by lia. naive_solver.
Qed.

Lemma example_psc_wf : psc_wf (new_PrefixSumComputer [4; 0; 5]).
Proof. apply new_psc_wf; [repeat constructor; lia|reflexivity]. Qed.

Lemma prefix_sums_correct_witness :
  (getPrefixSum (new_PrefixSumComputer [4; 0; 5]) 2).1 = Some 9 /\
  let '(r, this') := getTotalSum (new_PrefixSumComputer [4; 0; 5]) in
  r = Some (zsum [4; 0; 5] mod 2 ^ 32) /\ psc_wf this' /\ values this' = [4; 0; 5].
Proof.
  split; [reflexivity|].
  apply (proj2 (proj2 (prefix_sums_correct (new_PrefixSumComputer [4; 0; 5])
    example_psc_wf ltac:(reflexivity)))).
Defined.

(** Inserting, changing and removing values never throws inside the bounds, does
    to the values what its name says, and keeps the invariant of the cached sums. *)
Theorem psc_updates_correct this :
  psc_wf this ->
  (forall i ins, 0 <= i <= zlen (values this) -> Forall is_uint32 ins ->
     zlen (values this) + zlen ins < 2 ^ 31 ->
     exists b this', insertValues this i ins = Ok (b, this') /\ psc_wf this' /\
       values this' = take (Z.to_nat i) (values this) ++ ins ++ drop (Z.to_nat i) (values this)) /\
  (forall i v, 0 <= i < zlen (values this) -> 0 <= v < 2 ^ 31 ->
     psc_wf (setValue this i v).2 /\
     values (setValue this i v).2 = <[Z.to_nat i := v]> (values this)) /\
  (forall i count, 0 <= i < 2 ^ 31 -> 0 <= count < 2 ^ 31 ->
     exists b this', removeValues this i count = Ok (b, this') /\ psc_wf this' /\
       values this' = take (Z.to_nat i) (values this) ++ drop (Z.to_nat (i + count)) (values this)).
Proof.
  intros Hwf. split_and!.
  - intros i ins ???. destruct (insertValues_ok this i ins) as (b & t & ? & ? & ? & _); eauto.
  - intros. by apply setValue_ok.
  - intros. by apply removeValues_ok.
Qed.

Lemma psc_updates_correct_witness :
  exists b this', insertValues (new_PrefixSumComputer [4; 0; 5]) 1 [7; 8] = Ok (b, this') /\
    psc_wf this' /\ values this' = [4; 7; 8; 0; 5].
Proof.
  apply (proj1 (psc_updates_correct (new_PrefixSumComputer [4; 0; 5]) example_psc_wf) 1 [7; 8]);
    [split; [lia|vm_compute; discriminate]|repeat constructor; lia|reflexivity].
Defined.

(** [toUint32] is the identity below 2^31 and clamps negative numbers and numbers above
    2^32 - 1, but on the upper half of the 32-bit numbers its [v | 0] goes negative. *)
Theorem toUint32_behaviour v :
  (v < 0 -> toUint32 v = 0) /\
  (0 <= v < 2 ^ 31 -> toUint32 v = v) /\
  (2 ^ 31 <= v < 2 ^ 32 -> toUint32 v = v - 2 ^ 32 /\ toUint32 v < 0) /\
  (2 ^ 32 <= v -> toUint32 v = 2 ^ 32 - 1) /\
  0 <= toUint8 v <= 255 /\ (0 <= v <= 255 -> toUint8 v = v).
Proof.
  assert (H8 : 0 <= toUint8 v <= 255 /\ (0 <= v <= 255 -> toUint8 v = v)).
  { unfold toUint8. destruct (Z.ltb_spec v 0), (Z.gtb_spec v 255); try lia.
    rewrite to_int32_id by (unfold is_int32; lia). lia. }
  split; [|split; [|split; [|split; [|exact H8]]]].
  - unfold toUint32. zbool.
  - apply to_uint32_id.
  - intros Hv. unfold toUint32, to_int32. rewrite Z.mod_small by lia. zbool.
  - unfold toUint32. zbool.
Qed.

Lemma toUint32_behaviour_witness : toUint32 3000000000 = 3000000000 - 2 ^ 32 /\ toUint32 3000000000 < 0.
Proof. apply (proj1 (proj2 (proj2 (toUint32_behaviour 3000000000)))). lia. Defined.

(** ** The item under a sum *)

Lemma uint32_nonneg l : Forall is_uint32 l -> Forall (fun x => 0 <= x) l.
Proof. intros H. eapply Forall_impl; [exact H|]. unfold is_uint32. lia. Qed.

Section getIndexOf.
Context (this : PrefixSumComputer) (sum : Z).
Hypothesis Hwf : psc_wf this.
Hypothesis Hvalid : prefixSumValidIndex this = zlen (values this) - 1.
Hypothesis Htotal : zsum (values this) < 2 ^ 32.
Hypothesis Hsum : 0 <= sum < zsum (values this).

#[local] Abbreviation vs := (values this).
#[local] Abbreviation sum_at := (sum_to (values this)).

Definition search_inv (st : search_state) : Prop :=
  0 <= low st /\ high st < zlen vs /\ sum_at (low st) <= sum < sum_at (high st + 1) /\
  (found st = true -> is_index_of vs sum (mid st) /\ midStart st = sum_at (mid st)).

Lemma sum_at_lt_total k : 0 <= k -> 0 <= sum_at k <= zsum vs.
Proof.
  intros Hk. destruct Hwf as (Hf & _). apply uint32_nonneg in Hf.
  split; [by apply sum_to_nonneg|]. rewrite <- (sum_to_all vs (Z.max k (zlen vs))) by lia.
  apply sum_to_mono; [done|lia].
Qed.

Lemma search_nonempty st : search_inv st -> low st <= high st.
Proof.
  intros (Hl & Hh & Hs & _). destruct (Z.le_gt_cases (low st) (high st)) as [|Hgt]; [done|exfalso].
  destruct Hwf as (Hf & _). apply uint32_nonneg in Hf.
  destruct (Z.lt_ge_cases (high st + 1) 0).
  - unfold sum_to in Hs. replace (Z.to_nat (high st + 1)) with O in Hs by lia. simpl in Hs. lia.
  - pose proof (sum_to_mono vs (high st + 1) (low st) Hf ltac:(lia)). lia.
Qed.

Lemma search_step_inv st :
  search_inv st -> (low st <=? high st) && negb (found st) = true ->
  search_inv (search_step this sum st) /\
  (Z.to_nat (high (search_step this sum st) + 1 - low (search_step this sum st)) +
     (if found (search_step this sum st) then 0 else 1) <
   Z.to_nat (high st + 1 - low st) + (if found st then 0 else 1))%nat.
Proof.
  intros (Hl & Hh & Hs & Hfound) Hc. destruct Hwf as (Hf & Hpf & Hpl & Hlen & Hv1 & Hv2 & Hp).
  assert (Hlow : low st <= high st) by lia. assert (Hnf : found st = false).
  { destruct (found st); [|done]. rewrite andb_false_r in Hc. done. }
  set (m := low st + (high st - low st) / 2).
  assert (Hm : low st <= m <= high st) by (unfold m; Z.div_mod_to_equations; lia).
  destruct (at_in_range vs m ltac:(lia)) as [v Hv].
  pose proof (sum_at_lt_total (m + 1) ltac:(lia)). pose proof (sum_to_S vs m v Hv) as HS.
  assert (Hstop : default 0 ((prefixSum this).[m]) = sum_at (m + 1)).
  { rewrite Hp by lia. simpl. apply to_uint32w_id. unfold is_uint32. lia. }
  unfold search_step. rewrite to_int32_id by (unfold is_int32; lia). fold m.
  rewrite Hstop, Hv. cbn [from_option]. change (id v) with v.
  assert (Hstart : sum_at (m + 1) - v = sum_at m) by lia.
  rewrite Hstart, Hnf.
  destruct (Z.ltb_spec sum (sum_at m)); [|destruct (Z.geb_spec sum (sum_at (m + 1)))];
    unfold search_inv; simpl; (split; [|lia]); split_and!; try lia; try done.
  - replace (m - 1 + 1) with m by lia. lia.
  - intros _. unfold is_index_of. split; [lia|done].
Qed.
End getIndexOf.

Lemma getIndexOf_ok this sum :
  psc_wf this -> zsum (values this) < 2 ^ 32 -> 0 <= sum < zsum (values this) ->
  let '(r, this') := getIndexOf this sum in
  is_index_of (values this) sum (index r) /\
  sum_to (values this) (index r) + remainder r = sum /\
  psc_wf this' /\ values this' = values this.
Proof.
  intros Hwf Ht Hs. unfold getIndexOf.
  assert (Hlen : 0 < zlen (values this)).
  { destruct (values this); [simpl in Hs; lia|]. rewrite zlen_cons. pose proof (zlen_nonneg l). lia. }
  assert (Hget : exists r this', getTotalSum this = (r, this') /\ psc_wf this' /\
    values this' = values this /\ prefixSumValidIndex this' = zlen (values this') - 1).
  { unfold getTotalSum. destruct (Z.eqb_spec (zlen (values this)) 0); [lia|].
    pose proof (getPrefixSum_ok this (zlen (values this) - 1) Hwf ltac:(lia) Hlen) as Hg.
    destruct (getPrefixSum_ _ _) as [r this']. destruct Hg as (_ & Hw & Hv & Hval).
    exists r, this'. split_and!; [done..|]. assert (Hw' := Hw).
    destruct Hw' as (_ & _ & _ & _ & _ & ? & _). rewrite Hv in *. lia. }
  destruct Hget as (r & this' & -> & Hw & Hv & Hval). rewrite <- Hv in Ht, Hs, Hlen |- *.
  cbn [fst snd]. clear Hv Hwf this r.
  while_inv (search_inv this' sum) (fun st => (Z.to_nat (high st + 1 - low st) +
    (if found st then 0 else 1))%nat) as [HI Hc].
  - by apply search_step_inv.
  - unfold search_inv. simpl. rewrite sum_to_0. split_and!; try lia.
    replace (zlen (values this') - 1 + 1) with (zlen (values this')) by lia.
    rewrite sum_to_all by lia. lia.
  - simpl. unfold zlen in *. lia.
  - pose proof (search_nonempty this' sum Hw ltac:(lia) _ HI) as Hle.
    set (st := while _ _ _ _) in *. destruct HI as (_ & _ & _ & Hfound).
    destruct (found st); [|simpl in Hc; lia]. destruct (Hfound eq_refl) as [Hi ->].
    simpl. split_and!; [done|lia|done|done].
Qed.

(** When the total fits 32 bits, the binary search of [getIndexOf] ends and finds the
    item whose sums enclose [sum], and the remainder counts from its start. *)
Theorem getIndexOf_correct this sum :
  psc_wf this -> zsum (values this) < 2 ^ 32 -> 0 <= sum < zsum (values this) ->
  let '(r, this') := getIndexOf this sum in
  is_index_of (values this) sum (index r) /\
  sum_to (values this) (index r) + remainder r = sum /\
  (forall i, is_index_of (values this) sum i -> i = index r) /\
  psc_wf this' /\ values this' = values this.
Proof.
  intros Hwf Ht Hs. pose proof (getIndexOf_ok this sum Hwf Ht Hs) as H.
  destruct (getIndexOf this sum) as [r this']. destruct H as (Hi & Hr & Hw & Hv).
  split_and!; [done..| |done|done]. intros i Hi'.
  destruct Hwf as (Hf & _). apply uint32_nonneg in Hf. by eapply is_index_of_unique.
Qed.

Lemma getIndexOf_correct_witness :
  (getIndexOf (new_PrefixSumComputer [4; 0; 5]) 6).1 = mkIndexOf 2 2 /\
  let '(r, this') := getIndexOf (new_PrefixSumComputer [4; 0; 5]) 6 in
  is_index_of [4; 0; 5] 6 (index r).
Proof.
  split; [reflexivity|].
  pose proof (getIndexOf_correct (new_PrefixSumComputer [4; 0; 5]) 6 example_psc_wf
    ltac:(reflexivity) ltac:(simpl; lia)) as H.
  destruct (getIndexOf _ _) as [r this']. exact (proj1 H).
Defined.

(** ** The constant-time computer *)

Definition nonneg (l : list Z) : Prop := Forall (fun x => 0 <= x) l.

(** The two tables are right for the first [n] values. *)
Definition tables_valid (vs ps ibs : list Z) (n : Z) : Prop :=
  n <= zlen ps /\ sum_to vs n <= zlen ibs /\
  (forall i, 0 <= i < n -> ps.[i] = Some (sum_to vs (i + 1))) /\
  (forall s, 0 <= s < sum_to vs n -> exists i, ibs.[s] = Some i /\ is_index_of vs s i).

Definition ct_wf (this : CT.ConstantTimePrefixSumComputer) : Prop :=
  nonneg (CT.values_ this) /\ zlen (CT.values_ this) < 2 ^ 32 /\ zsum (CT.values_ this) < 2 ^ 32 /\
  -1 <= CT.validEndIndex this <= zlen (CT.values_ this) - 1 /\
  tables_valid (CT.values_ this) (CT.prefixSum_ this) (CT.indexBySum this)
    (CT.validEndIndex this + 1) /\
  (CT.isValid this = true ->
   CT.validEndIndex this = zlen (CT.values_ this) - 1 /\
   zlen (CT.prefixSum_ this) = zlen (CT.values_ this) /\
   zlen (CT.indexBySum this) = zsum (CT.values_ this)).

Lemma zlen_set_at {A} (l : list A) i x : zlen (set_at l i x) = zlen l.
Proof. unfold set_at, zlen. destruct (i <? 0); [done|]. by rewrite length_insert. Qed.

Lemma at_set_at {A} (l : list A) i j x :
  0 <= i < zlen l -> (set_at l i x).[j] = if j =? i then Some x else l.[j].
Proof.
  unfold set_at, at_, zlen. intros. destruct (Z.ltb_spec i 0); [lia|].
  destruct (Z.eqb_spec j i) as [->|].
  - destruct (Z.ltb_spec i 0); [lia|]. apply list_lookup_insert_eq. lia.
  - destruct (Z.ltb_spec j 0); [done|]. apply list_lookup_insert_ne. lia.
Qed.

Lemma zlen_arr_put l i v : 0 <= i <= zlen l -> zlen (arr_put l i v) = Z.max (zlen l) (i + 1).
Proof.
  intros. unfold arr_put. destruct (Z.ltb_spec i 0); [lia|]. destruct (Z.ltb_spec i (zlen l)).
  - rewrite zlen_set_at. lia.
  - rewrite !zlen_app. unfold zlen at 2. rewrite length_replicate. rewrite zlen_cons, zlen_nil. lia.
Qed.

Lemma at_arr_put l i j v :
  0 <= i <= zlen l -> (arr_put l i v).[j] = if j =? i then Some v else l.[j].
Proof.
  intros. unfold arr_put. destruct (Z.ltb_spec i 0); [lia|]. destruct (Z.ltb_spec i (zlen l)).
  - by apply at_set_at.
  - assert (i = zlen l) as -> by lia. rewrite Z.sub_diag. simpl.
    destruct (Z.eqb_spec j (zlen l)) as [->|Hne].
    + apply at_app_last. by right.
    + destruct (decide (j < zlen l)); [by apply at_app_l|].
      unfold at_, zlen in *. destruct (Z.ltb_spec j 0); [done|].
      rewrite !lookup_ge_None_2; [done|lia|rewrite length_app; simpl; lia].
Qed.

(** The inner loop: [indexBySum] gets [i] on [above, above + n). *)
Lemma fill_spec i above (n : nat) ibs :
  0 <= above <= zlen ibs ->
  let r := fold_left (fun ibs j => arr_put ibs (above + j) i) (zrange 0 (Z.of_nat n)) ibs in
  zlen r = Z.max (zlen ibs) (above + Z.of_nat n) /\
  forall s, r.[s] = if (above <=? s) && (s <? above + Z.of_nat n) then Some i else ibs.[s].
Proof.
  intros Ha. cbv zeta. induction n as [|n [IHl IH]].
  - change (Z.of_nat 0) with 0. rewrite zrange_nil by lia. cbn [fold_left].
    split; [lia|]. intros s. by replace ((above <=? s) && (s <? above + 0)) with false by lia.
  - rewrite zrange_snoc by lia. replace (Z.of_nat (S n) - 1) with (Z.of_nat n) by lia.
    rewrite fold_left_app. cbn [fold_left]. rewrite zlen_arr_put by lia. split; [lia|].
    intros s. rewrite at_arr_put, IH by lia.
    destruct (Z.eqb_spec s (above + Z.of_nat n)) as [->|].
    + destruct (Z.leb_spec above (above + Z.of_nat n)); [|exfalso; lia].
      destruct (Z.ltb_spec (above + Z.of_nat n) (above + Z.of_nat (S n))); [done|exfalso; lia].
    + replace (s <? above + Z.of_nat (S n)) with (s <? above + Z.of_nat n); [done|].
      destruct (Z.ltb_spec s (above + Z.of_nat n)), (Z.ltb_spec s (above + Z.of_nat (S n)));
        try done; exfalso; lia.
Qed.

Lemma ensure_step_valid vs ps ibs n :
  nonneg vs -> 0 <= n < zlen vs -> tables_valid vs ps ibs n ->
  let '(ps', ibs') := CT.ensure_step vs (ps, ibs) n in tables_valid vs ps' ibs' (n + 1).
Proof.
  intros Hf Hn (Hpl & Hil & Hp & Hi). unfold CT.ensure_step.
  destruct (at_in_range vs n Hn) as [v Hv]. rewrite Hv. cbn [from_option]. change (id v) with v.
  assert (Hv0 : 0 <= v) by (unfold nonneg in Hf; rewrite Forall_forall in Hf;
                            apply Hf; by eapply at_elem_of).
  pose proof (sum_to_nonneg vs n Hf) as Hs0. pose proof (sum_to_S vs n v Hv) as HS.
  assert (Habove : (if n >? 0 then default 0 (ps.[n - 1]) else 0) = sum_to vs n).
  { destruct (Z.gtb_spec n 0).
    - rewrite Hp by lia. simpl. unfold id. f_equal. lia.
    - replace n with 0 by lia. by rewrite sum_to_0. }
  rewrite Habove.
  destruct (fill_spec n (sum_to vs n) (Z.to_nat v) ibs ltac:(lia)) as [Hl Hr].
  rewrite Z2Nat.id in Hl, Hr by done. cbv zeta in Hl, Hr.
  unfold tables_valid. split_and!.
  - rewrite zlen_arr_put by lia. lia.
  - rewrite Hl. lia.
  - intros i ?. rewrite at_arr_put by lia. destruct (Z.eqb_spec i n) as [->|].
    + f_equal. lia.
    + apply Hp. lia.
  - intros s Hs. rewrite Hr. destruct (_ && _) eqn:E.
    + exists n. split; [done|]. split; [lia|]. lia.
    + apply Hi. lia.
Qed.

Lemma ensure_steps_valid vs ps ibs n (k : nat) :
  nonneg vs -> 0 <= n -> n + Z.of_nat k <= zlen vs -> tables_valid vs ps ibs n ->
  let '(ps', ibs') := fold_left (CT.ensure_step vs) (zrange n (n + Z.of_nat k)) (ps, ibs) in
  tables_valid vs ps' ibs' (n + Z.of_nat k).
Proof.
  intros Hf Hn Hk Ht. induction k as [|k IH].
  - rewrite zrange_nil by lia. simpl. by rewrite Z.add_0_r.
  - specialize (IH ltac:(lia)). rewrite zrange_snoc by lia.
    replace (n + Z.of_nat (S k) - 1) with (n + Z.of_nat k) by lia. rewrite fold_left_app.
    destruct (fold_left _ _ (ps, ibs)) as [ps' ibs']. cbn [fold_left].
    replace (n + Z.of_nat (S k)) with (n + Z.of_nat k + 1) by lia.
    apply ensure_step_valid; [done|lia|done].
Qed.

Lemma set_length_ok l n :
  0 <= n <= zlen l -> n < 2 ^ 32 -> set_length l (Some n) = Ok (take (Z.to_nat n) l).
Proof.
  intros. unfold set_length. destruct (_ || _) eqn:E; [lia|].
  replace (Z.to_nat (n - zlen l)) with O by lia. by rewrite app_nil_r.
Qed.

Lemma ensureValid_ok this :
  ct_wf this -> 0 < zlen (CT.values_ this) ->
  exists this', CT.ensureValid this = Ok this' /\ ct_wf this' /\
    CT.isValid this' = true /\ CT.values_ this' = CT.values_ this.
Proof.
  intros Hwf Hlen. unfold CT.ensureValid. destruct (CT.isValid this) eqn:Ev; [by eauto|].
  destruct Hwf as (Hf & Hl32 & Hs32 & Hve & Ht & _).
  set (vs := CT.values_ this) in *. set (ve := CT.validEndIndex this) in *.
  pose proof (ensure_steps_valid vs _ _ (ve + 1) (Z.to_nat (zlen vs - (ve + 1)))
    Hf ltac:(lia) ltac:(lia) Ht) as Ht'.
  replace (ve + 1 + Z.of_nat (Z.to_nat (zlen vs - (ve + 1)))) with (zlen vs) in Ht' by lia.
  destruct (fold_left _ _ _) as [ps ibs]. destruct Ht' as (Hpl & Hil & Hp & Hi).
  rewrite sum_to_all in Hil, Hi by lia.
  rewrite set_length_ok by lia. cbn [result_bind]. rewrite zlen_take by lia.
  rewrite at_take by lia. rewrite Hp by lia.
  rewrite (sum_to_all vs (zlen vs - 1 + 1)) by lia.
  pose proof (zsum_nonneg vs Hf). rewrite set_length_ok by lia. cbn [result_bind].
  eexists. split; [done|]. split_and!; try done. unfold ct_wf. simpl.
  split_and!; try done; try lia.
  - unfold tables_valid. replace (zlen vs - 1 + 1) with (zlen vs) by lia.
    rewrite !zlen_take, sum_to_all by lia. split_and!; try lia.
    + intros i ?. rewrite at_take by lia. by apply Hp.
    + intros s ?. rewrite at_take by lia. by apply Hi.
  - intros _. rewrite !zlen_take by lia. lia.
Qed.

Lemma tables_valid_kept vs vs' ps ibs n n' :
  nonneg vs -> tables_valid vs ps ibs n -> 0 <= n' <= n -> n' <= zlen vs' ->
  take (Z.to_nat n') vs' = take (Z.to_nat n') vs ->
  tables_valid vs' ps ibs n'.
Proof.
  intros Hf (Hpl & Hil & Hp & Hi) Hn Hl Ht.
  pose proof (sum_to_mono vs n' n Hf ltac:(lia)) as Hmono.
  assert (E : forall i, 0 <= i <= n' -> sum_to vs' i = sum_to vs i)
    by (intros; by apply (sum_to_kept vs' vs n')).
  unfold tables_valid. rewrite E by lia. split_and!; try lia.
  - intros i ?. rewrite E by lia. apply Hp. lia.
  - intros s Hs. destruct (Hi s ltac:(lia)) as (i & Hib & [Hir His]). exists i. split; [done|].
    assert (i < n').
    { destruct (Z.lt_ge_cases i n') as [|Hge]; [done|].
      pose proof (sum_to_mono vs n' i Hf ltac:(lia)). lia. }
    split; [lia|]. rewrite !E by lia. done.
Qed.

(** Every update changes the values from some index on and invalidates from there. *)
Lemma update_wf this vs i :
  ct_wf this -> nonneg vs -> zlen vs < 2 ^ 32 -> zsum vs < 2 ^ 32 -> 0 <= i <= zlen vs ->
  take (Z.to_nat i) vs = take (Z.to_nat i) (CT.values_ this) ->
  ct_wf (CT.invalidate (CT.with_values this vs) i).
Proof.
  intros (Hf & _ & _ & Hve & Ht & _) Hvs Hl Hs Hi Htake. unfold ct_wf. simpl.
  split_and!; try done; try lia.
  eapply tables_valid_kept; [exact Hf|exact Ht|lia|lia|].
  set (m := Z.to_nat (Z.min (CT.validEndIndex this) (i - 1) + 1)).
  rewrite <- (Nat.min_l m (Z.to_nat i)) by lia. rewrite <- !take_take. by f_equal.
Qed.

(** On a non-empty array of non-negative values whose sum fits 32 bits, no query
    throws, and each returns what the specification says. *)
Theorem constant_time_queries this :
  ct_wf this -> 0 < zlen (CT.values_ this) ->
  (exists t, CT.getTotalSum this = Ok (zsum (CT.values_ this), t) /\ ct_wf t /\
     CT.values_ t = CT.values_ this) /\
  (forall count, 0 <= count <= zlen (CT.values_ this) ->
     exists t, CT.getPrefixSum this count = Ok (Some (sum_to (CT.values_ this) count), t) /\
       ct_wf t /\ CT.values_ t = CT.values_ this) /\
  (forall sum, 0 <= sum < zsum (CT.values_ this) ->
     exists i t, CT.getIndexOf this sum = Ok (Some i, sum - sum_to (CT.values_ this) i, t) /\
       is_index_of (CT.values_ this) sum i /\ ct_wf t /\ CT.values_ t = CT.values_ this).
Proof.
  intros Hwf Hlen. destruct (ensureValid_ok this Hwf Hlen) as (t & E & Hw & Hv & Ev).
  assert (Hw' := Hw). destruct Hw' as (Hf & _ & _ & Hve & (Hpl & Hil & Hp & Hi) & Hval).
  destruct (Hval Hv) as (Hve' & Hpl' & Hil'). rewrite <- Ev in *. rewrite Hve' in *.
  replace (zlen (CT.values_ t) - 1 + 1) with (zlen (CT.values_ t)) in * by lia.
  rewrite sum_to_all in Hi by lia. split_and!.
  - exists t. unfold CT.getTotalSum. rewrite E. simpl. by rewrite Hil'.
  - intros count Hc. exists t. unfold CT.getPrefixSum. rewrite E. cbn [result_bind].
    split_and!; [|done..]. destruct (Z.eqb_spec count 0) as [->|]; [done|].
    rewrite Hp by lia. by replace (count - 1 + 1) with count by lia.
  - intros sum Hs. destruct (Hi sum Hs) as (i & Hib & His). exists i, t.
    unfold CT.getIndexOf. rewrite E. cbn [result_bind]. rewrite Hib. split_and!; [|done..].
    destruct His as [Hir _]. do 2 f_equal. f_equal. f_equal.
    destruct (Z.gtb_spec i 0); [|by replace i with 0 by lia].
    rewrite Hp by lia. simpl. unfold id. by replace (i - 1 + 1) with i by lia.
Qed.

Lemma new_ct_wf vs :
  nonneg vs -> zlen vs < 2 ^ 32 -> zsum vs < 2 ^ 32 -> ct_wf (CT.new_ConstantTime vs).
Proof.
  intros. unfold ct_wf. simpl. pose proof (zlen_nonneg vs). split_and!; try done; try lia.
  unfold tables_valid. simpl. rewrite sum_to_0. split_and!; try done; intros; lia.
Qed.

Lemma example_ct_wf : ct_wf (CT.new_ConstantTime [4; 0; 5]).
Proof. apply new_ct_wf; [repeat constructor; lia|reflexivity|reflexivity]. Qed.

Lemma constant_time_queries_witness :
  exists i t, CT.getIndexOf (CT.new_ConstantTime [4; 0; 5]) 6 =
    Ok (Some i, 6 - sum_to [4; 0; 5] i, t) /\ is_index_of [4; 0; 5] 6 i.
Proof.
  destruct (constant_time_queries (CT.new_ConstantTime [4; 0; 5]) example_ct_wf
    ltac:(reflexivity)) as (_ & _ & H).
  destruct (H 6 ltac:(simpl; lia)) as (i & t & ? & ? & _). by exists i, t.
Defined.

Lemma arrayInsert_eq {T} (l ins : list T) i :
  0 <= i <= zlen l -> arrayInsert l i ins = take (Z.to_nat i) l ++ ins ++ drop (Z.to_nat i) l.
Proof.
  intros. unfold arrayInsert. fold (subarray l 0 i) (subarray_from l i).
  by rewrite subarray_take, subarray_from_drop.
Qed.

Lemma splice_remove {A} (l : list A) i del :
  0 <= i <= zlen l -> 0 <= del ->
  splice l i del [] = take (Z.to_nat i) l ++ drop (Z.to_nat (i + Z.min del (zlen l - i))) l.
Proof.
  intros. unfold splice, rel_index. destruct (Z.ltb_spec i 0); [lia|]. simpl.
  rewrite Z.min_l by lia. do 3 f_equal. lia.
Qed.

Lemma arr_put_inside l i v : 0 <= i < zlen l -> arr_put l i v = <[Z.to_nat i := v]> l.
Proof.
  intros. unfold arr_put, set_at. destruct (Z.ltb_spec i 0); [lia|].
  by destruct (Z.ltb_spec i (zlen l)); [|lia].
Qed.

Lemma take_app_prefix {A} (l k : list A) i :
  0 <= i <= zlen l -> take (Z.to_nat i) (take (Z.to_nat i) l ++ k) = take (Z.to_nat i) l.
Proof.
  intros. rewrite take_app_le by (rewrite length_take; unfold zlen in *; lia).
  rewrite take_take. f_equal. lia.
Qed.

(** The three updates of the constant-time computer do to the values what their names
    say and keep the invariant of its two lazily filled tables, so that queries and
    updates may be interleaved. *)
Theorem constant_time_updates this :
  ct_wf this ->
  (forall i ins, 0 <= i <= zlen (CT.values_ this) ->
     let vs := take (Z.to_nat i) (CT.values_ this) ++ ins ++ drop (Z.to_nat i) (CT.values_ this) in
     nonneg vs -> zlen vs < 2 ^ 32 -> zsum vs < 2 ^ 32 ->
     CT.values_ (CT.insertValues this i ins) = vs /\ ct_wf (CT.insertValues this i ins)) /\
  (forall i del, 0 <= i <= zlen (CT.values_ this) -> 0 <= del ->
     CT.values_ (CT.removeValues this i del) = take (Z.to_nat i) (CT.values_ this) ++
       drop (Z.to_nat (i + Z.min del (zlen (CT.values_ this) - i))) (CT.values_ this) /\
     ct_wf (CT.removeValues this i del)) /\
  (forall i v, 0 <= i < zlen (CT.values_ this) ->
     let vs := <[Z.to_nat i := v]> (CT.values_ this) in
     nonneg vs -> zsum vs < 2 ^ 32 ->
     CT.values_ (CT.setValue this i v) = vs /\ ct_wf (CT.setValue this i v)).
Proof.
  intros Hwf. assert (Hwf' := Hwf). destruct Hwf' as (Hf & Hl & Hs & _). split_and!.
  - intros i ins Hi vs Hn Hvl Hvs. unfold CT.insertValues. rewrite arrayInsert_eq by done.
    split; [done|]. apply update_wf; try done.
    + unfold vs. rewrite zlen_app, zlen_take by lia. pose proof (zlen_nonneg (ins ++ drop (Z.to_nat i) (CT.values_ this))). lia.
    + by apply take_app_prefix.
  - intros i del Hi Hd. unfold CT.removeValues. rewrite splice_remove by done.
    split; [done|]. set (j := i + _).
    assert (Hj : i <= j <= zlen (CT.values_ this)) by lia.
    assert (Hsum := zsum_app (take (Z.to_nat i) (CT.values_ this))
      (drop (Z.to_nat j) (CT.values_ this))).
    assert (zsum (take (Z.to_nat j) (CT.values_ this)) +
      zsum (drop (Z.to_nat j) (CT.values_ this)) = zsum (CT.values_ this)).
    { rewrite <- zsum_app. by rewrite take_drop. }
    pose proof (sum_to_mono (CT.values_ this) i j Hf ltac:(lia)). unfold sum_to in *.
    apply update_wf; try done.
    + apply Forall_app. split; [by apply Forall_take|by apply Forall_drop].
    + rewrite zlen_app, zlen_take, zlen_drop by lia. lia.
    + lia.
    + rewrite zlen_app, zlen_take, zlen_drop by lia. lia.
    + by apply take_app_prefix.
  - intros i v Hi vs Hn Hvs. unfold CT.setValue.
    destruct (at_in_range (CT.values_ this) i Hi) as [x Hx]. rewrite Hx.
    assert (Hx' : CT.values_ this !! Z.to_nat i = Some x).
    { unfold at_ in Hx. by destruct (Z.ltb_spec i 0); [lia|]. }
    destruct (Z.eqb_spec x v) as [->|].
    { split; [|done]. unfold vs. by rewrite list_insert_id. }
    rewrite arr_put_inside by done. split; [done|].
    assert (Hvl : zlen vs = zlen (CT.values_ this)) by (unfold vs, zlen; by rewrite length_insert).
    fold vs. apply update_wf; try done; try lia. unfold vs. by rewrite take_insert_ge by lia.
Qed.

Lemma constant_time_updates_witness :
  CT.values_ (CT.removeValues (CT.new_ConstantTime [4; 0; 5]) 1 1) = [4; 5] /\
  ct_wf (CT.removeValues (CT.new_ConstantTime [4; 0; 5]) 1 1).
Proof.
  destruct (constant_time_updates (CT.new_ConstantTime [4; 0; 5]) example_ct_wf) as (_ & H & _).
  apply (H 1 1); [simpl; unfold zlen; simpl; lia|lia].
Defined.

(** ** Both computers answer alike *)

(** What a client relies on: a state that stands for a sequence of sizes, and a query that
    finds the item under a sum and the rest, keeping the sequence. *)
Class IndexOfService (S : Type) := {
  service_wf : S -> Prop;
  service_values : S -> list Z;
  service_find : S -> Z -> result (Z * Z * S);
  service_find_ok : forall s sum, service_wf s -> 0 <= sum < zsum (service_values s) ->
    exists i s', service_find s sum = Ok (i, sum - sum_to (service_values s) i, s') /\
      is_index_of (service_values s) sum i /\ nonneg (service_values s) /\
      service_wf s' /\ service_values s' = service_values s }.

#[export] Program Instance psc_service : IndexOfService PSC.PrefixSumComputer := {
  service_wf s := psc_wf s /\ zsum (values s) < 2 ^ 32;
  service_values := PSC.values;
  service_find s sum := let '(r, s') := PSC.getIndexOf s sum in Ok (index r, remainder r, s') }.
Next Obligation.
  simpl. intros s sum [Hw Ht] Hs. pose proof (getIndexOf_ok s sum Hw Ht Hs) as H.
  destruct (PSC.getIndexOf s sum) as [r s']. destruct H as (Hi & Hr & Hw' & Hv).
  exists (index r), s'. rewrite Hv. split_and!; try done.
  - do 3 f_equal. lia.
  - destruct Hw as (Hf & _). by apply uint32_nonneg.
Qed.

Lemma ct_find_ok this sum :
  ct_wf this -> 0 <= sum < zsum (CT.values_ this) ->
  exists i t, CT.getIndexOf this sum = Ok (Some i, sum - sum_to (CT.values_ this) i, t) /\
    is_index_of (CT.values_ this) sum i /\ ct_wf t /\ CT.values_ t = CT.values_ this.
Proof.
  intros Hwf Hs. assert (Hlen : 0 < zlen (CT.values_ this)).
  { destruct (CT.values_ this); [simpl in Hs; lia|]. rewrite zlen_cons. pose proof (zlen_nonneg l). lia. }
  destruct (ensureValid_ok this Hwf Hlen) as (t & E & Hw & Hv & Ev).
  assert (Hw' := Hw). destruct Hw' as (Hf & _ & _ & Hve & (Hpl & Hil & Hp & Hi) & Hval).
  destruct (Hval Hv) as (Hve' & Hpl' & Hil'). rewrite <- Ev in *. rewrite Hve' in *.
  replace (zlen (CT.values_ t) - 1 + 1) with (zlen (CT.values_ t)) in * by lia.
  rewrite sum_to_all in Hi by lia. destruct (Hi sum Hs) as (i & Hib & His). exists i, t.
  unfold CT.getIndexOf. rewrite E. cbn [result_bind]. rewrite Hib. split_and!; [|done..].
  destruct His as [Hir _]. do 2 f_equal. f_equal. f_equal.
  destruct (Z.gtb_spec i 0); [|by replace i with 0 by lia].
  rewrite Hp by lia. simpl. unfold id. by replace (i - 1 + 1) with i by lia.
Qed.

#[export] Program Instance ct_service : IndexOfService CT.ConstantTimePrefixSumComputer := {
  service_wf := ct_wf;
  service_values := CT.values_;
  service_find s sum :=
    match CT.getIndexOf s sum with
    | Ok (Some i, r, s') => Ok (i, r, s')
    | Ok (None, _, _) => Throw OtherError
    | Throw e => Throw e
    end }.
Next Obligation.
  simpl. intros s sum Hw Hs. destruct (ct_find_ok s sum Hw Hs) as (i & t & E & Hi & Hw' & Hv).
  exists i, t. rewrite E. simpl. split_and!; try done. by destruct Hw as (Hf & _).
Qed.

(** Any two services that stand for the same sequence give the same answer. *)
Lemma services_agree {A B} `{IndexOfService A, IndexOfService B} (a : A) (b : B) sum :
  service_wf a -> service_wf b -> service_values a = service_values b ->
  0 <= sum < zsum (service_values a) ->
  exists i r a' b', service_find a sum = Ok (i, r, a') /\ service_find b sum = Ok (i, r, b').
Proof.
  intros Ha Hb E Hs. destruct (service_find_ok a sum Ha Hs) as (i & a' & -> & Hi & Hn & _).
  rewrite E in Hs, Hi, Hn |- *. destruct (service_find_ok b sum Hb Hs) as (j & b' & -> & Hj & _).
  assert (i = j) as -> by (by eapply is_index_of_unique). eauto 10.
Qed.

(** C40: the binary search over lazily extended 32-bit sums and the lookup in the table
    filled per unit answer every query in range alike. *)
Theorem computers_agree p c sum :
  psc_wf p -> ct_wf c -> values p = CT.values_ c -> 0 <= sum < zsum (CT.values_ c) ->
  exists c', CT.getIndexOf c sum = Ok (Some (index (getIndexOf p sum).1),
                                        remainder (getIndexOf p sum).1, c').
Proof.
  intros Hp Hc E Hs.
  destruct (services_agree p c sum) as (i & r & a' & b' & Ep & Ec); simpl; try done.
  { split; [done|]. rewrite E. by destruct Hc as (_ & _ & ? & _). }
  { by rewrite E. }
  simpl in Ep, Ec. destruct (getIndexOf p sum) as [x s']. injection Ep as <- <- <-.
  destruct (CT.getIndexOf c sum) as [[[[j|] ?] ?]|]; simpl in Ec; try done.
  injection Ec as -> -> ->. eauto.
Qed.

Lemma computers_agree_witness :
  exists c', CT.getIndexOf (CT.new_ConstantTime [4; 0; 5]) 6 = Ok (Some 2, 2, c').
Proof.
  apply (computers_agree (new_PrefixSumComputer [4; 0; 5]) (CT.new_ConstantTime [4; 0; 5]) 6
    example_psc_wf example_ct_wf eq_refl). simpl. lia.
Defined.

(** An empty constant-time computer cannot be queried at all: the last sum, [undefined], is
    assigned to the length of the table. *)
Lemma empty_constant_time_throws sum :
  CT.getTotalSum (CT.new_ConstantTime []) = Throw RangeError /\
  CT.getIndexOf (CT.new_ConstantTime []) sum = Throw RangeError.
Proof. done. Qed.
