(* ===== verification/TextChange.v ===== *)
(** * Text changes: their bytes and their composition

    [src/src/vs/editor/common/core/textChange.ts], with the byte accessors it uses from
    [src/src/vs/base/common/buffer.ts] and [decodeUTF16LE] of
    [src/src/vs/editor/common/core/stringBuilder.ts].  A string is the list of its UTF-16
    code units, a [Uint8Array] the list of its bytes; the platform is little-endian.

    [rewrites es o n d d'] says what an edit list means: at offsets [o] and [n] it turns
    the text [d] into [d'].  [compress] is proved to compose two edit lists. *)

From S2P Require Import Prelude.

#[local] Open Scope js_scope.

Definition jsstr : Type := list Z.

Record TextChange : Type := mkTextChange {
  oldPosition : Z; oldText : jsstr; newPosition : Z; newText : jsstr }.

#[export] Instance TextChange_eq_dec : EqDecision TextChange.
Proof. solve_decision. Defined.

Definition oldLength (this : TextChange) : Z := zlen (oldText this).
Definition oldEnd (this : TextChange) : Z := oldPosition this + zlen (oldText this).
Definition newLength (this : TextChange) : Z := zlen (newText this).
Definition newEnd (this : TextChange) : Z := newPosition this + zlen (newText this).

(** ** Bytes *)

Module Buf.

(** A write to a [Uint8Array] keeps the low byte; outside the array it does nothing. *)
Definition put8 (b : list Z) (i v : Z) : list Z := set_at b i (v mod 256).

Definition writeUInt16LE (destination : list Z) (value offset : Z) : list Z :=
  let d := put8 destination offset (Z.land value 255) in
  put8 d (offset + 1) (Z.land (Z.shiftr (to_uint32w value) 8) 255).

(** [undefined << 0] is 0. *)
Definition readUInt16LE (source : list Z) (offset : Z) : Z :=
  Z.lor (to_uint32w (to_int32 (default 0 (source.[offset]))))
        (to_uint32w (to_int32 (Z.shiftl (default 0 (source.[offset + 1])) 8))).

Definition writeUInt32BE (destination : list Z) (value offset : Z) : list Z :=
  let d := put8 destination (offset + 3) value in
  let value := Z.shiftr (to_uint32w value) 8 in
  let d := put8 d (offset + 2) value in
  let value := Z.shiftr (to_uint32w value) 8 in
  let d := put8 d (offset + 1) value in
  let value := Z.shiftr (to_uint32w value) 8 in
  put8 d offset value.

(** [None] is [NaN], read past the end. *)
Definition readUInt32BE (source : list Z) (offset : Z) : option Z :=
  match source.[offset], source.[offset + 1], source.[offset + 2], source.[offset + 3] with
  | Some a, Some b, Some c, Some d => Some (a * 2 ^ 24 + b * 2 ^ 16 + c * 2 ^ 8 + d)
  | _, _, _, _ => None
  end.

End Buf.

Import Buf.

(** ** Serialization *)

Section serialize.

(** [TextDecoder.decode] of the platform, for UTF-16LE with its default options. *)
Context (decode : list Z -> jsstr).

(** [new Uint16Array(source.buffer, offset, len)]: the offset is aligned and the view is
    inside the buffer, or it throws. *)
Definition new_Uint16Array (source : list Z) (offset len : Z) : result (list Z) :=
  if negb (offset mod 2 =? 0) then Throw RangeError
  else if (offset <? 0) || (offset + 2 * len >? zlen source) then Throw RangeError
  else Ok ((fun i => readUInt16LE source (offset + 2 * i)) <$> zrange 0 len).

Definition compatDecodeUTF16LE (source : list Z) (offset len : Z) : jsstr :=
  (fold_left (fun '(result, offset) _ => (result ++ [readUInt16LE source offset], offset + 2))
    (zrange 0 len) ([], offset)).1.

Definition decodeUTF16LE (source : list Z) (offset len : Z) : result jsstr :=
  let* view := new_Uint16Array source offset len in
  if (len >? 0) && match view.[0] with
                   | Some c => (c =? 65279) || (c =? 65534)
                   | None => false
                   end
  then Ok (compatDecodeUTF16LE source offset len)
  else Ok (decode view).

Definition writeStringSize (str : jsstr) : Z := 4 + 2 * zlen str.

Definition writeString (b : list Z) (str : jsstr) (offset : Z) : list Z * Z :=
  let len := zlen str in
  let b := writeUInt32BE b len offset in
  let offset := offset + 4 in
  fold_left (fun '(b, offset) c => (writeUInt16LE b c offset, offset + 2)) str (b, offset).

(** A length past the end of the buffer is [NaN], of which [Uint16Array] makes 0; no view
    starts past the end. *)
Definition readString (b : list Z) (offset : Z) : result jsstr :=
  let len := readUInt32BE b offset in
  decodeUTF16LE b (offset + 4) (default 0 len).

Definition writeSize (this : TextChange) : Z :=
  4 + 4 + writeStringSize (oldText this) + writeStringSize (newText this).

Definition write (this : TextChange) (b : list Z) (offset : Z) : list Z * Z :=
  let b := writeUInt32BE b (oldPosition this) offset in
  let offset := offset + 4 in
  let b := writeUInt32BE b (newPosition this) offset in
  let offset := offset + 4 in
  let '(b, offset) := writeString b (oldText this) offset in
  writeString b (newText this) offset.

(** [read] pushes the change on [dest] and returns the next offset. *)
Definition read (b : list Z) (offset : Z) (dest : list TextChange)
    : result (Z * list TextChange) :=
  let oldPosition := readUInt32BE b offset in
  let offset := offset + 4 in
  let newPosition := readUInt32BE b offset in
  let offset := offset + 4 in
  let* oldText := readString b offset in
  let offset := offset + writeStringSize oldText in
  let* newText := readString b offset in
  let offset := offset + writeStringSize newText in
  Ok (offset, dest ++ [mkTextChange (default 0 oldPosition) oldText (default 0 newPosition) newText]).

End serialize.

(** ** Compression *)

Module TCC.

Record TextChangeCompressor : Type := mkTCC {
  prevIndex : Z; currIndex : Z;
  prevEdit : option TextChange; currEdit : option TextChange;
  result_ : list TextChange;
  prevDeltaOffset : Z; currDeltaOffset : Z }.

Definition getAt (edits : list TextChange) (i : Z) : option TextChange :=
  if i <? zlen edits then edits.[i] else None.

Definition rebaseCurr (prevDeltaOffset : Z) (currEdit : TextChange) : TextChange :=
  mkTextChange (oldPosition currEdit - prevDeltaOffset) (oldText currEdit)
    (newPosition currEdit) (newText currEdit).

Definition rebasePrev (currDeltaOffset : Z) (prevEdit : TextChange) : TextChange :=
  mkTextChange (oldPosition prevEdit) (oldText prevEdit)
    (newPosition prevEdit + currDeltaOffset) (newText prevEdit).

Definition splitPrev (edit : TextChange) (offset : Z) : TextChange * TextChange :=
  let preText := take (Z.to_nat offset) (newText edit) in
  let postText := drop (Z.to_nat offset) (newText edit) in
  (mkTextChange (oldPosition edit) (oldText edit) (newPosition edit) preText,
   mkTextChange (oldEnd edit) [] (newPosition edit + offset) postText).

Definition splitCurr (edit : TextChange) (offset : Z) : TextChange * TextChange :=
  let preText := take (Z.to_nat offset) (oldText edit) in
  let postText := drop (Z.to_nat offset) (oldText edit) in
  (mkTextChange (oldPosition edit) preText (newPosition edit) (newText edit),
   mkTextChange (oldPosition edit + offset) postText (newEnd edit) []).

(** [_acceptCurr(e)], then [currEdit = next], [currIndex = i]. *)
Definition acceptCurr (st : TextChangeCompressor) (e : TextChange) (i : Z)
    (next : option TextChange) : TextChangeCompressor :=
  mkTCC (prevIndex st) i (prevEdit st) next
    (result_ st ++ [rebaseCurr (prevDeltaOffset st) e])
    (prevDeltaOffset st) (currDeltaOffset st + (newLength e - oldLength e)).

Definition acceptPrev (st : TextChangeCompressor) (e : TextChange) (i : Z)
    (next : option TextChange) : TextChangeCompressor :=
  mkTCC i (currIndex st) next (currEdit st)
    (result_ st ++ [rebasePrev (currDeltaOffset st) e])
    (prevDeltaOffset st + (newLength e - oldLength e)) (currDeltaOffset st).

(** The end of the loop's body: one change of the merged pair. *)
Definition acceptMerged (st : TextChangeCompressor) (mergePrev mergeCurr : TextChange)
    (i j : Z) (nextPrev nextCurr : option TextChange) : TextChangeCompressor :=
  mkTCC i j nextPrev nextCurr
    (result_ st ++ [mkTextChange (oldPosition mergePrev) (oldText mergePrev)
                      (newPosition mergeCurr) (newText mergeCurr)])
    (prevDeltaOffset st + (newLength mergePrev - oldLength mergePrev))
    (currDeltaOffset st + (newLength mergeCurr - oldLength mergeCurr)).

(** One turn of the loop of [compress]. *)
Definition step (prevEdits currEdits : list TextChange) (st : TextChangeCompressor)
    : TextChangeCompressor :=
  let i := prevIndex st + 1 in
  let j := currIndex st + 1 in
  match prevEdit st, currEdit st with
  | None, None => st
  | None, Some c => acceptCurr st c j (getAt currEdits j)
  | Some p, None => acceptPrev st p i (getAt prevEdits i)
  | Some p, Some c =>
      if oldEnd c <=? newPosition p then acceptCurr st c j (getAt currEdits j)
      else if newEnd p <=? oldPosition c then acceptPrev st p i (getAt prevEdits i)
      else if oldPosition c <? newPosition p then
        let '(e1, e2) := splitCurr c (newPosition p - oldPosition c) in
        acceptCurr st e1 (currIndex st) (Some e2)
      else if newPosition p <? oldPosition c then
        let '(e1, e2) := splitPrev p (oldPosition c - newPosition p) in
        acceptPrev st e1 (prevIndex st) (Some e2)
      else if oldEnd c =? newEnd p then
        acceptMerged st p c i j (getAt prevEdits i) (getAt currEdits j)
      else if oldEnd c <? newEnd p then
        let '(e1, e2) := splitPrev p (oldLength c) in
        acceptMerged st e1 c (prevIndex st) j (Some e2) (getAt currEdits j)
      else
        let '(e1, e2) := splitCurr c (newLength p) in
        acceptMerged st p e1 i (currIndex st) (getAt prevEdits i) (Some e2)
  end.

Fixpoint merge_from (prev : TextChange) (edits : list TextChange) : list TextChange :=
  match edits with
  | [] => [prev]
  | curr :: edits' =>
      if oldEnd prev =? oldPosition curr then
        merge_from (mkTextChange (oldPosition prev) (oldText prev ++ oldText curr)
                      (newPosition prev) (newText prev ++ newText curr)) edits'
      else prev :: merge_from curr edits'
  end.

Definition merge (edits : list TextChange) : list TextChange :=
  match edits with [] => [] | prev :: edits' => merge_from prev edits' end.

Definition removeNoOps (edits : list TextChange) : list TextChange :=
  filter (fun edit => oldText edit <> newText edit) edits.

(** The turns left are bounded by the edits and the characters they share. *)
Definition weight (len : TextChange -> Z) (edits : list TextChange) : nat :=
  sum_list_with (fun e => S (Z.to_nat (len e))) edits.

Definition compress (prevEdits currEdits : list TextChange) : list TextChange :=
  let st := while (weight newLength prevEdits + weight oldLength currEdits)
    (fun st => (prevIndex st <? zlen prevEdits) || (currIndex st <? zlen currEdits))
    (step prevEdits currEdits)
    (mkTCC 0 0 (getAt prevEdits 0) (getAt currEdits 0) [] 0 0) in
  removeNoOps (merge (result_ st)).

End TCC.

(** [None] is [null]. *)
Definition compressConsecutiveTextChanges (prevEdits : option (list TextChange))
    (currEdits : list TextChange) : list TextChange :=
  match prevEdits with
  | None | Some [] => currEdits
  | Some prevEdits => TCC.compress prevEdits currEdits
  end.

Import TCC.

(** ** What an edit list means *)

(** [es] turns the text [d], which starts at offset [o] of the old document, into [d'], at
    offset [n] of the new one: the texts agree outside the changes. *)
Fixpoint rewrites (es : list TextChange) (o n : Z) (d d' : jsstr) : Prop :=
  match es with
  | [] => d = d'
  | e :: es' => exists gap r r',
      d = gap ++ oldText e ++ r /\ d' = gap ++ newText e ++ r' /\
      oldPosition e = o + zlen gap /\ newPosition e = n + zlen gap /\
      rewrites es' (oldEnd e) (newEnd e) r r'
  end.

(** No two changes touch and none is idle. *)
Fixpoint compact (o : Z) (es : list TextChange) : Prop :=
  match es with
  | [] => True
  | e :: es' => o < oldPosition e /\ oldText e <> newText e /\ compact (oldEnd e) es'
  end.

Lemma zlen_app_split {A} (g g' r r' : list A) :
  g ++ r = g' ++ r' -> zlen g <= zlen g' -> exists k, g' = g ++ k /\ r = k ++ r'.
Proof.
  intros E Hle. exists (drop (length g) g'). unfold zlen in Hle.
  assert (Hg : g = take (length g) g').
  { rewrite <- (take_app_length g r), E. rewrite take_app_le by lia.
    by rewrite length_take, Nat.min_l by lia. }
  assert (Hg' : g' = g ++ drop (length g) g') by (rewrite <- (take_drop (length g) g') at 1; by rewrite <- Hg).
  split; [done|]. rewrite Hg', <- app_assoc in E. by apply app_inv_head in E.
Qed.

Lemma at_app_zlen {A} (pre post : list A) i : 0 <= i -> (pre ++ post).[zlen pre + i] = post.[i].
Proof.
  intros. unfold at_, zlen. destruct (Z.ltb_spec (Z.of_nat (length pre) + i) 0); [lia|].
  destruct (Z.ltb_spec i 0); [lia|]. rewrite lookup_app_r by lia. f_equal. lia.
Qed.

(** A text common to both ends is skipped. *)
Lemma rewrites_skip k es o n d d' :
  rewrites es (o + zlen k) (n + zlen k) d d' -> rewrites es o n (k ++ d) (k ++ d').
Proof.
  destruct es as [|e es]; simpl; [by intros ->|].
  intros (g & r & r' & -> & -> & -> & -> & Hr). exists (k ++ g), r, r'.
  rewrite zlen_app, <- !app_assoc. split_and!; try done; lia.
Qed.

(** The other way: all of [k] is before the first change. *)
Lemma rewrites_unskip k e es o n d d' :
  rewrites (e :: es) o n (k ++ d) d' -> o + zlen k <= oldPosition e ->
  exists d'', d' = k ++ d'' /\ rewrites (e :: es) (o + zlen k) (n + zlen k) d d''.
Proof.
  intros (g & r & r' & E & -> & Ho & Hn & Hr) Hle.
  destruct (zlen_app_split k g d (oldText e ++ r) E ltac:(lia)) as (g' & -> & ->).
  rewrite zlen_app in *. exists (g' ++ newText e ++ r'). rewrite <- app_assoc. split; [done|].
  exists g', r, r'. split_and!; try done; lia.
Qed.

Lemma rewrites_unskip_new k e es o n d d' :
  rewrites (e :: es) o n d (k ++ d') -> n + zlen k <= newPosition e ->
  exists d'', d = k ++ d'' /\ rewrites (e :: es) (o + zlen k) (n + zlen k) d'' d'.
Proof.
  intros (g & r & r' & -> & E & Ho & Hn & Hr) Hle.
  destruct (zlen_app_split k g d' (newText e ++ r') E ltac:(lia)) as (g' & -> & ->).
  rewrite zlen_app in *. exists (g' ++ oldText e ++ r). rewrite <- app_assoc. split; [done|].
  exists g', r, r'. split_and!; try done; lia.
Qed.

Lemma zlen_take_drop {A} (l : list A) k :
  0 <= k <= zlen l ->
  zlen (take (Z.to_nat k) l) = k /\ zlen (drop (Z.to_nat k) l) = zlen l - k.
Proof. unfold zlen. rewrite length_take, length_drop. lia. Qed.

(** Splitting a change leaves the meaning of the list. *)
Lemma rewrites_splitCurr c es k o n d d' :
  0 <= k <= zlen (oldText c) -> rewrites (c :: es) o n d d' ->
  rewrites ((splitCurr c k).1 :: (splitCurr c k).2 :: es) o n d d'.
Proof.
  intros Hk (g & r & r' & -> & -> & Ho & Hn & Hr).
  destruct (zlen_take_drop (oldText c) k Hk) as [Ht Hd].
  exists g, (drop (Z.to_nat k) (oldText c) ++ r), r'. unfold splitCurr. simpl.
  rewrite (app_assoc (take _ _)), take_drop.
  split_and!; try done. exists [], r, r'. unfold oldEnd, newEnd in *. simpl.
  rewrite Ht, Hd, zlen_nil. split_and!; try done; try lia.
  by replace (oldPosition c + k + (zlen (oldText c) - k)) with (oldPosition c + zlen (oldText c)) by lia;
    rewrite Z.add_0_r.
Qed.

Lemma rewrites_splitPrev p es k o n d d' :
  0 <= k <= zlen (newText p) -> rewrites (p :: es) o n d d' ->
  rewrites ((splitPrev p k).1 :: (splitPrev p k).2 :: es) o n d d'.
Proof.
  intros Hk (g & r & r' & -> & -> & Ho & Hn & Hr).
  destruct (zlen_take_drop (newText p) k Hk) as [Ht Hd].
  exists g, r, (drop (Z.to_nat k) (newText p) ++ r'). unfold splitPrev. simpl.
  rewrite (app_assoc (take _ _)), take_drop.
  split_and!; try done. exists [], r, r'. unfold oldEnd, newEnd in *. simpl.
  rewrite Ht, Hd, zlen_nil. split_and!; try done; try lia.
  by replace (newPosition p + k + (zlen (newText p) - k)) with (newPosition p + zlen (newText p)) by lia;
    rewrite Z.add_0_r.
Qed.

(** ** The loop of [compress] *)

Definition opt_cons (o : option TextChange) (l : list TextChange) : list TextChange :=
  match o with Some e => e :: l | None => [] end.

(** What is left to read of an edit list. *)
Definition left_ (o : option TextChange) (i : Z) (edits : list TextChange) : list TextChange :=
  opt_cons o (drop (Z.to_nat (i + 1)) edits).

Lemma left_getAt edits i : 0 <= i -> left_ (getAt edits i) i edits = drop (Z.to_nat i) edits.
Proof.
  intros. unfold left_, getAt. destruct (Z.ltb_spec i (zlen edits)).
  - destruct (at_in_range edits i ltac:(lia)) as [e He]. rewrite He. simpl.
    unfold at_ in He. destruct (Z.ltb_spec i 0); [lia|].
    by rewrite (drop_S _ _ _ He), Z2Nat.inj_add by lia; rewrite Nat.add_1_r.
  - simpl. symmetry. apply drop_ge. unfold zlen in *. lia.
Qed.

Lemma left_getAt_next edits i :
  0 <= i -> left_ (getAt edits (i + 1)) (i + 1) edits = drop (Z.to_nat (i + 1)) edits.
Proof. intros. apply left_getAt. lia. Qed.

(** *** Where a text may be cut

    [stop] says after which code units it may not: the first half of a surrogate pair, say. *)
Section cuts.
Context (stop : Z -> bool).

Definition cut_at (d : jsstr) (o : Z) : Prop := forall c, d.[o - 1] = Some c -> stop c = false.

(** The ends of a change are cuts of both texts. *)
Definition edges (d d' : jsstr) (e : TextChange) : Prop :=
  cut_at d (oldPosition e) /\ cut_at d (oldEnd e) /\ cut_at d' (newPosition e) /\ cut_at d' (newEnd e).

Definition at_suffix (d : jsstr) (o : Z) (s : jsstr) : Prop := exists a, d = a ++ s /\ zlen a = o.

Lemma at_suffix_app d o g s : at_suffix d o (g ++ s) -> at_suffix d (o + zlen g) s.
Proof. intros (a & -> & <-). exists (a ++ g). by rewrite <- app_assoc, zlen_app. Qed.

(** What is before a cut is the same in two texts that agree from a cut on. *)
Lemma cut_advance d d' o o' g s s' :
  at_suffix d o (g ++ s) -> at_suffix d' o' (g ++ s') -> cut_at d (o + zlen g) -> cut_at d' o' -> cut_at d' (o' + zlen g).
Proof.
  intros (a & -> & <-) (a' & -> & <-) Hc Hc'. destruct (decide (g = [])) as [->|Hne]; [by rewrite zlen_nil, Z.add_0_r|].
  assert (0 < zlen g) by (destruct g; [done|rewrite zlen_cons; pose proof (zlen_nonneg g); lia]). intros c Hx. apply Hc.
  replace (zlen a' + zlen g - 1) with (zlen a' + (zlen g - 1)) in Hx by lia. replace (zlen a + zlen g - 1) with (zlen a + (zlen g - 1)) by lia.
  rewrite at_app_zlen in * by lia. rewrite at_app_l in * by lia. done.
Qed.

Lemma edges_at d d' e o (g : jsstr) o' : edges d d' e -> oldPosition e = o + zlen g -> newPosition e = o' + zlen g ->
  cut_at d (o + zlen g) /\ cut_at d (o + zlen g + zlen (oldText e)) /\ cut_at d' (o' + zlen g) /\ cut_at d' (o' + zlen g + zlen (newText e)).
Proof. unfold edges, oldEnd, newEnd. intros (H1 & H2 & H3 & H4) E1 E2. by rewrite E1, E2 in *. Qed.

End cuts.

Section compress.
Context (stop : Z -> bool) (prevs currs : list TextChange) (d0 d1 d2 : jsstr).

(** The three texts are cut where they are read to. *)
Definition cursor (o m n : Z) (s0 s1 s2 : jsstr) : Prop :=
  at_suffix d0 o s0 /\ at_suffix d1 m s1 /\ at_suffix d2 n s2 /\ cut_at stop d0 o /\ cut_at stop d1 m /\ cut_at stop d2 n.

(** Every change, read or not, has its ends at cuts. *)
Definition cuts_ok (st : TextChangeCompressor) (o m n : Z) (s0 s1 s2 : jsstr) : Prop :=
  cursor o m n s0 s1 s2 /\ Forall (edges stop d0 d1) (left_ (prevEdit st) (prevIndex st) prevs) /\
  Forall (edges stop d1 d2) (left_ (currEdit st) (currIndex st) currs) /\ Forall (edges stop d0 d2) (result_ st).

(** The rest of both lists turns the rest of the old text, at [o], into the rest of the
    middle text, at [m], and that into the rest of the new text, at [n]; and whatever
    rewrites the rest of the old into the rest of the new completes the output. *)
Definition rest_ok (st : TextChangeCompressor) (o m n : Z) (s0 s1 s2 : jsstr) : Prop :=
  rewrites (left_ (prevEdit st) (prevIndex st) prevs) o m s0 s1 /\
  rewrites (left_ (currEdit st) (currIndex st) currs) m n s1 s2 /\
  prevDeltaOffset st = m - o /\ currDeltaOffset st = n - m /\
  (forall es, rewrites es o n s0 s2 -> rewrites (result_ st ++ es) 0 0 d0 d2) /\
  cuts_ok st o m n s0 s1 s2.

Definition index_ok (e : option TextChange) (i : Z) (edits : list TextChange) : Prop :=
  0 <= i /\ (e = None <-> zlen edits <= i).

Definition inv (st : TextChangeCompressor) : Prop :=
  index_ok (prevEdit st) (prevIndex st) prevs /\ index_ok (currEdit st) (currIndex st) currs /\
  exists o m n s0 s1 s2, rest_ok st o m n s0 s1 s2.

Definition measure (st : TextChangeCompressor) : nat :=
  weight newLength (left_ (prevEdit st) (prevIndex st) prevs) +
  weight oldLength (left_ (currEdit st) (currIndex st) currs).

Lemma index_ok_getAt edits i : 0 <= i -> index_ok (getAt edits i) i edits.
Proof.
  intros. split; [lia|]. unfold getAt. destruct (Z.ltb_spec i (zlen edits)); [|by split; [lia|]].
  destruct (at_in_range edits i ltac:(lia)) as [e ->]. split; [done|lia].
Qed.

Lemma index_ok_next edits i : 0 <= i -> index_ok (getAt edits (i + 1)) (i + 1) edits.
Proof. intros. apply index_ok_getAt. lia. Qed.

Lemma index_ok_some edits i e e' : index_ok (Some e) i edits -> index_ok (Some e') i edits.
Proof. intros [? [_ H]]. split; [done|]. split; [done|]. intros Hle. by specialize (H Hle). Qed.

(** One change of the current list, all of it before the rest of the previous list. *)
Lemma rest_acceptCurr st c C o m n s0 s1 s2 g r r' j next :
  rewrites (left_ (prevEdit st) (prevIndex st) prevs) o m s0 s1 ->
  s1 = g ++ oldText c ++ r -> s2 = g ++ newText c ++ r' ->
  oldPosition c = m + zlen g -> newPosition c = n + zlen g ->
  rewrites C (oldEnd c) (newEnd c) r r' ->
  (forall p, prevEdit st = Some p -> oldEnd c <= newPosition p) ->
  prevDeltaOffset st = m - o -> currDeltaOffset st = n - m ->
  (forall es, rewrites es o n s0 s2 -> rewrites (result_ st ++ es) 0 0 d0 d2) ->
  left_ next j currs = C -> cursor o m n s0 s1 s2 -> Forall (edges stop d0 d1) (left_ (prevEdit st) (prevIndex st) prevs) ->
  edges stop d1 d2 c -> Forall (edges stop d1 d2) C -> Forall (edges stop d0 d2) (result_ st) ->
  exists o m n s0 s1 s2, rest_ok (acceptCurr st c j next) o m n s0 s1 s2.
Proof.
  intros HP -> -> Ho Hn HC Hbefore Hpd Hcd Hout Hnext (S0 & S1 & S2 & C0 & C1 & C2) Kp Kc KC Kr.
  assert (Hs0 : exists t, s0 = (g ++ oldText c) ++ t /\
    rewrites (left_ (prevEdit st) (prevIndex st) prevs)
      (o + zlen (g ++ oldText c)) (m + zlen (g ++ oldText c)) t r).
  { rewrite app_assoc in HP. unfold left_ in *. destruct (prevEdit st) as [p|]; simpl opt_cons in *.
    - apply rewrites_unskip_new in HP; [done|]. specialize (Hbefore p eq_refl).
      unfold oldEnd in Hbefore. rewrite zlen_app. lia.
    - simpl in *. eauto. }
  destruct Hs0 as (t & -> & HP'). rewrite zlen_app in HP'.
  exists (o + zlen g + zlen (oldText c)), (m + zlen g + zlen (oldText c)),
    (n + zlen g + zlen (newText c)), t, r, r'.
  unfold rest_ok, acceptCurr. simpl. rewrite Hnext. unfold oldEnd, newEnd, newLength, oldLength in *.
  rewrite Ho, Hn in HC. rewrite !Z.add_assoc in HP'.
  destruct (edges_at stop _ _ _ _ _ _ Kc Ho Hn) as (K1 & K2 & K3 & K4). rewrite <- app_assoc in S0.
  pose proof (cut_advance stop d1 d0 m o g _ _ S1 S0 K1 C0) as C0'. apply at_suffix_app in S0, S1, S2.
  pose proof (cut_advance stop d1 d0 _ _ _ _ _ S1 S0 K2 C0') as C0''. apply at_suffix_app in S0, S1, S2.
  split_and!; try done; try lia.
  2: { split_and!; cbn [prevEdit prevIndex currEdit currIndex result_]; rewrite ?Hnext; try done. apply Forall_app. split; [done|]. apply Forall_singleton.
    unfold edges, rebaseCurr, oldEnd, newEnd. cbn [oldPosition oldText newPosition newText]. rewrite Hpd, Ho, Hn. by replace (m + zlen g - (m - o)) with (o + zlen g) by lia. }
  intros es Hes. rewrite <- app_assoc. apply Hout. simpl.
  exists g, t, r'. rewrite <- !app_assoc. unfold rebaseCurr, oldEnd, newEnd. simpl.
  split_and!; try done; try lia.
  by replace (oldPosition c - prevDeltaOffset st) with (o + zlen g) by lia; rewrite Hn.
Qed.

Lemma rest_acceptPrev st p P o m n s0 s1 s2 g r r' i next :
  s0 = g ++ oldText p ++ r -> s1 = g ++ newText p ++ r' ->
  oldPosition p = o + zlen g -> newPosition p = m + zlen g ->
  rewrites P (oldEnd p) (newEnd p) r r' ->
  rewrites (left_ (currEdit st) (currIndex st) currs) m n s1 s2 ->
  (forall c, currEdit st = Some c -> newEnd p <= oldPosition c) ->
  prevDeltaOffset st = m - o -> currDeltaOffset st = n - m ->
  (forall es, rewrites es o n s0 s2 -> rewrites (result_ st ++ es) 0 0 d0 d2) ->
  left_ next i prevs = P -> cursor o m n s0 s1 s2 -> edges stop d0 d1 p -> Forall (edges stop d0 d1) P ->
  Forall (edges stop d1 d2) (left_ (currEdit st) (currIndex st) currs) -> Forall (edges stop d0 d2) (result_ st) ->
  exists o m n s0 s1 s2, rest_ok (acceptPrev st p i next) o m n s0 s1 s2.
Proof.
  intros -> -> Ho Hn HP HC Hbefore Hpd Hcd Hout Hnext (S0 & S1 & S2 & C0 & C1 & C2) Kp KP Kc Kr.
  assert (Hs2 : exists t, s2 = (g ++ newText p) ++ t /\
    rewrites (left_ (currEdit st) (currIndex st) currs)
      (m + zlen (g ++ newText p)) (n + zlen (g ++ newText p)) r' t).
  { rewrite app_assoc in HC. unfold left_ in *. destruct (currEdit st) as [c|]; simpl opt_cons in *.
    - apply rewrites_unskip in HC; [done|]. specialize (Hbefore c eq_refl).
      unfold newEnd in Hbefore. rewrite zlen_app. lia.
    - simpl in *. eauto. }
  destruct Hs2 as (t & -> & HC'). rewrite zlen_app in HC'.
  exists (o + zlen g + zlen (oldText p)), (m + zlen g + zlen (newText p)),
    (n + zlen g + zlen (newText p)), r, r', t.
  unfold rest_ok, acceptPrev. simpl. rewrite Hnext. unfold oldEnd, newEnd, newLength, oldLength in *.
  rewrite Ho, Hn in HP. rewrite !Z.add_assoc in HC'.
  destruct (edges_at stop _ _ _ _ _ _ Kp Ho Hn) as (K1 & K2 & K3 & K4). rewrite <- app_assoc in S2.
  pose proof (cut_advance stop d1 d2 m n g _ _ S1 S2 K3 C2) as C2'. apply at_suffix_app in S0, S1, S2.
  pose proof (cut_advance stop d1 d2 _ _ _ _ _ S1 S2 K4 C2') as C2''. apply at_suffix_app in S0, S1, S2.
  split_and!; try done; try lia.
  2: { split_and!; cbn [prevEdit prevIndex currEdit currIndex result_]; rewrite ?Hnext; try done. apply Forall_app. split; [done|]. apply Forall_singleton.
    unfold edges, rebasePrev, oldEnd, newEnd. cbn [oldPosition oldText newPosition newText]. rewrite Hcd, Ho, Hn. by replace (m + zlen g + (n - m)) with (n + zlen g) by lia. }
  intros es Hes. rewrite <- app_assoc. apply Hout. simpl.
  exists g, r, t. rewrite <- !app_assoc. unfold rebasePrev, oldEnd, newEnd. simpl.
  split_and!; try done; try lia.
  by replace (newPosition p + currDeltaOffset st) with (n + zlen g) by lia; rewrite Ho.
Qed.

(** A change of each list, over the same stretch of the middle text. *)
Lemma rest_acceptMerged st p c P C o m n s0 s1 s2 i j nextP nextC :
  rewrites (p :: P) o m s0 s1 -> rewrites (c :: C) m n s1 s2 ->
  oldPosition c = newPosition p -> oldEnd c = newEnd p ->
  prevDeltaOffset st = m - o -> currDeltaOffset st = n - m ->
  (forall es, rewrites es o n s0 s2 -> rewrites (result_ st ++ es) 0 0 d0 d2) ->
  left_ nextP i prevs = P -> left_ nextC j currs = C ->
  cursor o m n s0 s1 s2 -> Forall (edges stop d0 d1) (p :: P) -> Forall (edges stop d1 d2) (c :: C) -> Forall (edges stop d0 d2) (result_ st) ->
  exists o m n s0 s1 s2, rest_ok (acceptMerged st p c i j nextP nextC) o m n s0 s1 s2.
Proof.
  intros (g & r & r' & -> & E1 & Ho & Hn & HP) (g' & q & q' & E2 & -> & Ho' & Hn' & HC)
    Hpos Hend Hpd Hcd Hout HnP HnC (S0 & S1 & S2 & C0 & C1 & C2) [Kp KP]%Forall_cons [Kc KC]%Forall_cons Kr.
  rewrite E1 in S1. unfold edges in Kp, Kc. unfold oldEnd, newEnd in *. rewrite E1 in E2.
  destruct (zlen_app_split g g' _ _ E2 ltac:(lia)) as (k & -> & E3).
  assert (k = []) as -> by (rewrite zlen_app in *; apply length_zero_iff_nil; unfold zlen in *; lia).
  rewrite app_nil_r in *. simpl in E3.
  destruct (zlen_app_split (newText p) (oldText c) _ _ E3 ltac:(lia)) as (k & Ek & E4).
  assert (k = []) as -> by (rewrite Ek, zlen_app in Hend; apply length_zero_iff_nil; unfold zlen in *; lia).
  simpl in E4. subst q. rewrite app_nil_r in Ek.
  exists (oldPosition p + zlen (oldText p)), (newPosition p + zlen (newText p)),
    (newPosition c + zlen (newText c)), r, r', q'.
  apply at_suffix_app, at_suffix_app in S0, S1, S2. rewrite <- Ho in S0. rewrite <- Hn in S1. rewrite <- Hn' in S2.
  unfold rest_ok, acceptMerged. simpl. rewrite HnP, HnC, Hend in *. unfold newLength, oldLength.
  split_and!; try done; try lia.
  2: { unfold cuts_ok, cursor. split_and!; cbn [prevEdit prevIndex currEdit currIndex result_]; rewrite ?HnP, ?HnC; try done; try (by apply Kp); try (by apply Kc). apply Forall_app. split; [done|]. apply Forall_singleton.
    unfold edges, oldEnd, newEnd. cbn [oldPosition oldText newPosition newText]. tauto. }
  intros es Hes. rewrite <- app_assoc. apply Hout. simpl.
  exists g, r, q'. unfold oldEnd, newEnd. simpl. split_and!; try done; lia.
Qed.

#[local] Abbreviation prevs_left i := (drop (Z.to_nat (i + 1)) prevs).
#[local] Abbreviation currs_left j := (drop (Z.to_nat (j + 1)) currs).

Lemma splitCurr_ends c k :
  0 <= k <= zlen (oldText c) ->
  oldPosition (splitCurr c k).1 = oldPosition c /\ oldEnd (splitCurr c k).1 = oldPosition c + k /\
  oldLength (splitCurr c k).2 = oldLength c - k.
Proof.
  intros Hk. destruct (zlen_take_drop (oldText c) k Hk). unfold oldEnd, oldLength. simpl. lia.
Qed.

Lemma splitPrev_ends p k :
  0 <= k <= zlen (newText p) ->
  newPosition (splitPrev p k).1 = newPosition p /\ newEnd (splitPrev p k).1 = newPosition p + k /\
  newLength (splitPrev p k).2 = newLength p - k.
Proof.
  intros Hk. destruct (zlen_take_drop (newText p) k Hk). unfold newEnd, newLength. simpl. lia.
Qed.

Lemma edges_splitCurr c k : 0 <= k <= zlen (oldText c) -> edges stop d1 d2 c -> cut_at stop d1 (oldPosition c + k) ->
  edges stop d1 d2 (splitCurr c k).1 /\ edges stop d1 d2 (splitCurr c k).2.
Proof.
  intros Hk (H1 & H2 & H3 & H4) Hc. destruct (zlen_take_drop (oldText c) k Hk) as [Et Ed]. unfold edges, oldEnd, newEnd in *. simpl. rewrite Et, Ed, zlen_nil, Z.add_0_r.
  by replace (oldPosition c + k + (zlen (oldText c) - k)) with (oldPosition c + zlen (oldText c)) by lia.
Qed.

Lemma edges_splitPrev p k : 0 <= k <= zlen (newText p) -> edges stop d0 d1 p -> cut_at stop d1 (newPosition p + k) ->
  edges stop d0 d1 (splitPrev p k).1 /\ edges stop d0 d1 (splitPrev p k).2.
Proof.
  intros Hk (H1 & H2 & H3 & H4) Hc. destruct (zlen_take_drop (newText p) k Hk) as [Et Ed]. unfold edges, oldEnd, newEnd in *. simpl. rewrite Et, Ed, zlen_nil, Z.add_0_r.
  by replace (newPosition p + k + (zlen (newText p) - k)) with (newPosition p + zlen (newText p)) by lia.
Qed.

#[local] Opaque splitCurr splitPrev.

(** Every turn of the loop keeps the invariant. *)
Lemma step_rest st :
  inv st -> (prevEdit st <> None \/ currEdit st <> None) ->
  exists o m n s0 s1 s2, rest_ok (step prevs currs st) o m n s0 s1 s2.
Proof.
  intros ([Hi Hip] & [Hj Hjc] & o & m & n & s0 & s1 & s2 & HP & HC & Hpd & Hcd & Hout & Hcur & KP & KC & Kr) Hsome.
  assert (HnP := left_getAt_next prevs _ Hi). assert (HnC := left_getAt_next currs _ Hj).
  destruct st as [i j p c res pd cd]. simpl in *. unfold step. simpl.
  destruct p as [p|], c as [c|]; [..|by destruct Hsome]; unfold left_ in HP, HC, KP, KC; simpl in HP, HC, KP, KC.
  - pose proof (proj1 (Forall_cons _ _ _) KP) as [Kp KP']. pose proof (proj1 (Forall_cons _ _ _) KC) as [Kc KC'].
    pose proof Kp as (_ & _ & Kp1 & Kp2). pose proof Kc as (Kc1 & Kc2 & _).
    destruct (Z.leb_spec (oldEnd c) (newPosition p)).
    { destruct HC as (g & r & r' & ? & ? & ? & ? & ?). eapply rest_acceptCurr; simpl; try done.
      by intros ? [= <-]. }
    destruct (Z.leb_spec (newEnd p) (oldPosition c)).
    { destruct HP as (g & r & r' & ? & ? & ? & ? & ?). eapply rest_acceptPrev; simpl; try done.
      by intros ? [= <-]. }
    pose proof (zlen_nonneg (oldText c)). pose proof (zlen_nonneg (newText p)).
    unfold oldEnd, newEnd, oldLength, newLength in *.
    destruct (Z.ltb_spec (oldPosition c) (newPosition p)).
    { destruct (splitCurr_ends c (newPosition p - oldPosition c) ltac:(lia)) as (_ & He & _).
      apply (rewrites_splitCurr _ _ (newPosition p - oldPosition c)) in HC; [|lia].
      destruct (edges_splitCurr c (newPosition p - oldPosition c) ltac:(lia) Kc) as [Ke1 Ke2]; [by rewrite Z.add_sub_assoc, Z.add_simpl_l|].
      destruct (splitCurr c _) as [e1 e2]. simpl in *. destruct HC as (g & r & r' & ? & ? & ? & ? & ?).
      eapply (rest_acceptCurr _ _ (e2 :: currs_left j)); simpl; try done; [intros ? [= <-]; lia|by apply Forall_cons]. }
    destruct (Z.ltb_spec (newPosition p) (oldPosition c)).
    { destruct (splitPrev_ends p (oldPosition c - newPosition p) ltac:(lia)) as (_ & He & _).
      apply (rewrites_splitPrev _ _ (oldPosition c - newPosition p)) in HP; [|lia].
      destruct (edges_splitPrev p (oldPosition c - newPosition p) ltac:(lia) Kp) as [Ke1 Ke2]; [by rewrite Z.add_sub_assoc, Z.add_simpl_l|].
      destruct (splitPrev p _) as [e1 e2]. simpl in *. destruct HP as (g & r & r' & ? & ? & ? & ? & ?).
      eapply (rest_acceptPrev _ _ (e2 :: prevs_left i)); simpl; try done; [intros ? [= <-]; lia|by apply Forall_cons]. }
    destruct (Z.eqb_spec (oldPosition c + zlen (oldText c)) (newPosition p + zlen (newText p))).
    { eapply rest_acceptMerged; simpl; try done. lia. }
    destruct (Z.ltb_spec (oldPosition c + zlen (oldText c)) (newPosition p + zlen (newText p))).
    + destruct (splitPrev_ends p (zlen (oldText c)) ltac:(lia)) as (Hs & He & _).
      apply (rewrites_splitPrev _ _ (zlen (oldText c))) in HP; [|lia].
      destruct (edges_splitPrev p (zlen (oldText c)) ltac:(lia) Kp) as [Ke1 Ke2]; [by replace (newPosition p) with (oldPosition c) by lia|].
      destruct (splitPrev p _) as [e1 e2]. simpl in *.
      eapply (rest_acceptMerged _ _ _ (e2 :: prevs_left i) (currs_left j)); simpl; try done; rewrite ?Forall_cons; try done; unfold oldEnd; lia.
    + destruct (splitCurr_ends c (zlen (newText p)) ltac:(lia)) as (Hs & He & _).
      apply (rewrites_splitCurr _ _ (zlen (newText p))) in HC; [|lia].
      destruct (edges_splitCurr c (zlen (newText p)) ltac:(lia) Kc) as [Ke1 Ke2]; [by replace (oldPosition c) with (newPosition p) by lia|].
      destruct (splitCurr c _) as [e1 e2]. simpl in *.
      eapply (rest_acceptMerged _ _ _ (prevs_left i) (e2 :: currs_left j)); simpl; try done; rewrite ?Forall_cons; try done; unfold newEnd; lia.
  - apply Forall_cons in KP as [Kp KP]. destruct HP as (g & r & r' & ? & ? & ? & ? & ?). by eapply (rest_acceptPrev _ _ (prevs_left i)); simpl.
  - apply Forall_cons in KC as [Kc KC]. destruct HC as (g & r & r' & ? & ? & ? & ? & ?). by eapply (rest_acceptCurr _ _ (currs_left j)); [exact HP|simpl..].
Qed.

Lemma weight_cons f e es : weight f (e :: es) = (S (Z.to_nat (f e)) + weight f es)%nat.
Proof. done. Qed.

Lemma left_Some e i es : left_ (Some e) i es = e :: drop (Z.to_nat (i + 1)) es.
Proof. done. Qed.

#[local] Ltac fields :=
  unfold measure, acceptCurr, acceptPrev, acceptMerged;
  cbn [prevEdit currEdit prevIndex currIndex].

Lemma step_progress st :
  inv st -> (prevEdit st <> None \/ currEdit st <> None) ->
  index_ok (prevEdit (step prevs currs st)) (prevIndex (step prevs currs st)) prevs /\
  index_ok (currEdit (step prevs currs st)) (currIndex (step prevs currs st)) currs /\
  (measure (step prevs currs st) < measure st)%nat.
Proof.
  destruct st as [i j p c res pd cd]. intros (Hp & Hc & _) Hsome. fields.
  cbn [prevEdit currEdit prevIndex currIndex] in *. assert (Hi := proj1 Hp). assert (Hj := proj1 Hc).
  pose proof (left_getAt_next prevs _ Hi) as HnP. pose proof (left_getAt_next currs _ Hj) as HnC.
  pose proof (index_ok_next prevs _ Hi). pose proof (index_ok_next currs _ Hj).
  unfold step. fields. destruct p as [p|], c as [c|]; [..|by destruct Hsome];
    rewrite ?left_Some, ?weight_cons.
  2: { fields. rewrite HnP. split_and!; [done|done|lia]. }
  2: { fields. rewrite HnC. split_and!; [done|done|lia]. }
  pose proof (zlen_nonneg (oldText c)). pose proof (zlen_nonneg (newText p)).
  repeat case_match; fields; rewrite ?left_Some, ?HnP, ?HnC, ?weight_cons;
    (split_and!; [by eauto using index_ok_some|by eauto using index_ok_some|]); try lia.
  all: unfold oldEnd, newEnd, oldLength, newLength in *.
  - pose proof (splitCurr_ends c (newPosition p - oldPosition c) ltac:(lia)) as Hs.
    match goal with E : splitCurr _ _ = _ |- _ => rewrite E in Hs end. unfold oldLength in Hs.
    cbn [fst snd] in Hs. lia.
  - pose proof (splitPrev_ends p (oldPosition c - newPosition p) ltac:(lia)) as Hs.
    match goal with E : splitPrev _ _ = _ |- _ => rewrite E in Hs end. unfold newLength in Hs.
    cbn [fst snd] in Hs. lia.
  - pose proof (splitPrev_ends p (zlen (oldText c)) ltac:(lia)) as Hs.
    match goal with E : splitPrev _ _ = _ |- _ => rewrite E in Hs end. unfold newLength in Hs.
    cbn [fst snd] in Hs. lia.
  - pose proof (splitCurr_ends c (zlen (newText p)) ltac:(lia)) as Hs.
    match goal with E : splitCurr _ _ = _ |- _ => rewrite E in Hs end. unfold oldLength in Hs.
    cbn [fst snd] in Hs. lia.
Qed.

Lemma step_inv st :
  inv st -> (prevIndex st <? zlen prevs) || (currIndex st <? zlen currs) = true ->
  inv (step prevs currs st) /\ (measure (step prevs currs st) < measure st)%nat.
Proof.
  intros Hinv Hcond. assert (Hsome : prevEdit st <> None \/ currEdit st <> None).
  { destruct Hinv as ([_ Hp] & [_ Hc] & _).
    destruct (prevEdit st); [by left|]. destruct (currEdit st); [by right|exfalso].
    destruct Hp as [Hp _], Hc as [Hc _]. specialize (Hp eq_refl). specialize (Hc eq_refl). lia. }
  destruct (step_progress st Hinv Hsome) as (? & ? & ?). split; [|done].
  split; [done|]. split; [done|]. by apply step_rest.
Qed.

End compress.

(** ** [merge] and [removeNoOps] keep the meaning *)

Lemma rewrites_touching prev curr es o n d d' :
  oldEnd prev = oldPosition curr -> rewrites (prev :: curr :: es) o n d d' ->
  rewrites (mkTextChange (oldPosition prev) (oldText prev ++ oldText curr)
              (newPosition prev) (newText prev ++ newText curr) :: es) o n d d'.
Proof.
  intros E (g & r & r' & -> & -> & Ho & Hn & g' & q & q' & -> & -> & Ho' & Hn' & Hr).
  assert (g' = []) as -> by (apply length_zero_iff_nil; unfold zlen in *; lia).
  exists g, q, q'. unfold oldEnd, newEnd in *. simpl in *.
  rewrite !zlen_app, <- !app_assoc, !Z.add_assoc. rewrite zlen_nil in *. split_and!; try done.
  by replace (oldPosition prev + zlen (oldText prev)) with (oldPosition curr) by lia;
    replace (newPosition prev + zlen (newText prev)) with (newPosition curr) by lia.
Qed.

Lemma merge_from_rewrites prev es o n d d' :
  rewrites (prev :: es) o n d d' -> rewrites (merge_from prev es) o n d d'.
Proof.
  revert prev o n d d'. induction es as [|curr es IH]; intros prev o n d d'; [done|].
  intros (g & r & r' & -> & -> & Ho & Hn & Hr). simpl.
  destruct (Z.eqb_spec (oldEnd prev) (oldPosition curr)) as [E|].
  - apply IH. apply rewrites_touching; [done|]. by exists g, r, r'.
  - exists g, r, r'. split_and!; try done. by apply IH.
Qed.

Lemma merge_rewrites es o n d d' : rewrites es o n d d' -> rewrites (merge es) o n d d'.
Proof. destruct es; [done|]. apply merge_from_rewrites. Qed.

Lemma removeNoOps_rewrites es o n d d' :
  rewrites es o n d d' -> rewrites (removeNoOps es) o n d d'.
Proof.
  unfold removeNoOps. revert o n d d'. induction es as [|e es IH]; intros o n d d'; [done|].
  intros (g & r & r' & -> & -> & Ho & Hn & Hr). rewrite filter_cons. case_decide as Hne.
  - exists g, r, r'. split_and!; try done. by apply IH.
  - assert (E : oldText e = newText e) by (destruct (decide (oldText e = newText e)); done).
    rewrite E, !app_assoc. apply rewrites_skip. rewrite zlen_app. apply IH.
    unfold oldEnd, newEnd in Hr. rewrite E, Ho, Hn in Hr. by rewrite !Z.add_assoc.
Qed.

(** Changes that are apart: each starts after the end of the one before. *)
Fixpoint apart (o : Z) (es : list TextChange) : Prop :=
  match es with [] => True | e :: es' => o < oldPosition e /\ apart (oldEnd e) es' end.

Lemma merge_from_apart prev es o n d d' :
  rewrites (prev :: es) o n d d' ->
  match merge_from prev es with
  | e :: es' => oldPosition e = oldPosition prev /\ apart (oldEnd e) es'
  | [] => False
  end.
Proof.
  revert prev o n d d'. induction es as [|curr es IH]; intros prev o n d d'; [done|].
  intros (g & r & r' & -> & -> & Ho & Hn & Hr). simpl.
  destruct (Z.eqb_spec (oldEnd prev) (oldPosition curr)) as [E|].
  - refine (IH (mkTextChange _ _ _ _) o n _ _ (rewrites_touching _ _ _ _ _ _ _ E _)).
    by exists g, r, r'.
  - split; [done|]. specialize (IH _ _ _ _ _ Hr). destruct (merge_from curr es) as [|e es']; [done|].
    destruct IH as [IHe IHa]. simpl. rewrite IHe. split; [|done].
    destruct Hr as (g' & q & q' & _ & _ & Ho' & _). pose proof (zlen_nonneg g'). lia.
Qed.

Lemma removeNoOps_compact es o o' :
  apart o es -> o' <= o -> compact o' (removeNoOps es).
Proof.
  unfold removeNoOps. revert o o'. induction es as [|e es IH]; intros o o'; [done|].
  intros [? Ha] ?. rewrite filter_cons. case_decide.
  - split_and!; [lia|done|]. by eapply IH.
  - eapply IH; [exact Ha|]. unfold oldEnd. pose proof (zlen_nonneg (oldText e)). lia.
Qed.

Lemma merge_from_edges stop prev es o n d d' D D' : rewrites (prev :: es) o n d d' -> Forall (edges stop D D') (prev :: es) -> Forall (edges stop D D') (merge_from prev es).
Proof.
  revert prev o n d d'. induction es as [|curr es IH]; intros prev o n d d'; [done|].
  intros Hr [Kp [Kc K]%Forall_cons]%Forall_cons. simpl. destruct (Z.eqb_spec (oldEnd prev) (oldPosition curr)) as [E|].
  - refine (IH (mkTextChange _ _ _ _) o n _ _ (rewrites_touching _ _ _ _ _ _ _ E Hr) _). constructor; [|done].
    destruct Hr as (g & r & r' & -> & -> & Ho & Hn & g' & q & q' & -> & -> & Ho' & Hn' & _). destruct Kp as (K1 & K2 & K3 & K4), Kc as (K5 & K6 & K7 & K8).
    unfold edges, oldEnd, newEnd in *. simpl. rewrite !zlen_app, !Z.add_assoc. split; [done|]. split; [by rewrite E|]. split; [done|].
    by replace (newPosition prev + zlen (newText prev)) with (newPosition curr) by lia.
  - constructor; [done|]. destruct Hr as (g & r & r' & _ & _ & _ & _ & Hr). eapply IH; [exact Hr|by constructor].
Qed.

(** The composition of two edit lists whose changes end at cuts; its changes do, too. *)
Lemma compress_cuts stop prevs currs d0 d1 d2 :
  rewrites prevs 0 0 d0 d1 -> rewrites currs 0 0 d1 d2 -> Forall (edges stop d0 d1) prevs -> Forall (edges stop d1 d2) currs ->
  rewrites (compress prevs currs) 0 0 d0 d2 /\ compact (-1) (compress prevs currs) /\ Forall (edges stop d0 d2) (compress prevs currs).
Proof.
  intros HP HC KP KC. assert (exists res, compress prevs currs = removeNoOps (merge res) /\
    rewrites res 0 0 d0 d2 /\ Forall (edges stop d0 d2) res) as (res & -> & Hres & Kres).
  { unfold compress. eexists. split; [done|].
    while_inv (inv stop prevs currs d0 d1 d2) (measure prevs currs) as [HI Hc].
    - by apply step_inv.
    - assert (Hidx : forall es, index_ok (getAt es 0) 0 es) by (intros; by apply index_ok_getAt).
      split; [apply Hidx|]. split; [apply Hidx|]. exists 0, 0, 0, d0, d1, d2. unfold rest_ok, cuts_ok, cursor. simpl.
      rewrite !left_getAt by lia. split_and!; try done; by exists [].
    - unfold measure. simpl. rewrite !left_getAt by lia. rewrite !drop_0. done.
    - destruct HI as ([_ [_ Hp]] & [_ [_ Hq]] & o & m & n & s0 & s1 & s2 & HPl & HCl & _ & _ & Hout & _ & _ & _ & Kr).
      apply orb_false_iff in Hc as [Hc1 Hc2]. split; [|done].
      rewrite Hp in HPl by lia. rewrite Hq in HCl by lia. unfold left_ in *. simpl in HPl, HCl.
      simpl in *. subst. specialize (Hout [] eq_refl). by rewrite app_nil_r in Hout. }
  split; [by apply removeNoOps_rewrites, merge_rewrites|].
  destruct res as [|e res]; [done|]. pose proof (merge_from_apart _ _ _ _ _ _ Hres) as Ha. pose proof (merge_from_edges stop _ _ _ _ _ _ d0 d2 Hres Kres) as Km.
  split; [|apply Forall_forall; intros x [_ Hx]%list_elem_of_filter; rewrite Forall_forall in Km; by apply Km].
  unfold merge. destruct (merge_from e res) as [|e' es]; [done|]. destruct Ha as [He Ha].
  apply (removeNoOps_compact _ (-1)); [|lia]. split; [|done].
  destruct Hres as (g & r & r' & _ & _ & Ho & _). pose proof (zlen_nonneg g). lia.
Qed.

Lemma compress_ok prevs currs d0 d1 d2 :
  rewrites prevs 0 0 d0 d1 -> rewrites currs 0 0 d1 d2 ->
  rewrites (compress prevs currs) 0 0 d0 d2 /\ compact (-1) (compress prevs currs).
Proof.
  intros HP HC. assert (Hall : forall d d' es, Forall (edges (fun _ => false) d d') es) by (intros d d' es; apply Forall_true; intros e; unfold edges, cut_at; by split_and!).
  by destruct (compress_cuts (fun _ => false) prevs currs d0 d1 d2 HP HC (Hall _ _ _) (Hall _ _ _)) as (H1 & H2 & _).
Qed.



(** ** Writing and reading back *)

Definition be32 (v : Z) : list Z :=
  [Z.shiftr v 24 mod 256; Z.shiftr v 16 mod 256; Z.shiftr v 8 mod 256; v mod 256].

Definition le16 (c : Z) : list Z := [c mod 256; Z.shiftr c 8 mod 256].

Definition string_bytes (str : jsstr) : list Z := be32 (zlen str) ++ (str ≫= le16).

Definition change_bytes (e : TextChange) : list Z :=
  be32 (oldPosition e) ++ be32 (newPosition e) ++ string_bytes (oldText e) ++ string_bytes (newText e).

Definition code_unit (c : Z) : Prop := 0 <= c < 2 ^ 16.

Lemma put8_app pre x post v i :
  i = zlen pre -> put8 (pre ++ x :: post) i v = pre ++ v mod 256 :: post.
Proof.
  intros ->. unfold put8, set_at. destruct (Z.ltb_spec (zlen pre) 0); [pose proof (zlen_nonneg pre); lia|].
  unfold zlen. rewrite Nat2Z.id. by rewrite insert_app_r_alt, Nat.sub_diag by done.
Qed.

Lemma zlen_le16s str : zlen (str ≫= le16) = 2 * zlen str.
Proof. induction str as [|c str IH]; [done|]. rewrite bind_cons, zlen_app, zlen_cons, IH. unfold zlen. simpl. lia. Qed.

Lemma writeUInt32BE_app pre old post v :
  is_uint32 v -> zlen old = 4 ->
  writeUInt32BE (pre ++ old ++ post) v (zlen pre) = pre ++ be32 v ++ post.
Proof.
  intros Hv Hold. destruct old as [|a [|b [|c [|d [|]]]]]; unfold zlen in Hold; simpl in Hold; try lia.
  unfold writeUInt32BE. cbn [app].
  assert (E : forall k, 0 <= k -> to_uint32w (Z.shiftr v k) = Z.shiftr v k).
  { intros k Hk. apply to_uint32w_id. unfold is_uint32 in *. rewrite Z.shiftr_div_pow2 by done.
    pose proof (Z.pow_pos_nonneg 2 k ltac:(lia) Hk). split; [apply Z.div_pos; lia|].
    apply Z.le_lt_trans with v; [|lia]. apply Z.div_le_upper_bound; [lia|nia]. }
  rewrite (to_uint32w_id v Hv), E, !Z.shiftr_shiftr, E, !Z.shiftr_shiftr by lia. simpl (_ + _).
  change (pre ++ a :: b :: c :: d :: post) with (pre ++ [a; b; c] ++ d :: post).
  rewrite (app_assoc pre), put8_app by (rewrite zlen_app; done). rewrite <- app_assoc.
  change (pre ++ [a; b; c] ++ v mod 256 :: post) with (pre ++ [a; b] ++ c :: v mod 256 :: post).
  rewrite (app_assoc pre), put8_app by (rewrite zlen_app; done). rewrite <- app_assoc.
  change (pre ++ [a; b] ++ Z.shiftr v 8 mod 256 :: v mod 256 :: post)
    with (pre ++ [a] ++ b :: Z.shiftr v 8 mod 256 :: v mod 256 :: post).
  rewrite (app_assoc pre), put8_app by (rewrite zlen_app; done). rewrite <- app_assoc.
  cbn [app]. by rewrite put8_app.
Qed.

Lemma readUInt32BE_app pre v post :
  is_uint32 v -> readUInt32BE (pre ++ be32 v ++ post) (zlen pre) = Some v.
Proof.
  intros Hv. unfold readUInt32BE. rewrite <- (Z.add_0_r (zlen pre)) at 1.
  rewrite !at_app_zlen by lia. unfold at_. simpl. f_equal.
  rewrite !Z.shiftr_div_pow2 by lia. unfold is_uint32 in Hv. Z.div_mod_to_equations. lia.
Qed.

Lemma writeUInt16LE_app pre old post c :
  code_unit c -> zlen old = 2 ->
  writeUInt16LE (pre ++ old ++ post) c (zlen pre) = pre ++ le16 c ++ post.
Proof.
  intros Hc Hold. destruct old as [|a [|b [|]]]; unfold zlen in Hold; simpl in Hold; try lia.
  unfold writeUInt16LE. cbn [app]. rewrite put8_app by done.
  change 255 with (Z.ones 8). rewrite !Z.land_ones by lia. change (2 ^ 8) with 256.
  rewrite to_uint32w_id by (unfold code_unit, is_uint32 in *; lia).
  rewrite cons_middle, app_assoc, put8_app by (rewrite zlen_app; done).
  rewrite <- app_assoc, !Z.mod_mod by lia. done.
Qed.

(** The low byte and the shifted high byte share no bit. *)
Lemma lor_bytes a b : Z.lor (a mod 256) (Z.shiftl b 8) = a mod 256 + b * 256.
Proof.
  assert (Hland : Z.land (a mod 256) (Z.shiftl b 8) = 0).
  { apply Z.bits_inj'. intros n Hn. rewrite Z.land_spec, Z.bits_0.
    destruct (Z.lt_ge_cases n 8).
    - by rewrite Z.shiftl_spec_low, andb_false_r by done.
    - change 256 with (2 ^ 8). by rewrite Z.mod_pow2_bits_high by lia. }
  pose proof (Z.add_lor_land (a mod 256) (Z.shiftl b 8)) as E.
  rewrite Hland, Z.shiftl_mul_pow2 in E by lia. rewrite Z.shiftl_mul_pow2 by lia. lia.
Qed.

Lemma readUInt16LE_app pre c post :
  code_unit c -> readUInt16LE (pre ++ le16 c ++ post) (zlen pre) = c.
Proof.
  intros Hc. unfold readUInt16LE. rewrite <- (Z.add_0_r (zlen pre)) at 1.
  rewrite !at_app_zlen by lia. unfold at_. simpl. unfold id, code_unit in *.
  assert (Hh : Z.shiftr c 8 mod 256 = c / 256).
  { rewrite Z.shiftr_div_pow2 by lia. apply Z.mod_small. Z.div_mod_to_equations. lia. }
  rewrite Hh, !to_int32_id, !to_uint32w_id, lor_bytes;
    unfold is_int32, is_uint32; rewrite ?Z.shiftl_mul_pow2 by lia; Z.div_mod_to_equations; lia.
Qed.

Lemma writeString_app pre old post str :
  Forall code_unit str -> zlen str < 2 ^ 32 -> zlen old = writeStringSize str ->
  writeString (pre ++ old ++ post) str (zlen pre) =
    (pre ++ string_bytes str ++ post, zlen pre + writeStringSize str).
Proof.
  intros Hstr Hlen Hold. unfold writeStringSize in *. pose proof (zlen_nonneg str).
  rewrite <- (take_drop 4 old) in Hold |- *.
  assert (Ht : zlen (take 4 old) = 4).
  { unfold zlen in *. rewrite length_app in Hold. rewrite !length_take, length_drop in *. lia. }
  rewrite zlen_app, Ht in Hold. unfold writeString, string_bytes.
  rewrite <- !app_assoc, writeUInt32BE_app by (unfold is_uint32; lia || done).
  assert (Hrest : zlen (drop 4 old) = 2 * zlen str) by lia. revert Hrest.
  generalize (drop 4 old) as rest. intros rest Hrest. clear Hold Ht old.
  set (pre' := pre ++ be32 (zlen str)).
  replace (zlen pre + 4) with (zlen pre') by (unfold pre'; by rewrite zlen_app).
  rewrite !(app_assoc pre (be32 _)). fold pre'.
  replace (zlen pre + (4 + 2 * zlen str)) with (zlen pre' + 2 * zlen str)
    by (unfold pre'; rewrite zlen_app; change (zlen (be32 (zlen str))) with 4; lia).
  clearbody pre'. clear pre Hlen. revert pre' rest Hrest.
  induction Hstr as [|c str Hc Hstr IH]; intros pre rest Hrest.
  - assert (rest = []) as -> by (apply length_zero_iff_nil; unfold zlen in *; simpl in *; lia).
    simpl. f_equal. unfold zlen. simpl. lia.
  - rewrite zlen_cons in Hrest |- *. pose proof (zlen_nonneg str).
    destruct rest as [|x [|y rest]]; [unfold zlen in *; simpl in *; lia..|].
    cbn [fold_left].
    change (pre ++ (x :: y :: rest) ++ post) with (pre ++ [x; y] ++ rest ++ post).
    rewrite writeUInt16LE_app, app_assoc by done.
    replace (zlen pre + 2) with (zlen (pre ++ le16 c)) by (by rewrite zlen_app).
    rewrite IH by (try done; rewrite !zlen_cons in Hrest; lia).
    rewrite bind_cons, zlen_app, <- !app_assoc. f_equal. change (zlen (le16 c)) with 2. lia.
Qed.

(** ** Reading *)

(** The code units of a string as the reader sees them through either decoder. *)
Lemma view_units pre str post :
  Forall code_unit str ->
  ((fun i => readUInt16LE (pre ++ (str ≫= le16) ++ post) (zlen pre + 2 * i)) <$> zrange 0 (zlen str))
  = str.
Proof.
  intros Hstr. revert pre. induction Hstr as [|c str Hc Hstr IH]; intros pre; [done|].
  rewrite zlen_cons, zrange_cons by (pose proof (zlen_nonneg str); lia).
  rewrite bind_cons, <- app_assoc. cbn [fmap list_fmap]. f_equal.
  - rewrite Z.mul_0_r, Z.add_0_r. by apply readUInt16LE_app.
  - rewrite <- (IH (pre ++ le16 c)) at 2. unfold zrange. rewrite <- !list_fmap_compose.
    replace (zlen str + 1 - (0 + 1)) with (zlen str - 0) by lia.
    apply list_fmap_ext. intros _ k _. unfold compose. rewrite <- app_assoc. f_equal.
    rewrite zlen_app. change (zlen (le16 c)) with 2. lia.
Qed.

Lemma compat_units pre str post :
  Forall code_unit str ->
  compatDecodeUTF16LE (pre ++ (str ≫= le16) ++ post) (zlen pre) (zlen str) = str.
Proof.
  intros Hstr. unfold compatDecodeUTF16LE.
  assert (G : forall b l res off, fold_left (fun '(result, offset) (_ : Z) =>
      (result ++ [readUInt16LE b offset], offset + 2)) l (res, off) =
    (res ++ ((fun k => readUInt16LE b (off + 2 * Z.of_nat k)) <$> seq 0 (length l)),
     off + 2 * zlen l)).
  { intros b l. induction l as [|x l IH]; intros res off; simpl; [by rewrite app_nil_r, Z.add_0_r|].
    rewrite IH, <- app_assoc. f_equal; [|rewrite zlen_cons; lia]. f_equal. simpl. f_equal; [f_equal; lia|].
    rewrite <- seq_shift, <- list_fmap_compose. apply list_fmap_ext. intros _ k _. simpl. f_equal. lia. }
  rewrite G. simpl. rewrite <- (view_units pre str post Hstr) at 2. unfold zrange.
  rewrite length_fmap, length_seq, <- list_fmap_compose. apply list_fmap_ext.
  done.
Qed.

Definition starts_with_bom (s : jsstr) : bool :=
  match s with c :: _ => (c =? 65279) || (c =? 65534) | [] => false end.

Definition is_high (c : Z) : bool := (55296 <=? c) && (c <? 56320).
Definition is_low (c : Z) : bool := (56320 <=? c) && (c <? 57344).

(** Every surrogate is part of a pair. *)
Fixpoint well_formed (s : jsstr) : bool :=
  match s with
  | [] => true
  | c :: s' =>
      if is_high c then match s' with d :: s'' => is_low d && well_formed s'' | [] => false end
      else negb (is_low c) && well_formed s'
  end.

Section roundtrip.
Context (decode : list Z -> jsstr).

(** [TextDecoder] restores well-formed text; it is only asked to when there is no byte
    order mark in front, which it would eat up. *)
Hypothesis decode_ok :
  forall s, well_formed s = true -> starts_with_bom s = false -> decode s = s.

Definition text_ok (s : jsstr) : Prop :=
  Forall code_unit s /\ zlen s < 2 ^ 32 /\ (well_formed s = true \/ starts_with_bom s = true).

Lemma decodeUTF16LE_app pre str post :
  text_ok str -> zlen pre mod 2 = 0 ->
  decodeUTF16LE decode (pre ++ (str ≫= le16) ++ post) (zlen pre) (zlen str) = Ok str.
Proof.
  intros (Hu & Hl & Hok) Heven. unfold decodeUTF16LE, new_Uint16Array. rewrite Heven. simpl negb.
  pose proof (zlen_nonneg pre). pose proof (zlen_nonneg post).
  rewrite !zlen_app, zlen_le16s.
  destruct (Z.ltb_spec (zlen pre) 0); [lia|].
  destruct (Z.gtb_spec (zlen pre + 2 * zlen str) (zlen pre + (2 * zlen str + zlen post))); [lia|].
  cbn [negb orb result_bind]. rewrite view_units, compat_units by done.
  destruct str as [|c str]; [by rewrite decode_ok|].
  rewrite zlen_cons. pose proof (zlen_nonneg str). destruct (Z.gtb_spec (zlen str + 1) 0); [|lia].
  change ((c :: str).[0]) with (Some c). cbn [andb].
  destruct (_ || _) eqn:E; [done|]. f_equal. apply decode_ok; [|exact E].
  destruct Hok as [?|Hb]; [done|]. simpl in Hb. congruence.
Qed.

Lemma readString_app pre str post :
  text_ok str -> zlen pre mod 2 = 0 ->
  readString decode (pre ++ string_bytes str ++ post) (zlen pre) = Ok str.
Proof.
  intros Hok Heven. unfold readString, string_bytes. rewrite <- !app_assoc.
  rewrite readUInt32BE_app by (destruct Hok as (_ & ? & _); pose proof (zlen_nonneg str); by unfold is_uint32).
  simpl default. unfold id. rewrite (app_assoc pre).
  replace (zlen pre + 4) with (zlen (pre ++ be32 (zlen str))) by (by rewrite zlen_app).
  apply decodeUTF16LE_app; [done|]. rewrite zlen_app. change (zlen (be32 (zlen str))) with 4.
  by rewrite <- (Z.add_mod_idemp_l _ 4), Heven by lia.
Qed.

Definition change_ok (e : TextChange) : Prop :=
  is_uint32 (oldPosition e) /\ is_uint32 (newPosition e) /\ text_ok (oldText e) /\ text_ok (newText e).

Lemma zlen_string_bytes str : zlen (string_bytes str) = writeStringSize str.
Proof. unfold string_bytes, writeStringSize. by rewrite zlen_app, zlen_le16s. Qed.

Lemma write_app pre old post e :
  change_ok e -> zlen old = writeSize e ->
  write e (pre ++ old ++ post) (zlen pre) =
    (pre ++ change_bytes e ++ post, zlen pre + writeSize e).
Proof.
  intros (Ho & Hn & Hot & Hnt) Hold. unfold writeSize, write in *.
  assert (exists o1 o2 o3 o4, old = o1 ++ o2 ++ o3 ++ o4 /\ zlen o1 = 4 /\ zlen o2 = 4 /\
    zlen o3 = writeStringSize (oldText e) /\ zlen o4 = writeStringSize (newText e))
    as (o1 & o2 & o3 & o4 & -> & H1 & H2 & H3 & H4).
  { unfold writeStringSize in *. pose proof (zlen_nonneg (oldText e)). pose proof (zlen_nonneg (newText e)).
    exists (take 4 old), (take 4 (drop 4 old)),
      (take (Z.to_nat (4 + 2 * zlen (oldText e))) (drop 4 (drop 4 old))),
      (drop (Z.to_nat (4 + 2 * zlen (oldText e))) (drop 4 (drop 4 old))).
    rewrite !take_drop. unfold zlen in *. rewrite !length_take, !length_drop. split_and!; try done; lia. }
  unfold change_bytes. rewrite <- !app_assoc, writeUInt32BE_app by done. rewrite (app_assoc pre).
  replace (zlen pre + 4) with (zlen (pre ++ be32 (oldPosition e))) by (by rewrite zlen_app).
  rewrite writeUInt32BE_app by done. rewrite (app_assoc (pre ++ _)).
  rewrite <- (Z.add_comm 4), (Z.add_comm 4), <- (zlen_app _ (be32 (newPosition e)) : _ = _ + 4).
  destruct Hot as (? & ? & _), Hnt as (? & ? & _).
  rewrite writeString_app by done. rewrite (app_assoc (_ ++ be32 (newPosition e))).
  rewrite <- zlen_string_bytes, <- zlen_app, writeString_app by (rewrite ?zlen_string_bytes; done).
  rewrite !zlen_app, !zlen_string_bytes, <- !app_assoc. f_equal.
  change (zlen (be32 (oldPosition e))) with 4. change (zlen (be32 (newPosition e))) with 4. lia.
Qed.

Lemma read_app pre e post dest :
  change_ok e -> zlen pre mod 2 = 0 ->
  read decode (pre ++ change_bytes e ++ post) (zlen pre) dest =
    Ok (zlen pre + writeSize e, dest ++ [e]).
Proof.
  intros (Ho & Hn & Hot & Hnt) Heven. unfold read, change_bytes. rewrite <- !app_assoc.
  rewrite readUInt32BE_app by done. rewrite (app_assoc pre).
  replace (zlen pre + 4) with (zlen (pre ++ be32 (oldPosition e))) by (by rewrite zlen_app).
  rewrite readUInt32BE_app by done. rewrite (app_assoc (pre ++ _)).
  set (pre' := (pre ++ _) ++ _).
  assert (Hpre' : zlen pre' = zlen pre + 8).
  { unfold pre'. rewrite !zlen_app. change (zlen (be32 (oldPosition e))) with 4.
    change (zlen (be32 (newPosition e))) with 4. lia. }
  rewrite zlen_app. change (zlen (be32 (oldPosition e))) with 4.
  replace (zlen pre + 4 + 4) with (zlen pre') by lia.
  assert (Hmod : forall k, (zlen pre + 2 * k) mod 2 = 0).
  { intros k. rewrite (Z.mul_comm 2), Z.mod_add by lia. done. }
  rewrite readString_app; [|done|rewrite Hpre'; apply (Hmod 4)]. cbn [result_bind].
  rewrite (app_assoc pre'), <- zlen_string_bytes, <- zlen_app, readString_app; [|done|].
  - cbn [result_bind from_option]. unfold id, writeSize. rewrite !zlen_app, !zlen_string_bytes, Hpre'.
    destruct e. simpl. do 2 f_equal. lia.
  - rewrite zlen_app, zlen_string_bytes, Hpre'. unfold writeStringSize.
    replace (zlen pre + 8 + (4 + 2 * zlen (oldText e))) with (zlen pre + 2 * (6 + zlen (oldText e))) by lia.
    apply Hmod.
Qed.
End roundtrip.

(** Writing a change at an even offset fills exactly [writeSize] bytes and leaves the
    others, and reading there gives the change back and the offset after it, for every
    decoder that restores well-formed text. *)
Theorem write_read_roundtrip decode e pre old post dest :
  (forall s, well_formed s = true -> starts_with_bom s = false -> decode s = s) ->
  change_ok e -> zlen pre mod 2 = 0 -> zlen old = writeSize e ->
  let '(b, offset) := write e (pre ++ old ++ post) (zlen pre) in
  b = pre ++ change_bytes e ++ post /\ zlen (change_bytes e) = writeSize e /\
  offset = zlen pre + writeSize e /\
  read decode b (zlen pre) dest = Ok (offset, dest ++ [e]).
Proof.
  intros Hdec He Heven Hold. rewrite write_app by done. split_and!; try done.
  - unfold change_bytes, writeSize. rewrite !zlen_app, !zlen_string_bytes.
    change (zlen (be32 (oldPosition e))) with 4. change (zlen (be32 (newPosition e))) with 4. lia.
  - by apply read_app.
Qed.

(** The decoder of the Encoding standard: it eats a byte order mark and replaces every lone
    surrogate by U+FFFD. *)
Fixpoint replace_lone (s : jsstr) : jsstr :=
  match s with
  | [] => []
  | c :: s' =>
      if is_high c then
        match s' with
        | d :: s'' => if is_low d then c :: d :: replace_lone s'' else 65533 :: replace_lone s'
        | [] => [65533]
        end
      else if is_low c then 65533 :: replace_lone s'
      else c :: replace_lone s'
  end.

Definition utf16_decode (s : list Z) : jsstr :=
  replace_lone match s with c :: s' => if c =? 65279 then s' else s | [] => [] end.

Lemma replace_lone_wf n s : (length s <= n)%nat -> well_formed s = true -> replace_lone s = s.
Proof.
  revert s. induction n as [|n IH]; intros [|c s] Hn Hw; simpl in *; try done; [lia|].
  destruct (is_high c).
  - destruct s as [|d s]; [done|]. apply andb_true_iff in Hw as [-> Hw].
    f_equal. f_equal. apply IH; [simpl in *; lia|done].
  - apply andb_true_iff in Hw as [Hl%negb_true_iff Hw]. rewrite Hl. f_equal. apply IH; [lia|done].
Qed.

Lemma utf16_decode_ok s : well_formed s = true -> starts_with_bom s = false -> utf16_decode s = s.
Proof.
  intros Hw Hb. unfold utf16_decode. destruct s as [|c s]; [done|]. simpl in Hb.
  apply orb_false_iff in Hb as [-> _]. by eapply replace_lone_wf.
Qed.

Lemma write_read_roundtrip_witness :
  let e := mkTextChange 300 [97; 55357; 56832] 7 [65279; 98] in
  let '(b, offset) := write e (replicate 30 0) 2 in
  offset = 28 /\ read utf16_decode b 2 [] = Ok (offset, [e]).
Proof.
  assert (Hok : change_ok (mkTextChange 300 [97; 55357; 56832] 7 [65279; 98])).
  { unfold change_ok, text_ok, is_uint32, code_unit, zlen. simpl.
    split_and!; try lia; try (repeat constructor; lia); by auto. }
  pose proof (write_read_roundtrip utf16_decode (mkTextChange 300 [97; 55357; 56832] 7 [65279; 98])
    [0; 0] (replicate 26 0) (replicate 2 0) [] utf16_decode_ok Hok eq_refl eq_refl) as H.
  cbv zeta. change (replicate 30 0) with ([0; 0] ++ replicate 26 0 ++ replicate 2 0).
  change 2 with (zlen [0; 0]). destruct (write _ _ _) as [b offset].
  destruct H as (_ & _ & Hoff & Hr). split; [rewrite Hoff; reflexivity | exact Hr].
Defined.

(** A text with half a pair, which an edit inside an emoji makes, is not read back. *)
Lemma lone_surrogate_lost :
  let e := mkTextChange 0 [] 0 [55357] in
  read utf16_decode (write e (replicate 18 0) 0).1 0 [] = Ok (18, [mkTextChange 0 [] 0 [65533]]).
Proof. reflexivity. Qed.
