(* ===== verification/Length.v ===== *)
(** * Lengths of text as one number

    [src/src/vs/editor/common/model/bracketPairsTextModelPart/bracketPairsTree/length.ts]:
    [LengthObj], a line count and a column count, and [Length], the same packed in one
    number with 26 bits for the column.  The packed operations are proved to be those of
    [LengthObj], and the length of a text to be additive. *)

From S2P Require Import Prelude Position TextRange.

#[local] Open Scope js_scope.

Record LengthObj : Type := mkLengthObj { lineCount : Z; columnCount : Z }.

#[export] Instance LengthObj_eq_dec : EqDecision LengthObj.
Proof. solve_decision. Defined.

Definition factor : Z := 2 ^ 26.

(** [Length]; every value of the program is below 2^52, exact as a double. *)
Definition Length : Type := Z.

Definition toLength (lineCount columnCount : Z) : Length := lineCount * factor + columnCount.

Module LO.

Definition zero : LengthObj := mkLengthObj 0 0.

Definition isLessThan (this other : LengthObj) : bool :=
  if negb (lineCount this =? lineCount other) then lineCount this <? lineCount other
  else columnCount this <? columnCount other.

Definition isGreaterThan (this other : LengthObj) : bool :=
  if negb (lineCount this =? lineCount other) then lineCount this >? lineCount other
  else columnCount this >? columnCount other.

Definition lengthDiffNonNegative (start end_ : LengthObj) : LengthObj :=
  if isLessThan end_ start then zero
  else if lineCount start =? lineCount end_
       then mkLengthObj 0 (columnCount end_ - columnCount start)
       else mkLengthObj (lineCount end_ - lineCount start) (columnCount end_).

Definition isZero (this : LengthObj) : bool := (lineCount this =? 0) && (columnCount this =? 0).

Definition toLength (this : LengthObj) : Length := Length.toLength (lineCount this) (columnCount this).

Definition equals (this other : LengthObj) : bool :=
  (lineCount this =? lineCount other) && (columnCount this =? columnCount other).

Definition compare (this other : LengthObj) : Z :=
  if negb (lineCount this =? lineCount other) then lineCount this - lineCount other
  else columnCount this - columnCount other.

Definition add (this other : LengthObj) : LengthObj :=
  if lineCount other =? 0
  then mkLengthObj (lineCount this) (columnCount this + columnCount other)
  else mkLengthObj (lineCount this + lineCount other) (columnCount other).

End LO.

Definition lengthDiff (startLineCount startColumnCount endLineCount endColumnCount : Z) : Length :=
  if negb (startLineCount =? endLineCount)
  then toLength (endLineCount - startLineCount) endColumnCount
  else toLength 0 (endColumnCount - startColumnCount).

Definition lengthZero : Length := 0.

Definition lengthIsZero (length : Length) : bool := length =? 0.

(** [Math.floor(l / factor)]: dividing a double by a power of two is exact. *)
Definition lengthToObj (length : Length) : LengthObj :=
  let l := length in
  let lineCount := l / factor in
  let columnCount := l - lineCount * factor in
  mkLengthObj lineCount columnCount.

Definition lengthGetLineCount (length : Length) : Z := length / factor.

Definition lengthGetColumnCountIfZeroLineCount (length : Length) : Z := length.

Definition lengthAdd (l1 l2 : Length) : Length :=
  let r := l1 + l2 in
  if l2 >=? factor then r - Z.rem l1 factor else r.

Definition sumLengths {T} (items : list T) (lengthFn : T -> Length) : Length :=
  fold_left (fun a b => lengthAdd a (lengthFn b)) items lengthZero.

Definition lengthEquals (length1 length2 : Length) : bool := length1 =? length2.

Definition lengthDiffNonNegative (length1 length2 : Length) : Length :=
  let l1 := length1 in
  let l2 := length2 in
  let diff := l2 - l1 in
  if diff <=? 0 then lengthZero
  else
    let lineCount1 := l1 / factor in
    let lineCount2 := l2 / factor in
    let colCount2 := l2 - lineCount2 * factor in
    if lineCount1 =? lineCount2 then
      let colCount1 := l1 - lineCount1 * factor in
      toLength 0 (colCount2 - colCount1)
    else toLength (lineCount2 - lineCount1) colCount2.

Definition lengthLessThan (length1 length2 : Length) : bool := length1 <? length2.
Definition lengthLessThanEqual (length1 length2 : Length) : bool := length1 <=? length2.
Definition lengthGreaterThanEqual (length1 length2 : Length) : bool := length1 >=? length2.

Definition lengthToPosition (length : Length) : Position :=
  let l := length in
  let lineCount := l / factor in
  let colCount := l - lineCount * factor in
  mkPosition (lineCount + 1) (colCount + 1).

Definition positionToLength (position : Position) : Length :=
  toLength (lineNumber position - 1) (column position - 1).

Definition lengthsToRange (lengthStart lengthEnd : Length) : Range :=
  let l := lengthStart in
  let lineCount := l / factor in
  let colCount := l - lineCount * factor in
  let l2 := lengthEnd in
  let lineCount2 := l2 / factor in
  let colCount2 := l2 - lineCount2 * factor in
  Rng.new_Range (lineCount + 1) (colCount + 1) (lineCount2 + 1) (colCount2 + 1).

Definition lengthOfRange (range : Range) : LengthObj :=
  if startLineNumber range =? endLineNumber range
  then mkLengthObj 0 (endColumn range - startColumn range)
  else mkLengthObj (endLineNumber range - startLineNumber range) (endColumn range - 1).

Definition lengthCompare (length1 length2 : Length) : Z := length1 - length2.

(** [splitLines(str)], [str.split(/\r\n|\r|\n/)] over the code units of [str]; [line] is
    the line being read. *)
Fixpoint split_from (line : list Z) (str : list Z) : list (list Z) :=
  match str with
  | [] => [line]
  | c :: str' =>
      if c =? 13 then
        match str' with
        | d :: str'' => if d =? 10 then line :: split_from [] str'' else line :: split_from [] str'
        | [] => line :: split_from [] str'
        end
      else if c =? 10 then line :: split_from [] str'
      else split_from (line ++ [c]) str'
  end.

Definition splitLines (str : list Z) : list (list Z) := split_from [] str.

Definition lengthOfString (str : list Z) : Length :=
  let lines := splitLines str in
  toLength (zlen lines - 1) (zlen (default [] (lines.[zlen lines - 1]))).

Definition lengthOfStringObj (str : list Z) : LengthObj :=
  let lines := splitLines str in
  mkLengthObj (zlen lines - 1) (zlen (default [] (lines.[zlen lines - 1]))).

Definition lengthHash (length : Length) : Z := length.

Definition lengthMax (length1 length2 : Length) : Length :=
  if length1 >? length2 then length1 else length2.

(** ** Packing *)

(** What fits: both counts in 26 bits. *)
Definition fits (o : LengthObj) : Prop :=
  0 <= lineCount o < factor /\ 0 <= columnCount o < factor.

(** What a length is unpacked to needs no upper bound on the lines. *)
Definition is_length (l : Length) : Prop := 0 <= l.

Lemma unpack l c : 0 <= c < factor -> toLength l c / factor = l /\ toLength l c mod factor = c.
Proof.
  unfold toLength, factor. intros.
  split; [rewrite Z.div_add_l, Z.div_small by lia; lia|].
  by rewrite Z.add_comm, Z.mod_add, Z.mod_small by lia.
Qed.

Lemma lengthToObj_eq l : lengthToObj l = mkLengthObj (l / factor) (l mod factor).
Proof. unfold lengthToObj, factor. f_equal. rewrite Z.mod_eq by lia. lia. Qed.

Lemma lengthToObj_toLength l c : 0 <= c < factor -> lengthToObj (toLength l c) = mkLengthObj l c.
Proof. intros Hc. rewrite lengthToObj_eq. by destruct (unpack l c Hc) as [-> ->]. Qed.

Lemma toLength_lengthToObj l : LO.toLength (lengthToObj l) = l.
Proof. unfold LO.toLength, toLength, lengthToObj. simpl. lia. Qed.

(** Every length is a packed pair; the proofs unpack. *)
Lemma length_cases l :
  is_length l -> exists n c, l = toLength n c /\ 0 <= n /\ 0 <= c < factor.
Proof.
  unfold is_length, toLength, factor. intros. exists (l / 2 ^ 26), (l mod 2 ^ 26).
  Z.div_mod_to_equations. lia.
Qed.

Lemma toLength_order n c n' c' :
  0 <= c < factor -> 0 <= c' < factor ->
  (toLength n c <= toLength n' c' <-> n < n' \/ n = n' /\ c <= c') /\
  (toLength n c < toLength n' c' <-> n < n' \/ n = n' /\ c < c') /\
  (toLength n c = toLength n' c' <-> n = n' /\ c = c').
Proof. unfold toLength, factor. intros. split_and!; split; intros; nia || lia. Qed.

Lemma lengthAdd_toLength n c n' c' :
  0 <= n -> 0 <= c < factor -> 0 <= n' -> 0 <= c' < factor ->
  lengthAdd (toLength n c) (toLength n' c') =
  if n' =? 0 then toLength n (c + c') else toLength (n + n') c'.
Proof.
  intros ? Hc ? Hc'. unfold lengthAdd. assert (0 <= toLength n c) by (unfold toLength, factor; lia).
  rewrite Z.rem_mod_nonneg by (unfold factor; lia). destruct (unpack n c Hc) as [_ ->].
  unfold toLength, factor in *. destruct (Z.geb_spec (n' * 2 ^ 26 + c') (2 ^ 26)), (Z.eqb_spec n' 0); lia.
Qed.

Lemma lengthDiff_toLength n c n' c' :
  0 <= n -> 0 <= c < factor -> 0 <= n' -> 0 <= c' < factor ->
  lengthDiffNonNegative (toLength n c) (toLength n' c') =
  LO.toLength (LO.lengthDiffNonNegative (mkLengthObj n c) (mkLengthObj n' c')).
Proof.
  intros ? Hc ? Hc'. unfold lengthDiffNonNegative, LO.lengthDiffNonNegative, LO.isLessThan, LO.toLength.
  simpl. destruct (unpack n c Hc) as [-> _], (unpack n' c' Hc') as [-> _].
  destruct (toLength_order n' c' n c) as (Hle & _); [done..|].
  destruct (Z.leb_spec (toLength n' c' - toLength n c) 0).
  - assert (n' < n \/ n' = n /\ c' <= c) by (apply Hle; lia).
    destruct (Z.eqb_spec n' n); simpl.
    + destruct (Z.ltb_spec c' c); [done|]. destruct (Z.eqb_spec n n'); [|lia]. simpl.
      unfold toLength, lengthZero, factor. lia.
    + by destruct (Z.ltb_spec n' n); [|lia].
  - assert (~ (n' < n \/ n' = n /\ c' <= c)) by (rewrite <- Hle; lia).
    destruct (Z.eqb_spec n' n); simpl.
    + destruct (Z.ltb_spec c' c); [lia|]. destruct (Z.eqb_spec n n'); [|lia]. simpl.
      unfold toLength, factor. lia.
    + destruct (Z.ltb_spec n' n); [lia|]. destruct (Z.eqb_spec n n'); [lia|]. simpl.
      unfold toLength, factor. lia.
Qed.

(** On lengths whose columns do not overflow 26 bits, the packed operations are those
    of [LengthObj]: unpacking is injective and inverse to packing, addition, difference and
    comparison agree, and a sum with fewer than 2^26 lines stays below 2^52. *)
Theorem length_refines_obj l1 l2 :
  is_length l1 -> is_length l2 ->
  let o1 := lengthToObj l1 in
  let o2 := lengthToObj l2 in
  (lineCount o2 = 0 -> columnCount o1 + columnCount o2 < factor) ->
  LO.toLength o1 = l1 /\
  lengthToObj (lengthAdd l1 l2) = LO.add o1 o2 /\
  (lineCount o1 + lineCount o2 < factor -> 0 <= lengthAdd l1 l2 < 2 ^ 52) /\
  lengthToObj (lengthDiffNonNegative l1 l2) = LO.lengthDiffNonNegative o1 o2 /\
  (lengthLessThanEqual l1 l2 = true -> lengthAdd l1 (lengthDiffNonNegative l1 l2) = l2) /\
  lengthLessThan l1 l2 = LO.isLessThan o1 o2 /\
  lengthEquals l1 l2 = LO.equals o1 o2 /\
  Z.sgn (lengthCompare l1 l2) = Z.sgn (LO.compare o1 o2).
Proof.
  intros (n & c & -> & Hn & Hc)%length_cases (n' & c' & -> & Hn' & Hc')%length_cases. cbv zeta.
  rewrite !lengthToObj_toLength by done. simpl. intros Hcol.
  destruct (toLength_order n c n' c') as (Hle & Hlt & Heq); [done..|].
  rewrite lengthAdd_toLength, lengthDiff_toLength by done.
  assert (Hdiff : exists d k, LO.lengthDiffNonNegative (mkLengthObj n c) (mkLengthObj n' c') = mkLengthObj d k /\
    0 <= d /\ 0 <= k < factor /\ (n < n' \/ n = n' /\ c <= c' ->
      LO.add (mkLengthObj n c) (mkLengthObj d k) = mkLengthObj n' c')).
  { unfold LO.lengthDiffNonNegative, LO.isLessThan, LO.zero, LO.add. simpl.
    zbool; do 2 eexists; (split; [done|]); simpl; (split_and!; [lia|unfold factor in *; lia..|]);
      intros; zbool; try (exfalso; lia); f_equal; lia. }
  destruct Hdiff as (d & k & -> & Hd & Hk & Hadd). unfold LO.toLength. simpl.
  rewrite lengthToObj_toLength by done. split_and!; try done.
  - unfold LO.add. simpl. destruct (Z.eqb_spec n' 0); apply lengthToObj_toLength; lia.
  - unfold toLength, factor in *. destruct (Z.eqb_spec n' 0); intros; nia || lia.
  - intros Hb. unfold lengthLessThanEqual in Hb. rewrite lengthAdd_toLength by done.
    assert (Hadd' := Hadd (proj1 Hle ltac:(lia))). unfold LO.add in Hadd'. simpl in Hadd'.
    destruct (Z.eqb_spec d 0); by injection Hadd' as <- <-.
  - unfold lengthLessThan, LO.isLessThan. simpl. apply eq_true_iff_eq. rewrite Z.ltb_lt, Hlt. split; zbool.
  - unfold lengthEquals, LO.equals. simpl. apply eq_true_iff_eq. rewrite Z.eqb_eq, Heq. split; zbool.
  - unfold lengthCompare, LO.compare. simpl. unfold toLength, factor in *.
    destruct (Z.eqb_spec n n'); simpl.
    + subst. f_equal. lia.
    + destruct (Z.lt_ge_cases n n'); [rewrite !Z.sgn_neg by nia|rewrite !Z.sgn_pos by nia]; done.
Qed.

Lemma length_refines_obj_witness :
  lengthAdd (toLength 10 5) (toLength 20 3) = toLength 30 3 /\
  lengthToObj (lengthAdd (toLength 10 5) (toLength 20 3)) =
    LO.add (lengthToObj (toLength 10 5)) (lengthToObj (toLength 20 3)).
Proof.
  split; [reflexivity|].
  refine (proj1 (proj2 (length_refines_obj (toLength 10 5) (toLength 20 3) _ _ _)));
    unfold is_length; vm_compute; try discriminate.
Defined.

(** ** The length of a text *)

(** Induction along the reader, which takes one or two code units at a time. *)
Lemma text_ind (P : list Z -> Prop) :
  P [] -> (forall s, P s -> P (13 :: 10 :: s)) ->
  (forall c s, (c = 13 -> forall s', s <> 10 :: s') -> P s -> P (c :: s)) ->
  forall s, P s.
Proof.
  intros H0 H2 H1. assert (Hn : forall n s, (length s <= n)%nat -> P s); [|by intros s; eapply Hn].
  induction n as [|n IH]; intros [|c s] Hl; simpl in Hl; try done; [lia|].
  destruct (decide (c = 13)) as [->|]; [|apply H1; [done|apply IH; lia]].
  destruct s as [|d s]; [by apply H1|].
  destruct (decide (d = 10)) as [->|]; [apply H2, IH; simpl in Hl; lia|].
  apply H1; [by intros _ s' [= ? _]|]. apply IH. simpl in *. lia.
Qed.

Lemma split_from_crlf line s : split_from line (13 :: 10 :: s) = line :: split_from [] s.
Proof. done. Qed.

(** A code unit that does not start a CRLF is a line break of its own or part of a line. *)
Definition is_eol (c : Z) : bool := (c =? 13) || (c =? 10).

Lemma split_from_one line c s :
  (c = 13 -> forall s', s <> 10 :: s') ->
  split_from line (c :: s) = if is_eol c then line :: split_from [] s else split_from (line ++ [c]) s.
Proof.
  intros Hcr. unfold is_eol. simpl. destruct (Z.eqb_spec c 13) as [->|]; [|by destruct (c =? 10)].
  destruct s as [|d s]; [done|]. simpl. destruct (Z.eqb_spec d 10) as [->|]; [|done].
  by destruct (Hcr eq_refl s).
Qed.

Lemma split_from_nonempty line s : split_from line s <> [].
Proof.
  revert line. induction s as [|s IH|c s Hc IH] using text_ind; intros line; [done..|].
  rewrite split_from_one by done. by destruct (is_eol c).
Qed.

(** The line already read is in front of the first line of the rest. *)
Lemma split_from_line line s :
  exists h tl, split_from [] s = h :: tl /\ split_from line s = (line ++ h) :: tl.
Proof.
  revert line. induction s as [|s IH|c s Hc IH] using text_ind; intros line.
  - exists [], []. by rewrite app_nil_r.
  - exists [], (split_from [] s). by rewrite app_nil_r, !split_from_crlf.
  - rewrite !split_from_one by done. destruct (is_eol c).
    + exists [], (split_from [] s). by rewrite app_nil_r.
    + destruct (IH ([] ++ [c])) as (h & tl & E & E'). rewrite E'. destruct (IH (line ++ [c])) as (h2 & tl2 & E2 & E2').
      rewrite E in E2. injection E2 as <- <-. rewrite E2'. exists (c :: h), tl. by rewrite <- (app_assoc line).
Qed.

(** Two texts can be put together unless that joins the halves of a CRLF. *)
Definition joinable (s t : list Z) : Prop := last s = Some 13 -> head t <> Some 10.

Lemma split_from_app line s t :
  joinable s t ->
  exists init lst, split_from line s = init ++ [lst] /\ split_from line (s ++ t) = init ++ split_from lst t.
Proof.
  revert line. induction s as [|s IH|c s Hc IH] using text_ind; intros line Hj.
  - by exists [], line.
  - destruct (IH []) as (init & lst & E & E').
    { intros Hl. apply Hj. destruct s; [done|]. by rewrite !last_cons_cons. }
    exists (line :: init), lst. cbn [app]. by rewrite !split_from_crlf, E, E'.
  - assert (Hj' : joinable s t).
    { intros Hl. apply Hj. destruct s; [done|]. by rewrite last_cons_cons. }
    assert (Hc' : c = 13 -> forall s', s ++ t <> 10 :: s').
    { intros -> s' E. destruct s as [|d s]; simpl in E.
      - apply Hj; [done|]. by rewrite E.
      - injection E as -> _. by apply (Hc eq_refl s). }
    cbn [app]. rewrite !split_from_one by done. destruct (is_eol c).
    + destruct (IH [] Hj') as (init & lst & -> & ->). by exists (line :: init), lst.
    + by apply IH.
Qed.

Lemma at_last {A} (l : list A) x : (l ++ [x]).[zlen (l ++ [x]) - 1] = Some x.
Proof. apply at_app_last. right. rewrite zlen_app. split; [unfold zlen; simpl; lia|done]. Qed.

Lemma splitLines_snoc s : exists init lst, splitLines s = init ++ [lst].
Proof.
  unfold splitLines. destruct (split_from [] s) as [|h tl] eqn:E; [by destruct (split_from_nonempty [] s)|].
  destruct (exists_last (l := h :: tl)) as (init & lst & ->); [done|]. eauto.
Qed.

Lemma lengthOfStringObj_lines s init lst :
  splitLines s = init ++ [lst] -> lengthOfStringObj s = mkLengthObj (zlen init) (zlen lst).
Proof.
  intros E. unfold lengthOfStringObj. rewrite E, at_last. simpl. f_equal.
  rewrite zlen_app. unfold zlen. simpl. lia.
Qed.

Lemma lengthOfStringObj_app s t :
  joinable s t -> lengthOfStringObj (s ++ t) = LO.add (lengthOfStringObj s) (lengthOfStringObj t).
Proof.
  intros Hj. destruct (split_from_app [] s t Hj) as (init & lst & E & E').
  destruct (split_from_line lst t) as (h & tl & Et & Elt).
  rewrite (lengthOfStringObj_lines s init lst E). unfold LO.add. rewrite Elt in E'.
  destruct tl as [|h' tl].
  - rewrite (lengthOfStringObj_lines t [] h Et), (lengthOfStringObj_lines _ init (lst ++ h) E').
    simpl. by rewrite zlen_app.
  - destruct (exists_last (l := h' :: tl)) as (it & lt & Eit); [done|]. rewrite Eit in *.
    rewrite (lengthOfStringObj_lines t (h :: it) lt Et).
    rewrite (lengthOfStringObj_lines (s ++ t) (init ++ (lst ++ h) :: it) lt).
    + simpl. rewrite zlen_app, !zlen_cons. pose proof (zlen_nonneg it). by destruct (Z.eqb_spec (zlen it + 1) 0); [lia|].
    + unfold splitLines. by rewrite E', <- app_assoc.
Qed.

Lemma split_from_total line s :
  Forall (fun l => zlen l <= zlen line + zlen s) (split_from line s) /\
  zlen (split_from line s) <= zlen s + 1.
Proof.
  revert line. induction s as [|s IH|c s Hc IH] using text_ind; intros line.
  - split; [repeat constructor; unfold zlen; simpl; lia|unfold zlen; simpl; lia].
  - rewrite split_from_crlf, !zlen_cons. destruct (IH []) as [Hf Hl]. rewrite zlen_nil in Hf.
    pose proof (zlen_nonneg s). pose proof (zlen_nonneg line). split; [|lia]. constructor; [lia|].
    eapply Forall_impl; [exact Hf|]. simpl. lia.
  - rewrite split_from_one, zlen_cons by done. pose proof (zlen_nonneg s). pose proof (zlen_nonneg line).
    destruct (is_eol c).
    + destruct (IH []) as [Hf Hl]. rewrite zlen_nil in Hf. rewrite zlen_cons. split; [|lia].
      constructor; [lia|]. eapply Forall_impl; [exact Hf|]. simpl. lia.
    + destruct (IH (line ++ [c])) as [Hf Hl]. rewrite zlen_app in Hf. change (zlen [c]) with 1 in Hf.
      split; [|lia]. eapply Forall_impl; [exact Hf|]. simpl. lia.
Qed.

Lemma lengthOfStringObj_fits s :
  0 <= lineCount (lengthOfStringObj s) <= zlen s /\ 0 <= columnCount (lengthOfStringObj s) <= zlen s.
Proof.
  destruct (splitLines_snoc s) as (init & lst & E). rewrite (lengthOfStringObj_lines s init lst E). simpl.
  destruct (split_from_total [] s) as [Hf Hl]. unfold splitLines in E. rewrite E in Hf, Hl.
  apply Forall_app in Hf as [_ Hf]. inversion Hf as [|? ? Hlst]; subst.
  rewrite zlen_app in Hl. rewrite zlen_nil in Hlst. change (zlen [lst]) with 1 in Hl.
  pose proof (zlen_nonneg init). pose proof (zlen_nonneg lst). lia.
Qed.

Lemma lengthOfString_pack s : lengthOfString s = LO.toLength (lengthOfStringObj s).
Proof. done. Qed.

(** The packed length of a text is additive: for texts of fewer than 2^26 code units
    that do not meet inside a CRLF, the length of their concatenation is [lengthAdd] of
    theirs, and the difference to the first gives back the second. *)
Theorem lengthOfString_additive s t :
  joinable s t -> zlen (s ++ t) < factor ->
  lengthOfString (s ++ t) = lengthAdd (lengthOfString s) (lengthOfString t) /\
  lengthDiffNonNegative (lengthOfString s) (lengthOfString (s ++ t)) = lengthOfString t /\
  lengthLessThanEqual (lengthOfString s) (lengthOfString (s ++ t)) = true.
Proof.
  intros Hj Hlen. rewrite !lengthOfString_pack, (lengthOfStringObj_app s t Hj).
  pose proof (lengthOfStringObj_fits s) as Hs. pose proof (lengthOfStringObj_fits t) as Ht.
  pose proof (lengthOfStringObj_fits (s ++ t)) as Hst. rewrite (lengthOfStringObj_app s t Hj) in Hst.
  rewrite zlen_app in *. pose proof (zlen_nonneg s). pose proof (zlen_nonneg t).
  destruct (lengthOfStringObj s) as [n c], (lengthOfStringObj t) as [n' c']. unfold LO.toLength, LO.add in *.
  simpl in *. unfold lengthLessThanEqual. split_and!.
  - rewrite lengthAdd_toLength by lia. by destruct (Z.eqb_spec n' 0).
  - destruct (Z.eqb_spec n' 0); simpl in *; rewrite lengthDiff_toLength by lia;
      unfold LO.lengthDiffNonNegative, LO.isLessThan, LO.toLength; simpl; zbool; f_equal; lia.
  - destruct (Z.eqb_spec n' 0); simpl in *; unfold toLength, factor in *; lia.
Qed.

(** "ab\r\nc" and "d\ne". *)
Lemma lengthOfString_additive_witness :
  lengthOfString [97; 98; 13; 10; 99; 100; 10; 101] = toLength 2 1 /\
  lengthOfString ([97; 98; 13; 10; 99] ++ [100; 10; 101]) =
    lengthAdd (lengthOfString [97; 98; 13; 10; 99]) (lengthOfString [100; 10; 101]).
Proof.
  split; [reflexivity|].
  refine (proj1 (lengthOfString_additive [97; 98; 13; 10; 99] [100; 10; 101] _ _)).
  - intros E. vm_compute in E. discriminate.
  - reflexivity.
Defined.

(** Positions and lengths are two views of one place: converting back and forth is the
    identity and keeps the order. *)
Theorem position_length_roundtrip p q l :
  1 <= lineNumber p -> 1 <= column p <= factor -> 1 <= lineNumber q -> 1 <= column q <= factor ->
  is_length l ->
  lengthToPosition (positionToLength p) = p /\
  positionToLength (lengthToPosition l) = l /\
  (lengthLessThan (positionToLength p) (positionToLength q) = Pos.isBefore p q) /\
  (pos_le p q -> lengthsToRange (positionToLength p) (positionToLength q) = between p q) /\
  (pos_le p q -> lengthToObj (lengthDiffNonNegative (positionToLength p) (positionToLength q)) =
                 lengthOfRange (between p q)).
Proof.
  destruct p as [lp cp], q as [lq cq]. simpl. intros Hlp Hcp Hlq Hcq Hl.
  unfold positionToLength. simpl.
  destruct (unpack (lp - 1) (cp - 1) ltac:(lia)) as [Hp _], (unpack (lq - 1) (cq - 1) ltac:(lia)) as [Hq _].
  unfold lengthToPosition, lengthsToRange. rewrite Hp, Hq. simpl. split_and!.
  - unfold toLength, factor in *. f_equal; lia.
  - unfold toLength. lia.
  - unfold lengthLessThan. apply eq_true_iff_eq.
    rewrite Z.ltb_lt, isBefore_spec. destruct (toLength_order (lp - 1) (cp - 1) (lq - 1) (cq - 1)) as (_ & -> & _);
      [lia..|]. unfold pos_lt. simpl. lia.
  - intros Hle. unfold between. simpl. rewrite <- (new_Range_id lp cp lq cq Hle).
    unfold toLength. f_equal; lia.
  - intros Hle. unfold pos_le in Hle. simpl in Hle.
    rewrite lengthDiff_toLength by (unfold factor in *; lia). unfold LO.lengthDiffNonNegative, LO.isLessThan,
      lengthOfRange, LO.toLength, between. simpl.
    zbool; try (exfalso; lia); rewrite lengthToObj_toLength by (unfold factor in *; lia); f_equal; lia.
Qed.

Lemma position_length_roundtrip_witness :
  lengthToPosition (positionToLength (mkPosition 3 7)) = mkPosition 3 7 /\
  lengthsToRange (positionToLength (mkPosition 3 7)) (positionToLength (mkPosition 4 1)) = mkRange 3 7 4 1.
Proof.
  destruct (position_length_roundtrip (mkPosition 3 7) (mkPosition 4 1) 0) as (H1 & _ & _ & H2 & _);
    try (unfold is_length, factor; simpl; lia).
  split; [exact H1|]. apply H2. left. reflexivity.
Defined.
