(* ===== verification/EolCounter.v ===== *)
(** * Counting line breaks

    [countEOL] of [src/src/vs/editor/common/core/eolCounter.ts], the single pass over an
    inserted text that the text model makes, against [splitLines]. *)

From S2P Require Import Prelude Position TextRange Length.

#[local] Open Scope js_scope.

Module StringEOL.

Definition Unknown : Z := 0.
Definition Invalid : Z := 3.
Definition LF : Z := 1.
Definition CRLF : Z := 2.

End StringEOL.

Record eol_state : Type := mkEol {
  pos : Z; eolCount : Z; firstLineLength : Z; lastLineStart : Z; eol : Z }.

(** One turn of the loop, [i++] included. *)
Definition countEOL_step (text : list Z) (st : eol_state) : eol_state :=
  let i := pos st in
  match text.[i] with
  | None => st
  | Some chr =>
      if chr =? 13 then
        let first := if eolCount st =? 0 then i else firstLineLength st in
        let crlf := (i + 1 <? zlen text) && match text.[i + 1] with Some d => d =? 10 | None => false end in
        let i' := if crlf then i + 1 else i in
        mkEol (i' + 1) (eolCount st + 1) first (i' + 1)
          (Z.lor (eol st) (if crlf then StringEOL.CRLF else StringEOL.Invalid))
      else if chr =? 10 then
        mkEol (i + 1) (eolCount st + 1) (if eolCount st =? 0 then i else firstLineLength st)
          (i + 1) (Z.lor (eol st) StringEOL.LF)
      else mkEol (i + 1) (eolCount st) (firstLineLength st) (lastLineStart st) (eol st)
  end.

(** [eolCount], [firstLineLength], the length of the last line and the kinds of breaks. *)
Definition countEOL (text : list Z) : Z * Z * Z * Z :=
  let st := while (length text) (fun st => pos st <? zlen text) (countEOL_step text)
    (mkEol 0 0 0 0 StringEOL.Unknown) in
  (eolCount st,
   (if eolCount st =? 0 then zlen text else firstLineLength st),
   zlen text - lastLineStart st, eol st).

(** The kinds of the breaks of a text, in order. *)
Fixpoint eol_kinds (s : list Z) : list Z :=
  match s with
  | [] => []
  | c :: s' =>
      if c =? 13 then
        match s' with
        | d :: s'' => if d =? 10 then StringEOL.CRLF :: eol_kinds s'' else StringEOL.Invalid :: eol_kinds s'
        | [] => [StringEOL.Invalid]
        end
      else if c =? 10 then StringEOL.LF :: eol_kinds s'
      else eol_kinds s'
  end.

Lemma eol_kinds_one c s :
  (c = 13 -> forall s', s <> 10 :: s') ->
  eol_kinds (c :: s) =
    if c =? 13 then StringEOL.Invalid :: eol_kinds s
    else if c =? 10 then StringEOL.LF :: eol_kinds s else eol_kinds s.
Proof.
  intros Hcr. simpl. destruct (Z.eqb_spec c 13) as [->|]; [|done].
  destruct s as [|d s]; [done|]. destruct (Z.eqb_spec d 10) as [->|]; [|done].
  by destruct (Hcr eq_refl s).
Qed.

Section loop.
Context (text : list Z).

(** At a place between [read] and [rest]: [lines] are complete, [line] is the part read of
    the current line, and [ks] the breaks so far. *)
Definition loop_inv (st : eol_state) : Prop :=
  exists read rest lines line ks,
    text = read ++ rest /\ zlen read = pos st /\
    splitLines text = lines ++ split_from line rest /\ eol_kinds text = ks ++ eol_kinds rest /\
    eol st = fold_left Z.lor ks 0 /\ zlen lines = eolCount st /\
    zlen line = pos st - lastLineStart st /\
    match lines with [] => lastLineStart st = 0 | h :: _ => zlen h = firstLineLength st end.

Lemma at_read read rest i :
  text = read ++ rest -> zlen read = i -> text.[i] = rest.[0] /\ text.[i + 1] = rest.[1].
Proof.
  intros -> <-. unfold at_, zlen. destruct (Z.ltb_spec (Z.of_nat (length read)) 0); [lia|].
  destruct (Z.ltb_spec (Z.of_nat (length read) + 1) 0); [lia|].
  rewrite !lookup_app_r by lia. split; f_equal; lia.
Qed.

(** A line ends: the first length is set by the first break only. *)
Lemma first_line_kept (lines : list (list Z)) line count start i first :
  zlen lines = count -> zlen line = i - start ->
  match lines with [] => start = 0 | h :: _ => zlen h = first end ->
  match (lines ++ [line]) with
  | [] => True
  | h :: _ => zlen h = if count =? 0 then i else first
  end.
Proof.
  intros Hc Hl Hf. destruct lines as [|h lines]; simpl.
  - rewrite <- Hc. simpl. lia.
  - rewrite zlen_cons in Hc. pose proof (zlen_nonneg lines). destruct (Z.eqb_spec count 0); [lia|done].
Qed.

Lemma countEOL_step_inv st :
  loop_inv st -> (pos st <? zlen text) = true ->
  loop_inv (countEOL_step text st) /\ (Z.to_nat (zlen text - pos (countEOL_step text st)) <
    Z.to_nat (zlen text - pos st))%nat.
Proof.
  intros (read & rest & lines & line & ks & Ht & Hr & Hl & Hk & He & Hc & Hs & Hf) Hlt.
  destruct (at_read _ _ _ Ht Hr) as [Hi Hi1]. unfold countEOL_step. rewrite Hi, Hi1.
  assert (Hlen : zlen text = zlen read + zlen rest) by (rewrite Ht; apply zlen_app).
  pose proof (first_line_kept _ _ _ _ _ _ Hc Hs Hf) as Hfirst.
  induction rest as [|s _|c s Hcr _] using text_ind; [rewrite zlen_nil in Hlen; lia|..].
  - rewrite !zlen_cons in Hlen. pose proof (zlen_nonneg s).
    replace (pos st + 1 <? zlen text) with true by lia.
    change ((13 :: 10 :: s).[0]) with (Some 13). change ((13 :: 10 :: s).[1]) with (Some 10).
    cbv beta iota zeta. change (13 =? 13) with true. change (10 =? 10) with true.
    cbn [andb pos]. split; [|lia].
    exists (read ++ [13; 10]), s, (lines ++ [line]), [], (ks ++ [StringEOL.CRLF]). simpl.
    rewrite !zlen_app, <- !app_assoc. change (zlen [13; 10]) with 2.
    split_and!; try done; try lia.
    + by rewrite fold_left_app, <- He.
    + change (zlen [line]) with 1. lia.
    + change (zlen (@nil Z)) with 0. lia.
    + destruct lines; exact Hfirst.
  - rewrite zlen_cons in Hlen. pose proof (zlen_nonneg s).
    rewrite split_from_one in Hl by done. rewrite eol_kinds_one in Hk by done.
    assert (Hread : text = (read ++ [c]) ++ s /\ zlen (read ++ [c]) = pos st + 1)
      by (rewrite <- app_assoc, zlen_app; by rewrite Hr).
    destruct Hread as [Ht' Hr']. assert (Hone : forall k, fold_left Z.lor (ks ++ [k]) 0 = Z.lor (eol st) k)
      by (intros; by rewrite fold_left_app, <- He).
    change ((c :: s).[0]) with (Some c). change ((c :: s).[1]) with (s.[0]).
    unfold is_eol in Hl. cbv iota beta.
    destruct (Z.eqb_spec c 13) as [->|]; [|destruct (Z.eqb_spec c 10) as [->|]]; cbn [orb] in Hl.
    + assert (Hno : (pos st + 1 <? zlen text) && match s.[0] with Some d => d =? 10 | None => false end = false).
      { destruct s as [|d s]; [apply andb_false_r|]. change ((d :: s).[0]) with (Some d).
        destruct (Z.eqb_spec d 10) as [->|]; [by destruct (Hcr eq_refl s)|].
        destruct (Z.eqb_spec d 10); [done|apply andb_false_r]. }
      rewrite Hno. cbv zeta iota. cbn [pos]. split; [|lia].
      exists (read ++ [13]), s, (lines ++ [line]), [], (ks ++ [StringEOL.Invalid]). cbn [pos eol eolCount lastLineStart firstLineLength].
      rewrite (zlen_app lines), <- !(app_assoc _ [_]). change (zlen (@nil Z)) with 0. change (zlen [line]) with 1.
      split_and!; try done; try lia.
      destruct lines; exact Hfirst.
    + cbn [pos]. split; [|lia].
      exists (read ++ [10]), s, (lines ++ [line]), [], (ks ++ [StringEOL.LF]). cbn [pos eol eolCount lastLineStart firstLineLength].
      rewrite (zlen_app lines), <- !(app_assoc _ [_]). change (zlen (@nil Z)) with 0. change (zlen [line]) with 1.
      split_and!; try done; try lia.
      destruct lines; exact Hfirst.
    + cbn [pos]. split; [|lia].
      exists (read ++ [c]), s, lines, (line ++ [c]), ks. cbn [pos eol eolCount lastLineStart firstLineLength].
      rewrite (zlen_app line). change (zlen [c]) with 1. split_and!; try done; lia.
Qed.

End loop.

Lemma countEOL_loop text :
  let '(count, first, last_, eol) := countEOL text in
  count = zlen (splitLines text) - 1 /\
  (splitLines text).[0] ≫= (fun l => Some (zlen l)) = Some first /\
  (splitLines text).[count] ≫= (fun l => Some (zlen l)) = Some last_ /\
  lengthOfStringObj text = mkLengthObj count last_ /\
  eol = fold_left Z.lor (eol_kinds text) StringEOL.Unknown.
Proof.
  unfold countEOL.
  while_inv (loop_inv text) (fun st => Z.to_nat (zlen text - pos st)) as [HI Hc].
  - by apply countEOL_step_inv.
  - exists [], text, [], [], []. by split_and!.
  - simpl. unfold zlen. lia.
  - set (st := while _ _ _ _) in *. destruct HI as (read & rest & lines & line & ks & Ht & Hr & Hl & Hk & He & Hcnt & Hs & Hf).
    assert (Hlen : zlen text = zlen read + zlen rest) by (rewrite Ht; apply zlen_app).
    assert (rest = []) as -> by (apply length_zero_iff_nil; unfold zlen in *; lia).
    simpl in Hl, Hk. rewrite zlen_nil in Hlen. rewrite app_nil_r in Hk.
    assert (Hcount : eolCount st = zlen (lines ++ [line]) - 1) by (rewrite zlen_app; change (zlen [line]) with 1; lia).
    rewrite Hl, Hk. split_and!; [done| | |rewrite (lengthOfStringObj_lines text lines line Hl); f_equal; lia|done].
    + destruct lines as [|h lines]; simpl.
      * rewrite <- Hcnt. simpl. f_equal. lia.
      * rewrite zlen_cons in Hcnt. pose proof (zlen_nonneg lines). destruct (Z.eqb_spec (eolCount st) 0); [lia|].
        simpl. by rewrite Hf.
    + rewrite Hcount, at_last. simpl. f_equal. lia.
Qed.

(** The single pass over a text ends and finds what splitting it into lines would: the
    number of breaks, the length of the first and of the last line, and the union of the
    kinds of the breaks, so that the kind is LF or CRLF exactly when all breaks are. *)
Theorem countEOL_splits text :
  let '(count, first, last_, eol) := countEOL text in
  count = zlen (splitLines text) - 1 /\
  (splitLines text).[0] ≫= (fun l => Some (zlen l)) = Some first /\
  (splitLines text).[count] ≫= (fun l => Some (zlen l)) = Some last_ /\
  lengthOfStringObj text = mkLengthObj count last_ /\
  eol = fold_left Z.lor (eol_kinds text) StringEOL.Unknown.
Proof. apply countEOL_loop. Qed.
