(* ===== verification/DocLength.v ===== *)
(** * Documents as lengths see them

    A document is a list of symbols, line breaks and other code units: what the packed
    lengths of Length.v can tell of a text.  [L] is the packed length of a document; it is
    additive on documents of fewer than 2^26 symbols, and [lengthOfStringObj] computes it
    from a text.  The components that compute with lengths only are specified over
    documents. *)

From S2P Require Import Prelude Position TextRange Length.

#[local] Open Scope js_scope.

#[local] Arguments Z.eqb : simpl never.
#[local] Arguments Z.ltb : simpl never.
#[local] Arguments Z.add : simpl never.
#[local] Arguments Z.sub : simpl never.

Inductive symbol : Type := Break | Unit.

Definition doc : Type := list symbol.

Definition symbol_length (s : symbol) : LengthObj :=
  match s with Break => mkLengthObj 1 0 | Unit => mkLengthObj 0 1 end.

Definition doc_length (d : doc) : LengthObj := foldr (fun s => LO.add (symbol_length s)) LO.zero d.

(** The symbols of a text; a CRLF is one break. *)
Fixpoint symbols (s : list Z) : doc :=
  match s with
  | [] => []
  | c :: s' =>
      if c =? 13 then
        match s' with
        | d :: s'' => if d =? 10 then Break :: symbols s'' else Break :: symbols s'
        | [] => [Break]
        end
      else if c =? 10 then Break :: symbols s'
      else Unit :: symbols s'
  end.

Lemma symbols_one c s :
  (c = 13 -> forall s', s <> 10 :: s') ->
  symbols (c :: s) = (if is_eol c then Break else Unit) :: symbols s.
Proof.
  intros Hcr. unfold is_eol. simpl. destruct (Z.eqb_spec c 13) as [->|]; [|by destruct (c =? 10)].
  destruct s as [|d s]; [done|]. simpl. destruct (Z.eqb_spec d 10) as [->|]; [|done].
  by destruct (Hcr eq_refl s).
Qed.

Lemma lengthOfStringObj_symbols s : lengthOfStringObj s = doc_length (symbols s).
Proof.
  induction s as [|s IH|c s Hc IH] using text_ind; [done| |].
  - change (13 :: 10 :: s) with ([13; 10] ++ s). rewrite lengthOfStringObj_app by done. by rewrite IH.
  - change (c :: s) with ([c] ++ s). rewrite lengthOfStringObj_app, IH.
    + change ([c] ++ s) with (c :: s). rewrite (symbols_one c s Hc). cbn [doc_length foldr]. f_equal.
      unfold lengthOfStringObj, splitLines. rewrite split_from_one by done. by destruct (is_eol c).
    + intros [= ->] Hh. destruct s as [|d s]; [done|]. injection Hh as ->. by apply (Hc eq_refl s).
Qed.

(** ** Lengths of documents *)

Lemma add_assoc a b c :
  0 <= lineCount b -> 0 <= lineCount c -> LO.add (LO.add a b) c = LO.add a (LO.add b c).
Proof. destruct a, b, c. unfold LO.add. simpl. intros. zbool; f_equal; lia. Qed.

Lemma doc_length_bounds d :
  0 <= lineCount (doc_length d) <= zlen d /\ 0 <= columnCount (doc_length d) <= zlen d /\
  (doc_length d = LO.zero -> d = []).
Proof.
  induction d as [|s d IH]; [done|]. rewrite zlen_cons. cbn [doc_length foldr]. fold (doc_length d).
  destruct (doc_length d) as [n c], s; unfold LO.add, LO.zero in *; simpl in *;
    destruct (Z.eqb_spec n 0); simpl; (split_and!; [lia..|]); intros [=]; lia.
Qed.

Lemma doc_length_app a b : doc_length (a ++ b) = LO.add (doc_length a) (doc_length b).
Proof.
  pose proof (doc_length_bounds b) as (Hb & _).
  induction a as [|s a IH]; cbn [app doc_length foldr].
  - fold (doc_length b). destruct (doc_length b) as [n c]. unfold LO.add, LO.zero. simpl in *.
    destruct (Z.eqb_spec n 0); f_equal; lia.
  - fold (doc_length a) (doc_length (a ++ b)). rewrite IH. pose proof (doc_length_bounds a) as (Ha & _).
    symmetry. apply add_assoc; lia.
Qed.

(** The packed length of a document. *)
Definition L (d : doc) : Length := LO.toLength (doc_length d).

Definition small (d : doc) : Prop := zlen d < factor.

Lemma small_app a b : small (a ++ b) -> small a /\ small b.
Proof. unfold small. rewrite zlen_app. pose proof (zlen_nonneg a). pose proof (zlen_nonneg b). lia. Qed.

Lemma L_app a b : small (a ++ b) -> lengthAdd (L a) (L b) = L (a ++ b).
Proof.
  unfold small, L. rewrite zlen_app, doc_length_app. intros Hs.
  pose proof (zlen_nonneg a). pose proof (zlen_nonneg b).
  pose proof (doc_length_bounds a) as (? & ? & _). pose proof (doc_length_bounds b) as (? & ? & _).
  destruct (doc_length a) as [n c], (doc_length b) as [n' c']. unfold LO.toLength, LO.add. simpl in *.
  rewrite lengthAdd_toLength by lia. by destruct (Z.eqb_spec n' 0).
Qed.

Lemma L_diff a b : small (a ++ b) -> lengthDiffNonNegative (L a) (L (a ++ b)) = L b.
Proof.
  unfold small, L. rewrite zlen_app, doc_length_app. intros Hs.
  pose proof (zlen_nonneg a). pose proof (zlen_nonneg b).
  pose proof (doc_length_bounds a) as (? & ? & _). pose proof (doc_length_bounds b) as (? & ? & _).
  destruct (doc_length a) as [n c], (doc_length b) as [n' c']. unfold LO.add, LO.toLength. simpl in *.
  destruct (Z.eqb_spec n' 0); simpl; rewrite lengthDiff_toLength by lia;
    unfold LO.lengthDiffNonNegative, LO.isLessThan, LO.toLength; simpl; zbool; f_equal; lia.
Qed.

Lemma L_nil : L [] = lengthZero.
Proof. done. Qed.

Lemma L_zero a : small a -> L a = lengthZero -> a = [].
Proof.
  unfold small, L, LO.toLength, lengthZero. pose proof (doc_length_bounds a) as (? & ? & Hz).
  intros Hs E. apply Hz. destruct (doc_length a) as [n c]. unfold toLength, factor, LO.zero in *. simpl in *.
  f_equal; lia.
Qed.

Lemma L_diff_prefix a b : small (a ++ b) -> lengthDiffNonNegative (L (a ++ b)) (L a) = lengthZero.
Proof.
  intros Hs. destruct (small_app a b Hs) as [Ha Hb]. unfold lengthDiffNonNegative.
  assert (L a <= L (a ++ b)); [|by destruct (Z.leb_spec (L a - L (a ++ b)) 0); [|lia]].
  rewrite <- L_app by done. unfold lengthAdd.
  assert (0 <= L a /\ 0 <= L b) as [? ?].
  { unfold L, LO.toLength, toLength, factor. pose proof (doc_length_bounds a). pose proof (doc_length_bounds b). lia. }
  destruct (Z.geb_spec (L b) factor); [|lia]. rewrite Z.rem_mod_nonneg by (unfold factor; lia).
  pose proof (Z.mod_pos_bound (L a) factor ltac:(unfold factor; lia)). lia.
Qed.

Lemma L_prefix_inj a b : small (a ++ b) -> L (a ++ b) = L a -> b = [].
Proof.
  intros Hs E. destruct (small_app a b Hs) as [_ Hb]. apply L_zero; [done|].
  rewrite <- (L_diff a b Hs), E. unfold lengthDiffNonNegative. by rewrite Z.sub_diag.
Qed.
