(* ===== verification/EditInfos.v ===== *)
(** * Edits in terms of lengths

    [BeforeEditPositionMapper] and [TextEditInfo] of
    [src/src/vs/editor/common/model/bracketPairsTextModelPart/bracketPairsTree/beforeEditPositionMapper.ts]
    and [combineTextEditInfos] of [combineTextEditInfos.ts] in the same directory: what the
    bracket pair tree knows of edits is where they start and end before them and how long
    their new text is.  The mapper, which answers increasing queries with a few numbers of
    state, is proved to refine a search that starts afresh; combining two edit lists is
    proved to describe both edits in a row in CombineEdits.v. *)

From S2P Require Import Prelude Position TextRange Length.

#[local] Open Scope js_scope.

Record TextEditInfo : Type := mkTextEditInfo {
  startOffset : Length; endOffset : Length; newLength : Length }.

#[export] Instance TextEditInfo_eq_dec : EqDecision TextEditInfo.
Proof. solve_decision. Defined.

(** [IModelContentChange]: the range replaced and the text. *)
Record ModelContentChange : Type := mkChange { range : Range; text : list Z }.

(** The changes come in descending order. *)
Definition fromModelContentChanges (changes : list ModelContentChange) : list TextEditInfo :=
  reverse ((fun c =>
    mkTextEditInfo (positionToLength (Rng.getStartPosition (range c)))
      (positionToLength (Rng.getEndPosition (range c))) (lengthOfString (text c))) <$> changes).

(** ** [BeforeEditPositionMapper] *)

Module BEPM.

Record TextEditInfoCache : Type := mkCache {
  endOffsetBeforeObj : LengthObj; endOffsetAfterObj : LengthObj; offsetObj : LengthObj }.

Definition from (edit : TextEditInfo) : TextEditInfoCache :=
  mkCache (lengthToObj (endOffset edit))
    (lengthToObj (lengthAdd (startOffset edit) (newLength edit)))
    (lengthToObj (startOffset edit)).

Record BeforeEditPositionMapper : Type := mkMapper {
  nextEditIdx : Z; deltaOldToNewLineCount : Z; deltaOldToNewColumnCount : Z;
  deltaLineIdxInOld : Z; edits : list TextEditInfoCache }.

Definition new_BeforeEditPositionMapper (edits : list TextEditInfo) : BeforeEditPositionMapper :=
  mkMapper 0 0 0 (-1) (from <$> edits).

Definition translateOldToCur (this : BeforeEditPositionMapper) (oldOffsetObj : LengthObj) : Length :=
  if lineCount oldOffsetObj =? deltaLineIdxInOld this
  then toLength (lineCount oldOffsetObj + deltaOldToNewLineCount this)
         (columnCount oldOffsetObj + deltaOldToNewColumnCount this)
  else toLength (lineCount oldOffsetObj + deltaOldToNewLineCount this) (columnCount oldOffsetObj).

Definition translateCurToOld (this : BeforeEditPositionMapper) (newOffset : Length) : Length :=
  let offsetObj := lengthToObj newOffset in
  if lineCount offsetObj - deltaOldToNewLineCount this =? deltaLineIdxInOld this
  then toLength (lineCount offsetObj - deltaOldToNewLineCount this)
         (columnCount offsetObj - deltaOldToNewColumnCount this)
  else toLength (lineCount offsetObj - deltaOldToNewLineCount this) (columnCount offsetObj).

(** One turn of the loop of [adjustNextEdit]; [None] is [break]. *)
Definition skipEdit (this : BeforeEditPositionMapper) (nextEdit : TextEditInfoCache) (offset : Length)
    : option BeforeEditPositionMapper :=
  let nextEditEndOffsetInCur := translateOldToCur this (endOffsetAfterObj nextEdit) in
  if lengthLessThanEqual nextEditEndOffsetInCur offset then
    let nextEditEndOffsetInCurObj := lengthToObj nextEditEndOffsetInCur in
    let nextEditEndOffsetBeforeInCurObj :=
      lengthToObj (translateOldToCur this (endOffsetBeforeObj nextEdit)) in
    let lineDelta := lineCount nextEditEndOffsetInCurObj - lineCount nextEditEndOffsetBeforeInCurObj in
    let previousColumnDelta :=
      if deltaLineIdxInOld this =? lineCount (endOffsetBeforeObj nextEdit)
      then deltaOldToNewColumnCount this else 0 in
    let columnDelta := columnCount nextEditEndOffsetInCurObj - columnCount nextEditEndOffsetBeforeInCurObj in
    Some (mkMapper (nextEditIdx this + 1) (deltaOldToNewLineCount this + lineDelta)
            (previousColumnDelta + columnDelta) (lineCount (endOffsetBeforeObj nextEdit)) (edits this))
  else None.

(** Each turn that does not break moves to the next edit. *)
Fixpoint adjustNextEdit_loop (fuel : nat) (this : BeforeEditPositionMapper) (offset : Length)
    : BeforeEditPositionMapper :=
  match fuel with
  | O => this
  | S fuel' =>
      if nextEditIdx this <? zlen (edits this) then
        match (edits this).[nextEditIdx this] with
        | Some nextEdit =>
            match skipEdit this nextEdit offset with
            | Some this' => adjustNextEdit_loop fuel' this' offset
            | None => this
            end
        | None => this
        end
      else this
  end.

Definition adjustNextEdit (this : BeforeEditPositionMapper) (offset : Length) : BeforeEditPositionMapper :=
  adjustNextEdit_loop (length (edits this)) this offset.

Definition getOffsetBeforeChange (this : BeforeEditPositionMapper) (offset : Length)
    : Length * BeforeEditPositionMapper :=
  let this := adjustNextEdit this offset in
  (translateCurToOld this offset, this).

(** [None] is [null]. *)
Definition getDistanceToNextChange (this : BeforeEditPositionMapper) (offset : Length)
    : option Length * BeforeEditPositionMapper :=
  let this := adjustNextEdit this offset in
  match (edits this).[nextEditIdx this] with
  | None => (None, this)
  | Some nextEdit =>
      (Some (lengthDiffNonNegative offset (translateOldToCur this (offsetObj nextEdit))), this)
  end.

End BEPM.

(** ** [combineTextEditInfos] *)

Module CTE.

Record LengthMapping : Type := mkMapping {
  modified : bool; lengthBefore : Length; lengthAfter : Length }.

Definition splitAt (this : LengthMapping) (lengthAfter' : Length) : LengthMapping * option LengthMapping :=
  let remainingLengthAfter := lengthDiffNonNegative lengthAfter' (lengthAfter this) in
  if lengthEquals remainingLengthAfter lengthZero then (this, None)
  else if modified this then
    (mkMapping (modified this) (lengthBefore this) lengthAfter',
     Some (mkMapping (modified this) lengthZero remainingLengthAfter))
  else
    (mkMapping (modified this) lengthAfter' lengthAfter',
     Some (mkMapping (modified this) remainingLengthAfter remainingLengthAfter)).

(** The loop's body: the mappings of one edit, from [lastOffset] on. *)
Fixpoint toLengthMapping_from (lastOffset : Length) (textEditInfos : list TextEditInfo)
    : list LengthMapping :=
  match textEditInfos with
  | [] => []
  | textEditInfo :: rest =>
      let spaceLength := lengthDiffNonNegative lastOffset (startOffset textEditInfo) in
      let lengthBefore := lengthDiffNonNegative (startOffset textEditInfo) (endOffset textEditInfo) in
      (if negb (lengthIsZero spaceLength) then [mkMapping false spaceLength spaceLength] else []) ++
      mkMapping true lengthBefore (newLength textEditInfo) ::
      toLengthMapping_from (endOffset textEditInfo) rest
  end.

Definition toLengthMapping (textEditInfos : list TextEditInfo) : list LengthMapping :=
  toLengthMapping_from lengthZero textEditInfos.

(** [curItem] and what is left of the queue [s0ToS1Map] are one list, whose head is
    [curItem]; the loop ends when the list is empty or the length is used up.  The pieces,
    the length left and the list left. *)
Fixpoint take_loop (fuel : nat) (s0ToS1Map : list LengthMapping) (s1Length : Length)
    : list LengthMapping * Length * list LengthMapping :=
  match fuel with
  | O => ([], s1Length, s0ToS1Map)
  | S fuel' =>
      match s0ToS1Map with
      | [] => ([], s1Length, [])
      | curItem :: queue =>
          if lengthIsZero s1Length then ([], s1Length, s0ToS1Map)
          else
            let '(item, remainingItem) := splitAt curItem s1Length in
            let s1Length' := lengthDiffNonNegative (lengthAfter item) s1Length in
            let '(result, s1Length'', map') :=
              take_loop fuel' (match remainingItem with Some r => r :: queue | None => queue end) s1Length' in
            (item :: result, s1Length'', map')
      end
  end.

(** [None] is [undefined], "infinity".  Each turn but one uses up an item. *)
Definition nextS0ToS1MapWithS1LengthOf (s0ToS1Map : list LengthMapping) (s1Length : option Length)
    : list LengthMapping * list LengthMapping :=
  match s1Length with
  | None => (s0ToS1Map, [])
  | Some s1Length =>
      let '(result, s1Length, map') := take_loop (S (length s0ToS1Map)) s0ToS1Map s1Length in
      (if negb (lengthIsZero s1Length) then result ++ [mkMapping false s1Length s1Length] else result, map')
  end.

(** [result] is kept in reverse. *)
Definition pushEdit (result : list TextEditInfo) (startOffset' endOffset' newLength' : Length)
    : list TextEditInfo :=
  match result with
  | lastResult :: init =>
      if lengthEquals (endOffset lastResult) startOffset'
      then mkTextEditInfo (startOffset lastResult) endOffset' (lengthAdd (newLength lastResult) newLength') :: init
      else mkTextEditInfo startOffset' endOffset' newLength' :: result
  | [] => [mkTextEditInfo startOffset' endOffset' newLength']
  end.

Definition copy_step (st : list TextEditInfo * Length) (s1 : LengthMapping) : list TextEditInfo * Length :=
  let '(result, s0offset) := st in
  let s0offset' := lengthAdd s0offset (lengthBefore s1) in
  (if modified s1 then pushEdit result s0offset s0offset' (lengthAfter s1) else result, s0offset').

(** The body of the last loop, for an item of [s1ToS2Map]. *)
Definition combine_step (st : list LengthMapping * list TextEditInfo * Length)
    (s1ToS2 : bool * option Length * Length) : list LengthMapping * list TextEditInfo * Length :=
  let '(map_, result, s0offset) := st in
  let '(modified', lengthBefore', lengthAfter') := s1ToS2 in
  let '(s0ToS1Map, map') := nextS0ToS1MapWithS1LengthOf map_ lengthBefore' in
  if modified' then
    let s0Length := sumLengths s0ToS1Map lengthBefore in
    let s0EndOffset := lengthAdd s0offset s0Length in
    (map', pushEdit result s0offset s0EndOffset lengthAfter', s0EndOffset)
  else
    let '(result', s0offset') := fold_left copy_step s0ToS1Map (result, s0offset) in
    (map', result', s0offset').

Definition combineTextEditInfos (textEditInfoFirst textEditInfoSecond : list TextEditInfo)
    : list TextEditInfo :=
  if zlen textEditInfoFirst =? 0 then textEditInfoSecond
  else if zlen textEditInfoSecond =? 0 then textEditInfoFirst
  else
    let s0ToS1Map := toLengthMapping textEditInfoFirst in
    let s1ToS2Map :=
      ((fun m => (modified m, Some (lengthBefore m), lengthAfter m)) <$> toLengthMapping textEditInfoSecond)
      ++ [(false, None, lengthZero)] in
    let '(_, result, _) := fold_left combine_step s1ToS2Map (s0ToS1Map, [], lengthZero) in
    reverse result.

End CTE.

Import BEPM.

(** ** The mapper against a search from the start *)

(** The order of lengths. *)
Definition lo_le (a b : LengthObj) : Prop := LO.isLessThan b a = false.

(** [o], which is after [a], moved along to after [b]. *)
Definition shift (a b o : LengthObj) : LengthObj := LO.add b (LO.lengthDiffNonNegative a o).

(** Where an edit ends in the current text, when [old] has moved to [cur] before it. *)
Definition end_in_cur (old cur : LengthObj) (e : TextEditInfo) : LengthObj :=
  LO.add (shift old cur (lengthToObj (startOffset e))) (lengthToObj (newLength e)).

(** The place before the edits of a place in the current text: skip every edit that ends at
    or before it, then count from the end of the last one skipped. *)
Fixpoint offset_before (old cur : LengthObj) (es : list TextEditInfo) (x : Length) : Length :=
  match es with
  | [] => LO.toLength (shift cur old (lengthToObj x))
  | e :: es' =>
      if lengthLessThanEqual (LO.toLength (end_in_cur old cur e)) x
      then offset_before (lengthToObj (endOffset e)) (end_in_cur old cur e) es' x
      else LO.toLength (shift cur old (lengthToObj x))
  end.

(** The distance to the start of the first edit that does not end at or before the place. *)
Fixpoint distance_to_next (old cur : LengthObj) (es : list TextEditInfo) (x : Length) : option Length :=
  match es with
  | [] => None
  | e :: es' =>
      if lengthLessThanEqual (LO.toLength (end_in_cur old cur e)) x
      then distance_to_next (lengthToObj (endOffset e)) (end_in_cur old cur e) es' x
      else Some (lengthDiffNonNegative x (LO.toLength (shift old cur (lengthToObj (startOffset e)))))
  end.

(** The edits come in order and no column that arises overflows 26 bits. *)
Fixpoint edits_wf (old cur : LengthObj) (es : list TextEditInfo) : Prop :=
  match es with
  | [] => True
  | e :: es' =>
      is_length (startOffset e) /\ is_length (endOffset e) /\ is_length (newLength e) /\
      lo_le old (lengthToObj (startOffset e)) /\ startOffset e <= endOffset e /\
      columnCount (LO.add (lengthToObj (startOffset e)) (lengthToObj (newLength e))) < factor /\
      columnCount (shift old cur (lengthToObj (endOffset e))) < factor /\
      columnCount (end_in_cur old cur e) < factor /\
      edits_wf (lengthToObj (endOffset e)) (end_in_cur old cur e) es'
  end.

(** A length as such an object. *)
Definition lo_wf (o : LengthObj) : Prop := 0 <= lineCount o /\ 0 <= columnCount o < factor.

Lemma lengthToObj_wf l : is_length l -> lo_wf (lengthToObj l).
Proof.
  intros (n & c & -> & ? & ?)%length_cases. rewrite lengthToObj_toLength by done. done.
Qed.

(** The state of the mapper between two edits. *)
Definition at_edit (st : BeforeEditPositionMapper) (es : list TextEditInfo) (old cur : LengthObj) : Prop :=
  0 <= nextEditIdx st /\ drop (Z.to_nat (nextEditIdx st)) (edits st) = from <$> es /\
  lo_wf old /\ lo_wf cur /\
  deltaOldToNewLineCount st = lineCount cur - lineCount old /\
  (deltaLineIdxInOld st = lineCount old /\ deltaOldToNewColumnCount st = columnCount cur - columnCount old \/
   deltaLineIdxInOld st = -1 /\ old = LO.zero /\ cur = LO.zero).

#[local] Arguments Z.eqb : simpl never.
#[local] Arguments Z.ltb : simpl never.
#[local] Arguments Z.sub : simpl never.
#[local] Arguments Z.add : simpl never.

#[local] Ltac lo_cases :=
  unfold at_edit, lo_wf, lo_le, shift, LO.add, LO.lengthDiffNonNegative, LO.isLessThan, LO.toLength,
    LO.zero in *; simpl in *.

Lemma translateOldToCur_shift st es old cur o :
  at_edit st es old cur -> lo_wf o -> lo_le old o ->
  translateOldToCur st o = LO.toLength (shift old cur o).
Proof.
  destruct old as [ol oc], cur as [cl cc], o as [l c].
  intros (_ & _ & Ho & Hc & Hl & Hd) Hwf Hle. unfold translateOldToCur. lo_cases. rewrite Hl.
  destruct Hd as [[-> ->]|(-> & [= -> ->] & [= -> ->])]; zbool; f_equal; lia.
Qed.

Lemma translateCurToOld_shift st es old cur x :
  at_edit st es old cur -> is_length x -> lo_le cur (lengthToObj x) ->
  translateCurToOld st x = LO.toLength (shift cur old (lengthToObj x)).
Proof.
  intros H Hx Hle. apply lengthToObj_wf in Hx. unfold translateCurToOld. revert Hx Hle.
  generalize (lengthToObj x) as o. intros o Hx Hle. destruct old as [ol oc], cur as [cl cc], o as [l c].
  destruct H as (_ & _ & Ho & Hc & Hl & Hd). lo_cases. rewrite Hl.
  destruct Hd as [[-> ->]|(-> & [= -> ->] & [= -> ->])]; zbool; f_equal; lia.
Qed.

Lemma shift_add old cur s n :
  lo_wf old -> lo_wf s -> lo_wf n -> lo_le old s -> shift old cur (LO.add s n) = LO.add (shift old cur s) n.
Proof.
  destruct old as [ol oc], cur as [cl cc], s as [l c], n as [nl nc]. intros.
  lo_cases. zbool; f_equal; lia.
Qed.

Lemma toObj_toLength o : lo_wf o -> lengthToObj (LO.toLength o) = o.
Proof. destruct o as [l c]. intros [? ?]. unfold LO.toLength. by apply lengthToObj_toLength. Qed.

Lemma lo_le_toLength a b : lo_wf a -> lo_wf b -> (LO.toLength a <= LO.toLength b <-> lo_le a b).
Proof.
  destruct a as [l c], b as [l' c']. intros [? ?] [? ?]. lo_cases.
  destruct (toLength_order l c l' c') as (-> & _); [done..|]. split; zbool.
Qed.

Lemma lengthAdd_obj a b :
  is_length a -> is_length b -> columnCount (LO.add (lengthToObj a) (lengthToObj b)) < factor ->
  lengthToObj (lengthAdd a b) = LO.add (lengthToObj a) (lengthToObj b).
Proof.
  intros (n & c & -> & ? & ?)%length_cases (n' & c' & -> & ? & ?)%length_cases.
  rewrite !lengthToObj_toLength, lengthAdd_toLength by done. unfold LO.add. simpl.
  destruct (Z.eqb_spec n' 0); simpl; intros; apply lengthToObj_toLength; lia.
Qed.

(** The facts about the next edit that every step uses. *)
Lemma edit_facts st e es old cur :
  at_edit st (e :: es) old cur -> edits_wf old cur (e :: es) ->
  translateOldToCur st (endOffsetAfterObj (from e)) = LO.toLength (end_in_cur old cur e) /\
  translateOldToCur st (endOffsetBeforeObj (from e)) = LO.toLength (shift old cur (lengthToObj (endOffset e))) /\
  translateOldToCur st (offsetObj (from e)) = LO.toLength (shift old cur (lengthToObj (startOffset e))) /\
  lo_wf (lengthToObj (endOffset e)) /\ lo_wf (end_in_cur old cur e) /\
  lo_wf (shift old cur (lengthToObj (endOffset e))) /\ lo_le old (lengthToObj (endOffset e)).
Proof.
  intros Hat (Hs & He & Hn & Hle & Hse & Hc1 & Hc2 & Hc3 & _).
  assert (Hat' := Hat). destruct Hat' as (_ & _ & Ho & Hcur & _).
  pose proof (lengthToObj_wf _ Hs) as Ws. pose proof (lengthToObj_wf _ He) as We.
  pose proof (lengthToObj_wf _ Hn) as Wn. unfold from. cbn [endOffsetAfterObj endOffsetBeforeObj offsetObj].
  rewrite lengthAdd_obj by done. unfold end_in_cur in *.
  assert (Hle' : lo_le old (lengthToObj (endOffset e))).
  { rewrite <- (toLength_lengthToObj (startOffset e)), <- (toLength_lengthToObj (endOffset e)) in Hse.
    apply lo_le_toLength in Hse; [|done..]. clear -Hle Hse. revert Hle Hse.
    generalize (lengthToObj (startOffset e)) (lengthToObj (endOffset e)). intros [] []. destruct old.
    lo_cases. zbool. }
  assert (Hpos : forall o, lo_wf o -> lo_le old o -> 0 <= lineCount (shift old cur o) /\ 0 <= columnCount (shift old cur o)).
  { clear -Ho Hcur. intros [l c] ? ?. destruct old, cur. lo_cases. zbool. }
  split_and!; try done.
  - erewrite (translateOldToCur_shift st); [by rewrite shift_add|done| |].
    + clear -Ws Wn Hc1. revert Ws Wn Hc1. generalize (lengthToObj (startOffset e)) (lengthToObj (newLength e)).
      intros [] []. lo_cases. zbool.
    + clear -Ws Wn Hle. revert Ws Wn Hle. generalize (lengthToObj (startOffset e)) (lengthToObj (newLength e)).
      intros [] []. destruct old. lo_cases. zbool.
  - by eapply translateOldToCur_shift.
  - by eapply translateOldToCur_shift.
  - destruct (Hpos _ Ws Hle) as [? ?]. revert Hc3 Wn H H0.
    generalize (shift old cur (lengthToObj (startOffset e))) (lengthToObj (newLength e)).
    clear. intros [] []. lo_cases. zbool.
  - destruct (Hpos _ We Hle'). by repeat split.
Qed.

(** Skipping an edit moves the state past it. *)
Lemma skipEdit_at st e es old cur x :
  at_edit st (e :: es) old cur -> edits_wf old cur (e :: es) ->
  match skipEdit st (from e) x with
  | Some st' => LO.toLength (end_in_cur old cur e) <= x /\
                at_edit st' es (lengthToObj (endOffset e)) (end_in_cur old cur e) /\ edits st' = edits st
  | None => x < LO.toLength (end_in_cur old cur e)
  end.
Proof.
  intros Hat Hwf. destruct (edit_facts _ _ _ _ _ Hat Hwf) as (E1 & E2 & _ & We & Wt & Ws & Hle).
  unfold skipEdit. rewrite E1, E2, !toObj_toLength by done. unfold lengthLessThanEqual.
  destruct (Z.leb_spec (LO.toLength (end_in_cur old cur e)) x); [|done].
  split; [done|]. split; [|done]. destruct Hat as (Hk & Hdrop & Ho & Hc & Hl & Hd).
  unfold at_edit. cbn [nextEditIdx edits deltaOldToNewLineCount deltaLineIdxInOld deltaOldToNewColumnCount].
  split_and!; try done; [lia| | |left; split; [done|]].
  - rewrite fmap_cons in Hdrop. replace (Z.to_nat (nextEditIdx st + 1)) with (Z.to_nat (nextEditIdx st) + 1)%nat by lia.
    by rewrite <- drop_drop, Hdrop.
  - cbn [endOffsetBeforeObj from]. revert Hle Ws. generalize (end_in_cur old cur e). intros t Hle Ws.
    destruct (lengthToObj (endOffset e)) as [el ec], old as [ol oc], cur as [cl cc]. clear E1 E2 Hdrop.
    lo_cases. revert Hle Ws. zbool.
  - cbn [endOffsetBeforeObj from]. revert Hle Ws We. generalize (end_in_cur old cur e). intros t Hle Ws We.
    destruct (lengthToObj (endOffset e)) as [el ec], old as [ol oc], cur as [cl cc]. clear E1 E2 Hdrop.
    destruct Hd as [[-> ->]|(-> & [= -> ->] & [= -> ->])]; lo_cases; revert Hle Ws; zbool.
Qed.

Lemma at_edit_next st es old cur :
  at_edit st es old cur ->
  (edits st).[nextEditIdx st] = head (from <$> es) /\
  (nextEditIdx st <? zlen (edits st)) = match es with [] => false | _ => true end /\
  (length es <= length (edits st))%nat.
Proof.
  intros (Hk & Hd & _). unfold at_, zlen. destruct (Z.ltb_spec (nextEditIdx st) 0); [lia|].
  assert (Hl := f_equal length Hd). rewrite length_drop, length_fmap in Hl. split_and!; [| |lia].
  - by rewrite <- Hd, head_lookup, lookup_drop, Nat.add_0_r.
  - destruct es as [|e es]; simpl in Hl.
    + destruct (Z.ltb_spec (nextEditIdx st) (Z.of_nat (length (edits st)))); lia.
    + destruct (Z.ltb_spec (nextEditIdx st) (Z.of_nat (length (edits st)))); lia.
Qed.

(** Where the loop stops: at the edit the search from the start stops at. *)
Lemma adjust_loop_stops fuel st es old cur x :
  (length es <= fuel)%nat -> at_edit st es old cur -> edits_wf old cur es ->
  LO.toLength cur <= x ->
  exists es' old' cur',
    at_edit (adjustNextEdit_loop fuel st x) es' old' cur' /\ edits_wf old' cur' es' /\
    LO.toLength cur' <= x /\ edits (adjustNextEdit_loop fuel st x) = edits st /\
    (forall e, head es' = Some e -> x < LO.toLength (end_in_cur old' cur' e)) /\
    (forall y, x <= y -> offset_before old cur es y = offset_before old' cur' es' y /\
                         distance_to_next old cur es y = distance_to_next old' cur' es' y).
Proof.
  revert st es old cur. induction fuel as [|fuel IH]; intros st es old cur Hf Hat Hwf Hx.
  - destruct es; [|simpl in Hf; lia]. exists [], old, cur. by split_and!.
  - destruct (at_edit_next _ _ _ _ Hat) as (Hnext & Hlt & _). cbn [adjustNextEdit_loop].
    rewrite Hlt, Hnext. destruct es as [|e es]; [by exists [], old, cur; split_and!|].
    cbn [fmap list_fmap head]. pose proof (skipEdit_at st e es old cur x Hat Hwf) as Hskip.
    destruct (skipEdit st (from e) x) as [st'|].
    + destruct Hskip as (Ht & Hat' & Hed).
      destruct (IH st' es _ _ ltac:(simpl in Hf; lia) Hat' ltac:(by destruct Hwf as (_ & _ & _ & _ & _ & _ & _ & _ & ?)) Ht)
        as (es' & old' & cur' & ? & ? & ? & Hed' & Hstop & Hy).
      exists es', old', cur'. rewrite Hed' in *. split_and!; try done. intros y Hle. cbn [offset_before distance_to_next].
      unfold lengthLessThanEqual. destruct (Z.leb_spec (LO.toLength (end_in_cur old cur e)) y); [|lia].
      by apply Hy.
    + exists (e :: es), old, cur. split_and!; try done. by intros ? [= <-].
Qed.

(** The query itself, and the state after it. *)
Lemma queries_stop st es old cur x :
  at_edit st es old cur -> edits_wf old cur es -> is_length x -> LO.toLength cur <= x ->
  exists es' old' cur' st', at_edit st' es' old' cur' /\ edits_wf old' cur' es' /\
    LO.toLength cur' <= x /\
    (forall y, x <= y -> offset_before old cur es y = offset_before old' cur' es' y /\
                         distance_to_next old cur es y = distance_to_next old' cur' es' y) /\
    getOffsetBeforeChange st x = (offset_before old cur es x, st') /\
    getDistanceToNextChange st x = (distance_to_next old cur es x, st').
Proof.
  intros Hat Hwf Hlx Hx. destruct (at_edit_next _ _ _ _ Hat) as (_ & _ & Hlen).
  destruct (adjust_loop_stops (length (edits st)) st es old cur x Hlen Hat Hwf Hx)
    as (es' & old' & cur' & Hat' & Hwf' & Hx' & Hed & Hstop & Hy).
  fold (adjustNextEdit st x) in *. exists es', old', cur', (adjustNextEdit st x).
  split_and!; try done.
  - unfold getOffsetBeforeChange. f_equal. destruct (Hy x ltac:(lia)) as [-> _].
    erewrite translateCurToOld_shift; [|done|done|].
    + destruct es' as [|e es']; [done|]. cbn [offset_before]. unfold lengthLessThanEqual.
      specialize (Hstop e eq_refl). by destruct (Z.leb_spec (LO.toLength (end_in_cur old' cur' e)) x); [lia|].
    + assert (Hcw : lo_wf cur') by (by destruct Hat' as (_ & _ & _ & ? & _)).
      apply lo_le_toLength; [done|by apply lengthToObj_wf|]. by rewrite toLength_lengthToObj.
  - unfold getDistanceToNextChange. destruct (Hy x ltac:(lia)) as [_ ->].
    destruct (at_edit_next _ _ _ _ Hat') as (-> & _ & _). destruct es' as [|e es']; [done|].
    cbn [fmap list_fmap head distance_to_next]. unfold lengthLessThanEqual.
    specialize (Hstop e eq_refl). destruct (Z.leb_spec (LO.toLength (end_in_cur old' cur' e)) x); [lia|].
    destruct (edit_facts _ _ _ _ _ Hat' Hwf') as (_ & _ & -> & _). done.
Qed.

(** Asking for places in order, for each the place before the edits and the distance. *)
Fixpoint run_queries (st : BeforeEditPositionMapper) (xs : list Length) : list (Length * option Length) :=
  match xs with
  | [] => []
  | x :: xs' =>
      let '(before, st1) := getOffsetBeforeChange st x in
      let '(distance, st2) := getDistanceToNextChange st1 x in
      (before, distance) :: run_queries st2 xs'
  end.

Lemma mapper_queries_from st es old cur xs lo :
  at_edit st es old cur -> edits_wf old cur es -> LO.toLength cur <= lo -> 0 <= lo ->
  StronglySorted Z.le (lo :: xs) ->
  run_queries st xs = (fun x => (offset_before old cur es x, distance_to_next old cur es x)) <$> xs.
Proof.
  revert st es old cur lo. induction xs as [|x xs IH]; intros st es old cur lo Hat Hwf Hc Hlo Hs; [done|].
  apply StronglySorted_inv in Hs as [Hs Hall]. apply Forall_cons in Hall as [Hlx Hall].
  cbn [run_queries]. destruct (queries_stop st es old cur x Hat Hwf) as
    (es1 & old1 & cur1 & st1 & Hat1 & Hwf1 & Hc1 & Hy1 & -> & _); [unfold is_length; lia|lia|].
  destruct (queries_stop st1 es1 old1 cur1 x Hat1 Hwf1) as
    (es2 & old2 & cur2 & st2 & Hat2 & Hwf2 & Hc2 & Hy2 & _ & ->); [unfold is_length; lia|lia|].
  cbn [fmap list_fmap]. f_equal; [by destruct (Hy1 x ltac:(lia)) as [_ ->]|].
  rewrite (IH st2 es2 old2 cur2 x) by (done || lia). apply StronglySorted_inv in Hs as [_ Hx].
  apply list_fmap_ext. intros k y Hk%list_elem_of_lookup_2. rewrite Forall_forall in Hx.
  specialize (Hx y Hk). destruct (Hy1 y Hx) as [-> ->]. by destruct (Hy2 y Hx) as [-> ->].
Qed.

(** C37: for places asked in increasing order, the mapper, whose state is an index and three
    numbers, answers as a search through all the edits from the start does for each place. *)
Theorem mapper_refines_search es xs :
  edits_wf LO.zero LO.zero es -> StronglySorted Z.le xs -> Forall is_length xs ->
  run_queries (new_BeforeEditPositionMapper es) xs =
    (fun x => (offset_before LO.zero LO.zero es x, distance_to_next LO.zero LO.zero es x)) <$> xs.
Proof.
  intros Hwf Hs Hxs. apply (mapper_queries_from _ _ _ _ _ 0); [|done|done|lia|by constructor].
  unfold at_edit, lo_wf, factor. simpl. split_and!; try done. by right.
Qed.

(** "abc\ndef" where "c\nd" became "xy" and "f" became "\n": the place after "ab" and
    "xye" and the new line. *)
Lemma mapper_refines_search_witness :
  let es := [mkTextEditInfo (toLength 0 2) (toLength 1 1) (toLength 0 2);
             mkTextEditInfo (toLength 1 2) (toLength 1 3) (toLength 1 0)] in
  let xs := [toLength 0 1; toLength 0 5; toLength 1 0] in
  (fun x => (offset_before LO.zero LO.zero es x, distance_to_next LO.zero LO.zero es x)) <$> xs =
    [(toLength 0 1, Some (toLength 0 1)); (toLength 1 2, Some (toLength 0 0)); (toLength 1 3, None)] /\
  run_queries (new_BeforeEditPositionMapper es) xs =
    (fun x => (offset_before LO.zero LO.zero es x, distance_to_next LO.zero LO.zero es x)) <$> xs.
Proof.
  split; [reflexivity|]. apply mapper_refines_search.
  - vm_compute. repeat split; discriminate.
  - repeat constructor; vm_compute; discriminate.
  - repeat constructor; vm_compute; discriminate.
Defined.
