(* ===== verification/CombineEdits.v ===== *)
(** * Two edits in a row, in terms of lengths

    [combineTextEditInfos], defined in EditInfos.v, against documents: [describes] says what
    a list of edit infos means for the text before and after, and combining two lists is
    proved to describe both edits in a row. *)

From S2P Require Import Prelude Position TextRange Length DocLength EditInfos.

#[local] Open Scope js_scope.

Import CTE.

#[local] Arguments Z.eqb : simpl never.
#[local] Arguments Z.ltb : simpl never.
#[local] Arguments Z.add : simpl never.
#[local] Arguments Z.sub : simpl never.

(** ** What edit infos and mappings mean *)

(** [es] describes the change from [p ++ d] to a document that ends in [d'], [p] being
    before the edits. *)
Fixpoint describes (p : doc) (es : list TextEditInfo) (d d' : doc) : Prop :=
  match es with
  | [] => d = d'
  | e :: es' => exists gap old new r r',
      d = gap ++ old ++ r /\ d' = gap ++ new ++ r' /\
      startOffset e = L (p ++ gap) /\ endOffset e = L (p ++ gap ++ old) /\ newLength e = L new /\
      describes (p ++ gap ++ old) es' r r'
  end.

(** The mappings take [x], piece by piece, to [u]. *)
Fixpoint exactly (ms : list LengthMapping) (x u : doc) : Prop :=
  match ms with
  | [] => x = [] /\ u = []
  | m :: ms' => exists a b x' u',
      x = a ++ x' /\ u = b ++ u' /\ lengthBefore m = L a /\ lengthAfter m = L b /\
      (modified m = false -> a = b) /\ exactly ms' x' u'
  end.

(** What follows the mapped pieces is unchanged. *)
Definition mapped (ms : list LengthMapping) (d d' : doc) : Prop :=
  exists x u r, d = x ++ r /\ d' = u ++ r /\ exactly ms x u.

Lemma exactly_app ms ms' x x' u u' :
  exactly ms x u -> exactly ms' x' u' -> exactly (ms ++ ms') (x ++ x') (u ++ u').
Proof.
  revert x u. induction ms as [|m ms IH]; intros x u.
  - by intros [-> ->].
  - intros (a & b & y & w & -> & -> & ? & ? & ? & ?) ?. exists a, b, (y ++ x'), (w ++ u').
    rewrite <- !app_assoc. split_and!; try done. by apply IH.
Qed.

Lemma mapped_cons m ms a b d d' :
  lengthBefore m = L a -> lengthAfter m = L b -> (modified m = false -> a = b) ->
  mapped ms d d' -> mapped (m :: ms) (a ++ d) (b ++ d').
Proof.
  intros ??? (x & u & r & -> & -> & Hx). exists (a ++ x), (b ++ u), r. rewrite <- !app_assoc.
  split_and!; try done. by exists a, b, x, u.
Qed.

Lemma toLengthMapping_mapped p es d d' :
  small (p ++ d) -> describes p es d d' -> mapped (toLengthMapping_from (L p) es) d d'.
Proof.
  revert p d d'. induction es as [|e es IH]; intros p d d' Hs.
  - intros ->. by exists [], [], d'.
  - intros (g & old & new & r & r' & -> & -> & Es & Ee & En & Hr). cbn [toLengthMapping_from].
    rewrite Es, Ee, En. assert (Hs' : small ((p ++ g ++ old) ++ r)) by (by rewrite <- !app_assoc).
    destruct (small_app _ _ Hs') as [Hsg _]. rewrite app_assoc in Hsg.
    destruct (small_app _ _ Hsg) as [Hg _]. rewrite L_diff by done.
    rewrite (app_assoc p g old), L_diff by done. rewrite <- app_assoc.
    assert (Hm : mapped (mkMapping true (L old) (L new) :: toLengthMapping_from (L (p ++ g ++ old)) es)
      (old ++ r) (new ++ r')) by (apply mapped_cons; [done..|by apply IH]).
    unfold lengthIsZero. destruct (Z.eqb_spec (L g) 0) as [E|].
    + apply L_zero in E as ->; [done|]. by destruct (small_app _ _ Hg).
    + by apply mapped_cons.
Qed.

(** Two ways to cut a document in two. *)
Lemma app_cases {A} (b r u v : list A) :
  b ++ r = u ++ v ->
  (exists k, u = b ++ k /\ r = k ++ v) \/ (exists k, k <> [] /\ b = u ++ k /\ v = k ++ r).
Proof.
  intros [k [[-> ->]|[-> ->]]]%app_eq_app; [|by left; exists k].
  destruct k as [|s k]; [|by right; exists (s :: k)].
  left. exists []. by rewrite !app_nil_r.
Qed.

(** ** Taking a stretch of the middle document *)

(** The mappings taken reach [u1]; what is missing of [u], [w], is past the last mapping. *)
Definition taken (res ms' : list LengthMapping) (x u0 r u v : doc) (len : Length) : Prop :=
  exists x1 u1 w x2 u2,
    x = x1 ++ x2 /\ u0 = u1 ++ u2 /\ u = u1 ++ w /\ u2 ++ r = w ++ v /\ len = L w /\
    exactly res x1 u1 /\ exactly ms' x2 u2 /\ (w <> [] -> ms' = []).

Lemma take_loop_taken fuel ms x u0 r u v :
  (length ms < fuel)%nat -> small (u0 ++ r) -> exactly ms x u0 -> u0 ++ r = u ++ v ->
  let '(res, len, ms') := take_loop fuel ms (L u) in taken res ms' x u0 r u v len.
Proof.
  revert ms x u0 u. induction fuel as [|fuel IH]; intros ms x u0 u Hf Hs Hms E; [lia|].
  assert (Hsu : small u) by (rewrite E in Hs; by apply small_app in Hs as [? _]).
  cbn [take_loop]. destruct ms as [|m ms].
  { destruct Hms as [-> ->]. exists [], [], u, [], []. by split_and!. }
  unfold lengthIsZero. destruct (Z.eqb_spec (L u) 0) as [Hz|].
  { apply L_zero in Hz as ->; [|done]. exists [], [], [], x, u0. by split_and!. }
  destruct Hms as (a & b & x' & u' & -> & -> & Hb & Ha & Hm & Hms).
  rewrite <- app_assoc in Hs, E. unfold splitAt. rewrite Ha, Hb.
  destruct (app_cases b (u' ++ r) u v E) as [(k & -> & E')|(k & Hk & -> & ->)].
  - rewrite L_diff_prefix by done. cbn [lengthEquals]. change (lengthEquals lengthZero lengthZero) with true.
    cbv iota. rewrite Ha, L_diff by done. simpl in Hf.
    specialize (IH ms x' u' k ltac:(lia) (proj2 (small_app _ _ Hs)) Hms E').
    destruct (take_loop fuel ms (L k)) as [[res len] ms'].
    destruct IH as (x1 & u1 & w & x2 & u2 & -> & -> & -> & ? & ? & ? & ? & ?).
    exists (a ++ x1), (b ++ u1), w, x2, u2. rewrite <- !app_assoc. split_and!; try done.
    by exists a, b, x1, u1.
  - assert (Hsb : small (u ++ k)) by (rewrite <- app_assoc in Hs; rewrite app_assoc in Hs; by apply small_app in Hs as [? _]).
    rewrite L_diff by done.
    unfold lengthEquals. destruct (Z.eqb_spec (L k) lengthZero) as [Hz|].
    { destruct Hk. apply L_zero; [|done]. by apply small_app in Hsb as [_ ?]. }
    assert (Hstop : forall r', take_loop fuel (r' :: ms) (lengthDiffNonNegative (L u) (L u)) =
      ([], lengthZero, r' :: ms)).
    { intros r'. rewrite <- (app_nil_r u) at 2. rewrite L_diff by (by rewrite app_nil_r).
      rewrite L_nil. by destruct fuel. }
    destruct (modified m) eqn:Em; cbv iota; cbn [lengthAfter];
      match goal with |- context [take_loop fuel (?r' :: ms)] => rewrite (Hstop r') end.
    + exists a, u, [], x', (k ++ u'). rewrite <- !app_assoc, (app_nil_r u). split_and!; try done.
      * exists a, u, [], []. rewrite !app_nil_r. by split_and!.
      * exists [], k, x', u'. by split_and!.
    + rewrite (Hm eq_refl). exists u, u, [], (k ++ x'), (k ++ u'). rewrite <- !app_assoc, (app_nil_r u). split_and!; try done.
      * exists u, u, [], []. rewrite !app_nil_r. by split_and!.
      * exists k, k, x', u'. by split_and!.
Qed.

Lemma nextS0ToS1_exactly ms d u v :
  small (u ++ v) -> mapped ms d (u ++ v) ->
  let '(res, ms') := nextS0ToS1MapWithS1LengthOf ms (Some (L u)) in
  exists y z, d = y ++ z /\ exactly res y u /\ mapped ms' z v.
Proof.
  intros Hs (x & u0 & r & -> & E & Hms). unfold nextS0ToS1MapWithS1LengthOf.
  rewrite E in Hs. pose proof (take_loop_taken (S (length ms)) ms x u0 r u v ltac:(lia) Hs Hms (eq_sym E)) as H.
  destruct (take_loop _ ms (L u)) as [[res len] ms'].
  destruct H as (x1 & u1 & w & x2 & u2 & -> & -> & -> & E' & -> & Hres & Hms' & Hw).
  unfold lengthIsZero. assert (Hsw : small w).
  { rewrite <- app_assoc, E', app_assoc in Hs. apply small_app in Hs as [Hs _]. by apply small_app in Hs as [_ ?]. }
  destruct (Z.eqb_spec (L w) 0) as [Hz|Hne]; simpl.
  - apply L_zero in Hz as ->; [|done]. exists x1, (x2 ++ r). rewrite app_nil_r, <- app_assoc. split_and!; try done.
    exists x2, u2, r. by split_and!.
  - assert (w <> []) as Hw' by (by intros ->). rewrite (Hw Hw') in *. destruct Hms' as [-> ->]. simpl in E'.
    subst r. exists (x1 ++ w), v. rewrite app_nil_r, <- app_assoc. split_and!; try done.
    + apply exactly_app; [done|]. exists w, w, [], []. rewrite !app_nil_r. by split_and!.
    + by exists [], [], v.
Qed.

(** ** Pushing edits *)

(** An edit that starts where the last one ends is merged with it. *)
Lemma describes_merge p init l e es d d' :
  small (p ++ d) -> small d' -> endOffset l = startOffset e ->
  describes p (init ++ l :: e :: es) d d' ->
  describes p (init ++ mkTextEditInfo (startOffset l) (endOffset e) (lengthAdd (newLength l) (newLength e)) :: es) d d'.
Proof.
  revert p d d'. induction init as [|i init IH]; intros p d d' Hs Hs' E.
  - intros (g & old & new & r & r' & -> & -> & Es & Ee & En & g' & old' & new' & q & q' & -> & -> & Es' & Ee' & En' & Hr).
    simpl. rewrite <- !app_assoc in *.
    assert (g' = []) as ->.
    { rewrite Ee, Es' in E. rewrite !app_assoc in E, Hs. apply (L_prefix_inj ((p ++ g) ++ old)); [|done].
      by apply small_app in Hs as [? _]. }
    exists g, (old ++ old'), (new ++ new'), q, q'. rewrite <- !app_assoc. simpl in *.
    rewrite En, En', L_app by (rewrite !app_assoc in Hs'; apply small_app in Hs' as [Hs' _];
      rewrite <- app_assoc in Hs'; by apply small_app in Hs' as [_ ?]).
    split_and!; try done.
  - intros (g & old & new & r & r' & -> & -> & Es & Ee & En & Hr). exists g, old, new, r, r'.
    split_and!; try done. apply IH; [by rewrite <- !app_assoc| |done|done].
    apply small_app in Hs' as [_ Hs']. by apply small_app in Hs' as [_ ?].
Qed.

Section combine.
Context (d0 d2 : doc).
Hypothesis (Hsmall0 : small d0) (Hsmall2 : small d2).

(** The edits so far: whatever describes the rest completes them. *)
Definition output (result : list TextEditInfo) (p r0 r2 : doc) : Prop :=
  small (p ++ r0) /\ forall es, describes p es r0 r2 -> describes [] (reverse result ++ es) d0 d2.

Lemma pushEdit_output result p a b r0 r2 :
  output result p (a ++ r0) (b ++ r2) ->
  output (pushEdit result (L p) (L (p ++ a)) (L b)) (p ++ a) r0 r2.
Proof.
  intros [Hs Hout]. split; [by rewrite <- app_assoc|]. intros es Hes.
  assert (Hnew : describes [] (reverse result ++ mkTextEditInfo (L p) (L (p ++ a)) (L b) :: es) d0 d2).
  { apply Hout. exists [], a, b, r0, r2. by rewrite !app_nil_r. }
  unfold pushEdit. destruct result as [|l result]; [done|].
  unfold lengthEquals. rewrite reverse_cons, <- app_assoc in Hnew.
  destruct (Z.eqb_spec (endOffset l) (L p)); rewrite reverse_cons, <- app_assoc.
  - refine (describes_merge [] _ l (mkTextEditInfo _ _ _) es d0 d2 Hsmall0 Hsmall2 _ Hnew). done.
  - by rewrite reverse_cons, <- !app_assoc.
Qed.

(** A stretch that is the same before and after is stepped over. *)
Lemma output_skip result p a r0 r2 :
  output result p (a ++ r0) (a ++ r2) -> output result (p ++ a) r0 r2.
Proof.
  intros [Hs Hout]. split; [by rewrite <- app_assoc|]. intros [|e es] Hes; apply Hout.
  - simpl in Hes. by subst.
  - destruct Hes as (g & old & new & r & r' & -> & -> & Es & Ee & En & Hr).
    exists (a ++ g), old, new, r, r'. by rewrite <- !app_assoc in *.
Qed.

Lemma copy_output ms result p x u r0 r2 :
  exactly ms x u -> output result p (x ++ r0) (u ++ r2) ->
  let '(result', s0offset) := fold_left copy_step ms (result, L p) in
  s0offset = L (p ++ x) /\ output result' (p ++ x) r0 r2.
Proof.
  revert result p x u. induction ms as [|m ms IH]; intros result p x u Hms Hout.
  - destruct Hms as [-> ->]. simpl. by rewrite app_nil_r.
  - destruct Hms as (a & b & x' & u' & -> & -> & Hb & Ha & Hm & Hms).
    rewrite <- !app_assoc in Hout. cbn [fold_left copy_step].
    assert (Hs : small (p ++ a)) by (destruct Hout as [Hs _]; rewrite app_assoc in Hs; by apply small_app in Hs as [? _]).
    rewrite Hb, Ha, L_app by done. rewrite (app_assoc p a x').
    destruct (modified m).
    + apply (IH _ (p ++ a) x' u'); [done|]. by apply pushEdit_output.
    + apply (IH _ (p ++ a) x' u'); [done|]. rewrite <- (Hm eq_refl) in Hout. by apply output_skip.
Qed.

Lemma sumLengths_exactly ms x u : small x -> exactly ms x u -> sumLengths ms lengthBefore = L x.
Proof.
  intros Hs Hms. unfold sumLengths. change lengthZero with (L []).
  assert (H : forall y, small (y ++ x) -> fold_left (fun a b => lengthAdd a (lengthBefore b)) ms (L y) = L (y ++ x));
    [|by apply (H [])].
  clear Hs. revert x u Hms. induction ms as [|m ms IH]; intros x u Hms y Hs.
  - destruct Hms as [-> ->]. by rewrite app_nil_r.
  - destruct Hms as (a & b & x' & u' & -> & -> & Hb & _ & _ & Hms). cbn [fold_left].
    rewrite app_assoc in Hs |- *. rewrite Hb, L_app by (by apply small_app in Hs as [? _]).
    by eapply IH.
Qed.

(** The whole second list, item by item. *)
Lemma combine_steps ms2 ms1 result p r0 u t r1 :
  exactly ms2 u t -> small (u ++ r1) -> mapped ms1 r0 (u ++ r1) -> output result p r0 (t ++ r1) ->
  let '(_, result', _) :=
    fold_left combine_step
      (((fun m => (modified m, Some (lengthBefore m), lengthAfter m)) <$> ms2) ++ [(false, None, lengthZero)])
      (ms1, result, L p) in
  describes [] (reverse result') d0 d2.
Proof.
  revert ms1 result p r0 u t. induction ms2 as [|m ms2 IH]; intros ms1 result p r0 u t Hms2 Hs1 Hms1 Hout.
  - destruct Hms2 as [-> ->]. simpl. destruct Hms1 as (x & w & r & -> & Er & Hx). simpl in Er. subst r1.
    pose proof (copy_output ms1 result p x w r r Hx Hout) as Hc.
    destruct (fold_left copy_step ms1 (result, L p)) as [result' off]. destruct Hc as [_ [_ Hd]].
    specialize (Hd [] eq_refl). by rewrite app_nil_r in Hd.
  - destruct Hms2 as (a & b & u' & t' & -> & -> & Hb & Ha & Hm & Hms2). rewrite <- app_assoc in Hs1, Hms1, Hout.
    cbn [fmap list_fmap app fold_left]. unfold combine_step at 2. rewrite Hb, Ha.
    pose proof (nextS0ToS1_exactly ms1 r0 a (u' ++ r1) Hs1 Hms1) as Hnext.
    destruct (nextS0ToS1MapWithS1LengthOf ms1 (Some (L a))) as [res ms1'].
    destruct Hnext as (y & z & -> & Hres & Hms1'). destruct (small_app _ _ Hs1) as [_ Hs1'].
    assert (Hsy : small (p ++ y)) by (destruct Hout as [Hs _]; rewrite app_assoc in Hs; by apply small_app in Hs as [? _]).
    destruct (modified m).
    + rewrite (sumLengths_exactly res y a) by (try done; by apply small_app in Hsy as [_ ?]).
      rewrite L_app by done. apply (IH _ _ _ z u' t'); [done..|]. by apply pushEdit_output.
    + rewrite <- (Hm eq_refl) in Hout. pose proof (copy_output res result p y a z (t' ++ r1) Hres Hout) as Hc.
      destruct (fold_left copy_step res (result, L p)) as [result' off]. destruct Hc as [-> Hc].
      by apply (IH _ _ _ z u' t').
Qed.
End combine.

(** C36: if one list of edit infos describes the change from a document to a second, and
    another from that to a third, all of fewer than 2^26 symbols, the combined list describes
    the change from the first to the third. *)
Theorem combine_describes es1 es2 d0 d1 d2 :
  small d0 -> small d1 -> small d2 ->
  describes [] es1 d0 d1 -> describes [] es2 d1 d2 ->
  describes [] (combineTextEditInfos es1 es2) d0 d2.
Proof.
  intros Hs0 Hs1 Hs2 H1 H2. unfold combineTextEditInfos.
  destruct es1 as [|e1 es1]; [simpl in H1; by subst|]. destruct es2 as [|e2 es2]; [simpl in H2; by subst|].
  rewrite !zlen_cons. pose proof (zlen_nonneg es1). pose proof (zlen_nonneg es2).
  destruct (Z.eqb_spec (zlen es1 + 1) 0); [lia|]. destruct (Z.eqb_spec (zlen es2 + 1) 0); [lia|].
  apply (toLengthMapping_mapped []) in H1; [|done]. apply (toLengthMapping_mapped []) in H2; [|done].
  destruct H2 as (u & t & r & -> & -> & Hx). unfold toLengthMapping. rewrite L_nil in *.
  pose proof (combine_steps d0 (t ++ r) Hs0 Hs2 _ _ [] [] d0 u t r Hx Hs1 H1) as H2.
  rewrite L_nil in H2. destruct (fold_left _ _ _) as [[? ?] ?]. by apply H2.
Qed.

(** "ab" typed after the first symbol, then the second letter and what follows replaced. *)
Lemma combine_describes_witness :
  combineTextEditInfos [mkTextEditInfo (toLength 0 1) (toLength 0 1) (toLength 0 2)]
    [mkTextEditInfo (toLength 0 2) (toLength 1 0) (toLength 2 0)] =
    [mkTextEditInfo (toLength 0 1) (toLength 1 0) (toLength 2 0)] /\
  describes [] (combineTextEditInfos [mkTextEditInfo (toLength 0 1) (toLength 0 1) (toLength 0 2)]
    [mkTextEditInfo (toLength 0 2) (toLength 1 0) (toLength 2 0)])
    [Unit; Break; Unit] [Unit; Unit; Break; Break; Unit].
Proof.
  split; [reflexivity|].
  apply (combine_describes _ _ _ [Unit; Unit; Unit; Break; Unit]); [reflexivity..| |].
  - exists [Unit], [], [Unit; Unit], [Break; Unit], [Break; Unit]. repeat split.
  - exists [Unit; Unit], [Unit; Break], [Break; Break], [Unit], [Unit]. repeat split.
Defined.
