(* ===== verification/SmallSet.v ===== *)
(** * Sets of small keys as bits

    [src/src/vs/editor/common/model/bracketPairsTextModelPart/bracketPairsTree/smallImmutableSet.ts]:
    [SmallImmutableSet] keeps the keys below 32 in one 32-bit integer and the others in an
    array of further ones; [DenseKeyProvider] gives values their keys.  The integers are
    signed, as JavaScript's bit operators make them.

    The cache of [create] only shares equal objects, so that [create] is the constructor
    here; and no empty [additionalItems] other than [emptyArr] is ever made, so that the
    comparison with [emptyArr] is one of lengths. *)

From S2P Require Import Prelude.

#[local] Open Scope js_scope.

Record SmallImmutableSet : Type := mkSet { items : Z; additionalItems : list Z }.

#[export] Instance SmallImmutableSet_eq_dec : EqDecision SmallImmutableSet.
Proof. solve_decision. Defined.

(** [x << n], which uses the low five bits of [n]. *)
Definition shl32 (x n : Z) : Z := to_int32 (Z.shiftl x (Z.land n 31)).

(** [a[i] = v] for [i <= a.length]. *)
Definition put_item (a : list Z) (i v : Z) : list Z :=
  if i =? zlen a then a ++ [v] else set_at a i v.

Module SIS.

Definition create (items : Z) (additionalItems : list Z) : SmallImmutableSet := mkSet items additionalItems.

Definition getEmpty : SmallImmutableSet := create 0 [].

(** [key] is what the key provider gives. *)
Definition add (this : SmallImmutableSet) (key : Z) : SmallImmutableSet :=
  let idx := Z.shiftr key 5 in
  if idx =? 0 then
    let newItem := Z.lor (shl32 1 key) (items this) in
    if newItem =? items this then this else create newItem (additionalItems this)
  else
    let idx := idx - 1 in
    let newItems := additionalItems this ++
      replicate (Z.to_nat (idx - zlen (additionalItems this))) 0 in
    let newItems := put_item newItems idx
      (Z.lor (default 0 (newItems.[idx])) (shl32 1 (Z.land key 31))) in
    create (items this) newItems.

Definition has (this : SmallImmutableSet) (key : Z) : bool :=
  let idx := Z.shiftr key 5 in
  if idx =? 0 then negb (Z.land (items this) (shl32 1 key) =? 0)
  else
    let idx := idx - 1 in
    negb (Z.land (default 0 ((additionalItems this).[idx])) (shl32 1 (Z.land key 31)) =? 0).

Definition merge (this other : SmallImmutableSet) : SmallImmutableSet :=
  let merged := Z.lor (items this) (items other) in
  if (zlen (additionalItems this) =? 0) && (zlen (additionalItems other) =? 0) then
    if merged =? items this then this
    else if merged =? items other then other
    else create merged []
  else
    create merged
      ((fun i => Z.lor (default 0 ((additionalItems this).[i])) (default 0 ((additionalItems other).[i])))
         <$> zrange 0 (Z.max (zlen (additionalItems this)) (zlen (additionalItems other)))).

Definition intersects (this other : SmallImmutableSet) : bool :=
  if negb (Z.land (items this) (items other) =? 0) then true
  else
    existsb (fun i => negb (Z.land (default 0 ((additionalItems this).[i]))
                              (default 0 ((additionalItems other).[i])) =? 0))
      (zrange 0 (Z.min (zlen (additionalItems this)) (zlen (additionalItems other)))).

Definition equals (this other : SmallImmutableSet) : bool :=
  if negb (items this =? items other) then false
  else if negb (zlen (additionalItems this) =? zlen (additionalItems other)) then false
  else
    negb (existsb (fun i => negb (default 0 ((additionalItems this).[i]) =? default 0 ((additionalItems other).[i])))
            (zrange 0 (zlen (additionalItems this)))).

End SIS.

(** ** [DenseKeyProvider] *)

Module DKP.
Section provider.
Context {T : Type} `{EqDecision T}.

(** The [Map], in insertion order. *)
Record DenseKeyProvider : Type := mkProvider { entries : list (T * Z) }.

Definition get (m : list (T * Z)) (value : T) : option Z :=
  snd <$> List.find (fun e => bool_decide (e.1 = value)) m.

Definition getKey (this : DenseKeyProvider) (value : T) : Z * DenseKeyProvider :=
  match get (entries this) value with
  | Some existing => (existing, this)
  | None =>
      let existing := zlen (entries this) in
      (existing, mkProvider (entries this ++ [(value, existing)]))
  end.

Definition reverseLookup (this : DenseKeyProvider) (value : Z) : option T :=
  fst <$> List.find (fun e => e.2 =? value) (entries this).

Definition reverseLookupSet (this : DenseKeyProvider) (set : SmallImmutableSet) : list T :=
  (List.filter (fun e => SIS.has set (getKey this e.1).1) (entries this)).*1.

Definition keys (this : DenseKeyProvider) : list T := (entries this).*1.

End provider.
Arguments DenseKeyProvider : clear implicits.
End DKP.

Import SIS.

(** ** Bits *)

(** What a key in the set means. *)
Definition mem (s : SmallImmutableSet) (k : Z) : bool :=
  if k <? 32 then Z.testbit (items s) k
  else Z.testbit (default 0 ((additionalItems s).[k / 32 - 1])) (k mod 32).

(** Every integer is a signed 32-bit one, and the last is not 0. *)
Definition set_wf (s : SmallImmutableSet) : Prop :=
  is_int32 (items s) /\ Forall is_int32 (additionalItems s) /\ last (additionalItems s) <> Some 0.

Lemma testbit_to_int32 x k : 0 <= k < 32 -> Z.testbit (to_int32 x) k = Z.testbit x k.
Proof.
  intros Hk. unfold to_int32. destruct (Z.ltb_spec (x mod 2 ^ 32) (2 ^ 31)).
  - by rewrite Z.mod_pow2_bits_low by lia.
  - rewrite <- (Z.mod_pow2_bits_low x 32) by lia. rewrite <- (Z.mod_pow2_bits_low _ 32 k) by lia.
    rewrite <- (Z.mod_pow2_bits_low (x mod 2 ^ 32) 32 k) by lia. f_equal.
    rewrite Zminus_mod, Z_mod_same_full, Z.sub_0_r, Z.mod_mod by lia. by rewrite Z.mod_mod by lia.
Qed.

Lemma shl32_one k : 0 <= k -> forall j, 0 <= j < 32 -> Z.testbit (shl32 1 k) j = (j =? k mod 32).
Proof.
  intros Hk j Hj. unfold shl32. rewrite testbit_to_int32 by done. change 31 with (Z.ones 5).
  rewrite Z.land_ones by lia. change (2 ^ 5) with 32. pose proof (Z.mod_pos_bound k 32 ltac:(lia)).
  rewrite Z.shiftl_1_l, Z.pow2_bits_eqb by lia. apply Z.eqb_sym.
Qed.

(** 32-bit integers are their 32 bits. *)
Lemma int32_bits x y :
  is_int32 x -> is_int32 y -> (forall j, 0 <= j < 32 -> Z.testbit x j = Z.testbit y j) -> x = y.
Proof.
  intros Hx Hy Hj. assert (E : x mod 2 ^ 32 = y mod 2 ^ 32).
  { apply Z.bits_inj'. intros n Hn. destruct (Z.lt_ge_cases n 32).
    - rewrite !Z.mod_pow2_bits_low by lia. by apply Hj.
    - by rewrite !Z.mod_pow2_bits_high by lia. }
  unfold is_int32 in *. Z.div_mod_to_equations. lia.
Qed.

Lemma int32_zero_bits x : is_int32 x -> (x = 0 <-> forall j, 0 <= j < 32 -> Z.testbit x j = false).
Proof.
  intros Hx. split; [intros -> j _; apply Z.bits_0|]. intros Hj. apply int32_bits; [done|done|].
  intros j ?. by rewrite Hj, Z.bits_0.
Qed.

(** A signed 32-bit integer is its sign above bit 30. *)
Lemma int32_sign z : is_int32 z <-> Z.shiftr z 31 = 0 \/ Z.shiftr z 31 = -1.
Proof. unfold is_int32. rewrite Z.shiftr_div_pow2 by lia. Z.div_mod_to_equations. lia. Qed.

Lemma int32_lor x y : is_int32 x -> is_int32 y -> is_int32 (Z.lor x y).
Proof.
  rewrite !int32_sign. intros Hx Hy. rewrite Z.shiftr_lor. destruct Hx as [-> | ->], Hy as [-> | ->]; simpl; auto.
Qed.

Lemma int32_land x y : is_int32 x -> is_int32 y -> is_int32 (Z.land x y).
Proof.
  rewrite !int32_sign. intros Hx Hy. rewrite Z.shiftr_land. destruct Hx as [-> | ->], Hy as [-> | ->]; simpl; auto.
Qed.

Lemma int32_shl x n : is_int32 (shl32 x n).
Proof. apply to_int32_range. Qed.

(** ** The items *)

Lemma item_int32 s i : set_wf s -> is_int32 (default 0 ((additionalItems s).[i])).
Proof.
  intros (_ & Hf & _). destruct ((additionalItems s).[i]) as [x|] eqn:E; [|done].
  simpl. rewrite Forall_forall in Hf. apply Hf. by eapply at_elem_of.
Qed.

Lemma item_past s i : zlen (additionalItems s) <= i -> default 0 ((additionalItems s).[i]) = 0.
Proof.
  intros Hi. destruct ((additionalItems s).[i]) as [x|] eqn:E; [|done].
  apply at_lt in E. lia.
Qed.

Lemma key_shift k : Z.shiftr k 5 = k / 32.
Proof. by rewrite Z.shiftr_div_pow2 by lia. Qed.

(** Testing with a single bit. *)
Lemma land_bit x k :
  is_int32 x -> 0 <= k -> negb (Z.land x (shl32 1 k) =? 0) = Z.testbit x (k mod 32).
Proof.
  intros Hx Hk. pose proof (Z.mod_pos_bound k 32 ltac:(lia)).
  pose proof (int32_zero_bits _ (int32_land x _ Hx (int32_shl 1 k))) as Hz.
  destruct (Z.eqb_spec (Z.land x (shl32 1 k)) 0) as [E|Hne]; simpl.
  - destruct Hz as [Hz _]. specialize (Hz E (k mod 32) ltac:(lia)).
    rewrite Z.land_spec, shl32_one, Z.eqb_refl, andb_true_r in Hz by lia. done.
  - destruct (Z.testbit x (k mod 32)) eqn:Eb; [done|]. destruct Hne, Hz as [_ Hz]. apply Hz.
    intros j Hj. rewrite Z.land_spec, shl32_one by lia.
    destruct (Z.eqb_spec j (k mod 32)) as [->|]; [by rewrite Eb|apply andb_false_r].
Qed.

Lemma has_mem s k : set_wf s -> 0 <= k -> has s k = mem s k.
Proof.
  intros Hs Hk. unfold has, mem. rewrite key_shift.
  destruct (Z.eqb_spec (k / 32) 0), (Z.ltb_spec k 32);
    try (exfalso; Z.div_mod_to_equations; lia).
  - rewrite land_bit by (by destruct Hs || done). by rewrite Z.mod_small by lia.
  - rewrite land_bit; [|by apply item_int32|by apply Z.land_nonneg; right].
    change 31 with (Z.ones 5). rewrite Z.land_ones by lia. by rewrite Z.mod_mod by lia.
Qed.

(** Where the bit of a key is: [None] is [items]. *)
Lemma mem_items s j : 0 <= j < 32 -> mem s j = Z.testbit (items s) j.
Proof. intros. unfold mem. by destruct (Z.ltb_spec j 32); [|lia]. Qed.

Lemma mem_item s i j :
  0 <= i -> 0 <= j < 32 -> mem s (32 * (i + 1) + j) = Z.testbit (default 0 ((additionalItems s).[i])) j.
Proof.
  intros. unfold mem. destruct (Z.ltb_spec (32 * (i + 1) + j) 32); [lia|].
  replace ((32 * (i + 1) + j) / 32 - 1) with i by (Z.div_mod_to_equations; lia).
  by replace ((32 * (i + 1) + j) mod 32) with j by (Z.div_mod_to_equations; lia).
Qed.

(** Every key is one or the other. *)
Lemma key_cases k : 0 <= k -> 0 <= k < 32 \/ exists i j, k = 32 * (i + 1) + j /\ 0 <= i /\ 0 <= j < 32.
Proof.
  intros. destruct (Z.lt_ge_cases k 32); [by left|right].
  exists (k / 32 - 1), (k mod 32). Z.div_mod_to_equations. lia.
Qed.

Lemma sets_equal s t :
  set_wf s -> set_wf t -> (forall k, 0 <= k -> mem s k = mem t k) -> s = t.
Proof.
  intros Hs Ht Hk. assert (Hi : items s = items t).
  { apply int32_bits; [by destruct Hs|by destruct Ht|]. intros j Hj. rewrite <- !mem_items by done. apply Hk. lia. }
  assert (Ha : forall i, 0 <= i -> default 0 ((additionalItems s).[i]) = default 0 ((additionalItems t).[i])).
  { intros i Hi0. apply int32_bits; [by apply item_int32..|]. intros j Hj.
    rewrite <- !mem_item by done. apply Hk. lia. }
  assert (Hlast : forall u v, set_wf u -> (forall i, 0 <= i -> default 0 ((additionalItems u).[i]) = default 0 ((additionalItems v).[i])) ->
    zlen (additionalItems u) <= zlen (additionalItems v)).
  { intros u v (_ & _ & Hl) E. destruct (Z.le_gt_cases (zlen (additionalItems u)) (zlen (additionalItems v))); [done|].
    pose proof (zlen_nonneg (additionalItems v)). specialize (E (zlen (additionalItems u) - 1) ltac:(lia)).
    rewrite (item_past v) in E by lia. destruct Hl. rewrite last_lookup.
    destruct (at_in_range (additionalItems u) (zlen (additionalItems u) - 1) ltac:(lia)) as [x Hx].
    rewrite Hx in E. simpl in E. subst x. rewrite <- at_nat, <- Hx. f_equal. unfold zlen in *. lia. }
  assert (Hlen : zlen (additionalItems s) = zlen (additionalItems t)).
  { pose proof (Hlast s t Hs Ha). pose proof (Hlast t s Ht ltac:(intros; symmetry; by apply Ha)). lia. }
  destruct s as [si sa], t as [ti ta]. simpl in *. f_equal; [done|]. apply list_eq. intros n.
  specialize (Ha (Z.of_nat n) ltac:(lia)). rewrite !at_nat in Ha. unfold zlen in Hlen.
  destruct (sa !! n) as [x|] eqn:Ex, (ta !! n) as [y|] eqn:Ey; simpl in Ha; try done; [by subst| |].
  - apply lookup_lt_Some in Ex. apply lookup_ge_None in Ey. lia.
  - apply lookup_lt_Some in Ey. apply lookup_ge_None in Ex. lia.
Qed.

(** ** The operations *)

(** The item that a key is added to, the array having grown to it. *)
Lemma grown_item (a : list Z) idx i :
  0 <= idx -> default 0 ((a ++ replicate (Z.to_nat (idx - zlen a)) 0).[i]) = default 0 (a.[i]).
Proof.
  intros Hidx. unfold at_. destruct (Z.ltb_spec i 0); [done|].
  destruct (decide (Z.to_nat i < length a)%nat); [by rewrite lookup_app_l|].
  rewrite lookup_app_r by lia. rewrite (lookup_ge_None_2 a) by lia.
  destruct (replicate _ 0 !! _) as [x|] eqn:E; [|done]. by apply lookup_replicate in E as [-> _].
Qed.

Lemma zlen_grown (a : list Z) idx :
  zlen (a ++ replicate (Z.to_nat (idx - zlen a)) 0) = Z.max (zlen a) idx.
Proof. rewrite zlen_app. unfold zlen at 2. rewrite length_replicate. lia. Qed.

Lemma at_put_item a i v j :
  0 <= i <= zlen a -> (put_item a i v).[j] = if j =? i then Some v else a.[j].
Proof.
  intros Hi. unfold put_item, set_at, at_, zlen in *. destruct (Z.ltb_spec j 0).
  { by destruct (Z.eqb_spec j i); [lia|]. }
  destruct (Z.eqb_spec i (Z.of_nat (length a))) as [E|].
  - destruct (Z.eqb_spec j i) as [->|].
    + rewrite lookup_app_r by lia. by replace (Z.to_nat i - length a)%nat with O by lia.
    + destruct (decide (Z.to_nat j < length a)%nat); [by rewrite lookup_app_l|].
      rewrite !lookup_ge_None_2; [done|lia|rewrite length_app; simpl; lia].
  - destruct (Z.ltb_spec i 0); [lia|]. destruct (Z.eqb_spec j i) as [->|].
    + apply list_lookup_insert_eq. lia.
    + apply list_lookup_insert_ne. lia.
Qed.

Lemma key_parts i b : 0 <= b < 32 ->
  Z.shiftr (32 * (i + 1) + b) 5 = i + 1 /\ Z.land (32 * (i + 1) + b) 31 = b.
Proof.
  intros. rewrite key_shift. change 31 with (Z.ones 5). rewrite Z.land_ones by lia. change (2 ^ 5) with 32.
  Z.div_mod_to_equations. lia.
Qed.

(** Adding a key below 32, and any other. *)
Lemma add_low s k : 0 <= k < 32 -> add s k = mkSet (Z.lor (shl32 1 k) (items s)) (additionalItems s).
Proof.
  intros Hk. unfold add. rewrite key_shift, Z.div_small by done. simpl.
  destruct (Z.eqb_spec (Z.lor (shl32 1 k) (items s)) (items s)) as [E|]; [|done].
  rewrite E. by destruct s.
Qed.

Lemma add_high s i b :
  0 <= i -> 0 <= b < 32 ->
  exists a, add s (32 * (i + 1) + b) = mkSet (items s) a /\
    zlen a = Z.max (zlen (additionalItems s)) (i + 1) /\
    (forall j, default 0 (a.[j]) = if j =? i then Z.lor (default 0 ((additionalItems s).[i])) (shl32 1 b)
                                   else default 0 ((additionalItems s).[j])).
Proof.
  intros Hi Hb. destruct (key_parts i b Hb) as [Hs Hl]. unfold add. rewrite Hs, Hl.
  destruct (Z.eqb_spec (i + 1) 0); [lia|]. replace (i + 1 - 1) with i by lia.
  eexists. split; [done|]. split.
  - unfold put_item. rewrite zlen_grown. destruct (Z.eqb_spec i (Z.max (zlen (additionalItems s)) i)).
    + rewrite zlen_app, zlen_grown. unfold zlen at 2. simpl. lia.
    + unfold set_at, zlen at 1. destruct (Z.ltb_spec i 0); [lia|]. rewrite length_insert.
      fold (zlen (additionalItems s ++ replicate (Z.to_nat (i - zlen (additionalItems s))) 0)).
      rewrite zlen_grown. lia.
  - intros j. rewrite at_put_item by (rewrite zlen_grown; lia).
    destruct (Z.eqb_spec j i); simpl; by rewrite grown_item.
Qed.

Lemma mem_add s k j : set_wf s -> 0 <= k -> 0 <= j -> mem (add s k) j = (j =? k) || mem s j.
Proof.
  intros Hs Hk Hj. destruct (key_cases k Hk) as [Hk'|(i & b & -> & Hi & Hb)].
  - rewrite add_low by done. destruct (key_cases j Hj) as [Hj'|(i & b & -> & Hi & Hb)].
    + rewrite !mem_items by done. cbn [items]. rewrite Z.lor_spec, shl32_one by lia.
      by rewrite Z.mod_small by lia.
    + rewrite !mem_item by done. cbn [additionalItems].
      by destruct (Z.eqb_spec (32 * (i + 1) + b) k); [lia|].
  - destruct (add_high s i b Hi Hb) as (a & -> & _ & Ha).
    destruct (key_cases j Hj) as [Hj'|(i' & b' & -> & Hi' & Hb')].
    + rewrite !mem_items by done. by destruct (Z.eqb_spec j (32 * (i + 1) + b)); [lia|].
    + rewrite !mem_item by done. cbn [additionalItems]. rewrite Ha.
      destruct (Z.eqb_spec i' i) as [->|].
      * rewrite Z.lor_spec, shl32_one by lia. rewrite (Z.mod_small b) by lia. rewrite orb_comm. f_equal.
        destruct (Z.eqb_spec b' b), (Z.eqb_spec (32 * (i + 1) + b') (32 * (i + 1) + b)); try done; exfalso; lia.
      * by destruct (Z.eqb_spec (32 * (i' + 1) + b') (32 * (i + 1) + b)); [lia|].
Qed.

(** The last item is what its index holds. *)
Lemma last_item (a : list Z) : last a <> Some 0 <-> (0 < zlen a -> default 0 (a.[zlen a - 1]) <> 0).
Proof.
  rewrite last_lookup. destruct a as [|x a]; [done|].
  set (l := x :: a). assert (Hl : 0 < zlen l) by (unfold l, zlen; simpl; lia).
  assert (E : l.[zlen l - 1] = l !! Init.Nat.pred (length l)).
  { rewrite <- at_nat. f_equal. unfold zlen in *. lia. }
  rewrite E. destruct (at_in_range l (zlen l - 1) ltac:(lia)) as [y Hy]. rewrite E in Hy. rewrite Hy. simpl.
  split; [intros Hne _ ->; by apply Hne|]. intros Hne [= ->]. by apply Hne.
Qed.

Lemma items_int32 (a : list Z) : (forall i, is_int32 (default 0 (a.[i]))) -> Forall is_int32 a.
Proof.
  intros H. apply Forall_forall. intros x [i Hi]%elem_of_at. specialize (H i). by rewrite Hi in H.
Qed.

Lemma shl32_nonzero b : 0 <= b < 32 -> shl32 1 b <> 0.
Proof.
  intros Hb E. pose proof (shl32_one b ltac:(lia) b Hb) as H. rewrite E, Z.bits_0, Z.mod_small, Z.eqb_refl in H by lia.
  done.
Qed.

Lemma add_wf s k : set_wf s -> 0 <= k -> set_wf (add s k).
Proof.
  intros Hs Hk. destruct (key_cases k Hk) as [Hk'|(i & b & -> & Hi & Hb)].
  - rewrite add_low by done. destruct Hs as (? & ? & ?). split_and!; [|done|done].
    apply int32_lor; [apply int32_shl|done].
  - destruct (add_high s i b Hi Hb) as (a & -> & Hlen & Ha). assert (Hs' := Hs). destruct Hs' as (? & ? & Hlast).
    unfold set_wf. cbn [items additionalItems]. split_and!; [done| |].
    + apply items_int32. intros j. rewrite Ha. destruct (_ =? _); [|by apply item_int32].
      apply int32_lor; [by apply item_int32|apply int32_shl].
    + apply last_item. intros _. rewrite Ha, Hlen. rewrite last_item in Hlast.
      destruct (Z.eqb_spec (Z.max (zlen (additionalItems s)) (i + 1) - 1) i).
      * intros [_ E]%Z.lor_eq_0_iff. by apply (shl32_nonzero b Hb).
      * replace (Z.max (zlen (additionalItems s)) (i + 1)) with (zlen (additionalItems s)) by lia. apply Hlast. lia.
Qed.

Lemma merge_items s t :
  set_wf s -> set_wf t ->
  exists a, merge s t = mkSet (Z.lor (items s) (items t)) a /\
    zlen a = Z.max (zlen (additionalItems s)) (zlen (additionalItems t)) /\
    (forall j, default 0 (a.[j]) = Z.lor (default 0 ((additionalItems s).[j])) (default 0 ((additionalItems t).[j]))).
Proof.
  intros Hs Ht. unfold merge. pose proof (zlen_nonneg (additionalItems s)). pose proof (zlen_nonneg (additionalItems t)).
  assert (Hnil : forall l : list Z, zlen l = 0 -> l = []) by (intros [|]; [done|rewrite zlen_cons; pose proof (zlen_nonneg l); lia]).
  destruct (Z.eqb_spec (zlen (additionalItems s)) 0) as [Es|Es], (Z.eqb_spec (zlen (additionalItems t)) 0) as [Et|Et]; simpl.
  { apply Hnil in Es, Et. destruct s as [si sa], t as [ti ta]. simpl in *. subst. exists [].
    split; [|split; [done|]; intros j; unfold at_; by destruct (j <? 0)].
    destruct (Z.eqb_spec (Z.lor si ti) si) as [->|]; [done|]. by destruct (Z.eqb_spec (Z.lor si ti) ti) as [->|]. }
  all: eexists; split; [done|]; split; [unfold zlen at 1; rewrite length_fmap; fold (zlen (zrange 0 (Z.max (zlen (additionalItems s)) (zlen (additionalItems t))))); rewrite zlen_zrange; lia|].
  all: intros j; unfold at_ at 1; destruct (Z.ltb_spec j 0); [unfold at_; by destruct (Z.ltb_spec j 0); [|lia]|];
    rewrite list_lookup_fmap; unfold zrange; rewrite list_lookup_fmap;
    destruct (decide (j < Z.max (zlen (additionalItems s)) (zlen (additionalItems t)))).
  all: try (rewrite lookup_seq_lt by lia; simpl; by rewrite Z2Nat.id by lia).
  all: rewrite (lookup_ge_None_2 (seq _ _)) by (rewrite length_seq; lia); simpl; by rewrite !item_past by lia.
Qed.

Lemma mem_merge s t k : set_wf s -> set_wf t -> 0 <= k -> mem (merge s t) k = mem s k || mem t k.
Proof.
  intros Hs Ht Hk. destruct (merge_items s t Hs Ht) as (a & -> & _ & Ha).
  destruct (key_cases k Hk) as [Hk'|(i & b & -> & Hi & Hb)].
  - rewrite !mem_items by done. apply Z.lor_spec.
  - rewrite !mem_item by done. cbn [additionalItems]. by rewrite Ha, Z.lor_spec.
Qed.

Lemma merge_wf s t : set_wf s -> set_wf t -> set_wf (merge s t).
Proof.
  intros Hs Ht. destruct (merge_items s t Hs Ht) as (a & -> & Hlen & Ha).
  unfold set_wf. cbn [items additionalItems]. split_and!.
  - apply int32_lor; [by destruct Hs|by destruct Ht].
  - apply items_int32. intros j. rewrite Ha. by apply int32_lor; apply item_int32.
  - apply last_item. intros Hpos. rewrite Ha, Hlen in *. intros [E1 E2]%Z.lor_eq_0_iff.
    destruct Hs as (_ & _ & Hls), Ht as (_ & _ & Hlt). rewrite last_item in Hls, Hlt.
    destruct (Z.max_spec (zlen (additionalItems s)) (zlen (additionalItems t))) as [[? Em]|[? Em]]; rewrite Em in *.
    + apply Hlt; [lia|done].
    + apply Hls; [lia|done].
Qed.

Lemma existsb_zrange (p : Z -> bool) n :
  existsb p (zrange 0 n) = true <-> exists i, 0 <= i < n /\ p i = true.
Proof.
  rewrite existsb_exists. setoid_rewrite <- list_elem_of_In. setoid_rewrite elem_of_zrange. done.
Qed.

Lemma intersects_mem s t :
  set_wf s -> set_wf t -> (intersects s t = true <-> exists k, 0 <= k /\ mem s k = true /\ mem t k = true).
Proof.
  intros Hs Ht. assert (Hland : forall x y, is_int32 x -> is_int32 y ->
    (negb (Z.land x y =? 0) = true <-> exists j, 0 <= j < 32 /\ Z.testbit x j = true /\ Z.testbit y j = true)).
  { intros x y Hx Hy. pose proof (int32_zero_bits _ (int32_land x y Hx Hy)) as Hz.
    destruct (Z.eqb_spec (Z.land x y) 0) as [E|Hne]; simpl; (split; [|]); try done.
    - intros (j & Hj & Ex & Ey). destruct Hz as [Hz _]. specialize (Hz E j Hj).
      by rewrite Z.land_spec, Ex, Ey in Hz.
    - intros _. destruct (existsb (fun j => Z.testbit (Z.land x y) j) (zrange 0 32)) eqn:Ee.
      + apply existsb_zrange in Ee as (j & Hj & E). rewrite Z.land_spec in E.
        apply andb_true_iff in E as [? ?]. by exists j.
      + destruct Hne. apply Hz. intros j Hj. destruct (Z.testbit (Z.land x y) j) eqn:E; [|done].
        rewrite (proj2 (existsb_zrange _ _)) in Ee; [done|]. by exists j. }
  unfold intersects. rewrite <- (orb_lazy_alt (negb _) _).
  assert (Hi : is_int32 (items s) /\ is_int32 (items t)) by (by destruct Hs, Ht).
  rewrite orb_true_iff, Hland, existsb_zrange by apply Hi. split.
  - intros [(j & Hj & ? & ?)|(i & Hi' & (j & Hj & ? & ?)%Hland)].
    + exists j. rewrite !mem_items by done. split; [lia|done].
    + exists (32 * (i + 1) + j). rewrite !mem_item by lia. split; [lia|done].
    + by apply item_int32.
    + by apply item_int32.
  - intros (k & Hk & Es & Et). destruct (key_cases k Hk) as [Hk'|(i & j & -> & Hi' & Hj)].
    + left. exists k. by rewrite <- !mem_items.
    + right. exists i. rewrite mem_item in Es, Et by done. split.
      * split; [lia|]. destruct (Z.lt_ge_cases i (Z.min (zlen (additionalItems s)) (zlen (additionalItems t)))); [done|].
        destruct (Z.lt_ge_cases i (zlen (additionalItems s))).
        -- by rewrite (item_past t), Z.bits_0 in Et by lia.
        -- by rewrite (item_past s), Z.bits_0 in Es by lia.
      * apply Hland; [by apply item_int32..|]. by exists j.
Qed.

Lemma equals_eq s t : equals s t = true <-> s = t.
Proof.
  unfold equals. split.
  - destruct (Z.eqb_spec (items s) (items t)) as [Ei|]; [simpl|done].
    destruct (Z.eqb_spec (zlen (additionalItems s)) (zlen (additionalItems t))) as [El|]; [simpl|done].
    intros He%negb_true_iff. destruct s as [si sa], t as [ti ta]. simpl in *. f_equal; [done|].
    apply list_eq. intros n. destruct (decide (n < length sa)%nat) as [Hn|].
    + destruct (lookup_lt_is_Some_2 sa n Hn) as [x Hx].
      destruct (lookup_lt_is_Some_2 ta n ltac:(unfold zlen in El; lia)) as [y Hy]. rewrite Hx, Hy. f_equal.
      destruct (Z.eqb_spec x y) as [|Hne]; [done|exfalso].
      rewrite (proj2 (existsb_zrange _ _)) in He; [done|]. exists (Z.of_nat n). split; [unfold zlen in *; lia|].
      rewrite !at_nat, Hx, Hy. simpl. unfold id. by destruct (Z.eqb_spec x y).
    + rewrite !lookup_ge_None_2; [done|unfold zlen in El; lia|lia].
  - intros <-. rewrite !Z.eqb_refl. simpl. apply negb_true_iff.
    destruct (existsb _ _) eqn:E; [|done]. apply existsb_zrange in E as (i & _ & E). by rewrite Z.eqb_refl in E.
Qed.

Lemma empty_wf : set_wf getEmpty.
Proof. by split_and!. Qed.

(** Bits keep a set of keys: the operations keep the invariant, [has] is membership,
    [add] adds one key, [merge] is union, [intersects] tells whether a key is in both, and,
    as the representation of a set is unique, [equals] is equality of sets. *)
Theorem small_set_is_set s t k :
  set_wf s -> set_wf t -> 0 <= k ->
  (set_wf getEmpty /\ set_wf (add s k) /\ set_wf (merge s t)) /\
  (forall j, 0 <= j ->
     has getEmpty j = false /\ has (add s k) j = (j =? k) || has s j /\
     has (merge s t) j = has s j || has t j) /\
  (intersects s t = true <-> exists j, 0 <= j /\ has s j = true /\ has t j = true) /\
  (equals s t = true <-> forall j, 0 <= j -> has s j = has t j).
Proof.
  intros Hs Ht Hk. pose proof (add_wf s k Hs Hk) as Ha. pose proof (merge_wf s t Hs Ht) as Hm.
  pose proof empty_wf as He. split_and!; try done.
  - intros j Hj. rewrite !has_mem by done. rewrite mem_add, mem_merge by done. split; [|done].
    unfold mem. simpl. destruct (j <? 32); [apply Z.bits_0|].
    unfold at_. by destruct (_ <? 0); rewrite ?lookup_nil; apply Z.bits_0.
  - rewrite intersects_mem by done. split; intros (j & Hj & E); exists j;
      rewrite ?has_mem in *; try done; by rewrite !has_mem by done.
  - rewrite equals_eq. split; [by intros ->|]. intros E. apply sets_equal; try done.
    intros j Hj. specialize (E j Hj). by rewrite !has_mem in E by done.
Qed.

Lemma small_set_is_set_witness :
  has (add (add getEmpty 31) 70) 70 = true /\
  (equals (add (add getEmpty 31) 70) (add (add getEmpty 70) 31) = true <->
   forall j, 0 <= j -> has (add (add getEmpty 31) 70) j = has (add (add getEmpty 70) 31) j).
Proof.
  split; [reflexivity|].
  apply (small_set_is_set (add (add getEmpty 31) 70) (add (add getEmpty 70) 31) 0).
  - apply add_wf; [apply add_wf; [apply empty_wf|lia]|lia].
  - apply add_wf; [apply add_wf; [apply empty_wf|lia]|lia].
  - lia.
Defined.

(** ** Dense keys *)

Section dense.
Context {T : Type} `{EqDecision T}.
Implicit Types p : DKP.DenseKeyProvider T.

(** The values are distinct and have the keys 0, 1, ... in order. *)
Definition provider_wf p : Prop :=
  NoDup (DKP.keys p) /\ (DKP.entries p).*2 = zrange 0 (zlen (DKP.entries p)).

Lemma get_spec (m : list (T * Z)) v :
  match DKP.get m v with Some k => (v, k) ∈ m | None => v ∉ m.*1 end.
Proof.
  unfold DKP.get. induction m as [|[w j] m IH]; simpl; [apply not_elem_of_nil|].
  case_bool_decide as E; simpl.
  - subst. left.
  - destruct (snd <$> List.find _ m) as [k|]; [by right|]. by intros [->|?]%elem_of_cons.
Qed.

Lemma entry_key p v k : provider_wf p -> (v, k) ∈ DKP.entries p <-> (DKP.keys p).[k] = Some v.
Proof.
  intros [_ E]. unfold DKP.keys. split.
  - intros [n Hn]%list_elem_of_lookup. assert (Hk : (DKP.entries p).*2 !! n = Some k) by (by rewrite list_lookup_fmap, Hn).
    rewrite E in Hk. unfold zrange in Hk. apply list_lookup_fmap_Some in Hk as (m & -> & Hm).
    apply lookup_seq in Hm as [-> _]. rewrite Nat.add_0_l. replace (0 + Z.of_nat n) with (Z.of_nat n) by lia.
    by rewrite at_nat, list_lookup_fmap, Hn.
  - unfold at_. destruct (Z.ltb_spec k 0); [done|]. rewrite list_lookup_fmap.
    destruct (DKP.entries p !! Z.to_nat k) as [[w j]|] eqn:Hn; [|done]. intros [= ->].
    assert (Hk : (DKP.entries p).*2 !! Z.to_nat k = Some j) by (by rewrite list_lookup_fmap, Hn).
    rewrite E in Hk. unfold zrange in Hk. apply list_lookup_fmap_Some in Hk as (m & -> & Hm).
    apply lookup_seq in Hm as [-> _]. apply list_elem_of_lookup_2 in Hn.
    by replace (0 + Z.of_nat (0 + Z.to_nat k)) with k in Hn by lia.
Qed.

Lemma key_unique p v j k : provider_wf p -> (v, j) ∈ DKP.entries p -> (v, k) ∈ DKP.entries p -> j = k.
Proof.
  intros Hp Hj%entry_key Hk%entry_key; [|done..]. destruct Hp as [Hnd _]. unfold at_ in *.
  destruct (Z.ltb_spec j 0), (Z.ltb_spec k 0); try done. pose proof (NoDup_lookup _ _ _ _ Hnd Hj Hk). lia.
Qed.

(** The key of a value that has one. *)
Lemma getKey_known p v k : provider_wf p -> (v, k) ∈ DKP.entries p -> DKP.getKey p v = (k, p).
Proof.
  intros Hp Hk. unfold DKP.getKey. pose proof (get_spec (DKP.entries p) v) as Hg.
  destruct (DKP.get _ v) as [j|]; [by rewrite (key_unique p v j k)|].
  destruct Hg. apply list_elem_of_fmap. by exists (v, k).
Qed.

Lemma reverseLookup_spec p v k : provider_wf p -> (v, k) ∈ DKP.entries p -> DKP.reverseLookup p k = Some v.
Proof.
  intros Hp Hk. unfold DKP.reverseLookup. destruct (List.find _ _) as [[w j]|] eqn:Ef.
  - apply List.find_some in Ef as [Hin Ej%Z.eqb_eq]. simpl in *. subst j. apply list_elem_of_In in Hin.
    apply entry_key in Hin, Hk; [|done..]. simpl. congruence.
  - apply list_elem_of_In in Hk. eapply List.find_none in Ef; [|exact Hk]. simpl in Ef. lia.
Qed.

(** Keys are dense: asking for a value's key gives the key it has, or the next unused
    number, and keeps every other key; keys look up their values again, and the values of a
    set are those whose keys are in it. *)
Theorem dense_keys p v s :
  provider_wf p ->
  let '(k, p') := DKP.getKey p v in
  provider_wf p' /\ 0 <= k < zlen (DKP.keys p') /\ DKP.getKey p' v = (k, p') /\
  DKP.reverseLookup p' k = Some v /\
  (v ∉ DKP.keys p -> DKP.keys p' = DKP.keys p ++ [v] /\ k = zlen (DKP.keys p)) /\
  (forall w, w ∈ DKP.keys p -> DKP.getKey p w = ((DKP.getKey p' w).1, p) /\ (w <> v -> (DKP.getKey p' w).1 <> k)) /\
  (forall w, w ∈ DKP.reverseLookupSet p s <-> w ∈ DKP.keys p /\ has s (DKP.getKey p w).1 = true).
Proof.
  intros Hp. assert (Hlen : zlen (DKP.keys p) = zlen (DKP.entries p)) by (unfold DKP.keys, zlen; by rewrite length_fmap).
  assert (Hstep : exists k p', DKP.getKey p v = (k, p') /\ provider_wf p' /\ (v, k) ∈ DKP.entries p' /\
    (forall e, e ∈ DKP.entries p -> e ∈ DKP.entries p') /\
    (v ∉ DKP.keys p -> DKP.keys p' = DKP.keys p ++ [v] /\ k = zlen (DKP.keys p))).
  { destruct (DKP.getKey p v) as [k p'] eqn:E. exists k, p'. split; [done|]. unfold DKP.getKey in E.
    pose proof (get_spec (DKP.entries p) v) as Hg. destruct (DKP.get _ v) as [j|].
    - injection E as <- <-. split_and!; try done. intros []. apply list_elem_of_fmap. by exists (v, j).
    - injection E as <- <-. destruct Hp as [Hnd Hk]. split_and!; simpl.
      + split; unfold DKP.keys in *; simpl; rewrite fmap_app.
        * apply NoDup_app. split; [done|]. split; [|apply NoDup_singleton]. by intros x Hx ->%list_elem_of_singleton.
        * rewrite zlen_app. change (zlen [(v, zlen (DKP.entries p))]) with 1. pose proof (zlen_nonneg (DKP.entries p)).
          rewrite zrange_snoc by lia. rewrite Hk. simpl. by rewrite Z.add_simpl_r.
      + apply elem_of_app. right. by left.
      + intros e He. apply elem_of_app. by left.
      + intros _. unfold DKP.keys. simpl. by rewrite fmap_app, <- Hlen. }
  destruct Hstep as (k & p' & -> & Hp' & Hvk & Hkeep & Hnew).
  assert (Hknown : forall w, w ∈ DKP.keys p -> exists j, (w, j) ∈ DKP.entries p).
  { intros w Hw. apply list_elem_of_fmap in Hw as ([w' j] & -> & ?). by exists j. }
  split_and!; try done.
  - apply entry_key in Hvk; [|done]. apply at_lt in Hvk. lia.
  - apply entry_key in Hvk; [|done]. apply at_lt in Hvk. lia.
  - by apply getKey_known.
  - by apply reverseLookup_spec.
  - intros w (j & Hj)%Hknown. rewrite (getKey_known p w j), (getKey_known p' w j) by auto. split; [done|].
    simpl. intros Hne ->. apply Hkeep, entry_key in Hj; [|done]. apply entry_key in Hvk; [|done]. congruence.
  - intros w. unfold DKP.reverseLookupSet. rewrite list_elem_of_fmap. split.
    + intros ([w' j] & -> & [Hin Hh]%list_elem_of_In%List.filter_In). apply list_elem_of_In in Hin. simpl in *.
      split; [|done]. apply list_elem_of_fmap. by exists (w', j).
    + intros [(j & Hj)%Hknown Hh]. exists (w, j). split; [done|]. apply list_elem_of_In, List.filter_In.
      split; [by apply list_elem_of_In|done].
Qed.
End dense.

Lemma dense_keys_witness :
  let p := @DKP.mkProvider Z [(40, 0); (7, 1)] in
  (DKP.getKey p 9).1 = 2 /\ DKP.keys (DKP.getKey p 9).2 = [40; 7; 9].
Proof.
  cbv zeta. pose proof (dense_keys (@DKP.mkProvider Z [(40, 0); (7, 1)]) 9 getEmpty) as H.
  destruct (DKP.getKey (@DKP.mkProvider Z [(40, 0); (7, 1)]) 9) as [k p'] eqn:E.
  destruct H as (_ & _ & _ & _ & H & _).
  - split; [|reflexivity]. unfold DKP.keys. simpl. repeat constructor; set_solver by lia.
  - cbn [fst snd]. destruct H as [Hk ->]; [unfold DKP.keys; simpl; set_solver by lia|].
    split; [reflexivity|exact Hk].
Defined.
