(* ===== verification/Ast.v ===== *)
(** * The nodes of the bracket pair tree

    [src/src/vs/editor/common/model/bracketPairsTextModelPart/bracketPairsTree/ast.ts].  A
    node caches its length and the set of opening brackets missing in it; lists are nodes
    of (2,3) trees.  A method that mutates its receiver returns the receiver after the call.
    The immutable variants of the list classes differ in [toMutable] and [throwIfImmutable]
    only, which a flag tells apart.

    Not modelled: [computeMinIndentation] and its cache, which read the text model. *)

From S2P Require Import Prelude Position TextRange Length SmallSet.

#[local] Open Scope js_scope.

(** What a bracket node shows of its [BracketKind]. *)
Record BracketKind : Type := mkBracketKind { bracketText : list Z; languageId : list Z }.

Inductive AstNodeKind : Type := Text | Bracket | Pair | UnexpectedClosingBracket | List.

#[export] Instance AstNodeKind_eq_dec : EqDecision AstNodeKind.
Proof. solve_decision. Defined.

Inductive AstNode : Type :=
  | TextAstNode (length : Length)
  | BracketAstNode (length : Length) (bracketInfo : BracketKind) (bracketIds : SmallImmutableSet)
  | PairAstNode (length : Length) (openingBracket : AstNode) (child closingBracket : option AstNode)
      (missing : SmallImmutableSet)
  | InvalidBracketAstNode (closingBrackets : SmallImmutableSet) (length : Length)
  | TwoThreeListAstNode (immutable : bool) (length : Length) (listHeight : Z)
      (item1 item2 : AstNode) (item3 : option AstNode) (missing : SmallImmutableSet)
  | ArrayListAstNode (immutable : bool) (length : Length) (listHeight : Z)
      (children : list AstNode) (missing : SmallImmutableSet).

Module Ast.

Definition kind (this : AstNode) : AstNodeKind :=
  match this with
  | TextAstNode _ => Text
  | BracketAstNode _ _ _ => Bracket
  | PairAstNode _ _ _ _ _ => Pair
  | InvalidBracketAstNode _ _ => UnexpectedClosingBracket
  | TwoThreeListAstNode _ _ _ _ _ _ _ | ArrayListAstNode _ _ _ _ _ => List
  end.

Definition length (this : AstNode) : Length :=
  match this with
  | TextAstNode l | BracketAstNode l _ _ | PairAstNode l _ _ _ _ | InvalidBracketAstNode _ l
  | TwoThreeListAstNode _ l _ _ _ _ _ | ArrayListAstNode _ l _ _ _ => l
  end.

Definition listHeight (this : AstNode) : Z :=
  match this with
  | TwoThreeListAstNode _ _ h _ _ _ _ | ArrayListAstNode _ _ h _ _ => h
  | _ => 0
  end.

Definition missingOpeningBracketIds (this : AstNode) : SmallImmutableSet :=
  match this with
  | TextAstNode _ | BracketAstNode _ _ _ => SIS.getEmpty
  | PairAstNode _ _ _ _ m => m
  | InvalidBracketAstNode closing _ => closing
  | TwoThreeListAstNode _ _ _ _ _ _ m | ArrayListAstNode _ _ _ _ m => m
  end.

Definition childrenLength (this : AstNode) : Z :=
  match this with
  | PairAstNode _ _ _ _ _ => 3
  | TwoThreeListAstNode _ _ _ _ _ (Some _) _ => 3
  | TwoThreeListAstNode _ _ _ _ _ None _ => 2
  | ArrayListAstNode _ _ _ c _ => zlen c
  | _ => 0
  end.

(** [None] is [null] or [undefined]. *)
Definition getChild (this : AstNode) (idx : Z) : result (option AstNode) :=
  match this with
  | PairAstNode _ o c cl _ =>
      if idx =? 0 then Ok (Some o) else if idx =? 1 then Ok c else if idx =? 2 then Ok cl
      else Throw OtherError
  | TwoThreeListAstNode _ _ _ a b c _ =>
      if idx =? 0 then Ok (Some a) else if idx =? 1 then Ok (Some b) else if idx =? 2 then Ok c
      else Throw OtherError
  | ArrayListAstNode _ _ _ c _ => Ok (c.[idx])
  | _ => Ok None
  end.

Definition children (this : AstNode) : list AstNode :=
  match this with
  | PairAstNode _ o c cl _ => o :: opt_list c ++ opt_list cl
  | TwoThreeListAstNode _ _ _ a b c _ => a :: b :: opt_list c
  | ArrayListAstNode _ _ _ c _ => c
  | _ => []
  end.

(** ** Constructors *)

Definition create_pair (openingBracket : AstNode) (child closingBracket : option AstNode) : AstNode :=
  let l := length openingBracket in
  let l := match child with Some c => lengthAdd l (length c) | None => l end in
  let l := match closingBracket with Some c => lengthAdd l (length c) | None => l end in
  PairAstNode l openingBracket child closingBracket
    (match child with Some c => missingOpeningBracketIds c | None => SIS.getEmpty end).

Definition create_bracket (l : Length) (bracketInfo : BracketKind) (bracketIds : SmallImmutableSet) : AstNode :=
  BracketAstNode l bracketInfo bracketIds.

Definition create23 (item1 item2 : AstNode) (item3 : option AstNode) (immutable : bool) : result AstNode :=
  let l := length item1 in
  let missing := missingOpeningBracketIds item1 in
  if negb (listHeight item1 =? listHeight item2) then Throw OtherError
  else
    let l := lengthAdd l (length item2) in
    let missing := SIS.merge missing (missingOpeningBracketIds item2) in
    match item3 with
    | Some item3' =>
        if negb (listHeight item1 =? listHeight item3') then Throw OtherError
        else
          Ok (TwoThreeListAstNode immutable (lengthAdd l (length item3')) (listHeight item1 + 1)
                item1 item2 item3 (SIS.merge missing (missingOpeningBracketIds item3')))
    | None => Ok (TwoThreeListAstNode immutable l (listHeight item1 + 1) item1 item2 item3 missing)
    end.

Definition getEmpty : AstNode := ArrayListAstNode true lengthZero 0 [] SIS.getEmpty.

(** The loops over all children but the first. *)
Definition sum_lengths (first : AstNode) (rest : list AstNode) : Length :=
  fold_left (fun l c => lengthAdd l (length c)) rest (length first).

Definition merge_missing (first : AstNode) (rest : list AstNode) : SmallImmutableSet :=
  fold_left (fun m c => SIS.merge m (missingOpeningBracketIds c)) rest (missingOpeningBracketIds first).

Definition create (items : list AstNode) (immutable : bool) : AstNode :=
  match items with
  | [] => getEmpty
  | first :: rest =>
      ArrayListAstNode immutable (sum_lengths first rest) (listHeight first + 1) items
        (merge_missing first rest)
  end.

(** ** Mutation *)

Definition throwIfImmutable (this : AstNode) : result unit :=
  match this with
  | TwoThreeListAstNode true _ _ _ _ _ _ | ArrayListAstNode true _ _ _ _ => Throw OtherError
  | _ => Ok tt
  end.

Definition toMutable (this : AstNode) : AstNode :=
  match this with
  | TwoThreeListAstNode true l h a b c m => TwoThreeListAstNode false l h a b c m
  | ArrayListAstNode true l h c m => ArrayListAstNode false l h c m
  | _ => this
  end.

Definition setChild (this : AstNode) (idx : Z) (node : AstNode) : result AstNode :=
  match this with
  | TwoThreeListAstNode im l h a b c m =>
      if idx =? 0 then Ok (TwoThreeListAstNode im l h node b c m)
      else if idx =? 1 then Ok (TwoThreeListAstNode im l h a node c m)
      else if idx =? 2 then Ok (TwoThreeListAstNode im l h a b (Some node) m)
      else Throw OtherError
  | ArrayListAstNode im l h c m => Ok (ArrayListAstNode im l h (set_at c idx node) m)
  | _ => Throw TypeError
  end.

Definition handleChildrenChanged (this : AstNode) : result AstNode :=
  let* _ := throwIfImmutable this in
  match children this with
  | [] => Throw TypeError
  | first :: rest =>
      let l := sum_lengths first rest in
      let missing := merge_missing first rest in
      match this with
      | TwoThreeListAstNode im _ h a b c _ => Ok (TwoThreeListAstNode im l h a b c missing)
      | ArrayListAstNode im _ h c _ => Ok (ArrayListAstNode im l h c missing)
      | _ => Throw TypeError
      end
  end.

(** [makeLastElementMutable] and [makeFirstElementMutable]: the child at [idx] is made
    mutable; the receiver and the child after the call. *)
Definition makeElementMutable (this : AstNode) (idx : Z) : result (AstNode * option AstNode) :=
  let* _ := throwIfImmutable this in
  if childrenLength this =? 0 then Ok (this, None)
  else
    let* child := getChild this idx in
    match child with
    | None => Throw TypeError
    | Some child =>
        let mutable := if decide (kind child = List) then toMutable child else child in
        let* this := setChild this idx mutable in
        Ok (this, Some mutable)
    end.

Definition makeLastElementMutable (this : AstNode) : result (AstNode * option AstNode) :=
  makeElementMutable this (childrenLength this - 1).

Definition makeFirstElementMutable (this : AstNode) : result (AstNode * option AstNode) :=
  makeElementMutable this 0.

Definition appendChildOfSameHeight (this node : AstNode) : result AstNode :=
  match this with
  | TwoThreeListAstNode im l h a b c m =>
      match c with
      | Some _ => Throw OtherError
      | None =>
          let* _ := throwIfImmutable this in
          handleChildrenChanged (TwoThreeListAstNode im l h a b (Some node) m)
      end
  | ArrayListAstNode im l h c m =>
      let* _ := throwIfImmutable this in
      handleChildrenChanged (ArrayListAstNode im l h (c ++ [node]) m)
  | _ => Throw TypeError
  end.

(** The node removed and the receiver after the call. *)
Definition unappendChild (this : AstNode) : result (option AstNode * AstNode) :=
  match this with
  | TwoThreeListAstNode im l h a b c m =>
      match c with
      | None => Throw OtherError
      | Some result =>
          let* _ := throwIfImmutable this in
          let* this := handleChildrenChanged (TwoThreeListAstNode im l h a b None m) in
          Ok (Some result, this)
      end
  | ArrayListAstNode im l h c m =>
      let* _ := throwIfImmutable this in
      let* this := handleChildrenChanged (ArrayListAstNode im l h (removelast c) m) in
      Ok (last c, this)
  | _ => Throw TypeError
  end.

Definition prependChildOfSameHeight (this node : AstNode) : result AstNode :=
  match this with
  | TwoThreeListAstNode im l h a b c m =>
      match c with
      | Some _ => Throw OtherError
      | None =>
          let* _ := throwIfImmutable this in
          handleChildrenChanged (TwoThreeListAstNode im l h node a (Some b) m)
      end
  | ArrayListAstNode im l h c m =>
      let* _ := throwIfImmutable this in
      handleChildrenChanged (ArrayListAstNode im l h (node :: c) m)
  | _ => Throw TypeError
  end.

Definition unprependChild (this : AstNode) : result (option AstNode * AstNode) :=
  match this with
  | TwoThreeListAstNode im l h a b c m =>
      match c with
      | None => Throw OtherError
      | Some c' =>
          let* _ := throwIfImmutable this in
          let* this := handleChildrenChanged (TwoThreeListAstNode im l h b c' None m) in
          Ok (Some a, this)
      end
  | ArrayListAstNode im l h c m =>
      let* _ := throwIfImmutable this in
      let* this := handleChildrenChanged (ArrayListAstNode im l h (tail c) m) in
      Ok (head c, this)
  | _ => Throw TypeError
  end.

(** ** Reuse *)

(** The loop of [ListAstNode.canBeReused] down to the last node that is not a list. *)
Fixpoint lastLeaf (this : AstNode) : result AstNode :=
  match this with
  | TwoThreeListAstNode _ _ _ _ b c _ => match c with Some c => lastLeaf c | None => lastLeaf b end
  | ArrayListAstNode _ _ _ c _ =>
      (fix go (l : list AstNode) : result AstNode :=
         match l with
         | [] => Throw BugIndicatingError
         | [x] => lastLeaf x
         | _ :: l' => go l'
         end) c
  | _ => Ok this
  end.

(** [canBeReused] of the nodes that are not lists. *)
Definition leafCanBeReused (this : AstNode) (openBracketIds : SmallImmutableSet) : bool :=
  match this with
  | TextAstNode _ => true
  | BracketAstNode _ _ _ => false
  | InvalidBracketAstNode missing _ => negb (SIS.intersects openBracketIds missing)
  | PairAstNode _ _ _ closingBracket missing =>
      match closingBracket with
      | None => false
      | Some _ => if SIS.intersects openBracketIds missing then false else true
      end
  | _ => false
  end.

Definition canBeReused (this : AstNode) (openBracketIds : SmallImmutableSet) : result bool :=
  if decide (kind this = List) then
    if SIS.intersects openBracketIds (missingOpeningBracketIds this) then Ok false
    else if childrenLength this =? 0 then Ok false
    else
      let* leaf := lastLeaf this in
      Ok (leafCanBeReused leaf openBracketIds)
  else Ok (leafCanBeReused this openBracketIds).

(** [flattenLists]: a child that is a list is replaced by its children. *)
Definition spliceList (normalized : AstNode) : list AstNode :=
  if decide (kind normalized = List) then children normalized else [normalized].

Fixpoint flattenLists (this : AstNode) : AstNode :=
  match this with
  | PairAstNode _ o c cl _ =>
      create_pair (flattenLists o)
        (match c with Some c => Some (flattenLists c) | None => None end)
        (match cl with Some cl => Some (flattenLists cl) | None => None end)
  | TwoThreeListAstNode _ _ _ a b c _ =>
      create (spliceList (flattenLists a) ++ spliceList (flattenLists b) ++
              match c with Some c => spliceList (flattenLists c) | None => [] end) false
  | ArrayListAstNode _ _ _ c _ =>
      create ((fix go (l : list AstNode) : list AstNode :=
         match l with [] => [] | x :: l' => spliceList (flattenLists x) ++ go l' end) c) false
  | _ => this
  end.

(** [deepClone] builds mutable lists and keeps the leaves. *)
Fixpoint deepClone (this : AstNode) : AstNode :=
  match this with
  | PairAstNode l o c cl m =>
      PairAstNode l (deepClone o)
        (match c with Some c => Some (deepClone c) | None => None end)
        (match cl with Some cl => Some (deepClone cl) | None => None end) m
  | TwoThreeListAstNode _ l h a b c m =>
      TwoThreeListAstNode false l h (deepClone a) (deepClone b)
        (match c with Some c => Some (deepClone c) | None => None end) m
  | ArrayListAstNode _ l h c m => ArrayListAstNode false l h (deepClone <$> c) m
  | _ => this
  end.

End Ast.
