(* ===== verification/Concat23.v ===== *)
(** * Concatenating (2,3) trees

    [src/src/vs/editor/common/model/bracketPairsTextModelPart/bracketPairsTree/concat23Trees.ts]:
    the parser joins the lists of nodes it reuses and reads into one balanced tree.
    [append] and [prepend] walk down one edge of the higher tree, push the nodes passed on a
    stack and rebuild the cached fields on the way up; they are one definition for two
    sides here.  The stack holds references: what the walk changed in a child is seen
    through its parent, which is written out as storing the child back.
    A node is a value: a mutable list must not be there twice among the items, and the parser
    gives every one it makes once.

    Concatenation is proved to keep the leaves in order, the balance and the cached fields. *)

From S2P Require Import Prelude Position TextRange Length DocLength SmallSet Ast.

#[local] Open Scope js_scope.

Import Ast.

Definition heightDiff (node1 node2 : AstNode) : Z := Z.abs (listHeight node1 - listHeight node2).

(** ** [append] and [prepend] *)

Inductive side : Type := AtEnd | AtStart.

Module Concat.

Definition makeEdgeElementMutable (s : side) (this : AstNode) : result (AstNode * option AstNode) :=
  match s with AtEnd => makeLastElementMutable this | AtStart => makeFirstElementMutable this end.

(** The first loop: down the edge to the height of the node to attach; the node reached and
    the stack of parents, the last one first. *)
Fixpoint descend (fuel : nat) (s : side) (nodeToAttach curNode : AstNode) (parents : list AstNode)
    : result (AstNode * list AstNode) :=
  match fuel with
  | O => Throw OtherError
  | S fuel' =>
      if listHeight nodeToAttach =? listHeight curNode then Ok (curNode, parents)
      else if negb (bool_decide (kind curNode = List)) then Throw OtherError
      else
        let* (curNode, child) := makeEdgeElementMutable s curNode in
        match child with
        | None => Throw TypeError
        | Some child => descend fuel' s nodeToAttach child (curNode :: parents)
        end
  end.

(** One turn of the second loop, for a parent whose child on the edge is now [child]. *)
Definition unwind (s : side) (acc : result (AstNode * option AstNode)) (parent : AstNode)
    : result (AstNode * option AstNode) :=
  let* (child, nodeOfCorrectHeight) := acc in
  let* parent := setChild parent (match s with AtEnd => childrenLength parent - 1 | AtStart => 0 end) child in
  match nodeOfCorrectHeight with
  | Some node =>
      if childrenLength parent >=? 3 then
        let* (removed, parent) := match s with AtEnd => unappendChild parent | AtStart => unprependChild parent end in
        match removed with
        | None => Throw TypeError
        | Some removed =>
            let* node := match s with
                         | AtEnd => create23 removed node None false
                         | AtStart => create23 node removed None false
                         end in
            Ok (parent, Some node)
        end
      else
        let* parent := match s with
                       | AtEnd => appendChildOfSameHeight parent node
                       | AtStart => prependChildOfSameHeight parent node
                       end in
        Ok (parent, None)
  | None =>
      let* parent := handleChildrenChanged parent in
      Ok (parent, None)
  end.

(** The way down is as long as the difference of the heights. *)
Definition attach (s : side) (list_ nodeToAttach : AstNode) : result AstNode :=
  let list_ := toMutable list_ in
  let* (curNode, parents) :=
    descend (S (Z.to_nat (heightDiff list_ nodeToAttach))) s nodeToAttach list_ [] in
  let* (list_, node) := fold_left (unwind s) parents (Ok (curNode, Some nodeToAttach)) in
  match node with
  | Some node =>
      match s with
      | AtEnd => create23 list_ node None false
      | AtStart => create23 node list_ None false
      end
  | None => Ok list_
  end.

Definition append : AstNode -> AstNode -> result AstNode := attach AtEnd.
Definition prepend : AstNode -> AstNode -> result AstNode := attach AtStart.

Definition concat (node1 node2 : AstNode) : result AstNode :=
  if listHeight node1 =? listHeight node2 then create23 node1 node2 None false
  else if listHeight node1 >? listHeight node2 then append node1 node2
  else prepend node2 node1.

(** ** Trees of one height *)

(** [items[i] = ListAstNode.create23(...)]; the array is written where it was read. *)
Definition pair_step (createImmutableLists : bool) (length : Z) (acc : result (list AstNode)) (i : Z)
    : result (list AstNode) :=
  let* items := acc in
  let j := Z.shiftl i 1 in
  match items.[j], items.[j + 1] with
  | Some a, Some b =>
      let* node := create23 a b (if j + 3 =? length then items.[j + 2] else None) createImmutableLists in
      Ok (set_at items i node)
  | _, _ => Throw TypeError
  end.

Fixpoint pair_levels (fuel : nat) (createImmutableLists : bool) (items : list AstNode) (length : Z)
    : result (list AstNode * Z) :=
  match fuel with
  | O => Ok (items, length)
  | S fuel' =>
      if length >? 3 then
        let newLength := Z.shiftr length 1 in
        let* items := fold_left (pair_step createImmutableLists length) (zrange 0 newLength) (Ok items) in
        pair_levels fuel' createImmutableLists items newLength
      else Ok (items, length)
  end.

(** The length halves, so that it is an upper bound on the levels. *)
Definition concat23TreesOfSameHeight (items : list AstNode) (createImmutableLists : bool)
    : result (option AstNode) :=
  match items with
  | [] => Ok None
  | [item] => Ok (Some item)
  | _ =>
      let* (items, length) := pair_levels (List.length items) createImmutableLists items (zlen items) in
      match items.[0], items.[1] with
      | Some a, Some b =>
          let* node := create23 a b (if length >=? 3 then items.[2] else None) createImmutableLists in
          Ok (Some node)
      | _, _ => Throw TypeError
      end
  end.

(** ** The whole *)

(** [readNode]: the next node and the index after it. *)
Definition readNode (items : list AstNode) (i : Z) : result (option AstNode * Z) :=
  match items.[i] with
  | None => Ok (None, i)
  | Some first =>
      let start := i in
      let height := listHeight first in
      let i := while (List.length items)
        (fun i => match items.[i] with Some n => listHeight n =? height | None => false end)
        (fun i => i + 1) (i + 1) in
      if i - start >=? 2 then
        let* node := concat23TreesOfSameHeight (Prelude.slice items start i) false in
        Ok (node, i)
      else Ok (Some first, i)
  end.

(** The loop [for (let item = readNode(); item; item = readNode())]. *)
Fixpoint concat_loop (fuel : nat) (items : list AstNode) (first second : AstNode) (i : Z)
    : result (AstNode * AstNode) :=
  match fuel with
  | O => Throw OtherError
  | S fuel' =>
      let* (item, i) := readNode items i in
      match item with
      | None => Ok (first, second)
      | Some item =>
          if heightDiff first second <=? heightDiff second item then
            let* first := concat first second in
            concat_loop fuel' items first item i
          else
            let* second := concat second item in
            concat_loop fuel' items first second i
      end
  end.

Definition concat23Trees (items : list AstNode) : result (option AstNode) :=
  match items with
  | [] => Ok None
  | [item] => Ok (Some item)
  | _ =>
      let* (first, i) := readNode items 0 in
      match first with
      | None => Throw TypeError
      | Some first =>
          let* (second, i) := readNode items i in
          match second with
          | None => Ok (Some first)
          | Some second =>
              let* (first, second) := concat_loop (S (List.length items)) items first second i in
              let* node := concat first second in
              Ok (Some node)
          end
      end
  end.

End Concat.

Import Concat.

(** ** (2,3) trees *)

(** What a tree is made of: nodes that are not lists.  Empty lists are never contained in
    other lists, and array lists are for debugging. *)
Definition is_leaf (n : AstNode) : bool := negb (bool_decide (kind n = List)).

(** A (2,3) tree of a height: every list has two or three children of one height less, and
    its cached fields are what its children say. *)
Inductive tree23 : nat -> AstNode -> Prop :=
  | tree23_leaf n : is_leaf n = true -> tree23 0 n
  | tree23_list h im a b c :
      tree23 h a -> tree23 h b -> (forall c', c = Some c' -> tree23 h c') ->
      tree23 (S h) (TwoThreeListAstNode im (sum_lengths a (b :: opt_list c)) (Z.of_nat (S h)) a b c
                      (merge_missing a (b :: opt_list c))).

Fixpoint leaves (n : AstNode) : list AstNode :=
  match n with
  | TwoThreeListAstNode _ _ _ a b c _ =>
      leaves a ++ leaves b ++ match c with Some c => leaves c | None => [] end
  | _ => [n]
  end.

Definition opt_leaves (c : option AstNode) : list AstNode := opt_list c ≫= leaves.

Lemma tree23_height h n : tree23 h n -> listHeight n = Z.of_nat h.
Proof.
  inversion 1 as [? Hl|]; subst; [|done]. by destruct n.
Qed.

Lemma leaves_leaf n : is_leaf n = true -> leaves n = [n].
Proof. by destruct n. Qed.

Lemma leaves_list im l h a b c m : leaves (TwoThreeListAstNode im l h a b c m) = leaves a ++ leaves b ++ opt_leaves c.
Proof. unfold opt_leaves. destruct c; simpl; by rewrite ?app_nil_r. Qed.

Lemma create23_ok h a b c im :
  tree23 h a -> tree23 h b -> (forall c', c = Some c' -> tree23 h c') ->
  exists t, create23 a b c im = Ok t /\ tree23 (S h) t /\ leaves t = leaves a ++ leaves b ++ opt_leaves c.
Proof.
  intros Ha Hb Hc. eexists. split; [|split; [by apply (tree23_list h im a b c)|by rewrite leaves_list]].
  unfold create23. rewrite (tree23_height _ _ Ha), (tree23_height _ _ Hb), Z.eqb_refl. cbn [negb].
  replace (Z.of_nat (S h)) with (Z.of_nat h + 1) by lia. destruct c as [c|]; [|done].
  rewrite (tree23_height _ _ (Hc c eq_refl)), Z.eqb_refl. done.
Qed.

Definition is_mutable (n : AstNode) : Prop := throwIfImmutable n = Ok tt.

Lemma toMutable_ok h n :
  tree23 h n -> tree23 h (toMutable n) /\ is_mutable (toMutable n) /\ leaves (toMutable n) = leaves n.
Proof.
  inversion 1 as [? Hl|? im a b c]; subst.
  - destruct n; try done; split; try done; by constructor.
  - destruct im; (split; [by apply (tree23_list _ false a b c)|done]).
Qed.

(** A child made mutable as [makeElementMutable] does. *)
Lemma child_mutable h x :
  tree23 h x ->
  let x' := if decide (kind x = List) then toMutable x else x in
  tree23 h x' /\ is_mutable x' /\ leaves x' = leaves x.
Proof.
  intros Hx. destruct (toMutable_ok h x Hx). case_decide; [done|].
  split_and!; try done. by destruct x.
Qed.

(** ** Attaching a node to an edge *)

(** Leaves in the order of the side. *)
Definition put {A} (s : side) (l node : list A) : list A :=
  match s with AtEnd => l ++ node | AtStart => node ++ l end.

(** What a walk up hands on: a tree of the height and, if it was full, a second one. *)
Definition attached (s : side) (h : nat) (old new : list AstNode) (r : AstNode * option AstNode) : Prop :=
  tree23 h r.1 /\ (forall n, r.2 = Some n -> tree23 h n) /\
  put s (leaves r.1) (opt_leaves r.2) = put s old new.

Lemma handle_two_three l h a b c m :
  handleChildrenChanged (TwoThreeListAstNode false l h a b c m) =
  Ok (TwoThreeListAstNode false (sum_lengths a (b :: opt_list c)) h a b c (merge_missing a (b :: opt_list c))).
Proof. by destruct c. Qed.

#[local] Opaque create23 handleChildrenChanged leaves sum_lengths merge_missing.

(** A node on the way down: its child on the edge, and its part of the way up. *)
Lemma descend_parent s h l a b c m :
  tree23 h a -> tree23 h b -> (forall c', c = Some c' -> tree23 h c') ->
  exists parent x,
    makeEdgeElementMutable s (TwoThreeListAstNode false l (Z.of_nat (S h)) a b c m) = Ok (parent, Some x) /\
    tree23 h x /\ is_mutable x /\
    forall r new, attached s h (leaves x) new r ->
      exists r', unwind s (Ok r) parent = Ok r' /\
        attached s (S h) (leaves a ++ leaves b ++ opt_leaves c) new r'.
Proof.
  intros Ha Hb Hc.
  assert (Hlist : forall a b c, tree23 h a -> tree23 h b -> (forall c', c = Some c' -> tree23 h c') ->
    tree23 (S h) (TwoThreeListAstNode false (sum_lengths a (b :: opt_list c)) (Z.of_nat (S h)) a b c
      (merge_missing a (b :: opt_list c)))) by (intros; by apply (tree23_list h false)).
  destruct s, c as [c|].
  all: try match type of Hc with forall c', Some ?c0 = Some c' -> _ => pose proof (Hc c0 eq_refl) end.
  1: destruct (child_mutable h c (Hc c eq_refl)) as (Hx & Mx & Lx).
  2: destruct (child_mutable h b Hb) as (Hx & Mx & Lx).
  3-4: destruct (child_mutable h a Ha) as (Hx & Mx & Lx).
  all: remember (Z.of_nat (S h)) as hh eqn:Ehh; unfold makeEdgeElementMutable, makeLastElementMutable,
      makeFirstElementMutable, makeElementMutable; simpl;
    do 2 eexists; (split; [reflexivity|]); (split; [exact Hx|]); (split; [exact Mx|]);
    intros [child [node|]] new (Hchild & Hnode & Hleaves); rewrite Lx in Hleaves; clear Hx Mx Lx;
    simpl in *; try specialize (Hnode node eq_refl); unfold opt_leaves in *; simpl in *; rewrite ?app_nil_r in *.
  all: rewrite handle_two_three; simpl.
  1: destruct (create23_ok h child node None false Hchild Hnode ltac:(done)) as (t & -> & Ht & Lt).
  5: destruct (create23_ok h node child None false Hnode Hchild ltac:(done)) as (t & -> & Ht & Lt).
  all: simpl; eexists; (split; [reflexivity|]); unfold attached; simpl; rewrite ?leaves_list;
    unfold opt_leaves in *; simpl in *; rewrite ?app_nil_r in *.
  all: split; [first [apply (Hlist _ _ None)|apply (Hlist _ _ (Some _))]; [by eauto|by eauto|by intros ? [=]; subst]|
               split; [by intros ? [=]; subst|]].
  all: rewrite ?Lt, ?app_nil_r; first [by rewrite <- !app_assoc, Hleaves | by rewrite !app_assoc, Hleaves, ?app_assoc].
Qed.

#[local] Transparent leaves.

Lemma tree23_inv h n :
  tree23 (S h) n -> is_mutable n -> exists l a b c m,
    n = TwoThreeListAstNode false l (Z.of_nat (S h)) a b c m /\
    tree23 h a /\ tree23 h b /\ (forall c', c = Some c' -> tree23 h c').
Proof.
  inversion 1 as [|? im a b c]; subst. destruct im; [done|]. intros _. by do 5 eexists.
Qed.

(** Down and up again, from a node [k] levels above the one attached. *)
Lemma descend_unwind s h k fuel node cur parents :
  tree23 h node -> tree23 (k + h) cur -> is_mutable cur -> (k < fuel)%nat ->
  exists bottom ps r,
    descend fuel s node cur parents = Ok (bottom, ps ++ parents) /\
    fold_left (unwind s) ps (Ok (bottom, Some node)) = Ok r /\
    attached s (k + h) (leaves cur) (leaves node) r.
Proof.
  intros Hnode. revert fuel cur parents. induction k as [|k IH]; intros [|fuel] cur parents Hcur Hm Hf; try lia.
  - exists cur, [], (cur, Some node). cbn [descend]. rewrite (tree23_height _ _ Hnode), (tree23_height _ _ Hcur), Z.eqb_refl.
    split_and!; [done|done|]. split; [done|]. split; [by intros ? [= <-]|]. unfold opt_leaves. simpl. by rewrite app_nil_r.
  - cbn [descend]. rewrite (tree23_height _ _ Hnode), (tree23_height _ _ Hcur).
    destruct (Z.eqb_spec (Z.of_nat h) (Z.of_nat (S k + h))); [lia|].
    change (tree23 (S (k + h)) cur) in Hcur.
    destruct (tree23_inv (k + h) cur Hcur Hm) as (l & a & b & c & m & -> & Ha & Hb & Hc).
    cbn [kind]. rewrite bool_decide_true by done. cbn [negb].
    destruct (descend_parent s (k + h) l a b c m Ha Hb Hc) as (parent & x & E & Hx & Mx & Hup).
    rewrite E. cbn [result_bind].
    destruct (IH fuel x (parent :: parents) Hx Mx ltac:(lia)) as (bottom & ps & r & -> & Er & Hr).
    destruct (Hup r (leaves node) Hr) as (r' & Er' & Hr').
    exists bottom, (ps ++ [parent]), r'. rewrite <- app_assoc. split; [done|].
    rewrite fold_left_app, Er. cbn [fold_left]. by rewrite leaves_list.
Qed.

(** A tree of some height. *)
Definition balanced (n : AstNode) : Prop := exists h, tree23 h n.

Lemma attach_ok s hl hn list_ node :
  tree23 hl list_ -> tree23 hn node -> (hn <= hl)%nat ->
  exists t, attach s list_ node = Ok t /\ balanced t /\ leaves t = put s (leaves list_) (leaves node).
Proof.
  intros Hl Hn Hle. destruct (toMutable_ok _ _ Hl) as (Hl' & Hm & Ll). unfold attach, heightDiff.
  rewrite (tree23_height _ _ Hl'), (tree23_height _ _ Hn).
  replace hl with (hl - hn + hn)%nat in Hl' by lia.
  destruct (descend_unwind s hn (hl - hn) (S (Z.to_nat (Z.abs (Z.of_nat hl - Z.of_nat hn)))) node (toMutable list_) []
    Hn Hl' Hm ltac:(lia)) as (bottom & ps & [l [n|]] & -> & Er & Ht & Ho & Lr);
    rewrite app_nil_r; cbn [result_bind]; rewrite Er; cbn [result_bind fst snd] in *; rewrite Ll in Lr;
    unfold opt_leaves in Lr; simpl in Lr; rewrite ?app_nil_r in Lr.
  - specialize (Ho n eq_refl).
    destruct s; [destruct (create23_ok _ l n None false Ht Ho ltac:(done)) as (t & -> & Htt & Lt)|
                 destruct (create23_ok _ n l None false Ho Ht ltac:(done)) as (t & -> & Htt & Lt)];
      (exists t; split; [done|]; split; [by eexists|]); rewrite Lt; unfold opt_leaves; simpl; by rewrite app_nil_r.
  - exists l. split; [done|]. split; [by eexists|]. destruct s; simpl in *; by rewrite ?app_nil_r in Lr.
Qed.

Lemma concat_ok n1 n2 :
  balanced n1 -> balanced n2 ->
  exists t, concat n1 n2 = Ok t /\ balanced t /\ leaves t = leaves n1 ++ leaves n2.
Proof.
  intros [h1 H1] [h2 H2]. unfold concat. rewrite (tree23_height _ _ H1), (tree23_height _ _ H2).
  destruct (Z.eqb_spec (Z.of_nat h1) (Z.of_nat h2)).
  - assert (h1 = h2) as <- by lia. destruct (create23_ok h1 n1 n2 None false H1 H2 ltac:(done)) as (t & E & Ht & Lt).
    exists t. split; [done|]. split; [by eexists|]. rewrite Lt. unfold opt_leaves. simpl. by rewrite app_nil_r.
  - destruct (Z.gtb_spec (Z.of_nat h1) (Z.of_nat h2)).
    + by apply (attach_ok AtEnd h1 h2); [done|done|lia].
    + by apply (attach_ok AtStart h2 h1); [done|done|lia].
Qed.

(** ** Trees of one height *)

Definition all_leaves (items : list AstNode) : list AstNode := items ≫= leaves.

Lemma all_leaves_app l k : all_leaves (l ++ k) = all_leaves l ++ all_leaves k.
Proof. unfold all_leaves. by rewrite bind_app. Qed.

Lemma all_leaves_take l (n : nat) x :
  l !! n = Some x -> all_leaves (take (S n) l) = all_leaves (take n l) ++ leaves x.
Proof.
  intros Hx. rewrite (take_S_r _ _ _ Hx), all_leaves_app. f_equal. unfold all_leaves. simpl. by rewrite app_nil_r.
Qed.

(** The first [len] items are trees of height [h] with these leaves. *)
Definition level (h : nat) (items : list AstNode) (len : nat) (ls : list AstNode) : Prop :=
  (2 <= len <= List.length items)%nat /\ Forall (tree23 h) (take len items) /\
  all_leaves (take len items) = ls.

Lemma level_item h items len ls (n : nat) :
  level h items len ls -> (n < len)%nat -> exists x, items !! n = Some x /\ tree23 h x.
Proof.
  intros (Hlen & Hf & _) Hn. destruct (lookup_lt_is_Some_2 items n ltac:(lia)) as [x Hx].
  exists x. split; [done|]. rewrite Forall_lookup in Hf. apply (Hf n). by rewrite lookup_take_lt by lia.
Qed.

(** The array after [k] turns: [k] parents, then the items not yet overwritten. *)
Lemma pair_steps im h items len ls (k : nat) :
  level h items len ls -> (k <= len / 2)%nat ->
  exists ps,
    fold_left (pair_step im (Z.of_nat len)) (zrange 0 (Z.of_nat k)) (Ok items) = Ok (ps ++ drop k items) /\
    List.length ps = k /\ Forall (tree23 (S h)) ps /\
    all_leaves ps = all_leaves (take (if (k =? len / 2)%nat then len else 2 * k) items).
Proof.
  intros Hlev. pose proof Hlev as (Hlen & Hf & Hls). pose proof (Nat.div_mod_eq len 2) as Hdiv.
  pose proof (Nat.mod_upper_bound len 2 ltac:(lia)) as Hmod.
  induction k as [|k IH]; intros Hk.
  - exists []. split_and!; try done. destruct (Nat.eqb_spec 0 (len / 2)); [|done].
    exfalso. lia.
  - destruct (IH ltac:(lia)) as (ps & Hps & Hl & Hpf & Hpl).
    destruct (Nat.eqb_spec k (len / 2)) as [|Hne]; [lia|].
    rewrite zrange_snoc by lia. replace (Z.of_nat (S k) - 1) with (Z.of_nat k) by lia.
    rewrite fold_left_app, Hps. cbn [fold_left]. unfold pair_step. cbn [result_bind].
    rewrite Z.shiftl_mul_pow2 by lia. change (2 ^ 1) with 2.
    assert (Hread : forall n : nat, (k <= n)%nat -> (ps ++ drop k items).[Z.of_nat n] = items !! n).
    { intros n Hn. rewrite at_nat, lookup_app_r by lia. rewrite lookup_drop. f_equal. lia. }
    destruct (level_item _ _ _ _ (2 * k) Hlev ltac:(lia)) as (a & Ea & Ha).
    destruct (level_item _ _ _ _ (2 * k + 1) Hlev ltac:(lia)) as (b & Eb & Hb).
    replace (Z.of_nat k * 2) with (Z.of_nat (2 * k)) by lia.
    replace (Z.of_nat (2 * k) + 1) with (Z.of_nat (2 * k + 1)) by lia.
    replace (Z.of_nat (2 * k) + 2) with (Z.of_nat (2 * k + 2)) by lia.
    rewrite !Hread, Ea, Eb by lia.
    set (c := if Z.of_nat (2 * k) + 3 =? Z.of_nat len then items !! (2 * k + 2)%nat else None).
    assert (Hc : (forall c', c = Some c' -> tree23 h c') /\
      all_leaves (take (if (S k =? len / 2)%nat then len else 2 * S k) items) =
        all_leaves (take (2 * k) items) ++ leaves a ++ leaves b ++ opt_leaves c).
    { assert (Ht2 : all_leaves (take (2 * k + 2) items) = all_leaves (take (2 * k) items) ++ leaves a ++ leaves b).
      { replace (2 * k + 2)%nat with (S (2 * k + 1)) by lia. rewrite (all_leaves_take _ _ _ Eb).
        replace (2 * k + 1)%nat with (S (2 * k)) by lia. by rewrite (all_leaves_take _ _ _ Ea), <- app_assoc. }
      unfold c. destruct (Z.eqb_spec (Z.of_nat (2 * k) + 3) (Z.of_nat len)).
      - destruct (level_item _ _ _ _ (2 * k + 2) Hlev ltac:(lia)) as (c0 & Ec & Hc0). rewrite Ec.
        split; [by intros ? [= <-]|]. destruct (Nat.eqb_spec (S k) (len / 2)); [|lia].
        replace len with (S (2 * k + 2)) by lia. rewrite (all_leaves_take _ _ _ Ec), Ht2, <- !app_assoc.
        unfold opt_leaves. simpl. by rewrite app_nil_r.
      - split; [done|]. change (opt_leaves None) with (@nil AstNode). rewrite app_nil_r.
        destruct (Nat.eqb_spec (S k) (len / 2)); rewrite <- Ht2; do 2 f_equal; lia. }
    destruct Hc as [Hc Hleaves].
    destruct (create23_ok h a b c im Ha Hb Hc) as (t & -> & Ht & Lt). cbn [result_bind].
    exists (ps ++ [t]). split_and!.
    + f_equal. unfold set_at. destruct (Z.ltb_spec (Z.of_nat k) 0); [lia|]. rewrite Nat2Z.id.
      destruct (lookup_lt_is_Some_2 items k ltac:(lia)) as [x Hx]. rewrite (drop_S _ _ _ Hx).
      rewrite insert_app_r_alt by lia. rewrite Hl, Nat.sub_diag. simpl. by rewrite <- app_assoc.
    + rewrite length_app. simpl. lia.
    + apply Forall_app. split; [done|]. by constructor.
    + rewrite all_leaves_app, Hpl, Hleaves. f_equal. unfold all_leaves. simpl. by rewrite app_nil_r.
Qed.

Lemma pair_levels_ok fuel im h items len ls :
  level h items len ls -> (len <= fuel)%nat ->
  exists h' items' len', pair_levels fuel im items (Z.of_nat len) = Ok (items', Z.of_nat len') /\
    level h' items' len' ls /\ (len' <= 3)%nat.
Proof.
  revert h items len. induction fuel as [|fuel IH]; intros h items len Hlev Hf.
  { destruct Hlev; lia. }
  cbn [pair_levels]. destruct (Z.gtb_spec (Z.of_nat len) 3); [|exists h, items, len; split_and!; done || lia].
  rewrite Z.shiftr_div_pow2 by lia. change (2 ^ 1) with 2.
  replace (Z.of_nat len / 2) with (Z.of_nat (len / 2)) by (by rewrite Nat2Z.inj_div).
  pose proof (Nat.div_mod_eq len 2) as Hdiv. pose proof (Nat.mod_upper_bound len 2 ltac:(lia)) as Hmod.
  destruct (pair_steps im h items len ls (len / 2) Hlev ltac:(lia)) as (ps & -> & Hl & Hpf & Hpl).
  cbn [result_bind]. rewrite Nat.eqb_refl in Hpl. destruct Hlev as (Hlen & _ & Hls).
  apply (IH (S h)); [|lia]. unfold level. rewrite length_app, length_drop, <- Hl, take_app_length.
  split_and!; [lia|lia|done|congruence].
Qed.

Lemma concatSameHeight_ok im h items :
  items <> [] -> Forall (tree23 h) items ->
  exists t, concat23TreesOfSameHeight items im = Ok (Some t) /\ balanced t /\ leaves t = all_leaves items.
Proof.
  intros Hne Hf. unfold concat23TreesOfSameHeight. destruct items as [|x [|y items]]; [done| |].
  { exists x. split; [done|]. split; [exists h; by inversion Hf|]. unfold all_leaves. simpl. by rewrite app_nil_r. }
  set (l := x :: y :: items) in *. assert (Hlev : level h l (List.length l) (all_leaves l)).
  { unfold level. rewrite firstn_all. split_and!; try done. simpl. lia. }
  destruct (pair_levels_ok (List.length l) im h l _ _ Hlev ltac:(lia)) as (h' & items' & len' & E & Hlev' & Hl3).
  change (zlen l) with (Z.of_nat (List.length l)). rewrite E. cbn [result_bind].
  destruct (level_item _ _ _ _ 0 Hlev' ltac:(destruct Hlev'; lia)) as (a & Ea & Ha).
  destruct (level_item _ _ _ _ 1 Hlev' ltac:(destruct Hlev'; lia)) as (b & Eb & Hb).
  change 0 with (Z.of_nat 0). change 1 with (Z.of_nat 1). rewrite !at_nat, Ea, Eb.
  set (c := if _ >=? 3 then _ else _).
  assert (Hc : (forall c', c = Some c' -> tree23 h' c') /\ leaves a ++ leaves b ++ opt_leaves c = all_leaves l).
  { assert (Hlev2 := Hlev'). destruct Hlev2 as (Hlen & Hf' & Hls). rewrite <- Hls. unfold c. destruct (Z.geb_spec (Z.of_nat len') 3).
    - destruct (level_item h' items' len' (all_leaves l) 2 Hlev' ltac:(lia)) as (c0 & Ec & Hc0).
      change 2 with (Z.of_nat 2). rewrite at_nat, Ec. split; [by intros ? [= <-]|].
      replace len' with 3%nat by lia. rewrite (all_leaves_take _ _ _ Ec), (all_leaves_take _ _ _ Eb), (all_leaves_take _ _ _ Ea).
      unfold opt_leaves. simpl. by rewrite app_nil_r, <- app_assoc.
    - split; [done|]. replace len' with 2%nat by lia. rewrite (all_leaves_take _ _ _ Eb), (all_leaves_take _ _ _ Ea).
      unfold opt_leaves. simpl. by rewrite app_nil_r. }
  destruct Hc as [Hc Hl]. destruct (create23_ok h' a b c im Ha Hb Hc) as (t & -> & Ht & Lt).
  exists t. split; [done|]. split; [by eexists|]. by rewrite Lt.
Qed.

(** ** The whole *)

Lemma slice_drop {A} (l : list A) i j :
  0 <= i -> i <= j -> j <= zlen l -> Prelude.slice l i j = take (Z.to_nat (j - i)) (drop (Z.to_nat i) l).
Proof.
  intros. unfold Prelude.slice, rel_index. destruct (Z.ltb_spec i 0), (Z.ltb_spec j 0); try lia.
  by rewrite !Z.min_l by lia.
Qed.

(** [readNode] reads a run of items of one height as one tree. *)
Lemma readNode_ok items i :
  Forall balanced items -> 0 <= i ->
  (zlen items <= i -> readNode items i = Ok (None, i)) /\
  (i < zlen items -> exists t j, readNode items i = Ok (Some t, j) /\ i < j <= zlen items /\ balanced t /\
     all_leaves (drop (Z.to_nat i) items) = leaves t ++ all_leaves (drop (Z.to_nat j) items)).
Proof.
  intros Hb Hi. unfold readNode. split; intros Hlen.
  { destruct (items.[i]) eqn:E; [apply at_lt in E; lia|done]. }
  destruct (at_in_range items i ltac:(lia)) as [x Hx]. rewrite Hx.
  assert (Hbx : balanced x) by (rewrite Forall_forall in Hb; apply Hb; by eapply at_elem_of).
  destruct Hbx as [h Hh]. pose proof (tree23_height _ _ Hh) as Hxh.
  while_inv (fun j => i + 1 <= j <= zlen items /\
      (forall k n, i <= k < j -> items.[k] = Some n -> listHeight n = listHeight x))
    (fun j => Z.to_nat (zlen items - j)) as [[Hj Hall] _].
  - intros j [Hj Hall] Hc. destruct (items.[j]) as [n|] eqn:En; [|done]. pose proof (at_lt _ _ _ En).
    split; [|lia]. split; [lia|]. intros k n' Hk Hn'. destruct (decide (k = j)) as [->|].
    + rewrite En in Hn'. injection Hn' as <-. lia.
    + apply (Hall k); [lia|done].
  - split; [lia|]. intros k n Hk. assert (k = i) as -> by lia. rewrite Hx. by intros [= <-].
  - unfold zlen in *. lia.
  - set (j := while _ _ _ _) in *. cbv zeta.
    destruct (Z.geb_spec (j - i) 2).
    + rewrite slice_drop by lia. set (l := take _ (drop _ items)).
      destruct (concatSameHeight_ok false h l) as (t & -> & Ht & Lt).
      * unfold l. rewrite (drop_at _ _ _ Hx). by replace (Z.to_nat (j - i)) with (S (Z.to_nat (j - i - 1))) by lia.
      * apply Forall_forall. intros n Hn. assert (Hn' := Hn). unfold l in Hn.
        apply list_elem_of_lookup in Hn as [k Hk]. apply lookup_take_Some in Hk as [Hk Hkl]. rewrite lookup_drop in Hk.
        assert (Hbn : balanced n) by (rewrite Forall_lookup in Hb; by eapply Hb).
        destruct Hbn as [h' Hn'']. assert (h' = h) as ->; [|done].
        assert (listHeight n = listHeight x).
        { apply (Hall (i + Z.of_nat k)); [lia|]. unfold at_. destruct (Z.ltb_spec (i + Z.of_nat k) 0); [lia|].
          by replace (Z.to_nat (i + Z.of_nat k)) with (Z.to_nat i + k)%nat by lia. }
        rewrite (tree23_height _ _ Hn'') in *. lia.
      * exists t, j. cbn [result_bind]. split_and!; try done; try lia. rewrite Lt, <- all_leaves_app. f_equal.
        unfold l. rewrite <- (take_drop (Z.to_nat (j - i)) (drop (Z.to_nat i) items)) at 1. f_equal.
        rewrite drop_drop. f_equal. lia.
    + assert (j = i + 1) as -> by lia. exists x, (i + 1). split_and!; try done; try lia; [by eexists|].
      by rewrite (drop_at _ _ _ Hx).
Qed.

Lemma concat_loop_ok fuel items first second i :
  Forall balanced items -> 0 <= i -> (Z.to_nat (zlen items - i) < fuel)%nat ->
  balanced first -> balanced second ->
  exists f s, concat_loop fuel items first second i = Ok (f, s) /\ balanced f /\ balanced s /\
    leaves f ++ leaves s = leaves first ++ leaves second ++ all_leaves (drop (Z.to_nat i) items).
Proof.
  intros Hb. revert first second i. induction fuel as [|fuel IH]; intros first second i Hi Hf Hb1 Hb2; [lia|].
  cbn [concat_loop]. destruct (readNode_ok items i Hb Hi) as [Hend Hread].
  destruct (Z.lt_ge_cases i (zlen items)) as [Hlt|Hge].
  - destruct (Hread Hlt) as (t & j & -> & Hj & Ht & Hl). cbn [result_bind].
    destruct (heightDiff first second <=? heightDiff second t).
    + destruct (concat_ok first second Hb1 Hb2) as (u & -> & Hu & Lu). cbn [result_bind].
      destruct (IH u t j ltac:(lia) ltac:(lia) Hu Ht) as (f & s & -> & ? & ? & E).
      exists f, s. split_and!; try done. by rewrite E, Lu, Hl, <- !app_assoc.
    + destruct (concat_ok second t Hb2 Ht) as (u & -> & Hu & Lu). cbn [result_bind].
      destruct (IH first u j ltac:(lia) ltac:(lia) Hb1 Hu) as (f & s & -> & ? & ? & E).
      exists f, s. split_and!; try done. by rewrite E, Lu, Hl, <- !app_assoc.
  - rewrite Hend by done. cbn [result_bind]. exists first, second. split_and!; try done.
    rewrite drop_ge by (unfold zlen in *; lia). unfold all_leaves. simpl. by rewrite app_nil_r.
Qed.

Lemma concat23Trees_ok items :
  items <> [] -> Forall balanced items ->
  exists t, concat23Trees items = Ok (Some t) /\ balanced t /\ leaves t = all_leaves items.
Proof.
  intros Hne Hb. unfold concat23Trees. destruct items as [|x [|y items]]; [done| |].
  { exists x. split; [done|]. split; [by inversion Hb|]. unfold all_leaves. simpl. by rewrite app_nil_r. }
  set (l := x :: y :: items) in *. assert (Hl0 : 0 < zlen l) by (unfold zlen; simpl; lia).
  destruct (readNode_ok l 0 Hb ltac:(lia)) as [_ Hread]. destruct (Hread Hl0) as (t & i & -> & Hi & Ht & Lt).
  cbn [result_bind]. simpl Z.to_nat in Lt. rewrite drop_0 in Lt.
  destruct (readNode_ok l i Hb ltac:(lia)) as [Hend Hread2].
  destruct (Z.lt_ge_cases i (zlen l)) as [Hlt|Hge].
  - destruct (Hread2 Hlt) as (u & j & -> & Hj & Hu & Lu). cbn [result_bind].
    destruct (concat_loop_ok (S (List.length l)) l t u j Hb ltac:(lia) ltac:(unfold zlen; lia) Ht Hu) as (f & s & -> & Hf & Hs & E).
    cbn [result_bind]. destruct (concat_ok f s Hf Hs) as (r & -> & Hr & Lr). exists r. split_and!; try done.
    by rewrite Lr, E, Lt, Lu.
  - rewrite Hend by done. cbn [result_bind]. exists t. split_and!; try done.
    rewrite Lt. rewrite drop_ge by (unfold zlen in *; lia). unfold all_leaves. simpl. by rewrite app_nil_r.
Qed.

(** ** Cached fields *)

#[local] Transparent sum_lengths merge_missing.

Definition has_length (n : AstNode) (d : doc) : Prop := Ast.length n = L d.

(** The cached length of a tree is the length of the text of its leaves. *)
Lemma tree23_length h t ds :
  tree23 h t -> Forall2 has_length (leaves t) ds -> small (List.concat ds) -> Ast.length t = L (List.concat ds).
Proof.
  intros Ht. revert ds. induction Ht as [n Hl|h im a b c Ha IHa Hb IHb Hc IHc]; intros ds Hds Hs.
  - rewrite (leaves_leaf n Hl) in Hds.
    apply Forall2_cons_inv_l in Hds as (d & ds' & Hd & Hn & ->). apply Forall2_nil_inv_l in Hn as ->.
    simpl. by rewrite app_nil_r.
  - rewrite leaves_list in Hds. apply Forall2_app_inv_l in Hds as (da & ds' & Hda & Hds & ->).
    apply Forall2_app_inv_l in Hds as (db & dc & Hdb & Hdc & ->). rewrite !List.concat_app in *.
    destruct (small_app _ _ Hs) as [Hsa Hsbc]. destruct (small_app _ _ Hsbc) as [Hsb Hsc].
    specialize (IHa da Hda Hsa). specialize (IHb db Hdb Hsb).
    assert (Hsab : small (List.concat da ++ List.concat db)) by (rewrite app_assoc in Hs; by destruct (small_app _ _ Hs)).
    simpl. unfold sum_lengths. destruct c as [c|]; simpl; rewrite IHa, IHb, L_app by done.
    + unfold opt_leaves in Hdc. simpl in Hdc. rewrite app_nil_r in Hdc. rewrite (IHc c eq_refl dc Hdc Hsc).
      rewrite L_app by by rewrite <- app_assoc. by rewrite <- app_assoc.
    + apply Forall2_nil_inv_l in Hdc as ->. simpl. by rewrite app_nil_r.
Qed.

Definition missing_wf (n : AstNode) : Prop := set_wf (missingOpeningBracketIds n).

(** Its set of missing brackets is the union of those of its leaves. *)
Lemma tree23_missing h t :
  tree23 h t -> Forall missing_wf (leaves t) ->
  missing_wf t /\ forall k, 0 <= k ->
    mem (missingOpeningBracketIds t) k = existsb (fun n => mem (missingOpeningBracketIds n) k) (leaves t).
Proof.
  induction 1 as [n Hl|h im a b c Ha IHa Hb IHb Hc IHc]; intros Hwf.
  - rewrite (leaves_leaf n Hl) in *. rewrite Forall_singleton in Hwf.
    split; [done|]. intros k _. simpl. by rewrite orb_false_r.
  - rewrite leaves_list in *. apply Forall_app in Hwf as [Wa Hwf]. apply Forall_app in Hwf as [Wb Wc].
    destruct (IHa Wa) as [Ma Ea]. destruct (IHb Wb) as [Mb Eb]. unfold missing_wf in *.
    pose proof (merge_wf _ _ Ma Mb) as Mab. simpl. unfold merge_missing.
    destruct c as [c|]; simpl; unfold opt_leaves in *; simpl in *; rewrite ?app_nil_r in *.
    + destruct (IHc c eq_refl Wc) as [Mc Ec]. split; [by apply merge_wf|].
      intros k Hk. by rewrite !mem_merge, Ea, Eb, Ec, !existsb_app, orb_assoc by done.
    + split; [done|]. intros k Hk. by rewrite mem_merge, Ea, Eb, existsb_app by done.
Qed.

(** A good joining of some leaves: balanced, in order, with the right cached fields. *)
Definition joins (ls : list AstNode) (t : AstNode) : Prop :=
  balanced t /\ leaves t = ls /\
  (forall ds, Forall2 has_length ls ds -> small (List.concat ds) -> Ast.length t = L (List.concat ds)) /\
  (Forall missing_wf ls -> forall k, 0 <= k ->
     SIS.has (missingOpeningBracketIds t) k = existsb (fun n => SIS.has (missingOpeningBracketIds n) k) ls).

Lemma balanced_joins t : balanced t -> joins (leaves t) t.
Proof.
  intros [h Ht]. split; [by exists h|]. split; [done|]. split.
  - intros ds. by apply (tree23_length h).
  - intros Hwf k Hk. destruct (tree23_missing h t Ht Hwf) as [Hm E].
    rewrite has_mem, E by done. clear E Hm Ht. induction Hwf as [|n ls Hn _ IH]; [done|].
    simpl. by rewrite IH, (has_mem _ k Hn Hk).
Qed.

(** C38: Concatenating trees gives one tree.  For every non-empty array of balanced (2,3)
    trees, of whatever heights, [concat23Trees] does not throw (neither the height checks
    of [create23], nor a mutation of an immutable list, nor a full or too small node) and
    returns a tree that is balanced, whose leaves are the leaves of the items in order,
    whose cached length is the length of the text of all leaves, and whose cached set of
    missing opening brackets is the union of those of the leaves.  For items of one height
    [concat23TreesOfSameHeight] promises the same, with mutable and immutable lists. *)
Theorem concat23Trees_joins items :
  items <> [] -> Forall balanced items ->
  (exists t, concat23Trees items = Ok (Some t) /\ joins (all_leaves items) t) /\
  (forall h im, Forall (tree23 h) items ->
    exists t, concat23TreesOfSameHeight items im = Ok (Some t) /\ joins (all_leaves items) t).
Proof.
  intros Hne Hb. split.
  - destruct (concat23Trees_ok items Hne Hb) as (t & E & Ht & <-). exists t. split; [done|]. by apply balanced_joins.
  - intros h im Hf. destruct (concatSameHeight_ok im h items Hne Hf) as (t & E & Ht & <-).
    exists t. split; [done|]. by apply balanced_joins.
Qed.

(** Four texts, a pair of two and a text: trees of heights 0, 1 and 0. *)
Definition text_of (n : Z) : AstNode := TextAstNode (toLength 0 n).

Definition pair_of_texts : AstNode :=
  TwoThreeListAstNode true (sum_lengths (text_of 5) [text_of 6]) 1 (text_of 5) (text_of 6) None
    (merge_missing (text_of 5) [text_of 6]).

Definition some_items : list AstNode := [text_of 1; text_of 2; text_of 3; text_of 4; pair_of_texts; text_of 7].

Lemma some_items_balanced : Forall balanced some_items.
Proof.
  repeat (apply Forall_cons; split); try done; try (exists 0%nat; by constructor).
  exists 1%nat. apply (tree23_list 0 true (text_of 5) (text_of 6) None); [by constructor..|done].
Qed.

Lemma concat23Trees_joins_witness :
  (exists t, concat23Trees some_items = Ok (Some t) /\ Ast.length t = toLength 0 28 /\ listHeight t = 2) /\
  exists t, concat23Trees some_items = Ok (Some t) /\
    leaves t = [text_of 1; text_of 2; text_of 3; text_of 4; text_of 5; text_of 6; text_of 7].
Proof.
  split; [eexists; split; [vm_compute; reflexivity|split; reflexivity]|].
  destruct (proj1 (concat23Trees_joins some_items ltac:(done) some_items_balanced)) as (t & E & (_ & Hl & _)).
  exists t. split; [exact E|exact Hl].
Defined.
