(* ===== verification/Store.v ===== *)
(** * Programs with state

    The monad of the components whose objects point to each other and are mutated in
    place: a program takes a state and gives a value and a state, or throws.  [wp] is its
    total correctness: the program does not throw, and its outcome satisfies the
    postcondition. *)

From S2P Require Import Prelude.

Definition ST (S A : Type) : Type := S -> result (A * S).

#[export] Instance ST_ret {S} : MRet (ST S) := fun A a s => Ok (a, s).

#[export] Instance ST_bind {S} : MBind (ST S) := fun A B f m s =>
  match m s with Ok (a, s') => f a s' | Throw e => Throw e end.

Definition throw {S A} (e : js_error) : ST S A := fun _ => Throw e.
Definition gets {S A} (f : S -> A) : ST S A := fun s => Ok (f s, s).
Definition modify {S} (f : S -> S) : ST S unit := fun s => Ok (tt, f s).

(** [while (cond) body] with its variables as the argument.  Running out of fuel is an
    error, which no proof of [wp] can reach. *)
Fixpoint loop {S X} (fuel : nat) (cond : X -> ST S bool) (body : X -> ST S X) (x : X) : ST S X :=
  match fuel with
  | O => throw OtherError
  | Datatypes.S fuel' =>
      b ← cond x;
      if b : bool then x' ← body x; loop fuel' cond body x' else mret x
  end.

(** [if (c) m]. *)
Definition when {S} (c : bool) (m : ST S unit) : ST S unit := if c then m else mret tt.

(** ** Total correctness *)

Definition wp {S A} (m : ST S A) (s : S) (Q : A -> S -> Prop) : Prop :=
  match m s with Ok (a, s') => Q a s' | Throw _ => False end.

Section wp.
Context {S : Type}.

Lemma wp_bind {A B} (m : ST S A) (f : A -> ST S B) s Q :
  wp m s (fun a s' => wp (f a) s' Q) -> wp (m ≫= f) s Q.
Proof. unfold wp, mbind, ST_bind. by destruct (m s) as [[a s']|]. Qed.

Lemma wp_bind_inv {A B} (m : ST S A) (f : A -> ST S B) s Q :
  wp (m ≫= f) s Q -> wp m s (fun a s' => wp (f a) s' Q).
Proof. unfold wp, mbind, ST_bind. by destruct (m s) as [[a s']|]. Qed.

Lemma wp_ret {A} (a : A) (s : S) Q : Q a s -> wp (mret a) s Q.
Proof. done. Qed.

Lemma wp_gets {A} (f : S -> A) s Q : Q (f s) s -> wp (gets f) s Q.
Proof. done. Qed.

Lemma wp_modify f (s : S) Q : Q tt (f s) -> wp (modify f) s Q.
Proof. done. Qed.

Lemma wp_mono {A} (m : ST S A) s (Q Q' : A -> S -> Prop) :
  wp m s Q -> (forall a s', Q a s' -> Q' a s') -> wp m s Q'.
Proof. unfold wp. destruct (m s) as [[a s']|]; auto. Qed.

(** What a program proved correct computes. *)
Lemma wp_run {A} (m : ST S A) s Q : wp m s Q -> exists a s', m s = Ok (a, s') /\ Q a s'.
Proof. unfold wp. destruct (m s) as [[a s']|]; [|done]. intros. by exists a, s'. Qed.

Lemma wp_loop {X} (I : nat -> X -> S -> Prop) fuel cond body (x : X) s Q k :
  (forall k x s, I k x s ->
     wp (cond x) s (fun b s' =>
       if b : bool then wp (body x) s' (fun x' s'' => exists k', (k' < k)%nat /\ I k' x' s'') else Q x s')) ->
  I k x s -> (k < fuel)%nat -> wp (loop fuel cond body x) s Q.
Proof.
  intros Hstep. revert k x s. induction fuel as [|fuel IH]; intros k x s HI Hk; [lia|].
  simpl. apply wp_bind. eapply wp_mono; [by apply Hstep|]. intros [] s' H; simpl in H; [|done].
  apply wp_bind. eapply wp_mono; [exact H|].
  intros x' s'' (k' & Hlt & HI'). apply (IH k'); [done|lia].
Qed.
End wp.
