(* ===== verification/RbTree.v ===== *)
(** * The red-black tree of the piece tree

    [src/src/vs/editor/common/model/pieceTreeTextBuffer/rbTreeBase.ts], with [rbInsertLeft]
    and [rbInsertRight] of [pieceTreeBase.ts] in the same directory.  Nodes are objects that
    point to parent and children and are mutated in place: a heap of records, addressed by
    pointers.  [SENTINEL] is one shared node that stands for every missing node; [null],
    the pointer of a detached node, is no address, and following it throws.

    Every node caches the length and the line feeds of its left subtree; the operations keep
    these up to date along the path to the root. *)

From S2P Require Import Prelude Store.

Definition ptr : Type := Z.
Definition SENTINEL : ptr := 0.
Definition null : ptr := -1.

(** [next] and [prev] test a pointer to be real. *)
Inductive NodeColor : Type := Black | Red.

#[export] Instance NodeColor_eq_dec : EqDecision NodeColor.
Proof. solve_decision. Defined.

Record BufferCursor : Type := mkCursor { line : Z; column : Z }.

Record Piece : Type := mkPiece {
  bufferIndex : Z; start : BufferCursor; end_ : BufferCursor; lineFeedCnt : Z; length : Z }.

#[export] Instance BufferCursor_eq_dec : EqDecision BufferCursor.
Proof. solve_decision. Defined.
#[export] Instance Piece_eq_dec : EqDecision Piece.
Proof. solve_decision. Defined.

(** [piece] is [null] in [SENTINEL] only. *)
Record TreeNode : Type := mkNode {
  parent : ptr; left : ptr; right : ptr; color : NodeColor;
  piece : option Piece; size_left : Z; lf_left : Z }.

#[export] Instance TreeNode_eq_dec : EqDecision TreeNode.
Proof. solve_decision. Defined.

Definition with_parent p n := mkNode p (left n) (right n) (color n) (piece n) (size_left n) (lf_left n).
Definition with_left p n := mkNode (parent n) p (right n) (color n) (piece n) (size_left n) (lf_left n).
Definition with_right p n := mkNode (parent n) (left n) p (color n) (piece n) (size_left n) (lf_left n).
Definition with_color c n := mkNode (parent n) (left n) (right n) c (piece n) (size_left n) (lf_left n).
Definition with_piece p n := mkNode (parent n) (left n) (right n) (color n) (Some p) (size_left n) (lf_left n).
Definition with_size_left z n := mkNode (parent n) (left n) (right n) (color n) (piece n) z (lf_left n).
Definition with_lf_left z n := mkNode (parent n) (left n) (right n) (color n) (piece n) (size_left n) z.

(** The objects and the [root] of the tree at work. *)
Record store : Type := mkStore { heap : gmap ptr TreeNode; root : ptr }.

Abbreviation M := (ST store).

Definition deref (p : ptr) : M TreeNode := fun s =>
  match heap s !! p with Some n => Ok (n, s) | None => Throw TypeError end.

(** [p.f], and [p.f = ...]. *)
Definition fld {A} (f : TreeNode -> A) (p : ptr) : M A := n ← deref p; mret (f n).

Definition upd (p : ptr) (f : TreeNode -> TreeNode) : M unit := fun s =>
  match heap s !! p with
  | Some n => Ok (tt, mkStore (<[p := f n]> (heap s)) (root s))
  | None => Throw TypeError
  end.

Definition get_root : M ptr := gets root.
Definition set_root (p : ptr) : M unit := modify (fun s => mkStore (heap s) p).

(** A bound on the length of every path, as no node is passed twice. *)
Definition enough : M nat := gets (fun s => S (size (heap s))).

Definition while_ {X} (cond : X -> M bool) (body : X -> M X) (x : X) : M X :=
  fuel ← enough; loop fuel cond body x.

(** The address of a new object: none in use, and not [null]. *)
Definition fresh_ptr (h : gmap ptr TreeNode) : ptr := 1 + foldr Z.max 0 ((map_to_list h).*1).

(** [x.piece ? x.piece.length : 0]. *)
Definition piece_length (p : option Piece) : Z := match p with Some p => length p | None => 0 end.
Definition piece_lf (p : option Piece) : Z := match p with Some p => lineFeedCnt p | None => 0 end.

(** [node.piece.length], which throws for [SENTINEL]. *)
Definition get_piece (p : ptr) : M Piece :=
  o ← fld piece p;
  match o with Some pc => mret pc | None => throw TypeError end.

Module RB.

(** ** Walking *)

Definition leftest (node : ptr) : M ptr :=
  while_ (fun node => l ← fld left node; mret (negb (l =? SENTINEL))) (fld left) node.

Definition righttest (node : ptr) : M ptr :=
  while_ (fun node => r ← fld right node; mret (negb (r =? SENTINEL))) (fld right) node.

Definition next (this : ptr) : M ptr :=
  r ← fld right this;
  if negb (r =? SENTINEL) then leftest r
  else
    node ← while_ (fun node =>
        p ← fld parent node;
        if p =? SENTINEL then mret false else l ← fld left p; mret (negb (l =? node)))
      (fld parent) this;
    fld parent node.

Definition prev (this : ptr) : M ptr :=
  l ← fld left this;
  if negb (l =? SENTINEL) then righttest l
  else
    node ← while_ (fun node =>
        p ← fld parent node;
        if p =? SENTINEL then mret false else r ← fld right p; mret (negb (r =? node)))
      (fld parent) this;
    fld parent node.

Definition detach (this : ptr) : M unit :=
  upd this (with_parent null);; upd this (with_left null);; upd this (with_right null).

Fixpoint calculateSize_ (fuel : nat) (node : ptr) : M Z :=
  match fuel with
  | O => throw OtherError
  | S fuel' =>
      if node =? SENTINEL then mret 0
      else
        sl ← fld size_left node;
        pc ← get_piece node;
        r ← fld right node;
        z ← calculateSize_ fuel' r;
        mret (sl + length pc + z)
  end.

Definition calculateSize (node : ptr) : M Z := fuel ← enough; calculateSize_ fuel node.

Fixpoint calculateLF_ (fuel : nat) (node : ptr) : M Z :=
  match fuel with
  | O => throw OtherError
  | S fuel' =>
      if node =? SENTINEL then mret 0
      else
        lf ← fld lf_left node;
        pc ← get_piece node;
        r ← fld right node;
        z ← calculateLF_ fuel' r;
        mret (lf + lineFeedCnt pc + z)
  end.

Definition calculateLF (node : ptr) : M Z := fuel ← enough; calculateLF_ fuel node.

Definition resetSentinel : M unit := upd SENTINEL (with_parent SENTINEL).

(** ** Rotations *)

Definition leftRotate (x : ptr) : M unit :=
  y ← fld right x;
  xn ← deref x;
  upd y (fun n => with_size_left (size_left n + (size_left xn + piece_length (piece xn))) n);;
  xn ← deref x;
  upd y (fun n => with_lf_left (lf_left n + (lf_left xn + piece_lf (piece xn))) n);;
  yl ← fld left y;
  upd x (with_right yl);;
  when (negb (yl =? SENTINEL)) (upd yl (with_parent x));;
  xp ← fld parent x;
  upd y (with_parent xp);;
  (if xp =? SENTINEL then set_root y
   else
     xpl ← fld left xp;
     if xpl =? x then upd xp (with_left y) else upd xp (with_right y));;
  upd y (with_left x);;
  upd x (with_parent y).

Definition rightRotate (y : ptr) : M unit :=
  x ← fld left y;
  xr ← fld right x;
  upd y (with_left xr);;
  when (negb (xr =? SENTINEL)) (upd xr (with_parent y));;
  yp ← fld parent y;
  upd x (with_parent yp);;
  xn ← deref x;
  upd y (fun n => with_size_left (size_left n - (size_left xn + piece_length (piece xn))) n);;
  xn ← deref x;
  upd y (fun n => with_lf_left (lf_left n - (lf_left xn + piece_lf (piece xn))) n);;
  (if yp =? SENTINEL then set_root x
   else
     ypr ← fld right yp;
     if ypr =? y then upd yp (with_right x) else upd yp (with_left x));;
  upd x (with_right y);;
  upd y (with_parent x).

(** ** Metadata *)

Definition add_left (delta lf_delta : Z) (n : TreeNode) : TreeNode :=
  with_lf_left (lf_left n + lf_delta) (with_size_left (size_left n + delta) n).

(** One turn of the loops that hand a difference up to the root. *)
Definition update_step (delta lineFeedCntDelta : Z) (x : ptr) : M ptr :=
  p ← fld parent x;
  pl ← fld left p;
  when (pl =? x) (upd p (add_left delta lineFeedCntDelta));;
  fld parent x.

Definition updateTreeMetadata (x : ptr) (delta lineFeedCntDelta : Z) : M unit :=
  _ ← while_ (fun x => r ← get_root; mret (negb (x =? r) && negb (x =? SENTINEL)))
    (update_step delta lineFeedCntDelta) x;
  mret tt.

Definition recomputeTreeMetadata (x : ptr) : M unit :=
  r ← get_root;
  if x =? r then mret tt
  else
    x ← while_ (fun x =>
        r ← get_root;
        if x =? r then mret false
        else p ← fld parent x; pr ← fld right p; mret (x =? pr))
      (fld parent) x;
    r ← get_root;
    if x =? r then mret tt
    else
      x ← fld parent x;
      l ← fld left x;
      size ← calculateSize l;
      sl ← fld size_left x;
      let delta := size - sl in
      l ← fld left x;
      lf ← calculateLF l;
      lfl ← fld lf_left x;
      let lf_delta := lf - lfl in
      upd x (add_left delta lf_delta);;
      _ ← while_ (fun x =>
          r ← get_root;
          mret (negb (x =? r) && (negb (delta =? 0) || negb (lf_delta =? 0))))
        (update_step delta lf_delta) x;
      mret tt.

(** ** Insertion *)

(** The body of the loop of [fixInsert]; [x] after it. *)
Definition fixInsert_step (x : ptr) : M ptr :=
  p ← fld parent x;
  g ← fld parent p;
  gl ← fld left g;
  if p =? gl then
    y ← fld right g;
    yc ← fld color y;
    if decide (yc = Red) then
      upd p (with_color Black);;
      upd y (with_color Black);;
      upd g (with_color Red);;
      mret g
    else
      pr ← fld right p;
      x ← (if x =? pr then leftRotate p;; mret p else mret x);
      p ← fld parent x;
      upd p (with_color Black);;
      g ← fld parent p;
      upd g (with_color Red);;
      rightRotate g;;
      mret x
  else
    y ← fld left g;
    yc ← fld color y;
    if decide (yc = Red) then
      upd p (with_color Black);;
      upd y (with_color Black);;
      upd g (with_color Red);;
      mret g
    else
      pl ← fld left p;
      x ← (if x =? pl then rightRotate p;; mret p else mret x);
      p ← fld parent x;
      upd p (with_color Black);;
      g ← fld parent p;
      upd g (with_color Red);;
      leftRotate g;;
      mret x.

Definition fixInsert (x : ptr) : M unit :=
  recomputeTreeMetadata x;;
  _ ← while_ (fun x =>
      r ← get_root;
      if x =? r then mret false
      else p ← fld parent x; c ← fld color p; mret (bool_decide (c = Red)))
    fixInsert_step x;
  r ← get_root;
  upd r (with_color Black).

(** [new TreeNode(p, NodeColor.Red)] with the five assignments that follow it. *)
Definition new_node (p : Piece) : M ptr := fun s =>
  let z := fresh_ptr (heap s) in
  Ok (z, mkStore (<[z := mkNode SENTINEL SENTINEL SENTINEL Red (Some p) 0 0]> (heap s)) (root s)).

(** A [node] that is [null] is only passed when the tree is empty. *)
Definition rbInsertRight (node : ptr) (p : Piece) : M ptr :=
  z ← new_node p;
  x ← get_root;
  (if x =? SENTINEL then set_root z;; upd z (with_color Black)
   else
     r ← fld right node;
     if r =? SENTINEL then upd node (with_right z);; upd z (with_parent node)
     else
       nextNode ← leftest r;
       upd nextNode (with_left z);;
       upd z (with_parent nextNode));;
  fixInsert z;;
  mret z.

Definition rbInsertLeft (node : ptr) (p : Piece) : M ptr :=
  z ← new_node p;
  x ← get_root;
  (if x =? SENTINEL then set_root z;; upd z (with_color Black)
   else
     l ← fld left node;
     if l =? SENTINEL then upd node (with_left z);; upd z (with_parent node)
     else
       prevNode ← righttest l;
       upd prevNode (with_right z);;
       upd z (with_parent prevNode));;
  fixInsert z;;
  mret z.

(** ** Deletion *)

(** The body of the loop of [rbDelete]; [x] after it. *)
Definition fixDelete_step (x : ptr) : M ptr :=
  p ← fld parent x;
  pl ← fld left p;
  if x =? pl then
    w ← fld right p;
    wc ← fld color w;
    w ← (if decide (wc = Red) then
           upd w (with_color Black);;
           upd p (with_color Red);;
           leftRotate p;;
           p ← fld parent x;
           fld right p
         else mret w);
    wl ← fld left w;
    wlc ← fld color wl;
    wr ← fld right w;
    wrc ← fld color wr;
    if bool_decide (wlc = Black) && bool_decide (wrc = Black) then
      upd w (with_color Red);;
      fld parent x
    else
      w ← (if decide (wrc = Black) then
             upd wl (with_color Black);;
             upd w (with_color Red);;
             rightRotate w;;
             p ← fld parent x;
             fld right p
           else mret w);
      p ← fld parent x;
      pc ← fld color p;
      upd w (with_color pc);;
      upd p (with_color Black);;
      wr ← fld right w;
      upd wr (with_color Black);;
      leftRotate p;;
      get_root
  else
    w ← fld left p;
    wc ← fld color w;
    w ← (if decide (wc = Red) then
           upd w (with_color Black);;
           upd p (with_color Red);;
           rightRotate p;;
           p ← fld parent x;
           fld left p
         else mret w);
    wl ← fld left w;
    wlc ← fld color wl;
    wr ← fld right w;
    wrc ← fld color wr;
    if bool_decide (wlc = Black) && bool_decide (wrc = Black) then
      upd w (with_color Red);;
      fld parent x
    else
      w ← (if decide (wlc = Black) then
             upd wr (with_color Black);;
             upd w (with_color Red);;
             leftRotate w;;
             p ← fld parent x;
             fld left p
           else mret w);
      p ← fld parent x;
      pc ← fld color p;
      upd w (with_color pc);;
      upd p (with_color Black);;
      wl ← fld left w;
      upd wl (with_color Black);;
      rightRotate p;;
      get_root.

Definition fixDelete (x : ptr) : M ptr :=
  while_ (fun x =>
      r ← get_root;
      if x =? r then mret false else c ← fld color x; mret (bool_decide (c = Black)))
    fixDelete_step x.

(** Putting [x] in the place of [y], where [y !== z] is the successor that replaces [z]. *)
Definition transplant (z y x : ptr) : M unit :=
  yp ← fld parent y;
  upd x (with_parent (if yp =? z then y else yp));;
  recomputeTreeMetadata x;;
  zn ← deref z;
  upd y (with_left (left zn));;
  upd y (with_right (right zn));;
  upd y (with_parent (parent zn));;
  upd y (with_color (color zn));;
  r ← get_root;
  (if z =? r then set_root y
   else
     zpl ← fld left (parent zn);
     if z =? zpl then upd (parent zn) (with_left y) else upd (parent zn) (with_right y));;
  yl ← fld left y;
  when (negb (yl =? SENTINEL)) (upd yl (with_parent y));;
  yr ← fld right y;
  when (negb (yr =? SENTINEL)) (upd yr (with_parent y));;
  zn ← deref z;
  upd y (with_size_left (size_left zn));;
  upd y (with_lf_left (lf_left zn));;
  recomputeTreeMetadata y.

(** After [z.detach()]: the metadata of [x.parent], when [x] is its left child. *)
Definition recompute_left (x : ptr) : M unit :=
  p ← fld parent x;
  pl ← fld left p;
  when (pl =? x)
    (newSizeLeft ← calculateSize x;
     newLFLeft ← calculateLF x;
     pn ← deref p;
     when (negb (newSizeLeft =? size_left pn) || negb (newLFLeft =? lf_left pn))
       (upd p (with_size_left newSizeLeft);;
        upd p (with_lf_left newLFLeft);;
        updateTreeMetadata p (newSizeLeft - size_left pn) (newLFLeft - lf_left pn))).

Definition rbDelete (z : ptr) : M unit :=
  zn ← deref z;
  y ← (if left zn =? SENTINEL then mret z
       else if right zn =? SENTINEL then mret z
       else leftest (right zn));
  x ← (if left zn =? SENTINEL then fld right y
       else if right zn =? SENTINEL then fld left y
       else fld right y);
  r ← get_root;
  if y =? r then
    set_root x;;
    upd x (with_color Black);;
    detach z;;
    resetSentinel;;
    r ← get_root;
    upd r (with_parent SENTINEL)
  else
    yc ← fld color y;
    yp ← fld parent y;
    ypl ← fld left yp;
    (if y =? ypl then upd yp (with_left x) else upd yp (with_right x));;
    (if y =? z then
       yp ← fld parent y;
       upd x (with_parent yp);;
       recomputeTreeMetadata x
     else transplant z y x);;
    detach z;;
    recompute_left x;;
    xp ← fld parent x;
    recomputeTreeMetadata xp;;
    if decide (yc = Red) then resetSentinel
    else
      x ← fixDelete x;
      upd x (with_color Black);;
      resetSentinel.

End RB.
