(* ===== verification/RbRep.v ===== *)
(** * Trees in the heap

    What it means that the objects of a store make a tree, and what the heap operations of
    RbTree.v do to it.  A place in a tree is a subtree and the path of frames above it
    ([plug]); [tree_at F s t] says that the store [s] holds the tree [t] beside the objects
    [F], which no operation touches.  Reading and writing one node and the two rotations
    are the only proofs about the heap; everything above reasons about trees. *)

From S2P Require Import Prelude Store RbTree.

(** ** Trees and places in them *)

(** What a node holds besides its pointers and its color. *)
Record info : Type := mkInfo { addr : ptr; pc : Piece; sl : Z; lf : Z }.

Inductive tree : Type := E | T (c : NodeColor) (l : tree) (i : info) (r : tree).

(** Going up from a left child, whose parent and sibling these are, or from a right one. *)
Inductive frame : Type :=
  | FL (c : NodeColor) (i : info) (r : tree)
  | FR (c : NodeColor) (l : tree) (i : info).

Definition ctx : Type := list frame.

Definition plug1 (f : frame) (t : tree) : tree :=
  match f with FL c i r => T c t i r | FR c l i => T c l i t end.

Fixpoint plug (K : ctx) (t : tree) : tree :=
  match K with [] => t | f :: K' => plug K' (plug1 f t) end.

Definition root_of (t : tree) : ptr := match t with E => SENTINEL | T _ _ i _ => addr i end.

Definition finfo (f : frame) : info := match f with FL _ i _ | FR _ _ i => i end.

Definition par (K : ctx) : ptr := match K with [] => SENTINEL | f :: _ => addr (finfo f) end.

(** The nodes in order. *)
Fixpoint elems (t : tree) : list (ptr * Piece) :=
  match t with E => [] | T _ l i r => elems l ++ (addr i, pc i) :: elems r end.

Definition addrs (t : tree) : list ptr := (elems t).*1.

Fixpoint before (K : ctx) : list (ptr * Piece) :=
  match K with
  | [] => []
  | FL _ _ _ :: K' => before K'
  | FR _ l i :: K' => before K' ++ elems l ++ [(addr i, pc i)]
  end.

Fixpoint after (K : ctx) : list (ptr * Piece) :=
  match K with
  | [] => []
  | FL _ i r :: K' => (addr i, pc i) :: elems r ++ after K'
  | FR _ _ _ :: K' => after K'
  end.

Lemma elems_plug K t : elems (plug K t) = before K ++ elems t ++ after K.
Proof.
  revert t. induction K as [|[c i r|c l i] K IH]; intros t; simpl; [by rewrite app_nil_r| |];
    rewrite IH; simpl; by rewrite <- ?app_assoc.
Qed.

Lemma plug_app K K' t : plug (K ++ K') t = plug K' (plug K t).
Proof. revert t. induction K as [|f K IH]; intros t; simpl; [done|apply IH]. Qed.

Definition ctx_addrs (K : ctx) : list ptr := (before K).*1 ++ (after K).*1.

Lemma addrs_plug K t : addrs (plug K t) = (before K).*1 ++ addrs t ++ (after K).*1.
Proof. unfold addrs. by rewrite elems_plug, !fmap_app. Qed.

(** ** Representation *)

Definition node_of (p l r : ptr) (c : NodeColor) (i : info) : TreeNode :=
  mkNode p l r c (Some (pc i)) (sl i) (lf i).

Definition sentinel_node (p : ptr) : TreeNode := mkNode p SENTINEL SENTINEL Black None 0 0.

Fixpoint rep (h : gmap ptr TreeNode) (p : ptr) (t : tree) : Prop :=
  match t with
  | E => True
  | T c l i r =>
      h !! addr i = Some (node_of p (root_of l) (root_of r) c i) /\ rep h (addr i) l /\ rep h (addr i) r
  end.

(** The objects of a path, for a subtree at the pointer [a]. *)
Fixpoint rep_ctx (h : gmap ptr TreeNode) (K : ctx) (a : ptr) : Prop :=
  match K with
  | [] => True
  | FL c i r :: K' =>
      h !! addr i = Some (node_of (par K') a (root_of r) c i) /\ rep h (addr i) r /\ rep_ctx h K' (addr i)
  | FR c l i :: K' =>
      h !! addr i = Some (node_of (par K') (root_of l) a c i) /\ rep h (addr i) l /\ rep_ctx h K' (addr i)
  end.

Lemma rep_plug h K t : rep h SENTINEL (plug K t) <-> rep h (par K) t /\ rep_ctx h K (root_of t).
Proof.
  revert t. induction K as [|[c i r|c l i] K IH]; intros t; simpl; [by intuition| |];
    rewrite IH; simpl; naive_solver.
Qed.

Lemma root_of_plug K t : root_of (plug K t) = match last K with None => root_of t | Some f => addr (finfo f) end.
Proof.
  revert t. induction K as [|f K IH]; intros t; [done|]. simpl plug. rewrite IH.
  destruct K as [|g K]; [by destruct f|].
  rewrite last_cons_cons. destruct (last (g :: K)) eqn:EK; [done|]. by apply last_None in EK.
Qed.

(** The store holds the tree [t], the sentinel, whose parent is [sp], and the objects of
    [F]. *)
Definition heap_at (F : gmap ptr TreeNode) (sp : ptr) (h : gmap ptr TreeNode) (t : tree) : Prop :=
  rep h SENTINEL t /\ NoDup (SENTINEL :: addrs t) /\ h !! SENTINEL = Some (sentinel_node sp) /\
  (forall a n, F !! a = Some n -> a ∉ SENTINEL :: addrs t /\ h !! a = Some n).

Definition tree_at (F : gmap ptr TreeNode) (sp : ptr) (s : store) (t : tree) : Prop :=
  root s = root_of t /\ heap_at F sp (heap s) t.

(** ** Frames *)

Lemma addrs_T c l i r : addrs (T c l i r) = addrs l ++ addr i :: addrs r.
Proof. unfold addrs. simpl. by rewrite fmap_app. Qed.

Lemma rep_frame h h' p t : rep h p t -> (forall a, a ∈ addrs t -> h' !! a = h !! a) -> rep h' p t.
Proof.
  revert p. induction t as [|c l IHl i r IHr]; intros p; [done|]. rewrite addrs_T.
  intros (Hi & Hl & Hr) Hf. simpl. setoid_rewrite elem_of_app in Hf. setoid_rewrite elem_of_cons in Hf.
  rewrite Hf by auto. auto 10.
Qed.

Lemma ctx_addrs_FL c i r K a : a ∈ ctx_addrs (FL c i r :: K) <-> a = addr i \/ a ∈ addrs r \/ a ∈ ctx_addrs K.
Proof.
  unfold ctx_addrs, addrs. simpl. rewrite fmap_app. rewrite !elem_of_app, elem_of_cons, elem_of_app. tauto.
Qed.

Lemma ctx_addrs_FR c l i K a : a ∈ ctx_addrs (FR c l i :: K) <-> a = addr i \/ a ∈ addrs l \/ a ∈ ctx_addrs K.
Proof.
  unfold ctx_addrs, addrs. simpl. rewrite !fmap_app. simpl.
  rewrite !elem_of_app, list_elem_of_singleton. tauto.
Qed.

Lemma rep_ctx_frame h h' K a : rep_ctx h K a -> (forall b, b ∈ ctx_addrs K -> h' !! b = h !! b) -> rep_ctx h' K a.
Proof.
  revert a. induction K as [|[c i r|c l i] K IH]; intros a; [done| |]; intros (Hi & Hs & Hk) Hf;
    [setoid_rewrite ctx_addrs_FL in Hf|setoid_rewrite ctx_addrs_FR in Hf]; simpl;
    (split; [by rewrite Hf by auto|]); split; [eapply rep_frame; eauto|apply IH; auto|eapply rep_frame; eauto|apply IH; auto].
Qed.

(** Every node of a tree is an object. *)
Lemma rep_lookup h K c l i r :
  rep h SENTINEL (plug K (T c l i r)) ->
  h !! addr i = Some (node_of (par K) (root_of l) (root_of r) c i).
Proof. rewrite rep_plug. simpl. tauto. Qed.

Lemma NoDup_plug K t :
  NoDup (SENTINEL :: addrs (plug K t)) <->
  NoDup (addrs t) /\ NoDup (ctx_addrs K) /\ (SENTINEL ∉ addrs t) /\ (SENTINEL ∉ ctx_addrs K) /\
  (forall a, a ∈ addrs t -> a ∉ ctx_addrs K).
Proof.
  rewrite addrs_plug. unfold ctx_addrs. rewrite NoDup_cons, !NoDup_app. setoid_rewrite elem_of_app. set_solver.
Qed.

(** ** Rules for one object *)

Lemma wp_fld {A} (f : TreeNode -> A) p s n (Q : A -> store -> Prop) :
  heap s !! p = Some n -> Q (f n) s -> wp (fld f p) s Q.
Proof. intros Hp HQ. unfold wp, fld, deref, mbind, ST_bind. by rewrite Hp. Qed.

Lemma wp_deref p s n (Q : TreeNode -> store -> Prop) :
  heap s !! p = Some n -> Q n s -> wp (deref p) s Q.
Proof. intros Hp HQ. unfold wp, deref. by rewrite Hp. Qed.

Lemma wp_get_piece p s n pc (Q : Piece -> store -> Prop) :
  heap s !! p = Some n -> piece n = Some pc -> Q pc s -> wp (get_piece p) s Q.
Proof. intros Hp Hn HQ. unfold get_piece. apply wp_bind. eapply wp_fld; [done|]. by rewrite Hn. Qed.

Lemma wp_upd p f s n (Q : unit -> store -> Prop) :
  heap s !! p = Some n -> Q tt (mkStore (<[p := f n]> (heap s)) (root s)) -> wp (upd p f) s Q.
Proof. intros Hp HQ. unfold wp, upd. by rewrite Hp. Qed.

Lemma wp_get_root s (Q : ptr -> store -> Prop) : Q (root s) s -> wp get_root s Q.
Proof. done. Qed.

Lemma wp_set_root p s (Q : unit -> store -> Prop) : Q tt (mkStore (heap s) p) -> wp (set_root p) s Q.
Proof. done. Qed.

Lemma wp_when b (m : ST store unit) s Q : (b = true -> wp m s Q) -> (b = false -> Q tt s) -> wp (when b m) s Q.
Proof. destruct b; intros H1 H2; [by apply H1|by apply H2]. Qed.

(** Looking up in a heap that was written to, pointers being told apart by hypotheses. *)
Ltac heap_lookup :=
  cbn [heap root];
  repeat (rewrite lookup_insert_ne by (first [done | congruence]));
  first [ rewrite lookup_insert_eq; reflexivity | eassumption ].

(** One instruction whose object is known. *)
Ltac heap_step :=
  match goal with
  | |- wp (_ ≫= _) _ _ => apply wp_bind
  | |- wp (mret _) _ _ => apply wp_ret
  | |- wp (fld _ _) _ _ => eapply wp_fld; [heap_lookup|]
  | |- wp (deref _) _ _ => eapply wp_deref; [heap_lookup|]
  | |- wp (upd _ _) _ _ => eapply wp_upd; [heap_lookup|]
  | |- wp get_root _ _ => apply wp_get_root
  | |- wp (set_root _) _ _ => apply wp_set_root
  end; cbn [heap root parent left right color piece size_left lf_left node_of
            with_parent with_left with_right with_color with_size_left with_lf_left].

Ltac heap_steps := repeat heap_step.

(** ** Changing one link *)

(** The parent's pointer to the place is set to [a]. *)
Definition relink (K : ctx) (a : ptr) (h : gmap ptr TreeNode) : gmap ptr TreeNode :=
  match K with
  | [] => h
  | FL _ i _ :: _ => alter (with_left a) (addr i) h
  | FR _ _ i :: _ => alter (with_right a) (addr i) h
  end.

(** The parent pointer of a subtree is set to [p]. *)
Definition reparent (p : ptr) (t : tree) (h : gmap ptr TreeNode) : gmap ptr TreeNode :=
  match t with E => h | T _ _ i _ => alter (with_parent p) (addr i) h end.

Lemma rep_reparent h p p' t : rep h p t -> NoDup (addrs t) -> rep (reparent p' t h) p' t.
Proof.
  destruct t as [|c l i r]; [done|]. rewrite addrs_T, NoDup_app. simpl. intros (Hi & Hl & Hr) (_ & Hd & Hn).
  apply NoDup_cons in Hn as [Hn _]. rewrite lookup_alter_eq, Hi. split; [done|].
  split; eapply rep_frame; eauto; intros a Ha; apply lookup_alter_ne; intros <-; set_solver.
Qed.

Lemma rep_ctx_relink h K a a' : rep_ctx h K a -> NoDup (ctx_addrs K) -> rep_ctx (relink K a' h) K a'.
Proof.
  destruct K as [|[c i r|c l i] K]; [done| |]; intros (Hi & Hs & Hk) Hn; simpl;
    rewrite lookup_alter_eq, Hi; (split; [done|]).
  - assert (Hd : addr i ∉ addrs r /\ addr i ∉ ctx_addrs K).
    { revert Hn. unfold ctx_addrs, addrs. simpl. rewrite fmap_app, NoDup_app, NoDup_cons. set_solver. }
    split; [eapply rep_frame|eapply rep_ctx_frame]; eauto; intros b Hb; apply lookup_alter_ne; intros <-; tauto.
  - assert (Hd : addr i ∉ addrs l /\ addr i ∉ ctx_addrs K).
    { revert Hn. unfold ctx_addrs, addrs. simpl. rewrite !fmap_app. simpl. rewrite !NoDup_app. set_solver. }
    split; [eapply rep_frame|eapply rep_ctx_frame]; eauto; intros b Hb; apply lookup_alter_ne; intros <-; tauto.
Qed.

Lemma lookup_reparent_ne h p t a : a ∉ addrs t -> reparent p t h !! a = h !! a.
Proof. destruct t as [|c l i r]; [done|]. rewrite addrs_T. intros ?. simpl. apply lookup_alter_ne. set_solver. Qed.

Lemma reparent_agree h h' p t a : h' !! a = h !! a -> reparent p t h' !! a = reparent p t h !! a.
Proof. destruct t as [|c l i r]; [done|]. simpl. rewrite !lookup_alter. case_decide as E; [subst; by intros ->|done]. Qed.

Lemma lookup_relink_ne h K p a : a ∉ ctx_addrs K -> relink K p h !! a = h !! a.
Proof.
  destruct K as [|[c i r|c l i] K]; [done|rewrite ctx_addrs_FL|rewrite ctx_addrs_FR];
    intros ?; simpl; apply lookup_alter_ne; intros <-; tauto.
Qed.

Lemma relink_agree h h' K p a : h' !! a = h !! a -> relink K p h' !! a = relink K p h !! a.
Proof. destruct K as [|[c i r|c l i] K]; [done| |]; simpl; rewrite !lookup_alter; (case_decide as E; [subst; by intros ->|done]). Qed.

Lemma relink_same h K a b : rep_ctx h K a -> relink K a h !! b = h !! b.
Proof.
  destruct K as [|[c i r|c l i] K]; [done| |]; intros (Hi & _); simpl; rewrite lookup_alter;
    (case_decide as E0; [subst|done]); by rewrite Hi.
Qed.

Lemma insert_as_alter (h : gmap ptr TreeNode) f p n : h !! p = Some n -> <[p := f n]> h = alter f p h.
Proof. intros Hp. by rewrite (alter_alt_Some f h p n Hp). Qed.

(** [if (t !== SENTINEL) { t.parent = p; }] *)
Lemma wp_reparent p p' t s (Q : unit -> store -> Prop) :
  rep (heap s) p' t -> SENTINEL ∉ addrs t -> Q tt (mkStore (reparent p t (heap s)) (root s)) ->
  wp (when (negb (root_of t =? SENTINEL)) (upd (root_of t) (with_parent p))) s Q.
Proof.
  destruct t as [|c l i r]; simpl; [by destruct s|]. rewrite addrs_T. intros (Hi & _) Hs HQ.
  destruct (Z.eqb_spec (addr i) SENTINEL) as [E|]; [set_solver|]. simpl. eapply wp_upd; [done|].
  by rewrite (insert_as_alter _ _ _ _ Hi).
Qed.

(** The parent's link to the place, the root being replaced when there is none. *)
Definition new_root (K : ctx) (a r : ptr) : ptr := match K with [] => a | _ => r end.

Lemma sibling_ne K x :
  x <> SENTINEL -> x ∉ ctx_addrs K -> forall f K', K = f :: K' ->
  match f with FL _ _ r => root_of r <> x | FR _ l _ => root_of l <> x end.
Proof.
  intros Hs Hx f K' ->. destruct f as [c i t|c t i];
    [rewrite ctx_addrs_FL in Hx|rewrite ctx_addrs_FR in Hx]; destruct t as [|c' l' i' r']; simpl; try done;
    rewrite addrs_T in Hx; intros <-; set_solver.
Qed.

Lemma wp_relink_left K x y s (Q : unit -> store -> Prop) :
  rep_ctx (heap s) K x -> x <> SENTINEL -> x ∉ ctx_addrs K -> SENTINEL ∉ ctx_addrs K ->
  Q tt (mkStore (relink K y (heap s)) (new_root K y (root s))) ->
  wp (if par K =? SENTINEL then set_root y
      else xpl ← fld left (par K); if xpl =? x then upd (par K) (with_left y) else upd (par K) (with_right y)) s Q.
Proof.
  intros Hk Hx Hxk Hs HQ. pose proof (sibling_ne _ _ Hx Hxk) as Hsib.
  destruct K as [|[c i r|c l i] K]; [done|rewrite ctx_addrs_FL in Hs|rewrite ctx_addrs_FR in Hs];
    destruct Hk as (Hi & _); simpl par; (destruct (Z.eqb_spec (addr i) SENTINEL) as [E|]; [rewrite E in Hs; tauto|]);
    apply wp_bind; (eapply wp_fld; [exact Hi|]); cbn [left node_of].
  - rewrite Z.eqb_refl. eapply wp_upd; [done|]. by rewrite (insert_as_alter _ _ _ _ Hi).
  - destruct (Z.eqb_spec (root_of l) x) as [E|]; [by destruct (Hsib _ _ eq_refl)|].
    eapply wp_upd; [done|]. by rewrite (insert_as_alter _ _ _ _ Hi).
Qed.

Lemma wp_relink_right K x y s (Q : unit -> store -> Prop) :
  rep_ctx (heap s) K x -> x <> SENTINEL -> x ∉ ctx_addrs K -> SENTINEL ∉ ctx_addrs K ->
  Q tt (mkStore (relink K y (heap s)) (new_root K y (root s))) ->
  wp (if par K =? SENTINEL then set_root y
      else xpr ← fld right (par K); if xpr =? x then upd (par K) (with_right y) else upd (par K) (with_left y)) s Q.
Proof.
  intros Hk Hx Hxk Hs HQ. pose proof (sibling_ne _ _ Hx Hxk) as Hsib.
  destruct K as [|[c i r|c l i] K]; [done|rewrite ctx_addrs_FL in Hs|rewrite ctx_addrs_FR in Hs];
    destruct Hk as (Hi & _); simpl par; (destruct (Z.eqb_spec (addr i) SENTINEL) as [E|]; [rewrite E in Hs; tauto|]);
    apply wp_bind; (eapply wp_fld; [exact Hi|]); cbn [right node_of].
  - destruct (Z.eqb_spec (root_of r) x) as [E|]; [by destruct (Hsib _ _ eq_refl)|].
    eapply wp_upd; [done|]. by rewrite (insert_as_alter _ _ _ _ Hi).
  - rewrite Z.eqb_refl. eapply wp_upd; [done|]. by rewrite (insert_as_alter _ _ _ _ Hi).
Qed.

(** ** Replacing a subtree *)

(** Every node of a path is an object. *)
Lemma rep_dom h p t a : rep h p t -> a ∈ addrs t -> is_Some (h !! a).
Proof.
  revert p. induction t as [|c l IHl i r IHr]; intros p; [set_solver|]. rewrite addrs_T.
  intros (Hi & Hl & Hr). rewrite elem_of_app, elem_of_cons. intros [?|[->|?]]; eauto.
Qed.

Lemma rep_ctx_dom h K r a : rep_ctx h K r -> a ∈ ctx_addrs K -> is_Some (h !! a).
Proof.
  revert r. induction K as [|[c i t|c t i] K IH]; intros r; [set_solver| |]; intros (Hi & Ht & Hk);
    [rewrite ctx_addrs_FL|rewrite ctx_addrs_FR]; (intros [->|[Ha|Ha]]; [by eexists|by eapply rep_dom|by eapply IH]).
Qed.

(** A subtree is exchanged for one of old nodes of it and of objects that were neither in
    the tree nor among the others. *)
Lemma heap_at_change F sp h h' K t t' :
  heap_at F sp h (plug K t) -> NoDup (addrs t') ->
  (forall a, a ∈ addrs t' -> a ∈ addrs t \/ (a <> SENTINEL /\ a ∉ ctx_addrs K /\ F !! a = None)) ->
  rep h' (par K) t' ->
  (forall a, a ∈ ctx_addrs K -> h' !! a = relink K (root_of t') h !! a) ->
  (forall a, a ∉ addrs t -> a ∉ addrs t' -> a ∉ ctx_addrs K -> h' !! a = h !! a) ->
  heap_at F sp h' (plug K t').
Proof.
  intros (Hrep & Hnd & Hs & HF) Hnt' Hnew Ht Hc Ho.
  assert (Hnd2 := Hnd). apply NoDup_plug in Hnd2 as (Hnt & Hnk & Hst & Hsk & Htk).
  apply rep_plug in Hrep as [_ Hk].
  assert (Hkt' : forall a, a ∈ addrs t' -> a ∉ ctx_addrs K).
  { intros a Ha. destruct (Hnew a Ha) as [Hin|(_ & ? & _)]; [by apply Htk|done]. }
  assert (Hst' : SENTINEL ∉ addrs t').
  { intros Ha. by destruct (Hnew _ Ha) as [Hin|(? & _)]. }
  split; [|split; [|split]].
  - apply rep_plug. split; [done|]. eapply rep_ctx_frame; [by eapply rep_ctx_relink|done].
  - by apply NoDup_plug.
  - by rewrite Ho.
  - intros a n Hn. destruct (HF a n Hn) as [Hna Hh]. rewrite addrs_plug in Hna |- *.
    assert (Hat' : a ∉ addrs t') by (intros Ha; destruct (Hnew _ Ha) as [?|(_ & _ & ?)]; [set_solver|congruence]).
    assert (Hak : a ∉ ctx_addrs K) by (unfold ctx_addrs; set_solver).
    split; [unfold ctx_addrs in Hak; set_solver|]. rewrite Ho; [done|set_solver|done|done].
Qed.

(** A new object is none of the tree or the others. *)
Lemma heap_at_fresh F sp h K t (z : ptr) :
  heap_at F sp h (plug K t) -> h !! z = None -> z <> SENTINEL /\ z ∉ addrs t /\ z ∉ ctx_addrs K /\ F !! z = None.
Proof.
  intros (Hrep & _ & Hs & HF) Hz. apply rep_plug in Hrep as [Ht Hk].
  assert (Hnone : forall a, is_Some (h !! a) -> z <> a) by (intros a [n Ha] ->; congruence).
  split; [by apply Hnone|]. split; [intros Hin; by apply (Hnone z (rep_dom _ _ _ _ Ht Hin))|].
  split; [intros Hin; by apply (Hnone z (rep_ctx_dom _ _ _ _ Hk Hin))|].
  destruct (F !! z) as [n|] eqn:En; [|done]. destruct (HF z n En). congruence.
Qed.

(** The same nodes, arranged anew. *)
Lemma heap_at_replace F sp h h' K t t' :
  heap_at F sp h (plug K t) -> addrs t' = addrs t -> rep h' (par K) t' ->
  (forall a, a ∈ ctx_addrs K -> h' !! a = relink K (root_of t') h !! a) ->
  (forall a, a ∉ addrs t -> a ∉ ctx_addrs K -> h' !! a = h !! a) ->
  heap_at F sp h' (plug K t').
Proof.
  intros Hat Ha Ht Hc Ho. assert (Hnd := Hat). destruct Hnd as (_ & Hnd & _). apply NoDup_plug in Hnd as (Hn & _).
  eapply heap_at_change; [exact Hat|by rewrite Ha|rewrite Ha; by left|done|done|]. intros a ? _. by apply Ho.
Qed.

Definition add_info (d e : Z) (i : info) : info := mkInfo (addr i) (pc i) (sl i + d) (lf i + e).

(** What a place in the heap gives: its objects, and that their pointers are distinct. *)
Lemma place_facts F sp h K t :
  heap_at F sp h (plug K t) ->
  rep h (par K) t /\ rep_ctx h K (root_of t) /\ NoDup (addrs t) /\ NoDup (ctx_addrs K) /\
  (SENTINEL ∉ addrs t) /\ (SENTINEL ∉ ctx_addrs K) /\ (forall a, a ∈ addrs t -> a ∉ ctx_addrs K).
Proof. intros (Hr & Hn & _). apply rep_plug in Hr. apply NoDup_plug in Hn. tauto. Qed.

(** A rotated pair of nodes: three subtrees in order between two nodes. *)
Record rotation_sep (K : list ptr) (A : tree) (x : ptr) (B : tree) (y : ptr) (C : tree) : Prop := mkSep {
  sep_xy : x <> y; sep_xs : SENTINEL <> x; sep_ys : SENTINEL <> y;
  sep_xk : x ∉ K; sep_yk : y ∉ K; sep_xb : x ∉ addrs B; sep_yb : y ∉ addrs B;
  sep_sb : SENTINEL ∉ addrs B;
  sep_A : forall a, a ∈ addrs A -> x <> a /\ y <> a /\ a ∉ addrs B /\ a ∉ K;
  sep_B : forall a, a ∈ addrs B -> x <> a /\ y <> a /\ a ∉ K;
  sep_C : forall a, a ∈ addrs C -> x <> a /\ y <> a /\ a ∉ addrs B /\ a ∉ K;
  sep_K : forall a, a ∈ K -> x <> a /\ y <> a /\ a ∉ addrs B }.

Lemma rotation_sepI K A x B y C t :
  addrs t = addrs A ++ x :: addrs B ++ y :: addrs C ->
  NoDup (addrs t) -> SENTINEL ∉ addrs t -> (forall a, a ∈ addrs t -> a ∉ K) ->
  rotation_sep K A x B y C /\ NoDup (addrs B).
Proof.
  intros ->. rewrite NoDup_app, NoDup_cons, NoDup_app, NoDup_cons. setoid_rewrite elem_of_app.
  setoid_rewrite elem_of_cons. setoid_rewrite elem_of_app. setoid_rewrite elem_of_cons.
  intros (HA & HAr & Hx & HB & HBr & Hy & HC) Hs Hk. split; [|done].
  assert (Hkx : x ∉ K) by (apply Hk; auto). assert (Hky : y ∉ K) by (apply Hk; auto 6).
  assert (HxA : x ∉ addrs A) by (intros H%HAr; apply H; auto).
  assert (HyA : y ∉ addrs A) by (intros H%HAr; apply H; auto 6).
  assert (HyB : y ∉ addrs B) by (intros H%HBr; apply H; auto).
  split; try (intros a Ha; pose proof (HAr a); pose proof (HBr a); pose proof (Hk a)); split_and?;
    try intros ?; subst; tauto.
Qed.

(** Looking up through links, with the facts of [rotation_sep]. *)
Ltac sep_ne H :=
  solve [ done | congruence | assumption
        | apply (sep_xy _ _ _ _ _ _ H) | apply not_eq_sym, (sep_xy _ _ _ _ _ _ H)
        | apply (sep_xs _ _ _ _ _ _ H) | apply not_eq_sym, (sep_xs _ _ _ _ _ _ H)
        | apply (sep_ys _ _ _ _ _ _ H) | apply not_eq_sym, (sep_ys _ _ _ _ _ _ H)
        | apply (sep_xk _ _ _ _ _ _ H) | apply (sep_yk _ _ _ _ _ _ H)
        | apply (sep_xb _ _ _ _ _ _ H) | apply (sep_yb _ _ _ _ _ _ H) | apply (sep_sb _ _ _ _ _ _ H)
        | eapply (sep_A _ _ _ _ _ _ H); eassumption | eapply (sep_B _ _ _ _ _ _ H); eassumption
        | eapply (sep_C _ _ _ _ _ _ H); eassumption | eapply (sep_K _ _ _ _ _ _ H); eassumption ].

Ltac sep_lookup H :=
  cbn [heap root];
  repeat first
    [ rewrite lookup_insert_eq
    | rewrite lookup_insert_ne by sep_ne H
    | rewrite lookup_relink_ne by sep_ne H
    | rewrite lookup_reparent_ne by sep_ne H ]; first [reflexivity | eassumption].

Ltac sep_step H :=
  match goal with
  | |- wp (_ ≫= _) _ _ => apply wp_bind
  | |- wp (fld _ _) _ _ => eapply wp_fld; [sep_lookup H|]
  | |- wp (deref _) _ _ => eapply wp_deref; [sep_lookup H|]
  | |- wp (upd _ _) _ _ => eapply wp_upd; [sep_lookup H|]
  end; cbn [heap root parent left right color piece size_left lf_left node_of
            with_parent with_left with_right with_color with_size_left with_lf_left].

Ltac sep_lookup_ne H :=
  repeat first [rewrite lookup_insert_ne by sep_ne H | rewrite lookup_relink_ne by sep_ne H
               | rewrite lookup_reparent_ne by sep_ne H].

Lemma sep_other A x B y C t a :
  addrs t = addrs A ++ x :: addrs B ++ y :: addrs C -> a ∉ addrs t -> x <> a /\ y <> a /\ a ∉ addrs B.
Proof.
  intros ->. rewrite elem_of_app, elem_of_cons, elem_of_app, elem_of_cons. intros Ha.
  split; [intros ->; apply Ha; auto|]. split; [intros ->; apply Ha; auto 6|tauto].
Qed.

Lemma new_root_plug K t t' r a :
  r = root_of (plug K t) -> a = root_of t' -> new_root K a r = root_of (plug K t').
Proof.
  intros -> ->. rewrite !root_of_plug. destruct K as [|f K]; [done|]. simpl new_root.
  destruct (last (f :: K)) eqn:EK; [done|]. by apply last_None in EK.
Qed.

Lemma wp_leftRotate F sp s K cx A ix cy B iy C :
  tree_at F sp s (plug K (T cx A ix (T cy B iy C))) ->
  wp (RB.leftRotate (addr ix)) s (fun _ s' =>
    tree_at F sp s' (plug K (T cy (T cx A ix B) (add_info (sl ix + length (pc ix)) (lf ix + lineFeedCnt (pc ix)) iy) C))).
Proof.
  intros [Hroot Hat]. pose proof (place_facts _ _ _ _ _ Hat) as (Hr & Hk & Hn & Hnk & Hs & Hsk & Hsep).
  assert (He : addrs (T cx A ix (T cy B iy C)) = addrs A ++ addr ix :: addrs B ++ addr iy :: addrs C)
    by (by rewrite !addrs_T).
  destruct (rotation_sepI (ctx_addrs K) A (addr ix) B (addr iy) C _ He Hn Hs Hsep) as [H HnB].
  simpl in Hr. destruct Hr as (Hx & HrA & Hy & HrB & HrC). unfold RB.leftRotate.
  repeat sep_step H. eapply (wp_reparent _ (addr iy)).
  { cbn [heap]. eapply rep_frame; [exact HrB|]. intros a Ha. sep_lookup H. }
  { apply H. }
  repeat sep_step H. eapply wp_relink_left.
  { cbn [heap]. eapply rep_ctx_frame; [exact Hk|]. intros a Ha. sep_lookup H. }
  { sep_ne H. } { sep_ne H. } { done. }
  repeat sep_step H.
  split; cbn [heap root]; [eapply new_root_plug; [exact Hroot|reflexivity]|].
  eapply heap_at_replace; [exact Hat|by rewrite !addrs_T, <- ?app_assoc|..].
  - split; [sep_lookup H|]. split; [split; [sep_lookup H|split]|].
    + eapply rep_frame; [exact HrA|]. intros a Ha. sep_lookup H.
    + eapply rep_frame; [by eapply rep_reparent|]. intros a Ha. sep_lookup_ne H. apply reparent_agree. sep_lookup H.
    + eapply rep_frame; [exact HrC|]. intros a Ha. sep_lookup H.
  - intros a Ha. sep_lookup_ne H. apply relink_agree. sep_lookup H.
  - intros a Ha Hka. destruct (sep_other _ _ _ _ _ _ _ He Ha) as (? & ? & ?). sep_lookup H.
Qed.

Lemma wp_rightRotate F sp s K cx A ix cy B iy C :
  tree_at F sp s (plug K (T cy (T cx A ix B) iy C)) ->
  wp (RB.rightRotate (addr iy)) s (fun _ s' =>
    tree_at F sp s' (plug K (T cx A ix (T cy B (add_info (- (sl ix + length (pc ix))) (- (lf ix + lineFeedCnt (pc ix))) iy) C)))).
Proof.
  intros [Hroot Hat]. pose proof (place_facts _ _ _ _ _ Hat) as (Hr & Hk & Hn & Hnk & Hs & Hsk & Hsep).
  assert (He : addrs (T cy (T cx A ix B) iy C) = addrs A ++ addr ix :: addrs B ++ addr iy :: addrs C)
    by (by rewrite !addrs_T, <- app_assoc).
  destruct (rotation_sepI (ctx_addrs K) A (addr ix) B (addr iy) C _ He Hn Hs Hsep) as [H HnB].
  simpl in Hr. destruct Hr as (Hy & (Hx & HrA & HrB) & HrC). unfold RB.rightRotate.
  repeat sep_step H. eapply (wp_reparent _ (addr ix)).
  { cbn [heap]. eapply rep_frame; [exact HrB|]. intros a Ha. sep_lookup H. }
  { apply H. }
  repeat sep_step H. eapply wp_relink_right.
  { cbn [heap]. eapply rep_ctx_frame; [exact Hk|]. intros a Ha. sep_lookup H. }
  { sep_ne H. } { sep_ne H. } { done. }
  repeat sep_step H.
  split; cbn [heap root]; [eapply new_root_plug; [exact Hroot|reflexivity]|].
  eapply heap_at_replace; [exact Hat|by rewrite !addrs_T, <- ?app_assoc|..].
  - split; [sep_lookup H|]. split; [|split; [sep_lookup H|split]].
    + eapply rep_frame; [exact HrA|]. intros a Ha. sep_lookup H.
    + eapply rep_frame; [by eapply rep_reparent|]. intros a Ha. sep_lookup_ne H. apply reparent_agree. sep_lookup H.
    + eapply rep_frame; [exact HrC|]. intros a Ha. sep_lookup H.
  - intros a Ha. sep_lookup_ne H. apply relink_agree. sep_lookup H.
  - intros a Ha Hka. destruct (sep_other _ _ _ _ _ _ _ He Ha) as (? & ? & ?). sep_lookup H.
Qed.

(** ** Reading and writing one node *)

Section node.
Context (F : gmap ptr TreeNode) (sp : ptr) (s : store) (K : ctx) (c : NodeColor) (l : tree) (i : info) (r : tree).
Hypothesis Hs : tree_at F sp s (plug K (T c l i r)).

Lemma tree_lookup : heap s !! addr i = Some (node_of (par K) (root_of l) (root_of r) c i).
Proof. destruct Hs as [_ (Hr & _)]. by apply rep_lookup. Qed.

Lemma wp_fld_node {A} (f : TreeNode -> A) (Q : A -> store -> Prop) :
  Q (f (node_of (par K) (root_of l) (root_of r) c i)) s -> wp (fld f (addr i)) s Q.
Proof. intros HQ. by eapply wp_fld; [apply tree_lookup|]. Qed.

(** A write that keeps the pointers. *)
Lemma wp_upd_node f c' i' (Q : unit -> store -> Prop) :
  (forall p a b, f (node_of p a b c i) = node_of p a b c' i') -> addr i' = addr i ->
  (forall s', tree_at F sp s' (plug K (T c' l i' r)) -> Q tt s') -> wp (upd (addr i) f) s Q.
Proof.
  intros Hf Ha HQ. eapply wp_upd; [apply tree_lookup|]. apply HQ. destruct Hs as [Hroot Hat].
  pose proof (place_facts _ _ _ _ _ Hat) as (Hr & Hk & Hn & Hnk & Hst & Hsk & Hsep).
  assert (Hin : addr i ∈ addrs (T c l i r)) by (rewrite addrs_T; set_solver).
  split; cbn [heap root]; [by rewrite Hroot, !root_of_plug; destruct (last K)|].
  rewrite addrs_T in Hn. apply NoDup_app in Hn as (_ & Hl & [Hi _]%NoDup_cons). destruct Hr as (Hx & Hrl & Hrr).
  eapply heap_at_replace; [exact Hat|by rewrite !addrs_T, Ha|..].
  - simpl. rewrite Ha, lookup_insert_eq, Hf. split; [done|].
    split; (eapply rep_frame; [done|]); intros a Hina; apply lookup_insert_ne; intros <-; set_solver.
  - intros a Hina. rewrite lookup_insert_ne by (intros <-; by apply Hsep in Hin).
    cbn [root_of]. rewrite Ha. by rewrite (relink_same _ _ _ _ Hk).
  - intros a Hna _. apply lookup_insert_ne. by intros <-.
Qed.
End node.

(** ** Bounds and roots *)

Lemma dom_size (h : gmap ptr TreeNode) (l : list ptr) :
  NoDup l -> (forall a, a ∈ l -> is_Some (h !! a)) -> (List.length l <= size h)%nat.
Proof.
  intros Hn Hl. rewrite <- (size_list_to_set (C := gset ptr) l) by done.
  rewrite <- (size_dom (D := gset ptr) h). apply subseteq_size. intros a.
  rewrite elem_of_list_to_set, elem_of_dom. apply Hl.
Qed.

Lemma rep_size h p t : rep h p t -> NoDup (addrs t) -> (List.length (addrs t) <= size h)%nat.
Proof. intros Hr Hn. apply dom_size; [done|]. intros a. by eapply rep_dom. Qed.

Lemma heap_at_size F sp h t : heap_at F sp h t -> (List.length (addrs t) < size h)%nat.
Proof.
  intros (Hr & Hn & Hs & _). enough (List.length (SENTINEL :: addrs t) <= size h)%nat by (simpl in *; lia).
  apply dom_size; [done|]. intros a [->|Ha]%elem_of_cons; [by eexists|by eapply rep_dom].
Qed.

Lemma length_plug K t : (List.length K + List.length (addrs t) <= List.length (addrs (plug K t)))%nat.
Proof.
  rewrite addrs_plug, !length_app, !length_fmap.
  enough (List.length K <= List.length (before K) + List.length (after K))%nat by lia.
  induction K as [|[c i r|c l i] K IH]; simpl; [done| |]; rewrite ?length_app; simpl; lia.
Qed.

Lemma enough_fuel F sp s K t :
  tree_at F sp s (plug K t) -> (List.length K + List.length (addrs t) < size (heap s))%nat.
Proof. intros [_ Hat]. pose proof (heap_at_size _ _ _ _ Hat). pose proof (length_plug K t). lia. Qed.

(** A node is the root when nothing is above it. *)
Lemma root_above F sp s K t : t <> E -> tree_at F sp s (plug K t) -> (root_of t = root s <-> K = []).
Proof.
  intros Ht [Hroot Hat]. pose proof (place_facts _ _ _ _ _ Hat) as (_ & _ & _ & _ & _ & _ & Hsep).
  assert (Hin : root_of t ∈ addrs t) by (destruct t as [|c l i r]; [done|]; rewrite addrs_T; set_solver).
  rewrite Hroot, root_of_plug. split; [|by intros ->]. destruct K as [|f K]; [done|]. intros E0. exfalso.
  apply (Hsep _ Hin). destruct (last (f :: K)) as [g|] eqn:El; [|by apply last_None in El].
  rewrite E0. apply last_Some in El as [K' ->]. clear. induction K' as [|[c i r|c l i] K' IH]; simpl.
  - destruct g; [apply ctx_addrs_FL|apply ctx_addrs_FR]; auto.
  - apply ctx_addrs_FL. auto.
  - apply ctx_addrs_FR. auto.
Qed.

Lemma root_of_ne F sp s K t : t <> E -> tree_at F sp s (plug K t) -> root_of t <> SENTINEL.
Proof.
  intros Ht [_ Hat]. pose proof (place_facts _ _ _ _ _ Hat) as (_ & _ & _ & _ & Hs & _).
  destruct t as [|c l i r]; [done|]. rewrite addrs_T in Hs. simpl. intros E0. apply Hs. rewrite <- E0. set_solver.
Qed.

(** The two children of a node are different objects. *)
Lemma sibling_left F sp s c l i K t :
  t <> E -> tree_at F sp s (plug (FR c l i :: K) t) -> root_of l <> root_of t.
Proof.
  intros Ht Hs. pose proof (root_of_ne _ _ _ _ _ Ht Hs) as Hn. destruct Hs as [_ Hat].
  pose proof (place_facts _ _ _ (FR c l i :: K) _ Hat) as (_ & _ & _ & _ & _ & _ & Hsep).
  destruct t as [|ct lt it rt]; [done|]. destruct l as [|cl ll il rl]; cbn [root_of] in *; [done|].
  intros E0. apply (Hsep (addr it)); [rewrite addrs_T; set_solver|]. apply ctx_addrs_FR.
  right. left. rewrite addrs_T, <- E0. set_solver.
Qed.

Lemma sibling_right F sp s c i r K t :
  t <> E -> tree_at F sp s (plug (FL c i r :: K) t) -> root_of r <> root_of t.
Proof.
  intros Ht Hs. pose proof (root_of_ne _ _ _ _ _ Ht Hs) as Hn. destruct Hs as [_ Hat].
  pose proof (place_facts _ _ _ (FL c i r :: K) _ Hat) as (_ & _ & _ & _ & _ & _ & Hsep).
  destruct t as [|ct lt it rt]; [done|]. destruct r as [|cr lr ir rr]; cbn [root_of] in *; [done|].
  intros E0. apply (Hsep (addr it)); [rewrite addrs_T; set_solver|]. apply ctx_addrs_FL.
  right. left. rewrite addrs_T, <- E0. set_solver.
Qed.

(** The color of a subtree; the sentinel is black. *)
Definition tcolor (t : tree) : NodeColor := match t with E => Black | T c _ _ _ => c end.

Lemma wp_fld_color F sp s K t (Q : NodeColor -> store -> Prop) :
  tree_at F sp s (plug K t) -> Q (tcolor t) s -> wp (fld color (root_of t)) s Q.
Proof.
  destruct t as [|c l i r]; intros Hs HQ; [|by apply (wp_fld_node _ _ _ _ _ _ _ _ Hs)].
  destruct Hs as [_ (_ & _ & Hsent & _)]. by eapply wp_fld; [exact Hsent|].
Qed.

Lemma tree_at_sent F sp s t : tree_at F sp s t -> heap s !! SENTINEL = Some (sentinel_node sp).
Proof. by intros (_ & _ & _ & Hs & _). Qed.

(** The sentinel's parent is no part of the tree. *)
Lemma tree_at_sentinel F sp sp' s t n :
  tree_at F sp s t -> n = sentinel_node sp' -> tree_at F sp' (mkStore (<[SENTINEL := n]> (heap s)) (root s)) t.
Proof.
  intros [Hroot (Hr & Hn & Hs & HF)] ->. split; [done|]. cbn [heap]. apply NoDup_cons in Hn as [Hns Hn].
  split; [|split; [by apply NoDup_cons|split; [by rewrite lookup_insert_eq|]]].
  - eapply rep_frame; [exact Hr|]. intros a Ha. apply lookup_insert_ne. by intros <-.
  - intros a m Hm. destruct (HF a m Hm) as [Hna Ha]. split; [done|]. rewrite lookup_insert_ne; [done|]. intros <-. set_solver.
Qed.

(** The parent of a place, the sentinel standing there when it is empty. *)
Lemma wp_fld_parent_at F sp s K t (Q : ptr -> store -> Prop) :
  tree_at F sp s (plug K t) -> (t = E -> sp = par K) -> Q (par K) s -> wp (fld parent (root_of t)) s Q.
Proof.
  intros Hs Hsp HQ. destruct t as [|c l i r]; [|by apply (wp_fld_node _ _ _ _ _ _ _ _ Hs)].
  eapply wp_fld; [by apply (tree_at_sent _ _ _ _ Hs)|]. cbn [parent sentinel_node]. by rewrite Hsp.
Qed.

(** ** Objects outside the tree *)

Lemma tree_at_weaken F F' sp s t : F ⊆ F' -> tree_at F' sp s t -> tree_at F sp s t.
Proof.
  intros Hsub [Hroot (Hr & Hn & Hs & HF)]. split; [done|]. split; [done|]. do 2 (split; [done|]). intros a n Hn'. apply HF. by eapply lookup_weaken.
Qed.

(** An object that left the tree. *)
Lemma heap_at_garbage F sp h t (z : ptr) n :
  heap_at F sp h t -> z ∉ addrs t -> z <> SENTINEL -> h !! z = Some n -> heap_at (<[z := n]> F) sp h t.
Proof.
  intros (Hr & Hn & Hs & HF) Hz Hzs Hh. do 3 (split; [done|]). intros a m.
  destruct (decide (a = z)) as [-> | Hne]; [|by rewrite lookup_insert_ne; [apply HF|]].
  rewrite lookup_insert_eq. intros [= <-]. split; [set_solver|done].
Qed.

Lemma wp_upd_garbage F sp s t (z : ptr) n f (Q : unit -> store -> Prop) :
  tree_at (<[z := n]> F) sp s t -> (forall s', tree_at (<[z := f n]> F) sp s' t -> Q tt s') -> wp (upd z f) s Q.
Proof.
  intros [Hroot (Hr & Hn & Hs & HF)] HQ. destruct (HF z n) as [Hz Hh]; [by rewrite lookup_insert_eq|].
  eapply wp_upd; [exact Hh|]. apply HQ. split; [done|]. cbn [heap].
  split; [eapply rep_frame; [exact Hr|]; intros a Ha; apply lookup_insert_ne; set_solver|]. split; [done|].
  split; [rewrite lookup_insert_ne; [done|set_solver]|]. intros a m. destruct (decide (a = z)) as [-> | Hne].
  - rewrite !lookup_insert_eq. by intros [= <-].
  - intros Hm. rewrite lookup_insert_ne in Hm |- * by done. apply HF. by rewrite lookup_insert_ne.
Qed.

Lemma wp_detach F sp s t (z : ptr) n :
  tree_at (<[z := n]> F) sp s t ->
  wp (RB.detach z) s (fun _ s' =>
    tree_at (<[z := with_right null (with_left null (with_parent null n))]> F) sp s' t).
Proof.
  intros Hs. unfold RB.detach. apply wp_bind, (wp_upd_garbage _ _ _ _ _ _ _ _ Hs). intros s1 Hs1.
  apply wp_bind, (wp_upd_garbage _ _ _ _ _ _ _ _ Hs1). intros s2 Hs2.
  by apply (wp_upd_garbage _ _ _ _ _ _ _ _ Hs2).
Qed.
