(* ===== verification/RbMeta.v ===== *)
(** * The cached metadata of the piece tree

    Every node of RbTree.v caches the length and the line feeds of its left subtree.
    [meta t] says that they are right; [updateTreeMetadata] and [recomputeTreeMetadata] are
    proved to correct them along the path to the root after one subtree changed. *)

From S2P Require Import Prelude Store RbTree RbRep.

Fixpoint total (f : Piece -> Z) (l : list (ptr * Piece)) : Z :=
  match l with [] => 0 | e :: l' => f e.2 + total f l' end.

Lemma total_app f l k : total f (l ++ k) = total f l + total f k.
Proof. induction l as [|e l IH]; simpl; lia. Qed.

Definition tsize (t : tree) : Z := total length (elems t).
Definition tlf (t : tree) : Z := total lineFeedCnt (elems t).

Fixpoint meta (t : tree) : Prop :=
  match t with E => True | T _ l i r => sl i = tsize l /\ lf i = tlf l /\ meta l /\ meta r end.

(** The metadata on a path, for a subtree of this length and these line feeds. *)
Fixpoint meta_ctx (K : ctx) (n m : Z) : Prop :=
  match K with
  | [] => True
  | FL _ i r :: K' =>
      sl i = n /\ lf i = m /\ meta r /\ meta_ctx K' (n + length (pc i) + tsize r) (m + lineFeedCnt (pc i) + tlf r)
  | FR _ l i :: K' =>
      sl i = tsize l /\ lf i = tlf l /\ meta l /\
      meta_ctx K' (tsize l + length (pc i) + n) (tlf l + lineFeedCnt (pc i) + m)
  end.

Lemma tsize_T c l i r : tsize (T c l i r) = tsize l + length (pc i) + tsize r.
Proof. unfold tsize. simpl. rewrite total_app. simpl. lia. Qed.

Lemma tlf_T c l i r : tlf (T c l i r) = tlf l + lineFeedCnt (pc i) + tlf r.
Proof. unfold tlf. simpl. rewrite total_app. simpl. lia. Qed.

Lemma meta_plug K t : meta (plug K t) <-> meta t /\ meta_ctx K (tsize t) (tlf t).
Proof.
  revert t. induction K as [|[c i r|c l i] K IH]; intros t; simpl; [tauto| |];
    rewrite IH, tsize_T, tlf_T; simpl; tauto.
Qed.

(** Replacing a subtree by one with the same nodes in order. *)
Lemma meta_replace K t t' :
  elems t' = elems t -> meta t' -> meta (plug K t) -> meta (plug K t').
Proof. unfold tsize, tlf. rewrite !meta_plug. unfold tsize, tlf. intros -> ?. tauto. Qed.

Lemma elems_replace K t t' : elems t' = elems t -> elems (plug K t') = elems (plug K t).
Proof. rewrite !elems_plug. by intros ->. Qed.

(** ** Handing a difference up *)

Fixpoint upd_ctx (d e : Z) (K : ctx) : ctx :=
  match K with
  | [] => []
  | FL c i r :: K' => FL c (add_info d e i) r :: upd_ctx d e K'
  | FR c l i :: K' => FR c l i :: upd_ctx d e K'
  end.

Lemma add_info_0 i : add_info 0 0 i = i.
Proof. destruct i. unfold add_info. simpl. f_equal; lia. Qed.

Lemma upd_ctx_0 K : upd_ctx 0 0 K = K.
Proof. induction K as [|[c i r|c l i] K IH]; simpl; [done| |]; by rewrite IH, ?add_info_0. Qed.

Lemma meta_upd_ctx d e K n m : meta_ctx K n m -> meta_ctx (upd_ctx d e K) (n + d) (m + e).
Proof.
  revert n m. induction K as [|[c i r|c l i] K IH]; intros n m; [done| |]; simpl;
    intros (H1 & H2 & H3 & H4%IH); (split_and!; [try lia..|done|]).
  - by replace (n + d + length (pc i) + tsize r) with (n + length (pc i) + tsize r + d) by lia;
      replace (m + e + lineFeedCnt (pc i) + tlf r) with (m + lineFeedCnt (pc i) + tlf r + e) by lia.
  - by replace (tsize l + length (pc i) + (n + d)) with (tsize l + length (pc i) + n + d) by lia;
      replace (tlf l + lineFeedCnt (pc i) + (m + e)) with (tlf l + lineFeedCnt (pc i) + m + e) by lia.
Qed.

Lemma length_upd_ctx d e K : List.length (upd_ctx d e K) = List.length K.
Proof. induction K as [|[c i r|c l i] K IH]; simpl; auto. Qed.

Lemma par_upd_ctx d e K : par (upd_ctx d e K) = par K.
Proof. by destruct K as [|[c i r|c l i] K]. Qed.

Lemma before_upd_ctx d e K : before (upd_ctx d e K) = before K.
Proof. induction K as [|[c i r|c l i] K IH]; simpl; by rewrite ?IH. Qed.

Lemma after_upd_ctx d e K : after (upd_ctx d e K) = after K.
Proof. induction K as [|[c i r|c l i] K IH]; simpl; by rewrite ?IH. Qed.

(** ** The loops *)

(** One turn: the frame is corrected. *)
Lemma wp_update_step F sp s d e f K t (Q : ptr -> store -> Prop) :
  t <> E -> tree_at F sp s (plug (f :: K) t) ->
  (forall s', tree_at F sp s' (plug K (plug (upd_ctx d e [f]) t)) -> Q (addr (finfo f)) s') ->
  wp (RB.update_step d e (root_of t)) s Q.
Proof.
  intros Ht Hs HQ. destruct t as [|ct lt it rt]; [done|]. unfold RB.update_step.
  apply wp_bind, (wp_fld_node _ _ _ (f :: K) _ _ _ _ Hs). cbn [parent node_of par].
  assert (Hsib : forall c l i, f = FR c l i -> root_of l <> addr it)
    by (intros c l i ->; by apply (sibling_left _ _ _ _ _ _ _ _ Ht Hs)).
  destruct f as [c i r|c l i]; cbn [plug plug1] in Hs; cbn [finfo] in *;
    apply wp_bind, (wp_fld_node _ _ _ K _ _ _ _ Hs); cbn [left node_of root_of]; apply wp_bind.
  - rewrite Z.eqb_refl. eapply (wp_upd_node _ _ _ K _ _ _ _ Hs _ c (add_info d e i)); [done|done|].
    intros s' Hs'. by eapply (wp_fld_node _ _ _ (FL c (add_info d e i) r :: K)); [exact Hs'|]; apply HQ.
  - destruct (Z.eqb_spec (root_of l) (addr it)) as [E0|].
    + by destruct (Hsib _ _ _ eq_refl).
    + by eapply (wp_fld_node _ _ _ (FR c l i :: K)); [exact Hs|]; apply HQ.
Qed.

Lemma plug_ne K t : t <> E -> plug K t <> E.
Proof. revert t. induction K as [|[c i r|c l i] K IH]; intros t Ht; simpl; [done| |]; by apply IH. Qed.

Lemma wp_update_loop (go : bool) F sp s d e K t cond :
  t <> E -> tree_at F sp s (plug K t) -> (go = false -> d = 0 /\ e = 0) ->
  (forall s x, x <> SENTINEL -> cond x s = Ok (negb (x =? root s) && go, s)) ->
  wp (while_ cond (RB.update_step d e) (root_of t)) s
    (fun _ s' => tree_at F sp s' (plug (upd_ctx d e K) t)).
Proof.
  intros Ht Hs Hgo Hcond. unfold while_. apply wp_bind. apply wp_gets.
  eapply (wp_loop (fun k x s => exists u K2, u <> E /\ x = root_of u /\ tree_at F sp s (plug K2 u) /\
    plug (upd_ctx d e K2) u = plug (upd_ctx d e K) t /\ k = List.length K2) _ _ _ _ _ _ (List.length K)).
  - clear s Ht Hs. intros k x s (u & K2 & Hu & -> & Hs & Htarget & ->).
    unfold wp at 1. rewrite Hcond by (by eapply root_of_ne). pose proof (root_above _ _ _ _ _ Hu Hs) as Hroot.
    destruct (Z.eqb_spec (root_of u) (root s)) as [E0|E0]; simpl.
    + rewrite Hroot in E0. subst K2. simpl in *. by rewrite <- Htarget.
    + destruct go; simpl; [|destruct (Hgo eq_refl) as [-> ->]; rewrite <- Htarget; by rewrite upd_ctx_0].
      destruct K2 as [|f K2]; [tauto|].
      eapply (wp_update_step _ _ _ d e f K2); [done|done|]. intros s' Hs'.
      exists (List.length K2). split; [simpl; lia|]. exists (plug (upd_ctx d e [f]) u), K2. split; [by apply plug_ne|]. split; [by destruct f|].
      split; [done|]. split; [|done]. rewrite <- Htarget. by destruct f.
  - exists t, K. done.
  - pose proof (enough_fuel _ _ _ _ _ Hs). lia.
Qed.

Lemma wp_updateTreeMetadata F sp s d e K t :
  t <> E -> tree_at F sp s (plug K t) ->
  wp (RB.updateTreeMetadata (root_of t) d e) s (fun _ s' => tree_at F sp s' (plug (upd_ctx d e K) t)).
Proof.
  intros Ht Hs. unfold RB.updateTreeMetadata. apply wp_bind. eapply wp_mono.
  - apply (wp_update_loop true _ _ _ _ _ _ _ _ Ht Hs); [done|]. intros s' x Hx.
    unfold mbind, ST_bind, RbTree.get_root, gets, mret, ST_ret.
    destruct (Z.eqb_spec x SENTINEL); [done|]. done.
  - intros a s' Hs'. by apply wp_ret.
Qed.

(** ** Recomputing *)

(** What [calculateSize] adds up: it trusts the metadata on the right spine. *)
Fixpoint spine_size (t : tree) : Z :=
  match t with E => 0 | T _ l i r => sl i + length (pc i) + spine_size r end.

Fixpoint spine_lf (t : tree) : Z :=
  match t with E => 0 | T _ l i r => lf i + lineFeedCnt (pc i) + spine_lf r end.

Lemma spine_meta t : meta t -> spine_size t = tsize t /\ spine_lf t = tlf t.
Proof.
  induction t as [|c l IHl i r IHr]; simpl; [done|]. rewrite tsize_T, tlf_T.
  intros (-> & -> & _ & [-> ->]%IHr). done.
Qed.

Lemma wp_calculateSize_rep s p t (Q : Z -> store -> Prop) :
  rep (heap s) p t -> NoDup (addrs t) -> SENTINEL ∉ addrs t -> Q (spine_size t) s -> wp (RB.calculateSize (root_of t)) s Q.
Proof.
  intros Hr Hn Hst HQ. unfold RB.calculateSize. apply wp_bind, wp_gets. pose proof (rep_size _ _ _ Hr Hn) as Hf.
  apply Nat.lt_succ_r in Hf. revert Hf. generalize (S (size (heap s))) as fuel. intros fuel. clear Hn.
  revert p t Q Hr Hst HQ. induction fuel as [|fuel IH]; intros p t Q Hr Hst HQ Hf; [lia|].
  destruct t as [|c l i r]; [done|]. destruct Hr as (Hi & _ & Hr). rewrite addrs_T in Hst, Hf.
  cbn [RB.calculateSize_ root_of]. destruct (Z.eqb_spec (addr i) SENTINEL) as [E0|_]; [set_solver|].
  apply wp_bind. eapply wp_fld; [exact Hi|]. apply wp_bind. eapply wp_get_piece; [exact Hi|done|].
  apply wp_bind. eapply wp_fld; [exact Hi|]. apply wp_bind. cbn [right node_of].
  apply (IH (addr i)); [done|set_solver| |rewrite length_app in Hf; simpl in Hf; lia]. apply wp_ret. exact HQ.
Qed.

Lemma wp_calculateSize F sp s K t (Q : Z -> store -> Prop) :
  tree_at F sp s (plug K t) -> Q (spine_size t) s -> wp (RB.calculateSize (root_of t)) s Q.
Proof.
  intros [_ Hat] HQ. pose proof (place_facts _ _ _ _ _ Hat) as (Hr & _ & Hn & _ & Hs & _).
  by eapply wp_calculateSize_rep.
Qed.

Lemma wp_calculateLF_rep s p t (Q : Z -> store -> Prop) :
  rep (heap s) p t -> NoDup (addrs t) -> SENTINEL ∉ addrs t -> Q (spine_lf t) s -> wp (RB.calculateLF (root_of t)) s Q.
Proof.
  intros Hr Hn Hst HQ. unfold RB.calculateLF. apply wp_bind, wp_gets. pose proof (rep_size _ _ _ Hr Hn) as Hf.
  apply Nat.lt_succ_r in Hf. revert Hf. generalize (S (size (heap s))) as fuel. intros fuel. clear Hn.
  revert p t Q Hr Hst HQ. induction fuel as [|fuel IH]; intros p t Q Hr Hst HQ Hf; [lia|].
  destruct t as [|c l i r]; [done|]. destruct Hr as (Hi & _ & Hr). rewrite addrs_T in Hst, Hf.
  cbn [RB.calculateLF_ root_of]. destruct (Z.eqb_spec (addr i) SENTINEL) as [E0|_]; [set_solver|].
  apply wp_bind. eapply wp_fld; [exact Hi|]. apply wp_bind. eapply wp_get_piece; [exact Hi|done|].
  apply wp_bind. eapply wp_fld; [exact Hi|]. apply wp_bind. cbn [right node_of].
  apply (IH (addr i)); [done|set_solver| |rewrite length_app in Hf; simpl in Hf; lia]. apply wp_ret. exact HQ.
Qed.

Lemma wp_calculateLF F sp s K t (Q : Z -> store -> Prop) :
  tree_at F sp s (plug K t) -> Q (spine_lf t) s -> wp (RB.calculateLF (root_of t)) s Q.
Proof.
  intros [_ Hat] HQ. pose proof (place_facts _ _ _ _ _ Hat) as (Hr & _ & Hn & _ & Hs & _).
  by eapply wp_calculateLF_rep.
Qed.

(** The metadata off by [d] and [e] on the path, as seen along right spines: what is below
    a place and read by the next recomputation is [n] and [m]. *)
Fixpoint climb (K : ctx) (t : tree) : ctx * tree :=
  match K with
  | FR c l i :: K' => climb K' (T c l i t)
  | _ => (K, t)
  end.

Lemma plug_climb K t : plug (climb K t).1 (climb K t).2 = plug K t.
Proof. revert t. induction K as [|[c i r|c l i] K IH]; intros t; simpl; [done|done|]. by rewrite IH. Qed.

Lemma upd_climb d e K t : plug (upd_ctx d e (climb K t).1) (climb K t).2 = plug (upd_ctx d e K) t.
Proof. revert t. induction K as [|[c i r|c l i] K IH]; intros t; simpl; [done|done|]. by rewrite IH. Qed.

Lemma climb_ne K t : t <> E -> (climb K t).2 <> E.
Proof. revert t. induction K as [|[c i r|c l i] K IH]; intros t Ht; simpl; [done|done|]. by apply IH. Qed.

(** The condition of the first loop of [recomputeTreeMetadata]: [x] is a right child. *)
Definition is_right (x : ptr) : M bool :=
  r ← get_root;
  if x =? r then mret false
  else p ← fld parent x; pr ← fld right p; mret (x =? pr).

(** What follows that loop. *)
Definition recompute_tail (x : ptr) : M unit :=
  r ← get_root;
  if x =? r then mret tt
  else
    x ← fld parent x;
    l ← fld left x;
    size ← RB.calculateSize l;
    sl ← fld size_left x;
    let delta := size - sl in
    l ← fld left x;
    lf ← RB.calculateLF l;
    lfl ← fld lf_left x;
    let lf_delta := lf - lfl in
    upd x (RB.add_left delta lf_delta);;
    _ ← while_ (fun x =>
        r ← get_root;
        mret (negb (x =? r) && (negb (delta =? 0) || negb (lf_delta =? 0))))
      (RB.update_step delta lf_delta) x;
    mret tt.

Lemma recompute_eq x :
  RB.recomputeTreeMetadata x =
  (r ← get_root; if x =? r then mret tt else x ← while_ is_right (fld parent) x; recompute_tail x).
Proof. done. Qed.

Lemma wp_climb F sp s K t fuel :
  t <> E -> tree_at F sp s (plug K t) -> (List.length K < fuel)%nat ->
  wp (loop fuel is_right (fld parent) (root_of t)) s (fun x s' => s' = s /\ x = root_of (climb K t).2).
Proof.
  intros Ht Hs Hfuel.
  eapply (wp_loop (fun k x s' => s' = s /\ exists u K2, u <> E /\ x = root_of u /\ plug K2 u = plug K t /\
    climb K2 u = climb K t /\ k = List.length K2) _ _ _ _ _ _ (List.length K)); [|by split; [|exists t, K]|done].
  intros k x s' (-> & u & K2 & Hu & -> & Hp & Hc & ->). rewrite <- Hp in Hs.
  apply wp_bind, wp_get_root. pose proof (root_above _ _ _ _ _ Hu Hs) as Hroot.
  destruct (Z.eqb_spec (root_of u) (root s)) as [E0|E0].
  { apply wp_ret. rewrite Hroot in E0. subst K2. simpl in Hc. by rewrite <- Hc. }
  destruct K2 as [|f K2]; [tauto|]. destruct u as [|cu lu iu ru]; [done|].
  apply wp_bind, (wp_fld_node _ _ _ (f :: K2) _ _ _ _ Hs). cbn [parent node_of par].
  assert (Hsib : forall c i r, f = FL c i r -> root_of r <> addr iu)
    by (intros c i r ->; by apply (sibling_right _ _ _ _ _ _ _ _ Hu Hs)).
  destruct f as [c i r|c l i]; cbn [plug plug1] in Hs; cbn [finfo];
    apply wp_bind, (wp_fld_node _ _ _ K2 _ _ _ _ Hs); cbn [right node_of root_of]; apply wp_ret.
  - destruct (Z.eqb_spec (addr iu) (root_of r)) as [E1|]; [|split; [done|]; by rewrite <- Hc].
    by destruct (Hsib _ _ _ eq_refl).
  - rewrite Z.eqb_refl. eapply (wp_fld_node _ _ _ (FR c l i :: K2)); [exact Hs|].
    exists (List.length K2). split; [simpl; lia|]. split; [done|].
    exists (T c l i (T cu lu iu ru)), K2. by split_and!.
Qed.

(** What the second part of [recomputeTreeMetadata] finds at the first left child. *)
Definition delta_at (K : ctx) (t : tree) : Z * Z :=
  match climb K t with
  | (FL _ i _ :: _, u) => (spine_size u - sl i, spine_lf u - lf i)
  | _ => (0, 0)
  end.

Lemma climb_stop K t : match (climb K t).1 with FR _ _ _ :: _ => False | _ => True end.
Proof. revert t. induction K as [|[c i r|c l i] K IH]; intros t; simpl; [done|done|]. by apply IH. Qed.

Lemma wp_recompute_tail F sp s K t :
  tree_at F sp s (plug K t) -> plug K t <> E -> ((climb K t).2 = E -> sp = par (climb K t).1) ->
  wp (recompute_tail (root_of (climb K t).2)) s (fun _ s' =>
    tree_at F sp s' (plug (upd_ctx (delta_at K t).1 (delta_at K t).2 K) t)).
Proof.
  intros Hs Hne Hsp. unfold recompute_tail. apply wp_bind, wp_get_root. rewrite <- upd_climb. unfold delta_at.
  rewrite <- plug_climb in Hs, Hne. pose proof (climb_stop K t) as Hstop. destruct (climb K t) as [K2 u]. simpl in *.
  destruct (Z.eqb_spec (root_of u) (root s)) as [E0|E0].
  { destruct K2 as [|f K2]; [exact Hs|]. exfalso. destruct u as [|cu lu iu ru].
    - apply (root_of_ne F sp s [] (plug (f :: K2) E)); [done|done|]. destruct Hs as [Hroot _]. by rewrite <- Hroot, <- E0.
    - by apply (root_above F sp s (f :: K2) (T cu lu iu ru) ltac:(done) Hs) in E0. }
  destruct K2 as [|[c i r|c l i] K2]; [destruct Hs as [Hroot _]; by destruct E0| |done].
  clear E0 Hstop Hne. set (d := spine_size u - sl i). set (e := spine_lf u - lf i).
  assert (Hp : tree_at F sp s (plug (FL c i r :: K2) u)) by done. cbn [plug plug1] in Hs.
  assert (Hpar : forall Q : ptr -> store -> Prop, Q (addr i) s -> wp (fld parent (root_of u)) s Q).
  { intros Q HQ. destruct u as [|cu lu iu ru].
    - eapply wp_fld; [apply (tree_at_sent _ _ _ _ Hp)|]. cbn [parent sentinel_node]. by rewrite Hsp.
    - by apply (wp_fld_node _ _ _ (FL c i r :: K2) cu lu iu ru Hp). }
  apply wp_bind, Hpar. apply wp_bind, (wp_fld_node _ _ _ K2 _ _ _ _ Hs). cbn [left node_of].
  apply wp_bind, (wp_calculateSize F sp s (FL c i r :: K2) u); [done|].
  apply wp_bind, (wp_fld_node _ _ _ K2 _ _ _ _ Hs). cbn [size_left node_of].
  apply wp_bind, (wp_fld_node _ _ _ K2 _ _ _ _ Hs). cbn [left node_of].
  apply wp_bind, (wp_calculateLF F sp s (FL c i r :: K2) u); [done|].
  apply wp_bind, (wp_fld_node _ _ _ K2 _ _ _ _ Hs). cbn [lf_left node_of]. fold d e.
  apply wp_bind. eapply (wp_upd_node _ _ _ K2 _ _ _ _ Hs _ c (add_info d e i)); [done|done|]. intros s' Hs'.
  apply wp_bind. eapply wp_mono.
  - apply (wp_update_loop (negb (d =? 0) || negb (e =? 0)) _ _ _ d e K2 (T c u (add_info d e i) r) _ ltac:(done) Hs').
    + intros H. destruct (Z.eqb_spec d 0), (Z.eqb_spec e 0); try done.
    + done.
  - intros x s'' Hs''. by apply wp_ret.
Qed.

Lemma wp_recompute F sp s K t :
  t <> E -> tree_at F sp s (plug K t) ->
  wp (RB.recomputeTreeMetadata (root_of t)) s (fun _ s' =>
    tree_at F sp s' (plug (upd_ctx (delta_at K t).1 (delta_at K t).2 K) t)).
Proof.
  intros Ht Hs. rewrite recompute_eq. apply wp_bind, wp_get_root.
  pose proof (root_above _ _ _ _ _ Ht Hs) as Hroot. destruct (Z.eqb_spec (root_of t) (root s)) as [E0|_].
  { rewrite Hroot in E0. subst K. exact Hs. }
  apply wp_bind. unfold while_. apply wp_bind, wp_gets. pose proof (enough_fuel _ _ _ _ _ Hs) as Hfuel.
  eapply wp_mono; [by apply (wp_climb _ _ _ _ _ _ Ht Hs); lia|]. intros x s' [-> ->].
  apply (wp_recompute_tail F sp); [done|by apply plug_ne|]. intros E0. by destruct (climb_ne K t Ht).
Qed.

(** What it finds when the path is right for a subtree smaller by [d] and [e]. *)
Lemma delta_at_spine d e K t :
  meta_ctx K (spine_size t - d) (spine_lf t - e) ->
  delta_at K t = (d, e) \/ upd_ctx d e K = K /\ upd_ctx (delta_at K t).1 (delta_at K t).2 K = K.
Proof.
  unfold delta_at. revert t. induction K as [|[c i r|c l i] K IH]; intros t Hk; simpl.
  - by right.
  - left. destruct Hk as (-> & -> & _). f_equal; lia.
  - destruct Hk as (H1 & H2 & _ & H4). destruct (IH (T c l i t)) as [->|[E1 E2]].
    + simpl. by replace (sl i + length (pc i) + spine_size t - d) with (tsize l + length (pc i) + (spine_size t - d)) by lia;
      replace (lf i + lineFeedCnt (pc i) + spine_lf t - e) with (tlf l + lineFeedCnt (pc i) + (spine_lf t - e)) by lia.
    + by left.
    + right. by rewrite E1, E2.
Qed.

Lemma wp_recompute_spine F sp s K t d e :
  t <> E -> tree_at F sp s (plug K t) -> meta_ctx K (spine_size t - d) (spine_lf t - e) ->
  wp (RB.recomputeTreeMetadata (root_of t)) s (fun _ s' => tree_at F sp s' (plug (upd_ctx d e K) t)).
Proof.
  intros Ht Hs Hk. eapply wp_mono; [by apply (wp_recompute _ _ _ _ _ Ht Hs)|]. intros a s' Hs'.
  destruct (delta_at_spine d e K t Hk) as [E0|[E1 E2]]; [by rewrite E0 in Hs'|]. rewrite E1. by rewrite E2 in Hs'.
Qed.

(** Recomputing from a subtree that grew by [d] and [e] corrects the whole tree. *)
Lemma wp_recompute_meta F sp s K t d e :
  t <> E -> tree_at F sp s (plug K t) -> meta t -> meta_ctx K (tsize t - d) (tlf t - e) ->
  wp (RB.recomputeTreeMetadata (root_of t)) s (fun _ s' =>
    tree_at F sp s' (plug (upd_ctx d e K) t) /\ meta (plug (upd_ctx d e K) t)).
Proof.
  intros Ht Hs Hm Hk. destruct (spine_meta t Hm) as [E1 E2]. eapply wp_mono.
  - apply (wp_recompute_spine _ _ _ _ _ d e Ht Hs). by rewrite E1, E2.
  - intros a s' Hs'. split; [done|]. apply meta_plug. split; [done|]. apply (meta_upd_ctx d e) in Hk.
    by replace (tsize t - d + d) with (tsize t) in Hk by lia; replace (tlf t - e + e) with (tlf t) in Hk by lia.
Qed.
