(* ===== verification/RbInsert.v ===== *)
(** * Insertion into the piece tree

    [rbInsertRight] and [rbInsertLeft] of RbTree.v put a piece right after or right before
    a node, in order, and restore the red-black invariant and the metadata. *)

From S2P Require Import Prelude Store RbTree RbRep RbMeta.

(** ** Red-black trees *)

(** A tree whose root has this color and whose paths have this many black nodes. *)
Inductive rbt : NodeColor -> nat -> tree -> Prop :=
  | rbt_E : rbt Black 0 E
  | rbt_red n l i r : rbt Black n l -> rbt Black n r -> rbt Red n (T Red l i r)
  | rbt_black n cl cr l i r : rbt cl n l -> rbt cr n r -> rbt Black (S n) (T Black l i r).

(** A path around a place for a tree of this color and black height. *)
Inductive rbc : ctx -> NodeColor -> nat -> Prop :=
  | rbc_top n : rbc [] Black n
  | rbc_left_black i r K c cr n : rbt cr n r -> rbc K Black (S n) -> rbc (FL Black i r :: K) c n
  | rbc_right_black i l K c cl n : rbt cl n l -> rbc K Black (S n) -> rbc (FR Black l i :: K) c n
  | rbc_left_red i r K n : rbt Black n r -> rbc K Red n -> rbc (FL Red i r :: K) Black n
  | rbc_right_red i l K n : rbt Black n l -> rbc K Red n -> rbc (FR Red l i :: K) Black n.

Create HintDb rb.
#[export] Hint Constructors rbt rbc : rb.

Definition rb (t : tree) : Prop := exists n, rbt Black n t.

Lemma rbt_plug K c n t : rbt c n t -> rbc K c n -> rb (plug K t).
Proof.
  intros Ht Hk. revert t Ht. induction Hk; intros t Ht; simpl; eauto with rb; by eexists.
Qed.

Lemma rbc_weaken K c n : rbc K c n -> rbc K Black n.
Proof. inversion 1; subst; eauto with rb. Qed.

Lemma rbt_E_inv c n : rbt c n E -> c = Black /\ n = O.
Proof. by inversion 1. Qed.

(** Every place of a red-black tree. *)
Lemma rbt_unplug K c n t : rbt c n (plug K t) -> c = Black -> exists c' n', rbt c' n' t /\ rbc K c' n'.
Proof.
  revert t c n. induction K as [|f K IH]; intros t c n Ht ->; simpl in Ht; [by exists Black, n; eauto with rb|].
  destruct (IH _ _ _ Ht eq_refl) as (c' & n' & Ht' & Hk). destruct f as [cf i r|cf l i]; simpl in Ht';
    inversion Ht'; subst; eauto 6 with rb.
Qed.

Definition good (t : tree) : Prop := rb t /\ meta t.

(** Lists of nodes that differ in the nesting of appends. *)
Ltac app_eq := simpl; repeat (rewrite <- ?app_assoc; simpl); reflexivity.

(** The metadata of a tree rearranged, from that of the tree before. *)
Ltac meta_arith H :=
  simpl in H |- *; repeat (rewrite tsize_T in H || rewrite tlf_T in H || rewrite tsize_T || rewrite tlf_T);
  simpl in H |- *; split_and!; try apply H; lia.

(** ** Restoring the invariant *)

(** A red node may have a red parent here, and is the only one that has. *)
Definition red_hole (n : nat) (K : ctx) (t : tree) : Prop :=
  (exists l i r, t = T Red l i r) /\ rbt Red n t /\ rbc K Black n.

Section fix_insert.
Context (F : gmap ptr TreeNode) (sp : ptr) (es : list (ptr * Piece)).

(** The loop is at [x]: the nodes in order are [es]. *)
Definition fixing (k : nat) (x : ptr) (s : store) : Prop :=
  exists K t n, x = root_of t /\ tree_at F sp s (plug K t) /\ red_hole n K t /\
    elems (plug K t) = es /\ meta (plug K t) /\ k = List.length K.

Lemma fixing_intro s K l i r n :
  tree_at F sp s (plug K (T Red l i r)) -> rbt Black n l -> rbt Black n r -> rbc K Black n ->
  elems (plug K (T Red l i r)) = es -> meta (plug K (T Red l i r)) ->
  fixing (List.length K) (addr i) s.
Proof.
  intros. exists K, (T Red l i r), n. split_and!; try done. split; [by do 3 eexists|]. split; [|done]. by constructor.
Qed.

(** Recoloring and rotating the grandparent, when [x] is an outer grandchild. *)
Lemma fix_outer_left s K ix lx rx p c g u n cu :
  tree_at F sp s (plug (FL Red p c :: FL Black g u :: K) (T Red lx ix rx)) ->
  rbt Black n lx -> rbt Black n rx -> rbt Black n c -> rbt cu n u -> cu = Black -> rbc K Black (S n) ->
  elems (plug (FL Red p c :: FL Black g u :: K) (T Red lx ix rx)) = es ->
  meta (plug (FL Red p c :: FL Black g u :: K) (T Red lx ix rx)) ->
  wp (p ← fld parent (addr ix); upd p (with_color Black);; g ← fld parent p; upd g (with_color Red);;
      RB.rightRotate g;; mret (addr ix)) s (fun x => fixing (S (List.length K)) x).
Proof.
  intros Hs Hl Hr Hc Hu -> Hk He Hm. set (x := T Red lx ix rx) in *.
  apply wp_bind, (wp_fld_node _ _ _ (FL Red p c :: FL Black g u :: K) _ _ _ _ Hs). cbn [parent node_of par finfo].
  apply wp_bind. eapply (wp_upd_node _ _ _ (FL Black g u :: K) _ _ _ _ Hs _ Black p); [done|done|]. intros s1 Hs1.
  apply wp_bind, (wp_fld_node _ _ _ (FL Black g u :: K) _ _ _ _ Hs1). cbn [parent node_of par finfo].
  apply wp_bind. eapply (wp_upd_node _ _ _ K _ _ _ _ Hs1 _ Red g); [done|done|]. intros s2 Hs2.
  apply wp_bind. eapply wp_mono; [apply (wp_rightRotate _ _ _ K Black x p Red c g u Hs2)|]. intros [] s3 Hs3.
  apply wp_ret. set (g' := add_info _ _ g) in *.
  apply (fixing_intro s3 (FL Black p (T Red c g' u) :: K) lx ix rx n); try done.
  - eapply rbc_left_black; [by constructor|done].
  - rewrite <- He. simpl. apply elems_replace. app_eq.
  - simpl in Hm |- *. eapply meta_replace; [|..|exact Hm]; [app_eq|].
    apply meta_plug in Hm as [Hm _]. unfold g', x in *. meta_arith Hm.
Qed.

Lemma fix_outer_right s K ix lx rx p c g u n cu :
  tree_at F sp s (plug (FR Red c p :: FR Black u g :: K) (T Red lx ix rx)) ->
  rbt Black n lx -> rbt Black n rx -> rbt Black n c -> rbt cu n u -> cu = Black -> rbc K Black (S n) ->
  elems (plug (FR Red c p :: FR Black u g :: K) (T Red lx ix rx)) = es ->
  meta (plug (FR Red c p :: FR Black u g :: K) (T Red lx ix rx)) ->
  wp (p ← fld parent (addr ix); upd p (with_color Black);; g ← fld parent p; upd g (with_color Red);;
      RB.leftRotate g;; mret (addr ix)) s (fun x => fixing (S (List.length K)) x).
Proof.
  intros Hs Hl Hr Hc Hu -> Hk He Hm. set (x := T Red lx ix rx) in *.
  apply wp_bind, (wp_fld_node _ _ _ (FR Red c p :: FR Black u g :: K) _ _ _ _ Hs). cbn [parent node_of par finfo].
  apply wp_bind. eapply (wp_upd_node _ _ _ (FR Black u g :: K) _ _ _ _ Hs _ Black p); [done|done|]. intros s1 Hs1.
  apply wp_bind, (wp_fld_node _ _ _ (FR Black u g :: K) _ _ _ _ Hs1). cbn [parent node_of par finfo].
  apply wp_bind. eapply (wp_upd_node _ _ _ K _ _ _ _ Hs1 _ Red g); [done|done|]. intros s2 Hs2.
  apply wp_bind. eapply wp_mono; [apply (wp_leftRotate _ _ _ K Red u g Black c p x Hs2)|]. intros [] s3 Hs3.
  apply wp_ret. set (p' := add_info _ _ p) in *.
  apply (fixing_intro s3 (FR Black (T Red u g c) p' :: K) lx ix rx n); try done.
  - eapply rbc_right_black; [by constructor|done].
  - rewrite <- He. simpl. apply elems_replace. app_eq.
  - simpl in Hm |- *. eapply meta_replace; [|..|exact Hm]; [app_eq|].
    apply meta_plug in Hm as [Hm _]. unfold p', x in *. meta_arith Hm.
Qed.

(** The four writes of a red uncle; [up] is the tree at the grandparent. *)
Lemma fixing_red_uncle s K l g r n up :
  tree_at F sp s (plug K (T Red l g r)) -> rbt Black (S n) l -> rbt Black (S n) r -> rbc K Black (S n) ->
  elems (plug K up) = es -> meta (plug K up) -> elems (T Red l g r) = elems up -> (meta up -> meta (T Red l g r)) ->
  fixing (List.length K) (addr g) s.
Proof.
  intros Hs Hl Hr Hk He Hm Hup Hmup. apply (fixing_intro s K l g r (S n)); try done.
  - rewrite <- He. by apply elems_replace.
  - eapply meta_replace; [exact Hup|apply Hmup; by apply meta_plug in Hm as [Hm _]|exact Hm].
Qed.

Lemma fix_step_left s fp K ix lx rx g u n :
  tree_at F sp s (plug (fp :: FL Black g u :: K) (T Red lx ix rx)) ->
  rbt Black n lx -> rbt Black n rx -> rbc (fp :: FL Black g u :: K) Black n -> tcolor (plug1 fp E) = Red ->
  elems (plug (fp :: FL Black g u :: K) (T Red lx ix rx)) = es ->
  meta (plug (fp :: FL Black g u :: K) (T Red lx ix rx)) ->
  wp (RB.fixInsert_step (addr ix)) s (fun x s' => exists k', (k' < 2 + List.length K)%nat /\ fixing k' x s').
Proof.
  intros Hs Hl Hr Hk Hred He Hm. unfold RB.fixInsert_step.
  apply wp_bind, (wp_fld_node _ _ _ (fp :: FL Black g u :: K) _ _ _ _ Hs). cbn [parent node_of par].
  assert (Hfp : exists t c p, plug1 fp (T Red lx ix rx) = T Red t p c /\ addr (finfo fp) = addr p) by
    (destruct fp as [[] p c|[] c p]; try done; by eexists _, _, _).
  destruct Hfp as (tl & tr & p & Hfp & ->). cbn [plug] in Hs. rewrite Hfp in Hs.
  apply wp_bind, (wp_fld_node _ _ _ (FL Black g u :: K) _ _ _ _ Hs). cbn [parent node_of par finfo].
  apply wp_bind, (wp_fld_node _ _ _ K _ _ _ _ Hs). cbn [left node_of root_of]. rewrite Z.eqb_refl.
  apply wp_bind, (wp_fld_node _ _ _ K _ _ _ _ Hs). cbn [right node_of].
  apply wp_bind, (wp_fld_color F sp _ (FR Black (T Red tl p tr) g :: K)); [exact Hs|].
  assert (Hinv : exists cu, rbt cu n u /\ rbc K Black (S n) /\ rbt Black n (match fp with FL _ _ c | FR _ c _ => c end)).
  { inversion Hk; subst; try done; match goal with H : rbc (FL Black _ _ :: _) _ _ |- _ => inversion H; subst end; eauto. }
  destruct Hinv as (cu & Hu & HK & Hc). case_decide as Hcu.
  - destruct u as [|[] ul ui ur]; try done.
    apply wp_bind. eapply (wp_upd_node _ _ _ (FL Black g _ :: K) _ _ _ _ Hs _ Black p); [done|done|]. intros s1 Hs1.
    apply wp_bind. eapply (wp_upd_node _ _ _ (FR Black _ g :: K) _ _ _ _ Hs1 _ Black ui); [done|done|]. intros s2 Hs2.
    apply wp_bind. eapply (wp_upd_node _ _ _ K _ _ _ _ Hs2 _ Red g); [done|done|]. intros s3 Hs3.
    apply wp_ret. exists (List.length K). split; [lia|].
    inversion Hu; subst. eapply (fixing_red_uncle s3 K _ g _ n); try done; [|by econstructor|..].
    + destruct fp as [[] p' c|[] c p']; try done; simpl in Hfp; injection Hfp as <- <- <-; by repeat econstructor.
    + cbn [plug1]. by rewrite Hfp.
    + cbn [plug1]. by rewrite Hfp.
  - assert (cu = Black) as Hcub by (inversion Hu; subst; done).
    apply wp_bind, (wp_fld_node _ _ _ (FL Black g u :: K) _ _ _ _ Hs). cbn [right node_of].
    destruct fp as [cp p' c|cp c p']; simpl in Hfp; [injection Hfp as -> <- -> ->|injection Hfp as -> -> -> <-].
    + pose proof (sibling_right F sp s Red p tr (FL Black g u :: K) (T Red lx ix rx) ltac:(done) Hs) as Hne.
      cbn [root_of] in Hne. destruct (Z.eqb_spec (addr ix) (root_of tr)) as [E0|_]; [by rewrite E0 in Hne|].
      apply wp_bind, wp_ret. eapply wp_mono.
      * eapply (fix_outer_left s K ix lx rx p tr g u n cu); try done.
      * intros x s' Hx. exists (S (List.length K)). split; [lia|done].
    + cbn [root_of]. rewrite Z.eqb_refl. apply wp_bind, wp_bind.
      eapply wp_mono; [apply (wp_leftRotate _ _ _ (FL Black g u :: K) Red tl p Red lx ix rx Hs)|]. intros [] s1 Hs1.
      apply wp_ret. set (ix' := add_info _ _ ix) in *. eapply wp_mono.
      * eapply (fix_outer_left s1 K p tl lx ix' rx g u n cu); try done.
        -- rewrite <- He. simpl. apply elems_replace. app_eq.
        -- simpl in Hm |- *. eapply meta_replace; [|..|exact Hm]; [app_eq|].
           apply meta_plug in Hm as [Hm _]. unfold ix'. meta_arith Hm.
      * intros x s' Hx. exists (S (List.length K)). split; [lia|done].
Qed.
Lemma fix_step_right s fp K ix lx rx g u n :
  tree_at F sp s (plug (fp :: FR Black u g :: K) (T Red lx ix rx)) ->
  rbt Black n lx -> rbt Black n rx -> rbc (fp :: FR Black u g :: K) Black n -> tcolor (plug1 fp E) = Red ->
  elems (plug (fp :: FR Black u g :: K) (T Red lx ix rx)) = es ->
  meta (plug (fp :: FR Black u g :: K) (T Red lx ix rx)) ->
  wp (RB.fixInsert_step (addr ix)) s (fun x s' => exists k', (k' < 2 + List.length K)%nat /\ fixing k' x s').
Proof.
  intros Hs Hl Hr Hk Hred He Hm. unfold RB.fixInsert_step.
  apply wp_bind, (wp_fld_node _ _ _ (fp :: FR Black u g :: K) _ _ _ _ Hs). cbn [parent node_of par].
  assert (Hfp : exists t c p, plug1 fp (T Red lx ix rx) = T Red t p c /\ addr (finfo fp) = addr p) by
    (destruct fp as [[] p c|[] c p]; try done; by eexists _, _, _).
  destruct Hfp as (tl & tr & p & Hfp & ->). cbn [plug] in Hs. rewrite Hfp in Hs.
  apply wp_bind, (wp_fld_node _ _ _ (FR Black u g :: K) _ _ _ _ Hs). cbn [parent node_of par finfo].
  apply wp_bind, (wp_fld_node _ _ _ K _ _ _ _ Hs). cbn [left node_of root_of].
  pose proof (sibling_left F sp s Black u g K (T Red tl p tr) ltac:(done) Hs) as Hpne. cbn [root_of] in Hpne.
  destruct (Z.eqb_spec (addr p) (root_of u)) as [E0|_]; [by rewrite E0 in Hpne|].
  apply wp_bind, (wp_fld_node _ _ _ K _ _ _ _ Hs). cbn [left node_of].
  apply wp_bind, (wp_fld_color F sp _ (FL Black g (T Red tl p tr) :: K)); [exact Hs|].
  assert (Hinv : exists cu, rbt cu n u /\ rbc K Black (S n) /\ rbt Black n (match fp with FL _ _ c | FR _ c _ => c end)).
  { inversion Hk; subst; try done; match goal with H : rbc (FR Black _ _ :: _) _ _ |- _ => inversion H; subst end; eauto. }
  destruct Hinv as (cu & Hu & HK & Hc). case_decide as Hcu.
  - destruct u as [|[] ul ui ur]; try done.
    apply wp_bind. eapply (wp_upd_node _ _ _ (FR Black _ g :: K) _ _ _ _ Hs _ Black p); [done|done|]. intros s1 Hs1.
    apply wp_bind. eapply (wp_upd_node _ _ _ (FL Black g _ :: K) _ _ _ _ Hs1 _ Black ui); [done|done|]. intros s2 Hs2.
    apply wp_bind. eapply (wp_upd_node _ _ _ K _ _ _ _ Hs2 _ Red g); [done|done|]. intros s3 Hs3.
    apply wp_ret. exists (List.length K). split; [lia|].
    inversion Hu; subst. eapply (fixing_red_uncle s3 K _ g _ n); try done; [by econstructor|..].
    + destruct fp as [[] p' c|[] c p']; try done; simpl in Hfp; injection Hfp as <- <- <-; by repeat econstructor.
    + cbn [plug1]. by rewrite Hfp.
    + cbn [plug1]. by rewrite Hfp.
  - assert (cu = Black) as Hcub by (inversion Hu; subst; done).
    apply wp_bind, (wp_fld_node _ _ _ (FR Black u g :: K) _ _ _ _ Hs). cbn [left node_of].
    destruct fp as [cp p' c|cp c p']; simpl in Hfp; [injection Hfp as -> <- -> ->|injection Hfp as -> -> -> <-].
    + cbn [root_of]. rewrite Z.eqb_refl. apply wp_bind, wp_bind.
      eapply wp_mono; [apply (wp_rightRotate _ _ _ (FR Black u g :: K) Red lx ix Red rx p tr Hs)|]. intros [] s1 Hs1.
      apply wp_ret. set (p' := add_info _ _ p) in *. eapply wp_mono.
      * eapply (fix_outer_right s1 K p' rx tr ix lx g u n cu); try done.
        -- rewrite <- He. simpl. apply elems_replace. app_eq.
        -- simpl in Hm |- *. eapply meta_replace; [|..|exact Hm]; [app_eq|].
           apply meta_plug in Hm as [Hm _]. unfold p'. meta_arith Hm.
      * intros x s' Hx. exists (S (List.length K)). split; [lia|done].
    + pose proof (sibling_left F sp s Red tl p (FR Black u g :: K) (T Red lx ix rx) ltac:(done) Hs) as Hne.
      cbn [root_of] in Hne. destruct (Z.eqb_spec (addr ix) (root_of tl)) as [E0|_]; [by rewrite E0 in Hne|].
      apply wp_bind, wp_ret. eapply wp_mono.
      * eapply (fix_outer_right s K ix lx rx p tl g u n cu); try done.
      * intros x s' Hx. exists (S (List.length K)). split; [lia|done].
Qed.

Lemma wp_fixInsert s K l i r n d e :
  tree_at F sp s (plug K (T Red l i r)) -> rbt Black n l -> rbt Black n r -> rbc K Black n ->
  elems (plug K (T Red l i r)) = es -> meta (T Red l i r) ->
  meta_ctx K (tsize (T Red l i r) - d) (tlf (T Red l i r) - e) ->
  wp (RB.fixInsert (addr i)) s (fun _ s' => exists t, tree_at F sp s' t /\ rb t /\ meta t /\ elems t = es).
Proof.
  intros Hs Hl Hr Hk He Hm Hmk. unfold RB.fixInsert. apply wp_bind.
  eapply wp_mono; [by apply (wp_recompute_meta F sp s K (T Red l i r) d e)|]. intros _ s1 [Hs1 Hm1].
  apply wp_bind. unfold while_. apply wp_bind, wp_gets.
  eapply (wp_loop (fun k x s => fixing k x s) _ _ _ _ _ _ (List.length K)).
  - clear. intros k x s (K & t & n & -> & Hs & ((l & i & r & ->) & Hrb & HK) & He & Hm & ->).
    apply wp_bind, wp_get_root. pose proof (root_above F sp s K (T Red l i r) ltac:(done) Hs) as Hroot.
    destruct (Z.eqb_spec (root_of (T Red l i r)) (root s)) as [E0|E0]; cbn [root_of] in *.
    + apply wp_ret. rewrite Hroot in E0. subst K. apply wp_bind, wp_get_root.
      rewrite <- (proj2 Hroot eq_refl). eapply (wp_upd_node _ _ _ [] _ _ _ _ Hs _ Black i); [done|done|].
      intros s' Hs'. exists (T Black l i r). split_and!; try done. inversion Hrb; subst. eexists. by econstructor.
    + destruct K as [|fp K]; [tauto|]. apply wp_bind, (wp_fld_node _ _ _ (fp :: K) _ _ _ _ Hs).
      cbn [parent node_of par]. cbn [plug] in Hs.
      assert (Hfp : addr (finfo fp) = root_of (plug1 fp (T Red l i r)) /\ tcolor (plug1 fp (T Red l i r)) = tcolor (plug1 fp E))
        by (by destruct fp). destruct Hfp as [-> Hcol].
      apply wp_bind. eapply (wp_fld_color F sp _ K); [exact Hs|]. apply wp_ret. rewrite Hcol.
      destruct (bool_decide_reflect (tcolor (plug1 fp E) = Red)) as [Hred|Hblack].
      * assert (Hg : exists f K', K = f :: K' /\ ((exists g u, f = FL Black g u) \/ exists u g, f = FR Black u g)).
        { inversion HK; subst; simpl in Hred; try done; match goal with H : rbc K Red _ |- _ => inversion H; subst end; eauto 10. }
        inversion Hrb; subst. destruct Hg as (f & K' & -> & [(g & u & ->)|(u & g & ->)]);
          [by eapply (fix_step_left s fp K' i l r g u n)|by eapply (fix_step_right s fp K' i l r g u n)].
      * assert (HKr : rbc (fp :: K) Red n) by (inversion HK; subst; try done; eauto with rb).
        pose proof (rbt_plug _ _ _ _ Hrb HKr) as [m Ht].
        apply wp_bind, wp_get_root. destruct (plug (fp :: K) (T Red l i r)) as [|c0 l0 i0 r0] eqn:Ep.
        { exfalso. by apply (plug_ne (fp :: K) (T Red l i r)) in Ep. }
        cbn [plug] in Ep. rewrite Ep in Hs. destruct Hs as [Hroot' Hat]. rewrite Hroot'. cbn [root_of].
        inversion Ht; subst.
        eapply (wp_upd_node F sp s [] _ _ _ _ (conj Hroot' Hat) _ Black i0); [done|done|].
        intros s' Hs'. eexists. split; [exact Hs'|]. split; [by eexists|done].
  - rewrite <- (length_upd_ctx d e K). apply (fixing_intro s1 (upd_ctx d e K) l i r n); try done.
    + clear -Hk. induction Hk; simpl; eauto with rb.
    + by rewrite elems_plug, before_upd_ctx, after_upd_ctx, <- elems_plug.
  - pose proof (enough_fuel _ _ _ _ _ Hs1) as Hfuel. rewrite length_upd_ctx in Hfuel. lia.
Qed.
End fix_insert.

(** ** New nodes *)

Lemma fresh_ptr_spec h : 0 < fresh_ptr h /\ h !! fresh_ptr h = None.
Proof.
  unfold fresh_ptr. assert (Hmax : forall l, 0 <= foldr Z.max 0 l /\ forall a, a ∈ l -> a <= foldr Z.max 0 l).
  { induction l as [|b l [IH1 IH2]]; simpl; [split; [done|set_solver]|]. split; [lia|].
    intros a [->|Ha]%elem_of_cons; [lia|]. specialize (IH2 a Ha). lia. }
  destruct (Hmax (map_to_list h).*1) as [H1 H2]. split; [lia|].
  destruct (h !! _) as [n|] eqn:En; [|done]. exfalso. apply elem_of_map_to_list in En.
  assert (Hin : 1 + foldr Z.max 0 (map_to_list h).*1 ∈ (map_to_list h).*1) by (apply list_elem_of_fmap; eexists (_, n); split; [done|exact En]).
  specialize (H2 _ Hin). lia.
Qed.

Section attach.
Context (F : gmap ptr TreeNode) (sp : ptr) (s : store) (z : ptr) (p : Piece).
Hypothesis Hz : heap s !! z = None.

Let new := mkNode SENTINEL SENTINEL SENTINEL Red (Some p) 0 0.
Let s1 := mkStore (<[z := new]> (heap s)) (root s).

(** The node [z] becomes the child of a node that has none on that side. *)
Lemma wp_attach (f : frame) K (link : TreeNode -> TreeNode) (Q : unit -> store -> Prop) :
  tree_at F sp s (plug (f :: K) E) ->
  link = match f with FL _ _ _ => with_left z | FR _ _ _ => with_right z end ->
  (forall s', tree_at F sp s' (plug (f :: K) (T Red E (mkInfo z p 0 0) E)) -> Q tt s') ->
  wp (upd (addr (finfo f)) link;; upd z (with_parent (addr (finfo f)))) s1 Q.
Proof.
  intros Hs -> HQ. destruct Hs as [Hroot Hat]. cbn [plug] in Hroot, Hat.
  pose proof (place_facts _ _ _ _ _ Hat) as (Hr & Hk & Hn & Hnk & Hst & Hsk & Hsep).
  destruct (heap_at_fresh _ _ _ _ _ _ Hat Hz) as (Hzs & Hzt & Hzk & HzF).
  assert (Haf : addr (finfo f) ∈ addrs (plug1 f E)) by (destruct f; simpl; rewrite addrs_T; set_solver).
  assert (Hzi : z <> addr (finfo f)) by (intros ->; done).
  set (t' := plug1 f (T Red E (mkInfo z p 0 0) E)).
  assert (Ha : forall a, a ∈ addrs t' <-> a = z \/ a ∈ addrs (plug1 f E)).
  { intros a. unfold t'. destruct f; simpl; rewrite !addrs_T; set_solver. }
  assert (Hnt : NoDup (addrs t')).
  { unfold t'. destruct f as [c i r|c l i]; simpl in *; rewrite !addrs_T in *; simpl.
    - by apply NoDup_cons.
    - rewrite NoDup_app in *. destruct Hn as (Hl & Hd & Hi). split_and!; [done|set_solver|].
      apply NoDup_cons. split; [set_solver|apply NoDup_singleton]. }
  assert (Hf : exists n, heap s !! addr (finfo f) = Some n) by (destruct f; destruct Hr as (Hi & _); by eexists).
  destruct Hf as [n Hfn]. apply wp_bind. eapply wp_upd; [cbn [heap s1]; by rewrite lookup_insert_ne|].
  eapply wp_upd. { cbn [heap s1]. rewrite lookup_insert_ne by done. by rewrite lookup_insert_eq. }
  apply HQ. cbn [heap root s1]. split; cbn [heap root].
  { cbn [plug]. rewrite Hroot, !root_of_plug. destruct (last K); [done|]. by destruct f. }
  eapply (heap_at_change F sp (heap s) _ K (plug1 f E) t'); [exact Hat|exact Hnt|..].
  - intros a [->|Hin]%Ha; [right; by split_and!|by left].
  - unfold t'. destruct f as [c i r|c l i]; simpl in *.
    + destruct Hr as (Hi & _ & Hrr). rewrite lookup_insert_ne by done. rewrite lookup_insert_eq.
      rewrite Hfn in Hi. injection Hi as ->. split; [done|]. split; [by rewrite lookup_insert_eq|].
      eapply rep_frame; [exact Hrr|]. intros a Hin. rewrite addrs_T in *. apply NoDup_cons in Hn as [Hn _].
      rewrite !lookup_insert_ne; [done|..]; intros <-; set_solver.
    + destruct Hr as (Hi & Hrl & _). rewrite lookup_insert_ne by done. rewrite lookup_insert_eq.
      rewrite Hfn in Hi. injection Hi as ->. split; [done|]. split; [|by rewrite lookup_insert_eq].
      eapply rep_frame; [exact Hrl|]. intros a Hin. rewrite addrs_T in *. apply NoDup_app in Hn as (_ & Hn & _).
      rewrite !lookup_insert_ne; [done|..]; intros <-; set_solver.
  - intros a Hin. assert (Hroots : root_of t' = root_of (plug1 f E)) by (by destruct f). rewrite Hroots.
    rewrite (relink_same _ _ _ _ Hk). rewrite !lookup_insert_ne; [done|..]; intros <-; [done| |done]. by apply (Hsep _ Haf).
  - intros a Hna Hna' _. rewrite !lookup_insert_ne; [done|..]; intros <-; try done; apply Hna', Ha; auto.
Qed.
End attach.

(** The leftmost and the rightmost node of a subtree. *)
Lemma wp_leftest F sp s K c l i r (Q : ptr -> store -> Prop) :
  tree_at F sp s (plug K (T c l i r)) ->
  (forall K1 c1 i1 r1, plug K1 (T c1 E i1 r1) = T c l i r -> before K1 = [] -> Q (addr i1) s) ->
  wp (RB.leftest (addr i)) s Q.
Proof.
  intros Hs HQ. unfold RB.leftest, while_. apply wp_bind, wp_gets.
  eapply (wp_loop (fun k x s' => s' = s /\ exists K1 c1 l1 i1 r1, x = addr i1 /\ before K1 = [] /\
    plug K1 (T c1 l1 i1 r1) = T c l i r /\ k = List.length (addrs l1)) _ _ _ _ _ _ (List.length (addrs l))).
  - intros k x s' (-> & K1 & c1 & l1 & i1 & r1 & -> & Hb & Hp & ->).
    assert (Hs1 : tree_at F sp s (plug (K1 ++ K) (T c1 l1 i1 r1))) by (by rewrite plug_app, Hp).
    apply wp_bind, (wp_fld_node _ _ _ _ _ _ _ _ Hs1). apply wp_ret. cbn [left node_of].
    destruct l1 as [|c2 l2 i2 r2].
    + simpl. by eapply HQ.
    + pose proof (root_of_ne F sp s (FL c1 i1 r1 :: K1 ++ K) (T c2 l2 i2 r2) ltac:(done) Hs1) as Hne.
      destruct (Z.eqb_spec (root_of (T c2 l2 i2 r2)) SENTINEL); [done|]. simpl negb.
      apply (wp_fld_node _ _ _ _ _ _ _ _ Hs1).
      exists (List.length (addrs l2)). split; [rewrite addrs_T, length_app; simpl; lia|]. split; [done|].
      exists (FL c1 i1 r1 :: K1), c2, l2, i2, r2. by split_and!.
  - split; [done|]. by exists [], c, l, i, r.
  - pose proof (enough_fuel _ _ _ _ _ Hs) as Hf. rewrite addrs_T, length_app in Hf. lia.
Qed.

Lemma wp_righttest F sp s K c l i r (Q : ptr -> store -> Prop) :
  tree_at F sp s (plug K (T c l i r)) ->
  (forall K1 c1 l1 i1, plug K1 (T c1 l1 i1 E) = T c l i r -> after K1 = [] -> Q (addr i1) s) ->
  wp (RB.righttest (addr i)) s Q.
Proof.
  intros Hs HQ. unfold RB.righttest, while_. apply wp_bind, wp_gets.
  eapply (wp_loop (fun k x s' => s' = s /\ exists K1 c1 l1 i1 r1, x = addr i1 /\ after K1 = [] /\
    plug K1 (T c1 l1 i1 r1) = T c l i r /\ k = List.length (addrs r1)) _ _ _ _ _ _ (List.length (addrs r))).
  - intros k x s' (-> & K1 & c1 & l1 & i1 & r1 & -> & Hb & Hp & ->).
    assert (Hs1 : tree_at F sp s (plug (K1 ++ K) (T c1 l1 i1 r1))) by (by rewrite plug_app, Hp).
    apply wp_bind, (wp_fld_node _ _ _ _ _ _ _ _ Hs1). apply wp_ret. cbn [right node_of].
    destruct r1 as [|c2 l2 i2 r2].
    + simpl. by eapply HQ.
    + pose proof (root_of_ne F sp s (FR c1 l1 i1 :: K1 ++ K) (T c2 l2 i2 r2) ltac:(done) Hs1) as Hne.
      destruct (Z.eqb_spec (root_of (T c2 l2 i2 r2)) SENTINEL); [done|]. simpl negb.
      apply (wp_fld_node _ _ _ _ _ _ _ _ Hs1).
      exists (List.length (addrs r2)). split; [rewrite addrs_T, length_app; simpl; lia|]. split; [done|].
      exists (FR c1 l1 i1 :: K1), c2, l2, i2, r2. by split_and!.
  - split; [done|]. by exists [], c, l, i, r.
  - pose proof (enough_fuel _ _ _ _ _ Hs) as Hf. rewrite addrs_T, length_app in Hf. simpl in Hf. lia.
Qed.

(** ** The insertions *)

(** Every node in order has a place. *)
Lemma find_place t xs e ys :
  elems t = xs ++ e :: ys -> exists K c l i r,
    t = plug K (T c l i r) /\ e = (addr i, pc i) /\ xs = before K ++ elems l /\ ys = elems r ++ after K.
Proof.
  revert xs ys. induction t as [|c l IHl i r IHr]; intros xs ys He; simpl in He; [by destruct xs|].
  apply app_eq_inv in He as [(k & Hl & He)|(k & -> & He)].
  - destruct k as [|e' k]; simplify_eq/=.
    + exists [], c, l, i, r. rewrite app_nil_r in Hl. simpl. by rewrite !app_nil_r.
    + destruct (IHl _ _ Hl) as (K & c' & l' & i' & r' & -> & -> & -> & ->).
      exists (K ++ [FL c i r]), c', l', i', r'. rewrite plug_app. split; [done|]. split; [done|].
      assert (Hb : forall K, before (K ++ [FL c i r]) = before K /\ after (K ++ [FL c i r]) = after K ++ (addr i, pc i) :: elems r).
      { clear. induction K as [|[c' i' r'|c' l' i'] K [IH1 IH2]]; simpl; [by rewrite app_nil_r| |];
          rewrite ?IH1, ?IH2; split; app_eq. }
      destruct (Hb K) as [-> ->]. split; [done|app_eq].
  - destruct k as [|e' k]; simplify_eq/=.
    + exists [], c, l, i, r. simpl. by rewrite !app_nil_r.
    + destruct (IHr _ _ ltac:(eassumption)) as (K & c' & l' & i' & r' & -> & -> & -> & ->).
      exists (K ++ [FR c l i]), c', l', i', r'. rewrite plug_app. split; [done|]. split; [done|].
      assert (Hb : forall K, before (K ++ [FR c l i]) = elems l ++ (addr i, pc i) :: before K /\ after (K ++ [FR c l i]) = after K).
      { clear. induction K as [|[c' i' r'|c' l' i'] K [IH1 IH2]]; simpl; [done| |]; rewrite ?IH1, ?IH2; split; app_eq. }
      destruct (Hb K) as [-> ->]. split; [app_eq|done].
Qed.

(** The tree of the store: its nodes in order, the red-black invariant and the metadata. *)
Definition piece_tree (F : gmap ptr TreeNode) (s : store) (es : list (ptr * Piece)) : Prop :=
  exists t, tree_at F SENTINEL s t /\ rb t /\ meta t /\ elems t = es.

Lemma wp_fixInsert_new F s K z p :
  tree_at F SENTINEL s (plug K (T Red E (mkInfo z p 0 0) E)) -> rb (plug K E) -> meta (plug K E) ->
  wp (RB.fixInsert z) s (fun _ s' => piece_tree F s' (before K ++ (z, p) :: after K)).
Proof.
  intros Hs [n Hrb] Hm. destruct (rbt_unplug _ _ _ _ Hrb eq_refl) as (c & m & HE & HK).
  apply rbt_E_inv in HE as [-> ->]. apply meta_plug in Hm as [_ Hm].
  assert (Hmk : meta_ctx K (tsize (T Red E (mkInfo z p 0 0) E) - length p) (tlf (T Red E (mkInfo z p 0 0) E) - lineFeedCnt p)).
  { replace (tsize (T Red E (mkInfo z p 0 0) E) - length p) with 0 by (unfold tsize; simpl; lia).
    by replace (tlf (T Red E (mkInfo z p 0 0) E) - lineFeedCnt p) with 0 by (unfold tlf; simpl; lia). }
  eapply wp_mono; [by apply (wp_fixInsert F SENTINEL _ s K E (mkInfo z p 0 0) E 0 (length p) (lineFeedCnt p) Hs rbt_E rbt_E HK eq_refl)|].
  intros _ s' (t & Ht & Hrb' & Hm' & He). exists t. split_and!; try done. by rewrite He, elems_plug.
Qed.

(** What both insertions do before [fixInsert]: a new red node at an empty place. *)
Lemma wp_new_node s p (Q : ptr -> store -> Prop) :
  (forall z : ptr, heap s !! z = None -> 0 < z ->
     Q z (mkStore (<[z := mkNode SENTINEL SENTINEL SENTINEL Red (Some p) 0 0]> (heap s)) (root s))) ->
  wp (RB.new_node p) s Q.
Proof. intros HQ. destruct (fresh_ptr_spec (heap s)). by apply HQ. Qed.

Lemma tree_at_new F sp s t (z : ptr) n : tree_at F sp s t -> heap s !! z = None -> tree_at F sp (mkStore (<[z := n]> (heap s)) (root s)) t.
Proof.
  intros [Hroot Hat] Hz. split; [done|]. cbn [heap].
  destruct Hat as (Hr & Hn & Hs & HF). assert (Hne : forall a, is_Some (heap s !! a) -> <[z := n]> (heap s) !! a = heap s !! a).
  { intros a [m Ha]. apply lookup_insert_ne. congruence. }
  split; [eapply rep_frame; [exact Hr|]; intros a Ha; apply Hne; by eapply rep_dom|]. split; [done|].
  split; [by rewrite Hne|]. intros a m Hm. destruct (HF a m Hm) as [? Ha]. split; [done|]. by rewrite Hne.
Qed.

Definition inserted (F : gmap ptr TreeNode) (s : store) (xs ys : list (ptr * Piece)) (p : Piece) (z : ptr) (s' : store) : Prop :=
  heap s !! z = None /\ 0 < z /\ piece_tree F s' (xs ++ (z, p) :: ys).

(** Into the empty tree. *)
Lemma wp_insert_root F s p (z : ptr) :
  tree_at F SENTINEL s E -> heap s !! z = None -> 0 < z ->
  wp (set_root z;; upd z (with_color Black);; RB.fixInsert z)
    (mkStore (<[z := mkNode SENTINEL SENTINEL SENTINEL Red (Some p) 0 0]> (heap s)) (root s))
    (fun _ s' => piece_tree F s' [(z, p)]).
Proof.
  intros [Hroot Hat] Hz Hpos. destruct Hat as (_ & _ & Hsent & HF). do 2 heap_step. apply wp_bind. heap_step.
  set (s1 := mkStore _ _). assert (Hs1 : tree_at F SENTINEL s1 (T Black E (mkInfo z p 0 0) E)).
  { split; [done|]. cbn [heap s1]. split; [split; [by rewrite lookup_insert_eq|done]|]. split; [|split].
    - apply NoDup_cons. split; [|apply NoDup_singleton]. intros E0%list_elem_of_singleton. unfold SENTINEL in E0. simpl in E0. lia.
    - rewrite !lookup_insert_ne; [done|..]; unfold SENTINEL; lia.
    - intros a n Hn. destruct (HF a n Hn) as [Hna Ha]. assert (z <> a) by congruence.
      split; [|by rewrite !lookup_insert_ne]. unfold addrs in *. simpl in *. set_solver. }
  unfold RB.fixInsert. apply wp_bind. eapply wp_mono.
  { apply (wp_recompute F SENTINEL s1 [] (T Black E (mkInfo z p 0 0) E)); [done|exact Hs1]. }
  intros [] s2 Hs2. clear s1 Hs1. cbn [upd_ctx plug] in Hs2. apply wp_bind. unfold while_. apply wp_bind, wp_gets.
  simpl loop. apply wp_bind, wp_bind, wp_get_root. destruct Hs2 as [Hr2 Hat2]. rewrite Hr2. cbn [root_of addr].
  rewrite Z.eqb_refl. do 2 apply wp_ret. apply wp_bind, wp_get_root. rewrite Hr2. cbn [root_of addr].
  eapply (wp_upd_node F SENTINEL s2 [] _ _ _ _ (conj Hr2 Hat2) _ Black (mkInfo z p 0 0)); [done|done|].
  intros s3 Hs3. exists (T Black E (mkInfo z p 0 0) E). split_and!; try done. exists 1%nat. repeat econstructor.
Qed.

Lemma wp_rbInsertRight F s es node q xs ys p :
  piece_tree F s es -> es = xs ++ (node, q) :: ys ->
  wp (RB.rbInsertRight node p) s (inserted F s (xs ++ [(node, q)]) ys p).
Proof.
  intros (t & Hs & Hrb & Hm & He) ->. apply find_place in He as (K & c & l & i & r & -> & [= -> ->] & -> & ->).
  unfold RB.rbInsertRight. apply wp_bind, wp_new_node. intros z Hz Hpos. apply wp_bind, wp_get_root. cbn [root].
  pose proof Hs as [Hroot _].
  assert (Hne : root s <> SENTINEL).
  { rewrite Hroot. apply (root_of_ne F SENTINEL s [] (plug K (T c l i r))); [by apply plug_ne|done]. }
  destruct (Z.eqb_spec (root s) SENTINEL); [done|]. clear n.
  assert (Hfix : forall s' K', tree_at F SENTINEL s' (plug K' (T Red E (mkInfo z p 0 0) E)) -> plug K' E = plug K (T c l i r) ->
    before K' = (before K ++ elems l) ++ [(addr i, pc i)] -> after K' = elems r ++ after K ->
    wp (RB.fixInsert z ≫= (fun _ => mret z)) s' (inserted F s ((before K ++ elems l) ++ [(addr i, pc i)]) (elems r ++ after K) p)).
  { intros s' K' Hs' Hp Hb Ha. apply wp_bind. eapply wp_mono; [by apply (wp_fixInsert_new F); rewrite ?Hp|].
    intros [] s'' Hs''. apply wp_ret. rewrite Hb, Ha in Hs''. done. }
  apply wp_bind. pose proof (tree_at_new F SENTINEL s _ z (mkNode SENTINEL SENTINEL SENTINEL Red (Some p) 0 0) Hs Hz) as Hs1.
  apply wp_bind, (wp_fld_node F SENTINEL _ _ _ _ _ _ Hs1). cbn [right node_of]. destruct r as [|cr lr ir rr]; cbn [root_of].
  - simpl (_ =? _). cbv iota. eapply (wp_attach F SENTINEL s z p Hz (FR c l i) K _ _ Hs eq_refl). intros s' Hs'.
    apply (Hfix s' (FR c l i :: K)); try done. simpl. by rewrite app_assoc.
  - pose proof (root_of_ne F SENTINEL _ (FR c l i :: K) (T cr lr ir rr) ltac:(done) Hs1) as Hne2. cbn [root_of] in Hne2.
    destruct (Z.eqb_spec (addr ir) SENTINEL); [done|]. apply wp_bind.
    eapply (wp_leftest F SENTINEL _ (FR c l i :: K) cr lr ir rr); [exact Hs1|]. intros K1 c1 i1 r1 Hp Hb.
    eapply (wp_attach F SENTINEL s z p Hz (FL c1 i1 r1) (K1 ++ FR c l i :: K)); [|done|].
    + change (plug (FL c1 i1 r1 :: K1 ++ FR c l i :: K) E) with (plug (K1 ++ FR c l i :: K) (T c1 E i1 r1)).
      by rewrite plug_app, Hp.
    + intros s' Hs'. pose proof (elems_plug K1 (T c1 E i1 r1)) as Hel. rewrite Hp, Hb in Hel.
      assert (Hba : forall K1, before K1 = [] -> before (K1 ++ FR c l i :: K) = before (FR c l i :: K) /\
        after (K1 ++ FR c l i :: K) = after K1 ++ after K).
      { clear. induction K1 as [|[c' i' r'|c' l' i'] K1 IH]; simpl; [done| |].
        - intros [-> ->]%IH. split; [done|app_eq].
        - intros Hnil. by destruct (before K1), (elems l'). }
      destruct (Hba K1 Hb) as [Hb1 Ha1].
      apply (Hfix s' (FL c1 i1 r1 :: K1 ++ FR c l i :: K)); [done|..].
      * change (plug (FL c1 i1 r1 :: K1 ++ FR c l i :: K) E) with (plug (K1 ++ FR c l i :: K) (T c1 E i1 r1)).
        by rewrite plug_app, Hp.
      * simpl. rewrite Hb1. simpl. by rewrite app_assoc.
      * cbn [after]. rewrite Ha1, Hel. app_eq.
Qed.

Lemma wp_rbInsertLeft F s es node q xs ys p :
  piece_tree F s es -> es = xs ++ (node, q) :: ys ->
  wp (RB.rbInsertLeft node p) s (inserted F s xs ((node, q) :: ys) p).
Proof.
  intros (t & Hs & Hrb & Hm & He) ->. apply find_place in He as (K & c & l & i & r & -> & [= -> ->] & -> & ->).
  unfold RB.rbInsertLeft. apply wp_bind, wp_new_node. intros z Hz Hpos. apply wp_bind, wp_get_root. cbn [root].
  pose proof Hs as [Hroot _].
  assert (Hne : root s <> SENTINEL).
  { rewrite Hroot. apply (root_of_ne F SENTINEL s [] (plug K (T c l i r))); [by apply plug_ne|done]. }
  destruct (Z.eqb_spec (root s) SENTINEL); [done|]. clear n.
  assert (Hfix : forall s' K', tree_at F SENTINEL s' (plug K' (T Red E (mkInfo z p 0 0) E)) -> plug K' E = plug K (T c l i r) ->
    before K' = before K ++ elems l -> after K' = (addr i, pc i) :: elems r ++ after K ->
    wp (RB.fixInsert z ≫= (fun _ => mret z)) s' (inserted F s (before K ++ elems l) ((addr i, pc i) :: elems r ++ after K) p)).
  { intros s' K' Hs' Hp Hb Ha. apply wp_bind. eapply wp_mono; [by apply (wp_fixInsert_new F); rewrite ?Hp|].
    intros [] s'' Hs''. apply wp_ret. rewrite Hb, Ha in Hs''. done. }
  apply wp_bind. pose proof (tree_at_new F SENTINEL s _ z (mkNode SENTINEL SENTINEL SENTINEL Red (Some p) 0 0) Hs Hz) as Hs1.
  apply wp_bind, (wp_fld_node F SENTINEL _ _ _ _ _ _ Hs1). cbn [left node_of]. destruct l as [|cl ll il rl]; cbn [root_of].
  - simpl (_ =? _). cbv iota. eapply (wp_attach F SENTINEL s z p Hz (FL c i r) K _ _ Hs eq_refl). intros s' Hs'.
    apply (Hfix s' (FL c i r :: K)); try done. simpl. by rewrite app_nil_r.
  - pose proof (root_of_ne F SENTINEL _ (FL c i r :: K) (T cl ll il rl) ltac:(done) Hs1) as Hne2. cbn [root_of] in Hne2.
    destruct (Z.eqb_spec (addr il) SENTINEL); [done|]. apply wp_bind.
    eapply (wp_righttest F SENTINEL _ (FL c i r :: K) cl ll il rl); [exact Hs1|]. intros K1 c1 l1 i1 Hp Hb.
    eapply (wp_attach F SENTINEL s z p Hz (FR c1 l1 i1) (K1 ++ FL c i r :: K)); [|done|].
    + change (plug (FR c1 l1 i1 :: K1 ++ FL c i r :: K) E) with (plug (K1 ++ FL c i r :: K) (T c1 l1 i1 E)).
      by rewrite plug_app, Hp.
    + intros s' Hs'. pose proof (elems_plug K1 (T c1 l1 i1 E)) as Hel. rewrite Hp, Hb in Hel.
      assert (Hba : forall K1, after K1 = [] -> after (K1 ++ FL c i r :: K) = after (FL c i r :: K) /\
        before (K1 ++ FL c i r :: K) = before K ++ before K1).
      { clear. induction K1 as [|[c' i' r'|c' l' i'] K1 IH]; simpl; [by rewrite app_nil_r| |].
        - done.
        - intros [-> ->]%IH. split; [done|app_eq]. }
      destruct (Hba K1 Hb) as [Ha1 Hb1].
      apply (Hfix s' (FR c1 l1 i1 :: K1 ++ FL c i r :: K)); [done|..].
      * change (plug (FR c1 l1 i1 :: K1 ++ FL c i r :: K) E) with (plug (K1 ++ FL c i r :: K) (T c1 l1 i1 E)).
        by rewrite plug_app, Hp.
      * cbn [before]. rewrite Hb1, Hel. simpl. rewrite app_nil_r. app_eq.
      * cbn [after]. by rewrite Ha1.
Qed.

Lemma wp_rbInsert_empty F s node p :
  piece_tree F s [] -> wp (RB.rbInsertRight node p) s (inserted F s [] [] p) /\ wp (RB.rbInsertLeft node p) s (inserted F s [] [] p).
Proof.
  intros (t & Hs & _ & _ & He).
  assert (t = E) as -> by (destruct t as [|c l i r]; [done|]; simpl in He; by destruct (elems l)).
  pose proof Hs as [Hroot _]. split; unfold RB.rbInsertRight, RB.rbInsertLeft;
    apply wp_bind, wp_new_node; intros z Hz Hpos; apply wp_bind, wp_get_root; cbn [root]; rewrite Hroot;
    simpl (_ =? _); cbv iota; pose proof (wp_insert_root F s p z Hs Hz Hpos) as Hw;
    (apply wp_bind; unfold wp in *; unfold mbind, ST_bind in *;
     destruct ((set_root z) _) as [[? s1]|]; [|done]; destruct ((upd z (with_color Black)) s1) as [[? s2]|]; [|done];
     destruct (RB.fixInsert z s2) as [[? s3]|]; [|done]; by split).
Qed.

(** C34: Insertion into the piece tree.  In a store that holds a red-black tree with right
    metadata beside any other objects, [rbInsertRight] and [rbInsertLeft] do not throw;
    afterwards the new object holds the piece right after, or right before, the given node
    in order, no other node has moved or changed its piece, the tree is red-black again,
    every node's [size_left] and [lf_left] are those of its left subtree, and the other
    objects are untouched.  In an empty tree the new node becomes the root. *)
Theorem rb_insert_correct F s es node q xs ys p :
  piece_tree F s es ->
  (es = [] -> wp (RB.rbInsertRight node p) s (inserted F s [] [] p) /\ wp (RB.rbInsertLeft node p) s (inserted F s [] [] p)) /\
  (es = xs ++ (node, q) :: ys ->
     wp (RB.rbInsertRight node p) s (inserted F s (xs ++ [(node, q)]) ys p) /\
     wp (RB.rbInsertLeft node p) s (inserted F s xs ((node, q) :: ys) p)).
Proof.
  intros Hs. split.
  - intros ->. by apply wp_rbInsert_empty.
  - intros He. split; [by eapply wp_rbInsertRight|by eapply wp_rbInsertLeft].
Qed.

(** A store with the sentinel only, and two pieces. *)
Definition empty_store : store := mkStore {[ SENTINEL := sentinel_node SENTINEL ]} SENTINEL.

Lemma empty_piece_tree : piece_tree ∅ empty_store [].
Proof.
  exists E. split; [|split; [by exists 0%nat; constructor|done]]. split; [done|]. split; [done|].
  split; [apply NoDup_singleton|]. split; [reflexivity|].
  intros a n Hn. by rewrite lookup_empty in Hn.
Qed.

Definition piece_a : Piece := mkPiece 0 (mkCursor 0 0) (mkCursor 1 2) 1 8.
Definition piece_b : Piece := mkPiece 0 (mkCursor 1 2) (mkCursor 1 5) 0 3.

Lemma rb_insert_correct_witness :
  exists s1 s2, RB.rbInsertRight null piece_a empty_store = Ok (1, s1) /\
    RB.rbInsertLeft 1 piece_b s1 = Ok (2, s2) /\ piece_tree ∅ s2 [(2, piece_b); (1, piece_a)].
Proof.
  destruct (proj1 (rb_insert_correct ∅ empty_store [] null piece_a [] [] piece_a empty_piece_tree) eq_refl) as [H1 _].
  apply wp_run in H1 as (z & s1 & E1 & _ & _ & H1). pose proof E1 as E1'. vm_compute in E1'. injection E1' as <- Es1.
  exists s1.
  destruct (proj2 (rb_insert_correct ∅ s1 _ 1 piece_a [] [] piece_b H1) eq_refl) as [_ H2].
  apply wp_run in H2 as (z & s2 & E2 & _ & _ & H2). pose proof E2 as E2'. rewrite <- Es1 in E2'. vm_compute in E2'.
  injection E2' as <- _. exists s2. split; [exact E1|]. split; [exact E2|exact H2].
Defined.
