(* ===== verification/RbWalk.v ===== *)
(** * Walking the piece tree in order

    [next] and [prev] of RbTree.v give the neighbours of a node in order, and the sentinel
    at the ends. *)

From S2P Require Import Prelude Store RbTree RbRep RbMeta RbInsert.

(** The first and the last node of a list, or the sentinel. *)
Definition first_ptr (l : list (ptr * Piece)) : ptr := match l with [] => SENTINEL | e :: _ => e.1 end.
Definition last_ptr (l : list (ptr * Piece)) : ptr := match last l with None => SENTINEL | Some e => e.1 end.

Lemma first_ptr_app a b : first_ptr (a ++ b) = match a with [] => first_ptr b | e :: _ => e.1 end.
Proof. by destruct a. Qed.

Lemma last_ptr_snoc a e : last_ptr (a ++ [e]) = e.1.
Proof. unfold last_ptr. by rewrite last_snoc. Qed.

Lemma last_ptr_app a b : b <> [] -> last_ptr (a ++ b) = last_ptr b.
Proof. destruct b as [|e b _] using rev_ind; [done|]. intros _. by rewrite app_assoc, !last_ptr_snoc. Qed.

Section walk.
Context (F : gmap ptr TreeNode) (sp : ptr) (s : store).

Lemma par_ne f K t : tree_at F sp s (plug (f :: K) t) -> addr (finfo f) <> SENTINEL.
Proof.
  intros Hs. destruct f as [c i r|c l i].
  - by apply (root_of_ne F sp s K (T c t i r)).
  - by apply (root_of_ne F sp s K (T c l i t)).
Qed.

Definition climb_next (node : ptr) : M bool :=
  p ← fld parent node;
  if p =? SENTINEL then mret false else l ← fld left p; mret (negb (l =? node)).

Lemma wp_climb_next K t :
  t <> E -> tree_at F sp s (plug K t) ->
  wp (node ← while_ climb_next (fld parent) (root_of t); fld parent node) s
    (fun x s' => s' = s /\ x = first_ptr (after K)).
Proof.
  intros Ht Hs. apply wp_bind. unfold while_. apply wp_bind, wp_gets.
  eapply (wp_loop (fun k x s' => s' = s /\ exists u K2, u <> E /\ x = root_of u /\ plug K2 u = plug K t /\
    after K2 = after K /\ k = List.length K2) _ _ _ _ _ _ (List.length K)); [|by split; [|exists t, K]|].
  2: { pose proof (enough_fuel _ _ _ _ _ Hs). lia. }
  intros k x s' (-> & u & K2 & Hu & -> & Hp & Ha & ->). rewrite <- Hp in Hs. destruct u as [|cu lu iu ru]; [done|].
  unfold climb_next. apply wp_bind, (wp_fld_node _ _ _ K2 _ _ _ _ Hs). cbn [parent node_of].
  destruct K2 as [|f K2]; cbn [par].
  { apply wp_ret, (wp_fld_node _ _ _ [] _ _ _ _ Hs). by rewrite <- Ha. }
  pose proof (par_ne _ _ _ Hs) as Hne. destruct (Z.eqb_spec (addr (finfo f)) SENTINEL) as [|_]; [done|].
  pose proof Hs as Hp0. destruct f as [c i r|c l i]; cbn [plug plug1 finfo] in *;
    apply wp_bind, (wp_fld_node _ _ _ K2 _ _ _ _ Hs); cbn [left node_of root_of]; apply wp_ret.
  - rewrite Z.eqb_refl. simpl negb. cbv iota. apply (wp_fld_node _ _ _ (FL c i r :: K2) _ _ _ _ Hp0). by rewrite <- Ha.
  - pose proof (sibling_left F sp s c l i K2 (T cu lu iu ru) ltac:(done) Hp0) as Hsib. cbn [root_of] in Hsib.
    destruct (Z.eqb_spec (root_of l) (addr iu)) as [|_]; [done|]. simpl negb. cbv iota.
    apply (wp_fld_node _ _ _ (FR c l i :: K2) _ _ _ _ Hp0). exists (List.length K2). split; [simpl; lia|].
    split; [done|]. by exists (T c l i (T cu lu iu ru)), K2.
Qed.

Lemma wp_next K c l i r :
  tree_at F sp s (plug K (T c l i r)) ->
  wp (RB.next (addr i)) s (fun x s' => s' = s /\ x = first_ptr (elems r ++ after K)).
Proof.
  intros Hs. unfold RB.next. apply wp_bind, (wp_fld_node _ _ _ K _ _ _ _ Hs). cbn [right node_of].
  destruct r as [|cr lr ir rr].
  - cbn [root_of]. rewrite Z.eqb_refl. simpl negb. cbv iota. by apply (wp_climb_next K (T c l i E)).
  - pose proof (root_of_ne F sp s (FR c l i :: K) (T cr lr ir rr) ltac:(done) Hs) as Hne.
    destruct (Z.eqb_spec (root_of (T cr lr ir rr)) SENTINEL) as [|_]; [done|]. simpl negb. cbv iota.
    apply (wp_leftest F sp s (FR c l i :: K) cr lr ir rr); [exact Hs|]. intros K1 c1 i1 r1 Hp Hb. split; [done|].
    rewrite <- Hp, elems_plug, Hb. done.
Qed.

Definition climb_prev (node : ptr) : M bool :=
  p ← fld parent node;
  if p =? SENTINEL then mret false else r ← fld right p; mret (negb (r =? node)).

Lemma wp_climb_prev K t :
  t <> E -> tree_at F sp s (plug K t) ->
  wp (node ← while_ climb_prev (fld parent) (root_of t); fld parent node) s
    (fun x s' => s' = s /\ x = last_ptr (before K)).
Proof.
  intros Ht Hs. apply wp_bind. unfold while_. apply wp_bind, wp_gets.
  eapply (wp_loop (fun k x s' => s' = s /\ exists u K2, u <> E /\ x = root_of u /\ plug K2 u = plug K t /\
    before K2 = before K /\ k = List.length K2) _ _ _ _ _ _ (List.length K)); [|by split; [|exists t, K]|].
  2: { pose proof (enough_fuel _ _ _ _ _ Hs). lia. }
  intros k x s' (-> & u & K2 & Hu & -> & Hp & Ha & ->). rewrite <- Hp in Hs. destruct u as [|cu lu iu ru]; [done|].
  unfold climb_prev. apply wp_bind, (wp_fld_node _ _ _ K2 _ _ _ _ Hs). cbn [parent node_of].
  destruct K2 as [|f K2]; cbn [par].
  { apply wp_ret, (wp_fld_node _ _ _ [] _ _ _ _ Hs). by rewrite <- Ha. }
  pose proof (par_ne _ _ _ Hs) as Hne. destruct (Z.eqb_spec (addr (finfo f)) SENTINEL) as [|_]; [done|].
  pose proof Hs as Hp0. destruct f as [c i r|c l i]; cbn [plug plug1 finfo] in *;
    apply wp_bind, (wp_fld_node _ _ _ K2 _ _ _ _ Hs); cbn [right node_of root_of]; apply wp_ret.
  - pose proof (sibling_right F sp s c i r K2 (T cu lu iu ru) ltac:(done) Hp0) as Hsib. cbn [root_of] in Hsib.
    destruct (Z.eqb_spec (root_of r) (addr iu)) as [|_]; [done|]. simpl negb. cbv iota.
    apply (wp_fld_node _ _ _ (FL c i r :: K2) _ _ _ _ Hp0). exists (List.length K2). split; [simpl; lia|].
    split; [done|]. by exists (T c (T cu lu iu ru) i r), K2.
  - rewrite Z.eqb_refl. simpl negb. cbv iota. apply (wp_fld_node _ _ _ (FR c l i :: K2) _ _ _ _ Hp0). split; [done|].
    rewrite <- Ha. simpl. by rewrite app_assoc, last_ptr_snoc.
Qed.

Lemma wp_prev K c l i r :
  tree_at F sp s (plug K (T c l i r)) ->
  wp (RB.prev (addr i)) s (fun x s' => s' = s /\ x = last_ptr (before K ++ elems l)).
Proof.
  intros Hs. unfold RB.prev. apply wp_bind, (wp_fld_node _ _ _ K _ _ _ _ Hs). cbn [left node_of].
  destruct l as [|cl ll il rl].
  - cbn [root_of]. rewrite Z.eqb_refl. simpl negb. cbv iota. rewrite app_nil_r. by apply (wp_climb_prev K (T c E i r)).
  - pose proof (root_of_ne F sp s (FL c i r :: K) (T cl ll il rl) ltac:(done) Hs) as Hne.
    destruct (Z.eqb_spec (root_of (T cl ll il rl)) SENTINEL) as [|_]; [done|]. simpl negb. cbv iota.
    apply (wp_righttest F sp s (FL c i r :: K) cl ll il rl); [exact Hs|]. intros K1 c1 l1 i1 Hp Ha. split; [done|].
    rewrite <- Hp, elems_plug, Ha, app_nil_r. simpl. by rewrite !app_assoc, last_ptr_snoc.
Qed.
End walk.

(** Three nodes: the root with a child on each side. *)
Definition node_a : info := mkInfo 1 piece_a 3 0.
Definition node_b : info := mkInfo 2 piece_b 0 0.
Definition node_c : info := mkInfo 3 piece_b 0 0.

Definition three_store : store := mkStore
  (<[1 := node_of SENTINEL 2 3 Black node_a]> (<[2 := node_of 1 SENTINEL SENTINEL Red node_b]>
    (<[3 := node_of 1 SENTINEL SENTINEL Red node_c]> {[ SENTINEL := sentinel_node SENTINEL ]}))) 1.

Lemma three_piece_tree : piece_tree ∅ three_store ([(2 : ptr, piece_b)] ++ (1 : ptr, piece_a) :: [(3 : ptr, piece_b)]).
Proof.
  exists (T Black (T Red E node_b E) node_a (T Red E node_c E)). split; [split; [done|split; [|split; [|split]]]|].
  - by split_and!.
  - apply (bool_decide_unpack _). by vm_compute.
  - by vm_compute.
  - intros a n. by rewrite lookup_empty.
  - split_and!; try done. exists 1%nat. repeat econstructor.
Qed.

(** The nodes beside a node of the tree. *)
Lemma wp_next_at F s xs z q ys :
  piece_tree F s (xs ++ (z, q) :: ys) -> wp (RB.next z) s (fun x s' => s' = s /\ x = first_ptr ys).
Proof.
  intros (t & Hs & _ & _ & He). apply find_place in He as (K & c & l & i & r & -> & [= -> ->] & -> & ->).
  by apply (wp_next F SENTINEL s K c l i r).
Qed.

Lemma wp_prev_at F s xs z q ys :
  piece_tree F s (xs ++ (z, q) :: ys) -> wp (RB.prev z) s (fun x s' => s' = s /\ x = last_ptr xs).
Proof.
  intros (t & Hs & _ & _ & He). apply find_place in He as (K & c & l & i & r & -> & [= -> ->] & -> & ->).
  by apply (wp_prev F SENTINEL s K c l i r).
Qed.

(** Walking the piece tree.  In a store that holds a tree of pieces, [next] of a node is
    the node after it in order and [prev] the node before it, or the sentinel at the ends,
    and neither changes the store. *)
Theorem next_prev_correct F s xs z q ys :
  piece_tree F s (xs ++ (z, q) :: ys) ->
  RB.next z s = Ok (first_ptr ys, s) /\ RB.prev z s = Ok (last_ptr xs, s).
Proof.
  intros Hs. pose proof (wp_next_at _ _ _ _ _ _ Hs) as (x & s' & -> & -> & ->)%wp_run.
  by pose proof (wp_prev_at _ _ _ _ _ _ Hs) as (x & s' & -> & -> & ->)%wp_run.
Qed.

Lemma next_prev_correct_witness :
  RB.next 2 three_store = Ok (1, three_store) /\ RB.prev 2 three_store = Ok (SENTINEL, three_store).
Proof. exact (next_prev_correct ∅ three_store [] 2 piece_b _ three_piece_tree). Defined.
