(* ===== verification/RbFixDelete.v ===== *)
(** * Rebalancing after a deletion

    The loop of [rbDelete] of RbTree.v: a place whose subtree lacks one black node moves up
    until a recoloring or a rotation repairs it. *)

From S2P Require Import Prelude Store RbTree RbRep RbMeta RbInsert.

Definition blacken (t : tree) : tree := match t with E => E | T _ l i r => T Black l i r end.

Lemma rbt_color c n t : rbt c n t -> tcolor t = c.
Proof. by inversion 1. Qed.

(** The subtree [t] of [K] has one black node too few, unless it is red. *)
Definition short (n : nat) (K : ctx) (t : tree) : Prop :=
  rbc K Black (S n) /\ ((tcolor t = Black /\ rbt Black n t) \/ (tcolor t = Red /\ rbt Black (S n) (blacken t))).

Lemma short_red_or_root n K t : short n K t -> tcolor t = Red \/ K = [] -> rb (plug K (blacken t)).
Proof.
  intros [HK [[Hc Ht]|[Hc Ht]]] Hex.
  - destruct Hex as [Hr| ->]; [congruence|]. exists n. destruct t as [|[] l i r]; done.
  - by eapply rbt_plug.
Qed.

Section fix_delete.
Context (F : gmap ptr TreeNode) (sp : ptr) (es : list (ptr * Piece)).

(** A place, and the parent pointer of the sentinel when it stands there. *)
Definition at_place (s : store) (K : ctx) (t : tree) : Prop :=
  tree_at F sp s (plug K t) /\ (t = E -> sp = par K) /\ elems (plug K t) = es /\ meta (plug K t).

Definition deleting (k : nat) (x : ptr) (s : store) : Prop :=
  exists K t n, x = root_of t /\ at_place s K t /\ short n K t /\ plug K t <> E /\
    k = (match tcolor t with Red => 0 | Black => S (List.length K) end)%nat.

Lemma wp_fld_parent s K t (Q : ptr -> store -> Prop) :
  at_place s K t -> Q (par K) s -> wp (fld parent (root_of t)) s Q.
Proof.
  intros (Hs & Hsp & _) HQ. by apply (wp_fld_parent_at F sp s K).
Qed.

(** The tree was rearranged below a place. *)
Lemma at_place_change s s' K K' t t' :
  at_place s K t -> tree_at F sp s' (plug K' t') -> (t' = E -> sp = par K') ->
  elems (plug K' t') = elems (plug K t) -> meta (plug K' t') -> at_place s' K' t'.
Proof. intros (_ & _ & He & _) Hs Hsp He' Hm. split_and!; [done|done|congruence|done]. Qed.

(** The black height of the subtree of a node of this color, for a child that should have
    black height [S n]. *)
Definition above (c : NodeColor) (n : nat) : nat := match c with Black => S (S n) | Red => S n end.

(** A repaired tree, at its root. *)
Lemma deleting_root s K t :
  tree_at F sp s (plug K t) -> t <> E -> elems (plug K t) = es -> meta (plug K t) -> rb (plug K t) ->
  deleting 1 (root s) s.
Proof.
  intros Hs Ht He Hm [n Hrb]. pose proof (plug_ne K t Ht) as Hne. destruct (Hs) as [Hroot _].
  exists [], (plug K t), n. split; [done|]. split; [by split_and!|].
  assert (Hc : tcolor (plug K t) = Black) by (destruct (plug K t); [done|by inversion Hrb]).
  split; [split; [constructor|by left]|]. split; [done|]. by rewrite Hc.
Qed.

(** The sibling is black with a red outer child: the last rotation, on the left. *)
Lemma fix_del_outer_left s K cf p iw wl wr x n cl :
  at_place s (FL cf p (T Black wl iw wr) :: K) x -> rbt Black n x -> rbt cl n wl -> rbt Red n wr ->
  rbc K cf (above cf n) ->
  wp (p ← fld parent (root_of x); pc ← fld color p; upd (addr iw) (with_color pc);; upd p (with_color Black);;
      wr ← fld right (addr iw); upd wr (with_color Black);; RB.leftRotate p;; get_root) s (deleting 1).
Proof.
  intros Hp Hx Hl Hr HK. pose proof Hp as (Hs & _ & He & Hm).
  apply wp_bind, (wp_fld_parent _ _ _ _ Hp). cbn [par finfo].
  apply wp_bind, (wp_fld_node _ _ _ K _ _ _ _ Hs). cbn [color node_of].
  apply wp_bind. eapply (wp_upd_node _ _ _ (FR cf x p :: K) _ _ _ _ Hs _ cf iw); [done|done|]. intros s1 Hs1.
  apply wp_bind. eapply (wp_upd_node _ _ _ K _ _ _ _ Hs1 _ Black p); [done|done|]. intros s2 Hs2.
  apply wp_bind, (wp_fld_node _ _ _ (FR Black x p :: K) _ _ _ _ Hs2). cbn [right node_of].
  destruct wr as [|cr rl ir rr]; [inversion Hr|]. inversion Hr; subst cr.
  apply wp_bind. eapply (wp_upd_node _ _ _ (FR cf wl iw :: FR Black x p :: K) _ _ _ _ Hs2 _ Black ir); [done|done|].
  intros s3 Hs3. apply wp_bind. eapply wp_mono; [by apply (wp_leftRotate _ _ _ K Black x p cf wl iw (T Black rl ir rr) Hs3)|].
  intros [] s4 Hs4. apply wp_get_root. set (iw' := add_info _ _ iw) in *.
  eapply (deleting_root s4 K (T cf (T Black x p wl) iw' (T Black rl ir rr))); try done.
  - rewrite <- He. cbn [plug]. apply elems_replace. app_eq.
  - cbn [plug] in Hm. eapply meta_replace; [|..|exact Hm]; [app_eq|].
    apply meta_plug in Hm as [Hm _]. unfold iw'. meta_arith Hm.
  - destruct cf; eapply rbt_plug; try exact HK; eauto with rb.
Qed.

(** A red sibling is rotated away. *)
Lemma fix_del_red_left s K p iw wl wr x n :
  at_place s (FL Black p (T Red wl iw wr) :: K) x -> rbt Black (S n) wl -> rbt Black (S n) wr -> rbc K Black (S (S n)) ->
  wp (upd (addr iw) (with_color Black);; upd (addr p) (with_color Red);; RB.leftRotate (addr p);;
      p ← fld parent (root_of x); fld right p) s (fun w s' =>
    exists iw', w = root_of wl /\ at_place s' (FL Red p wl :: FL Black iw' wr :: K) x /\
      rbc (FL Black iw' wr :: K) Red (S n)).
Proof.
  intros Hp Hl Hr HK. pose proof Hp as (Hs & Hsp & He & Hm).
  apply wp_bind. eapply (wp_upd_node _ _ _ (FR Black x p :: K) _ _ _ _ Hs _ Black iw); [done|done|]. intros s1 Hs1.
  apply wp_bind. eapply (wp_upd_node _ _ _ K _ _ _ _ Hs1 _ Red p); [done|done|]. intros s2 Hs2.
  apply wp_bind. eapply wp_mono; [by apply (wp_leftRotate _ _ _ K Red x p Black wl iw wr Hs2)|].
  intros [] s3 Hs3. set (iw' := add_info _ _ iw) in *.
  assert (Hp3 : at_place s3 (FL Red p wl :: FL Black iw' wr :: K) x).
  { eapply at_place_change; [exact Hp|exact Hs3|exact Hsp|cbn [plug plug1]; apply elems_replace; app_eq|].
    cbn [plug plug1] in Hm |- *. eapply meta_replace; [|..|exact Hm]; [app_eq|].
    apply meta_plug in Hm as [Hm _]. unfold iw'. meta_arith Hm. }
  apply wp_bind, (wp_fld_parent _ _ _ _ Hp3). cbn [par finfo].
  apply (wp_fld_node _ _ _ (FL Black iw' wr :: K) _ _ _ _ Hs3). exists iw'. split; [done|]. split; [done|].
  by econstructor.
Qed.

(** The rest of the body once the sibling is black. *)
Definition black_sibling_left (x w : ptr) : M ptr :=
  wl ← fld left w;
  wlc ← fld color wl;
  wr ← fld right w;
  wrc ← fld color wr;
  if bool_decide (wlc = Black) && bool_decide (wrc = Black) then
    upd w (with_color Red);;
    fld parent x
  else
    w ← (if decide (wrc = Black) then
           upd wl (with_color Black);;
           upd w (with_color Red);;
           RB.rightRotate w;;
           p ← fld parent x;
           fld right p
         else mret w);
    p ← fld parent x;
    pc ← fld color p;
    upd w (with_color pc);;
    upd p (with_color Black);;
    wr ← fld right w;
    upd wr (with_color Black);;
    RB.leftRotate p;;
    get_root.

Lemma fix_del_black_left s K cf p iw wl wr x n cl cr :
  at_place s (FL cf p (T Black wl iw wr) :: K) x -> rbt Black n x -> rbt cl n wl -> rbt cr n wr ->
  rbc K cf (above cf n) ->
  wp (black_sibling_left (root_of x) (addr iw)) s (fun x' s' =>
    exists k, (k <= match cf with Red => 1 | Black => S (List.length K) end)%nat /\ deleting k x' s').
Proof.
  intros Hp Hx Hl Hr HK. pose proof Hp as (Hs & Hsp & He & Hm). unfold black_sibling_left.
  apply wp_bind, (wp_fld_node _ _ _ (FR cf x p :: K) _ _ _ _ Hs). cbn [left node_of].
  apply wp_bind, (wp_fld_color F sp _ (FL Black iw wr :: FR cf x p :: K)); [exact Hs|].
  apply wp_bind, (wp_fld_node _ _ _ (FR cf x p :: K) _ _ _ _ Hs). cbn [right node_of].
  apply wp_bind, (wp_fld_color F sp _ (FR Black wl iw :: FR cf x p :: K)); [exact Hs|].
  rewrite (rbt_color _ _ _ Hl), (rbt_color _ _ _ Hr). destruct (bool_decide (cl = Black) && bool_decide (cr = Black)) eqn:Hcc.
  - apply andb_true_iff in Hcc as [->%bool_decide_eq_true ->%bool_decide_eq_true].
    apply wp_bind. eapply (wp_upd_node _ _ _ (FR cf x p :: K) _ _ _ _ Hs _ Red iw); [done|done|]. intros s1 Hs1.
    assert (Hp1 : at_place s1 (FL cf p (T Red wl iw wr) :: K) x).
    { eapply at_place_change; [exact Hp|exact Hs1|exact Hsp|cbn [plug plug1]; by apply elems_replace|].
      cbn [plug plug1] in Hm |- *. eapply meta_replace; [|..|exact Hm]; [done|]. by apply meta_plug in Hm as [Hm _]. }
    apply (wp_fld_parent _ _ _ _ Hp1). cbn [par finfo]. eexists. split; [|exists K, (T cf x p (T Red wl iw wr)), (Nat.pred (above cf n));
      split; [done|]; split; [destruct Hp1 as (? & _ & ? & ?); by split_and!|]; split; [|split; [by apply plug_ne|reflexivity]]].
    + by destruct cf; simpl; lia.
    + destruct cf; simpl in HK; (split; [by eapply rbc_weaken|]).
      * left. split; [done|]. simpl. eauto with rb.
      * right. split; [done|]. simpl. eauto with rb.
  - apply wp_bind. destruct (decide (cr = Black)) as [-> | Hrb].
    + assert (cl = Red) as -> by (by destruct cl).
      destruct wl as [|c1 ll il lr]; [inversion Hl|]. inversion Hl; subst c1.
      apply wp_bind. eapply (wp_upd_node _ _ _ (FL Black iw wr :: FR cf x p :: K) _ _ _ _ Hs _ Black il); [done|done|]. intros s1 Hs1.
      apply wp_bind. eapply (wp_upd_node _ _ _ (FR cf x p :: K) _ _ _ _ Hs1 _ Red iw); [done|done|]. intros s2 Hs2.
      apply wp_bind. eapply wp_mono; [by apply (wp_rightRotate _ _ _ (FR cf x p :: K) Black ll il Red lr iw wr Hs2)|].
      intros [] s3 Hs3. set (iw' := add_info _ _ iw) in *.
      assert (Hp3 : at_place s3 (FL cf p (T Black ll il (T Red lr iw' wr)) :: K) x).
      { eapply at_place_change; [exact Hp|exact Hs3|exact Hsp|cbn [plug plug1]; apply elems_replace; app_eq|].
        cbn [plug plug1] in Hm |- *. eapply meta_replace; [|..|exact Hm]; [app_eq|].
        apply meta_plug in Hm as [Hm _]. unfold iw'. meta_arith Hm. }
      apply wp_bind, (wp_fld_parent _ _ _ _ Hp3). cbn [par finfo].
      apply (wp_fld_node _ _ _ K _ _ _ _ (proj1 Hp3)). cbn [right node_of root_of].
      eapply wp_mono; [eapply (fix_del_outer_left s3 K cf p il ll (T Red lr iw' wr) x n Black); try done; by constructor|].
      intros x' s' Hd. exists 1%nat. split; [destruct cf; lia|done].
    + apply wp_ret. assert (cr = Red) as -> by (by destruct cr).
      eapply wp_mono; [by eapply (fix_del_outer_left s K cf p iw wl wr x n cl)|].
      intros x' s' Hd. exists 1%nat. split; [destruct cf; lia|done].
Qed.

(** The same on the right. *)
Lemma fix_del_outer_right s K cf p iw wl wr x n cr :
  at_place s (FR cf (T Black wl iw wr) p :: K) x -> rbt Black n x -> rbt Red n wl -> rbt cr n wr ->
  rbc K cf (above cf n) ->
  wp (p ← fld parent (root_of x); pc ← fld color p; upd (addr iw) (with_color pc);; upd p (with_color Black);;
      wl ← fld left (addr iw); upd wl (with_color Black);; RB.rightRotate p;; get_root) s (deleting 1).
Proof.
  intros Hp Hx Hl Hr HK. pose proof Hp as (Hs & _ & He & Hm).
  apply wp_bind, (wp_fld_parent _ _ _ _ Hp). cbn [par finfo].
  apply wp_bind, (wp_fld_node _ _ _ K _ _ _ _ Hs). cbn [color node_of].
  apply wp_bind. eapply (wp_upd_node _ _ _ (FL cf p x :: K) _ _ _ _ Hs _ cf iw); [done|done|]. intros s1 Hs1.
  apply wp_bind. eapply (wp_upd_node _ _ _ K _ _ _ _ Hs1 _ Black p); [done|done|]. intros s2 Hs2.
  apply wp_bind, (wp_fld_node _ _ _ (FL Black p x :: K) _ _ _ _ Hs2). cbn [left node_of].
  destruct wl as [|cl ll il lr]; [inversion Hl|]. inversion Hl; subst cl.
  apply wp_bind. eapply (wp_upd_node _ _ _ (FL cf iw wr :: FL Black p x :: K) _ _ _ _ Hs2 _ Black il); [done|done|].
  intros s3 Hs3. apply wp_bind. eapply wp_mono; [by apply (wp_rightRotate _ _ _ K cf (T Black ll il lr) iw Black wr p x Hs3)|].
  intros [] s4 Hs4. apply wp_get_root. set (p' := add_info _ _ p) in *.
  eapply (deleting_root s4 K (T cf (T Black ll il lr) iw (T Black wr p' x))); try done.
  - rewrite <- He. cbn [plug]. apply elems_replace. app_eq.
  - cbn [plug] in Hm. eapply meta_replace; [|..|exact Hm]; [app_eq|].
    apply meta_plug in Hm as [Hm _]. unfold p'. meta_arith Hm.
  - destruct cf; eapply rbt_plug; try exact HK; eauto with rb.
Qed.

Lemma fix_del_red_right s K p iw wl wr x n :
  at_place s (FR Black (T Red wl iw wr) p :: K) x -> rbt Black (S n) wl -> rbt Black (S n) wr -> rbc K Black (S (S n)) ->
  wp (upd (addr iw) (with_color Black);; upd (addr p) (with_color Red);; RB.rightRotate (addr p);;
      p ← fld parent (root_of x); fld left p) s (fun w s' =>
    exists p', w = root_of wr /\ at_place s' (FR Red wr p' :: FR Black wl iw :: K) x /\
      rbc (FR Black wl iw :: K) Red (S n)).
Proof.
  intros Hp Hl Hr HK. pose proof Hp as (Hs & Hsp & He & Hm).
  apply wp_bind. eapply (wp_upd_node _ _ _ (FL Black p x :: K) _ _ _ _ Hs _ Black iw); [done|done|]. intros s1 Hs1.
  apply wp_bind. eapply (wp_upd_node _ _ _ K _ _ _ _ Hs1 _ Red p); [done|done|]. intros s2 Hs2.
  apply wp_bind. eapply wp_mono; [by apply (wp_rightRotate _ _ _ K Black wl iw Red wr p x Hs2)|].
  intros [] s3 Hs3. set (p' := add_info _ _ p) in *.
  assert (Hp3 : at_place s3 (FR Red wr p' :: FR Black wl iw :: K) x).
  { eapply at_place_change; [exact Hp|exact Hs3|exact Hsp|cbn [plug plug1]; apply elems_replace; app_eq|].
    cbn [plug plug1] in Hm |- *. eapply meta_replace; [|..|exact Hm]; [app_eq|].
    apply meta_plug in Hm as [Hm _]. unfold p'. meta_arith Hm. }
  apply wp_bind, (wp_fld_parent _ _ _ _ Hp3). cbn [par finfo].
  apply (wp_fld_node _ _ _ (FR Black wl iw :: K) _ _ _ _ (proj1 Hp3)). exists p'. split; [done|]. split; [done|].
  by econstructor.
Qed.

Definition black_sibling_right (x w : ptr) : M ptr :=
  wl ← fld left w;
  wlc ← fld color wl;
  wr ← fld right w;
  wrc ← fld color wr;
  if bool_decide (wlc = Black) && bool_decide (wrc = Black) then
    upd w (with_color Red);;
    fld parent x
  else
    w ← (if decide (wlc = Black) then
           upd wr (with_color Black);;
           upd w (with_color Red);;
           RB.leftRotate w;;
           p ← fld parent x;
           fld left p
         else mret w);
    p ← fld parent x;
    pc ← fld color p;
    upd w (with_color pc);;
    upd p (with_color Black);;
    wl ← fld left w;
    upd wl (with_color Black);;
    RB.rightRotate p;;
    get_root.

Lemma fix_del_black_right s K cf p iw wl wr x n cl cr :
  at_place s (FR cf (T Black wl iw wr) p :: K) x -> rbt Black n x -> rbt cl n wl -> rbt cr n wr ->
  rbc K cf (above cf n) ->
  wp (black_sibling_right (root_of x) (addr iw)) s (fun x' s' =>
    exists k, (k <= match cf with Red => 1 | Black => S (List.length K) end)%nat /\ deleting k x' s').
Proof.
  intros Hp Hx Hl Hr HK. pose proof Hp as (Hs & Hsp & He & Hm). unfold black_sibling_right.
  apply wp_bind, (wp_fld_node _ _ _ (FL cf p x :: K) _ _ _ _ Hs). cbn [left node_of].
  apply wp_bind, (wp_fld_color F sp _ (FL Black iw wr :: FL cf p x :: K)); [exact Hs|].
  apply wp_bind, (wp_fld_node _ _ _ (FL cf p x :: K) _ _ _ _ Hs). cbn [right node_of].
  apply wp_bind, (wp_fld_color F sp _ (FR Black wl iw :: FL cf p x :: K)); [exact Hs|].
  rewrite (rbt_color _ _ _ Hl), (rbt_color _ _ _ Hr). destruct (bool_decide (cl = Black) && bool_decide (cr = Black)) eqn:Hcc.
  - apply andb_true_iff in Hcc as [->%bool_decide_eq_true ->%bool_decide_eq_true].
    apply wp_bind. eapply (wp_upd_node _ _ _ (FL cf p x :: K) _ _ _ _ Hs _ Red iw); [done|done|]. intros s1 Hs1.
    assert (Hp1 : at_place s1 (FR cf (T Red wl iw wr) p :: K) x).
    { eapply at_place_change; [exact Hp|exact Hs1|exact Hsp|cbn [plug plug1]; by apply elems_replace|].
      cbn [plug plug1] in Hm |- *. eapply meta_replace; [|..|exact Hm]; [done|]. by apply meta_plug in Hm as [Hm _]. }
    apply (wp_fld_parent _ _ _ _ Hp1). cbn [par finfo]. eexists. split; [|exists K, (T cf (T Red wl iw wr) p x), (Nat.pred (above cf n));
      split; [done|]; split; [destruct Hp1 as (? & _ & ? & ?); by split_and!|]; split; [|split; [by apply plug_ne|reflexivity]]].
    + by destruct cf; simpl; lia.
    + destruct cf; simpl in HK; (split; [by eapply rbc_weaken|]).
      * left. split; [done|]. simpl. eauto with rb.
      * right. split; [done|]. simpl. eauto with rb.
  - apply wp_bind. destruct (decide (cl = Black)) as [-> | Hrb].
    + assert (cr = Red) as -> by (by destruct cr).
      destruct wr as [|c1 rl ir rr]; [inversion Hr|]. inversion Hr; subst c1.
      apply wp_bind. eapply (wp_upd_node _ _ _ (FR Black wl iw :: FL cf p x :: K) _ _ _ _ Hs _ Black ir); [done|done|]. intros s1 Hs1.
      apply wp_bind. eapply (wp_upd_node _ _ _ (FL cf p x :: K) _ _ _ _ Hs1 _ Red iw); [done|done|]. intros s2 Hs2.
      apply wp_bind. eapply wp_mono; [by apply (wp_leftRotate _ _ _ (FL cf p x :: K) Red wl iw Black rl ir rr Hs2)|].
      intros [] s3 Hs3. set (ir' := add_info _ _ ir) in *.
      assert (Hp3 : at_place s3 (FR cf (T Black (T Red wl iw rl) ir' rr) p :: K) x).
      { eapply at_place_change; [exact Hp|exact Hs3|exact Hsp|cbn [plug plug1]; apply elems_replace; app_eq|].
        cbn [plug plug1] in Hm |- *. eapply meta_replace; [|..|exact Hm]; [app_eq|].
        apply meta_plug in Hm as [Hm _]. unfold ir'. meta_arith Hm. }
      apply wp_bind, (wp_fld_parent _ _ _ _ Hp3). cbn [par finfo].
      apply (wp_fld_node _ _ _ K _ _ _ _ (proj1 Hp3)). cbn [left node_of root_of].
      change (addr ir) with (addr ir').
      eapply wp_mono; [eapply (fix_del_outer_right s3 K cf p ir' (T Red wl iw rl) rr x n Black); try done; by constructor|].
      intros x' s' Hd. exists 1%nat. split; [destruct cf; lia|done].
    + apply wp_ret. assert (cl = Red) as -> by (by destruct cl).
      eapply wp_mono; [by eapply (fix_del_outer_right s K cf p iw wl wr x n cr)|].
      intros x' s' Hd. exists 1%nat. split; [destruct cf; lia|done].
Qed.

(** The body is its two halves. *)
Lemma fixDelete_step_eq x :
  RB.fixDelete_step x =
  (p ← fld parent x; pl ← fld left p;
   if x =? pl then
     w ← fld right p; wc ← fld color w;
     w ← (if decide (wc = Red) then
            upd w (with_color Black);; upd p (with_color Red);; RB.leftRotate p;; p ← fld parent x; fld right p
          else mret w);
     black_sibling_left x w
   else
     w ← fld left p; wc ← fld color w;
     w ← (if decide (wc = Red) then
            upd w (with_color Black);; upd p (with_color Red);; RB.rightRotate p;; p ← fld parent x; fld left p
          else mret w);
     black_sibling_right x w).
Proof. done. Qed.

Lemma fix_delete_left s K cf p w x n :
  at_place s (FL cf p w :: K) x -> rbt Black n x -> rbc (FL cf p w :: K) Black (S n) ->
  wp (RB.fixDelete_step (root_of x)) s (fun x' s' => exists k, (k < 2 + List.length K)%nat /\ deleting k x' s').
Proof.
  intros Hp Hx HK. pose proof Hp as (Hs & Hsp & He & Hm). rewrite fixDelete_step_eq.
  apply wp_bind, (wp_fld_parent _ _ _ _ Hp). cbn [par finfo].
  apply wp_bind, (wp_fld_node _ _ _ K _ _ _ _ Hs). cbn [left node_of]. rewrite Z.eqb_refl.
  apply wp_bind, (wp_fld_node _ _ _ K _ _ _ _ Hs). cbn [right node_of].
  apply wp_bind, (wp_fld_color F sp _ (FR cf x p :: K)); [exact Hs|]. apply wp_bind.
  assert (Hw : exists cw, rbt cw (S n) w /\ rbc K cf (above cf n) /\ (cf = Red -> cw = Black))
    by (inversion HK; subst; eexists; by split_and!).
  destruct Hw as (cw & Hw & HK' & Hred). rewrite (rbt_color _ _ _ Hw).
  destruct w as [|c wl iw wr]; [inversion Hw|]. destruct (decide (cw = Red)) as [-> | Hcw].
  - destruct cf; [|by specialize (Hred eq_refl)]. inversion Hw as [|? ? ? ? Hwl Hwr|]; subst.
    eapply wp_mono; [by apply (fix_del_red_left s K p iw wl wr x n Hp)|].
    intros w' s' (iw' & -> & Hp' & HK2). inversion Hwl; subst.
    eapply wp_mono; [by eapply (fix_del_black_left s' (FL Black iw' wr :: K) Red p _ _ _ x n)|].
    intros x' s'' (k & Hk & Hd). exists k. split; [lia|done].
  - apply wp_ret. assert (cw = Black) as -> by (by destruct cw). inversion Hw; subst.
    eapply wp_mono; [by eapply (fix_del_black_left s K cf p iw wl wr x n)|].
    intros x' s' (k & Hk & Hd). exists k. split; [destruct cf; lia|done].
Qed.

Lemma fix_delete_right s K cf p w x n :
  at_place s (FR cf w p :: K) x -> rbt Black n x -> rbc (FR cf w p :: K) Black (S n) ->
  wp (RB.fixDelete_step (root_of x)) s (fun x' s' => exists k, (k < 2 + List.length K)%nat /\ deleting k x' s').
Proof.
  intros Hp Hx HK. pose proof Hp as (Hs & Hsp & He & Hm). rewrite fixDelete_step_eq.
  assert (Hw : exists cw, rbt cw (S n) w /\ rbc K cf (above cf n) /\ (cf = Red -> cw = Black))
    by (inversion HK; subst; eexists; by split_and!).
  destruct Hw as (cw & Hw & HK' & Hred). destruct w as [|c wl iw wr]; [inversion Hw|].
  apply wp_bind, (wp_fld_parent _ _ _ _ Hp). cbn [par finfo].
  apply wp_bind, (wp_fld_node _ _ _ K _ _ _ _ Hs). cbn [left node_of].
  assert (Hne : root_of x <> addr iw).
  { destruct x as [|cx lx ix rx].
    - intros E0. apply (root_of_ne F sp s (FL cf p E :: K) (T c wl iw wr)); [done|exact Hs|]. by symmetry.
    - intros E0. by apply (sibling_left F sp s cf (T c wl iw wr) p K (T cx lx ix rx) ltac:(done) Hs). }
  cbn [root_of]. destruct (Z.eqb_spec (root_of x) (addr iw)); [done|].
  apply wp_bind, (wp_fld_node _ _ _ K _ _ _ _ Hs). cbn [left node_of].
  apply wp_bind, (wp_fld_color F sp _ (FL cf p x :: K)); [exact Hs|]. apply wp_bind.
  rewrite (rbt_color _ _ _ Hw). destruct (decide (cw = Red)) as [-> | Hcw].
  - destruct cf; [|by specialize (Hred eq_refl)]. inversion Hw as [|? ? ? ? Hwl Hwr|]; subst.
    eapply wp_mono; [by apply (fix_del_red_right s K p iw wl wr x n Hp)|].
    intros w' s' (iw' & -> & Hp' & HK2). inversion Hwr; subst.
    eapply wp_mono; [by eapply (fix_del_black_right s' (FR Black wl iw :: K) Red iw' _ _ _ x n)|].
    intros x' s'' (k & Hk & Hd). exists k. split; [lia|done].
  - apply wp_ret. assert (cw = Black) as -> by (by destruct cw). inversion Hw; subst.
    eapply wp_mono; [by eapply (fix_del_black_right s K cf p iw wl wr x n)|].
    intros x' s' (k & Hk & Hd). exists k. split; [destruct cf; lia|done].
Qed.

(** The loop and the last assignment restore the red-black invariant. *)
Lemma wp_fixDelete s K t n :
  at_place s K t -> short n K t -> plug K t <> E ->
  wp (x ← RB.fixDelete (root_of t); upd x (with_color Black);; RB.resetSentinel) s (fun _ s' => piece_tree F s' es).
Proof.
  intros Hp Hsh Hne. apply wp_bind. unfold RB.fixDelete, while_. apply wp_bind, wp_gets.
  eapply (wp_loop deleting _ _ _ _ _ _ (match tcolor t with Red => 0 | Black => S (List.length K) end)).
  - clear s K t n Hp Hsh Hne. intros k x s (K & t & n & -> & Hp & Hsh & Hne & ->).
    pose proof Hp as (Hs & Hsp & He & Hm). apply wp_bind, wp_get_root.
    assert (Hexit : tcolor t = Red \/ K = [] ->
      wp (upd (root_of t) (with_color Black);; RB.resetSentinel) s (fun _ s' => piece_tree F s' es)).
    { intros Hex. pose proof (short_red_or_root _ _ _ Hsh Hex) as Hrb. apply wp_bind.
      assert (Hreset : forall s', tree_at F sp s' (plug K (blacken t)) -> wp RB.resetSentinel s' (fun _ s'' => piece_tree F s'' es)).
      { intros s' Hs'. unfold RB.resetSentinel. eapply wp_upd; [by apply (tree_at_sent _ _ _ _ Hs')|]. exists (plug K (blacken t)).
        split; [by eapply tree_at_sentinel; [exact Hs'|]|]. split; [done|]. split.
        - eapply meta_replace; [|..|exact Hm]; [by destruct t|]. apply meta_plug in Hm as [Hm _]. by destruct t.
        - rewrite <- He. apply elems_replace. by destruct t. }
      destruct t as [|c l i r].
      - destruct Hsh as [_ [[_ _]|[? _]]]; [|done]. destruct Hs as [Hroot Hat]. pose proof Hat as (_ & _ & Hsent & _).
        eapply wp_upd; [exact Hsent|]. apply Hreset. cbn [blacken]. rewrite insert_id by done. by destruct s.
      - eapply (wp_upd_node _ _ _ K _ _ _ _ Hs _ Black i); [done|done|]. exact Hreset. }
    destruct (Z.eqb_spec (root_of t) (root s)) as [E0|E0].
    { apply wp_ret, Hexit. right. destruct t as [|c l i r]; [|by apply (root_above F sp s K (T c l i r))].
      exfalso. apply (root_of_ne F sp s [] (plug K E)); [done|done|]. destruct Hs as [Hroot _]. by rewrite <- Hroot, <- E0. }
    apply wp_bind, (wp_fld_color _ _ _ _ _ _ Hs), wp_ret.
    destruct (bool_decide_reflect (tcolor t = Black)) as [Hb|Hb]; [|apply Hexit; left; by destruct (tcolor t)].
    destruct Hsh as [HK [[_ Ht]|[Hc _]]]; [|congruence]. rewrite Hb.
    destruct K as [|[cf p w|cf w p] K].
    + destruct Hs as [Hroot _]. done.
    + by eapply fix_delete_left.
    + by eapply fix_delete_right.
  - by exists K, t, n.
  - pose proof (enough_fuel _ _ _ _ _ (proj1 Hp)). destruct (tcolor t); lia.
Qed.
End fix_delete.
