(* ===== verification/RbDelete.v ===== *)
(** * Deletion from the piece tree

    [rbDelete] of RbTree.v takes one node out.  The node [y] that leaves its place has at
    most one child, which moves up; when that is not the node [z] to delete, [y] takes the
    place of [z].  Objects that left the tree count as other objects from then on. *)

From S2P Require Import Prelude Store RbTree RbRep RbMeta RbInsert RbWalk RbFixDelete.

(** ** Taking a node out *)

(** A node with one child, or none, and that child. *)
Inductive single (x : tree) : NodeColor -> info -> tree -> Prop :=
  | single_left c i : single x c i (T c x i E)
  | single_right c i : single x c i (T c E i x).

Lemma single_elems x c i t : single x c i t ->
  exists a b, elems t = a ++ (addr i, pc i) :: b /\ elems x = a ++ b.
Proof. intros []; [exists (elems x), []|exists [], (elems x)]; simpl; by rewrite ?app_nil_r. Qed.

Lemma single_addrs x c i t : single x c i t ->
  root_of t = addr i /\ forall a, a ∈ addrs t <-> a = addr i \/ a ∈ addrs x.
Proof. intros []; (split; [done|]); intros a; rewrite addrs_T; set_solver. Qed.

Lemma single_NoDup x c i t : single x c i t -> NoDup (addrs t) -> NoDup (addrs x) /\ addr i ∉ addrs x.
Proof.
  intros []; rewrite addrs_T.
  - intros (H1 & H2 & _)%NoDup_app. split; [done|]. intros H%H2. set_solver.
  - by intros [H1 H2]%NoDup_cons.
Qed.

Lemma single_rep h p x c i t : single x c i t -> rep h p t ->
  rep h (addr i) x /\ exists n, h !! addr i = Some n /\ piece n = Some (pc i) /\ parent n = p /\ color n = c.
Proof. intros []; simpl; intros (Hi & H1 & H2); (split; [done|]); by eexists. Qed.

Definition set_parent_of (p : ptr) (x : tree) (sp : ptr) : ptr := match x with E => p | _ => sp end.

(** The objects that [heap s] differs from a tree in: the parent of one subtree is [p]. *)
Definition hung (p : ptr) (x : tree) (s s0 : store) : Prop :=
  root s = root s0 /\ forall a, heap s !! a = reparent p x (heap s0) !! a.

Lemma reparent_id F sp s K x a : tree_at F sp s (plug K x) -> reparent (par K) x (heap s) !! a = heap s !! a.
Proof.
  intros Hs. pose proof (place_facts _ _ _ _ _ (proj2 Hs)) as (Hr & _).
  destruct x as [|c l i r]; [done|]. destruct Hr as (Hi & _). simpl.
  destruct (decide (a = addr i)) as [-> | Hne]; [by rewrite lookup_alter_eq, Hi|by rewrite lookup_alter_ne].
Qed.

Lemma hung_same F sp s s0 K x : hung (par K) x s s0 -> tree_at F sp s0 (plug K x) -> tree_at F sp s (plug K x).
Proof.
  intros [Hroot Hh] Hs. assert (heap s = heap s0) as E0.
  { apply map_eq. intros a. rewrite Hh. by apply (reparent_id _ _ _ _ _ _ Hs). }
  destruct s as [h r], s0 as [h0 r0]. simpl in *. by subst.
Qed.

Lemma hung_refl F sp s K x : tree_at F sp s (plug K x) -> hung (par K) x s s.
Proof. intros Hs. split; [done|]. intros a. by rewrite (reparent_id _ _ _ _ _ _ Hs). Qed.

Section splice.
Context (F : gmap ptr TreeNode) (sp : ptr) (s : store) (K : ctx) (f : frame) (c : NodeColor) (i : info) (x t0 : tree).
Hypothesis Hx : single x c i t0.
Hypothesis Hs : tree_at F sp s (plug (f :: K) t0).

Let linked := mkStore (relink (f :: K) (root_of x) (heap s)) (root s).

(** [if (y === y.parent.left) { y.parent.left = x; } else { y.parent.right = x; }] *)
Lemma wp_link (Q : unit -> store -> Prop) :
  Q tt linked ->
  wp (yp ← fld parent (addr i); ypl ← fld left yp;
      if addr i =? ypl then upd yp (with_left (root_of x)) else upd yp (with_right (root_of x))) s Q.
Proof.
  intros HQ. pose proof (place_facts _ _ _ _ _ (proj2 Hs)) as (Hr & Hk & _).
  destruct (single_rep _ _ _ _ _ _ Hx Hr) as (_ & n & Hn & _ & Hp & _).
  apply wp_bind. eapply wp_fld; [exact Hn|]. rewrite Hp. apply wp_bind.
  assert (Hne : t0 <> E) by (by destruct Hx). pose proof (proj1 (single_addrs _ _ _ _ Hx)) as Hroot.
  unfold linked in HQ. destruct f as [cf p r|cf l p]; destruct Hk as (Hi & _); cbn [par finfo];
    (eapply wp_fld; [exact Hi|]); cbn [left node_of].
  - rewrite Hroot, Z.eqb_refl. eapply wp_upd; [exact Hi|]. by rewrite (insert_as_alter _ _ _ _ Hi).
  - pose proof (sibling_left _ _ _ _ _ _ _ _ Hne Hs) as Hsib. rewrite Hroot in Hsib.
    destruct (Z.eqb_spec (addr i) (root_of l)) as [E0|_]; [by symmetry in E0|].
    eapply wp_upd; [exact Hi|]. by rewrite (insert_as_alter _ _ _ _ Hi).
Qed.

(** [i] is no more part of the tree after its child was linked to its parent. *)
Lemma splice_heap :
  heap_at F sp (reparent (par (f :: K)) x (heap linked)) (plug (f :: K) x) /\
  (exists n, heap s !! addr i = Some n /\ piece n = Some (pc i) /\ parent n = par (f :: K) /\ color n = c /\
    heap linked !! addr i = Some n) /\
  addr i ∉ SENTINEL :: addrs (plug (f :: K) x) /\ addr i ∉ addrs x /\ root s = root_of (plug (f :: K) x).
Proof.
  destruct Hs as [Hroot Hat]. pose proof (place_facts _ _ _ _ _ Hat) as (Hr & Hk & Hn & Hnk & Hst & Hsk & Hsep).
  destruct (single_rep _ _ _ _ _ _ Hx Hr) as (Hrx & n & Hi & Hpc & Hp & Hc).
  destruct (single_addrs _ _ _ _ Hx) as [_ Ha]. destruct (single_NoDup _ _ _ _ Hx Hn) as [Hnx Hix].
  assert (Hik : addr i ∉ ctx_addrs (f :: K)) by (apply Hsep, Ha; by left).
  assert (Hxk : forall a, a ∈ addrs x -> a ∉ ctx_addrs (f :: K)) by (intros a Hax; apply Hsep, Ha; by right).
  split; [|split; [|split; [|split]]].
  - eapply (heap_at_change F sp (heap s) _ (f :: K) t0 x); [exact Hat|done|..].
    + intros a Hax. left. apply Ha. by right.
    + eapply rep_reparent; [|done]. eapply rep_frame; [exact Hrx|]. intros a Hax. by apply lookup_relink_ne, Hxk.
    + intros a Hak. apply lookup_reparent_ne. intros Hax. by apply (Hxk a).
    + intros a H1 H2 H3. rewrite lookup_reparent_ne by done. by apply lookup_relink_ne.
  - exists n. split_and!; try done. cbn [heap linked]. by rewrite lookup_relink_ne.
  - rewrite elem_of_cons, addrs_plug, !elem_of_app. unfold ctx_addrs in Hik. rewrite elem_of_app in Hik.
    intros [E0|[?|[?|?]]]; [apply Hst, Ha; by left|tauto..].
  - done.
  - rewrite Hroot, !root_of_plug. destruct (last (f :: K)) eqn:El; [done|]. by apply last_None in El.
Qed.

(** [x.parent = p]. *)
Lemma wp_set_parent p (Q : unit -> store -> Prop) :
  (forall s0 s' n, heap s !! addr i = Some n ->
     tree_at (<[addr i := n]> F) (set_parent_of p x sp) s0 (plug (f :: K) x) -> hung p x s' s0 -> Q tt s') ->
  wp (upd (root_of x) (with_parent p)) linked Q.
Proof.
  intros HQ. destruct splice_heap as (Hat & (n & Hn & _ & _ & _ & Hl) & Hi & Hix & Hroot).
  apply not_elem_of_cons in Hi as [His Hi].
  assert (Hg : heap_at (<[addr i := n]> F) sp (reparent (par (f :: K)) x (heap linked)) (plug (f :: K) x)).
  { apply heap_at_garbage; [done..|]. by rewrite lookup_reparent_ne. }
  set (h0 := reparent (par (f :: K)) x (heap linked)) in *. pose proof Hg as (Hr0 & _ & Hsent & _).
  destruct x as [|cx lx ix rx] eqn:Ex; cbn [root_of].
  - eapply wp_upd; [exact Hsent|]. eapply (HQ (mkStore _ (root s)) _ n Hn); [|by split].
    apply (tree_at_sentinel _ sp p (mkStore h0 (root s))); [by split|done].
  - apply rep_plug in Hr0 as [(Hx0 & _) _]. unfold h0 in Hx0. cbn [reparent root_of] in Hx0. rewrite lookup_alter_eq in Hx0.
    destruct (heap linked !! addr ix) as [nx|] eqn:Enx; [|done].
    eapply wp_upd; [exact Enx|]. apply (HQ (mkStore h0 (root s)) _ n Hn); [by split|].
    split; [done|]. intros a. cbn [heap]. unfold h0. cbn [reparent].
    destruct (decide (a = addr ix)) as [-> | Hne].
    + rewrite lookup_insert_eq, !lookup_alter_eq. by rewrite Enx.
    + by rewrite lookup_insert_ne, !lookup_alter_ne.
Qed.
End splice.

(** ** Recomputing from a place that may be empty *)

(** The metadata above an empty place can be left unchanged when its sibling is empty too,
    as the sentinel is then its parent's left and right child. *)
Definition recomputed (d e : Z) (K : ctx) (x : tree) (d0 e0 : Z) : Prop :=
  (d0 = d /\ e0 = e) \/ (d0 = 0 /\ e0 = 0 /\ x = E /\ exists c i r K', K = FL c i r :: K').

Lemma root_of_in t : t <> E -> root_of t ∈ addrs t.
Proof. destruct t as [|c l i r]; [done|]. rewrite addrs_T. set_solver. Qed.

Lemma place_not_root F sp s K x : K <> [] -> tree_at F sp s (plug K x) -> root_of x <> root s.
Proof.
  intros HK Hs E0. destruct x as [|c l i r]; [|by apply (root_above F sp s K (T c l i r) ltac:(done) Hs) in E0].
  destruct K as [|f K]; [done|]. apply (root_of_ne F sp s [] (plug (f :: K) E)); [|done|].
  - simpl. apply plug_ne. by destruct f.
  - destruct Hs as [Hr _]. by rewrite <- Hr.
Qed.

Lemma wp_recompute_at F sp s K x d e :
  K <> [] -> tree_at F sp s (plug K x) -> (x = E -> sp = par K) ->
  meta_ctx K (spine_size x - d) (spine_lf x - e) ->
  wp (RB.recomputeTreeMetadata (root_of x)) s (fun _ s' => exists d0 e0,
    tree_at F sp s' (plug (upd_ctx d0 e0 K) x) /\ recomputed d e K x d0 e0).
Proof.
  intros HK Hs Hsp Hk. destruct x as [|cx lx ix rx].
  2: { eapply wp_mono; [by apply (wp_recompute_spine F sp s K (T cx lx ix rx) d e)|].
       intros a s' Hs'. exists d, e. split; [done|by left]. }
  specialize (Hsp eq_refl). rewrite recompute_eq. apply wp_bind, wp_get_root.
  pose proof (place_not_root _ _ _ _ _ HK Hs) as Hroot. destruct K as [|f K]; [done|]. clear HK.
  assert (Hf : plug1 f E <> E) by (by destruct f). pose proof (plug_ne K _ Hf) as Hne.
  cbn [root_of]. destruct (Z.eqb_spec SENTINEL (root s)) as [|_]; [done|]. apply wp_bind. unfold while_. apply wp_bind, wp_gets.
  assert (Hpar : forall Q : ptr -> store -> Prop, Q (addr (finfo f)) s -> wp (fld parent SENTINEL) s Q).
  { intros Q HQ. by apply (wp_fld_parent_at F sp s (f :: K) E). }
  assert (Hup : forall u, (u = plug1 f E) ->
    wp (loop (size (heap s)) is_right (fld parent) (addr (finfo f))) s (fun x s' => s' = s /\ x = root_of (climb K u).2)).
  { intros u ->. pose proof (enough_fuel F sp s K _ Hs) as Hfuel.
    replace (addr (finfo f)) with (root_of (plug1 f E)) by (by destruct f). apply (wp_climb F sp); [done|exact Hs|lia]. }
  cbn [loop]. apply wp_bind. unfold is_right at 1. apply wp_bind, wp_get_root.
  destruct (Z.eqb_spec SENTINEL (root s)) as [|_]; [done|]. apply wp_bind, Hpar. apply wp_bind.
  assert (Hgo : forall b, wp (if b : bool then x' ← fld parent SENTINEL; loop (size (heap s)) is_right (fld parent) x' else mret SENTINEL) s
    (fun x s' => s' = s /\ x = if b then root_of (climb K (plug1 f E)).2 else SENTINEL)).
  { intros []; [|by apply wp_ret]. apply wp_bind, Hpar. by apply Hup. }
  destruct f as [c i r|c l i]; cbn [plug plug1 finfo] in *; apply (wp_fld_node F sp s K _ _ _ _ Hs), wp_ret; cbn [right node_of].
  - eapply wp_mono; [apply Hgo|]. intros x s' [-> ->]. destruct (Z.eqb_spec SENTINEL (root_of r)) as [E0|E0].
    + assert (r = E) as ->.
      { destruct r as [|cr lr ir rr]; [done|]. by apply (root_of_ne F sp s (FR c E i :: K)) in Hs. }
      eapply wp_mono; [apply (wp_recompute_tail F sp s K (T c E i E)); [done|done|]|].
      { intros E1. by destruct (climb_ne K (T c E i E)). }
      intros a s' Hs'. exists 0, 0. rewrite upd_ctx_0. split; [|right; split_and!; eauto].
      destruct Hk as (H1 & H2 & _ & H4). destruct (delta_at_spine 0 0 K (T c E i E)) as [Hd|[_ Hd]].
      * cbn [spine_size spine_lf]. rewrite H1, H2. unfold tsize, tlf in H4. simpl in *.
        rewrite !Z.sub_0_r, !Z.add_0_r in *. done.
      * rewrite Hd in Hs'. cbn [fst snd] in Hs'. by rewrite upd_ctx_0 in Hs'.
      * by rewrite Hd in Hs'.
    + eapply wp_mono; [apply (wp_recompute_tail F sp s (FL c i r :: K) E); [done|done|done]|].
      intros a s' Hs'. exists d, e. split; [|by left].
      destruct (delta_at_spine d e _ _ Hk) as [Hd|[H1 H2]]; [by rewrite Hd in Hs'|rewrite H1; by rewrite H2 in Hs'].
  - eapply wp_mono; [apply Hgo|]. intros x s' [-> ->]. cbn [root_of]. rewrite Z.eqb_refl.
    eapply wp_mono; [apply (wp_recompute_tail F sp s (FR c l i :: K) E); [done|done|]|].
    { intros E1. by destruct (climb_ne K (T c l i E)). }
    intros a s' Hs'. exists d, e. split; [|by left].
    destruct (delta_at_spine d e _ _ Hk) as [Hd|[H1 H2]]; [by rewrite Hd in Hs'|rewrite H1; by rewrite H2 in Hs'].
Qed.

(** What was left unchanged is corrected by comparing with the left child itself. *)
Lemma wp_recompute_left F sp s f K x d e :
  tree_at F sp s (plug (f :: K) x) -> (x = E -> sp = par (f :: K)) ->
  meta (plug (upd_ctx d e (f :: K)) x) -> (d = 0 /\ e = 0) \/ (exists c i r, f = FL c i r) ->
  wp (RB.recompute_left (root_of x)) s (fun _ s' => tree_at F sp s' (plug (upd_ctx d e (f :: K)) x)).
Proof.
  intros Hs Hsp Hm Hf. unfold RB.recompute_left. apply wp_bind, (wp_fld_parent_at F sp s (f :: K) x); [done..|].
  pose proof Hs as Hp. apply meta_plug in Hm as [Hmx Hm]. destruct (spine_meta x Hmx) as [Ez Ef].
  assert (Hsame : d = 0 -> e = 0 -> tree_at F sp s (plug (upd_ctx d e (f :: K)) x)) by (intros -> ->; by rewrite upd_ctx_0).
  destruct f as [c i r|c l i]; cbn [par finfo plug plug1] in *; apply wp_bind, (wp_fld_node _ _ _ K _ _ _ _ Hs); cbn [left node_of].
  - rewrite Z.eqb_refl. destruct Hm as (H1 & H2 & _). cbn [add_info sl lf] in H1, H2.
    apply wp_bind, (wp_calculateSize F sp s (FL c i r :: K) x); [exact Hp|].
    apply wp_bind, (wp_calculateLF F sp s (FL c i r :: K) x); [exact Hp|].
    apply wp_bind. eapply wp_deref; [by apply (tree_lookup _ _ _ K _ _ _ _ Hs)|].
    cbn [size_left lf_left node_of]. rewrite Ez, Ef, <- H1, <- H2. apply wp_when; intros Hz.
    + apply wp_bind. eapply (wp_upd_node _ _ _ K _ _ _ _ Hs _ c (mkInfo (addr i) (pc i) (sl i + d) (lf i))); [done|done|].
      intros s1 Hs1. change (addr i) with (addr (mkInfo (addr i) (pc i) (sl i + d) (lf i))) at 1. apply wp_bind.
      eapply (wp_upd_node _ _ _ K _ _ _ _ Hs1 _ c (add_info d e i)); [done|done|]. intros s2 Hs2.
      replace (sl i + d - sl i) with d by lia. replace (lf i + e - lf i) with e by lia.
      by apply (wp_updateTreeMetadata F sp s2 d e K (T c x (add_info d e i) r)).
    + apply orb_false_iff in Hz as [Ha%negb_false_iff%Z.eqb_eq Hb%negb_false_iff%Z.eqb_eq]. apply Hsame; lia.
  - destruct Hf as [[-> ->]|(? & ? & ? & [=])]. specialize (Hsame eq_refl eq_refl).
    destruct (Z.eqb_spec (root_of l) (root_of x)) as [E0|_]; [|done].
    destruct x as [|cx lx ix rx]; [|by apply (sibling_left F sp s c l i K (T cx lx ix rx)) in E0].
    assert (l = E) as ->.
    { destruct l as [|cl ll il rl]; [done|]. by apply (root_of_ne F sp s (FL c i E :: K) (T cl ll il rl)) in Hs. }
    apply wp_bind, (wp_calculateSize F sp s (FR c E i :: K) E); [exact Hp|].
    apply wp_bind, (wp_calculateLF F sp s (FR c E i :: K) E); [exact Hp|].
    apply wp_bind. eapply wp_deref; [by apply (tree_lookup _ _ _ K _ _ _ _ Hs)|].
    destruct Hm as (H1 & H2 & _). cbn [size_left lf_left node_of]. rewrite H1, H2. done.
Qed.

(** ** The end of the deletion *)

Lemma rbc_upd_ctx d e K c n : rbc K c n -> rbc (upd_ctx d e K) c n.
Proof. induction 1; simpl; eauto with rb. Qed.

#[export] Hint Resolve rbc_upd_ctx : rb.

Lemma rbc_change_info K1 c l i i' K d e d' e' c0 n :
  rbc (K1 ++ FR c l i :: K) c0 n -> rbc (upd_ctx d e K1 ++ FR c l i' :: upd_ctx d' e' K) c0 n.
Proof.
  revert c0 n. induction K1 as [|f K1 IH]; intros c0 n H; simpl in *.
  - inversion H; subst; eauto with rb.
  - inversion H; subst; simpl; eauto with rb.
Qed.

(** What a node of this color leaves when its only child [x] takes its place. *)
Definition lost (yc : NodeColor) (K : ctx) (x : tree) : Prop :=
  match yc with Red => x = E /\ rbc K Black 0 | Black => short 0 K x end.

Lemma lost_single x c i t K c0 n : single x c i t -> rbt c0 n t -> rbc K c0 n -> lost c K x.
Proof.
  destruct 1; inversion 1; subst; intros HK; simpl; (repeat match goal with H : rbt _ _ E |- _ => inversion H; clear H; subst end);
    match goal with H : rbt _ 0 x |- _ => inversion H; subst end; try (by split; [|eapply rbc_weaken]);
    (split; [done|]); first [by left; split; [|constructor] | right; split; [done|]; simpl; eauto with rb].
Qed.

Lemma lost_upd_ctx yc d e K x : lost yc K x -> lost yc (upd_ctx d e K) x.
Proof. destruct yc; simpl; [intros [HK ?]; split; [by apply rbc_upd_ctx|done]|intros [-> ?]; split; [done|by apply rbc_upd_ctx]]. Qed.

Lemma lost_change_info yc K1 c l i i' K d e d' e' x :
  lost yc (K1 ++ FR c l i :: K) x -> lost yc (upd_ctx d e K1 ++ FR c l i' :: upd_ctx d' e' K) x.
Proof.
  destruct yc; simpl; [intros [HK ?]; split; [by eapply rbc_change_info|done]|intros [-> ?]; split; [done|by eapply rbc_change_info]].
Qed.

Definition finish (z x : ptr) (yc : NodeColor) : M unit :=
  RB.detach z;;
  RB.recompute_left x;;
  xp ← fld parent x;
  RB.recomputeTreeMetadata xp;;
  if decide (yc = Red) then RB.resetSentinel
  else
    x ← RB.fixDelete x;
    upd x (with_color Black);;
    RB.resetSentinel.

(** The object [z] that was deleted: it holds its piece and points nowhere. *)
Definition deleted (F : gmap ptr TreeNode) (z : ptr) (q : Piece) (es : list (ptr * Piece)) (s' : store) : Prop :=
  exists n, piece n = Some q /\ parent n = null /\ left n = null /\ right n = null /\ piece_tree (<[z := n]> F) s' es.

Lemma wp_finish F sp s f K x d e (z : ptr) nz q yc es :
  tree_at (<[z := nz]> F) sp s (plug (f :: K) x) -> piece nz = Some q -> (x = E -> sp = par (f :: K)) ->
  meta (plug (upd_ctx d e (f :: K)) x) -> (d = 0 /\ e = 0) \/ (exists c i r, f = FL c i r) ->
  elems (plug (f :: K) x) = es -> lost yc (f :: K) x ->
  wp (finish z (root_of x) yc) s (fun _ s' => deleted F z q es s').
Proof.
  intros Hs Hq Hsp Hm Hd He Hl. unfold finish. apply wp_bind. eapply wp_mono; [by apply (wp_detach _ _ _ _ _ _ Hs)|].
  intros [] s1 Hs1. apply wp_bind. eapply wp_mono; [by apply (wp_recompute_left _ _ _ _ _ _ d e Hs1)|]. intros [] s2 Hs2.
  set (F' := <[z := with_right _ _]> F) in *. apply (lost_upd_ctx _ d e) in Hl.
  assert (He' : elems (plug (upd_ctx d e (f :: K)) x) = es) by (by rewrite elems_plug, before_upd_ctx, after_upd_ctx, <- elems_plug).
  assert (Hsp' : x = E -> sp = par (upd_ctx d e (f :: K))) by (by rewrite par_upd_ctx).
  assert (Hf : exists f' K', upd_ctx d e (f :: K) = f' :: K') by (destruct f; simpl; by eexists _, _).
  destruct Hf as (f' & K' & EK). rewrite EK in *. clear EK.
  assert (Hdone : forall s', tree_at F' sp s' (plug (f' :: K') x) ->
    wp (if decide (yc = Red) then RB.resetSentinel
        else x ← RB.fixDelete (root_of x); upd x (with_color Black);; RB.resetSentinel) s' (fun _ s'' => deleted F z q es s'')).
  { intros s' Hs'. assert (Hfin : forall s'', piece_tree F' s'' es -> deleted F z q es s'') by (intros s'' H; exists (with_right null (with_left null (with_parent null nz))); by split_and!).
    destruct (decide (yc = Red)) as [-> | Hyc].
    - destruct Hl as [-> HK]. unfold RB.resetSentinel. eapply wp_upd; [by apply (tree_at_sent _ _ _ _ Hs')|]. apply Hfin.
      exists (plug (f' :: K') E). split; [by eapply tree_at_sentinel; [exact Hs'|]|].
      split; [by eapply rbt_plug; [constructor|]|done].
    - assert (yc = Black) as -> by (by destruct yc). eapply wp_mono.
      + apply (wp_fixDelete F' sp es s' (f' :: K') x 0); [by split_and!|done|]. simpl. apply plug_ne. by destruct f'.
      + intros [] s''. apply Hfin. }
  apply wp_bind, (wp_fld_parent_at F' sp s2 (f' :: K') x); [done..|].
  replace (par (f' :: K')) with (root_of (plug1 f' x)) by (by destruct f'). cbn [plug] in Hs2, Hm.
  apply meta_plug in Hm as [Hm1 Hm2]. apply wp_bind. eapply wp_mono.
  - apply (wp_recompute_meta F' sp s2 K' (plug1 f' x) 0 0); [by destruct f'|exact Hs2|done|by rewrite !Z.sub_0_r].
  - intros [] s3 [Hs3 _]. rewrite upd_ctx_0 in Hs3. by apply Hdone.
Qed.

(** ** A node with at most one child *)

Lemma wp_seq_link {S A B} (m : ST S A) (f : A -> ST S B) (g : A -> B -> ST S unit) (k : ST S unit) s Q :
  wp (x ← m; y ← f x; g x y) s (fun _ s' => wp k s' Q) -> wp (x ← m; y ← f x; g x y;; k) s Q.
Proof.
  unfold wp, mbind, ST_bind. destruct (m s) as [[x s1]|]; [|done]. destruct (f x s1) as [[y s2]|]; [|done].
  by destruct (g x y s2) as [[[] s3]|].
Qed.

Lemma wp_seq {S A} (m : ST S A) (g : A -> ST S unit) (k : ST S unit) s Q :
  wp (x ← m; g x) s (fun _ s' => wp k s' Q) -> wp (x ← m; g x;; k) s Q.
Proof. unfold wp, mbind, ST_bind. destruct (m s) as [[x s1]|]; [|done]. by destruct (g x s1) as [[[] s3]|]. Qed.

Lemma upd_ctx_add d e d' e' K : upd_ctx d' e' (upd_ctx d e K) = upd_ctx (d + d') (e + e') K.
Proof.
  induction K as [|[c i r|c l i] K IH]; simpl; [done| |]; rewrite IH; [|done].
  do 2 f_equal. unfold add_info. simpl. f_equal; lia.
Qed.

(** The metadata above the child that replaces its parent. *)
Lemma single_meta K x c i t : single x c i t -> meta (plug K t) ->
  meta x /\ meta_ctx K (spine_size x - - length (pc i)) (spine_lf x - - lineFeedCnt (pc i)) /\
  meta (plug (upd_ctx (- length (pc i)) (- lineFeedCnt (pc i)) K) x).
Proof.
  intros Hx [Ht HK]%meta_plug. assert (Hm : meta x) by (destruct Hx; simpl in Ht; tauto).
  destruct (spine_meta x Hm) as [E1 E2]. split; [done|]. rewrite E1, E2, meta_plug.
  assert (Hsz : tsize t = tsize x + length (pc i) /\ tlf t = tlf x + lineFeedCnt (pc i)).
  { destruct Hx; rewrite tsize_T, tlf_T; unfold tsize at 3, tlf at 3; unfold tsize at 1, tlf at 1; simpl;
      unfold tsize, tlf; simpl; lia. }
  destruct Hsz as [E3 E4]. rewrite E3, E4 in HK. rewrite !Z.sub_opp_r. split; [done|]. split; [done|].
  apply (meta_upd_ctx (- length (pc i)) (- lineFeedCnt (pc i))) in HK.
  by rewrite !Z.add_opp_r, !Z.add_simpl_r in HK.
Qed.

(** What follows the assignment of the parent's link, when [z] itself leaves its place. *)
Definition delete_single (z x : ptr) (c : NodeColor) : M unit :=
  yp ← fld parent z;
  upd x (with_parent yp);;
  RB.recomputeTreeMetadata x;;
  finish z x c.

Lemma wp_delete_single F sp s f K t0 c i x es :
  single x c i t0 -> tree_at F sp s (plug (f :: K) t0) -> rb (plug (f :: K) t0) -> meta (plug (f :: K) t0) ->
  elems (plug (f :: K) x) = es ->
  wp (delete_single (addr i) (root_of x) c) (mkStore (relink (f :: K) (root_of x) (heap s)) (root s))
    (fun _ s' => deleted F (addr i) (pc i) es s').
Proof.
  intros Hx Hs [m Hrb] Hm He. pose proof (splice_heap F sp s K f c i x t0 Hx Hs) as (_ & (n & Hn & Hq & Hp & _ & Hl) & _).
  destruct (rbt_unplug _ _ _ _ Hrb eq_refl) as (c1 & m1 & Ht & HK).
  assert (Hlost : lost c (f :: K) x).
  { eapply lost_single; [exact Hx|exact Ht|exact HK]. }
  destruct (single_meta _ _ _ _ _ Hx Hm) as (Hmx & Hmk & Hmf).
  unfold delete_single. apply wp_bind. eapply wp_fld; [exact Hl|]. rewrite Hp. apply wp_bind.
  eapply (wp_set_parent F sp s K f c i x t0 Hx Hs). intros s0 s1 nz Hnz Hs0 Hh. rewrite Hn in Hnz. injection Hnz as <-.
  apply (hung_same _ _ _ _ (f :: K) x Hh) in Hs0. clear s0 Hh. apply wp_bind. eapply wp_mono.
  { eapply (wp_recompute_at _ _ _ (f :: K) x); [done|exact Hs0|by intros -> |exact Hmk]. }
  intros [] s2 (d0 & e0 & Hs2 & Hd). assert (Hf : exists f' K', upd_ctx d0 e0 (f :: K) = f' :: K' /\
    ((exists c i r, f = FL c i r) -> exists c i r, f' = FL c i r)) by (destruct f; simpl; naive_solver).
  destruct Hf as (f' & K' & EK & Hff). pose proof (par_upd_ctx d0 e0 (f :: K)) as Hpar.
  apply (wp_finish F (set_parent_of (par (f :: K)) x sp) s2 f' K' x (- length (pc i) - d0) (- lineFeedCnt (pc i) - e0) (addr i) n); rewrite <- ?EK; try done.
  - intros ->. by rewrite Hpar.
  - rewrite upd_ctx_add.
    by replace (d0 + (- length (pc i) - d0)) with (- length (pc i)) by lia;
      replace (e0 + (- lineFeedCnt (pc i) - e0)) with (- lineFeedCnt (pc i)) by lia.
  - destruct Hd as [[-> ->]|(-> & -> & _ & (? & ? & ? & ? & [= -> _]))]; [left; lia|right; apply Hff; eauto].
  - by rewrite elems_plug, before_upd_ctx, after_upd_ctx, <- elems_plug.
  - by apply lost_upd_ctx.
Qed.

(** ** Putting a node in the place of another *)

Lemma reparent_reparent p p' t h a : reparent p t (reparent p' t h) !! a = reparent p t h !! a.
Proof.
  destruct t as [|c l i r]; [done|]. simpl. destruct (decide (a = addr i)) as [-> | Hne].
  - rewrite !lookup_alter_eq. by destruct (h !! addr i).
  - by rewrite !lookup_alter_ne.
Qed.

Section replace.
Context (F : gmap ptr TreeNode) (sp : ptr) (s s0 : store) (K : ctx) (cz : NodeColor) (l : tree) (iz : info) (R : tree).
Context (y : ptr) (ny : TreeNode) (py : Piece) (p : ptr).
Hypothesis Hs : tree_at (<[y := ny]> F) sp s0 (plug K (T cz l iz R)).
Hypothesis Hh : hung p R s s0.
Hypothesis HFy : F !! y = None.
Hypothesis Hpc : piece ny = Some py.

Let iy := mkInfo y py (sl iz) (lf iz).
Let nz := node_of (par K) (root_of l) (root_of R) cz iz.

(** Pointers are distinct: those of the tree, and [y]. *)
Lemma replace_sep :
  rotation_sep (ctx_addrs K) l (addr iz) R y E /\ rotation_sep (ctx_addrs K) R (addr iz) l y E /\
  NoDup (addrs l) /\ NoDup (addrs R) /\ NoDup (addrs (T cz l iy R)).
Proof.
  destruct Hs as [_ Hat]. pose proof (place_facts _ _ _ _ _ Hat) as (_ & _ & Hn & _ & Hst & _ & Hsep).
  destruct Hat as (_ & _ & _ & HF). destruct (HF y ny) as [Hy _]; [by rewrite lookup_insert_eq|].
  apply not_elem_of_cons in Hy as [Hys Hy]. rewrite addrs_plug, !not_elem_of_app in Hy. destruct Hy as (Hyb & Hyt & Hya).
  assert (Hyk : y ∉ ctx_addrs K) by (unfold ctx_addrs; rewrite not_elem_of_app; tauto).
  assert (Hny : NoDup (y :: addrs (T cz l iz R))) by (by apply NoDup_cons).
  assert (P1 : y :: addrs (T cz l iz R) ≡ₚ addrs (T cz l iz (T cz R iy E))).
  { rewrite !addrs_T. change (addrs E) with (@nil ptr). change (addr iy) with y. solve_Permutation. }
  assert (P2 : y :: addrs (T cz l iz R) ≡ₚ addrs (T cz R iz (T cz l iy E))).
  { rewrite !addrs_T. change (addrs E) with (@nil ptr). change (addr iy) with y. solve_Permutation. }
  assert (Hall : forall t, y :: addrs (T cz l iz R) ≡ₚ addrs t ->
    NoDup (addrs t) /\ SENTINEL ∉ addrs t /\ forall a, a ∈ addrs t -> a ∉ ctx_addrs K).
  { intros t Hp. split; [by rewrite <- Hp|]. split; [rewrite <- Hp; by apply not_elem_of_cons|].
    intros a. rewrite <- Hp. intros [-> |Ha]%elem_of_cons; [done|by apply Hsep]. }
  destruct (Hall _ P1) as (N1 & S1 & K1), (Hall _ P2) as (N2 & S2 & K2).
  assert (Q1 : addrs (T cz l iz (T cz R iy E)) = addrs l ++ addr iz :: addrs R ++ y :: addrs E) by (rewrite !addrs_T; reflexivity).
  assert (Q2 : addrs (T cz R iz (T cz l iy E)) = addrs R ++ addr iz :: addrs l ++ y :: addrs E) by (rewrite !addrs_T; reflexivity).
  destruct (rotation_sepI (ctx_addrs K) l (addr iz) R y E _ Q1 N1 S1 K1) as [H1 HR].
  destruct (rotation_sepI (ctx_addrs K) R (addr iz) l y E _ Q2 N2 S2 K2) as [H2 HL].
  split_and!; try done. rewrite addrs_T in *. apply NoDup_cons in Hny as [Hy Hn'].
  apply NoDup_app in Hn as (_ & Hd & Hr). apply NoDup_cons in Hr as [_ Hr]. apply NoDup_app. split; [done|]. split.
  - intros a Ha. rewrite elem_of_cons. pose proof (sep_A _ _ _ _ _ _ H1 a Ha) as (_ & Hya' & HaR & _). naive_solver.
  - apply NoDup_cons. split; [apply (sep_yb _ _ _ _ _ _ H1)|done].
Qed.
(** The pointer to [z] in its parent, or the root, becomes [y]. *)
Lemma wp_relink_root x (h : gmap ptr TreeNode) (Q : unit -> store -> Prop) :
  rep_ctx h K (addr iz) ->
  Q tt (mkStore (relink K x h) (new_root K x (root s))) ->
  wp (r ← get_root;
      if addr iz =? r then set_root x
      else zpl ← fld left (par K); if addr iz =? zpl then upd (par K) (with_left x) else upd (par K) (with_right x))
    (mkStore h (root s)) Q.
Proof.
  intros Hk HQ. apply wp_bind, wp_get_root. cbn [root]. destruct Hh as [Hroot _].
  pose proof (root_above _ _ _ _ (T cz l iz R) ltac:(done) Hs) as Hra. cbn [root_of] in Hra. rewrite <- Hroot in Hra.
  destruct (Z.eqb_spec (addr iz) (root s)) as [E0|E0]; [apply Hra in E0 as ->; exact HQ|].
  pose proof (root_of_ne _ _ _ K (T cz l iz R) ltac:(done) Hs) as Hne. cbn [root_of] in Hne.
  destruct K as [|[c i r|c t i] K']; [tauto| |]; destruct Hk as (Hi & _); cbn [par finfo];
    apply wp_bind; (eapply wp_fld; [exact Hi|]); cbn [left node_of].
  - rewrite Z.eqb_refl. eapply wp_upd; [exact Hi|]. cbn [heap root]. by rewrite (insert_as_alter _ _ _ _ Hi).
  - pose proof (sibling_left _ _ _ _ _ _ _ (T cz l iz R) ltac:(done) Hs) as Hsib. cbn [root_of] in Hsib.
    destruct (Z.eqb_spec (addr iz) (root_of t)) as [E1|_]; [by symmetry in E1|].
    eapply wp_upd; [exact Hi|]. cbn [heap root]. by rewrite (insert_as_alter _ _ _ _ Hi).
Qed.

(** The heap after the assignments of [transplant]. *)
Lemma replace_heap h' :
  (forall a, h' !! a = <[y := node_of (par K) (root_of l) (root_of R) cz iy]>
    (reparent y R (reparent y l (relink K y (heap s)))) !! a) ->
  heap_at F sp h' (plug K (T cz l iy R)) /\ h' !! addr iz = Some nz.
Proof.
  intros Hh'. destruct replace_sep as (H & H' & HL & HR & Hn'). destruct Hs as [_ Hat]. destruct Hh as [_ Hhh].
  pose proof (place_facts _ _ _ _ _ Hat) as ((Hz & Hrl & HrR) & Hk & _).
  assert (HatF : heap_at F sp (heap s0) (plug K (T cz l iz R))).
  { eapply (tree_at_weaken F (<[y := ny]> F) sp (mkStore (heap s0) (root_of (plug K (T cz l iz R))))); [by apply insert_subseteq|by split]. }
  assert (Hs0 : forall a, a ∉ addrs R -> heap s !! a = heap s0 !! a) by (intros a Ha; rewrite Hhh; by apply lookup_reparent_ne).
  assert (Hz' : h' !! addr iz = Some nz).
  { rewrite Hh'. repeat first [rewrite lookup_insert_ne by sep_ne H | rewrite lookup_reparent_ne by first [sep_ne H | sep_ne H']
      | rewrite lookup_relink_ne by sep_ne H]. rewrite Hs0 by sep_ne H. exact Hz. }
  split; [|done]. eapply (heap_at_change F sp (heap s0) h' K (T cz l iz R)); [exact HatF|exact Hn'|..].
  - intros a. rewrite !addrs_T, !elem_of_app, !elem_of_cons. intros [Ha|[->|Ha]]; [auto| |auto].
    right. split; [apply not_eq_sym, (sep_ys _ _ _ _ _ _ H)|]. split; [apply (sep_yk _ _ _ _ _ _ H)|exact HFy].
  - cbn [rep]. change (addr iy) with y. split; [rewrite Hh'; by rewrite lookup_insert_eq|]. split.
    + eapply rep_frame; [apply (rep_reparent _ _ y _ Hrl HL)|]. intros a Ha. rewrite Hh'.
      destruct (sep_A _ _ _ _ _ _ H a Ha) as (Hza & Hya & HaR & Hak). rewrite lookup_insert_ne by done.
      rewrite lookup_reparent_ne by done. apply reparent_agree. rewrite lookup_relink_ne by done. by apply Hs0.
    + eapply rep_frame; [apply (rep_reparent _ _ y _ HrR HR)|]. intros a Ha. rewrite Hh'.
      destruct (sep_A _ _ _ _ _ _ H' a Ha) as (Hza & Hya & Hal & Hak). rewrite lookup_insert_ne by done.
      rewrite <- (reparent_reparent y p R (heap s0)). apply reparent_agree. rewrite lookup_reparent_ne by done.
      rewrite lookup_relink_ne by done. apply Hhh.
  - intros a Ha. destruct (sep_K _ _ _ _ _ _ H a Ha) as (Hza & Hya & HaR). destruct (sep_K _ _ _ _ _ _ H' a Ha) as (_ & _ & Hal).
    rewrite Hh', lookup_insert_ne, !lookup_reparent_ne by done. apply relink_agree. by apply Hs0.
  - intros a Ha Ha' Hak. rewrite addrs_T, elem_of_app, elem_of_cons in Ha, Ha'. change (addr iy) with y in Ha'.
    rewrite Hh', lookup_insert_ne by (intros <-; auto). rewrite !lookup_reparent_ne, lookup_relink_ne by tauto. apply Hs0. tauto.
Qed.
Lemma wp_replace (k : M unit) (Q : unit -> store -> Prop) :
  (forall s', tree_at (<[addr iz := nz]> F) sp s' (plug K (T cz l iy R)) -> wp k s' Q) ->
  wp (zn ← deref (addr iz);
      upd y (with_left (left zn));;
      upd y (with_right (right zn));;
      upd y (with_parent (parent zn));;
      upd y (with_color (color zn));;
      r ← get_root;
      (if addr iz =? r then set_root y
       else
         zpl ← fld left (parent zn);
         if addr iz =? zpl then upd (parent zn) (with_left y) else upd (parent zn) (with_right y));;
      yl ← fld left y;
      when (negb (yl =? SENTINEL)) (upd yl (with_parent y));;
      yr ← fld right y;
      when (negb (yr =? SENTINEL)) (upd yr (with_parent y));;
      zn ← deref (addr iz);
      upd y (with_size_left (size_left zn));;
      upd y (with_lf_left (lf_left zn));;
      k) s Q.
Proof.
  intros HQ. destruct replace_sep as (H & H' & HL & HR & Hn'). pose proof Hs as [Hroot0 Hat]. pose proof Hh as [Hroot Hhh].
  pose proof (place_facts _ _ _ _ _ Hat) as ((Hz0 & Hrl & HrR) & Hk & _). pose proof Hat as (_ & _ & _ & HF).
  destruct (HF y ny) as [_ Hy0]; [by rewrite lookup_insert_eq|].
  assert (Hs0 : forall a, a ∉ addrs R -> heap s !! a = heap s0 !! a) by (intros a Ha; rewrite Hhh; by apply lookup_reparent_ne).
  assert (Hz : heap s !! addr iz = Some nz) by (rewrite Hs0; [exact Hz0|sep_ne H]).
  assert (Hy : heap s !! y = Some ny) by (rewrite Hs0; [exact Hy0|sep_ne H]).
  assert (Hpl : SENTINEL ∉ addrs l) by (apply (sep_sb _ _ _ _ _ _ H')).
  apply wp_bind. eapply wp_deref; [exact Hz|]. unfold nz. cbn [left right parent color node_of].
  do 4 sep_step H. do 4 sep_step H. apply wp_seq. apply wp_relink_root.
  { eapply rep_ctx_frame; [exact Hk|]. intros a Ha. destruct (sep_K _ _ _ _ _ _ H a Ha) as (Hza & Hya & HaR).
    rewrite !lookup_insert_ne by done. by apply Hs0. }
  do 2 sep_step H. apply wp_bind. eapply (wp_reparent y (addr iz)); [|done|].
  { eapply rep_frame; [exact Hrl|]. intros a Ha. destruct (sep_A _ _ _ _ _ _ H a Ha) as (Hza & Hya & HaR & Hak).
    cbn [heap]. rewrite lookup_relink_ne, !lookup_insert_ne by done. by apply Hs0. }
  assert (Hyl : y ∉ addrs l) by (apply (sep_yb _ _ _ _ _ _ H')). do 2 sep_step H.
  apply wp_bind. eapply (wp_reparent y p); [|apply (sep_sb _ _ _ _ _ _ H)|].
  { eapply rep_frame; [apply (rep_reparent _ _ p _ HrR HR)|]. intros a Ha.
    destruct (sep_A _ _ _ _ _ _ H' a Ha) as (Hza & Hya & Hal & Hak).
    cbn [heap]. rewrite lookup_reparent_ne, lookup_relink_ne, !lookup_insert_ne by done. apply Hhh. }
  assert (Hzl : addr iz ∉ addrs l) by (apply (sep_xb _ _ _ _ _ _ H')).
  do 5 sep_step H. eapply wp_upd; [sep_lookup H|]. apply HQ. unfold nz. cbn [size_left lf_left node_of].
  cbn [heap root]. set (h4 := <[y := with_color _ _]> _). set (n4 := with_color _ _) in *.
  assert (Hh' : forall a, <[y := with_lf_left (lf iz) (with_size_left (sl iz) n4)]>
      (<[y := with_size_left (sl iz) n4]> (reparent y R (reparent y l (relink K y h4)))) !! a =
    <[y := node_of (par K) (root_of l) (root_of R) cz iy]> (reparent y R (reparent y l (relink K y (heap s)))) !! a).
  { intros a. destruct (decide (a = y)) as [-> | Hne].
    - rewrite !lookup_insert_eq. unfold n4, node_of. destruct ny. cbn in *. by rewrite Hpc.
    - rewrite !lookup_insert_ne by done. do 2 apply reparent_agree. apply relink_agree. unfold h4. by rewrite !lookup_insert_ne. }
  destruct (replace_heap _ Hh') as [Hat' Hz']. split; cbn [heap root].
  { apply (new_root_plug K (T cz l iz R)); [by rewrite Hroot|done]. }
  apply heap_at_garbage; [exact Hat'|..|exact Hz'].
  - pose proof (place_facts _ _ _ _ _ Hat') as (_ & _ & _ & _ & _ & _ & Hsep). rewrite addrs_plug, !elem_of_app, addrs_T.
    pose proof (sep_xk _ _ _ _ _ _ H) as Hzk. unfold ctx_addrs in Hzk. rewrite elem_of_app in Hzk.
    pose proof (sep_xb _ _ _ _ _ _ H) as HzR. pose proof (sep_xy _ _ _ _ _ _ H) as Hzy. change (addr iy) with y.
    rewrite elem_of_app, elem_of_cons. tauto.
  - apply not_eq_sym, (sep_xs _ _ _ _ _ _ H).
Qed.
End replace.


(** ** A node with two children *)

(** The second half of [recomputeTreeMetadata], where the metadata is right. *)
Lemma recompute_tail_same s (x : ptr) nx nz l p :
  heap s !! x = Some nx -> x <> root s -> heap s !! parent nx = Some nz -> left nz = root_of l ->
  rep (heap s) p l -> NoDup (addrs l) -> SENTINEL ∉ addrs l -> size_left nz = spine_size l -> lf_left nz = spine_lf l ->
  wp (recompute_tail x) s (fun _ s' => s' = s).
Proof.
  intros Hx Hxr Hz Hl Hr Hn Hs Hsl Hlf. unfold recompute_tail. apply wp_bind, wp_get_root.
  destruct (Z.eqb_spec x (root s)); [done|]. apply wp_bind. eapply wp_fld; [exact Hx|].
  apply wp_bind. eapply wp_fld; [exact Hz|]. rewrite Hl. apply wp_bind. eapply wp_calculateSize_rep; [exact Hr|done..|].
  do 2 (apply wp_bind; eapply wp_fld; [exact Hz|]). rewrite Hl. apply wp_bind. eapply wp_calculateLF_rep; [exact Hr|done..|].
  apply wp_bind. eapply wp_fld; [exact Hz|]. rewrite Hsl, Hlf, !Z.sub_diag. apply wp_bind. eapply wp_upd; [exact Hz|].
  assert (E0 : RB.add_left 0 0 nz = nz) by (destruct nz; unfold RB.add_left; cbn; by rewrite !Z.add_0_r).
  rewrite E0, insert_id by done. replace (mkStore (heap s) (root s)) with s by (by destruct s). unfold while_.
  do 2 apply wp_bind. apply wp_gets. cbn [loop]. apply wp_bind, wp_bind, wp_get_root, wp_ret.
  rewrite andb_false_r. by apply wp_ret.
Qed.

(** The recomputation from [x] when its parent is the node [y] that was its parent's right
    child: nothing changes. *)
Lemma wp_recompute_hung F sp s s0 K x cz l iz (y : ptr) ny :
  tree_at (<[y := ny]> F) sp s0 (plug (FR cz l iz :: K) x) -> hung y x s s0 -> (x = E -> sp = y) ->
  parent ny = addr iz -> right ny = root_of x -> sl iz = spine_size l -> lf iz = spine_lf l ->
  wp (RB.recomputeTreeMetadata (root_of x)) s (fun _ s' => s' = s).
Proof.
  intros Hs [Hroot Hh] Hsp Hp Hr Hsl Hlf. pose proof (place_not_root _ _ _ (FR cz l iz :: K) _ ltac:(done) Hs) as Hxr.
  pose proof Hs as [Hroot0 Hat]. pose proof (place_facts _ _ _ (FR cz l iz :: K) _ Hat) as (Hrx & (Hz & Hrl & _) & Hn & Hnk & Hst & Hsk & Hsep).
  pose proof Hat as (_ & _ & Hsent & HF). destruct (HF y ny) as [Hy Hyh]; [by rewrite lookup_insert_eq|].
  rewrite elem_of_cons, addrs_plug, !elem_of_app in Hy. rewrite <- Hroot in Hxr.
  setoid_rewrite ctx_addrs_FR in Hsep. rewrite ctx_addrs_FR in Hsk.
  assert (Hout : forall a, a ∉ addrs x -> heap s !! a = heap s0 !! a) by (intros a Ha; rewrite Hh; by apply lookup_reparent_ne).
  assert (Hyx : y ∉ addrs x) by tauto. assert (Hzx : addr iz ∉ addrs x) by (intros Ha; by apply (Hsep _ Ha); left).
  rewrite <- (Hout _ Hyx) in Hyh. rewrite <- (Hout _ Hzx) in Hz.
  assert (Hyr : y <> root s).
  { intros E0. apply Hy. rewrite <- !elem_of_app, <- addrs_plug. right. rewrite E0, Hroot, Hroot0.
    apply root_of_in. simpl. by apply plug_ne. }
  assert (Hpx : forall Q : ptr -> store -> Prop, Q y s -> wp (fld parent (root_of x)) s Q).
  { intros Q HQ. destruct x as [|cx lx ix rx]; cbn [root_of].
    - eapply wp_fld; [rewrite Hout by set_solver; exact Hsent|]. cbn [parent sentinel_node]. by rewrite Hsp.
    - destruct Hrx as (Hx & _). eapply wp_fld; [rewrite Hh; cbn [reparent]; rewrite lookup_alter_eq, Hx; done|]. done. }
  rewrite recompute_eq. apply wp_bind, wp_get_root. destruct (Z.eqb_spec (root_of x) (root s)); [done|].
  apply wp_bind. unfold while_. apply wp_bind, wp_gets. destruct (size (heap s)) as [|fuel] eqn:Ef.
  { apply map_size_empty_inv in Ef. rewrite Ef in Hyh. by rewrite lookup_empty in Hyh. }
  cbn [loop]. apply wp_bind. unfold is_right at 1. apply wp_bind, wp_get_root. destruct (Z.eqb_spec (root_of x) (root s)); [done|].
  apply wp_bind, Hpx. apply wp_bind. eapply wp_fld; [exact Hyh|]. apply wp_ret. rewrite Hr, Z.eqb_refl. apply wp_bind, Hpx.
  cbn [loop]. apply wp_bind. unfold is_right at 1. apply wp_bind, wp_get_root. destruct (Z.eqb_spec y (root s)); [done|].
  apply wp_bind. eapply wp_fld; [exact Hyh|]. rewrite Hp. apply wp_bind. eapply wp_fld; [exact Hz|]. cbn [right node_of].
  apply wp_ret. assert (Hyx' : y <> root_of x) by (intros ->; destruct x; [tauto|by apply Hyx, root_of_in]).
  destruct (Z.eqb_spec y (root_of x)); [done|]. apply wp_ret.
  assert (Hl : rep (heap s) (addr iz) l /\ NoDup (addrs l) /\ SENTINEL ∉ addrs l).
  { split; [eapply rep_frame; [exact Hrl|]; intros a Ha; apply Hout; intros Hax; apply (Hsep _ Hax); auto|].
    split; [|tauto]. unfold ctx_addrs in Hnk. simpl in Hnk. rewrite !fmap_app in Hnk.
    apply NoDup_app in Hnk as ((_ & _ & (Hnl & _)%NoDup_app)%NoDup_app & _). exact Hnl. }
  destruct Hl as (Hl1 & Hl2 & Hl3). eapply (recompute_tail_same s y ny _ l (addr iz)); rewrite ?Hp; done.
Qed.

Lemma tsize_plug K t : tsize (plug K t) = total length (before K) + tsize t + total length (after K).
Proof. unfold tsize. rewrite elems_plug, !total_app. lia. Qed.

Lemma tlf_plug K t : tlf (plug K t) = total lineFeedCnt (before K) + tlf t + total lineFeedCnt (after K).
Proof. unfold tlf. rewrite elems_plug, !total_app. lia. Qed.

Lemma upd_ctx_app d e K K' : upd_ctx d e (K ++ K') = upd_ctx d e K ++ upd_ctx d e K'.
Proof. induction K as [|[c i r|c l i] K IH]; simpl; by rewrite ?IH. Qed.

(** Along left children only the topmost node shows in the spine. *)
Lemma spine_left_ctx d e K t t' : K <> [] -> before K = [] ->
  spine_size (plug (upd_ctx d e K) t') = spine_size (plug K t) + d /\
  spine_lf (plug (upd_ctx d e K) t') = spine_lf (plug K t) + e.
Proof.
  revert t t'. induction K as [|[c i r|c l i] K IH]; intros t t' Hne Hb; [done| |].
  - simpl. destruct (decide (K = [])) as [-> | HK]; [simpl; lia|by apply IH].
  - simpl in Hb. by destruct (before K), (elems l).
Qed.

Section two.
Context (F : gmap ptr TreeNode) (sp : ptr) (s : store) (K : ctx) (cz : NodeColor) (l : tree) (iz : info)
  (K1 : ctx) (cy : NodeColor) (iy : info) (x : tree).
Hypothesis Hs : tree_at F sp s (plug (K1 ++ FR cz l iz :: K) (T cy E iy x)).
Hypothesis Hb : before K1 = [].
Hypothesis Hm : meta (plug (K1 ++ FR cz l iz :: K) (T cy E iy x)).

Let iy' := mkInfo (addr iy) (pc iy) (sl iz) (lf iz).
Let a := length (pc iy).
Let a' := lineFeedCnt (pc iy).
Let b := length (pc iz).
Let b' := lineFeedCnt (pc iz).

(** The tree after [y] took the place of [z], whose metadata may still be off by [d] and [e]
    above the place of [x]. *)
Definition replaced (s' : store) : Prop := exists d0 e0 d1 e1 d e sp' nz,
  let Kn := upd_ctx d0 e0 K1 ++ FR cz l iy' :: upd_ctx d1 e1 K in
  tree_at (<[addr iz := nz]> F) sp' s' (plug Kn x) /\ piece nz = Some (pc iz) /\ (x = E -> sp' = par Kn) /\
  meta (plug (upd_ctx d e Kn) x) /\ ((d = 0 /\ e = 0) \/ exists c i r K', Kn = FL c i r :: K').

Lemma two_meta :
  meta (plug (upd_ctx (- a) (- a') K1 ++ FR cz l iy' :: upd_ctx (- b) (- b') K) x) /\
  meta (plug K1 (T cy E iy x)) /\ sl iz = tsize l /\ lf iz = tlf l /\ meta l /\ meta x /\
  meta_ctx K (tsize l + b + tsize (plug K1 (T cy E iy x))) (tlf l + b' + tlf (plug K1 (T cy E iy x))).
Proof.
  pose proof (single_meta _ _ _ _ _ (single_right x cy iy) Hm) as (Hmx & _ & Hm1). fold a a' in Hm1.
  pose proof Hm as Hm0. rewrite plug_app in Hm0. cbn [plug plug1] in Hm0. apply meta_plug in Hm0 as [(H1 & H2 & H3 & H4) HK].
  rewrite tsize_T, tlf_T in HK. rewrite upd_ctx_app, plug_app in Hm1. cbn [upd_ctx plug plug1] in Hm1.
  apply meta_plug in Hm1 as [(_ & _ & _ & Hm1) _].
  split; [|by split_and!]. rewrite plug_app. cbn [plug plug1]. apply meta_plug. split; [by split_and!|].
  apply (meta_upd_ctx (- b) (- b')) in HK. rewrite tsize_T, tlf_T, tsize_plug, tlf_plug, before_upd_ctx, after_upd_ctx.
  rewrite tsize_plug, tlf_plug, tsize_T, tlf_T in HK. change (tsize E) with 0 in HK. change (tlf E) with 0 in HK.
  fold a a' b b' in HK. cbn [pc iy']. fold a a'.
  replace (tsize l + a + (total length (before K1) + tsize x + total length (after K1))) with
    (tsize l + b + (total length (before K1) + (0 + a + tsize x) + total length (after K1)) + - b) by lia.
  by replace (tlf l + a' + (total lineFeedCnt (before K1) + tlf x + total lineFeedCnt (after K1))) with
    (tlf l + b' + (total lineFeedCnt (before K1) + (0 + a' + tlf x) + total lineFeedCnt (after K1)) + - b') by lia.
Qed.
(** What the recomputation from [y] adds above [z], after that from [x] added [d0]; the rest
    [d] is left to the comparison of the left child. *)
Lemma two_deltas d0 e0 :
  (K1 = [] /\ d0 = 0 /\ e0 = 0) \/ (K1 <> [] /\ recomputed (- a) (- a') (K1 ++ FR cz l iz :: K) x d0 e0) ->
  exists dz ez d e,
    spine_size (plug (upd_ctx d0 e0 K1) x) + a - dz = b + tsize (plug K1 (T cy E iy x)) + d0 /\
    spine_lf (plug (upd_ctx d0 e0 K1) x) + a' - ez = b' + tlf (plug K1 (T cy E iy x)) + e0 /\
    (K1 = [] \/ (d0 + d = - a /\ e0 + e = - a')) /\ d0 + dz + d = - b /\ e0 + ez + e = - b' /\
    ((d = 0 /\ e = 0) \/ (exists c i r K', K1 = FL c i r :: K')).
Proof.
  intros Hd. destruct two_meta as (_ & HmR & _ & _ & _ & Hmx & _). destruct Hd as [(HK1 & -> & ->)|[HK1 Hr]].
  - exists (- b), (- b'), 0, 0. destruct (spine_meta x Hmx) as [E1 E2].
    rewrite HK1. simpl. rewrite tsize_T, tlf_T, E1, E2. unfold a, a'.
    change (tsize E) with 0. change (tlf E) with 0. split; [lia|]. split; [lia|]. split; [by left|]. lia.
  - exists (a - b), (a' - b'), (- a - d0), (- a' - e0). destruct (spine_meta _ HmR) as [E1 E2].
    destruct (spine_left_ctx d0 e0 K1 (T cy E iy x) x HK1 Hb) as [-> ->].
    rewrite E1, E2. split; [lia|]. split; [lia|]. split; [right; lia|]. split; [lia|]. split; [lia|].
    destruct Hr as [[-> ->]|(-> & -> & _ & c & i & r & K' & EK)]; [left; lia|right].
    destruct K1 as [|[c1 i1 r1|c1 l1 i1] K1']; [done|by do 4 eexists|done].
Qed.

(** The recomputation from [y] at the place of [z]. *)
Lemma wp_replaced d0 e0 sp' nz s' :
  tree_at (<[addr iz := nz]> F) sp' s' (plug (upd_ctx d0 e0 K) (T cz l iy' (plug (upd_ctx d0 e0 K1) x))) ->
  piece nz = Some (pc iz) -> (x = E -> sp' = par (K1 ++ FR cz l iy' :: K)) ->
  (K1 = [] /\ d0 = 0 /\ e0 = 0) \/ (K1 <> [] /\ recomputed (- a) (- a') (K1 ++ FR cz l iz :: K) x d0 e0) ->
  wp (RB.recomputeTreeMetadata (addr iy)) s' (fun _ => replaced).
Proof.
  intros Hs' Hq Hsp Hd. destruct two_meta as (Hmf & _ & Hsl & Hlf & Hml & Hmx & HK).
  destruct (two_deltas d0 e0 Hd) as (dz & ez & d & e & H1 & H2 & H3 & H4 & H5 & H6).
  eapply wp_mono; [apply (wp_recompute_spine (<[addr iz := nz]> F) sp' s' (upd_ctx d0 e0 K) (T cz l iy' (plug (upd_ctx d0 e0 K1) x)) dz ez)|].
  - done.
  - exact Hs'.
  - cbn [spine_size spine_lf iy' sl lf pc]. fold a a'. apply (meta_upd_ctx d0 e0) in HK. rewrite Hsl, Hlf.
    match goal with |- meta_ctx _ ?n ?m => match type of HK with meta_ctx _ ?n' ?m' =>
      replace n with n' by lia; by replace m with m' by lia end end.
  - intros [] s'' Hs''. exists d0, e0, (d0 + dz), (e0 + ez), d, e, sp', nz. cbn zeta. rewrite upd_ctx_add in Hs''.
    split; [by rewrite plug_app|]. split; [done|]. split; [by destruct K1 as [|[]]|]. split.
    + rewrite upd_ctx_app. cbn [upd_ctx]. rewrite !upd_ctx_add, H4, H5. destruct H3 as [E1|[-> ->]]; [|exact Hmf].
      rewrite E1 in Hmf |- *. exact Hmf.
    + destruct H6 as [?|(c & i & r & K' & ->)]; [by left|right]. simpl. by do 4 eexists.
Qed.

Lemma transplant_eq z y u :
  RB.transplant z y u =
  (yp ← fld parent y;
   upd u (with_parent (if yp =? z then y else yp));;
   RB.recomputeTreeMetadata u;;
   zn ← deref z;
   upd y (with_left (left zn));;
   upd y (with_right (right zn));;
   upd y (with_parent (parent zn));;
   upd y (with_color (color zn));;
   r ← get_root;
   (if z =? r then set_root y
    else
      zpl ← fld left (parent zn);
      if z =? zpl then upd (parent zn) (with_left y) else upd (parent zn) (with_right y));;
   yl ← fld left y;
   when (negb (yl =? SENTINEL)) (upd yl (with_parent y));;
   yr ← fld right y;
   when (negb (yr =? SENTINEL)) (upd yr (with_parent y));;
   zn ← deref z;
   upd y (with_size_left (size_left zn));;
   upd y (with_lf_left (lf_left zn));;
   RB.recomputeTreeMetadata y).
Proof. done. Qed.

Lemma two_fresh : F !! addr iy = None /\ addr iy <> addr iz /\ (forall f K', K1 = f :: K' -> addr (finfo f) <> addr iz).
Proof.
  pose proof Hs as Hs'. rewrite plug_app in Hs'. destruct Hs' as [_ Hat].
  pose proof (place_facts F sp (heap s) (FR cz l iz :: K) _ Hat) as (_ & _ & _ & _ & _ & _ & Hsep).
  assert (Hiy : addr iy ∈ addrs (plug K1 (T cy E iy x))).
  { rewrite addrs_plug, !elem_of_app. right. left. by apply (root_of_in (T cy E iy x)). }
  assert (Hz : forall c, c ∈ addrs (plug K1 (T cy E iy x)) -> c <> addr iz).
  { intros c Hc ->. apply (Hsep _ Hc). apply ctx_addrs_FR. by left. }
  split; [|split; [by apply Hz|]].
  - destruct Hat as (_ & _ & _ & HF). destruct (F !! addr iy) as [n|] eqn:En; [|done]. destruct (HF _ _ En) as [Hn _].
    exfalso. apply Hn. right. rewrite addrs_plug, !elem_of_app. right. by left.
  - intros f K' EK. apply Hz. rewrite EK. rewrite addrs_plug, !elem_of_app.
    destruct f as [c i r|c t i]; simpl; [right; right; by left|left]. rewrite !fmap_app, !elem_of_app. simpl. set_solver.
Qed.
Let ny := node_of (par (K1 ++ FR cz l iz :: K)) SENTINEL (root_of x) cy iy.

Lemma wp_transplant :
  wp (RB.transplant (addr iz) (addr iy) (root_of x))
    (mkStore (relink (K1 ++ FR cz l iz :: K) (root_of x) (heap s)) (root s)) (fun _ => replaced).
Proof.
  destruct two_fresh as (HFy & Hyz & Hf1). rewrite transplant_eq.
  pose proof (tree_lookup _ _ _ (K1 ++ FR cz l iz :: K) _ _ _ _ Hs) as Hny. fold ny in Hny.
  destruct two_meta as (_ & _ & Hsl & Hlf & Hml & Hmx & _). pose proof Hs as Hs0. pose proof Hm as Hm0.
  assert (Hn : forall f K', K1 ++ FR cz l iz :: K = f :: K' ->
    heap (mkStore (relink (K1 ++ FR cz l iz :: K) (root_of x) (heap s)) (root s)) !! addr iy = Some ny).
  { intros f K' EK. rewrite EK in Hs0 |- *.
    destruct (splice_heap F sp s K' f cy iy x (T cy E iy x) (single_right x cy iy) Hs0) as (_ & (n & Hn & _ & _ & _ & Hl) & _).
    rewrite Hny in Hn. by injection Hn as <-. }
  assert (HK1 : K1 = [] \/ exists f1 K1', K1 = f1 :: K1') by (destruct K1; eauto).
  assert (Hpny : parent ny = par (K1 ++ FR cz l iz :: K)) by done.
  destruct HK1 as [EK1|(f1 & K1' & EK1)]; rewrite EK1 in Hs0, Hm0, Hn, Hpny |- *; cbn [app par finfo] in *.
  - apply wp_bind. eapply wp_fld; [by eapply Hn|]. rewrite Hpny, Z.eqb_refl. apply wp_bind.
    eapply (wp_set_parent F sp s K (FR cz l iz) cy iy x (T cy E iy x) (single_right x cy iy) Hs0).
    intros s0 s1 n Hn1 Hs1 Hh. rewrite Hny in Hn1. injection Hn1 as <-. apply wp_bind.
    destruct (spine_meta l Hml) as [E1 E2]. eapply wp_mono.
    + eapply (wp_recompute_hung F _ s1 s0 K x cz l iz (addr iy) ny); [exact Hs1|exact Hh|by intros -> |done|done|congruence|congruence].
    + intros [] s2 ->. eapply (wp_replace F _ s1 s0 K cz l iz x (addr iy) ny (pc iy) (addr iy) Hs1 Hh HFy eq_refl).
      intros s3 Hs3. eapply (wp_replaced 0 0); rewrite ?EK1; [rewrite !upd_ctx_0; exact Hs3|done|by intros -> |by left].
  - apply wp_bind. eapply wp_fld; [by eapply Hn|]. rewrite Hpny.
    destruct (Z.eqb_spec (addr (finfo f1)) (addr iz)) as [E0|_]; [by apply (Hf1 _ _ EK1) in E0|]. apply wp_bind.
    eapply (wp_set_parent F sp s (K1' ++ FR cz l iz :: K) f1 cy iy x (T cy E iy x) (single_right x cy iy) Hs0).
    intros s0 s1 n Hn1 Hs1 Hh. rewrite Hny in Hn1. injection Hn1 as <-.
    apply (hung_same _ _ _ _ (f1 :: K1' ++ FR cz l iz :: K) x Hh) in Hs1. clear s0 Hh. apply wp_bind.
    destruct (single_meta _ _ _ _ _ (single_right x cy iy) Hm0) as (_ & Hmk & _). eapply wp_mono.
    + eapply (wp_recompute_at _ _ s1 (f1 :: K1' ++ FR cz l iz :: K) x); [done|exact Hs1|by intros -> |exact Hmk].
    + intros [] s2 (d0 & e0 & Hs2 & Hd). fold a a' in Hd.
      change (f1 :: K1' ++ FR cz l iz :: K) with ((f1 :: K1') ++ FR cz l iz :: K) in Hs2.
      rewrite upd_ctx_app, plug_app in Hs2. change (upd_ctx d0 e0 (FR cz l iz :: K)) with (FR cz l iz :: upd_ctx d0 e0 K) in Hs2.
      change (plug (FR cz l iz :: ?k) ?t) with (plug k (T cz l iz t)) in Hs2.
      eapply (wp_replace F _ s2 s2 (upd_ctx d0 e0 K) cz l iz _ (addr iy) ny (pc iy) (addr iz) Hs2); [|done|done|].
      * by apply (hung_refl _ _ _ (FR cz l iz :: upd_ctx d0 e0 K) _ Hs2).
      * intros s3 Hs3. eapply (wp_replaced d0 e0); [rewrite EK1; exact Hs3|done| |right; split; [by rewrite EK1|]].
        -- intros ->. rewrite EK1. done.
        -- rewrite EK1. exact Hd.
Qed.
End two.


(** ** The deletion *)

Definition delete_from (z y x : ptr) : M unit :=
  r ← get_root;
  if y =? r then
    set_root x;;
    upd x (with_color Black);;
    RB.detach z;;
    RB.resetSentinel;;
    r ← get_root;
    upd r (with_parent SENTINEL)
  else
    yc ← fld color y;
    yp ← fld parent y;
    ypl ← fld left yp;
    (if y =? ypl then upd yp (with_left x) else upd yp (with_right x));;
    (if y =? z then
       yp ← fld parent y;
       upd x (with_parent yp);;
       RB.recomputeTreeMetadata x
     else RB.transplant z y x);;
    finish z x yc.

Lemma rbDelete_eq z :
  RB.rbDelete z =
  (zn ← deref z;
   y ← (if left zn =? SENTINEL then mret z
        else if right zn =? SENTINEL then mret z
        else RB.leftest (right zn));
   x ← (if left zn =? SENTINEL then fld right y
        else if right zn =? SENTINEL then fld left y
        else fld right y);
   delete_from z y x).
Proof. done. Qed.

Lemma single_rb x c i t n : single x c i t -> rbt Black n t -> rb (blacken x).
Proof.
  destruct 1; inversion 1; subst;
    match goal with H : rbt _ _ x |- _ => inversion H; subst end; eexists; simpl; eauto with rb.
Qed.

(** The root, when it has at most one child: the child is the root then. *)
Lemma wp_delete_root F sp s t0 c i x es n :
  single x c i t0 -> tree_at F sp s t0 -> rbt Black n t0 -> meta t0 -> elems x = es ->
  wp (delete_from (addr i) (addr i) (root_of x)) s (fun _ s' => deleted F (addr i) (pc i) es s').
Proof.
  intros Hx [Hroot Hat] Hrb Hm He. destruct (single_addrs _ _ _ _ Hx) as [Ha Hin].
  pose proof Hat as (Hr & Hn & Hsent & HF). apply NoDup_cons in Hn as [Hs Hn].
  destruct (single_NoDup _ _ _ _ Hx Hn) as [Hnx Hix]. destruct (single_rep _ _ _ _ _ _ Hx Hr) as (Hrx & m & Hi & Hq & _).
  assert (Hsi : SENTINEL <> addr i) by (intros E0; apply Hs, Hin; by left).
  assert (Hsx : SENTINEL ∉ addrs x) by (intros E0; apply Hs, Hin; by right).
  unfold delete_from. apply wp_bind, wp_get_root. rewrite Hroot, Ha, Z.eqb_refl. apply wp_bind, wp_set_root. apply wp_bind.
  set (n' := with_right null (with_left null (with_parent null m))).
  assert (Hfin : forall s', root s' = root_of x -> rep (heap s') SENTINEL (blacken x) ->
      heap s' !! SENTINEL = Some (sentinel_node SENTINEL) -> heap s' !! addr i = Some n' ->
      (forall a, a <> SENTINEL -> a ∉ addrs t0 -> heap s' !! a = heap s !! a) -> deleted F (addr i) (pc i) es s').
  { intros s' H1 H2 H3 H4 H5. exists n'. split_and!; try done. exists (blacken x). split; [|split; [|split]].
    - split; [by destruct x|]. split; [done|]. assert (Hab : addrs (blacken x) = addrs x) by (by destruct x). rewrite Hab.
      split; [by apply NoDup_cons|]. split; [done|]. intros a k. destruct (decide (a = addr i)) as [-> | Hne].
      + rewrite lookup_insert_eq. intros [= <-]. split; [rewrite elem_of_cons; intros [?|?]; [congruence|done]|done].
      + rewrite lookup_insert_ne by done. intros Hk. destruct (HF a k Hk) as [Hnot Hk']. apply not_elem_of_cons in Hnot as [Hns Hnt].
        split; [rewrite elem_of_cons; intros [?|?]; [done|]; apply Hnt, Hin; by right|]. by rewrite H5.
    - by eapply single_rb.
    - assert (Hmx : meta x) by (destruct Hx; simpl in Hm; tauto). by destruct x.
    - rewrite <- He. by destruct x. }
  clear HF Hm Hrb He Hx. destruct x as [|cx lx ix rx]; cbn [root_of blacken rep] in *; unfold RB.detach, RB.resetSentinel.
  - heap_steps. apply Hfin; cbn [heap]; [done|done|heap_lookup|heap_lookup|].
    intros a Has Hna. assert (a <> addr i) by (intros ->; apply Hna, Hin; by left).
    cbn [heap root]. by rewrite !lookup_insert_ne by congruence.
  - destruct Hrx as (Hx0 & Hlx & Hrx). rewrite addrs_T in Hix, Hsx, Hnx. rewrite elem_of_app, elem_of_cons in Hix, Hsx.
    assert (Hxi : addr ix <> addr i) by (intros E0; rewrite E0 in Hix; tauto).
    assert (Hxs : addr ix <> SENTINEL) by (intros E0; rewrite E0 in Hsx; tauto).
    assert (Hsub : forall a, a ∈ addrs lx \/ a ∈ addrs rx -> a <> SENTINEL /\ a <> addr i /\ a <> addr ix).
    { intros a Hax. split; [intros ->; tauto|]. split; [intros ->; tauto|]. intros ->.
      apply NoDup_app in Hnx as (_ & Hd & [Hnr _]%NoDup_cons). destruct Hax as [Hax%Hd|Hax]; [set_solver|done]. }
    assert (Hout : forall a, a <> SENTINEL -> a ∉ addrs t0 -> a <> SENTINEL /\ a <> addr i /\ a <> addr ix).
    { intros a Has Hna. split_and!; [done|intros -> ..]; apply Hna, Hin; [by left|right; rewrite addrs_T; set_solver]. }
    heap_steps. apply Hfin; cbn [heap root]; [done| |heap_lookup|heap_lookup|].
    + split; [heap_lookup|].
      split; (eapply rep_frame; [eassumption|]); intros a Hax; (destruct (Hsub a) as (? & ? & ?); [auto|]);
        by rewrite !lookup_insert_ne by congruence.
    + intros a Has Hna. destruct (Hout a Has Hna) as (? & ? & ?). by rewrite !lookup_insert_ne by congruence.
Qed.

Lemma wp_seq_assoc {S A} (m : ST S A) (f : A -> ST S unit) (g k : ST S unit) s Q :
  wp (x ← m; f x;; g;; k) s Q -> wp (x ← m; f x;; g) s (fun _ s' => wp k s' Q).
Proof.
  unfold wp, mbind, ST_bind. destruct (m s) as [[x s1]|]; [|done]. destruct (f x s1) as [[[] s2]|]; [|done].
  by destruct (g s2) as [[[] s3]|].
Qed.

Lemma wp_delete_one F sp s K t0 c i x es :
  single x c i t0 -> tree_at F sp s (plug K t0) -> rb (plug K t0) -> meta (plug K t0) -> elems (plug K x) = es ->
  wp (delete_from (addr i) (addr i) (root_of x)) s (fun _ s' => deleted F (addr i) (pc i) es s').
Proof.
  intros Hx Hs Hrb Hm He. destruct K as [|f K].
  { destruct Hrb as [n Hrb]. by apply (wp_delete_root F sp s t0 c i x es n). }
  assert (Hne : t0 <> E) by (by destruct Hx). pose proof (proj1 (single_addrs _ _ _ _ Hx)) as Ha.
  pose proof (place_not_root _ _ _ (f :: K) _ ltac:(done) Hs) as Hr. rewrite Ha in Hr.
  pose proof (wp_delete_single F sp s f K t0 c i x es Hx Hs Hrb Hm He) as Hw.
  unfold delete_from. apply wp_bind, wp_get_root. destruct (Z.eqb_spec (addr i) (root s)); [done|].
  destruct (single_rep _ _ _ _ _ _ Hx (proj1 (place_facts _ _ _ _ _ (proj2 Hs)))) as (_ & m & Hi & _ & _ & Hc).
  apply wp_bind. eapply wp_fld; [exact Hi|]. rewrite Hc. apply wp_seq_link.
  apply (wp_link F sp s K f c i x t0 Hx Hs). rewrite Z.eqb_refl. apply wp_bind. by apply wp_seq_assoc.
Qed.

Lemma wp_delete_two F sp s K cz l iz K1 cy iy x es :
  tree_at F sp s (plug (K1 ++ FR cz l iz :: K) (T cy E iy x)) -> before K1 = [] ->
  rb (plug (K1 ++ FR cz l iz :: K) (T cy E iy x)) -> meta (plug (K1 ++ FR cz l iz :: K) (T cy E iy x)) ->
  before K ++ elems l ++ (addr iy, pc iy) :: elems x ++ after K1 ++ after K = es ->
  wp (delete_from (addr iz) (addr iy) (root_of x)) s (fun _ s' => deleted F (addr iz) (pc iz) es s').
Proof.
  intros Hs Hb [n Hrb] Hm He. set (Ky := K1 ++ FR cz l iz :: K) in *.
  assert (Hf : exists f K', Ky = f :: K') by (unfold Ky; destruct K1; simpl; eauto).
  pose proof (place_not_root F sp s Ky (T cy E iy x) ltac:(unfold Ky; by destruct K1) Hs) as Hr. cbn [root_of] in Hr.
  destruct (rbt_unplug _ _ _ _ Hrb eq_refl) as (c1 & m1 & Ht & HK).
  pose proof (lost_single _ _ _ _ _ _ _ (single_right x cy iy) Ht HK) as Hlost.
  pose proof (wp_transplant F sp s K cz l iz K1 cy iy x Hs Hb Hm) as Hw. fold Ky in Hw.
  destruct (two_fresh F sp s K cz l iz K1 cy iy x Hs Hb Hm) as (_ & Hyz & _).
  unfold delete_from. apply wp_bind, wp_get_root. destruct (Z.eqb_spec (addr iy) (root s)); [done|].
  apply wp_bind, (wp_fld_node _ _ _ Ky _ _ _ _ Hs). cbn [color node_of]. apply wp_seq_link.
  destruct Hf as (f & K' & EK). assert (Hs' := Hs). rewrite EK in Hs', Hw.
  apply (wp_link F sp s K' f cy iy x _ (single_right x cy iy) Hs').
  destruct (Z.eqb_spec (addr iy) (addr iz)); [done|]. apply wp_bind.
  eapply wp_mono; [exact Hw|]. intros [] s1 (d0 & e0 & d1 & e1 & d & e & sp' & nz & Hs1 & Hq & Hsp & Hm1 & Hd). cbn zeta in *.
  assert (Hl1 : lost cy (upd_ctx d0 e0 K1 ++ FR cz l (mkInfo (addr iy) (pc iy) (sl iz) (lf iz)) :: upd_ctx d1 e1 K) x)
    by (by eapply lost_change_info).
  assert (He1 : elems (plug (upd_ctx d0 e0 K1 ++ FR cz l (mkInfo (addr iy) (pc iy) (sl iz) (lf iz)) :: upd_ctx d1 e1 K) x) = es).
  { rewrite plug_app. cbn [plug plug1]. rewrite <- He, elems_plug, before_upd_ctx, after_upd_ctx. cbn [elems addr pc].
    rewrite elems_plug, before_upd_ctx, after_upd_ctx, Hb. app_eq. }
  destruct (upd_ctx d0 e0 K1 ++ _) as [|f' Kn] eqn:EKn; [by apply app_eq_nil in EKn as [_ EKn]|].
  eapply (wp_finish F sp' s1 f' Kn x d e (addr iz) nz); try done.
  destruct Hd as [?|(c & i & r & K2 & [= -> _])]; [by left|right; eauto].
Qed.

Lemma wp_rbDelete F s xs ys z q :
  piece_tree F s (xs ++ (z, q) :: ys) -> wp (RB.rbDelete z) s (fun _ s' => deleted F z q (xs ++ ys) s').
Proof.
  intros (t & Hs & Hrb & Hm & He). apply find_place in He as (K & c & l & i & r & -> & [= -> ->] & -> & ->).
  rewrite rbDelete_eq. apply wp_bind. eapply wp_deref; [by apply (tree_lookup _ _ _ K _ _ _ _ Hs)|].
  cbn [left right node_of]. 
  destruct l as [|cl ll il rl].
  - cbn [root_of]. simpl (SENTINEL =? SENTINEL). cbv iota. apply wp_bind, wp_ret.
    apply wp_bind, (wp_fld_node _ _ _ K _ _ _ _ Hs). cbn [right node_of].
    apply (wp_delete_one F SENTINEL s K _ _ _ _ _ (single_right r c i) Hs Hrb Hm). rewrite elems_plug. simpl. by rewrite app_nil_r.
  - pose proof (root_of_ne F SENTINEL s (FL c i r :: K) (T cl ll il rl) ltac:(done) Hs) as Hl.
    destruct (Z.eqb_spec (root_of (T cl ll il rl)) SENTINEL) as [|_]; [done|]. destruct r as [|cr lr ir rr].
    + cbn [root_of]. simpl (SENTINEL =? SENTINEL). cbv iota. apply wp_bind, wp_ret.
      apply wp_bind, (wp_fld_node _ _ _ K _ _ _ _ Hs). cbn [left node_of].
      apply (wp_delete_one F SENTINEL s K _ _ _ _ _ (single_left (T cl ll il rl) c i) Hs Hrb Hm). rewrite elems_plug. by rewrite <- app_assoc.
    + pose proof (root_of_ne F SENTINEL s (FR c (T cl ll il rl) i :: K) (T cr lr ir rr) ltac:(done) Hs) as Hr.
      destruct (Z.eqb_spec (root_of (T cr lr ir rr)) SENTINEL) as [|_]; [done|]. apply wp_bind.
      apply (wp_leftest F SENTINEL s (FR c (T cl ll il rl) i :: K) cr lr ir rr); [exact Hs|]. intros K1 cy iy x Hp Hb.
      set (R := T cr lr ir rr) in *. change (plug K (T c (T cl ll il rl) i R)) with (plug (FR c (T cl ll il rl) i :: K) R) in Hs, Hrb, Hm. rewrite <- Hp, <- plug_app in Hs, Hrb, Hm.
      apply wp_bind, (wp_fld_node _ _ _ (K1 ++ FR c (T cl ll il rl) i :: K) _ _ _ _ Hs). cbn [right node_of].
      apply (wp_delete_two F SENTINEL s K c (T cl ll il rl) i K1 cy iy x); try done.
      pose proof (elems_plug K1 (T cy E iy x)) as Hel. rewrite Hp, Hb in Hel. rewrite Hel. app_eq.
Qed.

(** C33: Deletion from the piece tree.  In a store that holds a red-black tree with right
    metadata beside any other objects, [rbDelete] of any node of the tree does not throw;
    afterwards the other nodes are in the same order with the same pieces, also when
    another node took the place of the deleted one, the tree is red-black again, every
    node's [size_left] and [lf_left] are those of its left subtree, the deleted object
    keeps its piece and points nowhere, and the other objects are untouched. *)
Theorem rb_delete_correct F s xs ys z q :
  piece_tree F s (xs ++ (z, q) :: ys) ->
  wp (RB.rbDelete z) s (fun _ s' => exists n, piece n = Some q /\
    parent n = null /\ left n = null /\ right n = null /\ piece_tree (<[z := n]> F) s' (xs ++ ys)).
Proof. exact (wp_rbDelete F s xs ys z q). Qed.

Lemma rb_delete_correct_witness : exists s' n, RB.rbDelete 1 three_store = Ok (tt, s') /\
  piece n = Some piece_a /\ parent n = null /\ piece_tree {[ (1 : ptr) := n ]} s' [(2, piece_b); (3, piece_b)].
Proof.
  pose proof (rb_delete_correct ∅ three_store _ _ 1 piece_a three_piece_tree) as H.
  apply wp_run in H as ([] & s' & Hr & n & Hq & Hp & _ & _ & Ht). exists s', n.
  split; [exact Hr|]. split; [exact Hq|]. split; [exact Hp|]. exact Ht.
Defined.
