(* ===== verification/PtBuffer.v ===== *)
(** * Text buffers of the piece tree

    The functions of [src/src/vs/editor/common/model/pieceTreeTextBuffer/pieceTreeBase.ts]
    that read the text buffers only: finding the line starts of a text, and converting
    between offsets and cursors in a buffer.  A text is the list of its UTF-16 code units.

    The number of line breaks that end in a part of a text depends on the code unit that
    follows it, as a CR before a LF does not end a line: [breaks_in s nx] counts those of
    [s] when [nx] follows.  The line of an offset of a buffer is [line_of]. *)

From S2P Require Import Prelude Length RbTree.

#[local] Open Scope js_scope.
#[local] Arguments Z.eqb : simpl never.
#[local] Arguments Z.ltb : simpl never.
#[local] Arguments Z.add : simpl never.
#[local] Arguments Z.sub : simpl never.

(** ** Strings *)

(** [s.charCodeAt(i)]; [None] is [NaN], which no comparison holds of. *)
Definition charCodeAt (s : list Z) (i : Z) : option Z := s.[i].

Definition is_char (o : option Z) (c : Z) : bool := match o with Some x => x =? c | None => false end.

(** The part of [s] from [a] to [b]. *)
Definition sub (s : list Z) (a b : Z) : list Z := take (Z.to_nat (b - a)) (drop (Z.to_nat a) s).

Definition clamp (n i : Z) : Z := Z.max 0 (Z.min i n).

Definition substring (s : list Z) (a b : Z) : list Z :=
  let a' := clamp (zlen s) a in
  let b' := clamp (zlen s) b in
  sub s (Z.min a' b') (Z.max a' b').

(** [s.substr(start, length)] with [0 <= start]. *)
Definition substr (s : list Z) (start len : Z) : list Z :=
  let start' := clamp (zlen s) start in
  sub s start' (start' + Z.max 0 (Z.min len (zlen s - start'))).

(** ** Line starts *)

(** The assignments [r[rLength++] = ...] of the loop, from the index [i] on. *)
Fixpoint line_starts_at (i : Z) (str : list Z) : list Z :=
  match str with
  | [] => []
  | chr :: str' =>
      if chr =? 13 then
        match str' with
        | d :: str'' => if d =? 10 then (i + 2) :: line_starts_at (i + 2) str'' else (i + 1) :: line_starts_at (i + 1) str'
        | [] => [i + 1]
        end
      else if chr =? 10 then (i + 1) :: line_starts_at (i + 1) str'
      else line_starts_at (i + 1) str'
  end.

(** The typed array keeps the elements modulo 2^16 or 2^32. *)
Definition createUintArray (arr : list Z) : list Z :=
  let width := match arr.[zlen arr - 1] with
               | Some x => if x <? 65536 then 2 ^ 16 else 2 ^ 32
               | None => 2 ^ 32
               end in
  (fun x => x mod width) <$> arr.

Definition createLineStartsFast (str : list Z) (readonly : bool) : list Z :=
  let r := 0 :: line_starts_at 0 str in
  if readonly then createUintArray r else r.

Record StringBuffer : Type := mkBuffer { buffer : list Z; lineStarts : list Z }.

(** ** Cursors *)

(** [lineStarts[i]]; a start outside the array is [undefined], with which the code never
    computes. *)
Definition line_start (b : StringBuffer) (i : Z) : result Z :=
  match (lineStarts b).[i] with Some x => Ok x | None => Throw OtherError end.

(** [this._buffers[i]], whose fields are read next. *)
Definition get_buffer (bufs : list StringBuffer) (i : Z) : result StringBuffer :=
  match bufs.[i] with Some b => Ok b | None => Throw TypeError end.

Definition offsetInBuffer (bufs : list StringBuffer) (bufferIndex : Z) (cursor : BufferCursor) : result Z :=
  let* b := get_buffer bufs bufferIndex in
  let* x := line_start b (line cursor) in
  Ok (x + column cursor).

(** The loop of [positionInBuffer]; the results are [mid] and [midStart]. *)
Fixpoint position_loop (fuel : nat) (b : StringBuffer) (offset low high mid midStart : Z) : result (Z * Z) :=
  match fuel with
  | O => Throw OtherError
  | S fuel' =>
      if low <=? high then
        let mid := to_int32 (low + (high - low) / 2) in
        let* midStart := line_start b mid in
        if mid =? high then Ok (mid, midStart)
        else
          let* midStop := line_start b (mid + 1) in
          if offset <? midStart then position_loop fuel' b offset low (mid - 1) mid midStart
          else if offset >=? midStop then position_loop fuel' b offset (mid + 1) high mid midStart
          else Ok (mid, midStart)
      else Ok (mid, midStart)
  end.

Definition positionInBuffer (bufs : list StringBuffer) (piece : Piece) (remainder : Z) : result BufferCursor :=
  let* b := get_buffer bufs (bufferIndex piece) in
  let* x := line_start b (line (start piece)) in
  let offset := x + column (start piece) + remainder in
  let low := line (start piece) in
  let high := line (end_ piece) in
  let* (mid, midStart) := position_loop (S (Z.to_nat (high - low + 1))) b offset low high 0 0 in
  Ok (mkCursor mid (offset - midStart)).

Definition getLineFeedCnt (bufs : list StringBuffer) (bufferIndex : Z) (start end_ : BufferCursor) : result Z :=
  if column end_ =? 0 then Ok (line end_ - line start)
  else
    let* b := get_buffer bufs bufferIndex in
    if line end_ =? zlen (lineStarts b) - 1 then Ok (line end_ - line start)
    else
      let* nextLineStartOffset := line_start b (line end_ + 1) in
      let* x := line_start b (line end_) in
      let endOffset := x + column end_ in
      if nextLineStartOffset >? endOffset + 1 then Ok (line end_ - line start)
      else
        let previousCharOffset := endOffset - 1 in
        if is_char (charCodeAt (buffer b) previousCharOffset) 13
        then Ok (line end_ - line start + 1) else Ok (line end_ - line start).

Definition getAccumulatedValue (bufs : list StringBuffer) (piece : Piece) (index : Z) : result Z :=
  if index <? 0 then Ok 0
  else
    let* b := get_buffer bufs (bufferIndex piece) in
    let expectedLineStartIndex := line (start piece) + index + 1 in
    let* s := line_start b (line (start piece)) in
    if expectedLineStartIndex >? line (end_ piece) then
      let* e := line_start b (line (end_ piece)) in
      Ok (e + column (end_ piece) - s - column (start piece))
    else
      let* e := line_start b expectedLineStartIndex in
      Ok (e - s - column (start piece)).

(** [{ index, remainder }]. *)
Definition getIndexOf (bufs : list StringBuffer) (piece : Piece) (accumulatedValue : Z) : result (Z * Z) :=
  let* pos := positionInBuffer bufs piece accumulatedValue in
  let lineCnt := line pos - line (start piece) in
  let* e := offsetInBuffer bufs (bufferIndex piece) (end_ piece) in
  let* s := offsetInBuffer bufs (bufferIndex piece) (start piece) in
  if e - s =? accumulatedValue then
    let* realLineCnt := getLineFeedCnt bufs (bufferIndex piece) (start piece) pos in
    if negb (realLineCnt =? lineCnt) then Ok (realLineCnt, 0) else Ok (lineCnt, column pos)
  else Ok (lineCnt, column pos).

Definition getPieceContent (bufs : list StringBuffer) (piece : Piece) : result (list Z) :=
  let* b := get_buffer bufs (bufferIndex piece) in
  let* s := offsetInBuffer bufs (bufferIndex piece) (start piece) in
  let* e := offsetInBuffer bufs (bufferIndex piece) (end_ piece) in
  Ok (substring (buffer b) s e).

(** ** Line breaks of a part of a text *)

(** Does a line end at [c] when [nx] follows? *)
Definition ends (c : Z) (nx : option Z) : bool := (c =? 10) || ((c =? 13) && negb (is_char nx 10)).

(** The code unit after a text that is followed by [t] and then [nx]. *)
Definition nxt (t : list Z) (nx : option Z) : option Z := match t with c :: _ => Some c | [] => nx end.

Fixpoint breaks_in (s : list Z) (nx : option Z) : Z :=
  match s with [] => 0 | c :: s' => (if ends c (nxt s' nx) then 1 else 0) + breaks_in s' nx end.

(** The line breaks of a text of its own. *)
Definition breaks (s : list Z) : Z := breaks_in s None.

Fixpoint starts_in (i : Z) (s : list Z) (nx : option Z) : list Z :=
  match s with [] => [] | c :: s' => (if ends c (nxt s' nx) then [i + 1] else []) ++ starts_in (i + 1) s' nx end.

Definition starts (s : list Z) : list Z := 0 :: starts_in 0 s None.

Lemma line_starts_at_eq i s : line_starts_at i s = starts_in i s None.
Proof.
  revert i. induction s as [|s IH|c s Hcr IH] using text_ind; intros i; [done|..].
  - simpl. rewrite IH. change (ends 13 (Some 10)) with false. change (ends 10 (nxt s None)) with true.
    simpl. by replace (i + 1 + 1) with (i + 2) by lia.
  - simpl. rewrite <- IH. unfold ends. destruct (Z.eqb_spec c 13) as [->|Hc].
    + destruct s as [|d s]; [done|]. simpl. destruct (Z.eqb_spec d 10) as [->|]; [by destruct (Hcr eq_refl s)|done].
    + by destruct (Z.eqb_spec c 10).
Qed.

Lemma nxt_app s t nx : nxt (s ++ t) nx = nxt s (nxt t nx).
Proof. by destruct s. Qed.

Lemma breaks_in_app s t nx : breaks_in (s ++ t) nx = breaks_in s (nxt t nx) + breaks_in t nx.
Proof. induction s as [|c s IH]; simpl; [lia|]. rewrite nxt_app, IH. lia. Qed.

Lemma starts_in_app i s t nx : starts_in i (s ++ t) nx = starts_in i s (nxt t nx) ++ starts_in (i + zlen s) t nx.
Proof.
  revert i. induction s as [|c s IH]; intros i; simpl; [by rewrite zlen_nil, Z.add_0_r|].
  rewrite nxt_app, IH, <- app_assoc, zlen_cons. by replace (i + 1 + zlen s) with (i + (zlen s + 1)) by lia.
Qed.

Lemma zlen_starts_in i s nx : zlen (starts_in i s nx) = breaks_in s nx.
Proof. revert i. induction s as [|c s IH]; intros i; simpl; [done|]. rewrite zlen_app, IH. by destruct (ends _ _). Qed.

Lemma breaks_in_nonneg s nx : 0 <= breaks_in s nx.
Proof. rewrite <- (zlen_starts_in 0). apply zlen_nonneg. Qed.

Lemma breaks_in_le s nx : breaks_in s nx <= zlen s.
Proof. induction s as [|c s IH]; simpl; [done|]. rewrite zlen_cons. destruct (ends _ _); lia. Qed.

Lemma starts_in_bounds i s nx : Forall (fun x => i < x <= i + zlen s) (starts_in i s nx).
Proof.
  revert i. induction s as [|c s IH]; intros i; simpl; [constructor|]. pose proof (zlen_nonneg s). rewrite zlen_cons.
  apply Forall_app. split; [destruct (ends _ _); repeat constructor; lia|].
  eapply Forall_impl; [apply IH|]. simpl. lia.
Qed.

Lemma starts_in_shift i d s nx : starts_in (i + d) s nx = (fun x => x + d) <$> starts_in i s nx.
Proof.
  revert i. induction s as [|c s IH]; intros i; [done|]. cbn [starts_in]. rewrite fmap_app.
  replace (i + d + 1) with (i + 1 + d) by lia. rewrite IH. by destruct (ends _ _).
Qed.

(** Only a CR at the end sees what follows. *)
Definition ends_cr (s : list Z) : bool := is_char (last s) 13.

Lemma breaks_in_next s nx : breaks_in s nx = breaks s - (if ends_cr s && is_char nx 10 then 1 else 0).
Proof.
  unfold breaks, ends_cr. induction s as [|c s IH]; [done|]. cbn [breaks_in]. destruct s as [|d s].
  - cbn. unfold ends. destruct (Z.eqb_spec c 10) as [->|]; simpl; [by destruct (is_char nx 10)|].
    destruct (Z.eqb_spec c 13); simpl; [|done]. by destruct (is_char nx 10).
  - rewrite IH. rewrite last_cons_cons. simpl nxt. lia.
Qed.

(** Breaks add up unless a CRLF is torn apart. *)
Lemma breaks_app s t :
  breaks (s ++ t) = breaks s + breaks t - (if ends_cr s && is_char (nxt t None) 10 then 1 else 0).
Proof.
  change (breaks (s ++ t)) with (breaks_in (s ++ t) None). rewrite breaks_in_app, (breaks_in_next s).
  change (breaks_in t None) with (breaks t). lia.
Qed.

Lemma breaks_splitLines s : zlen (splitLines s) = breaks s + 1.
Proof.
  assert (H : forall l, zlen (split_from l s) = breaks s + 1); [|apply H].
  unfold breaks. induction s as [|s IH|c s Hcr IH] using text_ind; intros l; [done|..].
  - rewrite split_from_crlf, zlen_cons, IH. cbn [breaks_in nxt]. change (ends 13 (Some 10)) with false.
    change (ends 10 (nxt s None)) with true. cbv iota. lia.
  - rewrite split_from_one by done. cbn [breaks_in]. unfold is_eol.
    assert (He : ends c (nxt s None) = (c =? 13) || (c =? 10)).
    { unfold ends. destruct (Z.eqb_spec c 13) as [->|]; [|by rewrite orb_false_r]. destruct s as [|d s]; [done|]. simpl.
      destruct (Z.eqb_spec d 10) as [->|]; [by destruct (Hcr eq_refl s)|done]. }
    rewrite He. destruct ((c =? 13) || (c =? 10)); [rewrite zlen_cons, IH; lia|rewrite IH; lia].
Qed.

(** ** Parts of a text *)

Lemma sub_app s a b : 0 <= a <= b -> b <= zlen s -> s = take (Z.to_nat a) s ++ sub s a b ++ drop (Z.to_nat b) s.
Proof.
  intros Hab Hb. unfold sub. rewrite <- (take_drop (Z.to_nat a) s) at 1. f_equal.
  rewrite <- (take_drop (Z.to_nat (b - a)) (drop (Z.to_nat a) s)) at 1. rewrite drop_drop. do 2 f_equal. lia.
Qed.

Lemma zlen_sub s a b : 0 <= a <= b -> b <= zlen s -> zlen (sub s a b) = b - a.
Proof. unfold sub, zlen. intros. rewrite length_take, length_drop. lia. Qed.

Lemma sub_all s : sub s 0 (zlen s) = s.
Proof. unfold sub. rewrite Z.sub_0_r, drop_0. apply take_ge. unfold zlen. lia. Qed.

Lemma sub_same s a : sub s a a = [].
Proof. unfold sub. by rewrite Z.sub_diag. Qed.

Lemma sub_sub s a b c d : 0 <= a -> 0 <= c <= d -> d <= b - a -> b <= zlen s -> sub (sub s a b) c d = sub s (a + c) (a + d).
Proof.
  intros. unfold sub. rewrite skipn_firstn_comm, take_take, drop_drop. f_equal; [lia|]. f_equal. lia.
Qed.

Lemma sub_join s a b c : 0 <= a <= b -> b <= c -> c <= zlen s -> sub s a b ++ sub s b c = sub s a c.
Proof.
  intros. unfold sub. rewrite <- (take_drop (Z.to_nat (b - a)) (take (Z.to_nat (c - a)) (drop (Z.to_nat a) s))).
  rewrite take_take, skipn_firstn_comm, drop_drop. f_equal; [f_equal; lia|]. f_equal; [lia|]. f_equal. lia.
Qed.

Lemma substring_sub s a b : 0 <= a <= b -> b <= zlen s -> substring s a b = sub s a b.
Proof. intros. unfold substring, clamp. f_equal; lia. Qed.

Lemma substr_sub s a n : 0 <= a -> 0 <= n -> a + n <= zlen s -> substr s a n = sub s a (a + n).
Proof. intros. unfold substr, clamp. f_equal; lia. Qed.

Lemma sub_app_l s t a b : 0 <= a <= b -> b <= zlen s -> sub (s ++ t) a b = sub s a b.
Proof.
  intros. unfold sub, zlen in *. rewrite drop_app_le by lia. rewrite take_app_le; [done|]. rewrite length_drop. lia.
Qed.

Lemma sub_app_r s t : sub (s ++ t) (zlen s) (zlen s + zlen t) = t.
Proof.
  unfold sub, zlen. rewrite drop_app_length' by lia. apply take_ge. lia.
Qed.

(** ** Lines of offsets *)

(** The number of lines that start after the first and at or before the offset [o]. *)
Definition line_of (B : list Z) (o : Z) : Z := breaks_in (take (Z.to_nat o) B) (nxt (drop (Z.to_nat o) B) None).

Lemma line_of_0 B : line_of B 0 = 0.
Proof. unfold line_of. by rewrite take_0. Qed.

Lemma line_of_nonneg B o : 0 <= line_of B o.
Proof. apply breaks_in_nonneg. Qed.

Lemma line_of_end B : line_of B (zlen B) = breaks B.
Proof. unfold line_of, zlen. by rewrite Nat2Z.id, firstn_all, drop_all. Qed.

Lemma take_sub B a b : 0 <= a <= b -> b <= zlen B -> take (Z.to_nat b) B = take (Z.to_nat a) B ++ sub B a b.
Proof.
  intros. unfold sub, zlen in *. rewrite <- (take_drop (Z.to_nat a) (take (Z.to_nat b) B)).
  rewrite take_take, skipn_firstn_comm. f_equal; f_equal; lia.
Qed.

Lemma drop_sub B a b : 0 <= a <= b -> b <= zlen B -> drop (Z.to_nat a) B = sub B a b ++ drop (Z.to_nat b) B.
Proof.
  intros. unfold sub, zlen in *. rewrite <- (take_drop (Z.to_nat (b - a)) (drop (Z.to_nat a) B)) at 1.
  rewrite drop_drop. do 2 f_equal. lia.
Qed.

Lemma line_of_diff B a b : 0 <= a <= b -> b <= zlen B ->
  line_of B b = line_of B a + breaks_in (sub B a b) (nxt (drop (Z.to_nat b) B) None).
Proof.
  intros Hab Hb. unfold line_of. rewrite (take_sub B a b), (drop_sub B a b), breaks_in_app, nxt_app by done. done.
Qed.

Lemma line_of_mono B a b : 0 <= a <= b -> b <= zlen B -> line_of B a <= line_of B b.
Proof. intros. rewrite (line_of_diff B a b) by done. pose proof (breaks_in_nonneg (sub B a b) (nxt (drop (Z.to_nat b) B) None)). lia. Qed.

Lemma zlen_starts B : zlen (starts B) = breaks B + 1.
Proof. unfold starts. by rewrite zlen_cons, zlen_starts_in. Qed.

Lemma starts_split B o : 0 <= o <= zlen B -> exists l r, starts B = l ++ r /\ zlen l = line_of B o + 1 /\
  Forall (fun x => x <= o) l /\ Forall (fun x => o < x) r.
Proof.
  intros Ho. exists (0 :: starts_in 0 (take (Z.to_nat o) B) (nxt (drop (Z.to_nat o) B) None)), (starts_in o (drop (Z.to_nat o) B) None).
  assert (Hz : zlen (take (Z.to_nat o) B) = o) by (unfold zlen in *; rewrite length_take; lia).
  split; [|split; [by rewrite zlen_cons, zlen_starts_in|split]].
  - unfold starts. rewrite <- (take_drop (Z.to_nat o) B) at 1. rewrite starts_in_app, Hz. done.
  - constructor; [lia|]. eapply Forall_impl; [apply starts_in_bounds|]. simpl. lia.
  - eapply Forall_impl; [apply starts_in_bounds|]. simpl. lia.
Qed.

(** The [k]-th line starts at or before an offset exactly when the offset's line is not
    before the [k]-th. *)
Lemma start_le B o k x : 0 <= o <= zlen B -> (starts B).[k] = Some x -> x <= o <-> k <= line_of B o.
Proof.
  intros Ho Hx. destruct (starts_split B o Ho) as (l & r & Es & Hl & Hfl & Hfr). rewrite Es in Hx.
  unfold at_ in Hx. destruct (Z.ltb_spec k 0); [done|]. unfold zlen in *.
  apply lookup_app_Some in Hx as [Hx|[Hge Hx]].
  - rewrite Forall_lookup in Hfl. pose proof (lookup_lt_Some _ _ _ Hx). specialize (Hfl _ _ Hx). lia.
  - rewrite Forall_lookup in Hfr. specialize (Hfr _ _ Hx). lia.
Qed.

Lemma start_at B k : 0 <= k <= breaks B -> exists x, (starts B).[k] = Some x /\ 0 <= x <= zlen B.
Proof.
  intros Hk. destruct (at_in_range (starts B) k) as [x Hx]; [rewrite zlen_starts; lia|]. exists x. split; [done|].
  apply at_elem_of in Hx. unfold starts in Hx. apply elem_of_cons in Hx as [-> |Hx]; [pose proof (zlen_nonneg B); lia|].
  pose proof (starts_in_bounds 0 B None) as Hf. rewrite Forall_forall in Hf. specialize (Hf _ Hx). simpl in Hf. lia.
Qed.

Lemma line_of_le B o : 0 <= o <= zlen B -> line_of B o <= breaks B.
Proof. intros. rewrite <- line_of_end. apply line_of_mono; lia. Qed.

Lemma nxt_drop B o : 0 <= o -> nxt (drop (Z.to_nat o) B) None = B.[o].
Proof.
  intros Ho. destruct (B.[o]) as [c|] eqn:Ec; [by rewrite (drop_at _ _ _ Ec)|].
  unfold at_ in Ec. destruct (Z.ltb_spec o 0); [lia|]. apply lookup_ge_None in Ec. by rewrite drop_ge.
Qed.

Lemma line_of_take B o : 0 <= o -> line_of B o = breaks_in (take (Z.to_nat o) B) (B.[o]).
Proof. intros. unfold line_of. by rewrite nxt_drop. Qed.

(** The starts of a text around one of its parts. *)
Lemma starts_in_sub B a b : 0 <= a <= b -> b <= zlen B ->
  starts_in 0 B None = starts_in 0 (take (Z.to_nat a) B) (B.[a]) ++ starts_in a (sub B a b) (B.[b]) ++ starts_in b (drop (Z.to_nat b) B) None.
Proof.
  intros Hab Hb. rewrite <- (take_drop (Z.to_nat a) B) at 1. rewrite starts_in_app, nxt_drop by lia.
  assert (Hz : zlen (take (Z.to_nat a) B) = a) by (unfold zlen in *; rewrite length_take; lia).
  rewrite Hz, Z.add_0_l. f_equal. rewrite (drop_sub B a b) by done. rewrite starts_in_app, nxt_drop, zlen_sub by lia.
  by replace (a + (b - a)) with b by lia.
Qed.

(** The start of the line of an offset. *)
Lemma line_start_of B o : 0 <= o <= zlen B -> exists x, (starts B).[line_of B o] = Some x /\ 0 <= x <= o /\ line_of B x = line_of B o.
Proof.
  intros Ho. pose proof (line_of_le B o Ho). pose proof (line_of_nonneg B o).
  destruct (start_at B (line_of B o)) as (x & Hx & Hr); [lia|]. exists x. split; [done|].
  pose proof (start_le B o _ _ Ho Hx). assert (Hxo : x <= o) by lia. split; [lia|].
  pose proof (start_le B x _ _ Hr Hx). pose proof (line_of_mono B x o ltac:(lia) ltac:(lia)). lia.
Qed.

Lemma at_cons {A} (a : A) l k : at_ (a :: l) k = if k =? 0 then Some a else at_ l (k - 1).
Proof.
  unfold at_. destruct (Z.eqb_spec k 0) as [->|]; [done|]. destruct (Z.ltb_spec k 0), (Z.ltb_spec (k - 1) 0); try lia; [done|].
  replace (Z.to_nat k) with (S (Z.to_nat (k - 1))) by lia. done.
Qed.

Lemma at_fmap {A B} (f : A -> B) l k : at_ (f <$> l) k = f <$> at_ l k.
Proof. unfold at_. destruct (Z.ltb_spec k 0); [done|]. apply list_lookup_fmap. Qed.

Lemma starts_in_next i s nx :
  starts_in i s None = starts_in i s nx ++ (if ends_cr s && is_char nx 10 then [i + zlen s] else []).
Proof.
  unfold ends_cr. revert i. induction s as [|c s IH]; intros i; [done|]. cbn [starts_in]. rewrite zlen_cons. destruct s as [|d s].
  - cbn. unfold ends. rewrite zlen_nil, Z.add_0_l. destruct (Z.eqb_spec c 10) as [->|]; simpl; [by destruct (is_char nx 10)|].
    destruct (Z.eqb_spec c 13); simpl; [|done]. by destruct (is_char nx 10).
  - rewrite IH. rewrite last_cons_cons, <- app_assoc. simpl nxt. by replace (i + 1 + zlen (d :: s)) with (i + (zlen (d :: s) + 1)) by lia.
Qed.

Lemma starts_in_lt i s nx k x y : (starts_in i s nx).[k] = Some x -> (starts_in i s nx).[k + 1] = Some y -> x < y.
Proof.
  revert i k. induction s as [|c s IH]; intros i k; cbn [starts_in]; [intros Hx%at_lt; unfold zlen in Hx; simpl in Hx; lia|].
  destruct (ends _ _); cbn [app]; [|apply IH]. rewrite !at_cons.
  destruct (Z.eqb_spec k 0); destruct (Z.eqb_spec (k + 1) 0); try lia.
  - intros [= <-] Hy%at_elem_of. pose proof (starts_in_bounds (i + 1) s nx) as Hf. rewrite Forall_forall in Hf.
    specialize (Hf _ Hy). simpl in Hf. lia.
  - intros Hx%at_lt. lia.
  - intros Hx Hy. apply (IH (i + 1) (k - 1)); [done|]. by replace (k - 1 + 1) with (k + 1 - 1) by lia.
Qed.

Lemma starts_lt B k x y : (starts B).[k] = Some x -> (starts B).[k + 1] = Some y -> x < y.
Proof.
  unfold starts. rewrite !at_cons. destruct (Z.eqb_spec k 0); destruct (Z.eqb_spec (k + 1) 0); try lia.
  - intros [= <-] Hy%at_elem_of. pose proof (starts_in_bounds 0 B None) as Hf. rewrite Forall_forall in Hf.
    specialize (Hf _ Hy). simpl in Hf. lia.
  - intros Hx%at_lt. lia.
  - intros Hx Hy. eapply starts_in_lt; [exact Hx|]. by replace (k - 1 + 1) with (k + 1 - 1) by lia.
Qed.

(** The offset where a line starts is on that line. *)
Lemma line_of_start B k x : (starts B).[k] = Some x -> line_of B x = k.
Proof.
  intros Hx. pose proof (at_lt _ _ _ Hx) as Hk. rewrite zlen_starts in Hk. destruct (start_at B k) as (x' & Hx' & Hr); [lia|].
  rewrite Hx in Hx'. injection Hx' as <-. pose proof (start_le B x _ _ Hr Hx). pose proof (line_of_le B x Hr).
  destruct (Z.eq_dec k (line_of B x)); [done|]. destruct (start_at B (k + 1)) as (y & Hy & _); [lia|].
  pose proof (starts_lt _ _ _ _ Hx Hy). pose proof (start_le B x _ _ Hr Hy). lia.
Qed.

Lemma sub_one B o c : B.[o] = Some c -> sub B o (o + 1) = [c].
Proof. intros Hc. unfold sub. rewrite (drop_at _ _ _ Hc). by replace (Z.to_nat (o + 1 - o)) with 1%nat by lia. Qed.

(** One step to the right. *)
Lemma line_of_step B o c : B.[o] = Some c -> line_of B (o + 1) = line_of B o + (if ends c (B.[o + 1]) then 1 else 0).
Proof.
  intros Hc. pose proof (at_lt _ _ _ Hc). rewrite (line_of_diff B o (o + 1)), (sub_one _ _ _ Hc), nxt_drop by lia.
  cbn [breaks_in nxt]. lia.
Qed.

(** A line starts at an offset exactly when the code unit before it ends one. *)
Lemma start_step B o c x : B.[o] = Some c -> (starts B).[line_of B (o + 1)] = Some x -> (x = o + 1 <-> ends c (B.[o + 1]) = true).
Proof.
  intros Hc Hx. pose proof (at_lt _ _ _ Hc). pose proof (line_of_step _ _ _ Hc) as Hs.
  pose proof (start_le B o _ _ ltac:(lia) Hx) as H1. pose proof (start_le B (o + 1) _ _ ltac:(lia) Hx) as H2.
  destruct (ends c _); split; try done; lia.
Qed.

(** The starts of a part are those of the text. *)
Lemma starts_sub B a b k x :
  0 <= a <= b -> b <= zlen B -> 1 <= k -> line_of B a + k <= line_of B b -> (starts B).[line_of B a + k] = Some x ->
  (starts (sub B a b)).[k] = Some (x - a).
Proof.
  intros Hab Hb Hk Hle Hx. unfold starts in *. rewrite at_cons in *. pose proof (line_of_nonneg B a).
  destruct (Z.eqb_spec (line_of B a + k) 0); [lia|]. destruct (Z.eqb_spec k 0); [lia|].
  rewrite (starts_in_sub B a b) in Hx by lia. set (str := sub B a b) in *.
  rewrite at_app_r, zlen_starts_in in Hx by (rewrite zlen_starts_in, <- line_of_take by lia; lia).
  rewrite <- line_of_take in Hx by lia. replace (line_of B a + k - 1 - line_of B a) with (k - 1) in Hx by lia.
  assert (Hlen : line_of B b = line_of B a + zlen (starts_in a str (B.[b])))
    by (rewrite (line_of_diff B a b), nxt_drop, zlen_starts_in by lia; done).
  rewrite at_app_l in Hx by lia. pose proof (starts_in_next a str (B.[b])) as Hnx.
  assert (Hx' : (starts_in a str None).[k - 1] = Some x) by (by rewrite Hnx, at_app_l by lia).
  pose proof (starts_in_shift 0 a str None) as Hsh. rewrite Z.add_0_l in Hsh. rewrite Hsh, at_fmap in Hx'.
  destruct ((starts_in 0 str None).[k - 1]) as [y|]; [|done]. injection Hx' as <-. f_equal. lia.
Qed.

(** Is the offset inside a CRLF? *)
Definition in_crlf (B : list Z) (o : Z) : bool := is_char (B.[o - 1]) 13 && is_char (B.[o]) 10.

Lemma in_crlf_inv B o : in_crlf B o = true -> B.[o - 1] = Some 13 /\ B.[o] = Some 10.
Proof.
  unfold in_crlf. destruct (B.[o - 1]) as [x|]; [|done]. destruct (B.[o]) as [y|]; [|by rewrite andb_false_r]. simpl.
  intros [->%Z.eqb_eq ->%Z.eqb_eq]%andb_true_iff. done.
Qed.

Lemma last_sub B a b : 0 <= a < b -> b <= zlen B -> last (sub B a b) = B.[b - 1].
Proof.
  intros. rewrite <- (sub_join B a (b - 1) b) by lia. destruct (at_in_range B (b - 1) ltac:(lia)) as [x Hx].
  pose proof (sub_one _ _ _ Hx) as Hs. replace (b - 1 + 1) with b in Hs by lia. by rewrite Hs, last_snoc, Hx.
Qed.

Lemma line_of_sub B a b x :
  0 <= a <= b -> b <= zlen B -> 0 <= x <= b - a -> x < b - a \/ in_crlf B b = false ->
  line_of (sub B a b) x = line_of B (a + x) - line_of B a.
Proof.
  intros Hab Hb Hx Hor. rewrite (line_of_diff B a (a + x)), nxt_drop, line_of_take by lia.
  assert (Ht : take (Z.to_nat x) (sub B a b) = sub B a (a + x)).
  { unfold sub. rewrite take_take. f_equal. lia. }
  rewrite Ht. destruct (Z.eq_dec x (b - a)) as [->|Hne].
  - replace (a + (b - a)) with b by lia. rewrite (breaks_in_next _ (B.[b])).
    assert (Hnone : (sub B a b).[b - a] = None).
    { unfold at_. destruct (Z.ltb_spec (b - a) 0); [done|]. apply lookup_ge_None. pose proof (zlen_sub B a b). unfold zlen in *. lia. }
    rewrite Hnone. unfold breaks. destruct (Z.eq_dec a b) as [->|]; [rewrite sub_same; simpl; lia|].
    destruct Hor as [|Hcr]; [lia|]. unfold in_crlf in Hcr. unfold ends_cr. rewrite last_sub, Hcr by lia. lia.
  - assert (Hat : (sub B a b).[x] = B.[a + x]).
    { unfold sub, at_. destruct (Z.ltb_spec x 0), (Z.ltb_spec (a + x) 0); try lia.
      rewrite lookup_take_lt, lookup_drop by lia. f_equal. lia. }
    rewrite Hat. lia.
Qed.

(** The last line of a part that ends inside a CRLF starts at its end. *)
Lemma end_crlf_start B a b : in_crlf B b = true -> 0 <= a < b -> b <= zlen B ->
  (starts (sub B a b)).[breaks (sub B a b)] = Some (b - a).
Proof.
  intros [H1 H2]%in_crlf_inv Hab Hb. set (str := sub B a b). assert (Hz : zlen str = b - a) by (apply zlen_sub; lia).
  pose proof (last_sub B a b Hab Hb) as Hl. rewrite H1 in Hl. fold str in Hl. rewrite <- Hz.
  destruct (line_start_of str (zlen str)) as (x & Hx & _); [lia|]. rewrite line_of_end in Hx. rewrite Hx. f_equal.
  assert (Hlast : str.[zlen str - 1] = Some 13).
  { unfold at_, zlen in *. destruct (Z.ltb_spec (Z.of_nat (List.length str) - 1) 0); [lia|].
    rewrite last_lookup in Hl. rewrite <- Hl. f_equal. lia. }
  pose proof (start_step str (zlen str - 1) 13 x Hlast) as Hs. replace (zlen str - 1 + 1) with (zlen str) in Hs by lia.
  rewrite line_of_end in Hs. apply (Hs Hx). unfold at_, zlen. destruct (Z.ltb_spec (Z.of_nat (List.length str)) 0); [lia|].
  by rewrite lookup_ge_None_2 by lia.
Qed.

(** ** Cursors *)

Definition cursor_at (B : list Z) (c : BufferCursor) (o : Z) : Prop :=
  0 <= o <= zlen B /\ line c = line_of B o /\ (starts B).[line c] = Some (o - column c).

(** Every offset has one cursor. *)
Lemma cursor_at_exists B o : 0 <= o <= zlen B -> exists c, cursor_at B c o.
Proof.
  intros Ho. destruct (line_start_of B o Ho) as (x & Hx & _). exists (mkCursor (line_of B o) (o - x)).
  split; [done|]. split; [done|]. cbn [line column]. rewrite Hx. f_equal. lia.
Qed.

Lemma cursor_at_unique B c c' o : cursor_at B c o -> cursor_at B c' o -> c = c'.
Proof.
  intros (_ & H1 & H2) (_ & H3 & H4). destruct c as [l k], c' as [l' k']. cbn [line column] in *. subst.
  rewrite H2 in H4. injection H4. intros. f_equal. lia.
Qed.

Lemma cursor_column B c o : cursor_at B c o -> 0 <= column c <= o.
Proof.
  intros (Ho & Hl & Hc). pose proof (start_le B o _ _ Ho Hc). destruct (start_at B (line c)) as (x & Hx & Hr).
  { pose proof (at_lt _ _ _ Hc). rewrite zlen_starts in *. lia. }
  rewrite Hc in Hx. injection Hx as <-. lia.
Qed.

(** A cursor at a column 0 is at the start of its line, which is not inside a CRLF. *)
Lemma column_0_crlf B c o : cursor_at B c o -> column c = 0 -> in_crlf B o = false.
Proof.
  intros (Ho & Hl & Hc) H0. unfold in_crlf. destruct (B.[o - 1]) as [x|] eqn:Ex; [|done]. simpl.
  destruct (Z.eqb_spec x 13) as [->|]; [|done]. simpl. destruct (B.[o]) as [y|] eqn:Ey; [|done]. simpl.
  destruct (Z.eqb_spec y 10) as [->|]; [|done]. exfalso. rewrite H0, Z.sub_0_r, Hl in Hc.
  pose proof (start_step B (o - 1) 13 o Ex) as Hs. replace (o - 1 + 1) with o in Hs by lia.
  specialize (Hs Hc). rewrite Ey in Hs.
  assert (ends 13 (Some 10) = true) by (apply Hs; lia). done.
Qed.

(** ** The conversions are right *)

Definition buffer_ok (b : StringBuffer) : Prop := lineStarts b = starts (buffer b) /\ zlen (buffer b) < 2 ^ 31 - 1.

Section conversions.
Context (bufs : list StringBuffer) (i : Z) (b : StringBuffer).
Hypothesis Hi : bufs.[i] = Some b.
Hypothesis Hok : buffer_ok b.

Let B := buffer b.

Lemma get_buffer_ok : get_buffer bufs i = Ok b.
Proof. unfold get_buffer. by rewrite Hi. Qed.

Lemma line_start_ok k x : (starts B).[k] = Some x -> line_start b k = Ok x.
Proof. destruct Hok as [Hls _]. unfold line_start. rewrite Hls. fold B. by intros ->. Qed.

Lemma offsetInBuffer_ok c o : cursor_at B c o -> offsetInBuffer bufs i c = Ok o.
Proof.
  intros (Ho & Hl & Hc). unfold offsetInBuffer. rewrite get_buffer_ok. simpl. rewrite (line_start_ok _ _ Hc). simpl.
  f_equal. lia.
Qed.
Lemma position_loop_ok o fuel low high mid midStart :
  0 <= o <= zlen B -> 0 <= low <= line_of B o -> line_of B o <= high <= breaks B -> high - low + 1 <= Z.of_nat fuel ->
  exists x, position_loop fuel b o low high mid midStart = Ok (line_of B o, x) /\ (starts B).[line_of B o] = Some x.
Proof.
  intros Ho. revert low high mid midStart. induction fuel as [|fuel IH]; intros low high mid midStart Hlow Hhigh Hf; [lia|].
  cbn [position_loop]. destruct (Z.leb_spec low high); [|lia].
  assert (Hmid : to_int32 (low + (high - low) / 2) = low + (high - low) / 2 /\ low <= low + (high - low) / 2 <= high).
  { assert (Hb : breaks B <= zlen B) by apply breaks_in_le. destruct Hok as [_ Hlen]. fold B in Hlen.
    assert (Hm : low <= low + (high - low) / 2 <= high) by (Z.div_mod_to_equations; lia).
    split; [|done]. apply to_int32_id. unfold is_int32. lia. }
  destruct Hmid as [-> Hmid]. set (m := low + (high - low) / 2) in *. cbv zeta.
  destruct (start_at B m) as (x & Hx & _); [lia|]. rewrite (line_start_ok _ _ Hx). cbn [result_bind].
  pose proof (start_le B o m x Ho Hx) as Hle.
  destruct (Z.eqb_spec m high) as [E|E].
  { assert (low = high) by (unfold m in E; Z.div_mod_to_equations; lia).
    assert (line_of B o = m) as -> by lia. by exists x. }
  destruct (start_at B (m + 1)) as (y & Hy & _); [lia|]. rewrite (line_start_ok _ _ Hy). cbn [result_bind].
  pose proof (start_le B o (m + 1) y Ho Hy) as Hle'.
  destruct (Z.ltb_spec o x); [apply IH; lia|]. rewrite Z.geb_leb.
  destruct (Z.leb_spec y o); [apply IH; lia|]. assert (line_of B o = m) as -> by lia. by exists x.
Qed.

Section piece.
Context (p : Piece) (oa ob : Z).
Hypothesis Hpi : bufferIndex p = i.
Hypothesis Ha : cursor_at B (start p) oa.
Hypothesis Hb : cursor_at B (end_ p) ob.
Hypothesis Hab : oa <= ob.

Lemma positionInBuffer_ok rem :
  0 <= rem <= ob - oa -> exists c, positionInBuffer bufs p rem = Ok c /\ cursor_at B c (oa + rem).
Proof.
  intros Hrem. pose proof Ha as (Hoa & Hla & Hca). pose proof Hb as (Hob & Hlb & Hcb).
  unfold positionInBuffer. rewrite Hpi, get_buffer_ok. cbn [result_bind]. rewrite (line_start_ok _ _ Hca). cbn [result_bind].
  replace (oa - column (start p) + column (start p) + rem) with (oa + rem) by lia.
  pose proof (line_of_mono B oa (oa + rem) ltac:(lia) ltac:(lia)). pose proof (line_of_mono B (oa + rem) ob ltac:(lia) ltac:(lia)).
  pose proof (line_of_nonneg B oa). pose proof (line_of_le B ob Hob).
  destruct (position_loop_ok (oa + rem) (S (Z.to_nat (line (end_ p) - line (start p) + 1))) (line (start p)) (line (end_ p)) 0 0)
    as (x & -> & Hx); [lia..|]. cbn [result_bind].
  eexists. split; [done|]. split; [lia|]. split; [done|]. cbn [line column]. rewrite Hx. f_equal. lia.
Qed.
End piece.

Lemma getLineFeedCnt_ok ca cb oa ob :
  cursor_at B ca oa -> cursor_at B cb ob ->
  getLineFeedCnt bufs i ca cb = Ok (line cb - line ca + (if in_crlf B ob then 1 else 0)).
Proof.
  intros Ha Hb. unfold getLineFeedCnt. destruct (Z.eqb_spec (column cb) 0) as [E|E].
  { rewrite (column_0_crlf _ _ _ Hb E). f_equal. lia. }
  pose proof Hb as (Hob & Hlb & Hcb). pose proof (cursor_column _ _ _ Hb) as Hcol. rewrite get_buffer_ok. cbn [result_bind].
  destruct Hok as [Hls _]. fold B in Hls. rewrite Hls, zlen_starts.
  assert (Hin : in_crlf B ob = true -> B.[ob - 1] = Some 13 /\ B.[ob] = Some 10).
  { unfold in_crlf. destruct (B.[ob - 1]) as [x|]; [|done]. destruct (B.[ob]) as [y|]; [|by rewrite andb_false_r]. simpl.
    intros [->%Z.eqb_eq ->%Z.eqb_eq]%andb_true_iff. done. }
  assert (Hnext : in_crlf B ob = true -> line_of B (ob + 1) = line cb + 1).
  { intros [_ H10]%Hin. rewrite (line_of_step _ _ _ H10), Hlb. done. }
  destruct (Z.eqb_spec (line cb) (breaks B + 1 - 1)) as [El|El].
  { destruct (in_crlf B ob); [|f_equal; lia]. specialize (Hnext eq_refl). destruct (Hin eq_refl) as [_ Hlt%at_lt].
    pose proof (line_of_le B (ob + 1) ltac:(lia)). lia. }
  pose proof (line_of_le B ob Hob). pose proof (line_of_nonneg B ob).
  destruct (start_at B (line cb + 1)) as (y & Hy & Hyr); [lia|]. rewrite (line_start_ok _ _ Hy). cbn [result_bind].
  rewrite (line_start_ok _ _ Hcb). cbn [result_bind]. replace (ob - column cb + column cb) with ob by lia.
  pose proof (start_le B ob _ _ Hob Hy) as H1.
  assert (Hob1 : ob < zlen B) by (pose proof (line_of_mono B y ob); pose proof (line_of_start _ _ _ Hy); lia).
  pose proof (start_le B (ob + 1) _ _ ltac:(lia) Hy) as H2. rewrite Z.gtb_ltb. destruct (Z.ltb_spec (ob + 1) y) as [Hgt|Hle].
  { destruct (in_crlf B ob); [|f_equal; lia]. specialize (Hnext eq_refl). lia. }
  assert (y = ob + 1) as -> by lia. destruct (at_in_range B ob ltac:(lia)) as [d Hd].
  pose proof (line_of_start _ _ _ Hy) as Hl1. rewrite (line_of_step _ _ _ Hd) in Hl1. unfold in_crlf, charCodeAt. fold B.
  destruct (B.[ob - 1]) as [x|] eqn:Ex; simpl; [|f_equal; lia]. destruct (Z.eqb_spec x 13) as [->|]; simpl; [|f_equal; lia].
  rewrite Hd. simpl. destruct (Z.eqb_spec d 10); [done|]. exfalso. apply E.
  rewrite Hlb in Hcb. pose proof (start_step B (ob - 1) 13 (ob - column cb) Ex) as Hst.
  replace (ob - 1 + 1) with ob in Hst by lia. specialize (Hst Hcb). rewrite Hd in Hst.
  assert (Hends : ends 13 (Some d) = true) by (unfold ends; simpl; by destruct (Z.eqb_spec d 10)). apply Hst in Hends. lia.
Qed.

(** The line feeds of a part of the buffer that is not empty are its line breaks. *)
Lemma getLineFeedCnt_breaks ca cb oa ob :
  cursor_at B ca oa -> cursor_at B cb ob -> oa < ob -> getLineFeedCnt bufs i ca cb = Ok (breaks (sub B oa ob)).
Proof.
  intros Ha Hb Hab. rewrite (getLineFeedCnt_ok _ _ _ _ Ha Hb). f_equal.
  destruct Ha as (Hoa & -> & _), Hb as (Hob & -> & _). rewrite (line_of_diff B oa ob) by lia.
  rewrite nxt_drop, breaks_in_next by lia. unfold in_crlf, ends_cr.
  assert (Hl : last (sub B oa ob) = B.[ob - 1]).
  { rewrite <- (sub_join B oa (ob - 1) ob) by lia. destruct (at_in_range B (ob - 1) ltac:(lia)) as [x Hx].
    pose proof (sub_one _ _ _ Hx) as Hs. replace (ob - 1 + 1) with ob in Hs by lia. by rewrite Hs, last_snoc, Hx. }
  rewrite Hl. lia.
Qed.
(** What [getAccumulatedValue] finds: where the line after [index] starts in the piece, or
    the end of the piece. *)
Definition accumulated (str : list Z) (index : Z) : Z :=
  if index <? 0 then 0 else default (zlen str) ((starts str).[index + 1]).

Section piece.
Context (p : Piece) (oa ob : Z).
Hypothesis Hpi : bufferIndex p = i.
Hypothesis Ha : cursor_at B (start p) oa.
Hypothesis Hb : cursor_at B (end_ p) ob.
Hypothesis Hab : oa <= ob.

Lemma getAccumulatedValue_ok index : getAccumulatedValue bufs p index = Ok (accumulated (sub B oa ob) index).
Proof.
  unfold getAccumulatedValue, accumulated. destruct (Z.ltb_spec index 0) as [|Hk]; [done|].
  pose proof Ha as (Hoa & Hla & Hca). pose proof Hb as (Hob & Hlb & Hcb). set (str := sub B oa ob).
  rewrite Hpi, get_buffer_ok. cbn [result_bind]. rewrite (line_start_ok _ _ Hca). cbn [result_bind].
  rewrite Z.gtb_ltb, Hla, Hlb. unfold starts. rewrite at_cons. destruct (Z.eqb_spec (index + 1) 0); [lia|].
  replace (index + 1 - 1) with index by lia.
  pose proof (starts_in_next oa str (B.[ob])) as Hnx.
  pose proof (starts_in_shift 0 oa str None) as Hsh. rewrite Z.add_0_l in Hsh.
  assert (Hlen : line_of B ob = line_of B oa + zlen (starts_in oa str (B.[ob])))
    by (rewrite (line_of_diff B oa ob), nxt_drop, zlen_starts_in by lia; done).
  assert (Hstr : zlen str = ob - oa) by (apply zlen_sub; lia).
  destruct (Z.ltb_spec (line_of B ob) (line_of B oa + index + 1)) as [Hgt|Hle].
  - rewrite <- Hlb, (line_start_ok _ _ Hcb). cbn [result_bind]. f_equal.
    destruct ((starts_in 0 str None).[index]) as [x|] eqn:Ex; simpl; [|lia].
    assert (Hx : (starts_in oa str None).[index] = Some (x + oa)) by (by rewrite Hsh, at_fmap, Ex).
    rewrite Hnx, at_app_r in Hx by lia. destruct (ends_cr str && _); [|by apply at_lt in Hx; unfold zlen in Hx; simpl in Hx; lia].
    apply at_singleton in Hx as [_ Hx]. lia.
  - destruct (start_at B (line_of B oa + index + 1)) as (x & Hx & _); [pose proof (line_of_le B ob); pose proof (line_of_nonneg B oa); lia|].
    rewrite (line_start_ok _ _ Hx). cbn [result_bind]. f_equal.
    rewrite <- Z.add_assoc in Hx. apply (starts_sub B oa ob) in Hx; [|lia..].
    unfold starts in Hx. rewrite at_cons in Hx. destruct (Z.eqb_spec (index + 1) 0); [lia|].
    replace (index + 1 - 1) with index in Hx by lia. fold str in Hx. rewrite Hx. simpl. lia.
Qed.

Lemma piece_getIndexOf acc :
  0 <= acc <= ob - oa -> oa < ob ->
  exists r, getIndexOf bufs p acc = Ok (line_of (sub B oa ob) acc, r) /\
    (0 < line_of (sub B oa ob) acc -> (starts (sub B oa ob)).[line_of (sub B oa ob) acc] = Some (acc - r)).
Proof.
  intros Hacc Hlt. pose proof Ha as (Hoa & Hla & Hca). pose proof Hb as (Hob & Hlb & Hcb). set (str := sub B oa ob).
  assert (Hstr : zlen str = ob - oa) by (apply zlen_sub; lia).
  destruct (positionInBuffer_ok p oa ob Hpi Ha Hb acc Hacc) as (pos & Hpos & Hc).
  unfold getIndexOf. rewrite Hpos. cbn [result_bind]. rewrite Hpi, (offsetInBuffer_ok _ _ Hb). cbn [result_bind].
  rewrite (offsetInBuffer_ok _ _ Ha). cbn [result_bind]. rewrite (getLineFeedCnt_ok _ _ _ _ Ha Hc). cbn [result_bind].
  pose proof Hc as (Ho & Hl & Hcc).
  assert (Hin : acc = ob - oa -> in_crlf B (oa + acc) = true ->
    line_of str acc = line pos - line (start p) + 1 /\ (starts str).[line_of str acc] = Some acc).
  { intros -> Hcr. replace (oa + (ob - oa)) with ob in * by lia. rewrite <- Hstr, line_of_end.
    split; [|rewrite Hstr; apply end_crlf_start; [done|lia|lia]].
    pose proof (getLineFeedCnt_breaks _ _ _ _ Ha Hb Hlt) as H1. rewrite (getLineFeedCnt_ok _ _ _ _ Ha Hb), Hcr in H1.
    injection H1 as H1. fold str in H1. lia. }
  assert (Hout : (acc = ob - oa -> in_crlf B (oa + acc) = false) -> line_of str acc = line pos - line (start p) /\
    (0 < line_of str acc -> (starts str).[line_of str acc] = Some (acc - column pos))).
  { intros Hcr. assert (E : line_of str acc = line pos - line (start p)).
    { rewrite Hl, Hla. apply line_of_sub; [lia..|]. destruct (Z.eq_dec acc (ob - oa)) as [E|]; [right|by left; lia].
      rewrite E in Hcr. replace (oa + (ob - oa)) with ob in Hcr by lia. by apply Hcr. }
    split; [done|]. rewrite E. intros Hpos0. replace (acc - column pos) with (oa + acc - column pos - oa) by lia.
    apply (starts_sub B oa ob); [lia..|rewrite Hl; pose proof (line_of_mono B (oa + acc) ob); lia|].
    rewrite <- Hcc. f_equal. lia. }
  destruct (Z.eqb_spec (ob - oa) acc) as [E|E].
  - destruct (in_crlf B (oa + acc)) eqn:Ecr; cbv iota.
    + destruct (Hin ltac:(lia) eq_refl) as [E1 Hs]. destruct (Z.eqb_spec (line pos - line (start p) + 1) (line pos - line (start p))); [lia|].
      exists 0. split; [by rewrite E1|]. intros _. by rewrite Z.sub_0_r.
    + destruct (Hout ltac:(done)) as [E1 Hs]. rewrite Z.add_0_r, Z.eqb_refl. exists (column pos). split; [by rewrite E1|done].
  - destruct (Hout ltac:(lia)) as [E1 Hs]. exists (column pos). split; [by rewrite E1|done].
Qed.

Lemma getPieceContent_ok : getPieceContent bufs p = Ok (sub B oa ob).
Proof.
  unfold getPieceContent. rewrite Hpi, get_buffer_ok. cbn [result_bind]. rewrite (offsetInBuffer_ok _ _ Ha). cbn [result_bind].
  rewrite (offsetInBuffer_ok _ _ Hb). cbn [result_bind]. fold B. rewrite substring_sub; [done|..]; destruct Ha, Hb; lia.
Qed.
End piece.
End conversions.
