(* ===== verification/PtSpan.v ===== *)
(** * The parts of text buffers that pieces are

    What a cursor means when a buffer grows, the line starts of a text and of one text after
    another, and [has_text bufs p str]: the piece [p] is well formed in the buffers [bufs]
    and stands for the text [str].  A piece of a text is cut in two at the cursor
    [positionInBuffer] finds, and one code unit can be taken off at either end. *)

From S2P Require Import Prelude Length RbTree PtBuffer.

#[local] Open Scope js_scope.
#[local] Arguments Z.eqb : simpl never.
#[local] Arguments Z.ltb : simpl never.
#[local] Arguments Z.add : simpl never.
#[local] Arguments Z.sub : simpl never.

Implicit Types B t : list Z.

(** ** One text after another *)

(** Does a CRLF lie across the two texts? *)
Definition torn (a b : list Z) : bool := ends_cr a && is_char (nxt b None) 10.

Lemma torn_nil_l b : torn [] b = false.
Proof. done. Qed.

Lemma torn_nil_r a : torn a [] = false.
Proof. unfold torn. by rewrite andb_false_r. Qed.

Lemma torn_app_l a b c : b <> [] -> torn (a ++ b) c = torn b c.
Proof. intros Hb. unfold torn, ends_cr. destruct b as [|x b _] using rev_ind; [done|]. by rewrite app_assoc, !last_snoc. Qed.

Lemma torn_app_r a b c : b <> [] -> torn a (b ++ c) = torn a b.
Proof. by destruct b. Qed.

Lemma breaks_app_torn a b : breaks (a ++ b) = breaks a + breaks b - (if torn a b then 1 else 0).
Proof. apply breaks_app. Qed.

Lemma starts_tail n t : drop 1 ((fun x : Z => x + n) <$> starts t) = starts_in n t None.
Proof. unfold starts. cbn [fmap list_fmap drop]. pose proof (starts_in_shift 0 n t None) as H. by rewrite Z.add_0_l in H. Qed.

Lemma starts_app_eq B t : starts (B ++ t) = 0 :: starts_in 0 B (nxt t None) ++ starts_in (zlen B) t None.
Proof. unfold starts. by rewrite starts_in_app, Z.add_0_l. Qed.

Lemma starts_torn B t : starts B = (0 :: starts_in 0 B (nxt t None)) ++ (if torn B t then [zlen B] else []).
Proof. unfold starts, torn. rewrite (starts_in_next 0 B (nxt t None)), Z.add_0_l. done. Qed.

Lemma starts_app B t : torn B t = false -> starts (B ++ t) = starts B ++ drop 1 ((fun x : Z => x + zlen B) <$> starts t).
Proof. intros Ht. rewrite starts_tail, starts_app_eq, (starts_torn B t), Ht, app_nil_r. done. Qed.

Lemma starts_app_torn B t :
  torn B t = true -> starts (B ++ t) = removelast (starts B) ++ drop 1 ((fun x : Z => x + zlen B) <$> starts t).
Proof. intros Ht. rewrite starts_tail, starts_app_eq, (starts_torn B t), Ht, removelast_last. done. Qed.

(** The last line of a text that ends with a CR is empty. *)
Lemma starts_last_cr B : ends_cr B = true -> (starts B).[breaks B] = Some (zlen B).
Proof.
  intros Hc. rewrite (starts_torn B [10]). unfold torn. rewrite Hc. simpl is_char. simpl andb. cbv iota.
  assert (Hz : zlen (0 :: starts_in 0 B (nxt [10] None)) = breaks B).
  { rewrite zlen_cons, zlen_starts_in, breaks_in_next, Hc. simpl. lia. }
  rewrite at_app_r, Hz, Z.sub_diag by lia. done.
Qed.

Lemma at_zlen_last {A} (l : list A) : at_ l (zlen l - 1) = last l.
Proof.
  destruct l as [|x l _] using rev_ind; [done|]. rewrite last_snoc, zlen_app, at_app_r; [|unfold zlen; simpl; lia].
  replace (zlen l + zlen [x] - 1 - zlen l) with 0 by (unfold zlen; simpl; lia). done.
Qed.

Lemma line_of_grow B t o : 0 <= o <= zlen B -> o < zlen B \/ torn B t = false -> line_of (B ++ t) o = line_of B o.
Proof.
  intros Ho Hor. rewrite !line_of_take by lia. rewrite take_app_le by (unfold zlen in *; lia).
  destruct (Z.eq_dec o (zlen B)) as [->|]; [|by rewrite at_app_l by lia].
  destruct Hor as [|Ht]; [lia|]. rewrite at_app_r, Z.sub_diag by lia.
  assert (Hall : take (Z.to_nat (zlen B)) B = B) by (unfold zlen; by rewrite Nat2Z.id, firstn_all). rewrite Hall.
  rewrite (breaks_in_next B (t.[0])), (breaks_in_next B (B.[zlen B])). unfold torn in Ht.
  assert (t.[0] = nxt t None) as -> by (by destruct t). rewrite Ht.
  assert (B.[zlen B] = None) as ->; [|by rewrite andb_false_r].
  unfold at_, zlen. destruct (Z.ltb_spec (Z.of_nat (List.length B)) 0); [done|]. apply lookup_ge_None. lia.
Qed.

Lemma cursor_grow B t c o : cursor_at B c o -> o < zlen B \/ torn B t = false -> cursor_at (B ++ t) c o.
Proof.
  intros (Ho & Hl & Hc) Hor. rewrite <- (line_of_grow B t) in Hl by done. pose proof (zlen_nonneg t).
  split; [rewrite zlen_app; lia|]. split; [done|]. destruct (torn B t) eqn:Et; [|rewrite starts_app by done; pose proof (at_lt _ _ _ Hc); by rewrite at_app_l by lia].
  destruct Hor as [Hlt|]; [|done]. rewrite starts_app_torn by done. pose proof (starts_torn B t) as Hs. rewrite Et in Hs.
  assert (Hb : line c < zlen (starts B) - 1).
  { rewrite zlen_starts, Hl, line_of_grow by auto.
    destruct (at_in_range B (zlen B - 1)) as [x Hx]; [lia|]. rewrite at_zlen_last in Hx.
    unfold torn, ends_cr in Et. rewrite Hx in Et. apply andb_prop in Et as [Et _]. simpl in Et. apply Z.eqb_eq in Et as ->.
    rewrite <- at_zlen_last in Hx. pose proof (line_of_step _ _ _ Hx) as Hst. replace (zlen B - 1 + 1) with (zlen B) in Hst by lia.
    rewrite line_of_end in Hst. assert (Hn : B.[zlen B] = None).
    { unfold at_, zlen. destruct (Z.ltb_spec (Z.of_nat (List.length B)) 0); [done|]. apply lookup_ge_None. lia. }
    rewrite Hn in Hst. change (ends 13 None) with true in Hst. cbv iota in Hst. pose proof (line_of_mono B o (zlen B - 1)). lia. }
  rewrite Hs in Hb, Hc |- *. rewrite zlen_app in Hb. rewrite removelast_last.
  assert (Hb' : line c < zlen (0 :: starts_in 0 B (nxt t None))) by (unfold zlen in *; simpl List.length in *; lia).
  rewrite at_app_l in Hc by done. by rewrite at_app_l by done.
Qed.

Lemma cursor_offset_unique B c o o' : cursor_at B c o -> cursor_at B c o' -> o = o'.
Proof. intros (_ & _ & H1) (_ & _ & H2). rewrite H1 in H2. injection H2. lia. Qed.

Lemma cursor_start B : cursor_at B (mkCursor 0 0) 0.
Proof. pose proof (zlen_nonneg B). split; [lia|]. cbn [line column]. by rewrite line_of_0. Qed.

(** The cursor of the end, from the last line start. *)
Lemma cursor_end B x : (starts B).[zlen (starts B) - 1] = Some x -> cursor_at B (mkCursor (zlen (starts B) - 1) (zlen B - x)) (zlen B).
Proof.
  intros Hx. pose proof (zlen_nonneg B). split; [lia|]. cbn [line column]. rewrite Hx. rewrite zlen_starts, line_of_end.
  split; [lia|]. f_equal. lia.
Qed.

(** ** The line starts the code computes *)

Lemma fmap_mod_id (w : Z) (l : list Z) : Forall (fun x => 0 <= x < w) l -> (fun x => x mod w) <$> l = l.
Proof. induction 1 as [|x l Hx Hl IH]; [done|]. rewrite fmap_cons, IH, Z.mod_small by done. done. Qed.

Lemma createLineStartsFast_ok B readonly : zlen B < 2 ^ 32 -> createLineStartsFast B readonly = starts B.
Proof.
  intros Hlen. unfold createLineStartsFast. rewrite line_starts_at_eq. fold (starts B). destruct readonly; [|done].
  unfold createUintArray. pose proof (breaks_in_nonneg B None) as Hb. fold (breaks B) in Hb.
  destruct (start_at B (breaks B)) as (x & Hx & Hr); [lia|]. rewrite zlen_starts.
  replace (breaks B + 1 - 1) with (breaks B) by lia. rewrite Hx. apply fmap_mod_id. apply Forall_forall. intros y Hy.
  apply elem_of_at in Hy as [k Hk]. pose proof (at_lt _ _ _ Hk) as Hkr. rewrite zlen_starts in Hkr.
  pose proof (start_le B x k y Hr Hk) as Hle. rewrite (line_of_start _ _ _ Hx) in Hle.
  destruct (start_at B k) as (y' & Hy' & Hyr); [lia|]. rewrite Hk in Hy'. injection Hy' as <-.
  destruct (Z.ltb_spec x 65536); lia.
Qed.

Lemma starts_nil : starts [] = [0].
Proof. done. Qed.

(** ** Pieces *)

(** The text between two cursors of a buffer. *)
Definition span (bufs : list StringBuffer) (i : Z) (c1 c2 : BufferCursor) (str : list Z) : Prop :=
  exists b oa, bufs.[i] = Some b /\ buffer_ok b /\ cursor_at (buffer b) c1 oa /\ cursor_at (buffer b) c2 (oa + zlen str) /\
    str = sub (buffer b) oa (oa + zlen str).

(** The line feeds of an empty piece are not constrained. *)
Definition has_text (bufs : list StringBuffer) (p : Piece) (str : list Z) : Prop :=
  span bufs (bufferIndex p) (start p) (end_ p) str /\ length p = zlen str /\ (str <> [] -> lineFeedCnt p = breaks str).

(** The first cursors of two parts are at the same place. *)
Lemma span_offsets bufs i c1 c2 str :
  span bufs i c1 c2 str -> exists oa, offsetInBuffer bufs i c1 = Ok oa /\ offsetInBuffer bufs i c2 = Ok (oa + zlen str).
Proof.
  intros (b & oa & Hi & Hok & H1 & H2 & _). exists oa.
  by rewrite (offsetInBuffer_ok _ _ _ Hi Hok _ _ H1), (offsetInBuffer_ok _ _ _ Hi Hok _ _ H2).
Qed.

Lemma span_lf bufs i c1 c2 str :
  span bufs i c1 c2 str -> exists n, getLineFeedCnt bufs i c1 c2 = Ok n /\ (str <> [] -> n = breaks str).
Proof.
  intros (b & oa & Hi & Hok & H1 & H2 & Hs). rewrite (getLineFeedCnt_ok _ _ _ Hi Hok _ _ _ _ H1 H2). eexists. split; [done|].
  intros Hne. pose proof (getLineFeedCnt_breaks _ _ _ Hi Hok _ _ _ _ H1 H2) as H. rewrite <- Hs in H.
  rewrite (getLineFeedCnt_ok _ _ _ Hi Hok _ _ _ _ H1 H2) in H.
  assert (oa < oa + zlen str) by (destruct str; [done|]; rewrite zlen_cons; pose proof (zlen_nonneg str); lia).
  specialize (H ltac:(done)). by injection H.
Qed.

Lemma take_of_sub B a b r : 0 <= r <= b - a -> take (Z.to_nat r) (sub B a b) = sub B a (a + r).
Proof. intros. unfold sub. rewrite take_take. f_equal. lia. Qed.

Lemma drop_of_sub B a b r : 0 <= a -> 0 <= r <= b - a -> drop (Z.to_nat r) (sub B a b) = sub B (a + r) b.
Proof. intros. unfold sub. rewrite skipn_firstn_comm, drop_drop. f_equal; [lia|]. f_equal. lia. Qed.

(** A cursor inside a part cuts it in two. *)
Lemma span_cut bufs i c1 c2 str b oa c r :
  bufs.[i] = Some b -> buffer_ok b -> cursor_at (buffer b) c1 oa -> cursor_at (buffer b) c2 (oa + zlen str) ->
  str = sub (buffer b) oa (oa + zlen str) -> 0 <= r <= zlen str -> cursor_at (buffer b) c (oa + r) ->
  span bufs i c1 c (take (Z.to_nat r) str) /\ span bufs i c c2 (drop (Z.to_nat r) str).
Proof.
  intros Hi Hok H1 H2 Hs Hr Hc. pose proof H1 as [Ho _].
  split; [exists b, oa|exists b, (oa + r)]; rewrite ?zlen_take, ?zlen_drop by done; (split; [done|]); (split; [done|]); (split; [done|]);
    replace (oa + r + (zlen str - r)) with (oa + zlen str) by lia; (split; [done|]); rewrite Hs at 1; [apply take_of_sub|apply drop_of_sub]; lia.
Qed.

Lemma positionInBuffer_cut bufs p str r :
  has_text bufs p str -> 0 <= r <= zlen str ->
  exists c, positionInBuffer bufs p r = Ok c /\
    span bufs (bufferIndex p) (start p) c (take (Z.to_nat r) str) /\ span bufs (bufferIndex p) c (end_ p) (drop (Z.to_nat r) str).
Proof.
  intros [(b & oa & Hi & Hok & H1 & H2 & Hs) _] Hr.
  destruct (positionInBuffer_ok _ _ _ Hi Hok p oa (oa + zlen str) eq_refl H1 H2 r) as (c & Hc & Hat); [lia|].
  exists c. split; [done|]. by eapply span_cut.
Qed.

Lemma span_content bufs p str : span bufs (bufferIndex p) (start p) (end_ p) str -> getPieceContent bufs p = Ok str.
Proof.
  intros (b & oa & Hi & Hok & H1 & H2 & Hs).
  rewrite (getPieceContent_ok _ _ _ Hi Hok p oa (oa + zlen str) eq_refl H1 H2); [by rewrite <- Hs|].
  pose proof (zlen_nonneg str). lia.
Qed.

(** The text of a piece is determined by its cursors. *)
Lemma span_unique bufs i c1 c2 s1 s2 : span bufs i c1 c2 s1 -> span bufs i c1 c2 s2 -> s1 = s2.
Proof.
  intros H1 H2. pose proof (span_content bufs (mkPiece i c1 c2 0 0) s1 H1) as E1.
  pose proof (span_content bufs (mkPiece i c1 c2 0 0) s2 H2) as E2. rewrite E1 in E2. by injection E2.
Qed.

(** ** One code unit less *)

Lemma span_head bufs i c1 c2 x str b oa :
  bufs.[i] = Some b -> buffer_ok b -> cursor_at (buffer b) c1 oa -> cursor_at (buffer b) c2 (oa + zlen (x :: str)) ->
  x :: str = sub (buffer b) oa (oa + zlen (x :: str)) -> (buffer b).[oa] = Some x.
Proof.
  intros Hi Hok [Ho _] [Ho2 _] Hs. rewrite zlen_cons in *. pose proof (zlen_nonneg str).
  destruct (at_in_range (buffer b) oa) as [y Hy]; [lia|]. rewrite Hy. f_equal.
  unfold sub in Hs. rewrite (drop_at _ _ _ Hy) in Hs. replace (Z.to_nat (oa + (zlen str + 1) - oa)) with (S (Z.to_nat (zlen str))) in Hs by lia.
  simpl in Hs. congruence.
Qed.

(** A LF at the start is given up. *)
Lemma drop_LF_ok bufs p str :
  has_text bufs p (10 :: str) ->
  exists c n, getLineFeedCnt bufs (bufferIndex p) (mkCursor (line (start p) + 1) 0) (end_ p) = Ok n /\ n = lineFeedCnt p - 1 /\
    c = mkCursor (line (start p) + 1) 0 /\
    has_text bufs (mkPiece (bufferIndex p) c (end_ p) n (length p - 1)) str.
Proof.
  intros [(b & oa & Hi & Hok & H1 & H2 & Hs) [Hlen Hlf]]. specialize (Hlf ltac:(done)).
  pose proof (span_head _ _ _ _ _ _ _ _ Hi Hok H1 H2 Hs) as Hx. pose proof (line_of_step _ _ _ Hx) as Hst.
  change (ends 10 ((buffer b).[oa + 1])) with true in Hst. cbv iota in Hst. pose proof (zlen_nonneg str).
  pose proof H1 as (Ho & Hl & _). pose proof H2 as (Ho2 & _). rewrite zlen_cons in *.
  assert (Hc : cursor_at (buffer b) (mkCursor (line (start p) + 1) 0) (oa + 1)).
  { split; [lia|]. cbn [line column]. rewrite Hl, <- Hst. split; [done|].
    destruct (line_start_of (buffer b) (oa + 1)) as (y & Hy & _); [lia|]. pose proof (start_step _ _ _ _ Hx Hy) as Hss.
    rewrite Hy. f_equal. rewrite (proj2 Hss) by done. lia. }
  destruct (span_cut _ _ _ _ (10 :: str) _ _ _ 1 Hi Hok H1 ltac:(by rewrite zlen_cons) ltac:(by rewrite zlen_cons) ltac:(rewrite zlen_cons; lia) Hc) as [_ Hspan].
  change (drop (Z.to_nat 1) (10 :: str)) with str in Hspan. destruct (span_lf _ _ _ _ _ Hspan) as (n & Hn & Hn').
  assert (Hbr : breaks (10 :: str) = 1 + breaks str) by done.
  eexists _, n. split; [exact Hn|]. split; [|split; [done|split; [done|split; [cbn [length]; lia|done]]]].
  destruct str as [|y str]; [|rewrite Hlf, Hbr, Hn' by done; lia].
  rewrite (getLineFeedCnt_ok _ _ _ Hi Hok _ _ _ _ Hc H2) in Hn. injection Hn as <-. rewrite Hlf. cbn [line].
  assert (Hcr : in_crlf (buffer b) (oa + (zlen (@nil Z) + 1)) = false).
  { unfold in_crlf. replace (oa + (zlen (@nil Z) + 1) - 1) with oa by (rewrite zlen_nil; lia). by rewrite Hx. }
  rewrite Hcr. destruct H2 as (_ & -> & _). rewrite zlen_nil. replace (oa + (0 + 1)) with (oa + 1) by lia. rewrite Hst, Hl.
  change (breaks [10]) with 1. lia.
Qed.

(** The end without the CR at the end. *)
Definition end_before_CR (bufs : list StringBuffer) (p : Piece) : result BufferCursor :=
  let* b := get_buffer bufs (bufferIndex p) in
  if column (end_ p) =? 0 then
    let* x := line_start b (line (end_ p)) in
    let* y := line_start b (line (end_ p) - 1) in
    Ok (mkCursor (line (end_ p) - 1) (x - y - 1))
  else Ok (mkCursor (line (end_ p)) (column (end_ p) - 1)).

Lemma breaks_snoc_CR str : breaks (str ++ [13]) = breaks str + 1.
Proof. rewrite breaks_app_torn. unfold torn. simpl. rewrite andb_false_r. change (breaks [13]) with 1. lia. Qed.

Lemma drop_CR_ok bufs p str :
  has_text bufs p (str ++ [13]) ->
  exists c, end_before_CR bufs p = Ok c /\ span bufs (bufferIndex p) c (end_ p) [13] /\
    has_text bufs (mkPiece (bufferIndex p) (start p) c (lineFeedCnt p - 1) (length p - 1)) str.
Proof.
  intros [(b & oa & Hi & Hok & H1 & H2 & Hs) [Hlen Hlf]]. specialize (Hlf ltac:(by destruct str)). rewrite breaks_snoc_CR in Hlf.
  pose proof (zlen_nonneg str). rewrite zlen_app in *. change (zlen [13]) with 1 in *.
  set (ob := oa + (zlen str + 1)) in *. pose proof H1 as (Ho & Hl & _). pose proof H2 as (Ho2 & Hl2 & Hc2).
  assert (Hx : (buffer b).[ob - 1] = Some 13).
  { rewrite <- (last_sub (buffer b) oa ob) by lia. rewrite <- Hs. by rewrite last_snoc. }
  pose proof (line_of_step _ _ _ Hx) as Hst. replace (ob - 1 + 1) with ob in Hst by lia.
  assert (Hc : exists c, end_before_CR bufs p = Ok c /\ cursor_at (buffer b) c (ob - 1)).
  { unfold end_before_CR. rewrite (get_buffer_ok _ _ _ Hi). cbn [result_bind].
    destruct (line_start_of (buffer b) (ob - 1)) as (y & Hy & Hyr); [lia|].
    assert (Hbase : forall x, (starts (buffer b)).[line_of (buffer b) ob] = Some x -> x = ob <-> ends 13 ((buffer b).[ob]) = true).
    { intros x Hx2. pose proof (start_step _ _ _ x Hx) as Hss. replace (ob - 1 + 1) with ob in Hss by lia. by apply Hss. }
    specialize (Hbase (ob - column (end_ p)) ltac:(by rewrite <- Hl2)).
    destruct (Z.eqb_spec (column (end_ p)) 0) as [E|E].
    - assert (Hends : ends 13 ((buffer b).[ob]) = true) by (apply Hbase; lia). rewrite Hends in Hst.
      rewrite (line_start_ok _ Hok _ _ Hc2). cbn [result_bind]. replace (line (end_ p) - 1) with (line_of (buffer b) (ob - 1)) by lia.
      rewrite (line_start_ok _ Hok _ _ Hy). cbn [result_bind]. eexists. split; [done|]. split; [lia|]. cbn [line column].
      split; [done|]. rewrite Hy. f_equal. lia.
    - assert (Hends : ends 13 ((buffer b).[ob]) = false) by (destruct (ends 13 _); [destruct Hbase as [_ Hbase]; specialize (Hbase eq_refl); lia|done]).
      rewrite Hends in Hst. eexists. split; [done|]. split; [lia|]. cbn [line column]. split; [lia|]. rewrite Hc2. f_equal. lia. }
  destruct Hc as (c & Hec & Hc). exists c. split; [done|]. replace (ob - 1) with (oa + zlen str) in Hc by lia.
  destruct (span_cut _ _ _ _ (str ++ [13]) _ _ _ (zlen str) Hi Hok H1 ltac:(rewrite zlen_app; done) ltac:(rewrite zlen_app; done) ltac:(rewrite zlen_app; change (zlen [13]) with 1; lia) Hc) as [Hspan1 Hspan2].
  rewrite take_app_length' in Hspan1 by (unfold zlen; lia). rewrite drop_app_length' in Hspan2 by (unfold zlen; lia).
  split; [done|]. split; [done|]. cbn [length lineFeedCnt]. split; lia.
Qed.

(** ** Growing buffers *)

Lemma at_set_at_any {A} (l : list A) i j (a : A) : at_ (set_at l i a) j = if (0 <=? i) && (j =? i) && (i <? zlen l) then Some a else at_ l j.
Proof.
  unfold set_at, at_, zlen. destruct (Z.ltb_spec i 0), (Z.leb_spec 0 i); try lia; simpl; [done|].
  destruct (Z.ltb_spec j 0); [destruct (Z.eqb_spec j i); [lia|done]|]. destruct (Z.eqb_spec j i) as [->|]; simpl.
  - destruct (Z.ltb_spec i (Z.of_nat (List.length l))); [apply list_lookup_insert_eq; lia|].
    rewrite list_insert_ge by lia. done.
  - apply list_lookup_insert_ne. lia.
Qed.

(** The piece ends where the change buffer ends. *)
Definition tip (c : BufferCursor) (p : Piece) : bool := (bufferIndex p =? 0) && bool_decide (end_ p = c).

Lemma tip_true c p : tip c p = true -> bufferIndex p = 0 /\ end_ p = c.
Proof. intros [H1%Z.eqb_eq H2%bool_decide_eq_true_1]%andb_prop. done. Qed.

Lemma has_text_grow bufs b t ls p str c0 :
  bufs.[0] = Some b -> buffer_ok b -> buffer_ok (mkBuffer (buffer b ++ t) ls) -> cursor_at (buffer b) c0 (zlen (buffer b)) ->
  has_text bufs p str -> torn (buffer b) t = false \/ tip c0 p = false ->
  has_text (set_at bufs 0 (mkBuffer (buffer b ++ t) ls)) p str.
Proof.
  intros Hb Hbok Hbok' Hc0 [(b' & oa & Hi & Hok & H1 & H2 & Hs) Hlen] Hor. split; [|done].
  pose proof (at_lt _ _ _ Hb) as H0. pose proof (zlen_nonneg str). pose proof H2 as [Ho2 _]. pose proof H1 as [Ho _].
  destruct (Z.eqb_spec (bufferIndex p) 0) as [E|E].
  - rewrite E in Hi. rewrite Hb in Hi. injection Hi as <-.
    assert (Hlt : oa + zlen str < zlen (buffer b) \/ torn (buffer b) t = false).
    { destruct Hor as [|Htip]; [by right|]. left. destruct (Z.eq_dec (oa + zlen str) (zlen (buffer b))) as [E2|]; [|lia].
      unfold tip in Htip. rewrite E in Htip. simpl in Htip. apply bool_decide_eq_false in Htip. destruct Htip.
      rewrite E2 in H2. by eapply cursor_at_unique. }
    exists (mkBuffer (buffer b ++ t) ls), oa. rewrite at_set_at_any, E. simpl.
    destruct (Z.ltb_spec 0 (zlen bufs)); [|lia]. cbn [buffer].
    split; [done|]. split; [done|]. split; [apply cursor_grow; [done|destruct Hlt; [left; lia|by right]]|].
    split; [by apply cursor_grow|]. by rewrite sub_app_l by lia.
  - exists b', oa. rewrite at_set_at_any. destruct (Z.eqb_spec (bufferIndex p) 0); [done|]. rewrite andb_false_r. done.
Qed.

Lemma has_text_push bufs b p str : has_text bufs p str -> has_text (bufs ++ [b]) p str.
Proof.
  intros [(b' & oa & Hi & H) Hlen]. split; [|done]. exists b', oa. split; [|done]. pose proof (at_lt _ _ _ Hi). by rewrite at_app_l by lia.
Qed.

(** The piece of a whole buffer. *)
Lemma has_text_whole bufs i b B :
  bufs.[i] = Some b -> buffer_ok b -> buffer b = B -> has_text bufs
    (mkPiece i (mkCursor 0 0) (mkCursor (zlen (starts B) - 1) (zlen B - default 0 ((starts B).[zlen (starts B) - 1]))) (zlen (starts B) - 1) (zlen B)) B.
Proof.
  intros Hi Hok <-. pose proof (breaks_in_nonneg (buffer b) None) as Hb. fold (breaks (buffer b)) in Hb.
  destruct (start_at (buffer b) (zlen (starts (buffer b)) - 1)) as (x & Hx & _); [rewrite zlen_starts; lia|].
  split; [|split; [done|cbn [lineFeedCnt]; rewrite zlen_starts; lia]].
  exists b, 0. split; [done|]. split; [done|]. split; [apply cursor_start|]. rewrite Z.add_0_l. rewrite Hx. cbn [default start end_].
  split; [by apply cursor_end|]. by rewrite sub_all.
Qed.
