(* ===== verification/Strings.v ===== *)
(** * Strings

    The functions of [src/src/vs/base/common/strings.ts] on the code units of a string: the
    tests that a text buffer keeps of its text, white space, code points, and comparisons.
    [splitLines] is in Length.  The tests are regular expressions; each is written out as
    what it matches at an index. *)

From S2P Require Import Prelude Length PtBuffer PtSpan.

#[local] Open Scope js_scope.

(** ** Surrogates and code points *)

Definition isHighSurrogate (charCode : Z) : bool := (0xD800 <=? charCode) && (charCode <=? 0xDBFF).

Definition isLowSurrogate (charCode : Z) : bool := (0xDC00 <=? charCode) && (charCode <=? 0xDFFF).

Definition computeCodePoint (highSurrogate lowSurrogate : Z) : Z :=
  to_int32 (Z.shiftl (highSurrogate - 0xD800) 10) + (lowSurrogate - 0xDC00) + 0x10000.

(** [None] is [NaN]. *)
Definition getNextCodePoint (str : list Z) (len offset : Z) : option Z :=
  match charCodeAt str offset with
  | None => None
  | Some charCode =>
      if isHighSurrogate charCode && (offset + 1 <? len) then
        match charCodeAt str (offset + 1) with
        | Some nextCharCode => if isLowSurrogate nextCharCode then Some (computeCodePoint charCode nextCharCode) else Some charCode
        | None => Some charCode
        end
      else Some charCode
  end.

Definition getPrevCodePoint (str : list Z) (offset : Z) : option Z :=
  match charCodeAt str (offset - 1) with
  | None => None
  | Some charCode =>
      if isLowSurrogate charCode && (offset >? 1) then
        match charCodeAt str (offset - 2) with
        | Some prevCharCode => if isHighSurrogate prevCharCode then Some (computeCodePoint prevCharCode charCode) else Some charCode
        | None => Some charCode
        end
      else Some charCode
  end.

Record CodePointIterator : Type := mkIterator { str_ : list Z; offset_ : Z }.

Module CPI.

Definition new (str : list Z) (offset : Z) : CodePointIterator := mkIterator str offset.

Definition setOffset (this : CodePointIterator) (offset : Z) : CodePointIterator := mkIterator (str_ this) offset.

(** The length of a code point; comparing [NaN] gives [false]. *)
Definition units (codePoint : option Z) : Z := match codePoint with Some c => if c >=? 0x10000 then 2 else 1 | None => 1 end.

Definition prevCodePoint (this : CodePointIterator) : option Z * CodePointIterator :=
  let codePoint := getPrevCodePoint (str_ this) (offset_ this) in
  (codePoint, setOffset this (offset_ this - units codePoint)).

Definition nextCodePoint (this : CodePointIterator) : option Z * CodePointIterator :=
  let codePoint := getNextCodePoint (str_ this) (zlen (str_ this)) (offset_ this) in
  (codePoint, setOffset this (offset_ this + units codePoint)).

Definition eol (this : CodePointIterator) : bool := offset_ this >=? zlen (str_ this).

End CPI.

(** ** Tests of a text *)

Definition in_ranges (c : Z) (ranges : list (Z * Z)) : bool := existsb (fun r => (r.1 <=? c) && (c <=? r.2)) ranges.

(** The code units of [makeContainsRtl], and the high surrogates with the low ones. *)
Definition rtl_units : list (Z * Z) :=
  [(0x05BE, 0x05BE); (0x05C0, 0x05C0); (0x05C3, 0x05C3); (0x05C6, 0x05C6); (0x05D0, 0x05F4);
   (0x0608, 0x0608); (0x060B, 0x060B); (0x060D, 0x060D); (0x061B, 0x064A); (0x066D, 0x066F);
   (0x0671, 0x06D5); (0x06E5, 0x06E5); (0x06E6, 0x06E6); (0x06EE, 0x06EE); (0x06EF, 0x06EF);
   (0x06FA, 0x0710); (0x0712, 0x072F); (0x074D, 0x07A5); (0x07B1, 0x07EA); (0x07F4, 0x07F4);
   (0x07F5, 0x07F5); (0x07FA, 0x07FA); (0x07FE, 0x0815); (0x081A, 0x081A); (0x0824, 0x0824);
   (0x0828, 0x0828); (0x0830, 0x0858); (0x085E, 0x088E); (0x08A0, 0x08C9); (0x200F, 0x200F);
   (0xFB1D, 0xFB1D); (0xFB1F, 0xFB28); (0xFB2A, 0xFD3D); (0xFD50, 0xFDC7); (0xFDF0, 0xFDFC);
   (0xFE70, 0xFEFC)].

Definition rtl_pairs : list (Z * list (Z * Z)) :=
  [(0xD802, [(0xDC00, 0xDD1B); (0xDD20, 0xDE00); (0xDE10, 0xDE35); (0xDE40, 0xDEE4); (0xDEEB, 0xDF35); (0xDF40, 0xDFFF)]);
   (0xD803, [(0xDC00, 0xDD23); (0xDE80, 0xDEA9); (0xDEAD, 0xDF45); (0xDF51, 0xDF81); (0xDF86, 0xDFF6)]);
   (0xD83A, [(0xDC00, 0xDCCF); (0xDD00, 0xDD43); (0xDD4B, 0xDFFF)]);
   (0xD83B, [(0xDC00, 0xDEBB)])].

(** Does the expression match at a code unit that [nx] follows? *)
Definition makeContainsRtl (c : Z) (nx : option Z) : bool :=
  in_ranges c rtl_units ||
  existsb (fun p => (p.1 =? c) && match nx with Some d => in_ranges d p.2 | None => false end) rtl_pairs.

Fixpoint containsRTL (str : list Z) : bool :=
  match str with [] => false | c :: str' => makeContainsRtl c (head str') || containsRTL str' end.

(** [/[\t\n\r\x20-\x7E]/]. *)
Definition basic_ascii (c : Z) : bool := (c =? 9) || (c =? 10) || (c =? 13) || ((0x20 <=? c) && (c <=? 0x7E)).

Definition isBasicASCII (str : list Z) : bool := forallb basic_ascii str.

Definition containsUnusualLineTerminators (str : list Z) : bool := existsb (fun c => (c =? 0x2028) || (c =? 0x2029)) str.

Definition UTF8_BOM_CHARACTER : list Z := [65279].

Definition startsWithUTF8BOM (str : list Z) : bool := (zlen str >? 0) && is_char (charCodeAt str 0) 65279.

Definition stripUTF8BOM (str : list Z) : list Z := if startsWithUTF8BOM str then drop 1 str else str.

(** ** White space *)

Definition is_space (c : Z) : bool := (c =? 32) || (c =? 9).

(** The loop of [firstNonWhitespaceIndex] from [i]; [str] is the rest of the string. *)
Fixpoint first_from (i : Z) (str : list Z) : Z :=
  match str with [] => -1 | c :: str' => if is_space c then first_from (i + 1) str' else i end.

Definition firstNonWhitespaceIndex (str : list Z) : Z := first_from 0 str.

(** The loop of [lastNonWhitespaceIndex], down from [n - 1]. *)
Fixpoint last_below (n : nat) (str : list Z) : Z :=
  match n with
  | O => -1
  | S i => match str !! i with
           | Some c => if is_space c then last_below i str else Z.of_nat i
           | None => Z.of_nat i
           end
  end.

(** [startIndex] is [str.length - 1] when it is left out. *)
Definition lastNonWhitespaceIndex (str : list Z) (startIndex : option Z) : Z :=
  last_below (Z.to_nat (default (zlen str - 1) startIndex + 1)) str.

(** ** Common parts *)

Fixpoint commonPrefixLength (a b : list Z) : Z :=
  match a, b with
  | x :: a', y :: b' => if x =? y then 1 + commonPrefixLength a' b' else 0
  | _, _ => 0
  end.

Definition commonSuffixLength (a b : list Z) : Z := commonPrefixLength (rev a) (rev b).

(** ** The tests on texts put together *)

Lemma isBasicASCII_app a b : isBasicASCII (a ++ b) = isBasicASCII a && isBasicASCII b.
Proof. apply forallb_app. Qed.

Lemma unusual_app a b : containsUnusualLineTerminators (a ++ b) = containsUnusualLineTerminators a || containsUnusualLineTerminators b.
Proof. apply existsb_app. Qed.

Definition ends_high (s : list Z) : bool := match last s with Some c => isHighSurrogate c | None => false end.

(** What follows a code unit that is not a high surrogate does not matter. *)
Lemma rtl_low c nx : isHighSurrogate c = false -> makeContainsRtl c nx = makeContainsRtl c None.
Proof.
  intros Hc. unfold makeContainsRtl. f_equal. unfold isHighSurrogate in Hc. unfold rtl_pairs. cbn [existsb fst snd].
  repeat match goal with |- context [?h =? c] => destruct (Z.eqb_spec h c); [subst; done|] end. done.
Qed.

Lemma containsRTL_app a b : ends_high a = false -> containsRTL (a ++ b) = containsRTL a || containsRTL b.
Proof.
  induction a as [|c a IH]; intros Ha; [done|]. cbn [app containsRTL]. destruct a as [|d a].
  - cbn [app head containsRTL]. rewrite orb_false_r, (rtl_low c (head b)); [done|exact Ha].
  - cbn [app head] in *. rewrite IH by exact Ha. apply orb_assoc.
Qed.

(** A text of basic ASCII has no right to left letters and no unusual line breaks. *)
Lemma ascii_rtl c nx : basic_ascii c = true -> makeContainsRtl c nx = false.
Proof.
  intros Hc. assert (Hr : 0 <= c <= 126) by (unfold basic_ascii in Hc; lia). rewrite rtl_low by (unfold isHighSurrogate; lia).
  unfold makeContainsRtl, in_ranges, rtl_units, rtl_pairs. cbn [existsb fst snd].
  repeat match goal with |- context [?h <=? c] => replace (h <=? c) with false by lia end. cbn [andb orb].
  repeat match goal with |- context [?h =? c] => replace (h =? c) with false by lia end. done.
Qed.

Lemma isBasicASCII_plain s : isBasicASCII s = true -> containsRTL s = false /\ containsUnusualLineTerminators s = false.
Proof.
  unfold isBasicASCII. induction s as [|c s IH]; [done|]. cbn [forallb]. intros [Hc Hs]%andb_true_iff. destruct (IH Hs) as [H1 H2]. split.
  - cbn [containsRTL]. by rewrite (ascii_rtl _ _ Hc), H1.
  - unfold containsUnusualLineTerminators in *. cbn [existsb]. rewrite H2. unfold basic_ascii in Hc. lia.
Qed.

(** ** Code points *)

Definition is_utf16 (s : list Z) : Prop := Forall (fun c => 0 <= c < 65536) s.

(** Is the offset between the halves of a surrogate pair? *)
Definition in_pair (s : list Z) (o : Z) : bool :=
  match s.[o - 1], s.[o] with Some c, Some d => isHighSurrogate c && isLowSurrogate d | _, _ => false end.

Lemma computeCodePoint_eq hi lo : isHighSurrogate hi = true -> isLowSurrogate lo = true ->
  computeCodePoint hi lo = (hi - 0xD800) * 1024 + (lo - 0xDC00) + 0x10000 /\ 0x10000 <= computeCodePoint hi lo < 0x110000.
Proof.
  unfold isHighSurrogate, isLowSurrogate, computeCodePoint. intros Hh Hl. rewrite Z.shiftl_mul_pow2 by lia. change (2 ^ 10) with 1024.
  unfold to_int32. rewrite Z.mod_small by lia. destruct (Z.ltb_spec ((hi - 55296) * 1024) (2 ^ 31)); lia.
Qed.

Lemma utf16_at s o c : is_utf16 s -> s.[o] = Some c -> 0 <= c < 65536.
Proof. intros Hs Hc. unfold at_ in Hc. destruct (o <? 0); [done|]. apply list_elem_of_lookup_2 in Hc. unfold is_utf16 in Hs. rewrite Forall_forall in Hs. by apply Hs. Qed.

Lemma nextCodePoint_at s o : is_utf16 s -> 0 <= o < zlen s -> exists c, s.[o] = Some c /\
  ((exists d, s.[o + 1] = Some d /\ isHighSurrogate c = true /\ isLowSurrogate d = true /\
      CPI.nextCodePoint (mkIterator s o) = (Some (computeCodePoint c d), mkIterator s (o + 2))) \/
   (in_pair s (o + 1) = false /\ CPI.nextCodePoint (mkIterator s o) = (Some c, mkIterator s (o + 1)))).
Proof.
  intros Hs Ho. destruct (at_in_range s o Ho) as [c Hc]. exists c. split; [done|]. pose proof (utf16_at _ _ _ Hs Hc) as Hr.
  unfold CPI.nextCodePoint, getNextCodePoint, in_pair, charCodeAt, CPI.setOffset. cbn [str_ offset_]. cbv zeta. replace (o + 1 - 1) with o by lia. rewrite Hc.
  assert (Hone : CPI.units (Some c) = 1) by (unfold CPI.units; rewrite Z.geb_leb; destruct (Z.leb_spec 65536 c); [lia|done]).
  destruct (isHighSurrogate c) eqn:Eh; cbn [andb]; [|right; rewrite Hone; by destruct (s.[o + 1])].
  destruct (s.[o + 1]) as [d|] eqn:Ed; [|right; destruct (o + 1 <? zlen s); by rewrite Hone].
  pose proof (at_lt _ _ _ Ed). destruct (Z.ltb_spec (o + 1) (zlen s)); [|lia]. destruct (isLowSurrogate d) eqn:El; [left|right; by rewrite Hone].
  exists d. split; [done|]. split; [done|]. split; [done|]. destruct (computeCodePoint_eq c d Eh El) as [_ Hcp]. unfold CPI.units. rewrite Z.geb_leb.
  by destruct (Z.leb_spec 65536 (computeCodePoint c d)); [|lia].
Qed.

(** Code points forwards and backwards.  At an offset of a UTF-16 text that is not inside
    a surrogate pair, the iterator goes over one code point, stays outside of pairs and
    inside the text, and going back gives the same code point and the same offset. *)
Theorem code_points_back s o :
  is_utf16 s -> 0 <= o < zlen s -> in_pair s o = false ->
  let '(c, it) := CPI.nextCodePoint (mkIterator s o) in
  o < offset_ it <= zlen s /\ in_pair s (offset_ it) = false /\ CPI.prevCodePoint it = (c, mkIterator s o).
Proof.
  intros Hs Ho Hp. destruct (nextCodePoint_at s o Hs Ho) as (c & Hc & [(d & Hd & Hh & Hl & ->)|[Hp' ->]]); cbn [offset_].
  - pose proof (at_lt _ _ _ Hd). destruct (computeCodePoint_eq c d Hh Hl) as [_ Hcp]. split; [lia|]. split.
    + unfold in_pair. replace (o + 2 - 1) with (o + 1) by lia. rewrite Hd. destruct (s.[o + 2]); [|done].
      unfold isHighSurrogate, isLowSurrogate in *. lia.
    + unfold CPI.prevCodePoint, getPrevCodePoint, charCodeAt, CPI.setOffset. cbn [str_ offset_]. cbv zeta. replace (o + 2 - 1) with (o + 1) by lia. replace (o + 2 - 2) with o by lia.
      rewrite Hd, Hl, Hc, Hh, Z.gtb_ltb. destruct (Z.ltb_spec 1 (o + 2)); [|lia]. cbn [andb]. f_equal. unfold CPI.units. rewrite Z.geb_leb.
      destruct (Z.leb_spec 65536 (computeCodePoint c d)); [|lia]. f_equal. lia.
  - split; [lia|]. split; [done|]. pose proof (utf16_at _ _ _ Hs Hc) as Hr. unfold CPI.prevCodePoint, getPrevCodePoint, charCodeAt, CPI.setOffset. cbn [str_ offset_]. cbv zeta.
    replace (o + 1 - 1) with o by lia. replace (o + 1 - 2) with (o - 1) by lia. rewrite Hc. unfold in_pair in Hp. rewrite Hc in Hp.
    assert (Hone : CPI.units (Some c) = 1) by (unfold CPI.units; rewrite Z.geb_leb; destruct (Z.leb_spec 65536 c); [lia|done]).
    assert (Eo : mkIterator s (o + 1 - 1) = mkIterator s o) by (f_equal; lia).
    destruct (isLowSurrogate c); cbn [andb]; [|by rewrite Hone, Eo]. destruct (o + 1 >? 1); [|by rewrite Hone, Eo].
    destruct (s.[o - 1]) as [e|]; [|by rewrite Hone, Eo]. rewrite andb_true_r in Hp. by rewrite Hp, Hone, Eo.
Qed.

Lemma code_points_back_witness : CPI.nextCodePoint (mkIterator [97; 55357; 56832] 1) = (Some 128512, mkIterator [97; 55357; 56832] 3) /\
  CPI.prevCodePoint (mkIterator [97; 55357; 56832] 3) = (Some 128512, mkIterator [97; 55357; 56832] 1).
Proof.
  split; [reflexivity|].
  exact (proj2 (proj2 (code_points_back [97; 55357; 56832] 1 ltac:(repeat constructor; lia) ltac:(vm_compute; split; [intros [=]|done]) eq_refl))).
Defined.
