(* ===== verification/PieceTree.v ===== *)
(** * The piece tree

    [PieceTreeBase] of
    [src/src/vs/editor/common/model/pieceTreeTextBuffer/pieceTreeBase.ts], without the
    search for matches.  A document is the text of the pieces of a red-black tree in order;
    a piece is a part of a text buffer.  The buffer 0 takes the text that is typed.

    A method is a program over the fields of the object; the objects it shares with other
    trees, the nodes and [SENTINEL], are in [tree]. *)

From S2P Require Import Prelude Position TextRange Length Store RbTree PtBuffer.

#[local] Open Scope js_scope.

Definition AverageBufferSize : Z := 65535.

(** [nodeStartLineNumber] is optional. *)
Record CacheEntry : Type := mkEntry { ce_node : ptr; ce_offset : Z; ce_line : option Z }.

Record NodePosition : Type := mkNodePos { np_node : ptr; remainder : Z; nodeStartOffset : Z }.

Record PieceTreeBase : Type := mkPT {
  tree : store;
  buffers_ : list StringBuffer;
  lineCnt_ : Z;
  length_ : Z;
  EOL_ : list Z;
  EOLNormalized_ : bool;
  lastChangeBufferPos_ : BufferCursor;
  searchCache_ : list CacheEntry;
  lastVisitedLine_ : Z * list Z }.

Definition with_tree t (s : PieceTreeBase) := mkPT t (buffers_ s) (lineCnt_ s) (length_ s) (EOL_ s) (EOLNormalized_ s) (lastChangeBufferPos_ s) (searchCache_ s) (lastVisitedLine_ s).
Definition with_buffers b (s : PieceTreeBase) := mkPT (tree s) b (lineCnt_ s) (length_ s) (EOL_ s) (EOLNormalized_ s) (lastChangeBufferPos_ s) (searchCache_ s) (lastVisitedLine_ s).
Definition with_counts c n (s : PieceTreeBase) := mkPT (tree s) (buffers_ s) c n (EOL_ s) (EOLNormalized_ s) (lastChangeBufferPos_ s) (searchCache_ s) (lastVisitedLine_ s).
Definition with_EOL e (s : PieceTreeBase) := mkPT (tree s) (buffers_ s) (lineCnt_ s) (length_ s) e (EOLNormalized_ s) (lastChangeBufferPos_ s) (searchCache_ s) (lastVisitedLine_ s).
Definition with_EOLNormalized e (s : PieceTreeBase) := mkPT (tree s) (buffers_ s) (lineCnt_ s) (length_ s) (EOL_ s) e (lastChangeBufferPos_ s) (searchCache_ s) (lastVisitedLine_ s).
Definition with_changePos p (s : PieceTreeBase) := mkPT (tree s) (buffers_ s) (lineCnt_ s) (length_ s) (EOL_ s) (EOLNormalized_ s) p (searchCache_ s) (lastVisitedLine_ s).
Definition with_cache c (s : PieceTreeBase) := mkPT (tree s) (buffers_ s) (lineCnt_ s) (length_ s) (EOL_ s) (EOLNormalized_ s) (lastChangeBufferPos_ s) c (lastVisitedLine_ s).
Definition with_visited v (s : PieceTreeBase) := mkPT (tree s) (buffers_ s) (lineCnt_ s) (length_ s) (EOL_ s) (EOLNormalized_ s) (lastChangeBufferPos_ s) (searchCache_ s) v.

Abbreviation P := (ST PieceTreeBase).

(** An operation on the nodes, and one that reads the buffers. *)
Definition on_tree {A} (m : M A) : P A := fun s =>
  match m (tree s) with Ok (a, t) => Ok (a, with_tree t s) | Throw e => Throw e end.

Definition on_buffers {A} (f : list StringBuffer -> result A) : P A := fun s =>
  match f (buffers_ s) with Ok a => Ok (a, s) | Throw e => Throw e end.

Definition nfld {A} (f : TreeNode -> A) (x : ptr) : P A := on_tree (fld f x).
Definition npiece (x : ptr) : P Piece := on_tree (get_piece x).
Definition nodes_bound : P nat := on_tree enough.

(** [node.piece = p]. *)
Definition set_piece (x : ptr) (p : Piece) : P unit := on_tree (upd x (with_piece p)).

(** A value the code destructures or reads fields of. *)
Definition non_null {A} (o : option A) : P A := match o with Some a => mret a | None => throw TypeError end.

(** ** Strings *)

(** [text.replace(/\r\n|\r|\n/g, eol)], for an [eol] without [$], which stands for what was
    matched; it is always LF or CR LF. *)
Fixpoint replaceEOL (text eol : list Z) : list Z :=
  match text with
  | [] => []
  | c :: t =>
      if c =? 13 then
        match t with
        | d :: t' => if d =? 10 then eol ++ replaceEOL t' eol else eol ++ replaceEOL t eol
        | [] => eol
        end
      else if c =? 10 then eol ++ replaceEOL t eol
      else c :: replaceEOL t eol
  end.

(** [text.replace(/(\r\n|\r|\n)$/, '')]. *)
Definition stripEOL (text : list Z) : list Z :=
  let n := zlen text in
  if is_char (text.[n - 1]) 10 then
    if is_char (text.[n - 2]) 13 then substring text 0 (n - 2) else substring text 0 (n - 1)
  else if is_char (text.[n - 1]) 13 then substring text 0 (n - 1)
  else text.

(** ** The search cache *)

Module SC.

(** [this._limit] of the cache of a piece tree. *)
Definition limit : Z := 1.

(** The loops go from the newest entry to the oldest. *)
Fixpoint get_loop (offset : Z) (l : list CacheEntry) : P (option CacheEntry) :=
  match l with
  | [] => mret None
  | nodePos :: l' =>
      if ce_offset nodePos <=? offset then
        piece ← npiece (ce_node nodePos);
        if ce_offset nodePos + length piece >=? offset then mret (Some nodePos) else get_loop offset l'
      else get_loop offset l'
  end.

Definition get (offset : Z) : P (option CacheEntry) :=
  cache ← gets searchCache_; get_loop offset (rev cache).

(** The entry and its [nodeStartLineNumber]. *)
Fixpoint get2_loop (lineNumber : Z) (l : list CacheEntry) : P (option (CacheEntry * Z)) :=
  match l with
  | [] => mret None
  | nodePos :: l' =>
      match ce_line nodePos with
      | Some n =>
          if negb (n =? 0) && (n <? lineNumber) then
            piece ← npiece (ce_node nodePos);
            if n + lineFeedCnt piece >=? lineNumber then mret (Some (nodePos, n)) else get2_loop lineNumber l'
          else get2_loop lineNumber l'
      | None => get2_loop lineNumber l'
      end
  end.

Definition get2 (lineNumber : Z) : P (option (CacheEntry * Z)) :=
  cache ← gets searchCache_; get2_loop lineNumber (rev cache).

Definition set (nodePosition : CacheEntry) : P unit :=
  modify (fun s =>
    let cache := searchCache_ s in
    let cache := if zlen cache >=? limit then tail cache else cache in
    with_cache (cache ++ [nodePosition]) s).

Fixpoint validate_loop (offset : Z) (l : list CacheEntry) : P (list CacheEntry) :=
  match l with
  | [] => mret []
  | nodePos :: l' =>
      p ← nfld parent (ce_node nodePos);
      rest ← validate_loop offset l';
      mret (if (p =? null) || (ce_offset nodePos >=? offset) then rest else nodePos :: rest)
  end.

Definition validate (offset : Z) : P unit :=
  cache ← gets searchCache_;
  cache ← validate_loop offset cache;
  modify (with_cache cache).

End SC.

Module PT.

Definition EOLLength (s : PieceTreeBase) : Z := zlen (EOL_ s).

Definition getLength : P Z := gets length_.
Definition getLineCount : P Z := gets lineCnt_.
Definition getEOL : P (list Z) := gets EOL_.

(** The right spine adds up to the whole tree. *)
Definition computeBufferMetadata : P unit :=
  r ← on_tree get_root;
  fuel ← nodes_bound;
  '(_, lfCnt, len) ← loop fuel (fun '(x, _, _) => mret (negb (x =? SENTINEL)))
    (fun '(x, lfCnt, len) =>
       lf ← nfld lf_left x;
       piece ← npiece x;
       sz ← nfld size_left x;
       x' ← nfld right x;
       mret (x', lfCnt + (lf + lineFeedCnt piece), len + (sz + length piece)))
    (r, 1, 0);
  modify (with_counts lfCnt len);;
  SC.validate len.

(** ** Searching a node *)

Fixpoint nodeAt_loop (fuel : nat) (x : ptr) (offset nodeStartOffset : Z) : P (option NodePosition) :=
  match fuel with
  | O => throw OtherError
  | S fuel' =>
      if x =? SENTINEL then mret None
      else
        sz ← nfld size_left x;
        if sz >? offset then l ← nfld left x; nodeAt_loop fuel' l offset nodeStartOffset
        else
          piece ← npiece x;
          if sz + length piece >=? offset then
            let nodeStartOffset := nodeStartOffset + sz in
            SC.set (mkEntry x nodeStartOffset None);;
            mret (Some (mkNodePos x (offset - sz) nodeStartOffset))
          else
            r ← nfld right x;
            nodeAt_loop fuel' r (offset - (sz + length piece)) (nodeStartOffset + (sz + length piece))
  end.

Definition nodeAt (offset : Z) : P (option NodePosition) :=
  x ← on_tree get_root;
  cache ← SC.get offset;
  match cache with
  | Some c => mret (Some (mkNodePos (ce_node c) (offset - ce_offset c) (ce_offset c)))
  | None => fuel ← nodes_bound; nodeAt_loop fuel x offset 0
  end.

(** [pos += ...] on the way up. *)
Definition offsetOfNode (node : ptr) : P Z :=
  pos ← nfld size_left node;
  fuel ← nodes_bound;
  '(_, pos) ← loop fuel (fun '(node, _) => r ← on_tree get_root; mret (negb (node =? r)))
    (fun '(node, pos) =>
       p ← nfld parent node;
       pr ← nfld right p;
       pos ← (if pr =? node then
                sz ← nfld size_left p; piece ← npiece p; mret (pos + (sz + length piece))
              else mret pos);
       p ← nfld parent node;
       mret (p, pos))
    (node, pos);
  mret pos.

(** The nodes after the line's start, until the column is reached. *)
Fixpoint nodeAt2_next (fuel : nat) (x : ptr) (column : Z) : P (option NodePosition) :=
  match fuel with
  | O => throw OtherError
  | S fuel' =>
      if x =? SENTINEL then mret None
      else
        piece ← npiece x;
        if lineFeedCnt piece >? 0 then
          accumulatedValue ← on_buffers (fun b => getAccumulatedValue b piece 0);
          nodeStartOffset ← offsetOfNode x;
          mret (Some (mkNodePos x (Z.min (column - 1) accumulatedValue) nodeStartOffset))
        else if length piece >=? column - 1 then
          nodeStartOffset ← offsetOfNode x;
          mret (Some (mkNodePos x (column - 1) nodeStartOffset))
        else
          x' ← on_tree (RB.next x);
          nodeAt2_next fuel' x' (column - length piece)
  end.

(** [inl] is a result, [inr] the node and the column where the loop breaks. *)
Fixpoint nodeAt2_loop (fuel : nat) (x : ptr) (lineNumber column nodeStartOffset : Z) : P (NodePosition + ptr * Z) :=
  match fuel with
  | O => throw OtherError
  | S fuel' =>
      if x =? SENTINEL then mret (inr (x, column))
      else
        l ← nfld left x;
        lf ← nfld lf_left x;
        if negb (l =? SENTINEL) && (lf >=? lineNumber - 1) then nodeAt2_loop fuel' l lineNumber column nodeStartOffset
        else
          piece ← npiece x;
          if lf + lineFeedCnt piece >? lineNumber - 1 then
            prevAccumualtedValue ← on_buffers (fun b => getAccumulatedValue b piece (lineNumber - lf - 2));
            accumulatedValue ← on_buffers (fun b => getAccumulatedValue b piece (lineNumber - lf - 1));
            sz ← nfld size_left x;
            mret (inl (mkNodePos x (Z.min (prevAccumualtedValue + column - 1) accumulatedValue) (nodeStartOffset + sz)))
          else if lf + lineFeedCnt piece =? lineNumber - 1 then
            prevAccumualtedValue ← on_buffers (fun b => getAccumulatedValue b piece (lineNumber - lf - 2));
            if prevAccumualtedValue + column - 1 <=? length piece then
              mret (inl (mkNodePos x (prevAccumualtedValue + column - 1) nodeStartOffset))
            else mret (inr (x, column - (length piece - prevAccumualtedValue)))
          else
            sz ← nfld size_left x;
            r ← nfld right x;
            nodeAt2_loop fuel' r (lineNumber - (lf + lineFeedCnt piece)) column (nodeStartOffset + (sz + length piece))
  end.

Definition nodeAt2 (lineNumber column : Z) : P (option NodePosition) :=
  x ← on_tree get_root;
  fuel ← nodes_bound;
  r ← nodeAt2_loop fuel x lineNumber column 0;
  match r with
  | inl pos => mret (Some pos)
  | inr (x, column) =>
      x ← on_tree (RB.next x);
      fuel ← nodes_bound;
      nodeAt2_next fuel x column
  end.

(** ** Offsets and positions *)

Fixpoint getOffsetAt_loop (fuel : nat) (x : ptr) (lineNumber column leftLen : Z) : P Z :=
  match fuel with
  | O => throw OtherError
  | S fuel' =>
      if x =? SENTINEL then mret leftLen
      else
        l ← nfld left x;
        lf ← nfld lf_left x;
        if negb (l =? SENTINEL) && (lf + 1 >=? lineNumber) then getOffsetAt_loop fuel' l lineNumber column leftLen
        else
          piece ← npiece x;
          sz ← nfld size_left x;
          if lf + lineFeedCnt piece + 1 >=? lineNumber then
            accumualtedValInCurrentIndex ← on_buffers (fun b => getAccumulatedValue b piece (lineNumber - lf - 2));
            mret (leftLen + sz + (accumualtedValInCurrentIndex + column - 1))
          else
            r ← nfld right x;
            getOffsetAt_loop fuel' r (lineNumber - (lf + lineFeedCnt piece)) column (leftLen + (sz + length piece))
  end.

Definition getOffsetAt (lineNumber column : Z) : P Z :=
  x ← on_tree get_root;
  fuel ← nodes_bound;
  getOffsetAt_loop fuel x lineNumber column 0.

Fixpoint getPositionAt_loop (fuel : nat) (x : ptr) (offset lfCnt originalOffset : Z) : P Position :=
  match fuel with
  | O => throw OtherError
  | S fuel' =>
      if x =? SENTINEL then mret (mkPosition 1 1)
      else
        sz ← nfld size_left x;
        if negb (sz =? 0) && (sz >=? offset) then
          l ← nfld left x; getPositionAt_loop fuel' l offset lfCnt originalOffset
        else
          piece ← npiece x;
          lf ← nfld lf_left x;
          if sz + length piece >=? offset then
            '(index, remainder) ← on_buffers (fun b => getIndexOf b piece (offset - sz));
            let lfCnt := lfCnt + (lf + index) in
            if index =? 0 then
              lineStartOffset ← getOffsetAt (lfCnt + 1) 1;
              mret (mkPosition (lfCnt + 1) (originalOffset - lineStartOffset + 1))
            else mret (mkPosition (lfCnt + 1) (remainder + 1))
          else
            let offset := offset - (sz + length piece) in
            let lfCnt := lfCnt + (lf + lineFeedCnt piece) in
            r ← nfld right x;
            if r =? SENTINEL then
              lineStartOffset ← getOffsetAt (lfCnt + 1) 1;
              mret (mkPosition (lfCnt + 1) (originalOffset - offset - lineStartOffset + 1))
            else getPositionAt_loop fuel' r offset lfCnt originalOffset
  end.

(** An offset is an integer. *)
Definition getPositionAt (offset : Z) : P Position :=
  let offset := Z.max 0 offset in
  x ← on_tree get_root;
  fuel ← nodes_bound;
  getPositionAt_loop fuel x offset 0 offset.

(** ** Content *)

Definition piece_buffer (piece : Piece) : P (list Z) :=
  on_buffers (fun b => let* b := get_buffer b (bufferIndex piece) in Ok (buffer b)).

Definition piece_start (piece : Piece) : P Z := on_buffers (fun b => offsetInBuffer b (bufferIndex piece) (start piece)).

Fixpoint getValueInRange2_loop (fuel : nat) (x : ptr) (endPosition : NodePosition) (ret : list Z) : P (list Z) :=
  match fuel with
  | O => throw OtherError
  | S fuel' =>
      if x =? SENTINEL then mret ret
      else
        piece ← npiece x;
        buffer ← piece_buffer piece;
        startOffset ← piece_start piece;
        if x =? np_node endPosition then
          mret (ret ++ substring buffer startOffset (startOffset + remainder endPosition))
        else
          x' ← on_tree (RB.next x);
          getValueInRange2_loop fuel' x' endPosition (ret ++ substr buffer startOffset (length piece))
  end.

Definition getValueInRange2 (startPosition endPosition : NodePosition) : P (list Z) :=
  let x := np_node startPosition in
  piece ← npiece x;
  buffer ← piece_buffer piece;
  startOffset ← piece_start piece;
  if x =? np_node endPosition then
    mret (substring buffer (startOffset + remainder startPosition) (startOffset + remainder endPosition))
  else
    let ret := substring buffer (startOffset + remainder startPosition) (startOffset + length piece) in
    x ← on_tree (RB.next x);
    fuel ← nodes_bound;
    getValueInRange2_loop fuel x endPosition ret.

(** [eol] is optional; an empty string counts as none. *)
Definition getValueInRange (range : Range) (eol : option (list Z)) : P (list Z) :=
  if (startLineNumber range =? endLineNumber range) && (startColumn range =? endColumn range) then mret []
  else
    startPosition ← nodeAt2 (startLineNumber range) (startColumn range);
    endPosition ← nodeAt2 (endLineNumber range) (endColumn range);
    startPosition ← non_null startPosition;
    endPosition ← non_null endPosition;
    value ← getValueInRange2 startPosition endPosition;
    match eol with
    | None | Some [] => mret value
    | Some eol =>
        s ← gets id;
        if bool_decide (eol <> EOL_ s) || negb (EOLNormalized_ s) then mret (replaceEOL value eol)
        else mret value
    end.

(** [iterate] with a callback over the variables [X] it assigns to. *)
Fixpoint iterate {X} (fuel : nat) (node : ptr) (callback : X -> ptr -> P (X * bool)) (v : X) : P (X * bool) :=
  match fuel with
  | O => throw OtherError
  | S fuel' =>
      if node =? SENTINEL then callback v SENTINEL
      else
        l ← nfld left node;
        '(v, leftRet) ← iterate fuel' l callback v;
        if negb leftRet then mret (v, leftRet)
        else
          '(v, ret) ← callback v node;
          if negb ret then mret (v, false)
          else r ← nfld right node; iterate fuel' r callback v
  end.

Definition iterate_root {X} (callback : X -> ptr -> P (X * bool)) (v : X) : P (X * bool) :=
  x ← on_tree get_root; fuel ← nodes_bound; iterate fuel x callback v.

Definition getNodeContent (node : ptr) : P (list Z) :=
  if node =? SENTINEL then mret []
  else piece ← npiece node; on_buffers (fun b => getPieceContent b piece).

Definition getLinesRawContent : P (list Z) :=
  '(str, _) ← iterate_root (fun str node => c ← getNodeContent node; mret (str ++ c, true)) [];
  mret str.

(** The variables of [getLinesContent]: [lines] up to [linesLength], [currentLine] and
    [danglingCR]. *)
Record Lines : Type := mkLines { lines : list (list Z); currentLine : list Z; danglingCR : bool }.

(** The lines inside a piece, [line] from the second to the last but one. *)
Fixpoint inner_lines (count : nat) (line : Z) (s : PieceTreeBase) (b : StringBuffer) : result (list (list Z)) :=
  match count with
  | O => Ok []
  | S count' =>
      let* x := line_start b line in
      let* y := line_start b (line + 1) in
      let currentLine :=
        if EOLNormalized_ s then substring (buffer b) x (y - EOLLength s)
        else stripEOL (substring (buffer b) x y) in
      let* rest := inner_lines count' (line + 1) s b in
      Ok (currentLine :: rest)
  end.

(** The rest of the callback of [getLinesContent], after the dangling CR was dealt with. *)
Definition piece_lines (s : PieceTreeBase) (b : StringBuffer) (piece : Piece) (pieceStartOffset pieceLength : Z) (v : Lines) : result Lines :=
  let pieceStartLine := line (start piece) in
  let pieceEndLine := line (end_ piece) in
  if pieceStartLine =? pieceEndLine then
    if negb (EOLNormalized_ s) && is_char (charCodeAt (buffer b) (pieceStartOffset + pieceLength - 1)) 13 then
      Ok (mkLines (lines v) (currentLine v ++ substr (buffer b) pieceStartOffset (pieceLength - 1)) true)
    else Ok (mkLines (lines v) (currentLine v ++ substr (buffer b) pieceStartOffset pieceLength) (danglingCR v))
  else
    let* y := line_start b (pieceStartLine + 1) in
    let first := currentLine v ++
      (if EOLNormalized_ s then substring (buffer b) pieceStartOffset (Z.max pieceStartOffset (y - EOLLength s))
       else stripEOL (substring (buffer b) pieceStartOffset y)) in
    let* inner := inner_lines (Z.to_nat (pieceEndLine - (pieceStartLine + 1))) (pieceStartLine + 1) s b in
    let ls := lines v ++ [first] ++ inner in
    let cur := List.last inner first in
    let* x := line_start b pieceEndLine in
    if negb (EOLNormalized_ s) && is_char (charCodeAt (buffer b) (x + column (end_ piece) - 1)) 13 then
      if column (end_ piece) =? 0 then Ok (mkLines (removelast ls) cur true)
      else Ok (mkLines ls (substr (buffer b) x (column (end_ piece) - 1)) true)
    else Ok (mkLines ls (substr (buffer b) x (column (end_ piece))) (danglingCR v)).

Definition getLinesContent_callback (v : Lines) (node : ptr) : P (Lines * bool) :=
  if node =? SENTINEL then mret (v, true)
  else
    piece ← npiece node;
    if length piece =? 0 then mret (v, true)
    else
      s ← gets id;
      v ← on_buffers (fun bufs =>
        let* b := get_buffer bufs (bufferIndex piece) in
        let* x := line_start b (line (start piece)) in
        let pieceStartOffset := x + column (start piece) in
        if danglingCR v then
          let lf := is_char (charCodeAt (buffer b) pieceStartOffset) 10 in
          let pieceStartOffset := if lf then pieceStartOffset + 1 else pieceStartOffset in
          let pieceLength := if lf then length piece - 1 else length piece in
          let v := mkLines (lines v ++ [currentLine v]) [] false in
          if pieceLength =? 0 then Ok v else piece_lines s b piece pieceStartOffset pieceLength v
        else piece_lines s b piece pieceStartOffset (length piece) v);
      mret (v, true).

Definition getLinesContent : P (list (list Z)) :=
  '(v, _) ← iterate_root getLinesContent_callback (mkLines [] [] false);
  if danglingCR v then mret ((lines v ++ [currentLine v]) ++ [[]]) else mret (lines v ++ [currentLine v]).

(** The search of [getLineRawContent] below the root: [inl] is a result, [inr] the node and
    [ret] when the line may go on in the next nodes. *)
Fixpoint getLineRawContent_loop (fuel : nat) (x : ptr) (lineNumber originalLineNumber endOffset nodeStartOffset : Z) : P (list Z + ptr * list Z) :=
  match fuel with
  | O => throw OtherError
  | S fuel' =>
      if x =? SENTINEL then mret (inr (x, []))
      else
        l ← nfld left x;
        lf ← nfld lf_left x;
        if negb (l =? SENTINEL) && (lf >=? lineNumber - 1) then
          getLineRawContent_loop fuel' l lineNumber originalLineNumber endOffset nodeStartOffset
        else
          piece ← npiece x;
          if lf + lineFeedCnt piece >? lineNumber - 1 then
            prevAccumulatedValue ← on_buffers (fun b => getAccumulatedValue b piece (lineNumber - lf - 2));
            accumulatedValue ← on_buffers (fun b => getAccumulatedValue b piece (lineNumber - lf - 1));
            buffer ← piece_buffer piece;
            startOffset ← piece_start piece;
            sz ← nfld size_left x;
            SC.set (mkEntry x (nodeStartOffset + sz) (Some (originalLineNumber - (lineNumber - 1 - lf))));;
            mret (inl (substring buffer (startOffset + prevAccumulatedValue) (startOffset + accumulatedValue - endOffset)))
          else if lf + lineFeedCnt piece =? lineNumber - 1 then
            prevAccumulatedValue ← on_buffers (fun b => getAccumulatedValue b piece (lineNumber - lf - 2));
            buffer ← piece_buffer piece;
            startOffset ← piece_start piece;
            mret (inr (x, substring buffer (startOffset + prevAccumulatedValue) (startOffset + length piece)))
          else
            sz ← nfld size_left x;
            r ← nfld right x;
            getLineRawContent_loop fuel' r (lineNumber - (lf + lineFeedCnt piece)) originalLineNumber endOffset
              (nodeStartOffset + (sz + length piece))
  end.

(** The nodes after, until one has a line feed. *)
Fixpoint getLineRawContent_next (fuel : nat) (x : ptr) (endOffset : Z) (ret : list Z) : P (list Z) :=
  match fuel with
  | O => throw OtherError
  | S fuel' =>
      if x =? SENTINEL then mret ret
      else
        piece ← npiece x;
        buffer ← piece_buffer piece;
        if lineFeedCnt piece >? 0 then
          accumulatedValue ← on_buffers (fun b => getAccumulatedValue b piece 0);
          startOffset ← piece_start piece;
          mret (ret ++ substring buffer startOffset (startOffset + accumulatedValue - endOffset))
        else
          startOffset ← piece_start piece;
          x' ← on_tree (RB.next x);
          getLineRawContent_next fuel' x' endOffset (ret ++ substr buffer startOffset (length piece))
  end.

Definition getLineRawContent (lineNumber endOffset : Z) : P (list Z) :=
  x ← on_tree get_root;
  cache ← SC.get2 lineNumber;
  r ← match cache with
      | Some (c, nodeStartLineNumber) =>
          let x := ce_node c in
          piece ← npiece x;
          prevAccumulatedValue ← on_buffers (fun b => getAccumulatedValue b piece (lineNumber - nodeStartLineNumber - 1));
          buffer ← piece_buffer piece;
          startOffset ← piece_start piece;
          if nodeStartLineNumber + lineFeedCnt piece =? lineNumber then
            mret (inr (x, substring buffer (startOffset + prevAccumulatedValue) (startOffset + length piece)))
          else
            accumulatedValue ← on_buffers (fun b => getAccumulatedValue b piece (lineNumber - nodeStartLineNumber));
            mret (inl (substring buffer (startOffset + prevAccumulatedValue) (startOffset + accumulatedValue - endOffset)))
      | None => fuel ← nodes_bound; getLineRawContent_loop fuel x lineNumber lineNumber endOffset 0
      end;
  match r with
  | inl ret => mret ret
  | inr (x, ret) =>
      x ← on_tree (RB.next x);
      fuel ← nodes_bound;
      getLineRawContent_next fuel x endOffset ret
  end.

Definition getLineContent (lineNumber : Z) : P (list Z) :=
  s ← gets id;
  if (lastVisitedLine_ s).1 =? lineNumber then mret (lastVisitedLine_ s).2
  else
    modify (fun s => with_visited (lineNumber, (lastVisitedLine_ s).2) s);;
    value ← (if lineNumber =? lineCnt_ s then getLineRawContent lineNumber 0
             else if EOLNormalized_ s then getLineRawContent lineNumber (EOLLength s)
             else v ← getLineRawContent lineNumber 0; mret (stripEOL v));
    modify (fun s => with_visited ((lastVisitedLine_ s).1, value) s);;
    mret value.

(** [matchingNode] is never falsy: at the end of the document it is [SENTINEL]. *)
Definition getCharCode_ (nodePos : NodePosition) : P (option Z) :=
  piece ← npiece (np_node nodePos);
  if remainder nodePos =? length piece then
    matchingNode ← on_tree (RB.next (np_node nodePos));
    piece ← npiece matchingNode;
    buffer ← piece_buffer piece;
    startOffset ← piece_start piece;
    mret (charCodeAt buffer startOffset)
  else
    buffer ← piece_buffer piece;
    startOffset ← piece_start piece;
    mret (charCodeAt buffer (startOffset + remainder nodePos)).

Definition getLineCharCode (lineNumber index : Z) : P (option Z) :=
  nodePos ← nodeAt2 lineNumber (index + 1); nodePos ← non_null nodePos; getCharCode_ nodePos.

Definition getCharCode (offset : Z) : P (option Z) :=
  nodePos ← nodeAt offset; nodePos ← non_null nodePos; getCharCode_ nodePos.

Definition getLineLength (lineNumber : Z) : P Z :=
  c ← getLineCount;
  if lineNumber =? c then
    startOffset ← getOffsetAt lineNumber 1;
    n ← getLength;
    mret (n - startOffset)
  else
    e ← getOffsetAt (lineNumber + 1) 1;
    b ← getOffsetAt lineNumber 1;
    n ← gets EOLLength;
    mret (e - b - n).

(** ** New text *)

(** The piece of a whole buffer. *)
Definition whole_piece (bufferIndex : Z) (text lineStarts : list Z) : Piece :=
  let n := zlen lineStarts - 1 in
  mkPiece bufferIndex (mkCursor 0 0) (mkCursor n (zlen text - default 0 (lineStarts.[n]))) n (zlen text).

(** One chunk of [createNewPieces], in a buffer of its own. *)
Definition new_chunk (text : list Z) : P Piece :=
  s ← gets id;
  let lineStarts := createLineStartsFast text true in
  let piece := whole_piece (zlen (buffers_ s)) text lineStarts in
  modify (with_buffers (buffers_ s ++ [mkBuffer text lineStarts]));;
  mret piece.

Definition is_high_surrogate (c : option Z) : bool :=
  match c with Some c => (0xD800 <=? c) && (c <=? 0xDBFF) | None => false end.

(** Where [createNewPieces] cuts a large text: a CR or a high surrogate is kept back. *)
Definition split_at (text : list Z) : Z :=
  let lastChar := charCodeAt text (AverageBufferSize - 1) in
  if is_char lastChar 13 || is_high_surrogate lastChar then AverageBufferSize - 1 else AverageBufferSize.

Fixpoint createChunks (fuel : nat) (text : list Z) : P (list Piece) :=
  match fuel with
  | O => throw OtherError
  | S fuel' =>
      if zlen text >? AverageBufferSize then
        let k := split_at text in
        piece ← new_chunk (substring text 0 k);
        rest ← createChunks fuel' (substring text k (zlen text));
        mret (piece :: rest)
      else piece ← new_chunk text; mret [piece]
  end.

Definition startWithLF_str (val : list Z) : bool := is_char (charCodeAt val 0) 10.
Definition endWithCR_str (val : list Z) : bool := is_char (charCodeAt val (zlen val - 1)) 13.

(** The assignments of [createNewPieces] to the change buffer, with the start of the piece
    and its offset. *)
Definition append_change (text : list Z) : P (BufferCursor * Z) :=
  s ← gets id;
  b ← on_buffers (fun bufs => get_buffer bufs 0);
  let startOffset := zlen (buffer b) in
  let lineStarts' := createLineStartsFast text false in
  if is_char ((lineStarts b).[zlen (lineStarts b) - 1]) startOffset && negb (startOffset =? 0) &&
     startWithLF_str text && endWithCR_str (buffer b)
  then
    let start := mkCursor (line (lastChangeBufferPos_ s)) (column (lastChangeBufferPos_ s) + 1) in
    let b' := mkBuffer (buffer b ++ [95] ++ text)
      (lineStarts b ++ drop 1 ((fun x => x + (startOffset + 1)) <$> lineStarts')) in
    modify (with_changePos start);;
    modify (with_buffers (set_at (buffers_ s) 0 b'));;
    mret (start, startOffset + 1)
  else
    let starts := if negb (startOffset =? 0) then (fun x => x + startOffset) <$> lineStarts' else lineStarts' in
    let b' := mkBuffer (buffer b ++ text) (lineStarts b ++ drop 1 starts) in
    modify (with_buffers (set_at (buffers_ s) 0 b'));;
    mret (lastChangeBufferPos_ s, startOffset).

Definition createNewPieces (text : list Z) : P (list Piece) :=
  if zlen text >? AverageBufferSize then createChunks (S (List.length text)) text
  else
    '(start, startOffset) ← append_change text;
    b ← on_buffers (fun bufs => get_buffer bufs 0);
    let endOffset := zlen (buffer b) in
    let endIndex := zlen (lineStarts b) - 1 in
    x ← on_buffers (fun _ => line_start b endIndex);
    let endPos := mkCursor endIndex (endOffset - x) in
    cnt ← on_buffers (fun bufs => getLineFeedCnt bufs 0 start endPos);
    modify (with_changePos endPos);;
    mret [mkPiece 0 start endPos cnt (endOffset - startOffset)].

(** ** Changing one node *)

Definition rbInsertRight (node : ptr) (p : Piece) : P ptr := on_tree (RB.rbInsertRight node p).
Definition rbInsertLeft (node : ptr) (p : Piece) : P ptr := on_tree (RB.rbInsertLeft node p).
Definition rbDelete (node : ptr) : P unit := on_tree (RB.rbDelete node).
Definition updateTreeMetadata (node : ptr) (delta lf_delta : Z) : P unit := on_tree (RB.updateTreeMetadata node delta lf_delta).

Fixpoint deleteNodes (nodes : list ptr) : P unit :=
  match nodes with [] => mret tt | node :: nodes' => rbDelete node;; deleteNodes nodes' end.

Definition deleteNodeTail (node : ptr) (pos : BufferCursor) : P unit :=
  piece ← npiece node;
  originalEndOffset ← on_buffers (fun b => offsetInBuffer b (bufferIndex piece) (end_ piece));
  newEndOffset ← on_buffers (fun b => offsetInBuffer b (bufferIndex piece) pos);
  newLineFeedCnt ← on_buffers (fun b => getLineFeedCnt b (bufferIndex piece) (start piece) pos);
  let lf_delta := newLineFeedCnt - lineFeedCnt piece in
  let size_delta := newEndOffset - originalEndOffset in
  set_piece node (mkPiece (bufferIndex piece) (start piece) pos newLineFeedCnt (length piece + size_delta));;
  updateTreeMetadata node size_delta lf_delta.

Definition deleteNodeHead (node : ptr) (pos : BufferCursor) : P unit :=
  piece ← npiece node;
  originalStartOffset ← on_buffers (fun b => offsetInBuffer b (bufferIndex piece) (start piece));
  newLineFeedCnt ← on_buffers (fun b => getLineFeedCnt b (bufferIndex piece) pos (end_ piece));
  newStartOffset ← on_buffers (fun b => offsetInBuffer b (bufferIndex piece) pos);
  let lf_delta := newLineFeedCnt - lineFeedCnt piece in
  let size_delta := originalStartOffset - newStartOffset in
  set_piece node (mkPiece (bufferIndex piece) pos (end_ piece) newLineFeedCnt (length piece + size_delta));;
  updateTreeMetadata node size_delta lf_delta.

(** ** CRLF *)

Definition shouldCheckCRLF : P bool := gets (fun s => negb (EOLNormalized_ s && bool_decide (EOL_ s = [10]))).

(** The first code unit of a node is a LF; false for [SENTINEL]. *)
Definition startWithLF (val : ptr) : P bool :=
  if val =? SENTINEL then mret false
  else
    piece ← npiece val;
    if lineFeedCnt piece =? 0 then mret false
    else on_buffers (fun bufs =>
      let* b := get_buffer bufs (bufferIndex piece) in
      let l := line (start piece) in
      let* x := line_start b l in
      let startOffset := x + column (start piece) in
      if l =? zlen (lineStarts b) - 1 then Ok false
      else
        let* nextLineOffset := line_start b (l + 1) in
        if nextLineOffset >? startOffset + 1 then Ok false
        else Ok (is_char (charCodeAt (buffer b) startOffset) 10)).

(** [None] stands for the [-1] of a piece without line feeds, and for [NaN]. *)
Definition nodeCharCodeAt (node : ptr) (offset : Z) : P (option Z) :=
  piece ← npiece node;
  if lineFeedCnt piece <? 1 then mret None
  else on_buffers (fun bufs =>
    let* b := get_buffer bufs (bufferIndex piece) in
    let* x := offsetInBuffer bufs (bufferIndex piece) (start piece) in
    Ok (charCodeAt (buffer b) (x + offset))).

Definition endWithCR (val : ptr) : P bool :=
  if val =? SENTINEL then mret false
  else
    piece ← npiece val;
    if lineFeedCnt piece =? 0 then mret false
    else c ← nodeCharCodeAt val (length piece - 1); mret (is_char c 13).

(** The first LF of a piece is given up; the new piece. *)
Definition drop_LF (bufs : list StringBuffer) (piece : Piece) : result Piece :=
  let newStart := mkCursor (line (start piece) + 1) 0 in
  let* cnt := getLineFeedCnt bufs (bufferIndex piece) newStart (end_ piece) in
  Ok (mkPiece (bufferIndex piece) newStart (end_ piece) cnt (length piece - 1)).

(** [insert(offset, '\r\n')] in place of the CR that ends [prev] and the LF that starts
    [next]. *)
Definition fixCRLF (prev next : ptr) : P unit :=
  piece ← npiece prev;
  newEnd ← on_buffers (fun bufs =>
    let* b := get_buffer bufs (bufferIndex piece) in
    if column (end_ piece) =? 0 then
      let* x := line_start b (line (end_ piece)) in
      let* y := line_start b (line (end_ piece) - 1) in
      Ok (mkCursor (line (end_ piece) - 1) (x - y - 1))
    else Ok (mkCursor (line (end_ piece)) (column (end_ piece) - 1)));
  set_piece prev (mkPiece (bufferIndex piece) (start piece) newEnd (lineFeedCnt piece - 1) (length piece - 1));;
  updateTreeMetadata prev (-1) (-1);;
  npiece' ← npiece next;
  next' ← on_buffers (fun bufs => drop_LF bufs npiece');
  set_piece next next';;
  updateTreeMetadata next (-1) (-1);;
  pieces ← createNewPieces [13; 10];
  p ← non_null (pieces.[0]);
  _ ← rbInsertRight prev p;
  deleteNodes ((if length piece - 1 =? 0 then [prev] else []) ++ (if length next' =? 0 then [next] else [])).

Definition validateCRLFWithPrevNode (nextNode : ptr) : P unit :=
  c ← shouldCheckCRLF;
  lf ← (if c : bool then startWithLF nextNode else mret false);
  if lf : bool then
    node ← on_tree (RB.prev nextNode);
    cr ← endWithCR node;
    if cr : bool then fixCRLF node nextNode else mret tt
  else mret tt.

Definition validateCRLFWithNextNode (node : ptr) : P unit :=
  c ← shouldCheckCRLF;
  cr ← (if c : bool then endWithCR node else mret false);
  if cr : bool then
    nextNode ← on_tree (RB.next node);
    lf ← startWithLF nextNode;
    if lf : bool then fixCRLF node nextNode else mret tt
  else mret tt.

Definition adjustCarriageReturnFromNext (value : list Z) (node : ptr) : P bool :=
  c ← shouldCheckCRLF;
  if (c : bool) && endWithCR_str value then
    nextNode ← on_tree (RB.next node);
    lf ← startWithLF nextNode;
    if lf : bool then
      piece ← npiece nextNode;
      (if length piece =? 1 then rbDelete nextNode
       else
         piece' ← on_buffers (fun bufs => drop_LF bufs piece);
         set_piece nextNode piece';;
         updateTreeMetadata nextNode (-1) (-1));;
      mret true
    else mret false
  else mret false.

(** ** Edits of a node *)

Definition shrinkNode (node : ptr) (start_ end__ : BufferCursor) : P unit :=
  piece ← npiece node;
  newLineFeedCnt ← on_buffers (fun b => getLineFeedCnt b (bufferIndex piece) (start piece) start_);
  x ← on_buffers (fun b => offsetInBuffer b (bufferIndex piece) start_);
  y ← on_buffers (fun b => offsetInBuffer b (bufferIndex piece) (start piece));
  let newLength := x - y in
  set_piece node (mkPiece (bufferIndex piece) (start piece) start_ newLineFeedCnt newLength);;
  updateTreeMetadata node (newLength - length piece) (newLineFeedCnt - lineFeedCnt piece);;
  cnt ← on_buffers (fun b => getLineFeedCnt b (bufferIndex piece) end__ (end_ piece));
  e ← on_buffers (fun b => offsetInBuffer b (bufferIndex piece) (end_ piece));
  s ← on_buffers (fun b => offsetInBuffer b (bufferIndex piece) end__);
  newNode ← rbInsertRight node (mkPiece (bufferIndex piece) end__ (end_ piece) cnt (e - s));
  validateCRLFWithPrevNode newNode.

Definition appendToNode (node : ptr) (value : list Z) : P unit :=
  adjusted ← adjustCarriageReturnFromNext value node;
  let value := if adjusted : bool then value ++ [10] else value in
  c ← shouldCheckCRLF;
  cr ← (if (c : bool) && startWithLF_str value then endWithCR node else mret false);
  s ← gets id;
  b ← on_buffers (fun bufs => get_buffer bufs 0);
  let startOffset := zlen (buffer b) in
  let newStarts := (fun x => x + startOffset) <$> createLineStartsFast value false in
  ls ← (if cr : bool then
          prevStartOffset ← on_buffers (fun _ => line_start b (zlen (lineStarts b) - 2));
          modify (with_changePos (mkCursor (line (lastChangeBufferPos_ s) - 1) (startOffset - prevStartOffset)));;
          mret (removelast (lineStarts b))
        else mret (lineStarts b));
  let b' := mkBuffer (buffer b ++ value) (ls ++ drop 1 newStarts) in
  modify (fun s => with_buffers (set_at (buffers_ s) 0 b') s);;
  let endIndex := zlen (lineStarts b') - 1 in
  x ← on_buffers (fun _ => line_start b' endIndex);
  let newEnd := mkCursor endIndex (zlen (buffer b') - x) in
  piece ← npiece node;
  newLineFeedCnt ← on_buffers (fun bufs => getLineFeedCnt bufs 0 (start piece) newEnd);
  set_piece node (mkPiece (bufferIndex piece) (start piece) newEnd newLineFeedCnt (length piece + zlen value));;
  modify (with_changePos newEnd);;
  updateTreeMetadata node (zlen value) (newLineFeedCnt - lineFeedCnt piece).

(** [for (...) { newNode = this.rbInsertLeft(newNode, p); }] *)
Fixpoint insert_all_left (node : ptr) (ps : list Piece) : P ptr :=
  match ps with [] => mret node | p :: ps' => n ← rbInsertLeft node p; insert_all_left n ps' end.

Fixpoint insert_all_right (node : ptr) (ps : list Piece) : P ptr :=
  match ps with [] => mret node | p :: ps' => n ← rbInsertRight node p; insert_all_right n ps' end.

Definition insertContentToNodeLeft (value : list Z) (node : ptr) : P unit :=
  c ← shouldCheckCRLF;
  lf ← (if (c : bool) && endWithCR_str value then startWithLF node else mret false);
  '(value, nodesToDel) ←
    (if lf : bool then
       piece ← npiece node;
       nPiece ← on_buffers (fun bufs => drop_LF bufs piece);
       set_piece node nPiece;;
       updateTreeMetadata node (-1) (-1);;
       mret (value ++ [10], if length nPiece =? 0 then [node] else [])
     else mret (value, []));
  newPieces ← createNewPieces value;
  newNode ← insert_all_left node (rev newPieces);
  validateCRLFWithPrevNode newNode;;
  deleteNodes nodesToDel.

Definition insertContentToNodeRight (value : list Z) (node : ptr) : P unit :=
  adjusted ← adjustCarriageReturnFromNext value node;
  let value := if adjusted : bool then value ++ [10] else value in
  newPieces ← createNewPieces value;
  p ← non_null (newPieces.[0]);
  newNode ← rbInsertRight node p;
  _ ← insert_all_right newNode (drop 1 newPieces);
  validateCRLFWithPrevNode newNode.

(** ** Edits of the document *)

(** The case of [insert] inside a node. *)
Definition insert_middle (value : list Z) (node : ptr) (rem : Z) (insertPosInBuffer : BufferCursor) : P unit :=
  piece ← npiece node;
  cnt ← on_buffers (fun b => getLineFeedCnt b (bufferIndex piece) insertPosInBuffer (end_ piece));
  e ← on_buffers (fun b => offsetInBuffer b (bufferIndex piece) (end_ piece));
  s ← on_buffers (fun b => offsetInBuffer b (bufferIndex piece) insertPosInBuffer);
  let newRightPiece := mkPiece (bufferIndex piece) insertPosInBuffer (end_ piece) cnt (e - s) in
  c ← shouldCheckCRLF;
  headOfRight ← (if (c : bool) && endWithCR_str value then nodeCharCodeAt node rem else mret None);
  '(newRightPiece, value) ←
    (if is_char headOfRight 10 then
       p ← on_buffers (fun bufs => drop_LF bufs newRightPiece); mret (p, value ++ [10])
     else mret (newRightPiece, value));
  c ← shouldCheckCRLF;
  tailOfLeft ← (if (c : bool) && startWithLF_str value then nodeCharCodeAt node (rem - 1) else mret None);
  '(value, nodesToDel) ←
    (if is_char tailOfLeft 13 then
       previousPos ← on_buffers (fun b => positionInBuffer b piece (rem - 1));
       deleteNodeTail node previousPos;;
       piece ← npiece node;
       mret ([13] ++ value, if length piece =? 0 then [node] else [])
     else deleteNodeTail node insertPosInBuffer;; mret (value, []));
  newPieces ← createNewPieces value;
  _ ← (if length newRightPiece >? 0 then rbInsertRight node newRightPiece else mret node);
  _ ← insert_all_right node newPieces;
  deleteNodes nodesToDel.

Definition insert (offset : Z) (value : list Z) (eolNormalized : bool) : P unit :=
  modify (fun s => with_EOLNormalized (EOLNormalized_ s && eolNormalized) s);;
  modify (with_visited (0, []));;
  r ← on_tree get_root;
  if negb (r =? SENTINEL) then
    pos ← nodeAt offset;
    pos ← non_null pos;
    let node := np_node pos in
    let nso := nodeStartOffset pos in
    piece ← npiece node;
    insertPosInBuffer ← on_buffers (fun b => positionInBuffer b piece (remainder pos));
    s ← gets id;
    if (bufferIndex piece =? 0) && (line (end_ piece) =? line (lastChangeBufferPos_ s)) &&
       (column (end_ piece) =? column (lastChangeBufferPos_ s)) && (nso + length piece =? offset) &&
       (zlen value <? AverageBufferSize)
    then
      appendToNode node value;;
      computeBufferMetadata
    else
      (if nso =? offset then insertContentToNodeLeft value node;; SC.validate offset
       else if nso + length piece >? offset then insert_middle value node (remainder pos) insertPosInBuffer
       else insertContentToNodeRight value node);;
      computeBufferMetadata
  else
    pieces ← createNewPieces value;
    p ← non_null (pieces.[0]);
    node ← rbInsertLeft null p;
    _ ← insert_all_right node (drop 1 pieces);
    computeBufferMetadata.

(** [for (let node = secondNode; node !== SENTINEL && node !== endNode; node = node.next())] *)
Fixpoint nodes_between (fuel : nat) (node endNode : ptr) : P (list ptr) :=
  match fuel with
  | O => throw OtherError
  | S fuel' =>
      if (node =? SENTINEL) || (node =? endNode) then mret []
      else n ← on_tree (RB.next node); rest ← nodes_between fuel' n endNode; mret (node :: rest)
  end.

(** The cases of [delete] inside one node. *)
Definition delete_in_node (offset cnt : Z) (startNode : ptr) (nso startRem endRem : Z) : P unit :=
  piece ← npiece startNode;
  startSplitPosInBuffer ← on_buffers (fun b => positionInBuffer b piece startRem);
  endSplitPosInBuffer ← on_buffers (fun b => positionInBuffer b piece endRem);
  if nso =? offset then
    if cnt =? length piece then
      next ← on_tree (RB.next startNode);
      rbDelete startNode;;
      validateCRLFWithPrevNode next;;
      computeBufferMetadata
    else
      deleteNodeHead startNode endSplitPosInBuffer;;
      SC.validate offset;;
      validateCRLFWithPrevNode startNode;;
      computeBufferMetadata
  else if nso + length piece =? offset + cnt then
    deleteNodeTail startNode startSplitPosInBuffer;;
    validateCRLFWithNextNode startNode;;
    computeBufferMetadata
  else
    shrinkNode startNode startSplitPosInBuffer endSplitPosInBuffer;;
    computeBufferMetadata.

(** The case of [delete] from one node to another. *)
Definition delete_across (offset : Z) (startNode endNode : ptr) (startRem endRem : Z) : P unit :=
  piece ← npiece startNode;
  startSplitPosInBuffer ← on_buffers (fun b => positionInBuffer b piece startRem);
  deleteNodeTail startNode startSplitPosInBuffer;;
  SC.validate offset;;
  spiece ← npiece startNode;
  epiece ← npiece endNode;
  endSplitPosInBuffer ← on_buffers (fun b => positionInBuffer b epiece endRem);
  deleteNodeHead endNode endSplitPosInBuffer;;
  epiece ← npiece endNode;
  secondNode ← on_tree (RB.next startNode);
  fuel ← nodes_bound;
  between ← nodes_between fuel secondNode endNode;
  let nodesToDel := (if length spiece =? 0 then [startNode] else []) ++ (if length epiece =? 0 then [endNode] else []) ++ between in
  prev ← (if length spiece =? 0 then on_tree (RB.prev startNode) else mret startNode);
  deleteNodes nodesToDel;;
  validateCRLFWithNextNode prev;;
  computeBufferMetadata.

Definition delete (offset cnt : Z) : P unit :=
  modify (with_visited (0, []));;
  r ← on_tree get_root;
  if (cnt <=? 0) || (r =? SENTINEL) then mret tt
  else
    startPosition ← nodeAt offset;
    endPosition ← nodeAt (offset + cnt);
    startPosition ← non_null startPosition;
    endPosition ← non_null endPosition;
    if np_node startPosition =? np_node endPosition then
      delete_in_node offset cnt (np_node startPosition) (nodeStartOffset startPosition) (remainder startPosition) (remainder endPosition)
    else
      delete_across offset (np_node startPosition) (np_node endPosition) (remainder startPosition) (remainder endPosition).

(** ** Building *)

(** A chunk, with its line starts when they are known. *)
Fixpoint create_chunks (i : Z) (chunks : list (list Z * option (list Z))) (lastNode : ptr) : P unit :=
  match chunks with
  | [] => mret tt
  | (text, ls) :: chunks' =>
      if zlen text >? 0 then
        let ls := match ls with Some ls => ls | None => createLineStartsFast text true end in
        modify (fun s => with_buffers (buffers_ s ++ [mkBuffer text ls]) s);;
        node ← rbInsertRight lastNode (whole_piece (i + 1) text ls);
        create_chunks (i + 1) chunks' node
      else create_chunks (i + 1) chunks' lastNode
  end.

Definition create (chunks : list (list Z * option (list Z))) (eol : list Z) (eolNormalized : bool) : P unit :=
  modify (fun s => mkPT (mkStore (heap (tree s)) SENTINEL) [mkBuffer [] [0]] 1 0 eol eolNormalized (mkCursor 0 0)
    (searchCache_ s) (lastVisitedLine_ s));;
  create_chunks 0 chunks null;;
  modify (with_cache []);;
  modify (with_visited (0, []));;
  computeBufferMetadata.

(** [tempChunk] and [chunks]; [tempChunkLen] is the length of [tempChunk]. *)
Definition normalize_callback (eol : list Z) (v : list Z * list (list Z * option (list Z))) (node : ptr) :
    P (list Z * list (list Z * option (list Z)) * bool) :=
  let '(tempChunk, chunks) := v in
  str ← getNodeContent node;
  let min := AverageBufferSize - AverageBufferSize / 3 in
  let max := min * 2 in
  if (zlen tempChunk <=? min) || (zlen tempChunk + zlen str <? max) then mret (tempChunk ++ str, chunks, true)
  else
    let text := replaceEOL tempChunk eol in
    mret (str, chunks ++ [(text, Some (createLineStartsFast text true))], true).

Definition normalizeEOL (eol : list Z) : P unit :=
  '(tempChunk, chunks, _) ← iterate_root (normalize_callback eol) ([], []);
  let chunks :=
    if zlen tempChunk >? 0 then
      let text := replaceEOL tempChunk eol in chunks ++ [(text, Some (createLineStartsFast text true))]
    else chunks in
  create chunks eol true.

Definition setEOL (newEOL : list Z) : P unit :=
  modify (with_EOL newEOL);;
  normalizeEOL newEOL.
End PT.

(** ** Snapshots *)

Record PieceTreeSnapshot : Type := mkSnapshot { pieces_ : list Piece; index_ : Z; BOM_ : list Z }.

Module Snapshot.

Definition new (BOM : list Z) : P PieceTreeSnapshot :=
  r ← on_tree get_root;
  pieces ← (if negb (r =? SENTINEL) then
              '(v, _) ← PT.iterate_root (fun v node =>
                if negb (node =? SENTINEL) then p ← npiece node; mret (v ++ [p], true) else mret (v, true)) [];
              mret v
            else mret []);
  mret (mkSnapshot pieces 0 BOM).

(** The text, or [null] at the end, and the snapshot after. *)
Definition read (this : PieceTreeSnapshot) : P (option (list Z) * PieceTreeSnapshot) :=
  let next := mkSnapshot (pieces_ this) (index_ this + 1) (BOM_ this) in
  if zlen (pieces_ this) =? 0 then
    if index_ this =? 0 then mret (Some (BOM_ this), next) else mret (None, this)
  else if index_ this >? zlen (pieces_ this) - 1 then mret (None, this)
  else
    p ← non_null ((pieces_ this).[index_ this]);
    c ← on_buffers (fun b => getPieceContent b p);
    if index_ this =? 0 then mret (Some (BOM_ this ++ c), next) else mret (Some c, next).

End Snapshot.
