(* ===== verification/PtState.v ===== *)
(** * The state of a piece tree

    [wf F s its]: the nodes of the tree of [s], in order, are [its], each with its piece and
    the text the piece stands for; the buffers are well formed and the change buffer ends at
    [lastChangeBufferPos_].  The rules below are those of the operations on one node, which
    keep this: stepping to a neighbour, giving a node another piece, inserting and deleting
    a node.  The objects of [F] are not touched, and deleted nodes become such objects. *)

From S2P Require Import Prelude Store RbTree RbRep RbMeta RbInsert RbWalk RbDelete PtBuffer PtSpan PieceTree.

#[local] Open Scope js_scope.
#[local] Arguments Z.eqb : simpl never.
#[local] Arguments Z.ltb : simpl never.
#[local] Arguments Z.add : simpl never.
#[local] Arguments Z.sub : simpl never.

(** ** Another piece in a node *)

Lemma rbt_change_info c l i i' r c0 n : rbt c0 n (T c l i r) -> rbt c0 n (T c l i' r).
Proof. inversion 1; subst; eauto with rb. Qed.

Lemma wp_change_piece F t xs ys (z : ptr) q p :
  piece_tree F t (xs ++ (z, q) :: ys) ->
  wp (upd z (with_piece p);; RB.updateTreeMetadata z (length p - length q) (lineFeedCnt p - lineFeedCnt q)) t
    (fun _ t' => piece_tree F t' (xs ++ (z, p) :: ys)).
Proof.
  intros (u & Hs & [n Hrb] & Hm & He). apply find_place in He as (K & c & l & i & r & -> & [= -> ->] & -> & ->).
  set (i' := mkInfo (addr i) p (sl i) (lf i)). set (d := length p - _). set (e := lineFeedCnt p - _).
  apply wp_bind, (wp_upd_node F SENTINEL t K c l i r Hs _ c i'); [done|done|]. intros t' Hs'.
  eapply wp_mono; [exact (wp_updateTreeMetadata F SENTINEL t' d e K (T c l i' r) ltac:(done) Hs')|]. intros [] t'' Hs''.
  exists (plug (upd_ctx d e K) (T c l i' r)). split; [done|]. split; [|split].
  - destruct (rbt_unplug _ _ _ _ Hrb eq_refl) as (c0 & m & Ht & HK).
    eapply rbt_plug; [by eapply rbt_change_info|by apply rbc_upd_ctx].
  - apply meta_plug in Hm as [Hmt HmK]. apply meta_plug. split; [by simpl in *; tauto|].
    apply (meta_upd_ctx d e) in HmK. revert HmK. rewrite !tsize_T, !tlf_T. cbn [pc i'].
    replace (tsize l + length (pc i) + tsize r + d) with (tsize l + length p + tsize r) by (unfold d; lia).
    by replace (tlf l + lineFeedCnt (pc i) + tlf r + e) with (tlf l + lineFeedCnt p + tlf r) by (unfold e; lia).
  - rewrite elems_plug, before_upd_ctx, after_upd_ctx. cbn [elems addr pc i']. app_eq.
Qed.

Lemma piece_tree_lookup F t es (z : ptr) q :
  piece_tree F t es -> (z, q) ∈ es -> exists n, heap t !! z = Some n /\ piece n = Some q.
Proof.
  intros (u & Hs & _ & _ & He) (xs & ys & ->)%list_elem_of_split. apply find_place in He as (K & c & l & i & r & -> & [= -> ->] & _ & _).
  eexists. split; [by apply (tree_lookup F SENTINEL t K c l i r)|done].
Qed.

Lemma piece_tree_NoDup F t es : piece_tree F t es -> NoDup (SENTINEL :: es.*1).
Proof. intros (u & [_ (_ & Hn & _)] & _ & _ & <-). exact Hn. Qed.

Lemma piece_tree_outside F t es (a : ptr) n : piece_tree F t es -> F !! a = Some n -> heap t !! a = Some n /\ a ∉ SENTINEL :: es.*1.
Proof. intros (u & [_ (_ & _ & _ & HF)] & _ & _ & <-) Ha. destruct (HF a n Ha). done. Qed.

Lemma piece_tree_weaken F F' t es : F ⊆ F' -> piece_tree F' t es -> piece_tree F t es.
Proof. intros HF (u & Hs & H). exists u. split; [by eapply tree_at_weaken|done]. Qed.

Lemma piece_tree_root F t es : piece_tree F t es -> (root t = SENTINEL <-> es = []).
Proof.
  intros (u & Hs & _ & _ & <-). pose proof Hs as [-> _]. destruct u as [|c l i r]; [done|]. split.
  - intros E0. by destruct (root_of_ne F SENTINEL t [] (T c l i r) ltac:(done) Hs).
  - simpl. by destruct (elems l).
Qed.

(** ** Nodes with their texts *)

Abbreviation item := (ptr * (Piece * list Z))%type.

Implicit Types (its xs ys : list item) (ps : list (Piece * list Z)) (F : gmap ptr TreeNode) (s : PieceTreeBase) (x : ptr).

Definition nodes its : list (ptr * Piece) := (fun it : item => (it.1, it.2.1)) <$> its.
Definition doc its : list Z := concat ((fun it : item => it.2.2) <$> its).

Lemma nodes_app xs ys : nodes (xs ++ ys) = nodes xs ++ nodes ys.
Proof. apply fmap_app. Qed.

Lemma nodes_fst its : (nodes its).*1 = its.*1.
Proof. unfold nodes. by rewrite <- list_fmap_compose. Qed.

Lemma doc_app xs ys : doc (xs ++ ys) = doc xs ++ doc ys.
Proof. unfold doc. by rewrite fmap_app, concat_app. Qed.

Lemma doc_cons x p (str : list Z) its : doc ((x, (p, str)) :: its) = str ++ doc its.
Proof. done. Qed.

Lemma doc_nil : doc [] = [].
Proof. done. Qed.

Definition first_node its : ptr := match its with [] => SENTINEL | it :: _ => it.1 end.
Definition last_node its : ptr := match last its with None => SENTINEL | Some it => it.1 end.

Lemma first_node_eq its : first_ptr (nodes its) = first_node its.
Proof. by destruct its. Qed.

Lemma last_node_eq its : last_ptr (nodes its) = last_node its.
Proof. unfold last_ptr, last_node, nodes. rewrite fmap_last. by destruct (last its). Qed.

(** The pieces that end where the change buffer ends. *)
Fixpoint tips (c : BufferCursor) ps : nat :=
  match ps with [] => O | pt :: ps' => ((if tip c pt.1 then 1 else 0) + tips c ps')%nat end.

Lemma tips_app c ps ps' : tips c (ps ++ ps') = (tips c ps + tips c ps')%nat.
Proof. induction ps as [|pt ps IH]; simpl; [done|]. rewrite IH. lia. Qed.

Lemma tips_perm c ps ps' : ps ≡ₚ ps' -> tips c ps = tips c ps'.
Proof. induction 1; simpl; lia. Qed.

(** The buffers, and pieces that stand for texts. *)
Definition text_ok s ps : Prop :=
  (exists b, (buffers_ s).[0] = Some b /\ cursor_at (buffer b) (lastChangeBufferPos_ s) (zlen (buffer b))) /\
  Forall buffer_ok (buffers_ s) /\ Forall (fun pt => has_text (buffers_ s) pt.1 pt.2) ps /\
  (tips (lastChangeBufferPos_ s) ps <= 1)%nat.

Definition wf F s its : Prop := piece_tree F (tree s) (nodes its) /\ text_ok s (its.*2).

Lemma text_ok_perm s ps ps' : ps ≡ₚ ps' -> text_ok s ps -> text_ok s ps'.
Proof.
  intros Hp (Hb & Hbs & Hf & Ht). split; [done|]. split; [done|]. split; [by rewrite <- Hp|]. by rewrite <- (tips_perm _ _ _ Hp).
Qed.

(** One piece becomes some. *)
Lemma text_ok_replace s ps1 pt ps2 ps :
  text_ok s (ps1 ++ pt :: ps2) -> Forall (fun pt => has_text (buffers_ s) pt.1 pt.2) ps ->
  (tips (lastChangeBufferPos_ s) ps <= tips (lastChangeBufferPos_ s) [pt])%nat -> text_ok s (ps1 ++ ps ++ ps2).
Proof.
  intros (Hb & Hbs & Hf & Ht) Hps Htip. split; [done|]. split; [done|].
  rewrite Forall_app, Forall_cons in Hf. rewrite !Forall_app. split; [tauto|].
  rewrite tips_app in *. change (tips ?c (pt :: ps2)) with (tips c ([pt] ++ ps2)) in Ht. rewrite tips_app in *. lia.
Qed.

Lemma text_ok_app_l s ps ps' : text_ok s (ps ++ ps') -> text_ok s ps.
Proof. intros (Hb & Hbs & Hf & Ht). rewrite tips_app in Ht. apply Forall_app in Hf. split_and!; try tauto. lia. Qed.

Lemma text_ok_app_r s ps ps' : text_ok s (ps ++ ps') -> text_ok s ps'.
Proof. intros H. apply (text_ok_app_l _ ps' ps). eapply text_ok_perm; [|exact H]. apply Permutation_app_comm. Qed.

Lemma text_ok_tail s pt ps : text_ok s (pt :: ps) -> text_ok s ps.
Proof. apply (text_ok_app_r s [pt]). Qed.

Lemma text_ok_in s ps pt : text_ok s ps -> pt ∈ ps -> has_text (buffers_ s) pt.1 pt.2.
Proof. intros (_ & _ & Hf & _) Hin. rewrite Forall_forall in Hf. by apply Hf. Qed.

(** A cursor with text after it is not where the change buffer ends. *)
Lemma tip_before s ps i (c c2 : BufferCursor) str c1 n m :
  text_ok s ps -> span (buffers_ s) i c c2 str -> str <> [] -> tip (lastChangeBufferPos_ s) (mkPiece i c1 c n m) = false.
Proof.
  intros ((b0 & Hb0 & Hpos) & _) (b & oa & Hi & _ & H1 & H2 & _) Hne. unfold tip. cbn [bufferIndex end_].
  destruct (Z.eqb_spec i 0) as [->|]; [|done]. simpl. apply bool_decide_eq_false. intros ->. rewrite Hb0 in Hi. injection Hi as <-.
  pose proof (cursor_offset_unique _ _ _ _ H1 Hpos). destruct H2 as [H2 _].
  assert (0 < zlen str) by (destruct str; [done|]; rewrite zlen_cons; pose proof (zlen_nonneg str); lia). lia.
Qed.

Lemma tip_end c i c1 c1' c2 n n' m m' : tip c (mkPiece i c1 c2 n m) = tip c (mkPiece i c1' c2 n' m').
Proof. done. Qed.

Lemma wf_in F s its x p str : wf F s its -> (x, (p, str)) ∈ its -> has_text (buffers_ s) p str.
Proof.
  intros [_ Ht] Hin. apply (text_ok_in s (its.*2) (p, str) Ht). by apply (list_elem_of_fmap_2 snd) in Hin.
Qed.

Lemma wf_text F s xs x p str ys : wf F s (xs ++ (x, (p, str)) :: ys) -> has_text (buffers_ s) p str.
Proof. intros Hs. eapply wf_in; [exact Hs|]. apply elem_of_app. right. apply list_elem_of_here. Qed.

Lemma wf_node_ne F s xs x pt ys : wf F s (xs ++ (x, pt) :: ys) -> x <> SENTINEL.
Proof.
  intros [Ht _]. apply piece_tree_NoDup in Ht. rewrite nodes_fst in Ht. apply NoDup_cons in Ht as [Hn _].
  intros ->. apply Hn. rewrite fmap_app. apply elem_of_app. right. apply list_elem_of_here.
Qed.

(** ** Rules *)

Lemma with_tree_id s : with_tree (tree s) s = s.
Proof. by destruct s. Qed.

Lemma wp_on_tree {A} (m : M A) s (Q : A -> PieceTreeBase -> Prop) :
  wp m (tree s) (fun a t => Q a (with_tree t s)) -> wp (on_tree m) s Q.
Proof. unfold wp, on_tree. by destruct (m (tree s)) as [[a t]|]. Qed.

(** An operation on the nodes that reads only. *)
Lemma wp_on_tree_read {A} (m : M A) s (Q : A -> PieceTreeBase -> Prop) :
  wp m (tree s) (fun a t => t = tree s /\ Q a s) -> wp (on_tree m) s Q.
Proof. intros Hm. apply wp_on_tree. eapply wp_mono; [exact Hm|]. intros a t [-> HQ]. by rewrite with_tree_id. Qed.

Lemma wp_on_buffers {A} (f : list StringBuffer -> result A) s (a : A) (Q : A -> PieceTreeBase -> Prop) :
  f (buffers_ s) = Ok a -> Q a s -> wp (on_buffers f) s Q.
Proof. intros Hf HQ. unfold wp, on_buffers. by rewrite Hf. Qed.

Lemma wp_assoc {S A B C} (m : ST S A) (f : A -> ST S B) (g : B -> ST S C) (s : S) Q :
  wp ((m ≫= f) ≫= g) s Q -> wp (m ≫= (fun a => f a ≫= g)) s Q.
Proof. unfold wp, mbind, ST_bind. by destruct (m s) as [[a s']|]. Qed.

Lemma wp_seq2 {S A B C} (m : ST S A) (n : ST S B) (k : ST S C) (s : S) Q :
  wp (m;; n) s (fun _ (s' : S) => wp k s' Q) -> wp (m;; n;; k) s Q.
Proof. intros Hm. apply wp_assoc, wp_bind. exact Hm. Qed.

Lemma wp_root F s its (Q : ptr -> PieceTreeBase -> Prop) :
  wf F s its -> (forall r, (r =? SENTINEL) = bool_decide (its = []) -> Q r s) -> wp (on_tree get_root) s Q.
Proof.
  intros [Ht _] HQ. apply wp_on_tree, wp_get_root. rewrite with_tree_id. apply HQ.
  pose proof (piece_tree_root _ _ _ Ht) as Hr. destruct (Z.eqb_spec (root (tree s)) SENTINEL) as [E|E]; symmetry.
  - apply bool_decide_eq_true. apply Hr in E. by destruct its.
  - apply bool_decide_eq_false. intros ->. by apply E, Hr.
Qed.

Lemma wp_npiece F s its x p str (Q : Piece -> PieceTreeBase -> Prop) :
  wf F s its -> (x, (p, str)) ∈ its -> Q p s -> wp (npiece x) s Q.
Proof.
  intros [Ht _] Hin HQ. apply wp_on_tree_read.
  assert (Hin' : (x, p) ∈ nodes its) by (by apply (list_elem_of_fmap_2 (fun it : item => (it.1, it.2.1))) in Hin).
  destruct (piece_tree_lookup _ _ _ _ _ Ht Hin') as (n & Hn & Hp). by eapply wp_get_piece; [exact Hn|exact Hp|].
Qed.

Lemma wp_piece F s xs x p str ys (Q : Piece -> PieceTreeBase -> Prop) :
  wf F s (xs ++ (x, (p, str)) :: ys) -> Q p s -> wp (npiece x) s Q.
Proof. intros Hs. eapply wp_npiece; [exact Hs|]. apply elem_of_app. right. apply list_elem_of_here. Qed.

Lemma wp_next_node F s xs x pt ys (Q : ptr -> PieceTreeBase -> Prop) :
  wf F s (xs ++ (x, pt) :: ys) -> Q (first_node ys) s -> wp (on_tree (RB.next x)) s Q.
Proof.
  intros [Ht _] HQ. rewrite nodes_app in Ht. apply wp_on_tree_read. eapply wp_mono; [by apply (wp_next_at _ _ _ _ _ _ Ht)|].
  intros a t [-> ->]. by rewrite first_node_eq.
Qed.

(** [next] of [SENTINEL], which the deletions leave with itself as its parent. *)
Lemma wp_next_sentinel F s its (Q : ptr -> PieceTreeBase -> Prop) : wf F s its -> Q SENTINEL s -> wp (on_tree (RB.next SENTINEL)) s Q.
Proof.
  intros [(t & [_ (_ & _ & Hsent & _)] & _) _] HQ. apply wp_on_tree_read. unfold RB.next. apply wp_bind. eapply wp_fld; [exact Hsent|]. cbn [right sentinel_node].
  change (negb (SENTINEL =? SENTINEL)) with false. cbv iota. apply wp_bind. unfold while_, enough. apply wp_bind, wp_gets. cbn [loop]. apply wp_bind, wp_bind.
  eapply wp_fld; [exact Hsent|]. cbn [parent sentinel_node]. change (SENTINEL =? SENTINEL) with true. cbv iota. apply wp_ret, wp_ret. eapply wp_fld; [exact Hsent|]. by split.
Qed.

Lemma wp_prev_node F s xs x pt ys (Q : ptr -> PieceTreeBase -> Prop) :
  wf F s (xs ++ (x, pt) :: ys) -> Q (last_node xs) s -> wp (on_tree (RB.prev x)) s Q.
Proof.
  intros [Ht _] HQ. rewrite nodes_app in Ht. apply wp_on_tree_read. eapply wp_mono; [by apply (wp_prev_at _ _ _ _ _ _ Ht)|].
  intros a t [-> ->]. by rewrite last_node_eq.
Qed.

(** A new piece, before or after its text was accounted for. *)
Lemma wp_set_nodes F s xs x q ys p d e (Q : unit -> PieceTreeBase -> Prop) :
  piece_tree F (tree s) (nodes xs ++ (x, q) :: nodes ys) -> d = length p - length q -> e = lineFeedCnt p - lineFeedCnt q ->
  (forall t, piece_tree F t (nodes xs ++ (x, p) :: nodes ys) -> Q tt (with_tree t s)) ->
  wp (set_piece x p;; PT.updateTreeMetadata x d e) s Q.
Proof.
  intros Ht -> -> HQ. unfold set_piece, PT.updateTreeMetadata.
  pose proof (wp_change_piece F (tree s) (nodes xs) (nodes ys) x q p Ht) as Hw.
  unfold wp, mbind, ST_bind, on_tree in *. destruct (upd x _ (tree s)) as [[[] t1]|]; [|done]. cbn [tree with_tree] in *.
  destruct (RB.updateTreeMetadata _ _ _ t1) as [[[] t2]|]; [|done]. by apply HQ.
Qed.

Lemma wp_set F s xs x q str ys p str' d e (Q : unit -> PieceTreeBase -> Prop) :
  wf F s (xs ++ (x, (q, str)) :: ys) -> has_text (buffers_ s) p str' ->
  (tip (lastChangeBufferPos_ s) p = true -> tip (lastChangeBufferPos_ s) q = true) ->
  d = length p - length q -> e = lineFeedCnt p - lineFeedCnt q ->
  (forall t, wf F (with_tree t s) (xs ++ (x, (p, str')) :: ys) -> Q tt (with_tree t s)) ->
  wp (set_piece x p;; PT.updateTreeMetadata x d e) s Q.
Proof.
  intros [Ht Hok] Hp Htip Hd He HQ. rewrite nodes_app in Ht.
  apply (wp_set_nodes F s xs x q ys p); [exact Ht|done|done|]. intros t Ht'. apply HQ. split; [by rewrite nodes_app|].
  rewrite fmap_app in *. cbn [fmap list_fmap snd] in *. change (text_ok s (xs.*2 ++ [(p, str')] ++ ys.*2)).
  eapply text_ok_replace; [exact Hok|by constructor|]. cbn [tips fst]. destruct (tip _ p); [by rewrite Htip|lia].
Qed.

Definition gone F x : Prop := exists n, F !! x = Some n /\ parent n = null.

Lemma gone_mono F F' x : F ⊆ F' -> gone F x -> gone F' x.
Proof. intros HF (n & Hn & Hp). exists n. split; [by eapply lookup_weaken|done]. Qed.

Lemma text_ok_tree s ps t : text_ok (with_tree t s) ps = text_ok s ps.
Proof. done. Qed.

Lemma wp_insert_right F s xs x pt ys p str (Q : ptr -> PieceTreeBase -> Prop) :
  wf F s (xs ++ (x, pt) :: ys) -> text_ok s ((p, str) :: (xs ++ (x, pt) :: ys).*2) ->
  (forall t z, wf F (with_tree t s) (xs ++ (x, pt) :: (z, (p, str)) :: ys) -> Q z (with_tree t s)) ->
  wp (PT.rbInsertRight x p) s Q.
Proof.
  intros [Ht _] Hok HQ. rewrite nodes_app in Ht. apply wp_on_tree.
  eapply wp_mono; [by apply (wp_rbInsertRight F (tree s) _ x pt.1 (nodes xs) (nodes ys) p Ht)|].
  intros z t (_ & _ & Hz). apply HQ. split; [rewrite nodes_app; cbn [tree with_tree]; by rewrite <- app_assoc in Hz|].
  rewrite text_ok_tree. eapply text_ok_perm; [|exact Hok]. rewrite !fmap_app. cbn [fmap list_fmap snd]. solve_Permutation.
Qed.

Lemma wp_insert_left F s xs x pt ys p str (Q : ptr -> PieceTreeBase -> Prop) :
  wf F s (xs ++ (x, pt) :: ys) -> text_ok s ((p, str) :: (xs ++ (x, pt) :: ys).*2) ->
  (forall t z, wf F (with_tree t s) (xs ++ (z, (p, str)) :: (x, pt) :: ys) -> Q z (with_tree t s)) ->
  wp (PT.rbInsertLeft x p) s Q.
Proof.
  intros [Ht _] Hok HQ. rewrite nodes_app in Ht. apply wp_on_tree.
  eapply wp_mono; [by apply (wp_rbInsertLeft F (tree s) _ x pt.1 (nodes xs) (nodes ys) p Ht)|].
  intros z t (_ & _ & Hz). apply HQ. split; [by rewrite nodes_app|].
  rewrite text_ok_tree. eapply text_ok_perm; [|exact Hok]. rewrite !fmap_app. cbn [fmap list_fmap snd]. solve_Permutation.
Qed.

Lemma wp_insert_first F s p str (Q : ptr -> PieceTreeBase -> Prop) :
  wf F s [] -> text_ok s [(p, str)] -> (forall t z, wf F (with_tree t s) [(z, (p, str))] -> Q z (with_tree t s)) ->
  wp (PT.rbInsertRight null p) s Q /\ wp (PT.rbInsertLeft null p) s Q.
Proof.
  intros [Ht _] Hok HQ. destruct (wp_rbInsert_empty F (tree s) null p Ht) as [H1 H2].
  split; apply wp_on_tree; (eapply wp_mono; [eassumption|]); intros z t (_ & _ & Hz); by apply HQ.
Qed.

Lemma wp_delete F s xs x pt ys (Q : unit -> PieceTreeBase -> Prop) :
  wf F s (xs ++ (x, pt) :: ys) ->
  (forall t F', wf F' (with_tree t s) (xs ++ ys) -> F ⊆ F' -> gone F' x -> Q tt (with_tree t s)) ->
  wp (PT.rbDelete x) s Q.
Proof.
  intros [Ht Hok] HQ. rewrite nodes_app in Ht. apply wp_on_tree.
  eapply wp_mono; [by apply (wp_rbDelete F (tree s) (nodes xs) (nodes ys) x pt.1 Ht)|].
  intros [] t (n & _ & Hp & _ & _ & Ht'). apply (HQ t (<[x:=n]> F)).
  - split; [by rewrite nodes_app|]. rewrite fmap_app in *. cbn [fmap list_fmap snd] in Hok.
    rewrite text_ok_tree. change (text_ok s (xs.*2 ++ [] ++ ys.*2)). apply (text_ok_replace s (xs.*2) pt (ys.*2) []); [exact Hok|constructor|cbn [tips]; lia].
  - apply insert_subseteq. destruct (F !! x) as [m|] eqn:E; [|done].
    destruct (piece_tree_outside _ _ _ _ _ Ht E) as [_ Hn]. destruct Hn. rewrite fmap_app. apply list_elem_of_further, elem_of_app.
    right. apply list_elem_of_here.
  - exists n. by rewrite lookup_insert_eq.
Qed.
