(* ===== verification/PtEdit.v ===== *)
(** * Edits of a piece tree

    The methods that change the document: [createNewPieces] puts new text into the buffers;
    the methods on one node shrink, cut and extend its piece; [fixCRLF] and its callers see
    to it that no CRLF is torn between two nodes.  Every rule says what nodes and texts there
    are afterwards, and that nothing else changed but the buffers and their end. *)

From S2P Require Import Prelude Store RbTree RbRep RbMeta RbInsert RbWalk RbDelete PtBuffer PtSpan PieceTree PtState.

#[local] Open Scope js_scope.
#[local] Arguments Z.eqb : simpl never.
#[local] Arguments Z.ltb : simpl never.
#[local] Arguments Z.gtb : simpl never.
#[local] Arguments Z.leb : simpl never.
#[local] Arguments Z.add : simpl never.
#[local] Arguments Z.sub : simpl never.

Implicit Types (its xs ys zs : list item) (ps : list (Piece * list Z)) (F : gmap ptr TreeNode) (s : PieceTreeBase) (x : ptr).

Ltac pt_step :=
  match goal with
  | |- wp (_ ≫= _) _ _ => apply wp_bind
  | |- wp (mret _) _ _ => apply wp_ret
  | |- wp (gets _) _ _ => apply wp_gets
  | |- wp (modify _) _ _ => apply wp_modify
  end.

(** ** What the edits change *)

(** Every text that does not end with a CR is still where it was.  After a CR a LF may
    come that then is on the same line. *)
Definition keeps (bufs bufs' : list StringBuffer) : Prop :=
  forall p str, str <> [] -> ends_cr str = false -> has_text bufs p str -> has_text bufs' p str.

#[export] Instance keeps_preorder : PreOrder keeps.
Proof. split; [by intros b p str|]. intros b1 b2 b3 H1 H2 p str Hne Hcr Hp. apply H2; [done|done|]. by apply H1. Qed.

Lemma keeps_push bufs b : keeps bufs (bufs ++ [b]).
Proof. intros p str _ _. apply has_text_push. Qed.

Lemma keeps_grow bufs b t ls c0 :
  bufs.[0] = Some b -> buffer_ok b -> buffer_ok (mkBuffer (buffer b ++ t) ls) -> cursor_at (buffer b) c0 (zlen (buffer b)) ->
  keeps bufs (set_at bufs 0 (mkBuffer (buffer b ++ t) ls)).
Proof.
  intros Hb Hbok Hbok' Hc0 p str Hne Hcr Hp. eapply has_text_grow; [done..|].
  destruct (tip c0 p) eqn:Et; [left|by right]. apply tip_true in Et as [Hi He].
  destruct Hp as [(b' & oa & Hi' & _ & [Ha _] & H2 & Hstr) _]. rewrite Hi, Hb in Hi'. injection Hi' as <-.
  rewrite He in H2. pose proof (cursor_offset_unique _ _ _ _ H2 Hc0) as Eo.
  assert (Hl : last str = last (buffer b)).
  { assert (0 < zlen str) by (destruct str; [done|]; rewrite zlen_cons; pose proof (zlen_nonneg str); lia).
    rewrite Hstr, last_sub by lia. by rewrite Eo, at_zlen_last. }
  unfold torn, ends_cr. rewrite <- Hl. unfold ends_cr in Hcr. by rewrite Hcr.
Qed.

(** The nodes, the buffers, and the end of the change buffer. *)
Definition text_step s s' : Prop :=
  s' = with_tree (tree s') (with_buffers (buffers_ s') (with_changePos (lastChangeBufferPos_ s') s)) /\ keeps (buffers_ s) (buffers_ s').

#[export] Instance text_step_preorder : PreOrder text_step.
Proof.
  split; [intros s; split; [by destruct s|done]|]. intros s1 s2 s3 [H1 K1] [H2 K2]. split; [rewrite H1 in H2; by destruct s1|by etrans].
Qed.

Lemma text_step_tree s t : text_step s (with_tree t s).
Proof. by split. Qed.

(** The length of the change buffer. *)
Definition blen s : Z := match (buffers_ s).[0] with Some b => zlen (buffer b) | None => 0 end.

(** ** The texts of neighbours *)

Definition txts its : list (list Z) := (fun it : item => it.2.2) <$> its.

Fixpoint untorn (l : list (list Z)) : Prop := match l with [] => True | a :: l' => torn a (concat l') = false /\ untorn l' end.

(** No text is empty, and no CRLF is torn between two texts. *)
Definition goodl (l : list (list Z)) : Prop := Forall (fun a => a <> []) l /\ untorn l.
Definition good its : Prop := goodl (txts its).

Lemma untorn_app l k : untorn (l ++ k) <-> untorn l /\ untorn k /\ torn (concat l) (concat k) = false.
Proof.
  induction l as [|a l IH]; [simpl; tauto|]. cbn [app untorn concat]. rewrite IH, concat_app.
  destruct (concat l) as [|c d] eqn:Ed.
  - rewrite app_nil_r, torn_nil_r, torn_nil_l. simpl app. tauto.
  - rewrite torn_app_r, (torn_app_l a (c :: d)) by done. tauto.
Qed.

Lemma good_app xs ys : good (xs ++ ys) <-> good xs /\ good ys /\ torn (doc xs) (doc ys) = false.
Proof. unfold good, goodl, txts. rewrite fmap_app, Forall_app, untorn_app. unfold doc. tauto. Qed.

Lemma good_cons x p (str : list Z) its : good ((x, (p, str)) :: its) <-> str <> [] /\ torn str (doc its) = false /\ good its.
Proof. unfold good, goodl, txts. rewrite fmap_cons, Forall_cons. simpl. unfold doc. tauto. Qed.

Lemma good_nil : good [].
Proof. split; [constructor|done]. Qed.

Lemma good_one x p (str : list Z) : str <> [] -> good [(x, (p, str))].
Proof. intros Hs. apply good_cons. split; [done|]. split; [apply torn_nil_r|apply good_nil]. Qed.

(** A node that may have become empty, and is then gone. *)
Definition keep x p (str : list Z) : list item := match str with [] => [] | _ => [(x, (p, str))] end.

Lemma doc_keep x p (str : list Z) : doc (keep x p str) = str.
Proof. destruct str; [done|]. unfold keep, doc. simpl. by rewrite app_nil_r. Qed.

Lemma good_keep x p (str : list Z) : good (keep x p str).
Proof. destruct str; [apply good_nil|by apply good_one]. Qed.

(** Without a CR nothing is torn. *)
Lemma torn_no_cr a b : 13 ∉ a -> torn a b = false.
Proof.
  intros Ha. unfold torn, ends_cr. destruct (last a) as [c|] eqn:E; [|done]. simpl. destruct (Z.eqb_spec c 13) as [->|]; [|done].
  destruct Ha. apply last_Some in E as [l ->]. apply elem_of_app. right. by apply list_elem_of_singleton.
Qed.

(** ** New text *)

Lemma zlen_pos {A} (l : list A) : l <> [] -> 0 < zlen l.
Proof. destruct l; [done|]. rewrite zlen_cons. pose proof (zlen_nonneg l). lia. Qed.

Definition max_buffer : Z := 2 ^ 31 - 1.

Lemma Forall_set_at {A} (P : A -> Prop) (l : list A) i a : Forall P l -> P a -> Forall P (set_at l i a).
Proof. intros Hl Ha. unfold set_at. destruct (i <? 0); [done|]. by apply Forall_insert. Qed.

(** The change buffer grows by [t], and no CRLF is torn by that. *)
Lemma grow_text s ps b t ls c :
  text_ok s ps -> (buffers_ s).[0] = Some b -> buffer_ok (mkBuffer (buffer b ++ t) ls) -> t <> [] ->
  torn (buffer b) t = false \/ tips (lastChangeBufferPos_ s) ps = O -> cursor_at (buffer b ++ t) c (zlen (buffer b ++ t)) ->
  let s' := with_changePos c (with_buffers (set_at (buffers_ s) 0 (mkBuffer (buffer b ++ t) ls)) s) in
  text_ok s' ps /\ tips c ps = O.
Proof.
  intros ((b0 & Hb0 & Hpos) & Hbs & Hf & Ht) Hb Hok Hne Hor Hc s'. rewrite Hb in Hb0. injection Hb0 as <-.
  assert (H0 : 0 < zlen (buffers_ s)) by (apply at_lt in Hb; lia).
  pose proof (zlen_pos _ Hne) as Hzt.
  assert (Hbok : buffer_ok b) by (rewrite Forall_forall in Hbs; apply Hbs; by eapply at_elem_of).
  assert (Hall : forall pt, pt ∈ ps -> has_text (buffers_ s') pt.1 pt.2 /\ tip c pt.1 = false).
  { intros pt Hin. rewrite Forall_forall in Hf. pose proof (Hf _ Hin) as Hp.
    assert (Hor' : torn (buffer b) t = false \/ tip (lastChangeBufferPos_ s) pt.1 = false).
    { destruct Hor as [|Hz]; [by left|right]. apply list_elem_of_split in Hin as (l & k & ->). rewrite tips_app in Hz. cbn [tips] in Hz.
      destruct (tip _ pt.1); [lia|done]. }
    split; [by eapply has_text_grow|]. unfold tip. destruct (Z.eqb_spec (bufferIndex pt.1) 0) as [E|]; [|done]. simpl.
    apply bool_decide_eq_false. intros Ec. destruct Hp as [(b' & oa & Hi & _ & H1 & H2 & _) _]. rewrite E in Hi. rewrite Hb in Hi.
    injection Hi as <-. pose proof H2 as [Ho2 _]. rewrite zlen_app in Hc.
    destruct (Z.eq_dec (oa + zlen pt.2) (zlen (buffer b))) as [Eo|].
    - destruct Hor' as [Hnt|Htip].
      + pose proof (cursor_offset_unique _ _ _ _ Hc (eq_rect _ (fun cc => cursor_at _ cc _) (cursor_grow _ t _ _ H2 (or_intror Hnt)) _ Ec)). lia.
      + unfold tip in Htip. rewrite E in Htip. simpl in Htip. apply bool_decide_eq_false in Htip. apply Htip.
        rewrite Eo in H2. by eapply cursor_at_unique.
    - assert (Hlt : oa + zlen pt.2 < zlen (buffer b)) by lia.
      pose proof (cursor_offset_unique _ _ _ _ Hc (eq_rect _ (fun cc => cursor_at _ cc _) (cursor_grow _ t _ _ H2 (or_introl Hlt)) _ Ec)). lia. }
  assert (Htz : tips c ps = O).
  { clear -Hall. induction ps as [|pt ps IH]; [done|]. cbn [tips]. destruct (Hall pt ltac:(left)) as [_ ->].
    rewrite IH; [done|]. intros pt' Hin. apply Hall. by right. }
  split; [|done]. split; [|split; [|split]].
  - exists (mkBuffer (buffer b ++ t) ls). split; [|done]. unfold s'. cbn [buffers_ with_changePos with_buffers]. rewrite at_set_at_any.
    simpl. destruct (Z.ltb_spec 0 (zlen (buffers_ s))); [done|lia].
  - by apply Forall_set_at.
  - apply Forall_forall. intros pt Hin. by apply Hall.
  - rewrite <- Htz in Ht |- *. unfold s'. cbn [lastChangeBufferPos_ with_changePos]. lia.
Qed.

(** The code's test for a CRLF between the change buffer and a text. *)
Lemma append_test s ps b (v : list Z) :
  text_ok s ps -> (buffers_ s).[0] = Some b -> buffer_ok b ->
  is_char ((lineStarts b).[zlen (lineStarts b) - 1]) (zlen (buffer b)) && negb (zlen (buffer b) =? 0) &&
    PT.startWithLF_str v && PT.endWithCR_str (buffer b) = torn (buffer b) v.
Proof.
  intros _ Hb [Hls _]. unfold PT.startWithLF_str, PT.endWithCR_str, charCodeAt, torn. rewrite (at_zlen_last (buffer b)). change (is_char (last (buffer b)) 13) with (ends_cr (buffer b)).
  assert (Hv0 : v.[0] = nxt v None) by (by destruct v). rewrite Hv0. destruct (ends_cr (buffer b)) eqn:Ec; [|by rewrite !andb_false_r].
  rewrite andb_true_r. simpl. rewrite Hls, zlen_starts. replace (breaks (buffer b) + 1 - 1) with (breaks (buffer b)) by lia.
  rewrite (starts_last_cr _ Ec). simpl. rewrite Z.eqb_refl. simpl.
  destruct (Z.eqb_spec (zlen (buffer b)) 0) as [E|]; [|done]. by destruct (buffer b).
Qed.

(** [createNewPieces] appends [t] to the change buffer, where the text starts at [o]. *)
Lemma wp_append_change s ps b (v : list Z) (Q : BufferCursor * Z -> PieceTreeBase -> Prop) :
  text_ok s ps -> (buffers_ s).[0] = Some b -> v <> [] -> zlen (buffer b) + zlen v + 1 < max_buffer ->
  (forall t o c s', torn (buffer b) t = false -> buffer b ++ t = (take (Z.to_nat o) (buffer b ++ t)) ++ v -> t <> [] ->
     o + zlen v = zlen (buffer b ++ t) -> zlen (buffer b) <= o <= zlen (buffer b) + 1 -> cursor_at (buffer b ++ t) c o ->
     (exists c0, s' = with_buffers (set_at (buffers_ s) 0 (mkBuffer (buffer b ++ t) (starts (buffer b ++ t)))) (with_changePos c0 s)) ->
     Q (c, o) s') ->
  wp (PT.append_change v) s Q.
Proof.
  intros Hok Hb Hv Hlen HQ. pose proof Hok as ((b0 & Hb0 & Hpos) & Hbs & _). rewrite Hb in Hb0. injection Hb0 as <-.
  assert (Hbok : buffer_ok b) by (rewrite Forall_forall in Hbs; apply Hbs; by eapply at_elem_of).
  pose proof (zlen_nonneg (buffer b)). pose proof (zlen_nonneg v). unfold max_buffer in Hlen.
  unfold PT.append_change. pt_step. pt_step. apply wp_bind. eapply wp_on_buffers; [by apply get_buffer_ok|].
  rewrite (append_test _ _ _ v Hok Hb Hbok). rewrite createLineStartsFast_ok by lia. destruct Hbok as [Hls _]. rewrite Hls.
  destruct (torn (buffer b) v) eqn:Et.
  - repeat pt_step. cbn [id lastChangeBufferPos_ buffers_]. rewrite starts_tail.
    change ([95] ++ v) with (95 :: v).
    assert (Hnt : torn (buffer b) (95 :: v) = false) by (unfold torn; simpl; by rewrite andb_false_r).
    assert (Hst : starts (buffer b ++ 95 :: v) = starts (buffer b) ++ starts_in (zlen (buffer b) + 1) v None) by (rewrite (starts_app _ _ Hnt), starts_tail; done).
    rewrite <- Hst. pose proof (cursor_grow _ (95 :: v) _ _ Hpos (or_intror Hnt)) as (_ & Hl & Hc).
    apply (HQ (95 :: v)); [done|..].
    + replace (Z.to_nat (zlen (buffer b) + 1)) with (S (List.length (buffer b))) by (unfold zlen; lia).
      change (95 :: v) with ([95] ++ v). rewrite app_assoc. rewrite take_app_length' by (rewrite length_app; simpl; lia). done.
    + done.
    + rewrite zlen_app, zlen_cons. lia.
    + lia.
    + split; [rewrite zlen_app, zlen_cons; lia|]. cbn [line column].
      assert (H95 : (buffer b ++ 95 :: v).[zlen (buffer b)] = Some 95) by (rewrite at_app_r, Z.sub_diag by lia; done).
      pose proof (line_of_step _ _ _ H95) as Hls2. change (ends 95 _) with false in Hls2. cbv iota in Hls2.
      split; [lia|]. rewrite Hc. f_equal. lia.
    + by eexists.
  - assert (Htail : drop 1 (if negb (zlen (buffer b) =? 0) then (fun x : Z => x + zlen (buffer b)) <$> starts v else starts v) = starts_in (zlen (buffer b)) v None).
    { destruct (Z.eqb_spec (zlen (buffer b)) 0) as [E|]; simpl negb; cbv iota; [by rewrite E|apply starts_tail]. }
    rewrite Htail. repeat pt_step. cbn [id lastChangeBufferPos_ buffers_].
    assert (Hst : starts (buffer b ++ v) = starts (buffer b) ++ starts_in (zlen (buffer b)) v None) by (by rewrite (starts_app _ _ Et), starts_tail).
    rewrite <- Hst. apply (HQ v); [done|..].
    + unfold zlen. rewrite Nat2Z.id. by rewrite take_app_length.
    + done.
    + by rewrite zlen_app.
    + lia.
    + apply cursor_grow; [done|by right].
    + exists (lastChangeBufferPos_ s). by destruct s.
Qed.

(** What [createNewPieces] gives: texts that make up [v]. *)
Definition new_text (v : list Z) (news : list (Piece * list Z)) : Prop := concat (news.*2) = v /\ goodl (news.*2) /\ news <> [].

Lemma wp_new_chunk s ps (v : list Z) (Q : Piece -> PieceTreeBase -> Prop) :
  text_ok s ps -> zlen v <= AverageBufferSize ->
  (forall p s', text_ok s' ((p, v) :: ps) -> s' = with_buffers (buffers_ s') s /\ keeps (buffers_ s) (buffers_ s') -> blen s' = blen s -> Q p s') ->
  wp (PT.new_chunk v) s Q.
Proof.
  intros Hok Hlen HQ. unfold AverageBufferSize in Hlen. pose proof (zlen_nonneg v). unfold PT.new_chunk. repeat pt_step.
  cbn [id]. rewrite createLineStartsFast_ok by lia. set (b := mkBuffer v (starts v)).
  destruct Hok as ((b0 & Hb0 & Hpos) & Hbs & Hf & Ht). pose proof (at_lt _ _ _ Hb0) as H0.
  assert (Hbok : buffer_ok b) by (split; [done|]; cbn [buffer b]; lia).
  assert (Hat : (buffers_ s ++ [b]).[0] = Some b0) by (by rewrite at_app_l by lia).
  apply HQ; [|split; [by destruct s|apply keeps_push]|unfold blen; cbn [buffers_ with_buffers]; by rewrite Hat, Hb0].
  split; [by exists b0|]. split; [cbn [buffers_ with_buffers]; apply Forall_app; split; [done|by constructor]|]. split.
  - constructor; cbn [fst snd buffers_ with_buffers].
    + apply (has_text_whole _ (zlen (buffers_ s)) b); [|done..]. rewrite at_app_r, Z.sub_diag by lia. done.
    + eapply Forall_impl; [exact Hf|]. intros pt. apply has_text_push.
  - cbn [tips fst]. unfold tip. cbn [bufferIndex PT.whole_piece]. destruct (Z.eqb_spec (zlen (buffers_ s)) 0); [lia|]. exact Ht.
Qed.

Lemma split_at_ok (v : list Z) : zlen v > AverageBufferSize ->
  0 < PT.split_at v <= AverageBufferSize /\ PT.split_at v < zlen v /\
  torn (take (Z.to_nat (PT.split_at v)) v) (drop (Z.to_nat (PT.split_at v)) v) = false.
Proof.
  unfold PT.split_at, AverageBufferSize, charCodeAt. intros Hlen.
  assert (Htorn : forall j, 0 < j < zlen v -> (is_char (v.[j - 1]) 13 = false \/ is_char (v.[j]) 10 = false) ->
    torn (take (Z.to_nat j) v) (drop (Z.to_nat j) v) = false).
  { intros j Hj Hor. unfold torn. rewrite nxt_drop by lia. unfold ends_cr. rewrite <- at_zlen_last, zlen_take by lia.
    rewrite at_take by lia. destruct Hor as [-> | ->]; [done|apply andb_false_r]. }
  destruct (at_in_range v (65535 - 1)) as [c Hc]; [lia|]. rewrite Hc. cbn [is_char PT.is_high_surrogate].
  destruct (_ || _) eqn:E.
  - split; [lia|]. split; [lia|]. apply Htorn; [lia|]. right. rewrite Hc. cbn [is_char]. apply Z.eqb_neq. intros ->. done.
  - split; [lia|]. split; [lia|]. apply Htorn; [lia|]. left. rewrite Hc. cbn [is_char]. by apply orb_false_iff in E as [E _].
Qed.

Lemma substring_take (v : list Z) k : 0 <= k <= zlen v -> substring v 0 k = take (Z.to_nat k) v.
Proof. intros. rewrite substring_sub by lia. unfold sub. rewrite Z.sub_0_r, drop_0. done. Qed.

Lemma substring_drop (v : list Z) k : 0 <= k <= zlen v -> substring v k (zlen v) = drop (Z.to_nat k) v.
Proof. intros. rewrite substring_sub by lia. unfold sub. apply take_ge. rewrite length_drop. unfold zlen. lia. Qed.

Lemma wp_createChunks fuel s ps (v : list Z) (Q : list Piece -> PieceTreeBase -> Prop) :
  text_ok s ps -> v <> [] -> (List.length v < fuel)%nat ->
  (forall news s', text_ok s' (news ++ ps) -> new_text v news -> s' = with_buffers (buffers_ s') s /\ keeps (buffers_ s) (buffers_ s') -> blen s' = blen s -> Q (news.*1) s') ->
  wp (PT.createChunks fuel v) s Q.
Proof.
  revert s ps v Q. induction fuel as [|fuel IH]; intros s ps v Q Hok Hv Hf HQ; [lia|]. cbn [PT.createChunks].
  rewrite Z.gtb_ltb. destruct (Z.ltb_spec AverageBufferSize (zlen v)) as [Hlt|Hle].
  - destruct (split_at_ok v ltac:(lia)) as (Hk & Hkv & Htorn). set (k := PT.split_at v) in *. cbv zeta.
    rewrite substring_take, substring_drop by lia. pt_step.
    apply (wp_new_chunk s ps); [done|rewrite zlen_take; lia|]. intros p s1 Hok1 [Es1 Hk1] Hb1. pt_step.
    assert (Hd : drop (Z.to_nat k) v <> []).
    { intros E. apply (f_equal zlen) in E. rewrite zlen_drop, zlen_nil in E by lia. lia. }
    apply (IH s1 _ _ _ Hok1 Hd); [rewrite length_drop; unfold zlen in *; lia|]. intros news s2 Hok2 (Hc & [Hg1 Hg2] & Hne) [Es2 Hk2] Hb2. pt_step.
    apply (HQ ((p, take (Z.to_nat k) v) :: news)).
    + eapply text_ok_perm; [|exact Hok2]. solve_Permutation.
    + split; [|split; [|done]]; cbn [fmap list_fmap snd concat].
      * change (snd <$> news) with (news.*2). rewrite Hc. apply take_drop.
      * split; [constructor; [|done]|split; [|done]]; [|by rewrite <- Hc in Htorn].
        intros E. apply (f_equal zlen) in E. rewrite zlen_take, zlen_nil in E by lia. lia.
    + split; [rewrite Es2, Es1; by destruct s|by etrans].
    + by rewrite Hb2.
  - pt_step. apply (wp_new_chunk s ps); [done|done|]. intros p s1 Hok1 Es1 Hb1. pt_step.
    apply (HQ [(p, v)]); [done| |done|done]. split; [cbn; apply app_nil_r|]. split; [|done].
    split; [by repeat constructor|]. cbn. by rewrite torn_nil_r.
Qed.

Lemma wp_createNewPieces s ps (v : list Z) (Q : list Piece -> PieceTreeBase -> Prop) :
  text_ok s ps -> v <> [] -> blen s + zlen v + 1 < max_buffer ->
  (forall news s', text_ok s' (news ++ ps) -> new_text v news -> text_step s s' -> tree s' = tree s -> blen s' <= blen s + zlen v + 1 ->
     (zlen v <= AverageBufferSize -> exists p, news = [(p, v)]) -> Q (news.*1) s') ->
  wp (PT.createNewPieces v) s Q.
Proof.
  intros Hok Hv Hlen HQ. unfold PT.createNewPieces. rewrite Z.gtb_ltb. pose proof (zlen_nonneg v).
  destruct (Z.ltb_spec AverageBufferSize (zlen v)) as [Hlt|Hle].
  { apply (wp_createChunks _ s ps); [done|done|lia|]. intros news s' Hok' Hn [Es Hk] Hb.
    apply HQ; [done|done|split; [rewrite Es; by destruct s|done]|by rewrite Es|lia|lia]. }
  pose proof Hok as ((b & Hb & Hpos) & Hbs & _). assert (Hbl : blen s = zlen (buffer b)) by (unfold blen; by rewrite Hb).
  pt_step. apply (wp_append_change s ps b); [done|done|done|lia|]. intros t o c s1 Hnt Ht Htne Ho Hor Hc (c0 & Es1).
  pose proof (at_lt _ _ _ Hb) as H0. set (B := buffer b ++ t) in *. set (b1 := mkBuffer B (starts B)) in *.
  assert (Hb1 : (buffers_ s1).[0] = Some b1).
  { rewrite Es1. cbn [buffers_ with_buffers]. rewrite at_set_at_any. simpl. destruct (Z.ltb_spec 0 (zlen (buffers_ s))); [done|lia]. }
  assert (HzB : zlen B = o + zlen v) by lia. pose proof (zlen_nonneg (buffer b)).
  assert (Hok1 : buffer_ok b1) by (split; [done|]; cbn [buffer b1]; unfold max_buffer in *; lia).
  pt_step. eapply wp_on_buffers; [by apply get_buffer_ok|]. cbn [buffer lineStarts b1]. cbv zeta.
  pose proof (breaks_in_nonneg B None) as Hbr. fold (breaks B) in Hbr.
  destruct (start_at B (zlen (starts B) - 1)) as (y & Hy & _); [rewrite zlen_starts; lia|].
  pt_step. eapply wp_on_buffers; [by apply (line_start_ok b1 Hok1)|]. pose proof (cursor_end B y Hy) as Hend.
  set (endPos := mkCursor _ _) in *.
  assert (Hspan : span (buffers_ s1) 0 c endPos v).
  { exists b1, o. split; [done|]. split; [done|]. split; [done|]. cbn [buffer b1]. rewrite <- HzB. split; [done|].
    assert (Hzo : zlen (take (Z.to_nat o) B) = o) by (apply zlen_take; lia).
    transitivity (sub (take (Z.to_nat o) B ++ v) (zlen (take (Z.to_nat o) B)) (zlen (take (Z.to_nat o) B) + zlen v)); [by rewrite sub_app_r|].
    by rewrite Hzo, <- Ht, HzB. }
  destruct (span_lf _ _ _ _ _ Hspan) as (n & Hn & Hn'). pt_step. eapply wp_on_buffers; [exact Hn|]. repeat pt_step.
  pose proof (grow_text s ps b t (starts B) endPos Hok Hb Hok1 Htne (or_introl Hnt) Hend) as [Hok2 Htips]. fold B b1 in Hok2.
  assert (Es2 : with_changePos endPos s1 = with_changePos endPos (with_buffers (set_at (buffers_ s) 0 b1) s)) by (rewrite Es1; by destruct s).
  rewrite Es2. set (p := mkPiece 0 c endPos n (zlen B - o)).
  assert (Hp : has_text (buffers_ s1) p v) by (split; [done|]; cbn [length lineFeedCnt p]; split; [lia|done]).
  apply (HQ [(p, v)]).
  - destruct Hok2 as (Hpos2 & Hbs2 & Hf2 & Ht2). split; [done|]. split; [done|]. split; [constructor; [|done]|].
    + cbn [fst snd]. by rewrite Es1 in Hp.
    + cbn [tips app fst lastChangeBufferPos_ with_changePos]. rewrite Htips. destruct (tip _ _); lia.
  - split; [cbn; apply app_nil_r|]. split; [|done]. split; [by repeat constructor|]. cbn. by rewrite torn_nil_r.
  - split; [by destruct s|]. eapply (keeps_grow (buffers_ s) b); [done| |done|done]. rewrite Forall_forall in Hbs. apply Hbs. by eapply at_elem_of.
  - done.
  - rewrite Hbl. unfold blen. rewrite <- Es2. cbn [buffers_ with_changePos]. rewrite Hb1. cbn [buffer b1]. lia.
  - intros _. by exists p.
Qed.

(** ** Reading the ends of a piece *)

Lemma sub_at B a b k : 0 <= a -> 0 <= k < b - a -> b <= zlen B -> (sub B a b).[k] = B.[a + k].
Proof.
  intros. unfold sub, at_. destruct (Z.ltb_spec k 0), (Z.ltb_spec (a + k) 0); try lia.
  rewrite lookup_take_lt, lookup_drop by lia. f_equal. lia.
Qed.

Definition starts_LF (str : list Z) : bool := is_char (nxt str None) 10.

Lemma breaks_starts_LF str : starts_LF str = true -> 0 < breaks str.
Proof.
  destruct str as [|c str]; [done|]. unfold starts_LF. simpl. intros ->%Z.eqb_eq. change (breaks (10 :: str)) with (1 + breaks str).
  pose proof (breaks_in_nonneg str None) as H. fold (breaks str) in H. lia.
Qed.

Lemma starts_LF_inv str : starts_LF str = true -> exists str', str = 10 :: str'.
Proof. destruct str as [|c str]; [done|]. unfold starts_LF. simpl. intros ->%Z.eqb_eq. by exists str. Qed.

Lemma ends_cr_inv str : ends_cr str = true -> exists str', str = str' ++ [13].
Proof.
  unfold ends_cr. destruct (last str) as [c|] eqn:E; [|done]. simpl. intros ->%Z.eqb_eq. apply last_Some in E as [l ->]. by exists l.
Qed.

Lemma breaks_ends_cr str : ends_cr str = true -> 0 < breaks str.
Proof.
  intros (str' & ->)%ends_cr_inv. rewrite breaks_snoc_CR. pose proof (breaks_in_nonneg str' None) as H. fold (breaks str') in H. lia.
Qed.

Lemma endWithCR_str_eq (v : list Z) : PT.endWithCR_str v = ends_cr v.
Proof. unfold PT.endWithCR_str, charCodeAt. by rewrite at_zlen_last. Qed.

Lemma startWithLF_str_eq (v : list Z) : PT.startWithLF_str v = starts_LF v.
Proof. by destruct v. Qed.

Lemma wp_startWithLF F s its x p str (Q : bool -> PieceTreeBase -> Prop) :
  wf F s its -> (x, (p, str)) ∈ its -> x <> SENTINEL -> str <> [] -> Q (starts_LF str) s -> wp (PT.startWithLF x) s Q.
Proof.
  intros Hs Hin Hx Hne HQ. unfold PT.startWithLF. destruct (Z.eqb_spec x SENTINEL); [done|].
  pt_step. eapply wp_npiece; [exact Hs|exact Hin|]. destruct (wf_in _ _ _ _ _ _ Hs Hin) as [(b & oa & Hi & Hok & H1 & H2 & Hstr) [_ Hlf]].
  rewrite (Hlf Hne). destruct (Z.eqb_spec (breaks str) 0) as [E|E].
  { pt_step. destruct (starts_LF str) eqn:El; [|done]. apply breaks_starts_LF in El. lia. }
  pose proof H1 as (Ho & Hl & Hc). pose proof H2 as (Ho2 & _).
  pose proof (zlen_pos _ Hne) as Hz.
  assert (Hhead : starts_LF str = is_char ((buffer b).[oa]) 10).
  { assert (E0 : str.[0] = (buffer b).[oa]) by (rewrite Hstr, sub_at by lia; by rewrite Z.add_0_r).
    unfold starts_LF. rewrite <- E0. by destruct str. }
  assert (Hnext : (buffer b).[oa] = Some 10 -> line_of (buffer b) (oa + 1) = line (start p) + 1).
  { intros H10. rewrite (line_of_step _ _ _ H10), Hl. change (ends 10 _) with true. done. }
  eapply wp_on_buffers; [|rewrite Hhead in HQ; exact HQ]. cbv beta. rewrite (get_buffer_ok _ _ _ Hi). cbn [result_bind].
  rewrite (line_start_ok b Hok _ _ Hc). cbn [result_bind]. destruct Hok as [Hls Hlen]. rewrite Hls, zlen_starts.
  pose proof (line_of_le (buffer b) (oa + 1) ltac:(lia)). pose proof (line_of_nonneg (buffer b) oa).
  assert (Hno : line_of (buffer b) (oa + 1) <> line (start p) + 1 -> is_char ((buffer b).[oa]) 10 = false).
  { intros Hne2. destruct ((buffer b).[oa]) as [c|]; [|done]. simpl. apply Z.eqb_neq. intros ->. by apply Hne2, Hnext. }
  destruct (Z.eqb_spec (line (start p)) (breaks (buffer b) + 1 - 1)) as [El|El]; [rewrite Hno by lia; done|].
  pose proof (line_of_le (buffer b) oa ltac:(lia)).
  destruct (start_at (buffer b) (line (start p) + 1)) as (y & Hy & _); [lia|].
  rewrite (line_start_ok b (conj Hls Hlen) _ _ Hy). cbn [result_bind]. rewrite Z.gtb_ltb.
  pose proof (start_le (buffer b) (oa + 1) _ _ ltac:(lia) Hy) as Hle.
  replace (oa - column (start p) + column (start p)) with oa by lia.
  destruct (Z.ltb_spec (oa + 1) y); [rewrite Hno by lia; done|]. done.
Qed.

Lemma wp_nodeCharCodeAt F s its x p str o (Q : option Z -> PieceTreeBase -> Prop) :
  wf F s its -> (x, (p, str)) ∈ its -> 0 <= o < zlen str -> Q (if breaks str <? 1 then None else str.[o]) s ->
  wp (PT.nodeCharCodeAt x o) s Q.
Proof.
  intros Hs Hin Ho HQ. unfold PT.nodeCharCodeAt. pt_step. eapply wp_npiece; [exact Hs|exact Hin|].
  destruct (wf_in _ _ _ _ _ _ Hs Hin) as [(b & oa & Hi & Hok & H1 & H2 & Hstr) [_ Hlf]].
  assert (Hne : str <> []). { intros E. apply (f_equal zlen) in E. change (zlen (@nil Z)) with 0 in E. lia. } rewrite (Hlf Hne). destruct (breaks str <? 1); [by pt_step|].
  eapply wp_on_buffers; [|exact HQ]. cbv beta. rewrite (get_buffer_ok _ _ _ Hi). cbn [result_bind].
  rewrite (offsetInBuffer_ok _ _ _ Hi Hok _ _ H1). cbn [result_bind]. unfold charCodeAt. f_equal.
  destruct H1 as [H1 _], H2 as [H2 _]. rewrite Hstr, sub_at by lia. done.
Qed.

Lemma wp_endWithCR F s its x p str (Q : bool -> PieceTreeBase -> Prop) :
  wf F s its -> (x, (p, str)) ∈ its -> x <> SENTINEL -> str <> [] -> Q (ends_cr str) s -> wp (PT.endWithCR x) s Q.
Proof.
  intros Hs Hin Hx Hne HQ. unfold PT.endWithCR. destruct (Z.eqb_spec x SENTINEL); [done|].
  pt_step. eapply wp_npiece; [exact Hs|exact Hin|]. destruct (wf_in _ _ _ _ _ _ Hs Hin) as [_ [Hl Hlf]]. rewrite Hl, (Hlf Hne).
  destruct (Z.eqb_spec (breaks str) 0) as [E|E].
  { pt_step. destruct (ends_cr str) eqn:El; [|done]. apply breaks_ends_cr in El. lia. }
  pose proof (zlen_pos _ Hne) as Hz.
  pt_step. eapply wp_nodeCharCodeAt; [exact Hs|exact Hin|lia|]. pose proof (breaks_in_nonneg str None) as Hb. fold (breaks str) in Hb.
  destruct (Z.ltb_spec (breaks str) 1); [lia|]. pt_step. by rewrite at_zlen_last.
Qed.

(** ** Cutting a piece *)

Lemma elem_here {A} (l : list A) a k : a ∈ l ++ a :: k.
Proof. apply elem_of_app. right. apply list_elem_of_here. Qed.

#[local] Hint Resolve elem_here : core.

(** The cursor [c] is [r] code units after the start of the piece. *)
Definition cut s (p : Piece) (str : list Z) (r : Z) (c : BufferCursor) : Prop :=
  span (buffers_ s) (bufferIndex p) (start p) c (take (Z.to_nat r) str) /\
  span (buffers_ s) (bufferIndex p) c (end_ p) (drop (Z.to_nat r) str).

Lemma wp_position F s its x p str r (Q : BufferCursor -> PieceTreeBase -> Prop) :
  wf F s its -> (x, (p, str)) ∈ its -> 0 <= r <= zlen str -> (forall c, cut s p str r c -> Q c s) ->
  wp (on_buffers (fun b => positionInBuffer b p r)) s Q.
Proof.
  intros Hs Hin Hr HQ. destruct (positionInBuffer_cut _ _ _ r (wf_in _ _ _ _ _ _ Hs Hin) Hr) as (c & Hc & Hcut).
  eapply wp_on_buffers; [exact Hc|]. by apply HQ.
Qed.

Lemma wp_deleteNodeTail F s xs x p str ys r c (Q : unit -> PieceTreeBase -> Prop) :
  wf F s (xs ++ (x, (p, str)) :: ys) -> 0 <= r <= zlen str -> cut s p str r c ->
  (forall t p', wf F (with_tree t s) (xs ++ (x, (p', take (Z.to_nat r) str)) :: ys) ->
     (r < zlen str -> tip (lastChangeBufferPos_ s) p' = false) -> Q tt (with_tree t s)) ->
  wp (PT.deleteNodeTail x c) s Q.
Proof.
  intros Hs Hr [H1 H2] HQ. unfold PT.deleteNodeTail. pt_step. eapply wp_piece; [exact Hs|].
  pose proof (wf_text _ _ _ _ _ _ _ Hs) as [Hsp [Hlen _]].
  destruct (span_offsets _ _ _ _ _ Hsp) as (oa & Ha & Hb). destruct (span_offsets _ _ _ _ _ H1) as (oa' & Ha' & Hc).
  rewrite Ha in Ha'. injection Ha' as <-. destruct (span_lf _ _ _ _ _ H1) as (n & Hn & Hn').
  pt_step. eapply wp_on_buffers; [exact Hb|]. pt_step. eapply wp_on_buffers; [exact Hc|]. pt_step. eapply wp_on_buffers; [exact Hn|].
  cbv zeta. rewrite zlen_take by done.
  assert (Htip : forall c1 m l, r < zlen str -> tip (lastChangeBufferPos_ s) (mkPiece (bufferIndex p) c1 c m l) = false).
  { intros c1 m l Hlt. eapply tip_before; [exact (proj2 Hs)|exact H2|]. intros E. apply (f_equal zlen) in E. rewrite zlen_drop in E by done.
    change (zlen (@nil Z)) with 0 in E. lia. }
  eapply (wp_set F s xs x p str ys _ (take (Z.to_nat r) str)); [exact Hs|..].
  - split; [exact H1|]. cbn [length lineFeedCnt]. rewrite zlen_take by done. split; [lia|done].
  - destruct (Z.eq_dec r (zlen str)) as [->|Hne]; [|by rewrite Htip by lia].
    assert (E : drop (Z.to_nat (zlen str)) str = []) by (apply drop_ge; unfold zlen; lia). rewrite E in H2.
    destruct H2 as (b & o & Hi & Hok & Hc1 & Hc2 & _). change (zlen (@nil Z)) with 0 in Hc2. rewrite Z.add_0_r in Hc2.
    by rewrite (cursor_at_unique _ _ _ _ Hc1 Hc2).
  - cbn [length]. lia.
  - done.
  - intros t Ht. eapply HQ; [exact Ht|]. apply Htip.
Qed.

Lemma wp_deleteNodeHead F s xs x p str ys r c (Q : unit -> PieceTreeBase -> Prop) :
  wf F s (xs ++ (x, (p, str)) :: ys) -> 0 <= r <= zlen str -> cut s p str r c ->
  (forall t p', wf F (with_tree t s) (xs ++ (x, (p', drop (Z.to_nat r) str)) :: ys) -> Q tt (with_tree t s)) ->
  wp (PT.deleteNodeHead x c) s Q.
Proof.
  intros Hs Hr [H1 H2] HQ. unfold PT.deleteNodeHead. pt_step. eapply wp_piece; [exact Hs|].
  pose proof (wf_text _ _ _ _ _ _ _ Hs) as [Hsp [Hlen _]].
  destruct (span_offsets _ _ _ _ _ H1) as (oa & Ha & Hc). destruct (span_lf _ _ _ _ _ H2) as (n & Hn & Hn').
  pt_step. eapply wp_on_buffers; [exact Ha|]. pt_step. eapply wp_on_buffers; [exact Hn|]. pt_step. eapply wp_on_buffers; [exact Hc|].
  cbv zeta. rewrite zlen_take by done.
  eapply (wp_set F s xs x p str ys _ (drop (Z.to_nat r) str)); [exact Hs|..].
  - split; [exact H2|]. cbn [length lineFeedCnt]. rewrite zlen_drop by done. split; [lia|done].
  - done.
  - cbn [length]. lia.
  - done.
  - intros t Ht. by eapply HQ.
Qed.

(** [updateTreeMetadata] after the first LF of a piece was given up. *)
Lemma wp_drop_LF F s xs x p str ys (Q : unit -> PieceTreeBase -> Prop) :
  wf F s (xs ++ (x, (p, 10 :: str)) :: ys) ->
  (forall t p', PT.drop_LF (buffers_ s) p = Ok p' -> has_text (buffers_ s) p' str -> 
     wf F (with_tree t s) (xs ++ (x, (p', str)) :: ys) -> Q tt (with_tree t s)) ->
  exists p', PT.drop_LF (buffers_ s) p = Ok p' /\ length p' = zlen str /\
    wp (set_piece x p';; PT.updateTreeMetadata x (-1) (-1)) s Q.
Proof.
  intros Hs HQ. pose proof (wf_text _ _ _ _ _ _ _ Hs) as Hp. destruct (drop_LF_ok _ _ _ Hp) as (c & n & Hn & En & -> & Hp').
  set (p' := mkPiece _ _ _ _ _) in Hp'. exists p'.
  assert (Hd : PT.drop_LF (buffers_ s) p = Ok p') by (unfold PT.drop_LF; by rewrite Hn). split; [done|].
  split; [by destruct Hp' as [_ [? _]]|].
  eapply (wp_set F s xs x p (10 :: str) ys p' str); [exact Hs|done|done|cbn; lia|cbn; lia|].
  intros t Ht. by eapply HQ.
Qed.

Lemma app_snoc {A} (l : list A) a k : l ++ a :: k = (l ++ [a]) ++ k.
Proof. by rewrite <- app_assoc. Qed.

(** [nodesToDel.push] of a node whose piece is empty. *)
Lemma wp_delete_keep F s xs x p (str : list Z) ys (n : Z) l (Q : unit -> PieceTreeBase -> Prop) :
  wf F s (xs ++ (x, (p, str)) :: ys) -> n = zlen str ->
  (forall t F', wf F' (with_tree t s) (xs ++ keep x p str ++ ys) -> F ⊆ F' -> (str = [] -> gone F' x) ->
     wp (PT.deleteNodes l) (with_tree t s) Q) ->
  wp (PT.deleteNodes ((if n =? 0 then [x] else []) ++ l)) s Q.
Proof.
  intros Hs -> HQ. destruct str as [|c str].
  - change (zlen (@nil Z) =? 0) with true. cbn [app PT.deleteNodes]. pt_step. eapply wp_delete; [exact Hs|]. intros t F' Hs' HF Hg. by eapply HQ.
  - rewrite zlen_cons. destruct (Z.eqb_spec (zlen str + 1) 0); [pose proof (zlen_nonneg str); lia|]. cbn [app].
    rewrite <- (with_tree_id s). eapply HQ; [by rewrite with_tree_id|done|done].
Qed.

Lemma wp_fixCRLF F s xs a pa stra b pb strb ys (Q : unit -> PieceTreeBase -> Prop) :
  wf F s (xs ++ (a, (pa, stra ++ [13])) :: (b, (pb, 10 :: strb)) :: ys) -> blen s + 3 < max_buffer ->
  (forall s' F' z pz pa' pb', wf F' s' (xs ++ keep a pa' stra ++ (z, (pz, [13; 10])) :: keep b pb' strb ++ ys) -> F ⊆ F' ->
     (stra = [] -> gone F' a) -> text_step s s' -> blen s' <= blen s + 3 -> Q tt s') ->
  wp (PT.fixCRLF a b) s Q.
Proof.
  intros Hs Hlen HQ. unfold PT.fixCRLF. pt_step. eapply wp_piece; [exact Hs|].
  pose proof (wf_text _ _ _ _ _ _ _ Hs) as Ha. pose proof (proj1 (proj2 Ha)) as Hla. rewrite zlen_app in Hla. change (zlen [13]) with 1 in Hla.
  destruct (drop_CR_ok _ _ _ Ha) as (c & Hc & Hcr & Ha'). pt_step. eapply wp_on_buffers; [exact Hc|].
  set (pa' := mkPiece _ _ _ _ _) in *. cbv zeta. apply wp_seq2.
  eapply (wp_set F s xs a pa _ _ pa' stra); [exact Hs|exact Ha'|..].
  { unfold pa'. erewrite tip_before; [done|exact (proj2 Hs)|exact Hcr|done]. }
  { cbn; lia. } { cbn; lia. }
  intros t Hs1. rewrite app_snoc in Hs1. set (s1 := with_tree t s) in *. pt_step. eapply wp_piece; [exact Hs1|].
  assert (Hblen1 : blen s1 = blen s) by done.
  assert (Hrest : forall t' p', wf F (with_tree t' s1) ((xs ++ [(a, (pa', stra))]) ++ (b, (p', strb)) :: ys) -> length p' = zlen strb ->
    wp (pieces ← PT.createNewPieces [13; 10]; p ← non_null (pieces.[0]); _ ← PT.rbInsertRight a p;
        PT.deleteNodes ((if length pa - 1 =? 0 then [a] else []) ++ (if length p' =? 0 then [b] else []))) (with_tree t' s1) Q).
  { intros t' p' Hs2 Hlp. set (s2 := with_tree t' s1) in *. pt_step.
    apply (wp_createNewPieces _ _ _ _ (proj2 Hs2)); [done|change (blen s2) with (blen s); change (zlen [13; 10]) with 2; lia|].
    intros news s3 Hok3 _ Hst Htree Hb3 Hnew. destruct (Hnew ltac:(by vm_compute)) as [pz ->]. cbn [fmap list_fmap fst]. pt_step.
    change ([pz].[0]) with (Some pz). apply wp_ret. pt_step.
    assert (Hs3 : wf F s3 (xs ++ (a, (pa', stra)) :: (b, (p', strb)) :: ys)).
    { rewrite app_snoc. split; [rewrite Htree; apply Hs2|]. by apply text_ok_app_r in Hok3. }
    eapply (wp_insert_right F s3 xs a (pa', stra) _ pz [13; 10]); [exact Hs3|by rewrite (app_snoc xs)|].
    intros t4 z Hs4. eapply (wp_delete_keep F _ xs a pa' stra); [exact Hs4|lia|].
    intros t5 F5 Hs5 HF5 Hg5. rewrite <- (app_nil_r (if length p' =? 0 then [b] else [])).
    rewrite app_assoc, app_snoc in Hs5. eapply (wp_delete_keep F5 _ _ b p' strb); [exact Hs5|done|].
    intros t6 F6 Hs6 HF6 _. cbn [PT.deleteNodes]. pt_step. rewrite <- !app_assoc in Hs6. cbn [app] in Hs6.
    eapply (HQ _ F6); [exact Hs6|by etrans|intros E; eapply gone_mono; [exact HF6|by apply Hg5]| |].
    - etrans; [apply (text_step_tree s t')|]. etrans; [exact Hst|]. apply (text_step_tree s3 t6).
    - change (blen s3 <= blen s + 3). change (blen s2) with (blen s) in Hb3. change (zlen [13; 10]) with 2 in Hb3. lia. }
  destruct (drop_LF_ok _ _ _ (wf_text _ _ _ _ _ _ _ Hs1)) as (c' & n & Hn & En & -> & Hpb').
  set (pb' := mkPiece _ _ _ _ _) in Hpb'. pt_step. eapply (wp_on_buffers _ _ pb'); [unfold PT.drop_LF; by rewrite Hn|].
  apply wp_seq2. eapply (wp_set F s1 _ b pb _ _ pb' strb); [exact Hs1|exact Hpb'|done|cbn; lia|cbn; lia|].
  intros t' Hs2. apply Hrest; [exact Hs2|]. by destruct Hpb' as [_ [? _]].
Qed.

(** ** No torn CRLF *)

(** The CRLF checks are made, or there is no CR. *)
Definition checks s : bool := negb (EOLNormalized_ s && bool_decide (EOL_ s = [10])).
Definition safe s (d : list Z) : Prop := checks s = true \/ 13 ∉ d.

Lemma safe_app s d d' : safe s (d ++ d') <-> checks s = true \/ ((13 ∉ d) /\ (13 ∉ d')).
Proof. unfold safe. rewrite not_elem_of_app. done. Qed.

Lemma checks_step s s' : text_step s s' -> checks s' = checks s.
Proof. intros [-> _]. done. Qed.

Lemma wp_checks s (Q : bool -> PieceTreeBase -> Prop) : Q (checks s) s -> wp PT.shouldCheckCRLF s Q.
Proof. done. Qed.

(** The object is gone, or a node after the text [D]. *)
Definition loc F its x (D : list Z) : Prop := gone F x \/ exists ys pt zs, its = ys ++ (x, pt) :: zs /\ doc ys = D.

Lemma loc_app F F' xs ys x D : F ⊆ F' -> loc F xs x D -> loc F' (xs ++ ys) x D.
Proof.
  intros HF [Hg|(k & pt & zs & -> & <-)]; [left; by eapply gone_mono|right].
  exists k, pt, (zs ++ ys). by rewrite <- app_assoc.
Qed.

Lemma loc_last F xs x pt : loc F (xs ++ [(x, pt)]) x (doc xs).
Proof. right. by exists xs, pt, []. Qed.

(** The nodes [xs] and the text [str] after them have been put together. *)
Definition mended F s xs (str : list Z) ys s' : Prop := exists F' mid,
  wf F' s' (mid ++ ys) /\ good mid /\ doc mid = doc xs ++ str /\ F ⊆ F' /\
  (forall x D, loc F xs x D -> loc F' mid x D) /\ text_step s s' /\ blen s' <= blen s + 3.

(** The text that follows is good already. *)
Lemma mended_all F s xs (str : list Z) ys s' :
  mended F s xs str ys s' -> str <> [] -> torn str (doc ys) = false -> good ys -> mended F s xs (str ++ doc ys) [] s'.
Proof.
  intros (F' & mid & Hw & Hg & Hd & HF & Hloc & Hst & Hb) Hne Ht Hy. exists F', (mid ++ ys). rewrite app_nil_r, doc_app, Hd, <- app_assoc.
  split_and!; try done; [apply good_app; by rewrite Hd, torn_app_l|]. intros x D Hx. apply (loc_app F'); [done|]. by apply Hloc.
Qed.

Lemma good_fixed xs a pa stra z pz b pb strb pa' :
  good (xs ++ [(a, (pa, stra ++ [13]))]) -> good (xs ++ keep a pa' stra ++ (z, (pz, [13; 10])) :: keep b pb strb).
Proof.
  intros (Hx & _ & Ht)%good_app. rewrite doc_cons, doc_nil, app_nil_r in Ht.
  apply good_app. rewrite doc_app, doc_keep, doc_cons, doc_keep. split; [done|]. split; [|by destruct stra].
  apply good_app. rewrite doc_keep, doc_cons, doc_keep. split; [apply good_keep|]. split; [|unfold torn; simpl; by rewrite andb_false_r].
  apply good_cons. rewrite doc_keep. split; [done|]. split; [done|apply good_keep].
Qed.

Lemma wp_mend F s xs a pa stra b pb strb ys :
  wf F s (xs ++ (a, (pa, stra)) :: (b, (pb, strb)) :: ys) -> good (xs ++ [(a, (pa, stra))]) ->
  ends_cr stra = true -> starts_LF strb = true -> blen s + 3 < max_buffer ->
  wp (PT.fixCRLF a b) s (fun _ => mended F s (xs ++ [(a, (pa, stra))]) strb ys).
Proof.
  intros Hs Hg (stra' & ->)%ends_cr_inv (strb' & ->)%starts_LF_inv Hlen.
  eapply wp_fixCRLF; [exact Hs|done|]. intros s' F' z pz pa' pb' Hs' HF Hgone Hst Hb.
  exists F', (xs ++ keep a pa' stra' ++ (z, (pz, [13; 10])) :: keep b pb' strb'). split_and!; try done.
  - by rewrite <- !app_assoc.
  - by eapply good_fixed.
  - rewrite !doc_app, !doc_cons, !doc_keep, doc_nil, app_nil_r. by rewrite <- !app_assoc.
  - intros x D Hl. destruct Hl as [Hgx|(k & pt & zs & E & <-)]; [left; by eapply gone_mono|].
    destruct zs as [|it zs _] using rev_ind.
    + apply app_inj_tail in E as [<- [= -> <-]]. destruct stra' as [|c0 l0]; [left; by apply Hgone|].
      right. eexists xs, _, _. by split.
    + rewrite app_comm_cons, app_assoc in E. apply app_inj_tail in E as [-> _]. right. eexists k, _, _. by rewrite <- app_assoc.
Qed.

(** Nothing had to be mended. *)
Lemma mended_same F s xs b pb (strb : list Z) ys :
  wf F s (xs ++ (b, (pb, strb)) :: ys) -> good xs -> strb <> [] -> torn (doc xs) strb = false -> mended F s xs strb ys s.
Proof.
  intros Hs Hx Hb Ht. exists F, (xs ++ [(b, (pb, strb))]). split_and!; try done; [by rewrite <- app_assoc|..].
  - apply good_app. rewrite doc_cons, doc_nil, app_nil_r. split; [done|]. split; [by apply good_one|done].
  - rewrite doc_app, doc_cons, doc_nil. by rewrite app_nil_r.
  - intros x D. by apply loc_app.
  - lia.
Qed.

Lemma wp_validatePrev F s xs b pb strb ys :
  wf F s (xs ++ (b, (pb, strb)) :: ys) -> good xs -> strb <> [] -> safe s (doc xs ++ strb) -> blen s + 3 < max_buffer ->
  wp (PT.validateCRLFWithPrevNode b) s (fun _ => mended F s xs strb ys).
Proof.
  intros Hs Hx Hb Hsafe Hlen. unfold PT.validateCRLFWithPrevNode. pt_step. apply wp_checks.
  pose proof (mended_same F s xs b pb strb ys Hs Hx Hb) as Hsame.
  destruct (checks s) eqn:Ec.
  2:{ repeat pt_step. apply Hsame, torn_no_cr. apply safe_app in Hsafe as [|[? _]]; [congruence|done]. }
  pt_step. eapply wp_startWithLF; [exact Hs|apply elem_here|by eapply wf_node_ne|done|].
  destruct (starts_LF strb) eqn:El.
  2:{ pt_step. apply Hsame. unfold torn. change (is_char (nxt strb None) 10) with (starts_LF strb). by rewrite El, andb_false_r. }
  pt_step. eapply wp_prev_node; [exact Hs|]. destruct xs as [|[a [pa stra]] xs _] using rev_ind.
  { change (last_node []) with SENTINEL. unfold PT.endWithCR. pt_step. change (SENTINEL =? SENTINEL) with true. repeat pt_step. by apply Hsame. }
  assert (Hl : last_node (xs ++ [(a, (pa, stra))]) = a) by (unfold last_node; by rewrite last_snoc). rewrite Hl.
  rewrite <- app_assoc in Hs. cbn [app] in Hs. pose proof (proj1 (good_app _ _) Hx) as (_ & (Hne & _ & _)%good_cons & _).
  pt_step. eapply wp_endWithCR; [exact Hs|apply elem_here|by eapply wf_node_ne|done|].
  destruct (ends_cr stra) eqn:Er; [by eapply wp_mend|]. pt_step. apply Hsame. rewrite doc_app, doc_cons, doc_nil, app_nil_r, torn_app_l by done.
  unfold torn. by rewrite Er.
Qed.

Lemma wp_validateNext F s xs ys :
  wf F s (xs ++ ys) -> good xs -> good ys -> safe s (doc xs ++ doc ys) -> blen s + 3 < max_buffer ->
  wp (PT.validateCRLFWithNextNode (last_node xs)) s (fun _ => mended F s xs (doc ys) []).
Proof.
  intros Hs Hx Hy Hsafe Hlen. unfold PT.validateCRLFWithNextNode. pt_step. apply wp_checks.
  assert (Hsame : torn (doc xs) (doc ys) = false -> mended F s xs (doc ys) [] s).
  { intros Ht. exists F, (xs ++ ys). rewrite app_nil_r, doc_app. split_and!; try done; [by apply good_app| |lia]. intros x D. by apply loc_app. }
  destruct (checks s) eqn:Ec.
  2:{ repeat pt_step. apply Hsame, torn_no_cr. apply safe_app in Hsafe as [|[? _]]; [congruence|done]. }
  pt_step. destruct xs as [|[a [pa stra]] xs _] using rev_ind.
  { change (last_node []) with SENTINEL. unfold PT.endWithCR. change (SENTINEL =? SENTINEL) with true. repeat pt_step. by apply Hsame. }
  assert (Hl : last_node (xs ++ [(a, (pa, stra))]) = a) by (unfold last_node; by rewrite last_snoc). rewrite Hl.
  rewrite <- app_assoc in Hs. cbn [app] in Hs. pose proof (proj1 (good_app _ _) Hx) as (_ & (Hne & _ & _)%good_cons & _).
  eapply wp_endWithCR; [exact Hs|apply elem_here|by eapply wf_node_ne|done|].
  rewrite doc_app, doc_cons, doc_nil, app_nil_r in Hsame.
  destruct (ends_cr stra) eqn:Er; [|pt_step; apply Hsame; rewrite torn_app_l by done; unfold torn; by rewrite Er].
  pt_step. eapply wp_next_node; [exact Hs|]. destruct ys as [|[b [pb strb]] ys].
  { change (first_node []) with SENTINEL. unfold PT.startWithLF. pt_step. change (SENTINEL =? SENTINEL) with true. repeat pt_step. by apply Hsame, torn_nil_r. }
  apply good_cons in Hy as (Hbne & Htb & Hy). cbn [first_node fst]. assert (Hs2 := Hs). rewrite app_snoc in Hs2.
  pt_step. eapply wp_startWithLF; [exact Hs2|apply elem_here|by eapply wf_node_ne|done|].
  rewrite doc_cons in *. destruct (starts_LF strb) eqn:El.
  - eapply wp_mono; [by eapply wp_mend|]. intros [] s' Hm. by apply mended_all.
  - pt_step. apply Hsame. unfold torn. destruct strb as [|c0 l0]; [done|]. simpl. unfold starts_LF in El. simpl in El. by rewrite El, andb_false_r.
Qed.

(** ** New text beside a node *)

(** The nodes [its'] hold the document [d] after the edit, at most [n] code units were
    added to the change buffer. *)
Definition edited F s (d : list Z) (n : Z) F' its' s' : Prop :=
  wf F' s' its' /\ good its' /\ doc its' = d /\ F ⊆ F' /\ text_step s s' /\ blen s' <= blen s + n.

(** A LF after the node is moved to the end of [v] when [v] ends with a CR. *)
Definition adjusted F s xs it ys (v : list Z) (adj : bool) s' : Prop := exists F' ys' t,
  s' = with_tree t s /\ wf F' s' (xs ++ it :: ys') /\ F ⊆ F' /\ good ys' /\
  (if adj then v ++ [10] else v) ++ doc ys' = v ++ doc ys /\ torn (if adj then v ++ [10] else v) (doc ys') = false.

Lemma starts_LF_cons c str : starts_LF (c :: str) = (c =? 10).
Proof. done. Qed.

Lemma wp_adjust F s xs x pt ys (v : list Z) :
  wf F s (xs ++ (x, pt) :: ys) -> good ys -> v <> [] -> safe s (v ++ doc ys) ->
  wp (PT.adjustCarriageReturnFromNext v x) s (adjusted F s xs (x, pt) ys v).
Proof.
  intros Hs Hg Hv Hsafe. unfold PT.adjustCarriageReturnFromNext. pt_step. apply wp_checks.
  assert (Hsame : torn v (doc ys) = false -> adjusted F s xs (x, pt) ys v false s).
  { intros Ht. exists F, ys, (tree s). rewrite with_tree_id. split_and!; done. }
  rewrite endWithCR_str_eq.
  destruct (checks s) eqn:Ec; [|cbn [andb]; pt_step; apply Hsame, torn_no_cr; apply safe_app in Hsafe as [|[? _]]; [congruence|done]].
  destruct (ends_cr v) eqn:Er; [|cbn [andb]; pt_step; apply Hsame; unfold torn; by rewrite Er]. cbn [andb].
  pt_step. eapply wp_next_node; [exact Hs|]. destruct ys as [|[b [pb strb]] ys].
  { change (first_node []) with SENTINEL. unfold PT.startWithLF. pt_step. change (SENTINEL =? SENTINEL) with true. repeat pt_step. by apply Hsame, torn_nil_r. }
  apply good_cons in Hg as (Hbne & Htb & Hg). cbn [first_node fst]. assert (Hs2 := Hs). rewrite app_snoc in Hs2.
  pt_step. eapply wp_startWithLF; [exact Hs2|apply elem_here|by eapply wf_node_ne|done|]. rewrite doc_cons in Hsame.
  destruct (starts_LF strb) eqn:El.
  2:{ pt_step. apply Hsame. unfold torn. destruct strb as [|c0 l0]; [done|]. simpl. rewrite starts_LF_cons in El. by rewrite El, andb_false_r. }
  apply starts_LF_inv in El as [strb' ->]. pt_step. eapply wp_piece; [exact Hs2|].
  pose proof (wf_text _ _ _ _ _ _ _ Hs2) as [_ [Hlen _]]. rewrite zlen_cons in Hlen. rewrite Hlen. pose proof (zlen_nonneg strb').
  assert (Hdone : forall F' t ys', wf F' (with_tree t s) (xs ++ (x, pt) :: ys') -> F ⊆ F' -> good ys' -> doc ys' = strb' ++ doc ys ->
    adjusted F s xs (x, pt) ((b, (pb, 10 :: strb')) :: ys) v true (with_tree t s)).
  { intros F' t ys' Hw HF Hg' Hd. exists F', ys', t. split_and!; try done.
    - rewrite Hd, doc_cons. by rewrite <- app_assoc.
    - unfold torn, ends_cr. by rewrite last_snoc. }
  destruct (Z.eqb_spec (zlen strb' + 1) 1) as [E|E].
  - pt_step. eapply wp_delete; [exact Hs2|]. intros t F' Hs3 HF _. pt_step. rewrite <- app_assoc in Hs3. apply (Hdone F' t ys); [done..|].
    assert (strb' = []) as -> by (destruct strb'; [done|]; rewrite zlen_cons in E; pose proof (zlen_nonneg strb'); lia). done.
  - assert (Hne : strb' <> []) by (intros ->; by apply E).
    destruct (wp_drop_LF F s _ b pb strb' ys (fun _ => adjusted F s xs (x, pt) ((b, (pb, 10 :: strb')) :: ys) v true) Hs2) as (p' & Hd & _ & Hw).
    { intros t p' _ _ Hs3. rewrite <- app_assoc in Hs3. eapply Hdone; [exact Hs3|done| |done]. apply good_cons. split; [done|]. split; [|done].
      by rewrite <- (torn_app_l [10]). }
    pt_step. pt_step. eapply wp_on_buffers; [exact Hd|]. eapply wp_mono; [exact Hw|]. intros [] s' Hs'. by pt_step.
Qed.

Lemma wp_insert_all_right F s xs x pt ys news (Q : ptr -> PieceTreeBase -> Prop) :
  wf F s (xs ++ (x, pt) :: ys) -> text_ok s (news ++ (xs ++ (x, pt) :: ys).*2) ->
  (forall z t zs, wf F (with_tree t s) (xs ++ (x, pt) :: zs ++ ys) -> zs.*2 = news -> Q z (with_tree t s)) ->
  wp (PT.insert_all_right x (news.*1)) s Q.
Proof.
  revert s xs x pt Q. induction news as [|[p str] news IH]; intros s xs x pt Q Hs Hok HQ; cbn [fmap list_fmap fst PT.insert_all_right].
  - pt_step. rewrite <- (with_tree_id s). apply (HQ x _ []); [by rewrite with_tree_id|done].
  - pt_step. apply (wp_insert_right F s xs x pt ys p str); [done| |].
    + eapply (text_ok_app_l _ _ news). eapply text_ok_perm; [|exact Hok]. solve_Permutation.
    + intros t z Hs1. rewrite app_snoc in Hs1. apply (IH (with_tree t s) (xs ++ [(x, pt)]) z (p, str)); [exact Hs1| |].
      * rewrite text_ok_tree. eapply text_ok_perm; [|exact Hok]. rewrite !fmap_app. cbn [fmap list_fmap snd]. solve_Permutation.
      * intros z' t' zs Hs2 E. rewrite <- app_assoc in Hs2. change (with_tree t' (with_tree t s)) with (with_tree t' s) in *.
        apply (HQ z' t' ((z, (p, str)) :: zs)); [exact Hs2|]. cbn. by rewrite <- E.
Qed.

Lemma wp_insert_all_left F s xs x pt ys news (Q : ptr -> PieceTreeBase -> Prop) :
  wf F s (xs ++ (x, pt) :: ys) -> text_ok s (news ++ (xs ++ (x, pt) :: ys).*2) ->
  (forall t zs, wf F (with_tree t s) (xs ++ zs ++ (x, pt) :: ys) -> zs.*2 = news -> Q (first_node (zs ++ [(x, pt)])) (with_tree t s)) ->
  wp (PT.insert_all_left x (rev (news.*1))) s Q.
Proof.
  revert s x pt ys Q. induction news as [|[p str] news IH] using rev_ind; intros s x pt ys Q Hs Hok HQ.
  - cbn [fmap list_fmap rev PT.insert_all_left]. pt_step. rewrite <- (with_tree_id s). apply (HQ _ []); [by rewrite with_tree_id|done].
  - rewrite fmap_app, rev_app_distr. cbn [fmap list_fmap fst rev app PT.insert_all_left].
    pt_step. apply (wp_insert_left F s xs x pt ys p str); [done| |].
    + eapply (text_ok_app_l _ _ news). eapply text_ok_perm; [|exact Hok]. solve_Permutation.
    + intros t z Hs1. apply (IH (with_tree t s) z (p, str) ((x, pt) :: ys)); [exact Hs1| |].
      * rewrite text_ok_tree. eapply text_ok_perm; [|exact Hok]. rewrite !fmap_app. cbn [fmap list_fmap snd]. solve_Permutation.
      * intros t' zs Hs2 E. change (with_tree t' (with_tree t s)) with (with_tree t' s) in *.
        specialize (HQ t' (zs ++ [(z, (p, str))])). rewrite <- !app_assoc, fmap_app, E in HQ. cbn [app fmap list_fmap snd] in HQ.
        specialize (HQ Hs2 eq_refl). by destruct zs.
Qed.

Lemma good_news zs news v : zs.*2 = news -> new_text v news -> good zs /\ doc zs = v.
Proof.
  intros <- (Hc & Hg & _). unfold good, doc, txts in *. rewrite <- list_fmap_compose in Hc, Hg. done.
Qed.

Lemma insertContentToNodeRight_edits F s xs x pt ys (v : list Z) :
  wf F s (xs ++ (x, pt) :: ys) -> good (xs ++ (x, pt) :: ys) -> v <> [] -> safe s (doc (xs ++ [(x, pt)]) ++ v ++ doc ys) ->
  blen s + zlen v + 5 < max_buffer ->
  wp (PT.insertContentToNodeRight v x) s (fun _ s' => exists F' its',
    edited F s (doc (xs ++ [(x, pt)]) ++ v ++ doc ys) (zlen v + 5) F' its' s' /\ loc F' its' x (doc xs)).
Proof.
  intros Hs Hg Hv Hsafe Hlen. rewrite app_snoc in Hg. apply good_app in Hg as (Hgx & Hgy & _).
  assert (Hsafe' : safe s (v ++ doc ys)) by (apply safe_app in Hsafe; unfold safe; tauto).
  unfold PT.insertContentToNodeRight. pt_step. eapply wp_mono; [by apply (wp_adjust F s xs x pt ys v Hs Hgy Hv Hsafe')|].
  intros adj s1 (F1 & ys1 & t1 & Es1 & Hs1 & HF1 & Hg1 & Hd1 & Ht1). set (v1 := if adj then v ++ [10] else v) in *. cbv zeta.
  assert (Hv1 : v1 <> []) by (unfold v1; destruct adj; [by destruct v|done]).
  assert (Hz1 : zlen v1 <= zlen v + 1) by (unfold v1; destruct adj; [rewrite zlen_app; change (zlen [10]) with 1|]; lia).
  assert (Hb1 : blen s1 = blen s) by (by rewrite Es1).
  pt_step. apply (wp_createNewPieces s1 _ v1 _ (proj2 Hs1)); [done|lia|].
  intros news s2 Hok2 Hnew Hst2 Htree2 Hb2 _. destruct news as [|[p0 str0] news]; [by destruct Hnew as (_ & _ & ?)|].
  cbn [fmap list_fmap fst]. pt_step. change ((p0 :: news.*1).[0]) with (Some p0). apply wp_ret.
  assert (Hs2 : wf F1 s2 (xs ++ (x, pt) :: ys1)) by (split; [rewrite Htree2; apply Hs1|by apply text_ok_app_r in Hok2]).
  pt_step. apply (wp_insert_right F1 s2 xs x pt ys1 p0 str0 _ Hs2).
  { eapply text_ok_app_l. eapply text_ok_perm; [|exact Hok2]. simpl. rewrite (Permutation_app_comm news). done. }
  intros t3 z Hs3. rewrite app_snoc in Hs3. change (drop 1 (p0 :: news.*1)) with (news.*1).
  pt_step. apply (wp_insert_all_right F1 _ _ z (p0, str0) ys1 news _ Hs3).
  { rewrite text_ok_tree. eapply text_ok_perm; [|exact Hok2]. rewrite !fmap_app. cbn [fmap list_fmap snd]. solve_Permutation. }
  intros z' t4 zs Hs4 Ezs. change (with_tree t4 (with_tree t3 s2)) with (with_tree t4 s2) in *.
  destruct (good_news ((z, (p0, str0)) :: zs) _ v1 (f_equal (cons _) Ezs) Hnew) as [Hgz Hdz].
  assert (Hgzy : good (((z, (p0, str0)) :: zs) ++ ys1)) by (apply good_app; rewrite Hdz; done).
  cbn [app] in Hgzy. apply good_cons in Hgzy as (Hne0 & Htz & Hgzy). rewrite doc_cons in Hdz.
  assert (Hsafe4 : safe (with_tree t4 s2) (doc (xs ++ [(x, pt)]) ++ str0)).
  { unfold safe. change (checks (with_tree t4 s2)) with (checks s2). rewrite (checks_step _ _ Hst2), Es1. change (checks (with_tree t1 s)) with (checks s).
    rewrite <- Hd1, <- Hdz in Hsafe. unfold safe in Hsafe. rewrite !not_elem_of_app in *. tauto. }
  eapply wp_mono; [apply (wp_validatePrev F1 _ _ z p0 str0 (zs ++ ys1) Hs4 Hgx Hne0 Hsafe4); change (blen (with_tree t4 s2)) with (blen s2); lia|].
  intros [] s' (F' & mid & Hw & Hgm & Hdm & HF & Hloc & Hst & Hb). exists F', (mid ++ zs ++ ys1). split; [split_and!|].
  - done.
  - apply good_app. rewrite Hdm, torn_app_l by done. done.
  - rewrite doc_app, Hdm, <- app_assoc. f_equal. rewrite doc_app, app_assoc, Hdz, Hd1. done.
  - by etrans.
  - etrans; [|exact Hst]. etrans; [|exact (text_step_tree s2 t4)]. etrans; [|exact Hst2]. rewrite Es1. apply text_step_tree.
  - change (blen (with_tree t4 s2)) with (blen s2) in Hb. lia.
  - apply (loc_app F'); [done|]. apply Hloc, loc_last.
Qed.

(** [insertContentToNodeLeft] once the LF of the node was moved; the node may be empty. *)
Lemma insert_left_rest F s xs x p str ys (v : list Z) :
  wf F s (xs ++ (x, (p, str)) :: ys) -> good xs -> good ys -> torn v (str ++ doc ys) = false -> torn str (doc ys) = false ->
  v <> [] -> safe s (doc xs ++ v) -> blen s + zlen v + 4 < max_buffer ->
  wp (newPieces ← PT.createNewPieces v; newNode ← PT.insert_all_left x (rev newPieces); PT.validateCRLFWithPrevNode newNode;;
      PT.deleteNodes (if zlen str =? 0 then [x] else [])) s
    (fun _ s' => exists F' its', edited F s (doc xs ++ v ++ str ++ doc ys) (zlen v + 4) F' its' s' /\ exists D, loc F' its' x D).
Proof.
  intros Hs Hgx Hgy Ht Hty Hv Hsafe Hlen.
  pt_step. apply (wp_createNewPieces s _ v _ (proj2 Hs)); [done|lia|]. intros news s2 Hok2 Hnew Hst2 Htree2 Hb2 _.
  assert (Hs2 : wf F s2 (xs ++ (x, (p, str)) :: ys)) by (split; [rewrite Htree2; apply Hs|by apply text_ok_app_r in Hok2]).
  pt_step. apply (wp_insert_all_left F s2 xs x (p, str) ys news _ Hs2 Hok2). intros t3 zs Hs3 Ezs.
  destruct (good_news zs _ v Ezs Hnew) as [Hgz Hdz]. destruct zs as [|[z [p0 str0]] zs]; [by rewrite <- Hdz in Hv|].
  rewrite doc_cons in Hdz. cbn [app first_node fst] in *. apply good_cons in Hgz as (Hne0 & Htz & Hgz).
  assert (Hsafe3 : safe (with_tree t3 s2) (doc xs ++ str0)).
  { unfold safe. change (checks (with_tree t3 s2)) with (checks s2). rewrite (checks_step _ _ Hst2).
    rewrite <- Hdz in Hsafe. unfold safe in Hsafe. rewrite !not_elem_of_app in *. tauto. }
  pt_step. eapply wp_mono; [apply (wp_validatePrev F _ xs z p0 str0 (zs ++ (x, (p, str)) :: ys) Hs3 Hgx Hne0 Hsafe3); change (blen (with_tree t3 s2)) with (blen s2); lia|].
  intros [] s4 (F4 & mid & Hw & Hgm & Hdm & HF & _ & Hst & Hb). rewrite app_assoc in Hw.
  rewrite <- (app_nil_r (if zlen str =? 0 then [x] else [])). eapply (wp_delete_keep F4 s4 (mid ++ zs)); [exact Hw|done|].
  intros t5 F5 Hs5 HF5 Hg5. cbn [PT.deleteNodes]. pt_step. exists F5, ((mid ++ zs) ++ keep x p str ++ ys). split; [split_and!|].
  - done.
  - rewrite <- app_assoc. apply good_app. rewrite Hdm, !doc_app, doc_keep, torn_app_l by done. split; [done|].
    destruct (doc zs) as [|c0 l0] eqn:E0.
    + rewrite app_nil_r in Hdz. subst str0. split; [|done]. apply good_app. rewrite doc_app, doc_keep, E0. split; [done|].
      split; [|done]. apply good_app. rewrite doc_keep. split; [apply good_keep|done].
    + split; [|by rewrite torn_app_r]. apply good_app. rewrite doc_app, doc_keep, E0. split; [done|].
      split; [|by rewrite <- Hdz, torn_app_l in Ht]. apply good_app. rewrite doc_keep. split; [apply good_keep|done].
  - rewrite !doc_app, Hdm, doc_keep, <- !app_assoc. f_equal. rewrite (app_assoc str0), Hdz. done.
  - by etrans.
  - etrans; [|exact (text_step_tree s4 t5)]. etrans; [|exact Hst]. etrans; [|exact (text_step_tree s2 t3)]. exact Hst2.
  - change (blen (with_tree t5 s4)) with (blen s4). change (blen (with_tree t3 s2)) with (blen s2) in Hb. lia.
  - destruct str as [|c0 l0]; [exists []; left; by apply Hg5|]. eexists. right. by eexists (mid ++ zs), _, _.
Qed.

Lemma edited_weaken F s s1 d n n1 F' its' s' :
  edited F s1 d n1 F' its' s' -> text_step s s1 -> blen s1 + n1 <= blen s + n -> edited F s d n F' its' s'.
Proof. intros (H1 & H2 & H3 & H4 & H5 & H6) Hst Hb. split_and!; try done; [by etrans|lia]. Qed.

Lemma insertContentToNodeLeft_edits F s xs x p str ys (v : list Z) :
  wf F s (xs ++ (x, (p, str)) :: ys) -> good (xs ++ (x, (p, str)) :: ys) -> v <> [] -> safe s (doc xs ++ v ++ str ++ doc ys) ->
  blen s + zlen v + 5 < max_buffer ->
  wp (PT.insertContentToNodeLeft v x) s (fun _ s' => exists F' its',
    edited F s (doc xs ++ v ++ str ++ doc ys) (zlen v + 5) F' its' s' /\ exists D, loc F' its' x D).
Proof.
  intros Hs Hg Hv Hsafe Hlen. apply good_app in Hg as (Hgx & (Hne & Hty & Hgy)%good_cons & _). pose proof (zlen_pos _ Hne).
  unfold PT.insertContentToNodeLeft. pt_step. apply wp_checks.
  assert (Hsafe' : safe s (doc xs ++ v)) by (unfold safe in *; rewrite !not_elem_of_app in *; tauto).
  assert (Hsame : torn v str = false -> wp (newPieces ← PT.createNewPieces v; newNode ← PT.insert_all_left x (rev newPieces);
      PT.validateCRLFWithPrevNode newNode;; PT.deleteNodes []) s
      (fun _ s' => exists F' its', edited F s (doc xs ++ v ++ str ++ doc ys) (zlen v + 5) F' its' s' /\ exists D, loc F' its' x D)).
  { intros Ht. pose proof (insert_left_rest F s xs x p str ys v Hs Hgx Hgy) as H0.
    destruct (Z.eqb_spec (zlen str) 0); [lia|]. eapply wp_mono; [apply H0; [by rewrite torn_app_r|done|done|done|lia]|].
    intros _ s' (F' & its' & He & Hx). exists F', its'. split; [|done]. eapply edited_weaken; [exact He|done|lia]. }
  rewrite endWithCR_str_eq. destruct (checks s) eqn:Ec; cbn [andb].
  2:{ do 3 pt_step. apply Hsame, torn_no_cr. destruct Hsafe as [|Hn]; [congruence|]. rewrite !not_elem_of_app in Hn. tauto. }
  destruct (ends_cr v) eqn:Er; [|do 3 pt_step; apply Hsame; unfold torn; by rewrite Er].
  pt_step. eapply wp_startWithLF; [exact Hs|apply elem_here|by eapply wf_node_ne|done|].
  destruct (starts_LF str) eqn:El.
  2:{ do 2 pt_step. apply Hsame. unfold torn. change (is_char (nxt str None) 10) with (starts_LF str). by rewrite El, andb_false_r. }
  apply starts_LF_inv in El as [str' ->]. pt_step. pt_step. eapply wp_piece; [exact Hs|].
  destruct (wp_drop_LF F s xs x p str' ys (fun _ s1 => exists t1 p1, s1 = with_tree t1 s /\ PT.drop_LF (buffers_ s) p = Ok p1 /\ 
     wf F s1 (xs ++ (x, (p1, str')) :: ys)) Hs) as (p' & Hd & Hlp & Hw).
  { intros t p' Hd _ Hs3. exists t, p'. done. }
  pt_step. eapply wp_on_buffers; [exact Hd|]. apply wp_seq2. eapply wp_mono; [exact Hw|]. intros [] s1 (t1 & p1 & Es1 & Hd1 & Hs1).
  rewrite Hd in Hd1. injection Hd1 as <-. pt_step. rewrite Hlp.
  assert (Hz : zlen (v ++ [10]) = zlen v + 1) by (by rewrite zlen_app). assert (Hb1 : blen s1 = blen s) by (by rewrite Es1).
  eapply wp_mono; [apply (insert_left_rest F s1 xs x p' str' ys (v ++ [10]) Hs1 Hgx Hgy)|].
  - unfold torn, ends_cr. by rewrite last_snoc.
  - destruct str' as [|c0 l0]; [done|]. by rewrite <- (torn_app_l [10]).
  - by destruct v.
  - rewrite Es1. left. exact Ec.
  - rewrite Hb1, Hz. lia.
  - intros _ s' (F' & its' & He & Hx). exists F', its'. split; [|done]. rewrite <- (app_assoc v) in He.
    eapply edited_weaken; [exact He|rewrite Es1; apply text_step_tree|rewrite Hb1, Hz; lia].
Qed.

Lemma sub_grow B t a : 0 <= a <= zlen B -> sub (B ++ t) a (zlen B + zlen t) = sub B a (zlen B) ++ t.
Proof.
  intros. pose proof (zlen_nonneg t). rewrite <- (sub_join (B ++ t) a (zlen B)) by (rewrite ?zlen_app; lia).
  rewrite sub_app_l by lia. by rewrite sub_app_r.
Qed.

Lemma torn_last a b d : a <> [] -> last a = last b -> torn a d = torn b d.
Proof. intros Ha Hl. unfold torn, ends_cr. by rewrite Hl. Qed.

(** The piece that ends the change buffer grows by [v], and the buffer with it. *)
Lemma tip_grow s ps1 p (str : list Z) ps2 b (v : list Z) y ls :
  text_ok s (ps1 ++ (p, str) :: ps2) -> tip (lastChangeBufferPos_ s) p = true -> (buffers_ s).[0] = Some b -> str <> [] -> v <> [] ->
  zlen (buffer b) + zlen v < max_buffer -> ls = starts (buffer b ++ v) -> ls.[zlen ls - 1] = Some y ->
  let b' := mkBuffer (buffer b ++ v) ls in
  let c := mkCursor (zlen ls - 1) (zlen (buffer b ++ v) - y) in
  let s' := with_changePos c (with_buffers (set_at (buffers_ s) 0 b') s) in
  buffer_ok b' /\ exists n, getLineFeedCnt (buffers_ s') 0 (start p) c = Ok n /\
    text_ok s' (ps1 ++ (mkPiece (bufferIndex p) (start p) c n (length p + zlen v), str ++ v) :: ps2).
Proof.
  intros Hok Htip Hb Hne Hv Hlen -> Hy b' c s'. pose proof Hok as ((b0 & Hb0 & Hpos) & Hbs & Hf & Htips). rewrite Hb in Hb0. injection Hb0 as <-.
  pose proof (zlen_nonneg v). pose proof (zlen_pos _ Hne). pose proof (cursor_end _ _ Hy) as Hend. fold c in Hend.
  assert (Hbok' : buffer_ok b') by (split; [done|]; cbn [buffer b']; rewrite zlen_app; unfold max_buffer in *; lia).
  assert (Hok' : text_ok s (ps1 ++ ps2)) by (apply (text_ok_replace s ps1 (p, str) ps2 [] Hok); [constructor|cbn [tips]; lia]).
  rewrite tips_app in Htips. cbn [tips fst] in Htips. rewrite Htip in Htips.
  destruct (grow_text s (ps1 ++ ps2) b v _ c Hok' Hb Hbok' Hv ltac:(right; rewrite tips_app; lia) Hend) as [Hok2 Ht2].
  fold b' s' in Hok2. apply Forall_app in Hf as [_ [Hp _]%Forall_cons]. cbn [fst snd] in Hp.
  destruct Hp as [(b1 & oa & Hi & Hbok & H1 & H2 & Hstr) [Hl Hlf]]. apply tip_true in Htip as [Hi0 He].
  rewrite Hi0 in Hi. rewrite Hb in Hi. injection Hi as <-. rewrite He in H2. pose proof (cursor_offset_unique _ _ _ _ H2 Hpos) as Eo.
  assert (Hb' : (buffers_ s').[0] = Some b').
  { unfold s'. cbn [buffers_ with_changePos with_buffers]. rewrite at_set_at_any. apply at_lt in Hb. simpl. destruct (Z.ltb_spec 0 (zlen (buffers_ s))); [done|lia]. }
  assert (Hspan : span (buffers_ s') 0 (start p) c (str ++ v)).
  { exists b', oa. split; [done|]. split; [done|]. cbn [buffer b']. destruct H1 as [H1 H1']. rewrite zlen_app in *.
    split; [apply cursor_grow; [done|left; lia]|]. replace (oa + (zlen str + zlen v)) with (zlen (buffer b) + zlen v) by lia.
    split; [done|]. rewrite sub_grow by lia. rewrite <- Eo. by rewrite <- Hstr. }
  split; [done|]. destruct (span_lf _ _ _ _ _ Hspan) as (n & Hn & Hn'). exists n. split; [done|].
  destruct Hok2 as (Hpos2 & Hbs2 & Hf2 & _). split; [done|]. split; [done|]. rewrite tips_app in *. cbn [tips]. split.
  - apply Forall_app in Hf2 as [Hf3 Hf4]. apply Forall_app. split; [done|]. constructor; [|done]. cbn [fst snd]. rewrite Hi0.
    split; [done|]. cbn [length lineFeedCnt]. rewrite zlen_app. split; [lia|done].
  - change (lastChangeBufferPos_ s') with c. destruct (tip c _); lia.
Qed.

(** The test for a CRLF between the piece and the text appended to it. *)
Lemma wp_hitCRLF F s its x p (str : list Z) b (v : list Z) :
  wf F s its -> (x, (p, str)) ∈ its -> x <> SENTINEL -> str <> [] -> last str = last (buffer b) -> checks s = true \/ 13 ∉ str ->
  wp (if checks s && PT.startWithLF_str v then PT.endWithCR x else mret false) s (fun cr s' => s' = s /\ cr = torn (buffer b) v).
Proof.
  intros Hs Hin Hx Hne Hl Hsafe. rewrite startWithLF_str_eq, <- (torn_last str) by done. unfold torn.
  change (is_char (nxt v None) 10) with (starts_LF v). destruct (checks s); cbn [andb].
  - destruct (starts_LF v); [|pt_step; by rewrite andb_false_r]. rewrite andb_true_r. by eapply wp_endWithCR.
  - pt_step. destruct Hsafe as [|Hn]; [done|]. split; [done|]. symmetry. by apply (torn_no_cr str v).
Qed.

(** The line starts of the change buffer before the new ones are added. *)
Lemma wp_append_starts s b (v : list Z) :
  buffer_ok b ->
  wp (if torn (buffer b) v then
        prevStartOffset ← on_buffers (fun _ => line_start b (zlen (lineStarts b) - 2));
        modify (with_changePos (mkCursor (line (lastChangeBufferPos_ s) - 1) (zlen (buffer b) - prevStartOffset)));;
        mret (removelast (lineStarts b))
      else mret (lineStarts b)) s
    (fun ls s' => ls ++ drop 1 ((fun y : Z => y + zlen (buffer b)) <$> starts v) = starts (buffer b ++ v) /\ exists c0, s' = with_changePos c0 s).
Proof.
  intros Hok. pose proof Hok as [Hls _]. rewrite Hls. destruct (torn (buffer b) v) eqn:Et.
  - assert (Hbk : 0 < breaks (buffer b)) by (apply breaks_ends_cr; unfold torn in Et; by apply andb_prop in Et as [? _]).
    destruct (start_at (buffer b) (zlen (starts (buffer b)) - 2)) as (y & Hy & _); [rewrite zlen_starts; lia|].
    pt_step. eapply wp_on_buffers; [by apply (line_start_ok b Hok)|]. do 3 pt_step. split; [by rewrite <- starts_app_torn|by eexists].
  - pt_step. split; [by rewrite <- starts_app|]. exists (lastChangeBufferPos_ s). by destruct s.
Qed.

Lemma wp_set_nodes_pos F s xs x q ys p d e c (Q : unit -> PieceTreeBase -> Prop) :
  piece_tree F (tree s) (nodes xs ++ (x, q) :: nodes ys) -> d = length p - length q -> e = lineFeedCnt p - lineFeedCnt q ->
  (forall t, piece_tree F t (nodes xs ++ (x, p) :: nodes ys) -> Q tt (with_changePos c (with_tree t s))) ->
  wp (set_piece x p;; modify (with_changePos c);; PT.updateTreeMetadata x d e) s Q.
Proof.
  intros Ht Hd He HQ. pose proof (wp_set_nodes F s xs x q ys p d e (fun u s' => Q u (with_changePos c s')) Ht Hd He HQ) as Hw.
  unfold wp, mbind, ST_bind, modify, PT.updateTreeMetadata, on_tree in *. destruct (set_piece x p s) as [[[] s1]|]; [|done].
  cbn [tree with_changePos]. by destruct (RB.updateTreeMetadata x d e (tree s1)) as [[[] t]|].
Qed.

(** [appendToNode] once the LF after it was moved. *)
Lemma append_rest F s xs x p str ys (v : list Z) :
  wf F s (xs ++ (x, (p, str)) :: ys) -> str <> [] -> v <> [] -> checks s = true \/ 13 ∉ str ->
  tip (lastChangeBufferPos_ s) p = true -> blen s + zlen v < max_buffer ->
  wp (c ← PT.shouldCheckCRLF;
      cr ← (if (c : bool) && PT.startWithLF_str v then PT.endWithCR x else mret false);
      s ← gets id;
      b ← on_buffers (fun bufs => get_buffer bufs 0);
      ls ← (if cr : bool then
              prevStartOffset ← on_buffers (fun _ => line_start b (zlen (lineStarts b) - 2));
              modify (with_changePos (mkCursor (line (lastChangeBufferPos_ s) - 1) (zlen (buffer b) - prevStartOffset)));;
              mret (removelast (lineStarts b))
            else mret (lineStarts b));
      modify (fun s => with_buffers (set_at (buffers_ s) 0 (mkBuffer (buffer b ++ v) (ls ++ drop 1 ((fun x : Z => x + zlen (buffer b)) <$> createLineStartsFast v false)))) s);;
      x0 ← on_buffers (fun _ => line_start (mkBuffer (buffer b ++ v) (ls ++ drop 1 ((fun x : Z => x + zlen (buffer b)) <$> createLineStartsFast v false)))
             (zlen (ls ++ drop 1 ((fun x : Z => x + zlen (buffer b)) <$> createLineStartsFast v false)) - 1));
      let newEnd := mkCursor (zlen (ls ++ drop 1 ((fun x : Z => x + zlen (buffer b)) <$> createLineStartsFast v false)) - 1) (zlen (buffer b ++ v) - x0) in
      piece ← npiece x;
      newLineFeedCnt ← on_buffers (fun bufs => getLineFeedCnt bufs 0 (start piece) newEnd);
      set_piece x (mkPiece (bufferIndex piece) (start piece) newEnd newLineFeedCnt (length piece + zlen v));;
      modify (with_changePos newEnd);;
      PT.updateTreeMetadata x (zlen v) (newLineFeedCnt - lineFeedCnt piece)) s
    (fun _ s' => exists p', wf F s' (xs ++ (x, (p', str ++ v)) :: ys) /\ text_step s s' /\ blen s' = blen s + zlen v).
Proof.
  intros Hs Hne Hv Hsafe Htip Hlen. pose proof Hs as [Ht Hok]. pose proof Hok as ((b & Hb & Hpos) & Hbs & _).
  assert (Hbl : blen s = zlen (buffer b)) by (unfold blen; by rewrite Hb). pose proof (zlen_nonneg (buffer b)). pose proof (zlen_nonneg v).
  assert (Hbok : buffer_ok b) by (rewrite Forall_forall in Hbs; apply Hbs; by eapply at_elem_of).
  assert (Hlast : last str = last (buffer b)).
  { destruct (wf_text _ _ _ _ _ _ _ Hs) as [(b1 & oa & Hi & _ & [Ha _] & H2 & Hstr) _]. pose proof (zlen_pos _ Hne).
    apply tip_true in Htip as [Hi0 He]. rewrite Hi0 in Hi. rewrite Hb in Hi. injection Hi as <-.
    rewrite He in H2. pose proof (cursor_offset_unique _ _ _ _ H2 Hpos) as Eo. rewrite Hstr, last_sub by lia. by rewrite Eo, at_zlen_last. }
  pt_step. apply wp_checks. pt_step. eapply wp_mono; [by eapply (wp_hitCRLF F s _ x p str b v Hs); [apply elem_here|by eapply wf_node_ne|..]|].
  intros cr s1 [-> ->]. do 3 pt_step. eapply wp_on_buffers; [by apply get_buffer_ok|].
  unfold max_buffer in Hlen. rewrite createLineStartsFast_ok by lia. pt_step. eapply wp_mono; [by apply (wp_append_starts s b v)|].
  intros ls s3 [Hls3 [c0 Es3]]. rewrite Hls3. set (L := starts (buffer b ++ v)).
  pose proof (breaks_in_nonneg (buffer b ++ v) None) as Hbr. fold (breaks (buffer b ++ v)) in Hbr.
  destruct (start_at (buffer b ++ v) (zlen L - 1)) as (y & Hy & _); [unfold L; rewrite zlen_starts; lia|]. fold L in Hy.
  destruct (tip_grow s (xs.*2) p str (ys.*2) b v y L) as (Hbok' & n & Hn & Hok2); [by rewrite fmap_app in Hok|done|done|done|done|unfold max_buffer; lia|done|done|].
  set (b' := mkBuffer (buffer b ++ v) L) in *. set (c := mkCursor (zlen L - 1) (zlen (buffer b ++ v) - y)) in *. set (s2 := with_changePos c (with_buffers _ s)) in *.
  set (p' := mkPiece _ _ c n _) in *. do 2 pt_step. set (s4 := with_buffers _ s3).
  assert (Es4 : with_changePos c s4 = s2 /\ tree s4 = tree s /\ buffers_ s4 = buffers_ s2) by (unfold s4, s2; rewrite Es3; by destruct s).
  destruct Es4 as (Es4 & Htr4 & Hbf4). pt_step. eapply wp_on_buffers; [by apply (line_start_ok b' Hbok')|]. fold c. cbv zeta.
  assert (Hpt4 : piece_tree F (tree s4) (nodes xs ++ (x, p) :: nodes ys)) by (rewrite Htr4; by rewrite nodes_app in Ht).
  pt_step. eapply wp_on_tree_read. destruct (piece_tree_lookup _ _ _ x p Hpt4 ltac:(apply elem_here)) as (nd & Hnd & Hpd).
  eapply wp_get_piece; [exact Hnd|exact Hpd|]. split; [done|]. pt_step. eapply wp_on_buffers; [rewrite Hbf4; exact Hn|].
  fold p'. eapply (wp_set_nodes_pos F s4 xs x p ys p'); [done|cbn; lia|done|]. intros t5 Ht5. exists p'.
  change (with_changePos c (with_tree t5 s4)) with (with_tree t5 (with_changePos c s4)). rewrite Es4. split; [split|split].
  - by rewrite nodes_app.
  - rewrite fmap_app. exact Hok2.
  - split; [unfold s2; by destruct s|by eapply (keeps_grow (buffers_ s) b)].
  - unfold blen, s2. cbn [buffers_ with_changePos with_buffers with_tree]. rewrite at_set_at_any, Hb. apply at_lt in Hb. simpl.
    destruct (Z.ltb_spec 0 (zlen (buffers_ s))); [|lia]. cbn [buffer b']. by rewrite zlen_app.
Qed.

Lemma appendToNode_edits F s xs x p str ys (v : list Z) :
  wf F s (xs ++ (x, (p, str)) :: ys) -> good (xs ++ (x, (p, str)) :: ys) -> v <> [] -> safe s (doc xs ++ str ++ v ++ doc ys) ->
  tip (lastChangeBufferPos_ s) p = true -> blen s + zlen v + 5 < max_buffer ->
  wp (PT.appendToNode x v) s (fun _ s' => exists F' its',
    edited F s (doc xs ++ str ++ v ++ doc ys) (zlen v + 5) F' its' s' /\ loc F' its' x (doc xs)).
Proof.
  intros Hs Hg Hv Hsafe Htip Hlen. apply good_app in Hg as (Hgx & (Hne & Hty & Hgy)%good_cons & Htx).
  assert (Hsafe' : safe s (v ++ doc ys)) by (unfold safe in *; rewrite !not_elem_of_app in *; tauto).
  unfold PT.appendToNode. pt_step. eapply wp_mono; [by apply (wp_adjust F s xs x (p, str) ys v Hs Hgy Hv Hsafe')|].
  intros adj s1 (F1 & ys1 & t1 & -> & Hs1 & HF1 & Hg1 & Hd1 & Ht1). set (v1 := if adj then v ++ [10] else v) in *.
  assert (Hv1 : v1 <> []) by (unfold v1; destruct adj; [by destruct v|done]).
  assert (Hz1 : zlen v1 <= zlen v + 1) by (unfold v1; destruct adj; [rewrite zlen_app; change (zlen [10]) with 1|]; lia).
  assert (Hsafe1 : checks (with_tree t1 s) = true \/ 13 ∉ str) by (unfold safe in Hsafe; rewrite !not_elem_of_app in Hsafe; tauto).
  eapply wp_mono; [apply (append_rest F1 _ xs x p str ys1 v1 Hs1 Hne Hv1 Hsafe1); [done|change (blen s + zlen v1 < max_buffer); lia]|].
  intros [] s' (p' & Hs' & Hst & Hb). change (blen (with_tree t1 s)) with (blen s) in Hb.
  eexists F1, _. split; [split_and!; [exact Hs'|..]|].
  - apply good_app. rewrite doc_cons in Htx |- *. rewrite <- app_assoc, torn_app_r by done. split; [done|]. split; [|by rewrite torn_app_r in Htx by done].
    apply good_cons. split; [by destruct str|]. split; [by rewrite torn_app_l|done].
  - by rewrite doc_app, doc_cons, <- app_assoc, Hd1.
  - done.
  - etrans; [apply text_step_tree|exact Hst].
  - lia.
  - right. by exists xs, (p', str ++ v1), ys1.
Qed.
