(* ===== verification/PtSearch.v ===== *)
(** * Searching a piece tree

    The loops that go down the tree follow the metadata of the nodes.  [search h x its]: in
    the heap [h] the subtree at [x] holds the nodes [its] in order, with the metadata of
    their texts.  [nodeAt] with the search cache, and [computeBufferMetadata]. *)

From S2P Require Import Prelude Length Store RbTree RbRep RbMeta RbInsert RbWalk RbDelete PtBuffer PtSpan PieceTree PtState PtEdit.

#[local] Open Scope js_scope.
#[local] Arguments Z.eqb : simpl never.
#[local] Arguments Z.ltb : simpl never.
#[local] Arguments Z.gtb : simpl never.
#[local] Arguments Z.geb : simpl never.
#[local] Arguments Z.leb : simpl never.
#[local] Arguments Z.add : simpl never.
#[local] Arguments Z.sub : simpl never.
#[local] Hint Resolve elem_here : core.

Implicit Types (its xs ys zs : list item) (F : gmap ptr TreeNode) (s : PieceTreeBase) (x : ptr).

(** ** Trees to search *)

Inductive search (h : gmap ptr TreeNode) : ptr -> list item -> Prop :=
  | search_leaf : search h SENTINEL []
  | search_node x n p (str : list Z) xs ys :
      h !! x = Some n -> x <> SENTINEL -> piece n = Some p -> size_left n = zlen (doc xs) -> lf_left n = breaks (doc xs) ->
      search h (left n) xs -> search h (right n) ys -> length p = zlen str -> lineFeedCnt p = breaks str -> str <> [] ->
      search h x (xs ++ (x, (p, str)) :: ys).

Lemma wf_pieces F s its : wf F s its -> good its -> Forall (fun it => length it.2.1 = zlen it.2.2 /\ lineFeedCnt it.2.1 = breaks it.2.2 /\ it.2.2 <> []) its.
Proof.
  intros [_ (_ & _ & Hf & _)] [Hg _]. unfold txts in Hg. rewrite Forall_fmap in Hf. rewrite Forall_fmap in Hg. rewrite !Forall_forall in *. intros [x [p str]] Hin.
  specialize (Hf _ Hin). specialize (Hg _ Hin). simpl in *. destruct Hf as (_ & Hl & Hlf). auto.
Qed.

Lemma breaks_doc its : good its -> breaks (doc its) = foldr (fun (it : item) n => breaks it.2.2 + n) 0 its.
Proof.
  induction its as [|[x [p str]] its IH]; [done|]. intros (_ & Ht & Hg)%good_cons. rewrite doc_cons, breaks_app_torn, Ht. simpl. rewrite IH by done. lia.
Qed.

Lemma total_nodes its :
  good its -> Forall (fun it => length it.2.1 = zlen it.2.2 /\ lineFeedCnt it.2.1 = breaks it.2.2 /\ it.2.2 <> []) its ->
  total length (nodes its) = zlen (doc its) /\ total lineFeedCnt (nodes its) = breaks (doc its).
Proof.
  intros Hg Hf. rewrite (breaks_doc _ Hg). clear Hg. induction Hf as [|[x [p str]] its (Hl & Hlf & _) Hf [IH1 IH2]]; [done|].
  simpl in *. rewrite doc_cons, zlen_app. lia.
Qed.

Lemma search_rep h p t its :
  rep h p t -> meta t -> SENTINEL ∉ addrs t -> elems t = nodes its -> good its ->
  Forall (fun it => length it.2.1 = zlen it.2.2 /\ lineFeedCnt it.2.1 = breaks it.2.2 /\ it.2.2 <> []) its -> search h (root_of t) its.
Proof.
  revert p its. induction t as [|c l IHl i r IHr]; intros p its Hr Hm Hs He Hg Hf.
  - destruct its; [constructor|done].
  - simpl in He. unfold nodes in He. symmetry in He. apply fmap_app_inv in He as (xs & k & Hl & Hk & ->).
    destruct k as [|[x [q str]] ys]; [done|]. injection Hk as Ex Eq Hy. simpl in Ex, Eq. subst x q.
    destruct Hr as (Hi & Hrl & Hrr). destruct Hm as (Hsl & Hlf & Hml & Hmr). rewrite addrs_T, not_elem_of_app, not_elem_of_cons in Hs.
    apply good_app in Hg as (Hgx & (Hne & _ & Hgy)%good_cons & _). apply Forall_app in Hf as [Hfx [(Hlen & Hlfc & _) Hfy]%Forall_cons].
    destruct (total_nodes xs Hgx Hfx) as [Ht1 Ht2]. unfold tsize in Hsl. unfold tlf in Hlf. rewrite Hl in Hsl, Hlf.
    cbn [root_of]. eapply (search_node h (addr i) _ _ str xs ys Hi); cbn [piece size_left lf_left left right node_of]; try done.
    + intros E0. rewrite E0 in Hs. tauto.
    + rewrite Hsl. exact Ht1.
    + rewrite Hlf. exact Ht2.
    + eapply IHl; try done. tauto.
    + eapply IHr; try done. tauto.
Qed.

Lemma wf_search F s its : wf F s its -> good its -> search (heap (tree s)) (root (tree s)) its /\ (List.length its < size (heap (tree s)))%nat.
Proof.
  intros Hs Hg. pose proof (wf_pieces _ _ _ Hs Hg) as Hf. destruct Hs as [(t & [Hroot Hat] & _ & Hm & He) _]. split.
  - rewrite Hroot. pose proof Hat as (Hr & [Hn _]%NoDup_cons & _). by eapply search_rep.
  - pose proof (heap_at_size _ _ _ _ Hat) as Hz. unfold addrs in Hz. rewrite He in Hz. unfold nodes in Hz. by rewrite !length_fmap in Hz.
Qed.

Lemma wp_nfld {A} (f : TreeNode -> A) s x n (Q : A -> PieceTreeBase -> Prop) :
  heap (tree s) !! x = Some n -> Q (f n) s -> wp (nfld f x) s Q.
Proof. intros Hn HQ. apply wp_on_tree_read. by eapply wp_fld. Qed.

Lemma wp_npiece_at s x n p (Q : Piece -> PieceTreeBase -> Prop) :
  heap (tree s) !! x = Some n -> piece n = Some p -> Q p s -> wp (npiece x) s Q.
Proof. intros Hn Hp HQ. apply wp_on_tree_read. by eapply wp_get_piece. Qed.


(** ** The search cache *)

(** An entry is right: its node is in the tree, after text of this length and these lines. *)
Definition entry_at (e : CacheEntry) (D : list Z) : Prop := ce_offset e = zlen D /\ forall n, ce_line e = Some n -> n = breaks D + 1.

Definition cache_ok its s : Prop :=
  Forall (fun e => exists xs pt ys, its = xs ++ (ce_node e, pt) :: ys /\ entry_at e (doc xs)) (searchCache_ s) /\ zlen (searchCache_ s) <= 1.

(** After an edit: an entry may be of a node that is gone. *)
Definition cache_near F its s : Prop :=
  Forall (fun e => exists D, loc F its (ce_node e) D /\ entry_at e D) (searchCache_ s) /\ zlen (searchCache_ s) <= 1.

Lemma wp_set_cache s e (Q : unit -> PieceTreeBase -> Prop) :
  zlen (searchCache_ s) <= 1 -> Q tt (with_cache [e] s) -> wp (SC.set e) s Q.
Proof.
  intros Hl HQ. unfold SC.set. apply wp_modify. cbv beta zeta. rewrite Z.geb_leb. unfold SC.limit. destruct (searchCache_ s) as [|e0 [|e1 l]].
  - exact HQ.
  - exact HQ.
  - unfold zlen in Hl. simpl in Hl. lia.
Qed.

Lemma wf_cache F s its c : wf F (with_cache c s) its = wf F s its.
Proof. done. Qed.

(** The objects of the cache can be read; those that are gone have no parent. *)
Lemma loc_read F s its x D : wf F s its -> loc F its x D -> exists n, heap (tree s) !! x = Some n /\ (gone F x -> parent n = null).
Proof.
  intros [Ht _] [(n & Hn & Hp)|(xs & [p str] & ys & -> & _)].
  - exists n. split; [|done]. by apply (piece_tree_outside F (tree s) _ x n Ht).
  - rewrite nodes_app in Ht. destruct (piece_tree_lookup _ _ _ x p Ht ltac:(apply elem_here)) as (n & Hn & _). exists n. split; [done|].
    intros (m & Hm & Hp). destruct (piece_tree_outside _ _ _ _ _ Ht Hm) as [Hm' _]. congruence.
Qed.

Lemma wp_validate_loop F s its off l (Q : list CacheEntry -> PieceTreeBase -> Prop) :
  wf F s its -> Forall (fun e => exists D, loc F its (ce_node e) D) l ->
  (forall l', l' ⊆+ l -> Forall (fun e => ce_offset e < off /\ ~ gone F (ce_node e)) l' -> Q l' s) ->
  wp (SC.validate_loop off l) s Q.
Proof.
  intros Hs Hl. revert Q. induction Hl as [|e l (D & HD) Hl IH]; intros Q HQ; cbn [SC.validate_loop].
  - pt_step. by apply HQ.
  - destruct (loc_read _ _ _ _ _ Hs HD) as (n & Hn & Hgone). pt_step. eapply wp_nfld; [exact Hn|]. pt_step. apply IH. intros l' Hsub Hl'.
    pt_step. rewrite Z.geb_leb. destruct (Z.eqb_spec (parent n) null) as [|Hp]; cbn [orb]; [apply HQ; [by apply submseteq_cons|done]|].
    destruct (Z.leb_spec off (ce_offset e)); apply HQ; [by apply submseteq_cons|done|by apply submseteq_skip|].
    constructor; [|done]. split; [lia|]. by intros Hg%Hgone.
Qed.

(** [validate] keeps the entries before [off] whose nodes are in the tree. *)
Lemma wp_validate F s its off (Q : unit -> PieceTreeBase -> Prop) :
  wf F s its -> Forall (fun e => exists D, loc F its (ce_node e) D) (searchCache_ s) ->
  (forall l, l ⊆+ searchCache_ s -> Forall (fun e => ce_offset e < off /\ ~ gone F (ce_node e)) l -> Q tt (with_cache l s)) ->
  wp (SC.validate off) s Q.
Proof.
  intros Hs Hl HQ. unfold SC.validate. pt_step. pt_step. pt_step. eapply wp_validate_loop; [exact Hs|exact Hl|].
  intros l' Hsub Hl'. apply wp_modify. by apply HQ.
Qed.

Lemma wp_validate_near F s its off (Q : unit -> PieceTreeBase -> Prop) :
  wf F s its -> cache_near F its s -> (forall l, cache_ok its (with_cache l s) -> Q tt (with_cache l s)) -> wp (SC.validate off) s Q.
Proof.
  intros Hs [Hc Hlen] HQ. eapply wp_validate; [exact Hs|eapply Forall_impl; [exact Hc|]; intros e (D & HD & _); by exists D|].
  intros l Hsub Hl. apply HQ. split; cbn [searchCache_ with_cache].
  - rewrite Forall_forall in Hc, Hl |- *. intros e He. destruct (Hl e He) as [_ Hng]. destruct (Hc e) as (D & HD & Hat); [by eapply elem_of_submseteq|].
    destruct HD as [?|(xs & pt & ys & -> & <-)]; [done|]. by exists xs, pt, ys.
  - apply submseteq_length in Hsub. unfold zlen in *. lia.
Qed.

(** A hit of the cache. *)
Lemma wp_get_loop F s its off l :
  wf F s its -> Forall (fun e => exists xs pt ys, its = xs ++ (ce_node e, pt) :: ys /\ entry_at e (doc xs)) l ->
  wp (SC.get_loop off l) s (fun r s' => s' = s /\ forall e, r = Some e -> e ∈ l /\ exists xs p str ys,
    its = xs ++ (ce_node e, (p, str)) :: ys /\ entry_at e (doc xs) /\ 0 <= off - zlen (doc xs) <= zlen str).
Proof.
  intros Hs Hl. induction Hl as [|e l (xs & [p str] & ys & Eits & Hat) Hl IH]; cbn [SC.get_loop]; [by apply wp_ret|].
  assert (IH' : wp (SC.get_loop off l) s (fun r s' => s' = s /\ forall e0, r = Some e0 -> e0 ∈ e :: l /\ exists xs p str ys,
    its = xs ++ (ce_node e0, (p, str)) :: ys /\ entry_at e0 (doc xs) /\ 0 <= off - zlen (doc xs) <= zlen str)).
  { eapply wp_mono; [exact IH|]. intros r s' [-> Hr]. split; [done|]. intros e0 He0. destruct (Hr e0 He0) as [Hin H]. split; [by right|done]. }
  destruct (Z.leb_spec (ce_offset e) off); [|done]. assert (Hs' := Hs). rewrite Eits in Hs'. pt_step. eapply wp_piece; [exact Hs'|].
  pose proof (wf_text _ _ _ _ _ _ _ Hs') as [_ [Hlen _]]. rewrite Z.geb_leb. destruct (Z.leb_spec off (ce_offset e + length p)); [|done].
  pt_step. split; [done|]. intros e0 [= <-]. split; [by left|]. exists xs, p, str, ys. destruct Hat as [Ho Hli]. split; [done|]. split; [done|]. lia.
Qed.

(** ** Finding an offset *)

Lemma doc_ne its : 0 < zlen (doc its) -> its <> [].
Proof. by intros H ->. Qed.

Lemma wp_nodeAt_loop s x its off base fuel :
  search (heap (tree s)) x its -> (List.length its < fuel)%nat -> 0 <= off <= zlen (doc its) -> its <> [] -> zlen (searchCache_ s) <= 1 ->
  wp (PT.nodeAt_loop fuel x off base) s (fun r s' => exists xs y p str ys, its = xs ++ (y, (p, str)) :: ys /\
    0 <= off - zlen (doc xs) <= zlen str /\ r = Some (mkNodePos y (off - zlen (doc xs)) (base + zlen (doc xs))) /\
    s' = with_cache [mkEntry y (base + zlen (doc xs)) None] s).
Proof.
  intros Hx. revert off base fuel. induction Hx as [|x n p str xs ys Hn Hne Hp Hsz Hlf Hxl IHl Hxr IHr Hlen Hlfc Hstr];
    intros off base fuel Hf Ho Hits Hc; [done|]. destruct fuel as [|fuel]; [lia|]. cbn [PT.nodeAt_loop].
  destruct (Z.eqb_spec x SENTINEL); [done|]. rewrite length_app in Hf. simpl in Hf. pose proof (zlen_pos _ Hstr).
  pt_step. eapply wp_nfld; [exact Hn|]. rewrite Z.gtb_ltb, Hsz. rewrite doc_app, doc_cons, !zlen_app in Ho.
  destruct (Z.ltb_spec off (zlen (doc xs))) as [Hlt|Hge].
  - pt_step. eapply wp_nfld; [exact Hn|]. eapply wp_mono; [apply IHl; [lia|lia|apply doc_ne; lia|done]|].
    intros r s' (zs & y & p' & str' & zs' & -> & H'). exists zs, y, p', str', (zs' ++ (x, (p, str)) :: ys). by rewrite <- app_assoc.
  - pt_step. eapply wp_npiece_at; [exact Hn|exact Hp|]. rewrite Z.geb_leb, Hlen. destruct (Z.leb_spec off (zlen (doc xs) + zlen str)) as [Hle|Hgt].
    + cbv zeta. pt_step. apply wp_set_cache; [done|]. pt_step. exists xs, x, p, str, ys. split; [done|]. split; [lia|done].
    + pt_step. eapply wp_nfld; [exact Hn|]. eapply wp_mono; [apply IHr; [lia|lia|apply doc_ne; lia|done]|].
      intros r s' (zs & y & p' & str' & zs' & -> & Hr & -> & ->). exists (xs ++ (x, (p, str)) :: zs), y, p', str', zs'.
      rewrite doc_app, doc_cons, !zlen_app. split; [by rewrite <- app_assoc|]. split; [lia|].
      replace (off - (zlen (doc xs) + (zlen str + zlen (doc zs)))) with (off - (zlen (doc xs) + zlen str) - zlen (doc zs)) by lia.
      by replace (base + (zlen (doc xs) + (zlen str + zlen (doc zs)))) with (base + (zlen (doc xs) + zlen str) + zlen (doc zs)) by lia.
Qed.

(** The node of an offset; it is in the cache afterwards. *)
Lemma wp_nodeAt F s its off :
  wf F s its -> good its -> cache_ok its s -> 0 <= off <= zlen (doc its) -> its <> [] ->
  wp (PT.nodeAt off) s (fun r s' => exists xs y p str ys e, its = xs ++ (y, (p, str)) :: ys /\
    0 <= off - zlen (doc xs) <= zlen str /\ r = Some (mkNodePos y (off - zlen (doc xs)) (zlen (doc xs))) /\
    s' = with_cache [e] s /\ ce_node e = y /\ entry_at e (doc xs)).
Proof.
  intros Hs Hg [Hc Hcl] Ho Hne. unfold PT.nodeAt. pt_step. apply wp_on_tree_read, wp_get_root. split; [done|].
  pt_step. unfold SC.get. pt_step. pt_step.
  eapply wp_mono; [eapply wp_get_loop; [exact Hs|]|].
  { rewrite Forall_forall in Hc |- *. intros e He. apply Hc. rewrite rev_alt in He. by apply (elem_of_reverse _ (searchCache_ s)) in He. }
  intros r s1 [-> Hr]. destruct r as [e|].
  - destruct (Hr e eq_refl) as (Hin & xs & p & str & ys & Eits & Hat & Hrange). pt_step. exists xs, (ce_node e), p, str, ys, e.
    pose proof Hat as [Hof _]. rewrite Hof. split_and!; try done; [lia|lia|].
    rewrite rev_alt in Hin. apply (elem_of_reverse _ (searchCache_ s)) in Hin.
    destruct (searchCache_ s) as [|e0 [|e1 l]] eqn:Es; [by apply not_elem_of_nil in Hin| |unfold zlen in Hcl; simpl in Hcl; lia].
    apply list_elem_of_singleton in Hin as ->. rewrite <- Es. by destruct s.
  - destruct (wf_search _ _ _ Hs Hg) as [Hsearch Hsize]. pt_step. apply wp_on_tree_read, wp_gets. split; [done|].
    eapply wp_mono; [apply (wp_nodeAt_loop s _ its off 0); [exact Hsearch|lia|done|done|done]|].
    intros r s1 (xs & y & p & str & ys & Eits & Hrange & -> & ->). rewrite Z.add_0_l in *. eexists xs, y, p, str, ys, _.
    split_and!; try done; lia.
Qed.

(** ** The counts *)

Lemma wp_computeBufferMetadata F s its (Q : unit -> PieceTreeBase -> Prop) :
  wf F s its -> good its -> cache_near F its s ->
  (forall c, let s' := with_cache c (with_counts (breaks (doc its) + 1) (zlen (doc its)) s) in cache_ok its s' -> Q tt s') ->
  wp PT.computeBufferMetadata s Q.
Proof.
  intros Hs Hg Hc HQ. destruct (wf_search _ _ _ Hs Hg) as [Hsearch Hsize]. unfold PT.computeBufferMetadata.
  pt_step. apply wp_on_tree_read, wp_get_root. split; [done|]. pt_step. apply wp_on_tree_read, wp_gets. split; [done|]. pt_step.
  eapply (wp_mono _ _ (fun v s' => s' = s /\ v.1.2 = breaks (doc its) + 1 /\ v.2 = zlen (doc its))).
  { eapply (wp_loop (fun k v s' => s' = s /\ exists zs, search (heap (tree s)) v.1.1 zs /\ good zs /\ k = List.length zs /\
       v.1.2 + breaks (doc zs) = breaks (doc its) + 1 /\ v.2 + zlen (doc zs) = zlen (doc its)) _ _ _ _ _ _ (List.length its)).
    - intros k [[x lf] len] s' (-> & zs & Hx & Hgz & -> & H1 & H2). cbn [fst snd] in *. pt_step.
      destruct Hx as [|x n p str xs ys Hn Hne Hp Hsz Hlf Hxl Hxr Hlen Hlfc Hstr].
      + change (SENTINEL =? SENTINEL) with true. simpl negb. cbv iota. change (breaks (doc [])) with 0 in H1. change (zlen (doc [])) with 0 in H2. cbn [fst snd]. split_and!; [done|lia|lia].
      + destruct (Z.eqb_spec x SENTINEL); [done|]. simpl negb. cbv iota. pt_step. eapply wp_nfld; [exact Hn|].
        pt_step. eapply wp_npiece_at; [exact Hn|exact Hp|]. pt_step. eapply wp_nfld; [exact Hn|]. pt_step. eapply wp_nfld; [exact Hn|].
        pt_step. exists (List.length ys). rewrite length_app. simpl. split; [lia|]. split; [done|]. exists ys. cbn [fst snd].
        rewrite doc_app, doc_cons, !zlen_app, !breaks_app_torn in *. apply good_app in Hgz as (_ & (_ & Ht & Hgy)%good_cons & Ht2).
            rewrite doc_cons in Ht2. rewrite Ht, Ht2 in H1. cbv iota in H1. split_and!; [done|done|done|lia|lia].
    - split; [done|]. exists its. cbn [fst snd]. split_and!; [done|done|done|lia|lia].
    - lia. }
  intros [[x lf] len] s' (-> & H1 & H2). cbn [fst snd] in *. subst lf len. pt_step. pt_step.
  eapply wp_validate_near; [exact Hs|exact Hc|]. intros l Hl. by apply HQ.
Qed.

(** ** What a piece tree stands for *)

(** All the line breaks of [d] are [eol]. *)
Definition normalized (eol d : list Z) : Prop := replaceEOL d eol = d.

Definition eol_ok s (d : list Z) : Prop :=
  (EOL_ s = [10] \/ EOL_ s = [13; 10]) /\ (EOLNormalized_ s = true -> normalized (EOL_ s) d).

(** The last visited line is that of the document, or was forgotten. *)
Definition visited_ok s (d : list Z) : Prop :=
  (lastVisitedLine_ s).1 = 0 \/ (splitLines d).[(lastVisitedLine_ s).1 - 1] = Some (lastVisitedLine_ s).2.

(** The piece tree stands for the document [d]; [F] are other objects. *)
Definition represents F s (d : list Z) : Prop := exists its,
  wf F s its /\ good its /\ doc its = d /\ lineCnt_ s = breaks d + 1 /\ length_ s = zlen d /\ cache_ok its s /\ visited_ok s d /\ eol_ok s d.

Lemma replaceEOL_no_cr d : 13 ∉ replaceEOL d [10].
Proof.
  induction d as [|s IH|c s Hcr IH] using text_ind; [apply not_elem_of_nil|..].
  - simpl. rewrite not_elem_of_cons. split; [done|exact IH].
  - simpl. destruct (Z.eqb_spec c 13) as [->|Hc].
    + destruct s as [|e s]; [simpl; rewrite not_elem_of_cons; split; [done|apply not_elem_of_nil]|].
      destruct (Z.eqb_spec e 10) as [->|]; [by destruct (Hcr eq_refl s)|]. simpl. rewrite not_elem_of_cons. split; [done|exact IH].
    + destruct (c =? 10); simpl; rewrite not_elem_of_cons; split; done.
Qed.

Lemma eol_safe s d : eol_ok s d -> safe s d.
Proof.
  intros [_ Hn]. unfold safe, checks. destruct (EOLNormalized_ s); [|by left]. simpl. specialize (Hn eq_refl).
  destruct (bool_decide_reflect (EOL_ s = [10])) as [E|]; [|by left]. right. rewrite E in Hn. unfold normalized in Hn.
  rewrite <- Hn. apply replaceEOL_no_cr.
Qed.

Lemma wf_weaken F F' s its : F ⊆ F' -> wf F' s its -> wf F s its.
Proof. intros HF [Ht Hok]. split; [by eapply piece_tree_weaken|done]. Qed.

(** The end of every edit. *)
Lemma edit_done F s d F' its :
  wf F' s its -> good its -> doc its = d -> F ⊆ F' -> cache_near F' its s -> (lastVisitedLine_ s).1 = 0 -> eol_ok s d ->
  wp PT.computeBufferMetadata s (fun _ s' => represents F s' d /\ EOL_ s' = EOL_ s /\ EOLNormalized_ s' = EOLNormalized_ s /\ buffers_ s' = buffers_ s).
Proof.
  intros Hs Hg Hd HF Hc Hv He. eapply wp_computeBufferMetadata; [exact Hs|exact Hg|exact Hc|].
  intros c s' Hc'. unfold s' in *. split; [|done]. exists its. split; [by eapply wf_weaken|]. split; [done|].
  split; [done|]. cbn [lineCnt_ length_ with_cache with_counts]. rewrite Hd. split; [done|]. split; [done|]. split; [done|].
  split; [left; exact Hv|exact He].
Qed.
