(* ===== verification/PtInsert.v ===== *)
(** * Insertion into a piece tree

    [insert] in its four cases: at the end of the piece that ends the change buffer, before,
    inside and after a node, and into an empty tree; [nodeAt] and the search cache; the
    invariant of a piece tree that stands for a document, [represents]. *)

From S2P Require Import Prelude Length Store RbTree RbRep RbMeta RbInsert RbWalk RbDelete PtBuffer PtSpan PieceTree PtState PtEdit PtSearch.

#[local] Open Scope js_scope.
#[local] Arguments Z.eqb : simpl never.
#[local] Arguments Z.ltb : simpl never.
#[local] Arguments Z.gtb : simpl never.
#[local] Arguments Z.leb : simpl never.
#[local] Arguments Z.add : simpl never.
#[local] Arguments Z.sub : simpl never.
#[local] Hint Resolve elem_here : core.

Implicit Types (its xs ys zs : list item) (ps : list (Piece * list Z)) (F : gmap ptr TreeNode) (s : PieceTreeBase) (x : ptr).

(** ** Inside a node *)

(** A text with a CR or a LF has a line break. *)
Lemma breaks_elem (str : list Z) k c : str.[k] = Some c -> c = 10 \/ c = 13 -> 0 < breaks str.
Proof.
  assert (Hends : forall k c, str.[k] = Some c -> ends c (str.[k + 1]) = true -> 0 < breaks str).
  { clear. intros k c Hk He. pose proof (at_lt _ _ _ Hk). pose proof (line_of_step _ _ _ Hk) as Hs. rewrite He in Hs.
    pose proof (line_of_nonneg str k). pose proof (line_of_le str (k + 1) ltac:(lia)). lia. }
  intros Hk [-> | ->]; [by apply (Hends _ _ Hk)|]. destruct (ends 13 (str.[k + 1])) eqn:He; [by apply (Hends _ _ Hk)|].
  destruct (str.[k + 1]) as [d|] eqn:Ed; [|done]. unfold ends in He. simpl in He. destruct (Z.eqb_spec d 10) as [-> |]; [|done].
  by apply (Hends _ _ Ed).
Qed.

(** A code unit the code reads in a piece; a piece without line breaks is not read. *)
Lemma wp_char_of F s its x p (str : list Z) o (c : bool) ch :
  wf F s its -> (x, (p, str)) ∈ its -> 0 <= o < zlen str -> ch = 10 \/ ch = 13 ->
  wp (if c then PT.nodeCharCodeAt x o else mret None) s (fun h s' => s' = s /\ is_char h ch = c && is_char (str.[o]) ch).
Proof.
  intros Hs Hin Ho Hch. destruct c; [|by apply wp_ret]. eapply wp_nodeCharCodeAt; [exact Hs|exact Hin|done|]. split; [done|]. simpl.
  destruct (Z.ltb_spec (breaks str) 1) as [Hb|]; [|done]. destruct (str.[o]) as [d|] eqn:Ed; [|done]. simpl.
  destruct (Z.eqb_spec d ch) as [-> |]; [|done]. pose proof (breaks_elem _ _ _ Ed Hch). lia.
Qed.

(** The LF at the head of the right part is moved to the end of [v] when [v] ends with a CR. *)
Lemma wp_right_LF s q (right : list Z) (v : list Z) (lf : bool) :
  has_text (buffers_ s) q right -> right <> [] -> lf = torn v right ->
  wp (if lf then p ← on_buffers (fun bufs => PT.drop_LF bufs q); mret (p, v ++ [10]) else mret (q, v)) s
    (fun r s' => s' = s /\ exists right', has_text (buffers_ s) r.1 right' /\ bufferIndex r.1 = bufferIndex q /\ end_ r.1 = end_ q /\
       r.2 ++ right' = v ++ right /\ r.2 = v ++ (if lf then [10] else []) /\ forall d, torn r.2 (right' ++ d) = false).
Proof.
  intros Hq Hne ->. destruct (torn v right) eqn:Et.
  - unfold torn in Et. apply andb_prop in Et as [Ev El]. change (is_char (nxt right None) 10) with (starts_LF right) in El.
    apply starts_LF_inv in El as [right' ->]. destruct (drop_LF_ok _ _ _ Hq) as (c & n & Hn & _ & -> & Hq').
    pt_step. eapply wp_on_buffers; [unfold PT.drop_LF; rewrite Hn; reflexivity|]. pt_step. split; [done|]. exists right'.
    cbn [fst snd bufferIndex end_]. split_and!; try done; [by rewrite <- app_assoc|]. intros d. unfold torn, ends_cr. by rewrite last_snoc.
  - pt_step. split; [done|]. exists right. cbn [fst snd]. rewrite app_nil_r. split_and!; try done. intros d. by rewrite torn_app_r.
Qed.

(** The node keeps the text before the insertion; a CR at its end is moved to the start of
    [v] when [v] starts with a LF. *)
Lemma wp_cut_left F s xs x p (str : list Z) ys rem c (v : list Z) (cr : bool) :
  wf F s (xs ++ (x, (p, str)) :: ys) -> 0 < rem < zlen str -> cut s p str rem c -> cr = torn (take (Z.to_nat rem) str) v ->
  wp (if cr then
        previousPos ← on_buffers (fun b => positionInBuffer b p (rem - 1));
        PT.deleteNodeTail x previousPos;;
        piece ← npiece x;
        mret ([13] ++ v, if length piece =? 0 then [x] else [])
      else PT.deleteNodeTail x c;; mret (v, [])) s
    (fun r s' => exists t p' left', s' = with_tree t s /\ wf F s' (xs ++ (x, (p', left')) :: ys) /\ tip (lastChangeBufferPos_ s) p' = false /\
       left' ++ r.1 = take (Z.to_nat rem) str ++ v /\ r.1 = (if cr then [13] else []) ++ v /\ torn left' r.1 = false /\
       r.2 = (if zlen left' =? 0 then [x] else [])).
Proof.
  intros Hs Hrem Hcut ->. set (left := take (Z.to_nat rem) str). assert (Hzl : zlen left = rem) by (apply zlen_take; lia).
  destruct (torn left v) eqn:Et.
  - unfold torn in Et. apply andb_prop in Et as [(left' & El)%ends_cr_inv Ev].
    assert (Hl' : take (Z.to_nat (rem - 1)) str = left').
    { replace (Z.to_nat (rem - 1)) with (Nat.min (Z.to_nat (rem - 1)) (Z.to_nat rem)) by lia. rewrite <- take_take. fold left. rewrite El.
      apply take_app_length'. rewrite El, zlen_app in Hzl. change (zlen [13]) with 1 in Hzl. unfold zlen in Hzl. lia. }
    pt_step. eapply wp_position; [exact Hs|apply elem_here|lia|]. intros c' Hcut'. pt_step.
    eapply wp_deleteNodeTail; [exact Hs| |exact Hcut'|]; [lia|]. intros t p' Hs' Htip. rewrite Hl' in Hs'. pt_step. eapply wp_piece; [exact Hs'|].
    pt_step. exists t, p', left'. cbn [fst snd]. pose proof (wf_text _ _ _ _ _ _ _ Hs') as [_ [Hlen _]]. rewrite Hlen.
    split_and!; try done; [apply Htip; lia|rewrite El; by rewrite <- app_assoc|unfold torn; simpl; by rewrite andb_false_r].
  - pt_step. eapply wp_deleteNodeTail; [exact Hs| |exact Hcut|]; [lia|]. intros t p' Hs' Htip. fold left in Hs'. pt_step. exists t, p', left.
    cbn [fst snd app]. split_and!; try done; [apply Htip; lia|]. destruct (Z.eqb_spec (zlen left) 0); [lia|done].
Qed.

(** The new nodes are put between the two parts; the left part may be empty, and the right. *)
Lemma insert_middle_rest F s xs x p (left : list Z) ys q (right v : list Z) :
  wf F s (xs ++ (x, (p, left)) :: ys) -> text_ok s ((q, right) :: (xs ++ (x, (p, left)) :: ys).*2) -> good xs -> good ys -> v <> [] ->
  torn (doc xs) (left ++ v) = false -> torn left v = false -> (forall d, torn v (right ++ d) = false) -> torn right (doc ys) = false ->
  blen s + zlen v + 1 < max_buffer ->
  wp (newPieces ← PT.createNewPieces v;
      _ ← (if length q >? 0 then PT.rbInsertRight x q else mret x);
      _ ← PT.insert_all_right x newPieces;
      PT.deleteNodes (if zlen left =? 0 then [x] else [])) s
    (fun _ s' => exists F' its', edited F s (doc xs ++ left ++ v ++ right ++ doc ys) (zlen v + 1) F' its' s' /\ loc F' its' x (doc xs)).
Proof.
  intros Hs Hok Hgx Hgy Hv Htx Htl Htv Htr Hlen.
  pt_step. apply (wp_createNewPieces s _ v _ Hok); [done|done|]. intros news s1 Hok1 Hnew Hst1 Htree1 Hb1 _.
  assert (Hs1 : wf F s1 (xs ++ (x, (p, left)) :: ys)).
  { split; [rewrite Htree1; apply Hs|]. by apply text_ok_app_r, text_ok_tail in Hok1. }
  assert (Hlq : length q = zlen right) by (destruct Hok as (_ & _ & [[_ [Hl _]] _]%Forall_cons & _); exact Hl).
  pt_step. apply (wp_mono _ _ (fun _ s2 => exists t zs, s2 = with_tree t s1 /\ wf F s2 (xs ++ (x, (p, left)) :: zs ++ ys) /\
    text_ok s2 (news ++ (xs ++ (x, (p, left)) :: zs ++ ys).*2) /\ good zs /\ doc zs = right)).
  { rewrite Hlq, Z.gtb_ltb. destruct (Z.ltb_spec 0 (zlen right)) as [Hpos|Hz].
    - eapply (wp_insert_right F s1 xs x (p, left) ys q right); [exact Hs1|by apply text_ok_app_r in Hok1|].
      intros t z Hs2. exists t, [(z, (q, right))]. cbn [app]. rewrite text_ok_tree. split_and!; [done|done| | |].
      + eapply text_ok_perm; [|exact Hok1]. rewrite !fmap_app. cbn [fmap list_fmap snd]. solve_Permutation.
      + apply good_one. intros ->. done.
      + rewrite doc_cons, doc_nil. by rewrite app_nil_r.
    - assert (right = []) as -> by (destruct right; [done|]; rewrite zlen_cons in Hz; pose proof (zlen_nonneg right); lia).
      pt_step. exists (tree s1), []. rewrite with_tree_id. cbn [app]. split_and!; [done|done| |apply good_nil|done].
      apply (text_ok_tail _ (q, [])). eapply text_ok_perm; [|exact Hok1]. solve_Permutation. }
  intros _ s2 (t2 & rs & -> & Hs2 & Hok2 & Hgr & Hdr). pt_step.
  apply (wp_insert_all_right F _ xs x (p, left) (rs ++ ys) news _ Hs2 Hok2). intros _ t3 zs Hs3 Ezs.
  destruct (good_news zs _ v Ezs Hnew) as [Hgz Hdz]. change (with_tree t3 (with_tree t2 s1)) with (with_tree t3 s1) in *.
  rewrite <- (app_nil_r (if zlen left =? 0 then [x] else [])). eapply (wp_delete_keep F _ xs); [exact Hs3|done|].
  intros t5 F5 Hs5 HF5 Hg5. cbn [PT.deleteNodes]. pt_step. exists F5, (xs ++ keep x p left ++ zs ++ rs ++ ys). split; [split_and!|].
  - exact Hs5.
  - apply good_app. rewrite !doc_app, doc_keep, Hdz, Hdr. split; [done|]. split; [|by rewrite app_assoc, torn_app_r by (by destruct left, v)].
    apply good_app. rewrite !doc_app, doc_keep, Hdz, Hdr. split; [apply good_keep|]. split; [|by rewrite torn_app_r].
    apply good_app. rewrite !doc_app, Hdz, Hdr. split; [done|]. split; [|done]. apply good_app. by rewrite Hdr.
  - rewrite !doc_app, doc_keep, Hdz, Hdr. done.
  - done.
  - etrans; [|exact (text_step_tree s1 t5)]. exact Hst1.
  - change (blen s1 <= blen s + (zlen v + 1)). lia.
  - destruct left as [|c0 l0]; [left; by apply Hg5|]. right. eexists xs, _, _. split; [reflexivity|done].
Qed.

Lemma insert_middle_edits F s xs x p (str : list Z) ys rem pos (v : list Z) :
  wf F s (xs ++ (x, (p, str)) :: ys) -> good (xs ++ (x, (p, str)) :: ys) -> v <> [] -> 0 < rem < zlen str -> cut s p str rem pos ->
  safe s (doc xs ++ take (Z.to_nat rem) str ++ v ++ drop (Z.to_nat rem) str ++ doc ys) -> blen s + zlen v + 5 < max_buffer ->
  wp (PT.insert_middle v x rem pos) s (fun _ s' => exists F' its',
    edited F s (doc xs ++ take (Z.to_nat rem) str ++ v ++ drop (Z.to_nat rem) str ++ doc ys) (zlen v + 5) F' its' s' /\ loc F' its' x (doc xs)).
Proof.
  set (L := take (Z.to_nat rem) str). set (R := drop (Z.to_nat rem) str).
  intros Hs Hg Hv Hrem Hcut Hsafe Hlen. apply good_app in Hg as (Hgx & (Hne & Hty & Hgy)%good_cons & Htx). rewrite doc_cons, torn_app_r in Htx by done.
  assert (HzL : zlen L = rem) by (apply zlen_take; lia). assert (HzR : zlen R = zlen str - rem) by (apply zlen_drop; lia).
  assert (HneL : L <> []) by (intros E; rewrite E in HzL; change (zlen (@nil Z)) with 0 in HzL; lia).
  assert (HneR : R <> []) by (intros E; rewrite E in HzR; change (zlen (@nil Z)) with 0 in HzR; lia).
  assert (HLR : str = L ++ R) by (symmetry; apply take_drop).
  assert (Hsafe' : checks s = true \/ ((13 ∉ L) /\ (13 ∉ v))) by (unfold safe in Hsafe; rewrite !not_elem_of_app in Hsafe; tauto).
  unfold PT.insert_middle. pt_step. eapply wp_piece; [exact Hs|]. pose proof Hcut as [Hspl Hspr].
  destruct (span_lf _ _ _ _ _ Hspr) as (n & Hn & Hn'). destruct (span_offsets _ _ _ _ _ Hspr) as (oa & Hoa & Hob).
  pt_step. eapply wp_on_buffers; [exact Hn|]. pt_step. eapply wp_on_buffers; [exact Hob|]. pt_step. eapply wp_on_buffers; [exact Hoa|].
  cbv zeta. set (q := mkPiece _ _ _ _ _). fold R in Hspr.
  assert (Hq : has_text (buffers_ s) q R) by (split; [exact Hspr|split; [cbn [length q]; fold R; lia|done]]).
  pt_step. apply wp_checks. pt_step.
  eapply wp_mono; [by apply (wp_char_of F s _ x p str rem (checks s && PT.endWithCR_str v) 10 Hs); [apply elem_here|lia|left]|].
  intros h1 s1 [-> Hh1]. assert (Eh1 : is_char h1 10 = torn v R).
  { rewrite Hh1, endWithCR_str_eq. unfold torn. unfold R. rewrite nxt_drop by lia. destruct Hsafe' as [-> | [_ Hn13]]; [done|].
    destruct (checks s); [done|]. pose proof (torn_no_cr v R Hn13) as Et. unfold torn, R in Et. rewrite nxt_drop in Et by lia. done. }
  rewrite Eh1. pt_step. eapply wp_mono; [exact (wp_right_LF s q R v _ Hq HneR eq_refl)|].
  intros [q' v1] s1 (-> & R' & Hq' & Hbi & Hend & Hv1R & Hv1 & Htv). cbn [fst snd] in *.
  assert (Hv1ne : v1 <> []) by (rewrite Hv1; by destruct v).
  assert (Hz1 : zlen v1 <= zlen v + 1) by (rewrite Hv1, zlen_app; destruct (torn v R); [change (zlen [10]) with 1|change (zlen (@nil Z)) with 0]; lia).
  pt_step. apply wp_checks. pt_step.
  eapply wp_mono; [by apply (wp_char_of F s _ x p str (rem - 1) (checks s && PT.startWithLF_str v1) 13 Hs); [apply elem_here|lia|right]|].
  intros h2 s1 [-> Hh2]. assert (Eh2 : is_char h2 13 = torn L v1).
  { assert (Hlast : ends_cr L = is_char (str.[rem - 1]) 13) by (unfold ends_cr; rewrite <- at_zlen_last, HzL; unfold L; by rewrite at_take by lia).
    rewrite Hh2, startWithLF_str_eq, <- Hlast. unfold torn. change (is_char (nxt v1 None) 10) with (starts_LF v1).
    destruct Hsafe' as [-> | [Hn13 _]]; [apply andb_comm|]. pose proof (torn_no_cr L v1 Hn13) as Et. unfold torn in Et.
    change (is_char (nxt v1 None) 10) with (starts_LF v1) in Et. destruct (checks s); [by rewrite andb_comm|by rewrite Et]. }
  rewrite Eh2. pt_step. eapply wp_mono; [exact (wp_cut_left F s xs x p str ys rem pos v1 _ Hs Hrem Hcut eq_refl)|].
  intros [v2 del] s1 (t & p' & L' & -> & Hs1 & Htip & HLv & Hv2 & HtL & Hdel). cbn [fst snd] in *. subst del. fold L in HLv, Hv2.
  assert (Hz2 : zlen v2 <= zlen v + 2) by (rewrite Hv2, zlen_app; destruct (torn L v1); [change (zlen [13]) with 1|change (zlen (@nil Z)) with 0]; lia).
  assert (Hok1 : text_ok (with_tree t s) ((q', R') :: (xs ++ (x, (p', L')) :: ys).*2)).
  { rewrite text_ok_tree. pose proof Hs as [_ Hok]. rewrite fmap_app in Hok.
    pose proof (text_ok_replace s (xs.*2) (p, str) (ys.*2) [(p', L'); (q', R')] Hok) as H. rewrite fmap_app. cbn [fmap list_fmap snd].
    eapply text_ok_perm; [|apply H]; [solve_Permutation| |].
    - constructor; [exact (wf_text _ _ _ _ _ _ _ Hs1)|]. by constructor.
    - cbn [tips fst]. rewrite Htip. unfold tip. rewrite Hbi, Hend. cbn [bufferIndex end_ q]. lia. }
  assert (Hdoc : doc xs ++ L' ++ v2 ++ R' ++ doc ys = doc xs ++ L ++ v ++ R ++ doc ys).
  { f_equal. rewrite (app_assoc L'), HLv, <- app_assoc. f_equal. rewrite !app_assoc. by rewrite Hv1R. }
  eapply wp_mono; [apply (insert_middle_rest F _ xs x p' L' ys q' R' v2 Hs1 Hok1 Hgx Hgy)|].
  - rewrite Hv2. by destruct (torn L v1).
  - rewrite HLv, torn_app_r by done. rewrite HLR, torn_app_r in Htx by done. done.
  - done.
  - intros d. destruct (torn L v1) eqn:Et; rewrite Hv2; [rewrite torn_app_l by done|]; apply Htv.
  - destruct R' as [|c0 l0] eqn:ER; [done|]. rewrite <- ER in *. assert (HR : R = R' \/ R = 10 :: R').
    { rewrite Hv1 in Hv1R. rewrite <- app_assoc in Hv1R. apply app_inv_head in Hv1R. destruct (torn v R); [right|left]; by rewrite <- Hv1R. }
    rewrite HLR, torn_app_l in Hty by done. destruct HR as [-> | HR]; [done|]. rewrite HR in Hty. rewrite <- (torn_app_l [10] R'); [done|by rewrite ER].
  - change (blen (with_tree t s)) with (blen s). lia.
  - intros [] s' (F' & its' & He & Hl). exists F', its'. split; [|done]. rewrite Hdoc in He.
    eapply edited_weaken; [exact He|apply text_step_tree|change (blen (with_tree t s)) with (blen s); lia].
Qed.

(** ** Insertion *)

Lemma edited_facts F s d n F' its' s' : edited F s d n F' its' s' ->
  searchCache_ s' = searchCache_ s /\ lastVisitedLine_ s' = lastVisitedLine_ s /\ EOL_ s' = EOL_ s /\ EOLNormalized_ s' = EOLNormalized_ s.
Proof. intros (_ & _ & _ & _ & Hst & _). rewrite (proj1 Hst). done. Qed.

(** The document is [d] afterwards, the line ending is the same, the change buffer did not
    grow by more than [n], and the texts in the buffers are still there. *)
Definition becomes F s (d : list Z) (n : Z) s' : Prop :=
  represents F s' d /\ EOL_ s' = EOL_ s /\ EOLNormalized_ s' = EOLNormalized_ s /\ blen s' <= blen s + n /\
  keeps (buffers_ s) (buffers_ s').

Lemma blen_eq s s' : buffers_ s' = buffers_ s -> blen s' = blen s.
Proof. unfold blen. by intros ->. Qed.

(** An edit after which the entry of the cache is right or of a node that is gone. *)
Lemma finish_edit F s d n F' its' s' e D :
  edited F s d n F' its' s' -> loc F' its' (ce_node e) D -> entry_at e D -> searchCache_ s = [e] -> (lastVisitedLine_ s).1 = 0 -> eol_ok s d ->
  wp PT.computeBufferMetadata s' (fun _ => becomes F s d n).
Proof.
  intros He Hl Hat Hc Hv Heol. destruct (edited_facts _ _ _ _ _ _ _ He) as (E1 & E2 & E3 & E4). destruct He as (Hw & Hg & Hd & HF & Hst & Hb).
  eapply wp_mono; [eapply (edit_done F s' d F' its'); try done|].
  - split; rewrite E1, Hc; [|done]. constructor; [|done]. by exists D.
  - by rewrite E2.
  - unfold eol_ok. by rewrite E3, E4.
  - intros _ s'' (H1 & H2 & H3 & H4). split_and!; [done|congruence|congruence|by rewrite (blen_eq _ _ H4)|rewrite H4; apply Hst].
Qed.

(** An edit that moved the node of the cache. *)
Lemma finish_edit_validate F s d n F' its' s' e off D :
  edited F s d n F' its' s' -> loc F' its' (ce_node e) D -> off <= ce_offset e -> searchCache_ s = [e] -> (lastVisitedLine_ s).1 = 0 -> eol_ok s d ->
  wp (SC.validate off) s' (fun _ s'' => wp PT.computeBufferMetadata s'' (fun _ => becomes F s d n)).
Proof.
  intros He Hl Hoff Hc Hv Heol. destruct (edited_facts _ _ _ _ _ _ _ He) as (E1 & E2 & E3 & E4). destruct He as (Hw & Hg & Hd & HF & Hst & Hb).
  eapply wp_validate; [exact Hw|rewrite E1, Hc; constructor; [by exists D|done]|]. rewrite E1, Hc. intros l Hsub Hlt.
  assert (l = []) as ->.
  { destruct l as [|e0 l]; [done|]. apply Forall_cons in Hlt as [[Hlt _] _].
    assert (Hin : e0 ∈ [e]) by (eapply elem_of_submseteq; [|exact Hsub]; left). apply list_elem_of_singleton in Hin as ->. lia. }
  eapply wp_mono; [eapply (edit_done F (with_cache [] s') d F' its'); try done|].
  - simpl. by rewrite E2.
  - unfold eol_ok. simpl. by rewrite E3, E4.
  - intros _ s'' (H1 & H2 & H3 & H4). cbn in H2, H3. split_and!; [done|congruence|congruence|by rewrite (blen_eq _ _ H4)|rewrite H4; apply Hst].
Qed.

(** The part of [insert] for a tree that is not empty. *)
Definition insert_at (offset : Z) (value : list Z) (pos : NodePosition) : P unit :=
  let node := np_node pos in
  let nso := nodeStartOffset pos in
  piece ← npiece node;
  insertPosInBuffer ← on_buffers (fun b => positionInBuffer b piece (remainder pos));
  s ← gets id;
  if (bufferIndex piece =? 0) && (line (end_ piece) =? line (lastChangeBufferPos_ s)) &&
     (column (end_ piece) =? column (lastChangeBufferPos_ s)) && (nso + length piece =? offset) &&
     (zlen value <? AverageBufferSize)
  then
    PT.appendToNode node value;;
    PT.computeBufferMetadata
  else
    (if nso =? offset then PT.insertContentToNodeLeft value node;; SC.validate offset
     else if nso + length piece >? offset then PT.insert_middle value node (remainder pos) insertPosInBuffer
     else PT.insertContentToNodeRight value node);;
    PT.computeBufferMetadata.

Lemma take_doc xs (d : list Z) : take (Z.to_nat (zlen (doc xs))) (doc xs ++ d) = doc xs /\ drop (Z.to_nat (zlen (doc xs))) (doc xs ++ d) = d.
Proof. unfold zlen. rewrite Nat2Z.id. split; [apply take_app_length|apply drop_app_length]. Qed.

Lemma split_doc xs (str d : list Z) r : 0 <= r <= zlen str ->
  take (Z.to_nat (zlen (doc xs) + r)) (doc xs ++ str ++ d) = doc xs ++ take (Z.to_nat r) str /\
  drop (Z.to_nat (zlen (doc xs) + r)) (doc xs ++ str ++ d) = drop (Z.to_nat r) str ++ d.
Proof.
  intros Hr. pose proof (zlen_nonneg (doc xs)). unfold zlen in *. replace (Z.to_nat (Z.of_nat (List.length (doc xs)) + r)) with (List.length (doc xs) + Z.to_nat r)%nat by lia.
  rewrite take_app_add, drop_app_add. rewrite take_app_le, drop_app_le by lia. done.
Qed.

Lemma wp_insert_at F s xs x p (str : list Z) ys e off (v : list Z) d n :
  wf F s (xs ++ (x, (p, str)) :: ys) -> good (xs ++ (x, (p, str)) :: ys) -> v <> [] -> 0 <= off - zlen (doc xs) <= zlen str ->
  searchCache_ s = [e] -> ce_node e = x -> entry_at e (doc xs) -> (lastVisitedLine_ s).1 = 0 ->
  d = take (Z.to_nat off) (doc (xs ++ (x, (p, str)) :: ys)) ++ v ++ drop (Z.to_nat off) (doc (xs ++ (x, (p, str)) :: ys)) ->
  eol_ok s d -> blen s + zlen v + 5 < max_buffer -> n = zlen v + 5 ->
  wp (insert_at off v (mkNodePos x (off - zlen (doc xs)) (zlen (doc xs)))) s (fun _ => becomes F s d n).
Proof.
  intros Hs Hg Hv Hrem Hc He Hat Hvis Hd Heol Hlen ->. pose proof (eol_safe _ _ Heol) as Hsafe.
  rewrite doc_app, doc_cons in Hd. replace off with (zlen (doc xs) + (off - zlen (doc xs))) in Hd at 1 2 by lia.
  destruct (split_doc xs str (doc ys) _ Hrem) as [Etk Edr]. rewrite Etk, Edr in Hd. clear Etk Edr. set (rem := off - zlen (doc xs)) in *.
  pose proof (proj1 (proj2 (wf_text _ _ _ _ _ _ _ Hs))) as Hlp.
  unfold insert_at. cbn [np_node nodeStartOffset remainder]. pt_step. eapply wp_piece; [exact Hs|].
  pt_step. eapply wp_position; [exact Hs|apply elem_here|done|]. intros pos Hcut. pt_step. pt_step. cbn [id]. rewrite Hlp.
  destruct (_ && (zlen v <? AverageBufferSize)) eqn:Etest.
  - apply andb_prop in Etest as [[[[Hi Hl]%andb_prop Hcol]%andb_prop Hend%Z.eqb_eq]%andb_prop _]. apply Z.eqb_eq in Hi, Hl, Hcol.
    assert (Htip : tip (lastChangeBufferPos_ s) p = true).
    { unfold tip. rewrite Hi. simpl. apply bool_decide_eq_true. destruct (end_ p), (lastChangeBufferPos_ s). simpl in *. congruence. }
    assert (rem = zlen str) as Erem by lia. rewrite Erem in Hd. unfold zlen in Hd at 1 2. rewrite Nat2Z.id, firstn_all, drop_all in Hd. simpl in Hd.
    rewrite <- app_assoc in Hd. rewrite Hd in Hsafe. pt_step. eapply wp_mono; [by apply (appendToNode_edits F s xs x p str ys v)|].
    intros [] s' (F' & its' & Hed & Hl'). rewrite <- Hd in Hed. eapply finish_edit; try done. by rewrite He.
  - destruct (Z.eqb_spec (zlen (doc xs)) off) as [E0|E0].
    + assert (rem = 0) as Erem by lia. rewrite Erem in Hd. change (Z.to_nat 0) with O in Hd. rewrite take_0, drop_0, app_nil_r in Hd. rewrite Hd in Hsafe.
      pt_step. pt_step. eapply wp_mono; [by apply (insertContentToNodeLeft_edits F s xs x p str ys v)|].
      intros [] s' (F' & its' & Hed & D & Hl'). rewrite <- Hd in Hed. eapply finish_edit_validate; try done; [by rewrite He|]. destruct Hat as [-> _]. lia.
    + rewrite Z.gtb_ltb. destruct (Z.ltb_spec off (zlen (doc xs) + zlen str)).
      * rewrite <- app_assoc in Hd. rewrite Hd in Hsafe. pt_step. eapply wp_mono; [apply (insert_middle_edits F s xs x p str ys rem pos v); try done; lia|].
        intros [] s' (F' & its' & Hed & Hl'). rewrite <- Hd in Hed. eapply finish_edit; try done. by rewrite He.
      * assert (rem = zlen str) as Erem by lia. rewrite Erem in Hd. unfold zlen in Hd at 1 2. rewrite Nat2Z.id, firstn_all, drop_all in Hd. simpl in Hd.
        assert (Hd2 : d = doc (xs ++ [(x, (p, str))]) ++ v ++ doc ys) by (rewrite Hd, doc_app, doc_cons, doc_nil, app_nil_r; by rewrite <- !app_assoc).
        rewrite Hd2 in Hsafe. pt_step. eapply wp_mono; [by apply (insertContentToNodeRight_edits F s xs x (p, str) ys v)|].
        intros [] s' (F' & its' & Hed & Hl'). rewrite <- Hd2 in Hed. eapply finish_edit; try done. by rewrite He.
Qed.

Lemma cache_ok_nil s : cache_ok [] s -> searchCache_ s = [].
Proof.
  intros [Hc _]. destruct (searchCache_ s) as [|e l]; [done|]. apply Forall_cons in Hc as [(xs & pt & ys & E & _) _]. by destruct xs.
Qed.

(** The part of [insert] for an empty tree. *)
Lemma wp_insert_empty F s (v : list Z) :
  wf F s [] -> searchCache_ s = [] -> v <> [] -> (lastVisitedLine_ s).1 = 0 -> eol_ok s v -> blen s + zlen v + 5 < max_buffer ->
  wp (pieces ← PT.createNewPieces v; p ← non_null (pieces.[0]); node ← PT.rbInsertLeft null p;
      _ ← PT.insert_all_right node (drop 1 pieces); PT.computeBufferMetadata) s (fun _ => becomes F s v (zlen v + 5)).
Proof.
  intros Hs Hc Hv Hvis Heol Hlen. pt_step. apply (wp_createNewPieces s _ v _ (proj2 Hs)); [done|lia|].
  intros news s1 Hok1 Hnew Hst1 Htree1 Hb1 _. destruct news as [|[p0 str0] news]; [by destruct Hnew as (_ & _ & ?)|].
  cbn [fmap list_fmap fst]. pt_step. change ((p0 :: news.*1).[0]) with (Some p0). apply wp_ret.
  assert (Hs1 : wf F s1 []) by (split; [rewrite Htree1; apply Hs|by apply text_ok_app_r in Hok1]). cbn [fmap list_fmap] in Hok1.
  rewrite app_nil_r in Hok1. pt_step. eapply (wp_insert_first F s1 p0 str0); [exact Hs1|by apply (text_ok_app_l _ [_] news)|].
  intros t2 z Hs2. change (drop 1 (p0 :: news.*1)) with (news.*1).
  pt_step. apply (wp_insert_all_right F _ [] z (p0, str0) [] news _ Hs2).
  { rewrite text_ok_tree. eapply text_ok_perm; [|exact Hok1]. cbn [app fmap list_fmap snd]. solve_Permutation. }
  intros _ t3 zs Hs3 Ezs. cbn [app] in Hs3. rewrite app_nil_r in Hs3. change (with_tree t3 (with_tree t2 s1)) with (with_tree t3 s1) in *.
  destruct (good_news ((z, (p0, str0)) :: zs) _ v (f_equal (cons _) Ezs) Hnew) as [Hgz Hdz].
  assert (Hf : searchCache_ s1 = [] /\ lastVisitedLine_ s1 = lastVisitedLine_ s /\ EOL_ s1 = EOL_ s /\ EOLNormalized_ s1 = EOLNormalized_ s) by (rewrite (proj1 Hst1); done).
  destruct Hf as (E1 & E2 & E3 & E4).
  eapply wp_mono; [eapply (edit_done F _ v F); [exact Hs3|done|done|done|..]|].
  - split; cbn [searchCache_ with_tree]; rewrite E1; [constructor|done].
  - simpl. by rewrite E2.
  - unfold eol_ok. simpl. by rewrite E3, E4.
  - intros _ s' (H1 & H2 & H3 & H4). cbn in H2, H3. split_and!; [done|congruence|congruence|rewrite (blen_eq _ _ H4); change (blen (with_tree t3 s1)) with (blen s1); lia|rewrite H4; apply Hst1].
Qed.

(** The document that [insert] and [delete] make. *)
Definition inserted_text (d : list Z) (off : Z) (v : list Z) : list Z := take (Z.to_nat off) d ++ v ++ drop (Z.to_nat off) d.

Lemma wp_insert F s d off v n :
  represents F s d -> 0 <= off <= zlen d -> v <> [] -> blen s + zlen v + 5 < max_buffer ->
  (EOLNormalized_ s && n = true -> normalized (EOL_ s) (inserted_text d off v)) ->
  wp (PT.insert off v n) s (fun _ s' => represents F s' (inserted_text d off v) /\ EOL_ s' = EOL_ s /\
    EOLNormalized_ s' = EOLNormalized_ s && n /\ blen s' <= blen s + zlen v + 5 /\ keeps (buffers_ s) (buffers_ s')).
Proof.
  intros (its & Hs & Hg & Hd & _ & _ & Hc & _ & [Heol _]) Hoff Hv Hlen Hnorm. unfold PT.insert. do 4 pt_step.
  set (s1 := with_visited (0, []) (with_EOLNormalized (EOLNormalized_ s && n) s)).
  assert (Hs1 : wf F s1 its) by done. assert (Heol1 : eol_ok s1 (inserted_text d off v)) by (split; done).
  apply (wp_mono _ _ (fun _ => becomes F s1 (inserted_text d off v) (zlen v + 5))).
  2:{ intros _ s' (H1 & H2 & H3 & H4 & H5). cbn in H2, H3. change (blen s1) with (blen s) in H4. split_and!; [done..|lia|done]. }
  pt_step. eapply wp_root; [exact Hs1|]. intros r Hr. rewrite Hr. destruct (bool_decide_reflect (its = [])) as [-> |Hne]; simpl negb; cbv iota.
  - rewrite <- Hd in *. assert (Ei : inserted_text (doc []) off v = v) by (unfold inserted_text; rewrite doc_nil, take_nil, drop_nil; apply app_nil_r).
    rewrite Ei in *. apply (wp_insert_empty F s1 v); try done. by apply cache_ok_nil.
  - pt_step. eapply wp_mono; [apply (wp_nodeAt F s1 its off Hs1 Hg Hc); [by rewrite Hd|done]|].
    intros pos s2 (xs & x & p & str & ys & e & -> & Hrem & -> & -> & He & Hat). pt_step. apply wp_ret.
    apply (wp_insert_at F (with_cache [e] s1) xs x p str ys e off v _ (zlen v + 5)); try done. unfold inserted_text. by rewrite <- Hd.
Qed.

(** C1: Insertion into the document.  In a piece tree that stands for a document, in a store
    beside any other objects, [insert] of a text that is not empty at an offset of the
    document does not throw, whichever node it meets; afterwards the piece tree stands for
    the document with the text inserted.  That includes the counts of lines and code units,
    the line feeds and lengths cached in every node, that no CRLF is torn between two nodes,
    the line starts of the buffers, and the search cache.  The line ending may only be called
    normalized when it is, and the change buffer must stay below the 32-bit range. *)
Theorem insert_correct F s d off v n :
  represents F s d -> 0 <= off <= zlen d -> v <> [] -> blen s + zlen v + 5 < max_buffer ->
  (EOLNormalized_ s && n = true -> normalized (EOL_ s) (inserted_text d off v)) ->
  wp (PT.insert off v n) s (fun _ s' => represents F s' (inserted_text d off v) /\ EOL_ s' = EOL_ s /\
    EOLNormalized_ s' = EOLNormalized_ s && n /\ blen s' <= blen s + zlen v + 5).
Proof. intros. eapply wp_mono; [by apply (wp_insert F s d off v n)|]. intros _ s' (H5 & H6 & H7 & H8 & _). done. Qed.

(** An empty piece tree, and one with a document of two lines. *)
Definition empty_tree : PieceTreeBase :=
  mkPT empty_store [mkBuffer [] [0]] 1 0 [10] true (mkCursor 0 0) [] (0, []).

Lemma empty_represents : represents ∅ empty_tree [].
Proof.
  exists []. split; [split; [exact empty_piece_tree|]|].
  - split; [exists (mkBuffer [] [0]); split; [done|apply cursor_start]|]. split; [by constructor; [split|]|]. split; [constructor|cbn; lia].
  - split; [apply good_nil|]. do 3 (split; [done|]). split; [by split|]. split; [by left|by split; [left|]].
Qed.

Definition sample_text : list Z := [97; 10; 98].

Lemma insert_correct_witness : exists s', PT.insert 0 sample_text true empty_tree = Ok (tt, s') /\ represents ∅ s' sample_text.
Proof.
  pose proof (insert_correct ∅ empty_tree [] 0 sample_text true empty_represents ltac:(by vm_compute) ltac:(done) ltac:(by vm_compute) ltac:(done)) as H.
  apply wp_run in H as ([] & s' & E & Hr & _). exists s'. split; [exact E|exact Hr].
Defined.
