(* ===== verification/PtDelete.v ===== *)
(** * Deletion from a piece tree

    [delete] in its cases: a whole node, the head, the tail or the inside of a node, and a
    part that lies across several nodes. *)

From S2P Require Import Prelude Length Store RbTree RbRep RbMeta RbInsert RbWalk RbDelete PtBuffer PtSpan PieceTree PtState PtEdit PtSearch PtInsert.

#[local] Open Scope js_scope.
#[local] Arguments Z.eqb : simpl never.
#[local] Arguments Z.ltb : simpl never.
#[local] Arguments Z.gtb : simpl never.
#[local] Arguments Z.leb : simpl never.
#[local] Arguments Z.add : simpl never.
#[local] Arguments Z.sub : simpl never.
#[local] Hint Resolve elem_here : core.

Implicit Types (its xs ys zs ms : list item) (F : gmap ptr TreeNode) (s : PieceTreeBase) (x : ptr).

(** ** Nodes *)

Lemma wf_NoDup F s its : wf F s its -> NoDup (its.*1).
Proof. intros [Ht _]. apply piece_tree_NoDup in Ht. rewrite nodes_fst in Ht. by apply NoDup_cons in Ht as [_ ?]. Qed.

Lemma split_unique {A} (l1 l2 k1 k2 : list (ptr * A)) x a b :
  NoDup ((l1 ++ (x, a) :: l2).*1) -> l1 ++ (x, a) :: l2 = k1 ++ (x, b) :: k2 -> l1 = k1 /\ a = b /\ l2 = k2.
Proof.
  revert k1. induction l1 as [|[y c] l1 IH]; intros k1 Hn E; destruct k1 as [|[z e] k1]; simpl in *; injection E; intros; subst; auto.
  - apply NoDup_cons in Hn as [Hn _]. destruct Hn. rewrite fmap_app. apply elem_of_app. right. left.
  - apply NoDup_cons in Hn as [Hn _]. destruct Hn. rewrite fmap_app. apply elem_of_app. right. left.
  - apply NoDup_cons in Hn as [_ Hn]. by destruct (IH k1 Hn ltac:(done)) as (-> & -> & ->).
Qed.

(** The nodes from the one after [x] to the one before [y]. *)
Lemma wp_nodes_between F s ws ms y pt zs fuel (Q : list ptr -> PieceTreeBase -> Prop) :
  wf F s (ws ++ ms ++ (y, pt) :: zs) -> (List.length ms < fuel)%nat -> Q (ms.*1) s ->
  wp (PT.nodes_between fuel (first_node (ms ++ (y, pt) :: zs)) y) s Q.
Proof.
  revert ws fuel Q. induction ms as [|[m pm] ms IH]; intros ws fuel Q Hs Hf HQ; (destruct fuel as [|fuel]; [simpl in Hf; lia|]); cbn [PT.nodes_between app first_node fst].
  - rewrite Z.eqb_refl, orb_true_r. by pt_step.
  - assert (Hm : m <> SENTINEL) by (cbn [app] in Hs; by eapply wf_node_ne).
    assert (Hmy : m <> y).
    { apply wf_NoDup in Hs. rewrite !fmap_app in Hs. apply NoDup_app in Hs as (_ & _ & Hs). cbn [fmap list_fmap fst app] in Hs.
      apply NoDup_cons in Hs as [Hn _]. intros ->. apply Hn, elem_of_app. right. left. }
    destruct (Z.eqb_spec m SENTINEL); [done|]. destruct (Z.eqb_spec m y); [done|]. cbn [orb app] in *.
    pt_step. eapply wp_next_node; [exact Hs|]. rewrite app_snoc in Hs. pt_step. apply (IH (ws ++ [(m, pm)])); [done|simpl in Hf; lia|]. by pt_step.
Qed.

Lemma wp_delete_all F s xs ms ys (Q : unit -> PieceTreeBase -> Prop) :
  wf F s (xs ++ ms ++ ys) -> (forall t F', wf F' (with_tree t s) (xs ++ ys) -> F ⊆ F' -> Q tt (with_tree t s)) ->
  wp (PT.deleteNodes (ms.*1)) s Q.
Proof.
  revert F s Q. induction ms as [|[m pm] ms IH]; intros F s Q Hs HQ; cbn [fmap list_fmap fst PT.deleteNodes].
  - pt_step. rewrite <- (with_tree_id s). eapply HQ; [by rewrite with_tree_id|done].
  - pt_step. eapply wp_delete; [exact Hs|]. intros t F' Hs' HF _. eapply IH; [exact Hs'|]. intros t' F'' Hs'' HF''.
    change (with_tree t' (with_tree t s)) with (with_tree t' s) in *. eapply HQ; [exact Hs''|by etrans].
Qed.

(** The neighbours of a place, the first of which may be missing. *)
Lemma wp_validateFirst F s xs ys :
  wf F s (xs ++ ys) -> good xs -> good ys -> safe s (doc xs ++ doc ys) -> blen s + 3 < max_buffer ->
  wp (PT.validateCRLFWithPrevNode (first_node ys)) s (fun _ => mended F s xs (doc ys) []).
Proof.
  intros Hs Hx Hy Hsafe Hlen. destruct ys as [|[b [pb strb]] ys].
  - assert (Hm : mended F s xs (doc []) [] s).
    { exists F, xs. rewrite app_nil_r in *. rewrite doc_nil, app_nil_r. split_and!; try done. lia. }
    change (first_node []) with SENTINEL. unfold PT.validateCRLFWithPrevNode. pt_step. apply wp_checks. unfold PT.startWithLF.
    pt_step. destruct (checks s); [change (SENTINEL =? SENTINEL) with true; cbv iota|]; by repeat pt_step.
  - apply good_cons in Hy as (Hne & Ht & Hy). cbn [first_node fst]. rewrite doc_cons in *.
    eapply wp_mono; [apply (wp_validatePrev F s xs b pb strb ys Hs Hx Hne); [|done]|].
    { unfold safe in *. rewrite !not_elem_of_app in *. tauto. }
    intros [] s' Hm. by apply mended_all.
Qed.

(** ** Inside one node *)

Lemma mended_becomes F F0 s0 s xs (str : list Z) d n s' e D :
  mended F s xs str [] s' -> F0 ⊆ F -> d = doc xs ++ str -> searchCache_ s = [] \/ (searchCache_ s = [e] /\ loc F xs (ce_node e) D /\ entry_at e D) ->
  (lastVisitedLine_ s).1 = 0 -> eol_ok s d -> EOL_ s = EOL_ s0 -> EOLNormalized_ s = EOLNormalized_ s0 -> blen s + 3 <= blen s0 + n ->
  keeps (buffers_ s0) (buffers_ s) ->
  wp PT.computeBufferMetadata s' (fun _ => becomes F0 s0 d n).
Proof.
  intros (F' & mid & Hw & Hg & Hd & HF & Hloc & Hst & Hb) HF0 -> Hc Hv Heol E3 E4 Hn HB. rewrite app_nil_r in Hw.
  assert (Ef : searchCache_ s' = searchCache_ s /\ lastVisitedLine_ s' = lastVisitedLine_ s /\ EOL_ s' = EOL_ s /\ EOLNormalized_ s' = EOLNormalized_ s) by (rewrite (proj1 Hst); done).
  destruct Ef as (E1 & E2 & E5 & E6).
  eapply wp_mono; [eapply (edit_done F0 s' _ F' mid Hw Hg Hd); [by etrans|..]|].
  - destruct Hc as [Hc|(Hc & Hl & Hat)]; split; rewrite E1, Hc; try done. constructor; [|done]. exists D. split; [by apply Hloc|done].
  - by rewrite E2.
  - unfold eol_ok. by rewrite E5, E6.
  - intros _ s'' (H1 & H2 & H3 & H4). split_and!; [done|congruence|congruence|rewrite (blen_eq _ _ H4); lia|].
    rewrite H4. etrans; [exact HB|]. apply Hst.
Qed.

(** [shrinkNode] takes away what lies between the cursors. *)
Lemma wp_shrinkNode F s xs x p (str : list Z) ys r1 r2 c1 c2 :
  wf F s (xs ++ (x, (p, str)) :: ys) -> good (xs ++ (x, (p, str)) :: ys) -> 0 < r1 < r2 -> r2 < zlen str -> cut s p str r1 c1 -> cut s p str r2 c2 ->
  safe s (doc xs ++ take (Z.to_nat r1) str ++ drop (Z.to_nat r2) str ++ doc ys) -> blen s + 3 < max_buffer ->
  wp (PT.shrinkNode x c1 c2) s (fun _ s' => exists s1 xs' D, mended F s1 xs' (drop (Z.to_nat r2) str) ys s' /\ doc xs' = doc xs ++ take (Z.to_nat r1) str /\
    text_step s s1 /\ blen s1 = blen s /\ D = doc xs /\ loc F xs' x D).
Proof.
  intros Hs Hg Hr1 Hr2 Hc1 Hc2 Hsafe Hlen. set (L := take (Z.to_nat r1) str) in *. set (R := drop (Z.to_nat r2) str) in *.
  apply good_app in Hg as (Hgx & (Hne & Hty & Hgy)%good_cons & Htx). rewrite doc_cons, torn_app_r in Htx by done.
  assert (HzL : zlen L = r1) by (apply zlen_take; lia). assert (HzR : zlen R = zlen str - r2) by (apply zlen_drop; lia).
  assert (HneL : L <> []) by (intros E; rewrite E in HzL; change (zlen (@nil Z)) with 0 in HzL; lia).
  assert (HneR : R <> []) by (intros E; rewrite E in HzR; change (zlen (@nil Z)) with 0 in HzR; lia).
  pose proof Hc1 as [Hl1 Hl2]. pose proof Hc2 as [Hr1' Hr2']. fold L in Hl1. fold R in Hr2'.
  unfold PT.shrinkNode. pt_step. eapply wp_piece; [exact Hs|]. pose proof (proj1 (proj2 (wf_text _ _ _ _ _ _ _ Hs))) as Hlp.
  destruct (span_lf _ _ _ _ _ Hl1) as (n & Hn & Hn'). destruct (span_offsets _ _ _ _ _ Hl1) as (oa & Hoa & Hob).
  destruct (span_lf _ _ _ _ _ Hr2') as (m & Hm & Hm'). destruct (span_offsets _ _ _ _ _ Hr2') as (oc & Hoc & Hod).
  pt_step. eapply wp_on_buffers; [exact Hn|]. pt_step. eapply wp_on_buffers; [exact Hob|]. pt_step. eapply wp_on_buffers; [exact Hoa|].
  cbv zeta. set (p' := mkPiece _ _ _ _ _). apply wp_seq2.
  assert (Hp' : has_text (buffers_ s) p' L) by (split; [exact Hl1|split; [cbn [length p']; lia|done]]).
  assert (Htip : tip (lastChangeBufferPos_ s) p' = false).
  { unfold p'. eapply tip_before; [exact (proj2 Hs)|exact Hl2|]. intros E. apply (f_equal zlen) in E. rewrite zlen_drop in E by lia. change (zlen (@nil Z)) with 0 in E. lia. }
  eapply (wp_set F s xs x p str ys p' L); [exact Hs|exact Hp'|by rewrite Htip|done|done|]. intros t Hs1.
  pt_step. eapply wp_on_buffers; [exact Hm|]. pt_step. eapply wp_on_buffers; [exact Hod|]. pt_step. eapply wp_on_buffers; [exact Hoc|].
  set (q := mkPiece _ _ _ m _). assert (Hq : has_text (buffers_ s) q R) by (split; [exact Hr2'|split; [cbn [length q]; lia|done]]).
  pt_step. eapply (wp_insert_right F _ xs x (p', L) ys q R); [exact Hs1| |].
  { rewrite text_ok_tree. pose proof Hs as [_ Hok]. rewrite fmap_app in Hok.
    pose proof (text_ok_replace s (xs.*2) (p, str) (ys.*2) [(p', L); (q, R)] Hok) as H. rewrite fmap_app. cbn [fmap list_fmap snd].
    eapply text_ok_perm; [|apply H]; [solve_Permutation|by constructor; [exact Hp'|constructor; [exact Hq|]]|]. cbn [tips fst]. rewrite Htip. change (tip (lastChangeBufferPos_ s) q) with (tip (lastChangeBufferPos_ s) p). lia. }
  intros t2 z Hs2. rewrite app_snoc in Hs2. assert (HLR : doc (xs ++ [(x, (p', L))]) = doc xs ++ L) by (rewrite doc_app, doc_cons, doc_nil; by rewrite app_nil_r).
  assert (Hstr : str = L ++ drop (Z.to_nat r1) str) by (symmetry; apply take_drop).
  eapply wp_mono; [eapply (wp_validatePrev F _ (xs ++ [(x, (p', L))])); [exact Hs2| |done| |done]|].
  - apply good_app. rewrite doc_cons, doc_nil, app_nil_r. split; [done|]. split; [by apply good_one|]. by rewrite Hstr, torn_app_r in Htx by done.
  - rewrite HLR. unfold safe in *. rewrite !not_elem_of_app in *. change (checks (with_tree t2 (with_tree t s))) with (checks s). tauto.
  - intros [] s' Hmend. exists (with_tree t2 (with_tree t s)), (xs ++ [(x, (p', L))]), (doc xs). split_and!; try done. apply loc_last.
Qed.

Lemma zlen_nil_inv {A} (l : list A) : zlen l = 0 -> l = [].
Proof. destruct l; [done|]. rewrite zlen_cons. pose proof (zlen_nonneg l). lia. Qed.

Lemma take_zlen {A} (l : list A) : take (Z.to_nat (zlen l)) l = l.
Proof. unfold zlen. by rewrite Nat2Z.id, firstn_all. Qed.

Lemma drop_zlen {A} (l : list A) : drop (Z.to_nat (zlen l)) l = [].
Proof. unfold zlen. by rewrite Nat2Z.id, drop_all. Qed.

Lemma torn_take str d r : 0 <= r -> torn d str = false -> torn d (take (Z.to_nat r) str) = false.
Proof.
  intros Hr Ht. destruct (Z.eq_dec r 0) as [->|]; [apply torn_nil_r|]. destruct str as [|c str]; [by rewrite take_nil|].
  replace (Z.to_nat r) with (S (Z.to_nat (r - 1))) by lia. exact Ht.
Qed.

Lemma torn_drop str d r : torn str d = false -> torn (drop (Z.to_nat r) str) d = false.
Proof.
  intros Ht. destruct (drop (Z.to_nat r) str) as [|c l] eqn:E; [done|]. rewrite <- (take_drop (Z.to_nat r) str), E in Ht. by rewrite torn_app_l in Ht.
Qed.

(** The cases of [delete] inside one node. *)
Lemma wp_delete_in_node F s xs x p (str : list Z) ys e r1 r2 off cnt d :
  wf F s (xs ++ (x, (p, str)) :: ys) -> good (xs ++ (x, (p, str)) :: ys) -> 0 <= r1 < r2 -> r2 <= zlen str ->
  off = zlen (doc xs) + r1 -> cnt = r2 - r1 -> d = doc xs ++ take (Z.to_nat r1) str ++ drop (Z.to_nat r2) str ++ doc ys ->
  searchCache_ s = [e] -> ce_node e = x -> entry_at e (doc xs) -> (lastVisitedLine_ s).1 = 0 -> eol_ok s d -> blen s + 3 < max_buffer ->
  wp (PT.delete_in_node off cnt x (zlen (doc xs)) r1 r2) s (fun _ => becomes F s d 3).
Proof.
  intros Hs Hg Hr1 Hr2 -> -> Hd Hc He Hat Hvis Heol Hlen. pose proof (eol_safe _ _ Heol) as Hsafe. assert (Hsafe' := Hsafe). rewrite Hd in Hsafe'.
  pose proof Hg as (Hgx & (Hne & Hty & Hgy)%good_cons & Htx)%good_app. rewrite doc_cons, torn_app_r in Htx by done.
  pose proof (proj1 (proj2 (wf_text _ _ _ _ _ _ _ Hs))) as Hlp.
  unfold PT.delete_in_node. pt_step. eapply wp_piece; [exact Hs|]. pt_step. eapply wp_position; [exact Hs|apply elem_here|lia|]. intros c1 Hc1.
  pt_step. eapply wp_position; [exact Hs|apply elem_here|lia|]. intros c2 Hc2. rewrite Hlp.
  destruct (Z.eqb_spec (zlen (doc xs)) (zlen (doc xs) + r1)) as [E|E].
  - assert (r1 = 0) as -> by lia. change (Z.to_nat 0) with O in *. rewrite take_0 in *. cbn [app] in *. destruct (Z.eqb_spec (r2 - 0) (zlen str)) as [E2|E2].
    + replace r2 with (zlen str) in * by lia. rewrite drop_zlen in *. cbn [app] in *. pt_step. eapply wp_next_node; [exact Hs|].
      pt_step. eapply wp_delete; [exact Hs|]. intros t F' Hs' HF Hgone. pt_step.
      eapply wp_mono; [by apply (wp_validateFirst F' _ xs ys Hs' Hgx Hgy)|]. intros [] s' Hm.
      eapply (mended_becomes F' F s (with_tree t s) xs (doc ys) d 3 s' e (doc xs)); try done. right. split; [done|]. split; [|done]. left. by rewrite He.
    + pt_step. eapply wp_deleteNodeHead; [exact Hs| |exact Hc2|]; [lia|]. intros t p' Hs'.
      assert (HneR : drop (Z.to_nat r2) str <> []) by (intros E3; apply (f_equal zlen) in E3; rewrite zlen_drop in E3 by lia; change (zlen (@nil Z)) with 0 in E3; lia).
      pt_step. eapply wp_validate; [exact Hs'|change (searchCache_ (with_tree t s)) with (searchCache_ s); rewrite Hc; constructor; [|done]; exists (doc xs); right; rewrite He; by eexists _, _, _|].
      change (searchCache_ (with_tree t s)) with (searchCache_ s). rewrite Hc. intros l Hsub Hlt.
      assert (l = []) as ->.
      { destruct l as [|e0 l]; [done|]. apply Forall_cons in Hlt as [[Hlt _] _].
        assert (Hin : e0 ∈ [e]) by (eapply elem_of_submseteq; [|exact Hsub]; left). apply list_elem_of_singleton in Hin as ->. destruct Hat as [Ho _]. lia. }
      pt_step. eapply wp_mono; [eapply (wp_validatePrev F (with_cache [] (with_tree t s)) xs x p' _ ys Hs' Hgx HneR); [|done]|].
      { unfold safe in *. rewrite !not_elem_of_app in *. change (checks (with_cache [] (with_tree t s))) with (checks s). tauto. }
      intros [] s' Hm. apply mended_all in Hm; [|done|by apply torn_drop|done]. eapply (mended_becomes F F s (with_cache [] (with_tree t s)) xs _ d 3 s' e (doc xs)); try done; by left.
  - destruct (Z.eqb_spec (zlen (doc xs) + zlen str) (zlen (doc xs) + r1 + (r2 - r1))) as [E2|E2].
    + replace r2 with (zlen str) in * by lia. rewrite drop_zlen in *. cbn [app] in *.
      assert (HneL : take (Z.to_nat r1) str <> []) by (intros E3; apply (f_equal zlen) in E3; rewrite zlen_take in E3 by lia; change (zlen (@nil Z)) with 0 in E3; lia).
      pt_step. eapply wp_deleteNodeTail; [exact Hs| |exact Hc1|]; [lia|]. intros t p' Hs' _. rewrite app_snoc in Hs'.
      set (xs' := xs ++ [(x, (p', take (Z.to_nat r1) str))]) in *.
      assert (Hdx : doc xs' = doc xs ++ take (Z.to_nat r1) str) by (unfold xs'; rewrite doc_app, doc_cons, doc_nil; by rewrite app_nil_r).
      assert (Hgx' : good xs').
      { apply good_app. rewrite doc_cons, doc_nil, app_nil_r. split; [done|]. split; [by apply good_one|]. apply torn_take; [lia|done]. }
      assert (Hlast : x = last_node xs') by (unfold last_node, xs'; by rewrite last_snoc). rewrite Hlast. pt_step.
      eapply wp_mono; [apply (wp_validateNext F _ xs' ys Hs' Hgx' Hgy); [by rewrite Hdx, <- app_assoc|done]|].
      intros [] s' Hm. eapply (mended_becomes F F s (with_tree t s) xs' (doc ys) d 3 s' e (doc xs)); try done; [by rewrite Hdx, <- app_assoc|].
      right. split; [done|]. split; [|done]. rewrite He. apply loc_last.
    + pt_step. eapply wp_mono; [eapply (wp_shrinkNode F s xs x p str ys r1 r2 c1 c2); try done; lia|].
      intros [] s' (s1 & xs' & D & Hm & Hdx & Hst & Hb & -> & Hl).
      assert (Ef : searchCache_ s1 = searchCache_ s /\ lastVisitedLine_ s1 = lastVisitedLine_ s /\ EOL_ s1 = EOL_ s /\ EOLNormalized_ s1 = EOLNormalized_ s) by (rewrite (proj1 Hst); done).
      destruct Ef as (E3 & E4 & E5 & E6). apply mended_all in Hm; [| |by apply torn_drop|done].
      2:{ intros E7. apply (f_equal zlen) in E7. rewrite zlen_drop in E7 by lia. change (zlen (@nil Z)) with 0 in E7. lia. }
      eapply (mended_becomes F F s s1 xs' _ d 3 s' e (doc xs)); try done; [by rewrite Hdx, <- app_assoc| |by rewrite E4|unfold eol_ok; by rewrite E5, E6|lia|apply Hst].
      right. rewrite E3, He. done.
Qed.

(** ** Across nodes *)

(** An entry of a node after the deletion is dropped. *)
Lemma wp_validate_drop F s its off e D (Q : unit -> PieceTreeBase -> Prop) :
  wf F s its -> searchCache_ s = [e] -> loc F its (ce_node e) D -> off <= ce_offset e -> Q tt (with_cache [] s) -> wp (SC.validate off) s Q.
Proof.
  intros Hs Hc Hl Hoff HQ. eapply wp_validate; [exact Hs|rewrite Hc; constructor; [by exists D|done]|]. rewrite Hc. intros l Hsub Hlt.
  destruct l as [|e0 l]; [done|]. apply Forall_cons in Hlt as [[Hlt _] _].
  assert (Hin : e0 ∈ [e]) by (eapply elem_of_submseteq; [|exact Hsub]; left). apply list_elem_of_singleton in Hin as ->. lia.
Qed.

(** What [delete] does once the pieces at both ends were cut. *)
Lemma wp_delete_rest F s xs x p (left : list Z) ms y q (right : list Z) zs (k : P unit) Q :
  wf F s (xs ++ (x, (p, left)) :: ms ++ (y, (q, right)) :: zs) -> good (xs ++ keep x p left) -> good (keep y q right ++ zs) ->
  safe s (doc xs ++ left ++ right ++ doc zs) -> blen s + 3 < max_buffer ->
  (forall s' t F1, mended F1 (with_tree t s) (xs ++ keep x p left) (right ++ doc zs) [] s' -> F ⊆ F1 -> wp k s' Q) ->
  wp (secondNode ← on_tree (RB.next x);
      fuel ← nodes_bound;
      between ← PT.nodes_between fuel secondNode y;
      let nodesToDel := (if length p =? 0 then [x] else []) ++ (if length q =? 0 then [y] else []) ++ between in
      prev ← (if length p =? 0 then on_tree (RB.prev x) else mret x);
      PT.deleteNodes nodesToDel;;
      PT.validateCRLFWithNextNode prev;;
      k) s Q.
Proof.
  intros Hs Hgl Hgr Hsafe Hlen HQ. assert (Hlp : length p = zlen left) by apply (wf_text _ _ _ _ _ _ _ Hs).
  assert (Hs2 := Hs). rewrite app_comm_cons, app_assoc in Hs2. assert (Hlq : length q = zlen right) by apply (wf_text _ _ _ _ _ _ _ Hs2).
  pt_step. eapply wp_next_node; [exact Hs|]. pt_step. apply wp_on_tree_read, wp_gets. split; [done|].
  assert (Hs1 := Hs). rewrite app_snoc in Hs1. pt_step. eapply wp_nodes_between; [exact Hs1| |].
  { destruct Hs as [(t & [_ Hat] & _ & _ & He) _]. pose proof (heap_at_size _ _ _ _ Hat) as Hz. unfold addrs in Hz. rewrite He in Hz.
    unfold nodes in Hz. rewrite !length_fmap, !length_app in Hz. simpl in Hz. rewrite length_app in Hz. lia. }
  cbv zeta. rewrite Hlp, Hlq. pt_step.
  apply (wp_mono _ _ (fun prev s' => s' = s /\ prev = last_node (xs ++ keep x p left))).
  { destruct (Z.eqb_spec (zlen left) 0) as [E|E].
    - apply zlen_nil_inv in E as ->. rewrite app_nil_r. by eapply wp_prev_node.
    - pt_step. destruct left; [done|]. unfold keep, last_node. by rewrite last_snoc. }
  intros prev s' [-> ->]. pt_step. eapply wp_delete_keep; [exact Hs|done|]. intros t1 F1 Hs3 HF1 _.
  rewrite (app_assoc xs), (app_assoc _ ms) in Hs3. eapply wp_delete_keep; [exact Hs3|done|]. intros t2 F2 Hs4 HF2 _.
  rewrite <- (app_assoc _ ms) in Hs4. eapply wp_delete_all; [exact Hs4|]. intros t3 F3 Hs5 HF3.
  change (with_tree t3 (with_tree t2 (with_tree t1 s))) with (with_tree t3 s) in *.
  assert (Hdr : doc (keep y q right ++ zs) = right ++ doc zs) by (by rewrite doc_app, doc_keep).
  pt_step. eapply wp_mono; [apply (wp_validateNext F3 _ _ _ Hs5 Hgl Hgr); [|done]|].
  - rewrite Hdr, doc_app, doc_keep, <- app_assoc. exact Hsafe.
  - intros [] s' Hm. rewrite Hdr in Hm. eapply HQ; [exact Hm|]. by do 2 (etrans; [eassumption|]).
Qed.

Lemma wp_delete_across F s xs x p (str : list Z) ms y q (strb : list Z) zs e r1 r2 off d :
  wf F s (xs ++ (x, (p, str)) :: ms ++ (y, (q, strb)) :: zs) -> good (xs ++ (x, (p, str)) :: ms ++ (y, (q, strb)) :: zs) ->
  0 <= r1 <= zlen str -> 0 <= r2 <= zlen strb -> off = zlen (doc xs) + r1 -> d = doc xs ++ take (Z.to_nat r1) str ++ drop (Z.to_nat r2) strb ++ doc zs ->
  searchCache_ s = [e] -> ce_node e = y -> off <= ce_offset e -> (lastVisitedLine_ s).1 = 0 -> eol_ok s d -> blen s + 3 < max_buffer ->
  wp (PT.delete_across off x y r1 r2) s (fun _ => becomes F s d 3).
Proof.
  intros Hs Hg Hr1 Hr2 -> Hd Hc He Hoff Hvis Heol Hlen. pose proof (eol_safe _ _ Heol) as Hsafe. rewrite Hd in Hsafe.
  apply good_app in Hg as (Hgx & (Hne & _ & Hg)%good_cons & Htx). apply good_app in Hg as (_ & (Hneb & Htz & Hgz)%good_cons & _).
  rewrite doc_cons, torn_app_r in Htx by done.
  unfold PT.delete_across. pt_step. eapply wp_piece; [exact Hs|]. pt_step. eapply wp_position; [exact Hs|apply elem_here|lia|]. intros c1 Hc1.
  pt_step. eapply wp_deleteNodeTail; [exact Hs| |exact Hc1|]; [lia|]. intros t1 p' Hs1 _. set (L := take (Z.to_nat r1) str) in *.
  pt_step. assert (Hloc : loc F (xs ++ (x, (p', L)) :: ms ++ (y, (q, strb)) :: zs) (ce_node e) (doc (xs ++ (x, (p', L)) :: ms))).
  { right. rewrite He. eexists _, _, _. split; [|reflexivity]. by rewrite <- app_assoc. }
  eapply wp_validate_drop; [exact Hs1|exact Hc|exact Hloc|done|]. set (s1 := with_cache [] (with_tree t1 s)).
  assert (Hs1' : wf F s1 (xs ++ (x, (p', L)) :: ms ++ (y, (q, strb)) :: zs)) by done. clear Hs1. rename Hs1' into Hs1.
  pt_step. eapply wp_piece; [exact Hs1|]. assert (Hs2 := Hs1). rewrite app_comm_cons, app_assoc in Hs2.
  pt_step. eapply wp_piece; [exact Hs2|]. pt_step. eapply wp_position; [exact Hs2|apply elem_here|lia|]. intros c2 Hc2.
  pt_step. eapply wp_deleteNodeHead; [exact Hs2| |exact Hc2|]; [lia|]. intros t2 q' Hs3. set (R := drop (Z.to_nat r2) strb) in *.
  pt_step. eapply wp_piece; [exact Hs3|]. rewrite <- app_assoc in Hs3. cbn [app] in Hs3.
  assert (Hgl : good (xs ++ keep x p' L)).
  { apply good_app. rewrite doc_keep. split; [done|]. split; [apply good_keep|]. apply torn_take; [lia|done]. }
  assert (Hgr : good (keep y q' R ++ zs)).
  { apply good_app. rewrite doc_keep. split; [apply good_keep|]. split; [done|]. by apply torn_drop. }
  eapply (wp_delete_rest F _ xs x p' L ms y q' R zs _ _ Hs3 Hgl Hgr Hsafe Hlen). intros s' t F1 Hm HF.
  eapply (mended_becomes F1 F s _ _ _ d 3 s' e (doc xs) Hm); try done; [|by left]. by rewrite doc_app, doc_keep, <- app_assoc.
Qed.

(** ** Deletion *)

Definition deleted_text (d : list Z) (off cnt : Z) : list Z := take (Z.to_nat off) d ++ drop (Z.to_nat (off + Z.max 0 cnt)) d.

Lemma cache_ok_one its s e xs pt ys :
  its = xs ++ (ce_node e, pt) :: ys -> entry_at e (doc xs) -> cache_ok its (with_cache [e] s).
Proof. intros -> Hat. split; [|done]. constructor; [|constructor]. by eexists _, _, _. Qed.

(** Two nodes in the order of the offsets in them. *)
Lemma two_nodes its xs x p (str : list Z) ys zs y q (strb : list Z) ws o1 o2 :
  its = xs ++ (x, (p, str)) :: ys -> its = zs ++ (y, (q, strb)) :: ws -> x <> y ->
  0 <= o1 - zlen (doc xs) <= zlen str -> 0 <= o2 - zlen (doc zs) <= zlen strb -> o1 < o2 ->
  exists ms, ys = ms ++ (y, (q, strb)) :: ws.
Proof.
  intros E1 E2 Hxy H1 H2 Hlt. rewrite E1 in E2. apply app_eq_inv in E2 as [(k & Ex & E2)|(k & Ez & E2)].
  - destruct k as [|it k]; simpl in E2; injection E2; intros; subst; [done|]. exfalso. rewrite doc_app, doc_cons, !zlen_app in H1.
    pose proof (zlen_nonneg (doc k)). lia.
  - destruct k as [|it k]; simpl in E2; injection E2; intros; subst; [done|]. by exists k.
Qed.

Lemma sub_doc xs (str d : list Z) r : 0 <= r <= zlen str -> drop (Z.to_nat (zlen (doc xs) + r)) (doc xs ++ str ++ d) = drop (Z.to_nat r) str ++ d.
Proof. apply split_doc. Qed.

Lemma wp_delete_doc F s d off cnt :
  represents F s d -> 0 <= off -> off + Z.max 0 cnt <= zlen d -> blen s + 3 < max_buffer ->
  (EOLNormalized_ s = true -> normalized (EOL_ s) (deleted_text d off cnt)) ->
  wp (PT.delete off cnt) s (fun _ s' => represents F s' (deleted_text d off cnt) /\ EOL_ s' = EOL_ s /\
    EOLNormalized_ s' = EOLNormalized_ s /\ blen s' <= blen s + 3 /\ keeps (buffers_ s) (buffers_ s')).
Proof.
  intros Hrep Hoff Hcnt Hlen Hnorm. unfold PT.delete. do 2 pt_step.
  set (s1 := with_visited (0, []) s). change (wp ?m s1 _) with (wp m s1 (fun _ => becomes F s1 (deleted_text d off cnt) 3)).
  pose proof Hrep as (its & Hs & Hg & Hd & Hl & Hn & Hc & _ & [Heol Heol2]).
  assert (Hs1 : wf F s1 its) by done. assert (Heol1 : eol_ok s1 (deleted_text d off cnt)) by (split; done).
  assert (Hsame : deleted_text d off cnt = d -> becomes F s1 (deleted_text d off cnt) 3 s1).
  { intros ->. split_and!; [|done|done|lia|done]. exists its. split_and!; try done. by left. }
  pt_step. eapply wp_root; [exact Hs1|]. intros r Hr. rewrite Hr. destruct (Z.leb_spec cnt 0) as [Hz|Hpos]; cbn [orb].
  { pt_step. apply Hsame. unfold deleted_text. replace (off + Z.max 0 cnt) with off by lia. apply take_drop. }
  rewrite Z.max_r in Hcnt by lia. destruct (bool_decide_reflect (its = [])) as [-> |Hne].
  { rewrite <- Hd in Hcnt. change (zlen (doc [])) with 0 in Hcnt. lia. }
  pt_step. eapply wp_mono; [apply (wp_nodeAt F s1 its off Hs1 Hg Hc); [rewrite Hd; lia|done]|].
  intros pos1 s2 (xs & x & p & str & ys & e1 & E1 & Hr1 & -> & -> & He1 & Hat1).
  pt_step. eapply wp_mono; [apply (wp_nodeAt F (with_cache [e1] s1) its (off + cnt) Hs1 Hg); [|rewrite Hd; lia|done]|].
  { subst x. by eapply cache_ok_one. }
  intros pos2 s2 (zs & y & q & strb & ws & e & E2 & Hr2 & -> & -> & He & Hat). pt_step. apply wp_ret. pt_step. apply wp_ret.
  cbn [np_node nodeStartOffset remainder]. change (with_cache [e] (with_cache [e1] s1)) with (with_cache [e] s1).
  assert (Hdel : deleted_text d off cnt = doc xs ++ take (Z.to_nat (off - zlen (doc xs))) str ++ drop (Z.to_nat (off + cnt - zlen (doc zs))) strb ++ doc ws).
  { unfold deleted_text. rewrite Z.max_r by lia. rewrite <- Hd. rewrite E1 at 1. rewrite E2. rewrite !doc_app, !doc_cons.
    replace off with (zlen (doc xs) + (off - zlen (doc xs))) at 1 by lia. rewrite (proj1 (split_doc xs str (doc ys) _ Hr1)), <- app_assoc. do 2 f_equal.
    replace (off + cnt) with (zlen (doc zs) + (off + cnt - zlen (doc zs))) at 1 by lia. by rewrite sub_doc. }
  destruct (Z.eqb_spec x y) as [Exy|Hxy].
  - rewrite <- Exy in He, E2. assert (Hn1 : NoDup (its.*1)) by by eapply wf_NoDup. rewrite E1 in Hn1, E2.
    destruct (split_unique _ _ _ _ _ _ _ Hn1 E2) as (Ez & [= Eq Es] & Ew). subst zs q strb ws. rewrite E1 in Hs1, Hg.
    apply (wp_delete_in_node F (with_cache [e] s1) xs x p str ys e _ _ _ _ _ Hs1 Hg); try done; lia.
  - destruct (two_nodes its xs x p str ys zs y q strb ws off (off + cnt) E1 E2 Hxy Hr1 Hr2) as [ms ->]; [lia|].
    assert (Ez : zs = xs ++ (x, (p, str)) :: ms).
    { rewrite E1 in E2. rewrite app_comm_cons, app_assoc in E2. assert (Hn1 : NoDup (its.*1)) by by eapply wf_NoDup.
      rewrite E1, app_comm_cons, app_assoc in Hn1. by destruct (split_unique _ _ _ _ _ _ _ Hn1 E2) as (-> & _). }
    rewrite E1 in Hs1, Hg. apply (wp_delete_across F (with_cache [e] s1) xs x p str ms y q strb ws e _ _ _ _ Hs1 Hg); try done.
    + lia.
    + destruct Hat as [-> _]. rewrite Ez, doc_app, doc_cons, !zlen_app. pose proof (zlen_nonneg (doc ms)). lia.
Qed.

(** C2: Deletion from the document.  In a piece tree that stands for a document, in a store
    beside any other objects, [delete] of a range of the document does not throw, whichever
    nodes it meets; afterwards the piece tree stands for the document without the range, with
    all that is cached being right, as after [insert].  A count that is not positive deletes
    nothing.  When the tree is marked as normalized, the text that remains must be normalized
    to its line ending too, which deleting one half of a CR LF can break; and the change buffer
    must stay below the 32-bit range. *)
Theorem delete_correct F s d off cnt :
  represents F s d -> 0 <= off -> off + Z.max 0 cnt <= zlen d -> blen s + 3 < max_buffer ->
  (EOLNormalized_ s = true -> normalized (EOL_ s) (deleted_text d off cnt)) ->
  wp (PT.delete off cnt) s (fun _ s' => represents F s' (deleted_text d off cnt) /\ EOL_ s' = EOL_ s /\
    EOLNormalized_ s' = EOLNormalized_ s /\ blen s' <= blen s + 3).
Proof. intros. eapply wp_mono; [by apply (wp_delete_doc F s d off cnt)|]. intros _ s' (H4 & H5 & H6 & H7 & _). done. Qed.

Lemma delete_correct_witness : exists s s', represents ∅ s sample_text /\ PT.delete 1 1 s = Ok (tt, s') /\ represents ∅ s' [97; 98].
Proof.
  pose proof (wp_insert ∅ empty_tree [] 0 sample_text true empty_represents ltac:(by vm_compute) ltac:(done) ltac:(by vm_compute) ltac:(done)) as H1.
  apply wp_run in H1 as ([] & s & E1 & Hs & _ & _ & Hb). 
  pose proof (delete_correct ∅ s sample_text 1 1 Hs ltac:(done) ltac:(by vm_compute)) as H2.
  assert (Hlen : blen s + 3 < max_buffer) by (change (blen empty_tree) with 0 in Hb; change (zlen sample_text) with 3 in Hb; unfold max_buffer; lia).
  specialize (H2 Hlen ltac:(by intros _)). apply wp_run in H2 as ([] & s' & E2 & Hr & _). exists s, s'. split; [exact Hs|]. split; [exact E2|exact Hr].
Defined.
