(* ===== verification/PtQuery.v ===== *)
(** * Reading a piece tree

    [iterate] visits the nodes in order; the text of the document, and of a snapshot. *)

From S2P Require Import Prelude Length Store RbTree RbRep RbMeta RbInsert RbWalk RbDelete PtBuffer PtSpan PieceTree PtState PtEdit PtSearch PtInsert PtDelete.

#[local] Open Scope js_scope.
#[local] Arguments Z.eqb : simpl never.
#[local] Arguments Z.ltb : simpl never.
#[local] Arguments Z.gtb : simpl never.
#[local] Arguments Z.geb : simpl never.
#[local] Arguments Z.leb : simpl never.
#[local] Arguments Z.add : simpl never.
#[local] Arguments Z.sub : simpl never.
#[local] Hint Resolve elem_here : core.

Implicit Types (its xs ys zs : list item) (F : gmap ptr TreeNode) (s : PieceTreeBase) (x : ptr).

(** ** Visiting the nodes *)

Section iterate.
Context {X : Type} (callback : X -> ptr -> P (X * bool)) (s : PieceTreeBase).

(** The callback does not change the state and never stops; [I] holds of the nodes visited
    and the variables.  [SENTINEL] is visited at every leaf. *)
Section invariant.
Context (all : list item) (I : list item -> X -> Prop).
Hypothesis Hleaf : forall pre post v, all = pre ++ post -> I pre v -> wp (callback v SENTINEL) s (fun r s' => s' = s /\ r.2 = true /\ I pre r.1).
Hypothesis Hnode : forall pre it post v, all = pre ++ it :: post -> I pre v ->
  wp (callback v it.1) s (fun r s' => s' = s /\ r.2 = true /\ I (pre ++ [it]) r.1).

Lemma wp_iterate fuel x pre its post v :
  search (heap (tree s)) x its -> (List.length its < fuel)%nat -> all = pre ++ its ++ post -> I pre v ->
  wp (PT.iterate fuel x callback v) s (fun r s' => s' = s /\ r.2 = true /\ I (pre ++ its) r.1).
Proof.
  intros Hx. revert fuel pre post v. induction Hx as [|x n p str xs ys Hn Hne Hp Hsz Hlf Hxl IHl Hxr IHr Hlen Hlfc Hstr];
    intros fuel pre post v Hf Hall HI; (destruct fuel as [|fuel]; [lia|]); cbn [PT.iterate].
  { change (SENTINEL =? SENTINEL) with true. rewrite app_nil_r. by eapply Hleaf. }
  destruct (Z.eqb_spec x SENTINEL); [done|]. rewrite length_app in Hf. simpl in Hf. rewrite <- app_assoc in Hall. cbn [app] in Hall.
  pt_step. eapply wp_nfld; [exact Hn|]. pt_step. eapply wp_mono; [by apply (IHl fuel pre ((x, (p, str)) :: ys ++ post)); [lia|..]|].
  intros [v1 b1] s1 (-> & Eb & HI1). cbn [fst snd] in *. subst b1. simpl negb. cbv iota. pt_step. eapply wp_mono; [apply (Hnode (pre ++ xs) (x, (p, str)) (ys ++ post)); [by rewrite <- app_assoc|done]|].
  intros [v2 b2] s1 (-> & Eb & HI2). cbn [fst snd] in *. subst b2. simpl negb. cbv iota. pt_step. eapply wp_nfld; [exact Hn|].
  rewrite app_comm_cons, !app_assoc in Hall. rewrite (app_assoc pre). change ((x, (p, str)) :: ys) with ([(x, (p, str))] ++ ys). rewrite app_assoc.
  apply (IHr fuel _ post); [lia| |done]. rewrite Hall. by rewrite <- !app_assoc.
Qed.

Lemma wp_iterate_root F v :
  wf F s all -> good all -> I [] v -> wp (PT.iterate_root callback v) s (fun r s' => s' = s /\ r.2 = true /\ I all r.1).
Proof.
  intros Hs Hg HI. destruct (wf_search _ _ _ Hs Hg) as [Hsearch Hsize]. unfold PT.iterate_root.
  pt_step. apply wp_on_tree_read, wp_get_root. split; [done|]. pt_step. apply wp_on_tree_read, wp_gets. split; [done|].
  apply (wp_iterate _ _ [] all []); [exact Hsearch|lia|by rewrite app_nil_r|done].
Qed.
End invariant.

(** A callback that does nothing at [SENTINEL] folds over the nodes. *)
Lemma wp_iterate_fold F its (f : X -> item -> X) v :
  wf F s its -> good its ->
  (forall v, wp (callback v SENTINEL) s (fun r s' => s' = s /\ r = (v, true))) ->
  (forall v it, it ∈ its -> wp (callback v it.1) s (fun r s' => s' = s /\ r = (f v it, true))) ->
  wp (PT.iterate_root callback v) s (fun r s' => s' = s /\ r = (foldl f v its, true)).
Proof.
  intros Hs Hg Hleaf Hcb. eapply wp_mono; [apply (wp_iterate_root its (fun pre v' => v' = foldl f v pre)) with (F := F); try done|].
  - intros pre post v' _ ->. eapply wp_mono; [apply Hleaf|]. by intros r s' [-> ->].
  - intros pre it post v' -> ->. eapply wp_mono; [apply Hcb; apply elem_of_app; right; by left|]. intros r s' [-> ->]. by rewrite foldl_app.
  - intros [v' b] s' (-> & Eb & Ev). cbn [fst snd] in *. by subst.
Qed.
End iterate.

Lemma foldl_snoc_map {A B} (f : A -> B) (l : list A) v : foldl (fun v a => v ++ [f a]) v l = v ++ (f <$> l).
Proof. revert v. induction l as [|a l IH]; intros v; simpl; [by rewrite app_nil_r|]. by rewrite IH, <- app_assoc. Qed.

Lemma foldl_app_concat {A B} (f : A -> list B) (l : list A) v : foldl (fun v a => v ++ f a) v l = v ++ concat (f <$> l).
Proof. revert v. induction l as [|a l IH]; intros v; simpl; [by rewrite app_nil_r|]. by rewrite IH, <- app_assoc. Qed.

Lemma wp_content F s its x p (str : list Z) :
  wf F s its -> (x, (p, str)) ∈ its -> wp (PT.getNodeContent x) s (fun c s' => s' = s /\ c = str).
Proof.
  intros Hs Hin. unfold PT.getNodeContent. assert (Hx : x <> SENTINEL).
  { apply list_elem_of_split in Hin as (xs & ys & ->). by eapply wf_node_ne. }
  destruct (Z.eqb_spec x SENTINEL); [done|]. pt_step. eapply wp_npiece; [exact Hs|exact Hin|].
  pose proof (wf_in _ _ _ _ _ _ Hs Hin) as [Hsp _]. eapply wp_on_buffers; [by apply span_content|done].
Qed.

Lemma wp_getLinesRawContent F s d :
  represents F s d -> wp PT.getLinesRawContent s (fun r s' => s' = s /\ r = d).
Proof.
  intros (its & Hs & Hg & <- & _). unfold PT.getLinesRawContent. pt_step.
  eapply wp_mono; [apply (wp_iterate_fold _ s F its (fun v (it : item) => v ++ it.2.2)); [exact Hs|exact Hg|..]|].
  - intros v. pt_step. unfold PT.getNodeContent. change (SENTINEL =? SENTINEL) with true. cbv iota. pt_step. pt_step. by rewrite app_nil_r.
  - intros v [x [p str]] Hin. cbn [fst snd]. pt_step. eapply wp_mono; [eapply wp_content; [exact Hs|exact Hin]|]. intros c s' [-> ->]. by pt_step.
  - intros [v b] s' [-> [= -> ->]]. pt_step. split; [done|]. by rewrite foldl_app_concat.
Qed.
