(* ===== verification/PtLines.v ===== *)
(** * Lines of a piece tree

    The searches by line and by offset: [getOffsetAt] and [getPositionAt] answer with the
    line starts of the document, although a node knows only the line feeds left of it and
    those of its own piece. *)

From S2P Require Import Prelude Position Length Store RbTree RbRep RbMeta RbInsert RbWalk RbDelete PtBuffer PtSpan PieceTree PtState PtEdit PtSearch PtInsert PtDelete PtQuery.

#[local] Open Scope js_scope.
#[local] Arguments Z.eqb : simpl never.
#[local] Arguments Z.ltb : simpl never.
#[local] Arguments Z.gtb : simpl never.
#[local] Arguments Z.geb : simpl never.
#[local] Arguments Z.leb : simpl never.
#[local] Arguments Z.add : simpl never.
#[local] Arguments Z.sub : simpl never.

Implicit Types (its xs ys zs : list item) (F : gmap ptr TreeNode) (s : PieceTreeBase) (x : ptr) (a b d str : list Z).

Lemma at_None {A} (l : list A) i : zlen l <= i -> at_ l i = None.
Proof. unfold at_, zlen. intros. destruct (Z.ltb_spec i 0); [done|]. apply lookup_ge_None. lia. Qed.

(** ** Lines of texts one after another *)

Lemma starts_0 d : (starts d).[0] = Some 0.
Proof. done. Qed.

Lemma starts_app_at a b k : torn a b = false ->
  (starts (a ++ b)).[k] = if k <=? breaks a then (starts a).[k] else (fun y : Z => y + zlen a) <$> (starts b).[k - breaks a].
Proof.
  intros Ht. rewrite (starts_app _ _ Ht). pose proof (zlen_starts a) as Hz. pose proof (breaks_in_nonneg a None) as Hb. fold (breaks a) in Hb.
  destruct (Z.leb_spec k (breaks a)); [by rewrite at_app_l by lia|]. rewrite at_app_r, Hz, starts_tail by lia.
  pose proof (starts_in_shift 0 (zlen a) b None) as Hs. rewrite Z.add_0_l in Hs. rewrite Hs, at_fmap. unfold starts. rewrite at_cons.
  destruct (Z.eqb_spec (k - breaks a) 0); [lia|]. by replace (k - (breaks a + 1)) with (k - breaks a - 1) by lia.
Qed.

Lemma line_of_app_l a b o : torn a b = false -> 0 <= o <= zlen a -> line_of (a ++ b) o = line_of a o.
Proof.
  intros Ht Ho. unfold line_of, zlen in *. rewrite take_app_le, drop_app_le, nxt_app by lia.
  destruct (drop (Z.to_nat o) a) as [|c r] eqn:Ed; [|done]. assert (Z.to_nat o = List.length a) as -> by (apply (f_equal List.length) in Ed; rewrite length_drop in Ed; simpl in Ed; lia).
  rewrite firstn_all. simpl nxt. rewrite breaks_in_next. unfold torn in Ht. rewrite Ht. unfold breaks. lia.
Qed.

Lemma line_of_app_r a b o : torn a b = false -> 0 <= o -> line_of (a ++ b) (zlen a + o) = breaks a + line_of b o.
Proof.
  intros Ht Ho. unfold line_of, zlen in *. replace (Z.to_nat (Z.of_nat (List.length a) + o)) with (List.length a + Z.to_nat o)%nat by lia.
  rewrite take_app_add, drop_app_add, breaks_in_app. f_equal. rewrite <- nxt_app, take_drop, breaks_in_next.
  unfold torn in Ht. rewrite Ht. lia.
Qed.

Lemma breaks_nonneg d : 0 <= breaks d.
Proof. apply breaks_in_nonneg. Qed.

(** ** Where a line starts *)

Definition texts_ok s its : Prop := Forall (fun it : item => has_text (buffers_ s) it.2.1 it.2.2) its.

Lemma wf_texts F s its : wf F s its -> texts_ok s its.
Proof. intros [_ (_ & _ & Hf & _)]. unfold texts_ok. by apply Forall_fmap in Hf. Qed.

Lemma accumulated_ok bufs p str k : has_text bufs p str -> getAccumulatedValue bufs p k = Ok (accumulated str k).
Proof.
  intros [(b & oa & Hi & Hok & H1 & H2 & Hs) _].
  rewrite (getAccumulatedValue_ok _ _ _ Hi Hok p oa (oa + zlen str) eq_refl H1 H2); [by rewrite <- Hs|]. pose proof (zlen_nonneg str). lia.
Qed.

(** The start of the line [k] of a piece, when it has that line. *)
Lemma accumulated_start str k x : 0 <= k -> (starts str).[k] = Some x -> accumulated str (k - 1) = x.
Proof.
  intros Hk Hx. unfold accumulated. destruct (Z.ltb_spec (k - 1) 0).
  - assert (k = 0) as -> by lia. rewrite starts_0 in Hx. by injection Hx.
  - replace (k - 1 + 1) with k by lia. by rewrite Hx.
Qed.

(** The offset of a column of a line: from the start of the line, or the end of the text. *)
Definition offset_of d (lineNumber column : Z) : Z :=
  match (starts d).[lineNumber - 1] with Some x => x + column - 1 | None => zlen d end.

Lemma wp_getOffsetAt_loop s x its line col base fuel :
  search (heap (tree s)) x its -> good its -> texts_ok s its -> (List.length its < fuel)%nat -> 1 <= line -> its <> [] ->
  wp (PT.getOffsetAt_loop fuel x line col base) s (fun r s' => s' = s /\ r = base + offset_of (doc its) line col).
Proof.
  intros Hx. revert line base fuel. induction Hx as [|x n p str xs ys Hn Hne Hp Hsz Hlf Hxl IHl Hxr IHr Hlen Hlfc Hstr];
    intros line base fuel Hg Ht Hf Hl Hits; [done|]. destruct fuel as [|fuel]; [lia|]. cbn [PT.getOffsetAt_loop].
  destruct (Z.eqb_spec x SENTINEL); [done|]. rewrite length_app in Hf. simpl in Hf.
  apply good_app in Hg as (Hgx & (_ & Hty & Hgy)%good_cons & Htx). rewrite doc_cons in Htx.
  apply Forall_app in Ht as [Htxs [Htp Htys]%Forall_cons]. cbn [fst snd] in Htp.
  pose proof (breaks_nonneg (doc xs)). pose proof (breaks_nonneg str).
  assert (Hoff : offset_of (doc (xs ++ (x, (p, str)) :: ys)) line col =
    if line - 1 <=? breaks (doc xs) then offset_of (doc xs) line col
    else if line - 1 - breaks (doc xs) <=? breaks str then zlen (doc xs) + offset_of str (line - breaks (doc xs)) col
    else zlen (doc xs) + zlen str + offset_of (doc ys) (line - breaks (doc xs) - breaks str) col).
  { unfold offset_of. rewrite doc_app, doc_cons, (starts_app_at _ _ _ Htx). destruct (Z.leb_spec (line - 1) (breaks (doc xs))) as [Hle|Hgt].
    - destruct (start_at (doc xs) (line - 1)) as (y & -> & _); [lia|done].
    - rewrite (starts_app_at _ _ _ Hty), !zlen_app. replace (line - 1 - breaks (doc xs)) with (line - breaks (doc xs) - 1) by lia.
      destruct (Z.leb_spec (line - breaks (doc xs) - 1) (breaks str)).
      + destruct (start_at str (line - breaks (doc xs) - 1)) as (y & -> & _); [lia|]. simpl. lia.
      + replace (line - breaks (doc xs) - 1 - breaks str) with (line - breaks (doc xs) - breaks str - 1) by lia.
        destruct (_.[_]); simpl; lia. }
  pt_step. eapply wp_nfld; [exact Hn|]. pt_step. eapply wp_nfld; [exact Hn|]. rewrite Hlf, !Z.geb_leb.
  destruct (negb (left n =? SENTINEL) && (line <=? breaks (doc xs) + 1)) eqn:El.
  - apply andb_true_iff in El as [Hleft%negb_true_iff Hle%Z.leb_le]. apply Z.eqb_neq in Hleft.
    eapply wp_mono; [apply IHl; [done|done|lia|lia|]|]; [by inversion Hxl; subst; [|destruct xs0]|]. intros r s' [-> ->]. split; [done|].
    rewrite Hoff. destruct (Z.leb_spec (line - 1) (breaks (doc xs))); [done|lia].
  - assert (Hcase : doc xs = [] \/ breaks (doc xs) < line - 1).
    { apply andb_false_iff in El as [Hleft%negb_false_iff|Hle%Z.leb_gt]; [left|right; lia]. apply Z.eqb_eq in Hleft. rewrite Hleft in Hxl. by inversion Hxl. }
    pt_step. eapply wp_npiece_at; [exact Hn|exact Hp|]. pt_step. eapply wp_nfld; [exact Hn|]. rewrite Hlfc, Hlen, Hsz, Z.geb_leb.
    destruct (Z.leb_spec line (breaks (doc xs) + breaks str + 1)) as [Hle|Hgt].
    + pt_step. eapply wp_on_buffers; [by apply accumulated_ok|]. pt_step. split; [done|]. rewrite Hoff.
      destruct (start_at str (line - breaks (doc xs) - 1)) as (y & Hy & _).
      { destruct Hcase as [E|]; [rewrite E in *; change (breaks []) with 0 in *|]; lia. }
      replace (line - breaks (doc xs) - 2) with (line - breaks (doc xs) - 1 - 1) by lia.
      rewrite (accumulated_start str (line - breaks (doc xs) - 1) y); [|destruct Hcase as [E|]; [rewrite E in *; change (breaks []) with 0 in *|]; lia|done].
      destruct (Z.leb_spec (line - 1) (breaks (doc xs))) as [H3|H3].
      * destruct Hcase as [E|]; [|lia]. rewrite E in *. change (breaks []) with 0 in *. assert (line = 1) as -> by lia.
        unfold offset_of. rewrite starts_0. change (zlen []) with 0. assert (y = 0) as -> by (rewrite starts_0 in Hy; by injection Hy). lia.
      * destruct (Z.leb_spec (line - 1 - breaks (doc xs)) (breaks str)); [|lia]. unfold offset_of. rewrite Hy. lia.
    + pt_step. eapply wp_nfld; [exact Hn|]. rewrite Hoff. destruct (Z.leb_spec (line - 1) (breaks (doc xs))); [lia|].
      destruct (Z.leb_spec (line - 1 - breaks (doc xs)) (breaks str)); [lia|].
      destruct ys as [|it ys].
      { inversion Hxr as [E|? ? ? ? ? ? ? ? ? ? ? ? ? ? ? ? E']; [|by destruct xs0]. destruct fuel as [|fuel]; [lia|]. cbn [PT.getOffsetAt_loop].
        change (SENTINEL =? SENTINEL) with true. cbv iota. pt_step. split; [done|]. unfold offset_of. change (doc []) with (@nil Z).
        rewrite at_None; [change (zlen []) with 0; lia|]. change (zlen (starts [])) with 1. lia. }
      eapply wp_mono; [apply IHr; [done|done|lia|lia|done]|]. intros r s' [-> ->]. split; [done|].
      replace (line - (breaks (doc xs) + breaks str)) with (line - breaks (doc xs) - breaks str) by lia. lia.
Qed.

Lemma wp_getOffsetAt F s its line col :
  wf F s its -> good its -> 1 <= line ->
  wp (PT.getOffsetAt line col) s (fun r s' => s' = s /\ r = match doc its with [] => 0 | _ => offset_of (doc its) line col end).
Proof.
  intros Hs Hg Hl. destruct (wf_search _ _ _ Hs Hg) as [Hsearch Hsize]. unfold PT.getOffsetAt.
  pt_step. apply wp_on_tree_read, wp_get_root. split; [done|]. pt_step. apply wp_on_tree_read, wp_gets. split; [done|].
  destruct (decide (its = [])) as [-> |Hne].
  - inversion Hsearch as [E|? ? ? ? ? ? ? ? ? ? ? ? ? ? ? ? E]; [|by destruct xs]. destruct (size _) as [|fuel]; [lia|].
    cbn [PT.getOffsetAt_loop]. change (SENTINEL =? SENTINEL) with true. cbv iota. by pt_step.
  - eapply wp_mono; [apply (wp_getOffsetAt_loop s _ its); [done|done|by eapply wf_texts|lia|done|done]|]. intros r s' [-> ->]. split; [done|].
    destruct (doc its) as [|c d'] eqn:Ed; [|by rewrite Z.add_0_l].
    destruct its as [|[x [p str]] its]; [done|]. apply good_cons in Hg as (Hstr & _). rewrite doc_cons in Ed. by destruct str.
Qed.

(** A text in the middle. *)
Lemma torn_app_mid a b d : torn a (b ++ d) = false -> torn b d = false -> torn (a ++ b) d = false.
Proof. intros H1 H2. destruct b as [|c b]; [by rewrite app_nil_r|]. by rewrite torn_app_l. Qed.

Lemma torn_app_pre a b d : torn a (b ++ d) = false -> torn a b = false.
Proof. intros H. destruct b as [|c b]; [apply torn_nil_r|]. by rewrite torn_app_r in H. Qed.

Lemma torn_app_next a b d : torn b d = false -> torn (a ++ b) d = false -> a <> [] -> torn a b = false -> torn a (b ++ d) = false.
Proof. intros H1 H2 Ha H3. destruct b as [|c b]; [by rewrite app_nil_r in H2|]. by rewrite torn_app_r. Qed.

Lemma breaks_app_untorn a b : torn a b = false -> breaks (a ++ b) = breaks a + breaks b.
Proof. intros H. rewrite breaks_app_torn, H. lia. Qed.

Lemma line_of_mid a str b r : torn a (str ++ b) = false -> torn str b = false -> 0 <= r <= zlen str ->
  line_of (a ++ str ++ b) (zlen a + r) = breaks a + line_of str r.
Proof. intros H1 H2 Hr. rewrite line_of_app_r by (done || lia). by rewrite line_of_app_l. Qed.

Lemma starts_mid a str b k : torn a (str ++ b) = false -> torn str b = false -> 0 < k <= breaks str ->
  (starts (a ++ str ++ b)).[breaks a + k] = (fun y : Z => y + zlen a) <$> (starts str).[k].
Proof.
  intros H1 H2 Hk. rewrite (starts_app_at _ _ _ H1). destruct (Z.leb_spec (breaks a + k) (breaks a)); [lia|].
  replace (breaks a + k - breaks a) with k by lia. rewrite (starts_app_at _ _ _ H2). by destruct (Z.leb_spec k (breaks str)); [|lia].
Qed.

(** ** The position of an offset *)

Definition position_of d (o : Z) : Position :=
  mkPosition (line_of d o + 1) (o - default 0 ((starts d).[line_of d o]) + 1).

Lemma index_ok bufs p str acc :
  has_text bufs p str -> 0 <= acc <= zlen str -> str <> [] ->
  exists r, getIndexOf bufs p acc = Ok (line_of str acc, r) /\ (0 < line_of str acc -> (starts str).[line_of str acc] = Some (acc - r)).
Proof.
  intros [(b & oa & Hi & Hok & H1 & H2 & Hs) _] Hacc Hne. pose proof (zlen_pos _ Hne) as Hz.
  destruct (piece_getIndexOf _ _ _ Hi Hok p oa (oa + zlen str) eq_refl H1 H2 ltac:(lia) acc ltac:(lia) ltac:(lia)) as (r & Hr & Hst).
  rewrite <- Hs in Hr, Hst. by exists r.
Qed.

Section position.
Context (F : gmap ptr TreeNode) (s : PieceTreeBase) (its0 : list item).
Hypothesis Hs0 : wf F s its0.
Hypothesis Hg0 : good its0.
Let d := doc its0.

(** The column of an offset, from the start of its line. *)
Lemma wp_column o :
  0 <= o <= zlen d ->
  wp (lineStartOffset ← PT.getOffsetAt (line_of d o + 1) 1; mret (mkPosition (line_of d o + 1) (o - lineStartOffset + 1))) s
    (fun r s' => s' = s /\ r = position_of d o).
Proof.
  intros Ho. pt_step. pose proof (line_of_nonneg d o). eapply wp_mono; [apply (wp_getOffsetAt F s its0); [done|done|lia]|]. fold d.
  intros r s' [-> ->]. pt_step. split; [done|]. unfold position_of. destruct (line_start_of d o Ho) as (x & Hx & _). rewrite Hx. f_equal. simpl.
  destruct d as [|c d']; [change (zlen []) with 0 in Ho; assert (o = 0) as -> by lia; rewrite line_of_0, starts_0 in Hx; by injection Hx as <-|].
  unfold offset_of. replace (line_of (c :: d') o + 1 - 1) with (line_of (c :: d') o) by lia. rewrite Hx. lia.
Qed.

Lemma wp_getPositionAt_loop x its A B off fuel :
  search (heap (tree s)) x its -> good its -> texts_ok s its -> (List.length its < fuel)%nat -> its <> [] ->
  d = A ++ doc its ++ B -> torn A (doc its ++ B) = false -> torn (doc its) B = false ->
  0 <= off -> (off <= zlen (doc its) \/ B = []) -> (off = 0 -> A = []) ->
  wp (PT.getPositionAt_loop fuel x off (breaks A) (zlen A + off)) s
    (fun r s' => s' = s /\ r = position_of d (Z.min (zlen A + off) (zlen d))).
Proof.
  intros Hx. revert A B off fuel. induction Hx as [|x n p str xs ys Hn Hne Hp Hsz Hlf Hxl IHl Hxr IHr Hlen Hlfc Hstr];
    intros A B off fuel Hg Ht Hf Hits Hd HtA HtB Ho Hor H0; [done|]. destruct fuel as [|fuel]; [lia|]. cbn [PT.getPositionAt_loop].
  destruct (Z.eqb_spec x SENTINEL); [done|]. rewrite length_app in Hf. simpl in Hf. clear Hits.
  apply good_app in Hg as (Hgx & (_ & Hty & Hgy)%good_cons & Htx). rewrite doc_cons in Htx.
  apply Forall_app in Ht as [Htxs [Htp Htys]%Forall_cons]. cbn [fst snd] in Htp.
  rewrite doc_app, doc_cons in Hd, HtA, HtB, Hor. rewrite !zlen_app in Hor. pose proof (zlen_nonneg (doc xs)). pose proof (zlen_pos _ Hstr). pose proof (zlen_nonneg (doc ys)).
  rewrite <- !app_assoc in Hd, HtA.
  pt_step. eapply wp_nfld; [exact Hn|]. rewrite Hsz, !Z.geb_leb.
  destruct (negb (zlen (doc xs) =? 0) && (off <=? zlen (doc xs))) eqn:El.
  - apply andb_true_iff in El as [Hz%negb_true_iff%Z.eqb_neq Hle%Z.leb_le].
    pt_step. eapply wp_nfld; [exact Hn|]. apply (IHl A (str ++ doc ys ++ B)); try done.
    + lia.
    + intros ->. by change (zlen (doc [])) with 0 in Hz.
    + rewrite torn_app_r by done. by rewrite torn_app_r in Htx by done.
    + by left.
  - assert (Hcase : zlen (doc xs) = 0 \/ zlen (doc xs) < off).
    { apply andb_false_iff in El as [Hz%negb_false_iff%Z.eqb_eq|Hle%Z.leb_gt]; [by left|right; lia]. }
    set (Y := doc ys ++ B) in *. set (A1 := A ++ doc xs).
    assert (HtY : torn str Y = false).
    { unfold Y. destruct (doc ys) as [|c r] eqn:Ey; [|by rewrite torn_app_r]. cbn [app]. rewrite app_nil_r in HtB. by rewrite torn_app_l in HtB. }
    assert (HtA1 : torn A1 (str ++ Y) = false).
    { apply torn_app_mid; [done|]. rewrite torn_app_r in Htx |- * by done. done. }
    assert (HbA1 : breaks A1 = breaks A + breaks (doc xs)) by (apply breaks_app_untorn; by eapply torn_app_pre).
    assert (HzA1 : zlen A1 = zlen A + zlen (doc xs)) by apply zlen_app.
    assert (Hd1 : d = A1 ++ str ++ Y) by (rewrite Hd; unfold A1; by rewrite <- app_assoc).
    assert (Hzd : zlen d = zlen A1 + (zlen str + (zlen (doc ys) + zlen B))) by (rewrite Hd1; unfold Y; by rewrite !zlen_app).
    pose proof (zlen_nonneg A). pose proof (zlen_nonneg B).
    pt_step. eapply wp_npiece_at; [exact Hn|exact Hp|]. pt_step. eapply wp_nfld; [exact Hn|]. rewrite Hlf, Hlen, Hlfc, Z.geb_leb.
    destruct (Z.leb_spec off (zlen (doc xs) + zlen str)) as [Hle|Hgt].
    + set (rem := off - zlen (doc xs)). assert (Hrem : 0 <= rem <= zlen str /\ off = zlen (doc xs) + rem) by lia. destruct (index_ok _ _ _ rem Htp ltac:(lia) Hstr) as (r & Hr & Hst).
      pt_step. eapply wp_on_buffers; [exact Hr|]. cbv zeta. replace (zlen A + off) with (zlen A1 + rem) by lia. rewrite Z.min_l by lia.
      pose proof (line_of_mid A1 str Y rem HtA1 HtY ltac:(lia)) as Hline. rewrite <- Hd1 in Hline.
      replace (breaks A + (breaks (doc xs) + line_of str rem)) with (line_of d (zlen A1 + rem)) by lia.
      destruct (Z.eqb_spec (line_of str rem) 0) as [E|E]; [apply wp_column; lia|]. pt_step. split; [done|]. unfold position_of.
      pose proof (line_of_nonneg str rem). pose proof (line_of_le str rem ltac:(lia)).
      assert (Hstart : (starts d).[line_of d (zlen A1 + rem)] = Some (rem - r + zlen A1)).
      { rewrite Hline, Hd1, starts_mid by (done || lia). by rewrite Hst by lia. }
      rewrite Hstart. f_equal. simpl. lia.
    + cbv zeta. set (A2 := A1 ++ str). assert (HtA2 : torn A2 Y = false) by (by apply torn_app_mid).
      assert (HbA2 : breaks A2 = breaks A + (breaks (doc xs) + breaks str)) by (unfold A2; rewrite breaks_app_untorn by (by eapply torn_app_pre); lia).
      assert (HzA2 : zlen A2 = zlen A1 + zlen str) by apply zlen_app.
      pt_step. eapply wp_nfld; [exact Hn|]. destruct (Z.eqb_spec (right n) SENTINEL) as [Er|Er].
      * rewrite Er in Hxr. assert (ys = []) as Ey by (by inversion Hxr). assert (B = []) as EB by (destruct Hor; [rewrite Ey in *; change (zlen (doc [])) with 0 in *; lia|done]).
        assert (Ed : d = A2) by (rewrite Hd1; unfold A2, Y; rewrite Ey, EB; by rewrite !app_nil_r).
        assert (El2 : line_of d (zlen d) = breaks A2) by (rewrite line_of_end; by rewrite Ed).
        rewrite <- HbA2, <- El2. replace (zlen A + off - (off - (zlen (doc xs) + zlen str))) with (zlen d) by (rewrite Ed; lia).
        assert (zlen d = zlen A2) by (by rewrite Ed). rewrite Z.min_r by lia. apply wp_column. lia.
      * rewrite <- HbA2. replace (zlen A + off) with (zlen A2 + (off - (zlen (doc xs) + zlen str))) by lia. apply (IHr A2 B); try done.
        -- lia.
        -- intros ->. by inversion Hxr; [|destruct xs0].
        -- unfold A2. rewrite Hd1. by rewrite <- app_assoc.
        -- destruct (doc ys) as [|c r] eqn:Ey; [apply torn_nil_l|]. rewrite app_assoc in HtB. by rewrite torn_app_l in HtB.
        -- lia.
        -- destruct Hor; [left; lia|by right].
        -- lia.
Qed.
End position.

Definition clamp_offset d (o : Z) : Z := Z.min (Z.max 0 o) (zlen d).

Lemma wp_getPositionAt F s its off :
  wf F s its -> good its ->
  wp (PT.getPositionAt off) s (fun r s' => s' = s /\ r = position_of (doc its) (clamp_offset (doc its) off)).
Proof.
  intros Hs Hg. destruct (wf_search _ _ _ Hs Hg) as [Hsearch Hsize]. unfold PT.getPositionAt, clamp_offset. cbv zeta.
  pt_step. apply wp_on_tree_read, wp_get_root. split; [done|]. pt_step. apply wp_on_tree_read, wp_gets. split; [done|].
  destruct (decide (its = [])) as [-> |Hne].
  - inversion Hsearch as [E|? ? ? ? ? ? ? ? ? ? ? ? ? ? ? ? E]; [|by destruct xs]. destruct (size _) as [|fuel]; [lia|].
    cbn [PT.getPositionAt_loop]. change (SENTINEL =? SENTINEL) with true. cbv iota. pt_step. split; [done|]. change (zlen (doc [])) with 0.
    by replace (Z.min (Z.max 0 off) 0) with 0 by lia.
  - pose proof (wp_getPositionAt_loop F s its Hs Hg (root (tree s)) its [] [] (Z.max 0 off) (S (size (heap (tree s)))) Hsearch Hg (wf_texts _ _ _ Hs) ltac:(lia) Hne) as H.
    change (zlen []) with 0 in H. change (breaks []) with 0 in H. rewrite Z.add_0_l in H. apply H; try done.
    + by rewrite app_nil_r.
    + apply torn_nil_r.
    + lia.
    + by right.
Qed.

Lemma offset_position d o : 0 <= o <= zlen d ->
  match d with [] => 0 | _ => offset_of d (lineNumber (position_of d o)) (Position.column (position_of d o)) end = o.
Proof.
  intros Ho. destruct d as [|c d']; [change (zlen []) with 0 in Ho; lia|]. unfold position_of, offset_of. cbn [lineNumber Position.column].
  destruct (line_start_of (c :: d') o Ho) as (x & Hx & _). replace (line_of (c :: d') o + 1 - 1) with (line_of (c :: d') o) by lia. rewrite Hx. simpl. lia.
Qed.

(** C30: Offsets and positions.  In a piece tree that stands for a document, [getOffsetAt]
    gives for every column of every line the offset from the start of that line, and the
    length of the document for lines after the last; [getPositionAt] gives for every integer,
    clamped to the document, the line that contains it and the column; and [getOffsetAt]
    takes that position back to the clamped offset. *)
Theorem positions_correct F s d :
  represents F s d ->
  (forall line col, 1 <= line -> PT.getOffsetAt line col s = Ok (match d with [] => 0 | _ => offset_of d line col end, s)) /\
  (forall off, exists p, PT.getPositionAt off s = Ok (p, s) /\ p = position_of d (clamp_offset d off) /\
     1 <= lineNumber p <= lineCnt_ s /\ 1 <= Position.column p /\
     PT.getOffsetAt (lineNumber p) (Position.column p) s = Ok (clamp_offset d off, s)).
Proof.
  intros (its & Hs & Hg & Hd & Hl & _).
  assert (Hoff : forall line col, 1 <= line -> PT.getOffsetAt line col s = Ok (match d with [] => 0 | _ => offset_of d line col end, s)).
  { intros line col Hline. pose proof (wp_getOffsetAt F s its line col Hs Hg Hline) as H. rewrite Hd in H. by apply wp_run in H as (r & s' & -> & -> & ->). }
  split; [exact Hoff|]. intros off. pose proof (wp_getPositionAt F s its off Hs Hg) as H. rewrite Hd in H.
  apply wp_run in H as (p & s' & Hp & -> & ->). exists (position_of d (clamp_offset d off)). split; [done|]. split; [done|].
  pose proof (zlen_nonneg d). assert (Hc : 0 <= clamp_offset d off <= zlen d) by (unfold clamp_offset; lia).
  pose proof (line_of_nonneg d (clamp_offset d off)). pose proof (line_of_le d _ Hc).
  destruct (line_start_of d _ Hc) as (x & Hx & Hxr & _). split; [|split].
  - unfold position_of. cbn [lineNumber]. lia.
  - unfold position_of. cbn [Position.column]. rewrite Hx. simpl. lia.
  - rewrite Hoff by (unfold position_of; cbn [lineNumber]; lia). by rewrite offset_position.
Qed.

Lemma positions_correct_witness : exists s, PT.insert 0 sample_text true empty_tree = Ok (tt, s) /\
  PT.getOffsetAt 2 2 s = Ok (3, s) /\ PT.getPositionAt 2 s = Ok (mkPosition 2 1, s) /\ PT.getPositionAt 100 s = Ok (mkPosition 2 2, s).
Proof.
  pose proof (wp_insert ∅ empty_tree [] 0 sample_text true empty_represents ltac:(by vm_compute) ltac:(done) ltac:(by vm_compute) ltac:(done)) as H1.
  apply wp_run in H1 as ([] & s & E1 & Hs & _). change (inserted_text [] 0 sample_text) with sample_text in Hs.
  destruct (positions_correct ∅ s sample_text Hs) as [Ho Hp]. exists s. split; [exact E1|]. split; [exact (Ho 2 2 ltac:(done))|].
  destruct (Hp 2) as (p & H1 & -> & _). destruct (Hp 100) as (q & H2 & -> & _). split; [exact H1|exact H2].
Defined.
