(* ===== verification/PtRead.v ===== *)
(** * Reading parts of a piece tree

    [getCharCode], and the text between two positions: [nodeAt2] finds the node of a
    position, [getValueInRange] puts the parts of the nodes together. *)

From S2P Require Import Prelude Position TextRange Length Store RbTree RbRep RbMeta RbInsert RbWalk RbDelete PtBuffer PtSpan PieceTree PtState PtEdit PtSearch PtInsert PtDelete PtQuery PtLines.

#[local] Open Scope js_scope.
#[local] Arguments Z.eqb : simpl never.
#[local] Arguments Z.ltb : simpl never.
#[local] Arguments Z.gtb : simpl never.
#[local] Arguments Z.geb : simpl never.
#[local] Arguments Z.leb : simpl never.
#[local] Arguments Z.add : simpl never.
#[local] Arguments Z.sub : simpl never.
#[local] Hint Resolve elem_here : core.

Implicit Types (its xs ys zs : list item) (F : gmap ptr TreeNode) (s : PieceTreeBase) (x : ptr) (a b d str : list Z).

(** ** Programs that throw *)

Definition fails {S A} (m : ST S A) (s : S) (e : js_error) : Prop := m s = Throw e.

Lemma fails_bind {S A B} (m : ST S A) (f : A -> ST S B) (s : S) e : fails m s e -> fails (m ≫= f) s e.
Proof. unfold fails, mbind, ST_bind. by intros ->. Qed.

Lemma fails_after {S A B} (m : ST S A) (f : A -> ST S B) (s : S) Q e :
  wp m s Q -> (forall r (s' : S), Q r s' -> fails (f r) s' e) -> fails (m ≫= f) s e.
Proof. intros H Hf. apply wp_run in H as (r & s' & Hr & HQ). unfold fails, mbind, ST_bind in *. rewrite Hr. by apply Hf. Qed.

(** ** The buffer of a node *)

(** Its text starts at [o]. *)
Lemma wp_buffer {A} s p str (Q : A -> PieceTreeBase -> Prop) (k : list Z -> Z -> P A) :
  has_text (buffers_ s) p str ->
  (forall b o, 0 <= o -> o + zlen str <= zlen b -> str = sub b o (o + zlen str) -> wp (k b o) s Q) ->
  wp (buffer ← PT.piece_buffer p; startOffset ← PT.piece_start p; k buffer startOffset) s Q.
Proof.
  intros [Hsp _] Hk. pose proof Hsp as (b & oa & Hi & Hok & [Ha H1] & [Hb H2] & Hs).
  pt_step. eapply wp_on_buffers; [by rewrite (get_buffer_ok _ _ _ Hi)|]. cbn [result_bind].
  pt_step. eapply wp_on_buffers; [by apply (offsetInBuffer_ok _ _ _ Hi Hok _ oa)|]. apply Hk; [lia|lia|done].
Qed.

Lemma sub_char b o str r : 0 <= o -> o + zlen str <= zlen b -> str = sub b o (o + zlen str) -> 0 <= r < zlen str -> b.[o + r] = str.[r].
Proof. intros Ho Hl Hs Hr. rewrite Hs at 1. rewrite sub_at by lia. done. Qed.

(** ** One code unit *)

(** [next] of the last node is [SENTINEL], which has no piece. *)
Lemma sentinel_piece F s its : wf F s its -> fails (npiece SENTINEL) s TypeError.
Proof.
  intros [(t & [_ (_ & _ & Hsn & _)] & _) _]. unfold fails, npiece, on_tree, get_piece, mbind, ST_bind.
  unfold fld, deref, mbind, ST_bind. by rewrite Hsn.
Qed.

Lemma charCode_ok F s xs x p str ys rem o :
  wf F s (xs ++ (x, (p, str)) :: ys) -> good ys -> 0 <= rem <= zlen str ->
  match (str ++ doc ys).[rem] with
  | Some c => wp (PT.getCharCode_ (mkNodePos x rem o)) s (fun r s' => s' = s /\ r = Some c)
  | None => fails (PT.getCharCode_ (mkNodePos x rem o)) s TypeError
  end.
Proof.
  intros Hs Hg Hrem. pose proof (wf_text _ _ _ _ _ _ _ Hs) as Hp. pose proof (proj1 (proj2 Hp)) as Hlen. unfold PT.getCharCode_. cbn [np_node remainder].
  destruct (Z.eq_dec rem (zlen str)) as [->|Hne].
  - rewrite at_app_r, Z.sub_diag by lia. destruct ys as [|[y [q strb]] ys].
    + change ((doc []).[0]) with (@None Z). eapply fails_after; [eapply (wp_piece F s xs x p str []); [exact Hs|by instantiate (1 := fun r s' => r = p /\ s' = s)]|].
      intros r s' [-> ->]. rewrite Hlen, Z.eqb_refl. eapply fails_after; [eapply (wp_next_node F s xs x (p, str) []); [exact Hs|by instantiate (1 := fun r s' => r = SENTINEL /\ s' = s)]|].
      intros r s' [-> ->]. apply fails_bind. by eapply sentinel_piece.
    + apply good_cons in Hg as (Hstr & _). rewrite doc_cons. destruct strb as [|c strb]; [done|]. change (((c :: strb) ++ doc ys).[0]) with (Some c). cbv iota.
      pt_step. eapply wp_piece; [exact Hs|]. rewrite Hlen, Z.eqb_refl. pt_step. eapply wp_next_node; [exact Hs|]. cbn [first_node fst].
      assert (Hs2 := Hs). rewrite app_snoc in Hs2. pt_step. eapply wp_piece; [exact Hs2|]. apply (wp_buffer s q (c :: strb)); [by eapply wf_text|].
      intros b oa Ho Hb Hsub. pt_step. split; [done|]. unfold charCodeAt. pose proof (sub_char b oa (c :: strb) 0 Ho Hb Hsub) as E. rewrite Z.add_0_r in E.
      apply E. rewrite zlen_cons. pose proof (zlen_nonneg strb). lia.
  - rewrite at_app_l by lia. destruct (at_in_range str rem) as [c Hc]; [lia|]. rewrite Hc. pt_step. eapply wp_piece; [exact Hs|]. rewrite Hlen.
    destruct (Z.eqb_spec rem (zlen str)); [done|]. apply (wp_buffer s p str _ _ Hp). intros b oa Ho Hb Hsub. pt_step. split; [done|]. unfold charCodeAt. rewrite <- Hc.
    apply sub_char; [done|done|done|lia].
Qed.

Lemma wp_nodeAt_loop_out s x its off base fuel :
  search (heap (tree s)) x its -> (List.length its < fuel)%nat -> off < 0 \/ zlen (doc its) < off \/ its = [] ->
  wp (PT.nodeAt_loop fuel x off base) s (fun r s' => s' = s /\ r = None).
Proof.
  intros Hx. revert off base fuel. induction Hx as [|x n p str xs ys Hn Hne Hp Hsz Hlf Hxl IHl Hxr IHr Hlen Hlfc Hstr];
    intros off base fuel Hf Ho; (destruct fuel as [|fuel]; [lia|]); cbn [PT.nodeAt_loop].
  { change (SENTINEL =? SENTINEL) with true. cbv iota. by pt_step. }
  assert (Ho' : off < 0 \/ zlen (doc xs) + zlen str + zlen (doc ys) < off).
  { rewrite doc_app, doc_cons, !zlen_app in Ho. destruct Ho as [|[|]]; [by left|right; lia|by destruct xs]. }
  pose proof (zlen_nonneg (doc xs)). pose proof (zlen_pos _ Hstr). pose proof (zlen_nonneg (doc ys)).
  destruct (Z.eqb_spec x SENTINEL); [done|]. rewrite length_app in Hf. simpl in Hf.
  pt_step. eapply wp_nfld; [exact Hn|]. rewrite Z.gtb_ltb, Hsz. destruct (Z.ltb_spec off (zlen (doc xs))) as [Hlt|Hge].
  - pt_step. eapply wp_nfld; [exact Hn|]. apply IHl; [lia|left; lia].
  - pt_step. eapply wp_npiece_at; [exact Hn|exact Hp|]. rewrite Z.geb_leb, Hlen. destruct (Z.leb_spec off (zlen (doc xs) + zlen str)); [lia|].
    pt_step. eapply wp_nfld; [exact Hn|]. apply IHr; [lia|right; left; lia].
Qed.

Lemma wp_nodeAt_out F s its off :
  wf F s its -> good its -> cache_ok its s -> off < 0 \/ zlen (doc its) < off \/ its = [] ->
  wp (PT.nodeAt off) s (fun r s' => s' = s /\ r = None).
Proof.
  intros Hs Hg [Hc Hcl] Ho. unfold PT.nodeAt. pt_step. apply wp_on_tree_read, wp_get_root. split; [done|].
  pt_step. unfold SC.get. pt_step. pt_step. eapply wp_mono; [eapply wp_get_loop; [exact Hs|]|].
  { rewrite Forall_forall in Hc |- *. intros e He. apply Hc. rewrite rev_alt in He. by apply (elem_of_reverse _ (searchCache_ s)) in He. }
  intros r s1 [-> Hr]. destruct r as [e|].
  - destruct (Hr e eq_refl) as (_ & xs & p & str & ys & -> & _ & Hrange). rewrite doc_app, doc_cons, !zlen_app in Ho.
    pose proof (zlen_nonneg (doc xs)). pose proof (zlen_nonneg (doc ys)). destruct Ho as [|[|]]; [lia|lia|by destruct xs].
  - destruct (wf_search _ _ _ Hs Hg) as [Hsearch Hsize]. pt_step. apply wp_on_tree_read, wp_gets. split; [done|].
    apply (wp_nodeAt_loop_out s _ its); [exact Hsearch|lia|done].
Qed.

(** The cache of a tree does not say what the tree stands for. *)
Lemma represents_cache F s d e its xs pt ys :
  represents F s d -> wf F s its -> doc its = d -> good its -> its = xs ++ (ce_node e, pt) :: ys -> entry_at e (doc xs) -> represents F (with_cache [e] s) d.
Proof.
  intros (its' & Hs' & Hg' & Hd' & H1 & H2 & H3 & H4 & H5) Hs Hd Hg -> Hat. eexists. split; [exact Hs|]. split; [exact Hg|].
  split; [exact Hd|]. split; [done|]. split; [done|]. split; [by eapply cache_ok_one|by split].
Qed.

(** C32: Reading a code unit.  In a piece tree that stands for a document, [getCharCode] gives
    the code unit at an offset inside the document, also when it is the first of the node
    after the one that was found, and the tree still stands for the document; at every other
    offset, the end of the document included, it throws a [TypeError]: [_getCharCode] means to
    return 0 at the end, but tests the node after the last one for being null. *)
Theorem getCharCode_correct F s d off :
  represents F s d ->
  match d.[off] with
  | Some c => wp (PT.getCharCode off) s (fun r s' => r = Some c /\ represents F s' d /\ buffers_ s' = buffers_ s)
  | None => PT.getCharCode off s = Throw TypeError
  end.
Proof.
  intros Hrep. pose proof Hrep as (its & Hs & Hg & Hd & _ & _ & Hc & _). unfold PT.getCharCode.
  destruct (decide (0 <= off <= zlen d /\ its <> [])) as [[Ho Hne]|Hout].
  - pose proof (wp_nodeAt F s its off Hs Hg Hc ltac:(by rewrite Hd) Hne) as Hn.
    apply wp_run in Hn as (r & s1 & Hrun & xs & x & p & str & ys & e & Eits & Hrem & -> & -> & Hex & Hat).
    assert (Hs1 : wf F (with_cache [e] s) (xs ++ (x, (p, str)) :: ys)) by (by rewrite <- Eits).
    assert (Hg1 := Hg). rewrite Eits in Hg1. apply good_app in Hg1 as (_ & (_ & _ & Hgy)%good_cons & _).
    pose proof (charCode_ok F _ xs x p str ys (off - zlen (doc xs)) (zlen (doc xs)) Hs1 Hgy ltac:(lia)) as Hch.
    assert (Ech : (str ++ doc ys).[off - zlen (doc xs)] = d.[off]) by (rewrite <- Hd, Eits, doc_app, doc_cons; by rewrite (at_app_r (doc xs)) by lia).
    rewrite Ech in Hch. destruct (d.[off]) as [c|].
    + unfold wp, mbind, ST_bind. rewrite Hrun. cbn. apply wp_run in Hch as (r & s' & -> & -> & ->). split; [done|]. split; [|done].
      eapply represents_cache; [exact Hrep|exact Hs|done|done|by rewrite Hex|done].
    + unfold mbind, ST_bind. rewrite Hrun. exact Hch.
  - assert (Ho : off < 0 \/ zlen (doc its) < off \/ its = []) by (rewrite Hd; destruct (decide (its = [])); [by right; right|]; destruct (decide (0 <= off <= zlen d)); [by destruct Hout|lia]).
    assert (En : d.[off] = None).
    { unfold at_. destruct (Z.ltb_spec off 0); [done|]. apply lookup_ge_None. rewrite Hd in Ho. destruct Ho as [|[| ->]]; [lia|unfold zlen in *; lia|].
      rewrite <- Hd. simpl. lia. }
    rewrite En. pose proof (wp_nodeAt_out F s its off Hs Hg Hc Ho) as Hn. apply wp_run in Hn as (r & s' & Hrun & -> & ->).
    unfold mbind, ST_bind. by rewrite Hrun.
Qed.

Lemma getCharCode_correct_witness : exists s, PT.insert 0 sample_text true empty_tree = Ok (tt, s) /\
  PT.getCharCode 3 s = Throw TypeError /\ exists s', PT.getCharCode 1 s = Ok (Some 10, s').
Proof.
  pose proof (wp_insert ∅ empty_tree [] 0 sample_text true empty_represents ltac:(by vm_compute) ltac:(done) ltac:(by vm_compute) ltac:(done)) as H1.
  apply wp_run in H1 as ([] & s & E1 & Hs & _). change (inserted_text [] 0 sample_text) with sample_text in Hs. exists s. split; [exact E1|]. split.
  - exact (getCharCode_correct ∅ s sample_text 3 Hs).
  - pose proof (getCharCode_correct ∅ s sample_text 1 Hs) as H. apply wp_run in H as (r & s' & Hr & -> & _). exists s'. exact Hr.
Defined.

(** ** Where a node starts *)

Lemma wp_nfld_node {A} F sp s K c l i r (f : TreeNode -> A) (Q : A -> PieceTreeBase -> Prop) :
  tree_at F sp (tree s) (plug K (T c l i r)) -> Q (f (node_of (par K) (root_of l) (root_of r) c i)) s -> wp (nfld f (addr i)) s Q.
Proof. intros Ht HQ. apply wp_on_tree_read. by eapply (wp_fld_node F sp _ K). Qed.

Lemma wp_npiece_node F sp s K c l i r (Q : Piece -> PieceTreeBase -> Prop) :
  tree_at F sp (tree s) (plug K (T c l i r)) -> Q (pc i) s -> wp (npiece (addr i)) s Q.
Proof.
  intros Ht HQ. apply wp_on_tree_read. eapply wp_get_piece; [by eapply (tree_lookup F sp _ K)|done|]. done.
Qed.

(** The climb adds what lies left of the path. *)
Lemma wp_offsetOfNode_loop F sp s K t k (pos : Z) fuel :
  t <> E -> tree_at F sp (tree s) (plug K t) -> meta (plug K t) -> (List.length K < fuel)%nat -> k = pos + total length (before K) ->
  wp (loop fuel (fun '(node, _) => r ← on_tree get_root; mret (negb (node =? r)))
    (fun '(node, pos) =>
       p ← nfld parent node;
       pr ← nfld right p;
       pos ← (if pr =? node then
                sz ← nfld size_left p; piece ← npiece p; mret (pos + (sz + length piece))
              else mret pos);
       p ← nfld parent node;
       mret (p, pos)) (root_of t, pos)) s (fun r s' => s' = s /\ r.2 = k).
Proof.
  revert t pos fuel. induction K as [|f K IH]; intros t pos fuel Ht Hs Hm Hf ->; (destruct fuel as [|fuel]; [simpl in Hf; lia|]); cbn [loop];
    pt_step; pt_step; apply wp_on_tree_read, wp_get_root; (split; [done|]); pt_step; pose proof (root_above _ _ _ _ _ Ht Hs) as Hroot.
  - rewrite (proj2 Hroot eq_refl), Z.eqb_refl. simpl negb. cbv iota. pt_step. split; [done|]. cbn. lia.
  - destruct (Z.eqb_spec (root_of t) (root (tree s))) as [E0|E0]; [by apply Hroot in E0|]. simpl negb. cbv iota.
    destruct t as [|ct lt it rt]; [done|]. pt_step. pt_step. eapply (wp_nfld_node F sp s (f :: K)); [exact Hs|]. cbn [parent node_of par root_of].
    destruct f as [c i r|c l i]; cbn [finfo] in *; cbn [plug plug1] in Hs, Hm.
    + pt_step. eapply (wp_nfld_node F sp s K); [exact Hs|]. cbn [right node_of].
      assert (Hsib : root_of r <> addr it) by (by apply (sibling_right F sp (tree s) c i r K (T ct lt it rt))).
      destruct (Z.eqb_spec (root_of r) (addr it)); [done|]. pt_step. pt_step. pt_step. eapply (wp_nfld_node F sp s (FL c i r :: K)); [exact Hs|]. pt_step.
      cbn [parent node_of par finfo]. eapply (IH (T c (T ct lt it rt) i r)); [done|exact Hs|exact Hm|simpl in Hf; lia|done].
    + pt_step. eapply (wp_nfld_node F sp s K); [exact Hs|]. cbn [right node_of root_of]. rewrite Z.eqb_refl. pt_step.
      pt_step. eapply (wp_nfld_node F sp s K); [exact Hs|]. cbn [size_left node_of]. pt_step. eapply (wp_npiece_node F sp s K); [exact Hs|]. pt_step.
      pt_step. eapply (wp_nfld_node F sp s (FR c l i :: K)); [exact Hs|]. pt_step. cbn [parent node_of par finfo].
      assert (Hsl : sl i = tsize l) by (apply meta_plug in Hm as [(H & _) _]; exact H). rewrite Hsl.
      eapply (IH (T c l i (T ct lt it rt))); [done|exact Hs|exact Hm|simpl in Hf; lia|]. cbn [before]. rewrite !total_app. cbn [total snd]. unfold tsize. lia.
Qed.

Lemma wp_offsetOfNode F s xs x p str ys :
  wf F s (xs ++ (x, (p, str)) :: ys) -> good (xs ++ (x, (p, str)) :: ys) ->
  wp (PT.offsetOfNode x) s (fun r s' => s' = s /\ r = zlen (doc xs)).
Proof.
  intros Hs Hg. pose proof (wf_pieces _ _ _ Hs Hg) as Hp. apply Forall_app in Hp as [Hp _]. apply good_app in Hg as (Hgx & _).
  destruct (total_nodes xs Hgx Hp) as [Htot _]. destruct Hs as [(u & Ht & _ & Hm & He) _]. rewrite nodes_app in He.
  apply find_place in He as (K & c & l & i & r & -> & [= -> ->] & Hb & _). unfold PT.offsetOfNode.
  pt_step. eapply (wp_nfld_node F SENTINEL s K); [exact Ht|]. cbn [size_left node_of]. pt_step. apply wp_on_tree_read, wp_gets. split; [done|].
  pt_step. assert (Hsl : sl i = tsize l) by (apply meta_plug in Hm as [(H & _) _]; exact H).
  eapply wp_mono; [eapply (wp_offsetOfNode_loop F SENTINEL s K (T c l i r)); [done|exact Ht|exact Hm| |reflexivity]|].
  { pose proof (length_plug K (T c l i r)). destruct Ht as [_ Hat]. pose proof (heap_at_size _ _ _ _ Hat). lia. }
  intros [node pos] s' [-> Epos]. cbn [snd] in Epos. pt_step. split; [done|]. rewrite Epos, <- Htot, Hb, total_app, Hsl. unfold tsize. lia.
Qed.

(** ** The node of a position *)

(** Where the line ends, with its line break. *)
Definition line_end d (l : Z) : Z := default (zlen d) ((starts d).[l]).

Lemma line_end_le d l : 0 <= l -> line_end d l <= zlen d.
Proof.
  intros Hl. unfold line_end. destruct (decide (l <= breaks d)) as [Hb|Hb]; [by destruct (start_at d l ltac:(lia)) as (e & -> & _ & ?)|].
  by rewrite at_None by (rewrite zlen_starts; lia).
Qed.

(** The node position of an offset. *)
Definition pos_at its (o : Z) (pos : NodePosition) : Prop := exists xs p str ys,
  its = xs ++ (np_node pos, (p, str)) :: ys /\ zlen (doc xs) + remainder pos = o /\ 0 <= remainder pos <= zlen str.

Lemma pos_at_app xs its ys o pos : pos_at its o pos -> pos_at (xs ++ its ++ ys) (zlen (doc xs) + o) pos.
Proof.
  intros (xs' & p & str & ys' & -> & H & Hr). exists (xs ++ xs'), p, str, (ys' ++ ys). rewrite doc_app, zlen_app, <- !app_assoc. split; [done|]. split; [lia|done].
Qed.

(** The line [line] ends after [y], and the column is counted from the end of [y]. *)
Definition pos_after its (line o : Z) (y : ptr) (col : Z) : Prop := exists xs p str ys,
  its = xs ++ (y, (p, str)) :: ys /\ line - 1 = breaks (doc xs) + breaks str /\ col - 1 = o - (zlen (doc xs) + zlen str) /\ 0 < col - 1.

(** A node in the middle: the part of its texts in the lines of all. *)
Section middle.
Context (xs : list item) (x : ptr) (p : Piece) (str : list Z) (ys : list item) (line : Z).
Hypothesis Hg : good (xs ++ (x, (p, str)) :: ys).

Lemma middle_left st : 0 <= line - 1 <= breaks (doc xs) -> (starts (doc (xs ++ (x, (p, str)) :: ys))).[line - 1] = Some st ->
  (starts (doc xs)).[line - 1] = Some st /\ (line <= breaks (doc xs) -> line_end (doc xs) line = line_end (doc (xs ++ (x, (p, str)) :: ys)) line).
Proof.
  apply good_app in Hg as (_ & _ & Ht). rewrite doc_app. intros Hl Hst. rewrite (starts_app_at _ _ _ Ht) in Hst.
  destruct (Z.leb_spec (line - 1) (breaks (doc xs))); [|lia]. split; [done|]. intros Hl2. unfold line_end. rewrite (starts_app_at _ _ _ Ht).
  destruct (Z.leb_spec line (breaks (doc xs))); [|lia]. by destruct (start_at (doc xs) line ltac:(lia)) as (e & -> & _).
Qed.

Lemma middle_here st : breaks (doc xs) < line - 1 \/ (xs = [] /\ line = 1) -> line - 1 <= breaks (doc xs) + breaks str ->
  (starts (doc (xs ++ (x, (p, str)) :: ys))).[line - 1] = Some st ->
  (starts str).[line - 1 - breaks (doc xs)] = Some (st - zlen (doc xs)) /\
  (line - 1 < breaks (doc xs) + breaks str -> line_end (doc (xs ++ (x, (p, str)) :: ys)) line = zlen (doc xs) + line_end str (line - breaks (doc xs))).
Proof.
  apply good_app in Hg as (_ & (Hne & Ht2 & _)%good_cons & Ht). rewrite doc_cons in Ht. rewrite doc_app, doc_cons. intros Hor Hl Hst.
  pose proof (breaks_nonneg str). split.
  - destruct Hor as [Hlt|[-> ->]].
    + replace (line - 1) with (breaks (doc xs) + (line - 1 - breaks (doc xs))) in Hst by lia. rewrite (starts_mid _ _ _ _ Ht Ht2) in Hst by lia.
      destruct ((starts str).[line - 1 - breaks (doc xs)]) as [y|]; [|done]. injection Hst as <-. f_equal. lia.
    + change (doc []) with (@nil Z) in *. change (breaks []) with 0. change (zlen []) with 0. rewrite starts_0 in Hst |- *. injection Hst as <-. done.
  - intros Hlt. pose proof (breaks_nonneg (doc xs)). unfold line_end. replace line with (breaks (doc xs) + (line - breaks (doc xs))) at 1 by lia.
    assert (0 < line - breaks (doc xs)) by (destruct Hor as [|[-> ->]]; [lia|change (breaks (doc [])) with 0; lia]).
    rewrite (starts_mid _ _ _ _ Ht Ht2) by lia. destruct (start_at str (line - breaks (doc xs)) ltac:(lia)) as (e & -> & _). simpl. lia.
Qed.

Lemma middle_right st : breaks (doc xs) + breaks str < line - 1 ->
  (starts (doc (xs ++ (x, (p, str)) :: ys))).[line - 1] = Some st ->
  (starts (doc ys)).[line - (breaks (doc xs) + breaks str) - 1] = Some (st - (zlen (doc xs) + zlen str)) /\
  (line - (breaks (doc xs) + breaks str) <= breaks (doc ys) ->
     line_end (doc (xs ++ (x, (p, str)) :: ys)) line = zlen (doc xs) + zlen str + line_end (doc ys) (line - (breaks (doc xs) + breaks str))).
Proof.
  apply good_app in Hg as (_ & (Hne & Ht2 & _)%good_cons & Ht). rewrite doc_cons in Ht. rewrite doc_app, doc_cons. intros Hl.
  assert (Ht3 : torn (doc xs ++ str) (doc ys) = false) by (by apply torn_app_mid). assert (Hb : breaks (doc xs ++ str) = breaks (doc xs) + breaks str) by (apply breaks_app_untorn; by eapply torn_app_pre).
  rewrite app_assoc. unfold line_end. rewrite !(starts_app_at _ _ _ Ht3), Hb, zlen_app.
  destruct (Z.leb_spec (line - 1) (breaks (doc xs) + breaks str)); [lia|]. destruct (Z.leb_spec line (breaks (doc xs) + breaks str)); [lia|].
  replace (line - 1 - (breaks (doc xs) + breaks str)) with (line - (breaks (doc xs) + breaks str) - 1) by lia. intros Hst. split.
  - destruct (_.[_]) as [y|]; [|done]. injection Hst as <-. f_equal. lia.
  - intros Hl2. destruct (start_at (doc ys) (line - (breaks (doc xs) + breaks str)) ltac:(lia)) as (e & -> & _). simpl. lia.
Qed.
End middle.

Lemma search_leaf_inv h its : search h SENTINEL its -> its = [].
Proof. inversion 1; subst; done. Qed.

Lemma search_ne h x its : search h x its -> x <> SENTINEL -> its <> [].
Proof. inversion 1; subst; [done|]. by destruct xs. Qed.

(** The test of the searches by line for going to the left. *)
Lemma left_test h xs l (line : Z) : search h l xs -> 1 <= line ->
  (negb (l =? SENTINEL) && (line - 1 <=? breaks (doc xs)) = true /\ xs <> [] /\ line - 1 <= breaks (doc xs)) \/
  (negb (l =? SENTINEL) && (line - 1 <=? breaks (doc xs)) = false /\ (breaks (doc xs) < line - 1 \/ (xs = [] /\ (line = 1 \/ breaks (doc xs) < line - 1)))).
Proof.
  intros Hx Hl. destruct (Z.eqb_spec l SENTINEL) as [->|Hne]; cbn [negb andb].
  - apply search_leaf_inv in Hx as ->. right. change (breaks (doc [])) with 0. split; [done|]. right. split; [done|lia].
  - pose proof (search_ne _ _ _ Hx Hne). destruct (Z.leb_spec (line - 1) (breaks (doc xs))); [by left|right; split; [done|by left]].
Qed.

Lemma wp_nodeAt2_loop s x its line col base o st fuel :
  search (heap (tree s)) x its -> good its -> texts_ok s its -> (List.length its < fuel)%nat -> its <> [] ->
  1 <= line <= breaks (doc its) + 1 -> 1 <= col -> (starts (doc its)).[line - 1] = Some st -> o = st + col - 1 ->
  (line <= breaks (doc its) -> o <= line_end (doc its) line) ->
  wp (PT.nodeAt2_loop fuel x line col base) s (fun r s' => s' = s /\
    match r with inl pos => pos_at its o pos | inr (y, col') => pos_after its line o y col' end).
Proof.
  intros Hx. revert line base o st fuel. induction Hx as [|x n p str xs ys Hn Hne Hp Hsz Hlf Hxl IHl Hxr IHr Hlen Hlfc Hstr];
    intros line base o st fuel Hg Ht Hf Hits Hline Hcol Hst Ho Hend; [done|]. destruct fuel as [|fuel]; [lia|]. cbn [PT.nodeAt2_loop].
  destruct (Z.eqb_spec x SENTINEL); [done|]. rewrite length_app in Hf. simpl in Hf. clear Hits.
  pose proof Hg as (Hgx & (_ & Ht2 & Hgy)%good_cons & Htx)%good_app. rewrite doc_cons in Htx.
  apply Forall_app in Ht as [Htxs [Htp Htys]%Forall_cons]. cbn [fst snd] in Htp.
  pose proof (breaks_nonneg (doc xs)). pose proof (breaks_nonneg str). pose proof (breaks_nonneg (doc ys)).
  assert (Hbr : breaks (doc (xs ++ (x, (p, str)) :: ys)) = breaks (doc xs) + breaks str + breaks (doc ys)).
  { rewrite doc_app, doc_cons, (breaks_app_untorn _ _ Htx), (breaks_app_untorn _ _ Ht2). lia. }
  pt_step. eapply wp_nfld; [exact Hn|]. pt_step. eapply wp_nfld; [exact Hn|]. rewrite Hlf, Z.geb_leb.
  destruct (left_test _ _ _ line Hxl ltac:(lia)) as [(-> & Hnex & Hle)|(-> & Hcase)].
  - destruct (middle_left xs x p str ys line Hg st ltac:(lia) Hst) as [Hst' Hend'].
    eapply wp_mono; [apply (IHl line base o st); try done; [lia|lia|intros Hl; rewrite Hend' by done; apply Hend; lia]|].
    intros r s' [-> Hr]. split; [done|]. destruct r as [pos|[y col']].
    + apply (pos_at_app [] xs ((x, (p, str)) :: ys)) in Hr. by rewrite Z.add_0_l in Hr.
    + destruct Hr as (xs' & p' & str' & ys' & -> & Hr). exists xs', p', str', (ys' ++ (x, (p, str)) :: ys). by rewrite <- app_assoc.
  - pt_step. eapply wp_npiece_at; [exact Hn|exact Hp|]. rewrite Hlfc, Hlen, Z.gtb_ltb.
    destruct (Z.ltb_spec (line - 1) (breaks (doc xs) + breaks str)) as [Hlt|Hge].
    + assert (Hor : breaks (doc xs) < line - 1 \/ (xs = [] /\ line = 1)) by (destruct Hcase as [|[-> [|]]]; [by left|by right|by left]).
      destruct (middle_here xs x p str ys line Hg st Hor ltac:(lia) Hst) as [Hst' Hend']. specialize (Hend' Hlt). specialize (Hend ltac:(lia)).
      pt_step. eapply wp_on_buffers; [by apply accumulated_ok|]. pt_step. eapply wp_on_buffers; [by apply accumulated_ok|].
      pt_step. eapply wp_nfld; [exact Hn|]. pt_step. split; [done|]. exists xs, p, str, ys. cbn [np_node remainder]. split; [done|].
      assert (Hk : 0 <= line - 1 - breaks (doc xs)) by (destruct Hor as [|[-> ->]]; [lia|done]).
      replace (line - breaks (doc xs) - 2) with (line - 1 - breaks (doc xs) - 1) by lia. rewrite (accumulated_start _ _ _ Hk Hst').
      unfold accumulated. destruct (Z.ltb_spec (line - breaks (doc xs) - 1) 0); [lia|].
      replace (line - breaks (doc xs) - 1 + 1) with (line - breaks (doc xs)) by lia. change (default (zlen str) _) with (line_end str (line - breaks (doc xs))).
      destruct (start_at str (line - 1 - breaks (doc xs)) ltac:(lia)) as (y & Hy & Hyr). rewrite Hst' in Hy. injection Hy as <-.
      destruct (start_at str (line - breaks (doc xs)) ltac:(lia)) as (e & He & Her). unfold line_end in Hend' |- *. rewrite He in Hend' |- *. simpl in Hend' |- *.
      unfold line_end in Hend. lia.
    + destruct (Z.eqb_spec (breaks (doc xs) + breaks str) (line - 1)) as [E|E].
      * assert (Hor : breaks (doc xs) < line - 1 \/ (xs = [] /\ line = 1)) by (destruct Hcase as [|[-> [|]]]; [by left|by right|by left]).
        destruct (middle_here xs x p str ys line Hg st Hor ltac:(lia) Hst) as [Hst' _].
        assert (Hk : 0 <= line - 1 - breaks (doc xs)) by lia.
        destruct (start_at str (line - 1 - breaks (doc xs)) ltac:(lia)) as (y & Hy & Hyr). rewrite Hst' in Hy. injection Hy as <-.
        pt_step. eapply wp_on_buffers; [by apply accumulated_ok|]. replace (line - breaks (doc xs) - 2) with (line - 1 - breaks (doc xs) - 1) by lia. rewrite (accumulated_start _ _ _ Hk Hst').
        destruct (Z.leb_spec (st - zlen (doc xs) + col - 1) (zlen str)).
        -- pt_step. split; [done|]. exists xs, p, str, ys. cbn [np_node remainder]. split; [done|]. lia.
        -- pt_step. split; [done|]. exists xs, p, str, ys. split; [done|]. lia.
      * destruct (middle_right xs x p str ys line Hg st ltac:(lia) Hst) as [Hst' Hend'].
        pt_step. eapply wp_nfld; [exact Hn|]. pt_step. eapply wp_nfld; [exact Hn|].
        assert (Hys : ys <> []) by (intros ->; change (breaks (doc [])) with 0 in *; lia).
        eapply wp_mono; [eapply (IHr (line - (breaks (doc xs) + breaks str)) _ (o - (zlen (doc xs) + zlen str))); [done|done|lia|done|lia|done|exact Hst'|lia|]|].
        { intros Hl. specialize (Hend' Hl). specialize (Hend ltac:(lia)). lia. }
        intros r s' [-> Hr]. split; [done|]. destruct r as [pos|[y col']].
        -- destruct Hr as (xs' & p' & str' & ys' & -> & Hr1 & Hr2). exists (xs ++ (x, (p, str)) :: xs'), p', str', ys'. rewrite doc_app, doc_cons, !zlen_app.
           split; [by rewrite <- app_assoc|]. split; [lia|done].
        -- destruct Hr as (xs' & p' & str' & ys' & -> & Hr1 & Hr2 & Hr3). exists (xs ++ (x, (p, str)) :: xs'), p', str', ys'. rewrite doc_app, doc_cons, !zlen_app.
           split; [by rewrite <- app_assoc|]. assert (Hbx : breaks (doc xs ++ str ++ doc xs') = breaks (doc xs) + breaks str + breaks (doc xs')).
           { pose proof Hgy as (_ & _ & _)%good_app. rewrite doc_app in Ht2. rewrite breaks_app_untorn by (by rewrite torn_app_r in Htx |- * by done).
             rewrite breaks_app_untorn by (by eapply torn_app_pre). lia. }
           rewrite Hbx. split; [lia|]. split; lia.
Qed.

Lemma wp_nodeAt2_next F s xs ys line o col fuel :
  wf F s (xs ++ ys) -> good (xs ++ ys) -> (List.length ys < fuel)%nat -> line - 1 = breaks (doc xs) -> col - 1 = o - zlen (doc xs) -> 0 < col - 1 ->
  o <= zlen (doc (xs ++ ys)) -> (line <= breaks (doc (xs ++ ys)) -> o <= line_end (doc (xs ++ ys)) line) ->
  wp (PT.nodeAt2_next fuel (first_node ys) col) s (fun r s' => s' = s /\ exists pos, r = Some pos /\ pos_at (xs ++ ys) o pos).
Proof.
  revert xs ys col. induction fuel as [|fuel IH]; intros xs ys col Hs Hg Hf Hl Hc Hpos Ho Hend; [lia|].
  destruct ys as [|[x [p str]] ys]; [rewrite app_nil_r in Ho; lia|]. cbn [first_node fst PT.nodeAt2_next].
  pose proof (wf_node_ne _ _ _ _ _ _ Hs) as Hne. destruct (Z.eqb_spec x SENTINEL); [done|].
  pose proof (wf_text _ _ _ _ _ _ _ Hs) as Hp. pose proof Hp as (_ & Hlen & Hlf).
  pose proof Hg as (_ & (Hstr & Ht2 & _)%good_cons & Ht)%good_app. rewrite doc_cons in Ht. specialize (Hlf Hstr). pose proof (breaks_nonneg str).
  pt_step. eapply wp_piece; [exact Hs|]. rewrite Hlf, Hlen, Z.gtb_ltb, Z.geb_leb. destruct (Z.ltb_spec 0 (breaks str)) as [Hb|Hb].
  - destruct (start_at str 1 ltac:(lia)) as (e & He & Her).
    assert (Hb2 : line_end (doc (xs ++ (x, (p, str)) :: ys)) line = zlen (doc xs) + e).
    { unfold line_end. rewrite doc_app, doc_cons. replace line with (breaks (doc xs) + 1) by lia. rewrite (starts_mid _ _ _ _ Ht Ht2) by lia. rewrite He. simpl. lia. }
    rewrite Hb2 in Hend. rewrite doc_app, doc_cons, (breaks_app_untorn _ _ Ht), (breaks_app_untorn _ _ Ht2) in Hend. pose proof (breaks_nonneg (doc ys)). specialize (Hend ltac:(lia)).
    pt_step. eapply wp_on_buffers; [by apply accumulated_ok|]. pt_step. eapply wp_mono; [by eapply wp_offsetOfNode|]. intros r s' [-> ->]. pt_step. split; [done|].
    change 0 with (1 - 1) at 1. rewrite (accumulated_start str 1 e) by done. eexists. split; [done|]. exists xs, p, str, ys. cbn [np_node remainder]. split; [done|]. lia.
  - destruct (Z.leb_spec (col - 1) (zlen str)) as [Hle|Hgt].
    + pt_step. eapply wp_mono; [by eapply wp_offsetOfNode|]. intros r s' [-> ->]. pt_step. split; [done|]. eexists. split; [done|].
      exists xs, p, str, ys. cbn [np_node remainder]. split; [done|]. lia.
    + pt_step. eapply wp_next_node; [exact Hs|].
      assert (Hdx : doc (xs ++ [(x, (p, str))]) = doc xs ++ str) by (rewrite doc_app, doc_cons, doc_nil; by rewrite app_nil_r).
      assert (Hbx : breaks (doc xs ++ str) = breaks (doc xs)) by (rewrite breaks_app_untorn by (by eapply torn_app_pre); lia).
      rewrite app_snoc in Hs, Hg, Ho, Hend |- *. apply IH; try done.
      * simpl in Hf. lia.
      * rewrite Hdx, Hbx. done.
      * rewrite Hdx, zlen_app. lia.
      * lia.
Qed.

(** [nodeAt2] finds the node of a position, the offset of a node being that of its text. *)
Lemma wp_nodeAt2 F s its line col o st :
  wf F s its -> good its -> its <> [] -> 1 <= line <= breaks (doc its) + 1 -> 1 <= col -> (starts (doc its)).[line - 1] = Some st -> o = st + col - 1 ->
  o <= line_end (doc its) line ->
  wp (PT.nodeAt2 line col) s (fun r s' => s' = s /\ exists pos, r = Some pos /\ pos_at its o pos).
Proof.
  intros Hs Hg Hne Hl Hc Hst Ho Hend. destruct (wf_search _ _ _ Hs Hg) as [Hsearch Hsize]. unfold PT.nodeAt2.
  pt_step. apply wp_on_tree_read, wp_get_root. split; [done|]. pt_step. apply wp_on_tree_read, wp_gets. split; [done|].
  pt_step. eapply wp_mono; [apply (wp_nodeAt2_loop s _ its line col 0 o st); try done; [by eapply wf_texts|lia]|].
  intros r s' [-> Hr]. destruct r as [pos|[x col']]; [pt_step; split; [done|]; by exists pos|].
  destruct Hr as (xs & p & str & ys & -> & Hr1 & Hr2 & Hr3). pt_step. eapply wp_next_node; [exact Hs|]. pt_step. apply wp_on_tree_read, wp_gets. split; [done|].
  assert (Hdx : doc (xs ++ [(x, (p, str))]) = doc xs ++ str) by (rewrite doc_app, doc_cons, doc_nil; by rewrite app_nil_r).
  pose proof Hg as (_ & (Hstr & Ht2 & _)%good_cons & Ht)%good_app. rewrite doc_cons in Ht.
  rewrite app_snoc in Hs, Hg, Hend, Hsize |- *. apply (wp_nodeAt2_next F s _ ys line o); try done.
  - rewrite length_app in Hsize. lia.
  - rewrite Hdx, breaks_app_untorn by (by eapply torn_app_pre). lia.
  - rewrite Hdx, zlen_app. lia.
  - etrans; [exact Hend|]. apply line_end_le. lia.
Qed.

(** ** The text between two positions *)

Lemma sub_buffer b o str i j : 0 <= o -> o + zlen str <= zlen b -> str = sub b o (o + zlen str) -> 0 <= i <= j -> j <= zlen str ->
  substring b (o + i) (o + j) = sub str i j.
Proof. intros Ho Hl Hs Hi Hj. rewrite substring_sub by lia. rewrite Hs at 1. rewrite sub_sub by lia. done. Qed.

Lemma sub_buffer_0 b o str j : 0 <= o -> o + zlen str <= zlen b -> str = sub b o (o + zlen str) -> 0 <= j <= zlen str ->
  substring b o (o + j) = sub str 0 j.
Proof. intros. rewrite <- (sub_buffer b o str 0 j) by (done || lia). by rewrite Z.add_0_r. Qed.

Lemma substr_buffer b o str : 0 <= o -> o + zlen str <= zlen b -> str = sub b o (o + zlen str) -> substr b o (zlen str) = str.
Proof. intros Ho Hl Hs. pose proof (zlen_nonneg str). rewrite substr_sub by lia. done. Qed.

Lemma sub_app_mid a b c i j : 0 <= i <= j -> j <= zlen b -> sub (a ++ b ++ c) (zlen a + i) (zlen a + j) = sub b i j.
Proof.
  intros Hi Hj. unfold sub, zlen in *. replace (Z.to_nat (Z.of_nat (List.length a) + i)) with (List.length a + Z.to_nat i)%nat by lia.
  rewrite drop_app_add, drop_app_le, take_app_le; [f_equal; lia|rewrite length_drop; lia|lia].
Qed.

Lemma sub_prefix str r : 0 <= r -> sub str 0 r = take (Z.to_nat r) str.
Proof. intros. unfold sub. rewrite Z.sub_0_r. by rewrite drop_0. Qed.

Lemma sub_suffix str r : 0 <= r -> sub str r (zlen str) = drop (Z.to_nat r) str.
Proof. intros. unfold sub. apply take_ge. rewrite length_drop. unfold zlen. lia. Qed.

Lemma sub_app_next a b c j : 0 <= j <= zlen b -> sub (a ++ b ++ c) (zlen a) (zlen a + j) = sub b 0 j.
Proof. intros. rewrite <- (sub_app_mid a b c 0 j) by lia. by rewrite Z.add_0_r. Qed.

(** The walk over the nodes up to the end position. *)
Lemma wp_value_loop F s xs ms ys pos q (strb : list Z) ret fuel :
  wf F s (xs ++ ms ++ (np_node pos, (q, strb)) :: ys) -> (List.length ms + 1 < fuel)%nat -> 0 <= remainder pos <= zlen strb ->
  wp (PT.getValueInRange2_loop fuel (first_node (ms ++ (np_node pos, (q, strb)) :: ys)) pos ret) s
    (fun r s' => s' = s /\ r = ret ++ doc ms ++ take (Z.to_nat (remainder pos)) strb).
Proof.
  revert xs ms ret. induction fuel as [|fuel IH]; intros xs ms ret Hs Hf Hr; [lia|]. destruct ms as [|[x [p str]] ms]; cbn [app first_node fst PT.getValueInRange2_loop].
  - pose proof (wf_node_ne _ _ _ _ _ _ Hs) as Hne. destruct (Z.eqb_spec (np_node pos) SENTINEL); [done|]. pt_step. eapply wp_piece; [exact Hs|].
    apply (wp_buffer s q strb); [by eapply wf_text|]. intros b o Ho Hb Hsub. rewrite Z.eqb_refl. pt_step. split; [done|]. rewrite doc_nil. cbn [app]. f_equal.
    rewrite (sub_buffer_0 b o strb) by (done || lia). apply sub_prefix. lia.
  - cbn [app] in Hs. pose proof (wf_node_ne _ _ _ _ _ _ Hs) as Hne. destruct (Z.eqb_spec x SENTINEL); [done|]. pt_step. eapply wp_piece; [exact Hs|].
    pose proof (wf_text _ _ _ _ _ _ _ Hs) as Hp. apply (wp_buffer s p str); [done|]. intros b o Ho Hb Hsub.
    assert (Hn : NoDup ((xs ++ (x, (p, str)) :: ms ++ (np_node pos, (q, strb)) :: ys).*1)) by by eapply wf_NoDup.
    destruct (Z.eqb_spec x (np_node pos)) as [E|_].
    { exfalso. rewrite fmap_app in Hn. apply NoDup_app in Hn as (_ & _ & Hn). cbn [fmap list_fmap fst] in Hn. apply NoDup_cons in Hn as [Hn _]. apply Hn.
      rewrite E. change (list_fmap _ _ fst (ms ++ (np_node pos, (q, strb)) :: ys)) with ((ms ++ (np_node pos, (q, strb)) :: ys).*1). rewrite fmap_app. apply elem_of_app. right. left. }
    pt_step. eapply wp_next_node; [exact Hs|]. rewrite (proj1 (proj2 Hp)), substr_buffer by done.
    rewrite app_snoc in Hs. eapply wp_mono; [apply (IH (xs ++ [(x, (p, str))]) ms); [exact Hs|simpl in Hf; lia|done]|]. intros r s' [-> ->]. split; [done|].
    rewrite doc_cons. by rewrite <- !app_assoc.
Qed.

Lemma wp_getValueInRange2 F s its o1 o2 p1 p2 :
  wf F s its -> pos_at its o1 p1 -> pos_at its o2 p2 -> o1 < o2 ->
  wp (PT.getValueInRange2 p1 p2) s (fun r s' => s' = s /\ r = sub (doc its) o1 o2).
Proof.
  intros Hs (xs & p & str & ys & E1 & Ho1 & Hr1) (zs & q & strb & ws & E2 & Ho2 & Hr2) Hlt. unfold PT.getValueInRange2.
  assert (Hn : NoDup (its.*1)) by by eapply wf_NoDup. assert (Hs1 := Hs). rewrite E1 in Hs1.
  pose proof (wf_text _ _ _ _ _ _ _ Hs1) as Hp. pt_step. eapply wp_piece; [exact Hs1|]. apply (wp_buffer s p str); [done|]. intros b o Ho Hb Hsub.
  destruct (Z.eqb_spec (np_node p1) (np_node p2)) as [E|E].
  - pt_step. split; [done|]. rewrite <- E, E1 in E2. rewrite E1 in Hn. destruct (split_unique _ _ _ _ _ _ _ Hn E2) as (<- & [= <- <-] & <-).
    rewrite (sub_buffer b o str) by (done || lia). rewrite E1, doc_app, doc_cons, <- Ho1, <- Ho2. by rewrite sub_app_mid by lia.
  - destruct (two_nodes its xs _ p str ys zs _ q strb ws o1 o2 E1 E2 E ltac:(lia) ltac:(lia) Hlt) as [ms ->]. cbv zeta.
    pt_step. eapply wp_next_node; [exact Hs1|]. pt_step. apply wp_on_tree_read, wp_gets. split; [done|].
    rewrite (proj1 (proj2 Hp)). rewrite (sub_buffer b o str) by (done || lia). rewrite sub_suffix by lia.
    assert (Hsz : (List.length its < size (heap (tree s)))%nat).
    { destruct Hs as [(t & [_ Hat] & _ & _ & He) _]. pose proof (heap_at_size _ _ _ _ Hat) as Hz. unfold addrs in Hz. rewrite He in Hz.
      unfold nodes in Hz. by rewrite !length_fmap in Hz. }
    rewrite app_snoc in Hs1. eapply wp_mono; [apply (wp_value_loop F s (xs ++ [(np_node p1, (p, str))]) ms ws p2 q strb); [exact Hs1| |done]|].
    { rewrite E1, length_app in Hsz. simpl in Hsz. rewrite length_app in Hsz. simpl in Hsz. lia. }
    intros r s' [-> ->]. split; [done|]. assert (Ez : zs = xs ++ (np_node p1, (p, str)) :: ms).
    { rewrite E1 in E2. rewrite app_comm_cons, app_assoc in E2. rewrite E1, app_comm_cons, app_assoc in Hn. by destruct (split_unique _ _ _ _ _ _ _ Hn E2) as (-> & _). }
    rewrite Ez, doc_app, doc_cons, !zlen_app in Ho2. rewrite E1, doc_app, doc_cons, doc_app, doc_cons, <- Ho1, <- Ho2.
    pose proof (zlen_nonneg (doc xs)). pose proof (zlen_nonneg (doc ms)). pose proof (zlen_nonneg str). pose proof (zlen_nonneg (doc ws)).
    replace (zlen (doc xs) + (zlen str + zlen (doc ms)) + remainder p2) with (zlen (doc xs) + (zlen str + (zlen (doc ms) + remainder p2))) by lia.
    replace (doc xs ++ str ++ doc ms ++ strb ++ doc ws) with (doc xs ++ (str ++ doc ms ++ strb) ++ doc ws) by (by rewrite <- !app_assoc).
    rewrite sub_app_mid by (rewrite ?zlen_app; lia).
    rewrite <- (sub_join _ (remainder p1) (zlen str)) by (rewrite ?zlen_app; lia). rewrite sub_app_l, sub_suffix by lia. f_equal.
    rewrite <- (sub_join _ (zlen str) (zlen str + zlen (doc ms))) by (rewrite ?zlen_app; lia). f_equal.
    + rewrite sub_app_next by lia. by rewrite sub_all.
    + rewrite app_assoc, <- (app_nil_r strb), <- zlen_app.
      replace (zlen str + (zlen (doc ms) + remainder p2)) with (zlen (str ++ doc ms) + remainder p2) by (rewrite zlen_app; lia).
      rewrite sub_app_next by lia. rewrite !app_nil_r. symmetry. apply sub_prefix. lia.
Qed.

(** ** The text of a range *)

(** A position of a document: a line of it, and a column up to the end of the line, which may
    be in the line break. *)
Definition valid_position d (line col : Z) : Prop :=
  1 <= line <= breaks d + 1 /\ 1 <= col /\ offset_of d line col <= line_end d line.

Lemma valid_position_start d line col : valid_position d line col ->
  exists st, (starts d).[line - 1] = Some st /\ offset_of d line col = st + col - 1 /\ 0 <= offset_of d line col <= zlen d.
Proof.
  intros (Hl & Hc & Hend). destruct (start_at d (line - 1) ltac:(lia)) as (st & Hst & Hr). exists st. split; [done|].
  assert (E : offset_of d line col = st + col - 1).
  { unfold offset_of. by rewrite Hst. }
  split; [done|]. pose proof (line_end_le d line ltac:(lia)). lia.
Qed.

Lemma wp_nodeAt2_valid F s its line col : wf F s its -> good its -> its <> [] -> valid_position (doc its) line col ->
  wp (PT.nodeAt2 line col) s (fun r s' => s' = s /\ exists pos, r = Some pos /\ pos_at its (offset_of (doc its) line col) pos).
Proof.
  intros Hs Hg Hne Hv. destruct (valid_position_start _ _ _ Hv) as (st & Hst & Ho & _). destruct Hv as (Hl & Hc & Hend).
  by eapply (wp_nodeAt2 F s its).
Qed.

(** The code unit at a position that is before the end of the document. *)
Lemma wp_getLineCharCode F s d line index c : represents F s d -> valid_position d line (index + 1) -> d.[offset_of d line (index + 1)] = Some c ->
  wp (PT.getLineCharCode line index) s (fun r s' => r = Some c /\ s' = s).
Proof.
  intros (its & Hs & Hg & <- & _) Hv Hc. unfold PT.getLineCharCode. assert (Hne : its <> []) by (intros ->; unfold at_ in Hc; by destruct (_ <? 0)).
  pt_step. eapply wp_mono; [by apply (wp_nodeAt2_valid F s its)|]. intros r s' (-> & [x rem ns] & -> & xs & p & str & ys & Eits & Ho & Hrem). cbn [np_node remainder] in *. subst its.
  pt_step. apply wp_ret. pose proof Hg as (_ & (_ & _ & Hgy)%good_cons & _)%good_app. pose proof (charCode_ok F s xs x p str ys rem ns Hs Hgy Hrem) as Hch.
  assert (Ech : (str ++ doc ys).[rem] = Some c) by (rewrite <- Hc, <- Ho, doc_app, doc_cons, (at_app_r (doc xs)) by lia; f_equal; lia).
  rewrite Ech in Hch. eapply wp_mono; [exact Hch|]. by intros r s' [-> ->].
Qed.

Definition range_start d (r : Range) : Z := offset_of d (startLineNumber r) (startColumn r).
Definition range_end d (r : Range) : Z := offset_of d (endLineNumber r) (endColumn r).

(** A range of a document. *)
Definition valid_range d (r : Range) : Prop :=
  valid_position d (startLineNumber r) (startColumn r) /\ valid_position d (endLineNumber r) (endColumn r) /\
  (startLineNumber r = endLineNumber r /\ startColumn r = endColumn r \/ range_start d r < range_end d r).

Lemma valid_range_offsets d r : valid_range d r -> 0 <= range_start d r <= range_end d r /\ range_end d r <= zlen d.
Proof.
  intros (H1 & H2 & H). destruct (valid_position_start _ _ _ H1) as (x & _ & _ & Hx). destruct (valid_position_start _ _ _ H2) as (y & _ & _ & Hy).
  unfold range_start, range_end in *. split; [|lia]. split; [lia|]. destruct H as [[-> ->]|H]; lia.
Qed.

(** The line ending that [getValueInRange] is asked for, when it has to be put in. *)
Definition asked_eol s (eol : option (list Z)) : option (list Z) :=
  match eol with
  | Some (c :: eol) => if bool_decide (c :: eol <> EOL_ s) || negb (EOLNormalized_ s) then Some (c :: eol) else None
  | _ => None
  end.

Definition value_in d (o1 o2 : Z) (eol : option (list Z)) : list Z :=
  match eol with Some eol => replaceEOL (sub d o1 o2) eol | None => sub d o1 o2 end.

Lemma valid_range_nil r : valid_range [] r -> startLineNumber r = endLineNumber r /\ startColumn r = endColumn r.
Proof.
  intros (H1 & H2 & _). assert (Hv : forall line col, valid_position [] line col -> line = 1 /\ col = 1); [|by destruct (Hv _ _ H1), (Hv _ _ H2); split; congruence].
  intros line col Hv. destruct (valid_position_start _ _ _ Hv) as (st & Hst & Ho & Hz). destruct Hv as (Hl & Hc & _).
  change (breaks []) with 0 in Hl. assert (line = 1) as -> by lia. injection Hst as <-. change (zlen []) with 0 in Hz. lia.
Qed.

Lemma wp_getValueInRange F s d r eol : represents F s d -> valid_range d r ->
  wp (PT.getValueInRange r eol) s (fun v s' => s' = s /\ v = value_in d (range_start d r) (range_end d r) (asked_eol s eol)).
Proof.
  intros (its & Hs & Hg & <- & _) Hr. unfold PT.getValueInRange.
  assert (Hne : its = [] -> startLineNumber r = endLineNumber r /\ startColumn r = endColumn r) by (intros ->; by apply valid_range_nil).
  destruct Hr as (H1 & H2 & Hor). destruct (Z.eqb_spec (startLineNumber r) (endLineNumber r)) as [E1|E1];
    [destruct (Z.eqb_spec (startColumn r) (endColumn r)) as [E2|E2]|]; cbn [andb].
  { pt_step. split; [done|]. unfold value_in, range_start, range_end. rewrite E1, E2. rewrite sub_same. by destruct (asked_eol s eol). }
  all: destruct Hor as [[? ?]|Hlt]; [done|]; assert (its <> []) by (intros Hn; by destruct (Hne Hn)).
  all: pt_step; eapply wp_mono; [by apply (wp_nodeAt2_valid F s its)|]; intros r1 s1 (-> & p1 & -> & Hp1).
  all: pt_step; eapply wp_mono; [by apply (wp_nodeAt2_valid F s its)|]; intros r2 s2 (-> & p2 & -> & Hp2).
  all: pt_step; apply wp_ret; pt_step; apply wp_ret; pt_step; eapply wp_mono; [by apply (wp_getValueInRange2 F s its _ _ p1 p2 Hs Hp1 Hp2)|]; intros v s3 [-> ->].
  all: destruct eol as [[|c eol]|]; [by apply wp_ret| |by apply wp_ret]; cbn [asked_eol]; pt_step; apply wp_gets; change (id s) with s;
    destruct (bool_decide (c :: eol <> EOL_ s) || negb (EOLNormalized_ s)); by apply wp_ret.
Qed.

(** C3: The text of a range.  In a piece tree that stands for a document, [getValueInRange] of a
    range of the document gives the code units from its start to its end, wherever in the
    nodes these are, with every line ending replaced when another one is asked for or the tree
    is not normalized; the tree is not changed. *)
Theorem getValueInRange_correct F s d r eol :
  represents F s d -> valid_range d r ->
  PT.getValueInRange r eol s = Ok (value_in d (range_start d r) (range_end d r) (asked_eol s eol), s).
Proof. intros Hr Hv. pose proof (wp_getValueInRange F s d r eol Hr Hv) as H. by apply wp_run in H as (v & s' & -> & -> & ->). Qed.

Lemma getValueInRange_correct_witness : exists s, PT.insert 0 sample_text true empty_tree = Ok (tt, s) /\
  PT.getValueInRange (mkRange 1 2 2 1) None s = Ok ([10], s) /\ PT.getValueInRange (mkRange 1 1 2 2) (Some [13; 10]) s = Ok ([97; 13; 10; 98], s).
Proof.
  pose proof (wp_insert ∅ empty_tree [] 0 sample_text true empty_represents ltac:(by vm_compute) ltac:(done) ltac:(by vm_compute) ltac:(done)) as H1.
  apply wp_run in H1 as ([] & s & E1 & Hs & He & Hn & _). change (inserted_text [] 0 sample_text) with sample_text in Hs. exists s. split; [exact E1|].
  assert (Hv : forall l1 c1 l2 c2, valid_position sample_text l1 c1 -> valid_position sample_text l2 c2 -> offset_of sample_text l1 c1 < offset_of sample_text l2 c2 ->
    valid_range sample_text (mkRange l1 c1 l2 c2)) by (intros l1 c1 l2 c2 V1 V2 V3; split; [exact V1|split; [exact V2|right; exact V3]]).
  assert (Hasked : asked_eol s (Some [13; 10]) = Some [13; 10]) by (unfold asked_eol; rewrite He; reflexivity). split.
  - exact (getValueInRange_correct ∅ s sample_text (mkRange 1 2 2 1) None Hs (Hv 1 2 2 1 ltac:(repeat split; by vm_compute) ltac:(repeat split; by vm_compute) ltac:(by vm_compute))).
  - pose proof (getValueInRange_correct ∅ s sample_text (mkRange 1 1 2 2) (Some [13; 10]) Hs (Hv 1 1 2 2 ltac:(repeat split; by vm_compute) ltac:(repeat split; by vm_compute) ltac:(by vm_compute))) as E.
    rewrite Hasked in E. exact E.
Defined.
