(* ===== verification/PtBuild.v ===== *)
(** * Building a piece tree

    [create] makes a tree of the chunks of a document; [setEOL] makes the tree again from
    the normalized text of its nodes. *)

From S2P Require Import Prelude Length Store RbTree RbRep RbMeta RbInsert RbWalk RbDelete PtBuffer PtSpan PieceTree PtState PtEdit PtSearch PtInsert PtDelete PtQuery.

#[local] Open Scope js_scope.
#[local] Arguments Z.eqb : simpl never.
#[local] Arguments Z.ltb : simpl never.
#[local] Arguments Z.gtb : simpl never.
#[local] Arguments Z.geb : simpl never.
#[local] Arguments Z.leb : simpl never.
#[local] Arguments Z.add : simpl never.
#[local] Arguments Z.sub : simpl never.

Implicit Types (its xs ys zs : list item) (F : gmap ptr TreeNode) (s : PieceTreeBase) (x : ptr) (chunks : list (list Z * option (list Z))).

(** ** Chunks *)

(** A chunk has text, and its line starts when they are known. *)
Definition chunk_ok (c : list Z * option (list Z)) : Prop :=
  c.1 <> [] /\ zlen c.1 < max_buffer /\ match c.2 with Some ls => ls = starts c.1 | None => True end.

Lemma chunk_starts c : chunk_ok c -> match c.2 with Some ls => ls | None => createLineStartsFast c.1 true end = starts c.1.
Proof. intros (_ & Hl & Hc). unfold max_buffer in Hl. destruct c as [text [ls|]]; [done|]. apply createLineStartsFast_ok. cbn in *. lia. Qed.

(** The buffer and the piece of a chunk. *)
Lemma text_ok_push s ps (text : list Z) i :
  text_ok s ps -> zlen text < max_buffer -> zlen (buffers_ s) = i ->
  text_ok (with_buffers (buffers_ s ++ [mkBuffer text (starts text)]) s) ((PT.whole_piece i text (starts text), text) :: ps).
Proof.
  intros ((b0 & Hb0 & Hpos) & Hbs & Hf & Ht) Hlen <-. pose proof (at_lt _ _ _ Hb0) as H0. set (b := mkBuffer text (starts text)).
  assert (Hbok : buffer_ok b) by (split; [done|]; cbn [buffer b]; unfold max_buffer in Hlen; lia).
  split; [|split; [|split]]; cbn [buffers_ with_buffers lastChangeBufferPos_].
  - exists b0. split; [by rewrite at_app_l by lia|done].
  - apply Forall_app. split; [done|by constructor].
  - constructor; cbn [fst snd].
    + apply (has_text_whole _ (zlen (buffers_ s)) b); [|done..]. rewrite at_app_r, Z.sub_diag by lia. done.
    + eapply Forall_impl; [exact Hf|]. intros pt. apply has_text_push.
  - cbn [tips fst]. unfold tip. cbn [bufferIndex PT.whole_piece]. destruct (Z.eqb_spec (zlen (buffers_ s)) 0); [lia|]. exact Ht.
Qed.

Lemma wp_create_chunks F chunks s its i :
  wf F s its -> Forall chunk_ok chunks -> zlen (buffers_ s) = i + 1 ->
  wp (PT.create_chunks i chunks (match last its with Some it => it.1 | None => null end)) s (fun _ s' => exists its',
    wf F s' (its ++ its') /\ txts its' = chunks.*1 /\
    s' = with_tree (tree s') (with_buffers (buffers_ s') s) /\ (buffers_ s').[0] = (buffers_ s).[0]).
Proof.
  intros Hs Hc. revert s its i Hs. induction Hc as [|[text o] chunks Hok Hc IH]; intros s its i Hs Hi; cbn [PT.create_chunks].
  { pt_step. exists []. rewrite app_nil_r. split_and!; try done. by destruct s. }
  pose proof (chunk_starts _ Hok) as Els. destruct Hok as (Hne & Hlen & _). cbn [fst snd] in *. rewrite Els. rewrite Z.gtb_ltb.
  destruct (Z.ltb_spec 0 (zlen text)); [|pose proof (zlen_pos _ Hne); lia]. cbv zeta. pt_step. pt_step. cbv beta.
  pose proof (text_ok_push s _ text (i + 1) (proj2 Hs) Hlen Hi) as Hok1. set (p := PT.whole_piece (i + 1) text (starts text)) in *.
  set (s1 := with_buffers _ s) in *. assert (Hs1 : wf F s1 its) by (split; [apply Hs|by apply (text_ok_tail _ (p, text))]).
  assert (H0 : (buffers_ s1).[0] = (buffers_ s).[0]).
  { pose proof (proj2 Hs) as ((b0 & Hb0 & _) & _). apply at_lt in Hb0. unfold s1. cbn [buffers_ with_buffers]. by rewrite at_app_l by lia. }
  assert (Hi1 : zlen (buffers_ s1) = i + 1 + 1) by (unfold s1; cbn [buffers_ with_buffers]; rewrite zlen_app, Hi; done).
  assert (Hgo : forall t z, wf F (with_tree t s1) (its ++ [(z, (p, text))]) ->
    wp (PT.create_chunks (i + 1) chunks z) (with_tree t s1) (fun _ s' => exists its', wf F s' (its ++ its') /\ txts its' = text :: chunks.*1 /\
      s' = with_tree (tree s') (with_buffers (buffers_ s') s) /\ (buffers_ s').[0] = (buffers_ s).[0])).
  { intros t z Hs2. pose proof (IH _ _ (i + 1) Hs2 Hi1) as Hw. rewrite last_snoc in Hw. cbn [fst] in Hw. eapply wp_mono; [exact Hw|].
    intros [] s' (its' & Hs' & Ht & Es & E0). exists ((z, (p, text)) :: its'). split; [by rewrite <- app_assoc in Hs'|].
    split; [unfold txts in *; cbn; by rewrite Ht|]. split; [rewrite Es; unfold s1; by destruct s|]. by rewrite E0. }
  pt_step. destruct its as [|[x pt] xs _] using rev_ind.
  - by apply (wp_insert_first F s1 p text _ Hs1 Hok1).
  - rewrite last_snoc. cbn [fst]. eapply (wp_insert_right F s1 xs x pt [] p text); [exact Hs1|exact Hok1|].
    intros t z Hs2. apply Hgo. by rewrite <- app_assoc.
Qed.

Lemma piece_tree_empty F t es : piece_tree F t es -> piece_tree F (mkStore (heap t) SENTINEL) [].
Proof.
  intros (u & (_ & _ & Hn & Hs & HF) & _). exists E. split; [|split; [by exists O; constructor|by split]].
  split; [done|]. split; [done|]. split; [apply NoDup_singleton|]. split; [done|]. intros a n Ha. destruct (HF a n Ha) as [Hnot Hh].
  split; [|done]. intros Hin. apply Hnot. apply elem_of_cons in Hin as [-> |Hin]; [left|by apply not_elem_of_nil in Hin].
Qed.

(** [create] on an object whose nodes are in a heap that holds a piece tree. *)
Lemma wp_create F s es chunks eol norm d :
  piece_tree F (tree s) es -> Forall chunk_ok chunks -> untorn (chunks.*1) -> d = concat (chunks.*1) ->
  eol = [10] \/ eol = [13; 10] -> (norm = true -> normalized eol d) ->
  wp (PT.create chunks eol norm) s (fun _ s' => represents F s' d /\ EOL_ s' = eol /\ EOLNormalized_ s' = norm /\ blen s' = 0).
Proof.
  intros Ht Hc Hu -> Heol Hn. unfold PT.create. pt_step. pt_step. set (s0 := mkPT _ _ _ _ _ _ _ _ _).
  assert (Hs0 : wf F s0 []).
  { split; [by eapply piece_tree_empty|]. split; [exists (mkBuffer [] [0]); split; [done|apply cursor_start]|].
    split; [by constructor; [split|]|]. split; [constructor|cbn; lia]. }
  pt_step. eapply wp_mono; [exact (wp_create_chunks F chunks s0 [] 0 Hs0 Hc eq_refl)|].
  intros [] s1 (its & Hs1 & Htx & Es1 & E0). cbn [app] in Hs1. repeat pt_step.
  assert (Hg : good its).
  { unfold good, goodl. rewrite Htx. split; [|done]. apply Forall_fmap. eapply Forall_impl; [exact Hc|]. by intros c (? & _). }
  assert (Hd : doc its = concat (chunks.*1)) by (unfold doc; by rewrite <- Htx).
  eapply wp_mono; [apply (edit_done F (with_visited (0, []) (with_cache [] s1)) (concat (chunks.*1)) F its); try done|].
  - unfold eol_ok. cbn [EOL_ EOLNormalized_ with_visited with_cache]. rewrite Es1. by split.
  - cbn [EOL_ EOLNormalized_ with_visited with_cache buffers_]. intros _ s' (H1 & H2 & H3 & H4). split; [done|].
    rewrite H2, H3, (blen_eq s1 s') by (by rewrite H4). unfold blen. rewrite E0, Es1. done.
Qed.

(** ** Normalized text *)

(** In a normalized text every CR is in a CRLF. *)
Lemma replaceEOL_pairs d a b : replaceEOL d [13; 10] = a ++ 13 :: b -> exists b', b = 10 :: b'.
Proof.
  revert a. assert (Hpair : forall R a, (forall a, R = a ++ 13 :: b -> exists b', b = 10 :: b') -> 13 :: 10 :: R = a ++ 13 :: b -> exists b', b = 10 :: b').
  { intros R [|x [|y a]] IH E; cbn [app] in E; injection E; intros; subst; [by eexists|done|by eapply IH]. }
  induction d as [|s IH|c s Hcr IH] using text_ind; intros a E.
  - by destruct a.
  - simpl in E. by apply (Hpair _ _ IH) in E.
  - simpl in E. destruct (Z.eqb_spec c 13) as [->|Hc].
    + destruct s as [|e s]; [by apply (Hpair [] a IH) in E|]. destruct (Z.eqb_spec e 10) as [->|]; [by destruct (Hcr eq_refl s)|].
      by apply (Hpair _ _ IH) in E.
    + destruct (c =? 10); [by apply (Hpair _ _ IH) in E|]. destruct a as [|x a]; cbn [app] in E; injection E; intros; subst; [done|by eapply IH].
Qed.

Lemma replaceEOL_ends a eol : eol = [10] \/ eol = [13; 10] -> ends_cr (replaceEOL a eol) = false.
Proof.
  intros He. unfold ends_cr. destruct (last (replaceEOL a eol)) as [c|] eqn:El; [|done]. simpl. destruct (Z.eqb_spec c 13) as [->|]; [|done].
  apply last_Some in El as [l El]. destruct He as [-> | ->]; [|by apply replaceEOL_pairs in El as [b' ?]].
  destruct (replaceEOL_no_cr a). rewrite El. apply elem_of_app. right. by apply list_elem_of_singleton.
Qed.

Lemma replaceEOL_cons_lone c a eol : (c = 13 -> forall a', a <> 10 :: a') ->
  replaceEOL (c :: a) eol = (if (c =? 13) || (c =? 10) then eol else [c]) ++ replaceEOL a eol.
Proof.
  intros Hc. simpl. destruct (Z.eqb_spec c 13) as [->|]; cbn [orb]; [|by destruct (c =? 10)].
  destruct a as [|e a]; [by rewrite app_nil_r|]. destruct (Z.eqb_spec e 10) as [->|]; [by destruct (Hc eq_refl a)|done].
Qed.

Lemma replaceEOL_app a b eol : torn a b = false -> replaceEOL (a ++ b) eol = replaceEOL a eol ++ replaceEOL b eol.
Proof.
  induction a as [|a IH|c a Hcr IH] using text_ind; intros Ht; [done|..].
  - cbn [app]. simpl. rewrite IH; [by rewrite app_assoc|]. destruct a as [|e a]; [apply torn_nil_l|]. change (13 :: 10 :: e :: a) with ([13; 10] ++ e :: a) in Ht. by rewrite torn_app_l in Ht.
  - cbn [app]. rewrite (replaceEOL_cons_lone c a) by done. rewrite replaceEOL_cons_lone.
    + rewrite IH; [by rewrite app_assoc|]. destruct a as [|e a]; [apply torn_nil_l|]. change (c :: e :: a) with ([c] ++ e :: a) in Ht. by rewrite torn_app_l in Ht.
    + intros -> a' E. destruct a as [|e a]; cbn [app] in E; [|injection E; intros; subst; by apply (Hcr eq_refl a)]. subst b. done.
Qed.

Lemma replaceEOL_idem a eol : eol = [10] \/ eol = [13; 10] -> normalized eol (replaceEOL a eol).
Proof.
  intros He. unfold normalized. assert (Heol : forall R, replaceEOL (eol ++ R) eol = eol ++ replaceEOL R eol) by (intros R; by destruct He as [-> | ->]).
  induction a as [|a IH|c a Hcr IH] using text_ind; [done|simpl; by rewrite Heol, IH|].
  rewrite (replaceEOL_cons_lone c a) by done. destruct ((c =? 13) || (c =? 10)) eqn:Ec; [by rewrite Heol, IH|].
  apply orb_false_iff in Ec as [E1 E2]. simpl. by rewrite E1, E2, IH.
Qed.

Lemma replaceEOL_nonempty a eol : eol <> [] -> a <> [] -> replaceEOL a eol <> [].
Proof.
  intros He Ha. destruct a as [|c a]; [done|]. simpl. destruct (c =? 13); [destruct a as [|e a]; [done|destruct (e =? 10)]|destruct (c =? 10); [|done]];
    by destruct eol.
Qed.

Lemma zlen_replaceEOL a eol : zlen eol <= 2 -> zlen (replaceEOL a eol) <= 2 * zlen a.
Proof.
  intros He. induction a as [|a IH|c a Hcr IH] using text_ind; [done|simpl; rewrite zlen_app, !zlen_cons; lia|].
  rewrite (replaceEOL_cons_lone c a), zlen_app, zlen_cons by done. destruct (_ || _); [lia|]. change (zlen [c]) with 1. lia.
Qed.

Lemma replaceEOL_concat l eol : untorn l -> replaceEOL (concat l) eol = concat ((fun a => replaceEOL a eol) <$> l).
Proof. induction l as [|a l IH]; intros Hl; [done|]. destruct Hl as [Ht Hl]. cbn [concat fmap list_fmap]. by rewrite replaceEOL_app, IH. Qed.

Lemma untorn_replaceEOL l eol : eol = [10] \/ eol = [13; 10] -> untorn ((fun a => replaceEOL a eol) <$> l).
Proof. intros He. induction l as [|a l IH]; [done|]. split; [|done]. unfold torn. by rewrite replaceEOL_ends. Qed.

(** ** Another line ending *)

(** The chunk of a text. *)
Definition normalized_chunk (eol text : list Z) : list Z * option (list Z) :=
  (replaceEOL text eol, Some (createLineStartsFast (replaceEOL text eol) true)).

(** The callback of [normalizeEOL] on the text of a node. *)
Definition normalize_step (eol : list Z) (v : list Z * list (list Z * option (list Z))) (str : list Z) : list Z * list (list Z * option (list Z)) :=
  let '(tempChunk, chunks) := v in
  let min := AverageBufferSize - AverageBufferSize / 3 in
  if (zlen tempChunk <=? min) || (zlen tempChunk + zlen str <? min * 2) then (tempChunk ++ str, chunks)
  else (str, chunks ++ [normalized_chunk eol tempChunk]).

(** The chunks stand for texts that make up the text [D] of the nodes visited, cut between
    nodes; [R] follows. *)
Definition cut_up (eol D R : list Z) (v : list Z * list (list Z * option (list Z))) : Prop :=
  exists raws : list (list Z), v.2 = (normalized_chunk eol <$> raws) /\ concat raws ++ v.1 = D /\ Forall (fun a : list Z => a <> []) raws /\
    untorn raws /\ torn (concat raws) (v.1 ++ R) = false.

Lemma cut_up_step eol D R v str : cut_up eol D (str ++ R) v -> torn D (str ++ R) = false -> cut_up eol (D ++ str) R (normalize_step eol v str).
Proof.
  intros (raws & Hc & Hd & Hne & Hu & Ht) HD. destruct v as [temp chunks]. cbn [fst snd] in *. subst chunks. unfold normalize_step.
  destruct (_ || _) eqn:Ec; cbn [fst snd].
  - exists raws. cbn [fst snd]. rewrite <- Hd, <- !app_assoc. by split_and!.
  - assert (Htemp : temp <> []) by (intros ->; by apply orb_false_iff in Ec as [? _]).
    rewrite torn_app_r in Ht by done. exists (raws ++ [temp]). cbn [fst snd]. rewrite fmap_app, concat_app. cbn [concat]. rewrite app_nil_r, Hd.
    split_and!; [done|done|apply Forall_app; split; [done|by constructor]| |done].
    apply untorn_app. cbn [untorn concat]. rewrite app_nil_r. split; [done|]. split; [split; [apply torn_nil_r|done]|done].
Qed.

Lemma wp_normalize F s its eol :
  wf F s its -> good its ->
  wp (PT.iterate_root (PT.normalize_callback eol) ([], [])) s (fun r s' => s' = s /\ r.2 = true /\ cut_up eol (doc its) [] r.1).
Proof.
  intros Hs Hg. eapply wp_mono; [apply (wp_iterate_root _ s its (fun pre v => forall post, its = pre ++ post -> cut_up eol (doc pre) (doc post) v)) with (F := F)|].
  - intros pre post [temp chunks] E HI. unfold PT.normalize_callback, PT.getNodeContent. change (SENTINEL =? SENTINEL) with true. cbv iota. do 2 pt_step.
    cbv zeta. assert (Ht : torn (doc pre) ([] ++ doc post) = false) by (rewrite E in Hg; by apply good_app in Hg as (_ & _ & ?)).
    pose proof (cut_up_step eol (doc pre) (doc post) _ [] (HI post E) Ht) as H. rewrite app_nil_r in H. unfold normalize_step in H.
    destruct (_ || _); pt_step; (split; [done|]; split; [done|]); intros post' E'; rewrite E in E'; apply app_inv_head in E' as <-; exact H.
  - intros pre [x [p str]] post [temp chunks] E HI. unfold PT.normalize_callback. cbn [fst]. pt_step.
    eapply wp_mono; [eapply (wp_content F s its x p str); [exact Hs|rewrite E; apply elem_of_app; right; by left]|]. intros c s' [-> ->]. cbv zeta.
    assert (Ht : torn (doc pre) (str ++ doc post) = false) by (rewrite E in Hg; by apply good_app in Hg as (_ & _ & ?)).
    pose proof (cut_up_step eol (doc pre) (doc post) _ str (HI _ E) Ht) as H. unfold normalize_step in H.
    assert (Hdoc : doc (pre ++ [(x, (p, str))]) = doc pre ++ str) by (rewrite doc_app, doc_cons, doc_nil; by rewrite app_nil_r).
    destruct (_ || _); pt_step; (split; [done|]; split; [done|]); intros post' E'; rewrite Hdoc; rewrite E, <- app_assoc in E'; apply app_inv_head in E';
      injection E' as <-; exact H.
  - exact Hs.
  - exact Hg.
  - intros post E. exists []. by split_and!.
  - intros r s' (-> & Hb & HI). split; [done|]. split; [done|]. apply (HI []). by rewrite app_nil_r.
Qed.

(** The last chunk. *)
Lemma cut_up_all eol D v : cut_up eol D [] v -> exists raws, Forall (fun a : list Z => a <> []) raws /\ untorn raws /\ concat raws = D /\
  (if zlen v.1 >? 0 then v.2 ++ [normalized_chunk eol v.1] else v.2) = (normalized_chunk eol <$> raws).
Proof.
  intros (raws & -> & <- & Hne & Hu & Ht). rewrite Z.gtb_ltb. destruct v as [temp chunks]. cbn [fst] in *. rewrite app_nil_r in Ht.
  destruct (Z.ltb_spec 0 (zlen temp)) as [Hz|Hz].
  - exists (raws ++ [temp]). rewrite fmap_app, concat_app. cbn [concat]. rewrite app_nil_r.
    split; [apply Forall_app; split; [done|]; constructor; [by intros ->|done]|]. split; [|done].
    apply untorn_app. cbn [untorn concat]. rewrite app_nil_r. split; [done|]. split; [split; [apply torn_nil_r|done]|done].
  - assert (temp = []) as -> by (destruct temp; [done|]; rewrite zlen_cons in Hz; pose proof (zlen_nonneg temp); lia).
    exists raws. by rewrite app_nil_r.
Qed.

Lemma zlen_concat_in (raws : list (list Z)) a : a ∈ raws -> zlen a <= zlen (concat raws).
Proof.
  intros (l & k & ->)%list_elem_of_split. rewrite concat_app. cbn [concat]. rewrite !zlen_app.
  pose proof (zlen_nonneg (concat l)). pose proof (zlen_nonneg (concat k)). lia.
Qed.

Lemma wp_setEOL F s d eol :
  represents F s d -> eol = [10] \/ eol = [13; 10] -> 2 * zlen d < max_buffer ->
  wp (PT.setEOL eol) s (fun _ s' => represents F s' (replaceEOL d eol) /\ EOL_ s' = eol /\ EOLNormalized_ s' = true /\ blen s' = 0).
Proof.
  intros (its & Hs & Hg & <- & _) He Hlen. unfold PT.setEOL. pt_step. pt_step. set (s0 := with_EOL eol s).
  assert (Hs0 : wf F s0 its) by done. unfold PT.normalizeEOL. pt_step. eapply wp_mono; [by apply (wp_normalize F s0 its eol)|].
  intros [[temp chunks] b] s' (-> & Eb & Hcut). cbn [fst snd] in *. apply cut_up_all in Hcut as (raws & Hne & Hu & Hd & Ec). cbn [fst snd] in Ec.
  cbv zeta. unfold normalized_chunk at 1 in Ec. rewrite Ec. rewrite <- Hd, (replaceEOL_concat _ _ Hu).
  assert (He0 : eol <> [] /\ zlen eol <= 2) by (destruct He as [-> | ->]; done).
  assert (Ef : (normalized_chunk eol <$> raws).*1 = ((fun a => replaceEOL a eol) <$> raws)) by (by rewrite <- list_fmap_compose).
  eapply (wp_create F s0 (nodes its)); [apply Hs0| |rewrite Ef; by apply untorn_replaceEOL|by rewrite Ef|done|].
  - apply Forall_fmap. rewrite Forall_forall in Hne |- *. intros a Ha. pose proof (zlen_concat_in _ _ Ha) as Hz. rewrite Hd in Hz.
    pose proof (zlen_replaceEOL a eol ltac:(apply He0)). split; [by apply replaceEOL_nonempty; [apply He0|apply Hne]|]. cbn [normalized_chunk fst snd].
    split; [lia|]. apply createLineStartsFast_ok. unfold max_buffer in *. lia.
  - intros _. rewrite <- (replaceEOL_concat _ _ Hu). by apply replaceEOL_idem.
Qed.

(** C29: Changing the line ending.  [setEOL] of a piece tree that stands for a document of
    less than 2^30 code units does not throw, and the tree stands for the document with every
    CRLF, CR and LF replaced by the new line ending, which is then normalized; doing it again
    changes nothing in the document.  The new tree has the nodes that [normalizeEOL] cuts the
    text into, and every node, line start and count is right. *)
Theorem setEOL_correct F s d eol :
  represents F s d -> eol = [10] \/ eol = [13; 10] -> 2 * zlen d < max_buffer ->
  wp (PT.setEOL eol) s (fun _ s' => represents F s' (replaceEOL d eol) /\ EOL_ s' = eol /\ EOLNormalized_ s' = true /\
    normalized eol (replaceEOL d eol)).
Proof.
  intros Hr He Hlen. eapply wp_mono; [by apply (wp_setEOL F s d eol)|]. intros _ s' (H1 & H2 & H3 & _). split_and!; try done.
  by apply replaceEOL_idem.
Qed.

Lemma setEOL_correct_witness : exists s s', PT.insert 0 sample_text true empty_tree = Ok (tt, s) /\ PT.setEOL [13; 10] s = Ok (tt, s') /\
  represents ∅ s' [97; 13; 10; 98].
Proof.
  pose proof (wp_insert ∅ empty_tree [] 0 sample_text true empty_represents ltac:(by vm_compute) ltac:(done) ltac:(by vm_compute) ltac:(done)) as H1.
  apply wp_run in H1 as ([] & s & E1 & Hs & _).
  pose proof (setEOL_correct ∅ s _ [13; 10] Hs ltac:(by right) ltac:(by vm_compute)) as H2.
  apply wp_run in H2 as ([] & s' & E2 & Hr & _). exists s, s'. split; [exact E1|]. split; [exact E2|exact Hr].
Defined.
