(* ===== verification/PtContent.v ===== *)
(** * The contents of lines

    [getLineContent] gives the lines that [splitLines] finds in the document, whether the
    line is in one node, goes over many, or was found through the cache, and remembers the
    last one. *)

From S2P Require Import Prelude Position Length EolCounter Store RbTree RbRep RbMeta RbInsert RbWalk RbDelete PtBuffer PtSpan PieceTree PtState PtEdit PtSearch PtInsert PtDelete PtQuery PtLines PtRead PtBuild.

#[local] Open Scope js_scope.
#[local] Arguments Z.eqb : simpl never.
#[local] Arguments Z.ltb : simpl never.
#[local] Arguments Z.gtb : simpl never.
#[local] Arguments Z.geb : simpl never.
#[local] Arguments Z.leb : simpl never.
#[local] Arguments Z.add : simpl never.
#[local] Arguments Z.sub : simpl never.

Implicit Types (its xs ys zs : list item) (F : gmap ptr TreeNode) (s : PieceTreeBase) (x : ptr) (a b d str : list Z).

(** ** The lines of a text *)

(** The line [k], from 0, with its line break. *)
Definition raw_line d (k : Z) : option (list Z) := (fun st : Z => sub d st (line_end d (k + 1))) <$> (starts d).[k].

(** A line break: CR, LF or CRLF. *)
Definition is_break (e : list Z) : Prop := e = [13; 10] \/ e = [13] \/ e = [10].

Lemma break_starts e a : is_break e -> torn e a = false -> starts (e ++ a) = 0 :: ((fun x : Z => x + zlen e) <$> starts a).
Proof.
  intros He Ht. rewrite (starts_app _ _ Ht). assert (starts e = [0; zlen e]) as -> by (by destruct He as [->|[->| ->]]).
  cbn [app]. f_equal. 
Qed.

Lemma char_starts c a : (c = 13 -> forall a', a <> 10 :: a') -> is_eol c = false ->
  starts (c :: a) = 0 :: drop 1 ((fun x : Z => x + 1) <$> starts a).
Proof.
  intros Hcr Hc. assert (Ht : torn [c] a = false).
  { unfold torn, ends_cr. simpl. unfold is_eol in Hc. apply orb_false_iff in Hc as [-> _]. done. }
  change (c :: a) with ([c] ++ a). rewrite (starts_app _ _ Ht). assert (starts [c] = [0]) as ->; [|done].
  unfold starts, starts_in, ends. cbn [nxt is_char negb andb app]. unfold is_eol in Hc. apply orb_false_iff in Hc as [-> ->]. done.
Qed.

Lemma raw_break_0 e a : is_break e -> torn e a = false -> raw_line (e ++ a) 0 = Some e.
Proof.
  intros He Ht. unfold raw_line, line_end. rewrite (break_starts _ _ He Ht). change ((_ :: _).[0]) with (Some 0). change (0 + 1) with 1.
  rewrite at_cons. change (1 =? 0) with false. change (1 - 1) with 0. rewrite at_fmap, starts_0. simpl. f_equal. rewrite Z.add_0_l.
  rewrite sub_app_l by (pose proof (zlen_nonneg e); lia). apply sub_all.
Qed.

Lemma sub_shift a b x y : 0 <= x <= y -> y <= zlen b -> sub (a ++ b) (x + zlen a) (y + zlen a) = sub b x y.
Proof.
  intros Hx Hy. rewrite <- (app_nil_r b) at 1. rewrite (Z.add_comm x), (Z.add_comm y). apply sub_app_mid; lia.
Qed.

Lemma sub_back a b i j : zlen a <= i <= j -> j <= zlen a + zlen b -> sub (a ++ b) i j = sub b (i - zlen a) (j - zlen a).
Proof. intros Hi Hj. rewrite <- (sub_shift a b (i - zlen a) (j - zlen a)) by lia. f_equal; lia. Qed.

Lemma line_bounds d k st : (starts d).[k] = Some st -> 0 <= st <= line_end d (k + 1) /\ line_end d (k + 1) <= zlen d.
Proof.
  intros Hst. pose proof (at_lt _ _ _ Hst) as Hk. rewrite zlen_starts in Hk. destruct (start_at d k ltac:(lia)) as (st' & E & Hr). rewrite Hst in E. injection E as <-.
  split; [|apply line_end_le; lia]. split; [lia|]. unfold line_end. destruct ((starts d).[k + 1]) as [y|] eqn:Ey; simpl; [|lia].
  pose proof (starts_lt d k st y Hst Ey). lia.
Qed.

(** A text in front that ends with a line break, or no line break at all, moves the lines. *)
Lemma raw_shift a b k j : (forall i, (starts (a ++ b)).[k + i] = (fun x : Z => x + zlen a) <$> (starts b).[j + i]) \/
    (forall i, 0 <= i -> (starts (a ++ b)).[k + i] = (fun x : Z => x + zlen a) <$> (starts b).[j + i]) -> raw_line (a ++ b) k = raw_line b j.
Proof.
  intros H. assert (H' : forall i, 0 <= i -> (starts (a ++ b)).[k + i] = (fun x : Z => x + zlen a) <$> (starts b).[j + i]) by (intros; by destruct H as [H|H]; apply H).
  unfold raw_line. pose proof (H' 0 ltac:(lia)) as H0. rewrite !Z.add_0_r in H0. rewrite H0. destruct ((starts b).[j]) as [st|] eqn:Est; [|done]. simpl. f_equal.
  unfold line_end. rewrite (H' 1) by lia. pose proof (line_bounds b j st Est) as Hb. unfold line_end in Hb.
  destruct ((starts b).[j + 1]) as [y|]; simpl in Hb |- *; [by rewrite sub_shift by lia|]. rewrite zlen_app, (Z.add_comm (zlen a)). by rewrite sub_shift by lia.
Qed.

Lemma raw_break_S e a k : is_break e -> torn e a = false -> 0 <= k -> raw_line (e ++ a) (k + 1) = raw_line a k.
Proof.
  intros He Ht Hk. apply raw_shift. right. intros i Hi. rewrite (break_starts _ _ He Ht), at_cons. destruct (Z.eqb_spec (k + 1 + i) 0); [lia|].
  rewrite at_fmap. by replace (k + 1 + i - 1) with (k + i) by lia.
Qed.

Lemma at_drop1 {A} (l : list A) i : 0 <= i -> at_ (drop 1 l) i = at_ l (i + 1).
Proof. intros. unfold at_. destruct (Z.ltb_spec i 0); [lia|]. destruct (Z.ltb_spec (i + 1) 0); [lia|]. rewrite lookup_drop. f_equal. lia. Qed.

Lemma char_start_S c a k : (c = 13 -> forall a', a <> 10 :: a') -> is_eol c = false -> 0 < k ->
  (starts (c :: a)).[k] = (fun x : Z => x + 1) <$> (starts a).[k].
Proof.
  intros Hcr Hc Hk. rewrite (char_starts _ _ Hcr Hc), at_cons. destruct (Z.eqb_spec k 0); [lia|]. rewrite at_drop1, at_fmap by lia.
  by replace (k - 1 + 1) with k by lia.
Qed.

Lemma raw_char_S c a k : (c = 13 -> forall a', a <> 10 :: a') -> is_eol c = false -> 0 < k -> raw_line (c :: a) k = raw_line a k.
Proof. intros Hcr Hc Hk. apply (raw_shift [c]). right. intros i Hi. apply (char_start_S c a); (done || lia). Qed.

Lemma raw_char_0 c a : (c = 13 -> forall a', a <> 10 :: a') -> is_eol c = false -> exists r, raw_line a 0 = Some r /\ raw_line (c :: a) 0 = Some (c :: r).
Proof.
  intros Hcr Hc. unfold raw_line. rewrite !starts_0. simpl. eexists. split; [done|]. f_equal. pose proof (line_bounds a 0 0 eq_refl) as Hb.
  unfold line_end in *. change (0 + 1) with 1 in *. rewrite (char_start_S c a) by (done || lia).
  pose proof (zlen_nonneg a). assert (E : default (zlen (c :: a)) ((fun x : Z => x + 1) <$> (starts a).[1]) = default (zlen a) ((starts a).[1]) + 1)
    by (destruct ((starts a).[1]); simpl; rewrite ?zlen_cons; lia).
  rewrite E. rewrite <- (sub_join (c :: a) 0 1) by (rewrite ?zlen_cons; lia). change (sub (c :: a) 0 1) with [c]. cbn [app]. f_equal.
  change (c :: a) with ([c] ++ a). change 1 with (0 + zlen [c]) at 1. change 1 with (zlen [c]) at 2. apply sub_shift; lia.
Qed.

(** ** The lines that splitting finds *)

Lemma last_two d : d.[zlen d - 1] = last d.
Proof. apply at_zlen_last. Qed.

Lemma stripEOL_snoc r e : is_break e -> torn r e = false -> stripEOL (r ++ e) = r.
Proof.
  intros He Ht. unfold stripEOL. pose proof (zlen_nonneg r). assert (Hcut : forall n, n = zlen r -> substring (r ++ e) 0 n = r).
  { intros n ->. rewrite substring_sub by (rewrite ?zlen_app; pose proof (zlen_nonneg e); lia). rewrite sub_app_l by lia. apply sub_all. }
  destruct He as [->|[->| ->]]; rewrite zlen_app.
  - change (zlen [13; 10]) with 2. rewrite !at_app_r by lia. replace (zlen r + 2 - 1 - zlen r) with 1 by lia. replace (zlen r + 2 - 2 - zlen r) with 0 by lia.
    cbn. apply Hcut. lia.
  - change (zlen [13]) with 1. rewrite !at_app_r by lia. replace (zlen r + 1 - 1 - zlen r) with 0 by lia. cbn. apply Hcut. lia.
  - change (zlen [10]) with 1. rewrite at_app_r by lia. replace (zlen r + 1 - 1 - zlen r) with 0 by lia. change (is_char ([10].[0]) 10) with true. cbv iota.
    replace (zlen r + 1 - 2) with (zlen r - 1) by lia. destruct r as [|c r]; [done|]. rewrite at_app_l by (rewrite zlen_cons; pose proof (zlen_nonneg r); lia).
    rewrite at_zlen_last. unfold torn, ends_cr in Ht. rewrite andb_true_r in Ht. rewrite Ht. apply Hcut. lia.
Qed.

Lemma stripEOL_break e : is_break e -> stripEOL e = [].
Proof. intros He. apply (stripEOL_snoc []); [done|apply torn_nil_l]. Qed.

(** A line ends with a break and has none before, or it is the last. *)
Definition one_line (r : list Z) : Prop := exists h e, r = h ++ e /\ Forall (fun c => is_eol c = false) h /\ (e = [] \/ is_break e).

Lemma no_eol_torn h e : Forall (fun c => is_eol c = false) h -> torn h e = false.
Proof. intros Hh. apply torn_no_cr. intros Hin. rewrite Forall_forall in Hh. by specialize (Hh _ Hin). Qed.

Lemma no_eol_strip h : Forall (fun c => is_eol c = false) h -> stripEOL h = h.
Proof.
  intros Hh. unfold stripEOL. rewrite last_two. destruct (last h) as [c|] eqn:El; [|done].
  assert (is_eol c = false) as Hc by (rewrite Forall_forall in Hh; apply Hh; apply last_Some in El as [l ->]; apply elem_of_app; right; by apply list_elem_of_singleton).
  unfold is_eol in Hc. apply orb_false_iff in Hc as [Hc1 Hc2]. simpl. by rewrite Hc1, Hc2.
Qed.

Lemma strip_one_line h e : Forall (fun c => is_eol c = false) h -> e = [] \/ is_break e -> stripEOL (h ++ e) = h.
Proof.
  intros Hh [->|He]; [rewrite app_nil_r; by apply no_eol_strip|]. apply stripEOL_snoc; [done|by apply no_eol_torn].
Qed.

Lemma crlf_untorn a : torn [13; 10] a = false.
Proof. done. Qed.

Lemma eol_untorn c a : (c = 13 -> forall a', a <> 10 :: a') -> torn [c] a = false.
Proof.
  intros Hcr. unfold torn, ends_cr. simpl. destruct (Z.eqb_spec c 13) as [->|]; [|done]. destruct a as [|e a]; [done|]. simpl.
  destruct (Z.eqb_spec e 10) as [->|]; [by destruct (Hcr eq_refl a)|done].
Qed.

Lemma eol_break c : is_eol c = true -> is_break [c].
Proof. unfold is_eol. intros [->%Z.eqb_eq| ->%Z.eqb_eq]%orb_true_iff; [right; by left|by right; right]. Qed.

(** Induction over the lines of a text, by what is at its start. *)
Lemma lines_ind (Q : list Z -> Prop) :
  Q [] -> (forall e a, is_break e -> torn e a = false -> Q a -> Q (e ++ a)) ->
  (forall c a, (c = 13 -> forall a', a <> 10 :: a') -> is_eol c = false -> Q a -> Q (c :: a)) -> forall d, Q d.
Proof.
  intros H0 Hb Hc d. induction d as [|a IH|c a Hcr IH] using text_ind; [done|apply (Hb [13; 10]); [by left|done|done]|].
  destruct (is_eol c) eqn:Ec; [|by apply Hc]. apply (Hb [c]); [by apply eol_break|by apply eol_untorn|done].
Qed.

Lemma splitLines_break e a : is_break e -> torn e a = false -> splitLines (e ++ a) = [] :: splitLines a.
Proof.
  intros [->|[->| ->]] Ht; [done| |].
  - unfold splitLines. cbn [app]. rewrite split_from_one; [done|]. intros _ a' ->. done.
  - unfold splitLines. cbn [app]. by rewrite split_from_one.
Qed.

Lemma splitLines_char c a : (c = 13 -> forall a', a <> 10 :: a') -> is_eol c = false ->
  exists h tl, splitLines a = h :: tl /\ splitLines (c :: a) = (c :: h) :: tl.
Proof.
  intros Hcr Hc. unfold splitLines. rewrite (split_from_one [] c a Hcr), Hc. destruct (split_from_line [c] a) as (h & tl & E & E').
  exists h, tl. split; [done|exact E'].
Qed.

(** The line of [splitLines] is the line without its break. *)
Lemma raw_line_split d k r : 0 <= k -> raw_line d k = Some r -> one_line r /\ (splitLines d).[k] = Some (stripEOL r).
Proof.
  revert k r. induction d as [|e a He Ht IH|c a Hcr Hc IH] using lines_ind; intros k r Hk Hr.
  - unfold raw_line in Hr. rewrite starts_nil, at_cons in Hr. destruct (Z.eqb_spec k 0) as [->|]; [|unfold at_ in Hr; by destruct (k - 1 <? 0)].
    injection Hr as <-. split; [|done]. exists [], []. by split; [|split; [|left]].
  - rewrite (splitLines_break _ _ He Ht), at_cons. destruct (Z.eqb_spec k 0) as [->|Hk0].
    + rewrite raw_break_0 in Hr by done. injection Hr as <-. rewrite stripEOL_break by done. split; [|done]. exists [], e. by split; [|split; [|right]].
    + replace k with (k - 1 + 1) in Hr by lia. rewrite raw_break_S in Hr by (done || lia). apply IH; [lia|done].
  - destruct (splitLines_char c a Hcr Hc) as (h & tl & E & ->). rewrite at_cons. destruct (Z.eqb_spec k 0) as [->|Hk0].
    + destruct (raw_char_0 c a Hcr Hc) as (r0 & Hr0 & Hr'). rewrite Hr in Hr'. injection Hr' as ->. destruct (IH 0 r0 ltac:(lia) Hr0) as [(h' & e & -> & Hh & He) Hs].
      rewrite (strip_one_line h' e Hh He), E in Hs. injection Hs as ->. assert (Hch : Forall (fun c => is_eol c = false) (c :: h')) by by constructor.
      split; [by exists (c :: h'), e|]. f_equal. symmetry. by apply (strip_one_line (c :: h') e).
    + rewrite raw_char_S in Hr by (done || lia). destruct (IH k r ltac:(lia) Hr) as [Ho Hs]. split; [done|]. rewrite E, at_cons in Hs.
      destruct (Z.eqb_spec k 0); [lia|done].
Qed.

Lemma normalized_break eol e a : eol = [10] \/ eol = [13; 10] -> is_break e -> torn e a = false -> normalized eol (e ++ a) -> e = eol /\ normalized eol a.
Proof.
  unfold normalized. intros Heol He Ht Hn.
  assert (E : replaceEOL (e ++ a) eol = eol ++ replaceEOL a eol) by (rewrite replaceEOL_app by done; f_equal; by destruct He as [->|[->| ->]]; simpl; rewrite ?app_nil_r).
  rewrite E in Hn. destruct Heol as [-> | ->], He as [->|[->| ->]]; cbn [app] in Hn; try done; injection Hn; intros; try done; simplify_eq.
  by match goal with H : 10 :: _ = a |- _ => rewrite <- H in Ht end.
Qed.

Lemma normalized_char eol c a : (c = 13 -> forall a', a <> 10 :: a') -> is_eol c = false -> normalized eol (c :: a) -> normalized eol a.
Proof. unfold normalized, is_eol. intros Hcr Hc Hn. rewrite (replaceEOL_cons_lone _ _ _ Hcr), Hc in Hn. by injection Hn. Qed.

Lemma breaks_break e a : is_break e -> torn e a = false -> breaks (e ++ a) = 1 + breaks a.
Proof. intros He Ht. rewrite breaks_app_untorn by done. assert (breaks e = 1) as -> by (by destruct He as [->|[->| ->]]). done. Qed.

Lemma breaks_char c a : (c = 13 -> forall a', a <> 10 :: a') -> is_eol c = false -> breaks (c :: a) = breaks a.
Proof.
  intros Hcr Hc. change (c :: a) with ([c] ++ a). rewrite breaks_app_untorn by by apply eol_untorn.
  assert (breaks [c] = 0) as ->; [|lia]. unfold breaks. cbn [breaks_in nxt]. unfold ends. unfold is_eol in Hc. apply orb_false_iff in Hc as [-> ->]. done.
Qed.

(** In a normalized text every line but the last ends with the line ending. *)
Lemma raw_normalized eol d k r : eol = [10] \/ eol = [13; 10] -> normalized eol d -> 0 <= k < breaks d -> raw_line d k = Some r ->
  r = stripEOL r ++ eol.
Proof.
  intros Heol. revert k r. induction d as [|e a He Ht IH|c a Hcr Hc IH] using lines_ind; intros k r Hn Hk Hr.
  - change (breaks []) with 0 in Hk. lia.
  - rewrite breaks_break in Hk by done. destruct (normalized_break _ _ _ Heol He Ht Hn) as [-> Hna]. destruct (decide (k = 0)) as [->|Hk0].
    + rewrite raw_break_0 in Hr by done. injection Hr as <-. by rewrite stripEOL_break.
    + replace k with (k - 1 + 1) in Hr by lia. rewrite raw_break_S in Hr by (done || lia). apply (IH (k - 1)); [done|lia|done].
  - rewrite breaks_char in Hk by done. pose proof (normalized_char _ _ _ Hcr Hc Hn) as Hna. destruct (decide (k = 0)) as [->|Hk0].
    + destruct (raw_char_0 c a Hcr Hc) as (r0 & Hr0 & Hr'). rewrite Hr in Hr'. injection Hr' as ->. pose proof (IH 0 r0 Hna ltac:(lia) Hr0) as E.
      destruct (raw_line_split a 0 r0 ltac:(lia) Hr0) as [(h & e & -> & Hh & He) _]. rewrite (strip_one_line h e Hh He) in E. apply app_inv_head in E as ->.
      assert (Hch : Forall (fun c => is_eol c = false) (c :: h)) by by constructor. change (c :: h ++ eol) with ((c :: h) ++ eol). by rewrite (strip_one_line (c :: h) eol Hch He).
    + rewrite raw_char_S in Hr by (done || lia). by apply (IH k).
Qed.

Lemma raw_last d r : raw_line d (breaks d) = Some r -> stripEOL r = r.
Proof.
  revert r. induction d as [|e a He Ht IH|c a Hcr Hc IH] using lines_ind; intros r Hr; [by injection Hr as <-|..].
  - rewrite breaks_break, Z.add_comm, raw_break_S in Hr by (done || apply breaks_nonneg). by apply IH.
  - rewrite breaks_char in Hr by done. pose proof (breaks_nonneg a). destruct (decide (breaks a = 0)) as [E|E].
    + rewrite E in *. destruct (raw_char_0 c a Hcr Hc) as (r0 & Hr0 & Hr'). rewrite Hr in Hr'. injection Hr' as ->. specialize (IH r0 Hr0).
      destruct (raw_line_split a 0 r0 ltac:(lia) Hr0) as [(h & e & -> & Hh & He) _]. rewrite (strip_one_line h e Hh He) in IH. assert (e = []) as -> by (apply (app_inv_head h); by rewrite <- IH, app_nil_r).
      rewrite app_nil_r. apply no_eol_strip. by constructor.
    + rewrite raw_char_S in Hr by (done || lia). by apply IH.
Qed.

(** ** Where a line can be cut *)

(** The part [n] of the line break that is left out is in one node. *)
Definition cut_ok d (line st n : Z) : Prop :=
  st <= line_end d line - n /\ forall a b, d = a ++ b -> torn a b = false -> zlen a < line_end d line -> zlen a <= line_end d line - n.

Lemma cut_ok_0 d line st : (starts d).[line - 1] = Some st -> cut_ok d line st 0.
Proof.
  intros Hst. pose proof (line_bounds d (line - 1) st Hst) as Hb. replace (line - 1 + 1) with line in Hb by lia. split; [lia|]. intros. lia.
Qed.

Lemma cut_ok_normalized eol d line st : eol = [10] \/ eol = [13; 10] -> normalized eol d -> 1 <= line <= breaks d ->
  (starts d).[line - 1] = Some st -> cut_ok d line st (zlen eol) /\ (splitLines d).[line - 1] = Some (sub d st (line_end d line - zlen eol)).
Proof.
  intros Heol Hn Hl Hst. pose proof (line_bounds d (line - 1) st Hst) as Hb. assert (Hr : raw_line d (line - 1) = Some (sub d st (line_end d line))).
  { unfold raw_line. rewrite Hst. simpl. by replace (line - 1 + 1) with line by lia. }
  replace (line - 1 + 1) with line in Hb by lia. pose proof (raw_normalized eol d (line - 1) _ Heol Hn ltac:(lia) Hr) as E.
  destruct (raw_line_split d (line - 1) _ ltac:(lia) Hr) as [_ ->]. set (h := stripEOL _) in *.
  assert (Hz : line_end d line - st = zlen h + zlen eol) by (rewrite <- zlen_app, <- E, zlen_sub; lia). pose proof (zlen_nonneg h) as Hh.
  assert (Hst2 : sub d st (line_end d line - zlen eol) = h).
  { assert (E2 : sub d st (line_end d line - zlen eol) ++ sub d (line_end d line - zlen eol) (line_end d line) = h ++ eol) by (rewrite sub_join by (pose proof (zlen_nonneg eol); lia); done).
    pose proof (zlen_nonneg eol). apply app_inj_1 in E2 as [E2 _]; [done|]. apply Nat2Z.inj. change (zlen (sub d st (line_end d line - zlen eol)) = zlen h). rewrite zlen_sub; lia. }
  split; [|by rewrite Hst2]. split; [lia|]. intros a b -> Ht Ha. destruct Heol as [-> | ->]; [change (zlen [10]) with 1; lia|]. change (zlen [13; 10]) with 2 in *.
  destruct (decide (zlen a = line_end (a ++ b) line - 1)) as [Ea|]; [|lia]. exfalso.
  assert (Hc : forall i, 0 <= i < 2 -> (a ++ b).[line_end (a ++ b) line - 2 + i] = [13; 10].[i]).
  { intros i Hi. pose proof (sub_at (a ++ b) st (line_end (a ++ b) line) (zlen h + i) ltac:(lia) ltac:(lia) ltac:(lia)) as Hat. rewrite E in Hat.
    rewrite at_app_r in Hat by lia. replace (zlen h + i - zlen h) with i in Hat by lia. rewrite Hat. f_equal. lia. }
  pose proof (Hc 0 ltac:(lia)) as H0. pose proof (Hc 1 ltac:(lia)) as H1.
  replace (line_end (a ++ b) line - 2 + 0) with (zlen a - 1) in H0 by lia. replace (line_end (a ++ b) line - 2 + 1) with (zlen a) in H1 by lia.
  assert (a <> []) by (intros ->; change (zlen []) with 0 in *; lia).
  rewrite at_app_l, at_zlen_last in H0 by lia. rewrite at_app_r in H1 by lia. replace (zlen a - zlen a) with 0 in H1 by lia.
  unfold torn, ends_cr in Ht. rewrite H0 in Ht. destruct b as [|c b]; [done|]. change ((c :: b).[0]) with (Some c) in H1. change ([13; 10].[1]) with (Some 10) in H1. injection H1 as ->. done.
Qed.

(** ** Finding the line *)

Lemma doc_mid xs x p str ys i j : 0 <= i <= j -> j <= zlen str ->
  sub (doc (xs ++ (x, (p, str)) :: ys)) (zlen (doc xs) + i) (zlen (doc xs) + j) = sub str i j.
Proof. intros. rewrite doc_app, doc_cons. by apply sub_app_mid. Qed.

Lemma doc_split_le xs x p str ys : zlen (doc xs) + zlen str <= zlen (doc (xs ++ (x, (p, str)) :: ys)).
Proof. rewrite doc_app, doc_cons, !zlen_app. pose proof (zlen_nonneg (doc ys)). lia. Qed.

Lemma doc_app_ne xs x p str ys : doc (xs ++ (x, (p, str)) :: ys) = (doc xs ++ str) ++ doc ys.
Proof. by rewrite doc_app, doc_cons, app_assoc. Qed.

(** What the search below a node gives: the text of the line and an entry for the cache, or
    the node in which the last part of its nodes starts. *)
Definition line_found s its (line orig eo base st : Z) (r : list Z + ptr * list Z) s' : Prop :=
  match r with
  | inl ret => line <= breaks (doc its) /\ ret = sub (doc its) st (line_end (doc its) line - eo) /\ exists e xs pt ys,
      s' = with_cache [e] s /\ its = xs ++ (ce_node e, pt) :: ys /\ ce_offset e = base + zlen (doc xs) /\
      ce_line e = Some (orig - line + breaks (doc xs) + 1)
  | inr (y, ret) => s' = s /\ exists xs p str ys, its = xs ++ (y, (p, str)) :: ys /\ line - 1 = breaks (doc xs) + breaks str /\
      st <= zlen (doc xs) + zlen str /\ ret = sub (doc its) st (zlen (doc xs) + zlen str)
  end.

Lemma found_left s xs ys line orig eo base st r s' :
  line_found s xs line orig eo base st r s' -> 0 <= st -> 0 <= eo -> breaks (doc xs) <= breaks (doc (xs ++ ys)) ->
  (line <= breaks (doc xs) -> line_end (doc xs) line = line_end (doc (xs ++ ys)) line /\ st <= line_end (doc xs) line - eo) -> 1 <= line ->
  line_found s (xs ++ ys) line orig eo base st r s'.
Proof.
  intros Hr Hst Heo Hb Hend Hl. destruct r as [ret|[y ret]]; cbn [line_found] in *.
  - destruct Hr as (Hline & -> & e & zs & pt & ws & -> & Exs & Hr). destruct (Hend Hline) as [<- Hle]. pose proof (line_end_le (doc xs) line ltac:(lia)).
    split; [lia|]. split; [rewrite doc_app, sub_app_l by lia; done|]. exists e, zs, pt, (ws ++ ys). by rewrite Exs, <- app_assoc.
  - destruct Hr as (-> & zs & p & str & ws & Exs & Hline & Hz & ->). split; [done|]. exists zs, p, str, (ws ++ ys). split; [by rewrite Exs, <- app_assoc|].
    split; [done|]. split; [done|]. pose proof (doc_split_le zs y p str ws) as Hle. rewrite <- Exs in Hle. rewrite doc_app, sub_app_l by lia. done.
Qed.

Lemma found_right s xs x p str ys line orig eo base st r s' :
  let n := zlen (doc xs) + zlen str in let k := breaks (doc xs) + breaks str in
  good (xs ++ (x, (p, str)) :: ys) ->
  line_found s ys (line - k) orig eo (base + n) (st - n) r s' -> n <= st -> 0 <= eo -> k < line ->
  (line - k <= breaks (doc ys) -> line_end (doc (xs ++ (x, (p, str)) :: ys)) line = n + line_end (doc ys) (line - k) /\ st <= n + line_end (doc ys) (line - k) - eo) ->
  line_found s (xs ++ (x, (p, str)) :: ys) line orig eo base st r s'.
Proof.
  intros n k Hg Hr Hst Heo Hl Hend. pose proof Hg as (_ & (_ & Ht2 & Hgy)%good_cons & Htx)%good_app. rewrite doc_cons in Htx.
  assert (Hn : zlen (doc xs ++ str) = n) by (by rewrite zlen_app).
  assert (Hk : forall zs y pt ws, ys = zs ++ (y, pt) :: ws -> breaks (doc (xs ++ (x, (p, str)) :: zs)) = k + breaks (doc zs) /\ zlen (doc (xs ++ (x, (p, str)) :: zs)) = n + zlen (doc zs)).
  { intros zs y pt ws ->. rewrite doc_app in Ht2. split; [|rewrite doc_app, doc_cons, !zlen_app; unfold n; lia]. rewrite doc_app_ne.
    apply torn_app_pre in Ht2. rewrite breaks_app_untorn; [rewrite breaks_app_untorn; [done|]|]; [by eapply torn_app_pre|].
    apply good_app in Hg as (_ & (Hne & _ & _)%good_cons & _). by rewrite torn_app_l. }
  destruct r as [ret|[y ret]]; cbn [line_found] in *.
  - destruct Hr as (Hline & -> & e & zs & pt & ws & -> & Eys & Ho & Hc). destruct (Hend Hline) as [-> Hle]. destruct (Hk _ _ _ _ Eys) as [Hk1 Hk2].
    pose proof (line_end_le (doc ys) (line - k) ltac:(lia)). split.
    { rewrite doc_app_ne, breaks_app_untorn, (breaks_app_untorn (doc xs)); [unfold k in *; lia|by eapply torn_app_pre|].
      apply good_app in Hg as (_ & (Hne & _ & _)%good_cons & _). by rewrite torn_app_l. }
    split; [rewrite doc_app_ne, sub_back by lia; f_equal; lia|]. exists e, (xs ++ (x, (p, str)) :: zs), pt, ws. split; [done|]. split; [by rewrite Eys, <- app_assoc|].
    rewrite Hk1, Hk2, Ho, Hc. split; [lia|]. f_equal. lia.
  - destruct Hr as (-> & zs & p' & str' & ws & Eys & Hline & Hz & ->). destruct (Hk _ _ _ _ Eys) as [Hk1 Hk2]. split; [done|].
    exists (xs ++ (x, (p, str)) :: zs), p', str', ws. rewrite Hk1, Hk2. split; [by rewrite Eys, <- app_assoc|]. split; [lia|]. split; [lia|].
    pose proof (doc_split_le zs y p' str' ws) as Hle. rewrite <- Eys in Hle. rewrite doc_app_ne, sub_back by (rewrite ?Hn; lia). rewrite ?Hn. f_equal; lia.
Qed.

Lemma wp_rawContent_loop s x its line orig eo base st fuel :
  search (heap (tree s)) x its -> good its -> texts_ok s its -> (List.length its < fuel)%nat -> its <> [] ->
  1 <= line <= breaks (doc its) + 1 -> (starts (doc its)).[line - 1] = Some st -> 0 <= eo ->
  (line <= breaks (doc its) -> st <= line_end (doc its) line - eo) -> zlen (searchCache_ s) <= 1 ->
  wp (PT.getLineRawContent_loop fuel x line orig eo base) s (line_found s its line orig eo base st).
Proof.
  intros Hx. revert line base st fuel. induction Hx as [|x n p str xs ys Hn Hne Hp Hsz Hlf Hxl IHl Hxr IHr Hlen Hlfc Hstr];
    intros line base st fuel Hg Ht Hf Hits Hline Hst Heo Hend Hc; [done|]. destruct fuel as [|fuel]; [lia|]. cbn [PT.getLineRawContent_loop].
  destruct (Z.eqb_spec x SENTINEL); [done|]. rewrite length_app in Hf. simpl in Hf. clear Hits.
  pose proof Hg as (Hgx & (_ & Ht2 & Hgy)%good_cons & Htx)%good_app. rewrite doc_cons in Htx.
  apply Forall_app in Ht as [Htxs [Htp Htys]%Forall_cons]. cbn [fst snd] in Htp.
  pose proof (breaks_nonneg (doc xs)). pose proof (breaks_nonneg str). pose proof (breaks_nonneg (doc ys)).
  assert (Hbr : breaks (doc (xs ++ (x, (p, str)) :: ys)) = breaks (doc xs) + breaks str + breaks (doc ys)).
  { rewrite doc_app, doc_cons, (breaks_app_untorn _ _ Htx), (breaks_app_untorn _ _ Ht2). lia. }
  pt_step. eapply wp_nfld; [exact Hn|]. pt_step. eapply wp_nfld; [exact Hn|]. rewrite Hlf, Z.geb_leb.
  destruct (left_test _ _ _ line Hxl ltac:(lia)) as [(-> & Hnex & Hle)|(-> & Hcase)].
  - destruct (middle_left xs x p str ys line Hg st ltac:(lia) Hst) as [Hst' Hend'].
    pose proof (line_bounds _ _ _ Hst') as Hb.
    eapply wp_mono; [apply (IHl line base st); try done; [lia|lia|intros Hl; rewrite Hend' by done; apply Hend; lia]|].
    intros r s' Hr. eapply found_left; [exact Hr|lia|done|lia| |lia]. intros Hl. specialize (Hend' Hl). split; [done|]. rewrite Hend'. apply Hend. lia.
  - pt_step. eapply wp_npiece_at; [exact Hn|exact Hp|]. rewrite Hlfc, Hlen, Z.gtb_ltb.
    destruct (Z.ltb_spec (line - 1) (breaks (doc xs) + breaks str)) as [Hlt|Hge]; [|destruct (Z.eqb_spec (breaks (doc xs) + breaks str) (line - 1)) as [E|E]].
    3:{ destruct (middle_right xs x p str ys line Hg st ltac:(lia) Hst) as [Hst' Hend'].
      pt_step. eapply wp_nfld; [exact Hn|]. pt_step. eapply wp_nfld; [exact Hn|]. rewrite Hsz.
      assert (Hys : ys <> []) by (intros ->; change (breaks (doc [])) with 0 in *; lia). pose proof (line_bounds _ _ _ Hst') as Hb.
      eapply wp_mono; [apply (IHr (line - (breaks (doc xs) + breaks str)) _ (st - (zlen (doc xs) + zlen str))); try done; [lia|lia|]|].
      { intros Hl. specialize (Hend' Hl). specialize (Hend ltac:(lia)). lia. }
      intros r s' Hr. apply found_right; [done|exact Hr|lia|done|lia|]. intros Hl. specialize (Hend' Hl). split; [done|]. specialize (Hend ltac:(lia)). lia. }
    all: assert (Hor : breaks (doc xs) < line - 1 \/ (xs = [] /\ line = 1)) by (destruct Hcase as [|[-> [|]]]; [by left|by right|by left]).
    all: destruct (middle_here xs x p str ys line Hg st Hor ltac:(lia) Hst) as [Hst' Hend'].
    all: assert (Hk : 0 <= line - 1 - breaks (doc xs)) by (destruct Hor as [|[-> ->]]; [lia|done]).
    all: pose proof (line_bounds _ _ _ Hst') as Hb; replace (line - 1 - breaks (doc xs) + 1) with (line - breaks (doc xs)) in Hb by lia.
    all: pt_step; eapply wp_on_buffers; [by apply accumulated_ok|]; replace (line - breaks (doc xs) - 2) with (line - 1 - breaks (doc xs) - 1) by lia;
      rewrite (accumulated_start _ _ _ Hk Hst').
    + specialize (Hend' Hlt). specialize (Hend ltac:(lia)). pt_step. eapply wp_on_buffers; [by apply accumulated_ok|]. unfold accumulated.
      destruct (Z.ltb_spec (line - breaks (doc xs) - 1) 0); [lia|].
      replace (line - breaks (doc xs) - 1 + 1) with (line - breaks (doc xs)) by lia. change (default (zlen str) _) with (line_end str (line - breaks (doc xs))).
      apply (wp_buffer s p str); [done|]. intros b o Ho Hbl Hsub. pt_step. eapply wp_nfld; [exact Hn|]. rewrite Hsz. pt_step. apply wp_set_cache; [done|]. pt_step.
      split; [lia|]. split.
      * rewrite <- Z.add_sub_assoc. rewrite (sub_buffer b o str) by (done || lia). rewrite <- (doc_mid xs x p str ys) by lia. f_equal; lia.
      * eexists _, xs, (p, str), ys. split; [done|]. cbn [ce_node ce_offset ce_line]. split; [done|]. split; [done|]. f_equal. lia.
    + apply (wp_buffer s p str); [done|]. intros b o Ho Hbl Hsub. pt_step. split; [done|]. exists xs, p, str, ys. split; [done|]. split; [lia|].
      split; [lia|]. rewrite (sub_buffer b o str) by (done || lia). rewrite <- (doc_mid xs x p str ys) by lia. f_equal; lia.
Qed.

Lemma buffer_of s p str : has_text (buffers_ s) p str -> exists b o,
  (forall Q : list Z -> PieceTreeBase -> Prop, Q b s -> wp (PT.piece_buffer p) s Q) /\ (forall Q : Z -> PieceTreeBase -> Prop, Q o s -> wp (PT.piece_start p) s Q) /\
  0 <= o /\ o + zlen str <= zlen b /\ str = sub b o (o + zlen str).
Proof.
  intros [Hsp _]. pose proof Hsp as (b & oa & Hi & Hok & [Ha H1] & [Hb H2] & Hs). exists (buffer b), oa. split; [|split].
  - intros Q HQ. eapply wp_on_buffers; [by rewrite (get_buffer_ok _ _ _ Hi)|done].
  - intros Q HQ. eapply wp_on_buffers; [by apply (offsetInBuffer_ok _ _ _ Hi Hok _ oa)|done].
  - split; [lia|]. by split; [lia|].
Qed.

(** The nodes after, until the line ends. *)
Lemma wp_rawContent_next F s xs ys line eo st fuel :
  let d := doc (xs ++ ys) in
  wf F s (xs ++ ys) -> good (xs ++ ys) -> (List.length ys < fuel)%nat -> line - 1 = breaks (doc xs) -> 0 <= st <= zlen (doc xs) ->
  cut_ok d line st eo -> (breaks d < line -> eo = 0) -> 0 <= eo ->
  wp (PT.getLineRawContent_next fuel (first_node ys) eo (sub d st (zlen (doc xs)))) s (fun r s' => s' = s /\ r = sub d st (line_end d line - eo)).
Proof.
  cbv zeta. revert xs ys. induction fuel as [|fuel IH]; intros xs ys Hs Hg Hf Hl Hst Hcut Heo Heo0; [lia|].
  destruct ys as [|[x [p str]] ys]; cbn [first_node fst PT.getLineRawContent_next].
  { change (SENTINEL =? SENTINEL) with true. cbv iota. pt_step. split; [done|]. rewrite !app_nil_r in *. unfold line_end. rewrite at_None by (rewrite zlen_starts; lia). simpl.
    rewrite Heo by lia. by rewrite Z.sub_0_r. }
  pose proof (wf_node_ne _ _ _ _ _ _ Hs) as Hne. destruct (Z.eqb_spec x SENTINEL); [done|].
  pose proof (wf_text _ _ _ _ _ _ _ Hs) as Hp. pose proof Hp as (_ & Hlen & Hlf).
  pose proof Hg as (_ & (Hstr & Ht2 & _)%good_cons & Ht)%good_app. rewrite doc_cons in Ht. specialize (Hlf Hstr). pose proof (breaks_nonneg str).
  pose proof (zlen_nonneg str). pose proof (doc_split_le xs x p str ys) as Hle.
  destruct (buffer_of s p str Hp) as (b & o & Hbuf & Hstart & Ho & Hbl & Hsub).
  pt_step. eapply wp_piece; [exact Hs|]. rewrite Hlf, Hlen, Z.gtb_ltb. destruct (Z.ltb_spec 0 (breaks str)) as [Hb|Hb].
  - destruct (start_at str 1 ltac:(lia)) as (e & He & Her).
    assert (Hend : line_end (doc (xs ++ (x, (p, str)) :: ys)) line = zlen (doc xs) + e).
    { unfold line_end. rewrite doc_app, doc_cons. replace line with (breaks (doc xs) + 1) by lia. rewrite (starts_mid _ _ _ _ Ht Ht2) by lia. rewrite He. simpl. lia. }
    pose proof (starts_lt str 0 0 e eq_refl He) as Hpos. destruct Hcut as [_ Hcut]. specialize (Hcut (doc xs) (str ++ doc ys)). rewrite Hend in *.
    specialize (Hcut ltac:(by rewrite doc_app, doc_cons) Ht ltac:(lia)).
    pt_step. apply Hbuf. pt_step. eapply wp_on_buffers; [by apply accumulated_ok|]. change 0 with (1 - 1) at 1. rewrite (accumulated_start str 1 e) by done.
    pt_step. apply Hstart. pt_step. split; [done|]. rewrite <- Z.add_sub_assoc, (sub_buffer_0 b o str) by (done || lia).
    rewrite <- (sub_join (doc (xs ++ (x, (p, str)) :: ys)) st (zlen (doc xs)) (zlen (doc xs) + e - eo)) by lia. f_equal. rewrite <- (doc_mid xs x p str ys) by lia. f_equal; lia.
  - assert (Hdx : doc (xs ++ [(x, (p, str))]) = doc xs ++ str) by (rewrite doc_app, doc_cons, doc_nil; by rewrite app_nil_r).
    assert (Hbx : breaks (doc xs ++ str) = breaks (doc xs)) by (rewrite breaks_app_untorn by (by eapply torn_app_pre); lia).
    pt_step. apply Hbuf. pt_step. apply Hstart. pt_step. eapply wp_next_node; [exact Hs|]. rewrite substr_buffer by done.
    assert (Eret : sub (doc (xs ++ (x, (p, str)) :: ys)) st (zlen (doc xs)) ++ str = sub (doc (xs ++ (x, (p, str)) :: ys)) st (zlen (doc (xs ++ [(x, (p, str))])))).
    { rewrite Hdx, zlen_app. pose proof (doc_mid xs x p str ys 0 (zlen str) ltac:(lia) ltac:(lia)) as Em. rewrite Z.add_0_r, sub_all in Em.
      rewrite <- (sub_join (doc (xs ++ (x, (p, str)) :: ys)) st (zlen (doc xs)) (zlen (doc xs) + zlen str)) by lia. by rewrite Em. }
    rewrite Eret. rewrite app_snoc in Hs, Hg, Hcut, Heo |- *. simpl in Hf. apply IH; try done; rewrite ?Hdx, ?Hbx, ?zlen_app; lia.
Qed.

(** A hit of the cache by line. *)
Lemma wp_get2_loop F s its line l :
  wf F s its -> good its -> Forall (fun e => exists xs pt ys, its = xs ++ (ce_node e, pt) :: ys /\ entry_at e (doc xs)) l ->
  wp (SC.get2_loop line l) s (fun r s' => s' = s /\ forall e n, r = Some (e, n) -> exists xs p str ys,
    its = xs ++ (ce_node e, (p, str)) :: ys /\ n = breaks (doc xs) + 1 /\ n < line <= n + breaks str).
Proof.
  intros Hs Hg Hl. induction Hl as [|e l (xs & [p str] & ys & Eits & Hat) Hl IH]; cbn [SC.get2_loop]; [by apply wp_ret|].
  destruct (ce_line e) as [n|] eqn:En; [|exact IH]. destruct (Z.eqb_spec n 0); cbn [negb andb]; [exact IH|]. destruct (Z.ltb_spec n line); [|exact IH].
  assert (Hs' := Hs). rewrite Eits in Hs'. pt_step. eapply wp_piece; [exact Hs'|]. pose proof (wf_text _ _ _ _ _ _ _ Hs') as (_ & _ & Hlf).
  assert (Hstr : str <> []) by (assert (Hg2 := Hg); rewrite Eits in Hg2; by apply good_app in Hg2 as (_ & (? & _)%good_cons & _)).
  rewrite (Hlf Hstr), Z.geb_leb. destruct (Z.leb_spec line (n + breaks str)); [|exact IH]. pt_step. split; [done|]. intros e0 n1 [= <- <-].
  exists xs, p, str, ys. split; [done|]. destruct Hat as [_ Hat]. rewrite (Hat n En) in *. split; [done|lia].
Qed.

Lemma wp_getLineRawContent F s its line eo st :
  wf F s its -> good its -> cache_ok its s -> its <> [] -> 1 <= line <= breaks (doc its) + 1 -> (starts (doc its)).[line - 1] = Some st -> 0 <= eo ->
  cut_ok (doc its) line st eo -> (breaks (doc its) < line -> eo = 0) ->
  wp (PT.getLineRawContent line eo) s (fun r s' => r = sub (doc its) st (line_end (doc its) line - eo) /\ exists c, s' = with_cache c s /\ cache_ok its s').
Proof.
  intros Hs Hg Hc Hne Hl Hst Heo0 Hcut Heo. destruct (wf_search _ _ _ Hs Hg) as [Hsearch Hsize]. unfold PT.getLineRawContent.
  pt_step. apply wp_on_tree_read, wp_get_root. split; [done|]. pt_step. unfold SC.get2. pt_step. pt_step. pose proof Hc as [Hcf Hcl].
  eapply wp_mono; [eapply (wp_get2_loop F s its line); [exact Hs|exact Hg|]|].
  { rewrite Forall_forall in Hcf |- *. intros e He. apply Hcf. rewrite rev_alt in He. by apply (elem_of_reverse _ (searchCache_ s)) in He. }
  intros r s1 [-> Hr]. pt_step.
  apply (wp_mono _ _ (fun r s' => line_found s its line line eo 0 st r s' \/ (exists ret, r = inl ret /\ s' = s /\ ret = sub (doc its) st (line_end (doc its) line - eo)))).
  - destruct r as [[e n]|].
    + destruct (Hr e n eq_refl) as (xs & p & str & ys & -> & -> & Hn). pose proof (wf_text _ _ _ _ _ _ _ Hs) as Hp. pose proof Hp as (_ & Hlen & Hlf).
      pose proof Hg as (_ & (Hstr & Ht2 & _)%good_cons & Ht)%good_app. specialize (Hlf Hstr). pose proof (breaks_nonneg (doc xs)).
      destruct (middle_here xs (ce_node e) p str ys line Hg st ltac:(left; lia) ltac:(lia) Hst) as [Hst' Hend'].
      pose proof (line_bounds _ _ _ Hst') as Hb. replace (line - 1 - breaks (doc xs) + 1) with (line - breaks (doc xs)) in Hb by lia.
      destruct (buffer_of s p str Hp) as (b & o & Hbuf & Hstart & Ho & Hbl & Hsub).
      pt_step. eapply wp_piece; [exact Hs|]. pt_step. eapply wp_on_buffers; [by apply accumulated_ok|].
      replace (line - (breaks (doc xs) + 1) - 1) with (line - 1 - breaks (doc xs) - 1) by lia. rewrite (accumulated_start str (line - 1 - breaks (doc xs)) _ ltac:(lia) Hst').
      pt_step. apply Hbuf. pt_step. apply Hstart. rewrite Hlf, Hlen. destruct (Z.eqb_spec (breaks (doc xs) + 1 + breaks str) line) as [E|E].
      * pt_step. left. split; [done|]. exists xs, p, str, ys. split; [done|]. split; [lia|]. split; [lia|].
        rewrite (sub_buffer b o str) by (done || lia). rewrite <- (doc_mid xs (ce_node e) p str ys) by lia. f_equal; lia.
      * specialize (Hend' ltac:(lia)). destruct Hcut as [Hcut _]. pt_step. eapply wp_on_buffers; [by apply accumulated_ok|]. unfold accumulated.
        destruct (Z.ltb_spec (line - (breaks (doc xs) + 1)) 0); [lia|]. replace (line - (breaks (doc xs) + 1) + 1) with (line - breaks (doc xs)) by lia.
        change (default (zlen str) _) with (line_end str (line - breaks (doc xs))). pt_step. right. eexists. split; [done|]. split; [done|].
        rewrite <- Z.add_sub_assoc. rewrite (sub_buffer b o str) by (done || lia). rewrite <- (doc_mid xs (ce_node e) p str ys) by lia. f_equal; lia.
    + pt_step. apply wp_on_tree_read, wp_gets. split; [done|]. eapply wp_mono; [eapply (wp_rawContent_loop s _ its line line eo 0 st); try done; [by eapply wf_texts|lia|]|].
      { intros _. by destruct Hcut. }
      intros r s' H. by left.
  - intros r' s' [Hf|(ret & -> & -> & ->)]; [|pt_step; split; [done|]; exists (searchCache_ s); split; [by destruct s|done]].
    destruct r' as [ret|[y ret]]; cbn [line_found] in Hf.
    + destruct Hf as (_ & -> & e & xs & pt & ys & -> & -> & Ho & Hcl'). pt_step. split; [done|]. eexists. split; [done|]. split; [|done].
      constructor; [|done]. exists xs, pt, ys. split; [done|]. split; [lia|]. intros n. rewrite Hcl'. intros [= <-]. lia.
    + destruct Hf as (-> & xs & p & str & ys & -> & Hline & Hz & ->). pose proof Hg as (_ & (_ & Ht2 & _)%good_cons & Ht)%good_app. rewrite doc_cons in Ht.
      pt_step. eapply wp_next_node; [exact Hs|]. pt_step. apply wp_on_tree_read, wp_gets. split; [done|].
      assert (Hdx : doc (xs ++ [(y, (p, str))]) = doc xs ++ str) by (rewrite doc_app, doc_cons, doc_nil; by rewrite app_nil_r).
      rewrite <- zlen_app, <- Hdx. rewrite length_app in Hsize. simpl in Hsize. rewrite app_snoc in Hs, Hg, Hcut, Heo, Hst, Hl, Hc |- *. pose proof (line_bounds _ _ _ Hst).
      eapply wp_mono; [apply (wp_rawContent_next F s _ ys line eo st); try done|].
      * lia.
      * rewrite Hdx, breaks_app_untorn by (by eapply torn_app_pre). lia.
      * rewrite Hdx, zlen_app. lia.
      * intros r0 s' [-> ->]. split; [done|]. exists (searchCache_ s). split; [by destruct s|done].
Qed.

(** Of the empty document. *)
Lemma wp_getLineRawContent_nil F s line :
  wf F s [] -> cache_ok [] s -> wp (PT.getLineRawContent line 0) s (fun r s' => r = [] /\ s' = s).
Proof.
  intros Hs Hc. pose proof (@good_nil) as Hg. destruct (wf_search _ _ _ Hs Hg) as [Hsearch Hsize]. unfold PT.getLineRawContent.
  pt_step. apply wp_on_tree_read, wp_get_root. split; [done|]. pt_step. unfold SC.get2. pt_step. pt_step. pose proof Hc as [Hcf _].
  assert (Hnil : searchCache_ s = []). { destruct (searchCache_ s) as [|e l]; [done|]. apply Forall_inv in Hcf as (xs & pt & ys & E & _). by destruct xs. }
  rewrite Hnil. cbn [rev SC.get2_loop]. pt_step. pt_step. pt_step. apply wp_on_tree_read, wp_gets. split; [done|].
  inversion Hsearch as [E|? ? ? ? ? ? ? ? ? ? ? ? ? ? ? ? E]; [|by destruct xs].
  assert (Hraw : forall fuel, (0 < fuel)%nat -> PT.getLineRawContent_loop fuel SENTINEL line line 0 0 s = Ok (inr (SENTINEL, []), s)) by (intros [|fuel] ?; [lia|done]).
  apply (wp_mono _ _ (fun r s' => r = inr (SENTINEL, []) /\ s' = s)); [unfold wp; by rewrite Hraw by lia|]. intros r s' [-> ->]. pt_step. eapply wp_next_sentinel; [exact Hs|]. pt_step. apply wp_on_tree_read, wp_gets. split; [done|]. cbn [PT.getLineRawContent_next]. change (SENTINEL =? SENTINEL) with true. cbv iota. by pt_step.
Qed.

(** ** The content of a line *)

(** The cache and the last visited line do not say what a tree stands for. *)
Lemma represents_memo F s d its c v : represents F s d -> wf F s its -> doc its = d -> good its -> cache_ok its (with_cache c s) ->
  visited_ok (with_visited v s) d -> represents F (with_visited v (with_cache c s)) d.
Proof. intros (its' & _ & _ & _ & H1 & H2 & _ & _ & H5) Hs Hd Hg Hc Hv. exists its. by split_and!. Qed.

Lemma wp_getLineContent F s d line :
  represents F s d -> 1 <= line <= lineCnt_ s ->
  wp (PT.getLineContent line) s (fun r s' => (splitLines d).[line - 1] = Some r /\ represents F s' d /\ exists c, s' = with_visited (line, r) (with_cache c s)).
Proof.
  intros Hrep Hl. pose proof Hrep as (its & Hs & Hg & Hdoc & Hcnt & _ & Hc & Hv & [Heol Hnorm]). rewrite Hcnt in Hl. unfold PT.getLineContent.
  do 2 pt_step. change (id s) with s. destruct (Z.eqb_spec (lastVisitedLine_ s).1 line) as [E|E].
  { pt_step. assert (Hsp : (splitLines d).[line - 1] = Some (lastVisitedLine_ s).2) by (destruct Hv as [Hv|Hv]; [lia|by rewrite E in Hv]).
    split; [done|]. split; [done|]. exists (searchCache_ s). rewrite <- E. by destruct s as [? ? ? ? ? ? ? ? []]. }
  pt_step. pt_step. set (s1 := with_visited (line, (lastVisitedLine_ s).2) s). assert (Hs1 : wf F s1 its) by done.
  destruct (start_at d (line - 1) ltac:(lia)) as (st & Hst & Hstr).
  assert (Hraw : raw_line d (line - 1) = Some (sub d st (line_end d line))) by (unfold raw_line; rewrite Hst; simpl; by replace (line - 1 + 1) with line by lia).
  pose proof (raw_line_split d (line - 1) _ ltac:(lia) Hraw) as [_ Hsplit].
  assert (Hget : forall eo, 0 <= eo -> cut_ok d line st eo -> (breaks d < line -> eo = 0) ->
    wp (PT.getLineRawContent line eo) s1 (fun r s' => r = sub d st (line_end d line - eo) /\ exists c, s' = with_cache c s1 /\ cache_ok its s')).
  { intros eo H0 H1 H2. rewrite <- Hdoc in Hl, Hst, H1, H2 |- *. destruct (decide (its = [])) as [-> |Hne]; [|by apply (wp_getLineRawContent F s1 its)].
    change (breaks (doc [])) with 0 in *. rewrite H2 by lia. eapply wp_mono; [by apply (wp_getLineRawContent_nil F s1 line)|]. intros r s' [-> ->]. split; [by unfold sub; change (doc []) with (@nil Z); rewrite drop_nil, take_nil|].
    exists (searchCache_ s). split; [by destruct s|done]. }
  apply (wp_bind _ _ _ _). apply (wp_mono _ _ (fun r s' => (splitLines d).[line - 1] = Some r /\ exists c, s' = with_cache c s1 /\ cache_ok its s')).
  - change (lineCnt_ s) with (lineCnt_ s1). change (lineCnt_ s1) with (lineCnt_ s). rewrite Hcnt. destruct (Z.eqb_spec line (breaks d + 1)) as [El|El].
    + eapply wp_mono; [apply (Hget 0); [done|by apply cut_ok_0|done]|]. intros r s' [-> Hs']. split; [|done]. rewrite Z.sub_0_r, Hsplit. f_equal.
      apply (raw_last d). by replace (breaks d) with (line - 1) by lia.
    + destruct (EOLNormalized_ s) eqn:En.
      * destruct (cut_ok_normalized (EOL_ s) d line st Heol (Hnorm eq_refl) ltac:(lia) Hst) as [Hcut Hsp].
        eapply wp_mono; [apply (Hget (zlen (EOL_ s))); [apply zlen_nonneg|done|lia]|]. intros r s' [-> Hs']. by split.
      * pt_step. eapply wp_mono; [apply (Hget 0); [done|by apply cut_ok_0|done]|]. intros r s' [-> Hs']. pt_step. rewrite Z.sub_0_r. by split.
  - intros r s' (Hr & c & -> & Hc'). pt_step. apply wp_modify. pt_step. cbv beta. split; [done|]. split; [|by exists c].
    apply (represents_memo F s d its c (line, r)); try done. right. exact Hr.
Qed.

(** C28: The content of a line.  In a piece tree that stands for a document,
    [getLineContent] gives for every line number the line that splitting the document at its
    line breaks gives, be it in one node or over many, at its first visit or remembered; the
    tree still stands for the document, so the cache it filled and the line it remembers are
    right.  The line ending that it cuts off a normalized line is always in one node. *)
Theorem getLineContent_correct F s d line :
  represents F s d -> 1 <= line <= lineCnt_ s ->
  wp (PT.getLineContent line) s (fun r s' => (splitLines d).[line - 1] = Some r /\ represents F s' d /\ buffers_ s' = buffers_ s).
Proof. intros. eapply wp_mono; [by apply (wp_getLineContent F s d line)|]. intros r s' (H2 & H3 & c & ->). done. Qed.

Lemma getLineContent_correct_witness : exists s, PT.insert 0 sample_text true empty_tree = Ok (tt, s) /\ exists s', PT.getLineContent 2 s = Ok ([98], s') /\
  represents ∅ s' sample_text.
Proof.
  pose proof (wp_insert ∅ empty_tree [] 0 sample_text true empty_represents ltac:(by vm_compute) ltac:(done) ltac:(by vm_compute) ltac:(done)) as H1.
  apply wp_run in H1 as ([] & s & E1 & Hs & _). change (inserted_text [] 0 sample_text) with sample_text in Hs. exists s. split; [exact E1|].
  assert (Hl : 1 <= 2 <= lineCnt_ s) by (destruct Hs as (its & _ & _ & _ & -> & _); vm_compute; split; intros [=]).
  pose proof (getLineContent_correct ∅ s sample_text 2 Hs Hl) as H. apply wp_run in H as (r & s' & E2 & Hr & Hs' & _). injection Hr as <-.
  exists s'. split; [exact E2|exact Hs'].
Defined.

(** ** The length of a line *)

Lemma wp_offset F s d line : represents F s d -> 1 <= line ->
  PT.getOffsetAt line 1 s = Ok (default (zlen d) ((starts d).[line - 1]), s).
Proof.
  intros (its & Hs & Hg & <- & _) Hl. pose proof (wp_getOffsetAt F s its line 1 Hs Hg Hl) as H. apply wp_run in H as (r & s' & -> & -> & ->).
  do 2 f_equal. destruct (doc its) as [|c d']; [|unfold offset_of; destruct (_.[_]); simpl; [lia|done]].
  rewrite starts_nil, at_cons. destruct (Z.eqb_spec (line - 1) 0); [done|]. unfold at_. by destruct (line - 1 - 1 <? 0).
Qed.

Lemma getLineLength_ok F s d line c :
  represents F s d -> EOLNormalized_ s = true -> 1 <= line <= lineCnt_ s -> (splitLines d).[line - 1] = Some c ->
  PT.getLineLength line s = Ok (zlen c, s).
Proof.
  intros Hrep Hn Hl Hc. pose proof Hrep as (its & _ & _ & _ & Hcnt & Hlen & _ & _ & [Heol Hnorm]). rewrite Hcnt in Hl. unfold PT.getLineLength.
  destruct (start_at d (line - 1) ltac:(lia)) as (st & Hst & Hr). pose proof (line_bounds d (line - 1) st Hst) as Hb. replace (line - 1 + 1) with line in Hb by lia.
  assert (Hraw : raw_line d (line - 1) = Some (sub d st (line_end d line))) by (unfold raw_line; rewrite Hst; simpl; by replace (line - 1 + 1) with line by lia).
  pose proof (wp_offset F s d line Hrep ltac:(lia)) as E1. rewrite Hst in E1. simpl in E1.
  destruct (raw_line_split d (line - 1) _ ltac:(lia) Hraw) as [_ Hsp]. rewrite Hc in Hsp. injection Hsp as ->.
  change (PT.getLineCount) with (gets lineCnt_). unfold mbind at 1, ST_bind at 1, gets at 1. cbn beta iota. rewrite Hcnt. destruct (Z.eqb_spec line (breaks d + 1)) as [E|E].
  - unfold mbind at 1, ST_bind at 1. rewrite E1. change (Ok (length_ s - st, s) = Ok (zlen (stripEOL (sub d st (line_end d line))), s)). rewrite Hlen, (raw_last d).
    + rewrite zlen_sub by lia. unfold line_end. by rewrite at_None by (rewrite zlen_starts; lia).
    + by replace (breaks d) with (line - 1) by lia.
  - destruct (start_at d line ltac:(lia)) as (e & He & Her). pose proof (wp_offset F s d (line + 1) Hrep ltac:(lia)) as E2.
    replace (line + 1 - 1) with line in E2 by lia. rewrite He in E2. simpl in E2. unfold mbind at 1, ST_bind at 1. rewrite E2. cbn beta iota.
    unfold mbind at 1, ST_bind at 1. rewrite E1. change (Ok (e - st - PT.EOLLength s, s) = Ok (zlen (stripEOL (sub d st (line_end d line))), s)). unfold line_end in *. rewrite He in *. simpl in *. do 2 f_equal.
    pose proof (raw_normalized (EOL_ s) d (line - 1) _ Heol (Hnorm Hn) ltac:(lia) Hraw) as Er. apply (f_equal zlen) in Er. rewrite zlen_app, zlen_sub in Er by lia.
    unfold PT.EOLLength. lia.
Qed.

(** The length of a line.  When the line endings of a piece tree are normalized, so that
    all have the length of its own, [getLineLength] is the length of the content of the line,
    for every line of the document. *)
Theorem getLineLength_correct F s d line c :
  represents F s d -> EOLNormalized_ s = true -> 1 <= line <= lineCnt_ s -> (splitLines d).[line - 1] = Some c ->
  PT.getLineLength line s = Ok (zlen c, s).
Proof. apply getLineLength_ok. Qed.

Lemma getLineLength_correct_witness : exists s, PT.insert 0 sample_text true empty_tree = Ok (tt, s) /\ PT.getLineLength 1 s = Ok (1, s).
Proof.
  pose proof (wp_insert ∅ empty_tree [] 0 sample_text true empty_represents ltac:(by vm_compute) ltac:(done) ltac:(by vm_compute) ltac:(done)) as H1.
  apply wp_run in H1 as ([] & s & E1 & Hs & _ & Hn & _). change (inserted_text [] 0 sample_text) with sample_text in Hs. exists s. split; [exact E1|].
  assert (Hl : 1 <= 1 <= lineCnt_ s) by (destruct Hs as (its & _ & _ & _ & -> & _); vm_compute; split; intros [=]).
  exact (getLineLength_correct ∅ s sample_text 1 [97] Hs Hn Hl ltac:(reflexivity)).
Defined.
