(* ===== verification/TextBuffer.v ===== *)
(** * The text buffer of a model

    [PieceTreeTextBuffer] of
    [src/src/vs/editor/common/model/pieceTreeTextBuffer/pieceTreeTextBuffer.ts]: a piece tree
    with what is known of its text, and [applyEdits], which checks a list of edits, applies
    them from the bottom to the top and says how to undo them.  The methods are programs on
    the buffer; those of the tree are run on its tree.  The event [onDidChangeContent] is
    left out. *)

From S2P Require Import Prelude Position TextRange TextChange Length EolCounter Store RbTree RbInsert PtBuffer Strings PieceTree.

#[local] Open Scope js_scope.

(** [Array.prototype.sort] with a comparison, which is stable. *)
Fixpoint sort_insert {A} (cmp : A -> A -> Z) (a : A) (l : list A) : list A :=
  match l with [] => [a] | b :: l' => if cmp a b <=? 0 then a :: l else b :: sort_insert cmp a l' end.

Definition js_sort {A} (cmp : A -> A -> Z) (l : list A) : list A := foldr (sort_insert cmp) [] l.

(** ** The data of the edits *)

Record ISingleEditOperationIdentifier : Type := mkIdentifier { major : Z; minor : Z }.

(** [text] is [None] for [null]. *)
Record ValidAnnotatedEditOperation : Type := mkRawEdit {
  raw_identifier : option ISingleEditOperationIdentifier;
  raw_range : Range;
  raw_text : option (list Z);
  raw_forceMoveMarkers : bool;
  raw_isAutoWhitespaceEdit : bool;
  raw_isTracked : bool }.

Record IValidatedEditOperation : Type := mkEdit {
  sortIndex : Z;
  identifier : option ISingleEditOperationIdentifier;
  range : Range;
  rangeOffset : Z;
  rangeLength : Z;
  text : list Z;
  eolCount : Z;
  firstLineLength : Z;
  lastLineLength : Z;
  forceMoveMarkers : bool;
  isAutoWhitespaceEdit : bool }.

Record IReverseSingleEditOperation : Type := mkReverse {
  rev_sortIndex : Z;
  rev_identifier : option ISingleEditOperationIdentifier;
  rev_range : Range;
  rev_text : list Z;
  rev_textChange : TextChange }.

Record IInternalModelContentChange : Type := mkChange {
  change_range : Range;
  change_rangeLength : Z;
  change_text : list Z;
  change_rangeOffset : Z;
  change_forceMoveMarkers : bool }.

Record ApplyEditsResult : Type := mkResult {
  reverseEdits : option (list IReverseSingleEditOperation);
  changes : list IInternalModelContentChange;
  trimAutoWhitespaceLineNumbers : option (list Z) }.

Inductive EndOfLinePreference : Type := TextDefined | PreferLF | PreferCRLF.

(** ** The buffer *)

Record PieceTreeTextBuffer : Type := mkTextBuffer {
  pieceTree_ : PieceTreeBase;
  BOM_buffer : list Z;
  mightContainRTL_ : bool;
  mightContainUnusualLineTerminators_ : bool;
  mightContainNonBasicASCII_ : bool }.

Definition B (A : Type) : Type := ST PieceTreeTextBuffer A.

Definition with_pieces (t : PieceTreeBase) (b : PieceTreeTextBuffer) : PieceTreeTextBuffer :=
  mkTextBuffer t (BOM_buffer b) (mightContainRTL_ b) (mightContainUnusualLineTerminators_ b) (mightContainNonBasicASCII_ b).

Definition with_flags (rtl unusual nonASCII : bool) (b : PieceTreeTextBuffer) : PieceTreeTextBuffer :=
  mkTextBuffer (pieceTree_ b) (BOM_buffer b) rtl unusual nonASCII.

Definition on_pieces {A} (m : P A) : B A := fun b =>
  match m (pieceTree_ b) with Ok (a, t) => Ok (a, with_pieces t b) | Throw e => Throw e end.

(** What the object is before its constructor runs. *)
Definition blank_tree : PieceTreeBase :=
  mkPT empty_store [] 0 0 [] false (mkCursor 0 0) [] (0, []).

Module TB.

(** The constructor; that of [PieceTreeBase] is [create]. *)
Definition new (chunks : list StringBuffer) (BOM : list Z) (eol : list Z)
    (containsRTL containsUnusualLineTerminators isBasicASCII eolNormalized : bool) : result PieceTreeTextBuffer :=
  let* (_, t) := PT.create ((fun c => (buffer c, Some (lineStarts c))) <$> chunks) eol eolNormalized blank_tree in
  Ok (mkTextBuffer t BOM containsRTL containsUnusualLineTerminators (negb isBasicASCII)).

Definition mightContainRTL : B bool := gets mightContainRTL_.
Definition mightContainUnusualLineTerminators : B bool := gets mightContainUnusualLineTerminators_.
Definition resetMightContainUnusualLineTerminators : B unit :=
  modify (fun b => with_flags (mightContainRTL_ b) false (mightContainNonBasicASCII_ b) b).
Definition mightContainNonBasicASCII : B bool := gets mightContainNonBasicASCII_.
Definition getBOM : B (list Z) := gets BOM_buffer.
Definition getEOL : B (list Z) := on_pieces PT.getEOL.

Definition createSnapshot (preserveBOM : bool) : B PieceTreeSnapshot :=
  bom ← getBOM; on_pieces (Snapshot.new (if preserveBOM then bom else [])).

Definition getOffsetAt (lineNumber column : Z) : B Z := on_pieces (PT.getOffsetAt lineNumber column).
Definition getPositionAt (offset : Z) : B Position := on_pieces (PT.getPositionAt offset).

Definition getRangeAt (start length : Z) : B Range :=
  let end_ := start + length in
  startPosition ← getPositionAt start;
  endPosition ← getPositionAt end_;
  mret (Rng.new_Range (lineNumber startPosition) (Position.column startPosition) (lineNumber endPosition) (Position.column endPosition)).

Definition getEndOfLine (eol : EndOfLinePreference) : B (list Z) :=
  match eol with
  | PreferLF => mret [10]
  | PreferCRLF => mret [13; 10]
  | TextDefined => getEOL
  end.

Definition getValueInRange (range : Range) (eol : EndOfLinePreference) : B (list Z) :=
  if Rng.isEmpty range then mret []
  else lineEnding ← getEndOfLine eol; on_pieces (PT.getValueInRange range (Some lineEnding)).

Definition getValueLengthInRange (range : Range) (eol : EndOfLinePreference) : B Z :=
  if Rng.isEmpty range then mret 0
  else if startLineNumber range =? endLineNumber range then mret (endColumn range - startColumn range)
  else
    startOffset ← getOffsetAt (startLineNumber range) (startColumn range);
    endOffset ← getOffsetAt (endLineNumber range) (endColumn range);
    desiredEOL ← getEndOfLine eol;
    actualEOL ← getEOL;
    let eolOffsetCompensation :=
      if negb (zlen desiredEOL =? zlen actualEOL) then
        (zlen desiredEOL - zlen actualEOL) * (endLineNumber range - startLineNumber range)
      else 0 in
    mret (endOffset - startOffset + eolOffsetCompensation).

Definition getLength : B Z := on_pieces PT.getLength.
Definition getLineCount : B Z := on_pieces PT.getLineCount.
Definition getLinesContent : B (list (list Z)) := on_pieces PT.getLinesContent.
Definition getLineContent (lineNumber : Z) : B (list Z) := on_pieces (PT.getLineContent lineNumber).
Definition getLineCharCode (lineNumber index : Z) : B (option Z) := on_pieces (PT.getLineCharCode lineNumber index).
Definition getCharCode (offset : Z) : B (option Z) := on_pieces (PT.getCharCode offset).
Definition getLineLength (lineNumber : Z) : B Z := on_pieces (PT.getLineLength lineNumber).
Definition getLineMinColumn (lineNumber : Z) : B Z := mret 1.
Definition getLineMaxColumn (lineNumber : Z) : B Z := n ← getLineLength lineNumber; mret (n + 1).

(** The loop over a line of [getCharacterCountInRange], with [n] offsets left at most. *)
Fixpoint count_line (n : nat) (lineContent : list Z) (offset toOffset result : Z) : Z :=
  match n with
  | O => result
  | S n' =>
      if offset <? toOffset then
        if match charCodeAt lineContent offset with Some c => isHighSurrogate c | None => false end
        then count_line n' lineContent (offset + 2) toOffset (result + 1)
        else count_line n' lineContent (offset + 1) toOffset (result + 1)
      else result
  end.

(** The loop over the lines, [n] lines from [lineNumber] on. *)
Fixpoint count_lines (n : nat) (range : Range) (lineNumber result : Z) : B Z :=
  match n with
  | O => mret result
  | S n' =>
      lineContent ← getLineContent lineNumber;
      let fromOffset := if lineNumber =? startLineNumber range then startColumn range - 1 else 0 in
      let toOffset := if lineNumber =? endLineNumber range then endColumn range - 1 else zlen lineContent in
      count_lines n' range (lineNumber + 1) (count_line (Z.to_nat (toOffset - fromOffset)) lineContent fromOffset toOffset result)
  end.

Definition getCharacterCountInRange (range : Range) (eol : EndOfLinePreference) : B Z :=
  nonASCII ← mightContainNonBasicASCII;
  if nonASCII : bool then
    result ← count_lines (Z.to_nat (endLineNumber range - startLineNumber range + 1)) range (startLineNumber range) 0;
    e ← getEndOfLine eol;
    mret (result + zlen e * (endLineNumber range - startLineNumber range))
  else getValueLengthInRange range eol.

Definition getLineFirstNonWhitespaceColumn (lineNumber : Z) : B Z :=
  content ← getLineContent lineNumber;
  let result := firstNonWhitespaceIndex content in
  if result =? -1 then mret 0 else mret (result + 1).

Definition getLineLastNonWhitespaceColumn (lineNumber : Z) : B Z :=
  content ← getLineContent lineNumber;
  let result := lastNonWhitespaceIndex content None in
  if result =? -1 then mret 0 else mret (result + 2).

Definition setEOL (newEOL : list Z) : B unit := on_pieces (PT.setEOL newEOL).

(** ** Applying edits *)

Definition sortOpsAscending (a b : IValidatedEditOperation) : Z :=
  let r := Rng.compareRangesUsingEnds (range a) (range b) in
  if r =? 0 then sortIndex a - sortIndex b else r.

Definition sortOpsDescending (a b : IValidatedEditOperation) : Z :=
  let r := Rng.compareRangesUsingEnds (range a) (range b) in
  if r =? 0 then sortIndex b - sortIndex a else - r.

(** The flags of the first loop: right to left, unusual terminators, no basic ASCII, and
    whether the operations may be reduced. *)
Record Flags : Type := mkFlags { rtl : bool; unusual : bool; nonASCII : bool; canReduce : bool }.

(** What an operation says about the text that is inserted. *)
Definition update_flags (f : Flags) (op : ValidAnnotatedEditOperation) : Flags :=
  let canReduce' := if canReduce f && raw_isTracked op then false else canReduce f in
  match raw_text op with
  | Some (c :: t) =>
      let str := c :: t in
      let textMightContainNonBasicASCII := if negb (nonASCII f) then negb (isBasicASCII str) else true in
      let nonASCII' := if negb (nonASCII f) then textMightContainNonBasicASCII else nonASCII f in
      let rtl' := if negb (rtl f) && textMightContainNonBasicASCII then containsRTL str else rtl f in
      let unusual' := if negb (unusual f) && textMightContainNonBasicASCII then containsUnusualLineTerminators str else unusual f in
      mkFlags rtl' unusual' nonASCII' canReduce'
  | _ => mkFlags (rtl f) (unusual f) (nonASCII f) canReduce'
  end.

(** The text as it will be inserted, with the counts of [countEOL]. *)
Definition valid_text (bufferEOL : list Z) (t : option (list Z)) : list Z * Z * Z * Z :=
  match t with
  | Some (c :: t) =>
      let str := c :: t in
      let '(eolCount, firstLineLength, lastLineLength, strEOL) := countEOL str in
      let expectedStrEOL := if bool_decide (bufferEOL = [13; 10]) then StringEOL.CRLF else StringEOL.LF in
      let validText := if (strEOL =? StringEOL.Unknown) || (strEOL =? expectedStrEOL) then str else replaceEOL str bufferEOL in
      (validText, eolCount, firstLineLength, lastLineLength)
  | _ => ([], 0, 0, 0)
  end.

Definition validate_op (i : Z) (op : ValidAnnotatedEditOperation) : B IValidatedEditOperation :=
  let validatedRange := raw_range op in
  bufferEOL ← getEOL;
  let '(validText, eolCount, firstLineLength, lastLineLength) := valid_text bufferEOL (raw_text op) in
  offset ← getOffsetAt (startLineNumber validatedRange) (startColumn validatedRange);
  length ← getValueLengthInRange validatedRange TextDefined;
  mret (mkEdit i (raw_identifier op) validatedRange offset length validText eolCount firstLineLength lastLineLength
    (raw_forceMoveMarkers op) (raw_isAutoWhitespaceEdit op)).

(** The first loop of [applyEdits]. *)
Fixpoint validate_ops (i : Z) (rawOperations : list ValidAnnotatedEditOperation) (f : Flags) : B (list IValidatedEditOperation * Flags) :=
  match rawOperations with
  | [] => mret ([], f)
  | op :: rest =>
      let f := update_flags f op in
      o ← validate_op i op;
      '(os, f) ← validate_ops (i + 1) rest f;
      mret (o :: os, f)
  end.

(** The loop over neighbours: do any touch? *)
Fixpoint check_overlap (operations : list IValidatedEditOperation) (hasTouchingRanges : bool) : result bool :=
  match operations with
  | a :: (b :: _) as rest =>
      let rangeEnd := Rng.getEndPosition (range a) in
      let nextRangeStart := Rng.getStartPosition (range b) in
      if Pos.isBeforeOrEqual nextRangeStart rangeEnd then
        if Pos.isBefore nextRangeStart rangeEnd then Throw OtherError else check_overlap rest true
      else check_overlap rest hasTouchingRanges
  | _ => Ok hasTouchingRanges
  end.

(** The loop of [_toSingleEditOperation]; [result] is joined as it goes. *)
Fixpoint single_text (operations : list IValidatedEditOperation) (lastEndLineNumber lastEndColumn : Z) (result : list Z) : B (list Z) :=
  match operations with
  | [] => mret result
  | op :: rest =>
      let r := range op in
      old ← getValueInRange (Rng.new_Range lastEndLineNumber lastEndColumn (startLineNumber r) (startColumn r)) TextDefined;
      single_text rest (endLineNumber r) (endColumn r) ((result ++ old) ++ text op)
  end.

Definition toSingleEditOperation (operations : list IValidatedEditOperation) (first last : IValidatedEditOperation) : B IValidatedEditOperation :=
  let firstEditRange := range first in
  let lastEditRange := range last in
  let entireEditRange := Rng.new_Range (startLineNumber firstEditRange) (startColumn firstEditRange) (endLineNumber lastEditRange) (endColumn lastEditRange) in
  t ← single_text operations (startLineNumber firstEditRange) (startColumn firstEditRange) [];
  let '(eolCount, firstLineLength, lastLineLength, _) := countEOL t in
  offset ← getOffsetAt (startLineNumber entireEditRange) (startColumn entireEditRange);
  length ← getValueLengthInRange entireEditRange TextDefined;
  mret (mkEdit 0 (identifier first) entireEditRange offset length t eolCount firstLineLength lastLineLength
    (existsb forceMoveMarkers operations) false).

Definition reduceOperations (operations : list IValidatedEditOperation) : B (list IValidatedEditOperation) :=
  if zlen operations <? 1000 then mret operations
  else match head operations, last operations with
       | Some first, Some last => op ← toSingleEditOperation operations first last; mret [op]
       | _, _ => throw TypeError
       end.

(** ** The ranges of the inserted texts *)

(** From the start of an edit, where its text ends. *)
Definition inserted_range (startLineNumber startColumn : Z) (t : list Z) (eolCount firstLineLength lastLineLength : Z) : Range :=
  if zlen t >? 0 then
    let lineCount := eolCount + 1 in
    if lineCount =? 1 then Rng.new_Range startLineNumber startColumn startLineNumber (startColumn + firstLineLength)
    else Rng.new_Range startLineNumber startColumn (startLineNumber + lineCount - 1) (lastLineLength + 1)
  else Rng.new_Range startLineNumber startColumn startLineNumber startColumn.

Definition getInverseEditRange (r : Range) (t : list Z) : Range :=
  let '(eolCount, firstLineLength, lastLineLength, _) := countEOL t in
  inserted_range (startLineNumber r) (startColumn r) t eolCount firstLineLength lastLineLength.

(** The loop; [prev] is the range of the previous operation and where its text ended. *)
Fixpoint inverse_ranges (prev : option (Range * Z * Z)) (operations : list IValidatedEditOperation) : list Range :=
  match operations with
  | [] => []
  | op :: rest =>
      let r := range op in
      let '(startLine, startCol) :=
        match prev with
        | Some (prevRange, prevOpEndLineNumber, prevOpEndColumn) =>
            if endLineNumber prevRange =? startLineNumber r then
              (prevOpEndLineNumber, prevOpEndColumn + (startColumn r - endColumn prevRange))
            else (prevOpEndLineNumber + (startLineNumber r - endLineNumber prevRange), startColumn r)
        | None => (startLineNumber r, startColumn r)
        end in
      let resultRange := inserted_range startLine startCol (text op) (eolCount op) (firstLineLength op) (lastLineLength op) in
      resultRange :: inverse_ranges (Some (r, endLineNumber resultRange, endColumn resultRange)) rest
  end.

Definition getInverseEditRanges (operations : list IValidatedEditOperation) : list Range := inverse_ranges None operations.

(** ** Undoing *)

(** The loop that makes the reverse operations, in the order of the operations. *)
Fixpoint reverse_ops (operations : list IValidatedEditOperation) (reverseRanges : list Range) (reverseRangeDeltaOffset : Z) : B (list IReverseSingleEditOperation) :=
  match operations, reverseRanges with
  | op :: operations', reverseRange :: reverseRanges' =>
      bufferText ← getValueInRange (range op) TextDefined;
      let reverseRangeOffset := rangeOffset op + reverseRangeDeltaOffset in
      rest ← reverse_ops operations' reverseRanges' (reverseRangeDeltaOffset + (zlen (text op) - zlen bufferText));
      mret (mkReverse (sortIndex op) (identifier op) reverseRange bufferText (mkTextChange (rangeOffset op) bufferText reverseRangeOffset (text op)) :: rest)
  | _, _ => mret []
  end.

(** ** Automatic white space *)

(** [n] lines from [lineNumber] on; the candidates are a line number and its old content. *)
Fixpoint trim_lines (n : nat) (op : IValidatedEditOperation) (reverseRange : Range) (lineNumber : Z) : B (list (Z * list Z)) :=
  match n with
  | O => mret []
  | S n' =>
      this ← (if lineNumber =? startLineNumber reverseRange then
                currentLineContent ← getLineContent (startLineNumber (range op));
                if negb (firstNonWhitespaceIndex currentLineContent =? -1) then mret [] else mret [(lineNumber, currentLineContent)]
              else mret [(lineNumber, [])]);
      rest ← trim_lines n' op reverseRange (lineNumber + 1);
      mret (this ++ rest)
  end.

Fixpoint trim_candidates (operations : list IValidatedEditOperation) (reverseRanges : list Range) : B (list (Z * list Z)) :=
  match operations, reverseRanges with
  | op :: operations', reverseRange :: reverseRanges' =>
      this ← (if isAutoWhitespaceEdit op && Rng.isEmpty (range op) then
                trim_lines (Z.to_nat (endLineNumber reverseRange - startLineNumber reverseRange + 1)) op reverseRange (startLineNumber reverseRange)
              else mret []);
      rest ← trim_candidates operations' reverseRanges';
      mret (this ++ rest)
  | _, _ => mret []
  end.

(** The candidates, sorted; [prev] is the line number of the one before. *)
Fixpoint trim_numbers (candidates : list (Z * list Z)) (prev : option Z) : B (list Z) :=
  match candidates with
  | [] => mret []
  | (lineNumber, prevContent) :: rest =>
      if bool_decide (prev = Some lineNumber) then trim_numbers rest (Some lineNumber)
      else
        lineContent ← getLineContent lineNumber;
        ns ← trim_numbers rest (Some lineNumber);
        if (zlen lineContent =? 0) || bool_decide (lineContent = prevContent) || negb (firstNonWhitespaceIndex lineContent =? -1)
        then mret ns else mret (lineNumber :: ns)
  end.

(** ** The edits themselves *)

Fixpoint apply_ops (operations : list IValidatedEditOperation) : B (list IInternalModelContentChange) :=
  match operations with
  | [] => mret []
  | op :: rest =>
      let r := range op in
      if (startLineNumber r =? endLineNumber r) && (startColumn r =? endColumn r) && (zlen (text op) =? 0) then apply_ops rest
      else
        (if zlen (text op) >? 0 then
           on_pieces (PT.delete (rangeOffset op) (rangeLength op));;
           on_pieces (PT.insert (rangeOffset op) (text op) true)
         else on_pieces (PT.delete (rangeOffset op) (rangeLength op)));;
        contentChanges ← apply_ops rest;
        let contentChangeRange := Rng.new_Range (startLineNumber r) (startColumn r) (endLineNumber r) (endColumn r) in
        mret (mkChange contentChangeRange (rangeLength op) (text op) (rangeOffset op) (forceMoveMarkers op) :: contentChanges)
  end.

Definition doApplyEdits (operations : list IValidatedEditOperation) : B (list IInternalModelContentChange) :=
  apply_ops (js_sort sortOpsDescending operations).

Definition applyEdits (rawOperations : list ValidAnnotatedEditOperation) (recordTrimAutoWhitespace computeUndoEdits : bool) : B ApplyEditsResult :=
  b ← gets id;
  '(operations, f) ← validate_ops 0 rawOperations
    (mkFlags (mightContainRTL_ b) (mightContainUnusualLineTerminators_ b) (mightContainNonBasicASCII_ b) true);
  let operations := js_sort sortOpsAscending operations in
  hasTouchingRanges ← (match check_overlap operations false with Ok t => mret t | Throw e => throw e end);
  operations ← (if canReduce f then reduceOperations operations else mret operations);
  let reverseRanges := if computeUndoEdits || recordTrimAutoWhitespace then getInverseEditRanges operations else [] in
  candidates ← (if recordTrimAutoWhitespace then trim_candidates operations reverseRanges else mret []);
  reverseOperations ← (if computeUndoEdits then
      rs ← reverse_ops operations reverseRanges 0;
      mret (Some (if negb hasTouchingRanges then js_sort (fun a b => rev_sortIndex a - rev_sortIndex b) rs else rs))
    else mret None);
  modify (with_flags (rtl f) (unusual f) (nonASCII f));;
  contentChanges ← doApplyEdits operations;
  trimNumbers ← (if recordTrimAutoWhitespace && (zlen candidates >? 0) then
      ns ← trim_numbers (js_sort (fun a b => b.1 - a.1) candidates) None; mret (Some ns)
    else mret None);
  mret (mkResult reverseOperations contentChanges trimNumbers).

End TB.
