(* ===== verification/TextBuilder.v ===== *)
(** * Building a text buffer from chunks

    [PieceTreeTextBufferBuilder] and its factory of
    [src/src/vs/editor/common/model/pieceTreeTextBuffer/pieceTreeTextBufferBuilder.ts]: the
    chunks of a file are accepted one by one; a CR or a high surrogate at the end of a chunk
    is kept back for the next, so that no CRLF and no surrogate pair is torn; the line breaks
    are counted to choose a line ending.  [_tmpLineStarts] is the scratch array of
    [createLineStarts], which is always empty in between. *)

From S2P Require Import Prelude Length EolCounter Store RbTree RbInsert PtBuffer PtSpan Strings PieceTree PtState PtEdit PtSearch PtInsert PtQuery PtLines PtRead PtBuild PtContent TextBuffer.

#[local] Open Scope js_scope.

(** ** Counting the breaks of a chunk *)

Record LineStarts : Type := mkLineStarts { starts_ : list Z; cr : Z; lf : Z; crlf : Z; basicASCII_ : bool }.

(** The loop of [createLineStarts] from the index [i]; [str] is the rest of the string. *)
Fixpoint count_starts (i : Z) (str : list Z) (st : LineStarts) : LineStarts :=
  match str with
  | [] => st
  | chr :: str' =>
      let push x := starts_ st ++ [x] in
      if chr =? 13 then
        match str' with
        | d :: str'' =>
            if d =? 10 then count_starts (i + 2) str'' (mkLineStarts (push (i + 2)) (cr st) (lf st) (crlf st + 1) (basicASCII_ st))
            else count_starts (i + 1) str' (mkLineStarts (push (i + 1)) (cr st + 1) (lf st) (crlf st) (basicASCII_ st))
        | [] => count_starts (i + 1) str' (mkLineStarts (push (i + 1)) (cr st + 1) (lf st) (crlf st) (basicASCII_ st))
        end
      else if chr =? 10 then count_starts (i + 1) str' (mkLineStarts (push (i + 1)) (cr st) (lf st + 1) (crlf st) (basicASCII_ st))
      else
        let ascii := if basicASCII_ st then negb (negb (chr =? 9) && ((chr <? 32) || (chr >? 126))) else false in
        count_starts (i + 1) str' (mkLineStarts (starts_ st) (cr st) (lf st) (crlf st) ascii)
  end.

Definition createLineStarts (str : list Z) : LineStarts :=
  let st := count_starts 0 str (mkLineStarts [0] 0 0 0 true) in
  mkLineStarts (createUintArray (starts_ st)) (cr st) (lf st) (crlf st) (basicASCII_ st).

(** ** The builder *)

Record PieceTreeTextBufferBuilder : Type := mkBuilder {
  chunks_ : list StringBuffer;
  bom_ : list Z;
  hasPreviousChar_ : bool;
  previousChar_ : option Z;
  cr_ : Z;
  lf_ : Z;
  crlf_ : Z;
  rtl_ : bool;
  unusual_ : bool;
  ascii_ : bool }.

Record PieceTreeTextBufferFactory : Type := mkFactory {
  fac_chunks : list StringBuffer;
  fac_bom : list Z;
  fac_cr : Z;
  fac_lf : Z;
  fac_crlf : Z;
  fac_containsRTL : bool;
  fac_containsUnusualLineTerminators : bool;
  fac_isBasicASCII : bool;
  fac_normalizeEOL : bool }.

Inductive DefaultEndOfLine : Type := DefaultLF | DefaultCRLF.

(** [String.fromCharCode] of a code unit or [NaN]. *)
Definition fromCharCode (c : option Z) : list Z := [default 0 c mod 65536].

(** A code unit that is kept back. *)
Definition held_back (c : option Z) : bool :=
  match c with Some c => (c =? 13) || ((0xD800 <=? c) && (c <=? 0xDBFF)) | None => false end.

Module Builder.

Definition new : PieceTreeTextBufferBuilder := mkBuilder [] [] false (Some 0) 0 0 0 false false true.

Definition acceptChunk2 (this : PieceTreeTextBufferBuilder) (chunk : list Z) : PieceTreeTextBufferBuilder :=
  let l := createLineStarts chunk in
  mkBuilder (chunks_ this ++ [mkBuffer chunk (starts_ l)]) (bom_ this) (hasPreviousChar_ this) (previousChar_ this)
    (cr_ this + cr l) (lf_ this + lf l) (crlf_ this + crlf l)
    (if negb (basicASCII_ l) then if negb (rtl_ this) then containsRTL chunk else rtl_ this else rtl_ this)
    (if negb (basicASCII_ l) then if negb (unusual_ this) then containsUnusualLineTerminators chunk else unusual_ this else unusual_ this)
    (if negb (basicASCII_ l) then false else ascii_ this).

Definition acceptChunk1 (this : PieceTreeTextBufferBuilder) (chunk : list Z) (allowEmptyStrings : bool) : PieceTreeTextBufferBuilder :=
  if negb allowEmptyStrings && (zlen chunk =? 0) then this
  else if hasPreviousChar_ this then acceptChunk2 this (fromCharCode (previousChar_ this) ++ chunk)
  else acceptChunk2 this chunk.

Definition with_previous (this : PieceTreeTextBufferBuilder) (has : bool) (c : option Z) : PieceTreeTextBufferBuilder :=
  mkBuilder (chunks_ this) (bom_ this) has c (cr_ this) (lf_ this) (crlf_ this) (rtl_ this) (unusual_ this) (ascii_ this).

Definition with_bom (this : PieceTreeTextBufferBuilder) (bom : list Z) : PieceTreeTextBufferBuilder :=
  mkBuilder (chunks_ this) bom (hasPreviousChar_ this) (previousChar_ this) (cr_ this) (lf_ this) (crlf_ this) (rtl_ this) (unusual_ this) (ascii_ this).

(** The rest of [acceptChunk], after the byte order mark. *)
Definition accept_rest (this : PieceTreeTextBufferBuilder) (chunk : list Z) : PieceTreeTextBufferBuilder :=
  let lastChar := charCodeAt chunk (zlen chunk - 1) in
  if held_back lastChar then with_previous (acceptChunk1 this (substr chunk 0 (zlen chunk - 1)) false) true lastChar
  else with_previous (acceptChunk1 this chunk false) false lastChar.

Definition acceptChunk (this : PieceTreeTextBufferBuilder) (chunk : list Z) : PieceTreeTextBufferBuilder :=
  if zlen chunk =? 0 then this
  else
    let bom := (zlen (chunks_ this) =? 0) && startsWithUTF8BOM chunk in
    let this := if bom then with_bom this UTF8_BOM_CHARACTER else this in
    accept_rest this (if bom then substr chunk 1 (zlen chunk) else chunk).

(** The last chunk is made again with the code unit that was kept back. *)
Definition finish_ (this : PieceTreeTextBufferBuilder) : result PieceTreeTextBufferBuilder :=
  let this := if zlen (chunks_ this) =? 0 then acceptChunk1 this [] true else this in
  if hasPreviousChar_ this then
    match last (chunks_ this) with
    | None => Throw TypeError
    | Some lastChunk =>
        let str := buffer lastChunk ++ fromCharCode (previousChar_ this) in
        Ok (mkBuilder (set_at (chunks_ this) (zlen (chunks_ this) - 1) (mkBuffer str (createLineStartsFast str true))) (bom_ this) false (previousChar_ this)
          (if is_char (previousChar_ this) 13 then cr_ this + 1 else cr_ this) (lf_ this) (crlf_ this) (rtl_ this) (unusual_ this) (ascii_ this))
    end
  else Ok this.

Definition finish (this : PieceTreeTextBufferBuilder) (normalizeEOL : bool) : result PieceTreeTextBufferFactory :=
  let* this := finish_ this in
  Ok (mkFactory (chunks_ this) (bom_ this) (cr_ this) (lf_ this) (crlf_ this) (rtl_ this) (unusual_ this) (ascii_ this) normalizeEOL).

End Builder.

Module Factory.

Definition getEOL (this : PieceTreeTextBufferFactory) (defaultEOL : DefaultEndOfLine) : list Z :=
  let totalEOLCount := fac_cr this + fac_lf this + fac_crlf this in
  let totalCRCount := fac_cr this + fac_crlf this in
  if totalEOLCount =? 0 then match defaultEOL with DefaultLF => [10] | DefaultCRLF => [13; 10] end
  else if 2 * totalCRCount >? totalEOLCount then [13; 10]
  else [10].

(** The chunks as they go into the tree. *)
Definition normalized_chunks (this : PieceTreeTextBufferFactory) (eol : list Z) : list StringBuffer :=
  if fac_normalizeEOL this &&
     ((bool_decide (eol = [13; 10]) && ((fac_cr this >? 0) || (fac_lf this >? 0))) ||
      (bool_decide (eol = [10]) && ((fac_cr this >? 0) || (fac_crlf this >? 0))))
  then (fun c => let str := replaceEOL (buffer c) eol in mkBuffer str (createLineStartsFast str true)) <$> fac_chunks this
  else fac_chunks this.

Definition create (this : PieceTreeTextBufferFactory) (defaultEOL : DefaultEndOfLine) : result PieceTreeTextBuffer :=
  let eol := getEOL this defaultEOL in
  TB.new (normalized_chunks this eol) (fac_bom this) eol (fac_containsRTL this) (fac_containsUnusualLineTerminators this) (fac_isBasicASCII this) (fac_normalizeEOL this).

(** The part of the first chunk before its first line break. *)
Definition getFirstLineText (this : PieceTreeTextBufferFactory) (lengthLimit : Z) : result (list Z) :=
  match head (fac_chunks this) with
  | None => Throw TypeError
  | Some c => match head (splitLines (substr (buffer c) 0 lengthLimit)) with Some l => Ok l | None => Throw OtherError end
  end.

End Factory.

(** A file with nothing but a CR gets a second one; a CR alone in a chunk is lost when the
    chunk before ends with one. *)
Example lone_CR_doubled : exists f, Builder.finish (Builder.acceptChunk Builder.new [13]) true = Ok f /\ buffer <$> fac_chunks f = [[13; 13]].
Proof. eexists. split; reflexivity. Qed.

Example lone_CR_lost : exists f, Builder.finish (Builder.acceptChunk (Builder.acceptChunk Builder.new [97; 13]) [13]) true = Ok f /\
  buffer <$> fac_chunks f = [[97; 13]].
Proof. eexists. split; reflexivity. Qed.

(** So is one after a byte order mark; and the test for ASCII misses a high surrogate at the end. *)
Example BOM_CR_doubled : exists f, Builder.finish (Builder.acceptChunk Builder.new [65279; 13]) true = Ok f /\ fac_bom f = [65279] /\ buffer <$> fac_chunks f = [[13; 13]].
Proof. eexists. by split_and!. Qed.

Example last_high_missed : exists f, Builder.finish (Builder.acceptChunk Builder.new [97; 55296]) true = Ok f /\ fac_isBasicASCII f = true /\ buffer <$> fac_chunks f = [[97; 55296]].
Proof. eexists. by split_and!. Qed.

(** ** What the counts mean *)

(** The breaks of one kind. *)
Definition kinds (k : Z) (d : list Z) : Z := zlen (filter (fun x => x = k) (eol_kinds d)).

Lemma eol_kinds_app a b : torn a b = false -> eol_kinds (a ++ b) = eol_kinds a ++ eol_kinds b.
Proof.
  induction a as [|a IH|c a Hcr IH] using text_ind; intros Ht; [done|..].
  - change (eol_kinds (13 :: 10 :: a ++ b) = eol_kinds (13 :: 10 :: a) ++ eol_kinds b). simpl. f_equal. apply IH.
    destruct a as [|e a]; [done|]. change (13 :: 10 :: e :: a) with ([13; 10] ++ e :: a) in Ht. by rewrite torn_app_l in Ht.
  - assert (Hcr' : c = 13 -> forall a', a ++ b <> 10 :: a').
    { intros -> a' E. destruct a as [|e a]; [|injection E; intros; subst; by apply (Hcr eq_refl a)]. simpl in E. subst b. done. }
    change ((c :: a) ++ b) with (c :: a ++ b). rewrite (eol_kinds_one c _ Hcr'), (eol_kinds_one c _ Hcr). assert (Ht' : torn a b = false).
    { destruct a as [|e a]; [done|]. change (c :: e :: a) with ([c] ++ e :: a) in Ht. by rewrite torn_app_l in Ht. }
    rewrite (IH Ht'). by destruct (c =? 13), (c =? 10).
Qed.

Lemma kinds_app k a b : torn a b = false -> kinds k (a ++ b) = kinds k a + kinds k b.
Proof. intros Ht. unfold kinds. by rewrite (eol_kinds_app _ _ Ht), filter_app, zlen_app. Qed.

Lemma kinds_nonneg k d : 0 <= kinds k d.
Proof. apply zlen_nonneg. Qed.

Lemma kinds_cons k x l : zlen (filter (fun y => y = k) (x :: l)) = (if x =? k then 1 else 0) + zlen (filter (fun y => y = k) l).
Proof. rewrite filter_cons. destruct (decide (x = k)) as [->|Hx]; [rewrite Z.eqb_refl, zlen_cons; lia|]. by destruct (Z.eqb_spec x k). Qed.

Lemma count_starts_ok i str st :
  count_starts i str st = mkLineStarts (starts_ st ++ starts_in i str None) (cr st + kinds StringEOL.Invalid str) (lf st + kinds StringEOL.LF str)
    (crlf st + kinds StringEOL.CRLF str) (basicASCII_ st && isBasicASCII str).
Proof.
  revert i st. induction str as [|s IH|c s Hcr IH] using text_ind; intros i [r a b d e]; cbn [starts_ cr lf crlf basicASCII_].
  - simpl. unfold kinds. simpl. rewrite app_nil_r, !Z.add_0_r, andb_true_r. done.
  - change (count_starts i (13 :: 10 :: s) (mkLineStarts r a b d e)) with (count_starts (i + 2) s (mkLineStarts (r ++ [i + 2]) a b (d + 1) e)). rewrite IH. cbn [starts_ cr lf crlf basicASCII_].
    unfold kinds. change (eol_kinds (13 :: 10 :: s)) with (StringEOL.CRLF :: eol_kinds s). rewrite !kinds_cons. change (isBasicASCII (13 :: 10 :: s)) with (isBasicASCII s).
    assert (Es : starts_in i (13 :: 10 :: s) None = (i + 2) :: starts_in (i + 2) s None).
    { simpl. change (ends 13 (Some 10)) with false. change (ends 10 (nxt s None)) with true. cbn [app]. by replace (i + 1 + 1) with (i + 2) by lia. }
    rewrite Es, <- app_assoc. cbn [app]. change (StringEOL.CRLF =? StringEOL.CRLF) with true. change (StringEOL.CRLF =? StringEOL.Invalid) with false. change (StringEOL.CRLF =? StringEOL.LF) with false.
    f_equal; lia.
  - assert (En : is_char (nxt s None) 10 = false \/ c <> 13).
    { destruct (decide (c = 13)) as [->|]; [left|by right]. destruct s as [|x s]; [done|]. simpl. destruct (Z.eqb_spec x 10) as [->|]; [by destruct (Hcr eq_refl s)|done]. }
    assert (Estep : count_starts i (c :: s) (mkLineStarts r a b d e) =
      if c =? 13 then count_starts (i + 1) s (mkLineStarts (r ++ [i + 1]) (a + 1) b d e)
      else if c =? 10 then count_starts (i + 1) s (mkLineStarts (r ++ [i + 1]) a (b + 1) d e)
      else count_starts (i + 1) s (mkLineStarts r a b d (if e then negb (negb (c =? 9) && ((c <? 32) || (c >? 126))) else false))).
    { simpl. destruct (Z.eqb_spec c 13) as [->|]; [|done]. destruct s as [|x s]; [done|]. destruct (Z.eqb_spec x 10) as [->|]; [by destruct (Hcr eq_refl s)|done]. }
    rewrite Estep. unfold kinds. rewrite (eol_kinds_one c s Hcr). cbn [starts_in]. unfold ends. change (isBasicASCII (c :: s)) with (basic_ascii c && isBasicASCII s).
    destruct (Z.eqb_spec c 13) as [->|H13]; [|destruct (Z.eqb_spec c 10) as [->|H10]].
    + destruct En as [->|]; [|done]. rewrite IH. cbn [starts_ cr lf crlf basicASCII_ negb andb orb app]. rewrite <- app_assoc. rewrite !kinds_cons.
      change (StringEOL.Invalid =? StringEOL.CRLF) with false. change (StringEOL.Invalid =? StringEOL.Invalid) with true. change (StringEOL.Invalid =? StringEOL.LF) with false.
      change (basic_ascii 13) with true. cbn [andb app]. unfold kinds. f_equal; lia.
    + rewrite IH. cbn [starts_ cr lf crlf basicASCII_ orb app]. rewrite <- app_assoc. rewrite !kinds_cons.
      change (StringEOL.LF =? StringEOL.CRLF) with false. change (StringEOL.LF =? StringEOL.Invalid) with false. change (StringEOL.LF =? StringEOL.LF) with true.
      change (basic_ascii 10) with true. cbn [andb app]. unfold kinds. f_equal; lia.
    + rewrite IH. cbn [starts_ cr lf crlf basicASCII_ orb andb app]. unfold kinds. f_equal. rewrite andb_assoc. f_equal.
      unfold basic_ascii. destruct e; [|done]. cbn [andb]. destruct (Z.eqb_spec c 9), (Z.eqb_spec c 10), (Z.eqb_spec c 13); try done; simpl; rewrite Z.gtb_ltb; lia.
Qed.

(** The single pass that the builder makes finds what the others find. *)
Lemma createLineStarts_ok str : zlen str < 2 ^ 32 ->
  createLineStarts str = mkLineStarts (starts str) (kinds StringEOL.Invalid str) (kinds StringEOL.LF str) (kinds StringEOL.CRLF str) (isBasicASCII str).
Proof.
  intros Hl. pose proof (createLineStartsFast_ok str true Hl) as E. unfold createLineStartsFast in E. rewrite line_starts_at_eq in E.
  unfold createLineStarts. rewrite count_starts_ok. cbn [starts_ cr lf crlf basicASCII_ app andb]. rewrite !Z.add_0_l. by rewrite E.
Qed.

(** C39: The typed arrays are wide enough.  Both scans put the line starts of a text into 16-bit
    words when the last one is below 65536 and into 32-bit words otherwise; for a text of fewer
    than 2^32 code units no start wraps around, so that the array is the list of the offsets
    at which the lines start. *)
Theorem line_starts_fit str readonly : zlen str < 2 ^ 32 ->
  createLineStartsFast str readonly = starts str /\ starts_ (createLineStarts str) = starts str /\
  Forall (fun x => 0 <= x <= zlen str) (starts str) /\ zlen (starts str) = zlen (splitLines str).
Proof.
  intros Hl. split; [by apply createLineStartsFast_ok|]. split; [by rewrite createLineStarts_ok|]. split; [|by rewrite zlen_starts, breaks_splitLines].
  apply Forall_forall. intros x Hx. apply elem_of_at in Hx as [k Hk]. pose proof (at_lt _ _ _ Hk) as Hkr. rewrite zlen_starts in Hkr.
  destruct (start_at str k ltac:(lia)) as (y & Hy & Hr). rewrite Hk in Hy. by injection Hy as ->.
Qed.

Lemma line_starts_fit_witness : createLineStartsFast [97; 13; 10; 98] true = [0; 3] /\ zlen [97; 13; 10; 98] < 2 ^ 32.
Proof. split; [exact (proj1 (line_starts_fit [97; 13; 10; 98] true ltac:(done)))|done]. Defined.

(** ** Texts that can be put together *)

(** Does a surrogate pair go over the boundary? *)
Definition split_pair (a b : list Z) : bool :=
  match last a, head b with Some c, Some d => isHighSurrogate c && isLowSurrogate d | _, _ => false end.

Lemma rtl_not_low c d : isLowSurrogate d = false -> makeContainsRtl c (Some d) = makeContainsRtl c None.
Proof.
  intros Hd. unfold makeContainsRtl. f_equal. unfold isLowSurrogate in Hd. unfold rtl_pairs, in_ranges. cbn [existsb fst snd].
  repeat match goal with |- context [(?h <=? d) && (d <=? ?k)] => replace ((h <=? d) && (d <=? k)) with false by lia end. done.
Qed.

Lemma containsRTL_join a b : split_pair a b = false -> containsRTL (a ++ b) = containsRTL a || containsRTL b.
Proof.
  induction a as [|c a IH]; intros Ha; [done|]. cbn [app containsRTL]. destruct a as [|d a].
  - cbn [app head containsRTL]. rewrite orb_false_r. destruct b as [|d b]; [done|]. unfold split_pair in Ha. cbn in Ha. f_equal. simpl head.
    destruct (isHighSurrogate c) eqn:Eh; [apply rtl_not_low; exact Ha|by apply rtl_low].
  - cbn [app head] in *. rewrite IH by exact Ha. apply orb_assoc.
Qed.

Lemma lone_rtl (c : Z) : held_back (Some c) = true -> makeContainsRtl c None = false /\ containsUnusualLineTerminators [c] = false.
Proof.
  unfold held_back. intros Hc. assert (Hr : c = 13 \/ 0xD800 <= c <= 0xDBFF) by lia. clear Hc. unfold containsUnusualLineTerminators. cbn [existsb]. split; [|lia].
  unfold makeContainsRtl, in_ranges, rtl_units, rtl_pairs. cbn [existsb fst snd]. rewrite !andb_false_r. cbn [orb].
  repeat match goal with |- context [(?h <=? c) && (c <=? ?k)] => replace ((h <=? c) && (c <=? k)) with false by lia end. done.
Qed.

Lemma held_not c : held_back (Some c) = true -> c <> 10 /\ isLowSurrogate c = false.
Proof. unfold held_back, isLowSurrogate. lia. Qed.

Lemma not_held c : held_back (Some c) = false -> (c =? 13) = false /\ isHighSurrogate c = false.
Proof. unfold held_back, isHighSurrogate. lia. Qed.

(** A text that starts with what was kept back goes on after any text. *)
Lemma held_joins a c b : held_back (Some c) = true -> torn a (c :: b) = false /\ split_pair a (c :: b) = false.
Proof.
  intros Hc. destruct (held_not c Hc) as [H10 Hl]. split.
  - unfold torn. cbn. destruct (Z.eqb_spec c 10); [done|apply andb_false_r].
  - unfold split_pair. cbn. destruct (last a) as [d|]; [|done]. by rewrite Hl, andb_false_r.
Qed.

Lemma not_held_joins a c b : held_back (Some c) = false -> torn (a ++ [c]) b = false /\ split_pair (a ++ [c]) b = false.
Proof.
  intros Hc. destruct (not_held c Hc) as [H13 Hh]. unfold torn, ends_cr, split_pair. rewrite last_snoc. cbn [is_char]. rewrite H13, Hh. by destruct (head b).
Qed.

(** ** The state of the builder *)

(** The chunks have the text [D], and the builder its counts and flags. *)
Definition counted (b : PieceTreeTextBufferBuilder) (D : list Z) : Prop :=
  concat (buffer <$> chunks_ b) = D /\ Forall (fun c => buffer c <> [] /\ lineStarts c = starts (buffer c)) (chunks_ b) /\ untorn (buffer <$> chunks_ b) /\
  cr_ b = kinds StringEOL.Invalid D /\ lf_ b = kinds StringEOL.LF D /\ crlf_ b = kinds StringEOL.CRLF D /\
  rtl_ b = containsRTL D /\ unusual_ b = containsUnusualLineTerminators D /\ ascii_ b = isBasicASCII D.

Lemma untorn_snoc l t : untorn l -> torn (concat l) t = false -> untorn (l ++ [t]).
Proof. intros Hl Ht. apply untorn_app. cbn [untorn concat]. rewrite app_nil_r. split; [done|]. split; [split; [apply torn_nil_r|done]|done]. Qed.

Lemma counted_push b D t :
  counted b D -> t <> [] -> zlen t < 2 ^ 32 -> torn D t = false -> split_pair D t = false -> counted (Builder.acceptChunk2 b t) (D ++ t).
Proof.
  intros (Ht & Hc & Hu & H1 & H2 & H3 & H4 & H5 & H6) Hne Hl Htorn Hpair. unfold Builder.acceptChunk2. rewrite (createLineStarts_ok t Hl).
  unfold counted. cbn [chunks_ cr_ lf_ crlf_ rtl_ unusual_ ascii_ starts_ cr lf crlf basicASCII_]. rewrite fmap_app, concat_app. cbn [fmap list_fmap concat buffer].
  rewrite app_nil_r, Ht, H1, H2, H3, H4, H5, H6, !kinds_app, containsRTL_join, unusual_app, isBasicASCII_app by done.
  split; [done|]. split; [apply Forall_app; split; [done|by repeat constructor]|]. split; [apply untorn_snoc; [done|by rewrite Ht]|]. do 3 (split; [done|]).
  destruct (isBasicASCII t) eqn:Ea; cbn [negb].
  - destruct (isBasicASCII_plain t Ea) as [-> ->]. by rewrite !orb_false_r, andb_true_r.
  - rewrite andb_false_r. split; [by destruct (containsRTL D)|]. split; [by destruct (containsUnusualLineTerminators D)|done].
Qed.

(** After some chunks with the text [T], of which the last code unit may be kept back. *)
Definition accepted (b : PieceTreeTextBufferBuilder) (T : list Z) : Prop := exists D, counted b D /\
  if hasPreviousChar_ b then exists c, previousChar_ b = Some c /\ held_back (Some c) = true /\ 0 <= c < 65536 /\ T = D ++ [c]
  else T = D /\ forall t, torn D t = false /\ split_pair D t = false.

Lemma fromCharCode_unit c : 0 <= c < 65536 -> fromCharCode (Some c) = [c].
Proof. intros. unfold fromCharCode. simpl. by rewrite Z.mod_small. Qed.

Lemma counted_previous b D has c : counted (Builder.with_previous b has c) D <-> counted b D.
Proof. done. Qed.

(** More text goes into a chunk, with what was kept back. *)
Lemma accept_more b T t : accepted b T -> t <> [] -> zlen T + zlen t < 2 ^ 32 -> counted (Builder.acceptChunk1 b t false) (T ++ t) /\ chunks_ (Builder.acceptChunk1 b t false) <> [].
Proof.
  intros (D & Hc & Hp) Ht Hl. unfold Builder.acceptChunk1. pose proof (zlen_pos _ Ht). pose proof (zlen_nonneg D). destruct (Z.eqb_spec (zlen t) 0); [lia|]. cbn [negb andb].
  assert (Hne : forall b t, chunks_ (Builder.acceptChunk2 b t) <> []) by (intros b' t'; cbn; by destruct (chunks_ b')).
  destruct (hasPreviousChar_ b).
  - destruct Hp as (c & -> & Hh & Hr & ->). rewrite (fromCharCode_unit c Hr). rewrite zlen_app in Hl. change (zlen [c]) with 1 in Hl. split; [|done]. rewrite <- app_assoc.
    destruct (held_joins D c t Hh). apply counted_push; try done. cbn [app]. rewrite zlen_cons. lia.
  - destruct Hp as [-> Hj]. destruct (Hj t). split; [|done]. apply counted_push; try done. lia.
Qed.

Lemma accept_rest_ok b T t :
  accepted b T -> t <> [] -> is_utf16 t -> (forall x, t = [x] -> held_back (Some x) = false) -> zlen T + zlen t < 2 ^ 32 ->
  accepted (Builder.accept_rest b t) (T ++ t) /\ chunks_ (Builder.accept_rest b t) <> [] /\ bom_ (Builder.accept_rest b t) = bom_ b.
Proof.
  intros Ha Ht Hu Hone Hl. unfold Builder.accept_rest, charCodeAt. rewrite at_zlen_last. destruct t as [|x h _] using rev_ind; [done|]. rewrite last_snoc.
  assert (Hbom : forall b t, bom_ (Builder.acceptChunk1 b t false) = bom_ b).
  { intros b' t'. unfold Builder.acceptChunk1. destruct (negb false && (zlen t' =? 0)); [done|]. by destruct (hasPreviousChar_ b'). }
  destruct (held_back (Some x)) eqn:Eh.
  - assert (Hh : h <> []) by (intros ->; by rewrite (Hone x eq_refl) in Eh). rewrite zlen_app in Hl |- *. change (zlen [x]) with 1 in *.
    assert (Es : substr (h ++ [x]) 0 (zlen h + 1 - 1) = h).
    { pose proof (zlen_nonneg h). rewrite substr_sub by (rewrite ?zlen_app; change (zlen [x]) with 1; lia). rewrite sub_app_l by lia.
      replace (0 + (zlen h + 1 - 1)) with (zlen h) by lia. apply sub_all. }
    rewrite Es. destruct (accept_more b T h Ha Hh ltac:(lia)) as [Hc Hne]. split; [|split; [exact Hne|apply Hbom]]. exists (T ++ h). split; [exact Hc|]. cbn. exists x. split; [done|].
    split; [done|]. apply Forall_app in Hu as [_ Hu]. apply Forall_inv in Hu. by rewrite app_assoc.
  - destruct (accept_more b T (h ++ [x]) Ha Ht Hl) as [Hc Hne]. split; [|split; [exact Hne|apply Hbom]]. exists (T ++ h ++ [x]). split; [exact Hc|]. cbn. split; [done|]. intros t. rewrite app_assoc. by apply not_held_joins.
Qed.

(** A chunk that loses nothing: it is not a single code unit that is kept back, or a byte
    order mark and such a unit, and not a byte order mark alone. *)
Definition chunk_fine (c : list Z) : Prop :=
  is_utf16 c /\ c <> UTF8_BOM_CHARACTER /\ forall x, c = [x] \/ c = [65279; x] -> held_back (Some x) = false.

Lemma bom_inv c : startsWithUTF8BOM c = true -> exists t, c = 65279 :: t.
Proof.
  unfold startsWithUTF8BOM, charCodeAt. intros [_ Hc]%andb_true_iff. destruct c as [|x t]; [done|]. exists t. f_equal.
  change ((x :: t).[0]) with (Some x) in Hc. simpl in Hc. lia.
Qed.

Lemma bom_app a b : a <> [] -> startsWithUTF8BOM (a ++ b) = startsWithUTF8BOM a.
Proof.
  intros Ha. destruct a as [|x a]; [done|]. unfold startsWithUTF8BOM, charCodeAt. cbn [app]. change ((x :: a).[0]) with (Some x). change ((x :: a ++ b).[0]) with (Some x).
  rewrite !Z.gtb_ltb, !zlen_cons. pose proof (zlen_nonneg a). pose proof (zlen_nonneg (a ++ b)). destruct (Z.ltb_spec 0 (zlen a + 1)), (Z.ltb_spec 0 (zlen (a ++ b) + 1)); done || lia.
Qed.

Definition bom_of (d : list Z) : list Z := if startsWithUTF8BOM d then UTF8_BOM_CHARACTER else [].

Lemma strip_app a b : a <> [] -> stripUTF8BOM (a ++ b) = stripUTF8BOM a ++ b.
Proof. intros Ha. unfold stripUTF8BOM. rewrite bom_app by done. destruct (startsWithUTF8BOM a); [|done]. by destruct a. Qed.

(** The builder has accepted the text [all], byte order mark included. *)
Definition has_accepted (b : PieceTreeTextBufferBuilder) (all : list Z) : Prop :=
  accepted b (stripUTF8BOM all) /\ bom_ b = bom_of all /\ (chunks_ b = [] <-> all = []).

Lemma accept_ok b all c : has_accepted b all -> chunk_fine c -> zlen all + zlen c < 2 ^ 32 -> has_accepted (Builder.acceptChunk b c) (all ++ c).
Proof.
  intros (Ha & Hb & Hch) (Hu & Hbom & Hone) Hl. unfold Builder.acceptChunk. destruct (Z.eqb_spec (zlen c) 0) as [E|E].
  { assert (c = []) as -> by (destruct c; [done|]; rewrite zlen_cons in E; pose proof (zlen_nonneg c); lia). by rewrite app_nil_r. }
  assert (Hc : c <> []) by (by intros ->). destruct (Z.eqb_spec (zlen (chunks_ b)) 0) as [E0|E0]; cbn [andb].
  - assert (chunks_ b = []) as En by (destruct (chunks_ b); [done|]; rewrite zlen_cons in E0; pose proof (zlen_nonneg l); lia). apply Hch in En as Eall. subst all. cbn [app].
    assert (Hs : forall t b', accepted b' [] -> bom_ b' = bom_of c -> t = stripUTF8BOM c -> t <> [] -> is_utf16 t -> (forall x, t = [x] -> held_back (Some x) = false) -> zlen t <= zlen c ->
      has_accepted (Builder.accept_rest b' t) c).
    { intros t b' Ha' Hb' Et Hne Hu' Hone' Hle. pose proof (zlen_nonneg (@nil Z)). change (zlen (@nil Z)) with 0 in *. destruct (accept_rest_ok b' [] t Ha' Hne Hu' Hone' ltac:(change (zlen (@nil Z)) with 0; lia)) as (H1 & H2 & H3).
      cbn [app] in H1. split; [by rewrite <- Et|]. split; [by rewrite H3|]. split; [intros H0; by rewrite H0 in H2|by intros ->]. }
    destruct (startsWithUTF8BOM c) eqn:Eb.
    + destruct (bom_inv c Eb) as [t ->]. rewrite zlen_cons in *. pose proof (zlen_nonneg t). assert (Est : substr (65279 :: t) 1 (zlen t + 1) = t).
      { unfold substr, clamp. rewrite zlen_cons. replace (Z.max 0 (Z.min 1 (zlen t + 1))) with 1 by lia. replace (1 + Z.max 0 (Z.min (zlen t + 1) (zlen t + 1 - 1))) with (1 + zlen t) by lia.
        unfold sub. replace (1 + zlen t - 1) with (zlen t) by lia. change (Z.to_nat 1) with 1%nat. cbn [drop]. unfold zlen. by rewrite Nat2Z.id, firstn_all. }
      rewrite Est. apply Hs.
      * exact Ha.
      * unfold bom_of. by rewrite Eb.
      * unfold stripUTF8BOM. by rewrite Eb.
      * intros ->. by apply Hbom.
      * by apply Forall_inv_tail in Hu.
      * intros x ->. apply Hone. by right.
      * lia.
    + apply Hs; try done; [by unfold bom_of in *; rewrite Eb in *|by unfold stripUTF8BOM; rewrite Eb|intros x ->; apply Hone; by left].
  - assert (Hall : all <> []) by (intros ->; by rewrite (proj2 Hch eq_refl) in E0).
    assert (Hz : zlen (stripUTF8BOM all) <= zlen all) by (unfold stripUTF8BOM; destruct (startsWithUTF8BOM all); [destruct all; [done|]; cbn [drop]; rewrite zlen_cons; rewrite drop_0; lia|lia]).
    destruct (accept_rest_ok b _ c Ha Hc Hu ltac:(intros x ->; apply Hone; by left) ltac:(lia)) as (H1 & H2 & H3).
    split; [by rewrite strip_app|]. split; [by rewrite H3, Hb; unfold bom_of; rewrite bom_app|]. split; [intros H0; by rewrite H0 in H2|]. intros H0. by apply app_eq_nil in H0 as [? _].
Qed.

Lemma accept_all cs b all : has_accepted b all -> Forall chunk_fine cs -> zlen all + zlen (concat cs) < 2 ^ 32 -> has_accepted (foldl Builder.acceptChunk b cs) (all ++ concat cs).
Proof.
  intros Ha Hc. revert b all Ha. induction Hc as [|c cs Hc Hcs IH]; intros b all Ha Hl; [by rewrite app_nil_r|]. cbn [concat foldl] in *. rewrite zlen_app in Hl.
  pose proof (zlen_nonneg (concat cs)). rewrite app_assoc. apply IH; [apply accept_ok; [done|done|lia]|rewrite zlen_app; lia].
Qed.

Lemma new_accepted : has_accepted Builder.new [].
Proof.
  split; [|done]. exists []. split; [|split; [done|]].
  - repeat split; constructor.
  - intros t. by split.
Qed.

(** ** The factory *)

(** What was tested for ASCII: a high surrogate that ends the text was kept back until the end. *)
Definition without_last_high (s : list Z) : list Z := if ends_high s then removelast s else s.

Lemma ascii_held D c : held_back (Some c) = true -> isBasicASCII (without_last_high (D ++ [c])) = isBasicASCII D.
Proof.
  intros Hc. unfold without_last_high, ends_high. rewrite last_snoc. destruct (isHighSurrogate c) eqn:Eh; [by rewrite removelast_last|].
  rewrite isBasicASCII_app. unfold held_back, isHighSurrogate in *. assert (c = 13) as -> by lia. by rewrite andb_true_r.
Qed.

Lemma joins_without D : (forall t, split_pair D t = false) -> without_last_high D = D.
Proof.
  intros Hj. unfold without_last_high, ends_high. specialize (Hj [0xDC00]). unfold split_pair in Hj. cbn [head] in Hj. destruct (last D) as [c|]; [|done].
  change (isLowSurrogate 0xDC00) with true in Hj. rewrite andb_true_r in Hj. by rewrite Hj.
Qed.

Record made (f : PieceTreeTextBufferFactory) (all : list Z) (norm : bool) : Prop := {
  made_text : concat (buffer <$> fac_chunks f) = stripUTF8BOM all;
  made_untorn : untorn (buffer <$> fac_chunks f);
  made_chunks : Forall (fun c => buffer c <> [] /\ lineStarts c = starts (buffer c)) (fac_chunks f) \/ fac_chunks f = [mkBuffer [] [0]];
  made_cr : fac_cr f = kinds StringEOL.Invalid (stripUTF8BOM all);
  made_lf : fac_lf f = kinds StringEOL.LF (stripUTF8BOM all);
  made_crlf : fac_crlf f = kinds StringEOL.CRLF (stripUTF8BOM all);
  made_rtl : fac_containsRTL f = containsRTL (stripUTF8BOM all);
  made_unusual : fac_containsUnusualLineTerminators f = containsUnusualLineTerminators (stripUTF8BOM all);
  made_ascii : fac_isBasicASCII f = isBasicASCII (without_last_high (stripUTF8BOM all));
  made_bom : fac_bom f = bom_of all;
  made_norm : fac_normalizeEOL f = norm }.

Lemma kinds_held c : held_back (Some c) = true -> kinds StringEOL.Invalid [c] = (if is_char (Some c) 13 then 1 else 0) /\ kinds StringEOL.LF [c] = 0 /\ kinds StringEOL.CRLF [c] = 0.
Proof.
  intros Hc. destruct (held_not c Hc) as [H10 _]. unfold kinds. rewrite (eol_kinds_one c []) by done. cbn [is_char]. destruct (Z.eqb_spec c 13); [done|].
  by destruct (Z.eqb_spec c 10).
Qed.

Lemma finish_ok b all norm : has_accepted b all -> zlen all < 2 ^ 32 -> exists f, Builder.finish b norm = Ok f /\ made f all norm.
Proof.
  intros ((D & Hc & Hp) & Hb & Hch) Hl. unfold Builder.finish, Builder.finish_.
  destruct (Z.eqb_spec (zlen (chunks_ b)) 0) as [E0|E0].
  - assert (chunks_ b = []) as En by (destruct (chunks_ b); [done|]; rewrite zlen_cons in E0; pose proof (zlen_nonneg l); lia). apply Hch in En as ->.
    change (stripUTF8BOM []) with (@nil Z) in Hp. destruct (hasPreviousChar_ b) eqn:Eh; [destruct Hp as (c & _ & _ & _ & E); by destruct D|]. destruct Hp as [<- _].
    destruct Hc as (H1 & H2 & H3 & H4 & H5 & H6 & H7 & H8 & H9). unfold Builder.acceptChunk1. rewrite Eh. change (negb true && (zlen (@nil Z) =? 0)) with false. cbv iota.
    change (createLineStarts []) with (mkLineStarts [0] 0 0 0 true). cbn [hasPreviousChar_ Builder.acceptChunk2]. rewrite Eh. cbn [result_bind]. eexists. split; [reflexivity|].
    constructor; cbn [fac_chunks fac_bom fac_cr fac_lf fac_crlf fac_containsRTL fac_containsUnusualLineTerminators fac_isBasicASCII fac_normalizeEOL
      Builder.acceptChunk2 chunks_ bom_ cr_ lf_ crlf_ rtl_ unusual_ ascii_ createLineStarts]; rewrite ?(proj2 Hch eq_refl); try done.
    + by right.
    + by rewrite H4.
    + by rewrite H5.
    + by rewrite H6.
  - destruct (hasPreviousChar_ b) eqn:Eh.
    + destruct Hp as (c & Hpc & Hheld & Hr & HT). assert (exists pre l, chunks_ b = pre ++ [l]) as (pre & l & El).
      { destruct (chunks_ b) as [|l pre _] using rev_ind; [done|by eexists _, _]. }
      rewrite El, last_snoc, Hpc, (fromCharCode_unit c Hr). cbn [result_bind].
      destruct Hc as (H1 & H2 & H3 & H4 & H5 & H6 & H7 & H8 & H9). rewrite El in *. rewrite fmap_app, concat_app in H1. cbn [fmap list_fmap concat] in H1. rewrite app_nil_r in H1.
      rewrite fmap_app in H3. cbn [fmap list_fmap] in H3. apply untorn_app in H3 as (Hu1 & Hu2 & Hu3). cbn [concat] in Hu3. rewrite app_nil_r in Hu3.
      apply Forall_app in H2 as [H2 H2l]. apply Forall_inv in H2l as [Hlne Hls]. destruct (held_joins D c [] Hheld) as [Ht Hpair]. destruct (kinds_held c Hheld) as (K1 & K2 & K3).
      destruct (lone_rtl c Hheld) as [R1 R2]. assert (Hset : forall x, set_at (pre ++ [l]) (zlen (pre ++ [l]) - 1) x = pre ++ [x]).
      { intros x. rewrite zlen_app. change (zlen [l]) with 1. unfold set_at. replace (zlen pre + 1 - 1) with (zlen pre) by lia. pose proof (zlen_nonneg pre).
        destruct (Z.ltb_spec (zlen pre) 0); [lia|]. unfold zlen. rewrite Nat2Z.id. rewrite insert_app_r_alt by lia. by rewrite Nat.sub_diag. }
      assert (Hlen : zlen (buffer l ++ [c]) < 2 ^ 32).
      { assert (zlen (stripUTF8BOM all) <= zlen all) as Hz by (unfold stripUTF8BOM; destruct (startsWithUTF8BOM all); [destruct all; [done|]; cbn [drop]; rewrite zlen_cons; rewrite drop_0; lia|lia]).
        rewrite HT, <- H1, !zlen_app in Hz. rewrite zlen_app. pose proof (zlen_nonneg (concat (buffer <$> pre))). lia. }
      rewrite Hset. eexists. split; [reflexivity|].
      constructor; cbn [fac_chunks fac_bom fac_cr fac_lf fac_crlf fac_containsRTL fac_containsUnusualLineTerminators fac_isBasicASCII fac_normalizeEOL chunks_ bom_ cr_ lf_ crlf_ rtl_ unusual_ ascii_].
      * rewrite fmap_app, concat_app. cbn [fmap list_fmap concat buffer]. by rewrite app_nil_r, app_assoc, H1, HT.
      * rewrite fmap_app. cbn [fmap list_fmap buffer]. apply untorn_snoc; [done|]. by rewrite torn_app_r.
      * left. apply Forall_app. split; [done|]. constructor; [|done]. cbn [buffer lineStarts]. split; [by destruct (buffer l)|]. by apply createLineStartsFast_ok.
      * rewrite HT, kinds_app, K1, H4 by done. destruct (is_char (Some c) 13); lia.
      * rewrite HT, kinds_app, K2, H5 by done. lia.
      * rewrite HT, kinds_app, K3, H6 by done. lia.
      * rewrite HT, containsRTL_join, H7 by done. cbn [containsRTL head]. by rewrite R1, !orb_false_r.
      * rewrite HT, unusual_app, R2, H8. by rewrite orb_false_r.
      * by rewrite HT, H9, ascii_held.
      * done.
      * done.
    + destruct Hp as [HT Hj]. destruct Hc as (H1 & H2 & H3 & H4 & H5 & H6 & H7 & H8 & H9). cbn [result_bind]. eexists. split; [reflexivity|].
      constructor; rewrite ?HT; try done; [by left|]. by rewrite (joins_without D (fun t => proj2 (Hj t))).
Qed.

(** ** The line ending *)

(** The breaks with a CR against all. *)
Definition chosen_eol (d : list Z) (def : DefaultEndOfLine) : list Z :=
  let all := kinds StringEOL.Invalid d + kinds StringEOL.LF d + kinds StringEOL.CRLF d in
  if all =? 0 then match def with DefaultLF => [10] | DefaultCRLF => [13; 10] end
  else if all <? 2 * (kinds StringEOL.Invalid d + kinds StringEOL.CRLF d) then [13; 10] else [10].

Lemma chosen_eol_cases d def : chosen_eol d def = [10] \/ chosen_eol d def = [13; 10].
Proof. unfold chosen_eol. destruct (_ =? 0); [destruct def; tauto|]. destruct (_ <? _); tauto. Qed.

(** When no break is of another kind, the text is normalized. *)
Lemma kinds_normalized (eol d : list Z) :
  eol = [10] /\ kinds StringEOL.Invalid d = 0 /\ kinds StringEOL.CRLF d = 0 \/ eol = [13; 10] /\ kinds StringEOL.Invalid d = 0 /\ kinds StringEOL.LF d = 0 ->
  normalized eol d.
Proof.
  unfold normalized. induction d as [|e a He Ht IH|c a Hcr Hc IH] using lines_ind; intros Hk; [done|..].
  - rewrite replaceEOL_app by done. rewrite !kinds_app in Hk by done. pose proof (kinds_nonneg StringEOL.Invalid a). pose proof (kinds_nonneg StringEOL.CRLF a). pose proof (kinds_nonneg StringEOL.LF a).
    destruct He as [->|[->| ->]];
      change (kinds StringEOL.Invalid [13; 10]) with 0 in Hk; change (kinds StringEOL.LF [13; 10]) with 0 in Hk; change (kinds StringEOL.CRLF [13; 10]) with 1 in Hk;
      change (kinds StringEOL.Invalid [13]) with 1 in Hk; change (kinds StringEOL.LF [13]) with 0 in Hk; change (kinds StringEOL.CRLF [13]) with 0 in Hk;
      change (kinds StringEOL.Invalid [10]) with 0 in Hk; change (kinds StringEOL.LF [10]) with 1 in Hk; change (kinds StringEOL.CRLF [10]) with 0 in Hk;
      (destruct Hk as [(-> & K1 & K2)|(-> & K1 & K2)]; try lia; rewrite IH by (first [left; split; [done|lia]|right; split; [done|lia]]); done).
  - rewrite (replaceEOL_cons_lone _ _ _ Hcr). unfold is_eol in Hc. rewrite Hc. cbn [app]. f_equal. apply IH.
    change (c :: a) with ([c] ++ a) in Hk. rewrite !kinds_app in Hk by by apply eol_untorn. unfold kinds at 1 3 5 7 in Hk. rewrite (eol_kinds_one c []) in Hk by done.
    apply orb_false_iff in Hc as [H13 H10]. rewrite H13, H10 in Hk. exact Hk.
Qed.

Lemma create_no_text o eol n : PT.create [([], o)] eol n = PT.create [] eol n.
Proof. done. Qed.

Lemma create_ok f all norm def :
  made f all norm -> 2 * zlen all < max_buffer ->
  let T := stripUTF8BOM all in let eol := chosen_eol T def in
  exists b, Factory.create f def = Ok b /\ represents ∅ (pieceTree_ b) (if norm then replaceEOL T eol else T) /\
    EOL_ (pieceTree_ b) = eol /\ EOLNormalized_ (pieceTree_ b) = norm /\ BOM_buffer b = bom_of all /\
    mightContainRTL_ b = containsRTL T /\ mightContainUnusualLineTerminators_ b = containsUnusualLineTerminators T /\
    mightContainNonBasicASCII_ b = negb (isBasicASCII (without_last_high T)).
Proof.
  intros Hf Hl T eol. destruct Hf as [Ht Hu Hc H1 H2 H3 H4 H5 H6 H7 H8]. fold T in Ht, H1, H2, H3, H4, H5, H6. unfold Factory.create.
  assert (Eeol : Factory.getEOL f def = eol).
  { unfold Factory.getEOL, eol, chosen_eol. rewrite H1, H2, H3. by rewrite Z.gtb_ltb. }
  rewrite Eeol, H4, H5, H7, H8. pose proof (chosen_eol_cases T def) as Heol. fold eol in Heol.
  assert (HzT : zlen T <= zlen all) by (unfold T, stripUTF8BOM; destruct (startsWithUTF8BOM all); [destruct all; [done|]; cbn [drop]; rewrite zlen_cons; rewrite drop_0; lia|lia]).
  set (cs := Factory.normalized_chunks f eol).
  (* the chunks that go into the tree *)
  assert (Hcs : concat (buffer <$> cs) = (if norm then replaceEOL T eol else T) /\ untorn (buffer <$> cs) /\
    (Forall (fun c => buffer c <> [] /\ lineStarts c = starts (buffer c)) cs \/ cs = [mkBuffer [] [0]])).
  { unfold cs, Factory.normalized_chunks. rewrite H8, H1, H2, H3. destruct norm; cbn [andb]; [|by rewrite Ht].
    pose proof (kinds_nonneg StringEOL.Invalid T). pose proof (kinds_nonneg StringEOL.CRLF T). pose proof (kinds_nonneg StringEOL.LF T). rewrite !Z.gtb_ltb.
    destruct ((bool_decide (eol = [13; 10]) && _) || _) eqn:En.
    - rewrite <- list_fmap_compose. change (buffer ∘ _) with (fun c => replaceEOL (buffer c) eol). 
      assert (Ef : (fun c => replaceEOL (buffer c) eol) <$> fac_chunks f = (fun a => replaceEOL a eol) <$> (buffer <$> fac_chunks f)) by (by rewrite <- list_fmap_compose).
      rewrite Ef, <- (replaceEOL_concat _ eol Hu), Ht. split; [done|]. split; [by apply untorn_replaceEOL|].
      destruct Hc as [Hc|Hc]; [left|rewrite Hc; by right]. apply Forall_fmap. rewrite Forall_forall in Hc |- *. intros c Hin. destruct (Hc c Hin) as [Hne _]. cbn [compose buffer lineStarts].
      split; [apply replaceEOL_nonempty; [by destruct Heol as [-> | ->]|done]|]. apply createLineStartsFast_ok.
      pose proof (zlen_concat_in (buffer <$> fac_chunks f) (buffer c)) as Hz. rewrite Ht in Hz. specialize (Hz ltac:(apply list_elem_of_fmap; by exists c)).
      pose proof (zlen_replaceEOL (buffer c) eol ltac:(by destruct Heol as [-> | ->])). unfold max_buffer in *. lia.
    - split; [|done]. rewrite Ht. symmetry. apply kinds_normalized. apply orb_false_iff in En as [E1 E2]. destruct Heol as [E|E]; rewrite E in E1, E2 |- *; [left|right].
      + rewrite (bool_decide_eq_true_2 ([10] = [10])) in E2 by done. cbn [andb] in E2. split; [done|]. lia.
      + rewrite (bool_decide_eq_true_2 ([13; 10] = [13; 10])) in E1 by done. cbn [andb] in E1. split; [done|]. lia. }
  destruct Hcs as (Ecs & Hu' & Hc'). set (chunks := (fun c => (buffer c, Some (lineStarts c))) <$> cs).
  assert (Ec1 : chunks.*1 = buffer <$> cs) by (unfold chunks; by rewrite <- list_fmap_compose).
  assert (Hnorm : norm = true -> normalized eol (if norm then replaceEOL T eol else T)) by (intros ->; by apply replaceEOL_idem).
  assert (Hw : wp (PT.create chunks eol norm) blank_tree (fun _ s' => represents ∅ s' (if norm then replaceEOL T eol else T) /\ EOL_ s' = eol /\ EOLNormalized_ s' = norm /\ blen s' = 0)).
  { destruct Hc' as [Hc'|Hc'].
    - eapply (wp_create ∅ blank_tree []); [exact empty_piece_tree| |by rewrite Ec1|by rewrite Ec1|done|done]. apply Forall_fmap. rewrite Forall_forall in Hc' |- *. intros c Hin.
      destruct (Hc' c Hin) as [Hne Els]. split; [exact Hne|]. cbn [compose fst snd]. split; [|exact Els].
      pose proof (zlen_concat_in (buffer <$> cs) (buffer c) ltac:(apply list_elem_of_fmap; by exists c)) as Hz. rewrite Ecs in Hz.
      pose proof (zlen_replaceEOL T eol ltac:(by destruct Heol as [-> | ->])). pose proof (zlen_nonneg T). destruct norm; lia.
    - unfold chunks. rewrite Hc'. cbn [fmap list_fmap buffer lineStarts]. rewrite create_no_text. rewrite Hc' in Ecs. cbn [fmap list_fmap concat buffer app] in Ecs. rewrite <- Ecs in Hnorm |- *.
      eapply (wp_create ∅ blank_tree []); [exact empty_piece_tree|constructor|done|done|done|done]. }
  apply wp_run in Hw as ([] & t & Hrun & Hrep & He1 & He2 & _). unfold TB.new. fold chunks. rewrite Hrun. cbn [result_bind]. eexists. split; [reflexivity|].
  cbn [pieceTree_ BOM_buffer mightContainRTL_ mightContainUnusualLineTerminators_ mightContainNonBasicASCII_]. split_and!; try done. by rewrite H6.
Qed.

(** The buffer of a text that came in the chunks [cs]. *)
Definition load (cs : list (list Z)) (norm : bool) (def : DefaultEndOfLine) : result PieceTreeTextBuffer :=
  let* f := Builder.finish (foldl Builder.acceptChunk Builder.new cs) norm in Factory.create f def.

Lemma load_ok cs norm def :
  Forall chunk_fine cs -> 2 * zlen (concat cs) < max_buffer ->
  let T := stripUTF8BOM (concat cs) in let eol := chosen_eol T def in
  exists b, load cs norm def = Ok b /\ represents ∅ (pieceTree_ b) (if norm then replaceEOL T eol else T) /\
    EOL_ (pieceTree_ b) = eol /\ EOLNormalized_ (pieceTree_ b) = norm /\ BOM_buffer b = bom_of (concat cs) /\
    mightContainRTL_ b = containsRTL T /\ mightContainUnusualLineTerminators_ b = containsUnusualLineTerminators T /\
    mightContainNonBasicASCII_ b = negb (isBasicASCII (without_last_high T)).
Proof.
  intros Hc Hl T eol. unfold max_buffer in Hl. pose proof (accept_all cs Builder.new [] new_accepted Hc ltac:(change (zlen (@nil Z)) with 0; lia)) as Ha. cbn [app] in Ha.
  destruct (finish_ok _ _ norm Ha ltac:(lia)) as (f & Hf & Hm). unfold load. rewrite Hf. cbn [result_bind]. by apply create_ok.
Qed.

(** C9: Loading a text.  Let a text of less than 2^30 code units come in chunks, none of which is
    a byte order mark alone, or a single CR or high surrogate, with a byte order mark before it
    or not.  Then the builder and its factory do not throw and make a buffer whose tree stands
    for the text without its byte order mark, with CR LF for line ending when more than half of
    its breaks have a CR, LF when not, or the default for a text of one line; all breaks are made
    that when the text is to be normalized.  The buffer knows of right to left letters and
    unusual line terminators what testing the whole text gives, and of letters beyond ASCII what
    testing it gives without a high surrogate at its very end. *)
Theorem load_correct cs norm def :
  Forall chunk_fine cs -> 2 * zlen (concat cs) < max_buffer ->
  let T := stripUTF8BOM (concat cs) in let eol := chosen_eol T def in
  exists b, load cs norm def = Ok b /\ represents ∅ (pieceTree_ b) (if norm then replaceEOL T eol else T) /\
    EOL_ (pieceTree_ b) = eol /\ EOLNormalized_ (pieceTree_ b) = norm /\ BOM_buffer b = bom_of (concat cs) /\
    mightContainRTL_ b = containsRTL T /\ mightContainUnusualLineTerminators_ b = containsUnusualLineTerminators T /\
    mightContainNonBasicASCII_ b = negb (isBasicASCII (without_last_high T)).
Proof. apply load_ok. Qed.

(** A CRLF that goes over two chunks, and a lone LF. *)
Lemma load_correct_witness : exists b, load [[65279; 97; 13]; [10; 98; 10; 13; 10; 99]] true DefaultLF = Ok b /\
  represents ∅ (pieceTree_ b) [97; 13; 10; 98; 13; 10; 13; 10; 99] /\ BOM_buffer b = [65279].
Proof.
  assert (Hf : Forall chunk_fine [[65279; 97; 13]; [10; 98; 10; 13; 10; 99]]).
  { apply Forall_cons_2; [|apply Forall_cons_2; [|apply Forall_nil_2]]; (split; [repeat (apply Forall_cons_2; [lia|]); apply Forall_nil_2|split; [discriminate|intros x [?|?]; discriminate]]). }
  destruct (load_correct [[65279; 97; 13]; [10; 98; 10; 13; 10; 99]] true DefaultLF Hf ltac:(by vm_compute)) as (b & Hb & Hr & _ & _ & Hbom & _).
  exists b. split; [exact Hb|]. split; [exact Hr|exact Hbom].
Defined.
