(* ===== verification/EditText.v ===== *)
(** * Edits of a text

    What a list of edits does to a text, without a tree: positions that a text model allows,
    the order of the edits, and the text with all edits made at once. *)

From S2P Require Import Prelude Position TextRange TextChange Length EolCounter Store RbTree RbInsert PtBuffer PtSpan Strings PieceTree PtState PtEdit PtSearch PtInsert PtDelete PtQuery PtLines PtRead PtBuild PtContent TextBuffer TextBuilder.

#[local] Open Scope js_scope.
#[local] Arguments Z.eqb : simpl never.
#[local] Arguments Z.ltb : simpl never.
#[local] Arguments Z.leb : simpl never.
#[local] Arguments Z.add : simpl never.
#[local] Arguments Z.sub : simpl never.

Implicit Types (d str : list Z).

(** ** Normalized texts *)

Lemma normalized_app eol (a b : list Z) : eol = [10] \/ eol = [13; 10] -> normalized eol a -> normalized eol b -> normalized eol (a ++ b).
Proof.
  unfold normalized. intros He Ha Hb. rewrite replaceEOL_app; [by rewrite Ha, Hb|]. unfold torn. rewrite <- Ha at 1. by rewrite replaceEOL_ends.
Qed.

Lemma normalized_cut eol (a b : list Z) : eol = [10] \/ eol = [13; 10] -> torn a b = false -> normalized eol (a ++ b) -> normalized eol a /\ normalized eol b.
Proof.
  intros He. induction a as [|e a Hbr Ht IH|c a Hcr Hc IH] using lines_ind; intros Htorn Hn; [done|..].
  - assert (Hta : torn a b = false) by (destruct a as [|x a]; [done|by rewrite torn_app_l in Htorn]).
    rewrite <- app_assoc in Hn. destruct (normalized_break eol e (a ++ b) He Hbr) as [-> Hn']; [|done|].
    { destruct a as [|x a]; [cbn [app]; by rewrite app_nil_r in Htorn|by rewrite torn_app_r]. }
    destruct (IH Hta Hn') as [H1 H2]. split; [|done]. apply normalized_app; [done| |done]. unfold normalized. by destruct He as [-> | ->].
  - assert (Hta : torn a b = false) by (destruct a as [|x a]; [done|change (c :: x :: a) with ([c] ++ x :: a) in Htorn; by rewrite torn_app_l in Htorn]).
    assert (Hcr' : c = 13 -> forall a', a ++ b <> 10 :: a') by (intros ->; unfold is_eol in Hc; done).
    destruct (IH Hta (normalized_char _ _ _ Hcr' Hc Hn)) as [H1 H2]. split; [|done]. unfold normalized. rewrite (replaceEOL_cons_lone _ _ _ Hcr).
    unfold is_eol in Hc. rewrite Hc. cbn [app]. by rewrite H1.
Qed.

(** ** Positions *)

(** A position that a text model allows: a line, and a column up to the end of its content. *)
Definition model_position d (p : Position) : Prop :=
  1 <= lineNumber p /\ exists c, (splitLines d).[lineNumber p - 1] = Some c /\ 1 <= Position.column p <= zlen c + 1.

Definition offset_at d (p : Position) : Z := offset_of d (lineNumber p) (Position.column p).

Lemma raw_line_at d k st : (starts d).[k] = Some st -> raw_line d k = Some (sub d st (line_end d (k + 1))).
Proof. intros Hst. unfold raw_line. by rewrite Hst. Qed.

Lemma model_position_line d p : model_position d p -> exists st h e,
  (starts d).[lineNumber p - 1] = Some st /\ sub d st (line_end d (lineNumber p)) = h ++ e /\ Forall (fun c => is_eol c = false) h /\
  1 <= Position.column p <= zlen h + 1 /\ offset_at d p = st + Position.column p - 1 /\ 0 <= st /\ st + zlen h + zlen e = line_end d (lineNumber p) /\ line_end d (lineNumber p) <= zlen d /\
  1 <= lineNumber p <= breaks d + 1.
Proof.
  intros (Hl & c & Hc & Hcol). pose proof (at_lt _ _ _ Hc) as Hb. rewrite breaks_splitLines in Hb. destruct (start_at d (lineNumber p - 1) ltac:(lia)) as (st & Hst & _).
  pose proof (raw_line_at d _ st Hst) as Hr. pose proof (line_bounds d _ st Hst) as Hbd. replace (lineNumber p - 1 + 1) with (lineNumber p) in * by lia.
  destruct (raw_line_split d (lineNumber p - 1) _ ltac:(lia) Hr) as [(h & e & E & Hh & He) Hs]. rewrite Hc in Hs. injection Hs as ->. rewrite E, (strip_one_line h e Hh He) in Hcol.
  exists st, h, e. assert (Hz : zlen (h ++ e) = line_end d (lineNumber p) - st) by (rewrite <- E, zlen_sub; lia). rewrite zlen_app in Hz.
  split; [done|]. split; [done|]. split; [done|]. split; [lia|]. split; [unfold offset_at, offset_of; by rewrite Hst|]. lia.
Qed.

Lemma model_position_valid d p : model_position d p -> valid_position d (lineNumber p) (Position.column p).
Proof.
  intros Hp. destruct (model_position_line d p Hp) as (st & h & e & Hst & E & Hh & Hc & Ho & H0 & Hz & Hle & Hl). unfold offset_at in Ho.
  pose proof (zlen_nonneg e). split; [lia|]. split; lia.
Qed.

(** Such a position is not inside a CRLF. *)
Lemma model_position_cut d p : model_position d p -> in_crlf d (offset_at d p) = false.
Proof.
  intros Hp. destruct (model_position_line d p Hp) as (st & h & e & Hst & E & Hh & Hc & Ho & H0 & Hz & Hle & Hl). pose proof (zlen_nonneg e).
  destruct (in_crlf d (offset_at d p)) eqn:Hcut; [exfalso|done]. apply in_crlf_inv in Hcut as [Ha Hb]. rewrite Ho in Ha, Hb.
  destruct (decide (Position.column p = 1)) as [E1|Hcol].
  - rewrite E1 in Ha, Hb. replace (st + 1 - 1 - 1) with (st - 1) in Ha by lia. replace (st + 1 - 1) with st in Hb by lia.
    pose proof (line_of_start d _ _ Hst) as Hlo. pose proof (start_step d (st - 1) 13 st Ha) as Hstep. replace (st - 1 + 1) with st in Hstep by lia.
    rewrite Hlo, Hb in Hstep. by pose proof (proj1 (Hstep Hst) ltac:(lia)).
  - assert (Hin : h.[Position.column p - 2] = Some 13).
    { assert (Hat : (h ++ e).[Position.column p - 2] = Some 13).
      { rewrite <- E, sub_at by lia. replace (st + (Position.column p - 2)) with (st + Position.column p - 1 - 1) by lia. exact Ha. }
      by rewrite at_app_l in Hat by lia. }
    unfold at_ in Hin. destruct (_ <? 0); [done|]. apply list_elem_of_lookup_2 in Hin. rewrite Forall_forall in Hh. by specialize (Hh _ Hin).
Qed.

Lemma in_crlf_torn d o : 0 <= o <= zlen d -> torn (take (Z.to_nat o) d) (drop (Z.to_nat o) d) = in_crlf d o.
Proof.
  intros Ho. unfold torn, in_crlf, ends_cr. rewrite nxt_drop by lia. do 2 f_equal. rewrite <- at_zlen_last, zlen_take by lia.
  destruct (decide (o = 0)) as [->|Hne]; [by rewrite take_0|]. rewrite <- (take_drop (Z.to_nat o) d) at 2. by rewrite at_app_l by (rewrite zlen_take; lia).
Qed.

Lemma normalized_parts eol d o : eol = [10] \/ eol = [13; 10] -> normalized eol d -> 0 <= o <= zlen d -> in_crlf d o = false ->
  normalized eol (take (Z.to_nat o) d) /\ normalized eol (drop (Z.to_nat o) d).
Proof. intros He Hn Ho Hc. apply normalized_cut; [done|by rewrite in_crlf_torn|by rewrite take_drop]. Qed.

Lemma in_crlf_take d o i : 0 <= i <= o -> o <= zlen d -> in_crlf d i = false -> in_crlf (take (Z.to_nat o) d) i = false.
Proof.
  intros Hi Ho Hc. unfold in_crlf in *. destruct (decide (i = o)) as [->|Hne].
  - assert ((take (Z.to_nat o) d).[o] = None) as -> by (apply at_None; rewrite zlen_take; lia). by rewrite andb_false_r.
  - rewrite <- (take_drop (Z.to_nat o) d) in Hc. by rewrite !at_app_l in Hc by (rewrite zlen_take; lia).
Qed.

Lemma normalized_sub eol d i j : eol = [10] \/ eol = [13; 10] -> normalized eol d -> 0 <= i <= j -> j <= zlen d -> in_crlf d i = false -> in_crlf d j = false ->
  normalized eol (sub d i j).
Proof.
  intros He Hn Hi Hj Hci Hcj. destruct (normalized_parts eol d j He Hn ltac:(lia) Hcj) as [Hn1 _].
  destruct (normalized_parts eol _ i He Hn1) as [_ Hn2]; [rewrite zlen_take; lia|by apply in_crlf_take|]. unfold sub. rewrite skipn_firstn_comm in Hn2.
  by replace (Z.to_nat (j - i)) with (Z.to_nat j - Z.to_nat i)%nat by lia.
Qed.

(** The order of positions is that of offsets. *)
Lemma offset_mono d p q : model_position d p -> model_position d q -> pos_le p q -> offset_at d p <= offset_at d q.
Proof.
  intros Hp Hq Hle. destruct (model_position_line d p Hp) as (st & h & e & Hst & E & Hh & Hc & Ho & H0 & Hz & Hle1 & Hl).
  destruct (model_position_line d q Hq) as (st' & h' & e' & Hst' & E' & Hh' & Hc' & Ho' & H0' & Hz' & Hle1' & Hl'). pose proof (zlen_nonneg e).
  unfold pos_le in Hle. destruct (decide (lineNumber p = lineNumber q)) as [El|Hne]; [rewrite El in Hst; rewrite Hst in Hst'; injection Hst' as ->; lia|].
  assert (Hnext : line_end d (lineNumber p) <= st'); [|lia]. unfold line_end. destruct (start_at d (lineNumber p) ltac:(lia)) as (x & Hx & _). rewrite Hx. simpl.
  assert (Hmono : forall n k y z, (starts d).[k] = Some y -> (starts d).[k + Z.of_nat n] = Some z -> y <= z).
  { induction n as [|n IH]; intros k y z Hy Hw; [replace (k + Z.of_nat 0) with k in Hw by lia; rewrite Hy in Hw; by injection Hw as ->|].
    replace (k + Z.of_nat (S n)) with (k + Z.of_nat n + 1) in Hw by lia. pose proof (at_lt _ _ _ Hy). pose proof (at_lt _ _ _ Hw). rewrite zlen_starts in *.
    destruct (start_at d (k + Z.of_nat n) ltac:(lia)) as (w & Hw' & _). pose proof (IH k y w Hy Hw'). pose proof (starts_lt d _ _ _ Hw' Hw). lia. }
  apply (Hmono (Z.to_nat (lineNumber q - 1 - lineNumber p)) (lineNumber p) x st' Hx). by replace (lineNumber p + Z.of_nat (Z.to_nat (lineNumber q - 1 - lineNumber p))) with (lineNumber q - 1) by lia.
Qed.

Lemma offset_lt d p q : model_position d p -> model_position d q -> pos_lt p q -> offset_at d p < offset_at d q.
Proof.
  intros Hp Hq Hlt. pose proof (offset_mono d p q Hp Hq) as Hm. unfold pos_lt, pos_le in *. 
  destruct (model_position_line d p Hp) as (st & h & e & Hst & E & Hh & Hc & Ho & H0 & Hz & Hle1 & Hl).
  destruct (model_position_line d q Hq) as (st' & h' & e' & Hst' & E' & Hh' & Hc' & Ho' & H0' & Hz' & Hle1' & Hl').
  destruct (decide (lineNumber p = lineNumber q)) as [El|Hne]; [rewrite El in Hst; rewrite Hst in Hst'; injection Hst' as ->; lia|].
  destruct (start_at d (lineNumber p) ltac:(lia)) as (x & Hx & _).
  assert (Hpe : offset_at d p < line_end d (lineNumber p)).
  { destruct (decide (e = [])) as [->|He]; [exfalso|pose proof (zlen_pos _ He); lia]. change (zlen []) with 0 in Hz. rewrite app_nil_r in E.
    assert (Ex : line_end d (lineNumber p) = x) by (unfold line_end; by rewrite Hx). rewrite Ex in *.
    replace (lineNumber p) with (lineNumber p - 1 + 1) in Hx by lia. pose proof (starts_lt d _ _ _ Hst Hx) as Hxst.
    pose proof (line_of_start d _ _ Hx) as Hlo. destruct (at_in_range d (x - 1) ltac:(lia)) as [c Hcx]. pose proof (start_step d (x - 1) c x Hcx) as Hstep.
    replace (x - 1 + 1) with x in Hstep by lia. rewrite Hlo in Hstep. pose proof (proj1 (Hstep Hx) eq_refl) as Hends.
    assert (Hin : h.[x - 1 - st] = Some c) by (rewrite <- E, sub_at by lia; rewrite <- Hcx; f_equal; lia).
    unfold at_ in Hin. destruct (_ <? 0); [done|]. apply list_elem_of_lookup_2 in Hin. rewrite Forall_forall in Hh. specialize (Hh _ Hin).
    unfold ends in Hends. unfold is_eol in Hh. apply orb_false_iff in Hh as [H13 H10]. by rewrite H13, H10 in Hends. }
  assert (Hq1 : model_position d (mkPosition (lineNumber q) 1)).
  { split; [cbn; lia|]. destruct Hq as (_ & c & Hcq & Hcol). exists c. split; [exact Hcq|]. cbn. pose proof (zlen_nonneg c). lia. }
  assert (Hnx : line_end d (lineNumber p) <= st'); [|lia].
  assert (Hn1 : model_position d (mkPosition (lineNumber p + 1) 1)).
  { split; [cbn; lia|]. cbn [lineNumber Position.column]. replace (lineNumber p + 1 - 1) with (lineNumber p) by lia.
    destruct (at_in_range (splitLines d) (lineNumber p)) as [c Hcl]; [rewrite breaks_splitLines; lia|]. exists c. split; [done|]. pose proof (zlen_nonneg c). lia. }
  pose proof (offset_mono d _ _ Hn1 Hq1 ltac:(unfold pos_le; cbn; lia)) as Hmono. unfold offset_at, offset_of in Hmono. cbn [lineNumber Position.column] in Hmono.
  replace (lineNumber p + 1 - 1) with (lineNumber p) in Hmono by lia. rewrite Hx, Hst' in Hmono. unfold line_end. rewrite Hx. simpl. lia.
Qed.

(** ** Ranges *)

Definition model_range d (r : Range) : Prop :=
  model_position d (Rng.getStartPosition r) /\ model_position d (Rng.getEndPosition r) /\ range_wf r.

Lemma model_range_valid d r : model_range d r -> valid_range d r.
Proof.
  intros (H1 & H2 & Hw). pose proof (model_position_valid _ _ H1) as V1. pose proof (model_position_valid _ _ H2) as V2. split; [exact V1|]. split; [exact V2|].
  unfold range_wf, pos_le in Hw. cbn [Rng.getStartPosition Rng.getEndPosition lineNumber Position.column] in Hw.
  destruct (decide (startLineNumber r = endLineNumber r /\ startColumn r = endColumn r)) as [|Hne]; [by left|right].
  apply (offset_lt d (Rng.getStartPosition r) (Rng.getEndPosition r) H1 H2). unfold pos_lt. cbn. lia.
Qed.

Lemma model_range_offsets d r : model_range d r -> 0 <= range_start d r <= range_end d r /\ range_end d r <= zlen d /\
  in_crlf d (range_start d r) = false /\ in_crlf d (range_end d r) = false.
Proof.
  intros Hr. pose proof (valid_range_offsets d r (model_range_valid d r Hr)) as [Ho Hz]. destruct Hr as (H1 & H2 & _).
  pose proof (model_position_cut d _ H1). pose proof (model_position_cut d _ H2). done.
Qed.

Lemma wf_Range_id r : range_wf r -> Rng.new_Range (startLineNumber r) (startColumn r) (endLineNumber r) (endColumn r) = r.
Proof. intros Hw. destruct r. by apply new_Range_id. Qed.

Lemma range_offset d r : range_start d r = offset_at d (Rng.getStartPosition r) /\ range_end d r = offset_at d (Rng.getEndPosition r).
Proof. done. Qed.

(** ** Sorting *)

Section sort.
Context {A : Type} (cmp : A -> A -> Z).
Implicit Types (l : list A).

Lemma sort_insert_perm x l : sort_insert cmp x l ≡ₚ x :: l.
Proof. induction l as [|y l IH]; [done|]. cbn [sort_insert]. destruct (cmp x y <=? 0); [done|]. rewrite IH. constructor. Qed.

Lemma js_sort_perm l : js_sort cmp l ≡ₚ l.
Proof. unfold js_sort. induction l as [|x l IH]; [done|]. cbn [foldr]. by rewrite sort_insert_perm, IH. Qed.

Hypothesis total : forall a b, cmp a b <= 0 \/ cmp b a <= 0.
Hypothesis trans : forall a b c, cmp a b <= 0 -> cmp b c <= 0 -> cmp a c <= 0.

Lemma sort_insert_sorted x l : StronglySorted (fun a b => cmp a b <= 0) l -> StronglySorted (fun a b => cmp a b <= 0) (sort_insert cmp x l).
Proof.
  induction 1 as [|y l Hl IH Hy]; cbn [sort_insert]; [by repeat constructor|]. destruct (Z.leb_spec (cmp x y) 0) as [Hle|Hgt].
  - constructor; [by constructor|]. constructor; [done|]. eapply Forall_impl; [exact Hy|]. intros z Hz. by eapply trans.
  - constructor; [done|]. rewrite sort_insert_perm. constructor; [destruct (total x y); [lia|done]|done].
Qed.

Lemma js_sort_sorted l : StronglySorted (fun a b => cmp a b <= 0) (js_sort cmp l).
Proof. unfold js_sort. induction l as [|x l IH]; [constructor|]. by apply sort_insert_sorted. Qed.
End sort.

Lemma js_sort_rev {A} (cmp : A -> A -> Z) (l : list A) : StronglySorted (fun a b => 0 < cmp a b) l -> js_sort cmp l = rev l.
Proof.
  unfold js_sort. induction 1 as [|x l Hl IH Hx]; [done|]. cbn [foldr rev]. rewrite IH. assert (Hr : Forall (fun b => 0 < cmp x b) (rev l)) by (by rewrite <- Permutation_rev).
  clear - Hr. induction Hr as [|y r Hy Hr IH]; [done|]. cbn [sort_insert app]. destruct (Z.leb_spec (cmp x y) 0); [lia|]. by rewrite IH.
Qed.

(** The comparison of the operations is that of their keys, one after another. *)
Definition op_key (op : IValidatedEditOperation) : list Z :=
  [endLineNumber (range op); endColumn (range op); startLineNumber (range op); startColumn (range op); sortIndex op].

Fixpoint keys_le (k l : list Z) : Prop :=
  match k, l with x :: k', y :: l' => x < y \/ x = y /\ keys_le k' l' | _, _ => True end.

Lemma asc_keys a b : TB.sortOpsAscending a b <= 0 <-> keys_le (op_key a) (op_key b).
Proof.
  unfold TB.sortOpsAscending, Rng.compareRangesUsingEnds, op_key. cbn [keys_le].
  destruct (Z.eqb_spec (endLineNumber (range a)) (endLineNumber (range b))) as [E1|E1];
    [|destruct (Z.eqb_spec (endLineNumber (range a) - endLineNumber (range b)) 0); lia].
  destruct (Z.eqb_spec (endColumn (range a)) (endColumn (range b))) as [E2|E2];
    [|destruct (Z.eqb_spec (endColumn (range a) - endColumn (range b)) 0); lia].
  destruct (Z.eqb_spec (startLineNumber (range a)) (startLineNumber (range b))) as [E3|E3];
    [|destruct (Z.eqb_spec (startLineNumber (range a) - startLineNumber (range b)) 0); lia].
  destruct (Z.eqb_spec (startColumn (range a) - startColumn (range b)) 0); lia.
Qed.

Lemma keys_le_total k l : keys_le k l \/ keys_le l k.
Proof. revert l. induction k as [|x k IH]; intros [|y l]; cbn [keys_le]; try (by left). destruct (IH l), (Z.lt_trichotomy x y) as [|[->|]]; tauto. Qed.

Lemma asc_total a b : TB.sortOpsAscending a b <= 0 \/ TB.sortOpsAscending b a <= 0.
Proof. rewrite !asc_keys. apply keys_le_total. Qed.

Lemma keys_le_trans k l m : List.length k = List.length l -> List.length l = List.length m -> keys_le k l -> keys_le l m -> keys_le k m.
Proof.
  revert l m. induction k as [|x k IH]; intros [|y l] [|z m] H1 H2; try done. cbn [keys_le]. intros [?|[-> ?]] [?|[-> ?]]; try (by left; lia). right. split; [done|].
  apply (IH l); simpl in *; try lia; done.
Qed.

Lemma asc_trans a b c : TB.sortOpsAscending a b <= 0 -> TB.sortOpsAscending b c <= 0 -> TB.sortOpsAscending a c <= 0.
Proof. rewrite !asc_keys. by apply keys_le_trans. Qed.

Lemma desc_asc a b : TB.sortOpsDescending a b = - TB.sortOpsAscending a b.
Proof. unfold TB.sortOpsDescending, TB.sortOpsAscending. destruct (_ =? 0); lia. Qed.

Lemma asc_0 a b : TB.sortOpsAscending a b = 0 -> sortIndex a = sortIndex b.
Proof.
  unfold TB.sortOpsAscending. destruct (Z.eqb_spec (Rng.compareRangesUsingEnds (range a) (range b)) 0); lia.
Qed.

(** The operations sorted descending are those sorted ascending, reversed. *)
Lemma desc_rev ops : NoDup (sortIndex <$> ops) -> js_sort TB.sortOpsDescending (js_sort TB.sortOpsAscending ops) = rev (js_sort TB.sortOpsAscending ops).
Proof.
  intros Hn. apply js_sort_rev. pose proof (js_sort_sorted TB.sortOpsAscending asc_total asc_trans ops) as Hs.
  assert (Hn' : NoDup (sortIndex <$> js_sort TB.sortOpsAscending ops)) by (by rewrite js_sort_perm).
  induction Hs as [|x l Hl IH Hx]; [constructor|]. rewrite fmap_cons in Hn'. apply NoDup_cons in Hn' as [Hnx Hnl]. constructor; [by apply IH|].
  rewrite Forall_forall in Hx |- *. intros y Hy. specialize (Hx y Hy). rewrite desc_asc. destruct (decide (TB.sortOpsAscending x y = 0)) as [E|]; [|lia].
  apply asc_0 in E. destruct Hnx. rewrite E. by apply list_elem_of_fmap_2.
Qed.

(** ** Overlapping ranges *)

Definition overlap (a b : Range) : Prop :=
  pos_lt (Rng.getStartPosition a) (Rng.getEndPosition b) /\ pos_lt (Rng.getStartPosition b) (Rng.getEndPosition a).

Definition overlapping (rs : list Range) : Prop := exists a b rest, rs ≡ₚ a :: b :: rest /\ overlap a b.

#[export] Instance overlapping_perm : Proper ((≡ₚ) ==> iff) overlapping.
Proof.
  assert (Himp : forall rs rs', rs ≡ₚ rs' -> overlapping rs -> overlapping rs') by (intros rs rs' Hp (a & b & rest & Hab & Ho); exists a, b, rest; by rewrite <- Hp).
  intros rs rs' Hp. split; by apply Himp.
Qed.

Definition apart_ranges : list Range -> Prop := StronglySorted (fun a b => pos_le (Rng.getEndPosition a) (Rng.getStartPosition b)).

Definition strict_ranges : list Range -> Prop := StronglySorted (fun a b => pos_lt (Rng.getEndPosition a) (Rng.getStartPosition b)).

Lemma sorted_pairs {A} (R : A -> A -> Prop) (l : list A) a b rest : StronglySorted R l -> l ≡ₚ a :: b :: rest -> R a b \/ R b a.
Proof.
  intros Hl. revert rest. induction Hl as [|x l Hl IH Hx]; intros rest Hp; [by apply Permutation_nil_cons in Hp|]. rewrite Forall_forall in Hx.
  assert (Hin : x ∈ a :: b :: rest) by (rewrite <- Hp; left). apply elem_of_cons in Hin as [->|Hin].
  - left. apply Hx. apply Permutation_cons_inv in Hp. rewrite Hp. left.
  - apply elem_of_cons in Hin as [->|Hin].
    + right. apply Hx. rewrite Permutation_swap in Hp. apply Permutation_cons_inv in Hp. rewrite Hp. left.
    + apply list_elem_of_split in Hin as (r1 & r2 & ->). apply (IH (r1 ++ r2)). apply (Permutation_cons_inv (a := x)). rewrite Hp.
      rewrite <- Permutation_middle. by rewrite (Permutation_swap x b), (Permutation_swap x a).
Qed.

Lemma check_overlap_apart ops t0 t : Forall (fun op => range_wf (range op)) ops -> TB.check_overlap ops t0 = Ok t -> apart_ranges (range <$> ops).
Proof.
  intros Hw. revert t0. induction ops as [|a ops IH]; intros t0 Hc; [constructor|]. apply Forall_cons in Hw as [Ha Hw]. destruct ops as [|b ops]; [by repeat constructor|].
  cbn [TB.check_overlap] in Hc. set (la := a) in *.
  assert (Hle : pos_le (Rng.getEndPosition (range a)) (Rng.getStartPosition (range b)) /\ exists t1, TB.check_overlap (b :: ops) t1 = Ok t).
  { unfold Pos.isBeforeOrEqual, Pos.isBefore in Hc. unfold pos_le.
    destruct (Z.ltb_spec (lineNumber (Rng.getStartPosition (range b))) (lineNumber (Rng.getEndPosition (range la)))) as [|H1]; [done|].
    destruct (Z.ltb_spec (lineNumber (Rng.getEndPosition (range la))) (lineNumber (Rng.getStartPosition (range b)))) as [H2|H2]; [split; [left; exact H2|by eexists]|].
    destruct (Z.leb_spec (Position.column (Rng.getStartPosition (range b))) (Position.column (Rng.getEndPosition (range la)))) as [H3|H3].
    - destruct (Z.ltb_spec (Position.column (Rng.getStartPosition (range b))) (Position.column (Rng.getEndPosition (range la)))); [done|]. split; [right; unfold la in *; lia|by eexists].
    - split; [right; unfold la in *; lia|by eexists]. }
  destruct Hle as [Hle (t1 & Hc1)]. specialize (IH Hw t1 Hc1). rewrite fmap_cons. unfold la in *. constructor; [exact IH|]. rewrite fmap_cons. constructor; [done|].
  rewrite fmap_cons in IH. apply StronglySorted_inv in IH as [_ IH]. apply Forall_cons in Hw as [Hb _]. eapply Forall_impl; [exact IH|].
  intros c Hbc. etrans; [exact Hle|]. etrans; [exact Hb|exact Hbc].
Qed.

Lemma apart_not_overlapping rs : apart_ranges rs -> ~ overlapping rs.
Proof.
  intros Ha (a & b & rest & Hp & H1 & H2). destruct (sorted_pairs _ _ _ _ _ Ha Hp) as [H|H]; unfold pos_le, pos_lt in *; lia.
Qed.

Lemma check_overlap_throw ops t0 e : StronglySorted (fun a b => TB.sortOpsAscending a b <= 0) ops -> Forall (fun op => range_wf (range op)) ops ->
  TB.check_overlap ops t0 = Throw e -> e = OtherError /\ overlapping (range <$> ops).
Proof.
  intros Hs Hw. revert t0. induction Hs as [|a ops Hs IH Ha]; intros t0 Hc; [done|]. apply Forall_cons in Hw as [Hwa Hw]. destruct ops as [|b ops]; [done|].
  cbn [TB.check_overlap] in Hc.
  assert (Hrest : forall t1, TB.check_overlap (b :: ops) t1 = Throw e -> e = OtherError /\ overlapping (range <$> a :: b :: ops)).
  { intros t1 H1. destruct (IH Hw t1 H1) as (-> & x & y & rest & Hp & Ho). split; [done|]. exists x, y, (range a :: rest). split; [|done]. rewrite fmap_cons, Hp.
    by rewrite (Permutation_swap x (range a)), (Permutation_swap y (range a)). }
  destruct (Pos.isBeforeOrEqual _ _) eqn:Eb; [|by eapply Hrest]. destruct (Pos.isBefore _ _) eqn:Elt; [|by eapply Hrest]. injection Hc as <-. split; [done|].
  exists (range a), (range b), (range <$> ops). split; [by rewrite !fmap_cons|]. apply Forall_cons in Ha as [Ha _]. apply asc_keys in Ha. apply Forall_cons in Hw as [Hwb _].
  unfold op_key in Ha. cbn [keys_le] in Ha. unfold Pos.isBefore in Elt. unfold overlap, pos_lt, range_wf, pos_le in *. cbn [Rng.getStartPosition Rng.getEndPosition lineNumber Position.column] in *.
  destruct (Z.ltb_spec (startLineNumber (range b)) (endLineNumber (range a))); [lia|]. destruct (Z.ltb_spec (endLineNumber (range a)) (startLineNumber (range b))); [done|].
  apply Z.ltb_lt in Elt. lia.
Qed.

(** ** All edits at once *)

Definition op_end (op : IValidatedEditOperation) : Z := rangeOffset op + rangeLength op.

(** The text from offset [p] on, with the edits made that come after it. *)
Fixpoint splice d (p : Z) (ops : list IValidatedEditOperation) : list Z :=
  match ops with
  | [] => drop (Z.to_nat p) d
  | op :: rest => sub d p (rangeOffset op) ++ text op ++ splice d (op_end op) rest
  end.

(** The edits follow one another from [p] on, cut no CRLF, and insert normalized texts. *)
Fixpoint chain (eol : list Z) d (p : Z) (ops : list IValidatedEditOperation) : Prop :=
  match ops with
  | [] => p <= zlen d
  | op :: rest => p <= rangeOffset op /\ 0 <= rangeLength op /\ op_end op <= zlen d /\ in_crlf d (rangeOffset op) = false /\
      in_crlf d (op_end op) = false /\ normalized eol (text op) /\ chain eol d (op_end op) rest
  end.

(** What the validation of an operation finds. *)
Definition op_ok (eol : list Z) d (op : IValidatedEditOperation) : Prop :=
  model_range d (range op) /\ rangeOffset op = range_start d (range op) /\ op_end op = range_end d (range op) /\ normalized eol (text op).

Lemma chain_le eol d p ops : chain eol d p ops -> p <= zlen d.
Proof. destruct ops as [|op ops]; [done|]. unfold chain. cbn [chain]. unfold op_end. lia. Qed.

Lemma ops_chain eol d p ops : Forall (op_ok eol d) ops -> apart_ranges (range <$> ops) -> p <= zlen d -> Forall (fun op => p <= rangeOffset op) ops -> chain eol d p ops.
Proof.
  intros Hok. revert p. induction Hok as [|op ops (Hr & Ho & He & Ht) Hok IH]; intros p Ha Hp Hle; [done|]. apply Forall_cons in Hle as [Hle _].
  rewrite fmap_cons in Ha. apply StronglySorted_inv in Ha as [Ha Hh]. destruct (model_range_offsets d _ Hr) as (H1 & H2 & H3 & H4). cbn [chain].
  rewrite He, Ho in *. split_and!; try done; [unfold op_end in He; lia|]. apply IH; [done|lia|].
  rewrite Forall_fmap in Hh. rewrite Forall_forall in Hok, Hh |- *. intros op' Hin. destruct (Hok op' Hin) as (Hr' & -> & _). specialize (Hh op' Hin).
  destruct Hr as (_ & Hq & _), Hr' as (Hq' & _). exact (offset_mono d _ _ Hq Hq' Hh).
Qed.

Lemma normalized_splice eol d p ops : eol = [10] \/ eol = [13; 10] -> normalized eol d -> 0 <= p -> in_crlf d p = false -> chain eol d p ops ->
  normalized eol (splice d p ops).
Proof.
  intros He Hn. revert p. induction ops as [|op ops IH]; intros p Hp Hc Hch; cbn [splice chain] in *; [by apply normalized_parts|].
  destruct Hch as (H1 & H2 & H3 & H4 & H5 & H6 & H7). unfold op_end in *. apply normalized_app; [done|apply normalized_sub; (done || lia)|].
  apply normalized_app; [done|done|]. apply IH; (done || lia).
Qed.

Lemma take_then_sub d p o : 0 <= p <= o -> take (Z.to_nat p) d ++ sub d p o = take (Z.to_nat o) d.
Proof. intros. unfold sub. rewrite <- (firstn_skipn (Z.to_nat p) (take (Z.to_nat o) d)), firstn_firstn, skipn_firstn_comm. f_equal; f_equal; lia. Qed.

Lemma take_splice d p op ops : 0 <= p <= rangeOffset op ->
  take (Z.to_nat p) d ++ splice d p (op :: ops) = take (Z.to_nat (rangeOffset op)) d ++ text op ++ splice d (op_end op) ops.
Proof. intros Hp. cbn [splice]. rewrite app_assoc. by rewrite take_then_sub. Qed.

Lemma splice_0 d ops : take (Z.to_nat 0) d ++ splice d 0 ops = splice d 0 ops.
Proof. done. Qed.

(** ** The texts that are inserted *)

Lemma lor_kinds ks a k : k ∈ ks -> Z.lor k (fold_left Z.lor ks a) = fold_left Z.lor ks a.
Proof.
  assert (Hacc : forall ks a k, Z.lor k a = a -> Z.lor k (fold_left Z.lor ks a) = fold_left Z.lor ks a).
  { clear. induction ks as [|x ks IH]; intros a k E; [done|]. cbn [fold_left]. apply IH. by rewrite Z.lor_assoc, E. }
  revert a. induction ks as [|x ks IH]; intros a Hk; [by apply not_elem_of_nil in Hk|]. cbn [fold_left]. apply elem_of_cons in Hk as [->|Hk]; [|by apply IH].
  apply Hacc. rewrite (Z.lor_comm a), Z.lor_assoc, Z.lor_diag. done.
Qed.

Lemma no_kind k d : (forall x, x ∈ eol_kinds d -> x <> k) -> kinds k d = 0.
Proof.
  intros Hk. unfold kinds. replace (filter (fun x => x = k) (eol_kinds d)) with (@nil Z); [done|]. symmetry.
  induction (eol_kinds d) as [|x l IH]; [done|]. rewrite filter_cons, decide_False by (apply Hk; left). apply IH. intros y Hy. apply Hk. by right.
Qed.

(** The line endings of the inserted text are those of the buffer. *)
Lemma valid_text_text eol t : eol = [10] \/ eol = [13; 10] -> (TB.valid_text eol t).1.1.1 = replaceEOL (default [] t) eol.
Proof.
  intros He. destruct t as [[|c t]|]; [done| |done]. cbn [default TB.valid_text from_option id]. set (str := c :: t).
  pose proof (countEOL_loop str) as Hc. destruct (countEOL str) as [[[n f] l] k]. destruct Hc as (_ & _ & _ & _ & Hk). cbn [fst].
  destruct ((k =? StringEOL.Unknown) || (k =? if bool_decide (eol = [13; 10]) then StringEOL.CRLF else StringEOL.LF)) eqn:E; [|done].
  symmetry. change (normalized eol str). apply kinds_normalized.
  assert (Hin : forall x, x ∈ eol_kinds str -> Z.lor x k = k) by (intros x Hx; rewrite Hk; by apply lor_kinds).
  apply orb_true_iff in E as [->%Z.eqb_eq|E%Z.eqb_eq].
  - assert (H0 : forall y, y <> 0 -> kinds y str = 0) by (intros y Hy; apply no_kind; intros x Hx ->; specialize (Hin _ Hx); change StringEOL.Unknown with 0 in Hin; by rewrite Z.lor_0_r in Hin).
    destruct He as [-> | ->]; [left|right]; repeat split; by apply H0.
  - destruct He as [-> | ->]; [left|right]; (split; [done|]); rewrite E in Hin; split; apply no_kind; intros x Hx ->; by specialize (Hin _ Hx).
Qed.

(** ** Validation *)

Definition validated (eol : list Z) d (i : Z) (raw : ValidAnnotatedEditOperation) : IValidatedEditOperation :=
  let r := raw_range raw in
  let '(t, eolCount, firstLineLength, lastLineLength) := TB.valid_text eol (raw_text raw) in
  mkEdit i (raw_identifier raw) r (range_start d r) (range_end d r - range_start d r) t eolCount firstLineLength lastLineLength
    (raw_forceMoveMarkers raw) (raw_isAutoWhitespaceEdit raw).

Fixpoint validated_from (eol : list Z) d (i : Z) (raws : list ValidAnnotatedEditOperation) : list IValidatedEditOperation :=
  match raws with [] => [] | raw :: raws => validated eol d i raw :: validated_from eol d (i + 1) raws end.

Lemma validated_fields eol d i raw : eol = [10] \/ eol = [13; 10] ->
  sortIndex (validated eol d i raw) = i /\ range (validated eol d i raw) = raw_range raw /\
  rangeOffset (validated eol d i raw) = range_start d (raw_range raw) /\ op_end (validated eol d i raw) = range_end d (raw_range raw) /\
  text (validated eol d i raw) = replaceEOL (default [] (raw_text raw)) eol.
Proof.
  intros He. unfold validated, op_end. pose proof (valid_text_text eol (raw_text raw) He) as Ht. destruct (TB.valid_text eol (raw_text raw)) as [[[t n] f] l]. cbn in *.
  repeat split; try done. lia.
Qed.

Lemma validated_ok eol d i raw : eol = [10] \/ eol = [13; 10] -> model_range d (raw_range raw) -> op_ok eol d (validated eol d i raw).
Proof.
  intros He Hr. destruct (validated_fields eol d i raw He) as (_ & Er & Eo & Ee & Et). unfold op_ok. rewrite Er, Eo, Ee, Et. repeat split; try done; try apply Hr. by apply replaceEOL_idem.
Qed.

Lemma validated_all eol d i raws : eol = [10] \/ eol = [13; 10] -> Forall (fun raw => model_range d (raw_range raw)) raws -> Forall (op_ok eol d) (validated_from eol d i raws).
Proof. intros He Hr. revert i. induction Hr as [|raw raws Hr Hrs IH]; intros i; [constructor|]. cbn [validated_from]. constructor; [by apply validated_ok|apply IH]. Qed.

Lemma validated_ranges eol d i raws : eol = [10] \/ eol = [13; 10] -> range <$> validated_from eol d i raws = raw_range <$> raws.
Proof.
  intros He. revert i. induction raws as [|raw raws IH]; intros i; [done|]. cbn [validated_from]. rewrite !fmap_cons, IH. by destruct (validated_fields eol d i raw He) as (_ & -> & _).
Qed.

Lemma validated_indices eol d i raws : eol = [10] \/ eol = [13; 10] -> sortIndex <$> validated_from eol d i raws = seqZ i (zlen raws).
Proof.
  intros He. revert i. induction raws as [|raw raws IH]; intros i; [done|]. cbn [validated_from]. rewrite fmap_cons, IH, zlen_cons. destruct (validated_fields eol d i raw He) as (-> & _).
  pose proof (zlen_nonneg raws). rewrite (seqZ_cons i) by lia. do 2 f_equal; lia.
Qed.

Lemma validated_NoDup eol d i raws : eol = [10] \/ eol = [13; 10] -> NoDup (sortIndex <$> validated_from eol d i raws).
Proof. intros He. rewrite validated_indices by done. apply NoDup_seqZ. Qed.

(** ** Reduction to a single edit *)

(** The text from [p] to the end of the last edit, with the edits made. *)
Fixpoint middle d (p : Z) (ops : list IValidatedEditOperation) : list Z :=
  match ops with [] => [] | op :: rest => sub d p (rangeOffset op) ++ text op ++ middle d (op_end op) rest end.

Fixpoint last_end (p : Z) (ops : list IValidatedEditOperation) : Z :=
  match ops with [] => p | op :: rest => last_end (op_end op) rest end.

Lemma splice_middle d p ops : splice d p ops = middle d p ops ++ drop (Z.to_nat (last_end p ops)) d.
Proof. revert p. induction ops as [|op ops IH]; intros p; [done|]. cbn [splice middle last_end]. rewrite IH. by rewrite <- !app_assoc. Qed.

Lemma last_end_last p ops op : last ops = Some op -> last_end p ops = op_end op.
Proof. revert p. induction ops as [|o ops IH]; intros p Hl; [done|]. destruct ops as [|o' ops]; [by injection Hl as ->|]. exact (IH (op_end o) Hl). Qed.

Fixpoint texts_length (ops : list IValidatedEditOperation) : Z :=
  match ops with [] => 0 | op :: ops => zlen (text op) + texts_length ops end.

Lemma middle_end eol d p ops : 0 <= p -> chain eol d p ops -> zlen (middle d p ops) <= last_end p ops - p + texts_length ops /\ p <= last_end p ops <= zlen d.
Proof.
  revert p. induction ops as [|op ops IH]; intros p Hp Hc; cbn [middle texts_length last_end chain] in *; [change (zlen (@nil Z)) with 0; lia|].
  destruct Hc as (H1 & H2 & H3 & _ & _ & _ & H7). assert (H8 : 0 <= op_end op) by (unfold op_end; lia). destruct (IH (op_end op) H8 H7) as [I1 I2].
  unfold op_end in *. rewrite !zlen_app, zlen_sub by lia. lia.
Qed.

Lemma middle_length eol d p ops : 0 <= p -> chain eol d p ops -> zlen (middle d p ops) <= zlen d - p + texts_length ops.
Proof. intros Hp Hc. destruct (middle_end eol d p ops Hp Hc). lia. Qed.

Lemma normalized_middle eol d p ops : eol = [10] \/ eol = [13; 10] -> normalized eol d -> 0 <= p -> in_crlf d p = false -> chain eol d p ops ->
  normalized eol (middle d p ops).
Proof.
  intros He Hn. revert p. induction ops as [|op ops IH]; intros p Hp Hc Hch; cbn [middle chain] in *; [by destruct He as [-> | ->]|].
  destruct Hch as (H1 & H2 & H3 & H4 & H5 & H6 & H7). unfold op_end in *. apply normalized_app; [done|apply normalized_sub; (done || lia)|].
  apply normalized_app; [done|done|]. apply IH; (done || lia).
Qed.

(** The range from the start of the first edit to the end of the last. *)
Lemma whole_range d first last_ rest : model_range d first -> model_range d last_ -> apart_ranges (first :: rest) -> last (first :: rest) = Some last_ ->
  model_range d (mkRange (startLineNumber first) (startColumn first) (endLineNumber last_) (endColumn last_)).
Proof.
  intros (H1 & H2 & H3) (H4 & H5 & H6) Ha Hl. split; [exact H1|]. split; [exact H5|]. unfold range_wf. 
  change (pos_le (Rng.getStartPosition first) (Rng.getEndPosition last_)). destruct rest as [|r rest]; [injection Hl as <-; exact H3|].
  apply StronglySorted_inv in Ha as [_ Ha]. rewrite Forall_forall in Ha. assert (Hin : last_ ∈ r :: rest) by (apply last_Some_elem_of; exact Hl).
  specialize (Ha _ Hin). cbv beta in Ha. etrans; [exact H3|]. etrans; [exact Ha|exact H6].
Qed.

(** ** The reverse edits *)

Fixpoint reversed d (delta : Z) (ops : list IValidatedEditOperation) (ranges : list Range) : list IReverseSingleEditOperation :=
  match ops, ranges with
  | op :: ops, r :: ranges =>
      let old := sub d (rangeOffset op) (op_end op) in
      mkReverse (sortIndex op) (identifier op) r old (mkTextChange (rangeOffset op) old (rangeOffset op + delta) (text op)) ::
      reversed d (delta + (zlen (text op) - zlen old)) ops ranges
  | _, _ => []
  end.

(** The changes that go with the reverse edits are a rewriting of the text. *)
Lemma reversed_rewrites eol d p delta ops ranges : 0 <= p -> chain eol d p ops -> List.length ranges = List.length ops ->
  rewrites (rev_textChange <$> reversed d delta ops ranges) p (p + delta) (drop (Z.to_nat p) d) (splice d p ops).
Proof.
  revert p delta ranges. induction ops as [|op ops IH]; intros p delta ranges Hp Hc Hlen; destruct ranges as [|r ranges]; try done.
  cbn [reversed]. rewrite fmap_cons. cbn [rewrites rev_textChange oldText newText oldPosition newPosition splice]. cbn [chain] in Hc. destruct Hc as (H1 & H2 & H3 & _ & _ & _ & H7).
  assert (Ho : p <= rangeOffset op <= op_end op) by (unfold op_end; lia).
  exists (sub d p (rangeOffset op)), (drop (Z.to_nat (op_end op)) d), (splice d (op_end op) ops).
  split; [|split; [done|]].
  { rewrite app_assoc, sub_join by lia. unfold sub. rewrite <- (take_drop (Z.to_nat (op_end op - p)) (drop (Z.to_nat p) d)) at 1. f_equal. rewrite drop_drop. f_equal. lia. }
  rewrite zlen_sub by lia. split; [lia|]. split; [lia|]. unfold oldEnd, newEnd. cbn [oldText newText oldPosition newPosition]. rewrite zlen_sub by lia.
  replace (rangeOffset op + (op_end op - rangeOffset op)) with (op_end op) by lia.
  replace (rangeOffset op + delta + zlen (text op)) with (op_end op + (delta + (zlen (text op) - (op_end op - rangeOffset op)))) by lia.
  apply (IH (op_end op)); [lia|exact H7|]. simpl in Hlen. lia.
Qed.

Lemma inverse_ranges_length prev ops : List.length (TB.inverse_ranges prev ops) = List.length ops.
Proof.
  revert prev. induction ops as [|op ops IH]; intros prev; [done|]. cbn [TB.inverse_ranges].
  destruct prev as [[[r l] c]|]; [destruct (_ =? _)|]; cbn [List.length]; by rewrite IH.
Qed.

(** ** The changes that are reported *)

(** A client replaces the text of a change. *)
Definition replay d (c : IInternalModelContentChange) : list Z :=
  take (Z.to_nat (change_rangeOffset c)) d ++ change_text c ++ drop (Z.to_nat (change_rangeOffset c + change_rangeLength c)) d.

(** The text after the edits [raws], line endings included. *)
Definition edited (eol : list Z) d (raws : list ValidAnnotatedEditOperation) : list Z :=
  splice d 0 (js_sort TB.sortOpsAscending (validated_from eol d 0 raws)).

(** ** Edits that do not touch *)

Lemma check_overlap_strict ops t0 : Forall (fun op => range_wf (range op)) ops -> TB.check_overlap ops t0 = Ok false -> strict_ranges (range <$> ops).
Proof.
  assert (Htrue : forall ops, TB.check_overlap ops true <> Ok false).
  { clear. induction ops as [|a [|b ops] IH]; [done..|]. cbn [TB.check_overlap]. destruct (Pos.isBeforeOrEqual _ _); [destruct (Pos.isBefore _ _); done|done]. }
  intros Hw. revert t0. induction ops as [|a ops IH]; intros t0 Hc; [constructor|]. apply Forall_cons in Hw as [Ha Hw]. destruct ops as [|b ops]; [by repeat constructor|].
  cbn [TB.check_overlap] in Hc. destruct (Pos.isBeforeOrEqual _ _) eqn:Eb; [destruct (Pos.isBefore _ _); [done|by destruct (Htrue (b :: ops))]|].
  specialize (IH Hw t0 Hc). rewrite fmap_cons. constructor; [exact IH|]. rewrite fmap_cons.
  assert (Hlt : pos_lt (Rng.getEndPosition (range a)) (Rng.getStartPosition (range b))).
  { unfold Pos.isBeforeOrEqual in Eb. unfold pos_lt. 
    destruct (Z.ltb_spec (lineNumber (Rng.getStartPosition (range b))) (lineNumber (Rng.getEndPosition (range a)))) as [|H1]; [done|].
    destruct (Z.ltb_spec (lineNumber (Rng.getEndPosition (range a))) (lineNumber (Rng.getStartPosition (range b)))) as [H2|H2]; [by left|].
    destruct (Z.leb_spec (Position.column (Rng.getStartPosition (range b))) (Position.column (Rng.getEndPosition (range a)))) as [H3|H3]; [done|]. right. lia. }
  constructor; [done|]. rewrite fmap_cons in IH. apply StronglySorted_inv in IH as [_ IH]. apply Forall_cons in Hw as [Hb _]. eapply Forall_impl; [exact IH|].
  intros c Hbc. unfold pos_lt, range_wf, pos_le in *. cbv beta in Hbc. lia.
Qed.

Lemma js_sort_id {A} (cmp : A -> A -> Z) (l : list A) : StronglySorted (fun x y => cmp x y <= 0) l -> js_sort cmp l = l.
Proof.
  unfold js_sort. induction 1 as [|x l Hl IH Hx]; [done|]. cbn [foldr]. rewrite IH. destruct Hx as [|y l Hy _]; [done|]. cbn [sort_insert]. by destruct (Z.leb_spec (cmp x y) 0); [|lia].
Qed.

(** ** Rewriting back *)

Definition swapped (e : TextChange) : TextChange := mkTextChange (newPosition e) (newText e) (oldPosition e) (oldText e).

Lemma rewrites_swap es o n d d' : rewrites es o n d d' -> rewrites (swapped <$> es) n o d' d.
Proof.
  revert o n d d'. induction es as [|e es IH]; intros o n d d'; [by intros ->|]. intros (g & r & r' & -> & -> & Ho & Hn & Hr). exists g, r', r. by split_and!; try done; apply IH.
Qed.

(** A rewriting is what the edits do that have its offsets and texts. *)
Definition edit_of (e : TextChange) op : Prop := rangeOffset op = oldPosition e /\ op_end op = oldEnd e /\ text op = newText e.

Lemma rewrites_splice es ops d p n r : 0 <= p <= zlen d -> Forall2 edit_of es ops -> rewrites es p n (drop (Z.to_nat p) d) r -> splice d p ops = r.
Proof.
  intros Hp Hf. revert p n r Hp. induction Hf as [|e op es ops (Eo & Ee & Et) Hf IH]; intros p n r Hp; [done|]. intros (g & x & x' & E & -> & Ho & Hn & Hr).
  cbn [splice]. rewrite Et, Eo, Ee, Ho. pose proof (zlen_nonneg g). pose proof (zlen_nonneg (oldText e)). pose proof (zlen_nonneg x).
  assert (Hz : zlen d - p = zlen g + zlen (oldText e) + zlen x) by (rewrite <- zlen_drop, E, !zlen_app by lia; lia).
  assert (Hg : sub d p (p + zlen g) = g).
  { unfold sub. rewrite E. replace (p + zlen g - p) with (zlen g) by lia. unfold zlen. rewrite Nat2Z.id. apply take_app_length. }
  rewrite Hg. do 2 f_equal. apply (IH _ (newEnd e)); [unfold oldEnd; lia|].
  assert (Hx : drop (Z.to_nat (oldEnd e)) d = x); [|by rewrite Hx].
  unfold oldEnd. rewrite Ho. replace (Z.to_nat (p + zlen g + zlen (oldText e))) with (Z.to_nat p + Z.to_nat (zlen g + zlen (oldText e)))%nat by lia.
  rewrite <- drop_drop, E, app_assoc, <- zlen_app. unfold zlen. rewrite Nat2Z.id. apply drop_app_length.
Qed.

(** Where the changes of a rewriting are in the new text. *)
Lemma rewrites_sorted es o n d d' : rewrites es o n d d' ->
  StronglySorted (fun e e' => newEnd e <= newPosition e') es /\ Forall (fun e => n <= newPosition e) es.
Proof.
  revert o n d d'. induction es as [|e es IH]; intros o n d d'; [by repeat constructor|]. intros (g & r & r' & -> & -> & Ho & Hn & Hr). destruct (IH _ _ _ _ Hr) as [Hs Hf].
  pose proof (zlen_nonneg g). pose proof (zlen_nonneg (newText e)). split; [by constructor|]. constructor; [lia|]. eapply Forall_impl; [exact Hf|]. unfold newEnd. intros x Hx. cbv beta in Hx. lia.
Qed.

Lemma rewrites_strict es o n d d' : rewrites es o n d d' -> StronglySorted (fun e e' => oldEnd e < oldPosition e') es ->
  StronglySorted (fun e e' => newEnd e < newPosition e') es.
Proof.
  revert o n d d'. induction es as [|e es IH]; intros o n d d'; [by repeat constructor|]. intros (g & r & r' & -> & -> & Ho & Hn & Hr) Hs. apply StronglySorted_inv in Hs as [Hs Hh].
  constructor; [by eapply IH|]. destruct es as [|e2 es]; [constructor|]. pose proof Hr as (g2 & r2 & r2' & _ & _ & Ho2 & Hn2 & Hr2). apply Forall_cons in Hh as [Hh _].
  destruct (rewrites_sorted _ _ _ _ _ Hr2) as [_ Hf]. pose proof (zlen_nonneg (newText e2)). constructor; [lia|]. eapply Forall_impl; [exact Hf|]. unfold newEnd in *. intros x Hx. cbv beta in Hx. lia.
Qed.
