(* ===== verification/EditPositions.v ===== *)
(** * Where a text ends

    [end_pos a] is the position at the end of the text [a]: that of an offset of a text is
    the end of the text before it.  It is computed piecewise ([end_pos_app]), which is how
    [getInverseEditRanges] finds the ranges of the inserted texts. *)

From S2P Require Import Prelude Position TextRange TextChange Length EolCounter Store RbTree RbInsert PtBuffer PtSpan Strings PieceTree PtState PtEdit PtSearch PtInsert PtDelete PtQuery PtLines PtRead PtBuild PtContent TextBuffer TextBuilder EditText.

#[local] Open Scope js_scope.
#[local] Arguments Z.eqb : simpl never.
#[local] Arguments Z.ltb : simpl never.
#[local] Arguments Z.leb : simpl never.
#[local] Arguments Z.add : simpl never.
#[local] Arguments Z.sub : simpl never.

Implicit Types (d a t : list Z).

Definition last_line a : list Z := default [] (last (splitLines a)).
Definition first_line a : list Z := default [] (head (splitLines a)).

Definition end_pos a : Position := mkPosition (breaks a + 1) (zlen (last_line a) + 1).

(** ** The lines of two texts *)

Lemma untorn_joinable a t : torn a t = false -> joinable a t.
Proof.
  intros Ht Hl Hh. unfold torn, ends_cr in Ht. rewrite Hl in Ht. destruct t as [|c t]; [done|]. injection Hh as ->. done.
Qed.

Lemma splitLines_app a t : torn a t = false -> exists init tl, splitLines a = init ++ [last_line a] /\ splitLines t = first_line t :: tl /\
  splitLines (a ++ t) = init ++ (last_line a ++ first_line t) :: tl.
Proof.
  intros Ht. destruct (split_from_app [] a t (untorn_joinable a t Ht)) as (init & lst & E1 & E2). destruct (split_from_line lst t) as (h & tl & E3 & E4).
  exists init, tl. unfold last_line, first_line, splitLines. rewrite E1, E3, last_snoc, E2, E4. done.
Qed.

Lemma one_line_text t : breaks t = 0 -> splitLines t = [t].
Proof.
  intros Hb. pose proof (breaks_splitLines t) as Hl. rewrite Hb in Hl. induction t as [|e a He Ht IH|c a Hcr Hc IH] using lines_ind; [done|..].
  - rewrite (breaks_break _ _ He Ht) in Hb. pose proof (breaks_nonneg a). lia.
  - rewrite (breaks_char _ _ Hcr Hc) in Hb. pose proof (breaks_splitLines a) as Hl'. rewrite Hb in Hl'. specialize (IH Hb Hl').
    destruct (splitLines_char c a Hcr Hc) as (h & tl & E1 & E2). rewrite E1 in IH. injection IH as -> ->. exact E2.
Qed.

Lemma splitLines_last a : exists init, splitLines a = init ++ [last_line a] /\ zlen init = breaks a.
Proof.
  destruct (splitLines_app a [] (torn_nil_r a)) as (init & tl & E & _). exists init. split; [done|]. pose proof (breaks_splitLines a) as Hl. rewrite E, zlen_app in Hl.
  change (zlen [last_line a]) with 1 in Hl. lia.
Qed.

(** A text is put after another one: on the same line, or on lines of its own. *)
Lemma end_pos_app a t : torn a t = false ->
  end_pos (a ++ t) = if breaks t =? 0 then mkPosition (breaks a + 1) (zlen (last_line a) + zlen t + 1)
                     else mkPosition (breaks a + breaks t + 1) (zlen (last_line t) + 1).
Proof.
  intros Ht. destruct (splitLines_app a t Ht) as (init & tl & E1 & E2 & E3). unfold end_pos. rewrite (breaks_app_untorn _ _ Ht).
  assert (El : last_line (a ++ t) = default [] (last ((last_line a ++ first_line t) :: tl))) by (unfold last_line at 1; by rewrite E3, last_app_cons).
  destruct (Z.eqb_spec (breaks t) 0) as [Eb|Eb].
  - rewrite (one_line_text t Eb) in E2. injection E2 as Ef <-. rewrite El, <- Ef, Eb. cbn [last default from_option id]. rewrite zlen_app. f_equal; lia.
  - destruct tl as [|l tl]; [pose proof (breaks_splitLines t) as Hl; rewrite E2 in Hl; change (zlen [first_line t]) with 1 in Hl; lia|].
    rewrite El. unfold last_line at 2. rewrite E2. done.
Qed.

(** ** Positions and offsets *)

Lemma last_start a : exists st, (starts a).[breaks a] = Some st /\ st + zlen (last_line a) = zlen a.
Proof.
  pose proof (breaks_nonneg a). destruct (start_at a (breaks a) ltac:(lia)) as (st & Hst & _). exists st. split; [done|].
  pose proof (raw_line_at a (breaks a) st Hst) as Hr. destruct (raw_line_split a (breaks a) _ ltac:(lia) Hr) as [_ Hs]. rewrite (raw_last a _ Hr) in Hs.
  destruct (splitLines_last a) as (init & E & Hi). rewrite E, at_app_r, Hi, Z.sub_diag in Hs by lia. injection Hs as Hs. rewrite Hs.
  assert (Hend : line_end a (breaks a + 1) = zlen a).
  { unfold line_end. rewrite at_None; [done|]. rewrite zlen_starts. lia. }
  pose proof (line_bounds a _ _ Hst). rewrite Hend, zlen_sub by lia. lia.
Qed.

Lemma end_pos_model d o : 0 <= o <= zlen d -> in_crlf d o = false -> model_position d (end_pos (take (Z.to_nat o) d)) /\ offset_at d (end_pos (take (Z.to_nat o) d)) = o.
Proof.
  intros Ho Hc. set (a := take (Z.to_nat o) d). assert (Ha : zlen a = o) by (unfold a; rewrite zlen_take; lia). pose proof (breaks_nonneg a) as Hb.
  assert (Ht : torn a (drop (Z.to_nat o) d) = false) by (by apply (eq_trans (in_crlf_torn d o Ho))). set (t := drop (Z.to_nat o) d) in *.
  assert (Ed : d = a ++ t) by (symmetry; apply take_drop). destruct (last_start a) as (st & Hst & Hz). destruct (splitLines_app a t Ht) as (init & tl & E1 & E2 & E3).
  destruct (splitLines_last a) as (init' & E1' & Hi). rewrite E1 in E1'. apply app_inj_tail in E1' as [<- _]. split.
  - split; [cbn; lia|]. cbn [end_pos lineNumber Position.column]. exists (last_line a ++ first_line t). rewrite Ed, E3. split.
    + rewrite at_app_r by lia. replace (breaks a + 1 - 1 - zlen init) with 0 by lia. done.
    + rewrite zlen_app. pose proof (zlen_nonneg (first_line t)). pose proof (zlen_nonneg (last_line a)). lia.
  - unfold offset_at, offset_of. cbn [end_pos lineNumber Position.column]. replace (breaks a + 1 - 1) with (breaks a) by lia. rewrite Ed, (starts_app_at _ _ _ Ht).
    destruct (Z.leb_spec (breaks a) (breaks a)); [|lia]. rewrite Hst. lia.
Qed.

Lemma model_position_end d p : model_position d p -> p = end_pos (take (Z.to_nat (offset_at d p)) d).
Proof.
  intros Hp. destruct (valid_position_start _ _ _ (model_position_valid _ _ Hp)) as (_ & _ & _ & Hz). fold (offset_at d p) in Hz.
  destruct (end_pos_model d (offset_at d p) Hz (model_position_cut d p Hp)) as [Hq Eq]. set (q := end_pos _) in *.
  pose proof (offset_lt d p q Hp Hq) as H1. pose proof (offset_lt d q p Hq Hp) as H2. unfold pos_lt in *. destruct p as [l c], q as [l' c']. cbn [lineNumber Position.column] in *.
  assert (l = l' /\ c = c') as [-> ->] by lia. done.
Qed.

Lemma end_pos_le d o o' : 0 <= o <= o' -> o' <= zlen d -> in_crlf d o = false -> in_crlf d o' = false -> pos_le (end_pos (take (Z.to_nat o) d)) (end_pos (take (Z.to_nat o') d)).
Proof.
  intros Ho Ho' Hc Hc'. destruct (end_pos_model d o ltac:(lia) Hc) as [Hp Ep]. destruct (end_pos_model d o' ltac:(lia) Hc') as [Hq Eq].
  pose proof (offset_lt d _ _ Hq Hp) as H. unfold pos_lt, pos_le in *. lia.
Qed.

(** The range between two offsets. *)
Lemma end_pos_range d o o' : 0 <= o <= o' -> o' <= zlen d -> in_crlf d o = false -> in_crlf d o' = false ->
  let p := end_pos (take (Z.to_nat o) d) in let q := end_pos (take (Z.to_nat o') d) in
  let r := mkRange (lineNumber p) (Position.column p) (lineNumber q) (Position.column q) in
  model_range d r /\ range_start d r = o /\ range_end d r = o'.
Proof.
  intros Ho Ho' Hc Hc' p q r. destruct (end_pos_model d o ltac:(lia) Hc) as [Hp Ep]. destruct (end_pos_model d o' ltac:(lia) Hc') as [Hq Eq].
  split; [|split; [exact Ep|exact Eq]]. split; [exact Hp|]. split; [exact Hq|]. exact (end_pos_le d o o' Ho Ho' Hc Hc').
Qed.

(** ** The counts of a text *)

Definition counted (op : IValidatedEditOperation) : Prop :=
  eolCount op = breaks (text op) /\ firstLineLength op = zlen (first_line (text op)) /\ lastLineLength op = zlen (last_line (text op)).

Lemma splitLines_replaceEOL a eol : eol = [10] \/ eol = [13; 10] -> splitLines (replaceEOL a eol) = splitLines a.
Proof.
  intros He. assert (Hbr : is_break eol) by (destruct He as [-> | ->]; [by do 2 right|by left]). assert (Htn : forall t, torn eol t = false) by (intros t; by destruct He as [-> | ->]).
  induction a as [|e a Hb Ht IH|c a Hcr Hc IH] using lines_ind; [done|..].
  - rewrite replaceEOL_app by done. assert (replaceEOL e eol = eol) as -> by (destruct Hb as [->|[->| ->]]; cbn; by rewrite ?app_nil_r).
    rewrite (splitLines_break eol), IH by done. by rewrite splitLines_break.
  - rewrite (replaceEOL_cons_lone c a eol Hcr). unfold is_eol in Hc. rewrite Hc. cbn [app].
    assert (Hcr' : c = 13 -> forall a', replaceEOL a eol <> 10 :: a') by (intros ->; done).
    destruct (splitLines_char c a Hcr Hc) as (h & tl & E1 & E2). destruct (splitLines_char c (replaceEOL a eol) Hcr' Hc) as (h' & tl' & E3 & E4).
    rewrite IH, E1 in E3. injection E3 as <- <-. by rewrite E4, E2.
Qed.

Lemma countEOL_counts t : let '(n, f, l, _) := countEOL t in n = breaks t /\ f = zlen (first_line t) /\ l = zlen (last_line t).
Proof.
  pose proof (countEOL_loop t) as Hc. destruct (countEOL t) as [[[n f] l] k]. destruct Hc as (Hn & Hf & Hl & _). rewrite breaks_splitLines in Hn. destruct (splitLines_last t) as (init & E & Hi).
  split; [lia|]. split.
  - destruct (splitLines_app t [] (torn_nil_r t)) as (_ & _ & _ & _ & _). unfold first_line. destruct (splitLines t) as [|h tl]; [done|]. cbn in Hf. by injection Hf as <-.
  - rewrite E, at_app_r in Hl by lia. replace (n - zlen init) with 0 in Hl by lia. cbn in Hl. by injection Hl as <-.
Qed.

Lemma validated_counted eol d i raw : eol = [10] \/ eol = [13; 10] -> counted (validated eol d i raw).
Proof.
  intros He. unfold validated. pose proof (valid_text_text eol (raw_text raw) He) as Ht. destruct (raw_text raw) as [[|c t]|]; [done| |done].
  cbn [TB.valid_text default from_option id] in *. set (str := c :: t) in *. pose proof (countEOL_counts str) as Hc. destruct (countEOL str) as [[[n f] l] k]. cbn [fst] in Ht. destruct Hc as (Hn & Hf & Hl).
  unfold counted. cbn [eolCount firstLineLength lastLineLength text]. rewrite Ht. pose proof (splitLines_replaceEOL str eol He) as Es. unfold first_line, last_line. rewrite Es.
  split; [|done]. pose proof (breaks_splitLines str). pose proof (breaks_splitLines (replaceEOL str eol)) as Hb. rewrite Es in Hb. lia.
Qed.

Lemma validated_counts eol d i raws : eol = [10] \/ eol = [13; 10] -> Forall counted (validated_from eol d i raws).
Proof. intros He. revert i. induction raws as [|raw raws IH]; intros i; [constructor|]. cbn [validated_from]. constructor; [by apply validated_counted|apply IH]. Qed.

(** ** The ranges of the inserted texts *)

Definition pos_range (p q : Position) : Range := mkRange (lineNumber p) (Position.column p) (lineNumber q) (Position.column q).

Lemma inserted_range_ok a t n f l : torn a t = false -> n = breaks t -> f = zlen (first_line t) -> l = zlen (last_line t) ->
  TB.inserted_range (lineNumber (end_pos a)) (Position.column (end_pos a)) t n f l = pos_range (end_pos a) (end_pos (a ++ t)).
Proof.
  intros Ht -> -> ->. unfold TB.inserted_range, pos_range. rewrite Z.gtb_ltb. pose proof (breaks_nonneg t) as Hb. pose proof (zlen_nonneg t) as Hz.
  assert (Hnew : forall l1 c1 l2 c2, l1 < l2 \/ l1 = l2 /\ c1 <= c2 -> Rng.new_Range l1 c1 l2 c2 = mkRange l1 c1 l2 c2).
  { intros l1 c1 l2 c2 Hle. apply (wf_Range_id (mkRange l1 c1 l2 c2)). exact Hle. }
  rewrite (end_pos_app a t Ht). unfold end_pos. cbn [lineNumber Position.column]. destruct (Z.ltb_spec 0 (zlen t)) as [Hp|Hp].
  - destruct (Z.eqb_spec (breaks t) 0) as [Eb|Eb].
    + destruct (Z.eqb_spec (breaks t + 1) 1); [|lia]. cbn [lineNumber Position.column]. unfold first_line. rewrite (one_line_text t Eb). cbn [head default from_option id].
      rewrite Hnew by lia. f_equal. lia.
    + destruct (Z.eqb_spec (breaks t + 1) 1); [lia|]. cbn [lineNumber Position.column]. rewrite Hnew by lia. f_equal. lia.
  - assert (t = []) as -> by (destruct t; [done|]; rewrite zlen_cons in *; pose proof (zlen_nonneg t); lia). change (breaks [] =? 0) with true. cbv iota. cbn [lineNumber Position.column].
    rewrite Hnew by lia. change (zlen []) with 0. f_equal. lia.
Qed.

(** The ranges of the texts in the new text, [a] being the new text so far. *)
Fixpoint new_ranges d a (p : Z) (ops : list IValidatedEditOperation) : list Range :=
  match ops with
  | [] => []
  | op :: rest => let m := a ++ sub d p (rangeOffset op) in pos_range (end_pos m) (end_pos (m ++ text op)) :: new_ranges d (m ++ text op) (op_end op) rest
  end.

Lemma normalized_untorn eol a t : eol = [10] \/ eol = [13; 10] -> normalized eol a -> torn a t = false.
Proof. intros He Ha. unfold torn. unfold normalized in Ha. rewrite <- Ha. by rewrite replaceEOL_ends. Qed.

Lemma inverse_ranges_new eol d ops a p prev : eol = [10] \/ eol = [13; 10] -> normalized eol d -> Forall (op_ok eol d) ops -> Forall counted ops -> chain eol d p ops ->
  0 <= p -> in_crlf d p = false -> normalized eol a ->
  match prev with
  | Some (r, l, c) => Rng.getEndPosition r = end_pos (take (Z.to_nat p) d) /\ mkPosition l c = end_pos a
  | None => p = 0 /\ a = []
  end ->
  TB.inverse_ranges prev ops = new_ranges d a p ops.
Proof.
  intros He Hn Hok. revert a p prev. induction Hok as [|op ops (Hr & Ho & Hoe & Ht) Hok IH]; intros a p prev Hcnt Hch Hp Hc Ha Hprev; [done|].
  apply Forall_cons in Hcnt as [(Hn1 & Hn2 & Hn3) Hcnt]. cbn [chain] in Hch. destruct Hch as (H1 & H2 & H3 & H4 & H5 & H6 & H7). cbn [TB.inverse_ranges new_ranges].
  assert (Hob : rangeOffset op <= zlen d) by (unfold op_end in *; lia). assert (Hoe0 : 0 <= op_end op) by (unfold op_end; lia).
  set (g := sub d p (rangeOffset op)). assert (Hng : normalized eol g) by (apply normalized_sub; done || lia).
  assert (Hstart : Rng.getStartPosition (range op) = end_pos (take (Z.to_nat (rangeOffset op)) d)).
  { pose proof Hr as (Hs & _). rewrite (model_position_end d _ Hs) at 1. destruct (range_offset d (range op)) as [<- _]. by rewrite Ho. }
  assert (Hend : Rng.getEndPosition (range op) = end_pos (take (Z.to_nat (op_end op)) d)).
  { pose proof Hr as (_ & Hs & _). rewrite (model_position_end d _ Hs) at 1. destruct (range_offset d (range op)) as [_ <-]. by rewrite Hoe. }
  assert (Hsplit : take (Z.to_nat (rangeOffset op)) d = take (Z.to_nat p) d ++ g) by (symmetry; apply take_then_sub; lia).
  set (start := match prev with Some _ => _ | None => _ end). assert (Est : start = (lineNumber (end_pos (a ++ g)), Position.column (end_pos (a ++ g)))).
  { unfold start. destruct prev as [[[r l] c]|].
    - destruct Hprev as [Epr Epn]. rewrite (end_pos_app a g) by (by eapply normalized_untorn). rewrite Hsplit, end_pos_app in Hstart.
      2: { eapply normalized_untorn; [exact He|]. apply normalized_parts; (done || lia). }
      unfold end_pos in Epr, Epn. injection Epr as Er1 Er2. injection Epn as -> ->. rewrite Er1, Er2. unfold Rng.getStartPosition in Hstart.
      pose proof (breaks_nonneg g). destruct (Z.eqb_spec (breaks g) 0) as [Eb|Eb]; injection Hstart as Es1 Es2; rewrite Es1, Es2; cbn [lineNumber Position.column].
      + rewrite Z.eqb_refl. f_equal. lia.
      + destruct (Z.eqb_spec (breaks (take (Z.to_nat p) d) + 1) (breaks (take (Z.to_nat p) d) + breaks g + 1)); [lia|]. f_equal. lia.
    - destruct Hprev as [-> ->]. change (take (Z.to_nat 0) d) with (@nil Z) in Hsplit. cbn [app] in *. rewrite Hsplit in Hstart. rewrite <- Hstart. done. }
  rewrite Est. rewrite (inserted_range_ok (a ++ g) (text op)) by (done || (eapply normalized_untorn; [exact He|by apply normalized_app])). f_equal.
  apply (IH ((a ++ g) ++ text op) (op_end op)); try done.
  by repeat apply normalized_app.
Qed.
