(* ===== verification/ApplyEdits.v ===== *)
(** * Applying edits

    [applyEdits] of the text buffer against the text with all edits made at once
    ([EditText.splice]).  The edits are made from the bottom to the top, each by a deletion
    and an insertion in the tree; that the earlier offsets are still right then is what the
    induction over the edits shows. *)

From S2P Require Import Prelude Position TextRange TextChange Length EolCounter Store RbTree RbInsert PtBuffer PtSpan Strings PieceTree PtState PtEdit PtSearch PtInsert PtDelete PtQuery PtLines PtRead PtBuild PtContent TextBuffer TextBuilder EditText EditPositions.

#[local] Open Scope js_scope.
#[local] Arguments Z.eqb : simpl never.
#[local] Arguments Z.ltb : simpl never.
#[local] Arguments Z.gtb : simpl never.
#[local] Arguments Z.leb : simpl never.
#[local] Arguments Z.add : simpl never.
#[local] Arguments Z.sub : simpl never.

Implicit Types (d str : list Z) (F : gmap ptr TreeNode) (b : PieceTreeTextBuffer) (op : IValidatedEditOperation).

(** ** Programs on the buffer *)

Lemma wp_on_pieces {A} (m : P A) b (Q : A -> PieceTreeTextBuffer -> Prop) :
  wp m (pieceTree_ b) (fun a t => Q a (with_pieces t b)) -> wp (on_pieces m) b Q.
Proof. unfold wp, on_pieces. by destruct (m (pieceTree_ b)) as [[a t]|]. Qed.

Lemma with_pieces_id b : with_pieces (pieceTree_ b) b = b.
Proof. by destruct b. Qed.

Lemma wp_on_pieces_read {A} (m : P A) b (Q : A -> PieceTreeTextBuffer -> Prop) :
  wp m (pieceTree_ b) (fun a t => t = pieceTree_ b /\ Q a b) -> wp (on_pieces m) b Q.
Proof. intros Hm. apply wp_on_pieces. eapply wp_mono; [exact Hm|]. intros a t [-> HQ]. by rewrite with_pieces_id. Qed.

(** The buffer stands for the normalized text [d]. *)
Definition holds F b (eol : list Z) d : Prop :=
  represents F (pieceTree_ b) d /\ EOL_ (pieceTree_ b) = eol /\ EOLNormalized_ (pieceTree_ b) = true.

Lemma holds_eol F b eol d : holds F b eol d -> (eol = [10] \/ eol = [13; 10]) /\ normalized eol d.
Proof. intros ((its & _ & _ & _ & _ & _ & _ & _ & He & Hn) & <- & Hnorm). split; [done|by apply Hn]. Qed.

(** The change buffer of the tree. *)
Definition room b : Z := blen (pieceTree_ b).

(** What stays when pieces are edited. *)
Definition same_flags b b' : Prop :=
  BOM_buffer b' = BOM_buffer b /\ mightContainRTL_ b' = mightContainRTL_ b /\
  mightContainUnusualLineTerminators_ b' = mightContainUnusualLineTerminators_ b /\ mightContainNonBasicASCII_ b' = mightContainNonBasicASCII_ b.

#[export] Instance same_flags_preorder : PreOrder same_flags.
Proof. split; [by intros b|]. unfold same_flags. intros b1 b2 b3 (-> & -> & -> & ->) (-> & -> & -> & ->). done. Qed.

(** ** One edit *)

Lemma wp_delete_last F b eol d e r off len :
  holds F b eol (take (Z.to_nat e) d ++ r) -> normalized eol d -> normalized eol r -> 0 <= off -> 0 <= len -> e = off + len -> e <= zlen d ->
  in_crlf d off = false -> room b + 3 < max_buffer ->
  wp (on_pieces (PT.delete off len)) b (fun _ b' => holds F b' eol (take (Z.to_nat off) d ++ r) /\ same_flags b b' /\ room b' <= room b + 3).
Proof.
  intros Hb Hnd Hnr Ho Hl -> He Hc Hroom. destruct (holds_eol _ _ _ _ Hb) as [Heol Hn]. destruct Hb as (Hr & Ee & En).
  assert (Ed : deleted_text (take (Z.to_nat (off + len)) d ++ r) off len = take (Z.to_nat off) d ++ r).
  { unfold deleted_text. rewrite Z.max_r by lia. assert (Hz : zlen (take (Z.to_nat (off + len)) d) = off + len) by (rewrite zlen_take; lia).
    unfold zlen in Hz. rewrite take_app_le by lia. rewrite take_take, drop_app_ge by lia. replace (Z.to_nat off `min` Z.to_nat (off + len))%nat with (Z.to_nat off) by lia.
    f_equal. by replace (Z.to_nat (off + len) - List.length (take (Z.to_nat (off + len)) d))%nat with 0%nat by lia. }
  apply wp_on_pieces. pose proof (zlen_nonneg r). eapply wp_mono.
  - apply (wp_delete_doc F (pieceTree_ b) _ off len Hr); [done|rewrite zlen_app, zlen_take; lia|exact Hroom|].
    intros _. rewrite Ed, Ee. apply normalized_app; [done| |done]. apply normalized_parts; (done || lia).
  - rewrite Ed. intros _ t (H1 & H2 & H3 & H4 & _). split; [|split; [done|exact H4]]. split; [done|]. cbn [pieceTree_ with_pieces]. by rewrite H2, H3.
Qed.

Lemma wp_insert_last F b eol d off r v :
  holds F b eol (take (Z.to_nat off) d ++ r) -> normalized eol d -> normalized eol r -> normalized eol v -> 0 <= off <= zlen d ->
  in_crlf d off = false -> v <> [] -> room b + zlen v + 5 < max_buffer ->
  wp (on_pieces (PT.insert off v true)) b (fun _ b' => holds F b' eol (take (Z.to_nat off) d ++ v ++ r) /\ same_flags b b' /\ room b' <= room b + zlen v + 5).
Proof.
  intros Hb Hnd Hnr Hnv Ho Hc Hv Hroom. destruct (holds_eol _ _ _ _ Hb) as [Heol Hn]. destruct Hb as (Hr & Ee & En).
  assert (Hz : zlen (take (Z.to_nat off) d) = off) by (rewrite zlen_take; lia). pose proof (zlen_nonneg r).
  assert (Ed : inserted_text (take (Z.to_nat off) d ++ r) off v = take (Z.to_nat off) d ++ v ++ r).
  { unfold inserted_text, zlen in *. rewrite take_app_le, drop_app_ge by lia. rewrite take_take, Nat.min_id.
    by replace (Z.to_nat off - List.length (take (Z.to_nat off) d))%nat with 0%nat by lia. }
  apply wp_on_pieces. eapply wp_mono.
  - apply (wp_insert F (pieceTree_ b) _ off v true Hr); [rewrite zlen_app; lia|exact Hv|exact Hroom|].
    intros _. rewrite Ed, Ee. apply normalized_app; [done| |by apply normalized_app]. apply normalized_parts; (done || lia).
  - rewrite Ed. intros _ t (H1 & H2 & H3 & H4 & _). split; [|split; [done|exact H4]]. split; [done|]. cbn [pieceTree_ with_pieces]. by rewrite H2, H3, En.
Qed.

(** ** All the edits *)

Lemma wp_apply_app ops1 ops2 b Q :
  wp (TB.apply_ops ops1) b (fun c1 b1 => wp (TB.apply_ops ops2) b1 (fun c2 b2 => Q (c1 ++ c2) b2)) -> wp (TB.apply_ops (ops1 ++ ops2)) b Q.
Proof.
  revert b Q. induction ops1 as [|op ops1 IH]; intros b Q H; cbn [app TB.apply_ops] in *; [exact H|].
  destruct ((_ =? _) && (_ =? _) && (_ =? _)); [by apply IH|].
  apply wp_bind_inv in H. apply wp_bind. eapply wp_mono; [exact H|]. intros u b1 H1. apply wp_bind_inv in H1. apply wp_bind, IH.
  eapply wp_mono; [exact H1|]. intros c1 b2 H2. eapply wp_mono; [exact H2|]. done.
Qed.

(** An operation that changes nothing is left out; the others are reported. *)
Definition idle op : bool :=
  (startLineNumber (range op) =? endLineNumber (range op)) && (startColumn (range op) =? endColumn (range op)) && (zlen (text op) =? 0).

Definition change_of op : IInternalModelContentChange :=
  mkChange (range op) (rangeLength op) (text op) (rangeOffset op) (forceMoveMarkers op).

Fixpoint ops_room (ops : list IValidatedEditOperation) : Z :=
  match ops with [] => 0 | op :: ops => zlen (text op) + 8 + ops_room ops end.

Lemma ops_room_nonneg ops : 0 <= ops_room ops.
Proof. induction ops as [|op ops IH]; cbn [ops_room]; [lia|]. pose proof (zlen_nonneg (text op)). lia. Qed.

Lemma wp_apply_one F b eol d op r (Q : list IInternalModelContentChange -> PieceTreeTextBuffer -> Prop) :
  holds F b eol (take (Z.to_nat (op_end op)) d ++ r) -> normalized eol d -> normalized eol r -> op_ok eol d op -> room b + zlen (text op) + 8 < max_buffer ->
  (forall b', holds F b' eol (take (Z.to_nat (rangeOffset op)) d ++ text op ++ r) -> same_flags b b' -> room b' <= room b + zlen (text op) + 8 ->
    Q (if idle op then [] else [change_of op]) b') ->
  wp (TB.apply_ops [op]) b Q.
Proof.
  intros Hb Hnd Hnr (Hrng & Ho & He & Ht) Hroom HQ. destruct (model_range_offsets d _ Hrng) as (H1 & H2 & H3 & _). rewrite <- Ho, <- He in *.
  pose proof (zlen_nonneg (text op)) as Hz0. cbn [TB.apply_ops]. fold (idle op). rewrite (wf_Range_id (range op)) by (by destruct Hrng as (_ & _ & ?)). fold (change_of op). destruct (idle op) eqn:Ei.
  - apply wp_ret, HQ; [|done|lia]. unfold idle in Ei. apply andb_true_iff in Ei as [Er Et]. assert (text op = []) as -> by (destruct (text op); [done|]; rewrite zlen_cons in Et; pose proof (zlen_nonneg l); lia).
    assert (rangeOffset op = op_end op) as -> by (rewrite Ho, He; unfold range_start, range_end; apply andb_true_iff in Er as [El Ec]; f_equal; lia). exact Hb.
  - apply wp_bind. apply (wp_mono _ _ (fun _ b' => holds F b' eol (take (Z.to_nat (rangeOffset op)) d ++ text op ++ r) /\ same_flags b b' /\ room b' <= room b + zlen (text op) + 8)).
    2: { intros _ b' (G1 & G2 & G3). apply wp_bind, wp_ret, wp_ret. apply HQ; done. }
    assert (Hdel : wp (on_pieces (PT.delete (rangeOffset op) (rangeLength op))) b
      (fun _ b' => holds F b' eol (take (Z.to_nat (rangeOffset op)) d ++ r) /\ same_flags b b' /\ room b' <= room b + 3)).
    { apply (wp_delete_last F b eol d (op_end op)); try done; unfold op_end in *; lia. }
    rewrite Z.gtb_ltb. destruct (Z.ltb_spec 0 (zlen (text op))) as [Hp|Hp].
    + apply wp_bind. eapply wp_mono; [exact Hdel|]. intros _ b1 (G1 & G2 & G3).
      eapply wp_mono; [apply (wp_insert_last F b1 eol d (rangeOffset op) r (text op)); try done; [lia|intros Hnil; by rewrite Hnil in Hp|lia]|].
      intros _ b2 (K1 & K2 & K3). split; [done|]. split; [by etrans|lia].
    + assert (text op = []) as Et by (destruct (text op); [done|]; rewrite zlen_cons in Hp; pose proof (zlen_nonneg l); lia). rewrite Et.
      eapply wp_mono; [exact Hdel|]. intros _ b1 (G1 & G2 & G3). split; [done|]. split; [done|]. change (zlen []) with 0. lia.
Qed.

(** Made from the bottom to the top, the edits are made all at once. *)
Lemma wp_apply_rev F b eol d p ops :
  holds F b eol d -> Forall (op_ok eol d) ops -> chain eol d p ops -> 0 <= p -> in_crlf d p = false -> room b + ops_room ops < max_buffer ->
  wp (TB.apply_ops (rev ops)) b (fun cs b' => holds F b' eol (take (Z.to_nat p) d ++ splice d p ops) /\ same_flags b b' /\
    room b' <= room b + ops_room ops /\ cs = change_of <$> rev (filter (fun op => idle op = false) ops)).
Proof.
  intros Hb Hok. destruct (holds_eol _ _ _ _ Hb) as [Heol Hn]. revert p. induction Hok as [|op ops Ho Hok IH]; intros p Hch Hp Hc Hroom.
  - cbn [rev splice TB.apply_ops]. apply wp_ret. rewrite take_drop. cbn [ops_room]. split; [exact Hb|]. split; [done|]. split; [lia|done].
  - cbn [ops_room rev] in *. pose proof (zlen_nonneg (text op)). pose proof (ops_room_nonneg ops). cbn [chain] in Hch. destruct Hch as (H1 & H2 & H3 & H4 & H5 & H6 & H7).
    apply wp_apply_app. assert (0 <= op_end op) as H8 by (unfold op_end; lia). eapply wp_mono; [apply (IH (op_end op)); [exact H7|exact H8|exact H5|lia]|].
    intros c1 b1 (G1 & G2 & G3 & ->). apply (wp_apply_one F b1 eol d op (splice d (op_end op) ops)); try done; [by apply normalized_splice|lia|].
    intros b2 K1 K2 K3. rewrite take_splice by lia. split; [done|]. split; [by etrans|]. split; [lia|].
    rewrite filter_cons. destruct (idle op) eqn:Ei; [rewrite decide_False by done; by rewrite app_nil_r|]. rewrite decide_True by done. cbn [rev]. by rewrite fmap_app.
Qed.

(** ** Validation *)

Lemma holds_here F b eol d p : holds F b eol d -> model_position d p -> wp (TB.getOffsetAt (lineNumber p) (Position.column p)) b (fun r b' => b' = b /\ r = offset_at d p).
Proof.
  intros ((its & Hs & Hg & <- & _) & _) Hp. pose proof (model_position_valid _ _ Hp) as Hv. destruct (valid_position_start _ _ _ Hv) as (st & _ & _ & Hz).
  apply wp_on_pieces_read. eapply wp_mono; [apply (wp_getOffsetAt F (pieceTree_ b) its); [done|done|apply Hv]|]. intros r t [-> ->]. split; [done|]. split; [done|].
  unfold offset_at. destruct (doc its); [change (zlen []) with 0 in Hz; lia|done].
Qed.

Lemma wp_getEndOfLine F b eol d e (Q : list Z -> PieceTreeTextBuffer -> Prop) : holds F b eol d ->
  Q (match e with TextDefined => eol | PreferLF => [10] | PreferCRLF => [13; 10] end) b -> wp (TB.getEndOfLine e) b Q.
Proof. intros (_ & He & _) HQ. destruct e; [|apply wp_ret, HQ..]. apply wp_on_pieces_read. unfold PT.getEOL. apply wp_gets. split; [done|]. by rewrite He. Qed.

Lemma wp_valueLength F b eol d r : holds F b eol d -> model_range d r ->
  wp (TB.getValueLengthInRange r TextDefined) b (fun v b' => b' = b /\ v = range_end d r - range_start d r).
Proof.
  intros Hb Hr. pose proof Hr as (Hp & Hq & _). unfold TB.getValueLengthInRange, Rng.isEmpty.
  destruct (model_position_line d _ Hp) as (st & _ & _ & Hst & _ & _ & _ & Ho & _). destruct (model_position_line d _ Hq) as (st' & _ & _ & Hst' & _ & _ & _ & Ho' & _).
  destruct (range_offset d r) as [-> ->]. cbn [Rng.getStartPosition Rng.getEndPosition lineNumber Position.column] in *.
  destruct (Z.eqb_spec (startLineNumber r) (endLineNumber r)) as [El|El]; cbn [andb].
  - rewrite El in Hst. rewrite Hst in Hst'. injection Hst' as ->. destruct (Z.eqb_spec (startColumn r) (endColumn r)) as [Ec|Ec]; apply wp_ret; (split; [done|lia]).
  - apply wp_bind. eapply wp_mono; [apply (holds_here F b eol d (Rng.getStartPosition r) Hb Hp)|]. intros o b1 [-> ->].
    apply wp_bind. eapply wp_mono; [apply (holds_here F b eol d (Rng.getEndPosition r) Hb Hq)|]. intros o' b1 [-> ->].
    apply wp_bind, (wp_getEndOfLine F b eol d); [done|]. apply wp_bind, (wp_getEndOfLine F b eol d TextDefined); [done|]. rewrite Z.eqb_refl. cbn [negb]. apply wp_ret. split; [done|].
    unfold Rng.getStartPosition, Rng.getEndPosition. lia.
Qed.

Lemma wp_valueInRange F b eol d r : holds F b eol d -> model_range d r ->
  wp (TB.getValueInRange r TextDefined) b (fun v b' => b' = b /\ v = sub d (range_start d r) (range_end d r)).
Proof.
  intros Hb Hr. unfold TB.getValueInRange. destruct (Rng.isEmpty r) eqn:Ee.
  - apply wp_ret. split; [done|]. unfold Rng.isEmpty in Ee. apply andb_true_iff in Ee as [E1 E2]. unfold range_start, range_end.
    replace (endLineNumber r) with (startLineNumber r) by lia. replace (endColumn r) with (startColumn r) by lia. by rewrite sub_same.
  - apply wp_bind, (wp_getEndOfLine F b eol d TextDefined); [done|]. destruct (holds_eol _ _ _ _ Hb) as [He _]. destruct Hb as (Hr1 & E & En). apply wp_on_pieces_read.
    eapply wp_mono; [apply (wp_getValueInRange F (pieceTree_ b) d r (Some eol) Hr1 (model_range_valid _ _ Hr))|]. intros v t [-> ->]. split; [done|]. split; [done|].
    assert (asked_eol (pieceTree_ b) (Some eol) = None) as ->; [|done]. unfold asked_eol. destruct eol as [|c eol]; [done|]. rewrite En, E, bool_decide_eq_false_2; [done|]. intros Hne. by apply Hne.
Qed.

Fixpoint flags_after (f : TB.Flags) (raws : list ValidAnnotatedEditOperation) : TB.Flags :=
  match raws with [] => f | raw :: raws => flags_after (TB.update_flags f raw) raws end.

Lemma wp_validate_ops F b eol d raws i f : holds F b eol d -> Forall (fun raw => model_range d (raw_range raw)) raws ->
  wp (TB.validate_ops i raws f) b (fun r b' => b' = b /\ r = (validated_from eol d i raws, flags_after f raws)).
Proof.
  intros Hb Hr. revert i f. induction Hr as [|raw raws Hr Hrs IH]; intros i f; cbn [TB.validate_ops]; [by apply wp_ret|].
  apply wp_bind. unfold TB.validate_op. apply wp_bind, (wp_getEndOfLine F b eol d TextDefined); [done|].
  cbn [validated_from]. unfold validated. destruct (TB.valid_text eol (raw_text raw)) as [[[t n] fl] l].
  apply wp_bind. pose proof Hr as (Hp & _). eapply wp_mono; [apply (holds_here F b eol d (Rng.getStartPosition (raw_range raw)) Hb Hp)|]. intros o b1 [-> ->].
  apply wp_bind. eapply wp_mono; [apply (wp_valueLength F b eol d (raw_range raw) Hb Hr)|]. intros len b1 [-> ->]. apply wp_ret.
  apply wp_bind. eapply wp_mono; [apply IH|]. intros [os f'] b1 [-> E]. injection E as -> ->. apply wp_ret. by destruct (range_offset d (raw_range raw)) as [<- _].
Qed.

(** ** Reduction *)

Lemma between_range d q r : model_position d q -> model_range d r -> pos_le q (Rng.getStartPosition r) ->
  Rng.new_Range (lineNumber q) (Position.column q) (startLineNumber r) (startColumn r) = mkRange (lineNumber q) (Position.column q) (startLineNumber r) (startColumn r) /\
  model_range d (mkRange (lineNumber q) (Position.column q) (startLineNumber r) (startColumn r)).
Proof.
  intros Hq (Hs & _) Hle. assert (Hw : range_wf (mkRange (lineNumber q) (Position.column q) (startLineNumber r) (startColumn r))) by exact Hle.
  split; [by apply (wf_Range_id (mkRange (lineNumber q) (Position.column q) (startLineNumber r) (startColumn r)))|]. split; [by destruct q|]. split; [exact Hs|exact Hw].
Qed.

Lemma wp_single_text F b eol d ops q acc : holds F b eol d -> model_position d q -> Forall (op_ok eol d) ops -> apart_ranges (range <$> ops) ->
  Forall (fun op => pos_le q (Rng.getStartPosition (range op))) ops ->
  wp (TB.single_text ops (lineNumber q) (Position.column q) acc) b (fun r b' => b' = b /\ r = acc ++ middle d (offset_at d q) ops).
Proof.
  intros Hb Hq Hok. revert q acc Hq. induction Hok as [|op ops (Hr & Ho & He & Ht) Hok IH]; intros q acc Hq Ha Hle; cbn [TB.single_text middle]; [apply wp_ret; by rewrite app_nil_r|].
  apply Forall_cons in Hle as [Hle _]. destruct (between_range d q (range op) Hq Hr Hle) as [-> Hbr]. rewrite fmap_cons in Ha. apply StronglySorted_inv in Ha as [Ha Hh].
  apply wp_bind. eapply wp_mono; [apply (wp_valueInRange F b eol d _ Hb Hbr)|]. intros v b1 [-> ->]. pose proof Hr as (_ & Hq' & _).
  eapply wp_mono; [apply (IH (Rng.getEndPosition (range op))); [exact Hq'|exact Ha|by rewrite Forall_fmap in Hh]|]. intros r b1 [-> ->]. split; [done|].
  rewrite He, Ho. rewrite <- !app_assoc. done.
Qed.

(** An edit that leaves no automatic white space behind. *)
Definition plain op : Prop := isAutoWhitespaceEdit op = false.

(** The edits that are made in place of [ops]. *)
Record stands_for (eol : list Z) d (ops ops' : list IValidatedEditOperation) : Prop := {
  sf_ok : Forall (op_ok eol d) ops';
  sf_apart : apart_ranges (range <$> ops');
  sf_chain : chain eol d 0 ops';
  sf_splice : splice d 0 ops' = splice d 0 ops;
  sf_room : ops_room ops' <= zlen d + ops_room ops;
  sf_order : js_sort TB.sortOpsDescending ops' = rev ops';
  sf_counted : Forall counted ops';
  sf_strict : strict_ranges (range <$> ops) -> strict_ranges (range <$> ops');
  sf_plain : Forall plain ops -> Forall plain ops';
  sf_single : ops' = ops \/ exists op a z, ops' = [op] /\ a ∈ ops /\ z ∈ ops /\ rangeOffset op = rangeOffset a /\ op_end op = op_end z;
  sf_few : zlen ops < 1000 -> ops' = ops;
  sf_idle : Forall (fun op => idle op = true) ops' -> Forall (fun op => idle op = true) ops }.

(** A stretch that is empty and gets no text has nothing but idle edits. *)
Lemma middle_nil d p ops : middle d p ops = [] -> Forall (fun op => text op = []) ops.
Proof.
  revert p. induction ops as [|op ops IH]; intros p E; [constructor|]. cbn [middle] in E. apply app_eq_nil in E as [_ E]. apply app_eq_nil in E as [Et E]. constructor; [exact Et|by eapply IH].
Qed.

Lemma apart_last (rs : list Range) z : apart_ranges rs -> Forall range_wf rs -> last rs = Some z -> Forall (fun r => pos_le (Rng.getEndPosition r) (Rng.getEndPosition z)) rs.
Proof.
  induction rs as [|r rs IH]; intros Ha Hw Hl; [constructor|]. apply StronglySorted_inv in Ha as [Ha Hh]. apply Forall_cons in Hw as [Hr Hw]. destruct rs as [|r' rs]; [injection Hl as <-; by repeat constructor|].
  specialize (IH Ha Hw Hl). constructor; [|exact IH]. apply Forall_cons in Hh as [Hh _]. apply Forall_cons in Hw as [Hw _]. apply Forall_cons in IH as [IH _]. cbv beta in *. etrans; [exact Hh|]. etrans; [exact Hw|exact IH].
Qed.

Lemma idle_stretch d p op0 ops last_ : let all := op0 :: ops in
  apart_ranges (range <$> all) -> Forall (fun op => range_wf (range op)) all -> last all = Some last_ -> middle d p all = [] ->
  Rng.getStartPosition (range op0) = Rng.getEndPosition (range last_) -> Forall (fun op => idle op = true) all.
Proof.
  intros all Ha Hw Hl Ht E. pose proof (middle_nil d p all Ht) as Htxt. assert (Hwf : Forall range_wf (range <$> all)) by (by rewrite Forall_fmap).
  pose proof (apart_last (range <$> all) (range last_) Ha Hwf ltac:(by rewrite fmap_last, Hl)) as Hend. rewrite Forall_fmap in Hend.
  assert (Hstart : Forall (fun op => pos_le (Rng.getStartPosition (range op0)) (Rng.getStartPosition (range op))) all).
  { apply Forall_cons in Hw as [Hw0 _]. constructor; [reflexivity|]. change (apart_ranges (range op0 :: (range <$> ops))) in Ha. apply StronglySorted_inv in Ha as [_ Hh]. rewrite Forall_fmap in Hh. eapply Forall_impl; [exact Hh|].
    intros op Hle. cbv beta in *. etrans; [exact Hw0|exact Hle]. }
  rewrite Forall_forall in *. intros op Hin. specialize (Htxt op Hin). specialize (Hend op Hin). specialize (Hstart op Hin). specialize (Hw op Hin). cbv beta in *. rewrite E in Hstart.
  unfold idle. rewrite Htxt. unfold compose, range_wf, pos_le, Rng.getStartPosition, Rng.getEndPosition in *. cbn [lineNumber Position.column] in *. change (zlen (@nil Z)) with 0. lia.
Qed.

Lemma apart_chain eol d ops : Forall (op_ok eol d) ops -> apart_ranges (range <$> ops) -> chain eol d 0 ops.
Proof.
  intros Hok Ha. apply ops_chain; [done|done|apply zlen_nonneg|]. eapply Forall_impl; [exact Hok|]. intros op (Hr & -> & _). destruct (model_range_offsets d _ Hr). lia.
Qed.

Lemma texts_room ops : texts_length ops <= ops_room ops.
Proof. induction ops as [|op ops IH]; cbn [texts_length ops_room]; lia. Qed.

Lemma ops_wf eol d ops : Forall (op_ok eol d) ops -> Forall (fun op => range_wf (range op)) ops.
Proof. intros H. eapply Forall_impl; [exact H|]. intros op ((_ & _ & Hw) & _). exact Hw. Qed.

Lemma wp_single F b eol d op0 ops last_ : let all := op0 :: ops in
  1000 <= zlen all -> holds F b eol d -> Forall (op_ok eol d) all -> apart_ranges (range <$> all) -> last all = Some last_ ->
  wp (TB.toSingleEditOperation all op0 last_) b (fun op b' => b' = b /\ stands_for eol d all [op]).
Proof.
  intros all Hmany Hb Hok Ha Hl. pose proof (apart_chain _ _ _ Hok Ha) as Hch. pose proof Hok as [(Hr0 & Ho0 & He0 & Ht0) Hok1]%Forall_cons.
  assert (Hlin : last_ ∈ all) by (by apply last_Some_elem_of). pose proof Hok as Hok2. rewrite Forall_forall in Hok2. destruct (Hok2 _ Hlin) as (Hrl & Hol & Hel & Htl).
  assert (Hw : model_range d (mkRange (startLineNumber (range op0)) (startColumn (range op0)) (endLineNumber (range last_)) (endColumn (range last_)))).
  { apply (whole_range d (range op0) (range last_) (range <$> ops)); [done|done|exact Ha|]. rewrite <- fmap_cons, fmap_last. change (op0 :: ops) with all. by rewrite Hl. }
  destruct (holds_eol _ _ _ _ Hb) as [Heol Hn]. unfold TB.toSingleEditOperation.
  pose proof (wf_Range_id _ (proj2 (proj2 Hw))) as Hnew. cbn [startLineNumber startColumn endLineNumber endColumn] in Hnew. rewrite Hnew. clear Hnew. set (whole := mkRange _ _ _ _) in *.
  assert (Hs : Forall (fun op => pos_le (Rng.getStartPosition (range op0)) (Rng.getStartPosition (range op))) all).
  { constructor; [reflexivity|]. change (apart_ranges (range op0 :: (range <$> ops))) in Ha. apply StronglySorted_inv in Ha as [_ Hh]. rewrite Forall_fmap in Hh. eapply Forall_impl; [exact Hh|].
    intros op Hle. destruct Hr0 as (_ & _ & Hw0). etrans; [exact Hw0|exact Hle]. }
  apply wp_bind. pose proof Hr0 as (Hp0 & _). eapply wp_mono; [apply (wp_single_text F b eol d all (Rng.getStartPosition (range op0)) [] Hb Hp0 Hok Ha Hs)|].
  intros t b1 [-> ->]. cbn [app]. destruct (range_offset d (range op0)) as [<- _]. rewrite <- Ho0. set (t := middle d (rangeOffset op0) all).
  pose proof (countEOL_counts t) as Hcnt. destruct (countEOL t) as [[[n fl] l] k]. pose proof Hw as (Hws & _). apply wp_bind. eapply wp_mono; [apply (holds_here F b eol d (Rng.getStartPosition whole) Hb Hws)|]. intros o b1 [-> ->].
  apply wp_bind. eapply wp_mono; [apply (wp_valueLength F b eol d whole Hb Hw)|]. intros len b1 [-> ->]. apply wp_ret. split; [done|].
  destruct (model_range_offsets d _ Hr0) as (H1 & H2 & H3 & H4). rewrite <- Ho0 in *. cbn [all chain] in Hch. destruct Hch as (_ & C2 & C3 & C4 & C5 & C6 & C7).
  assert (Hch : chain eol d (rangeOffset op0) all) by (cbn [all chain]; repeat split; (done || lia)).
  assert (Hend : range_end d whole = last_end 0 all) by (rewrite (last_end_last 0 all last_ Hl), Hel; done).
  assert (Hoff : offset_at d (Rng.getStartPosition whole) = rangeOffset op0) by (rewrite Ho0; done).
  set (op := mkEdit _ _ _ _ _ _ _ _ _ _ _). assert (Hop : op_ok eol d op).
  { unfold op_ok, op_end, op. cbn [range rangeOffset rangeLength text]. split; [exact Hw|]. split; [done|]. split; [unfold offset_at; rewrite (proj1 (range_offset d whole)); unfold offset_at; lia|].
    apply (normalized_middle eol d); [done|done|lia|done|exact Hch]. }
  split.
  - by constructor.
  - by repeat constructor.
  - apply apart_chain; [by constructor|by repeat constructor].
  - cbn [splice]. rewrite splice_middle. cbn [all middle last_end]. assert (Et : text op = t) by done. rewrite Et. unfold t, all. cbn [middle]. rewrite sub_same. cbn [app].
    destruct Hop as (_ & Eo & Ee & _). assert (rangeOffset op = rangeOffset op0) as -> by exact Hoff. rewrite Ee. change (range op) with whole. rewrite Hend. by rewrite <- !app_assoc.
  - cbn [ops_room]. assert (Et : text op = t) by done. rewrite Et. pose proof (middle_length eol d (rangeOffset op0) all ltac:(lia) Hch) as Hm. fold t in Hm. pose proof (texts_room ops). cbn [all texts_length ops_room] in *.
    lia.
  - done.
  - by constructor.
  - intros _. by repeat constructor.
  - intros _. by repeat constructor.
  - right. exists op, op0, last_. split; [done|]. split; [by left|]. split; [done|]. split; [exact Hoff|]. destruct Hop as (_ & _ & -> & _). change (range op) with whole. by rewrite Hend, (last_end_last 0 all last_ Hl).
  - intros Hfew. lia.
  - intros Hi. apply Forall_inv in Hi. unfold idle in Hi. apply andb_true_iff in Hi as [Hi1 Hi2]. apply (idle_stretch d (rangeOffset op0) op0 ops last_); [exact Ha|by apply (ops_wf eol d)|exact Hl| |].
    + change (text op) with t in Hi2. by apply zlen_nil_inv, Z.eqb_eq, Hi2.
    + change (range op) with whole in Hi1. unfold whole in Hi1. cbn [startLineNumber startColumn endLineNumber endColumn] in Hi1. unfold Rng.getStartPosition, Rng.getEndPosition. f_equal; lia.
Qed.

Lemma wp_reduce F b eol d ops : holds F b eol d -> Forall (op_ok eol d) ops -> Forall counted ops -> apart_ranges (range <$> ops) -> js_sort TB.sortOpsDescending ops = rev ops ->
  wp (TB.reduceOperations ops) b (fun ops' b' => b' = b /\ stands_for eol d ops ops').
Proof.
  intros Hb Hok Hcnt Ha Hs. unfold TB.reduceOperations. destruct (Z.ltb_spec (zlen ops) 1000) as [_|Hl].
  - apply wp_ret. split; [done|]. split; try done; [by apply apart_chain| |by left]. pose proof (zlen_nonneg d). lia.
  - destruct ops as [|op0 ops]; [change (zlen (@nil IValidatedEditOperation)) with 0 in Hl; lia|]. cbn [head]. destruct (last (op0 :: ops)) as [last_|] eqn:El.
    2: { apply last_None in El. done. }
    apply wp_bind. eapply wp_mono; [by apply (wp_single F b eol d op0 ops last_)|]. intros op b1 [-> H]. by apply wp_ret.
Qed.

(** ** The whole of [applyEdits] *)

Lemma wp_reverse_ops F b eol d ops ranges delta : holds F b eol d -> Forall (op_ok eol d) ops ->
  wp (TB.reverse_ops ops ranges delta) b (fun r b' => b' = b /\ r = reversed d delta ops ranges).
Proof.
  intros Hb Hok. revert ranges delta. induction Hok as [|op ops (Hr & Ho & He & Ht) Hok IH]; intros ranges delta; destruct ranges as [|rg ranges]; cbn [TB.reverse_ops reversed]; try by apply wp_ret.
  apply wp_bind. eapply wp_mono; [apply (wp_valueInRange F b eol d _ Hb Hr)|]. intros v b1 [-> ->]. rewrite <- Ho, <- He.
  apply wp_bind. eapply wp_mono; [apply IH|]. intros rs b1 [-> ->]. by apply wp_ret.
Qed.

Lemma ops_room_perm ops ops' : ops ≡ₚ ops' -> ops_room ops = ops_room ops'.
Proof. induction 1; cbn [ops_room]; lia. Qed.

(** Replaying the changes from the first to the last. *)
Lemma replay_rev eol d p ops : Forall (op_ok eol d) ops -> chain eol d p ops -> 0 <= p ->
  foldl replay d (change_of <$> rev (filter (fun op => idle op = false) ops)) = take (Z.to_nat p) d ++ splice d p ops.
Proof.
  intros Hok. revert p. induction Hok as [|op ops (Hr & Ho & He & Ht) Hok IH]; intros p Hch Hp; [cbn; by rewrite take_drop|].
  cbn [chain] in Hch. destruct Hch as (H1 & H2 & H3 & H4 & H5 & H6 & H7). rewrite take_splice by lia. assert (Hoe : 0 <= op_end op) by (unfold op_end; lia). specialize (IH (op_end op) H7 Hoe).
  rewrite filter_cons. destruct (idle op) eqn:Ei.
  - rewrite decide_False, IH by done. apply andb_true_iff in Ei as [[El Ec]%andb_true_iff Et]. assert (text op = []) as -> by (destruct (text op); [done|]; rewrite zlen_cons in Et; pose proof (zlen_nonneg l); lia).
    replace (rangeOffset op) with (op_end op); [done|]. rewrite Ho, He. unfold range_start, range_end. f_equal; lia.
  - rewrite decide_True by done. cbn [rev]. rewrite fmap_app, foldl_app, IH. cbn [fmap list_fmap foldl]. unfold replay, change_of. cbn [change_rangeOffset change_text change_rangeLength].
    fold (op_end op). assert (Hz : zlen (take (Z.to_nat (op_end op)) d) = op_end op) by (rewrite zlen_take; lia). unfold zlen in Hz.
    rewrite take_app_le, take_take by (unfold op_end in *; lia). rewrite drop_app_ge by lia.
    replace (Z.to_nat (op_end op) - List.length (take (Z.to_nat (op_end op)) d))%nat with 0%nat by lia.
    by replace (Z.to_nat (rangeOffset op) `min` Z.to_nat (op_end op))%nat with (Z.to_nat (rangeOffset op)) by (unfold op_end; lia).
Qed.

Lemma apart_check eol d raws ops : eol = [10] \/ eol = [13; 10] -> Forall (fun raw => model_range d (raw_range raw)) raws ->
  ops = js_sort TB.sortOpsAscending (validated_from eol d 0 raws) ->
  Forall (op_ok eol d) ops /\ Forall counted ops /\ (range <$> ops) ≡ₚ (raw_range <$> raws) /\ StronglySorted (fun a c => TB.sortOpsAscending a c <= 0) ops /\
  js_sort TB.sortOpsDescending ops = rev ops.
Proof.
  intros He Hr ->. split; [rewrite js_sort_perm; by apply validated_all|]. split; [rewrite js_sort_perm; by apply validated_counts|]. split; [by rewrite js_sort_perm, validated_ranges|].
  split; [apply js_sort_sorted; [exact asc_total|exact asc_trans]|]. apply desc_rev. by apply validated_NoDup.
Qed.

(** What [applyEdits] gives back and leaves, the edits being [ops]. *)
Record applied F b eol d (ops : list IValidatedEditOperation) (touching undo : bool) (r : ApplyEditsResult) b' : Prop := {
  ap_holds : holds F b' eol (splice d 0 ops);
  ap_BOM : BOM_buffer b' = BOM_buffer b;
  ap_room : room b' <= room b + ops_room ops;
  ap_changes : changes r = change_of <$> rev (filter (fun op => idle op = false) ops);
  ap_reverse : reverseEdits r = if undo then
      let rs := reversed d 0 ops (TB.getInverseEditRanges ops) in Some (if negb touching then js_sort (fun a c => rev_sortIndex a - rev_sortIndex c) rs else rs)
    else None;
  ap_trim : trimAutoWhitespaceLineNumbers r = None }.

Lemma validated_plain eol d i raws : eol = [10] \/ eol = [13; 10] -> Forall (fun raw => raw_isAutoWhitespaceEdit raw = false) raws -> Forall plain (validated_from eol d i raws).
Proof.
  intros He H. revert i. induction H as [|raw raws Hr H IH]; intros i; [constructor|]. cbn [validated_from]. constructor; [|apply IH].
  unfold plain, validated. destruct (TB.valid_text eol (raw_text raw)) as [[[t n] fl] l]. exact Hr.
Qed.

Lemma wp_no_trim b ops ranges : Forall plain ops -> wp (TB.trim_candidates ops ranges) b (fun cs b' => b' = b /\ cs = []).
Proof.
  intros H. revert ranges. induction H as [|op ops Hp H IH]; intros [|rg ranges]; cbn [TB.trim_candidates]; try by apply wp_ret. unfold plain in Hp. rewrite Hp. cbn [andb].
  apply wp_bind, wp_ret, wp_bind. eapply wp_mono; [apply IH|]. intros cs b' [-> ->]. by apply wp_ret.
Qed.

Lemma wp_applyEdits_any F b eol d raws record undo : let ops := js_sort TB.sortOpsAscending (validated_from eol d 0 raws) in
  holds F b eol d -> Forall (fun raw => model_range d (raw_range raw)) raws -> ~ overlapping (raw_range <$> raws) ->
  room b + zlen d + ops_room ops < max_buffer -> (record = true -> Forall (fun raw => raw_isAutoWhitespaceEdit raw = false) raws) ->
  wp (TB.applyEdits raws record undo) b (fun r b' => exists ops' touching, apart_ranges (range <$> ops) /\ stands_for eol d ops ops' /\
    TB.check_overlap ops false = Ok touching /\ applied F b eol d ops' touching undo r b').
Proof.
  intros ops Hb Hr Hno Hroom Hrec. destruct (holds_eol _ _ _ _ Hb) as [He Hn]. destruct (apart_check eol d raws ops He Hr eq_refl) as (Hok & Hcnt & Hp & Hs & Hd).
  unfold TB.applyEdits. apply wp_bind, wp_gets. change (id b) with b. apply wp_bind. eapply wp_mono; [apply (wp_validate_ops F b eol d raws 0 _ Hb Hr)|].
  intros [os f] b1 [-> E]. injection E as -> ->. set (f := flags_after _ raws). fold ops.
  destruct (TB.check_overlap ops false) as [touching|e] eqn:Ec.
  2: { destruct (check_overlap_throw ops false e Hs (ops_wf _ _ _ Hok) Ec) as [_ Hov]. destruct Hno. by rewrite <- Hp. }
  pose proof (check_overlap_apart ops false touching (ops_wf _ _ _ Hok) Ec) as Ha. apply wp_bind, wp_ret, wp_bind.
  eapply (wp_mono _ _ (fun ops' b' => b' = b /\ stands_for eol d ops ops')).
  { destruct (TB.canReduce f); [by apply (wp_reduce F)|]. apply wp_ret. split; [done|]. split; try done; [by apply apart_chain| |by left]. pose proof (zlen_nonneg d). lia. }
  intros ops' b1 [-> Hsf]. pose proof Hsf as [Hok' Ha' Hch' Hsp' Hroom' Hd' _ _ Hpl].
  assert (Hplain : record = true -> Forall plain ops') by (intros Er; apply Hpl; unfold ops; rewrite js_sort_perm; by apply validated_plain, Hrec).
  set (ranges := if undo || record then TB.getInverseEditRanges ops' else []). apply wp_bind. apply (wp_mono _ _ (fun cs b' => b' = b /\ cs = [])).
  { destruct record; [|by apply wp_ret]. by apply wp_no_trim, Hplain. }
  intros cs0 b1 [-> ->]. apply wp_bind.
  eapply (wp_mono _ _ (fun rs b' => b' = b /\ rs = if undo then
      let rs := reversed d 0 ops' (TB.getInverseEditRanges ops') in Some (if negb touching then js_sort (fun a c => rev_sortIndex a - rev_sortIndex c) rs else rs)
    else None)).
  { destruct undo; [|by apply wp_ret]. apply wp_bind. eapply wp_mono; [apply (wp_reverse_ops F b eol d ops' ranges 0 Hb Hok')|]. intros rs b1 [-> ->]. by apply wp_ret. }
  intros rs b1 [-> Ers]. apply wp_bind, wp_modify, wp_bind. unfold TB.doApplyEdits. rewrite Hd'. set (b1 := with_flags _ _ _ b).
  assert (Hb1 : holds F b1 eol d) by exact Hb. eapply wp_mono; [apply (wp_apply_rev F b1 eol d 0 ops' Hb1 Hok' Hch' ltac:(lia))|].
  { unfold in_crlf. rewrite andb_false_iff. left. done. }
  { change (room b1) with (room b). lia. }
  intros cs b2 (G1 & (G2 & _) & G3 & ->). change (zlen (@nil (Z * list Z)) >? 0) with false. rewrite andb_false_r. apply wp_bind, wp_ret, wp_ret. exists ops', touching. split; [exact Ha|]. split; [exact Hsf|]. split; [done|].
  split; cbn [changes reverseEdits trimAutoWhitespaceLineNumbers]; [by rewrite splice_0 in G1|exact G2|exact G3|done|exact Ers|done].
Qed.

Lemma wp_applyEdits F b eol d raws undo : let ops := js_sort TB.sortOpsAscending (validated_from eol d 0 raws) in
  holds F b eol d -> Forall (fun raw => model_range d (raw_range raw)) raws -> ~ overlapping (raw_range <$> raws) ->
  room b + zlen d + ops_room ops < max_buffer ->
  wp (TB.applyEdits raws false undo) b (fun r b' => exists ops' touching, apart_ranges (range <$> ops) /\ stands_for eol d ops ops' /\
    TB.check_overlap ops false = Ok touching /\ applied F b eol d ops' touching undo r b').
Proof. intros ops Hb Hr Hno Hroom. by apply wp_applyEdits_any. Qed.

Lemma sorted_room eol d i raws : ops_room (js_sort TB.sortOpsAscending (validated_from eol d i raws)) = ops_room (validated_from eol d i raws).
Proof. apply ops_room_perm, js_sort_perm. Qed.

Lemma replay_applied F b eol d ops ops' touching undo r b' : stands_for eol d ops ops' -> applied F b eol d ops' touching undo r b' ->
  foldl replay d (changes r) = splice d 0 ops.
Proof. intros [Hok _ Hch Hsp _ _ _ _ _] Ha. rewrite (ap_changes _ _ _ _ _ _ _ _ _ Ha), <- Hsp. by rewrite (replay_rev eol d 0 ops' Hok Hch). Qed.

(** C7: The edits of a text buffer.  When the buffer stands for a text with one kind of line
    ending, and no two of the edits' ranges overlap, [applyEdits] leaves a buffer that stands
    for the text with all edits made at once, each range being that of the old text; the
    inserted texts get the buffer's line ending, and the byte order mark stays.  The changes
    that are reported turn the old text into the new one when they are made one after another,
    and this holds whether or not the edits were reduced to a single one. *)
Theorem applyEdits_correct F b eol d raws undo :
  holds F b eol d -> Forall (fun raw => model_range d (raw_range raw)) raws -> ~ overlapping (raw_range <$> raws) ->
  room b + zlen d + ops_room (validated_from eol d 0 raws) < max_buffer ->
  wp (TB.applyEdits raws false undo) b (fun r b' =>
    holds F b' eol (edited eol d raws) /\ BOM_buffer b' = BOM_buffer b /\ foldl replay d (changes r) = edited eol d raws).
Proof.
  intros Hb Hr Hno Hroom. eapply wp_mono; [apply (wp_applyEdits F b eol d raws undo Hb Hr Hno); by rewrite sorted_room|].
  intros r b' (ops' & touching & _ & Hsf & _ & Ha). split; [|split; [apply Ha|by eapply replay_applied]].
  unfold edited. rewrite <- (sf_splice _ _ _ _ Hsf). apply Ha.
Qed.

(** A buffer for the two lines [a] and [b], and two edits of it, the later one first. *)
Definition sample_edits : list ValidAnnotatedEditOperation :=
  [mkRawEdit None (mkRange 2 2 2 2) (Some [122]) false false false; mkRawEdit None (mkRange 1 1 1 2) (Some [120; 13; 10; 121]) false false false].

Lemma sample_holds : exists s, PT.insert 0 sample_text true empty_tree = Ok (tt, s) /\
  let b := mkTextBuffer s [] false false false in holds ∅ b [10] sample_text /\ room b <= 8.
Proof.
  pose proof (wp_insert ∅ empty_tree [] 0 sample_text true empty_represents ltac:(by vm_compute) ltac:(done) ltac:(by vm_compute) ltac:(done)) as H1.
  apply wp_run in H1 as ([] & s & E1 & Hs & He & Hn & Hb & _). exists s. split; [exact E1|]. split; [|exact Hb]. split; [exact Hs|]. split; [exact He|exact Hn].
Qed.

Lemma sample_ranges : Forall (fun raw => model_range sample_text (raw_range raw)) sample_edits.
Proof.
  assert (Hp : forall l c, l = 1 \/ l = 2 -> 1 <= c <= 2 -> model_position sample_text (mkPosition l c)).
  { intros l c Hl Hc. split; [cbn; lia|]. destruct Hl as [-> | ->]; [exists [97]|exists [98]]; (split; [done|]); change (zlen [97]) with 1; change (zlen [98]) with 1; cbn; lia. }
  apply Forall_cons. split; [split; [apply (Hp 2 2); lia|split; [apply (Hp 2 2); lia|]]|apply Forall_cons; split; [|constructor]; split; [apply (Hp 1 1); lia|split; [apply (Hp 1 2); lia|]]];
    unfold range_wf, pos_le; cbn; lia.
Qed.

Lemma sample_apart : ~ overlapping (raw_range <$> sample_edits).
Proof.
  rewrite (perm_swap (mkRange 1 1 1 2) (mkRange 2 2 2 2) [] : (raw_range <$> sample_edits) ≡ₚ [mkRange 1 1 1 2; mkRange 2 2 2 2]). apply apart_not_overlapping.
  constructor; [by repeat constructor|]. apply Forall_cons. split; [unfold pos_le; cbn; lia|constructor].
Qed.

Lemma sample_room : zlen sample_text + ops_room (validated_from [10] sample_text 0 sample_edits) = 23.
Proof. done. Qed.

Lemma applyEdits_correct_witness : exists s r b', PT.insert 0 sample_text true empty_tree = Ok (tt, s) /\
  TB.applyEdits sample_edits false true (mkTextBuffer s [] false false false) = Ok (r, b') /\ holds ∅ b' [10] [120; 10; 121; 10; 98; 122].
Proof.
  destruct sample_holds as (s & E & Hb & Hroom). exists s.
  pose proof (applyEdits_correct ∅ _ [10] sample_text sample_edits true Hb sample_ranges sample_apart) as H.
  rewrite <- Z.add_assoc, sample_room in H. specialize (H ltac:(unfold max_buffer; lia)). apply wp_run in H as (r & b' & Er & Hr & _). exists r, b'. split; [exact E|]. split; [exact Er|exact Hr].
Defined.

(** C8: Edits that overlap are refused.  When two of the ranges overlap, [applyEdits] throws
    an error, whichever the order of the edits, and wherever among them the two are. *)
Theorem applyEdits_overlap F b eol d raws record undo :
  holds F b eol d -> Forall (fun raw => model_range d (raw_range raw)) raws -> overlapping (raw_range <$> raws) ->
  TB.applyEdits raws record undo b = Throw OtherError.
Proof.
  intros Hb Hr Hov. destruct (holds_eol _ _ _ _ Hb) as [He _]. set (ops := js_sort TB.sortOpsAscending (validated_from eol d 0 raws)).
  destruct (apart_check eol d raws ops He Hr eq_refl) as (Hok & _ & Hp & Hs & _).
  assert (Hc : TB.check_overlap ops false = Throw OtherError).
  { destruct (TB.check_overlap ops false) as [t|e] eqn:Ec; [exfalso|by destruct (check_overlap_throw ops false e Hs (ops_wf _ _ _ Hok) Ec) as [-> _]].
    apply (apart_not_overlapping (range <$> ops)); [by eapply check_overlap_apart, Ec; apply (ops_wf eol d)|]. by rewrite Hp. }
  unfold TB.applyEdits. unfold mbind at 1, ST_bind at 1, gets. change (id b) with b.
  pose proof (wp_validate_ops F b eol d raws 0 (TB.mkFlags (mightContainRTL_ b) (mightContainUnusualLineTerminators_ b) (mightContainNonBasicASCII_ b) true) Hb Hr) as Hv.
  apply wp_run in Hv as (r & b1 & Ev & -> & ->). unfold mbind at 1, ST_bind at 1. rewrite Ev. fold ops. unfold mbind at 1, ST_bind at 1. by rewrite Hc.
Qed.

Lemma applyEdits_overlap_witness : exists s, PT.insert 0 sample_text true empty_tree = Ok (tt, s) /\
  TB.applyEdits (mkRawEdit None (mkRange 1 1 2 1) None false false false :: sample_edits) false true (mkTextBuffer s [] false false false) = Throw OtherError.
Proof.
  destruct sample_holds as (s & E & Hb & Hroom). exists s. split; [exact E|]. apply (applyEdits_overlap ∅ _ [10] sample_text); [exact Hb| |].
  - constructor; [|exact sample_ranges]. split; [|split]; [split; [cbn; lia|by exists [97]]|split; [cbn; lia|by exists [98]]|unfold range_wf, pos_le; cbn; lia].
  - exists (mkRange 1 1 2 1), (mkRange 1 1 1 2), [mkRange 2 2 2 2]. split; [apply perm_skip, perm_swap|]. unfold overlap, pos_lt. cbn. lia.
Defined.

(** C11: The changes for the undo stack.  The text changes that go with the reverse edits of
    [applyEdits], in the order of their places, rewrite the old text to the new one, in the
    sense in which the compressor of the undo stack composes them. *)
Theorem applyEdits_text_changes F b eol d raws :
  holds F b eol d -> Forall (fun raw => model_range d (raw_range raw)) raws -> ~ overlapping (raw_range <$> raws) ->
  room b + zlen d + ops_room (validated_from eol d 0 raws) < max_buffer ->
  wp (TB.applyEdits raws false true) b (fun r _ => exists reverse inOrder,
    reverseEdits r = Some reverse /\ reverse ≡ₚ inOrder /\ rewrites (rev_textChange <$> inOrder) 0 0 d (edited eol d raws)).
Proof.
  intros Hb Hr Hno Hroom. eapply wp_mono; [apply (wp_applyEdits F b eol d raws true Hb Hr Hno); by rewrite sorted_room|].
  intros r b' (ops' & touching & _ & Hsf & _ & Ha). rewrite (ap_reverse _ _ _ _ _ _ _ _ _ Ha). do 2 eexists. split; [done|]. split; [|].
  - instantiate (1 := reversed d 0 ops' (TB.getInverseEditRanges ops')). destruct (negb touching); [apply js_sort_perm|done].
  - unfold edited. rewrite <- (sf_splice _ _ _ _ Hsf). apply (reversed_rewrites eol d 0 0 ops'); [done|apply Hsf|apply inverse_ranges_length].
Qed.

Lemma applyEdits_text_changes_witness : exists s r b' reverse inOrder, PT.insert 0 sample_text true empty_tree = Ok (tt, s) /\
  TB.applyEdits sample_edits false true (mkTextBuffer s [] false false false) = Ok (r, b') /\
  reverseEdits r = Some reverse /\ reverse ≡ₚ inOrder /\ rewrites (rev_textChange <$> inOrder) 0 0 sample_text [120; 10; 121; 10; 98; 122].
Proof.
  destruct sample_holds as (s & E & Hb & Hroom). exists s.
  pose proof (applyEdits_text_changes ∅ _ [10] sample_text sample_edits Hb sample_ranges sample_apart) as H.
  rewrite <- Z.add_assoc, sample_room in H. specialize (H ltac:(unfold max_buffer; lia)). apply wp_run in H as (r & b' & Er & rev & ord & H1 & H2 & H3).
  exists r, b', rev, ord. split; [exact E|]. split; [exact Er|]. split; [exact H1|]. split; [exact H2|exact H3].
Defined.
