(* ===== verification/UndoEdits.v ===== *)
(** * Undoing edits

    The reverse edits of [applyEdits], applied to the buffer it leaves, give back the old
    text: their ranges are those of the inserted texts in the new text, they do not overlap,
    and [applyEdits] puts them into the order of their places. *)

From S2P Require Import Prelude Position TextRange TextChange Length EolCounter Store RbTree RbInsert PtBuffer PtSpan Strings PieceTree PtState PtEdit PtSearch PtInsert PtDelete PtQuery PtLines PtRead PtBuild PtContent TextBuffer TextBuilder EditText EditPositions ApplyEdits.

#[local] Open Scope js_scope.
#[local] Arguments Z.eqb : simpl never.
#[local] Arguments Z.ltb : simpl never.
#[local] Arguments Z.leb : simpl never.
#[local] Arguments Z.add : simpl never.
#[local] Arguments Z.sub : simpl never.

Implicit Types (d a t eol : list Z) (x y : IReverseSingleEditOperation).

(** ** The places of the reverse edits *)

(** A reverse edit whose range is that of its text change in the new text. *)
Definition placed eol d x : Prop :=
  model_range d (rev_range x) /\ range_start d (rev_range x) = newPosition (rev_textChange x) /\ range_end d (rev_range x) = newEnd (rev_textChange x) /\
  rev_text x = oldText (rev_textChange x) /\ normalized eol (rev_text x).

Lemma new_range_placed eol a m t : eol = [10] \/ eol = [13; 10] -> normalized eol a -> normalized eol m ->
  let d := a ++ m ++ t in let r := pos_range (end_pos a) (end_pos (a ++ m)) in
  model_range d r /\ range_start d r = zlen a /\ range_end d r = zlen (a ++ m).
Proof.
  intros He Ha Hm d r. pose proof (zlen_nonneg a). pose proof (zlen_nonneg m). pose proof (zlen_nonneg t).
  assert (E1 : take (Z.to_nat (zlen a)) d = a) by (unfold zlen; rewrite Nat2Z.id; apply take_app_length).
  assert (Ed : d = (a ++ m) ++ t) by (by unfold d; rewrite app_assoc).
  assert (E2 : take (Z.to_nat (zlen (a ++ m))) d = a ++ m) by (rewrite Ed; unfold zlen; rewrite Nat2Z.id; apply take_app_length).
  assert (Hz : zlen d = zlen a + zlen m + zlen t) by (unfold d; rewrite !zlen_app; lia).
  assert (Hcut : forall o, 0 <= o <= zlen d -> normalized eol (take (Z.to_nat o) d) -> in_crlf d o = false).
  { intros o Ho Hn. rewrite <- in_crlf_torn by done. by eapply normalized_untorn. }
  pose proof (end_pos_range d (zlen a) (zlen (a ++ m)) ltac:(rewrite zlen_app; lia) ltac:(rewrite zlen_app; lia)) as Hr. rewrite E1, E2 in Hr.
  apply Hr; apply Hcut; rewrite ?E1, ?E2, ?zlen_app; try lia; [done|by apply normalized_app].
Qed.

Lemma reversed_placed eol d ops a p : eol = [10] \/ eol = [13; 10] -> normalized eol d -> chain eol d p ops -> 0 <= p -> in_crlf d p = false -> normalized eol a ->
  Forall (placed eol (a ++ splice d p ops)) (reversed d (zlen a - p) ops (new_ranges d a p ops)).
Proof.
  intros He Hn. revert a p. induction ops as [|op ops IH]; intros a p Hch Hp Hc Ha; [constructor|]. cbn [chain] in Hch. destruct Hch as (H1 & H2 & H3 & H4 & H5 & H6 & H7).
  assert (Hob : rangeOffset op <= op_end op) by (unfold op_end; lia). cbn [reversed new_ranges splice]. set (g := sub d p (rangeOffset op)).
  assert (Hng : normalized eol g) by (apply normalized_sub; done || lia). assert (Hnm : normalized eol (a ++ g)) by (by apply normalized_app).
  assert (Hzg : zlen g = rangeOffset op - p) by (unfold g; rewrite zlen_sub; lia).
  set (old := sub d (rangeOffset op) (op_end op)). assert (Hzo : zlen old = op_end op - rangeOffset op) by (unfold old; rewrite zlen_sub; lia).
  assert (Ed : a ++ g ++ text op ++ splice d (op_end op) ops = (a ++ g) ++ text op ++ splice d (op_end op) ops) by (by rewrite <- app_assoc). rewrite Ed. constructor.
  - destruct (new_range_placed eol (a ++ g) (text op) (splice d (op_end op) ops) He Hnm H6) as (R1 & R2 & R3). unfold placed. cbn [rev_range rev_text rev_textChange newPosition oldText].
    unfold newEnd. cbn [newPosition newText]. rewrite !zlen_app in *. split; [exact R1|]. split; [rewrite R2; lia|]. split; [rewrite R3; lia|]. split; [done|].
    apply normalized_sub; (done || lia).
  - specialize (IH ((a ++ g) ++ text op) (op_end op) H7 ltac:(lia) H5 ltac:(by apply normalized_app)). rewrite <- app_assoc in IH at 1.
    replace (zlen ((a ++ g) ++ text op) - op_end op) with (zlen a - p + (zlen (text op) - zlen old)) in IH by (rewrite !zlen_app; lia). exact IH.
Qed.

(** ** Their order *)

Lemma placed_apart eol d l : Forall (placed eol d) l -> StronglySorted (fun e e' => newEnd e <= newPosition e') (rev_textChange <$> l) -> apart_ranges (rev_range <$> l).
Proof.
  induction 1 as [|x l (Hx & Hx1 & Hx2 & _) Hl IH]; intros Hs; [constructor|]. rewrite fmap_cons in *. apply StronglySorted_inv in Hs as [Hs Hh]. constructor; [by apply IH|].
  apply (Forall_fmap rev_textChange) in Hh. apply Forall_fmap. rewrite Forall_forall in *. intros y Hy. specialize (Hh y Hy). destruct (Hl y Hy) as (Hm & Hy1 & Hy2 & _). cbv beta in *.
  destruct Hx as (_ & Hq & _), Hm as (Hp & _). pose proof (offset_lt d _ _ Hp Hq) as Hlt. destruct (range_offset d (rev_range x)) as [_ E1], (range_offset d (rev_range y)) as [E2 _].
  unfold compose in *. unfold pos_lt, pos_le in *. lia.
Qed.

Definition undo_op x : ValidAnnotatedEditOperation := mkRawEdit (rev_identifier x) (rev_range x) (Some (rev_text x)) false false false.

(** The edits that undo are those that are found, whatever their indices. *)
Definition undoes eol d x op : Prop :=
  placed eol d x /\ range op = rev_range x /\ edit_of (swapped (rev_textChange x)) op.

Lemma validated_undoes eol d i x : eol = [10] \/ eol = [13; 10] -> placed eol d x -> undoes eol d x (validated eol d i (undo_op x)).
Proof.
  intros He Hx. split; [exact Hx|]. destruct Hx as (Hr & Hs & Hd & Ht & Hn). destruct (validated_fields eol d i (undo_op x) He) as (_ & F2 & F3 & F4 & F5). split; [exact F2|]. unfold edit_of, swapped, oldEnd, newEnd in *. cbn [oldPosition oldText newText].
  rewrite F3, F4, F5. cbn [undo_op raw_range raw_text default from_option id]. split; [done|]. split; [done|]. rewrite <- Ht. exact Hn.
Qed.

Lemma validated_all_undo eol d i l : eol = [10] \/ eol = [13; 10] -> Forall (placed eol d) l -> Forall2 (undoes eol d) l (validated_from eol d i (undo_op <$> l)).
Proof. intros He Hl. revert i. induction Hl as [|x l Hx Hl IH]; intros i; [constructor|]. rewrite fmap_cons. cbn [validated_from]. constructor; [by apply validated_undoes|apply IH]. Qed.

(** Edits in the order of their places are sorted already. *)
Lemma placed_sorted eol d i l : eol = [10] \/ eol = [13; 10] -> Forall (placed eol d) l -> apart_ranges (rev_range <$> l) ->
  StronglySorted (fun o o' => TB.sortOpsAscending o o' <= 0) (validated_from eol d i (undo_op <$> l)).
Proof.
  intros He Hl. revert i. induction Hl as [|x l Hx Hl IH]; intros i Ha; [constructor|]. rewrite fmap_cons in *. apply StronglySorted_inv in Ha as [Ha Hh]. cbn [validated_from]. constructor; [by apply IH|].
  clear IH Ha. assert (Hall : forall j, i < j -> Forall (fun o' => TB.sortOpsAscending (validated eol d i (undo_op x)) o' <= 0) (validated_from eol d j (undo_op <$> l))); [|apply Hall; lia].
  induction Hl as [|y l Hy Hl IH]; intros j Hj; [constructor|]. rewrite !fmap_cons in *. apply Forall_cons in Hh as [Hxy Hh]. cbn [validated_from]. constructor; [|apply IH; [done|lia]].
  apply asc_keys. destruct (validated_fields eol d i (undo_op x) He) as (I1 & R1 & _), (validated_fields eol d j (undo_op y) He) as (I2 & R2 & _). unfold op_key. rewrite I1, I2, R1, R2.
  cbn [undo_op raw_range keys_le]. destruct Hx as ((_ & _ & Hw) & _), Hy as ((_ & _ & Hw') & _). unfold range_wf, pos_le in *.
  cbn [Rng.getStartPosition Rng.getEndPosition lineNumber Position.column] in *. lia.
Qed.

Lemma sorted_forall2 {A C} (U : A -> C -> Prop) (R : A -> A -> Prop) (S : C -> C -> Prop) l k : Forall2 U l k -> StronglySorted S k ->
  (forall u v c c', U u c -> U v c' -> S c c' -> R u v) -> StronglySorted R l.
Proof.
  intros Hf Hs HR. induction Hf as [|u c l k Hu Hf IH]; [constructor|]. apply StronglySorted_inv in Hs as [Hs Hh]. constructor; [by apply IH|].
  clear IH Hs. induction Hf as [|v c' l k Hv Hf IH]; [constructor|]. apply Forall_cons in Hh as [Hc Hh]. constructor; [by eapply HR|by apply IH].
Qed.

Lemma placed_end eol d x : placed eol d x -> newPosition (rev_textChange x) <= newEnd (rev_textChange x) /\ newEnd (rev_textChange x) = offset_at d (Rng.getEndPosition (rev_range x)).
Proof. intros (_ & _ & He & _). split; [unfold newEnd; pose proof (zlen_nonneg (newText (rev_textChange x))); lia|]. by rewrite <- He. Qed.

(** When no two of them touch, the edits are found in the order of their places, in whatever
    order they come. *)
Lemma undo_order eol d l l' : eol = [10] \/ eol = [13; 10] -> Forall (placed eol d) l ->
  StronglySorted (fun e e' => newEnd e < newPosition e') (rev_textChange <$> l) -> l' ≡ₚ l ->
  Forall2 (undoes eol d) l (js_sort TB.sortOpsAscending (validated_from eol d 0 (undo_op <$> l'))).
Proof.
  intros He Hl Hs Hp. set (ops := js_sort _ _). assert (Hl' : Forall (placed eol d) l') by (by rewrite Hp). pose proof (validated_all_undo eol d 0 l' He Hl') as Hf.
  assert (Hops : validated_from eol d 0 (undo_op <$> l') ≡ₚ ops) by (symmetry; apply js_sort_perm).
  apply Forall2_flip in Hf. destruct (Permutation_Forall2 Hops Hf) as (m & Hm & Hfm). apply Forall2_flip in Hfm. cbv beta in Hfm.
  set (R x y := newEnd (rev_textChange x) <= newEnd (rev_textChange y)).
  assert (Hsm : StronglySorted R m).
  { apply (sorted_forall2 _ R (fun o o' => TB.sortOpsAscending o o' <= 0) m ops Hfm); [apply js_sort_sorted; [exact asc_total|exact asc_trans]|].
    intros u v o o' (Hu & Ru & _) (Hv & Rv & _) Hle. unfold R. rewrite (proj2 (placed_end _ _ _ Hu)), (proj2 (placed_end _ _ _ Hv)). destruct Hu as ((_ & Hu & _) & _), Hv as ((_ & Hv & _) & _).
    apply offset_mono; [done|done|]. apply asc_keys in Hle. unfold op_key in Hle. rewrite Ru, Rv in Hle. cbn [keys_le] in Hle. unfold pos_le. cbn [Rng.getEndPosition lineNumber Position.column]. lia. }
  assert (Hsl : StronglySorted (fun x y => newEnd (rev_textChange x) < newPosition (rev_textChange y)) l).
  { clear - Hs. induction l as [|x l IH]; [constructor|]. rewrite fmap_cons in Hs. apply StronglySorted_inv in Hs as [Hs Hh]. constructor; [by apply IH|]. by apply (Forall_fmap rev_textChange) in Hh. }
  assert (Hml : m ≡ₚ l) by (by rewrite <- Hm). replace l with m; [exact Hfm|].
  apply (StronglySorted_unique_strong R); [|exact Hsm| |exact Hml].
  - intros x y Hx Hy H1 H2. rewrite Hml in Hx. unfold R in *. clear - Hl Hsl Hx Hy H1 H2. induction Hsl as [|z l Hsl IH Hz]; [by apply not_elem_of_nil in Hx|].
    apply Forall_cons in Hl as [Hpz Hl]. rewrite Forall_forall in Hz, Hl. 
    apply elem_of_cons in Hx as [->|Hx]; apply elem_of_cons in Hy as [->|Hy]; [done| | |apply IH; [by rewrite Forall_forall|done|done]].
    + specialize (Hz y Hy). destruct (placed_end _ _ _ (Hl y Hy)). lia.
    + specialize (Hz x Hx). destruct (placed_end _ _ _ (Hl x Hx)). lia.
  - clear - Hl Hsl. induction Hsl as [|z l Hsl IH Hz]; [constructor|]. apply Forall_cons in Hl as [_ Hl]. constructor; [by apply IH|]. rewrite Forall_forall in *. intros y Hy. unfold R.
    destruct (placed_end _ _ _ (Hl y Hy)). specialize (Hz y Hy). lia.
Qed.

(** ** The room they take *)

Fixpoint rev_room (l : list IReverseSingleEditOperation) : Z := match l with [] => 0 | x :: l => zlen (rev_text x) + 8 + rev_room l end.

Lemma undoes_room eol d l ops : Forall2 (undoes eol d) l ops -> ops_room ops = rev_room l.
Proof.
  induction 1 as [|x op l ops (Hx & _ & _ & _ & Et) Hf IH]; [done|]. cbn [ops_room rev_room]. rewrite Et, IH. destruct Hx as (_ & _ & _ & -> & _). done.
Qed.

Lemma reversed_room eol d p delta ops ranges : 0 <= p -> chain eol d p ops -> rev_room (reversed d delta ops ranges) <= zlen d - p + ops_room ops.
Proof.
  revert p delta ranges. induction ops as [|op ops IH]; intros p delta [|r ranges] Hp Hc; cbn [reversed rev_room ops_room]; cbn [chain] in Hc; try lia.
  - destruct Hc as (H1 & H2 & H3 & _). unfold op_end in *. pose proof (ops_room_nonneg ops). pose proof (zlen_nonneg (text op)). lia.
  - destruct Hc as (H1 & H2 & H3 & _ & _ & _ & H7). cbn [rev_text]. assert (H8 : 0 <= op_end op) by (unfold op_end; lia). pose proof (zlen_nonneg (text op)).
    specialize (IH (op_end op) (delta + (zlen (text op) - zlen (sub d (rangeOffset op) (op_end op)))) ranges H8 H7). assert (Hz : zlen (sub d (rangeOffset op) (op_end op)) = op_end op - rangeOffset op) by (rewrite zlen_sub; unfold op_end in *; lia). unfold op_end in *. lia.
Qed.

Lemma rev_room_perm l l' : l ≡ₚ l' -> rev_room l = rev_room l'.
Proof. induction 1; cbn [rev_room]; lia. Qed.

(** ** The text that comes back *)

Lemma reversed_strict eol d delta ops ranges : Forall (op_ok eol d) ops -> strict_ranges (range <$> ops) -> List.length ranges = List.length ops ->
  StronglySorted (fun e e' => oldEnd e < oldPosition e') (rev_textChange <$> reversed d delta ops ranges).
Proof.
  intros Hok. revert delta ranges. induction Hok as [|op ops Hop Hok IH]; intros delta [|r ranges] Hs Hlen; try done; [constructor|]. cbn [reversed]. rewrite !fmap_cons in *.
  apply StronglySorted_inv in Hs as [Hs Hh]. simpl in Hlen. constructor; [apply IH; [done|lia]|]. apply (Forall_fmap range) in Hh. cbn [rev_textChange].
  destruct Hop as ((H1 & H2 & H3) & Ho & He & _).
  assert (Hzo : oldEnd (mkTextChange (rangeOffset op) (sub d (rangeOffset op) (op_end op)) (rangeOffset op + delta) (text op)) = op_end op).
  { destruct (model_range_offsets d (range op) (conj H1 (conj H2 H3))) as (G1 & G2 & _). unfold oldEnd. cbn [oldPosition oldText]. rewrite zlen_sub; lia. }
  clear IH Hs. generalize (delta + (zlen (text op) - zlen (sub d (rangeOffset op) (op_end op)))). assert (Hl : List.length ranges = List.length ops) by lia. clear Hlen. revert ranges Hl.
  induction Hok as [|op2 ops ((K1 & K2 & K3) & Ho2 & He2 & _) Hok IH]; intros [|r2 ranges] Hl dl; try (simpl in Hl; lia); try by constructor. apply Forall_cons in Hh as [Hlt Hh]. cbn [reversed]. rewrite fmap_cons. cbn [rev_textChange].
  constructor; [|apply IH; [done|simpl in Hl; lia]]. rewrite Hzo. cbn [oldPosition]. rewrite He, Ho2. destruct (range_offset d (range op)) as [_ ->], (range_offset d (range op2)) as [-> _].
  by apply offset_lt.
Qed.

Lemma undo_edits eol d ops touching : let d' := splice d 0 ops in let rs := reversed d 0 ops (TB.getInverseEditRanges ops) in
  let reverse := if negb touching then js_sort (fun x y => rev_sortIndex x - rev_sortIndex y) rs else rs in
  eol = [10] \/ eol = [13; 10] -> normalized eol d -> Forall (op_ok eol d) ops -> Forall counted ops -> chain eol d 0 ops ->
  (touching = false -> strict_ranges (range <$> ops)) ->
  Forall (placed eol d') reverse /\ ~ overlapping (rev_range <$> reverse) /\ edited eol d' (undo_op <$> reverse) = d /\
  ops_room (validated_from eol d' 0 (undo_op <$> reverse)) <= zlen d + ops_room ops.
Proof.
  intros d' rs reverse He Hn Hok Hcnt Hch Hstrict. assert (Hc0 : in_crlf d 0 = false) by (unfold in_crlf; by rewrite andb_false_iff; left).
  assert (Hnil : normalized eol []) by (by destruct He as [-> | ->]).
  assert (Hinv : TB.getInverseEditRanges ops = new_ranges d [] 0 ops) by (apply (inverse_ranges_new eol); done).
  assert (Hrs : Forall (placed eol d') rs) by (unfold rs; rewrite Hinv; apply (reversed_placed eol d ops [] 0); done || lia).
  assert (Hlen : List.length (TB.getInverseEditRanges ops) = List.length ops) by apply inverse_ranges_length.
  pose proof (reversed_rewrites eol d 0 0 ops (TB.getInverseEditRanges ops) ltac:(lia) Hch Hlen) as Hrw. fold rs d' in Hrw. change (drop (Z.to_nat 0) d) with d in Hrw.
  assert (Hp : reverse ≡ₚ rs) by (unfold reverse; destruct (negb touching); [apply js_sort_perm|done]).
  assert (Hrev : Forall (placed eol d') reverse) by (by rewrite Hp). destruct (rewrites_sorted _ _ _ _ _ Hrw) as [Hsort _]. pose proof (placed_apart eol d' rs Hrs Hsort) as Hapart.
  assert (Hf : Forall2 (undoes eol d') rs (js_sort TB.sortOpsAscending (validated_from eol d' 0 (undo_op <$> reverse)))).
  { destruct touching; unfold reverse; cbn [negb].
    - rewrite js_sort_id by (by apply placed_sorted). by apply validated_all_undo.
    - apply undo_order; [done|done| |apply js_sort_perm]. eapply rewrites_strict; [exact Hrw|]. apply (reversed_strict eol); [done|by apply Hstrict|done]. }
  split; [exact Hrev|]. split; [|split].
  - rewrite Hp. by apply apart_not_overlapping.
  - unfold edited. apply (rewrites_splice (swapped <$> (rev_textChange <$> rs)) _ d' 0 0 d).
    + pose proof (zlen_nonneg d'). lia.
    + clear - Hf. induction Hf as [|x op l ops' (_ & _ & He) Hf IH]; [constructor|]. rewrite !fmap_cons. by constructor.
    + change (drop (Z.to_nat 0) d') with d'. by apply rewrites_swap.
  - rewrite <- sorted_room, (undoes_room eol d' _ _ Hf). pose proof (reversed_room eol d 0 0 ops (TB.getInverseEditRanges ops) ltac:(lia) Hch). unfold rs. lia.
Qed.

(** C4: Undo.  Applying edits and then the reverse edits that [applyEdits] gives back leaves a
    buffer that stands for the text there was before, with the same byte order mark: the
    reverse edits have the ranges of the inserted texts in the new text, they do not overlap
    there, and edits that touch come back in the order that keeps the texts in their places. *)
Theorem applyEdits_undo F b eol d raws undo :
  holds F b eol d -> Forall (fun raw => model_range d (raw_range raw)) raws -> ~ overlapping (raw_range <$> raws) ->
  room b + 5 * zlen d + 3 * ops_room (validated_from eol d 0 raws) < max_buffer ->
  wp (TB.applyEdits raws false true) b (fun r b' => exists reverse, reverseEdits r = Some reverse /\
    wp (TB.applyEdits (undo_op <$> reverse) false undo) b' (fun _ b'' => holds F b'' eol d /\ BOM_buffer b'' = BOM_buffer b)).
Proof.
  intros Hb Hr Hno Hroom. destruct (holds_eol _ _ _ _ Hb) as [He Hn]. set (ops := js_sort TB.sortOpsAscending (validated_from eol d 0 raws)).
  assert (Eroom : ops_room ops = ops_room (validated_from eol d 0 raws)) by apply sorted_room. rewrite <- Eroom in Hroom. pose proof (zlen_nonneg d). pose proof (ops_room_nonneg ops).
  eapply wp_mono; [apply (wp_applyEdits F b eol d raws true Hb Hr Hno); fold ops; lia|]. fold ops. intros r b' (ops' & touching & Ha & Hsf & Hc & [Hh HB Hrm _ Hrev _]).
  pose proof Hsf as [Hok' Ha' Hch' Hsp' Hroom' _ Hcnt' Hst']. eexists. split; [exact Hrev|].
  destruct (apart_check eol d raws ops He Hr eq_refl) as (Hok & _ & _ & Hs & _).
  assert (Hstrict : touching = false -> strict_ranges (range <$> ops')).
  { intros ->. apply Hst', (check_overlap_strict ops false); [by eapply ops_wf|exact Hc]. }
  destruct (undo_edits eol d ops' touching He Hn Hok' Hcnt' Hch' Hstrict) as (U1 & U2 & U3 & U4). set (reverse := if negb touching then _ else _) in *.
  assert (Hranges : raw_range <$> (undo_op <$> reverse) = rev_range <$> reverse) by (by rewrite <- list_fmap_compose).
  assert (Hz : zlen (splice d 0 ops') <= zlen d + ops_room ops').
  { rewrite splice_middle, zlen_app. destruct (middle_end eol d 0 ops' ltac:(lia) Hch') as [M1 M2]. pose proof (texts_room ops'). rewrite zlen_drop by lia. lia. }
  pose proof (wp_applyEdits F b' eol (splice d 0 ops') (undo_op <$> reverse) undo Hh) as Hw.
  eapply wp_mono; [apply Hw|].
  - apply Forall_fmap. eapply Forall_impl; [exact U1|]. intros x Hx. apply Hx.
  - by rewrite Hranges.
  - rewrite sorted_room. lia.
  - intros r2 b2 (ops2 & touching2 & _ & Hsf2 & _ & [Hh2 HB2 _ _ _ _]). split; [|by rewrite HB2]. rewrite (sf_splice _ _ _ _ Hsf2) in Hh2. unfold edited in U3. by rewrite U3 in Hh2.
Qed.

Lemma applyEdits_undo_witness : exists s r b' reverse r' b'', PT.insert 0 sample_text true empty_tree = Ok (tt, s) /\
  TB.applyEdits sample_edits false true (mkTextBuffer s [] false false false) = Ok (r, b') /\ reverseEdits r = Some reverse /\
  TB.applyEdits (undo_op <$> reverse) false false b' = Ok (r', b'') /\ holds ∅ b'' [10] sample_text.
Proof.
  destruct sample_holds as (s & E & Hb & Hroom). exists s.
  pose proof (applyEdits_undo ∅ _ [10] sample_text sample_edits false Hb sample_ranges sample_apart) as H.
  change (zlen sample_text) with 3 in H. change (ops_room (validated_from [10] sample_text 0 sample_edits)) with 20 in H. specialize (H ltac:(unfold max_buffer; lia)).
  apply wp_run in H as (r & b' & Er & reverse & Hrev & H). apply wp_run in H as (r' & b'' & Er' & Hh & _). exists r, b', reverse, r', b''.
  split; [exact E|]. split; [exact Er|]. split; [exact Hrev|]. split; [exact Er'|exact Hh].
Defined.
