(* ===== verification/TextModel.v ===== *)
(** * The text model

    [TextModel] of [src/src/vs/editor/common/model/textModel.ts], on its text buffer: version
    numbers, the validation of positions and ranges, reading, and the edits with the raw
    changes that views follow.  The events that are fired are recorded in [events_], in their
    order; the deferred emission, the decorations (so also injected text), the tokens, the
    bracket pairs, the options but one, and searching are left out.  The numbers are integers,
    so that the tests for [NaN] and the roundings do nothing. *)

From S2P Require Import Prelude Position TextRange TextChange Length EolCounter Store RbTree PtBuffer Strings PieceTree TextBuffer.

#[local] Open Scope js_scope.

Inductive EndOfLineSequence : Type := SeqLF | SeqCRLF.

Inductive StringOffsetValidationType : Type := Relaxed | SurrogatePairs.

(** The raw changes of [textModelEvents.ts], without injected text. *)
Inductive ModelRawChange : Type :=
  | RawFlush
  | RawEOLChanged
  | RawLineChanged (lineNumber : Z) (detail : list Z)
  | RawLinesDeleted (fromLineNumber toLineNumber : Z)
  | RawLinesInserted (fromLineNumber toLineNumber : Z) (detail : list (list Z)).

Record ModelEvent : Type := mkModelEvent {
  rawChanges : list ModelRawChange;
  contentChanges_ : list IInternalModelContentChange;
  ev_eol : list Z;
  isEolChange : bool;
  ev_versionId : Z;
  isUndoing : bool;
  isRedoing : bool;
  isFlush : bool }.

Record TextModel : Type := mkModel {
  buffer_ : PieceTreeTextBuffer;
  model_versionId : Z;
  alternativeVersionId_ : Z;
  trimAutoWhitespace : bool;
  trimAutoWhitespaceLines_ : option (list Z);
  isUndoing_ : bool;
  isRedoing_ : bool;
  isDisposed_ : bool;
  events_ : list ModelEvent }.

(** An edit operation: one that was validated before, or one with a range, which may be an
    object of the class [Range]. *)
Inductive IIdentifiedSingleEditOperation : Type :=
  | AlreadyValid (op : ValidAnnotatedEditOperation)
  | ToValidate (isRange : bool) (op : ValidAnnotatedEditOperation).

Definition M (A : Type) : Type := ST TextModel A.

Definition with_buffer (b : PieceTreeTextBuffer) (m : TextModel) : TextModel :=
  mkModel b (model_versionId m) (alternativeVersionId_ m) (trimAutoWhitespace m) (trimAutoWhitespaceLines_ m) (isUndoing_ m) (isRedoing_ m) (isDisposed_ m) (events_ m).

Definition with_versions (v a : Z) (m : TextModel) : TextModel :=
  mkModel (buffer_ m) v a (trimAutoWhitespace m) (trimAutoWhitespaceLines_ m) (isUndoing_ m) (isRedoing_ m) (isDisposed_ m) (events_ m).

Definition with_trim (l : option (list Z)) (m : TextModel) : TextModel :=
  mkModel (buffer_ m) (model_versionId m) (alternativeVersionId_ m) (trimAutoWhitespace m) l (isUndoing_ m) (isRedoing_ m) (isDisposed_ m) (events_ m).

Definition with_doing (undoing redoing : bool) (m : TextModel) : TextModel :=
  mkModel (buffer_ m) (model_versionId m) (alternativeVersionId_ m) (trimAutoWhitespace m) (trimAutoWhitespaceLines_ m) undoing redoing (isDisposed_ m) (events_ m).

Definition with_event (e : ModelEvent) (m : TextModel) : TextModel :=
  mkModel (buffer_ m) (model_versionId m) (alternativeVersionId_ m) (trimAutoWhitespace m) (trimAutoWhitespaceLines_ m) (isUndoing_ m) (isRedoing_ m) (isDisposed_ m) (events_ m ++ [e]).

Definition on_buffer {A} (p : B A) : M A := fun m =>
  match p (buffer_ m) with Ok (a, b) => Ok (a, with_buffer b m) | Throw e => Throw e end.

Definition high (c : option Z) : bool := match c with Some c => isHighSurrogate c | None => false end.

Module TM.

Definition assertNotDisposed : M unit := d ← gets isDisposed_; if d : bool then throw OtherError else mret tt.

(** ** Versions *)

Definition getVersionId : M Z := assertNotDisposed;; gets model_versionId.
Definition getAlternativeVersionId : M Z := assertNotDisposed;; gets alternativeVersionId_.
Definition increaseVersionId : M unit := modify (fun m => with_versions (model_versionId m + 1) (model_versionId m + 1) m).
Definition overwriteVersionId (versionId : Z) : M unit := modify (fun m => with_versions versionId (alternativeVersionId_ m) m).
Definition overwriteAlternativeVersionId (id : Z) : M unit := modify (fun m => with_versions (model_versionId m) id m).

(** ** Lines *)

Definition getLineCount : M Z := assertNotDisposed;; on_buffer TB.getLineCount.
Definition getLinesContent : M (list (list Z)) := assertNotDisposed;; on_buffer TB.getLinesContent.
Definition getEOL : M (list Z) := assertNotDisposed;; on_buffer TB.getEOL.

Definition getEndOfLineSequence : M EndOfLineSequence :=
  assertNotDisposed;; e ← on_buffer TB.getEOL; mret (if bool_decide (e = [10]) then SeqLF else SeqCRLF).

(** What the methods of one line do first. *)
Definition check_line (lineNumber : Z) : M unit :=
  assertNotDisposed;;
  n ← getLineCount;
  if (lineNumber <? 1) || (lineNumber >? n) then throw BugIndicatingError else mret tt.

Definition getLineContent (lineNumber : Z) : M (list Z) := check_line lineNumber;; on_buffer (TB.getLineContent lineNumber).
Definition getLineLength (lineNumber : Z) : M Z := check_line lineNumber;; on_buffer (TB.getLineLength lineNumber).
Definition getLineMinColumn (lineNumber : Z) : M Z := assertNotDisposed;; mret 1.
Definition getLineMaxColumn (lineNumber : Z) : M Z := check_line lineNumber;; n ← on_buffer (TB.getLineLength lineNumber); mret (n + 1).
Definition getLineFirstNonWhitespaceColumn (lineNumber : Z) : M Z := check_line lineNumber;; on_buffer (TB.getLineFirstNonWhitespaceColumn lineNumber).
Definition getLineLastNonWhitespaceColumn (lineNumber : Z) : M Z := check_line lineNumber;; on_buffer (TB.getLineLastNonWhitespaceColumn lineNumber).

(** ** Validation *)

Definition isValidPosition (lineNumber column : Z) (validationType : StringOffsetValidationType) : M bool :=
  if (lineNumber <? 1) || (column <? 1) then mret false
  else if negb (to_int32 lineNumber =? lineNumber) || negb (to_int32 column =? column) then mret false
  else
    lineCount ← on_buffer TB.getLineCount;
    if lineNumber >? lineCount then mret false
    else if column =? 1 then mret true
    else
      maxColumn ← getLineMaxColumn lineNumber;
      if column >? maxColumn then mret false
      else match validationType with
           | SurrogatePairs => charCodeBefore ← on_buffer (TB.getLineCharCode lineNumber (column - 2)); mret (negb (high charCodeBefore))
           | Relaxed => mret true
           end.

Definition validatePosition_ (lineNumber column : Z) (validationType : StringOffsetValidationType) : M Position :=
  lineCount ← on_buffer TB.getLineCount;
  if lineNumber <? 1 then mret (mkPosition 1 1)
  else if lineNumber >? lineCount then n ← getLineMaxColumn lineCount; mret (mkPosition lineCount n)
  else if column <=? 1 then mret (mkPosition lineNumber 1)
  else
    maxColumn ← getLineMaxColumn lineNumber;
    if column >=? maxColumn then mret (mkPosition lineNumber maxColumn)
    else match validationType with
         | SurrogatePairs =>
             charCodeBefore ← on_buffer (TB.getLineCharCode lineNumber (column - 2));
             if high charCodeBefore then mret (mkPosition lineNumber (column - 1)) else mret (mkPosition lineNumber column)
         | Relaxed => mret (mkPosition lineNumber column)
         end.

(** [isPosition]: the argument is an object of the class [Position]. *)
Definition validatePosition (isPosition : bool) (position : Position) : M Position :=
  assertNotDisposed;;
  valid ← (if isPosition then isValidPosition (lineNumber position) (Position.column position) SurrogatePairs else mret false);
  if valid : bool then mret position
  else validatePosition_ (lineNumber position) (Position.column position) SurrogatePairs.

(** The code units before the ends of a range, where they matter. *)
Definition char_before_start (startLineNumber startColumn : Z) : M bool :=
  if startColumn >? 1 then c ← on_buffer (TB.getLineCharCode startLineNumber (startColumn - 2)); mret (high c) else mret false.

Definition char_before_end (endLineNumber endColumn : Z) : M bool :=
  if endColumn >? 1 then
    n ← on_buffer (TB.getLineLength endLineNumber);
    if endColumn <=? n then c ← on_buffer (TB.getLineCharCode endLineNumber (endColumn - 2)); mret (high c) else mret false
  else mret false.

(** [_isValidRange] for [SurrogatePairs], its only use. *)
Definition isValidRange (range : Range) : M bool :=
  ok ← isValidPosition (startLineNumber range) (startColumn range) Relaxed;
  if negb ok then mret false
  else
    ok ← isValidPosition (endLineNumber range) (endColumn range) Relaxed;
    if negb ok then mret false
    else
      startInsideSurrogatePair ← char_before_start (startLineNumber range) (startColumn range);
      endInsideSurrogatePair ← char_before_end (endLineNumber range) (endColumn range);
      mret (negb startInsideSurrogatePair && negb endInsideSurrogatePair).

(** [isRange]: the argument is an object of the class [Range] and not a [Selection]. *)
Definition validateRange (isRange : bool) (range : Range) : M Range :=
  assertNotDisposed;;
  valid ← (if isRange then isValidRange range else mret false);
  if valid : bool then mret range
  else
    start ← validatePosition_ (startLineNumber range) (startColumn range) Relaxed;
    end_ ← validatePosition_ (endLineNumber range) (endColumn range) Relaxed;
    let sl := lineNumber start in
    let sc := Position.column start in
    let el := lineNumber end_ in
    let ec := Position.column end_ in
    startInsideSurrogatePair ← char_before_start sl sc;
    endInsideSurrogatePair ← char_before_end el ec;
    mret (
      if negb startInsideSurrogatePair && negb endInsideSurrogatePair then Rng.new_Range sl sc el ec
      else if (sl =? el) && (sc =? ec) then Rng.new_Range sl (sc - 1) el (ec - 1)
      else if startInsideSurrogatePair && endInsideSurrogatePair then Rng.new_Range sl (sc - 1) el (ec + 1)
      else if startInsideSurrogatePair : bool then Rng.new_Range sl (sc - 1) el ec
      else Rng.new_Range sl sc el (ec + 1)).

(** One end of [_validateRangeRelaxedNoAllocations]. *)
Definition relaxed_end (linesCount lineNumber column : Z) : M (Z * Z) :=
  if lineNumber <? 1 then mret (1, 1)
  else if lineNumber >? linesCount then n ← getLineMaxColumn linesCount; mret (linesCount, n)
  else if column <=? 1 then mret (lineNumber, 1)
  else
    maxColumn ← getLineMaxColumn lineNumber;
    mret (lineNumber, if column >=? maxColumn then maxColumn else column).

Definition validateRangeRelaxedNoAllocations (isRange : bool) (range : Range) : M Range :=
  linesCount ← on_buffer TB.getLineCount;
  '(sl, sc) ← relaxed_end linesCount (startLineNumber range) (startColumn range);
  '(el, ec) ← relaxed_end linesCount (endLineNumber range) (endColumn range);
  if (startLineNumber range =? sl) && (startColumn range =? sc) && (endLineNumber range =? el) && (endColumn range =? ec) && isRange
  then mret range else mret (Rng.new_Range sl sc el ec).

(** ** Reading *)

Definition getOffsetAt (position : Position) : M Z :=
  assertNotDisposed;;
  p ← validatePosition_ (lineNumber position) (Position.column position) Relaxed;
  on_buffer (TB.getOffsetAt (lineNumber p) (Position.column p)).

Definition getPositionAt (rawOffset : Z) : M Position :=
  assertNotDisposed;;
  n ← on_buffer TB.getLength;
  on_buffer (TB.getPositionAt (Z.min n (Z.max 0 rawOffset))).

Definition modifyPosition (position : Position) (offset : Z) : M Position :=
  assertNotDisposed;;
  o ← getOffsetAt position;
  n ← on_buffer TB.getLength;
  getPositionAt (Z.min n (Z.max 0 (o + offset))).

Definition getFullModelRange : M Range :=
  assertNotDisposed;;
  lineCount ← getLineCount;
  n ← getLineMaxColumn lineCount;
  mret (Rng.new_Range 1 1 lineCount n).

Definition getValueInRange (isRange : bool) (range : Range) (eol : EndOfLinePreference) : M (list Z) :=
  assertNotDisposed;; r ← validateRange isRange range; on_buffer (TB.getValueInRange r eol).

Definition getValueLengthInRange (isRange : bool) (range : Range) (eol : EndOfLinePreference) : M Z :=
  assertNotDisposed;; r ← validateRange isRange range; on_buffer (TB.getValueLengthInRange r eol).

Definition getCharacterCountInRange (isRange : bool) (range : Range) (eol : EndOfLinePreference) : M Z :=
  assertNotDisposed;; r ← validateRange isRange range; on_buffer (TB.getCharacterCountInRange r eol).

Definition getValue (eol : EndOfLinePreference) (preserveBOM : bool) : M (list Z) :=
  assertNotDisposed;;
  r ← getFullModelRange;
  fullModelValue ← getValueInRange true r eol;
  if preserveBOM then bom ← on_buffer TB.getBOM; mret (bom ++ fullModelValue) else mret fullModelValue.

Definition getValueLength (eol : EndOfLinePreference) (preserveBOM : bool) : M Z :=
  assertNotDisposed;;
  r ← getFullModelRange;
  fullModelValue ← getValueLengthInRange true r eol;
  if preserveBOM then bom ← on_buffer TB.getBOM; mret (zlen bom + fullModelValue) else mret fullModelValue.

(** ** Line endings *)

Definition setEOL (eol : EndOfLineSequence) : M unit :=
  assertNotDisposed;;
  let newEOL := match eol with SeqCRLF => [13; 10] | SeqLF => [10] end in
  e ← on_buffer TB.getEOL;
  if bool_decide (e = newEOL) then mret tt
  else
    oldFullModelRange ← getFullModelRange;
    oldModelValueLength ← getValueLengthInRange true oldFullModelRange TextDefined;
    endLineNumber ← getLineCount;
    endColumn ← getLineMaxColumn endLineNumber;
    on_buffer (TB.setEOL newEOL);;
    increaseVersionId;;
    value ← getValue TextDefined false;
    e ← on_buffer TB.getEOL;
    v ← getVersionId;
    modify (with_event (mkModelEvent [RawEOLChanged]
      [mkChange (Rng.new_Range 1 1 endLineNumber endColumn) oldModelValueLength value 0 false] e true v false false false)).

(** ** Edits *)

Definition validateEditOperation (op : IIdentifiedSingleEditOperation) : M ValidAnnotatedEditOperation :=
  match op with
  | AlreadyValid op => mret op
  | ToValidate isRange op =>
      r ← validateRange isRange (raw_range op);
      mret (mkRawEdit (raw_identifier op) r (raw_text op) (raw_forceMoveMarkers op) (raw_isAutoWhitespaceEdit op) (raw_isTracked op))
  end.

Fixpoint validateEditOperations (ops : list IIdentifiedSingleEditOperation) : M (list ValidAnnotatedEditOperation) :=
  match ops with
  | [] => mret []
  | op :: rest => o ← validateEditOperation op; os ← validateEditOperations rest; mret (o :: os)
  end.

(** The lines that an edit changes, from the last one to the first. *)
Fixpoint changed_lines (n : nat) (startLineNumber currentEditStartLineNumber : Z) : M (list ModelRawChange) :=
  c ← getLineContent (currentEditStartLineNumber + Z.of_nat n);
  rest ← (match n with O => mret [] | S n' => changed_lines n' startLineNumber currentEditStartLineNumber end);
  mret (RawLineChanged (startLineNumber + Z.of_nat n) c :: rest).

(** [n] lines of the new text. *)
Fixpoint inserted_lines (n : nat) (lineNumber : Z) : M (list (list Z)) :=
  match n with
  | O => mret []
  | S n' => c ← getLineContent lineNumber; rest ← inserted_lines n' (lineNumber + 1); mret (c :: rest)
  end.

(** The raw changes of one content change; the injected text of the changed lines is asked
    for, which reads two offsets. *)
Definition raw_change (newLineCount lineCount : Z) (change : IInternalModelContentChange) : M (list ModelRawChange * Z) :=
  let insertingLinesCnt := (countEOL (change_text change)).1.1.1 in
  let startLine := startLineNumber (change_range change) in
  let endLine := endLineNumber (change_range change) in
  let deletingLinesCnt := endLine - startLine in
  let editingLinesCnt := Z.min deletingLinesCnt insertingLinesCnt in
  let changeLineCountDelta := insertingLinesCnt - deletingLinesCnt in
  let currentEditStartLineNumber := newLineCount - lineCount - changeLineCountDelta + startLine in
  let lastInsertedLineNumber := currentEditStartLineNumber + insertingLinesCnt in
  _ ← getOffsetAt (mkPosition currentEditStartLineNumber 1);
  maxColumn ← getLineMaxColumn lastInsertedLineNumber;
  _ ← getOffsetAt (mkPosition lastInsertedLineNumber maxColumn);
  changed ← changed_lines (Z.to_nat editingLinesCnt) startLine currentEditStartLineNumber;
  let spliceLine := startLine + editingLinesCnt in
  let deleted := if editingLinesCnt <? deletingLinesCnt then [RawLinesDeleted (spliceLine + 1) endLine] else [] in
  inserted ← (if editingLinesCnt <? insertingLinesCnt then
      let cnt := insertingLinesCnt - editingLinesCnt in
      newLines ← inserted_lines (Z.to_nat cnt) (newLineCount - lineCount - cnt + spliceLine + 1);
      mret [RawLinesInserted (spliceLine + 1) (startLine + insertingLinesCnt) newLines]
    else mret []);
  mret (changed ++ deleted ++ inserted, changeLineCountDelta).

Fixpoint raw_changes (newLineCount lineCount : Z) (changes : list IInternalModelContentChange) : M (list ModelRawChange) :=
  match changes with
  | [] => mret []
  | change :: rest =>
      '(raws, changeLineCountDelta) ← raw_change newLineCount lineCount change;
      more ← raw_changes newLineCount (lineCount + changeLineCountDelta) rest;
      mret (raws ++ more)
  end.

Definition doApplyEdits (operations : list ValidAnnotatedEditOperation) (computeUndoEdits : bool) : M (option (list IReverseSingleEditOperation)) :=
  oldLineCount ← on_buffer TB.getLineCount;
  trim ← gets trimAutoWhitespace;
  result ← on_buffer (TB.applyEdits operations trim computeUndoEdits);
  newLineCount ← on_buffer TB.getLineCount;
  modify (with_trim (trimAutoWhitespaceLineNumbers result));;
  (if negb (zlen (changes result) =? 0) then
     increaseVersionId;;
     rawContentChanges ← raw_changes newLineCount oldLineCount (changes result);
     e ← on_buffer TB.getEOL;
     v ← getVersionId;
     modify (fun m => with_event (mkModelEvent rawContentChanges (changes result) e false v (isUndoing_ m) (isRedoing_ m) false) m)
   else mret tt);;
  mret (reverseEdits result).

Definition applyEdits (operations : list IIdentifiedSingleEditOperation) (computeUndoEdits : bool) : M (option (list IReverseSingleEditOperation)) :=
  operations ← validateEditOperations operations;
  doApplyEdits operations computeUndoEdits.

(** ** Undoing and redoing *)

(** The flags are reset in any case; a model whose edits throw is lost here. *)
Definition applyUndoRedoEdits (edits : list IIdentifiedSingleEditOperation) (eol : EndOfLineSequence) (undoing redoing : bool)
    (resultingAlternativeVersionId : Z) : M unit :=
  modify (with_doing undoing redoing);;
  _ ← applyEdits edits false;
  setEOL eol;;
  overwriteAlternativeVersionId resultingAlternativeVersionId;;
  modify (with_doing false false).

(** An edit between two offsets. *)
Definition edit_between (start end_ : Z) (text : list Z) : M IIdentifiedSingleEditOperation :=
  rangeStart ← getPositionAt start;
  rangeEnd ← getPositionAt end_;
  mret (ToValidate true (mkRawEdit None
    (Rng.new_Range (lineNumber rangeStart) (Position.column rangeStart) (lineNumber rangeEnd) (Position.column rangeEnd)) (Some text) false false false)).

Fixpoint undo_edits (changes : list TextChange) : M (list IIdentifiedSingleEditOperation) :=
  match changes with
  | [] => mret []
  | change :: rest => e ← edit_between (newPosition change) (newEnd change) (oldText change); es ← undo_edits rest; mret (e :: es)
  end.

Fixpoint redo_edits (changes : list TextChange) : M (list IIdentifiedSingleEditOperation) :=
  match changes with
  | [] => mret []
  | change :: rest => e ← edit_between (oldPosition change) (oldEnd change) (newText change); es ← redo_edits rest; mret (e :: es)
  end.

Definition applyUndo (changes : list TextChange) (eol : EndOfLineSequence) (resultingAlternativeVersionId : Z) : M unit :=
  edits ← undo_edits changes;
  applyUndoRedoEdits edits eol true false resultingAlternativeVersionId.

Definition applyRedo (changes : list TextChange) (eol : EndOfLineSequence) (resultingAlternativeVersionId : Z) : M unit :=
  edits ← redo_edits changes;
  applyUndoRedoEdits edits eol false true resultingAlternativeVersionId.

End TM.
