(* ===== verification/EditStackData.v ===== *)
(** * The data of an undo element

    [SingleModelEditStackData] of [src/src/vs/editor/common/model/editStack.ts]: what is kept
    of the edits between two stops, and its bytes, to which it is turned when the element is
    closed and from which every undo and redo reads it back. *)

From S2P Require Import Prelude Position TextRange Selection TextChange Store Strings PieceTree TextBuffer TextModel.
Import Buf.

#[local] Open Scope js_scope.

Record SingleModelEditStackData : Type := mkData {
  beforeVersionId : Z;
  afterVersionId : Z;
  beforeEOL : EndOfLineSequence;
  afterEOL : EndOfLineSequence;
  beforeCursorState : option (list Selection);
  afterCursorState : option (list Selection);
  data_changes : list TextChange }.

Definition getModelEOL : M EndOfLineSequence :=
  eol ← TM.getEOL; mret (if bool_decide (eol = [10]) then SeqLF else SeqCRLF).

(** The numbers of the constants of [EndOfLineSequence]; another byte is neither. *)
Definition eol_byte (e : EndOfLineSequence) : Z := match e with SeqLF => 0 | SeqCRLF => 1 end.
Definition byte_eol (b : Z) : EndOfLineSequence := if b =? 1 then SeqCRLF else SeqLF.

(** [buffer.writeUInt32BE(b, value, offset); offset += 4;], and so on. *)
Definition w32 (value : Z) (b : list Z) (offset : Z) : list Z * Z := (writeUInt32BE b value offset, offset + 4).
Definition w8 (value : Z) (b : list Z) (offset : Z) : list Z * Z := (put8 b offset value, offset + 1).

(** A number read past the end is [undefined] or [NaN]; it is not told from 0 here. *)
Definition r32 (b : list Z) (offset : Z) : Z * Z := (default 0 (readUInt32BE b offset), offset + 4).
Definition r8 (b : list Z) (offset : Z) : Z * Z := (default 0 (b.[offset]), offset + 1).

Module SD.

Definition create (beforeCursorState : option (list Selection)) : M SingleModelEditStackData :=
  alternativeVersionId ← TM.getAlternativeVersionId;
  eol ← getModelEOL;
  mret (mkData alternativeVersionId alternativeVersionId eol eol beforeCursorState beforeCursorState []).

Definition append (this : SingleModelEditStackData) (textChanges : list TextChange) (afterEOL : EndOfLineSequence) (afterVersionId : Z)
    (afterCursorState : option (list Selection)) : SingleModelEditStackData :=
  let changes := if zlen textChanges >? 0 then compressConsecutiveTextChanges (Some (data_changes this)) textChanges else data_changes this in
  mkData (beforeVersionId this) afterVersionId (beforeEOL this) afterEOL (beforeCursorState this) afterCursorState changes.

Definition writeSelectionsSize (selections : option (list Selection)) : Z :=
  4 + 4 * 4 * (match selections with Some l => zlen l | None => 0 end).

Definition write_selection (selection : Selection) (b : list Z) (offset : Z) : list Z * Z :=
  let '(b, offset) := w32 (selectionStartLineNumber selection) b offset in
  let '(b, offset) := w32 (selectionStartColumn selection) b offset in
  let '(b, offset) := w32 (positionLineNumber selection) b offset in
  w32 (positionColumn selection) b offset.

Fixpoint write_selections (l : list Selection) (b : list Z) (offset : Z) : list Z * Z :=
  match l with
  | [] => (b, offset)
  | s :: l => let '(b, offset) := write_selection s b offset in write_selections l b offset
  end.

Definition writeSelections (selections : option (list Selection)) (b : list Z) (offset : Z) : list Z * Z :=
  let '(b, offset) := w32 (match selections with Some l => zlen l | None => 0 end) b offset in
  match selections with Some l => write_selections l b offset | None => (b, offset) end.

Fixpoint read_selections (n : nat) (b : list Z) (offset : Z) (dest : list Selection) : list Selection * Z :=
  match n with
  | O => (dest, offset)
  | S n =>
      let '(selectionStartLineNumber, offset) := r32 b offset in
      let '(selectionStartColumn, offset) := r32 b offset in
      let '(positionLineNumber, offset) := r32 b offset in
      let '(positionColumn, offset) := r32 b offset in
      read_selections n b offset (dest ++ [Sel.new_Selection selectionStartLineNumber selectionStartColumn positionLineNumber positionColumn])
  end.

Definition readSelections (b : list Z) (offset : Z) : list Selection * Z :=
  let '(count, offset) := r32 b offset in read_selections (Z.to_nat count) b offset [].

Fixpoint write_changes (changes : list TextChange) (b : list Z) (offset : Z) : list Z * Z :=
  match changes with
  | [] => (b, offset)
  | change :: rest => let '(b, offset) := write change b offset in write_changes rest b offset
  end.

Definition serialize (this : SingleModelEditStackData) : list Z :=
  let necessarySize := foldl (fun size change => size + writeSize change)
    (4 + 4 + 1 + 1 + writeSelectionsSize (beforeCursorState this) + writeSelectionsSize (afterCursorState this) + 4) (data_changes this) in
  let b := replicate (Z.to_nat necessarySize) 0 in
  let offset := 0 in
  let '(b, offset) := w32 (beforeVersionId this) b offset in
  let '(b, offset) := w32 (afterVersionId this) b offset in
  let '(b, offset) := w8 (eol_byte (beforeEOL this)) b offset in
  let '(b, offset) := w8 (eol_byte (afterEOL this)) b offset in
  let '(b, offset) := writeSelections (beforeCursorState this) b offset in
  let '(b, offset) := writeSelections (afterCursorState this) b offset in
  let '(b, offset) := w32 (zlen (data_changes this)) b offset in
  (write_changes (data_changes this) b offset).1.

Section decode.
(** The decoder of the platform. *)
Context (decode : list Z -> jsstr).

Fixpoint read_changes (n : nat) (b : list Z) (offset : Z) (changes : list TextChange) : result (list TextChange) :=
  match n with
  | O => Ok changes
  | S n => let* r := read decode b offset changes in read_changes n b r.1 r.2
  end.

Definition deserialize (b : list Z) : result SingleModelEditStackData :=
  let offset := 0 in
  let '(beforeVersionId, offset) := r32 b offset in
  let '(afterVersionId, offset) := r32 b offset in
  let '(beforeEOL, offset) := r8 b offset in
  let '(afterEOL, offset) := r8 b offset in
  let '(beforeCursorState, offset) := readSelections b offset in
  let '(afterCursorState, offset) := readSelections b offset in
  let '(changeCount, offset) := r32 b offset in
  let* changes := read_changes (Z.to_nat changeCount) b offset [] in
  Ok (mkData beforeVersionId afterVersionId (byte_eol beforeEOL) (byte_eol afterEOL) (Some beforeCursorState) (Some afterCursorState) changes).

End decode.

End SD.

(** ** Its bytes *)

Definition selection_bytes (s : Selection) : list Z :=
  be32 (selectionStartLineNumber s) ++ be32 (selectionStartColumn s) ++ be32 (positionLineNumber s) ++ be32 (positionColumn s).

Definition sels (s : option (list Selection)) : list Selection := default [] s.
Definition selections_bytes (l : list Selection) : list Z := be32 (zlen l) ++ (l ≫= selection_bytes).

Definition data_bytes (d : SingleModelEditStackData) : list Z :=
  be32 (beforeVersionId d) ++ be32 (afterVersionId d) ++ [eol_byte (beforeEOL d)] ++ [eol_byte (afterEOL d)] ++
  selections_bytes (sels (beforeCursorState d)) ++ selections_bytes (sels (afterCursorState d)) ++
  be32 (zlen (data_changes d)) ++ (data_changes d ≫= change_bytes).

(** Numbers that fit, selections as their constructor makes them, texts with whole pairs. *)
Definition selection_ok (s : Selection) : Prop :=
  s = Sel.new_Selection (selectionStartLineNumber s) (selectionStartColumn s) (positionLineNumber s) (positionColumn s) /\
  is_uint32 (selectionStartLineNumber s) /\ is_uint32 (selectionStartColumn s) /\ is_uint32 (positionLineNumber s) /\ is_uint32 (positionColumn s).

Definition selections_ok (s : option (list Selection)) : Prop := Forall selection_ok (sels s) /\ is_uint32 (zlen (sels s)).

Record data_ok (d : SingleModelEditStackData) : Prop := {
  dk_before : is_uint32 (beforeVersionId d);
  dk_after : is_uint32 (afterVersionId d);
  dk_cursor : selections_ok (beforeCursorState d);
  dk_cursor' : selections_ok (afterCursorState d);
  dk_count : is_uint32 (zlen (data_changes d));
  dk_changes : Forall change_ok (data_changes d) }.

(** [null] comes back as an empty array. *)
Definition loaded (d : SingleModelEditStackData) : SingleModelEditStackData :=
  mkData (beforeVersionId d) (afterVersionId d) (beforeEOL d) (afterEOL d) (Some (sels (beforeCursorState d))) (Some (sels (afterCursorState d))) (data_changes d).

(** A writer puts these bytes where it is and goes to their end. *)
Definition writes (f : list Z -> Z -> list Z * Z) (bs : list Z) : Prop :=
  forall pre old post, zlen old = zlen bs -> f (pre ++ old ++ post) (zlen pre) = (pre ++ bs ++ post, zlen pre + zlen bs).

(** A reader that is at these bytes gives the value and goes to their end. *)
Definition yields {A} (f : list Z -> Z -> A * Z) (bs : list Z) (x : A) : Prop :=
  forall pre post, f (pre ++ bs ++ post) (zlen pre) = (x, zlen pre + zlen bs).

Lemma split_zlen {A} (l : list A) n m : 0 <= n -> 0 <= m -> zlen l = n + m -> exists l1 l2, l = l1 ++ l2 /\ zlen l1 = n /\ zlen l2 = m.
Proof.
  intros Hn Hm Hl. exists (take (Z.to_nat n) l), (drop (Z.to_nat n) l). rewrite take_drop. destruct (zlen_take_drop l n ltac:(lia)) as [-> ->]. split_and!; lia || done.
Qed.

Lemma writes_app f g bs cs : writes f bs -> writes g cs -> writes (fun b o => let '(b, o) := f b o in g b o) (bs ++ cs).
Proof.
  intros Hf Hg pre old post Hl. rewrite zlen_app in Hl. destruct (split_zlen old (zlen bs) (zlen cs) (zlen_nonneg _) (zlen_nonneg _) Hl) as (o1 & o2 & -> & H1 & H2).
  rewrite <- app_assoc, (Hf pre o1 (o2 ++ post) H1). rewrite (app_assoc pre), <- zlen_app, (Hg (pre ++ bs) o2 post H2), zlen_app, <- !app_assoc, zlen_app. f_equal. lia.
Qed.

Lemma writes_nil : writes (fun b o => (b, o)) [].
Proof.
  intros pre old post Hl. assert (old = []) as -> by (destruct old; [done|]; rewrite zlen_cons in Hl; pose proof (zlen_nonneg old); change (zlen (@nil Z)) with 0 in Hl; lia).
  change (zlen (@nil Z)) with 0. by rewrite Z.add_0_r.
Qed.

Lemma writes_32 v : is_uint32 v -> writes (w32 v) (be32 v).
Proof. intros Hv pre old post Hl. unfold w32. by rewrite (writeUInt32BE_app pre old post v Hv Hl). Qed.

Lemma writes_8 v : 0 <= v < 256 -> writes (w8 v) [v].
Proof. intros Hv pre [|x [|y old]] post Hl; try done; unfold zlen in Hl; simpl in Hl; try lia. unfold w8. cbn [app]. rewrite put8_app by done. by rewrite Z.mod_small by done. Qed.

Lemma yields_32 v : is_uint32 v -> yields r32 (be32 v) v.
Proof. intros Hv pre post. unfold r32. by rewrite (readUInt32BE_app pre v post Hv). Qed.

Lemma yields_8 v : yields r8 [v] v.
Proof. intros pre post. unfold r8. rewrite <- (Z.add_0_r (zlen pre)) at 1. by rewrite at_app_zlen. Qed.

(** Reading a value and going on with what is after it. *)
Lemma yields_step {A B} (f : list Z -> Z -> A * Z) bs x pre post (k : A -> Z -> B) : yields f bs x ->
  (let '(a, o) := f (pre ++ bs ++ post) (zlen pre) in k a o) = k x (zlen (pre ++ bs)).
Proof. intros Hf. by rewrite Hf, zlen_app. Qed.

Lemma writes_selection s : selection_ok s -> writes (SD.write_selection s) (selection_bytes s).
Proof. intros (_ & H1 & H2 & H3 & H4). unfold SD.write_selection, selection_bytes. repeat (apply writes_app; [by apply writes_32|]). by apply writes_32. Qed.

Lemma writes_selections l : Forall selection_ok l -> writes (SD.write_selections l) (l ≫= selection_bytes).
Proof. induction 1 as [|s l Hs Hl IH]; [apply writes_nil|]. apply (writes_app _ _ _ _ (writes_selection s Hs) IH). Qed.

Lemma writes_writeSelections s : selections_ok s -> writes (SD.writeSelections s) (selections_bytes (sels s)).
Proof.
  intros [Hs Hn]. unfold SD.writeSelections, selections_bytes. destruct s as [l|]; apply writes_app; try (by apply writes_32); [by apply writes_selections|apply writes_nil].
Qed.

Lemma zlen_change_bytes e : zlen (change_bytes e) = writeSize e.
Proof. unfold change_bytes, writeSize. rewrite !zlen_app, !zlen_string_bytes. change (zlen (be32 (oldPosition e))) with 4. change (zlen (be32 (newPosition e))) with 4. lia. Qed.

Lemma writes_changes cs : Forall change_ok cs -> writes (SD.write_changes cs) (cs ≫= change_bytes).
Proof.
  induction 1 as [|e cs He Hcs IH]; [apply writes_nil|]. apply (writes_app (write e)); [|exact IH]. intros pre old post Hl.
  rewrite zlen_change_bytes in *. by apply write_app.
Qed.

Lemma zlen_selections_bytes l : zlen (selections_bytes l) = 4 + 16 * zlen l.
Proof.
  unfold selections_bytes. rewrite zlen_app. change (zlen (be32 (zlen l))) with 4. f_equal. induction l as [|s l IH]; [done|].
  change ((s :: l) ≫= selection_bytes) with (selection_bytes s ++ (l ≫= selection_bytes)). rewrite zlen_app, zlen_cons, IH. change (zlen (selection_bytes s)) with 16. lia.
Qed.

Lemma changes_size cs n : foldl (fun size change => size + writeSize change) n cs = n + zlen (cs ≫= change_bytes).
Proof.
  revert n. induction cs as [|e cs IH]; intros n; [change (zlen ([] ≫= change_bytes)) with 0; cbn [foldl]; lia|]. cbn [foldl]. rewrite IH.
  change ((e :: cs) ≫= change_bytes) with (change_bytes e ++ (cs ≫= change_bytes)). rewrite zlen_app, zlen_change_bytes. lia.
Qed.

Lemma selectionsSize s : SD.writeSelectionsSize s = zlen (selections_bytes (sels s)).
Proof. rewrite zlen_selections_bytes. unfold SD.writeSelectionsSize. destruct s as [l|]; [change (sels (Some l)) with l|change (zlen (sels None)) with 0]; lia. Qed.

Definition serialize_at (d : SingleModelEditStackData) (b : list Z) (offset : Z) : list Z * Z :=
  let '(b, offset) := w32 (beforeVersionId d) b offset in
  let '(b, offset) := w32 (afterVersionId d) b offset in
  let '(b, offset) := w8 (eol_byte (beforeEOL d)) b offset in
  let '(b, offset) := w8 (eol_byte (afterEOL d)) b offset in
  let '(b, offset) := SD.writeSelections (beforeCursorState d) b offset in
  let '(b, offset) := SD.writeSelections (afterCursorState d) b offset in
  let '(b, offset) := w32 (zlen (data_changes d)) b offset in
  SD.write_changes (data_changes d) b offset.

Lemma eol_byte_range e : 0 <= eol_byte e < 256.
Proof. by destruct e. Qed.

Lemma writes_data d : data_ok d -> writes (serialize_at d) (data_bytes d).
Proof.
  intros [H1 H2 H3 H4 H5 H6]. unfold data_bytes. apply writes_app; [by apply writes_32|]. apply writes_app; [by apply writes_32|]. apply writes_app; [apply writes_8, eol_byte_range|]. apply writes_app; [apply writes_8, eol_byte_range|].
  apply writes_app; [by apply writes_writeSelections|]. apply writes_app; [by apply writes_writeSelections|]. apply writes_app; [by apply writes_32|]. by apply writes_changes.
Qed.

Lemma serialize_bytes d : data_ok d -> SD.serialize d = data_bytes d.
Proof.
  intros Hd. unfold SD.serialize. rewrite changes_size, !selectionsSize. set (n := _ + zlen (data_changes d ≫= change_bytes)).
  assert (Hn : n = zlen (data_bytes d)).
  { unfold n, data_bytes. rewrite !zlen_app. change (zlen (be32 (beforeVersionId d))) with 4. change (zlen (be32 (afterVersionId d))) with 4. change (zlen (be32 (zlen (data_changes d)))) with 4. 
    change (zlen [eol_byte (beforeEOL d)]) with 1. change (zlen [eol_byte (afterEOL d)]) with 1. lia. }
  pose proof (writes_data d Hd [] (replicate (Z.to_nat n) 0) []) as Hw. rewrite zlen_replicate, !app_nil_r in Hw by (rewrite Hn; apply zlen_nonneg). cbn [app] in Hw. change (zlen (@nil Z)) with 0 in Hw.
  pose proof (zlen_nonneg (data_bytes d)). specialize (Hw ltac:(lia)). apply (f_equal fst) in Hw. cbn [fst] in Hw. etrans; [|exact Hw]. unfold serialize_at.
  repeat match goal with |- context [let '(_, _) := ?x in _] => destruct x end. done.
Qed.

Section decode.
Context (decode : list Z -> jsstr).
Hypothesis decode_ok : forall s, well_formed s = true -> starts_with_bom s = false -> decode s = s.

Lemma read_selections_ok l : Forall selection_ok l -> forall dest pre post,
  SD.read_selections (length l) (pre ++ (l ≫= selection_bytes) ++ post) (zlen pre) dest = (dest ++ l, zlen (pre ++ (l ≫= selection_bytes))).
Proof.
  induction 1 as [|s l (Es & H1 & H2 & H3 & H4) Hl IH]; intros dest pre post; cbn [length SD.read_selections].
  - change ([] ≫= selection_bytes) with (@nil Z). by rewrite !app_nil_r.
  - change ((s :: l) ≫= selection_bytes) with (selection_bytes s ++ (l ≫= selection_bytes)). set (rest := l ≫= selection_bytes) in *. unfold selection_bytes. rewrite <- !app_assoc.
    erewrite (yields_step r32 (be32 _)) by (by apply yields_32). erewrite app_assoc, (yields_step r32 (be32 _)) by (by apply yields_32).
    erewrite app_assoc, (yields_step r32 (be32 _)) by (by apply yields_32). erewrite app_assoc, (yields_step r32 (be32 _)) by (by apply yields_32). rewrite app_assoc, IH.
    rewrite <- Es. by rewrite <- !app_assoc.
Qed.

Lemma yields_selections l : Forall selection_ok l -> is_uint32 (zlen l) -> yields SD.readSelections (selections_bytes l) l.
Proof.
  intros Hl Hn pre post. unfold SD.readSelections, selections_bytes. erewrite <- app_assoc, (yields_step r32 (be32 _)) by (by apply yields_32). rewrite app_assoc.
  unfold zlen at 1. rewrite Nat2Z.id, read_selections_ok by done. by rewrite <- app_assoc, <- zlen_app.
Qed.

Lemma read_changes_ok cs : Forall change_ok cs -> forall dest pre post, zlen pre mod 2 = 0 ->
  SD.read_changes decode (length cs) (pre ++ (cs ≫= change_bytes) ++ post) (zlen pre) dest = Ok (dest ++ cs).
Proof.
  induction 1 as [|e cs He Hcs IH]; intros dest pre post Hpre; cbn [length SD.read_changes]; [by rewrite app_nil_r|].
  change ((e :: cs) ≫= change_bytes) with (change_bytes e ++ (cs ≫= change_bytes)). rewrite <- app_assoc, read_app by done. cbn [result_bind fst snd].
  rewrite app_assoc, <- zlen_change_bytes, <- zlen_app, IH; [by rewrite <- app_assoc|]. rewrite zlen_app, zlen_change_bytes. unfold writeSize, writeStringSize.
  replace (zlen pre + (4 + 4 + (4 + 2 * zlen (oldText e)) + (4 + 2 * zlen (newText e)))) with (zlen pre + (8 + zlen (oldText e) + zlen (newText e)) * 2) by lia. by rewrite Z.mod_add by lia.
Qed.

Lemma deserialize_bytes d : data_ok d -> SD.deserialize decode (data_bytes d) = Ok (loaded d).
Proof.
  intros [H1 H2 [H3 H3'] [H4 H4'] H5 H6]. unfold SD.deserialize, data_bytes. change 0 with (zlen (@nil Z)) at 1. rewrite <- (app_nil_l (be32 (beforeVersionId d) ++ _)).
  erewrite (yields_step r32 (be32 _)) by (by apply yields_32). erewrite app_assoc, (yields_step r32 (be32 _)) by (by apply yields_32).
  erewrite app_assoc, (yields_step r8 [_]) by apply yields_8. erewrite app_assoc, (yields_step r8 [_]) by apply yields_8.
  erewrite app_assoc, (yields_step SD.readSelections (selections_bytes _)) by (by apply yields_selections). erewrite app_assoc, (yields_step SD.readSelections (selections_bytes _)) by (by apply yields_selections).
  erewrite app_assoc, (yields_step r32 (be32 _)) by (by apply yields_32). unfold zlen at 1. rewrite Nat2Z.id. rewrite <- (app_nil_r (data_changes d ≫= change_bytes)), app_assoc, read_changes_ok.
  - cbn [result_bind]. unfold loaded. by destruct (beforeEOL d), (afterEOL d).
  - done.
  - rewrite !zlen_app, !zlen_selections_bytes. change (zlen (@nil Z)) with 0. change (zlen (be32 (beforeVersionId d))) with 4. change (zlen (be32 (afterVersionId d))) with 4. change (zlen (be32 (zlen (data_changes d)))) with 4.
    change (zlen [eol_byte (beforeEOL d)]) with 1. change (zlen [eol_byte (afterEOL d)]) with 1.
    match goal with |- ?x mod 2 = 0 => replace x with ((11 + 8 * zlen (sels (beforeCursorState d)) + 8 * zlen (sels (afterCursorState d))) * 2) by lia end. apply Z.mod_mul. lia.
Qed.

Lemma loaded_ok d : data_ok d -> data_ok (loaded d) /\ loaded (loaded d) = loaded d.
Proof. intros [H1 H2 H3 H4 H5 H6]. split; [by split|done]. Qed.

End decode.


