(* ===== verification/UndoRedo.v ===== *)
(** * The undo and redo stacks

    [ResourceEditStack] and [UndoRedoService] of
    [src/src/vs/platform/undoRedo/common/undoRedoService.ts], for elements of one resource:
    the stacks of past and future elements of every resource, groups and sources of elements,
    and undoing and redoing.  The elements themselves are any type, of which the service uses
    two operations on a world that it does not look at.

    A prompt for confirmation ends the call: it is given back, and [confirmAndContinueUndo]
    goes on with the answer, in whatever state the service is by then.  Elements of several
    resources are left out, and so are labels and messages.  An object is told from another
    by its number, which is unique; the key of a resource is not the empty text. *)

From S2P Require Import Prelude.

#[local] Open Scope js_scope.

(** A resource is its comparison key. *)
Definition key : Type := list Z.

(** What calling [undo] or [redo] of an element does: the element and the world after it, or
    an exception. *)
Inductive outcome (E W : Type) : Type :=
  | Returned (e : E) (w : W)
  | Raised (w : W).
Arguments Returned {E W} e w.
Arguments Raised {E W} w.

(** [UndoRedoGroup] and [UndoRedoSource]; number 0 is [None]. *)
Record UndoRedoGroup : Type := mkGroup { group_id : Z; group_order : Z }.

Definition nextOrder (this : UndoRedoGroup) : Z * UndoRedoGroup :=
  if group_id this =? 0 then (0, this) else (group_order this, mkGroup (group_id this) (group_order this + 1)).

(** A [Map]: its entries in the order in which their keys were set first. *)
Module JsMap.

Definition get {A} (m : list (key * A)) (k : key) : option A := snd <$> find (fun e => bool_decide (e.1 = k)) m.
Definition has {A} (m : list (key * A)) (k : key) : bool := existsb (fun e => bool_decide (e.1 = k)) m.
Definition set {A} (m : list (key * A)) (k : key) (a : A) : list (key * A) :=
  if has m k then (fun e => if decide (e.1 = k) then (e.1, a) else e) <$> m else m ++ [(k, a)].
Definition delete {A} (m : list (key * A)) (k : key) : list (key * A) := filter (fun e => e.1 <> k) m.

End JsMap.

Section stacks.
Context {E W : Type} (undo_ redo_ : E -> W -> outcome E W).

Record ResourceStackElement : Type := mkStackElement {
  se_id : Z;
  actual : E;
  confirmBeforeUndo : bool;
  groupId : Z;
  groupOrder : Z;
  sourceId : Z;
  sourceOrder : Z;
  isValid : bool }.

Definition setValid (v : bool) (e : ResourceStackElement) : ResourceStackElement :=
  mkStackElement (se_id e) (actual e) (confirmBeforeUndo e) (groupId e) (groupOrder e) (sourceId e) (sourceOrder e) v.

(** The object of the element was changed. *)
Definition with_actual (a : E) (e : ResourceStackElement) : ResourceStackElement :=
  mkStackElement (se_id e) a (confirmBeforeUndo e) (groupId e) (groupOrder e) (sourceId e) (sourceOrder e) (isValid e).

(** The last element of both lists is the closest one. *)
Record ResourceEditStack : Type := mkStack {
  past : list ResourceStackElement;
  future : list ResourceStackElement;
  locked : bool;
  stack_versionId : Z }.

(** ** One stack *)

Definition new_stack : ResourceEditStack := mkStack [] [] false 1.
Definition flushAllElements (this : ResourceEditStack) : ResourceEditStack := mkStack [] [] (locked this) (stack_versionId this + 1).

Definition setElementsIsValid (v : bool) (this : ResourceEditStack) : ResourceEditStack :=
  mkStack (setValid v <$> past this) (setValid v <$> future this) (locked this) (stack_versionId this).

Definition setElementsValidFlag (v : bool) (filter : E -> bool) (this : ResourceEditStack) : ResourceEditStack :=
  let set e := if filter (actual e) then setValid v e else e in
  mkStack (set <$> past this) (set <$> future this) (locked this) (stack_versionId this).

Definition push_on (element : ResourceStackElement) (this : ResourceEditStack) : ResourceEditStack :=
  mkStack (past this ++ [element]) [] (locked this) (stack_versionId this + 1).

Definition stack_snapshot (this : ResourceEditStack) : list Z := (se_id <$> past this) ++ rev (se_id <$> future this).

(** Does the element differ from what the snapshot has at this index? *)
Definition differs (snapshot : list Z) (snapshotIndex : Z) (element : ResourceStackElement) : bool :=
  (snapshotIndex >=? zlen snapshot) || negb (bool_decide (snapshot.[snapshotIndex] = Some (se_id element))).

(** The loop over the past: is it as it was, and the index after it. *)
Definition scan_past (snapshot : list Z) (l : list ResourceStackElement) : bool * Z :=
  foldl (fun '(isOK, snapshotIndex) element => (isOK && negb (differs snapshot snapshotIndex element), snapshotIndex + 1)) (true, 0) l.

(** The loop over the future, from its end: the index of the first element that differs. *)
Definition scan_future (snapshot : list Z) (l : list ResourceStackElement) (isOK : bool) (snapshotIndex : Z) : bool * Z * Z :=
  foldl (fun '(isOK, snapshotIndex, removeFutureBefore) i =>
      match l.[i] with
      | Some element => if isOK && differs snapshot snapshotIndex element then (false, snapshotIndex + 1, i) else (isOK, snapshotIndex + 1, removeFutureBefore)
      | None => (isOK, snapshotIndex, removeFutureBefore)
      end) (isOK, snapshotIndex, -1) (rev (zrange 0 (zlen l))).

Definition restore_stack (snapshot : list Z) (this : ResourceEditStack) : ResourceEditStack :=
  let '(isOK, snapshotIndex) := scan_past snapshot (past this) in
  let removePastAfter := if isOK then -1 else 0 in
  let '(_, _, removeFutureBefore) := scan_future snapshot (future this) isOK snapshotIndex in
  mkStack (if negb (removePastAfter =? -1) then take (Z.to_nat removePastAfter) (past this) else past this)
    (if negb (removeFutureBefore =? -1) then drop (Z.to_nat (removeFutureBefore + 1)) (future this) else future this)
    (locked this) (stack_versionId this + 1).

Definition getClosestPastElement (this : ResourceEditStack) : option ResourceStackElement := last (past this).
Definition getSecondClosestPastElement (this : ResourceEditStack) : option ResourceStackElement :=
  if zlen (past this) <? 2 then None else (past this).[zlen (past this) - 2].
Definition getClosestFutureElement (this : ResourceEditStack) : option ResourceStackElement := last (future this).
Definition hasPastElements (this : ResourceEditStack) : bool := zlen (past this) >? 0.
Definition hasFutureElements (this : ResourceEditStack) : bool := zlen (future this) >? 0.

Definition moveBackward (element : ResourceStackElement) (this : ResourceEditStack) : ResourceEditStack :=
  mkStack (removelast (past this)) (future this ++ [element]) (locked this) (stack_versionId this + 1).

Definition moveForward (element : ResourceStackElement) (this : ResourceEditStack) : ResourceEditStack :=
  mkStack (past this ++ [element]) (removelast (future this)) (locked this) (stack_versionId this + 1).

Definition with_locked (b : bool) (this : ResourceEditStack) : ResourceEditStack := mkStack (past this) (future this) b (stack_versionId this).

(** ** The service *)

Record UndoRedoService : Type := mkService {
  editStacks : list (key * ResourceEditStack);
  stackElementCounter : Z }.

Definition set_stack (k : key) (s : ResourceEditStack) (this : UndoRedoService) : UndoRedoService :=
  mkService (JsMap.set (editStacks this) k s) (stackElementCounter this).

Definition pushElement (element : E) (confirm : bool) (k : key) (group source : UndoRedoGroup) (this : UndoRedoService)
    : UndoRedoService * UndoRedoGroup * UndoRedoGroup :=
  let '(groupOrder, group') := nextOrder group in
  let '(sourceOrder, source') := nextOrder source in
  let id := stackElementCounter this + 1 in
  let e := mkStackElement id element confirm (group_id group) groupOrder (group_id source) sourceOrder true in
  let this := mkService (editStacks this) id in
  (set_stack k (push_on e (default new_stack (JsMap.get (editStacks this) k))) this, group', source').

Definition getLastElement (k : key) (this : UndoRedoService) : option E :=
  editStack ← JsMap.get (editStacks this) k;
  if hasFutureElements editStack then None else actual <$> getClosestPastElement editStack.

(** The object that [getLastElement] gives was changed. *)
Definition set_last (k : key) (a : E) (this : UndoRedoService) : UndoRedoService :=
  match JsMap.get (editStacks this) k with
  | Some s => set_stack k (mkStack (alter (with_actual a) (length (past s) - 1)%nat (past s)) (future s) (locked s) (stack_versionId s)) this
  | None => this
  end.

Definition removeElements (k : key) (this : UndoRedoService) : UndoRedoService :=
  if JsMap.has (editStacks this) k then mkService (JsMap.delete (editStacks this) k) (stackElementCounter this) else this.

Definition setValidFlag (k : key) (v : bool) (filter : E -> bool) (this : UndoRedoService) : UndoRedoService :=
  match JsMap.get (editStacks this) k with Some s => set_stack k (setElementsValidFlag v filter s) this | None => this end.

Definition hasElements (k : key) (this : UndoRedoService) : bool :=
  match JsMap.get (editStacks this) k with Some s => hasPastElements s || hasFutureElements s | None => false end.

Definition createSnapshot (k : key) (this : UndoRedoService) : list Z :=
  match JsMap.get (editStacks this) k with Some s => stack_snapshot s | None => [] end.

Definition restoreSnapshot (k : key) (snapshot : list Z) (this : UndoRedoService) : UndoRedoService :=
  match JsMap.get (editStacks this) k with
  | None => this
  | Some s =>
      let s := restore_stack snapshot s in
      let this := set_stack k s this in
      if negb (hasPastElements s) && negb (hasFutureElements s)
      then mkService (JsMap.delete (editStacks this) k) (stackElementCounter this) else this
  end.

Definition getElements (k : key) (this : UndoRedoService) : list E * list E :=
  match JsMap.get (editStacks this) k with Some s => (actual <$> past s, actual <$> future s) | None => ([], []) end.

(** The loops that look for the closest element of a group or a source, which one stack of
    every resource offers: the first of the best. *)
Definition find_closest (candidate : ResourceEditStack -> option ResourceStackElement) (matches : ResourceStackElement -> bool)
    (better : ResourceStackElement -> ResourceStackElement -> bool) (this : UndoRedoService) : option (ResourceStackElement * key) :=
  foldl (fun matched e =>
    match candidate e.2 with
    | None => matched
    | Some c => if matches c then match matched with
                                  | None => Some (c, e.1)
                                  | Some m => if better c m.1 then Some (c, e.1) else matched
                                  end
                else matched
    end) None (editStacks this).

Definition findClosestUndoElementInGroup (id : Z) (this : UndoRedoService) : option (ResourceStackElement * key) :=
  if id =? 0 then None
  else find_closest getClosestPastElement (fun c => groupId c =? id) (fun c m => groupOrder c >? groupOrder m) this.

Definition findClosestRedoElementInGroup (id : Z) (this : UndoRedoService) : option (ResourceStackElement * key) :=
  if id =? 0 then None
  else find_closest getClosestFutureElement (fun c => groupId c =? id) (fun c m => groupOrder c <? groupOrder m) this.

Definition findClosestUndoElementWithSource (id : Z) (this : UndoRedoService) : option (ResourceStackElement * key) :=
  if id =? 0 then None
  else find_closest getClosestPastElement (fun c => sourceId c =? id) (fun c m => sourceOrder c >? sourceOrder m) this.

Definition findClosestRedoElementWithSource (id : Z) (this : UndoRedoService) : option (ResourceStackElement * key) :=
  if id =? 0 then None
  else find_closest getClosestFutureElement (fun c => sourceId c =? id) (fun c m => sourceOrder c <? sourceOrder m) this.

Definition canUndo (k : key) (this : UndoRedoService) : bool :=
  match JsMap.get (editStacks this) k with Some s => hasPastElements s | None => false end.
Definition canUndo_source (id : Z) (this : UndoRedoService) : bool :=
  match findClosestUndoElementWithSource id this with Some _ => true | None => false end.
Definition canRedo (k : key) (this : UndoRedoService) : bool :=
  match JsMap.get (editStacks this) k with Some s => hasFutureElements s | None => false end.
Definition canRedo_source (id : Z) (this : UndoRedoService) : bool :=
  match findClosestRedoElementWithSource id this with Some _ => true | None => false end.

(** ** Undoing and redoing *)

(** A prompt that was shown: the resource, and the source that asked. *)
Record Prompt : Type := mkPrompt { prompt_key : key; prompt_source : Z }.

(** The state after a call: the service, the world, and the prompt it ended with, if any. *)
Definition after : Type := UndoRedoService * W * option Prompt.

(** [_safeInvokeWithLocks] for one stack, which [moved] takes the place of: the element is
    called with the stack locked; then the continuation, or [_onError].  The callers have seen
    to it that the stack is not locked, so that [_acquireLocks] does not throw. *)
Definition invoke_with_lock (invoke : E -> W -> outcome E W) (k : key) (moved : ResourceEditStack) (put : E -> ResourceEditStack -> ResourceEditStack)
    (element : ResourceStackElement) (continuation : UndoRedoService -> W -> option after) (this : UndoRedoService) (w : W) : option after :=
  let this := set_stack k (with_locked true moved) this in
  match invoke (actual element) w with
  | Returned a w => continuation (set_stack k (with_locked false (put a moved)) this) w
  | Raised w => Some (removeElements k (set_stack k (with_locked false moved) this), w, None)
  end.

(** The element that was moved is the last one of the future, or of the past. *)
Definition put_future (a : E) (s : ResourceEditStack) : ResourceEditStack :=
  mkStack (past s) (alter (with_actual a) (length (future s) - 1)%nat (future s)) (locked s) (stack_versionId s).
Definition put_past (a : E) (s : ResourceEditStack) : ResourceEditStack :=
  mkStack (alter (with_actual a) (length (past s) - 1)%nat (past s)) (future s) (locked s) (stack_versionId s).

(** [_undo], with [_resourceUndo] and [_continueUndoInGroup], which calls it again; [None] is
    a lack of fuel. *)
Fixpoint undo_loop (fuel : nat) (k : key) (source : Z) (undoConfirmed : bool) (this : UndoRedoService) (w : W) : option after :=
  match fuel with
  | O => None
  | S fuel =>
      match JsMap.get (editStacks this) k with
      | None => Some (this, w, None)
      | Some editStack =>
          match getClosestPastElement editStack with
          | None => Some (this, w, None)
          | Some element =>
              let earlier :=
                match findClosestUndoElementInGroup (groupId element) this with
                | Some (m, k') => if se_id m =? se_id element then None else Some k'
                | None => None
                end in
              match earlier with
              | Some k' => undo_loop fuel k' source undoConfirmed this w
              | None =>
                  let shouldPromptForConfirmation := negb (sourceId element =? source) || confirmBeforeUndo element in
                  if shouldPromptForConfirmation && negb undoConfirmed then Some (this, w, Some (mkPrompt k source))
                  else if negb (isValid element) then Some (set_stack k (flushAllElements editStack) this, w, None)
                  else if locked editStack then Some (this, w, None)
                  else
                    invoke_with_lock undo_ k (moveBackward element editStack) put_future element
                      (fun this w =>
                         if groupId element =? 0 then Some (this, w, None)
                         else match findClosestUndoElementInGroup (groupId element) this with
                              | Some (_, k') => undo_loop fuel k' 0 undoConfirmed this w
                              | None => Some (this, w, None)
                              end) this w
              end
          end
      end
  end.

(** [_redo], with [_resourceRedo] and [_continueRedoInGroup]. *)
Fixpoint redo_loop (fuel : nat) (k : key) (this : UndoRedoService) (w : W) : option after :=
  match fuel with
  | O => None
  | S fuel =>
      match JsMap.get (editStacks this) k with
      | None => Some (this, w, None)
      | Some editStack =>
          match getClosestFutureElement editStack with
          | None => Some (this, w, None)
          | Some element =>
              let earlier :=
                match findClosestRedoElementInGroup (groupId element) this with
                | Some (m, k') => if se_id m =? se_id element then None else Some k'
                | None => None
                end in
              match earlier with
              | Some k' => redo_loop fuel k' this w
              | None =>
                  if negb (isValid element) then Some (set_stack k (flushAllElements editStack) this, w, None)
                  else if locked editStack then Some (this, w, None)
                  else
                    invoke_with_lock redo_ k (moveForward element editStack) put_past element
                      (fun this w =>
                         if groupId element =? 0 then Some (this, w, None)
                         else match findClosestRedoElementInGroup (groupId element) this with
                              | Some (_, k') => redo_loop fuel k' this w
                              | None => Some (this, w, None)
                              end) this w
              end
          end
      end
  end.

(** Every element is undone or redone once at most, after at most one step to another
    resource. *)
Definition count_of (side : ResourceEditStack -> list ResourceStackElement) (this : UndoRedoService) : nat :=
  sum_list_with (fun e => length (side e.2)) (editStacks this).
Definition undo_fuel (this : UndoRedoService) : nat := (2 * count_of past this + 2)%nat.
Definition redo_fuel (this : UndoRedoService) : nat := (2 * count_of future this + 2)%nat.

Definition undo (k : key) (this : UndoRedoService) (w : W) : option after := undo_loop (undo_fuel this) k 0 false this w.
Definition redo (k : key) (this : UndoRedoService) (w : W) : option after := redo_loop (redo_fuel this) k this w.

Definition undo_source (id : Z) (this : UndoRedoService) (w : W) : option after :=
  match findClosestUndoElementWithSource id this with
  | Some (_, k) => undo_loop (undo_fuel this) k id false this w
  | None => Some (this, w, None)
  end.

Definition redo_source (id : Z) (this : UndoRedoService) (w : W) : option after :=
  match findClosestRedoElementWithSource id this with
  | Some (_, k) => redo_loop (redo_fuel this) k this w
  | None => Some (this, w, None)
  end.

(** The answer to a prompt. *)
Definition confirmAndContinueUndo (p : Prompt) (confirmed : bool) (this : UndoRedoService) (w : W) : option after :=
  if confirmed then undo_loop (undo_fuel this) (prompt_key p) (prompt_source p) true this w else Some (this, w, None).

End stacks.
