(* ===== verification/UndoEnds.v ===== *)
(** * Undoing and redoing end

    Lemmas on the undo and redo stacks of [UndoRedo]: the maps, what undoing and redoing do
    with an element that is in no group, and that both end, however the elements of a group
    lie on the stacks of several resources. *)

From S2P Require Import Prelude UndoRedo.

#[local] Open Scope js_scope.
#[local] Arguments Z.eqb : simpl never.
#[local] Arguments Z.gtb : simpl never.
#[local] Arguments Z.ltb : simpl never.
#[local] Arguments Z.sub : simpl never.

(** ** Maps *)

Section maps.
Context {A : Type}.
Implicit Types (l : list (key * A)) (k : key) (a : A).

Lemma get_cons e l k : JsMap.get (e :: l) k = if decide (e.1 = k) then Some e.2 else JsMap.get l k.
Proof. unfold JsMap.get. cbn [find]. case_decide; [by rewrite bool_decide_eq_true_2|by rewrite bool_decide_eq_false_2]. Qed.

Lemma get_has l k : JsMap.has l k = true <-> exists a, JsMap.get l k = Some a.
Proof.
  unfold JsMap.has. induction l as [|e l IH]; [split; [done|by intros [a ?]]|]. rewrite get_cons. cbn [existsb]. case_decide.
  - rewrite bool_decide_eq_true_2 by done. split; [by eexists|done].
  - by rewrite bool_decide_eq_false_2.
Qed.

Lemma get_set l k a : JsMap.get (JsMap.set l k a) k = Some a.
Proof.
  unfold JsMap.set. destruct (JsMap.has l k) eqn:Eh.
  - induction l as [|e l IH]; [done|]. rewrite fmap_cons, get_cons. unfold JsMap.has in *. cbn [existsb] in Eh. destruct (decide (e.1 = k)) as [He|He]; cbn [fst].
    + by rewrite decide_True.
    + rewrite decide_False by done. rewrite bool_decide_eq_false_2 in Eh by done. by apply IH.
  - induction l as [|e l IH]; [unfold JsMap.get; simpl; by rewrite bool_decide_eq_true_2|]. cbn [app]. rewrite get_cons. unfold JsMap.has in *. cbn [existsb] in Eh.
    apply orb_false_iff in Eh as [E1%bool_decide_eq_false_1 E2]. rewrite decide_False by done. by apply IH.
Qed.

Lemma set_keys l k a b : JsMap.get l k = Some b -> (JsMap.set l k a).*1 = l.*1.
Proof.
  intros Hg. unfold JsMap.set. rewrite (proj2 (get_has l k)) by by eexists. rewrite <- list_fmap_compose. apply list_fmap_ext. intros _ e _. unfold compose. by destruct (decide (e.1 = k)).
Qed.

Lemma get_elem l k a : JsMap.get l k = Some a -> (k, a) ∈ l.
Proof.
  induction l as [|[k' b] l IH]; [done|]. rewrite get_cons. cbn [fst snd]. case_decide as He; [intros [= ->]; subst; by left|]. intros Hg. right. by apply IH.
Qed.

Lemma elem_get l k a : NoDup (l.*1) -> (k, a) ∈ l -> JsMap.get l k = Some a.
Proof.
  induction l as [|[k' b] l IH]; intros Hn Hin; [by apply not_elem_of_nil in Hin|]. rewrite fmap_cons in Hn. apply NoDup_cons in Hn as [Hk Hn]. rewrite get_cons. cbn [fst snd].
  apply elem_of_cons in Hin as [[= -> ->]|Hin]; [by rewrite decide_True|]. rewrite decide_False; [by apply IH|]. intros ->. apply Hk. by apply (list_elem_of_fmap_2 fst) in Hin.
Qed.

(** The entry that is set, among the others. *)
Lemma set_split l k b : NoDup (l.*1) -> JsMap.get l k = Some b -> exists l1 l2, l = l1 ++ (k, b) :: l2 /\ forall a, JsMap.set l k a = l1 ++ (k, a) :: l2.
Proof.
  intros Hn Hg. unfold JsMap.set. rewrite (proj2 (get_has l k)) by by eexists. induction l as [|[k' c] l IH]; [done|]. rewrite fmap_cons in Hn. apply NoDup_cons in Hn as [Hk Hn]. rewrite get_cons in Hg. cbn [fst snd] in *.
  destruct (decide (k' = k)) as [->|He].
  - injection Hg as ->. exists [], l. split; [done|]. intros a. rewrite fmap_cons. cbn [fst app]. rewrite decide_True by done. f_equal. rewrite <- (list_fmap_id l) at 2. apply list_fmap_ext. intros i e Hi. cbn.
    rewrite decide_False; [by destruct e|]. intros E. apply Hk. rewrite <- E. apply list_elem_of_fmap_2. by eapply list_elem_of_lookup_2.
  - destruct (IH Hn Hg) as (l1 & l2 & -> & Hs). exists ((k', c) :: l1), l2. split; [done|]. intros a. rewrite fmap_cons, Hs. cbn [fst]. by rewrite decide_False.
Qed.

Lemma set_set l k a b : JsMap.set (JsMap.set l k a) k b = JsMap.set l k b.
Proof.
  unfold JsMap.set at 1. rewrite (proj2 (get_has _ k)) by (exists a; apply get_set). unfold JsMap.set. destruct (JsMap.has l k) eqn:Eh.
  - rewrite <- list_fmap_compose. apply list_fmap_ext. intros i e _. unfold compose. destruct (decide (e.1 = k)); cbn [fst]; [by rewrite decide_True|by rewrite decide_False].
  - rewrite fmap_app. cbn. rewrite decide_True by done. f_equal. rewrite <- (list_fmap_id l) at 2. apply list_fmap_ext. intros i e Hi. cbn. rewrite decide_False; [by destruct e|]. intros He.
    assert (Hh : JsMap.has l k = true); [|by rewrite Hh in Eh]. unfold JsMap.has. apply existsb_exists. exists e. split; [by apply list_elem_of_In; eapply list_elem_of_lookup_2|by apply bool_decide_eq_true_2].
Qed.

Lemma delete_keys l k : NoDup (l.*1) -> NoDup ((JsMap.delete l k).*1).
Proof.
  unfold JsMap.delete. induction l as [|e l IH]; [done|]. rewrite fmap_cons. intros [Hk Hn]%NoDup_cons. rewrite filter_cons. case_decide; [|by apply IH]. rewrite fmap_cons. constructor; [|by apply IH].
  intros (x & E & [_ Hx]%list_elem_of_filter)%list_elem_of_fmap_1. apply Hk. rewrite E. by apply list_elem_of_fmap_2.
Qed.

End maps.

Section stacks.
Context {E W : Type} (undo_ redo_ : E -> W -> outcome E W).
Implicit Types (u : UndoRedoService (E := E)) (s : ResourceEditStack (E := E)) (x : ResourceStackElement (E := E)) (k : key) (w : W).

(** No resource has two stacks. *)
Definition one_each u : Prop := NoDup ((editStacks u).*1).

Lemma set_stack_get k s u : JsMap.get (editStacks (set_stack k s u)) k = Some s.
Proof. apply get_set. Qed.

Lemma set_stack_one k s s0 u : JsMap.get (editStacks u) k = Some s0 -> one_each u -> one_each (set_stack k s u).
Proof. intros Hg Hu. unfold one_each, set_stack. cbn [editStacks]. by rewrite (set_keys _ _ _ _ Hg). Qed.

Lemma removeElements_one k u : one_each u -> one_each (removeElements k u).
Proof. intros Hu. unfold removeElements. destruct (JsMap.has _ _); [by apply delete_keys|done]. Qed.

Lemma set_stack_twice k s1 s2 u : set_stack k s2 (set_stack k s1 u) = set_stack k s2 u.
Proof. unfold set_stack. cbn [editStacks stackElementCounter]. by rewrite set_set. Qed.

Lemma stack_split k s0 u : one_each u -> JsMap.get (editStacks u) k = Some s0 ->
  exists l1 l2, editStacks u = l1 ++ (k, s0) :: l2 /\ forall s, editStacks (set_stack k s u) = l1 ++ (k, s) :: l2.
Proof. intros Hu Hg. by apply set_split. Qed.

(** ** Tidy services *)

Definition stack_ids s : list Z := (se_id <$> past s) ++ (se_id <$> future s).
Definition all_ids u : list Z := editStacks u ≫= fun e => stack_ids e.2.

(** No resource has two stacks, no element is twice on the stacks, its number was given out,
    and no stack is locked. *)
Record tidy u : Prop := {
  td_one : one_each u;
  td_ids : NoDup (all_ids u);
  td_given : Forall (fun i => 0 < i <= stackElementCounter u) (all_ids u);
  td_counter : 0 <= stackElementCounter u;
  td_unlocked : Forall (fun e => locked e.2 = false) (editStacks u) }.

Lemma NoDup_part (l l' : list Z) : l ⊆+ l' -> NoDup l' -> NoDup l.
Proof. intros (m & Hm)%submseteq_Permutation. rewrite Hm. by intros [? _]%NoDup_app. Qed.

Lemma Forall_part (P : Z -> Prop) (l l' : list Z) : l ⊆+ l' -> Forall P l' -> Forall P l.
Proof. intros (m & Hm)%submseteq_Permutation. rewrite Hm. by intros [? _]%Forall_app. Qed.

(** A stack whose elements are among those of the old one takes its place. *)
Lemma tidy_set k s s0 u : tidy u -> JsMap.get (editStacks u) k = Some s0 -> stack_ids s ⊆+ stack_ids s0 -> locked s = false -> tidy (set_stack k s u).
Proof.
  intros [T1 T2 T3 T5 T4] Hg Hs Hl. destruct (stack_split k s0 u T1 Hg) as (l1 & l2 & El & Es). unfold all_ids in *. rewrite El in T2, T3, T4.
  assert (Hsub : (editStacks (set_stack k s u) ≫= fun e => stack_ids e.2) ⊆+ ((l1 ++ (k, s0) :: l2) ≫= fun e => stack_ids e.2)).
  { rewrite Es, !bind_app, !bind_cons. cbn [snd]. by apply submseteq_app, submseteq_app. }
  split; unfold all_ids; [by eapply set_stack_one|by eapply NoDup_part|by eapply Forall_part|done|]. rewrite Es. apply Forall_app in T4 as [U1 [_ U2]%Forall_cons]. apply Forall_app. split; [done|]. by constructor.
Qed.

Lemma tidy_delete k u : tidy u -> tidy (mkService (JsMap.delete (editStacks u) k) (stackElementCounter u)).
Proof.
  intros [T1 T2 T3 T5 T4]. assert (Hsub : (JsMap.delete (editStacks u) k ≫= fun e => stack_ids e.2) ⊆+ all_ids u) by (apply bind_submseteq, sublist_submseteq, sublist_filter).
  split; unfold all_ids; cbn [editStacks stackElementCounter]; [by apply delete_keys|by eapply NoDup_part|by eapply Forall_part|done|]. apply Forall_forall. intros e [_ He]%list_elem_of_filter. rewrite Forall_forall in T4. by apply T4.
Qed.

Lemma tidy_remove k u : tidy u -> tidy (removeElements k u).
Proof. intros Ht. unfold removeElements. destruct (JsMap.has (editStacks u) k); [by apply tidy_delete|done]. Qed.

Lemma tidy_locked k s u : tidy u -> JsMap.get (editStacks u) k = Some s -> locked s = false.
Proof. intros [_ _ _ _ T4] Hg%get_elem. rewrite Forall_forall in T4. exact (T4 _ Hg). Qed.

Lemma count_set (side : ResourceEditStack (E := E) -> list (ResourceStackElement (E := E))) k s s0 u : one_each u -> JsMap.get (editStacks u) k = Some s0 ->
  (count_of side (set_stack k s u) + length (side s0) = count_of side u + length (side s))%nat.
Proof.
  intros Hu Hg. destruct (stack_split k s0 u Hu Hg) as (l1 & l2 & El & Es). unfold count_of. rewrite Es, El, !sum_list_with_app. cbn [sum_list_with snd]. lia.
Qed.

(** ** The closest element of a group *)

Lemma find_closest_elem candidate matches better u m k : find_closest candidate matches better u = Some (m, k) ->
  exists s, (k, s) ∈ editStacks u /\ candidate s = Some m /\ matches m = true.
Proof.
  unfold find_closest. assert (Hgen : forall l acc, (forall m k, acc = Some (m, k) -> exists s, (k, s) ∈ editStacks u /\ candidate s = Some m /\ matches m = true) ->
    (forall e, e ∈ l -> e ∈ editStacks u) -> foldl (fun matched e =>
    match candidate e.2 with
    | None => matched
    | Some c => if matches c then match matched with None => Some (c, e.1) | Some m => if better c m.1 then Some (c, e.1) else matched end else matched
    end) acc l = Some (m, k) -> exists s, (k, s) ∈ editStacks u /\ candidate s = Some m /\ matches m = true).
  { induction l as [|[k' s] l IH]; intros acc Ha Hl; cbn [foldl]; [by apply Ha|]. apply IH; [|intros e He; apply Hl; by right]. cbn [fst snd]. intros m' k''.
    destruct (candidate s) as [c|] eqn:Ec; [|by apply Ha]. destruct (matches c) eqn:Em; [|by apply Ha].
    assert (Hc : Some (c, k') = Some (m', k'') -> exists s, (k'', s) ∈ editStacks u /\ candidate s = Some m' /\ matches m' = true) by (intros [= <- <-]; exists s; split; [apply Hl; by left|done]).
    destruct acc as [[a ka]|]; [|exact Hc]. destruct (better c (a, ka).1); [exact Hc|by apply Ha]. }
  apply (Hgen _ None); [done|]. by intros e He.
Qed.

(** The closest element of its resource is that of its group. *)
Definition settled (candidate : ResourceEditStack (E := E) -> option (ResourceStackElement (E := E)))
    (find : Z -> UndoRedoService (E := E) -> option (ResourceStackElement (E := E) * key)) k u : Prop :=
  forall s x, JsMap.get (editStacks u) k = Some s -> candidate s = Some x ->
    match find (groupId x) u with Some (m, k') => se_id m = se_id x | None => True end.

Lemma undo_found g u m k : one_each u -> findClosestUndoElementInGroup g u = Some (m, k) -> settled getClosestPastElement findClosestUndoElementInGroup k u.
Proof.
  intros Hu Hf. pose proof Hf as Hf'. unfold findClosestUndoElementInGroup in Hf'. destruct (g =? 0); [done|]. apply find_closest_elem in Hf' as (s & Hs & Hc & Hg). apply (elem_get _ _ _ Hu) in Hs.
  intros s' x Hs' Hx. rewrite Hs in Hs'. injection Hs' as <-. rewrite Hc in Hx. injection Hx as <-. assert (groupId m = g) as -> by lia. by rewrite Hf.
Qed.

Lemma redo_found g u m k : one_each u -> findClosestRedoElementInGroup g u = Some (m, k) -> settled getClosestFutureElement findClosestRedoElementInGroup k u.
Proof.
  intros Hu Hf. pose proof Hf as Hf'. unfold findClosestRedoElementInGroup in Hf'. destruct (g =? 0); [done|]. apply find_closest_elem in Hf' as (s & Hs & Hc & Hg). apply (elem_get _ _ _ Hu) in Hs.
  intros s' x Hs' Hx. rewrite Hs in Hs'. injection Hs' as <-. rewrite Hc in Hx. injection Hx as <-. assert (groupId m = g) as -> by lia. by rewrite Hf.
Qed.

(** ** Both loops end *)

Definition keeps u u' : Prop := one_each u' /\ (tidy u -> tidy u').

Definition ends u (r : option (after (E := E) (W := W))) : Prop := exists u' w p, r = Some (u', w, p) /\ keeps u u'.

Lemma keeps_trans u u1 u2 : keeps u u1 -> keeps u1 u2 -> keeps u u2.
Proof. intros [_ H1] [H2 H3]. split; [done|]. auto. Qed.

Lemma ends_here u u' w p : keeps u u' -> ends u (Some (u', w, p)).
Proof. intros Hu. by exists u', w, p. Qed.

Lemma ends_later u u1 r : keeps u u1 -> ends u1 r -> ends u r.
Proof. intros Hk (u' & w & p & -> & Hk'). exists u', w, p. split; [done|]. by eapply keeps_trans. Qed.

Lemma keeps_same u : one_each u -> keeps u u.
Proof. by split. Qed.

Lemma keeps_set k s s0 u : one_each u -> JsMap.get (editStacks u) k = Some s0 -> stack_ids s ⊆+ stack_ids s0 -> (locked s0 = false -> locked s = false) -> keeps u (set_stack k s u).
Proof. intros Hu Hg Hs Hl. split; [by eapply set_stack_one|]. intros Ht. eapply tidy_set; [done|done|done|]. by eapply Hl, tidy_locked. Qed.

Lemma keeps_remove k u : one_each u -> keeps u (removeElements k u).
Proof. intros Hu. split; [by apply removeElements_one|apply tidy_remove]. Qed.

(** Calling an element, with what comes after it. *)
Lemma ends_invoke invoke k moved put x continuation s0 u w : one_each u -> JsMap.get (editStacks u) k = Some s0 ->
  stack_ids moved ⊆+ stack_ids s0 -> (forall a, stack_ids (put a moved) = stack_ids moved) ->
  (forall a w', let u' := set_stack k (with_locked false (put a moved)) u in one_each u' -> ends u' (continuation u' w')) ->
  ends u (invoke_with_lock invoke k moved put x continuation u w).
Proof.
  intros Hu Hg Hm Hp Hc. unfold invoke_with_lock. destruct (invoke (actual x) w) as [a w'|w']; rewrite set_stack_twice.
  - assert (Hk : keeps u (set_stack k (with_locked false (put a moved)) u)) by (eapply keeps_set; [done|done| |done]; by rewrite <- (Hp a) in Hm). eapply ends_later; [exact Hk|]. apply Hc, (proj1 Hk).
  - assert (Hk : keeps u (set_stack k (with_locked false moved) u)) by (by eapply keeps_set). apply ends_here. eapply keeps_trans; [exact Hk|]. apply keeps_remove, (proj1 Hk).
Qed.

(** Moving an element and changing it leaves the numbers. *)
Lemma alter_ids a n (l : list (ResourceStackElement (E := E))) : se_id <$> alter (with_actual a) n l = se_id <$> l.
Proof. revert n. induction l as [|y l IH]; intros [|n]; [done..|]. cbn. f_equal. apply IH. Qed.

Lemma removelast_last_app {A} (l : list A) (a : A) : last l = Some a -> l = removelast l ++ [a].
Proof. intros Hl. apply last_Some in Hl as [l' ->]. by rewrite removelast_last. Qed.

Lemma moveBackward_ids x s : last (past s) = Some x -> stack_ids (moveBackward x s) ⊆+ stack_ids s.
Proof.
  intros Hl. unfold stack_ids, moveBackward. cbn [past future]. rewrite (removelast_last_app _ _ Hl) at 2. rewrite !fmap_app. apply Permutation_submseteq. rewrite <- app_assoc. apply Permutation_app_head. by rewrite Permutation_app_comm.
Qed.

Lemma moveForward_ids x s : last (future s) = Some x -> stack_ids (moveForward x s) ⊆+ stack_ids s.
Proof.
  intros Hl. unfold stack_ids, moveForward. cbn [past future]. rewrite (removelast_last_app _ _ Hl) at 2. rewrite !fmap_app. apply Permutation_submseteq. rewrite <- app_assoc. apply Permutation_app_head. by rewrite Permutation_app_comm.
Qed.

Lemma put_ids a s : stack_ids (put_future a s) = stack_ids s /\ stack_ids (put_past a s) = stack_ids s.
Proof. unfold stack_ids, put_future, put_past. cbn [past future]. by rewrite !alter_ids. Qed.

Lemma flush_ids s : stack_ids (flushAllElements s) ⊆+ stack_ids s.
Proof. apply submseteq_nil_l. Qed.

Lemma length_removelast {A} (l : list A) : l <> [] -> S (length (removelast l)) = length l.
Proof. intros Hl. destruct (exists_last Hl) as (l' & a & ->). rewrite removelast_last, length_app. simpl. lia. Qed.

Lemma last_length {A} (l : list A) (a : A) : last l = Some a -> S (length (removelast l)) = length l.
Proof. intros Hl. apply length_removelast. by intros ->. Qed.

(** The number of elements on one side after an element was taken from it. *)
Lemma count_moved (side : ResourceEditStack (E := E) -> list (ResourceStackElement (E := E))) k s0 s u : one_each u -> JsMap.get (editStacks u) k = Some s0 ->
  S (length (side s)) = length (side s0) -> S (count_of side (set_stack k s u)) = count_of side u.
Proof. intros Hu Hg Hl. pose proof (count_set side k s s0 u Hu Hg). lia. Qed.

Lemma undo_step_ends fuel k source c u w : one_each u ->
  (forall k' u', one_each u' -> settled getClosestPastElement findClosestUndoElementInGroup k' u' -> (S (count_of past u') = count_of past u)%nat -> forall w', ends u' (undo_loop undo_ fuel k' 0 c u' w')) ->
  (settled getClosestPastElement findClosestUndoElementInGroup k u \/
   forall k', settled getClosestPastElement findClosestUndoElementInGroup k' u -> ends u (undo_loop undo_ fuel k' source c u w)) ->
  ends u (undo_loop undo_ (S fuel) k source c u w).
Proof.
  intros Hu Hnext Hor. cbn [undo_loop]. destruct (JsMap.get (editStacks u) k) as [s|] eqn:Eg; [|by apply ends_here, keeps_same]. destruct (getClosestPastElement s) as [x|] eqn:Ex; [|by apply ends_here, keeps_same].
  destruct (findClosestUndoElementInGroup (groupId x) u) as [[m k']|] eqn:Ef; [destruct (Z.eqb_spec (se_id m) (se_id x)) as [Ei|Ei]|].
  2: { destruct Hor as [Hs|Hs]; [specialize (Hs s x Eg Ex); by rewrite Ef in Hs|]. apply Hs. by eapply undo_found. }
  all: destruct ((_ || _) && _); [by apply ends_here, keeps_same|]; destruct (negb _); [by apply ends_here, (keeps_set k _ s _ Hu Eg (flush_ids s))|]; destruct (locked s); [by apply ends_here, keeps_same|].
  all: apply (ends_invoke undo_ k _ _ x _ s); [done|done|by apply moveBackward_ids|intros a; apply put_ids|]; intros a w' u' Hu'; destruct (groupId x =? 0); [by apply ends_here, keeps_same|].
  all: destruct (findClosestUndoElementInGroup (groupId x) u') as [[m' k'']|] eqn:Ef'; [|by apply ends_here, keeps_same].
  all: apply Hnext; [done|by eapply undo_found|]; apply (count_moved past k s _ u Hu Eg); by apply (last_length _ x).
Qed.

Lemma redo_step_ends fuel k u w : one_each u ->
  (forall k' u', one_each u' -> settled getClosestFutureElement findClosestRedoElementInGroup k' u' -> (S (count_of future u') = count_of future u)%nat -> forall w', ends u' (redo_loop redo_ fuel k' u' w')) ->
  (settled getClosestFutureElement findClosestRedoElementInGroup k u \/
   forall k', settled getClosestFutureElement findClosestRedoElementInGroup k' u -> ends u (redo_loop redo_ fuel k' u w)) ->
  ends u (redo_loop redo_ (S fuel) k u w).
Proof.
  intros Hu Hnext Hor. cbn [redo_loop]. destruct (JsMap.get (editStacks u) k) as [s|] eqn:Eg; [|by apply ends_here, keeps_same]. destruct (getClosestFutureElement s) as [x|] eqn:Ex; [|by apply ends_here, keeps_same].
  destruct (findClosestRedoElementInGroup (groupId x) u) as [[m k']|] eqn:Ef; [destruct (Z.eqb_spec (se_id m) (se_id x)) as [Ei|Ei]|].
  2: { destruct Hor as [Hs|Hs]; [specialize (Hs s x Eg Ex); by rewrite Ef in Hs|]. apply Hs. by eapply redo_found. }
  all: destruct (negb _); [by apply ends_here, (keeps_set k _ s _ Hu Eg (flush_ids s))|]; destruct (locked s); [by apply ends_here, keeps_same|].
  all: apply (ends_invoke redo_ k _ _ x _ s); [done|done|by apply moveForward_ids|intros a; apply put_ids|]; intros a w' u' Hu'; destruct (groupId x =? 0); [by apply ends_here, keeps_same|].
  all: destruct (findClosestRedoElementInGroup (groupId x) u') as [[m' k'']|] eqn:Ef'; [|by apply ends_here, keeps_same].
  all: apply Hnext; [done|by eapply redo_found|]; apply (count_moved future k s _ u Hu Eg); by apply (last_length _ x).
Qed.

Lemma undo_loop_ends n : forall fuel k source c u w, one_each u -> (count_of past u <= n)%nat ->
  (2 * n + 1 <= fuel)%nat /\ settled getClosestPastElement findClosestUndoElementInGroup k u \/ (2 * n + 2 <= fuel)%nat ->
  ends u (undo_loop undo_ fuel k source c u w).
Proof.
  induction n as [|n IH]; intros [|fuel] k source c u w Hu Hn Hor; try lia; apply undo_step_ends; try done.
  - intros k' u' _ _ Hc. lia.
  - destruct Hor as [[_ Hs]|Hf]; [by left|right]. intros k' Hs. destruct fuel as [|fuel]; [lia|]. apply undo_step_ends; [done| |by left]. intros k2 u2 _ _ Hc. lia.
  - intros k' u' Hu' Hs Hc w'. apply IH; [done|lia|left; split; [lia|done]].
  - destruct Hor as [[_ Hs]|Hf]; [by left|right]. intros k' Hs. destruct fuel as [|fuel]; [lia|]. apply undo_step_ends; [done| |by left].
    intros k2 u2 Hu2 Hs2 Hc w'. apply IH; [done|lia|left; split; [lia|done]].
Qed.

Lemma redo_loop_ends n : forall fuel k u w, one_each u -> (count_of future u <= n)%nat ->
  (2 * n + 1 <= fuel)%nat /\ settled getClosestFutureElement findClosestRedoElementInGroup k u \/ (2 * n + 2 <= fuel)%nat ->
  ends u (redo_loop redo_ fuel k u w).
Proof.
  induction n as [|n IH]; intros [|fuel] k u w Hu Hn Hor; try lia; apply redo_step_ends; try done.
  - intros k' u' _ _ Hc. lia.
  - destruct Hor as [[_ Hs]|Hf]; [by left|right]. intros k' Hs. destruct fuel as [|fuel]; [lia|]. apply redo_step_ends; [done| |by left]. intros k2 u2 _ _ Hc. lia.
  - intros k' u' Hu' Hs Hc w'. apply IH; [done|lia|left; split; [lia|done]].
  - destruct Hor as [[_ Hs]|Hf]; [by left|right]. intros k' Hs. destruct fuel as [|fuel]; [lia|]. apply redo_step_ends; [done| |by left].
    intros k2 u2 Hu2 Hs2 Hc w'. apply IH; [done|lia|left; split; [lia|done]].
Qed.

Lemma undo_loop_enough k source c u w : one_each u -> ends u (undo_loop undo_ (undo_fuel u) k source c u w).
Proof. intros Hu. apply (undo_loop_ends (count_of past u)); [done|done|]. right. unfold undo_fuel. lia. Qed.

Lemma redo_loop_enough k u w : one_each u -> ends u (redo_loop redo_ (redo_fuel u) k u w).
Proof. intros Hu. apply (redo_loop_ends (count_of future u)); [done|done|]. right. unfold redo_fuel. lia. Qed.

(** ** The other operations *)

(** A stack under a new key. *)
Lemma set_absent {A} (l : list (key * A)) k a : JsMap.get l k = None -> JsMap.set l k a = l ++ [(k, a)].
Proof. intros Hg. unfold JsMap.set. destruct (JsMap.has l k) eqn:Eh; [|done]. apply get_has in Eh as [b Hb]. by rewrite Hb in Hg. Qed.

Lemma tidy_push (a : E) confirm k group source u : tidy u -> tidy (pushElement a confirm k group source u).1.1.
Proof.
  intros [T1 T2 T3 T5 T4]. unfold pushElement. destruct (nextOrder group) as [go g'], (nextOrder source) as [so s']. cbn [fst]. set (i := stackElementCounter u + 1). set (e := mkStackElement i a confirm _ go _ so true).
  assert (Hnew : NoDup (i :: all_ids u) /\ Forall (fun j => 0 < j <= i) (i :: all_ids u)).
  { rewrite Forall_forall in T3. split; constructor; [intros Hin; specialize (T3 i Hin); cbv beta in T3; lia|done|lia|]. apply Forall_forall. intros j Hj. specialize (T3 j Hj). cbv beta in T3. lia. }
  assert (Hset : exists l1 l2 s, editStacks (set_stack k (push_on e s) (mkService (editStacks u) i)) = l1 ++ (k, push_on e s) :: l2 /\ default new_stack (JsMap.get (editStacks u) k) = s /\
    ((l1 ++ l2).*1) ⊆+ ((editStacks u).*1) /\ (k ∉ (l1 ++ l2).*1) /\ Forall (fun e => locked e.2 = false) (l1 ++ l2) /\ locked s = false /\ ((l1 ++ (k, s) :: l2) ≫= fun e => stack_ids e.2) ⊆+ all_ids u).
  { destruct (JsMap.get (editStacks u) k) as [s|] eqn:Eg.
    - destruct (set_split (editStacks u) k s T1 Eg) as (l1 & l2 & El & Es). exists l1, l2, s. unfold one_each in T1. rewrite El in T1, T4. rewrite fmap_app, fmap_cons in T1. cbn [fst] in T1.
      rewrite <- Permutation_middle in T1. apply NoDup_cons in T1 as [Hk _]. apply Forall_app in T4 as [U1 [U2 U3]%Forall_cons].
      split; [by apply Es|]. unfold all_ids. rewrite El. split; [done|]. split; [rewrite !fmap_app, fmap_cons; cbn [fst]; apply submseteq_app; [done|by apply submseteq_cons]|]. split; [by rewrite fmap_app|]. split; [by apply Forall_app|]. by split.
    - exists (editStacks u), [], new_stack. rewrite app_nil_r. split; [by apply set_absent|]. split; [done|]. split; [done|]. split; [|split; [done|split; [done|]]].
      + intros (y & -> & Hy)%list_elem_of_fmap_1. destruct y as [k' y]. cbn [fst] in Eg. by rewrite (elem_get _ _ _ T1 Hy) in Eg.
      + rewrite bind_app. cbn. by rewrite app_nil_r. }
  destruct Hset as (l1 & l2 & s & Es & Ed & Hkeys & Hk & Hl & Hs & Hids). cbn [editStacks]. rewrite Ed.
  assert (Hsub : all_ids (set_stack k (push_on e s) (mkService (editStacks u) i)) ⊆+ i :: all_ids u).
  { unfold all_ids. rewrite Es. etrans; [|apply submseteq_skip, Hids]. rewrite !bind_app, !bind_cons. cbn [snd]. unfold stack_ids, push_on. cbn [past future]. rewrite fmap_app, app_nil_r. cbn [fmap list_fmap se_id e].
    rewrite <- !app_assoc. cbn [app]. rewrite <- !(Permutation_middle _ _ i). apply submseteq_skip, submseteq_app; [done|]. apply submseteq_app; [done|]. by apply submseteq_inserts_l. }
  destruct Hnew as [Hn1 Hn2]. split; [|exact (NoDup_part _ _ Hsub Hn1)|exact (Forall_part _ _ _ Hsub Hn2)|cbn; lia|].
  - unfold one_each. rewrite Es, fmap_app, fmap_cons. cbn [fst]. rewrite <- Permutation_middle. constructor; [by rewrite <- fmap_app|]. apply submseteq_Permutation in Hkeys as [m Hm]. unfold one_each in T1. rewrite Hm in T1. apply NoDup_app in T1 as [T1 _]. by rewrite <- fmap_app.
  - rewrite Es. apply Forall_app in Hl as [H1 H2]. apply Forall_app. split; [done|]. by constructor.
Qed.

Lemma tidy_set_last k a u : tidy u -> tidy (set_last k a u).
Proof.
  intros Ht. unfold set_last. destruct (JsMap.get (editStacks u) k) as [s|] eqn:Eg; [|done]. eapply tidy_set; [done|exact Eg| |by eapply (tidy_locked k s)]. unfold stack_ids. cbn [past future]. by rewrite alter_ids.
Qed.

Lemma tidy_valid k v filter u : tidy u -> tidy (setValidFlag k v filter u).
Proof.
  intros Ht. unfold setValidFlag. destruct (JsMap.get (editStacks u) k) as [s|] eqn:Eg; [|done]. eapply tidy_set; [done|exact Eg| |by eapply (tidy_locked k s)]. unfold stack_ids, setElementsValidFlag. cbn [past future].
  assert (Hf : forall l : list (ResourceStackElement (E := E)), se_id <$> ((fun e => if filter (actual e) then setValid v e else e) <$> l) = se_id <$> l).
  { induction l as [|y l IH]; [done|]. cbn. f_equal; [by destruct (filter (actual y))|exact IH]. }
  by rewrite !Hf.
Qed.

Lemma restore_ids snapshot s : stack_ids (restore_stack snapshot s) ⊆+ stack_ids s /\ locked (restore_stack snapshot s) = locked s.
Proof.
  unfold restore_stack. destruct (scan_past snapshot (past s)) as [ok i]. destruct (scan_future snapshot (future s) ok i) as [[ok' i'] r]. split; [|done]. unfold stack_ids. cbn [past future]. apply submseteq_app.
  - destruct (negb _); [|done]. apply sublist_submseteq, fmap_sublist, sublist_take.
  - destruct (negb _); [|done]. apply sublist_submseteq, fmap_sublist, sublist_drop.
Qed.

Lemma tidy_restore k snapshot u : tidy u -> tidy (restoreSnapshot k snapshot u).
Proof.
  intros Ht. unfold restoreSnapshot. destruct (JsMap.get (editStacks u) k) as [s|] eqn:Eg; [|done]. destruct (restore_ids snapshot s) as [Hi Hl].
  assert (H1 : tidy (set_stack k (restore_stack snapshot s) u)) by (eapply tidy_set; [done|done|done|]; rewrite Hl; by eapply tidy_locked). destruct (_ && _); [by apply tidy_delete|done].
Qed.

(** ** An element in no group *)

(** Such an element is undone and redone alone, without a question. *)
Record alone x : Prop := {
  al_group : groupId x = 0;
  al_source : sourceId x = 0;
  al_confirm : confirmBeforeUndo x = false;
  al_valid : isValid x = true }.

Lemma no_group_undo u : findClosestUndoElementInGroup 0 u = None.
Proof. done. Qed.

Lemma undo_alone k u w p x f v a w' : JsMap.get (editStacks u) k = Some (mkStack (p ++ [x]) f false v) -> alone x -> undo_ (actual x) w = Returned a w' ->
  exists u', undo undo_ k u w = Some (u', w', None) /\ JsMap.get (editStacks u') k = Some (mkStack p (f ++ [with_actual a x]) false (v + 1)) /\
    (one_each u -> one_each u').
Proof.
  intros Hg [H1 H2 H3 H4] Ha. unfold undo, undo_fuel. rewrite Nat.add_comm. cbn [undo_loop Nat.add]. rewrite Hg. unfold getClosestPastElement. cbn [past]. rewrite last_snoc, H1, H2, H3, H4. cbn [findClosestUndoElementInGroup].
  change (findClosestUndoElementInGroup 0 u) with (@None (ResourceStackElement (E := E) * key)). cbv iota. cbn [Z.eqb negb orb andb locked]. change (negb (0 =? 0) || false) with false. cbn [andb negb].
  unfold invoke_with_lock. rewrite Ha. eexists. split; [done|]. split.
  - rewrite set_stack_get. unfold put_future, moveBackward, with_locked. cbn [past future locked stack_versionId]. rewrite removelast_last. do 2 f_equal. rewrite length_app. cbn [length]. rewrite Nat.add_sub.
    by rewrite alter_app_r_alt, Nat.sub_diag by lia.
  - intros Hu. eapply set_stack_one; [apply set_stack_get|]. by eapply set_stack_one.
Qed.

Lemma redo_alone k u w p x f v a w' : JsMap.get (editStacks u) k = Some (mkStack p (f ++ [x]) false v) -> alone x -> redo_ (actual x) w = Returned a w' ->
  exists u', redo redo_ k u w = Some (u', w', None) /\ JsMap.get (editStacks u') k = Some (mkStack (p ++ [with_actual a x]) f false (v + 1)) /\
    (one_each u -> one_each u').
Proof.
  intros Hg [H1 H2 H3 H4] Ha. unfold redo, redo_fuel. rewrite Nat.add_comm. cbn [redo_loop Nat.add]. rewrite Hg. unfold getClosestFutureElement. cbn [future]. rewrite last_snoc, H1, H4.
  change (findClosestRedoElementInGroup 0 u) with (@None (ResourceStackElement (E := E) * key)). cbv iota. cbn [negb locked].
  unfold invoke_with_lock. rewrite Ha. eexists. split; [done|]. split.
  - rewrite set_stack_get. unfold put_past, moveForward, with_locked. cbn [past future locked stack_versionId]. rewrite removelast_last. do 2 f_equal. rewrite length_app. cbn [length]. rewrite Nat.add_sub.
    by rewrite alter_app_r_alt, Nat.sub_diag by lia.
  - intros Hu. eapply set_stack_one; [apply set_stack_get|]. by eapply set_stack_one.
Qed.

Lemma undo_nothing k u w : match JsMap.get (editStacks u) k with Some s => past s = [] | None => True end -> undo undo_ k u w = Some (u, w, None).
Proof.
  intros Hp. unfold undo, undo_fuel. rewrite Nat.add_comm. cbn [undo_loop Nat.add]. destruct (JsMap.get (editStacks u) k) as [s|]; [|done]. unfold getClosestPastElement. by rewrite Hp.
Qed.

Lemma redo_nothing k u w : match JsMap.get (editStacks u) k with Some s => future s = [] | None => True end -> redo redo_ k u w = Some (u, w, None).
Proof.
  intros Hp. unfold redo, redo_fuel. rewrite Nat.add_comm. cbn [redo_loop Nat.add]. destruct (JsMap.get (editStacks u) k) as [s|]; [|done]. unfold getClosestFutureElement. by rewrite Hp.
Qed.

End stacks.

(** C17: Undoing and redoing end.  Whatever the elements do when they are undone or redone,
    and however the elements of a group lie on the stacks of the resources, [_undo] and
    [_redo] come to an end, also when they are called for a source or go on after a prompt: an
    element that is not the closest one of its group leads to the resource of that one, from
    where every step takes an element off a stack, so that twice as many calls as there are
    elements, and two, are enough.  No resource has two stacks afterwards. *)
Theorem undo_redo_end {E W} (undo_ redo_ : E -> W -> outcome E W) k source confirmed u w : NoDup ((editStacks u).*1) ->
  (exists u' w' p, undo_loop undo_ (undo_fuel u) k source confirmed u w = Some (u', w', p) /\ NoDup ((editStacks u').*1)) /\
  (exists u' w' p, redo_loop redo_ (redo_fuel u) k u w = Some (u', w', p) /\ NoDup ((editStacks u').*1)).
Proof.
  intros Hu. split.
  - destruct (undo_loop_enough undo_ k source confirmed u w Hu) as (u' & w' & p & E1 & Hk & _). by exists u', w', p.
  - destruct (redo_loop_enough redo_ k u w Hu) as (u' & w' & p & E1 & Hk & _). by exists u', w', p.
Qed.

(** Two resources with an element each of group 7: undoing the first one undoes both, the
    later one first. *)
Definition sample_service : UndoRedoService (E := Z) :=
  let '(u, g, _) := pushElement 10 false [1] (mkGroup 7 1) (mkGroup 0 1) (mkService [] 0) in
  (pushElement 20 false [2] g (mkGroup 0 1) u).1.1.

Definition log_undo (e : Z) (w : list Z) : outcome Z (list Z) := Returned e (w ++ [e]).

Lemma undo_redo_end_witness : exists u p, undo log_undo [1] sample_service [] = Some (u, [20; 10], p) /\ NoDup ((editStacks u).*1).
Proof.
  assert (Hn : NoDup ((editStacks sample_service).*1)) by (apply (bool_decide_unpack _); by vm_compute).
  destruct (undo_redo_end log_undo log_undo [1] 0 false sample_service [] Hn) as [(u & w & p & E & Hu) _]. exists u, p. split; [|exact Hu].
  unfold undo. rewrite E. vm_compute in E. injection E as _ <- _. done.
Defined.

(** ** Every operation *)

Inductive ServiceOp (E W : Type) : Type :=
  | Push (element : E) (confirm : bool) (k : key) (group source : UndoRedoGroup)
  | Changed (k : key) (element : E)
  | Remove (k : key)
  | SetValid (k : key) (v : bool) (filter : E -> bool)
  | RestoreTo (k : key) (snapshot : list Z)
  | UndoFrom (k : key) (source : Z) (confirmed : bool) (w : W)
  | RedoFrom (k : key) (w : W).
Arguments Push {E W}.
Arguments Changed {E W}.
Arguments Remove {E W}.
Arguments SetValid {E W}.
Arguments RestoreTo {E W}.
Arguments UndoFrom {E W}.
Arguments RedoFrom {E W}.

Definition perform {E W} (undo_ redo_ : E -> W -> outcome E W) (op : ServiceOp E W) (u : UndoRedoService) : option UndoRedoService :=
  match op with
  | Push element confirm k group source => Some (pushElement element confirm k group source u).1.1
  | Changed k element => Some (set_last k element u)
  | Remove k => Some (removeElements k u)
  | SetValid k v filter => Some (setValidFlag k v filter u)
  | RestoreTo k snapshot => Some (restoreSnapshot k snapshot u)
  | UndoFrom k source confirmed w => '(u, _, _) ← undo_loop undo_ (undo_fuel u) k source confirmed u w; Some u
  | RedoFrom k w => '(u, _, _) ← redo_loop redo_ (redo_fuel u) k u w; Some u
  end.

(** C18: The undo and redo stacks stay well-formed.  From the empty service on, and after every
    operation in any order, whatever the elements do when they are undone or redone, also when
    they throw: no resource has two stacks, no element is twice on the stacks, be it for undo
    or for redo, of whatever resource, every element's number was given out before, and no
    stack stays locked. *)
Theorem service_stays_tidy {E W} (undo_ redo_ : E -> W -> outcome E W) ops u0 : tidy u0 ->
  exists u, foldl (fun u op => u ← u; perform undo_ redo_ op u) (Some u0) ops = Some u /\ tidy u.
Proof.
  revert u0. induction ops as [|op ops IH]; intros u0 Ht; [by exists u0|]. cbn [foldl]. change (u ← Some u0; perform undo_ redo_ op u) with (perform undo_ redo_ op u0).
  assert (Hop : exists u1, perform undo_ redo_ op u0 = Some u1 /\ tidy u1); [|destruct Hop as (u1 & -> & H1); by apply IH].
  destruct op as [a confirm k group source|k a|k|k v f|k snapshot|k source confirmed w|k w]; cbn [perform].
  - eexists. split; [done|]. by apply tidy_push.
  - eexists. split; [done|]. by apply tidy_set_last.
  - eexists. split; [done|]. by apply tidy_remove.
  - eexists. split; [done|]. by apply tidy_valid.
  - eexists. split; [done|]. by apply tidy_restore.
  - destruct (undo_loop_enough undo_ k source confirmed u0 w (td_one _ Ht)) as (u1 & w1 & p & -> & _ & Hk). exists u1. split; [done|]. by apply Hk.
  - destruct (redo_loop_enough redo_ k u0 w (td_one _ Ht)) as (u1 & w1 & p & -> & _ & Hk). exists u1. split; [done|]. by apply Hk.
Qed.

Lemma empty_tidy {E} : tidy (E := E) (mkService [] 0).
Proof. split; [constructor|constructor|constructor|done|constructor]. Qed.

Lemma service_stays_tidy_witness : exists u, tidy u /\ all_ids u = [3; 2] /\
  foldl (fun u op => u ← u; perform log_undo log_undo op u) (Some (mkService [] 0))
    [Push 10 false [1] (mkGroup 7 1) (mkGroup 0 1); UndoFrom [1] 0 false []; Push 20 false [1] (mkGroup 0 1) (mkGroup 0 1); Push 30 false [1] (mkGroup 0 1) (mkGroup 0 1); UndoFrom [1] 0 false []; Remove [2];
     UndoFrom [1] 0 false []] = Some u.
Proof.
  destruct (service_stays_tidy log_undo log_undo
    [Push 10 false [1] (mkGroup 7 1) (mkGroup 0 1); UndoFrom [1] 0 false []; Push 20 false [1] (mkGroup 0 1) (mkGroup 0 1); Push 30 false [1] (mkGroup 0 1) (mkGroup 0 1); UndoFrom [1] 0 false []; Remove [2];
     UndoFrom [1] 0 false []] (mkService [] 0) empty_tidy) as (u & Eu & Hu).
  exists u. split; [exact Hu|]. split; [|exact Eu]. vm_compute in Eu. injection Eu as <-. reflexivity.
Defined.

(** ** Snapshots *)

Section snapshots.
Context {E : Type}.
Implicit Types (s : ResourceEditStack (E := E)) (l : list (ResourceStackElement (E := E))).

Lemma scan_known rest l : scan_past ((se_id <$> l) ++ rest) l = (true, zlen l).
Proof.
  revert rest. induction l as [|y l IH] using rev_ind; intros rest; [done|]. rewrite fmap_app, <- app_assoc. unfold scan_past in *. rewrite foldl_app, IH. cbn [foldl]. rewrite zlen_app. f_equal.
  unfold differs. rewrite !zlen_app. assert (Hz : zlen (se_id <$> l) = zlen l) by (unfold zlen; by rewrite length_fmap). change (zlen (se_id <$> [y])) with 1. pose proof (zlen_nonneg l). pose proof (zlen_nonneg rest).
  rewrite Z.geb_leb. destruct (Z.leb_spec (zlen (se_id <$> l) + (1 + zlen rest)) (zlen l)); [lia|]. rewrite bool_decide_eq_true_2; [done|]. rewrite <- Hz. rewrite at_app_r by lia. by rewrite Z.sub_diag.
Qed.

Lemma scan_new l y : (scan_past (se_id <$> l) (l ++ [y])).1 = false.
Proof.
  unfold scan_past. rewrite foldl_app. pose proof (scan_known [] l) as Hk. rewrite app_nil_r in Hk. unfold scan_past in Hk. rewrite Hk. cbn [foldl fst]. unfold differs.
  assert (Hz : zlen (se_id <$> l) = zlen l) by (unfold zlen; by rewrite length_fmap). rewrite Hz, Z.geb_leb. destruct (Z.leb_spec (zlen l) (zlen l)); [done|lia].
Qed.

Lemma scan_future_none snapshot ok i : scan_future (E := E) snapshot [] ok i = (ok, i, -1).
Proof. done. Qed.

End snapshots.

(** Restoring a snapshot forgets too much.  When nothing is ahead to be redone,
    [restoreSnapshot] of a snapshot that was just made leaves the elements as they are; but
    when one more element was pushed since, it does not take this element away, as the
    snapshot says, but all elements of the resource, those of the snapshot among them. *)
Theorem restore_forgets {E} k (a : E) confirm group source u s : JsMap.get (editStacks u) k = Some s -> future s = [] -> past s <> [] ->
  getElements k (restoreSnapshot k (createSnapshot k u) u) = getElements k u /\
  getElements k (restoreSnapshot k (createSnapshot k u) (pushElement a confirm k group source u).1.1) = ([], []).
Proof.
  intros Hg Hf Hp. unfold createSnapshot. rewrite Hg. unfold stack_snapshot. rewrite Hf. cbn [fmap list_fmap rev]. rewrite app_nil_r. split.
  - unfold restoreSnapshot, getElements. rewrite Hg. unfold restore_stack. pose proof (scan_known [] (past s)) as Hk. rewrite app_nil_r in Hk. rewrite Hk, Hf, scan_future_none. cbn [negb Z.eqb]. change (-1 =? -1) with true. cbn [negb].
    assert (Hpast : hasPastElements (mkStack (past s) [] (locked s) (stack_versionId s + 1)) = true).
    { unfold hasPastElements. cbn [past]. destruct (past s) as [|y l]; [done|]. rewrite zlen_cons. pose proof (zlen_nonneg l). lia. }
    rewrite Hpast. cbn [negb andb]. by rewrite set_stack_get.
  - unfold pushElement. destruct (nextOrder group) as [go g'], (nextOrder source) as [so s']. cbn [fst editStacks]. rewrite Hg. cbn [default from_option id]. set (e := mkStackElement _ a confirm _ go _ so true).
    unfold restoreSnapshot. rewrite set_stack_get. unfold restore_stack. cbn [push_on past future locked stack_versionId]. pose proof (scan_new (past s) e) as Hn. destruct (scan_past (se_id <$> past s) (past s ++ [e])) as [ok i]. cbn [fst] in Hn. subst ok.
    rewrite scan_future_none. change (0 =? -1) with false. change (-1 =? -1) with true. cbn [negb andb]. change (take (Z.to_nat 0) (past s ++ [e])) with (@nil (ResourceStackElement (E := E))).
    change (hasPastElements (mkStack [] [] (locked s) (stack_versionId s + 1 + 1))) with false. change (hasFutureElements (mkStack [] [] (locked s) (stack_versionId s + 1 + 1))) with false. cbn [negb andb].
    unfold getElements. cbn [editStacks]. assert (Hd : forall A (l : list (key * A)), JsMap.get (JsMap.delete l k) k = None); [|by rewrite Hd].
    intros A l. unfold JsMap.delete. induction l as [|x l IH]; [done|]. rewrite filter_cons. case_decide; [|done]. rewrite get_cons. by rewrite decide_False.
Qed.

Lemma restore_forgets_witness :
  let u := (pushElement 20 false [1] (mkGroup 0 1) (mkGroup 0 1) (pushElement 10 false [1] (mkGroup 0 1) (mkGroup 0 1) (mkService [] 0)).1.1).1.1 in
  getElements [1] u = ([10; 20], []) /\ getElements [1] (restoreSnapshot [1] (createSnapshot [1] u) (pushElement 30 false [1] (mkGroup 0 1) (mkGroup 0 1) u).1.1) = ([], []).
Proof.
  intros u. split; [reflexivity|]. unshelve eapply (proj2 (restore_forgets [1] 30 false (mkGroup 0 1) (mkGroup 0 1) u _ _ _ _)); [| | |]; [|by vm_compute|done|done].
Defined.
