(* ===== verification/EditStack.v ===== *)
(** * The edit stack of a text model

    [SingleModelEditStackElement] and [EditStack] of
    [src/src/vs/editor/common/model/editStack.ts], with the methods of [TextModel] of
    [src/src/vs/editor/common/model/textModel.ts] that push edits and undo and redo them, on
    the undo and redo stacks of [UndoRedo].

    The elements of several models are left out.  When a model throws while an element is
    undone or redone, what becomes of it is not known, and it is lost here. *)

From S2P Require Import Prelude Position TextRange Selection TextChange Length EolCounter Store RbTree PtBuffer Strings PieceTree TextBuffer TextModel EditStackData UndoRedo.

#[local] Open Scope js_scope.

(** The data of an element, or their bytes. *)
Inductive ElementData : Type := Live (d : SingleModelEditStackData) | Closed (b : list Z).

(** [attached]: the element has its text model, and not just its resource. *)
Record SingleModelEditStackElement : Type := mkElement { attached : bool; data_ : ElementData }.

(** ** The elements

    [decode] is the decoder of the platform, with which bytes are read. *)

Module SE.

Definition new (beforeCursorState : option (list Selection)) : M SingleModelEditStackElement :=
  d ← SD.create beforeCursorState; mret (mkElement true (Live d)).

Definition setModel (a : bool) (this : SingleModelEditStackElement) : SingleModelEditStackElement := mkElement a (data_ this).

Definition canAppend (this : SingleModelEditStackElement) : bool :=
  attached this && match data_ this with Live _ => true | Closed _ => false end.

Definition append (textChanges : list TextChange) (afterEOL : EndOfLineSequence) (afterVersionId : Z) (afterCursorState : option (list Selection))
    (this : SingleModelEditStackElement) : SingleModelEditStackElement :=
  match data_ this with
  | Live d => mkElement (attached this) (Live (SD.append d textChanges afterEOL afterVersionId afterCursorState))
  | Closed _ => this
  end.

(** The bytes of the data, to which [close], [undo], [redo] and [heapSize] turn them. *)
Definition bytes (this : SingleModelEditStackElement) : list Z :=
  match data_ this with Live d => SD.serialize d | Closed b => b end.

Definition close (this : SingleModelEditStackElement) : SingleModelEditStackElement := mkElement (attached this) (Closed (bytes this)).

Definition open_ (decode : list Z -> jsstr) (this : SingleModelEditStackElement) : result SingleModelEditStackElement :=
  match data_ this with
  | Live _ => Ok this
  | Closed b => let* d := SD.deserialize decode b in Ok (mkElement (attached this) (Live d))
  end.

Definition of_result {A} (r : result A) : M A := fun m => match r with Ok a => Ok (a, m) | Throw e => Throw e end.

Definition undo (decode : list Z -> jsstr) (this : SingleModelEditStackElement) : M SingleModelEditStackElement :=
  if negb (attached this) then throw OtherError
  else
    data ← of_result (SD.deserialize decode (bytes this));
    TM.applyUndo (data_changes data) (beforeEOL data) (beforeVersionId data);;
    mret (close this).

Definition redo (decode : list Z -> jsstr) (this : SingleModelEditStackElement) : M SingleModelEditStackElement :=
  if negb (attached this) then throw OtherError
  else
    data ← of_result (SD.deserialize decode (bytes this));
    TM.applyRedo (data_changes data) (afterEOL data) (afterVersionId data);;
    mret (close this).

Definition heapSize (this : SingleModelEditStackElement) : SingleModelEditStackElement * Z := (close this, zlen (bytes this) + 168).

(** The two operations for the service, on a model that may be lost. *)
Definition called (f : SingleModelEditStackElement -> M SingleModelEditStackElement) (this : SingleModelEditStackElement) (w : option TextModel)
    : outcome SingleModelEditStackElement (option TextModel) :=
  match w with
  | None => Raised None
  | Some m => match f this m with Ok (e, m) => Returned e (Some m) | Throw _ => Raised None end
  end.

End SE.

(** ** The stack *)

Abbreviation Service := (UndoRedoService (E := SingleModelEditStackElement)).

(** A text model with the service that keeps its elements. *)
Record Editor : Type := mkEditor {
  model_ : TextModel;
  undoRedoService : Service;
  uri : key;
  initialUndoRedoSnapshot : option (list Z) }.

Definition ED (A : Type) : Type := ST Editor A.

Definition with_model (m : TextModel) (s : Editor) : Editor := mkEditor m (undoRedoService s) (uri s) (initialUndoRedoSnapshot s).
Definition with_service (u : Service) (s : Editor) : Editor := mkEditor (model_ s) u (uri s) (initialUndoRedoSnapshot s).
Definition with_snapshot (l : option (list Z)) (s : Editor) : Editor := mkEditor (model_ s) (undoRedoService s) (uri s) l.

Definition on_model {A} (p : M A) : ED A := fun s =>
  match p (model_ s) with Ok (a, m) => Ok (a, with_model m s) | Throw e => Throw e end.

Definition getLast : ED (option SingleModelEditStackElement) := gets (fun s => getLastElement (uri s) (undoRedoService s)).

(** The object of the last element is changed. *)
Definition setLast (e : SingleModelEditStackElement) : ED unit := modify (fun s => with_service (set_last (uri s) e (undoRedoService s)) s).

Module ES.

Definition pushStackElement : ED unit :=
  lastElement ← getLast;
  match lastElement with Some e => setLast (SE.close e) | None => mret tt end.

Definition popStackElement (decode : list Z -> jsstr) : ED unit :=
  lastElement ← getLast;
  match lastElement with
  | Some e => match SE.open_ decode e with Ok e => setLast e | Throw err => throw err end
  | None => mret tt
  end.

Definition clear : ED unit := modify (fun s => with_service (removeElements (uri s) (undoRedoService s)) s).

(** The element is the last one from here on; the group is given back with its next order. *)
Definition getOrCreateEditStackElement (beforeCursorState : option (list Selection)) (group : UndoRedoGroup) : ED (SingleModelEditStackElement * UndoRedoGroup) :=
  lastElement ← getLast;
  match (e ← lastElement; if SE.canAppend e then Some e else None) with
  | Some e => mret (e, group)
  | None =>
      newElement ← on_model (SE.new beforeCursorState);
      s ← gets id;
      let '(u, group, _) := pushElement newElement false (uri s) group (mkGroup 0 1) (undoRedoService s) in
      modify (with_service u);;
      mret (newElement, group)
  end.

(** The end of both methods that push. *)
Definition append_to (e : SingleModelEditStackElement) (textChanges : list TextChange) (afterCursorState : option (list Selection)) : ED unit :=
  eol ← on_model getModelEOL;
  v ← on_model TM.getAlternativeVersionId;
  setLast (SE.append textChanges eol v afterCursorState e).

Definition pushEOL (eol : EndOfLineSequence) : ED unit :=
  '(editStackElement, _) ← getOrCreateEditStackElement None (mkGroup 0 1);
  on_model (TM.setEOL eol);;
  append_to editStackElement [] None.

(** An exception of the computer is reported, and its answer is [null]. *)
Definition computeCursorState (cursorStateComputer : option (list IReverseSingleEditOperation -> result (option (list Selection))))
    (inverseEditOperations : list IReverseSingleEditOperation) : option (list Selection) :=
  match cursorStateComputer with
  | Some f => match f inverseEditOperations with Ok s => s | Throw _ => None end
  | None => None
  end.

Definition sorted_changes (inverseEditOperations : list IReverseSingleEditOperation) : list TextChange :=
  let textChanges := imap (fun index op => (Z.of_nat index, rev_textChange op)) inverseEditOperations in
  snd <$> js_sort (fun a b => if oldPosition a.2 =? oldPosition b.2 then a.1 - b.1 else oldPosition a.2 - oldPosition b.2) textChanges.

Definition pushEditOperation (beforeCursorState : option (list Selection)) (editOperations : list IIdentifiedSingleEditOperation)
    (cursorStateComputer : option (list IReverseSingleEditOperation -> result (option (list Selection)))) (group : UndoRedoGroup)
    : ED (option (list Selection) * UndoRedoGroup) :=
  '(editStackElement, group) ← getOrCreateEditStackElement beforeCursorState group;
  inverse ← on_model (TM.applyEdits editOperations true);
  match inverse with
  | None => throw TypeError
  | Some inverseEditOperations =>
      let afterCursorState := computeCursorState cursorStateComputer inverseEditOperations in
      append_to editStackElement (sorted_changes inverseEditOperations) afterCursorState;;
      mret (afterCursorState, group)
  end.

End ES.

(** ** The methods of the text model *)

Module TME.

(** [_initialUndoRedoSnapshot] is made before the first edit. *)
Definition ensure_snapshot : ED unit :=
  modify (fun s => match initialUndoRedoSnapshot s with
                   | None => with_snapshot (Some (createSnapshot (uri s) (undoRedoService s))) s
                   | Some _ => s
                   end).

Definition pushStackElement : ED unit := ES.pushStackElement.
Definition popStackElement (decode : list Z -> jsstr) : ED unit := ES.popStackElement decode.

Definition pushEOL (eol : EndOfLineSequence) : ED unit :=
  currentEOL ← on_model getModelEOL;
  match currentEOL, eol with
  | SeqLF, SeqLF | SeqCRLF, SeqCRLF => mret tt
  | _, _ => ensure_snapshot;; ES.pushEOL eol
  end.

(** Is there an edit near every cursor? *)
Definition edits_near_cursors (beforeCursorState : option (list Selection)) (incomingEdits : list (Range * option (list Z))) : bool :=
  forallb (fun sel => existsb (fun edit =>
      let selIsAbove := startLineNumber edit.1 >? endLineNumber (base sel) in
      let selIsBelow := startLineNumber (base sel) >? endLineNumber edit.1 in
      negb selIsAbove && negb selIsBelow) incomingEdits) (default [] beforeCursorState).

(** An edit that a trimmed line would interfere with. *)
Definition interferes (trimLineNumber maxLineColumn : Z) (edit : Range * option (list Z)) : bool :=
  let '(editRange, editText) := edit in
  let text := default [] editText in
  if (trimLineNumber <? startLineNumber editRange) || (trimLineNumber >? endLineNumber editRange) then false
  else if (trimLineNumber =? startLineNumber editRange) && (startColumn editRange =? maxLineColumn) && Rng.isEmpty editRange &&
          bool_decide (head text = Some 10) then false
  else if (trimLineNumber =? startLineNumber editRange) && (startColumn editRange =? 1) && Rng.isEmpty editRange &&
          bool_decide (last text = Some 10) then false
  else true.

Fixpoint incoming_edits (editOperations : list ValidAnnotatedEditOperation) : M (list (Range * option (list Z))) :=
  match editOperations with
  | [] => mret []
  | op :: rest => r ← TM.validateRange true (raw_range op); l ← incoming_edits rest; mret ((r, raw_text op) :: l)
  end.

(** The edits that trim the lines that may be trimmed. *)
Fixpoint trim_edits (incomingEdits : list (Range * option (list Z))) (trimLines : list Z) : M (list ValidAnnotatedEditOperation) :=
  match trimLines with
  | [] => mret []
  | trimLineNumber :: rest =>
      maxLineColumn ← TM.getLineMaxColumn trimLineNumber;
      l ← trim_edits incomingEdits rest;
      mret (if existsb (interferes trimLineNumber maxLineColumn) incomingEdits then l
            else mkRawEdit None (Rng.new_Range trimLineNumber 1 trimLineNumber maxLineColumn) None false false false :: l)
  end.

Definition with_trimmed (beforeCursorState : option (list Selection)) (editOperations : list ValidAnnotatedEditOperation) : M (list ValidAnnotatedEditOperation) :=
  trim ← gets trimAutoWhitespace;
  lines ← gets trimAutoWhitespaceLines_;
  match lines with
  | Some trimLines =>
      if trim : bool then
        incomingEdits ← incoming_edits editOperations;
        more ← (if edits_near_cursors beforeCursorState incomingEdits then trim_edits incomingEdits trimLines else mret []);
        modify (with_trim None);;
        mret (editOperations ++ more)
      else mret editOperations
  | None => mret editOperations
  end.

Definition pushEditOperations (beforeCursorState : option (list Selection)) (editOperations : list IIdentifiedSingleEditOperation)
    (cursorStateComputer : option (list IReverseSingleEditOperation -> result (option (list Selection)))) (group : UndoRedoGroup)
    : ED (option (list Selection) * UndoRedoGroup) :=
  ops ← on_model (TM.validateEditOperations editOperations);
  ops ← on_model (with_trimmed beforeCursorState ops);
  ensure_snapshot;;
  ES.pushEditOperation beforeCursorState (AlreadyValid <$> ops) cursorStateComputer group.

(** The world after [undo] and [redo] of the service, and the prompt, if one is shown. *)
Definition finish (r : option (after (E := SingleModelEditStackElement) (W := option TextModel))) : ED (option Prompt) := fun s =>
  match r with
  | Some (u, Some m, p) => Ok (p, with_model m (with_service u s))
  | _ => Throw OtherError
  end.

Definition undo (decode : list Z -> jsstr) : ED (option Prompt) :=
  s ← gets id; finish (UndoRedo.undo (SE.called (SE.undo decode)) (uri s) (undoRedoService s) (Some (model_ s))).

Definition redo (decode : list Z -> jsstr) : ED (option Prompt) :=
  s ← gets id; finish (UndoRedo.redo (SE.called (SE.redo decode)) (uri s) (undoRedoService s) (Some (model_ s))).

Definition canUndo : ED bool := gets (fun s => UndoRedo.canUndo (uri s) (undoRedoService s)).
Definition canRedo : ED bool := gets (fun s => UndoRedo.canRedo (uri s) (undoRedoService s)).

End TME.
