(* ===== verification/ModelEdits.v ===== *)
(** * The edits of a text model

    What the methods of [TextModel] do when its buffer stands for a text: the validation of
    positions and ranges, and the edits. *)

From S2P Require Import Prelude Position TextRange TextChange Length EolCounter Store RbTree RbInsert PtBuffer PtSpan Strings PieceTree PtState PtEdit PtSearch PtInsert PtDelete PtQuery PtLines PtRead PtBuild PtContent TextBuffer TextBuilder EditText EditPositions ApplyEdits TextModel.

#[local] Open Scope js_scope.
#[local] Arguments Z.eqb : simpl never.
#[local] Arguments Z.ltb : simpl never.
#[local] Arguments Z.leb : simpl never.
#[local] Arguments Z.add : simpl never.
#[local] Arguments Z.sub : simpl never.

Implicit Types (b : PieceTreeTextBuffer) (eol d : list Z) (m : TextModel) (p : Position) (r : Range).

(** The model stands for the text [d], whose offsets fit 32 bits. *)
Definition models F m eol d : Prop := holds F (buffer_ m) eol d /\ isDisposed_ m = false /\ zlen d + 1 < 2 ^ 31.

Lemma wp_on_buffer {A} (q : B A) m (Q : A -> TextModel -> Prop) :
  wp q (buffer_ m) (fun a b => Q a (with_buffer b m)) -> wp (on_buffer q) m Q.
Proof. unfold wp, on_buffer. by destruct (q (buffer_ m)) as [[a b]|]. Qed.

Lemma with_buffer_id m : with_buffer (buffer_ m) m = m.
Proof. by destruct m. Qed.

Lemma wp_on_buffer_read {A} (q : B A) m (Q : A -> TextModel -> Prop) :
  wp q (buffer_ m) (fun a b => b = buffer_ m /\ Q a m) -> wp (on_buffer q) m Q.
Proof. intros Hq. apply wp_on_buffer. eapply wp_mono; [exact Hq|]. intros a b [-> HQ]. by rewrite with_buffer_id. Qed.

Section read.
Context (F : gmap ptr TreeNode) (m : TextModel) (eol d : list Z).
Hypothesis Hm : models F m eol d.

Lemma wp_assert (Q : unit -> TextModel -> Prop) : Q tt m -> wp TM.assertNotDisposed m Q.
Proof. intros HQ. destruct Hm as (_ & Hd & _). unfold TM.assertNotDisposed. apply wp_bind, wp_gets. by rewrite Hd. Qed.

Lemma wp_model_lineCount (Q : Z -> TextModel -> Prop) : Q (breaks d + 1) m -> wp (on_buffer TB.getLineCount) m Q.
Proof.
  intros HQ. destruct Hm as (((its & _ & _ & _ & Hcnt & _) & _) & _). apply wp_on_buffer_read, wp_on_pieces_read. unfold PT.getLineCount. apply wp_gets. split; [done|]. split; [done|]. by rewrite Hcnt.
Qed.

Lemma wp_getLineCount (Q : Z -> TextModel -> Prop) : Q (breaks d + 1) m -> wp TM.getLineCount m Q.
Proof. intros HQ. unfold TM.getLineCount. apply wp_bind, wp_assert. by apply wp_model_lineCount. Qed.

Lemma wp_model_length (Q : Z -> TextModel -> Prop) : Q (zlen d) m -> wp (on_buffer TB.getLength) m Q.
Proof.
  intros HQ. destruct Hm as (((its & _ & _ & _ & _ & Hlen & _) & _) & _). apply wp_on_buffer_read, wp_on_pieces_read. unfold PT.getLength. apply wp_gets. split; [done|]. split; [done|]. by rewrite Hlen.
Qed.

Lemma wp_model_EOL (Q : list Z -> TextModel -> Prop) : Q eol m -> wp (on_buffer TB.getEOL) m Q.
Proof. intros HQ. destruct Hm as (Hb & _). apply wp_on_buffer_read. apply (wp_getEndOfLine F (buffer_ m) eol d TextDefined); [done|]. by split. Qed.

Lemma wp_check_line line (Q : unit -> TextModel -> Prop) : 1 <= line <= breaks d + 1 -> Q tt m -> wp (TM.check_line line) m Q.
Proof.
  intros Hl HQ. unfold TM.check_line. apply wp_bind, wp_assert, wp_bind, wp_getLineCount. rewrite Z.gtb_ltb. destruct (Z.ltb_spec line 1); [lia|]. destruct (Z.ltb_spec (breaks d + 1) line); [lia|]. by apply wp_ret.
Qed.

Lemma wp_model_lineLength line c (Q : Z -> TextModel -> Prop) : 1 <= line <= breaks d + 1 -> (splitLines d).[line - 1] = Some c ->
  Q (zlen c) m -> wp (on_buffer (TB.getLineLength line)) m Q.
Proof.
  intros Hl Hc HQ. destruct Hm as ((Hr & _ & Hn) & _). apply wp_on_buffer_read, wp_on_pieces_read. assert (Hcnt : lineCnt_ (pieceTree_ (buffer_ m)) = breaks d + 1) by (by destruct Hr as (its & _ & _ & _ & -> & _)).
  unfold wp. rewrite (getLineLength_ok F _ d line c Hr Hn ltac:(lia) Hc). by split.
Qed.

Lemma wp_maxColumn line c (Q : Z -> TextModel -> Prop) : 1 <= line <= breaks d + 1 -> (splitLines d).[line - 1] = Some c ->
  Q (zlen c + 1) m -> wp (TM.getLineMaxColumn line) m Q.
Proof.
  intros Hl Hc HQ. unfold TM.getLineMaxColumn. apply wp_bind, wp_check_line; [done|]. apply wp_bind, (wp_model_lineLength line c); [done|done|]. by apply wp_ret.
Qed.

(** The code unit before a position that is not at the start of its line. *)
Lemma wp_char_before p (Q : option Z -> TextModel -> Prop) : model_position d p -> 1 < Position.column p ->
  (exists c, d.[offset_at d p - 1] = Some c) -> Q (d.[offset_at d p - 1]) m -> wp (on_buffer (TB.getLineCharCode (lineNumber p) (Position.column p - 2))) m Q.
Proof.
  intros Hp Hc [c Ec] HQ. destruct Hm as ((Hr & _) & _). apply wp_on_buffer_read, wp_on_pieces_read.
  destruct (model_position_line d p Hp) as (st & h & e & Hst & _ & _ & Hcol & Ho & H0 & Hz & Hle & Hl).
  assert (Eo : offset_of d (lineNumber p) (Position.column p - 2 + 1) = offset_at d p - 1) by (rewrite Ho; unfold offset_of; rewrite Hst; lia).
  eapply wp_mono; [apply (wp_getLineCharCode F _ d (lineNumber p) (Position.column p - 2) c Hr)|].
  - split; [done|]. split; [lia|]. rewrite Eo. pose proof (zlen_nonneg e). pose proof (zlen_nonneg h). lia.
  - by rewrite Eo.
  - intros r s' [-> ->]. rewrite <- Ec. by split.
Qed.

Lemma before_position p : model_position d p -> 1 < Position.column p -> exists c, d.[offset_at d p - 1] = Some c.
Proof.
  intros Hp Hc. destruct (model_position_line d p Hp) as (st & h & e & Hst & _ & _ & Hcol & Ho & H0 & Hz & Hle & Hl). pose proof (zlen_nonneg e). pose proof (zlen_nonneg h).
  apply at_in_range. lia.
Qed.

(** Is the position after a high surrogate of its line? *)
Definition after_high p : bool := (1 <? Position.column p) && high (d.[offset_at d p - 1]).

Lemma wp_valid_relaxed p (Q : bool -> TextModel -> Prop) : model_position d p -> Q true m -> wp (TM.isValidPosition (lineNumber p) (Position.column p) Relaxed) m Q.
Proof.
  intros Hp HQ. pose proof Hp as (H1 & c & Hc & Hcol). pose proof (at_lt _ _ _ Hc) as Hlt. rewrite breaks_splitLines in Hlt. pose proof (model_position_line d p Hp) as (st & h & e & Hst & _ & _ & Hcol' & Ho & H0 & Hz & Hle & Hl).
  destruct Hm as (_ & _ & Hsmall). assert (breaks d <= zlen d) by apply breaks_in_le. pose proof (zlen_nonneg e).
  unfold TM.isValidPosition. destruct (Z.ltb_spec (lineNumber p) 1); [lia|]. destruct (Z.ltb_spec (Position.column p) 1); [lia|]. cbn [orb].
  rewrite !to_int32_id by (unfold is_int32; lia). rewrite !Z.eqb_refl. cbn [negb orb]. apply wp_bind, wp_model_lineCount. rewrite Z.gtb_ltb. destruct (Z.ltb_spec (breaks d + 1) (lineNumber p)); [lia|].
  destruct (Z.eqb_spec (Position.column p) 1); [by apply wp_ret|]. apply wp_bind, (wp_maxColumn (lineNumber p) c); [lia|done|]. rewrite Z.gtb_ltb. destruct (Z.ltb_spec (zlen c + 1) (Position.column p)); [lia|]. by apply wp_ret.
Qed.

Lemma wp_start_high p (Q : bool -> TextModel -> Prop) : model_position d p -> Q (after_high p) m -> wp (TM.char_before_start (lineNumber p) (Position.column p)) m Q.
Proof.
  intros Hp HQ. unfold TM.char_before_start, after_high in *. rewrite Z.gtb_ltb. destruct (Z.ltb_spec 1 (Position.column p)); [|by apply wp_ret].
  apply wp_bind, wp_char_before; [done|done|by apply before_position|]. by apply wp_ret.
Qed.

(** The end of a line is never inside a pair. *)
Definition end_high p : bool := (1 <? Position.column p) && (Position.column p <=? zlen (default [] ((splitLines d).[lineNumber p - 1]))) && high (d.[offset_at d p - 1]).

Lemma wp_end_high p (Q : bool -> TextModel -> Prop) : model_position d p -> Q (end_high p) m -> wp (TM.char_before_end (lineNumber p) (Position.column p)) m Q.
Proof.
  intros Hp HQ. pose proof Hp as (H1 & c & Hc & Hcol). pose proof (at_lt _ _ _ Hc) as Hlt. rewrite breaks_splitLines in Hlt. unfold TM.char_before_end, end_high in *. rewrite Hc in HQ. change (default [] (Some c)) with c in HQ. rewrite Z.gtb_ltb.
  destruct (Z.ltb_spec 1 (Position.column p)); [|by apply wp_ret]. apply wp_bind, (wp_model_lineLength _ c); [lia|done|].
  destruct (Z.leb_spec (Position.column p) (zlen c)); [|by apply wp_ret]. apply wp_bind, wp_char_before; [done|done|by apply before_position|]. by apply wp_ret.
Qed.

Lemma wp_isValidRange r (Q : bool -> TextModel -> Prop) : model_range d r ->
  Q (negb (after_high (Rng.getStartPosition r)) && negb (end_high (Rng.getEndPosition r))) m -> wp (TM.isValidRange r) m Q.
Proof.
  intros (Hs & He & _) HQ. unfold TM.isValidRange. apply wp_bind, (wp_valid_relaxed (Rng.getStartPosition r)); [done|]. cbn [negb].
  apply wp_bind, (wp_valid_relaxed (Rng.getEndPosition r)); [done|]. cbn [negb]. apply wp_bind, (wp_start_high (Rng.getStartPosition r)); [done|].
  apply wp_bind, (wp_end_high (Rng.getEndPosition r)); [done|]. by apply wp_ret.
Qed.

(** Any numbers are moved to a position of the text. *)
Definition nearest_position (line column : Z) : Position :=
  if line <? 1 then mkPosition 1 1
  else if line >? breaks d + 1 then mkPosition (breaks d + 1) (zlen (last_line d) + 1)
  else if column <=? 1 then mkPosition line 1
  else let n := zlen (default [] ((splitLines d).[line - 1])) + 1 in mkPosition line (Z.min column n).

Lemma line_exists line : 1 <= line <= breaks d + 1 -> exists c, (splitLines d).[line - 1] = Some c.
Proof. intros Hl. apply at_in_range. rewrite breaks_splitLines. lia. Qed.

Lemma last_line_at : (splitLines d).[breaks d] = Some (last_line d).
Proof. destruct (splitLines_last d) as (init & -> & Hi). rewrite <- Hi. rewrite <- (Z.add_0_r (zlen init)) at 1. by rewrite at_app_zlen. Qed.

Lemma nearest_position_ok line column : model_position d (nearest_position line column).
Proof.
  pose proof (breaks_nonneg d). unfold nearest_position. rewrite Z.gtb_ltb. destruct (Z.ltb_spec line 1); [|destruct (Z.ltb_spec (breaks d + 1) line); [|destruct (Z.leb_spec column 1)]].
  - split; [done|]. destruct (line_exists 1 ltac:(lia)) as [c Hc]. exists c. split; [done|]. pose proof (zlen_nonneg c). cbn. lia.
  - split; [cbn; lia|]. exists (last_line d). cbn [lineNumber Position.column]. replace (breaks d + 1 - 1) with (breaks d) by lia. split; [apply last_line_at|]. pose proof (zlen_nonneg (last_line d)). lia.
  - split; [done|]. destruct (line_exists line ltac:(lia)) as [c Hc]. exists c. split; [done|]. pose proof (zlen_nonneg c). cbn. lia.
  - split; [done|]. destruct (line_exists line ltac:(lia)) as [c Hc]. exists c. cbn [lineNumber Position.column]. rewrite Hc. split; [done|]. pose proof (zlen_nonneg c). cbn. lia.
Qed.

Lemma nearest_position_id p : model_position d p -> nearest_position (lineNumber p) (Position.column p) = p.
Proof.
  intros (H1 & c & Hc & Hcol). pose proof (at_lt _ _ _ Hc) as Hlt. rewrite breaks_splitLines in Hlt. unfold nearest_position. rewrite Z.gtb_ltb, Hc. change (default [] (Some c)) with c.
  destruct (Z.ltb_spec (lineNumber p) 1); [lia|]. destruct (Z.ltb_spec (breaks d + 1) (lineNumber p)); [lia|]. destruct p as [l col]. cbn [lineNumber Position.column] in *.
  destruct (Z.leb_spec col 1); f_equal; lia.
Qed.

Lemma wp_validate_relaxed line column (Q : Position -> TextModel -> Prop) : Q (nearest_position line column) m -> wp (TM.validatePosition_ line column Relaxed) m Q.
Proof.
  intros HQ. pose proof (breaks_nonneg d). unfold TM.validatePosition_, nearest_position in *. rewrite Z.gtb_ltb in *. apply wp_bind, wp_model_lineCount. rewrite Z.gtb_ltb.
  destruct (Z.ltb_spec line 1); [by apply wp_ret|]. destruct (Z.ltb_spec (breaks d + 1) line).
  - apply wp_bind, (wp_maxColumn _ (last_line d)); [lia|replace (breaks d + 1 - 1) with (breaks d) by lia; apply last_line_at|]. by apply wp_ret.
  - destruct (Z.leb_spec column 1); [by apply wp_ret|]. destruct (line_exists line ltac:(lia)) as [c Hc]. rewrite Hc in HQ. change (default [] (Some c)) with c in HQ.
    apply wp_bind, (wp_maxColumn line c); [lia|done|]. rewrite Z.geb_leb. destruct (Z.leb_spec (zlen c + 1) column); apply wp_ret; [by rewrite Z.min_r in HQ by lia|by rewrite Z.min_l in HQ by lia].
Qed.

Lemma wp_model_offsetAt p (Q : Z -> TextModel -> Prop) : model_position d p -> Q (offset_at d p) m -> wp (TM.getOffsetAt p) m Q.
Proof.
  intros Hp HQ. unfold TM.getOffsetAt. apply wp_bind, wp_assert, wp_bind, wp_validate_relaxed. rewrite nearest_position_id by done. apply wp_on_buffer_read.
  destruct Hm as (Hb & _). eapply wp_mono; [by apply (holds_here F (buffer_ m) eol d p)|]. by intros r b [-> ->].
Qed.

End read.

(** ** Surrogate pairs *)

Definition low (c : option Z) : bool := match c with Some c => (0xDC00 <=? c) && (c <=? 0xDFFF) | None => false end.

(** The position is between the two halves of a surrogate pair of its line. *)
Definition inside_pair d p : bool :=
  let c := default [] ((splitLines d).[lineNumber p - 1]) in high (c.[Position.column p - 2]) && low (c.[Position.column p - 1]).

(** In every line, a low surrogate follows each high one. *)
Definition paired d : Prop := forall l c i, (splitLines d).[l] = Some c -> high (c.[i]) = true -> low (c.[i + 1]) = true.

Lemma high_not_low c : high c = true -> low c = false.
Proof. destruct c as [c|]; [|done]. unfold high, low, isHighSurrogate. intros. lia. Qed.

Lemma line_char d p c : model_position d p -> (splitLines d).[lineNumber p - 1] = Some c -> 1 < Position.column p -> d.[offset_at d p - 1] = c.[Position.column p - 2].
Proof.
  intros (H1 & c' & Hc' & Hcol) Hc Hgt. rewrite Hc in Hc'. injection Hc' as <-. pose proof (at_lt _ _ _ Hc) as Hlt. rewrite breaks_splitLines in Hlt.
  destruct (start_at d (lineNumber p - 1) ltac:(lia)) as (st & Hst & Hr). pose proof (line_bounds d _ st Hst) as Hbd. pose proof (raw_line_at d _ st Hst) as Hraw.
  destruct (raw_line_split d (lineNumber p - 1) _ ltac:(lia) Hraw) as [(h & e & E & Hh & He) Hs]. rewrite Hc in Hs. injection Hs as ->. rewrite E, (strip_one_line h e Hh He) in Hcol |- *.
  assert (Ho : offset_at d p = st + Position.column p - 1) by (unfold offset_at, offset_of; by rewrite Hst). rewrite Ho.
  assert (Hz : zlen (h ++ e) = line_end d (lineNumber p - 1 + 1) - st) by (rewrite <- E, zlen_sub; lia). rewrite zlen_app in Hz. pose proof (zlen_nonneg e).
  rewrite <- (at_app_l h e) by lia. rewrite <- E, sub_at by lia. f_equal. lia.
Qed.

Section pairs.
Context (d : list Z).
Hypothesis Hpaired : paired d.

Lemma outside_after_high p : model_position d p -> inside_pair d p = false -> after_high d p = false.
Proof.
  intros Hp Hi. pose proof Hp as (_ & c & Hc & Hcol). unfold after_high. destruct (Z.ltb_spec 1 (Position.column p)); [|done]. cbn [andb].
  rewrite (line_char d p c Hp Hc) by done. unfold inside_pair in Hi. rewrite Hc in Hi. change (default [] (Some c)) with c in Hi. destruct (high (c.[Position.column p - 2])) eqn:E; [|done]. cbn [andb] in Hi.
  pose proof (Hpaired _ _ _ Hc E) as Hl. replace (Position.column p - 2 + 1) with (Position.column p - 1) in Hl by lia. by rewrite Hl in Hi.
Qed.

Lemma end_high_after p : end_high d p = true -> after_high d p = true /\ Position.column p <= zlen (default [] ((splitLines d).[lineNumber p - 1])).
Proof. unfold end_high, after_high. destruct (1 <? Position.column p); [|done]. cbn [andb]. intros [H1 H2]%andb_true_iff. split; [done|]. lia. Qed.

(** Where there is no high surrogate before, or the line ends, there is no pair. *)
Lemma not_after_high p : model_position d p -> after_high d p = false -> inside_pair d p = false.
Proof.
  intros Hp Ha. pose proof Hp as (_ & c & Hc & Hcol). unfold inside_pair. rewrite Hc. change (default [] (Some c)) with c. unfold after_high in Ha. destruct (Z.ltb_spec 1 (Position.column p)) as [H1|H1]; cbn [andb] in Ha.
  - rewrite (line_char d p c Hp Hc) in Ha by done. by rewrite Ha.
  - unfold at_ at 1. by destruct (Z.ltb_spec (Position.column p - 2) 0); [|lia].
Qed.

Lemma not_end_high p : model_position d p -> end_high d p = false -> inside_pair d p = false.
Proof.
  intros Hp Ha. pose proof Hp as (_ & c & Hc & Hcol). destruct (after_high d p) eqn:E; [|by apply not_after_high]. unfold after_high in E. unfold end_high in Ha. rewrite Hc in Ha. change (default [] (Some c)) with c in Ha.
  apply andb_true_iff in E as [E1 E2]. rewrite E1, E2, andb_true_r in Ha. cbn [andb] in Ha. unfold inside_pair. rewrite Hc. change (default [] (Some c)) with c.
  rewrite (at_None c (Position.column p - 1)) by lia. by rewrite andb_false_r.
Qed.

(** One column back, or on. *)
Lemma step_back p : model_position d p -> after_high d p = true -> let q := mkPosition (lineNumber p) (Position.column p - 1) in
  model_position d q /\ inside_pair d q = false.
Proof.
  intros Hp Ha q. pose proof Hp as (Hl & c & Hc & Hcol). unfold after_high in Ha. apply andb_true_iff in Ha as [H1 H2]. rewrite (line_char d p c Hp Hc) in H2 by lia.
  split; [split; [done|]; exists c; split; [done|cbn; lia]|]. unfold inside_pair, q. cbn [lineNumber Position.column]. rewrite Hc. change (default [] (Some c)) with c.
  replace (Position.column p - 1 - 1) with (Position.column p - 2) by lia. by rewrite (high_not_low _ H2), andb_false_r.
Qed.

Lemma step_on p : model_position d p -> end_high d p = true -> let q := mkPosition (lineNumber p) (Position.column p + 1) in
  model_position d q /\ inside_pair d q = false.
Proof.
  intros Hp He q. destruct (end_high_after p He) as [Ha Hle]. pose proof Hp as (Hl & c & Hc & Hcol). rewrite Hc in Hle. change (default [] (Some c)) with c in Hle. unfold after_high in Ha. apply andb_true_iff in Ha as [H1 H2]. rewrite (line_char d p c Hp Hc) in H2 by lia.
  split; [split; [done|]; exists c; split; [done|cbn; lia]|]. unfold inside_pair, q. cbn [lineNumber Position.column]. rewrite Hc. change (default [] (Some c)) with c.
  pose proof (Hpaired _ _ _ Hc H2) as Hlow. replace (Position.column p + 1 - 2) with (Position.column p - 2 + 1) by lia. destruct (high (c.[Position.column p - 2 + 1])) eqn:E; [|done]. apply high_not_low in E. by rewrite E in Hlow.
Qed.

End pairs.

(** ** Ranges *)

Definition between p q : Range := Rng.new_Range (lineNumber p) (Position.column p) (lineNumber q) (Position.column q).

Definition back p : Position := mkPosition (lineNumber p) (Position.column p - 1).
Definition onward p : Position := mkPosition (lineNumber p) (Position.column p + 1).

(** What the slow path of [validateRange] makes of two positions. *)
Definition widened d p q : Range :=
  if negb (after_high d p) && negb (end_high d q) then between p q
  else if (lineNumber p =? lineNumber q) && (Position.column p =? Position.column q) then between (back p) (back q)
  else if after_high d p && end_high d q then between (back p) (onward q)
  else if after_high d p then between (back p) q
  else between p (onward q).

Lemma between_ok d p q : model_position d p -> model_position d q -> model_range d (between p q) /\
  ((Rng.getStartPosition (between p q) = p /\ Rng.getEndPosition (between p q) = q) \/ (Rng.getStartPosition (between p q) = q /\ Rng.getEndPosition (between p q) = p)).
Proof.
  intros Hp Hq. assert (Hw : range_wf (between p q)) by apply new_Range_wf. unfold model_range.
  assert (Hor : (Rng.getStartPosition (between p q) = p /\ Rng.getEndPosition (between p q) = q) \/ (Rng.getStartPosition (between p q) = q /\ Rng.getEndPosition (between p q) = p)).
  { destruct p as [l c], q as [l' c']. unfold between, Rng.new_Range. cbn [lineNumber Position.column]. match goal with |- context [if ?x then _ else _] => destruct x end; [right|left]; by split. }
  split; [|exact Hor]. destruct Hor as [[-> ->]|[-> ->]]; by split_and!.
Qed.

Lemma widened_empty d p : Rng.getStartPosition (widened d p p) = Rng.getEndPosition (widened d p p).
Proof.
  assert (Hb : forall q, Rng.getStartPosition (between q q) = Rng.getEndPosition (between q q)).
  { intros q. unfold between, Rng.new_Range. by destruct (_ || _). }
  unfold widened. destruct (negb (after_high d p) && negb (end_high d p)); [apply Hb|]. rewrite !Z.eqb_refl. apply Hb.
Qed.

(** The ends of a pair, for a position inside of it. *)
Definition before_pair d p : Position := if inside_pair d p then back p else p.
Definition after_pair d p : Position := if inside_pair d p then onward p else p.

Lemma after_high_pair d p : paired d -> model_position d p -> after_high d p = inside_pair d p.
Proof.
  intros Hpd Hp. destruct (inside_pair d p) eqn:E; [|by apply outside_after_high]. destruct (after_high d p) eqn:Ea; [done|]. by rewrite (not_after_high d p Hp Ea) in E.
Qed.

Lemma end_high_pair d p : paired d -> model_position d p -> end_high d p = inside_pair d p.
Proof.
  intros Hpd Hp. destruct (end_high d p) eqn:E; [|by rewrite not_end_high]. destruct (end_high_after d p E) as [Ha _]. by rewrite <- (after_high_pair d p Hpd Hp).
Qed.

Lemma between_ordered p q : pos_le p q -> Rng.getStartPosition (between p q) = p /\ Rng.getEndPosition (between p q) = q.
Proof.
  intros Hle. destruct p as [l c], q as [l' c']. unfold between. cbn [lineNumber Position.column] in *. by rewrite new_Range_id.
Qed.

(** In a text of pairs the two tests of [validateRange] are whether the position is inside a pair. *)
Lemma widened_pairs d p q : paired d -> model_position d p -> model_position d q ->
  (p = q -> Rng.getStartPosition (widened d p q) = before_pair d p /\ Rng.getEndPosition (widened d p q) = before_pair d p) /\
  (pos_lt p q -> Rng.getStartPosition (widened d p q) = before_pair d p /\ Rng.getEndPosition (widened d p q) = after_pair d q) /\
  (pos_lt q p -> widened d p q = between (before_pair d p) (after_pair d q)).
Proof.
  intros Hpd Hp Hq.
  assert (Hne : pos_lt p q \/ pos_lt q p -> widened d p q = between (before_pair d p) (after_pair d q)).
  { intros Hlt. unfold widened, before_pair, after_pair. rewrite after_high_pair, end_high_pair by done.
    assert ((lineNumber p =? lineNumber q) && (Position.column p =? Position.column q) = false) as -> by (unfold pos_lt in Hlt; lia).
    by destruct (inside_pair d p), (inside_pair d q). }
  split; [|split; [|intros Hlt; apply Hne; by right]].
  - intros <-. unfold widened, before_pair. rewrite after_high_pair, end_high_pair by done. rewrite !Z.eqb_refl. cbn [andb].
    destruct (inside_pair d p); apply between_ordered; unfold pos_le; lia.
  - intros Hlt. rewrite Hne by (by left). apply between_ordered. unfold pos_le, pos_lt, before_pair, after_pair, back, onward in *.
    destruct (inside_pair d p), (inside_pair d q); cbn [lineNumber Position.column]; lia.
Qed.

(** The result is a range of the text even where surrogates are alone. *)
Lemma back_position d p : model_position d p -> after_high d p = true -> model_position d (back p).
Proof. intros Hp Ha. apply (step_back d p Hp Ha). Qed.

Lemma onward_position d p : model_position d p -> end_high d p = true -> model_position d (onward p).
Proof.
  intros Hp He. destruct (end_high_after d p He) as [_ Hle]. destruct Hp as (Hl & c & Hc & Hcol). rewrite Hc in Hle. change (default [] (Some c)) with c in Hle.
  split; [done|]. exists c. split; [done|]. unfold onward. cbn [Position.column]. lia.
Qed.

Lemma widened_range d p q : model_position d p -> model_position d q -> model_range d (widened d p q).
Proof.
  intros Hp Hq. assert (Hb : forall p q, model_position d p -> model_position d q -> model_range d (between p q)) by (intros; by apply between_ok).
  pose proof (back_position d p Hp) as H1. pose proof (onward_position d q Hq) as H2. unfold widened.
  destruct (after_high d p) eqn:Ep, (end_high d q) eqn:Eq; cbn [negb andb]; try (destruct (_ && _) eqn:E); auto.
  all: assert (p = q) as -> by (destruct p as [l c], q as [l' c']; cbn [lineNumber Position.column] in E; f_equal; lia); auto.
  destruct (end_high_after d q Eq) as [Ha _]. by rewrite Ha in Ep.
Qed.

Lemma nearest_position_mono d r : range_wf r -> pos_le (nearest_position d (startLineNumber r) (startColumn r)) (nearest_position d (endLineNumber r) (endColumn r)).
Proof.
  destruct r as [sl sc el ec]. unfold range_wf, pos_le, nearest_position, Rng.getStartPosition, Rng.getEndPosition. cbn. intros Hw. pose proof (breaks_nonneg d). pose proof (zlen_nonneg (last_line d)).
  pose proof (zlen_nonneg (default [] ((splitLines d).[sl - 1]))). pose proof (zlen_nonneg (default [] ((splitLines d).[el - 1]))).
  rewrite !Z.gtb_ltb. destruct (Z.ltb_spec sl 1), (Z.ltb_spec el 1), (Z.ltb_spec (breaks d + 1) sl), (Z.ltb_spec (breaks d + 1) el), (Z.leb_spec sc 1), (Z.leb_spec ec 1); cbn [lineNumber Position.column]; try lia.
  all: try (destruct (Z.eq_dec sl el) as [->|]; lia).
  all: destruct (Z.eq_dec sl (breaks d + 1)) as [->|]; [|lia]; replace (breaks d + 1 - 1) with (breaks d) in * by lia; rewrite (last_line_at d) in *; change (default [] (Some (last_line d))) with (last_line d) in *; lia.
Qed.

Lemma widened_ok d p q : paired d -> model_position d p -> model_position d q -> model_range d (widened d p q) /\
  inside_pair d (Rng.getStartPosition (widened d p q)) = false /\ inside_pair d (Rng.getEndPosition (widened d p q)) = false.
Proof.
  intros Hpd Hp Hq.
  assert (Hb : forall p q, model_position d p /\ inside_pair d p = false -> model_position d q /\ inside_pair d q = false ->
    model_range d (between p q) /\ inside_pair d (Rng.getStartPosition (between p q)) = false /\ inside_pair d (Rng.getEndPosition (between p q)) = false).
  { intros p' q' [Hp' Ip] [Hq' Iq]. destruct (between_ok d p' q' Hp' Hq') as [Hr [[-> ->]|[-> ->]]]; done. }
  assert (H1 : after_high d p = false -> model_position d p /\ inside_pair d p = false) by (intros E; split; [done|by apply not_after_high]).
  assert (H2 : end_high d q = false -> model_position d q /\ inside_pair d q = false) by (intros E; split; [done|by apply not_end_high]).
  pose proof (step_back d p Hp) as H3. pose proof (step_on d Hpd q Hq) as H4. fold (back p) in H3. fold (onward q) in H4. cbv zeta in *.
  unfold widened. destruct (after_high d p) eqn:Ep, (end_high d q) eqn:Eq; cbn [negb andb]; try (destruct (_ && _) eqn:E; [|apply Hb; auto]); try (apply Hb; auto).
  all: assert (p = q) as -> by (destruct p as [l c], q as [l' c']; cbn [lineNumber Position.column] in E; f_equal; lia); auto.
  all: destruct (end_high_after d q Eq) as [Ha _]; by rewrite Ha in Ep.
Qed.

Section ranges.
Context (F : gmap ptr TreeNode) (m : TextModel) (eol d : list Z).
Hypothesis Hm : models F m eol d.

(** A range that counts as valid is one of the text. *)
Lemma wp_valid_any line column (Q : bool -> TextModel -> Prop) :
  (forall v, (v = true -> model_position d (mkPosition line column)) -> Q v m) -> wp (TM.isValidPosition line column Relaxed) m Q.
Proof.
  intros HQ. unfold TM.isValidPosition. destruct (Z.ltb_spec line 1); [by apply wp_ret, HQ|]. destruct (Z.ltb_spec column 1); [by apply wp_ret, HQ|]. cbn [orb].
  destruct (negb (to_int32 line =? line) || negb (to_int32 column =? column)); [by apply wp_ret, HQ|]. apply wp_bind, (wp_model_lineCount F m eol d Hm). rewrite Z.gtb_ltb. destruct (Z.ltb_spec (breaks d + 1) line); [by apply wp_ret, HQ|].
  destruct (line_exists d line ltac:(lia)) as [c Hc]. pose proof (zlen_nonneg c). destruct (Z.eqb_spec column 1) as [->|].
  - apply wp_ret, HQ. intros _. split; [cbn; lia|]. exists c. split; [done|cbn; lia].
  - apply wp_bind, (wp_maxColumn F m eol d Hm line c); [lia|done|]. rewrite Z.gtb_ltb. destruct (Z.ltb_spec (zlen c + 1) column); [by apply wp_ret, HQ|]. apply wp_ret, HQ. intros _. split; [done|]. exists c. split; [done|cbn; lia].
Qed.

Lemma wp_isValid_any r (Q : bool -> TextModel -> Prop) : range_wf r ->
  (forall v, (v = true -> model_range d r /\ after_high d (Rng.getStartPosition r) = false /\ end_high d (Rng.getEndPosition r) = false) -> Q v m) -> wp (TM.isValidRange r) m Q.
Proof.
  intros Hw HQ. unfold TM.isValidRange. apply wp_bind, wp_valid_any. intros [] Hs; cbn [negb]; [|by apply wp_ret, HQ]. specialize (Hs eq_refl).
  apply wp_bind, wp_valid_any. intros [] He; cbn [negb]; [|by apply wp_ret, HQ]. specialize (He eq_refl).
  apply wp_bind, (wp_start_high F m eol d Hm (Rng.getStartPosition r)); [exact Hs|]. apply wp_bind, (wp_end_high F m eol d Hm (Rng.getEndPosition r)); [exact He|]. apply wp_ret, HQ.
  destruct (after_high d _), (end_high d _); done.
Qed.

Lemma wp_slow_range r : wp (start ← TM.validatePosition_ (startLineNumber r) (startColumn r) Relaxed;
    end_ ← TM.validatePosition_ (endLineNumber r) (endColumn r) Relaxed;
    let sl := lineNumber start in let sc := Position.column start in let el := lineNumber end_ in let ec := Position.column end_ in
    startInsideSurrogatePair ← TM.char_before_start sl sc;
    endInsideSurrogatePair ← TM.char_before_end el ec;
    mret (if negb startInsideSurrogatePair && negb endInsideSurrogatePair then Rng.new_Range sl sc el ec
      else if (sl =? el) && (sc =? ec) then Rng.new_Range sl (sc - 1) el (ec - 1)
      else if startInsideSurrogatePair && endInsideSurrogatePair then Rng.new_Range sl (sc - 1) el (ec + 1)
      else if startInsideSurrogatePair : bool then Rng.new_Range sl (sc - 1) el ec
      else Rng.new_Range sl sc el (ec + 1))) m
  (fun r' m' => m' = m /\ r' = widened d (nearest_position d (startLineNumber r) (startColumn r)) (nearest_position d (endLineNumber r) (endColumn r))).
Proof.
  apply wp_bind, (wp_validate_relaxed F m eol d Hm), wp_bind, (wp_validate_relaxed F m eol d Hm). set (p := nearest_position d _ _). set (q := nearest_position d _ _). cbv zeta.
  apply wp_bind, (wp_start_high F m eol d Hm p); [apply nearest_position_ok|]. apply wp_bind, (wp_end_high F m eol d Hm q); [apply nearest_position_ok|]. by apply wp_ret.
Qed.

Lemma wp_validateRange isRange r : range_wf r \/ isRange = false ->
  wp (TM.validateRange isRange r) m (fun r' m' => m' = m /\
    ((r' = r /\ model_range d r /\ after_high d (Rng.getStartPosition r) = false /\ end_high d (Rng.getEndPosition r) = false) \/
     r' = widened d (nearest_position d (startLineNumber r) (startColumn r)) (nearest_position d (endLineNumber r) (endColumn r)))).
Proof.
  intros Hw. unfold TM.validateRange. apply wp_bind, (wp_assert F m eol d Hm). apply wp_bind. apply (wp_mono _ _ (fun v m' => m' = m /\ (v = true -> model_range d r /\ after_high d (Rng.getStartPosition r) = false /\ end_high d (Rng.getEndPosition r) = false))).
  - destruct isRange; [|by apply wp_ret]. destruct Hw as [Hw|]; [|done]. by apply wp_isValid_any.
  - intros v m' [-> Hv]. destruct v; [apply wp_ret; split; [done|]; left; by split; [|apply Hv]|]. eapply wp_mono; [apply wp_slow_range|]. intros r' m' [-> ->]. split; [done|]. by right.
Qed.

(** On a range of the text whose ends are not after a high surrogate both paths do nothing. *)
Lemma validated_id r : model_range d r -> after_high d (Rng.getStartPosition r) = false -> end_high d (Rng.getEndPosition r) = false ->
  widened d (nearest_position d (startLineNumber r) (startColumn r)) (nearest_position d (endLineNumber r) (endColumn r)) = r.
Proof.
  intros (Hs & He & Hw) H1 H2. pose proof (nearest_position_id d _ Hs) as E1. pose proof (nearest_position_id d _ He) as E2. unfold Rng.getStartPosition, Rng.getEndPosition in *. cbn [lineNumber Position.column] in *.
  rewrite E1, E2. unfold widened. rewrite H1, H2. cbn [negb andb]. by apply wf_Range_id.
Qed.

Lemma wp_validate_good r : model_range d r -> after_high d (Rng.getStartPosition r) = false -> end_high d (Rng.getEndPosition r) = false ->
  forall isRange, wp (TM.validateRange isRange r) m (fun r' m' => m' = m /\ r' = r).
Proof.
  intros Hr H1 H2 isRange. eapply wp_mono; [apply wp_validateRange; left; apply Hr|]. intros r' m' [-> [[-> _]| ->]]; [done|]. split; [done|]. by apply validated_id.
Qed.

End ranges.

(** C14: The ranges of edits are made safe.  Whatever the numbers of a range that has its ends in
    order or is not an object of the class [Range], [validateRange] of a model does not throw,
    does not change the model, and gives a range of its text, with its ends in order, that is
    empty if the given one is.  When the surrogates of the text are paired, no end is inside a
    pair: with the two ends brought to their nearest positions in the text, an empty range is
    moved as a whole before the pair that it is in; otherwise the start is moved before its pair
    and the end after its pair (and the two are exchanged if they were out of order), and an end
    outside of a pair stays.  A safe range of the text is given back as it is. *)
Theorem validateRange_safe F m eol d isRange r : models F m eol d -> range_wf r \/ isRange = false ->
  let p := nearest_position d (startLineNumber r) (startColumn r) in let q := nearest_position d (endLineNumber r) (endColumn r) in
  wp (TM.validateRange isRange r) m (fun r' m' => m' = m /\ model_range d r' /\ (range_wf r -> pos_le p q) /\
    (Rng.getStartPosition r = Rng.getEndPosition r -> Rng.getStartPosition r' = Rng.getEndPosition r') /\
    (paired d ->
      inside_pair d (Rng.getStartPosition r') = false /\ inside_pair d (Rng.getEndPosition r') = false /\
      (p = q -> Rng.getStartPosition r' = before_pair d p /\ Rng.getEndPosition r' = before_pair d p) /\
      (pos_lt p q -> Rng.getStartPosition r' = before_pair d p /\ Rng.getEndPosition r' = after_pair d q) /\
      (pos_lt q p -> r' = between (before_pair d p) (after_pair d q)) /\
      (model_range d r -> inside_pair d (Rng.getStartPosition r) = false -> inside_pair d (Rng.getEndPosition r) = false -> r' = r))).
Proof.
  intros Hm Hw p q. eapply wp_mono; [by apply (wp_validateRange F m eol d Hm isRange r Hw)|]. intros r' m' [-> Hr'].
  pose proof (nearest_position_ok d (startLineNumber r) (startColumn r)) as Hp. pose proof (nearest_position_ok d (endLineNumber r) (endColumn r)) as Hq. fold p in Hp, Hr'. fold q in Hq, Hr'.
  assert (Er : r' = widened d p q) by (destruct Hr' as [(-> & Hr & H1 & H2)|]; [symmetry; by apply validated_id|done]). clear Hr'. subst r'.
  split; [done|]. split; [by apply widened_range|]. split; [apply nearest_position_mono|]. split; [intros E; unfold p, q; destruct r as [sl sc el ec]; injection E as <- <-; apply widened_empty|].
  intros Hpd. destruct (widened_ok d p q Hpd Hp Hq) as (_ & H1 & H2). split; [exact H1|]. split; [exact H2|]. destruct (widened_pairs d p q Hpd Hp Hq) as (H3 & H4 & H5). split; [exact H3|]. split; [exact H4|]. split; [exact H5|].
  intros Hr Is Ie. pose proof Hr as (Hs & He & _). apply validated_id; [done|by apply outside_after_high|]. rewrite end_high_pair by done. exact Ie.
Qed.

Definition sample_model (s : PieceTreeBase) : TextModel := mkModel (mkTextBuffer s [] false false false) 1 1 true None false false false [].

(** A text with a surrogate pair. *)
Definition pair_text : list Z := [97; 55357; 56832; 98].

Lemma pair_text_paired : paired pair_text.
Proof.
  intros l c i El Hh. assert (Hl : 0 <= l < 1) by (apply at_lt in El; exact El). assert (l = 0) as -> by lia. change (Some pair_text = Some c) in El. injection El as <-.
  destruct (pair_text.[i]) as [x|] eqn:Ei; [|done]. apply at_lt in Ei as Hi. change (zlen pair_text) with 4 in Hi.
  assert (i = 0 \/ i = 1 \/ i = 2 \/ i = 3) as [-> | [-> | [-> | ->]]] by lia; injection Ei as <-; done.
Qed.

Lemma validateRange_safe_witness : exists s r', PT.insert 0 pair_text true empty_tree = Ok (tt, s) /\
  TM.validateRange true (mkRange 1 3 1 9) (sample_model s) = Ok (r', sample_model s) /\ model_range pair_text r' /\
  inside_pair pair_text (Rng.getStartPosition r') = false /\ Rng.getStartPosition r' = mkPosition 1 2 /\ Rng.getEndPosition r' = mkPosition 1 5.
Proof.
  pose proof (wp_insert ∅ empty_tree [] 0 pair_text true empty_represents ltac:(by vm_compute) ltac:(done) ltac:(by vm_compute) ltac:(done)) as H1.
  apply wp_run in H1 as ([] & s & E1 & Hs & He & Hn & Hb & _). exists s.
  assert (Hm : models ∅ (sample_model s) [10] pair_text) by (split; [split; [exact Hs|split; [exact He|exact Hn]]|split; [done|change (zlen pair_text) with 4; lia]]).
  pose proof (validateRange_safe ∅ (sample_model s) [10] pair_text true (mkRange 1 3 1 9) Hm ltac:(left; unfold range_wf, pos_le; cbn; lia)) as H. cbv zeta in H.
  apply wp_run in H as (r' & m' & Er & -> & Hr & _ & _ & Hp). destruct (Hp pair_text_paired) as (Hi & _ & _ & Hends & _). specialize (Hends ltac:(right; by split)). exists r'. split; [exact E1|]. split; [exact Er|]. split; [exact Hr|]. split; [exact Hi|]. exact Hends.
Defined.
