(* ===== verification/RawChanges.v ===== *)
(** * The raw changes of a text model

    [_doApplyEdits] of a model tells its views, for each change of the text, which of their
    lines changed, were deleted or inserted, with the contents that the lines have in the end.
    Here: what these raw changes are, as a function of the lines of the new text, and that
    they turn the lines of the old text into those of the new one. *)

From S2P Require Import Prelude Position TextRange TextChange Length EolCounter Store RbTree RbInsert PtBuffer PtSpan Strings PieceTree PtState PtEdit PtSearch PtInsert PtDelete PtQuery PtLines PtRead PtBuild PtContent TextBuffer TextBuilder EditText EditPositions ApplyEdits TextModel ModelEdits.

#[local] Set Warnings "-notation-for-abbreviation".
#[local] Open Scope js_scope.
#[local] Arguments Z.eqb : simpl never.
#[local] Arguments Z.ltb : simpl never.
#[local] Arguments Z.leb : simpl never.
#[local] Arguments Z.add : simpl never.
#[local] Arguments Z.sub : simpl never.

Implicit Types (d a t : list Z) (ops : list IValidatedEditOperation) (op : IValidatedEditOperation).

(** ** What a view does *)

Definition replay_raw (lines : list (list Z)) (r : ModelRawChange) : list (list Z) :=
  match r with
  | RawLineChanged l c => <[Z.to_nat (l - 1) := c]> lines
  | RawLinesDeleted f t => take (Z.to_nat (f - 1)) lines ++ drop (Z.to_nat t) lines
  | RawLinesInserted f _ ls => take (Z.to_nat (f - 1)) lines ++ ls ++ drop (Z.to_nat (f - 1)) lines
  | RawFlush | RawEOLChanged => lines
  end.

(** ** The raw changes, from the lines [N] of the new text *)

Section spec.
Context (N : list (list Z)).

Fixpoint changed_of (n : nat) (start cur : Z) : list ModelRawChange :=
  RawLineChanged (start + Z.of_nat n) (default [] (N.[cur + Z.of_nat n - 1])) ::
  match n with O => [] | S n' => changed_of n' start cur end.

Definition raw_of (cur start del ins : Z) : list ModelRawChange :=
  let editing := Z.min del ins in
  changed_of (Z.to_nat editing) start cur ++
  (if editing <? del then [RawLinesDeleted (start + editing + 1) (start + del)] else []) ++
  (if editing <? ins then [RawLinesInserted (start + editing + 1) (start + ins) (take (Z.to_nat (ins - editing)) (drop (Z.to_nat (cur + editing)) N))] else []).

Lemma take_drop_S (l : list (list Z)) k n x : l !! (k + n)%nat = Some x -> take (S n) (drop k l) = take n (drop k l) ++ [x].
Proof. intros Hx. apply take_S_r. by rewrite lookup_drop. Qed.

(** The changed lines come to stand where the old ones were. *)
Lemma replay_changed arr n s k : 1 <= s -> 1 <= k -> (Z.to_nat s + n <= List.length arr)%nat -> (Z.to_nat k + n <= List.length N)%nat ->
  foldl replay_raw arr (changed_of n s k) = take (Z.to_nat (s - 1)) arr ++ take (S n) (drop (Z.to_nat (k - 1)) N) ++ drop (Z.to_nat (s - 1) + S n) arr.
Proof.
  intros Hs Hk. revert arr. induction n as [|n IH]; intros arr Ha HN; cbn [changed_of foldl replay_raw].
  - destruct (lookup_lt_is_Some_2 N (Z.to_nat (k - 1)) ltac:(lia)) as [c Hc].
    assert (HcZ : N.[k + Z.of_nat 0 - 1] = Some c) by (unfold at_; destruct (Z.ltb_spec (k + Z.of_nat 0 - 1) 0); [lia|]; rewrite <- Hc; f_equal; lia).
    rewrite HcZ. cbn [default from_option id]. replace (Z.to_nat (s + Z.of_nat 0 - 1)) with (Z.to_nat (s - 1)) by lia.
    rewrite insert_take_drop by lia. rewrite (drop_S N c) by done. by rewrite Nat.add_1_r.
  - destruct (lookup_lt_is_Some_2 N (Z.to_nat (k - 1) + S n)%nat ltac:(lia)) as [c Hc].
    assert (HcZ : N.[k + Z.of_nat (S n) - 1] = Some c) by (unfold at_; destruct (Z.ltb_spec (k + Z.of_nat (S n) - 1) 0); [lia|]; rewrite <- Hc; f_equal; lia).
    rewrite HcZ. change (default [] (Some c)) with c. rewrite IH by (rewrite ?length_insert; lia). rewrite (take_drop_S N (Z.to_nat (k - 1)) (S n) c Hc).
    rewrite take_insert_ge by lia. rewrite <- app_assoc. do 2 f_equal. replace (Z.to_nat (s + Z.of_nat (S n) - 1)) with (Z.to_nat (s - 1) + S n)%nat by lia.
    rewrite insert_take_drop by lia. rewrite drop_app_ge by (rewrite length_take; lia). rewrite length_take, Nat.min_l by lia. rewrite Nat.sub_diag, drop_0.
    cbn [app]. do 3 f_equal. lia.
Qed.

Lemma take_drop_more {A} (l : list A) i j k : take i (drop k l) ++ take j (drop (k + i) l) = take (i + j) (drop k l).
Proof. rewrite <- drop_drop. apply take_take_drop. Qed.

(** All lines of the edit come to stand where its old ones were. *)
Lemma replay_one arr cur start del ins : 1 <= start -> 1 <= cur -> 0 <= del -> 0 <= ins -> start + del <= zlen arr -> cur + ins <= zlen N ->
  foldl replay_raw arr (raw_of cur start del ins) =
  take (Z.to_nat (start - 1)) arr ++ take (Z.to_nat (ins + 1)) (drop (Z.to_nat (cur - 1)) N) ++ drop (Z.to_nat (start + del)) arr.
Proof.
  unfold zlen. intros Hs Hc Hd Hi Ha HN. unfold raw_of. set (e := Z.min del ins). rewrite !foldl_app, replay_changed by lia.
  set (A := take (Z.to_nat (start - 1)) arr). set (B := take (S (Z.to_nat e)) (drop (Z.to_nat (cur - 1)) N)).
  assert (HA : List.length A = Z.to_nat (start - 1)) by (unfold A; rewrite length_take; lia). assert (HB : List.length B = S (Z.to_nat e)) by (unfold B; rewrite length_take, length_drop; lia).
  replace (Z.to_nat (start - 1) + S (Z.to_nat e))%nat with (Z.to_nat (start + e)) by lia. set (arr1 := A ++ B ++ drop (Z.to_nat (start + e)) arr).
  assert (Htk : take (Z.to_nat (start + e)) arr1 = A ++ B) by (unfold arr1; rewrite app_assoc; apply take_app_length'; rewrite length_app; lia).
  assert (Hdr : forall k, 0 <= k -> drop (Z.to_nat (start + e + k)) arr1 = drop (Z.to_nat (start + e + k)) arr).
  { intros k Hk. unfold arr1. rewrite app_assoc, drop_app_ge by (rewrite length_app; lia). rewrite drop_drop, length_app. f_equal. lia. }
  destruct (Z.ltb_spec e del); destruct (Z.ltb_spec e ins); try lia; cbn [foldl replay_raw].
  - replace (start + e + 1 - 1) with (start + e) by lia. rewrite Htk. replace (start + del) with (start + e + (del - e)) by lia. rewrite Hdr by lia. replace (Z.to_nat (ins + 1)) with (S (Z.to_nat e)) by lia. by rewrite <- app_assoc.
  - replace (start + e + 1 - 1) with (start + e) by lia. rewrite Htk. replace (start + e) with (start + e + 0) by lia. rewrite Hdr by lia. rewrite <- app_assoc. f_equal.
    replace (Z.to_nat (cur + e)) with (Z.to_nat (cur - 1) + S (Z.to_nat e))%nat by lia. rewrite app_assoc. unfold B. rewrite take_drop_more. f_equal; [f_equal; lia|]. f_equal. lia.
  - unfold arr1. replace (start + del) with (start + e) by lia. by replace (Z.to_nat (ins + 1)) with (S (Z.to_nat e)) by lia.
Qed.

End spec.

(** ** Lines and cuts *)

Notation nb a := (Z.to_nat (breaks a)).

Lemma lines_cut a t : torn a t = false ->
  take (nb a) (splitLines (a ++ t)) = take (nb a) (splitLines a) /\
  drop (nb a) (splitLines (a ++ t)) = (last_line a ++ first_line t) :: drop 1 (splitLines t) /\
  List.length (splitLines a) = S (nb a) /\ splitLines a = take (nb a) (splitLines a) ++ [last_line a].
Proof.
  intros Ht. destruct (splitLines_app a t Ht) as (init & tl & E1 & E2 & E3). pose proof (breaks_splitLines a) as Hl. rewrite E1, zlen_app in Hl. change (zlen [last_line a]) with 1 in Hl.
  assert (Hi : nb a = List.length init) by (unfold zlen in Hl; lia). rewrite E1, E2, E3, Hi, !take_app_length, drop_app_length, length_app. cbn [List.length drop]. split_and!; try done. lia.
Qed.

Lemma lines_after a t : torn a t = false -> drop (S (nb a)) (splitLines (a ++ t)) = drop 1 (splitLines t).
Proof. intros Ht. destruct (lines_cut a t Ht) as (_ & H & _). replace (S (nb a)) with (nb a + 1)%nat by lia. by rewrite <- drop_drop, H. Qed.

Lemma last_line_app a t : torn a t = false -> 0 < breaks t -> last_line (a ++ t) = last_line t.
Proof.
  intros Ht Hb. destruct (splitLines_app a t Ht) as (init & tl & E1 & E2 & E3). pose proof (breaks_splitLines t) as Hl. rewrite E2 in Hl.
  destruct tl as [|l tl]; [change (zlen [first_line t]) with 1 in Hl; lia|]. unfold last_line at 1. rewrite E3, last_app_cons. unfold last_line. by rewrite E2.
Qed.

(** The array [arr] of lines, once the edits [ops] below the cut [e] were made: above the cut
    the lines of the old text, below it those of the new one; the line of the cut may be both. *)
Definition view_at d e ops (arr : list (list Z)) : Prop :=
  (nb (take (Z.to_nat e) d) < List.length arr)%nat /\
  take (nb (take (Z.to_nat e) d)) arr = take (nb (take (Z.to_nat e) d)) (splitLines d) /\
  drop (S (nb (take (Z.to_nat e) d))) arr = drop 1 (splitLines (splice d e ops)).

Lemma view_start d e : 0 <= e <= zlen d -> in_crlf d e = false -> view_at d e [] (splitLines d).
Proof.
  intros He Hc. rewrite <- in_crlf_torn in Hc by done. pose proof (lines_cut _ _ Hc) as (_ & Hd & _). pose proof (lines_after _ _ Hc) as Ha. rewrite take_drop in Hd, Ha.
  split; [|split; [done|exact Ha]]. apply (f_equal List.length) in Hd. rewrite length_drop in Hd. cbn [List.length] in Hd. lia.
Qed.

Section step.
Context (eol d : list Z) (op : IValidatedEditOperation) (ops : list IValidatedEditOperation) (e0 : Z) (X : list Z).
Hypothesis Heol : eol = [10] \/ eol = [13; 10].
Hypothesis Hn : normalized eol d.
Hypothesis He0 : 0 <= e0.
Hypothesis Hc0 : in_crlf d e0 = false.
Hypothesis Hch : chain eol d e0 (op :: ops).
Hypothesis HX : normalized eol X.

Let s := rangeOffset op.
Let g := sub d e0 s.
Let T := text op.
Let R := splice d (op_end op) ops.
Let A := X ++ g.
Let N := splitLines (A ++ T ++ R).

Lemma step_facts : normalized eol g /\ normalized eol T /\ normalized eol R /\ torn A (T ++ R) = false /\ torn T R = false /\ torn g (T ++ R) = false /\ torn X g = false /\
  torn (take (Z.to_nat e0) d) g = false /\ take (Z.to_nat s) d = take (Z.to_nat e0) d ++ g.
Proof.
  cbn [chain] in Hch. destruct Hch as (H1 & H2 & H3 & H4 & H5 & H6 & H7). fold s in H1.
  assert (Hs : s <= zlen d) by (unfold op_end in H3; unfold s; lia). assert (Hoe : 0 <= op_end op) by (unfold op_end; lia).
  assert (Hg : normalized eol g) by (apply (normalized_sub eol d); (done || lia)). assert (HR : normalized eol R) by (by apply (normalized_splice eol d)).
  assert (HA : normalized eol A) by (by apply normalized_app). assert (HTR : normalized eol (T ++ R)) by (by apply normalized_app).
  destruct (normalized_parts eol d e0 Heol Hn ltac:(lia) Hc0) as [Hp _].
  split_and!; try done; try (by apply (normalized_untorn eol)). unfold g. symmetry. apply take_then_sub. lia.
Qed.

Lemma step_breaks : breaks (take (Z.to_nat s) d) = breaks (take (Z.to_nat e0) d) + breaks g /\ breaks A = breaks X + breaks g /\
  breaks (A ++ T ++ R) = breaks A + breaks T + breaks R /\ breaks (splice d e0 (op :: ops)) = breaks g + breaks T + breaks R.
Proof.
  destruct step_facts as (_ & _ & _ & H1 & H2 & H3 & H4 & H5 & ->). cbn [splice]. fold s T R g. unfold A in *. rewrite !breaks_app_untorn by done. lia.
Qed.

(** What the raw changes of the edit make of the array. *)
Definition stepped (arr : list (list Z)) : list (list Z) :=
  take (nb (take (Z.to_nat s) d)) arr ++ take (S (nb T)) (drop (nb A) N) ++ drop (S (nb (take (Z.to_nat (op_end op)) d))) arr.

Lemma old_lines arr : view_at d (op_end op) ops arr -> take (nb (take (Z.to_nat s) d)) arr = take (nb (take (Z.to_nat s) d)) (splitLines d) /\
  (nb (take (Z.to_nat s) d) <= nb (take (Z.to_nat (op_end op)) d))%nat.
Proof.
  intros (Hlen & Htk & _). cbn [chain] in Hch. destruct Hch as (H1 & H2 & H3 & H4 & H5 & _). assert (Hle : (nb (take (Z.to_nat s) d) <= nb (take (Z.to_nat (op_end op)) d))%nat).
  { assert (Hoe : op_end op = rangeOffset op + rangeLength op) by done. assert (Hs0 : 0 <= s <= op_end op) by (unfold s; lia). rewrite <- (take_then_sub d s (op_end op)) by lia. rewrite breaks_app_untorn.
    - pose proof (breaks_nonneg (sub d s (op_end op))). lia.
    - apply (normalized_untorn eol); [done|]. apply (normalized_parts eol d s); (done || lia). }
  split; [|done]. apply (f_equal (take (nb (take (Z.to_nat s) d)))) in Htk. by rewrite !take_take, !Nat.min_l in Htk by done.
Qed.

Lemma new_lines arr : view_at d (op_end op) ops arr ->
  take (S (nb T)) (drop (nb A) N) ++ drop (S (nb (take (Z.to_nat (op_end op)) d))) arr = drop (nb A) N.
Proof.
  intros (_ & _ & ->). fold R. destruct step_facts as (_ & _ & _ & H1 & H2 & _). rewrite <- (lines_after T R H2).
  rewrite <- (take_drop (S (nb T)) (drop (nb A) N)) at 2. f_equal. unfold N. destruct (lines_cut A (T ++ R) H1) as (_ & -> & _). change (drop (S (nb T)) (splitLines (T ++ R)) = drop (nb T) (drop 1 (splitLines (T ++ R)))). by rewrite drop_drop.
Qed.

Lemma stepped_view arr : view_at d (op_end op) ops arr -> view_at d e0 (op :: ops) (stepped arr).
Proof.
  intros Hv. destruct (old_lines arr Hv) as [Hold Hle]. destruct step_facts as (_ & _ & _ & HA & HT & Hg & HXg & H0 & Es). destruct step_breaks as (B1 & B2 & _).
  unfold stepped. rewrite (new_lines arr Hv), Hold. unfold N. destruct (lines_cut A (T ++ R) HA) as (_ & -> & _). destruct Hv as (Hlen & _).
  pose proof (breaks_nonneg g). pose proof (breaks_nonneg (take (Z.to_nat e0) d)). set (b := nb (take (Z.to_nat e0) d)). set (k := nb (take (Z.to_nat s) d)) in *.
  assert (Hk : k = (b + nb g)%nat) by lia. set (L1 := (last_line A ++ first_line (T ++ R)) :: drop 1 (splitLines (T ++ R))).
  assert (Hd : splitLines d = splitLines (take (Z.to_nat e0) d ++ g ++ drop (Z.to_nat s) d)) by (by rewrite app_assoc, <- Es, take_drop).
  assert (Hgd : torn g (drop (Z.to_nat s) d) = false).
  { apply (normalized_untorn eol); [done|]. apply step_facts. }
  assert (Htd : torn (take (Z.to_nat e0) d) (g ++ drop (Z.to_nat s) d) = false).
  { apply (normalized_untorn eol); [done|]. pose proof (chain_le _ _ _ _ Hch). apply (normalized_parts eol d e0); (done || lia). }
  destruct (lines_cut _ _ Htd) as (Hd1 & Hd2 & Hlen0 & _). rewrite <- Hd in Hd1, Hd2. fold b in Hd1, Hd2, Hlen0.
  assert (Hlk : List.length (take k (splitLines d)) = k).
  { rewrite <- Hold. rewrite length_take. lia. }
  unfold view_at. fold b. split; [rewrite length_app; unfold L1; cbn [List.length]; lia|]. split.
  - rewrite take_app_le by lia. rewrite take_take. f_equal. lia.
  - cbn [splice]. fold s T R g. pose proof (lines_after _ _ Htd) as Haft. rewrite <- Hd in Haft. fold b in Haft.
    destruct (lines_cut g (T ++ R) Hg) as (Hg1 & Hg2 & Hg3 & _). destruct (lines_cut g _ Hgd) as (Hgd1 & _).
    destruct (decide (nb g = 0%nat)) as [E|E].
    + rewrite drop_app_ge by lia. replace (S b - List.length (take k (splitLines d)))%nat with 1%nat by lia. unfold L1. cbn [drop].
      pose proof (lines_after g (T ++ R) Hg) as Hga. rewrite E in Hga. by rewrite Hga.
    + rewrite drop_app_le by lia. rewrite <- (take_drop (nb g) (splitLines (g ++ T ++ R))), Hg1, Hg2. rewrite drop_app_le by (rewrite length_take; lia).
      assert (El : last_line A = last_line g) by (apply last_line_app; [done|lia]). unfold L1. rewrite El. f_equal.
      rewrite <- Hgd1. rewrite skipn_firstn_comm, Haft. rewrite (skipn_firstn_comm 1). f_equal. lia.
Qed.

(** The topmost edit completes the lines. *)
Lemma stepped_top arr : view_at d (op_end op) ops arr -> e0 = 0 -> X = [] -> stepped arr = splitLines (splice d 0 (op :: ops)).
Proof.
  intros Hv E0 EX. destruct (old_lines arr Hv) as [Hold Hle]. destruct step_facts as (_ & _ & _ & HA & HT & Hg & HXg & H0 & Es).
  assert (EA : A = g) by (unfold A; by rewrite EX). assert (Esg : take (Z.to_nat s) d = g) by (by rewrite Es, E0).
  assert (Egs : splice d 0 (op :: ops) = g ++ T ++ R) by (cbn [splice]; unfold g, s; by rewrite E0).
  unfold stepped. rewrite (new_lines arr Hv), Hold. unfold N. rewrite EA, Egs, Esg.
  rewrite <- (take_drop (nb g) (splitLines (g ++ T ++ R))) at 2. f_equal.
  assert (Hgd : torn g (drop (Z.to_nat s) d) = false) by (apply (normalized_untorn eol); [done|]; apply step_facts).
  destruct (lines_cut g (T ++ R) Hg) as (-> & _). destruct (lines_cut g _ Hgd) as (<- & _). by rewrite <- Esg, take_drop.
Qed.

End step.

(** ** Reading the lines *)

(** Reading fills caches. *)
Definition reads m m' : Prop := m' = with_buffer (buffer_ m') m /\ room (buffer_ m') = room (buffer_ m) /\ same_flags (buffer_ m) (buffer_ m').

#[export] Instance reads_preorder : PreOrder reads.
Proof.
  split; [intros m; split; [by rewrite with_buffer_id|done]|]. intros m1 m2 m3 (E1 & R1 & S1) (E2 & R2 & S2). split; [|split; [by rewrite R2|by etrans]].
  rewrite E2, E1. done.
Qed.

Lemma reads_models F m m' eol d : reads m m' -> holds F (buffer_ m') eol d -> models F m eol d -> models F m' eol d.
Proof. intros (E & _) Hh (_ & Hd & Hz). split; [exact Hh|]. split; [by rewrite E|exact Hz]. Qed.

Lemma wp_line F m eol d line : models F m eol d -> 1 <= line <= breaks d + 1 ->
  wp (TM.getLineContent line) m (fun c m' => (splitLines d).[line - 1] = Some c /\ models F m' eol d /\ reads m m').
Proof.
  intros Hm Hl. unfold TM.getLineContent. apply wp_bind, (wp_check_line F m eol d Hm); [done|]. pose proof Hm as ((Hr & He & Hn) & Hd & Hz).
  assert (Hcnt : lineCnt_ (pieceTree_ (buffer_ m)) = breaks d + 1) by (by destruct Hr as (its & _ & _ & _ & -> & _)).
  apply wp_on_buffer. unfold TB.getLineContent. apply wp_on_pieces. eapply wp_mono; [apply (wp_getLineContent F _ d line Hr); lia|]. intros c s' (Hc & Hr' & cs & ->).
  split; [exact Hc|]. split; [|by split]. split; [split; [exact Hr'|by split]|by split].
Qed.

Section readers.
Context (F : gmap ptr TreeNode) (eol d : list Z).

Lemma wp_changed_lines n start cur m : models F m eol d -> 1 <= cur -> cur + Z.of_nat n <= breaks d + 1 ->
  wp (TM.changed_lines n start cur) m (fun r m' => r = changed_of (splitLines d) n start cur /\ models F m' eol d /\ reads m m').
Proof.
  revert m. induction n as [|n IH]; intros m Hm Hc Hn; cbn [TM.changed_lines changed_of].
  - apply wp_bind. eapply wp_mono; [apply (wp_line F m eol d); [done|lia]|]. intros c m1 (E & Hm1 & H1). apply wp_bind, wp_ret, wp_ret. by rewrite E.
  - apply wp_bind. eapply wp_mono; [apply (wp_line F m eol d); [done|lia]|]. intros c m1 (E & Hm1 & H1). apply wp_bind. eapply wp_mono; [apply IH; [done|lia|lia]|].
    intros r m2 (-> & Hm2 & H2). apply wp_ret. rewrite E. split; [done|]. split; [done|]. by etrans.
Qed.

Lemma wp_inserted_lines n line m : models F m eol d -> 1 <= line -> line + Z.of_nat n <= breaks d + 2 ->
  wp (TM.inserted_lines n line) m (fun r m' => r = take n (drop (Z.to_nat (line - 1)) (splitLines d)) /\ models F m' eol d /\ reads m m').
Proof.
  revert line m. induction n as [|n IH]; intros line m Hm Hc Hn; cbn [TM.inserted_lines]; [apply wp_ret; by rewrite take_0|].
  apply wp_bind. eapply wp_mono; [apply (wp_line F m eol d); [done|lia]|]. intros c m1 (E & Hm1 & H1). apply wp_bind. eapply wp_mono; [apply (IH (line + 1)); [done|lia|lia]|].
  intros r m2 (-> & Hm2 & H2). apply wp_ret. split; [|split; [done|by etrans]].
  assert (El : splitLines d !! Z.to_nat (line - 1) = Some c) by (unfold at_ in E; destruct (Z.ltb_spec (line - 1) 0); [lia|exact E]).
  rewrite (drop_S _ _ _ El). replace (S (Z.to_nat (line - 1))) with (Z.to_nat (line + 1 - 1)) by lia. done.
Qed.

Lemma line_position line c : 1 <= line -> (splitLines d).[line - 1] = Some c -> forall col, 1 <= col <= zlen c + 1 -> model_position d (mkPosition line col).
Proof. intros Hl Hc col Hcol. split; [done|]. by exists c. Qed.

Lemma wp_raw_change lineCount c m : models F m eol d ->
  let ins := breaks (change_text c) in let start := startLineNumber (change_range c) in let del := endLineNumber (change_range c) - start in
  let cur := breaks d + 1 - lineCount - (ins - del) + start in
  0 <= del -> 1 <= cur -> cur + ins <= breaks d + 1 ->
  wp (TM.raw_change (breaks d + 1) lineCount c) m (fun r m' => r = (raw_of (splitLines d) cur start del ins, ins - del) /\ models F m' eol d /\ reads m m').
Proof.
  intros Hm ins start del cur Hd Hc Hci. assert (Hins : 0 <= ins) by apply breaks_nonneg. unfold TM.raw_change. pose proof (countEOL_counts (change_text c)) as Hcnt. destruct (countEOL (change_text c)) as [[[n fl] l] kk].
  destruct Hcnt as (-> & _). cbn [fst]. fold ins start del cur. set (e := Z.min del ins).
  destruct (line_exists d cur ltac:(lia)) as [c0 Hc0]. destruct (line_exists d (cur + ins) ltac:(lia)) as [c1 Hc1]. pose proof (zlen_nonneg c0). pose proof (zlen_nonneg c1).
  apply wp_bind, (wp_model_offsetAt F m eol d Hm); [by apply (line_position cur c0); [lia|done|lia]|].
  apply wp_bind, (wp_maxColumn F m eol d Hm _ c1); [lia|done|]. apply wp_bind, (wp_model_offsetAt F m eol d Hm); [by apply (line_position (cur + ins) c1); [lia|done|lia]|].
  apply wp_bind. eapply wp_mono; [apply (wp_changed_lines (Z.to_nat e) start cur m Hm); lia|]. intros r1 m1 (-> & Hm1 & H1). apply wp_bind.
  apply (wp_mono _ _ (fun r m' => r = (if e <? ins then [RawLinesInserted (start + e + 1) (start + ins) (take (Z.to_nat (ins - e)) (drop (Z.to_nat (cur + e)) (splitLines d)))] else []) /\ models F m' eol d /\ reads m1 m')).
  - destruct (Z.ltb_spec e ins); [|by apply wp_ret]. apply wp_bind. replace (breaks d + 1 - lineCount - (ins - e) + (start + e) + 1) with (cur + e + 1) by (unfold cur, e; lia).
    eapply wp_mono; [apply (wp_inserted_lines (Z.to_nat (ins - e)) (cur + e + 1) m1 Hm1); lia|]. intros r2 m2 (-> & Hm2 & R2). apply wp_ret. replace (cur + e + 1 - 1) with (cur + e) by lia. done.
  - intros r2 m2 (-> & Hm2 & R2). apply wp_ret. split; [|split; [done|by etrans]]. unfold raw_of. fold e. by replace (start + del) with (endLineNumber (change_range c)) by (unfold del; lia).
Qed.

End readers.

(** ** All changes *)

Lemma chain_snoc eol d P op S : eol = [10] \/ eol = [13; 10] -> normalized eol d -> forall p, 0 <= p -> in_crlf d p = false -> chain eol d p (P ++ op :: S) ->
  0 <= last_end p P /\ in_crlf d (last_end p P) = false /\ chain eol d (last_end p P) (op :: S) /\ normalized eol (middle d p P).
Proof.
  intros He Hn. induction P as [|o P IH]; intros p Hp Hc Hch; cbn [last_end middle app] in *; [split_and!; try done; by destruct He as [-> | ->]|].
  destruct Hch as (H1 & H2 & H3 & H4 & H5 & H6 & H7). destruct (IH (op_end o)) as (I1 & I2 & I3 & I4); [unfold op_end; lia|done|exact H7|].
  split_and!; try done. unfold op_end in H3. apply normalized_app; [done|apply (normalized_sub eol d); (done || lia)|]. by apply normalized_app.
Qed.

Lemma splice_app d P : forall p Q, splice d p (P ++ Q) = middle d p P ++ splice d (last_end p P) Q.
Proof. induction P as [|o P IH]; intros p Q; [done|]. cbn [splice middle last_end app]. rewrite IH, <- !app_assoc. done. Qed.

Lemma last_end_snoc p P op : last_end p (P ++ [op]) = op_end op.
Proof. revert p. induction P as [|o P IH]; intros p; [done|]. exact (IH (op_end o)). Qed.

Section all.
Context (F : gmap ptr TreeNode) (eol d : list Z) (ops : list IValidatedEditOperation).
Hypothesis Heol : eol = [10] \/ eol = [13; 10].
Hypothesis Hn : normalized eol d.
Hypothesis Hok : Forall (op_ok eol d) ops.
Hypothesis Hch : chain eol d 0 ops.

Let d' := splice d 0 ops.

(** The count of the lines once the edits [S] below the cut [e] were made. *)
Definition lines_count (e : Z) (S : list IValidatedEditOperation) : Z := breaks (take (Z.to_nat e) d ++ splice d e S) + 1.

Lemma op_lines op : op_ok eol d op -> startLineNumber (range op) = breaks (take (Z.to_nat (rangeOffset op)) d) + 1 /\ endLineNumber (range op) = breaks (take (Z.to_nat (op_end op)) d) + 1.
Proof.
  intros ((Hs & He & _) & -> & -> & _). destruct (range_offset d (range op)) as [-> ->]. pose proof (model_position_end d _ Hs) as E1. pose proof (model_position_end d _ He) as E2.
  split; [by apply (f_equal lineNumber) in E1|by apply (f_equal lineNumber) in E2].
Qed.

Lemma one_step P op S arr m : ops = P ++ op :: S -> models F m eol d' -> view_at d (op_end op) S arr ->
  wp (TM.raw_change (breaks d' + 1) (lines_count (op_end op) S) (change_of op)) m (fun r m' => models F m' eol d' /\ reads m m' /\
    lines_count (op_end op) S + r.2 = lines_count (last_end 0 P) (op :: S) /\
    view_at d (last_end 0 P) (op :: S) (foldl replay_raw arr r.1) /\ (P = [] -> foldl replay_raw arr r.1 = splitLines d')).
Proof.
  intros E Hm Hv. pose proof Hch as Hch0. rewrite E in Hch0. assert (Hc00 : in_crlf d 0 = false) by (unfold in_crlf; rewrite andb_false_iff; by left).
  destruct (chain_snoc eol d P op S Heol Hn 0 ltac:(lia) Hc00 Hch0) as (He0 & Hce0 & Hch1 & HX). set (e0 := last_end 0 P) in *. set (X := middle d 0 P) in *.
  assert (Hop : op_ok eol d op) by (rewrite E in Hok; apply Forall_app in Hok as [_ Hok']; by apply Forall_inv in Hok').
  destruct (op_lines op Hop) as [El1 El2]. destruct (step_facts eol d op S e0 X Heol Hn He0 Hce0 Hch1 HX) as (Hg & HT & HR & T1 & T2 & T3 & T4 & T5 & Es).
  destruct (step_breaks eol d op S e0 X Heol Hn He0 Hce0 Hch1 HX) as (B1 & B2 & B3 & B4).
  assert (Ed : d' = (X ++ sub d e0 (rangeOffset op)) ++ text op ++ splice d (op_end op) S) by (unfold d'; rewrite E, splice_app; cbn [splice]; by rewrite <- !app_assoc).
  destruct (old_lines eol d op S e0 Heol Hn He0 Hch1 arr Hv) as [_ Hle]. pose proof (breaks_nonneg (take (Z.to_nat (rangeOffset op)) d)). pose proof (breaks_nonneg (take (Z.to_nat (op_end op)) d)).
  pose proof (breaks_nonneg (X ++ sub d e0 (rangeOffset op))). pose proof (breaks_nonneg (text op)). pose proof (breaks_nonneg (splice d (op_end op) S)). pose proof Hv as (Hlen & _).
  assert (Hcut : torn (take (Z.to_nat (op_end op)) d) (splice d (op_end op) S) = false).
  { cbn [chain] in Hch1. destruct Hch1 as (H11 & H12 & H13 & _ & H15 & _). apply (normalized_untorn eol); [done|]. apply (normalized_parts eol d (op_end op)); (done || (unfold op_end in *; lia)). }
  assert (Elc : lines_count (op_end op) S = breaks (take (Z.to_nat (op_end op)) d) + breaks (splice d (op_end op) S) + 1) by (unfold lines_count; rewrite breaks_app_untorn by done; lia).
  pose proof (f_equal breaks Ed) as Bd. rewrite B3 in Bd.
  eapply wp_mono; [apply (wp_raw_change F eol d' (lines_count (op_end op) S) (change_of op) m Hm); unfold change_of; cbn [change_text change_range]; lia|].
  intros r m' (-> & Hm' & Hr). cbn [fst snd]. unfold change_of. cbn [change_text change_range]. split; [done|]. split; [done|].
  set (del := endLineNumber (range op) - startLineNumber (range op)). set (cur := breaks d' + 1 - _ - _ + _).
  assert (Ecur : cur = breaks (X ++ sub d e0 (rangeOffset op)) + 1) by (unfold cur, del; lia).
  assert (Hst : foldl replay_raw arr (raw_of (splitLines d') cur (startLineNumber (range op)) del (breaks (text op))) = stepped d op S e0 X arr).
  { rewrite replay_one; [|lia|lia|unfold del; lia|lia|unfold del, zlen; lia|rewrite breaks_splitLines; lia].
    unfold stepped. rewrite Ed. unfold del. replace (startLineNumber (range op) + (endLineNumber (range op) - startLineNumber (range op))) with (endLineNumber (range op)) by lia. rewrite El1, El2, Ecur.
    f_equal; [f_equal; lia|]. f_equal; [f_equal; [lia|]; f_equal; lia|f_equal; lia]. }
  rewrite Hst. split; [|split].
  - rewrite Elc. unfold lines_count, del. rewrite breaks_app_untorn by (apply (normalized_untorn eol); [done|]; apply (normalized_parts eol d e0); [done|done| |done]; pose proof (chain_le _ _ _ _ Hch1); lia). lia.
  - by apply (stepped_view eol).
  - intros ->. unfold d'. rewrite E. by apply (stepped_top eol).
Qed.

Lemma wp_raw_changes P S arr m : ops = P ++ S -> models F m eol d' -> view_at d (last_end 0 P) S arr ->
  wp (TM.raw_changes (breaks d' + 1) (lines_count (last_end 0 P) S) (change_of <$> rev P)) m (fun raws m' => models F m' eol d' /\ reads m m' /\
    (P = [] -> raws = []) /\ (P <> [] -> foldl replay_raw arr raws = splitLines d')).
Proof.
  revert S arr m. induction P as [|op P IH] using rev_ind; intros S arr m E Hm Hv; [by apply wp_ret|].
  rewrite rev_app_distr. cbn [rev app]. rewrite fmap_cons. cbn [TM.raw_changes]. rewrite last_end_snoc in *. rewrite <- app_assoc in E. cbn [app] in E.
  apply wp_bind. eapply wp_mono; [by apply (one_step P op S arr)|]. intros [raws delta] m1 (Hm1 & R1 & El & Hv1 & Htop). cbn [fst snd] in *. apply wp_bind. rewrite El.
  eapply wp_mono; [apply (IH (op :: S) _ m1 E Hm1 Hv1)|]. intros more m2 (Hm2 & R2 & Hnil & Hrest). apply wp_ret. split; [done|]. split; [by etrans|]. split; [by destruct P|]. intros _. rewrite foldl_app.
  destruct P as [|o P]; [|by apply Hrest]. rewrite Hnil by done. by apply Htop.
Qed.

End all.

(** ** Edits that do nothing *)

Lemma chain_weaken eol d p q ops : chain eol d q ops -> p <= q -> chain eol d p ops.
Proof. intros Hc Hp. destruct ops as [|op ops]; cbn [chain] in *; [lia|]. destruct Hc as (H1 & H). split; [lia|exact H]. Qed.

Lemma idle_op eol d op : op_ok eol d op -> idle op = true -> text op = [] /\ op_end op = rangeOffset op.
Proof.
  intros (Hr & Ho & He & Ht) [[El Ec]%andb_true_iff Et]%andb_true_iff. split.
  - destruct (text op) as [|c t]; [done|]. rewrite zlen_cons in Et. pose proof (zlen_nonneg t). lia.
  - rewrite Ho, He. unfold range_start, range_end. f_equal; lia.
Qed.

Lemma filter_idle eol d ops : Forall (op_ok eol d) ops -> forall p, 0 <= p -> chain eol d p ops -> let l := filter (fun op => idle op = false) ops in
  splice d p l = splice d p ops /\ chain eol d p l /\ Forall (op_ok eol d) l.
Proof.
  induction 1 as [|op ops Hop Hok IH]; intros p Hp Hch; [done|]. cbn [chain] in Hch. destruct Hch as (H1 & H2 & H3 & H4 & H5 & H6 & H7). cbn zeta in *. rewrite filter_cons.
  destruct (IH (op_end op)) as (I1 & I2 & I3); [unfold op_end; lia|exact H7|]. destruct (idle op) eqn:Ei.
  - rewrite decide_False by done. destruct (idle_op _ _ _ Hop Ei) as [Et Ee]. pose proof (chain_weaken _ _ p _ _ H7 ltac:(lia)) as H8. destruct (IH p Hp H8) as (J1 & J2 & J3). split; [|by split].
    rewrite J1. cbn [splice]. rewrite Et, Ee. cbn [app]. clear -H1 Hp H7 Ee. rewrite Ee in H7. destruct ops as [|o ops]; cbn [splice chain] in *.
    + unfold sub. rewrite <- (take_drop (Z.to_nat (rangeOffset op - p)) (drop (Z.to_nat p) d)) at 1. rewrite drop_drop. do 2 f_equal. lia.
    + destruct H7 as (G1 & G2 & G3 & _). symmetry. rewrite app_assoc, sub_join by (unfold op_end in *; lia). done.
  - rewrite decide_True by done. cbn [splice chain]. rewrite I1. split_and!; try done. by constructor.
Qed.

Lemma last_end_cut eol d ops : forall p, 0 <= p <= zlen d -> in_crlf d p = false -> chain eol d p ops -> 0 <= last_end p ops <= zlen d /\ in_crlf d (last_end p ops) = false.
Proof.
  induction ops as [|op ops IH]; intros p Hp Hc Hch; [done|]. cbn [chain last_end] in *. destruct Hch as (H1 & H2 & H3 & H4 & H5 & H6 & H7). apply IH; [unfold op_end in *; lia|done|exact H7].
Qed.

(** ** The edits of a model *)

(** The edit is [raw], which is valid or is found to be so. *)
Definition edit_as d (e : IIdentifiedSingleEditOperation) (raw : ValidAnnotatedEditOperation) : Prop :=
  match e with
  | AlreadyValid op => op = raw
  | ToValidate _ op => op = raw /\ after_high d (Rng.getStartPosition (raw_range raw)) = false /\ end_high d (Rng.getEndPosition (raw_range raw)) = false
  end.

Lemma wp_validate_edits F m eol d es raws : models F m eol d -> Forall (fun raw => model_range d (raw_range raw)) raws -> Forall2 (edit_as d) es raws ->
  wp (TM.validateEditOperations es) m (fun r m' => m' = m /\ r = raws).
Proof.
  intros Hm Hr Hes. induction Hes as [|e raw es raws He Hes IH]; cbn [TM.validateEditOperations]; [by apply wp_ret|]. apply Forall_cons in Hr as [Hr Hrs].
  apply wp_bind. apply (wp_mono _ _ (fun r m' => m' = m /\ r = raw)).
  - destruct e as [op|isRange op]; cbn [edit_as TM.validateEditOperation] in *; [by apply wp_ret|]. destruct He as (-> & H1 & H2). apply wp_bind.
    eapply wp_mono; [by apply (wp_validate_good F m eol d Hm (raw_range raw))|]. intros r m' [-> ->]. apply wp_ret. split; [done|]. by destruct raw.
  - intros r m' [-> ->]. apply wp_bind. eapply wp_mono; [by apply IH|]. intros rs m' [-> ->]. by apply wp_ret.
Qed.

(** What the edits [raws] leave: the text, the versions, and the event, if anything changed. *)
Record edits_done F m eol d (raws : list ValidAnnotatedEditOperation) (cs : list IInternalModelContentChange) m' : Prop := {
  ed_models : models F m' eol (edited eol d raws);
  ed_room : room (buffer_ m') <= room (buffer_ m) + zlen d + ops_room (validated_from eol d 0 raws);
  ed_BOM : BOM_buffer (buffer_ m') = BOM_buffer (buffer_ m);
  ed_same : trimAutoWhitespace m' = trimAutoWhitespace m /\ isUndoing_ m' = isUndoing_ m /\ isRedoing_ m' = isRedoing_ m /\ trimAutoWhitespaceLines_ m' = None;
  ed_replay : foldl replay d cs = edited eol d raws;
  ed_versions : let v := if zlen cs =? 0 then model_versionId m else model_versionId m + 1 in
    model_versionId m' = v /\ alternativeVersionId_ m' = if zlen cs =? 0 then alternativeVersionId_ m else v;
  ed_events : if zlen cs =? 0 then events_ m' = events_ m else exists raw, foldl replay_raw (splitLines d) raw = splitLines (edited eol d raws) /\
    events_ m' = events_ m ++ [mkModelEvent raw cs eol false (model_versionId m + 1) (isUndoing_ m) (isRedoing_ m) false] }.

Lemma wp_doApplyEdits F m eol d raws undo : models F m eol d -> Forall (fun raw => model_range d (raw_range raw)) raws -> ~ overlapping (raw_range <$> raws) ->
  room (buffer_ m) + zlen d + ops_room (validated_from eol d 0 raws) < max_buffer -> zlen (edited eol d raws) + 1 < 2 ^ 31 ->
  (trimAutoWhitespace m = true -> Forall (fun raw => raw_isAutoWhitespaceEdit raw = false) raws) ->
  wp (TM.doApplyEdits raws undo) m (fun r m' => exists cs, edits_done F m eol d raws cs m' /\ exists ops' touching b',
    let ops := js_sort TB.sortOpsAscending (validated_from eol d 0 raws) in
    apart_ranges (range <$> ops) /\ stands_for eol d ops ops' /\ TB.check_overlap ops false = Ok touching /\
    applied F (buffer_ m) eol d ops' touching undo (mkResult r cs None) b').
Proof.
  intros Hm Hr Hno Hroom Hz Hrec. pose proof Hm as (Hb & Hdis & Hzd). destruct (holds_eol _ _ _ _ Hb) as [He Hn]. unfold TM.doApplyEdits. apply wp_bind, (wp_model_lineCount F m eol d Hm), wp_bind, wp_gets, wp_bind.
  apply wp_on_buffer. eapply wp_mono; [apply (wp_applyEdits_any F (buffer_ m) eol d raws (trimAutoWhitespace m) undo Hb Hr Hno); [by rewrite sorted_room|exact Hrec]|].
  intros r b' (ops' & touching & Hap & Hsf & Hck & Ha). set (ops := js_sort TB.sortOpsAscending (validated_from eol d 0 raws)) in *. pose proof Hsf as [Hok _ Hch Hsp Hrm _ _ _ _]. pose proof Ha as [Hh HB Hroom' Hcs Hrev Htrim].
  rewrite Hsp in Hh. fold (edited eol d raws) in Hh. set (d' := edited eol d raws) in *. set (m1 := with_buffer b' m). assert (Hm1 : models F m1 eol d') by (split; [exact Hh|split; [exact Hdis|exact Hz]]).
  apply wp_bind, (wp_model_lineCount F m1 eol d' Hm1), wp_bind, wp_modify, wp_bind. cbn beta. set (m2 := with_trim _ m1). assert (Hm2 : models F m2 eol d') by exact Hm1.
  assert (Hrep : foldl replay d (changes r) = d') by (by eapply replay_applied).
  assert (Hap' : applied F (buffer_ m) eol d ops' touching undo (mkResult (reverseEdits r) (changes r) None) b') by (by destruct Ha; split).
  assert (Hrm2 : room b' <= room (buffer_ m) + zlen d + ops_room (validated_from eol d 0 raws)) by (rewrite <- (sorted_room eol d 0 raws); fold ops; lia).
  destruct (Z.eqb_spec (zlen (changes r)) 0) as [E0|E0]; cbn [negb].
  - apply wp_ret, wp_ret. exists (changes r). split; [|by exists ops', touching, b']. split; try done; rewrite E0; done.
  - set (m3 := with_versions (model_versionId m2 + 1) (model_versionId m2 + 1) m2). assert (Hm3 : models F m3 eol d') by exact Hm2. apply wp_bind, wp_modify. fold m3.
    destruct (filter_idle eol d ops' Hok 0 ltac:(lia) Hch) as (Es & Hchl & Hokl). set (l := filter _ ops') in *. assert (Hc0 : in_crlf d 0 = false) by (unfold in_crlf; rewrite andb_false_iff; by left).
    destruct (last_end_cut eol d l 0 ltac:(pose proof (zlen_nonneg d); lia) Hc0 Hchl) as (Hle & Hcl). pose proof (view_start d _ Hle Hcl) as Hv. pose proof (wp_raw_changes F eol d l He Hn Hokl Hchl l [] (splitLines d) m3) as Hw.
    rewrite app_nil_r in Hw. unfold lines_count in Hw. cbn [splice] in Hw. rewrite take_drop in Hw. assert (Ed' : splice d 0 l = d') by (rewrite Es; exact Hsp). rewrite Ed' in Hw. rewrite <- Hcs in Hw.
    apply wp_bind. eapply wp_mono; [by apply Hw|]. intros raw m4 (Hm4 & (E4 & R4 & S4) & _ & Hraw). apply wp_bind, (wp_model_EOL F m4 eol d' Hm4), wp_bind. unfold TM.getVersionId. apply wp_bind, (wp_assert F m4 eol d' Hm4), wp_gets, wp_modify, wp_ret.
    assert (Hl : l <> []) by (intros El; rewrite Hcs, El in E0; by apply E0). specialize (Hraw Hl). exists (changes r). split; [|by exists ops', touching, b'].
    assert (EZ : (zlen (changes r) =? 0) = false) by (by apply Z.eqb_neq). destruct S4 as (S4 & _). split; rewrite ?EZ; cbn [with_event buffer_ model_versionId alternativeVersionId_ events_ trimAutoWhitespace isUndoing_ isRedoing_ isDisposed_].
    + exact Hm4.
    + rewrite R4. exact Hrm2.
    + rewrite S4. exact HB.
    + rewrite E4. done.
    + exact Hrep.
    + rewrite E4. done.
    + exists raw. split; [exact Hraw|]. rewrite E4. done.
Qed.

(** An edit that takes nothing away and puts nothing in. *)
Definition changes_nothing (raw : ValidAnnotatedEditOperation) : bool := Rng.isEmpty (raw_range raw) && (zlen (default [] (raw_text raw)) =? 0).

Lemma idle_validated eol d i raw : eol = [10] \/ eol = [13; 10] -> idle (validated eol d i raw) = changes_nothing raw.
Proof.
  intros He. destruct (validated_fields eol d i raw He) as (_ & Er & _ & _ & Et). unfold idle, changes_nothing, Rng.isEmpty. rewrite Er, Et. f_equal.
  destruct (default [] (raw_text raw)) as [|c t] eqn:E; [by destruct He as [-> | ->]|]. apply eq_true_iff_eq. rewrite !Z.eqb_eq. split; intros H0%zlen_nil_inv; [|done].
  by apply replaceEOL_nonempty in H0; [|destruct He as [-> | ->]|].
Qed.

Lemma idle_edits eol d i raws : eol = [10] \/ eol = [13; 10] ->
  Forall (fun op => idle op = true) (js_sort TB.sortOpsAscending (validated_from eol d i raws)) <-> existsb (fun raw => negb (changes_nothing raw)) raws = false.
Proof.
  intros He. rewrite js_sort_perm. revert i. induction raws as [|raw raws IH]; intros i; cbn [validated_from existsb]; [by split|].
  rewrite Forall_cons, IH, idle_validated, orb_false_iff, negb_false_iff by done. done.
Qed.

Lemma validated_length eol d i raws : List.length (validated_from eol d i raws) = List.length raws.
Proof. revert i. induction raws as [|raw raws IH]; intros i; [done|]. cbn [validated_from List.length]. by rewrite IH. Qed.

Lemma changes_none ops : zlen (change_of <$> rev (filter (fun op => idle op = false) ops)) = 0 <-> Forall (fun op => idle op = true) ops.
Proof.
  unfold zlen. rewrite length_fmap, length_rev. induction ops as [|op ops IH]; [by split|]. rewrite filter_cons, Forall_cons.
  destruct (idle op); [rewrite decide_False by done; by rewrite IH; split; [|intros [_ ?]]|rewrite decide_True by done]. split; [cbn [List.length]; lia|by intros [? _]].
Qed.

(** C12: The edits of a model, and what its views are told.  When the ranges of the edits are those
    of a text, end in no surrogate pair and do not overlap, there is room for them, and none
    leaves automatic white space to be trimmed, [applyEdits] of a model does not throw; the
    model then stands for the text with all edits made.  If no edit takes anything
    away or puts anything in, both versions stay and nothing is reported (1000 edits or more may
    be joined to one, and reported).  If one does, the version grows by one, and one event is
    reported: its content changes, of which there is at least one, turn the old text into the new
    one, and its raw changes (lines changed, deleted, inserted, each with the content it has in
    the end) turn the lines of the old text into the lines of the new one. *)
Theorem model_edits_reported F m eol d es raws undo : models F m eol d -> Forall2 (edit_as d) es raws ->
  Forall (fun raw => model_range d (raw_range raw)) raws -> ~ overlapping (raw_range <$> raws) ->
  room (buffer_ m) + zlen d + ops_room (validated_from eol d 0 raws) < max_buffer -> zlen (edited eol d raws) + 1 < 2 ^ 31 ->
  (trimAutoWhitespace m = true -> Forall (fun raw => raw_isAutoWhitespaceEdit raw = false) raws) ->
  wp (TM.applyEdits es undo) m (fun _ m' => models F m' eol (edited eol d raws) /\ exists reported : bool,
    let changed := existsb (fun raw => negb (changes_nothing raw)) raws in
    (changed = true -> reported = true) /\ (zlen raws < 1000 -> reported = changed) /\
    if reported
    then exists raw cs, cs <> [] /\ foldl replay_raw (splitLines d) raw = splitLines (edited eol d raws) /\ foldl replay d cs = edited eol d raws /\
      model_versionId m' = model_versionId m + 1 /\ alternativeVersionId_ m' = model_versionId m' /\
      events_ m' = events_ m ++ [mkModelEvent raw cs eol false (model_versionId m') (isUndoing_ m) (isRedoing_ m) false]
    else edited eol d raws = d /\ model_versionId m' = model_versionId m /\ alternativeVersionId_ m' = alternativeVersionId_ m /\ events_ m' = events_ m).
Proof.
  intros Hm Hes Hr Hno Hroom Hz Hrec. unfold TM.applyEdits. apply wp_bind. eapply wp_mono; [by apply (wp_validate_edits F m eol d es raws Hm Hr Hes)|]. intros ops m1 [-> ->].
  eapply wp_mono; [by apply (wp_doApplyEdits F m eol d raws undo Hm Hr Hno Hroom Hz Hrec)|]. intros r m' (cs & [H1 _ _ _ H5 [H6 H7] H8] & ops' & touching & b' & _ & Hsf & _ & Ha). split; [exact H1|].
  pose proof (ap_changes _ _ _ _ _ _ _ _ _ Ha) as Ecs. cbn [changes] in Ecs. destruct (holds_eol _ _ _ _ (proj1 Hm)) as [He _]. pose proof (idle_edits eol d 0 raws He) as Hidle.
  assert (Hnone : zlen cs = 0 <-> Forall (fun op => idle op = true) ops') by (rewrite Ecs; apply changes_none).
  exists (negb (zlen cs =? 0)). split; [|split].
  - intros Hc. destruct (Z.eqb_spec (zlen cs) 0) as [E|]; [|done]. apply Hnone, (sf_idle _ _ _ _ Hsf), Hidle in E. by rewrite E in Hc.
  - intros Hfew. assert (ops' = js_sort TB.sortOpsAscending (validated_from eol d 0 raws)) as Eo.
    { apply (sf_few _ _ _ _ Hsf). unfold zlen in *. by rewrite js_sort_perm, validated_length. }
    rewrite Eo, Hidle in Hnone. destruct (Z.eqb_spec (zlen cs) 0) as [E|E], (existsb _ raws); try done; [by apply Hnone in E|]. destruct E. by apply Hnone.
  - destruct (Z.eqb_spec (zlen cs) 0) as [E|E]; cbn [negb].
    + split; [by rewrite <- H5, (zlen_nil_inv _ E)|]. by split_and!.
    + destruct H8 as (raw & Hraw & Hev). exists raw, cs. rewrite H6. split; [by intros ->|]. by split_and!.
Qed.

Lemma model_edits_reported_witness : exists s m' raw cs, PT.insert 0 sample_text true empty_tree = Ok (tt, s) /\
  (exists r, TM.applyEdits (AlreadyValid <$> sample_edits) false (sample_model s) = Ok (r, m')) /\
  model_versionId m' = 2 /\ events_ m' = [mkModelEvent raw cs [10] false 2 false false false] /\
  foldl replay_raw [[97]; [98]] raw = [[120]; [121]; [98; 122]].
Proof.
  destruct sample_holds as (s & E & Hb & Hroom). exists s.
  assert (Hm : models ∅ (sample_model s) [10] sample_text) by (split; [exact Hb|split; [done|change (zlen sample_text) with 3; lia]]).
  assert (Hes : Forall2 (edit_as sample_text) (AlreadyValid <$> sample_edits) sample_edits) by by repeat constructor.
  pose proof (model_edits_reported ∅ (sample_model s) [10] sample_text _ sample_edits false Hm Hes sample_ranges sample_apart) as H.
  change (buffer_ (sample_model s)) with (mkTextBuffer s [] false false false) in H. rewrite <- Z.add_assoc, sample_room in H.
  specialize (H ltac:(unfold max_buffer; lia) ltac:(by vm_compute) ltac:(intros _; by repeat constructor)).
  apply wp_run in H as (r & m' & Er & _ & reported & Hrep & _ & H). rewrite (Hrep eq_refl) in H. destruct H as (raw & cs & _ & Hraw & _ & Hv & _ & Hev).
  exists m', raw, cs. split; [exact E|]. split; [by exists r|]. split; [exact Hv|]. split; [|exact Hraw]. rewrite Hev, Hv. done.
Defined.
