(* ===== verification/Cuts.v ===== *)
(** * Texts cut at edits

    Where a text may be cut without harm to its line endings and its surrogate pairs, and
    what follows for the changes of an undo element: the ends of edits are such cuts, in the
    old text and in the new one, and so are those of the changes that compression makes of
    them. *)

From S2P Require Import Prelude Position TextRange TextChange Length EolCounter Store RbTree RbInsert PtBuffer PtSpan Strings PieceTree PtState PtEdit PtSearch PtInsert PtDelete PtQuery PtLines PtRead PtBuild PtContent TextBuffer TextBuilder EditText EditPositions ApplyEdits UndoEdits TextModel ModelEdits RawChanges.

#[local] Open Scope js_scope.
#[local] Arguments Z.eqb : simpl never.
#[local] Arguments Z.ltb : simpl never.
#[local] Arguments Z.leb : simpl never.
#[local] Arguments Z.add : simpl never.
#[local] Arguments Z.sub : simpl never.

Implicit Types (a b d eol : list Z) (e : TextChange) (es : list TextChange).

(** A text is not cut after a CR, nor after the first half of a pair. *)
Definition stop (c : Z) : bool := (c =? 13) || is_high c.

(** ** Whole pairs *)

Lemma wf_app a b : well_formed a = true -> well_formed b = true -> well_formed (a ++ b) = true.
Proof.
  remember (List.length a) as n eqn:Hn. assert (Hle : (List.length a <= n)%nat) by lia. clear Hn. revert a Hle. induction n as [|n IH]; intros [|c a] Hle Ha Hb; simpl in *; try done; [lia|].
  destruct (is_high c).
  - destruct a as [|y a]; [done|]. simpl. apply andb_true_iff in Ha as [-> Ha]. cbn [andb]. apply IH; [simpl in *; lia|done|done].
  - apply andb_true_iff in Ha as [-> Ha]. cbn [andb]. apply IH; [lia|done|done].
Qed.

Lemma wf_cut a b : well_formed (a ++ b) = true -> (forall c, last a = Some c -> is_high c = false) -> well_formed a = true /\ well_formed b = true.
Proof.
  remember (List.length a) as n eqn:Hn. assert (Hle : (List.length a <= n)%nat) by lia. clear Hn. revert a Hle. induction n as [|n IH]; intros [|c a] Hle Hw Hl; simpl in *; try done; [lia|].
  destruct (is_high c) eqn:Ec.
  - destruct a as [|y a]; [by rewrite (Hl c eq_refl) in Ec|]. simpl in *. apply andb_true_iff in Hw as [-> Hw]. cbn [andb]. apply IH; [lia|done|].
    intros x Hx. apply Hl. destruct a; done.
  - apply andb_true_iff in Hw as [-> Hw]. cbn [andb]. apply IH; [lia|done|]. intros x Hx. apply Hl. destruct a; done.
Qed.

(** The first part is whole when all is, and the rest. *)
Lemma wf_front a b : well_formed (a ++ b) = true -> well_formed b = true -> well_formed a = true.
Proof.
  remember (List.length a) as n eqn:Hn. assert (Hle : (List.length a <= n)%nat) by lia. clear Hn. revert a Hle. induction n as [|n IH]; intros [|c a] Hle Hw Hb; simpl in *; try done; [lia|].
  destruct (is_high c) eqn:Ec.
  - destruct a as [|y a]; cbn [app] in Hw.
    + destruct b as [|y b]; [done|]. apply andb_true_iff in Hw as [Hy _]. simpl in Hb. unfold is_high, is_low in *. destruct ((55296 <=? y) && (y <? 56320)) eqn:E; [lia|]. rewrite Hy in Hb. done.
    + simpl. apply andb_true_iff in Hw as [-> Hw]. cbn [andb]. apply IH; [simpl in *; lia|done|done].
  - apply andb_true_iff in Hw as [-> Hw]. cbn [andb]. apply IH; [lia|done|done].
Qed.

Lemma wf_last a c : well_formed a = true -> last a = Some c -> is_high c = false.
Proof.
  remember (List.length a) as n eqn:Hn. assert (Hle : (List.length a <= n)%nat) by lia. clear Hn. revert a Hle. induction n as [|n IH]; intros [|x a] Hle Hw Hl; simpl in *; try done; [lia|].
  destruct (is_high x) eqn:Ex.
  - destruct a as [|y a]; [done|]. apply andb_true_iff in Hw as [Hy Hw]. destruct a as [|z a].
    + injection Hl as <-. unfold is_high, is_low in *. lia.
    + apply (IH (z :: a)); [simpl in *; lia|done|done].
  - apply andb_true_iff in Hw as [_ Hw]. destruct a as [|y a]; [by injection Hl as <-|]. apply (IH (y :: a)); [simpl in *; lia|done|done].
Qed.

(** ** Cuts *)

Lemma cut_last a b c : cut_at stop (a ++ b) (zlen a) -> last a = Some c -> stop c = false.
Proof. intros Hc Hl. apply Hc. rewrite <- at_zlen_last in Hl. rewrite at_app_l; [done|]. apply at_lt in Hl. lia. Qed.

Lemma stop_high c : stop c = false -> is_high c = false.
Proof. unfold stop. by intros [_ H]%orb_false_iff. Qed.

Lemma cut_take d o : 0 <= o <= zlen d -> cut_at stop d o -> forall c, last (take (Z.to_nat o) d) = Some c -> stop c = false.
Proof.
  intros Ho Hc c Hl. apply (cut_last (take (Z.to_nat o) d) (drop (Z.to_nat o) d)); [|done]. by rewrite take_drop, zlen_take by lia.
Qed.

Lemma cut_wf d o : 0 <= o <= zlen d -> cut_at stop d o -> well_formed d = true -> well_formed (take (Z.to_nat o) d) = true /\ well_formed (drop (Z.to_nat o) d) = true.
Proof. intros Ho Hc Hw. apply wf_cut; [by rewrite take_drop|]. intros c Hl. eapply stop_high, cut_take; done. Qed.

Lemma cut_untorn d o : cut_at stop d o -> in_crlf d o = false.
Proof. intros Hc. destruct (in_crlf d o) eqn:E; [|done]. apply in_crlf_inv in E as [E _]. by specialize (Hc _ E). Qed.

Lemma cut_high d o : cut_at stop d o -> high (d.[o - 1]) = false.
Proof.
  intros Hc. destruct (d.[o - 1]) as [c|] eqn:E; [|done]. specialize (Hc c E). apply stop_high in Hc. unfold high, isHighSurrogate, is_high in *. lia.
Qed.

Lemma cut_valid d p : cut_at stop d (offset_at d p) -> after_high d p = false /\ end_high d p = false.
Proof. intros Hc%cut_high. unfold after_high, end_high. rewrite Hc, !andb_false_r. done. Qed.

(** A position of a text with one kind of line ending is at a cut when it is not after the
    first half of a pair. *)
Lemma position_cut eol d p : eol = [10] \/ eol = [13; 10] -> normalized eol d -> model_position d p -> high (d.[offset_at d p - 1]) = false -> cut_at stop d (offset_at d p).
Proof.
  intros He Hn Hp Hh c Hc. destruct (valid_position_start _ _ _ (model_position_valid _ _ Hp)) as (_ & _ & _ & Hz). fold (offset_at d p) in Hz.
  destruct (normalized_parts eol d (offset_at d p) He Hn Hz (model_position_cut d p Hp)) as [Hnt _]. rewrite Hc in Hh. unfold stop. apply orb_false_iff. split.
  - destruct (Z.eqb_spec c 13) as [->|]; [exfalso|done]. pose proof (at_lt _ _ _ Hc) as Hlt.
    pose proof (normalized_untorn eol _ [10] He Hnt) as Ht. unfold torn, ends_cr in Ht. rewrite <- at_zlen_last, zlen_take in Ht by lia.
    rewrite <- (take_drop (Z.to_nat (offset_at d p)) d) in Hc at 1. rewrite at_app_l in Hc by (rewrite zlen_take; lia). rewrite Hc in Ht. done.
  - unfold high, isHighSurrogate, is_high in *. lia.
Qed.

Lemma sub_wf d i j : 0 <= i <= j -> j <= zlen d -> cut_at stop d i -> cut_at stop d j -> well_formed d = true -> well_formed (sub d i j) = true.
Proof.
  intros Hi Hj Ci Cj Hw. destruct (cut_wf d j ltac:(lia) Cj Hw) as [Hw1 _]. rewrite (take_sub d i j) in Hw1 by lia. apply wf_cut in Hw1; [apply Hw1|].
  intros c Hl. eapply stop_high, (cut_take d i); [lia|done|exact Hl].
Qed.

(** ** Changes *)

(** What an undo element may hold for the two texts. *)
Record takes es d d' : Prop := {
  tk_rewrites : rewrites es 0 0 d d';
  tk_edges : Forall (edges stop d d') es }.

Lemma takes_swap es d d' : takes es d d' -> takes (swapped <$> es) d' d.
Proof.
  intros [Hr He]. split; [by apply rewrites_swap|]. apply Forall_fmap. eapply Forall_impl; [exact He|]. intros e (H1 & H2 & H3 & H4). by split_and!.
Qed.

Lemma takes_compress es es' d0 d1 d2 : takes es d0 d1 -> takes es' d1 d2 -> takes (compressConsecutiveTextChanges (Some es) es') d0 d2.
Proof.
  intros [R1 E1] [R2 E2]. destruct es as [|e es]; [simpl in R1; subst; by split|].
  by destruct (compress_cuts stop (e :: es) es' d0 d1 d2 R1 R2 E1 E2) as (H1 & _ & H3).
Qed.

Lemma at_suffix_drop d o s : at_suffix d o s -> 0 <= o <= zlen d /\ s = drop (Z.to_nat o) d.
Proof.
  intros (a & -> & <-). rewrite zlen_app. pose proof (zlen_nonneg a). pose proof (zlen_nonneg s). split; [lia|]. unfold zlen. by rewrite Nat2Z.id, drop_app_length.
Qed.

(** The places of a change in both texts. *)
Lemma rewrites_places es o n s s' d d' : rewrites es o n s s' -> at_suffix d o s -> at_suffix d' n s' ->
  Forall (fun e => 0 <= oldPosition e <= oldEnd e /\ oldEnd e <= zlen d /\ oldText e = sub d (oldPosition e) (oldEnd e) /\
                   0 <= newPosition e <= newEnd e /\ newEnd e <= zlen d' /\ newText e = sub d' (newPosition e) (newEnd e)) es.
Proof.
  assert (Hpart : forall D q x y, at_suffix D q (x ++ y) -> 0 <= q <= q + zlen x /\ q + zlen x <= zlen D /\ x = sub D q (q + zlen x)).
  { intros D q x y Hs. pose proof (at_suffix_app _ _ _ _ Hs) as Hs'. apply at_suffix_drop in Hs as [H1 E], Hs' as [H2 _]. pose proof (zlen_nonneg x). split; [lia|]. split; [lia|].
    unfold sub. rewrite <- E. replace (q + zlen x - q) with (zlen x) by lia. unfold zlen. by rewrite Nat2Z.id, take_app_length. }
  revert o n s s'. induction es as [|e es IH]; intros o n s s'; [constructor|]. intros (g & r & r' & -> & -> & Ho & Hn & Hr) H1 H2.
  apply at_suffix_app in H1, H2. rewrite <- Ho in H1. rewrite <- Hn in H2. destruct (Hpart _ _ _ _ H1) as (A1 & A2 & A3), (Hpart _ _ _ _ H2) as (B1 & B2 & B3).
  constructor; [exact (conj A1 (conj A2 (conj A3 (conj B1 (conj B2 B3)))))|]. apply at_suffix_app in H1, H2. by eapply IH.
Qed.

Lemma takes_places es d d' : takes es d d' ->
  Forall (fun e => 0 <= oldPosition e <= oldEnd e /\ oldEnd e <= zlen d /\ oldText e = sub d (oldPosition e) (oldEnd e) /\
                   0 <= newPosition e <= newEnd e /\ newEnd e <= zlen d' /\ newText e = sub d' (newPosition e) (newEnd e)) es.
Proof. intros [Hr _]. eapply rewrites_places; [exact Hr|by exists []..]. Qed.

(** When the texts that are put in are whole, the new text is cut where they end, too. *)
Lemma edges_forward eol es o n s s' d d' : eol = [10] \/ eol = [13; 10] -> rewrites es o n s s' -> at_suffix d o s -> at_suffix d' n s' -> cut_at stop d o -> cut_at stop d' n ->
  Forall (fun e => cut_at stop d (oldPosition e) /\ cut_at stop d (oldEnd e) /\ well_formed (newText e) = true /\ normalized eol (newText e)) es ->
  well_formed s = true -> Forall (edges stop d d') es /\ well_formed s' = true.
Proof.
  intros Heol. revert o n s s'. induction es as [|e es IH]; intros o n s s'; [by intros ->|].
  intros (g & r & r' & -> & -> & Ho & Hn & Hr) S1 S2 C1 C2 [(Co & Ce & Hw & Hnl) Hes]%Forall_cons Hws.
  rewrite Ho in Co. unfold oldEnd, newEnd in *. rewrite Ho, Hn in *.
  pose proof (cut_advance stop d d' o n g _ _ S1 S2 Co C2) as Cn. pose proof (at_suffix_app _ _ _ _ S1) as S1'. pose proof (at_suffix_app _ _ _ _ S2) as S2'.
  assert (Cn' : cut_at stop d' (n + zlen g + zlen (newText e))).
  { destruct S2' as (a & E & Ez). intros c Hc. destruct (decide (newText e = [])) as [E0|Hne]; [apply Cn; by rewrite E0, zlen_nil, Z.add_0_r in Hc|].
    destruct (last (newText e)) as [y|] eqn:El; [|by apply last_None in El]. assert (0 < zlen (newText e)) by (destruct (newText e) as [|x l]; [done|rewrite zlen_cons; pose proof (zlen_nonneg l); lia]).
    rewrite E in Hc. replace (n + zlen g + zlen (newText e) - 1) with (zlen a + (zlen (newText e) - 1)) in Hc by lia. rewrite at_app_zlen, at_app_l in Hc by lia. rewrite at_zlen_last, El in Hc. injection Hc as <-.
    unfold stop. rewrite (wf_last _ _ Hw El), orb_false_r. destruct (Z.eqb_spec y 13) as [->|]; [|done].
    pose proof (normalized_untorn eol _ [10] Heol Hnl) as Ht. unfold torn, ends_cr in Ht. by rewrite El in Ht. }
  apply at_suffix_app in S1', S2'. 
  assert (Hwr : well_formed g = true /\ well_formed r = true).
  { pose proof S1 as (a & E & Ez). assert (Hwg : well_formed g = true /\ well_formed (oldText e ++ r) = true).
    { apply wf_cut; [done|]. intros c Hl. eapply stop_high, (cut_last (a ++ g) (oldText e ++ r)); [rewrite <- app_assoc, <- E, zlen_app, Ez; exact Co|]. by rewrite last_app, Hl. }
    split; [apply Hwg|]. destruct Hwg as [_ Hw2]. apply wf_cut in Hw2; [apply Hw2|]. intros c Hl. eapply stop_high, (cut_last (a ++ g ++ oldText e) r); [|by rewrite app_assoc, last_app, Hl].
    rewrite <- !app_assoc, <- E, !zlen_app, Ez, Z.add_assoc. exact Ce. }
  destruct (IH _ _ _ _ Hr S1' S2' Ce Cn' Hes (proj2 Hwr)) as [He Hw']. split.
  - constructor; [|done]. unfold edges, oldEnd, newEnd. rewrite Ho, Hn. by split_and!.
  - apply wf_app; [apply Hwr|]. by apply wf_app.
Qed.

Lemma takes_forward eol es d d' : eol = [10] \/ eol = [13; 10] -> rewrites es 0 0 d d' ->
  Forall (fun e => cut_at stop d (oldPosition e) /\ cut_at stop d (oldEnd e) /\ well_formed (newText e) = true /\ normalized eol (newText e)) es ->
  well_formed d = true -> takes es d d' /\ well_formed d' = true.
Proof.
  intros He Hr Hes Hw. assert (C0 : forall D, cut_at stop D 0) by (intros D c Hc; apply at_lt in Hc; lia).
  destruct (edges_forward eol es 0 0 d d' d d' He Hr) as [H1 H2]; [by exists []|by exists []|apply C0|apply C0|done|done|]. by split.
Qed.

(** One change between two whole texts puts in a whole text. *)
Lemma takes_single e d d' : rewrites [e] 0 0 d d' -> cut_at stop d (oldPosition e) -> cut_at stop d (oldEnd e) -> well_formed d = true -> well_formed d' = true -> well_formed (newText e) = true.
Proof.
  intros (g & r & r' & -> & -> & Ho & Hn & <-) Co Ce Hw Hw'. unfold oldEnd in *. rewrite Ho, Z.add_0_l in *.
  apply (wf_cut g) in Hw as [Hg Hw]; [|intros c Hl; eapply stop_high, cut_last; done]. apply (wf_cut (oldText e)) in Hw as [_ Hr].
  2: { intros c Hl. eapply stop_high, (cut_last (g ++ oldText e) r); [rewrite <- app_assoc, zlen_app; exact Ce|by rewrite last_app, Hl]. }
  apply (wf_cut g) in Hw' as [_ Hw']; [by eapply wf_front|]. intros c Hl. exact (wf_last g c Hg Hl).
Qed.
