(* ===== verification/ModelUndo.v ===== *)
(** * Undoing on a text model

    What [applyUndo], [applyRedo] and [setEOL] of a text model do for the changes of an undo
    element: the model gets the text that the changes lead to, and the version it had then. *)

From S2P Require Import Prelude Position TextRange TextChange Length EolCounter Store RbTree RbInsert PtBuffer PtSpan Strings PieceTree PtState PtEdit PtSearch PtInsert PtDelete PtQuery PtLines PtRead PtBuild PtContent TextBuffer TextBuilder EditText EditPositions ApplyEdits UndoEdits TextModel ModelEdits RawChanges Cuts.

#[local] Open Scope js_scope.
#[local] Arguments Z.eqb : simpl never.
#[local] Arguments Z.ltb : simpl never.
#[local] Arguments Z.leb : simpl never.
#[local] Arguments Z.add : simpl never.
#[local] Arguments Z.sub : simpl never.

Implicit Types (b : PieceTreeTextBuffer) (eol d : list Z) (m : TextModel) (e : TextChange) (es : list TextChange).

(** ** Positions of offsets *)

Lemma position_of_end d o : 0 <= o <= zlen d -> in_crlf d o = false -> position_of d o = end_pos (take (Z.to_nat o) d).
Proof.
  intros Ho Hc. set (a := take (Z.to_nat o) d). assert (Ha : zlen a = o) by (unfold a; rewrite zlen_take; lia).
  assert (Ht : torn a (drop (Z.to_nat o) d) = false) by (by apply (eq_trans (in_crlf_torn d o Ho))). set (t := drop (Z.to_nat o) d) in *.
  assert (Ed : d = a ++ t) by (symmetry; apply take_drop). assert (El : line_of d o = breaks a).
  { pose proof (zlen_nonneg a). rewrite Ed, <- Ha, (line_of_app_l a t (zlen a) Ht) by lia. apply line_of_end. }
  destruct (last_start a) as (st & Hst & Hz). unfold position_of, end_pos. rewrite El, Ed, (starts_app_at _ _ _ Ht). destruct (Z.leb_spec (breaks a) (breaks a)); [|lia].
  rewrite Hst. change (default 0 (Some st)) with st. f_equal. lia.
Qed.

Lemma wp_model_positionAt F m eol d o (Q : Position -> TextModel -> Prop) : models F m eol d -> 0 <= o <= zlen d -> in_crlf d o = false ->
  Q (end_pos (take (Z.to_nat o) d)) m -> wp (TM.getPositionAt o) m Q.
Proof.
  intros Hm Ho Hc HQ. unfold TM.getPositionAt. apply wp_bind, (wp_assert F m eol d Hm), wp_bind, (wp_model_length F m eol d Hm). rewrite (Z.max_r 0 o), Z.min_r by lia.
  destruct Hm as (((its & Hs & Hg & Hd & _) & _) & _). apply wp_on_buffer_read, wp_on_pieces_read. eapply wp_mono; [by apply (wp_getPositionAt F _ its o)|].
  intros p s' [-> ->]. split; [done|]. split; [done|]. rewrite Hd. unfold clamp_offset. rewrite (Z.max_r 0 o), Z.min_l by lia. by rewrite position_of_end.
Qed.

(** ** The edits of changes *)

(** The edit that replaces the old text of a change of [d] by the new one. *)
Definition place d e : Range := pos_range (end_pos (take (Z.to_nat (oldPosition e)) d)) (end_pos (take (Z.to_nat (oldEnd e)) d)).

(** The same as a reverse edit for the change the other way round. *)
Definition reverse_of d e : IReverseSingleEditOperation := mkReverse 0 None (place d e) (newText e) (swapped e).

Definition change_op d e : ValidAnnotatedEditOperation := undo_op (reverse_of d e).

(** The old text of the change is there, between cuts. *)
Definition sits d e : Prop := 0 <= oldPosition e <= oldEnd e /\ oldEnd e <= zlen d /\ cut_at stop d (oldPosition e) /\ cut_at stop d (oldEnd e).

Lemma place_ok d e : sits d e -> model_range d (place d e) /\ range_start d (place d e) = oldPosition e /\ range_end d (place d e) = oldEnd e /\
  after_high d (Rng.getStartPosition (place d e)) = false /\ end_high d (Rng.getEndPosition (place d e)) = false.
Proof.
  intros (H1 & H2 & C1 & C2). destruct (end_pos_range d (oldPosition e) (oldEnd e) H1 H2 (cut_untorn _ _ C1) (cut_untorn _ _ C2)) as (Hr & Hs & He).
  fold (pos_range (end_pos (take (Z.to_nat (oldPosition e)) d)) (end_pos (take (Z.to_nat (oldEnd e)) d))) in *. fold (place d e) in *. split; [exact Hr|]. split; [exact Hs|]. split; [exact He|].
  destruct (range_offset d (place d e)) as [Es Ee]. split; apply cut_valid; [by rewrite <- Es, Hs|by rewrite <- Ee, He].
Qed.

Lemma wp_edit_between F m eol d e : models F m eol d -> sits d e ->
  wp (TM.edit_between (oldPosition e) (oldEnd e) (newText e)) m (fun r m' => m' = m /\ r = ToValidate true (change_op d e)).
Proof.
  intros Hm He. pose proof He as (H1 & H2 & C1 & C2). destruct (place_ok d e He) as ((_ & _ & Hw) & _). unfold TM.edit_between.
  apply wp_bind, (wp_model_positionAt F m eol d _ _ Hm); [lia|by apply cut_untorn|]. apply wp_bind, (wp_model_positionAt F m eol d _ _ Hm); [lia|by apply cut_untorn|].
  apply wp_ret. split; [done|]. unfold change_op, undo_op, reverse_of. cbn [rev_identifier rev_range rev_text]. by rewrite <- (wf_Range_id _ Hw).
Qed.

Lemma wp_redo_edits F m eol d es : models F m eol d -> Forall (sits d) es ->
  wp (TM.redo_edits es) m (fun r m' => m' = m /\ r = (fun e => ToValidate true (change_op d e)) <$> es).
Proof.
  intros Hm Hes. induction Hes as [|e es He Hes IH]; cbn [TM.redo_edits]; [by apply wp_ret|]. apply wp_bind. eapply wp_mono; [by apply (wp_edit_between F m eol d e Hm He)|]. intros r m' [-> ->].
  apply wp_bind. eapply wp_mono; [exact IH|]. intros rs m' [-> ->]. by apply wp_ret.
Qed.

(** Undoing is redoing the changes the other way round. *)
Lemma undo_edits_swapped es : TM.undo_edits es = TM.redo_edits (swapped <$> es).
Proof. induction es as [|e es IH]; [done|]. rewrite fmap_cons. cbn [TM.undo_edits TM.redo_edits]. by rewrite IH. Qed.

Lemma applyUndo_swapped es seq v : TM.applyUndo es seq v = (edits ← TM.redo_edits (swapped <$> es); TM.applyUndoRedoEdits edits seq true false v).
Proof. unfold TM.applyUndo. by rewrite undo_edits_swapped. Qed.

(** ** What they make of the text *)

Lemma takes_sits es d d' : takes es d d' -> Forall (sits d) es.
Proof.
  intros Ht. pose proof (takes_places es d d' Ht) as Hp. destruct Ht as [_ He]. rewrite Forall_forall in *. intros e Hin. destruct (Hp e Hin) as (H1 & H2 & _), (He e Hin) as (C1 & C2 & _). exact (conj H1 (conj H2 (conj C1 C2))).
Qed.

Section changes.
Context (eol : list Z) (es : list TextChange) (d d' : list Z).
Hypothesis Heol : eol = [10] \/ eol = [13; 10].
Hypothesis Ht : takes es d d'.
Hypothesis Hn' : normalized eol d'.

Lemma takes_placed : Forall (placed eol d) (reverse_of d <$> es).
Proof.
  pose proof (takes_sits es d d' Ht) as Hs. pose proof (takes_places es d d' Ht) as Hp. pose proof (tk_edges _ _ _ Ht) as He. apply Forall_fmap. rewrite Forall_forall in *. intros e Hin. 
  destruct (place_ok d e (Hs e Hin)) as (R1 & R2 & R3 & _), (Hp e Hin) as (_ & _ & _ & P1 & P2 & P3), (He e Hin) as (_ & _ & C1 & C2).
  split; [exact R1|]. split; [exact R2|]. split; [exact R3|]. split; [done|]. cbn [reverse_of rev_text]. rewrite P3. apply normalized_sub; try done; by apply cut_untorn.
Qed.

Lemma takes_apart : apart_ranges (rev_range <$> (reverse_of d <$> es)).
Proof.
  apply (placed_apart eol d); [apply takes_placed|]. destruct (rewrites_sorted _ _ _ _ _ (rewrites_swap _ _ _ _ _ (tk_rewrites _ _ _ Ht))) as [Hs _].
  by rewrite <- list_fmap_compose.
Qed.

Lemma change_ranges : raw_range <$> (change_op d <$> es) = rev_range <$> (reverse_of d <$> es).
Proof. by rewrite <- !list_fmap_compose. Qed.

Lemma takes_edited : edited eol d (change_op d <$> es) = d'.
Proof.
  unfold edited. pose proof takes_placed as Hp. replace (change_op d <$> es) with (undo_op <$> (reverse_of d <$> es)) by by rewrite <- list_fmap_compose.
  rewrite js_sort_id by (apply placed_sorted; [done|exact Hp|apply takes_apart]). pose proof (validated_all_undo eol d 0 _ Heol Hp) as Hf.
  apply (rewrites_splice es _ d 0 0 d'); [pose proof (zlen_nonneg d); lia| |exact (tk_rewrites _ _ _ Ht)].
  set (ops := validated_from _ _ _ _) in *. clearbody ops. clear - Hf. revert ops Hf. induction es as [|e l IH]; intros ops Hf; inversion Hf as [|? ? ? ? H1 H2]; subst; constructor; [|by apply IH].
  destruct H1 as (_ & _ & H1). by destruct e.
Qed.

(** The room that the edits take is that of the bytes of the changes at most. *)
Fixpoint changes_room (l : list TextChange) : Z := match l with [] => 0 | e :: l => zlen (oldText e) + zlen (newText e) + 8 + changes_room l end.

Lemma takes_room : ops_room (validated_from eol d 0 (change_op d <$> es)) <= changes_room es.
Proof.
  pose proof takes_placed as Hp. replace (change_op d <$> es) with (undo_op <$> (reverse_of d <$> es)) by by rewrite <- list_fmap_compose.
  rewrite (undoes_room eol d _ _ (validated_all_undo eol d 0 _ Heol Hp)). clear. induction es as [|e l IH]; [done|]. rewrite fmap_cons. cbn [rev_room changes_room reverse_of rev_text]. pose proof (zlen_nonneg (oldText e)). lia.
Qed.

End changes.

Lemma changes_room_swap es : changes_room (swapped <$> es) = changes_room es.
Proof. induction es as [|e es IH]; [done|]. rewrite fmap_cons. cbn [changes_room]. rewrite IH. cbn [swapped oldText newText]. lia. Qed.

(** ** Line endings *)

Definition seq_eol (s : EndOfLineSequence) : list Z := match s with SeqCRLF => [13; 10] | SeqLF => [10] end.

Lemma seq_eol_ok s : seq_eol s = [10] \/ seq_eol s = [13; 10].
Proof. destruct s; [by left|by right]. Qed.

Lemma seq_eol_inj s s' : seq_eol s = seq_eol s' -> s = s'.
Proof. by destruct s, s'. Qed.

Definition full_range d : Range := pos_range (end_pos []) (end_pos d).

Lemma full_range_ok d : model_range d (full_range d) /\ range_start d (full_range d) = 0 /\ range_end d (full_range d) = zlen d /\
  after_high d (Rng.getStartPosition (full_range d)) = false /\ end_high d (Rng.getEndPosition (full_range d)) = false.
Proof.
  pose proof (zlen_nonneg d). assert (E0 : take (Z.to_nat 0) d = []) by done. assert (Ed : take (Z.to_nat (zlen d)) d = d) by (unfold zlen; rewrite Nat2Z.id; apply take_ge; lia).
  pose proof (end_pos_range d 0 (zlen d) ltac:(lia) ltac:(lia)) as H0. rewrite E0, Ed in H0. destruct H0 as (H1 & H2 & H3).
  - unfold in_crlf. rewrite andb_false_iff. by left.
  - unfold in_crlf. rewrite (at_None d (zlen d)) by lia. by rewrite andb_false_r.
  - split; [exact H1|]. split; [exact H2|]. split; [exact H3|]. split; [done|]. unfold end_high. cbn [full_range pos_range Rng.getEndPosition endLineNumber endColumn end_pos lineNumber Position.column].
    replace (breaks d + 1 - 1) with (breaks d) by lia. rewrite last_line_at. change (default [] (Some (last_line d))) with (last_line d).
    destruct (Z.leb_spec (zlen (last_line d) + 1) (zlen (last_line d))); [lia|]. by rewrite andb_false_r.
Qed.

Section whole.
Context (F : gmap ptr TreeNode) (m : TextModel) (eol d : list Z).
Hypothesis Hm : models F m eol d.

Lemma wp_last_column (Q : Z -> TextModel -> Prop) : Q (zlen (last_line d) + 1) m -> wp (TM.getLineMaxColumn (breaks d + 1)) m Q.
Proof. intros HQ. pose proof (breaks_nonneg d). apply (wp_maxColumn F m eol d Hm _ (last_line d)); [lia|replace (breaks d + 1 - 1) with (breaks d) by lia; apply last_line_at|done]. Qed.

Lemma wp_fullRange (Q : Range -> TextModel -> Prop) : Q (full_range d) m -> wp TM.getFullModelRange m Q.
Proof.
  intros HQ. unfold TM.getFullModelRange. apply wp_bind, (wp_assert F m eol d Hm), wp_bind, (wp_getLineCount F m eol d Hm), wp_bind, wp_last_column. apply wp_ret.
  destruct (full_range_ok d) as ((_ & _ & Hw) & _). change (Rng.new_Range 1 1 (breaks d + 1) (zlen (last_line d) + 1)) with
    (Rng.new_Range (startLineNumber (full_range d)) (startColumn (full_range d)) (endLineNumber (full_range d)) (endColumn (full_range d))). by rewrite (wf_Range_id _ Hw).
Qed.

Lemma wp_fullLength (Q : Z -> TextModel -> Prop) : Q (zlen d) m -> wp (TM.getValueLengthInRange true (full_range d) TextDefined) m Q.
Proof.
  intros HQ. destruct (full_range_ok d) as (Hr & E1 & E2 & H1 & H2). unfold TM.getValueLengthInRange. apply wp_bind, (wp_assert F m eol d Hm), wp_bind.
  eapply wp_mono; [by apply (wp_validate_good F m eol d Hm (full_range d))|]. intros r m' [-> ->]. apply wp_on_buffer_read. destruct Hm as (Hb & _). eapply wp_mono; [by apply (wp_valueLength F (buffer_ m) eol d)|].
  intros v b' [-> ->]. split; [done|]. rewrite E1, E2. by rewrite Z.sub_0_r.
Qed.

Lemma wp_fullValue (Q : list Z -> TextModel -> Prop) : Q d m -> wp (TM.getValue TextDefined false) m Q.
Proof.
  intros HQ. destruct (full_range_ok d) as (Hr & E1 & E2 & H1 & H2). unfold TM.getValue. apply wp_bind, (wp_assert F m eol d Hm), wp_bind, wp_fullRange, wp_bind. unfold TM.getValueInRange. apply wp_bind, (wp_assert F m eol d Hm), wp_bind.
  eapply wp_mono; [by apply (wp_validate_good F m eol d Hm (full_range d))|]. intros r m' [-> ->]. apply wp_on_buffer_read. destruct Hm as (Hb & _). eapply wp_mono; [by apply (wp_valueInRange F (buffer_ m) eol d)|].
  intros v b' [-> ->]. split; [done|]. apply wp_ret. rewrite E1, E2. unfold sub. rewrite Z.sub_0_r. change (drop (Z.to_nat 0) d) with d. by rewrite take_ge by (unfold zlen; lia).
Qed.

End whole.

(** What stays as it is when a model is changed, and how the versions and the room grow. *)
Record grows m m' (room_ : Z) : Prop := {
  gr_trim : trimAutoWhitespace m' = trimAutoWhitespace m;
  gr_version : model_versionId m <= model_versionId m' <= model_versionId m + 2;
  gr_room : room (buffer_ m') <= room (buffer_ m) + room_ }.

Lemma wp_model_setEOL F m eol d seq : models F m eol d -> 2 * zlen d < max_buffer -> 0 <= room (buffer_ m) -> zlen (replaceEOL d (seq_eol seq)) + 1 < 2 ^ 31 ->
  wp (TM.setEOL seq) m (fun _ m' => models F m' (seq_eol seq) (replaceEOL d (seq_eol seq)) /\
    trimAutoWhitespace m' = trimAutoWhitespace m /\ trimAutoWhitespaceLines_ m' = trimAutoWhitespaceLines_ m /\ room (buffer_ m') <= room (buffer_ m) /\ 0 <= room (buffer_ m') /\
    (if bool_decide (eol = seq_eol seq) then m' = m else model_versionId m' = model_versionId m + 1 /\ alternativeVersionId_ m' = model_versionId m + 1)).
Proof.
  intros Hm Hd Hr0 Hz. pose proof Hm as (Hb & Hdis & _). destruct (holds_eol _ _ _ _ Hb) as [_ Hn]. unfold TM.setEOL. apply wp_bind, (wp_assert F m eol d Hm). cbv zeta. fold (seq_eol seq).
  apply wp_bind, (wp_model_EOL F m eol d Hm). case_bool_decide as He; [apply wp_ret; by rewrite <- He, Hn|].
  apply wp_bind, (wp_fullRange F m eol d Hm), wp_bind, (wp_fullLength F m eol d Hm), wp_bind, (wp_getLineCount F m eol d Hm), wp_bind, (wp_last_column F m eol d Hm), wp_bind.
  apply wp_on_buffer. unfold TB.setEOL. apply wp_on_pieces. destruct Hb as (Hrep & _). eapply wp_mono; [apply (wp_setEOL F _ d (seq_eol seq) Hrep (seq_eol_ok seq) Hd)|]. intros _ s' (H1 & H2 & H3 & H4).
  set (m1 := with_buffer _ m). assert (Hm1 : models F m1 (seq_eol seq) (replaceEOL d (seq_eol seq))) by (split; [by split_and!|done]). apply wp_bind, wp_modify. set (m2 := with_versions _ _ m1).
  assert (Hm2 : models F m2 (seq_eol seq) (replaceEOL d (seq_eol seq))) by exact Hm1. apply wp_bind, (wp_fullValue F m2 _ _ Hm2), wp_bind, (wp_model_EOL F m2 _ _ Hm2), wp_bind.
  unfold TM.getVersionId. apply wp_bind, (wp_assert F m2 _ _ Hm2), wp_gets, wp_modify. split; [exact Hm2|]. split; [done|]. split; [done|].
  assert (Er : room (buffer_ (with_event (mkModelEvent [RawEOLChanged] [mkChange (Rng.new_Range 1 1 (breaks d + 1) (zlen (last_line d) + 1)) (zlen d) (replaceEOL d (seq_eol seq)) 0 false]
    (seq_eol seq) true (model_versionId m2) false false false) m2)) = 0) by exact H4. rewrite Er. by split_and!.
Qed.

(** ** Undo and redo *)

Lemma room_nonneg b : 0 <= room b.
Proof. unfold room, blen. destruct (_.[0]); [apply zlen_nonneg|done]. Qed.

(** What comes after an undo or redo to the text [d'] and the version [v]. *)
Record undone F m seq d' v (room_ : Z) m' : Prop := {
  un_models : models F m' (seq_eol seq) d';
  un_version : alternativeVersionId_ m' = v;
  un_lines : trimAutoWhitespaceLines_ m' = None;
  un_grows : grows m m' room_ }.

Lemma wp_apply_changes F m seq seq' es d d' undoing redoing v : models F m (seq_eol seq) d -> takes es d d' -> normalized (seq_eol seq) d' ->
  room (buffer_ m) + zlen d + changes_room es < max_buffer -> 2 * zlen d' < max_buffer -> zlen d' + 1 < 2 ^ 31 -> zlen (replaceEOL d' (seq_eol seq')) + 1 < 2 ^ 31 ->
  wp (edits ← TM.redo_edits es; TM.applyUndoRedoEdits edits seq' undoing redoing v) m
    (fun _ m' => undone F m seq' (replaceEOL d' (seq_eol seq')) v (zlen d + changes_room es) m').
Proof.
  intros Hm Ht Hn' Hroom Hd2 Hz Hz'. pose proof (takes_sits _ _ _ Ht) as Hs. pose proof (seq_eol_ok seq) as He. pose proof (takes_room _ es d d' He Ht Hn') as Hrm.
  apply wp_bind. eapply wp_mono; [by apply (wp_redo_edits F m _ d es Hm Hs)|]. intros edits m0 [-> ->]. unfold TM.applyUndoRedoEdits. apply wp_bind, wp_modify. set (m1 := with_doing _ _ m).
  assert (Hm1 : models F m1 (seq_eol seq) d) by exact Hm. set (raws := change_op d <$> es) in *.
  assert (Hr : Forall (fun raw => model_range d (raw_range raw)) raws).
  { apply Forall_fmap. eapply Forall_impl; [exact Hs|]. intros e Hin. apply (place_ok d e Hin). }
  assert (Hes : Forall2 (edit_as d) ((fun e => ToValidate true (change_op d e)) <$> es) raws).
  { unfold raws. clear - Hs. induction Hs as [|e l Hin Hs IH]; [constructor|]. rewrite !fmap_cons. constructor; [|exact IH]. destruct (place_ok d e Hin) as (_ & _ & _ & H1 & H2). by split_and!. }
  assert (Hno : ~ overlapping (raw_range <$> raws)) by (unfold raws; rewrite change_ranges; apply apart_not_overlapping; by apply (takes_apart (seq_eol seq) es d d')).
  assert (Ed : edited (seq_eol seq) d raws = d') by (by apply takes_edited).
  apply wp_bind. unfold TM.applyEdits. apply wp_bind. eapply wp_mono; [by apply (wp_validate_edits F m1 _ d _ raws Hm1 Hr Hes)|]. intros ops m2 [-> ->].
  eapply wp_mono; [apply (wp_doApplyEdits F m1 _ d raws false Hm1 Hr Hno)|].
  - change (room (buffer_ m1)) with (room (buffer_ m)). lia.
  - by rewrite Ed.
  - intros _. unfold raws. apply Forall_fmap. apply Forall_true. done.
  - intros inverse m2 (cs & [D1 D2 _ (D3 & _ & _ & D4) _ (D5 & _) _] & _). rewrite Ed in D1. apply wp_bind. eapply wp_mono; [by apply (wp_model_setEOL F m2 _ d' seq' D1 Hd2 (room_nonneg _))|].
    intros _ m3 (E1 & E2 & E3 & E4 & _ & E5). apply wp_bind, wp_modify, wp_modify. change (room (buffer_ m1)) with (room (buffer_ m)) in D2. change (model_versionId m1) with (model_versionId m) in D5.
    split; [exact E1|done|by rewrite <- D4|]. split; cbn [with_doing with_versions trimAutoWhitespace model_versionId buffer_]; [by rewrite E2, D3| |lia].
    cbv zeta in D5. destruct (zlen cs =? 0), (bool_decide (seq_eol seq = seq_eol seq')); [subst m3|destruct E5|subst m3|destruct E5]; lia.
Qed.
