(* ===== verification/PushEdits.v ===== *)
(** * Edits that are pushed onto the undo stack

    What [applyEdits] gives [pushEditOperation] for its undo element: the changes, in the
    order of their places, lead from the old text to the new one, and they are between cuts of
    both texts. *)

From S2P Require Import Prelude Position TextRange TextChange Length EolCounter Store RbTree RbInsert PtBuffer PtSpan Strings PieceTree PtState PtEdit PtSearch PtInsert PtDelete PtQuery PtLines PtRead PtBuild PtContent TextBuffer TextBuilder EditText EditPositions ApplyEdits UndoEdits TextModel EditStackData UndoRedo EditStack ModelEdits RawChanges Cuts ModelUndo.

#[local] Open Scope js_scope.
#[local] Arguments Z.eqb : simpl never.
#[local] Arguments Z.ltb : simpl never.
#[local] Arguments Z.leb : simpl never.
#[local] Arguments Z.add : simpl never.
#[local] Arguments Z.sub : simpl never.

Implicit Types (eol d : list Z) (m : TextModel).

(** ** Whole texts *)

Lemma wf_replaceEOL a eol : eol = [10] \/ eol = [13; 10] -> well_formed a = true -> well_formed (replaceEOL a eol) = true.
Proof.
  intros He. assert (Hw : forall t, well_formed t = true -> well_formed (eol ++ t) = true) by (intros t Ht; by destruct He as [-> | ->]).
  remember (List.length a) as n eqn:Hn. assert (Hle : (List.length a <= n)%nat) by lia. clear Hn. revert a Hle. induction n as [|n IH]; intros [|c a] Hle Ha; simpl in *; try done; [lia|].
  destruct (is_high c) eqn:Ec.
  - destruct a as [|y a]; [done|]. apply andb_true_iff in Ha as [Hy Ha]. unfold is_high, is_low in Ec, Hy. destruct (Z.eqb_spec c 13); [lia|]. destruct (Z.eqb_spec c 10); [lia|].
    simpl. unfold is_high. rewrite Ec. destruct (Z.eqb_spec y 13); [lia|]. destruct (Z.eqb_spec y 10); [lia|]. unfold is_low. rewrite Hy. cbn [andb]. apply IH; [simpl in *; lia|done].
  - apply andb_true_iff in Ha as [Hl Ha]. pose proof (IH a ltac:(lia) Ha) as IHa. destruct (Z.eqb_spec c 13); [|destruct (c =? 10); [by apply Hw|simpl; by rewrite Ec, Hl]].
    destruct a as [|y a]; [by rewrite <- (app_nil_r eol), Hw|]. destruct (Z.eqb_spec y 10) as [->|]; [|by apply Hw]. apply Hw, IH; [simpl in *; lia|]. by simpl in Ha.
Qed.

Lemma units_replaceEOL (P : Z -> Prop) a eol : Forall P eol -> Forall P a -> Forall P (replaceEOL a eol).
Proof.
  intros He Ha. induction a as [|a IH|c a Hcr IH] using text_ind; [done| |].
  - apply Forall_cons in Ha as [_ [_ Ha]%Forall_cons]. simpl. apply Forall_app. auto.
  - apply Forall_cons in Ha as [Hc Ha]. rewrite (replaceEOL_cons_lone c a) by done. apply Forall_app. split; [|auto]. destruct (_ || _); [done|by repeat constructor].
Qed.

Lemma units_sub (P : Z -> Prop) d i j : Forall P d -> Forall P (sub d i j).
Proof. intros Hd. unfold sub. by apply Forall_take, Forall_drop. Qed.

Lemma units_splice (P : Z -> Prop) d ops : Forall P d -> Forall (fun op => Forall P (text op)) ops -> forall p, Forall P (splice d p ops).
Proof.
  intros Hd Hops. induction Hops as [|op ops Hop Hops IH]; intros p; cbn [splice]; [by apply Forall_drop|]. rewrite !Forall_app. split; [by apply units_sub|]. by split.
Qed.

Lemma seq_eol_units seq : Forall code_unit (seq_eol seq).
Proof. destruct seq; repeat constructor; unfold code_unit; lia. Qed.

(** ** The order of the changes *)

Definition change_order (a b : Z * TextChange) : Z := if oldPosition a.2 =? oldPosition b.2 then a.1 - b.1 else oldPosition a.2 - oldPosition b.2.

Lemma change_order_lex a b : change_order a b <= 0 <-> oldPosition a.2 < oldPosition b.2 \/ oldPosition a.2 = oldPosition b.2 /\ a.1 <= b.1.
Proof. unfold change_order. destruct (Z.eqb_spec (oldPosition a.2) (oldPosition b.2)); lia. Qed.

Lemma imap_sorted (g : nat -> Z) (l : list IReverseSingleEditOperation) : (forall i j, (i < j)%nat -> g i < g j) ->
  StronglySorted (fun x y => oldPosition x <= oldPosition y) (rev_textChange <$> l) ->
  StronglySorted (fun a b => change_order a b <= 0) (imap (fun i x => (g i, rev_textChange x)) l).
Proof.
  revert g. induction l as [|x l IH]; intros g Hg Hs; [constructor|]. rewrite fmap_cons in Hs. apply StronglySorted_inv in Hs as [Hs Hh]. cbn [imap]. constructor.
  - apply (IH (fun i => g (S i))); [|done]. intros i j Hij. apply Hg. lia.
  - apply Forall_forall. intros y (i & z & -> & Hz)%elem_of_lookup_imap. apply change_order_lex. cbn [fst snd]. rewrite Forall_fmap, Forall_forall in Hh. specialize (Hh z (list_elem_of_lookup_2 _ _ _ Hz)). cbv beta in Hh.
    specialize (Hg 0%nat (S i) ltac:(lia)). unfold compose in *. cbn [fst snd]. lia.
Qed.

Lemma sorted_changes_order rs l : rs ≡ₚ l -> StronglySorted (fun x y => oldPosition x <= oldPosition y) (rev_textChange <$> l) ->
  rs = l \/ StronglySorted (fun x y => oldPosition x < oldPosition y) (rev_textChange <$> l) -> ES.sorted_changes rs = rev_textChange <$> l.
Proof.
  intros Hp Hs Hor. unfold ES.sorted_changes. fold change_order. set (cs := imap _ rs).
  assert (Ecs : snd <$> cs = rev_textChange <$> rs) by (unfold cs; rewrite fmap_imap; exact (imap_const rev_textChange rs)).
  destruct Hor as [-> |Hstrict].
  - rewrite js_sort_id; [exact Ecs|]. apply (imap_sorted Z.of_nat); [lia|done].
  - set (R x y := oldPosition x <= oldPosition y). assert (Hpm : (snd <$> js_sort change_order cs) ≡ₚ (rev_textChange <$> l)) by (by rewrite js_sort_perm, Ecs, Hp).
    apply (StronglySorted_unique_strong R); [| |exact Hs|exact Hpm].
    + intros x y Hx Hy H1 H2. rewrite Hpm in Hx. unfold R in *. clear - Hstrict Hx Hy H1 H2. induction Hstrict as [|z k Hk IH Hz]; [by apply not_elem_of_nil in Hx|]. rewrite Forall_forall in Hz.
      apply elem_of_cons in Hx as [->|Hx]; apply elem_of_cons in Hy as [->|Hy]; [done| | |by apply IH]; [specialize (Hz y Hy)|specialize (Hz x Hx)]; lia.
    + assert (Hsort : StronglySorted (fun a b => change_order a b <= 0) (js_sort change_order cs)).
      { apply js_sort_sorted; [intros a b|intros a b c]; rewrite !change_order_lex; lia. }
      clear - Hsort. induction Hsort as [|a k Hk IH Ha]; [constructor|]. rewrite fmap_cons. constructor; [exact IH|]. apply Forall_fmap. eapply Forall_impl; [exact Ha|]. intros b Hab%change_order_lex. unfold R, compose. lia.
Qed.

(** ** Their places *)

(** The texts of a model: line endings of one kind, whole pairs, code units. *)
Record clean eol d : Prop := {
  cl_eol : normalized eol d;
  cl_pairs : well_formed d = true;
  cl_units : Forall code_unit d }.

(** An edit that may be pushed: neither end of its range is after the first half of a pair. *)
Record pushable d (raw : ValidAnnotatedEditOperation) : Prop := {
  pu_range : model_range d (raw_range raw);
  pu_start : high (d.[range_start d (raw_range raw) - 1]) = false;
  pu_end : high (d.[range_end d (raw_range raw) - 1]) = false;
  pu_pairs : well_formed (default [] (raw_text raw)) = true;
  pu_units : Forall code_unit (default [] (raw_text raw));
  pu_auto : raw_isAutoWhitespaceEdit raw = false }.

(** What is replaced is between cuts, and what is put in is a clean text. *)
Definition fits eol d (start end_ : Z) (t : list Z) : Prop :=
  cut_at stop d start /\ cut_at stop d end_ /\ clean eol t.

Definition op_fits eol d op : Prop := fits eol d (rangeOffset op) (op_end op) (text op).

Lemma pushable_fits eol d i raw : eol = [10] \/ eol = [13; 10] -> Forall code_unit eol -> clean eol d -> pushable d raw -> op_fits eol d (validated eol d i raw).
Proof.
  intros He Hu Hd [Hr H1 H2 Hw Hcu _]. destruct (validated_fields eol d i raw He) as (_ & _ & Eo & Ee & Et). unfold op_fits, fits. rewrite Eo, Ee, Et. pose proof Hr as (Hs & Hn & _).
  destruct (range_offset d (raw_range raw)) as [E1 E2]. rewrite E1 in *. rewrite E2 in *. pose proof (cl_eol _ _ Hd). split; [by apply (position_cut eol)|]. split; [by apply (position_cut eol)|].
  split; [by apply replaceEOL_idem|by apply wf_replaceEOL|by apply units_replaceEOL].
Qed.

Lemma all_fit eol d raws : eol = [10] \/ eol = [13; 10] -> Forall code_unit eol -> clean eol d -> Forall (pushable d) raws -> forall i, Forall (op_fits eol d) (validated_from eol d i raws).
Proof. intros He Hu Hd. induction 1 as [|raw raws Hr Hrs IH]; intros i; [constructor|]. cbn [validated_from]. constructor; [by apply pushable_fits|apply IH]. Qed.

(** The changes that go with the reverse edits are those of the operations. *)
Lemma reversed_changes (Q : Z -> Z -> list Z -> Prop) eol d ops : Forall (fun op => Q (rangeOffset op) (op_end op) (text op)) ops ->
  forall p delta ranges, 0 <= p -> chain eol d p ops -> Forall (fun e => Q (oldPosition e) (oldEnd e) (newText e)) (rev_textChange <$> reversed d delta ops ranges).
Proof.
  induction 1 as [|op ops Hop Hops IH]; intros p delta [|r ranges] Hp Hc; try by constructor. cbn [chain] in Hc. destruct Hc as (H1 & H2 & H3 & _ & _ & _ & H7). cbn [reversed]. rewrite fmap_cons.
  assert (Hb : rangeOffset op <= op_end op) by (unfold op_end; lia). constructor; [|apply (IH (op_end op)); [lia|done]].
  cbn [rev_textChange newText]. unfold oldEnd. cbn [oldPosition oldText]. rewrite zlen_sub by lia. by replace (rangeOffset op + (op_end op - rangeOffset op)) with (op_end op) by lia.
Qed.

Definition changes_of d (ops : list IValidatedEditOperation) : list TextChange := rev_textChange <$> reversed d 0 ops (TB.getInverseEditRanges ops).

Lemma changes_of_rewrites eol d ops : chain eol d 0 ops -> rewrites (changes_of d ops) 0 0 d (splice d 0 ops).
Proof. intros Hc. apply (reversed_rewrites eol d 0 0 ops); [lia|done|apply inverse_ranges_length]. Qed.

Lemma zlen_changes_of d ops : zlen (changes_of d ops) = zlen ops.
Proof.
  unfold changes_of, zlen. f_equal. rewrite length_fmap. generalize 0. pose proof (inverse_ranges_length None ops) as Hl. unfold TB.getInverseEditRanges. revert Hl. generalize (TB.inverse_ranges None ops). 
  induction ops as [|op ops IH]; intros [|r l] Hl z; try done. cbn [reversed List.length] in *. f_equal. apply IH. lia.
Qed.

(** The whole list, and the one change that may stand for it. *)
Lemma changes_of_takes eol d ops : eol = [10] \/ eol = [13; 10] -> clean eol d -> Forall (op_ok eol d) ops -> Forall (op_fits eol d) ops -> chain eol d 0 ops ->
  takes (changes_of d ops) d (splice d 0 ops) /\ clean eol (splice d 0 ops).
Proof.
  intros He Hd Hok Hf Hc. pose proof (changes_of_rewrites _ _ _ Hc) as Hrw. destruct Hd as [D1 D2 D3].
  assert (Hc0 : in_crlf d 0 = false) by (unfold in_crlf; rewrite andb_false_iff; by left).
  destruct (takes_forward eol _ _ _ He Hrw) as [Ht Hw]; [|done|].
  - apply (reversed_changes (fun s e t => cut_at stop d s /\ cut_at stop d e /\ well_formed t = true /\ normalized eol t) eol d ops) with (p := 0); [|lia|done].
    eapply Forall_impl; [exact Hf|]. intros op (C1 & C2 & [E1 E2 E3]). by split_and!.
  - split; [exact Ht|]. split; [by apply normalized_splice|done|]. apply units_splice; [done|]. eapply Forall_impl; [exact Hf|]. intros op (_ & _ & [_ _ E]). exact E.
Qed.

Lemma single_takes eol d ops op a z : eol = [10] \/ eol = [13; 10] -> clean eol d -> Forall (op_ok eol d) ops -> Forall (op_fits eol d) ops -> chain eol d 0 ops ->
  a ∈ ops -> z ∈ ops -> rangeOffset op = rangeOffset a -> op_end op = op_end z -> normalized eol (text op) -> chain eol d 0 [op] -> splice d 0 [op] = splice d 0 ops ->
  takes (changes_of d [op]) d (splice d 0 ops).
Proof.
  intros He Hd Hok Hf Hc Ha Hz Eo Ee Hn Hc1 Es. destruct (changes_of_takes eol d ops He Hd Hok Hf Hc) as [_ [_ Hw' _]]. rewrite Forall_forall in Hf. destruct (Hf a Ha) as (C1 & _), (Hf z Hz) as (_ & C2 & _).
  rewrite <- Eo in C1. rewrite <- Ee in C2. pose proof (changes_of_rewrites _ _ _ Hc1) as Hrw. rewrite Es in Hrw. destruct Hd as [_ Hw _].
  assert (Hch : Forall (fun e => cut_at stop d (oldPosition e) /\ cut_at stop d (oldEnd e) /\ normalized eol (newText e)) (changes_of d [op])).
  { apply (reversed_changes (fun s e t => cut_at stop d s /\ cut_at stop d e /\ normalized eol t) eol d [op]) with (p := 0); [by repeat constructor|lia|done]. }
  destruct (changes_of d [op]) as [|e [|e' l]] eqn:Ech; [by pose proof (zlen_changes_of d [op]) as Hl; rewrite Ech in Hl| |
    by pose proof (zlen_changes_of d [op]) as Hl; rewrite Ech, (zlen_cons e), (zlen_cons e') in Hl; pose proof (zlen_nonneg l); change (zlen [op]) with 1 in Hl; lia].
  apply Forall_cons in Hch as [(K1 & K2 & K3) _]. pose proof (takes_single e d _ Hrw K1 K2 Hw Hw') as Hwe.
  apply (takes_forward eol _ _ _ He Hrw); [|done]. by repeat constructor.
Qed.

(** ** Pushing *)

Lemma sorted_impl {A} (R S : A -> A -> Prop) (l : list A) : (forall x y, R x y -> S x y) -> StronglySorted R l -> StronglySorted S l.
Proof. intros HRS. induction 1 as [|x l Hl IH Hx]; constructor; [done|]. eapply Forall_impl; [exact Hx|apply HRS]. Qed.

Lemma changes_in_order es d d' : rewrites es 0 0 d d' -> StronglySorted (fun x y => oldPosition x <= oldPosition y) es.
Proof.
  generalize 0 at 1. generalize 0. revert d d'. induction es as [|e es IH]; intros d d' n o; [constructor|]. intros (g & r & r' & -> & -> & Ho & Hn & Hr). constructor; [by eapply IH|].
  pose proof (zlen_nonneg (oldText e)). clear - Hr H. assert (Hle : oldPosition e <= oldEnd e) by (unfold oldEnd; lia). revert Hr Hle. generalize (oldEnd e) (newEnd e). revert r r'.
  induction es as [|e' es IH]; intros r r' o n; [constructor|]. intros (g & q & q' & -> & -> & Ho & Hn & Hr) Hle. pose proof (zlen_nonneg g). pose proof (zlen_nonneg (oldText e')).
  constructor; [lia|]. eapply IH; [exact Hr|]. unfold oldEnd. lia.
Qed.

Record pushed F m seq d (raws : list ValidAnnotatedEditOperation) (rs : list IReverseSingleEditOperation) m' : Prop := {
  pd_models : models F m' (seq_eol seq) (edited (seq_eol seq) d raws);
  pd_clean : clean (seq_eol seq) (edited (seq_eol seq) d raws);
  pd_takes : takes (ES.sorted_changes rs) d (edited (seq_eol seq) d raws);
  pd_count : zlen (ES.sorted_changes rs) <= zlen raws;
  pd_same : trimAutoWhitespace m' = trimAutoWhitespace m /\ trimAutoWhitespaceLines_ m' = None;
  pd_version : model_versionId m' = model_versionId m /\ alternativeVersionId_ m' = alternativeVersionId_ m /\ edited (seq_eol seq) d raws = d \/
    model_versionId m' = model_versionId m + 1 /\ alternativeVersionId_ m' = model_versionId m' }.

Lemma zlen_validated eol d raws : zlen (js_sort TB.sortOpsAscending (validated_from eol d 0 raws)) = zlen raws.
Proof.
  unfold zlen. rewrite js_sort_perm. f_equal. generalize 0. induction raws as [|raw raws IH]; intros i; [done|]. cbn [validated_from List.length]. by rewrite IH.
Qed.

Lemma wp_push F m seq d raws : models F m (seq_eol seq) d -> clean (seq_eol seq) d -> Forall (pushable d) raws -> ~ overlapping (raw_range <$> raws) ->
  room (buffer_ m) + zlen d + ops_room (validated_from (seq_eol seq) d 0 raws) < max_buffer -> zlen (edited (seq_eol seq) d raws) + 1 < 2 ^ 31 ->
  wp (TM.applyEdits (AlreadyValid <$> raws) true) m (fun r m' => exists rs, r = Some rs /\ pushed F m seq d raws rs m').
Proof.
  intros Hm Hd Hpu Hno Hroom Hz. pose proof (seq_eol_ok seq) as He. set (eol := seq_eol seq) in *.
  assert (Hr : Forall (fun raw => model_range d (raw_range raw)) raws) by (eapply Forall_impl; [exact Hpu|]; intros raw Hraw; apply Hraw).
  assert (Hes : Forall2 (edit_as d) (AlreadyValid <$> raws) raws) by (clear; induction raws; by constructor).
  unfold TM.applyEdits. apply wp_bind. eapply wp_mono; [by apply (wp_validate_edits F m eol d _ raws Hm Hr Hes)|]. intros ops0 m1 [-> ->].
  eapply wp_mono; [apply (wp_doApplyEdits F m eol d raws true Hm Hr Hno Hroom Hz)|].
  { intros _. eapply Forall_impl; [exact Hpu|]. intros raw Hraw. apply Hraw. }
  intros r m' (cs & [D1 _ _ (D3 & _ & _ & D4) D5 [D6 D7] _] & ops' & touching & b' & Hap & Hsf & Hck & Ha). set (ops := js_sort TB.sortOpsAscending (validated_from eol d 0 raws)) in *.
  destruct (apart_check eol d raws ops He Hr eq_refl) as (Hok & _ & _ & Hsorted & _). pose proof Hsf as [Hok' Ha' Hch' Hsp Hroom' _ Hcnt' Hst' _ Hsingle].
  assert (Hf : Forall (op_fits eol d) ops) by (unfold ops; rewrite js_sort_perm; apply all_fit; (done || apply seq_eol_units)).
  destruct (changes_of_takes eol d ops He Hd Hok Hf (apart_chain _ _ _ Hok Hap)) as [Ht Hcl]. fold (edited eol d raws) in *.
  assert (Ht' : takes (changes_of d ops') d (edited eol d raws) /\ zlen ops' <= zlen raws).
  { rewrite <- (zlen_validated eol d raws). fold ops. destruct Hsingle as [-> |(op & a & z & -> & Ha1 & Hz1 & Eo & Ee)]; [by split|]. split.
    - apply Forall_cons in Hok' as [(_ & _ & _ & Hn) _]. by apply (single_takes eol d ops op a z He Hd Hok Hf (apart_chain _ _ _ Hok Hap)).
    - destruct ops as [|o l]; [by apply not_elem_of_nil in Ha1|]. rewrite (zlen_cons o). pose proof (zlen_nonneg l). change (zlen [op]) with 1. lia. }
  pose proof (ap_reverse _ _ _ _ _ _ _ _ _ Ha) as Er. cbn [reverseEdits] in Er. rewrite Er. clear Er. eexists. split; [done|]. set (rs := reversed d 0 ops' _) in *.
  assert (Hlen : List.length (TB.getInverseEditRanges ops') = List.length ops') by apply inverse_ranges_length.
  assert (Hmono : StronglySorted (fun x y => oldPosition x <= oldPosition y) (rev_textChange <$> rs)) by (by eapply changes_in_order, (tk_rewrites _ _ _ (proj1 Ht'))).
  assert (Eord : ES.sorted_changes (if negb touching then js_sort (fun x y => rev_sortIndex x - rev_sortIndex y) rs else rs) = changes_of d ops').
  { apply sorted_changes_order; [destruct (negb touching); [apply js_sort_perm|done]|exact Hmono|]. destruct touching; [by left|right].
    eapply sorted_impl; [|apply (reversed_strict eol d 0 ops' _ Hok' (Hst' (check_overlap_strict ops false (ops_wf _ _ _ Hok) Hck)) Hlen)].
    intros e e'. unfold oldEnd. pose proof (zlen_nonneg (oldText e)). lia. }
  split; rewrite ?Eord; [exact D1|exact Hcl|apply Ht'|rewrite zlen_changes_of; apply Ht'|by split|].
  destruct (Z.eqb_spec (zlen cs) 0) as [E|E]; [left|right; by rewrite D7, D6]. split; [done|]. split; [done|]. etrans; [symmetry; exact D5|]. destruct cs as [|c cs]; [done|]. rewrite zlen_cons in E. pose proof (zlen_nonneg cs). lia.
Qed.
