(* ===== verification/HistoryData.v ===== *)
(** * Undo elements between two states

    A state of a model is its text, its line ending and its version.  The data of an undo
    element lead from one state to another; appending edits leads on to the next, and the data
    always fit their bytes. *)

From S2P Require Import Prelude Position TextRange Selection TextChange Length EolCounter Store RbTree RbInsert PtBuffer PtSpan Strings PieceTree PtState PtEdit PtSearch PtInsert PtDelete PtQuery PtLines PtRead PtBuild PtContent TextBuffer TextBuilder EditText EditPositions ApplyEdits UndoEdits TextModel EditStackData UndoRedo EditStack ModelEdits RawChanges Cuts ModelUndo PushEdits.

#[local] Open Scope js_scope.
#[local] Arguments Z.eqb : simpl never.
#[local] Arguments Z.ltb : simpl never.
#[local] Arguments Z.leb : simpl never.
#[local] Arguments Z.add : simpl never.
#[local] Arguments Z.sub : simpl never.

#[global] Instance EndOfLineSequence_eq_dec : EqDecision EndOfLineSequence.
Proof. solve_decision. Defined.

Record Snapshot : Type := mkSnapshot { s_text : list Z; s_eol : EndOfLineSequence; s_version : Z }.

Implicit Types (s : Snapshot) (dt : SingleModelEditStackData) (es : list TextChange).

(** A state a model can be in, with room for the other line ending. *)
Record sound s : Prop := {
  so_clean : clean (seq_eol (s_eol s)) (s_text s);
  so_size : 2 * zlen (s_text s) < max_buffer;
  so_version : is_uint32 (s_version s) }.

Lemma sound_length s : sound s -> zlen (s_text s) + 1 < 2 ^ 31.
Proof. intros [_ H _]. pose proof (zlen_nonneg (s_text s)). unfold max_buffer in H. lia. Qed.

Lemma sound_other s e : sound s -> zlen (replaceEOL (s_text s) (seq_eol e)) + 1 < 2 ^ 31.
Proof. intros [_ H _]. pose proof (zlen_replaceEOL (s_text s) (seq_eol e) ltac:(by destruct e)). unfold max_buffer in H. lia. Qed.

(** The data lead from one state to another: by changes, or by another line ending. *)
Record leads dt s s' : Prop := {
  ld_before : beforeVersionId dt = s_version s;
  ld_after : afterVersionId dt = s_version s';
  ld_eol : beforeEOL dt = s_eol s;
  ld_eol' : afterEOL dt = s_eol s';
  ld_changes : s_eol s = s_eol s' /\ takes (data_changes dt) (s_text s) (s_text s') \/
    data_changes dt = [] /\ s_text s' = replaceEOL (s_text s) (seq_eol (s_eol s')) /\ s_text s = replaceEOL (s_text s') (seq_eol (s_eol s)) }.

Lemma leads_loaded dt s s' : leads dt s s' -> leads (loaded dt) s s'.
Proof. by intros [H1 H2 H3 H4 H5]. Qed.

Lemma takes_nil d : takes [] d d.
Proof. by split. Qed.

Lemma leads_takes dt s s' : sound s -> leads dt s s' -> s_eol s = s_eol s' -> takes (data_changes dt) (s_text s) (s_text s').
Proof.
  intros Hs [_ _ _ _ [[_ Ht]|(-> & -> & _)]] He; [exact Ht|]. rewrite <- He. destruct Hs as [[Hn _ _] _ _]. rewrite Hn. apply takes_nil.
Qed.

(** ** The data fit *)

Lemma takes_ok es s s' : sound s -> sound s' -> takes es (s_text s) (s_text s') -> Forall change_ok es.
Proof.
  intros Hs Hs' Ht. pose proof (sound_length s Hs) as Hz. pose proof (sound_length s' Hs') as Hz'. destruct Hs as [[_ Hw Hu] _ _], Hs' as [[_ Hw' Hu'] _ _].
  pose proof (takes_places _ _ _ Ht) as Hp. pose proof (tk_edges _ _ _ Ht) as He. rewrite Forall_forall in Hp, He |- *. intros e Hin. destruct (Hp e Hin) as (P1 & P2 & P3 & P4 & P5 & P6), (He e Hin) as (C1 & C2 & C3 & C4).
  unfold change_ok, TextChange.text_ok, is_uint32. rewrite P3, P6. split; [lia|]. split; [lia|]. rewrite !zlen_sub by lia. split; (split; [by apply units_sub|split; [lia|left]]); apply sub_wf; (done || lia).
Qed.

Lemma compact_count es : forall o d, compact o es -> Forall (fun e => 0 <= oldPosition e <= oldEnd e /\ oldEnd e <= zlen (A := Z) d) es -> o <= zlen d -> zlen es <= zlen d - o.
Proof.
  induction es as [|e es IH]; intros o d Hc Hf Ho; [change (zlen (@nil TextChange)) with 0; lia|]. destruct Hc as (H1 & _ & H2). apply Forall_cons in Hf as [[H3 H4] Hf]. rewrite zlen_cons.
  pose proof (IH (oldEnd e) d H2 Hf ltac:(lia)). lia.
Qed.

Lemma compress_count es es' d0 d1 d2 : takes es d0 d1 -> takes es' d1 d2 -> zlen d0 + 1 < 2 ^ 31 -> zlen es' < 2 ^ 32 ->
  zlen (compressConsecutiveTextChanges (Some es) es') < 2 ^ 32.
Proof.
  intros H1 H2 Hz Hc. pose proof (takes_compress _ _ _ _ _ H1 H2) as Ht. destruct es as [|e es]; [exact Hc|].
  destruct (compress_ok (e :: es) es' d0 d1 d2 (tk_rewrites _ _ _ H1) (tk_rewrites _ _ _ H2)) as [_ Hcp]. change (compressConsecutiveTextChanges (Some (e :: es)) es') with (TCC.compress (e :: es) es') in *.
  pose proof (zlen_nonneg d0). pose proof (compact_count _ (-1) d0 Hcp) as Hle. enough (zlen (TCC.compress (e :: es) es') <= zlen d0 - -1) by lia. apply Hle; [|lia].
  eapply Forall_impl; [exact (takes_places _ _ _ Ht)|]. by intros x (P1 & P2 & _).
Qed.

(** ** Making and appending *)

Definition fresh_data s (cursor : option (list Selection)) : SingleModelEditStackData := mkData (s_version s) (s_version s) (s_eol s) (s_eol s) cursor cursor [].

Lemma fresh_ok s cursor : sound s -> selections_ok cursor -> data_ok (fresh_data s cursor) /\ leads (fresh_data s cursor) s s.
Proof. intros [_ _ Hv] Hc. split; [by split|]. split; try done. left. split; [done|]. apply takes_nil. Qed.

Lemma append_ok dt s s1 s2 es cursor : data_ok dt -> leads dt s s1 -> sound s -> sound s1 -> sound s2 -> s_eol s = s_eol s1 -> s_eol s1 = s_eol s2 -> takes es (s_text s1) (s_text s2) ->
  zlen es < 2 ^ 32 -> selections_ok cursor -> let dt' := SD.append dt es (s_eol s2) (s_version s2) cursor in data_ok dt' /\ leads dt' s s2.
Proof.
  intros [K1 K2 K3 K4 K5 K6] Hl Hs Hs1 Hs2 He He2 Ht Hc Hcur dt'. pose proof (leads_takes _ _ _ Hs Hl He) as Ht1. destruct Hl as [L1 L2 L3 L4 _].
  assert (Hch : takes (data_changes dt') (s_text s) (s_text s2) /\ zlen (data_changes dt') < 2 ^ 32).
  { unfold dt', SD.append. cbn [data_changes]. rewrite Z.gtb_ltb. destruct (Z.ltb_spec 0 (zlen es)) as [_|E].
    - split; [by eapply takes_compress|]. eapply compress_count; [exact Ht1|exact Ht|by apply sound_length|done].
    - assert (es = []) as -> by (destruct es as [|e l]; [done|]; rewrite zlen_cons in E; pose proof (zlen_nonneg l); lia). destruct Ht as [Ht _]. simpl in Ht. rewrite <- Ht. split; [exact Ht1|apply K5]. }
  destruct Hch as [Ht' Hc']. split; split; try done; cbn [dt' SD.append beforeVersionId afterVersionId beforeCursorState afterCursorState].
  - apply Hs2.
  - split; [apply zlen_nonneg|exact Hc'].
  - by apply (takes_ok _ s s2).
  - left. split; [by rewrite He|done].
Qed.

(** A new element that only changes the line ending. *)
Lemma no_selections : selections_ok None.
Proof. by split. Qed.

Lemma append_eol_ok s s2 : sound s -> sound s2 -> s_text s2 = replaceEOL (s_text s) (seq_eol (s_eol s2)) -> s_text s = replaceEOL (s_text s2) (seq_eol (s_eol s)) ->
  let dt' := SD.append (fresh_data s None) [] (s_eol s2) (s_version s2) None in data_ok dt' /\ leads dt' s s2.
Proof.
  intros Hs Hs2 Ht Hb dt'. pose proof (so_version _ Hs). pose proof (so_version _ Hs2). split; split; try done. right. by split_and!.
Qed.

Lemma replaceEOL_there_back t e e' : normalized (seq_eol e) t -> replaceEOL (replaceEOL t (seq_eol e')) (seq_eol e) = t.
Proof.
  intros Hn. etrans; [|exact Hn]. clear Hn. assert (Hrep : forall a b R, replaceEOL (seq_eol a ++ R) (seq_eol b) = seq_eol b ++ replaceEOL R (seq_eol b)) by (by intros [] [] R).
  induction t as [|t IH|c t Hcr IH] using text_ind; [done|simpl; by rewrite Hrep, IH|]. rewrite (replaceEOL_cons_lone c t), (replaceEOL_cons_lone c t) by done.
  destruct ((c =? 13) || (c =? 10)) eqn:Ec; [by rewrite Hrep, IH|]. apply orb_false_iff in Ec as [E1 E2]. simpl. by rewrite E1, E2, IH.
Qed.

(** The bytes take more room than the changes. *)
Lemma bytes_room dt : data_ok dt -> changes_room (data_changes dt) <= zlen (SD.serialize dt).
Proof.
  intros Hd. rewrite (serialize_bytes dt Hd). unfold data_bytes. rewrite !zlen_app. assert (Hc : forall l, changes_room l <= zlen (l ≫= change_bytes)).
  { induction l as [|e l IH]; [done|]. change ((e :: l) ≫= change_bytes) with (change_bytes e ++ (l ≫= change_bytes)). rewrite zlen_app, zlen_change_bytes. cbn [changes_room]. unfold writeSize, writeStringSize.
    pose proof (zlen_nonneg (oldText e)). pose proof (zlen_nonneg (newText e)). lia. }
  pose proof (Hc (data_changes dt)). repeat match goal with |- context [zlen ?l + _] => pose proof (zlen_nonneg l); generalize dependent (zlen l); intros end. lia.
Qed.

(** ** The way of an undo or redo *)

(** The text on the way, before the line ending is set. *)
Lemma path es s s' : sound s -> sound s' ->
  s_eol s = s_eol s' /\ takes es (s_text s) (s_text s') \/ es = [] /\ s_text s' = replaceEOL (s_text s) (seq_eol (s_eol s')) ->
  exists mid, takes es (s_text s) mid /\ normalized (seq_eol (s_eol s)) mid /\ 2 * zlen mid < max_buffer /\ zlen mid + 1 < 2 ^ 31 /\
    s_text s' = replaceEOL mid (seq_eol (s_eol s')).
Proof.
  intros Hs Hs' [[He Ht]|[-> Ht]].
  - exists (s_text s'). rewrite He. pose proof (sound_length _ Hs'). destruct Hs' as [[Hn _ _] Hz _]. by split_and!.
  - exists (s_text s). pose proof (sound_length _ Hs). destruct Hs as [[Hn _ _] Hz _]. split; [apply takes_nil|]. by split_and!.
Qed.

Section moves.
Context (decode : list Z -> jsstr).
Hypothesis decode_ok : forall t, well_formed t = true -> starts_with_bom t = false -> decode t = t.

Lemma serialized_ok dt : data_ok dt -> SD.deserialize decode (SD.serialize dt) = Ok (loaded dt).
Proof. intros Hd. rewrite (serialize_bytes dt Hd). by apply deserialize_bytes. Qed.

Lemma wp_of_result {A} (r : result A) a m (Q : A -> TextModel -> Prop) : r = Ok a -> Q a m -> wp (SE.of_result r) m Q.
Proof. by intros ->. Qed.

(** The element of a step, undone at its end and redone at its start. *)
Lemma wp_element_undo F m e dt s s' : e = mkElement true (Live dt) \/ e = mkElement true (Closed (SD.serialize dt)) -> data_ok dt -> leads dt s s' -> sound s -> sound s' ->
  models F m (seq_eol (s_eol s')) (s_text s') -> room (buffer_ m) + zlen (s_text s') + zlen (SE.bytes e) < max_buffer ->
  wp (SE.undo decode e) m (fun e' m' => e' = mkElement true (Closed (SD.serialize dt)) /\ exists r, undone F m (s_eol s) (s_text s) (s_version s) r m').
Proof.
  intros He Hd Hl Hs Hs' Hm Hroom. assert (Hb : SE.bytes e = SD.serialize dt /\ attached e = true) by (by destruct He as [-> | ->]). destruct Hb as [Hb Ha]. rewrite Hb in Hroom.
  unfold SE.undo. rewrite Ha, Hb. cbn [negb]. apply wp_bind, (wp_of_result _ (loaded dt)); [by apply serialized_ok|]. pose proof (bytes_room dt Hd). pose proof (sound_other s' (s_eol s) Hs'). destruct Hl as [L1 L2 L3 L4 L5].
  cbn [loaded data_changes beforeEOL beforeVersionId]. rewrite L1, L3, applyUndo_swapped. destruct (path (swapped <$> data_changes dt) s' s Hs' Hs) as (mid & Ht & Hn & Hz2 & Hz & Et).
  { destruct L5 as [[E Ht]|(-> & _ & Et)]; [left|right; by split]. split; [done|by apply takes_swap]. }
  assert (Hz' : zlen (replaceEOL mid (seq_eol (s_eol s))) + 1 < 2 ^ 31) by (rewrite <- Et; by apply sound_length).
  apply wp_bind. eapply wp_mono; [apply (wp_apply_changes F m (s_eol s') (s_eol s) _ _ mid _ _ _ Hm Ht Hn); [rewrite changes_room_swap; lia|done..]|].
  intros u m' Hu. cbv beta in Hu. apply wp_ret. rewrite <- Et in Hu. split; [|by eexists]. unfold SE.close. by rewrite Hb, Ha.
Qed.

Lemma wp_element_redo F m e dt s s' : e = mkElement true (Live dt) \/ e = mkElement true (Closed (SD.serialize dt)) -> data_ok dt -> leads dt s s' -> sound s -> sound s' ->
  models F m (seq_eol (s_eol s)) (s_text s) -> room (buffer_ m) + zlen (s_text s) + zlen (SE.bytes e) < max_buffer ->
  wp (SE.redo decode e) m (fun e' m' => e' = mkElement true (Closed (SD.serialize dt)) /\ exists r, undone F m (s_eol s') (s_text s') (s_version s') r m').
Proof.
  intros He Hd Hl Hs Hs' Hm Hroom. assert (Hb : SE.bytes e = SD.serialize dt /\ attached e = true) by (by destruct He as [-> | ->]). destruct Hb as [Hb Ha]. rewrite Hb in Hroom.
  unfold SE.redo. rewrite Ha, Hb. cbn [negb]. apply wp_bind, (wp_of_result _ (loaded dt)); [by apply serialized_ok|]. pose proof (bytes_room dt Hd). destruct Hl as [L1 L2 L3 L4 L5].
  cbn [loaded data_changes afterEOL afterVersionId]. rewrite L2, L4. unfold TM.applyRedo. destruct (path (data_changes dt) s s' Hs Hs') as (mid & Ht & Hn & Hz2 & Hz & Et).
  { destruct L5 as [[E Ht]|(-> & Et & _)]; [by left|by right]. }
  assert (Hz' : zlen (replaceEOL mid (seq_eol (s_eol s'))) + 1 < 2 ^ 31) by (rewrite <- Et; by apply sound_length).
  apply wp_bind. eapply wp_mono; [apply (wp_apply_changes F m (s_eol s) (s_eol s') _ _ mid _ _ _ Hm Ht Hn); [lia|done..]|].
  intros u m' Hu. cbv beta in Hu. apply wp_ret. rewrite <- Et in Hu. split; [|by eexists]. unfold SE.close. by rewrite Hb, Ha.
Qed.

End moves.
