(* ===== verification/History.v ===== *)
(** * The history of a text model

    The promise of the undo stack: a model with its stack of elements is a line of states with
    a place on it.  Edits put a new state after the current one and drop those that were
    after it; [undo] and [redo] move the place, and the model then has the text, the line
    ending and the version of that state; what is between two stops is one step. *)

From S2P Require Import Prelude Position TextRange Selection TextChange Length EolCounter Store RbTree RbInsert PtBuffer PtSpan Strings PieceTree PtState PtEdit PtSearch PtInsert PtDelete PtQuery PtLines PtRead PtBuild PtContent TextBuffer TextBuilder EditText EditPositions ApplyEdits UndoEdits TextModel EditStackData UndoRedo UndoEnds EditStack ModelEdits RawChanges Cuts ModelUndo PushEdits HistoryData.

#[local] Open Scope js_scope.
#[local] Arguments Z.eqb : simpl never.
#[local] Arguments Z.ltb : simpl never.
#[local] Arguments Z.leb : simpl never.
#[local] Arguments Z.add : simpl never.
#[local] Arguments Z.sub : simpl never.

(** ** The abstract history *)

(** The states before the current one and after it, the nearest first.  When the history is
    open, the next edit joins the step that led to the current state. *)
Record History : Type := mkHistory {
  earlier : list Snapshot;
  now : Snapshot;
  later : list Snapshot;
  is_open : bool }.

Module Hist.

Definition push (s : Snapshot) (h : History) : History :=
  mkHistory (if is_open h then earlier h else now h :: earlier h) s [] true.

Definition undo (h : History) : History :=
  match earlier h with [] => h | s :: l => mkHistory l s (now h :: later h) false end.

Definition redo (h : History) : History :=
  match later h with [] => h | s :: l => mkHistory (now h :: earlier h) s l false end.

Definition stop (h : History) : History := mkHistory (earlier h) (now h) (later h) false.

Definition reopen (h : History) : History :=
  match earlier h, later h with _ :: _, [] => mkHistory (earlier h) (now h) [] true | _, _ => h end.

End Hist.

(** All states of a history. *)
Definition states (h : History) : list Snapshot := now h :: earlier h ++ later h.

(** ** Commands *)

Inductive Command : Type :=
  | Edit (beforeCursorState : option (list Selection)) (edits : list ValidAnnotatedEditOperation)
      (cursorStateComputer : option (list IReverseSingleEditOperation -> result (option (list Selection))))
  | SetEOL (eol : EndOfLineSequence)
  | Stop
  | Reopen
  | Undo
  | Redo.

(** The methods of the model that they call. *)
Definition run (decode : list Z -> jsstr) (c : Command) : ED unit :=
  match c with
  | Edit before edits computer => _ ← TME.pushEditOperations before (ToValidate true <$> edits) computer (mkGroup 0 1); mret tt
  | SetEOL eol => TME.pushEOL eol
  | Stop => TME.pushStackElement
  | Reopen => TME.popStackElement decode
  | Undo => _ ← TME.undo decode; mret tt
  | Redo => _ ← TME.redo decode; mret tt
  end.

(** What they do to the history; [v] is the version after an edit. *)
Definition next (c : Command) (h : History) (v : Z) : History :=
  match c with
  | Edit _ edits _ => Hist.push (mkSnapshot (edited (seq_eol (s_eol (now h))) (s_text (now h)) edits) (s_eol (now h)) v) h
  | SetEOL eol => if bool_decide (eol = s_eol (now h)) then h else Hist.push (mkSnapshot (replaceEOL (s_text (now h)) (seq_eol eol)) eol v) h
  | Stop => Hist.stop h
  | Reopen => Hist.reopen h
  | Undo => Hist.undo h
  | Redo => Hist.redo h
  end.

(** ** The elements of a history *)

Abbreviation Element := (ResourceStackElement (E := SingleModelEditStackElement)).
Abbreviation Stack := (ResourceEditStack (E := SingleModelEditStackElement)).

Definition stack_of (ed : Editor) : Stack := default new_stack (JsMap.get (editStacks (undoRedoService ed)) (uri ed)).

(** An element with data that lead from one state to another; they are live in an open one. *)
Record link (open : bool) (x : Element) (s s' : Snapshot) : Prop := {
  lk_alone : alone x;
  lk_data : exists dt, actual x = mkElement true (if open then Live dt else Closed (SD.serialize dt)) /\ data_ok dt /\ leads dt s s' }.

(** The elements of the past lead from the states before to the current one, those of the
    future from it to the states after; the nearest come first. *)
Fixpoint back (open : bool) (s : Snapshot) (ss : list Snapshot) (xs : list Element) : Prop :=
  match ss, xs with
  | [], [] => open = false
  | s' :: ss, x :: xs => link open x s' s /\ back false s' ss xs
  | _, _ => False
  end.

Fixpoint forth (s : Snapshot) (ss : list Snapshot) (xs : list Element) : Prop :=
  match ss, xs with
  | [], [] => True
  | s' :: ss, x :: xs => link false x s s' /\ forth s' ss xs
  | _, _ => False
  end.

Record stacked (st : Stack) (h : History) : Prop := {
  sk_unlocked : locked st = false;
  sk_past : back (is_open h) (now h) (earlier h) (rev (past st));
  sk_future : forth (now h) (later h) (rev (future st));
  sk_open : is_open h = true -> later h = [] }.

(** Every state is sound, its version is not above that of the model, and states with the same
    version are the same. *)
Record distinct (top : Z) (l : list Snapshot) : Prop := {
  ds_sound : Forall sound l;
  ds_top : Forall (fun s => s_version s <= top) l;
  ds_same : forall s s', s ∈ l -> s' ∈ l -> s_version s = s_version s' -> s = s' }.

(** The editor is at the current state of the history. *)
Record tracks F (ed : Editor) (h : History) : Prop := {
  tr_models : models F (model_ ed) (seq_eol (s_eol (now h))) (s_text (now h));
  tr_version : alternativeVersionId_ (model_ ed) = s_version (now h);
  tr_lines : trimAutoWhitespaceLines_ (model_ ed) = None;
  tr_stack : stacked (stack_of ed) h;
  tr_distinct : distinct (model_versionId (model_ ed)) (states h) }.

(** What a command needs: edits that are possible, with room for them, numbers that fit, and
    no edits in the same step as another line ending. *)
Definition allowed (c : Command) (ed : Editor) (h : History) : Prop :=
  let d := s_text (now h) in
  let eol := seq_eol (s_eol (now h)) in
  match c with
  | Edit before edits computer =>
      Forall (pushable d) edits /\ ~ overlapping (raw_range <$> edits) /\ zlen edits < 2 ^ 32 /\
      room (buffer_ (model_ ed)) + zlen d + ops_room (validated_from eol d 0 edits) < max_buffer /\ 2 * zlen (edited eol d edits) < max_buffer /\
      model_versionId (model_ ed) + 1 < 2 ^ 32 /\ selections_ok before /\ (forall inverse, selections_ok (ES.computeCursorState computer inverse)) /\
      (is_open h = true -> s_eol (hd (now h) (earlier h)) = s_eol (now h))
  | SetEOL eol => eol <> s_eol (now h) -> is_open h = false /\ 2 * zlen (replaceEOL d (seq_eol eol)) < max_buffer /\ model_versionId (model_ ed) + 1 < 2 ^ 32
  | Undo => forall x, last (past (stack_of ed)) = Some x -> room (buffer_ (model_ ed)) + zlen d + zlen (SE.bytes (actual x)) < max_buffer
  | Redo => forall x, last (future (stack_of ed)) = Some x -> room (buffer_ (model_ ed)) + zlen d + zlen (SE.bytes (actual x)) < max_buffer
  | Stop | Reopen => True
  end.

(** ** Distinct states *)

Lemma distinct_subset top top' l l' : distinct top l -> top <= top' -> (forall s, s ∈ l' -> s ∈ l) -> distinct top' l'.
Proof.
  intros [H1 H2 H3] Ht Hl. rewrite Forall_forall in H1, H2. split; [| |by auto]; apply Forall_forall; intros s Hs; [by apply H1, Hl|]. specialize (H2 s (Hl s Hs)). cbv beta in *. lia.
Qed.

Lemma distinct_new top l s : distinct top l -> sound s -> s_version s = top + 1 -> distinct (top + 1) (s :: l).
Proof.
  intros [H1 H2 H3] Hs Hv. rewrite Forall_forall in H2. split.
  - by constructor.
  - constructor; [lia|]. apply Forall_forall. intros x Hx. specialize (H2 x Hx). cbv beta in *. lia.
  - intros x y [->|Hx]%elem_of_cons [->|Hy]%elem_of_cons E; [done| | |by apply H3]; [specialize (H2 y Hy)|specialize (H2 x Hx)]; cbv beta in *; lia.
Qed.

(** ** The nearest elements *)

Lemma back_end o s ss (xs : list Element) : back o s ss (rev xs) ->
  xs = [] /\ ss = [] /\ o = false \/ exists p x s' l, xs = p ++ [x] /\ ss = s' :: l /\ link o x s' s /\ back false s' l (rev p).
Proof.
  destruct xs as [|x p _] using rev_ind; [destruct ss as [|s' l]; [by left|done]|]. rewrite rev_app_distr. destruct ss as [|s' l]; [done|]. intros [Hx Hp]. right. by exists p, x, s', l.
Qed.

Lemma forth_end s ss (xs : list Element) : forth s ss (rev xs) ->
  xs = [] /\ ss = [] \/ exists f x s' l, xs = f ++ [x] /\ ss = s' :: l /\ link false x s s' /\ forth s' l (rev f).
Proof.
  destruct xs as [|x p _] using rev_ind; [destruct ss as [|s' l]; [by left|done]|]. rewrite rev_app_distr. destruct ss as [|s' l]; [done|]. intros [Hx Hp]. right. by exists p, x, s', l.
Qed.

Lemma link_actual o x s s' e dt : link o x s s' -> e = mkElement true (Closed (SD.serialize dt)) -> data_ok dt -> leads dt s s' -> link false (with_actual e x) s s'.
Proof. intros [[H1 H2 H3 H4] _] -> Hd Hl. split; [by split|]. by exists dt. Qed.

Lemma link_element o x s s' : link o x s s' -> exists dt, (actual x = mkElement true (Live dt) \/ actual x = mkElement true (Closed (SD.serialize dt))) /\ data_ok dt /\ leads dt s s'.
Proof. intros [_ (dt & Ha & Hd & Hl)]. exists dt. split; [|done]. destruct o; [by left|by right]. Qed.

(** ** The stack of the editor *)

Lemma wp_on_model {A} (p : M A) ed (Q : A -> Editor -> Prop) : wp p (model_ ed) (fun a m => Q a (with_model m ed)) -> wp (on_model p) ed Q.
Proof. unfold wp, on_model. by destruct (p (model_ ed)) as [[a m]|]. Qed.

Lemma with_model_id ed : with_model (model_ ed) ed = ed.
Proof. by destruct ed. Qed.

Lemma getLast_stack ed : getLastElement (uri ed) (undoRedoService ed) = if hasFutureElements (stack_of ed) then None else actual <$> last (past (stack_of ed)).
Proof. unfold getLastElement, stack_of. by destruct (JsMap.get (editStacks (undoRedoService ed)) (uri ed)) as [st|]. Qed.

(** The stack is there when it is not empty. *)
Lemma stack_there ed st : stack_of ed = st -> past st <> [] \/ future st <> [] -> JsMap.get (editStacks (undoRedoService ed)) (uri ed) = Some st.
Proof. unfold stack_of. destruct (JsMap.get (editStacks (undoRedoService ed)) (uri ed)) as [st'|]; simpl; intros <-; [done|]. by intros [H|H]. Qed.

Lemma set_last_stack ed p x a : past (stack_of ed) = p ++ [x] ->
  stack_of (with_service (set_last (uri ed) a (undoRedoService ed)) ed) =
  mkStack (p ++ [with_actual a x]) (future (stack_of ed)) (locked (stack_of ed)) (stack_versionId (stack_of ed)).
Proof.
  intros Hp. assert (Hg := stack_there ed (stack_of ed) eq_refl ltac:(left; rewrite Hp; by intros []%app_nil)). unfold set_last. rewrite Hg. unfold stack_of at 1. cbn [with_service undoRedoService uri].
  rewrite set_stack_get. cbn [default from_option id]. rewrite Hp, length_app. cbn [length List.length]. rewrite Nat.add_sub. f_equal. rewrite alter_app_r_alt by lia. by rewrite Nat.sub_diag.
Qed.

Lemma no_future st h : stacked st h -> later h = [] -> hasFutureElements st = false.
Proof.
  intros [_ _ Hf _] Hl. rewrite Hl in Hf. destruct (forth_end _ _ _ Hf) as [[E _]|(f & x & s & l & _ & E & _)]; [|done]. unfold hasFutureElements. by rewrite E.
Qed.

Lemma some_future st h s l : stacked st h -> later h = s :: l -> hasFutureElements st = true.
Proof.
  intros [_ _ Hf _] Hl. rewrite Hl in Hf. destruct (forth_end _ _ _ Hf) as [[_ E]|(f & x & s' & l' & E & _)]; [done|]. unfold hasFutureElements. rewrite E, zlen_app. change (zlen [x]) with 1. pose proof (zlen_nonneg f). lia.
Qed.

(** ** Stopping and going on *)

(** The editor is at the state that a command leads to; a new state has a new version. *)
Record moved F ed h ed' h' : Prop := {
  mv_tracks : tracks F ed' h';
  mv_top : model_versionId (model_ ed) <= model_versionId (model_ ed');
  mv_states : forall s, s ∈ states h' -> s ∈ states h \/ model_versionId (model_ ed) < s_version s }.

Lemma moved_refl F ed h : tracks F ed h -> moved F ed h ed h.
Proof. intros Ht. split; [done|lia|by left]. Qed.

Lemma moved_stack F ed h ed' h' : tracks F ed h -> model_ ed' = model_ ed -> now h' = now h -> stacked (stack_of ed') h' -> (forall s, s ∈ states h' -> s ∈ states h) -> moved F ed h ed' h'.
Proof.
  intros [H1 H2 H3 _ H5] Hm Hn Hs Hl. split; [|rewrite Hm; lia|intros s Hin; left; by apply Hl]. split; rewrite ?Hm, ?Hn; [done..|]. eapply distinct_subset; [exact H5|lia|exact Hl].
Qed.

Lemma wp_stop F ed h (Q : unit -> Editor -> Prop) : tracks F ed h -> (forall ed', moved F ed h ed' (Hist.stop h) -> Q tt ed') -> wp TME.pushStackElement ed Q.
Proof.
  intros Ht HQ. pose proof (tr_stack _ _ _ Ht) as Hk. pose proof Hk as [K1 K2 K3 K4]. unfold TME.pushStackElement, ES.pushStackElement, getLast. apply wp_bind, wp_gets. rewrite getLast_stack.
  assert (Hsame : is_open h = false -> moved F ed h ed (Hist.stop h)) by (intros Ho; replace (Hist.stop h) with h; [by apply moved_refl|]; destruct h; simpl in Ho; by subst).
  destruct (later h) as [|s l] eqn:El.
  2: { rewrite (some_future _ _ _ _ Hk El). apply wp_ret, HQ, Hsame. destruct (is_open h); [by specialize (K4 eq_refl)|done]. }
  rewrite (no_future _ _ Hk El). destruct (back_end _ _ _ _ K2) as [(Ep & _ & Ho)|(p & x & s' & l & Ep & Es & Hx & Hb)].
  - rewrite Ep. apply wp_ret, HQ, Hsame, Ho.
  - rewrite Ep, last_snoc. cbn [fmap option_fmap option_map]. apply wp_modify, HQ. eapply moved_stack; [exact Ht|done|done| |by intros s Hs].
    rewrite (set_last_stack ed p x _ Ep). split; cbn [Hist.stop locked past future is_open now earlier later]; [done| |by rewrite El|done].
    rewrite rev_app_distr, Es. split; [|exact Hb]. destruct Hx as [Ha (dt & E & Hd & Hl)]. apply (link_actual (is_open h) x s' (now h) _ dt); [split; [done|by exists dt]| |done|done].
    rewrite E. by destruct (is_open h).
Qed.

Section commands.
Context (decode : list Z -> jsstr).
Hypothesis decode_ok : forall t, well_formed t = true -> starts_with_bom t = false -> decode t = t.

Lemma wp_reopen F ed h (Q : unit -> Editor -> Prop) : tracks F ed h -> (forall ed', moved F ed h ed' (Hist.reopen h) -> Q tt ed') -> wp (TME.popStackElement decode) ed Q.
Proof.
  intros Ht HQ. pose proof (tr_stack _ _ _ Ht) as Hk. pose proof Hk as [K1 K2 K3 K4]. unfold TME.popStackElement, ES.popStackElement, getLast. apply wp_bind, wp_gets. rewrite getLast_stack. unfold Hist.reopen in HQ.
  destruct (later h) as [|s l] eqn:El.
  2: { rewrite (some_future _ _ _ _ Hk El). apply wp_ret, HQ. apply moved_refl in Ht. by destruct (earlier h). }
  rewrite (no_future _ _ Hk El). destruct (back_end _ _ _ _ K2) as [(Ep & Es & Ho)|(p & x & s' & l & Ep & Es & Hx & Hb)]; rewrite Es in HQ.
  - rewrite Ep. apply wp_ret, HQ, moved_refl, Ht.
  - rewrite Ep, last_snoc. cbn [fmap option_fmap option_map].
    assert (Hop : exists e dt, SE.open_ decode (actual x) = Ok e /\ e = mkElement true (Live dt) /\ data_ok dt /\ leads dt s' (now h)).
    { destruct Hx as [_ (dt & -> & Hd & Hl)]. unfold SE.open_. cbn [data_ attached]. destruct (is_open h); [by exists (mkElement true (Live dt)), dt|].
      rewrite (serialized_ok decode decode_ok dt Hd). cbn [result_bind]. exists (mkElement true (Live (loaded dt))), (loaded dt). pose proof (loaded_ok dt Hd) as [Hd' _]. split_and!; try done. by apply leads_loaded. }
    destruct Hop as (e & dt & -> & -> & Hd & Hl). apply wp_modify, HQ. rewrite <- Es. eapply moved_stack; [exact Ht|done|done| |].
    2: { intros s Hs. unfold states in *. cbn [now earlier later] in Hs. by rewrite El. }
    rewrite (set_last_stack ed p x _ Ep). split; cbn [locked past future is_open now earlier later]; [done| |exact K3|done].
    rewrite rev_app_distr, Es. split; [|exact Hb]. destruct Hx as [[A1 A2 A3 A4] _]. split; [by split|]. by exists dt.
Qed.

(** ** Undoing and redoing *)

Lemma wp_finish_nothing ed (Q : option Prompt -> Editor -> Prop) : Q None ed -> wp (TME.finish (Some (undoRedoService ed, Some (model_ ed), None))) ed Q.
Proof. intros HQ. unfold wp, TME.finish. destruct ed; exact HQ. Qed.

Lemma moved_undone F ed h s h' r m' u : tracks F ed h -> undone F (model_ ed) (s_eol s) (s_text s) (s_version s) r m' -> now h' = s -> (forall t, t ∈ states h' -> t ∈ states h) ->
  stacked (default new_stack (JsMap.get (editStacks u) (uri ed))) h' -> moved F ed h (with_model m' (with_service u ed)) h'.
Proof.
  intros Ht [U1 U2 U3 [_ U4 _]] <- Hl Hs. destruct Ht as [_ _ _ _ H5]. split; [|cbn [model_ with_model]; lia|intros t Hin; left; by apply Hl]. split; [exact U1|exact U2|exact U3|exact Hs|]. eapply distinct_subset; [exact H5|cbn [model_ with_model]; lia|exact Hl].
Qed.

Lemma wp_undo F ed h (Q : unit -> Editor -> Prop) : tracks F ed h -> allowed Undo ed h -> (forall ed', moved F ed h ed' (Hist.undo h) -> Q tt ed') -> wp (_ ← TME.undo decode; mret tt) ed Q.
Proof.
  intros Ht Hall HQ. pose proof Ht as [Hm _ _ Hk [Hso _ _]]. pose proof Hk as [K1 K2 K3 K4]. apply wp_bind. unfold TME.undo. apply wp_bind, wp_gets. change (id ed) with ed. unfold Hist.undo in HQ.
  destruct (back_end _ _ _ _ K2) as [(Ep & Es & _)|(p & x & s & l & Ep & Es & Hx & Hb)]; rewrite Es in HQ.
  - rewrite undo_nothing; [apply wp_finish_nothing, wp_ret, HQ, moved_refl, Ht|]. unfold stack_of in Ep. by destruct (JsMap.get _ _).
  - assert (Hroom : room (buffer_ (model_ ed)) + zlen (s_text (now h)) + zlen (SE.bytes (actual x)) < max_buffer) by (apply (Hall x); by rewrite Ep, last_snoc).
    assert (Hg := stack_there ed (stack_of ed) eq_refl ltac:(left; rewrite Ep; by intros []%app_nil)). destruct (stack_of ed) as [pst fut lk v]. cbn [past future locked] in *. subst pst lk.
    destruct (link_element _ _ _ _ Hx) as (dt & He & Hd & Hl). assert (Hs : sound s /\ sound (now h)). { rewrite Forall_forall in Hso. split; apply Hso; unfold states; rewrite Es; [right; left|left]. }
    pose proof (wp_element_undo decode decode_ok F (model_ ed) (actual x) dt s (now h) He Hd Hl (proj1 Hs) (proj2 Hs) Hm Hroom) as Hw. apply wp_run in Hw as (e & m' & Er & -> & r & Hu).
    destruct (undo_alone (SE.called (SE.undo decode)) (uri ed) (undoRedoService ed) (Some (model_ ed)) p x fut v (mkElement true (Closed (SD.serialize dt))) (Some m') Hg (lk_alone _ _ _ _ Hx)) as (u & -> & Hgu & _); [unfold SE.called; by rewrite Er|].
    cbn [TME.finish]. unfold wp at 1. cbn [TME.finish]. apply HQ. eapply moved_undone; [exact Ht|exact Hu|done| |].
    + intros t Hin. unfold states in *. cbn [now earlier later] in Hin. rewrite Es. set_solver.
    + rewrite Hgu. split; cbn [locked past future is_open now earlier later default from_option id]; [done|exact Hb| |done]. rewrite rev_app_distr. split; [|exact K3]. by apply (link_actual (is_open h) x s (now h) _ dt).
Qed.

Lemma wp_redo F ed h (Q : unit -> Editor -> Prop) : tracks F ed h -> allowed Redo ed h -> (forall ed', moved F ed h ed' (Hist.redo h) -> Q tt ed') -> wp (_ ← TME.redo decode; mret tt) ed Q.
Proof.
  intros Ht Hall HQ. pose proof Ht as [Hm _ _ Hk [Hso _ _]]. pose proof Hk as [K1 K2 K3 K4]. apply wp_bind. unfold TME.redo. apply wp_bind, wp_gets. change (id ed) with ed. unfold Hist.redo in HQ.
  destruct (forth_end _ _ _ K3) as [(Ep & Es)|(f & x & s & l & Ep & Es & Hx & Hb)]; rewrite Es in HQ.
  - rewrite redo_nothing; [apply wp_finish_nothing, wp_ret, HQ, moved_refl, Ht|]. unfold stack_of in Ep. by destruct (JsMap.get _ _).
  - assert (Hroom : room (buffer_ (model_ ed)) + zlen (s_text (now h)) + zlen (SE.bytes (actual x)) < max_buffer) by (apply (Hall x); by rewrite Ep, last_snoc).
    assert (Ho : is_open h = false) by (destruct (is_open h); [by rewrite (K4 eq_refl) in Es|done]). rewrite Ho in K2.
    assert (Hg := stack_there ed (stack_of ed) eq_refl ltac:(right; rewrite Ep; by intros []%app_nil)). destruct (stack_of ed) as [pst fut lk v]. cbn [past future locked] in *. subst fut lk.
    destruct (link_element _ _ _ _ Hx) as (dt & He & Hd & Hl). assert (Hs : sound (now h) /\ sound s). { rewrite Forall_forall in Hso. split; apply Hso; unfold states; rewrite Es; [left|right]. apply elem_of_app. right. left. }
    pose proof (wp_element_redo decode decode_ok F (model_ ed) (actual x) dt (now h) s He Hd Hl (proj1 Hs) (proj2 Hs) Hm Hroom) as Hw. apply wp_run in Hw as (e & m' & Er & -> & r & Hu).
    destruct (redo_alone (SE.called (SE.redo decode)) (uri ed) (undoRedoService ed) (Some (model_ ed)) pst x f v (mkElement true (Closed (SD.serialize dt))) (Some m') Hg (lk_alone _ _ _ _ Hx)) as (u & -> & Hgu & _); [unfold SE.called; by rewrite Er|].
    unfold wp at 1. cbn [TME.finish]. apply HQ. eapply moved_undone; [exact Ht|exact Hu|done| |].
    + intros t Hin. unfold states in *. cbn [now earlier later] in Hin. rewrite Es. set_solver.
    + rewrite Hgu. split; cbn [locked past future is_open now earlier later default from_option id]; [done| |exact Hb|done]. rewrite rev_app_distr. split; [|exact K2]. by apply (link_actual false x (now h) s _ dt).
Qed.

(** ** Pushing *)

(** The stack with its last element, live, that leads from [s]; [l] are the states before. *)
Record ready h ed (x : Element) p v (dt : SingleModelEditStackData) s l : Prop := {
  rd_stack : stack_of ed = mkStack (p ++ [x]) [] false v;
  rd_alone : alone x;
  rd_actual : actual x = mkElement true (Live dt);
  rd_data : data_ok dt /\ leads dt s (now h);
  rd_states : s :: l = if is_open h then earlier h else now h :: earlier h;
  rd_back : back false s l (rev p) }.

Lemma wp_getModelEOL F m seq d (Q : EndOfLineSequence -> TextModel -> Prop) : models F m (seq_eol seq) d -> Q seq m -> wp getModelEOL m Q.
Proof.
  intros Hm HQ. unfold getModelEOL, TM.getEOL. apply wp_bind, wp_bind, (wp_assert F m _ d Hm), (wp_model_EOL F m _ d Hm), wp_ret. by destruct seq.
Qed.

Lemma wp_alternative F m eol d (Q : Z -> TextModel -> Prop) : models F m eol d -> Q (alternativeVersionId_ m) m -> wp TM.getAlternativeVersionId m Q.
Proof. intros Hm HQ. unfold TM.getAlternativeVersionId. by apply wp_bind, (wp_assert F m _ d Hm), wp_gets. Qed.

Lemma wp_new_element F ed h cursor (Q : SingleModelEditStackElement -> TextModel -> Prop) : tracks F ed h ->
  Q (mkElement true (Live (fresh_data (now h) cursor))) (model_ ed) -> wp (SE.new cursor) (model_ ed) Q.
Proof.
  intros [Hm Hv _ _ _] HQ. unfold SE.new, SD.create. apply wp_bind, wp_bind, (wp_alternative F _ _ _ _ Hm), wp_bind, (wp_getModelEOL F _ _ _ _ Hm), wp_ret, wp_ret. by rewrite Hv.
Qed.

Lemma wp_getOrCreate F ed h cursor (Q : SingleModelEditStackElement * UndoRedoGroup -> Editor -> Prop) : tracks F ed h -> selections_ok cursor ->
  (forall ed' x p v dt s l, ready h ed' x p v dt s l -> model_ ed' = model_ ed -> uri ed' = uri ed -> (is_open h = false -> dt = fresh_data (now h) cursor /\ s = now h) ->
    Q (mkElement true (Live dt), mkGroup 0 1) ed') ->
  wp (ES.getOrCreateEditStackElement cursor (mkGroup 0 1)) ed Q.
Proof.
  intros Ht Hc HQ. pose proof Ht as [Hm _ _ Hk [Hso _ _]]. pose proof Hk as [K1 K2 K3 K4]. unfold ES.getOrCreateEditStackElement, getLast. apply wp_bind, wp_gets. rewrite getLast_stack.
  destruct (is_open h) eqn:Ho.
  - rewrite (no_future _ _ Hk (K4 eq_refl)). destruct (back_end _ _ _ _ K2) as [(_ & _ & E)|(p & x & s & l & Ep & Es & Hx & Hb)]; [done|]. rewrite Ep, last_snoc. cbn [fmap option_fmap option_map].
    destruct Hx as [Ha (dt & E & Hd & Hl)]. rewrite E. apply wp_ret. apply (HQ ed x p (stack_versionId (stack_of ed)) dt s l); [|done|done|done]. split; [|done|exact E|done|by rewrite Ho|exact Hb].
    rewrite (K4 eq_refl) in K3. destruct (forth_end _ _ _ K3) as [[Ef _]|(f & y & s' & l' & _ & E' & _)]; [|done]. destruct (stack_of ed) as [pst fut lk v]. cbn [past future locked stack_versionId] in *. by subst.
  - assert (Hno : (e ← (if hasFutureElements (stack_of ed) then None else actual <$> last (past (stack_of ed))); if SE.canAppend e then Some e else None) = None).
    { destruct (hasFutureElements (stack_of ed)); [done|]. destruct (back_end _ _ _ _ K2) as [(Ep & _ & _)|(p & x & s & l & Ep & _ & [_ (dt & E & _)] & _)]; [by rewrite Ep|]. rewrite Ep, last_snoc. cbn [fmap option_fmap option_map]. by rewrite E. }
    rewrite Hno. apply wp_bind, wp_on_model, (wp_new_element F ed h cursor _ Ht). apply wp_bind, wp_gets. change (id (with_model (model_ ed) ed)) with (with_model (model_ ed) ed). rewrite with_model_id.
    cbn [pushElement nextOrder group_id Z.eqb]. change (0 =? 0) with true. cbv iota beta zeta. apply wp_bind, wp_modify, wp_ret.
    destruct (fresh_ok (now h) cursor) as [Hd Hl]; [rewrite Forall_forall in Hso; apply Hso; left|done|]. set (x := mkStackElement _ _ _ _ _ _ _ _).
    apply (HQ _ x (past (stack_of ed)) (stack_versionId (stack_of ed) + 1) (fresh_data (now h) cursor) (now h) (earlier h)); [|done|done|done].
    split; [|done|done|done|by rewrite Ho|exact K2]. unfold stack_of at 1. cbn [with_service undoRedoService uri]. rewrite set_stack_get. cbn [default from_option id editStacks]. fold (stack_of ed). unfold push_on. by rewrite K1.
Qed.

Lemma wp_append_to F h ed x p v dt s l s2 changes cursor (Q : unit -> Editor -> Prop) : ready h ed x p v dt s l ->
  models F (model_ ed) (seq_eol (s_eol s2)) (s_text s2) -> alternativeVersionId_ (model_ ed) = s_version s2 ->
  (let dt' := SD.append dt changes (s_eol s2) (s_version s2) cursor in data_ok dt' /\ leads dt' s s2) ->
  (forall ed', model_ ed' = model_ ed -> stacked (stack_of ed') (Hist.push s2 h) -> Q tt ed') ->
  wp (ES.append_to (mkElement true (Live dt)) changes cursor) ed Q.
Proof.
  intros [R1 [A1 A2 A3 A4] R3 _ R5 R6] Hm Hv [Hd Hl] HQ. unfold ES.append_to. apply wp_bind, wp_on_model, (wp_getModelEOL F _ _ _ _ Hm), wp_bind, wp_on_model, (wp_alternative F _ _ _ _ Hm), wp_modify. rewrite !with_model_id.
  apply HQ; [done|]. rewrite (set_last_stack ed p x) by (by rewrite R1). rewrite R1, Hv. split; cbn [Hist.push locked past future is_open now earlier later]; [done| |done|done].
  rewrite <- R5, rev_app_distr. split; [|exact R6]. split; [by split|]. by eexists.
Qed.

(** The states before an element that is made or goes on. *)
Lemma ready_sound top h ed x p v dt s l : ready h ed x p v dt s l -> distinct top (states h) -> sound s /\ sound (now h) /\ (forall t, t ∈ s :: l -> t ∈ states h).
Proof.
  intros [_ _ _ _ R _] [Hso _ _]. rewrite Forall_forall in Hso. assert (Hin : forall t, t ∈ s :: l -> t ∈ states h) by (rewrite R; unfold states; destruct (is_open h); set_solver).
  split; [apply Hso, Hin; left|]. split; [apply Hso; left|done].
Qed.

(** A new state with the next version. *)
Record arrived F ed s2 : Prop := {
  ar_models : models F (model_ ed) (seq_eol (s_eol s2)) (s_text s2);
  ar_version : alternativeVersionId_ (model_ ed) = s_version s2;
  ar_lines : trimAutoWhitespaceLines_ (model_ ed) = None }.

Lemma moved_new F ed h ed' s2 : distinct (model_versionId (model_ ed)) (states h) -> sound s2 -> model_versionId (model_ ed') = model_versionId (model_ ed) + 1 -> s_version s2 = model_versionId (model_ ed) + 1 ->
  arrived F ed' s2 -> stacked (stack_of ed') (Hist.push s2 h) -> (forall t, t ∈ states (Hist.push s2 h) -> t = s2 \/ t ∈ states h) -> moved F ed h ed' (Hist.push s2 h).
Proof.
  intros Hd Hs Ht Hv [A1 A2 A3] Hst Hsub. split; [|lia|intros t [-> |Hi]%Hsub; [right; lia|by left]]. split; [done..|]. rewrite Ht.
  apply (distinct_subset (model_versionId (model_ ed) + 1) _ (s2 :: states h)); [by apply distinct_new|lia|]. intros t [-> |Hi]%Hsub; [left|by right].
Qed.

Lemma wp_pushEdit F ed h before edits computer (Q : unit -> Editor -> Prop) : tracks F ed h -> allowed (Edit before edits computer) ed h ->
  (forall ed', moved F ed h ed' (next (Edit before edits computer) h (alternativeVersionId_ (model_ ed'))) -> Q tt ed') ->
  wp (run decode (Edit before edits computer)) ed Q.
Proof.
  intros Ht (P1 & P2 & P3 & P4 & P5 & P6 & P7 & P8 & P9) HQ. pose proof Ht as [Hm Hv Htrim Hk Hdis]. cbn [run]. apply wp_bind. unfold TME.pushEditOperations.
  assert (Hes : Forall2 (edit_as (s_text (now h))) (ToValidate true <$> edits) edits).
  { clear - P1. induction P1 as [|raw raws [Hr H1 H2 _ _ _] Hrs IH]; [constructor|]. rewrite fmap_cons. constructor; [|exact IH]. destruct (range_offset (s_text (now h)) (raw_range raw)) as [E1 E2]. rewrite E1 in H1. rewrite E2 in H2.
    split; [done|]. unfold after_high, end_high. by rewrite H1, H2, !andb_false_r. }
  assert (Hr : Forall (fun raw => model_range (s_text (now h)) (raw_range raw)) edits) by (eapply Forall_impl; [exact P1|]; intros raw Hraw; apply Hraw).
  apply wp_bind, wp_on_model. eapply wp_mono; [by apply (wp_validate_edits F _ _ _ _ edits Hm Hr Hes)|]. intros ops m1 [-> ->]. rewrite with_model_id. apply wp_bind, wp_on_model. unfold TME.with_trimmed.
  apply wp_bind, wp_gets, wp_bind, wp_gets. rewrite Htrim. apply wp_ret. rewrite with_model_id. apply wp_bind. unfold TME.ensure_snapshot. apply wp_modify. set (ed1 := match _ with Some _ => _ | None => _ end).
  assert (Ht1 : tracks F ed1 h) by (unfold ed1; by destruct (initialUndoRedoSnapshot ed)). assert (E1 : model_ ed1 = model_ ed) by (unfold ed1; by destruct (initialUndoRedoSnapshot ed)). clearbody ed1.
  unfold ES.pushEditOperation. apply wp_bind, (wp_getOrCreate F ed1 h before _ Ht1 P7). intros ed2 x p v dt s l Hrd E2 _ Hnew. apply wp_bind, wp_on_model. rewrite E2, E1. pose proof (sound_length (now h)) as Hlen.
  destruct (ready_sound _ _ _ _ _ _ _ _ _ Hrd Hdis) as (Hs & Hs1 & Hin).
  eapply wp_mono; [apply (wp_push F (model_ ed) (s_eol (now h)) (s_text (now h)) edits Hm (so_clean _ Hs1) P1 P2 P4); unfold max_buffer in P5; pose proof (zlen_nonneg (edited (seq_eol (s_eol (now h))) (s_text (now h)) edits)); lia|].
  intros r m' (rs & -> & [D1 D2 D3 D4 [_ D6] D7]). set (s2 := mkSnapshot (edited (seq_eol (s_eol (now h))) (s_text (now h)) edits) (s_eol (now h)) (alternativeVersionId_ m')).
  destruct (Forall_cons_1 _ _ _ (ds_sound _ _ Hdis)) as [_ _]. pose proof (so_version _ Hs1) as Hver. assert (Htop : s_version (now h) <= model_versionId (model_ ed)) by (pose proof (ds_top _ _ Hdis) as Hf; unfold states in Hf; by apply Forall_cons in Hf as [Hf _]).
  assert (Hs2 : sound s2). { split; [exact D2|exact P5|]. cbn [s2 s_version]. destruct D7 as [(_ & -> & _)|[E7 ->]]; [by rewrite Hv|]. unfold is_uint32 in *. lia. }
  assert (Heol : s_eol s = s_eol (now h)). { destruct Hrd as [_ _ _ _ R5 _]. destruct (is_open h); [specialize (P9 eq_refl); by rewrite <- R5 in P9|]. injection R5 as -> _. done. }
  cbv zeta. apply wp_bind. destruct (rd_data _ _ _ _ _ _ _ _ Hrd) as [Hd Hl].
  eapply (wp_append_to F h (with_model m' ed2) x p v dt s l s2); [by destruct Hrd; split|exact D1|done|apply (append_ok dt s (now h) s2); try done; lia|].
  intros ed3 E3 Hst. apply wp_ret, wp_ret, HQ. cbn [next]. rewrite E3. cbn [model_ with_model]. fold s2.
  assert (Hsub : forall t, t ∈ states (Hist.push s2 h) -> t = s2 \/ t ∈ states h).
  { intros t. unfold states at 1. cbn [Hist.push now earlier later]. rewrite app_nil_r, <- (rd_states _ _ _ _ _ _ _ _ Hrd). intros [->|Hi]%elem_of_cons; [by left|right; by apply Hin]. }
  destruct D7 as [(E7 & E8 & E9)|[E7 E8]].
  - assert (Es2 : s2 = now h) by (unfold s2; rewrite E8, E9, Hv; by destruct (now h)). assert (Hall : forall t, t ∈ states (Hist.push s2 h) -> t ∈ states h) by (intros t [-> |Hi]%Hsub; [rewrite Es2; left|done]).
    split; [split; rewrite ?E3; [exact D1|done|exact D6|exact Hst|]|rewrite E3; cbn [model_ with_model]; lia|intros t Hi; left; by apply Hall]. apply (distinct_subset (model_versionId (model_ ed)) _ (states h)); [exact Hdis|cbn [model_ with_model]; lia|exact Hall].
  - apply moved_new; [done|done|by rewrite E3|by rewrite <- E7, <- E8|split; rewrite ?E3; [exact D1|done|exact D6]|exact Hst|exact Hsub].
Qed.

Lemma wp_pushEOL F ed h eol (Q : unit -> Editor -> Prop) : tracks F ed h -> allowed (SetEOL eol) ed h ->
  (forall ed', moved F ed h ed' (next (SetEOL eol) h (alternativeVersionId_ (model_ ed'))) -> Q tt ed') -> wp (TME.pushEOL eol) ed Q.
Proof.
  intros Ht Hall HQ. pose proof Ht as [Hm Hv Htrim Hk Hdis]. unfold TME.pushEOL. apply wp_bind, wp_on_model, (wp_getModelEOL F _ _ _ _ Hm). rewrite with_model_id. cbn [next] in HQ.
  destruct (decide (eol = s_eol (now h))) as [->|Hne].
  { rewrite bool_decide_eq_true_2 in HQ by done. assert (Hw : wp (mret tt) ed Q) by (by apply wp_ret, HQ, moved_refl). by destruct (s_eol (now h)). }
  rewrite bool_decide_eq_false_2 in HQ by done. destruct (Hall Hne) as (Ho & Hz & Hvv). assert (Hw : wp (TME.ensure_snapshot;; ES.pushEOL eol) ed Q); [|clear - Hne Hw; by destruct (s_eol (now h)), eol].
  apply wp_bind. unfold TME.ensure_snapshot. apply wp_modify. set (ed1 := match _ with Some _ => _ | None => _ end).
  assert (Ht1 : tracks F ed1 h) by (unfold ed1; by destruct (initialUndoRedoSnapshot ed)). assert (E1 : model_ ed1 = model_ ed) by (unfold ed1; by destruct (initialUndoRedoSnapshot ed)). clearbody ed1.
  unfold ES.pushEOL. apply wp_bind, (wp_getOrCreate F ed1 h None _ Ht1 no_selections). intros ed2 x p v dt s l Hrd E2 _ Hnew. destruct (Hnew Ho) as [-> ->]. apply wp_bind, wp_on_model. rewrite E2, E1.
  destruct (ready_sound _ _ _ _ _ _ _ _ _ Hrd Hdis) as (_ & Hs1 & Hin). pose proof (so_clean _ Hs1) as [C1 C2 C3]. assert (Hbl : 2 * zlen (s_text (now h)) < max_buffer) by apply Hs1.
  eapply wp_mono; [apply (wp_model_setEOL F (model_ ed) _ (s_text (now h)) eol Hm Hbl (room_nonneg _)); by apply sound_other|]. intros [] m' (D1 & _ & D3 & _ & _ & D6).
  rewrite bool_decide_eq_false_2 in D6 by (intros E; apply Hne; symmetry; by apply seq_eol_inj). destruct D6 as [D6 D7].
  assert (Htop : 0 <= s_version (now h) <= model_versionId (model_ ed)) by (pose proof (ds_top _ _ Hdis) as Hf; unfold states in Hf; apply Forall_cons in Hf as [Hf _]; pose proof (so_version _ Hs1) as [? ?]; lia).
  set (s2 := mkSnapshot (replaceEOL (s_text (now h)) (seq_eol eol)) eol (alternativeVersionId_ m')).
  assert (Hs2 : sound s2). { split; [split; [apply replaceEOL_idem, seq_eol_ok|apply wf_replaceEOL; [apply seq_eol_ok|done]|apply units_replaceEOL; [apply seq_eol_units|done]]|exact Hz|]. cbn [s2 s_version]. unfold is_uint32. lia. }
  eapply (wp_append_to F h (with_model m' ed2) x p v _ (now h) l s2); [by destruct Hrd; split|exact D1|done|apply append_eol_ok; [done|done|done|by cbn [s2 s_text s_eol]; rewrite replaceEOL_there_back]|].
  intros ed3 E3 Hst. apply HQ. rewrite E3. cbn [model_ with_model]. fold s2. apply moved_new; [done|done|by rewrite E3|done|split; rewrite ?E3; [exact D1|done|by rewrite <- Htrim]|exact Hst|].
  intros t. unfold states at 1. cbn [Hist.push now earlier later]. rewrite app_nil_r, <- (rd_states _ _ _ _ _ _ _ _ Hrd). intros [->|Hi]%elem_of_cons; [by left|right; by apply Hin].
Qed.

Lemma wp_command F ed h c : tracks F ed h -> allowed c ed h ->
  wp (run decode c) ed (fun _ ed' => moved F ed h ed' (next c h (alternativeVersionId_ (model_ ed')))).
Proof.
  intros Ht Hall. destruct c as [before edits computer|eol| | | |]; cbn [run].
  - by apply (wp_pushEdit F ed h before edits computer).
  - by apply (wp_pushEOL F ed h eol).
  - by apply (wp_stop F ed h).
  - by apply (wp_reopen F ed h).
  - by apply (wp_undo F ed h).
  - by apply (wp_redo F ed h).
Qed.

(** ** Sessions *)

(** The editor after commands, each of which is possible where it is given. *)
Inductive session : list Command -> Editor -> History -> Editor -> History -> Prop :=
  | session_start ed h : session [] ed h ed h
  | session_step c cs ed h ed1 ed' h' : allowed c ed h -> run decode c ed = Ok (tt, ed1) -> session cs ed1 (next c h (alternativeVersionId_ (model_ ed1))) ed' h' ->
      session (c :: cs) ed h ed' h'.

Lemma moved_trans F ed h ed1 h1 ed' h' : moved F ed h ed1 h1 -> moved F ed1 h1 ed' h' -> moved F ed h ed' h'.
Proof.
  intros [_ T1 S1] [H2 T2 S2]. split; [done|lia|]. intros s [Hs|Hs]%S2; [by apply S1|right; lia].
Qed.

Lemma session_moved F cs ed h ed' h' : session cs ed h ed' h' -> tracks F ed h -> moved F ed h ed' h'.
Proof.
  induction 1 as [|c cs ed h ed1 ed' h' Hall Hr Hs IH]; intros Ht; [by apply moved_refl|]. pose proof (wp_command F ed h c Ht Hall) as Hw. unfold wp in Hw. rewrite Hr in Hw.
  eapply moved_trans; [exact Hw|]. apply IH, Hw.
Qed.

End commands.

(** C5: Undo and redo walk the history.  A text model with its undo stack refines a line of
    states with a place on it: none of the methods that push edits or another line ending, put
    a stop, take it back, undo or redo throws when its command is possible, and each does to
    the model what the command does to the line.  An edit puts the state with all edits made
    after the current one, or in its place while no stop was put, and drops the states that
    could be redone; [undo] and [redo] bring back the text, the line ending and the alternative
    version of the state before and after, through the bytes that the elements were turned
    into, and do nothing at the ends of the line. *)
Theorem history_refines decode F ed h c : (forall t, well_formed t = true -> starts_with_bom t = false -> decode t = t) ->
  tracks F ed h -> allowed c ed h ->
  wp (run decode c) ed (fun _ ed' => tracks F ed' (next c h (alternativeVersionId_ (model_ ed')))).
Proof.
  intros Hdec Ht Hall. eapply wp_mono; [by apply (wp_command decode Hdec F ed h c)|]. intros u ed' Hm. apply Hm.
Qed.


(** ** A sample *)

Definition editor_of (d : list Z) : Editor :=
  mkEditor (sample_model (match PT.insert 0 d true empty_tree with Ok (_, s) => s | Throw _ => empty_tree end)) (mkService [] 0) [47] None.

(** The editor after commands, which is where it was when one throws. *)
Definition after_runs (cs : list Command) (ed : Editor) : Editor :=
  foldl (fun ed c => match run utf16_decode c ed with Ok (_, ed) => ed | Throw _ => ed end) ed cs.

Definition lines_of (ed : Editor) : list (list Z) := match TM.getLinesContent (model_ ed) with Ok (l, _) => l | Throw _ => [] end.

Definition start_history : History := mkHistory [] (mkSnapshot sample_text SeqLF 1) [] false.

Lemma start_tracks : tracks ∅ (editor_of sample_text) start_history.
Proof.
  destruct sample_holds as (s & E & Hb & _). unfold editor_of. rewrite E. split; [|done|done| |].
  - split; [exact Hb|]. split; [done|]. by vm_compute.
  - by split.
  - split; [|by repeat constructor|].
    + constructor; [|constructor]. split; [split; [done|done|]|done|unfold is_uint32; cbn; lia]. unfold start_history, sample_text. cbn [now s_text]. repeat constructor; unfold code_unit; lia.
    + intros s1 s2 ->%list_elem_of_singleton ->%list_elem_of_singleton. done.
Qed.

Lemma sample_pushable : Forall (pushable sample_text) sample_edits.
Proof.
  pose proof sample_ranges as Hr. apply Forall_cons in Hr as [H1 Hr]. apply Forall_cons in Hr as [H2 _].
  constructor; [|constructor; [|constructor]]; (split; [assumption|done|done|done| |done]); cbn; repeat constructor; unfold code_unit; lia.
Qed.

Lemma sample_allowed : allowed (Edit None sample_edits None) (editor_of sample_text) start_history.
Proof.
  destruct sample_holds as (s & E & _ & Hroom). split; [exact sample_pushable|]. split; [exact sample_apart|]. split; [done|]. cbn [start_history now s_text s_eol seq_eol].
  split; [unfold editor_of; rewrite E, <- Z.add_assoc, sample_room; unfold max_buffer; cbn [model_ sample_model buffer_]; lia|]. split; [by vm_compute|]. split; [done|]. split; [exact no_selections|]. split; [intros inverse; exact no_selections|]. done.
Qed.

Lemma history_refines_witness : exists ed, run utf16_decode (Edit None sample_edits None) (editor_of sample_text) = Ok (tt, ed) /\
  lines_of ed = [[120]; [121]; [98; 122]] /\
  tracks ∅ ed (mkHistory [mkSnapshot sample_text SeqLF 1] (mkSnapshot [120; 10; 121; 10; 98; 122] SeqLF 2) [] true).
Proof.
  pose proof (history_refines utf16_decode ∅ (editor_of sample_text) start_history (Edit None sample_edits None) utf16_decode_ok start_tracks sample_allowed) as Hw.
  apply wp_run in Hw as ([] & ed & Er & Ht). exists ed. split; [exact Er|]. assert (Ed : ed = after_runs [Edit None sample_edits None] (editor_of sample_text)) by (unfold after_runs; cbn [foldl]; by rewrite Er).
  split; [rewrite Ed; by vm_compute|]. assert (Ev : alternativeVersionId_ (model_ ed) = 2) by (rewrite Ed; by vm_compute). rewrite Ev in Ht. exact Ht.
Defined.


(** Edits and another line ending in one step.  When [pushEOL] and [pushEditOperations]
    follow each other without a stop, the offsets of the changes are those of the text with one
    line ending, and they are used on the text with the other one.  Redoing puts the [x] of
    the edit behind the [c] when the line ending came first; undoing does not take it away, and
    redoing puts in another, when it came last. *)
Theorem mixed_step_lost :
  let x := Edit None [mkRawEdit None (mkRange 3 1 3 1) (Some [120]) false false false] None in
  let lines cs := lines_of (after_runs cs (editor_of [97; 10; 98; 10; 99])) in
  lines [SetEOL SeqCRLF; x] = [[97]; [98]; [120; 99]] /\ lines [SetEOL SeqCRLF; x; Undo; Redo] = [[97]; [98]; [99; 120]] /\
  lines [x; SetEOL SeqCRLF; Undo] = [[97]; [98]; [120; 99]] /\ lines [x; SetEOL SeqCRLF; Undo; Redo] = [[97]; [98]; [120; 120; 99]] /\
  lines [SetEOL SeqCRLF; Stop; x; Undo; Undo; Redo; Redo] = [[97]; [98]; [120; 99]].
Proof. vm_compute. by split_and!. Qed.
