(* ===== verification/Mirror.v ===== *)
(** * Mirrored text models

    [MirrorTextModel] of [src/src/vs/editor/common/model/mirrorTextModel.ts], the copy of a
    text model that a worker or an extension host keeps: an array of lines that follows the
    events of the model, with the prefix sums of their lengths, made when they are first
    needed; [MirrorModel] of [src/src/vs/editor/common/services/editorSimpleWorker.ts], its
    positions and offsets.  The URI is left out. *)

From S2P Require Import Prelude Position TextRange PrefixSum TextChange Length EolCounter Store RbTree RbInsert PtBuffer PtSpan Strings PieceTree PtState PtEdit PtSearch PtInsert PtDelete PtQuery PtLines PtRead PtBuild PtContent TextBuffer TextBuilder EditText EditPositions ApplyEdits.

#[local] Open Scope js_scope.
#[local] Arguments Z.eqb : simpl never.
#[local] Arguments Z.ltb : simpl never.
#[local] Arguments Z.leb : simpl never.
#[local] Arguments Z.add : simpl never.
#[local] Arguments Z.sub : simpl never.

(** [lines.join(sep)] *)
Fixpoint js_join (sep : list Z) (lines : list (list Z)) : list Z :=
  match lines with
  | [] => []
  | [l] => l
  | l :: rest => l ++ sep ++ js_join sep rest
  end.

Record IModelChangedEvent : Type := mkEvent {
  changes_ : list IInternalModelContentChange;
  event_eol : list Z;
  event_versionId : Z }.

Record MirrorTextModel : Type := mkMirror {
  lines_ : list (list Z);
  eol_ : list Z;
  versionId_ : Z;
  lineStarts_ : option PSC.PrefixSumComputer;
  cachedTextValue_ : option (list Z) }.

(** [this._lines[i]], of which a property is read. *)
Definition line_at (this : MirrorTextModel) (i : Z) : result (list Z) :=
  match (lines_ this).[i] with Some l => Ok l | None => Throw TypeError end.

(** [s.substring(a)] *)
Definition substring_from (s : list Z) (a : Z) : list Z := substring s a (zlen s).

Module MTM.

Definition new (lines : list (list Z)) (eol : list Z) (versionId : Z) : MirrorTextModel :=
  mkMirror lines eol versionId None None.

Definition dispose (this : MirrorTextModel) : MirrorTextModel :=
  mkMirror [] (eol_ this) (versionId_ this) (lineStarts_ this) (cachedTextValue_ this).

Definition version (this : MirrorTextModel) : Z := versionId_ this.

Definition getText (this : MirrorTextModel) : list Z * MirrorTextModel :=
  match cachedTextValue_ this with
  | Some t => (t, this)
  | None => let t := js_join (eol_ this) (lines_ this) in
      (t, mkMirror (lines_ this) (eol_ this) (versionId_ this) (lineStarts_ this) (Some t))
  end.

Definition ensureLineStarts (this : MirrorTextModel) : MirrorTextModel :=
  match lineStarts_ this with
  | Some _ => this
  | None =>
      let lineStartValues := (fun l => to_uint32w (zlen l + zlen (eol_ this))) <$> lines_ this in
      mkMirror (lines_ this) (eol_ this) (versionId_ this) (Some (PSC.new_PrefixSumComputer lineStartValues)) (cachedTextValue_ this)
  end.

Definition with_lines (lines : list (list Z)) (starts : option PSC.PrefixSumComputer) (this : MirrorTextModel) : MirrorTextModel :=
  mkMirror lines (eol_ this) (versionId_ this) starts (cachedTextValue_ this).

(** The index is that of a line that was read. *)
Definition setLineText (this : MirrorTextModel) (lineIndex : Z) (newValue : list Z) : MirrorTextModel :=
  let lines := set_at (lines_ this) lineIndex newValue in
  with_lines lines
    (match lineStarts_ this with
     | Some p => Some (PSC.setValue p lineIndex (zlen newValue + zlen (eol_ this))).2
     | None => None
     end) this.

Definition acceptDeleteRange (this : MirrorTextModel) (range : Range) : result MirrorTextModel :=
  if startLineNumber range =? endLineNumber range then
    if startColumn range =? endColumn range then Ok this
    else
      let* l := line_at this (startLineNumber range - 1) in
      Ok (setLineText this (startLineNumber range - 1) (substring l 0 (startColumn range - 1) ++ substring_from l (endColumn range - 1)))
  else
    let* l := line_at this (startLineNumber range - 1) in
    let* l' := line_at this (endLineNumber range - 1) in
    let this := setLineText this (startLineNumber range - 1) (substring l 0 (startColumn range - 1) ++ substring_from l' (endColumn range - 1)) in
    let lines := Prelude.splice (lines_ this) (startLineNumber range) (endLineNumber range - startLineNumber range) [] in
    match lineStarts_ this with
    | Some p =>
        let* r := PSC.removeValues p (startLineNumber range) (endLineNumber range - startLineNumber range) in
        Ok (with_lines lines (Some r.2) this)
    | None => Ok (with_lines lines None this)
    end.

(** The loop that inserts the lines after the first one, from line [i] on. *)
Fixpoint insert_lines (lines : list (list Z)) (lineNumber i : Z) (insertLines : list (list Z)) : list (list Z) :=
  match insertLines with
  | [] => lines
  | l :: rest => insert_lines (Prelude.splice lines (lineNumber + i - 1) 0 [l]) lineNumber (i + 1) rest
  end.

Definition acceptInsertText (this : MirrorTextModel) (position : Position) (insertText : list Z) : result MirrorTextModel :=
  if zlen insertText =? 0 then Ok this
  else
    let insertLines := splitLines insertText in
    let* l := line_at this (lineNumber position - 1) in
    let before := substring l 0 (Position.column position - 1) in
    let after := substring_from l (Position.column position - 1) in
    let first := default [] (head insertLines) in
    if zlen insertLines =? 1 then Ok (setLineText this (lineNumber position - 1) ((before ++ first) ++ after))
    else
      let insertLines := set_at insertLines (zlen insertLines - 1) (default [] (last insertLines) ++ after) in
      let this := setLineText this (lineNumber position - 1) (before ++ first) in
      let newLengths := (fun l => to_uint32w (zlen l + zlen (eol_ this))) <$> drop 1 insertLines in
      let lines := insert_lines (lines_ this) (lineNumber position) 1 (drop 1 insertLines) in
      match lineStarts_ this with
      | Some p => let* r := PSC.insertValues p (lineNumber position) newLengths in Ok (with_lines lines (Some r.2) this)
      | None => Ok (with_lines lines None this)
      end.

Definition accept_change (this : MirrorTextModel) (change : IInternalModelContentChange) : result MirrorTextModel :=
  let* this := acceptDeleteRange this (change_range change) in
  acceptInsertText this (mkPosition (startLineNumber (change_range change)) (startColumn (change_range change))) (change_text change).

Fixpoint accept_changes (this : MirrorTextModel) (changes : list IInternalModelContentChange) : result MirrorTextModel :=
  match changes with
  | [] => Ok this
  | c :: rest => let* this := accept_change this c in accept_changes this rest
  end.

Definition onEvents (this : MirrorTextModel) (e : IModelChangedEvent) : result MirrorTextModel :=
  let this := match event_eol e with
    | [] => this
    | _ => if bool_decide (event_eol e = eol_ this) then this
           else mkMirror (lines_ this) (event_eol e) (versionId_ this) None (cachedTextValue_ this)
    end in
  let* this := accept_changes this (changes_ e) in
  Ok (mkMirror (lines_ this) (eol_ this) (event_versionId e) (lineStarts_ this) None).

End MTM.

(** ** The model of a worker *)

Module MM.

Definition getValue (this : MirrorTextModel) : list Z * MirrorTextModel := MTM.getText this.
Definition getLinesContent (this : MirrorTextModel) : list (list Z) := lines_ this.
Definition getLineCount (this : MirrorTextModel) : Z := zlen (lines_ this).
Definition getLineContent (this : MirrorTextModel) (lineNumber : Z) : option (list Z) := (lines_ this).[lineNumber - 1].

Definition validatePosition (this : MirrorTextModel) (position : Position) : result Position :=
  if lineNumber position <? 1 then Ok (mkPosition 1 1)
  else if lineNumber position >? zlen (lines_ this) then
    let* l := line_at this (zlen (lines_ this) - 1) in
    Ok (mkPosition (zlen (lines_ this)) (zlen l + 1))
  else
    let* l := line_at this (lineNumber position - 1) in
    let maxCharacter := zlen l + 1 in
    if Position.column position <? 1 then Ok (mkPosition (lineNumber position) 1)
    else if Position.column position >? maxCharacter then Ok (mkPosition (lineNumber position) maxCharacter)
    else Ok position.

Definition validateRange (this : MirrorTextModel) (range : Range) : result Range :=
  let* start := validatePosition this (mkPosition (startLineNumber range) (startColumn range)) in
  let* end_ := validatePosition this (mkPosition (endLineNumber range) (endColumn range)) in
  if negb (lineNumber start =? startLineNumber range) || negb (Position.column start =? startColumn range) ||
     negb (lineNumber end_ =? endLineNumber range) || negb (Position.column end_ =? endColumn range)
  then Ok (mkRange (lineNumber start) (Position.column start) (lineNumber end_) (Position.column end_))
  else Ok range.

Definition getValueInRange (this : MirrorTextModel) (range : Range) : result (list Z) :=
  let* range := validateRange this range in
  if startLineNumber range =? endLineNumber range then
    let* l := line_at this (startLineNumber range - 1) in
    Ok (substring l (startColumn range - 1) (endColumn range - 1))
  else
    let startLineIndex := startLineNumber range - 1 in
    let endLineIndex := endLineNumber range - 1 in
    let* first := line_at this startLineIndex in
    let* last_ := line_at this endLineIndex in
    let between := omap (fun i => (lines_ this).[i]) (zrange (startLineIndex + 1) endLineIndex) in
    Ok (js_join (eol_ this) (substring_from first (startColumn range - 1) :: between ++ [substring last_ 0 (endColumn range - 1)])).

(** [None] is a prefix sum outside the array, where the code computes [NaN]. *)
Definition offsetAt (this : MirrorTextModel) (position : Position) : result (option Z * MirrorTextModel) :=
  let* position := validatePosition this position in
  let this := MTM.ensureLineStarts this in
  match lineStarts_ this with
  | None => Throw TypeError
  | Some p =>
      let '(sum, p) := PSC.getPrefixSum p (lineNumber position - 2) in
      Ok ((fun s => s + (Position.column position - 1)) <$> sum, MTM.with_lines (lines_ this) (Some p) this)
  end.

Definition positionAt (this : MirrorTextModel) (offset : Z) : result (Position * MirrorTextModel) :=
  let offset := Z.max 0 offset in
  let this := MTM.ensureLineStarts this in
  match lineStarts_ this with
  | None => Throw TypeError
  | Some p =>
      let '(out, p) := PSC.getIndexOf p offset in
      let* l := line_at this (PrefixSum.index out) in
      Ok (mkPosition (1 + PrefixSum.index out) (1 + Z.min (PrefixSum.remainder out) (zlen l)), MTM.with_lines (lines_ this) (Some p) this)
  end.

End MM.

Implicit Types (a t d eol : list Z) (this : MirrorTextModel).

(** ** Arrays and strings *)

Lemma splice_at {A} (pre post : list A) n ins : 0 <= n <= zlen post -> Prelude.splice (pre ++ post) (zlen pre) n ins = pre ++ ins ++ drop (Z.to_nat n) post.
Proof.
  intros Hn. unfold Prelude.splice, rel_index. pose proof (zlen_nonneg pre). pose proof (zlen_nonneg post). rewrite zlen_app. destruct (Z.ltb_spec (zlen pre) 0); [lia|].
  rewrite (Z.min_l (zlen pre)) by lia. rewrite Z.min_l, Z.max_l by lia. unfold zlen in *. rewrite Nat2Z.id, take_app_length. f_equal. f_equal.
  replace (Z.to_nat (Z.of_nat (List.length pre) + n)) with (List.length pre + Z.to_nat n)%nat by lia. by rewrite drop_app_add.
Qed.

Lemma insert_lines_at lineNumber i pre post ls : lineNumber + i - 1 = zlen pre -> MTM.insert_lines (pre ++ post) lineNumber i ls = pre ++ ls ++ post.
Proof.
  revert i pre. induction ls as [|l ls IH]; intros i pre Hi; [done|]. cbn [MTM.insert_lines]. rewrite Hi, splice_at by (pose proof (zlen_nonneg post); lia). change (Z.to_nat 0) with 0%nat. rewrite drop_0.
  cbn [app]. change (l :: post) with ([l] ++ post). rewrite app_assoc. rewrite IH; [by rewrite <- app_assoc|]. rewrite zlen_app. change (zlen [l]) with 1. lia.
Qed.

Lemma set_at_mid {A} (pre post : list A) x y : set_at (pre ++ x :: post) (zlen pre) y = pre ++ y :: post.
Proof.
  unfold set_at. pose proof (zlen_nonneg pre). destruct (Z.ltb_spec (zlen pre) 0); [lia|]. unfold zlen. rewrite Nat2Z.id. rewrite <- (Nat.add_0_r (List.length pre)). by rewrite insert_app_r.
Qed.

Lemma at_mid {A} (pre post : list A) x : (pre ++ x :: post).[zlen pre] = Some x.
Proof. rewrite at_app_r by lia. by rewrite Z.sub_diag. Qed.

Lemma substring_head a t : substring (a ++ t) 0 (zlen a) = a.
Proof. pose proof (zlen_nonneg a). pose proof (zlen_nonneg t). rewrite substring_sub by (rewrite ?zlen_app; lia). rewrite sub_app_l by lia. apply sub_all. Qed.

Lemma substring_tail a t : substring_from (a ++ t) (zlen a) = t.
Proof. pose proof (zlen_nonneg a). pose proof (zlen_nonneg t). unfold substring_from. rewrite substring_sub by (rewrite ?zlen_app; lia). rewrite zlen_app. apply sub_app_r. Qed.

(** ** What a mirror stands for *)

Definition starts_ok (eol : list Z) (lines : list (list Z)) (starts : option PSC.PrefixSumComputer) : Prop :=
  match starts with
  | None => True
  | Some p => psc_wf p /\ PSC.values p = (fun l => zlen l + zlen eol) <$> lines
  end.

Definition lines_are this eol (lines : list (list Z)) : Prop :=
  lines_ this = lines /\ eol_ this = eol /\ starts_ok eol lines (lineStarts_ this).

(** All counts fit the typed arrays. *)
Definition fits (eol : list Z) (lines : list (list Z)) : Prop :=
  zlen lines < 2 ^ 31 /\ Forall (fun l => zlen l + zlen eol < 2 ^ 31) lines.

Lemma setLineText_ok this eol pre post x y : lines_are this eol (pre ++ x :: post) -> zlen y + zlen eol < 2 ^ 31 ->
  lines_are (MTM.setLineText this (zlen pre) y) eol (pre ++ y :: post).
Proof.
  intros (Hl & He & Hs) Hy. unfold MTM.setLineText, lines_are. cbn [MTM.with_lines lines_ eol_ lineStarts_]. rewrite Hl, set_at_mid, He. split; [done|]. split; [done|].
  destruct (lineStarts_ this) as [p|]; [|done]. destruct Hs as [Hw Hv]. pose proof (zlen_nonneg y). pose proof (zlen_nonneg eol). pose proof (zlen_nonneg pre). pose proof (zlen_nonneg post).
  assert (Hlen : zlen (PSC.values p) = zlen pre + (zlen post + 1)) by (rewrite Hv; unfold zlen; rewrite length_fmap, length_app; cbn [List.length]; lia).
  destruct (setValue_ok p (zlen pre) (zlen y + zlen eol) Hw ltac:(lia) ltac:(lia)) as [Hw' Hv']. split; [exact Hw'|]. rewrite Hv', Hv, !fmap_app, !fmap_cons.
  unfold zlen at 1. rewrite Nat2Z.id. rewrite insert_app_r_alt; rewrite length_fmap; [|done]. by rewrite Nat.sub_diag.
Qed.

(** The lines around a cut. *)
Lemma cut_lines a t : torn a t = false -> exists init tl, splitLines a = init ++ [last_line a] /\ zlen init = breaks a /\ splitLines t = first_line t :: tl /\
  splitLines (a ++ t) = init ++ (last_line a ++ first_line t) :: tl.
Proof.
  intros Ht. destruct (splitLines_app a t Ht) as (init & tl & E1 & E2 & E3). exists init, tl. destruct (splitLines_last a) as (init' & E1' & Hi). rewrite E1 in E1'.
  apply app_inj_tail in E1' as [<- _]. done.
Qed.

Lemma line_length_fits eol d (a b : list (list Z)) l : fits eol (splitLines d) -> splitLines d = a ++ l :: b -> zlen l + zlen eol < 2 ^ 31.
Proof. intros [_ Hf] E. rewrite E in Hf. apply Forall_app in Hf as [_ Hf]. by apply Forall_inv in Hf. Qed.

(** ** Following a change *)

(** The lines of a text around a part of it, and of the text without the part. *)
Lemma two_cuts a m t : torn a t = false -> torn a (m ++ t) = false -> torn a m = false -> torn (a ++ m) t = false ->
  exists ia tl i2 tt, zlen ia = breaks a /\ zlen i2 = breaks a + breaks m /\
    splitLines (a ++ t) = ia ++ (last_line a ++ first_line t) :: tt /\
    splitLines (a ++ m ++ t) = ia ++ (last_line a ++ first_line (m ++ t)) :: tl /\
    splitLines (a ++ m ++ t) = i2 ++ (last_line (a ++ m) ++ first_line t) :: tt /\
    0 <= breaks m <= zlen tl /\ drop (Z.to_nat (breaks m)) tl = tt.
Proof.
  intros H1 H2 H3 H4. destruct (cut_lines a t H1) as (ia & tt & E1 & Hia & E2 & E3). destruct (cut_lines a (m ++ t) H2) as (ia' & tl & E1' & _ & E4 & E5).
  rewrite E1 in E1'. apply app_inj_tail in E1' as [<- _]. destruct (cut_lines (a ++ m) t H4) as (i2 & tt' & E6 & Hi2 & E2' & E7). rewrite E2 in E2'. injection E2' as <-.
  rewrite (breaks_app_untorn _ _ H3) in Hi2. rewrite <- app_assoc in E7. pose proof (breaks_nonneg m) as Hm. exists ia, tl, i2, tt. split_and!; try done.
  - rewrite E5 in E7. apply (f_equal zlen) in E7. rewrite !zlen_app, !zlen_cons in E7. pose proof (zlen_nonneg tt). lia.
  - assert (Ed : drop (List.length i2 + 1) (splitLines (a ++ m ++ t)) = tt) by (rewrite E7, drop_app_add; done). rewrite E5 in Ed. rewrite <- Ed. unfold zlen in *.
    replace (List.length i2 + 1)%nat with (List.length ia + S (Z.to_nat (breaks m)))%nat by lia. by rewrite drop_app_add.
Qed.

Lemma fmap_cut {A C} (g : A -> C) (pre post : list A) n : 0 <= n ->
  take (Z.to_nat (zlen pre)) (g <$> (pre ++ post)) ++ drop (Z.to_nat (zlen pre + n)) (g <$> (pre ++ post)) = g <$> (pre ++ drop (Z.to_nat n) post).
Proof.
  intros Hn. rewrite !fmap_app, fmap_drop. assert (Hl : List.length (g <$> pre) = Z.to_nat (zlen pre)) by (rewrite length_fmap; unfold zlen; lia).
  rewrite <- Hl, take_app_length. f_equal. rewrite Z2Nat.inj_add by (pose proof (zlen_nonneg pre); lia). by rewrite <- Hl, drop_app_add.
Qed.

Lemma remove_lines this eol pre post n : lines_are this eol (pre ++ post) -> 0 <= n <= zlen post -> zlen (pre ++ post) < 2 ^ 31 ->
  exists this', match lineStarts_ this with
    | Some p => let* r := PSC.removeValues p (zlen pre) n in Ok (MTM.with_lines (Prelude.splice (lines_ this) (zlen pre) n []) (Some r.2) this)
    | None => Ok (MTM.with_lines (Prelude.splice (lines_ this) (zlen pre) n []) None this)
    end = Ok this' /\ lines_are this' eol (pre ++ drop (Z.to_nat n) post) /\ versionId_ this' = versionId_ this.
Proof.
  intros (-> & He & Hs) Hn Hl. rewrite splice_at by done. cbn [app]. rewrite zlen_app in Hl. pose proof (zlen_nonneg pre). pose proof (zlen_nonneg post).
  destruct (lineStarts_ this) as [p|]; [|eexists; split; [done|]; by split]. destruct Hs as [Hw Hv].
  destruct (removeValues_ok p (zlen pre) n Hw ltac:(lia) ltac:(lia)) as (b & p' & -> & Hw' & Hv'). cbn [result_bind snd].
  eexists. split; [done|]. split; [|done]. split; [done|]. split; [exact He|]. split; [exact Hw'|]. rewrite Hv', Hv. apply fmap_cut. lia.
Qed.

Lemma delete_ok this eol a m t : lines_are this eol (splitLines (a ++ m ++ t)) -> fits eol (splitLines (a ++ m ++ t)) -> fits eol (splitLines (a ++ t)) ->
  torn a t = false -> torn a (m ++ t) = false -> torn a m = false -> torn (a ++ m) t = false ->
  exists this', MTM.acceptDeleteRange this (pos_range (end_pos a) (end_pos (a ++ m))) = Ok this' /\ lines_are this' eol (splitLines (a ++ t)) /\ versionId_ this' = versionId_ this.
Proof.
  intros Hthis Hfit Hfit' H1 H2 H3 H4. destruct (two_cuts a m t H1 H2 H3 H4) as (ia & tl & i2 & tt & Hia & Hi2 & E3 & E5 & E7 & Hn & Htt).
  assert (Hy : zlen (last_line a ++ first_line t) + zlen eol < 2 ^ 31) by (eapply line_length_fits; [exact Hfit'|exact E3]). pose proof Hthis as (Hlines & He & Hs).
  assert (Hx : line_at this (breaks a) = Ok (last_line a ++ first_line (m ++ t))) by (unfold line_at; rewrite Hlines, E5, <- Hia, at_mid; done).
  assert (Hx2 : line_at this (breaks a + breaks m) = Ok (last_line (a ++ m) ++ first_line t)) by (unfold line_at; rewrite Hlines, E7, <- Hi2, at_mid; done).
  assert (Hcol : Position.column (end_pos (a ++ m)) - 1 = zlen (last_line (a ++ m))) by (cbn; lia).
  assert (Hline : lineNumber (end_pos (a ++ m)) - 1 = breaks a + breaks m) by (cbn [end_pos lineNumber]; rewrite (breaks_app_untorn _ _ H3); lia).
  assert (Hcol1 : Position.column (end_pos a) - 1 = zlen (last_line a)) by (cbn; lia). assert (Hline1 : lineNumber (end_pos a) - 1 = breaks a) by (cbn [end_pos lineNumber]; lia).
  unfold MTM.acceptDeleteRange, pos_range. cbn [startLineNumber startColumn endLineNumber endColumn]. rewrite Hline1, Hline, Hcol1, Hcol, Hx. cbn [result_bind]. rewrite Hx2. cbn [result_bind].
  rewrite substring_head, substring_tail.
  assert (Hset : lines_are (MTM.setLineText this (breaks a) (last_line a ++ first_line t)) eol (ia ++ (last_line a ++ first_line t) :: tl)).
  { rewrite <- Hia. eapply setLineText_ok; [|exact Hy]. rewrite <- E5. exact Hthis. }
  rewrite E3. destruct (Z.eqb_spec (lineNumber (end_pos a)) (lineNumber (end_pos (a ++ m)))) as [El|El].
  - assert (Eb : breaks m = 0) by lia. rewrite Eb in Htt. change (tl = tt) in Htt. subst tl.
    destruct (Z.eqb_spec (Position.column (end_pos a)) (Position.column (end_pos (a ++ m)))) as [Ec|Ec]; (eexists; split; [done|]; split; [|done]).
    + rewrite (end_pos_app a m H3), Eb in Ec. cbn [end_pos lineNumber Position.column] in Ec. change (0 =? 0) with true in Ec. cbv iota in Ec. cbn [Position.column] in Ec.
      assert (m = []) as -> by (destruct m; [done|]; rewrite zlen_cons in Ec; pose proof (zlen_nonneg m); lia). cbn [app] in Hthis. rewrite E3 in Hthis. exact Hthis.
    + replace (breaks a + breaks m) with (breaks a) in Hx2 by lia. rewrite Hx in Hx2. injection Hx2 as Hx2. rewrite Hx2. rewrite substring_tail. exact Hset.
  - assert (Hpre : lineNumber (end_pos a) = zlen (ia ++ [last_line a ++ first_line t])) by (rewrite zlen_app; change (zlen [_]) with 1; cbn [end_pos lineNumber]; lia).
    replace (lineNumber (end_pos (a ++ m)) - lineNumber (end_pos a)) with (breaks m) by lia. rewrite Hpre.
    assert (Epre : forall z, ia ++ (last_line a ++ first_line t) :: z = (ia ++ [last_line a ++ first_line t]) ++ z) by (intros z; by rewrite <- app_assoc).
    rewrite (Epre tl) in Hset. rewrite (Epre tt), <- Htt. change (versionId_ this) with (versionId_ (MTM.setLineText this (breaks a) (last_line a ++ first_line t))).
    apply remove_lines; [exact Hset|exact Hn|]. destruct Hfit as [Hfl _]. rewrite E5 in Hfl.
    rewrite !zlen_app, zlen_cons in *. change (zlen [_]) with 1. lia.
Qed.

Lemma many_lines t : breaks t <> 0 -> exists mid, splitLines t = first_line t :: mid ++ [last_line t] /\ zlen mid + 1 = breaks t.
Proof.
  intros Hb. destruct (splitLines_last t) as (init & E & Hi). pose proof (breaks_nonneg t). destruct init as [|f mid]; [change (zlen (@nil (list Z))) with 0 in Hi; lia|].
  exists mid. rewrite zlen_cons in Hi. split; [|lia]. unfold first_line. rewrite E. done.
Qed.

Lemma insert_starts this eol pre post ins : lines_are this eol (pre ++ post) -> Forall (fun l => zlen l + zlen eol < 2 ^ 31) ins -> zlen (pre ++ ins ++ post) < 2 ^ 31 ->
  exists this', match lineStarts_ this with
    | Some p => let* r := PSC.insertValues p (zlen pre) ((fun l => to_uint32w (zlen l + zlen (eol_ this))) <$> ins) in Ok (MTM.with_lines (pre ++ ins ++ post) (Some r.2) this)
    | None => Ok (MTM.with_lines (pre ++ ins ++ post) None this)
    end = Ok this' /\ lines_are this' eol (pre ++ ins ++ post) /\ versionId_ this' = versionId_ this.
Proof.
  intros (_ & He & Hs) Hf Hl. destruct (lineStarts_ this) as [p|]; [|eexists; split; [done|]; by split]. destruct Hs as [Hw Hv]. rewrite He.
  rewrite !zlen_app in Hl. pose proof (zlen_nonneg pre). pose proof (zlen_nonneg post). pose proof (zlen_nonneg ins).
  assert (Eins : (fun l => to_uint32w (zlen l + zlen eol)) <$> ins = (fun l => zlen l + zlen eol) <$> ins).
  { clear - Hf. induction Hf as [|l ins Hl Hf IH]; [done|]. rewrite !fmap_cons, IH. f_equal. apply to_uint32w_id. unfold is_uint32. pose proof (zlen_nonneg l). pose proof (zlen_nonneg eol). lia. }
  rewrite Eins. assert (Hz : zlen (PSC.values p) = zlen pre + zlen post) by (rewrite Hv; unfold zlen; rewrite length_fmap, length_app; lia).
  destruct (insertValues_ok p (zlen pre) ((fun l => zlen l + zlen eol) <$> ins) Hw ltac:(lia)) as (b & p' & -> & Hw' & Hv' & _).
  - apply Forall_fmap. eapply Forall_impl; [exact Hf|]. intros l Hlt. unfold is_uint32, compose. pose proof (zlen_nonneg l). pose proof (zlen_nonneg eol). cbv beta in *. lia.
  - rewrite Hz. unfold zlen in *. rewrite length_fmap. lia.
  - cbn [result_bind snd]. eexists. split; [done|]. split; [|done]. split; [done|]. split; [exact He|]. split; [exact Hw'|]. rewrite Hv', Hv, !fmap_app.
    set (g := fun l : list Z => zlen l + zlen eol). assert (Hlg : List.length (g <$> pre) = Z.to_nat (zlen pre)) by (rewrite length_fmap; unfold zlen; lia).
    rewrite <- Hlg, take_app_length, drop_app_length. done.
Qed.

Lemma insert_text_ok this eol a v t : lines_are this eol (splitLines (a ++ t)) -> fits eol (splitLines (a ++ v ++ t)) ->
  torn a t = false -> torn a v = false -> torn a (v ++ t) = false -> torn v t = false ->
  exists this', MTM.acceptInsertText this (end_pos a) v = Ok this' /\ lines_are this' eol (splitLines (a ++ v ++ t)) /\ versionId_ this' = versionId_ this.
Proof.
  intros Hthis Hfit H1 H2 H3 H4. destruct (cut_lines a t H1) as (ia & tt & E1 & Hia & E2 & E3). destruct (cut_lines a (v ++ t) H3) as (ia' & tl & E1' & _ & E4 & E5).
  rewrite E1 in E1'. apply app_inj_tail in E1' as [<- _]. destruct (cut_lines v t H4) as (iv & tv & Ev1 & Hiv & Ev2 & Ev3). rewrite E2 in Ev2. injection Ev2 as <-.
  unfold MTM.acceptInsertText. destruct (Z.eqb_spec (zlen v) 0) as [Ez|Ez].
  { eexists. split; [done|]. split; [|done]. assert (v = []) as -> by (destruct v; [done|]; rewrite zlen_cons in Ez; pose proof (zlen_nonneg v); lia). exact Hthis. }
  assert (Hcol1 : Position.column (end_pos a) - 1 = zlen (last_line a)) by (cbn; lia). assert (Hline1 : lineNumber (end_pos a) - 1 = zlen ia) by (cbn [end_pos lineNumber]; lia).
  assert (Hx : line_at this (zlen ia) = Ok (last_line a ++ first_line t)) by (unfold line_at; rewrite (proj1 Hthis), E3, at_mid; done).
  rewrite Hcol1, Hline1, Hx. cbn [result_bind]. rewrite substring_head, substring_tail, breaks_splitLines. rewrite E3 in Hthis. rewrite E4 in Ev3.
  destruct (Z.eqb_spec (breaks v + 1) 1) as [Eb|Eb].
  - eexists. split; [done|]. split; [|done]. rewrite (one_line_text v ltac:(lia)) in *. destruct iv as [|? [|? ?]]; try done. injection Ev1 as El. rewrite <- El in Ev3. injection Ev3 as Ef ->. cbn [head default from_option id].
    rewrite E5, Ef, app_assoc. eapply setLineText_ok; [exact Hthis|]. apply (line_length_fits eol _ ia tt _ Hfit). by rewrite E5, Ef, app_assoc.
  - destruct (many_lines v ltac:(lia)) as (mid & Ev & Hmid). rewrite Ev in Ev1. rewrite app_comm_cons in Ev1. apply app_inj_tail in Ev1 as [<- _]. cbn [app] in Ev3. injection Ev3 as Ef ->.
    rewrite Ev. cbn [head default from_option id]. rewrite app_comm_cons, last_snoc. cbn [default from_option id].
    replace (breaks v + 1 - 1) with (zlen (first_line v :: mid)) by (rewrite zlen_cons; lia). rewrite set_at_mid. cbn [app drop].
    assert (Eres : splitLines (a ++ v ++ t) = (ia ++ [last_line a ++ first_line v]) ++ (mid ++ [last_line v ++ first_line t]) ++ tt) by (rewrite E5, Ef, <- !app_assoc; done).
    assert (Hset : lines_are (MTM.setLineText this (zlen ia) (last_line a ++ first_line v)) eol ((ia ++ [last_line a ++ first_line v]) ++ tt)).
    { rewrite <- app_assoc. eapply setLineText_ok; [exact Hthis|]. apply (line_length_fits eol _ ia (mid ++ (last_line v ++ first_line t) :: tt) _ Hfit). by rewrite E5, Ef. }
    set (this1 := MTM.setLineText _ _ _) in *. rewrite (proj1 Hset), insert_lines_at by (rewrite zlen_app; change (zlen [_]) with 1; lia).
    assert (Hln : lineNumber (end_pos a) = zlen (ia ++ [last_line a ++ first_line v])) by (rewrite zlen_app; change (zlen [_]) with 1; lia). rewrite Hln, Eres.
    apply (insert_starts this1 eol); [exact Hset| |rewrite <- Eres; apply Hfit]. destruct Hfit as [_ Hf]. rewrite Eres in Hf. apply Forall_app in Hf as [_ Hf]. by apply Forall_app in Hf as [Hf _].
Qed.

(** ** Following the events of a text buffer *)

Definition small d : Prop := zlen d + 3 < 2 ^ 31.

Lemma small_fits eol d : eol = [10] \/ eol = [13; 10] -> small d -> fits eol (splitLines d).
Proof.
  unfold small. intros He Hs. destruct (split_from_total [] d) as [Hf Hl]. fold (splitLines d) in *. change (zlen (@nil Z)) with 0 in Hf. split; [lia|].
  eapply Forall_impl; [exact Hf|]. intros l Hz. cbv beta in Hz. assert (zlen eol <= 2) by (destruct He as [-> | ->]; done). lia.
Qed.

(** A change of the text [d]. *)
Definition change_here eol d (c : IInternalModelContentChange) : Prop := exists a m t, d = a ++ m ++ t /\
  change_range c = pos_range (end_pos a) (end_pos (a ++ m)) /\ change_rangeOffset c = zlen a /\ change_rangeLength c = zlen m /\
  normalized eol a /\ normalized eol m /\ normalized eol t /\ normalized eol (change_text c).

Lemma accept_change_ok this eol d c : eol = [10] \/ eol = [13; 10] -> lines_are this eol (splitLines d) -> change_here eol d c -> small d -> small (replay d c) ->
  exists this', MTM.accept_change this c = Ok this' /\ lines_are this' eol (splitLines (replay d c)) /\ versionId_ this' = versionId_ this.
Proof.
  intros He Hthis (a & m & t & -> & Er & Eo & El & Na & Nm & Nt & Nv) Hs1 Hs2.
  assert (Erep : replay (a ++ m ++ t) c = a ++ change_text c ++ t).
  { unfold replay. rewrite Eo, El, <- zlen_app. unfold zlen. rewrite !Nat2Z.id, take_app_length. do 2 f_equal. rewrite app_assoc. apply drop_app_length. }
  rewrite Erep in Hs2 |- *. assert (Htn : forall x y, normalized eol x -> torn x y = false) by (intros x y; by apply normalized_untorn).
  assert (Hs3 : small (a ++ t)) by (unfold small in *; rewrite !zlen_app in *; pose proof (zlen_nonneg m); lia).
  unfold MTM.accept_change. rewrite Er.
  destruct (delete_ok this eol a m t Hthis) as (this1 & E1 & H1 & V1); [by apply small_fits|by apply small_fits|by apply Htn..|apply Htn; by apply normalized_app|].
  rewrite E1. cbn [result_bind]. assert (Ep : mkPosition (startLineNumber (pos_range (end_pos a) (end_pos (a ++ m)))) (startColumn (pos_range (end_pos a) (end_pos (a ++ m)))) = end_pos a) by done. rewrite Ep.
  destruct (insert_text_ok this1 eol a (change_text c) t H1) as (this2 & E2 & H2 & V2); [by apply small_fits|by apply Htn..|].
  exists this2. split; [exact E2|]. split; [exact H2|]. by rewrite V2.
Qed.

Fixpoint follows eol d (cs : list IInternalModelContentChange) : Prop :=
  match cs with [] => True | c :: cs => change_here eol d c /\ small (replay d c) /\ follows eol (replay d c) cs end.

Lemma follows_snoc eol d cs c : follows eol d cs -> change_here eol (foldl replay d cs) c -> small (replay (foldl replay d cs) c) -> follows eol d (cs ++ [c]).
Proof. revert d. induction cs as [|c0 cs IH]; intros d; cbn [follows foldl app]; [done|]. intros (H1 & H2 & H3) H4 H5. split; [done|]. split; [done|]. by apply IH. Qed.

Lemma accept_changes_ok this eol d cs : eol = [10] \/ eol = [13; 10] -> lines_are this eol (splitLines d) -> follows eol d cs -> small d ->
  exists this', MTM.accept_changes this cs = Ok this' /\ lines_are this' eol (splitLines (foldl replay d cs)) /\ versionId_ this' = versionId_ this.
Proof.
  intros He. revert this d. induction cs as [|c cs IH]; intros this d Hthis Hf Hs; [by exists this|]. destruct Hf as (H1 & H2 & H3). cbn [MTM.accept_changes foldl].
  destruct (accept_change_ok this eol d c He Hthis H1 Hs H2) as (this1 & -> & Hl & V1). cbn [result_bind]. destruct (IH this1 _ Hl H3 H2) as (this2 & E2 & Hl2 & V2).
  exists this2. split; [exact E2|]. split; [exact Hl2|]. by rewrite V2.
Qed.

(** The changes that a text buffer reports are changes of the text as they leave it. *)
Lemma op_here eol d op r : eol = [10] \/ eol = [13; 10] -> normalized eol d -> normalized eol r -> op_ok eol d op -> change_here eol (take (Z.to_nat (op_end op)) d ++ r) (change_of op).
Proof.
  intros He Hn Hr (Hrg & Ho & Hoe & Ht). destruct (model_range_offsets d _ Hrg) as (H1 & H2 & H3 & H4). rewrite <- Ho, <- Hoe in *.
  exists (take (Z.to_nat (rangeOffset op)) d), (sub d (rangeOffset op) (op_end op)), r. rewrite app_assoc, take_then_sub by lia. cbn [change_of change_range change_rangeOffset change_rangeLength change_text].
  rewrite zlen_take, zlen_sub by lia. unfold op_end in *. split_and!; try done; try lia.
  - pose proof Hrg as (Hs & Hq & _). pose proof (model_position_end d _ Hs) as E1. pose proof (model_position_end d _ Hq) as E2.
    destruct (range_offset d (range op)) as [G1 G2]. rewrite <- G1, <- Ho in E1. rewrite <- G2, <- Hoe in E2. unfold pos_range. rewrite <- E1, <- E2. by destruct (range op).
  - apply normalized_parts; (done || lia).
  - apply normalized_sub; (done || lia).
Qed.

Lemma ops_follow eol d p ops : eol = [10] \/ eol = [13; 10] -> normalized eol d -> Forall (op_ok eol d) ops -> chain eol d p ops -> 0 <= p -> in_crlf d p = false ->
  zlen d + texts_length ops + 3 < 2 ^ 31 -> follows eol d (change_of <$> rev (filter (fun op => idle op = false) ops)).
Proof.
  intros He Hn Hok. revert p. induction Hok as [|op ops Hop Hok IH]; intros p Hch Hp Hc Hl; [done|]. cbn [chain texts_length] in *. destruct Hch as (H1 & H2 & H3 & H4 & H5 & H6 & H7).
  assert (H8 : 0 <= op_end op) by (unfold op_end; lia). pose proof (zlen_nonneg (text op)) as Hz. pose proof (IH (op_end op) H7 H8 H5 ltac:(lia)) as Hf.
  rewrite filter_cons. destruct (idle op) eqn:Ei; [by rewrite decide_False|]. rewrite decide_True by done. cbn [rev]. rewrite fmap_app. apply follows_snoc; [exact Hf| |].
  - rewrite (replay_rev eol d (op_end op) ops Hok H7 H8). apply op_here; try done. by apply normalized_splice.
  - rewrite (replay_rev eol d (op_end op) ops Hok H7 H8). destruct (middle_end eol d (op_end op) ops H8 H7) as [M1 M2]. unfold small, replay. rewrite !zlen_app. cbn [change_of change_text].
    set (x := take (Z.to_nat (op_end op)) d ++ splice d (op_end op) ops).
    assert (Hx : zlen x <= zlen d + texts_length ops) by (unfold x; rewrite splice_middle, !zlen_app, zlen_take, zlen_drop by lia; lia).
    assert (Hcut : forall i j, 0 <= i <= j -> zlen (take (Z.to_nat i) x) + zlen (drop (Z.to_nat j) x) <= zlen x) by (intros i j Hij; unfold zlen; rewrite length_take, length_drop; lia).
    cbn [change_of change_rangeOffset change_rangeLength]. specialize (Hcut (rangeOffset op) (rangeOffset op + rangeLength op) ltac:(unfold op_end in *; lia)). lia.
Qed.

(** The lines of a normalized text, joined, are the text. *)
Lemma join_lines eol d : eol = [10] \/ eol = [13; 10] -> normalized eol d -> js_join eol (splitLines d) = d.
Proof.
  intros He. induction d as [|e a Hb Ht IH|c a Hcr Hc IH] using lines_ind; intros Hn; [done|..].
  - destruct (normalized_break eol e a He Hb Ht Hn) as [-> Hn']. rewrite (splitLines_break _ _ Hb Ht). specialize (IH Hn').
    destruct (splitLines a) as [|l ls] eqn:E; [by destruct (split_from_nonempty [] a)|]. change (eol ++ js_join eol (l :: ls) = eol ++ a). by rewrite IH.
  - pose proof (IH (normalized_char eol c a Hcr Hc Hn)) as E. destruct (splitLines_char c a Hcr Hc) as (h & tl & E1 & E2). rewrite E2. rewrite E1 in E. cbn [js_join] in *.
    destruct tl as [|l tl]; [by rewrite E|]. cbn [app]. by rewrite E.
Qed.

Definition mirrors this eol d : Prop :=
  lines_are this eol (splitLines d) /\ match cachedTextValue_ this with None => True | Some t => t = d end.

(** C13: A mirrored model follows the text buffer.  The events of [applyEdits], sent to a model
    that mirrors the text before, are accepted without an error, and the model mirrors the
    text after: its lines are those of the new text, the prefix sums of their lengths, if it
    has them, are up to date, and [getText] gives the new text; this holds for edits of
    several lines in whatever order they are given. *)
Theorem mirror_follows_edits F b eol d raws undo this version :
  holds F b eol d -> Forall (fun raw => model_range d (raw_range raw)) raws -> ~ overlapping (raw_range <$> raws) ->
  room b + 2 * zlen d + ops_room (validated_from eol d 0 raws) + 3 < max_buffer -> mirrors this eol d ->
  wp (TB.applyEdits raws false undo) b (fun r b' => exists this',
    MTM.onEvents this (mkEvent (changes r) eol version) = Ok this' /\ mirrors this' eol (edited eol d raws) /\ versionId_ this' = version /\
    (MTM.getText this').1 = edited eol d raws).
Proof.
  intros Hb Hr Hno Hroom [Hthis _]. destruct (holds_eol _ _ _ _ Hb) as [He Hn]. pose proof (zlen_nonneg d).
  pose proof (ops_room_nonneg (validated_from eol d 0 raws)).
  assert (Hrm : 0 <= room b) by (unfold room, blen; destruct ((buffers_ (pieceTree_ b)).[0]); [apply zlen_nonneg|done]).
  eapply wp_mono; [apply (wp_applyEdits F b eol d raws undo Hb Hr Hno); rewrite sorted_room; lia|]. intros r b' (ops' & touching & _ & Hsf & _ & Ha).
  pose proof Hsf as [Hok' _ Hch' Hsp' Hroom' _ _ _]. rewrite sorted_room in Hroom'. pose proof (texts_room ops') as Ht.
  assert (Hf : follows eol d (changes r)).
  { rewrite (ap_changes _ _ _ _ _ _ _ _ _ Ha). apply (ops_follow eol d 0); try done. unfold max_buffer in *. lia. }
  destruct (accept_changes_ok this eol d (changes r) He Hthis Hf) as (this1 & E1 & H1 & _); [unfold small, max_buffer in *; lia|].
  rewrite (replay_applied _ _ _ _ _ _ _ _ _ _ Hsf Ha) in H1. fold (edited eol d raws) in H1. assert (Hnn : normalized eol (edited eol d raws)).
  { unfold edited. rewrite <- Hsp'. by apply normalized_splice. }
  unfold MTM.onEvents. cbn [event_eol changes_ event_versionId].
  assert (Hsame : (match eol with [] => this | _ => if bool_decide (eol = eol_ this) then this else mkMirror (lines_ this) eol (versionId_ this) None (cachedTextValue_ this) end) = this).
  { destruct Hthis as (_ & -> & _). rewrite bool_decide_eq_true_2 by done. by destruct eol. }
  rewrite Hsame, E1. cbn [result_bind]. eexists. split; [done|]. destruct H1 as (L1 & L2 & L3). split; [by repeat split|]. split; [done|].
  unfold MTM.getText. cbn [cachedTextValue_ fst lines_ eol_]. rewrite L1, L2. by apply join_lines.
Qed.

Lemma mirror_follows_edits_witness : exists s r b' this', PT.insert 0 sample_text true empty_tree = Ok (tt, s) /\
  TB.applyEdits sample_edits false true (mkTextBuffer s [] false false false) = Ok (r, b') /\
  MTM.onEvents (MTM.ensureLineStarts (MTM.new [[97]; [98]] [10] 1)) (mkEvent (changes r) [10] 2) = Ok this' /\ (MTM.getText this').1 = [120; 10; 121; 10; 98; 122].
Proof.
  destruct sample_holds as (s & E & Hb & Hroom). exists s. set (this := MTM.ensureLineStarts _).
  assert (Hm : mirrors this [10] sample_text) by (split; [|done]; split; [done|]; split; [done|]; split; [apply new_psc_wf; [repeat constructor; done|done]|done]).
  pose proof (mirror_follows_edits ∅ _ [10] sample_text sample_edits true this 2 Hb sample_ranges sample_apart) as H.
  change (zlen sample_text) with 3 in H. change (ops_room (validated_from [10] sample_text 0 sample_edits)) with 20 in H. specialize (H ltac:(unfold max_buffer; lia) Hm).
  apply wp_run in H as (r & b' & Er & this' & E1 & _ & _ & E2). exists r, b', this'. split; [exact E|]. split; [exact Er|]. split; [exact E1|exact E2].
Defined.

(** ** Positions and offsets of a mirror *)

(** What the prefix sums are taken of. *)
Definition line_sizes (eol : list Z) (lines : list (list Z)) : list Z := (fun l => zlen l + zlen eol) <$> lines.

Lemma sum_to_next v vs k : 0 <= k -> sum_to (v :: vs) (k + 1) = v + sum_to vs k.
Proof. intros Hk. unfold sum_to. replace (Z.to_nat (k + 1)) with (S (Z.to_nat k)) by lia. done. Qed.

(** The sums of the sizes are the starts of the lines, and one line ending more than the
    text. *)
Lemma line_size_starts eol d : eol = [10] \/ eol = [13; 10] -> normalized eol d ->
  (forall k st, 0 <= k -> (starts d).[k] = Some st -> sum_to (line_sizes eol (splitLines d)) k = st) /\ zsum (line_sizes eol (splitLines d)) = zlen d + zlen eol.
Proof.
  intros He. induction d as [|e a Hb Ht IH|c a Hcr Hc IH] using lines_ind; intros Hn.
  - split; [|unfold line_sizes; cbn; lia]. intros k st Hk Hst. rewrite starts_nil, at_cons in Hst. destruct (Z.eqb_spec k 0) as [->|]; [by injection Hst as <-|unfold at_ in Hst; by destruct (k - 1 <? 0)].
  - destruct (normalized_break eol e a He Hb Ht Hn) as [-> Hn']. destruct (IH Hn') as [IH1 IH2]. rewrite (splitLines_break _ _ Hb Ht). unfold line_sizes in *. rewrite fmap_cons. change (zlen (@nil Z)) with 0. split.
    + intros k st Hk Hst. rewrite (break_starts _ _ Hb Ht), at_cons in Hst. destruct (Z.eqb_spec k 0) as [->|Hk0]; [by injection Hst as <-|]. rewrite at_fmap in Hst.
      destruct ((starts a).[k - 1]) as [x|] eqn:Ex; [|done]. injection Hst as <-. replace k with (k - 1 + 1) by lia. rewrite sum_to_next by lia. rewrite (IH1 (k - 1) x) by (done || lia). lia.
    + cbn [zsum]. rewrite IH2, zlen_app. lia.
  - destruct (IH (normalized_char eol c a Hcr Hc Hn)) as [IH1 IH2]. destruct (splitLines_char c a Hcr Hc) as (h & tl & E1 & E2). rewrite E2. rewrite E1 in IH1, IH2. unfold line_sizes in *. rewrite fmap_cons in *. rewrite zlen_cons in *. split.
    + intros k st Hk Hst. rewrite (char_starts _ _ Hcr Hc), at_cons in Hst. destruct (Z.eqb_spec k 0) as [->|Hk0]; [by injection Hst as <-|].
      assert (Hst' : ((fun x : Z => x + 1) <$> starts a).[k] = Some st).
      { rewrite <- Hst. unfold at_. destruct (Z.ltb_spec k 0); [lia|]. destruct (Z.ltb_spec (k - 1) 0); [lia|]. rewrite lookup_drop. f_equal. lia. }
      rewrite at_fmap in Hst'. destruct ((starts a).[k]) as [x|] eqn:Ex; [|done]. injection Hst' as <-. specialize (IH1 k x Hk Ex). replace k with (k - 1 + 1) in IH1 |- * by lia. rewrite sum_to_next in IH1 |- * by lia. lia.
    + rewrite (zlen_cons c a). cbn [zsum] in *. lia.
Qed.

Lemma ensure_ok this eol d : eol = [10] \/ eol = [13; 10] -> small d -> mirrors this eol d ->
  exists p, lineStarts_ (MTM.ensureLineStarts this) = Some p /\ psc_wf p /\ PSC.values p = line_sizes eol (splitLines d) /\
    lines_ (MTM.ensureLineStarts this) = splitLines d /\ eol_ (MTM.ensureLineStarts this) = eol /\
    (forall p', psc_wf p' -> PSC.values p' = PSC.values p -> mirrors (MTM.with_lines (splitLines d) (Some p') (MTM.ensureLineStarts this)) eol d).
Proof.
  intros He Hs ((Hl & Hel & Hst) & Hc). unfold MTM.ensureLineStarts. destruct (lineStarts_ this) as [p|] eqn:Ep.
  - destruct Hst as [Hw Hv]. exists p. rewrite Ep. split_and!; try done. intros p' Hw' Hv'. split; [|exact Hc]. split; [done|]. split; [exact Hel|]. split; [exact Hw'|by rewrite Hv', Hv].
  - destruct (small_fits eol d He Hs) as [Hfl Hff]. cbn [lineStarts_ lines_ eol_]. rewrite Hl, Hel.
    assert (Ev : (fun l => to_uint32w (zlen l + zlen eol)) <$> splitLines d = line_sizes eol (splitLines d)).
    { unfold line_sizes. clear - Hff. induction Hff as [|l ls Hl Hf IH]; [done|]. rewrite !fmap_cons, IH. f_equal. apply to_uint32w_id. unfold is_uint32. pose proof (zlen_nonneg l). pose proof (zlen_nonneg eol). lia. }
    rewrite Ev. eexists. split; [done|]. split; [|split; [done|split; [done|split; [done|]]]].
    + apply new_psc_wf; [|unfold line_sizes, zlen in *; by rewrite length_fmap]. apply Forall_fmap. eapply Forall_impl; [exact Hff|]. intros l Hz. unfold is_uint32, compose. pose proof (zlen_nonneg l). pose proof (zlen_nonneg eol). cbv beta in *. lia.
    + intros p' Hw' Hv'. split; [|exact Hc]. split; [done|]. split; [done|]. split; [exact Hw'|exact Hv'].
Qed.

Lemma validate_model this eol d p : mirrors this eol d -> model_position d p -> MM.validatePosition this p = Ok p.
Proof.
  intros ((Hl & _) & _) (H1 & c & Hc & Hcol). unfold MM.validatePosition. rewrite Hl, !Z.gtb_ltb. pose proof (at_lt _ _ _ Hc). destruct (Z.ltb_spec (lineNumber p) 1); [lia|].
  destruct (Z.ltb_spec (zlen (splitLines d)) (lineNumber p)); [lia|]. unfold line_at. rewrite Hl, Hc. cbn [result_bind]. rewrite Z.gtb_ltb.
  destruct (Z.ltb_spec (Position.column p) 1); [lia|]. by destruct (Z.ltb_spec (zlen c + 1) (Position.column p)); [lia|].
Qed.

(** C25: The positions of a mirrored model.  A worker that mirrors a normalized text answers as
    the text says: [offsetAt] of a position is the number of code units before it, and
    [positionAt] of an offset that is not inside a CRLF is the position at that offset; neither
    throws, and the model still mirrors the text, with the prefix sums it has made. *)
Theorem mirror_positions eol d this : eol = [10] \/ eol = [13; 10] -> normalized eol d -> small d -> mirrors this eol d ->
  (forall p, model_position d p -> exists this', MM.offsetAt this p = Ok (Some (offset_at d p), this') /\ mirrors this' eol d) /\
  (forall o, 0 <= o <= zlen d -> in_crlf d o = false -> exists p this', MM.positionAt this o = Ok (p, this') /\ mirrors this' eol d /\
     model_position d p /\ offset_at d p = o).
Proof.
  intros He Hn Hs Hm. destruct (ensure_ok this eol d He Hs Hm) as (q & Eq & Hw & Hv & Hl & Hel & Hk). destruct (line_size_starts eol d He Hn) as [Hsum Htot].
  assert (Heol : 1 <= zlen eol <= 2) by (destruct He as [-> | ->]; done). pose proof (breaks_nonneg d) as Hbn. pose proof (breaks_splitLines d) as Hbl.
  assert (Hlen : zlen (PSC.values q) = breaks d + 1) by (rewrite Hv; unfold line_sizes, zlen in *; rewrite length_fmap; done). destruct (small_fits eol d He Hs) as [Hfl _].
  assert (Hstart : forall p, model_position d p -> exists st, sum_to (PSC.values q) (lineNumber p - 1) = st /\ offset_at d p = st + (Position.column p - 1) /\ 0 <= st <= zlen d).
  { intros p Hp. destruct (model_position_line d p Hp) as (st & h & e & Hst & _ & _ & Hc & Ho & H0 & Hz & Hle & Hb). pose proof (zlen_nonneg h). pose proof (zlen_nonneg e).
    exists st. split; [rewrite Hv; apply Hsum; [lia|exact Hst]|]. lia. }
  split.
  - intros p Hp. unfold MM.offsetAt. rewrite (validate_model this eol d p Hm Hp). cbn [result_bind]. rewrite Eq. destruct (Hstart p Hp) as (st & Est & -> & Hst). pose proof Hp as (Hp1 & c & Hpc & _). apply at_lt in Hpc.
    unfold PSC.getPrefixSum. destruct (Z.ltb_spec (lineNumber p - 2) 0) as [H2|H2].
    + assert (E1 : lineNumber p - 1 = 0) by lia. rewrite E1, sum_to_0 in Est. subst st. cbn. eexists. split; [done|]. rewrite Hl. by apply Hk.
    + rewrite to_uint32_id by lia. pose proof (getPrefixSum_ok q (lineNumber p - 2) Hw ltac:(lia) ltac:(lia)) as Hg. destruct (PSC.getPrefixSum_ q (lineNumber p - 2)) as [r q']. destruct Hg as (-> & Hw' & Hv' & _).
      replace (lineNumber p - 2 + 1) with (lineNumber p - 1) by lia. rewrite Est, to_uint32w_id by (unfold is_uint32, small in *; lia). cbn. eexists. split; [done|]. rewrite Hl. by apply Hk.
  - intros o Ho Hc. destruct (end_pos_model d o Ho Hc) as [Hp Eo]. set (p := end_pos _) in *. exists p. destruct (Hstart p Hp) as (st & Est & Eoff & Hst). rewrite Eo in Eoff.
    unfold MM.positionAt. rewrite Z.max_r by lia. rewrite Eq. pose proof Hp as (Hp1 & c & Hpc & Hcol). pose proof (at_lt _ _ _ Hpc) as Hpl.
    assert (Hnext : sum_to (PSC.values q) (lineNumber p - 1 + 1) = st + (zlen c + zlen eol)).
    { rewrite <- Est. apply sum_to_S. rewrite Hv. unfold line_sizes. by rewrite at_fmap, Hpc. }
    assert (Htotal : zsum (PSC.values q) = zlen d + zlen eol) by (by rewrite Hv).
    pose proof (getIndexOf_ok q o Hw ltac:(unfold small in *; lia) ltac:(lia)) as Hg. destruct (PSC.getIndexOf q o) as [out q']. destruct Hg as (Hi & Hrem & Hw' & Hv').
    assert (Ei : PrefixSum.index out = lineNumber p - 1).
    { eapply (is_index_of_unique (PSC.values q)); [apply uint32_nonneg, Hw|exact Hi|]. split; [lia|]. rewrite Est, Hnext. lia. }
    rewrite Ei in *. unfold line_at. rewrite Hl, Hpc. cbn [result_bind]. rewrite Est in Hrem. replace (PrefixSum.remainder out) with (Position.column p - 1) by lia. rewrite Z.min_l by lia.
    eexists. split; [|split; [by apply Hk|split; [exact Hp|exact Eo]]]. f_equal. f_equal. destruct p as [l col]. cbn [lineNumber Position.column]. f_equal; lia.
Qed.

Lemma mirror_positions_witness : (exists this', MM.offsetAt (MTM.new [[97]; [98]] [10] 1) (mkPosition 2 1) = Ok (Some 2, this')) /\
  exists p this', MM.positionAt (MTM.new [[97]; [98]] [10] 1) 2 = Ok (p, this') /\ model_position sample_text p /\ offset_at sample_text p = 2.
Proof.
  assert (Hm : mirrors (MTM.new [[97]; [98]] [10] 1) [10] sample_text) by (by repeat split).
  destruct (mirror_positions [10] sample_text (MTM.new [[97]; [98]] [10] 1) ltac:(by left) ltac:(done) ltac:(done) Hm) as [H1 H2]. split.
  - destruct (H1 (mkPosition 2 1)) as (this' & E & _); [split; [cbn; lia|exists [98]; split; [done|cbn; change (zlen [98]) with 1; lia]]|]. exists this'. exact E.
  - destruct (H2 2 ltac:(change (zlen sample_text) with 3; lia) ltac:(done)) as (p & this' & E & _ & Hp & Ho). exists p, this'. split; [exact E|]. split; [exact Hp|exact Ho].
Defined.
