(* ===== verification/ExtDocument.v ===== *)
(** * Documents of the extension host

    [ExtHostDocumentData] of [src/src/vs/workbench/api/common/extHostDocumentData.ts], the
    mirrored text model that extensions read, and [ExtHostDocumentLine].  The language and the
    dirty flag are kept; the proxy, the URI, saving and the words (regular expressions) are
    left out. *)

From S2P Require Import Prelude Position TextRange ExtTypes PrefixSum PtBuffer PtSpan Strings EditText Mirror.

#[local] Open Scope js_scope.
#[local] Arguments Z.eqb : simpl never.
#[local] Arguments Z.ltb : simpl never.
#[local] Arguments Z.leb : simpl never.
#[local] Arguments Z.add : simpl never.
#[local] Arguments Z.sub : simpl never.

Inductive EndOfLine : Type := EolLF | EolCRLF.

Record ExtHostDocumentLine : Type := mkExtLine {
  extLine_line : Z;
  extLine_text : list Z;
  extLine_isLastLine : bool }.

(** [mirror] is the part of the superclass. *)
Record ExtHostDocumentData : Type := mkExtDoc {
  mirror : MirrorTextModel;
  languageId : list Z;
  isDirty : bool;
  isDisposed : bool }.

Module EL.

Definition range (this : ExtHostDocumentLine) : result ExtRange :=
  ER.new4 (extLine_line this) 0 (extLine_line this) (zlen (extLine_text this)).

Definition rangeIncludingLineBreak (this : ExtHostDocumentLine) : result ExtRange :=
  if extLine_isLastLine this then range this
  else ER.new4 (extLine_line this) 0 (extLine_line this + 1) 0.

End EL.

Module ED.

Definition new (lines : list (list Z)) (eol : list Z) (versionId : Z) (languageId : list Z) (isDirty : bool) : ExtHostDocumentData :=
  mkExtDoc (MTM.new lines eol versionId) languageId isDirty false.

(** [ok(!this._isDisposed)] throws. *)
Definition dispose (this : ExtHostDocumentData) : result ExtHostDocumentData :=
  if isDisposed this then Throw OtherError
  else Ok (mkExtDoc (mirror this) (languageId this) false true).

Definition acceptLanguageId (this : ExtHostDocumentData) (newLanguageId : list Z) : result ExtHostDocumentData :=
  if isDisposed this then Throw OtherError
  else Ok (mkExtDoc (mirror this) newLanguageId (isDirty this) (isDisposed this)).

Definition acceptIsDirty (this : ExtHostDocumentData) (dirty : bool) : result ExtHostDocumentData :=
  if isDisposed this then Throw OtherError
  else Ok (mkExtDoc (mirror this) (languageId this) dirty (isDisposed this)).

Definition equalLines (this : ExtHostDocumentData) (lines : list (list Z)) : bool := bool_decide (lines_ (mirror this) = lines).

Definition version (this : ExtHostDocumentData) : Z := MTM.version (mirror this).
Definition eol (this : ExtHostDocumentData) : EndOfLine := if bool_decide (eol_ (mirror this) = [10]) then EolLF else EolCRLF.
Definition lineCount (this : ExtHostDocumentData) : Z := zlen (lines_ (mirror this)).

Definition with_mirror (m : MirrorTextModel) (this : ExtHostDocumentData) : ExtHostDocumentData :=
  mkExtDoc m (languageId this) (isDirty this) (isDisposed this).

Definition validatePosition (this : ExtHostDocumentData) (position : ExtPosition) : result ExtPosition :=
  let lines := lines_ (mirror this) in
  if zlen lines =? 0 then EP.with_ position (Some 0) (Some 0)
  else if line position <? 0 then EP.new 0 0
  else if zlen lines <=? line position then
    let* l := line_at (mirror this) (zlen lines - 1) in
    EP.new (zlen lines - 1) (zlen l)
  else
    let* l := line_at (mirror this) (line position) in
    if character position <? 0 then EP.new (line position) 0
    else if character position >? zlen l then EP.new (line position) (zlen l)
    else Ok position.

Definition validateRange (this : ExtHostDocumentData) (range : ExtRange) : result ExtRange :=
  let* s := validatePosition this (start range) in
  let* e := validatePosition this (end_ range) in
  if EP.isEqual s (start range) && EP.isEqual e (end_ range) then Ok range
  else ER.new4 (line s) (character s) (line e) (character e).

Definition getTextInRange (this : ExtHostDocumentData) (range : ExtRange) : result (list Z) :=
  let* range := validateRange this range in
  if ER.isEmpty range then Ok []
  else if ER.isSingleLine range then
    let* l := line_at (mirror this) (line (start range)) in
    Ok (substring l (character (start range)) (character (end_ range)))
  else
    let startLineIndex := line (start range) in
    let endLineIndex := line (end_ range) in
    let* first := line_at (mirror this) startLineIndex in
    let* last_ := line_at (mirror this) endLineIndex in
    let between := omap (fun i => (lines_ (mirror this)).[i]) (zrange (startLineIndex + 1) endLineIndex) in
    Ok (js_join (eol_ (mirror this)) (substring_from first (character (start range)) :: between ++ [substring last_ 0 (character (end_ range))])).

Definition getText (this : ExtHostDocumentData) (range : option ExtRange) : result (list Z * ExtHostDocumentData) :=
  match range with
  | Some r => let* t := getTextInRange this r in Ok (t, this)
  | None => let '(t, m) := MTM.getText (mirror this) in Ok (t, with_mirror m this)
  end.

Definition lineAt (this : ExtHostDocumentData) (line : Z) : result ExtHostDocumentLine :=
  if (line <? 0) || (zlen (lines_ (mirror this)) <=? line) then Throw OtherError
  else
    let* l := line_at (mirror this) line in
    Ok (mkExtLine line l (line =? zlen (lines_ (mirror this)) - 1)).

(** [None] is a prefix sum outside the array, where the code computes [NaN]. *)
Definition offsetAt (this : ExtHostDocumentData) (position : ExtPosition) : result (option Z * ExtHostDocumentData) :=
  let* position := validatePosition this position in
  let m := MTM.ensureLineStarts (mirror this) in
  match lineStarts_ m with
  | None => Throw TypeError
  | Some p =>
      let '(sum, p) := PSC.getPrefixSum p (line position - 1) in
      Ok ((fun s => s + character position) <$> sum, with_mirror (MTM.with_lines (lines_ m) (Some p) m) this)
  end.

Definition positionAt (this : ExtHostDocumentData) (offset : Z) : result (ExtPosition * ExtHostDocumentData) :=
  let offset := Z.max 0 offset in
  let m := MTM.ensureLineStarts (mirror this) in
  match lineStarts_ m with
  | None => Throw TypeError
  | Some p =>
      let '(out, p) := PSC.getIndexOf p offset in
      let this := with_mirror (MTM.with_lines (lines_ m) (Some p) m) this in
      let* l := line_at m (PrefixSum.index out) in
      let* pos := EP.new (PrefixSum.index out) (Z.min (PrefixSum.remainder out) (zlen l)) in
      Ok (pos, this)
  end.

End ED.

Implicit Types (this : ExtHostDocumentData) (p : ExtPosition) (r : ExtRange).

(** ** The document and the worker's model *)

(** The same place, counted from 1. *)
Definition up (p : ExtPosition) : Position := mkPosition (line p + 1) (character p + 1).
Definition up_range (r : ExtRange) : Range := mkRange (line (start r) + 1) (character (start r) + 1) (line (end_ r) + 1) (character (end_ r) + 1).

(** What the constructor of a position allows. *)
Definition ext_ok (p : ExtPosition) : Prop := 0 <= line p /\ 0 <= character p.

Lemma ext_new_ok l c : 0 <= l -> 0 <= c -> EP.new l c = Ok (mkPos l c).
Proof. intros. unfold EP.new. destruct (Z.ltb_spec l 0); [lia|]. by destruct (Z.ltb_spec c 0); [lia|]. Qed.

Lemma line_at_nonempty m i : 0 <= i < zlen (lines_ m) -> line_at m i = Ok (default [] ((lines_ m).[i])).
Proof. intros Hi. unfold line_at. by destruct (at_in_range (lines_ m) i Hi) as [l ->]. Qed.

(** The length of a line, and the place in the text nearest to a position. *)
Definition line_len (lines : list (list Z)) (i : Z) : Z := zlen (default [] (lines.[i])).

Definition nearest (lines : list (list Z)) (p : ExtPosition) : ExtPosition :=
  if zlen lines <=? line p then mkPos (zlen lines - 1) (line_len lines (zlen lines - 1))
  else mkPos (line p) (Z.min (character p) (line_len lines (line p))).

Lemma nearest_ok lines p : 0 < zlen lines -> ext_ok p -> ext_ok (nearest lines p) /\ line (nearest lines p) < zlen lines /\
  character (nearest lines p) <= line_len lines (line (nearest lines p)).
Proof.
  intros Hn [Hl Hc]. unfold nearest. assert (0 <= line_len lines (line p)) by apply zlen_nonneg. assert (0 <= line_len lines (zlen lines - 1)) by apply zlen_nonneg.
  destruct (Z.leb_spec (zlen lines) (line p)); (split; [split|]); cbn [line character]; lia.
Qed.

Lemma nearest_mono lines p q : ext_ok p -> ple p q -> ple (nearest lines p) (nearest lines q).
Proof.
  intros [Hl Hc] Hle. unfold ple, nearest in *. destruct (Z.leb_spec (zlen lines) (line p)), (Z.leb_spec (zlen lines) (line q)); cbn [line character]; try lia.
  - destruct (Z.eq_dec (line p) (zlen lines - 1)) as [->|]; lia.
  - destruct Hle as [|[-> ?]]; [|lia]. lia.
Qed.

(** Both validations nearest. *)
Lemma validate_ext this p : 0 < ED.lineCount this -> ext_ok p -> ED.validatePosition this p = Ok (nearest (lines_ (mirror this)) p).
Proof.
  unfold ED.lineCount. intros Hn [Hl Hc]. unfold ED.validatePosition, nearest. destruct (Z.eqb_spec (zlen (lines_ (mirror this))) 0); [lia|]. destruct (Z.ltb_spec (line p) 0); [lia|].
  destruct (Z.leb_spec (zlen (lines_ (mirror this))) (line p)).
  - rewrite line_at_nonempty by lia. cbn [result_bind]. apply ext_new_ok; [lia|apply zlen_nonneg].
  - rewrite line_at_nonempty by lia. cbn [result_bind]. fold (line_len (lines_ (mirror this)) (line p)). rewrite Z.gtb_ltb. destruct (Z.ltb_spec (character p) 0); [lia|].
    destruct (Z.ltb_spec (line_len (lines_ (mirror this)) (line p)) (character p)).
    + rewrite Z.min_r by lia. apply ext_new_ok; [lia|apply zlen_nonneg].
    + rewrite Z.min_l by lia. by destruct p.
Qed.

Lemma validate_worker m p : 0 < zlen (lines_ m) -> ext_ok p -> MM.validatePosition m (up p) = Ok (up (nearest (lines_ m) p)).
Proof.
  intros Hn [Hl Hc]. unfold MM.validatePosition, nearest, up. cbn [lineNumber Position.column]. rewrite Z.gtb_ltb. destruct (Z.ltb_spec (line p + 1) 1); [lia|].
  destruct (Z.leb_spec (zlen (lines_ m)) (line p)); destruct (Z.ltb_spec (zlen (lines_ m)) (line p + 1)); try lia; cbn [line character].
  - rewrite line_at_nonempty by lia. cbn [result_bind]. f_equal. f_equal; lia.
  - replace (line p + 1 - 1) with (line p) by lia. rewrite line_at_nonempty by lia. cbn [result_bind]. fold (line_len (lines_ m) (line p)). rewrite Z.gtb_ltb. destruct (Z.ltb_spec (character p + 1) 1); [lia|].
    destruct (Z.ltb_spec (line_len (lines_ m) (line p) + 1) (character p + 1)); f_equal; f_equal; lia.
Qed.

(** A range whose ends are in order and were made by the constructor. *)
Definition ext_range_ok (r : ExtRange) : Prop := ext_wf r /\ ext_ok (start r) /\ ext_ok (end_ r).

Definition nearest_range (lines : list (list Z)) (r : ExtRange) : ExtRange := mkExtRange (nearest lines (start r)) (nearest lines (end_ r)).

Lemma ext_new4_ok s e : ext_ok s -> ext_ok e -> ple s e -> ER.new4 (line s) (character s) (line e) (character e) = Ok (mkExtRange s e).
Proof. intros [] [] Hle. unfold ER.new4. rewrite !ext_new_ok by done. cbn [result_bind]. destruct s, e. by rewrite new_ordered. Qed.

Lemma validate_range_ext this r : 0 < ED.lineCount this -> ext_range_ok r -> ED.validateRange this r = Ok (nearest_range (lines_ (mirror this)) r).
Proof.
  intros Hn (Hw & Hs & He). unfold ED.validateRange, nearest_range. rewrite !validate_ext by done. cbn [result_bind]. set (s := nearest _ (start r)). set (e := nearest _ (end_ r)).
  destruct (EP.isEqual s (start r)) eqn:E1; [destruct (EP.isEqual e (end_ r)) eqn:E2|]; cbn [andb].
  - apply isEqual_eq in E1, E2. rewrite E1, E2. by destruct r.
  - apply ext_new4_ok; [by apply nearest_ok..|by apply nearest_mono].
  - apply ext_new4_ok; [by apply nearest_ok..|by apply nearest_mono].
Qed.

Lemma validate_range_worker m r : 0 < zlen (lines_ m) -> ext_range_ok r -> MM.validateRange m (up_range r) = Ok (up_range (nearest_range (lines_ m) r)).
Proof.
  intros Hn (Hw & Hs & He). unfold MM.validateRange. unfold up_range at 1 2 3 4. cbn [startLineNumber startColumn endLineNumber endColumn]. fold (up (start r)) (up (end_ r)). rewrite !validate_worker by done. cbn [result_bind].
  match goal with |- (if ?b then _ else _) = _ => destruct b eqn:E end; [done|]. f_equal. revert E. unfold up, up_range, nearest_range. cbn [start end_ lineNumber Position.column startLineNumber startColumn endLineNumber endColumn].
  intros E. f_equal; lia.
Qed.

Lemma up_range_single r : (startLineNumber (up_range r) =? endLineNumber (up_range r)) = ER.isSingleLine r.
Proof. unfold ER.isSingleLine, up_range. cbn [startLineNumber endLineNumber]. destruct (Z.eqb_spec (line (start r)) (line (end_ r))), (Z.eqb_spec (line (start r) + 1) (line (end_ r) + 1)); lia || done. Qed.

Lemma get_text_worker this r : 0 < ED.lineCount this -> ext_range_ok r -> ED.getTextInRange this r = MM.getValueInRange (mirror this) (up_range r).
Proof.
  intros Hn Hr. unfold ED.getTextInRange, MM.getValueInRange. rewrite validate_range_ext, validate_range_worker by done. cbn [result_bind]. set (q := nearest_range _ _). rewrite up_range_single. unfold up_range. cbn [startLineNumber startColumn endLineNumber endColumn].
  replace (line (start q) + 1 - 1) with (line (start q)) by lia. replace (line (end_ q) + 1 - 1) with (line (end_ q)) by lia.
  replace (character (start q) + 1 - 1) with (character (start q)) by lia. replace (character (end_ q) + 1 - 1) with (character (end_ q)) by lia.
  destruct (ER.isEmpty q) eqn:E; [|done]. apply isEqual_eq in E. unfold ER.isSingleLine. rewrite E, Z.eqb_refl.
  assert (Hlt : line (end_ q) < zlen (lines_ (mirror this))) by (apply nearest_ok; [done|apply Hr]). assert (Hge : ext_ok (end_ q)) by (apply nearest_ok; [done|apply Hr]). destruct Hge as [Hg _].
  rewrite line_at_nonempty by lia. cbn [result_bind]. f_equal. unfold substring, sub. rewrite Z.min_id, Z.max_id, Z.sub_diag. done.
Qed.

Lemma offset_at_worker this p : 0 < ED.lineCount this -> ext_ok p ->
  ED.offsetAt this p = (let* x := MM.offsetAt (mirror this) (up p) in Ok (x.1, ED.with_mirror x.2 this)).
Proof.
  intros Hn Hp. unfold ED.offsetAt, MM.offsetAt. rewrite validate_ext, validate_worker by done. cbn [result_bind]. set (q := nearest _ _). unfold up. cbn [lineNumber Position.column].
  replace (line q + 1 - 2) with (line q - 1) by lia. replace (character q + 1 - 1) with (character q) by lia. destruct (lineStarts_ (MTM.ensureLineStarts (mirror this))) as [c|]; [|done]. by destruct (PSC.getPrefixSum c (line q - 1)).
Qed.

Lemma position_at_worker this o q m : ext_ok q -> MM.positionAt (mirror this) o = Ok (up q, m) -> ED.positionAt this o = Ok (q, ED.with_mirror m this).
Proof.
  intros [Hl Hc]. unfold ED.positionAt, MM.positionAt. destruct (lineStarts_ (MTM.ensureLineStarts (mirror this))) as [c|]; [|done]. destruct (PSC.getIndexOf c (Z.max 0 o)) as [out c'].
  destruct (line_at (MTM.ensureLineStarts (mirror this)) (PrefixSum.index out)) as [l|]; [|done]. cbn [result_bind]. unfold up. intros [= E1 E2 <-]. rewrite ext_new_ok by lia. cbn [result_bind]. f_equal. f_equal. destruct q as [lq cq]. cbn [line character] in *. f_equal; lia.
Qed.

(** C15: The extension host and the workers agree.  For a document that has a line, and positions
    and ranges that the constructors of the API allow, the document clamps a position to the
    place to which the worker's model clamps it, cuts the same text out of a range, though it
    decides by other tests which of its three branches to take, and finds the same offsets and
    the same positions; one counts lines and characters from 0, the other from 1. *)
Theorem ext_document_agrees this : 0 < ED.lineCount this ->
  (forall p, ext_ok p -> exists q, ED.validatePosition this p = Ok q /\ ext_ok q /\ MM.validatePosition (mirror this) (up p) = Ok (up q)) /\
  (forall r, ext_range_ok r -> ED.getTextInRange this r = MM.getValueInRange (mirror this) (up_range r)) /\
  (forall p, ext_ok p -> ED.offsetAt this p = (let* x := MM.offsetAt (mirror this) (up p) in Ok (x.1, ED.with_mirror x.2 this))) /\
  (forall o q m, ext_ok q -> MM.positionAt (mirror this) o = Ok (up q, m) -> ED.positionAt this o = Ok (q, ED.with_mirror m this)).
Proof.
  intros Hn. split_and!.
  - intros p Hp. exists (nearest (lines_ (mirror this)) p). split; [by apply validate_ext|]. split; [by apply nearest_ok|by apply validate_worker].
  - intros r Hr. by apply get_text_worker.
  - intros p Hp. by apply offset_at_worker.
  - intros o q m. apply position_at_worker.
Qed.

Lemma ext_document_agrees_witness : let this := ED.new [[97; 98]; [99]] [10] 1 [] false in
  ED.getTextInRange this (mkExtRange (mkPos 0 1) (mkPos 7 0)) = MM.getValueInRange (mirror this) (mkRange 1 2 8 1) /\
  MM.getValueInRange (mirror this) (mkRange 1 2 8 1) = Ok [98; 10; 99].
Proof.
  split; [|reflexivity]. destruct (ext_document_agrees (ED.new [[97; 98]; [99]] [10] 1 [] false) ltac:(reflexivity)) as (_ & H & _).
  apply (H (mkExtRange (mkPos 0 1) (mkPos 7 0))). split; [left; cbn; lia|]. split; split; cbn; lia.
Defined.

(** ** Lines *)

Lemma js_join_cons sep l k ls : js_join sep (l :: k :: ls) = l ++ sep ++ js_join sep (k :: ls).
Proof. done. Qed.

Lemma substring_whole s : substring s 0 (zlen s) = s.
Proof. pose proof (zlen_nonneg s). rewrite substring_sub by lia. apply sub_all. Qed.

(** A position of a line that the line has is its own nearest place. *)
Lemma nearest_in lines l c : l < zlen lines -> c <= line_len lines l -> nearest lines (mkPos l c) = mkPos l c.
Proof. intros Hl Hc. unfold nearest. cbn [line character]. destruct (Z.leb_spec (zlen lines) l); [lia|]. by rewrite Z.min_l. Qed.

Lemma text_in_line this i : 0 <= i < ED.lineCount this -> let l := default [] ((lines_ (mirror this)).[i]) in
  ED.getTextInRange this (mkExtRange (mkPos i 0) (mkPos i (zlen l))) = Ok l.
Proof.
  intros Hi l. assert (Hz : 0 <= zlen l) by apply zlen_nonneg. unfold ED.lineCount in Hi. unfold ED.getTextInRange. rewrite validate_range_ext; [|unfold ED.lineCount; lia|split; [right; cbn; lia|split; split; cbn; lia]].
  unfold nearest_range. cbn [start end_ result_bind]. rewrite !nearest_in by (unfold line_len; fold l; lia). unfold ER.isEmpty, ER.isSingleLine, EP.isEqual. cbn [start end_ line character]. rewrite Z.eqb_refl. cbn [andb].
  destruct (Z.eqb_spec 0 (zlen l)) as [E|]; [f_equal; symmetry; apply nil_length_inv; unfold zlen in E; lia|].
  rewrite line_at_nonempty by lia. cbn [result_bind]. fold l. by rewrite substring_whole.
Qed.

Lemma text_to_next_line this i : 0 <= i -> i + 1 < ED.lineCount this -> let l := default [] ((lines_ (mirror this)).[i]) in
  ED.getTextInRange this (mkExtRange (mkPos i 0) (mkPos (i + 1) 0)) = Ok (l ++ eol_ (mirror this)).
Proof.
  intros Hi Hi' l. unfold ED.lineCount in Hi'. assert (Hlen : forall j, 0 <= line_len (lines_ (mirror this)) j) by (intros; apply zlen_nonneg). unfold ED.getTextInRange. rewrite validate_range_ext; [|unfold ED.lineCount; lia|split; [left; cbn; lia|split; split; cbn; lia]].
  unfold nearest_range. cbn [start end_ result_bind]. rewrite !nearest_in by (done || lia). unfold ER.isEmpty, ER.isSingleLine, EP.isEqual. cbn [start end_ line character].
  destruct (Z.eqb_spec i (i + 1)); [lia|]. cbn [andb]. rewrite !line_at_nonempty by lia. cbn [result_bind]. fold l. rewrite zrange_nil by lia. cbn [omap list_omap app js_join]. unfold substring_from. rewrite substring_whole.
  set (k := default [] _). pose proof (zlen_nonneg k). rewrite substring_sub, sub_same, app_nil_r by lia. done.
Qed.

(** The ranges of a line, with and without the break after it. *)
Lemma line_ranges this i : 0 <= i < ED.lineCount this -> let l := default [] ((lines_ (mirror this)).[i]) in
  exists k, ED.lineAt this i = Ok k /\ extLine_text k = l /\ EL.range k = Ok (mkExtRange (mkPos i 0) (mkPos i (zlen l))) /\
  EL.rangeIncludingLineBreak k = Ok (mkExtRange (mkPos i 0) (if i =? ED.lineCount this - 1 then mkPos i (zlen l) else mkPos (i + 1) 0)).
Proof.
  intros Hi l. unfold ED.lineCount in *. assert (Hz : 0 <= zlen l) by apply zlen_nonneg. exists (mkExtLine i l (i =? zlen (lines_ (mirror this)) - 1)). unfold ED.lineAt. destruct (Z.ltb_spec i 0); [lia|]. destruct (Z.leb_spec (zlen (lines_ (mirror this))) i); [lia|].
  cbn [orb]. rewrite line_at_nonempty by lia. cbn [result_bind]. fold l. split; [done|]. split; [done|]. unfold EL.rangeIncludingLineBreak, EL.range. cbn [extLine_line extLine_text extLine_isLastLine].
  assert (H1 : ER.new4 i 0 i (zlen l) = Ok (mkExtRange (mkPos i 0) (mkPos i (zlen l)))) by (apply (ext_new4_ok (mkPos i 0) (mkPos i (zlen l))); [split; cbn; lia..|right; cbn; lia]).
  split; [exact H1|]. destruct (Z.eqb_spec i (zlen (lines_ (mirror this)) - 1)); [exact H1|]. apply (ext_new4_ok (mkPos i 0) (mkPos (i + 1) 0)); [split; cbn; lia..|left; cbn; lia].
Qed.

(** The text of line [i] with its break, as extensions read it. *)
Definition full_line (this : ExtHostDocumentData) (i : Z) : result (list Z) :=
  let* l := ED.lineAt this i in
  let* r := EL.rangeIncludingLineBreak l in
  ED.getTextInRange this r.

Lemma full_line_ok this i : 0 <= i < ED.lineCount this ->
  full_line this i = Ok (default [] ((lines_ (mirror this)).[i]) ++ (if i =? ED.lineCount this - 1 then [] else eol_ (mirror this))).
Proof.
  intros Hi. unfold full_line. destruct (line_ranges this i Hi) as (k & -> & _ & _ & E). cbn [result_bind]. rewrite E. cbn [result_bind]. destruct (Z.eqb_spec i (ED.lineCount this - 1)).
  - rewrite app_nil_r. by apply text_in_line.
  - apply text_to_next_line; lia.
Qed.

(** Lines [k], [k + 1], ... with the breaks between them. *)
Lemma js_join_lines sep lines k ls : lines = take (Z.to_nat k) lines ++ ls -> 0 <= k -> k + zlen ls = zlen lines ->
  js_join sep ls = concat ((fun i => default [] (lines.[i]) ++ (if i =? zlen lines - 1 then [] else sep)) <$> zrange k (zlen lines)).
Proof.
  revert k. induction ls as [|l ls IH]; intros k E Hk Hz.
  - rewrite zrange_nil; [done|]. change (zlen (@nil (list Z))) with 0 in Hz. lia.
  - assert (Hz1 : zlen (l :: ls) = zlen ls + 1) by (unfold zlen; cbn [List.length]; lia). pose proof (zlen_nonneg ls).
    assert (Htk : zlen (take (Z.to_nat k) lines) = k) by (unfold zlen in *; rewrite length_take; lia).
    assert (Hat : lines.[k] = Some l) by (rewrite E; rewrite <- Htk at 2; apply at_mid).
    rewrite zrange_cons by lia. rewrite fmap_cons. cbn [concat]. rewrite Hat. cbn [default]. rewrite <- IH; [| |lia|lia].
    + destruct ls as [|l' ls].
      * change (zlen [l]) with 1 in Hz. destruct (Z.eqb_spec k (zlen lines - 1)); [|lia]. cbn [js_join]. by rewrite !app_nil_r.
      * rewrite js_join_cons. assert (zlen (l' :: ls) = zlen ls + 1) by (unfold zlen; cbn [List.length]; lia). pose proof (zlen_nonneg ls). destruct (Z.eqb_spec k (zlen lines - 1)); [lia|]. by rewrite <- app_assoc.
    + rewrite E at 1. replace (Z.to_nat (k + 1)) with (S (Z.to_nat k)) by lia. rewrite (take_S_r _ _ l), <- app_assoc; [done|]. revert Hat. unfold at_. by destruct (Z.ltb_spec k 0); [lia|].
Qed.

(** C26: The lines of a document tile its text.  [lineAt] throws exactly outside the document; the
    text of a line's [range] is the line; and the texts of the ranges with their line breaks,
    from the first line to the last, one after the other, are the text of the document. *)
Theorem document_lines_tile this :
  (forall i, (exists l, ED.lineAt this i = Ok l) <-> 0 <= i < ED.lineCount this) /\
  (forall i l, ED.lineAt this i = Ok l -> exists r, EL.range l = Ok r /\ ED.getTextInRange this r = Ok (extLine_text l)) /\
  exists texts, Forall2 (fun i t => full_line this i = Ok t) (zrange 0 (ED.lineCount this)) texts /\ concat texts = js_join (eol_ (mirror this)) (lines_ (mirror this)).
Proof.
  assert (Hin : forall i l, ED.lineAt this i = Ok l -> 0 <= i < ED.lineCount this).
  { intros i l. unfold ED.lineAt, ED.lineCount. destruct (Z.ltb_spec i 0); [done|]. destruct (Z.leb_spec (zlen (lines_ (mirror this))) i); [done|]. lia. }
  split; [|split].
  - intros i. split; [intros [l H]; by eapply Hin|]. intros Hi. destruct (line_ranges this i Hi) as (k & E & _). by exists k.
  - intros i l Hl. pose proof (Hin i l Hl) as Hi. destruct (line_ranges this i Hi) as (k & E & Ht & Hr & _). rewrite Hl in E. injection E as <-. eexists. split; [exact Hr|]. rewrite Ht. by apply text_in_line.
  - eexists. split; [|symmetry; apply (js_join_lines _ (lines_ (mirror this)) 0); [done|lia|done]]. unfold ED.lineCount. apply Forall2_fmap_r, Forall_Forall2_diag, Forall_forall. intros i Hi. apply elem_of_zrange in Hi. by apply full_line_ok.
Qed.
