(* ===== verification/TextSnapshot.v ===== *)
(** * Reading a snapshot of a text

    A snapshot is read chunk by chunk until [null].  [snapshotToString] of
    [workbench/services/textfile/common/textfiles.ts] puts the chunks together, and
    [TextModelSnapshot] of [editor/common/model/textModel.ts] regroups the chunks of another
    snapshot.  The snapshot of a piece tree still reads the text of the tree as it was, while
    the tree is edited. *)

From S2P Require Import Prelude Length Store RbTree RbRep RbMeta PtBuffer PtSpan PieceTree PtState PtEdit PtSearch PtInsert PtDelete PtQuery PtBuild Strings TextBuffer TextBuilder.

#[local] Open Scope js_scope.
#[local] Arguments Z.eqb : simpl never.
#[local] Arguments Z.ltb : simpl never.
#[local] Arguments Z.gtb : simpl never.
#[local] Arguments Z.geb : simpl never.
#[local] Arguments Z.leb : simpl never.
#[local] Arguments Z.add : simpl never.
#[local] Arguments Z.sub : simpl never.

Implicit Types (its xs ys zs : list item) (F : gmap ptr TreeNode) (s : PieceTreeBase) (x : ptr).

(** ** The interface *)

(** [ITextSnapshot]: a chunk, or [None] at the end, and the snapshot after. *)
Class ITextSnapshot (T : Type) : Type := snapshot_read : T -> P (option (list Z) * T).

#[export] Instance PieceTreeSnapshot_ITextSnapshot : ITextSnapshot PieceTreeSnapshot := Snapshot.read.

(** In the state [s] the snapshot reads the chunks [cs], and changes nothing. *)
Fixpoint yields {T} `{ITextSnapshot T} s (snapshot : T) (cs : list (list Z)) : Prop :=
  match cs with
  | [] => exists snapshot', snapshot_read snapshot s = Ok ((None, snapshot'), s)
  | c :: cs' => exists snapshot', snapshot_read snapshot s = Ok ((Some c, snapshot'), s) /\ yields s snapshot' cs'
  end.

(** ** Its users *)

(** [while (typeof (chunk = snapshot.read()) === 'string') chunks.push(chunk)]. *)
Fixpoint read_chunks {T} `{ITextSnapshot T} (fuel : nat) (snapshot : T) (chunks : list (list Z)) : P (list (list Z)) :=
  match fuel with
  | O => throw OtherError
  | S fuel' =>
      '(chunk, snapshot) ← snapshot_read snapshot;
      match chunk with
      | Some chunk => read_chunks fuel' snapshot (chunks ++ [chunk])
      | None => mret chunks
      end
  end.

(** The fuel bounds the number of chunks. *)
Definition snapshotToString {T} `{ITextSnapshot T} (fuel : nat) (snapshot : T) : P (list Z) :=
  chunks ← read_chunks fuel snapshot []; mret (concat chunks).

Record TextModelSnapshot (T : Type) : Type := mkModelSnapshot { source_ : T; eos_ : bool }.
Arguments mkModelSnapshot {T} _ _.
Arguments source_ {T} _.
Arguments eos_ {T} _.

Module TMS.
Section TMS.
Context {T : Type} `{!ITextSnapshot T}.

Definition new (source : T) : TextModelSnapshot T := mkModelSnapshot source false.

(** The loop of [read]; [result] up to [resultCnt]. *)
Fixpoint read_loop (fuel : nat) (this : TextModelSnapshot T) (result : list (list Z)) (resultLength : Z) : P (option (list Z) * TextModelSnapshot T) :=
  match fuel with
  | O => throw OtherError
  | S fuel' =>
      '(tmp, source) ← snapshot_read (source_ this);
      match tmp with
      | None => mret (if zlen result =? 0 then None else Some (concat result), mkModelSnapshot source true)
      | Some tmp =>
          let result := if zlen tmp >? 0 then result ++ [tmp] else result in
          let resultLength := if zlen tmp >? 0 then resultLength + zlen tmp else resultLength in
          if resultLength >=? 64 * 1024 then mret (Some (concat result), mkModelSnapshot source (eos_ this))
          else read_loop fuel' (mkModelSnapshot source (eos_ this)) result resultLength
      end
  end.

Definition read (fuel : nat) (this : TextModelSnapshot T) : P (option (list Z) * TextModelSnapshot T) :=
  if eos_ this then mret (None, this) else read_loop fuel this [] 0.
End TMS.
End TMS.

Definition model_read {T} `{ITextSnapshot T} (fuel : nat) : ITextSnapshot (TextModelSnapshot T) := TMS.read fuel.

(** ** Any snapshot *)

Section snapshot.
Context {T : Type} `{!ITextSnapshot T}.
Implicit Types (snapshot : T) (cs r : list (list Z)).

Lemma wp_snapshotToString fuel s snapshot cs :
  yields s snapshot cs -> (List.length cs < fuel)%nat -> wp (snapshotToString fuel snapshot) s (fun str s' => s' = s /\ str = concat cs).
Proof.
  intros Hy Hf. unfold snapshotToString. pt_step.
  apply (wp_mono _ _ (fun chunks s' => s' = s /\ chunks = [] ++ cs)); [|intros chunks s' [-> ->]; by pt_step].
  generalize (@nil (list Z)) as acc. revert snapshot cs Hy Hf. induction fuel as [|fuel IH]; intros snapshot cs Hy Hf acc; [lia|].
  cbn [read_chunks]. pt_step. destruct cs as [|c cs]; simpl in Hy.
  - destruct Hy as (sn & Hr). unfold wp at 1. rewrite Hr. pt_step. by rewrite app_nil_r.
  - destruct Hy as (sn & Hr & Hy). unfold wp at 1. rewrite Hr. simpl in Hf.
    eapply wp_mono; [apply (IH sn cs Hy); lia|]. intros chunks s' [-> ->]. by rewrite <- app_assoc.
Qed.

Definition big (c : list Z) : Prop := 64 * 1024 <= zlen c.

(** Every chunk has text, and all but the last have 64K code units or more. *)
Definition regrouped cs : Prop := Forall (fun c => c <> []) cs /\ Forall big (removelast cs).

Lemma regrouped_cons c cs : c <> [] -> big c -> regrouped cs -> regrouped (c :: cs).
Proof. intros Hc Hb [H1 H2]. split; [by constructor|]. destruct cs; [constructor|]. by constructor. Qed.

(** One [read]: some chunks of the source make up one chunk, or the source is at its end. *)
Lemma read_loop_ok fuel s (this : TextModelSnapshot T) cs r :
  yields s (source_ this) cs -> (List.length cs < fuel)%nat -> Forall (fun c => c <> []) r ->
  exists pre post src e, cs = pre ++ post /\ let out := concat r ++ concat pre in
    ((TMS.read_loop fuel this r (zlen (concat r)) s = Ok ((Some out, mkModelSnapshot src (eos_ this)), s) /\ big out /\ yields s src post /\ pre <> []) \/
     (TMS.read_loop fuel this r (zlen (concat r)) s = Ok ((e, mkModelSnapshot src true), s) /\ post = [] /\ e = match out with [] => None | _ => Some out end)).
Proof.
  revert this cs r. induction fuel as [|fuel IH]; intros this cs r Hy Hf Hr; [lia|]. cbn [TMS.read_loop].
  unfold mbind, ST_bind. destruct cs as [|c cs]; simpl in Hy.
  - destruct Hy as (src & ->). exists [], [], src, (match concat r with [] => None | _ => Some (concat r) end). split; [done|]. right.
    cbn [concat]. rewrite app_nil_r. split; [|done]. unfold mret, ST_ret. do 4 f_equal. destruct Hr as [|c0 r Hc0 Hr]; [done|].
    rewrite zlen_cons. destruct (Z.eqb_spec (zlen r + 1) 0); [pose proof (zlen_nonneg r); lia|]. cbn [concat]. by destruct c0.
  - destruct Hy as (src & Hread & Hy). rewrite Hread. cbv beta iota. simpl in Hf. rewrite Z.gtb_ltb, Z.geb_leb.
    set (r' := if 0 <? zlen c then r ++ [c] else r).
    assert (Er : (if 0 <? zlen c then zlen (concat r) + zlen c else zlen (concat r)) = zlen (concat r') /\ concat r' = concat r ++ c /\ Forall (fun c => c <> []) r').
    { unfold r'. destruct (Z.ltb_spec 0 (zlen c)) as [Hc|Hc].
      - rewrite concat_app. cbn [concat]. rewrite app_nil_r, zlen_app. split; [done|]. split; [done|]. apply Forall_app. split; [done|]. repeat constructor. by intros ->.
      - assert (c = []) as -> by (destruct c; [done|]; rewrite zlen_cons in Hc; pose proof (zlen_nonneg c); lia). by rewrite app_nil_r. }
    destruct Er as (-> & Ec & Hr'). destruct (Z.leb_spec (64 * 1024) (zlen (concat r'))) as [Hb|Hb].
    + exists [c], cs, src, None. split; [done|]. left. cbn [concat]. rewrite app_nil_r, <- Ec. by split_and!.
    + destruct (IH (mkModelSnapshot src (eos_ this)) cs r' Hy ltac:(lia) Hr') as (pre & post & src' & e & -> & H).
      exists (c :: pre), post, src', e. split; [done|]. cbn [concat eos_] in *. rewrite app_assoc, <- Ec.
      destruct H as [(H1 & H2 & H3 & _)|H]; [left|by right]. by split_and!.
Qed.

(** [TextModelSnapshot] regroups the chunks of its source. *)
Lemma yields_model fuel s (this : TextModelSnapshot T) cs :
  yields s (source_ this) cs -> eos_ this = false -> (List.length cs < fuel)%nat ->
  exists cs', @yields _ (model_read fuel) s this cs' /\ concat cs' = concat cs /\ regrouped cs' /\ (List.length cs' <= List.length cs)%nat.
Proof.
  remember (List.length cs) as n eqn:En. revert cs En this. induction n as [n IH] using lt_wf_ind. intros cs En this Hy He Hf.
  assert (Hread : TMS.read fuel this s = TMS.read_loop fuel this [] (zlen (concat (@nil (list Z)))) s) by (unfold TMS.read; by rewrite He).
  destruct (read_loop_ok fuel s this cs [] Hy ltac:(lia) ltac:(constructor)) as (pre & post & src & e & -> & [(Hr & Hb & Hy' & Hpre)|(Hr & -> & Ee)]);
    rewrite <- Hread in Hr; cbn [concat app] in *.
  - rewrite length_app in En. destruct (IH (List.length post)) with (cs := post) (this := mkModelSnapshot src (eos_ this)) as (cs' & H1 & H2 & H3 & H4);
      [destruct pre; [done|simpl in En; lia]|done|done|done|lia|].
    exists (concat pre :: cs'). split; [by eexists|]. cbn [concat]. rewrite H2, concat_app. split; [done|].
    split; [apply regrouped_cons; [|done|done]; intros E0; rewrite E0 in Hb; by apply Hb|]. destruct pre; [done|]. simpl in *. lia.
  - rewrite app_nil_r in *. destruct (concat pre) as [|c0 out] eqn:Eo.
    + exists []. split; [exists (mkModelSnapshot src true); by rewrite <- Ee|]. split; [done|]. split; [by split|simpl; lia].
    + exists [c0 :: out]. split; [|split; [cbn; by rewrite app_nil_r|split; [split; [by repeat constructor|constructor]|]]].
      * exists (mkModelSnapshot src true). rewrite <- Ee. split; [exact Hr|]. by exists (mkModelSnapshot src true).
      * destruct pre; [done|simpl in *; lia].
Qed.
End snapshot.

(** ** The snapshot of a piece tree *)

Lemma normalized_ends s d a b : eol_ok s d -> EOLNormalized_ s = true -> d = a ++ b -> torn a b = false -> ends_cr a = false.
Proof.
  intros [He Hn] Hnorm -> Ht. specialize (Hn Hnorm). unfold normalized in Hn. destruct (ends_cr a) eqn:Ea; [|done]. exfalso.
  unfold torn in Ht. rewrite Ea in Ht. cbn [andb] in Ht.
  destruct (last a) as [c|] eqn:El; unfold ends_cr in Ea; rewrite El in Ea; [|done]. apply Z.eqb_eq in Ea as ->.
  apply last_Some in El as [a' ->]. rewrite <- app_assoc in Hn. cbn [app] in Hn. destruct He as [He|He]; rewrite He in Hn.
  - apply (replaceEOL_no_cr (a' ++ 13 :: b)). rewrite Hn. apply elem_of_app. right. left.
  - apply replaceEOL_pairs in Hn as [b' ->]. done.
Qed.

(** No text of a node ends with a CR then. *)
Lemma normalized_texts s its : good its -> eol_ok s (doc its) -> EOLNormalized_ s = true ->
  Forall (fun it => it.2.2 <> [] /\ ends_cr it.2.2 = false) its.
Proof.
  intros Hg He Hn. apply Forall_forall. intros [x [p str]] (xs & ys & ->)%list_elem_of_split. cbn [fst snd].
  apply good_app in Hg as (_ & (Hne & Ht & _)%good_cons & _). split; [done|]. rewrite doc_app, doc_cons, app_assoc in He.
  pose proof (normalized_ends s _ _ _ He Hn eq_refl) as H. rewrite torn_app_l in H by done. specialize (H Ht).
  unfold ends_cr in *. destruct str as [|c str _] using rev_ind; [done|]. by rewrite app_assoc, last_snoc in *.
Qed.

(** A snapshot of pieces that have these texts. *)
Lemma yields_rest s ps (texts : list (list Z)) BOM k :
  Forall2 (fun p str => has_text (buffers_ s) p str) ps texts -> (0 < k)%nat -> yields s (mkSnapshot ps (Z.of_nat k) BOM) (drop k texts).
Proof.
  intros Hf. remember (List.length texts - k)%nat as n eqn:En. revert k En. induction n as [|n IH]; intros k En Hk.
  - pose proof (Forall2_length _ _ _ Hf) as Hl. rewrite drop_ge by lia. exists (mkSnapshot ps (Z.of_nat k) BOM).
    unfold snapshot_read, PieceTreeSnapshot_ITextSnapshot, Snapshot.read. cbn [pieces_ index_ BOM_].
    destruct (Z.eqb_spec (zlen ps) 0); [destruct (Z.eqb_spec (Z.of_nat k) 0); [lia|done]|]. rewrite Z.gtb_ltb.
    destruct (Z.ltb_spec (zlen ps - 1) (Z.of_nat k)); [done|unfold zlen in *; lia].
  - destruct (lookup_lt_is_Some_2 texts k) as [str Hstr]; [lia|]. destruct (Forall2_lookup_r _ _ _ _ _ Hf Hstr) as (p & Hp & [Hsp _]).
    rewrite (drop_S _ _ _ Hstr). exists (mkSnapshot ps (Z.of_nat (S k)) BOM). split; [|apply IH; lia].
    unfold snapshot_read, PieceTreeSnapshot_ITextSnapshot, Snapshot.read. cbn [pieces_ index_ BOM_].
    pose proof (lookup_lt_Some _ _ _ Hp). destruct (Z.eqb_spec (zlen ps) 0); [unfold zlen in *; lia|]. rewrite Z.gtb_ltb.
    destruct (Z.ltb_spec (zlen ps - 1) (Z.of_nat k)); [unfold zlen in *; lia|]. rewrite at_nat, Hp.
    unfold mbind, ST_bind, non_null, mret, ST_ret, on_buffers. rewrite (span_content _ _ _ Hsp).
    destruct (Z.eqb_spec (Z.of_nat k) 0); [lia|]. do 3 f_equal. f_equal. lia.
Qed.

Lemma yields_pieces s ps (texts : list (list Z)) BOM :
  Forall2 (fun p str => has_text (buffers_ s) p str) ps texts ->
  exists cs, yields s (mkSnapshot ps 0 BOM) cs /\ concat cs = BOM ++ concat texts /\ (List.length cs <= S (List.length ps))%nat.
Proof.
  intros Hf. pose proof (Forall2_length _ _ _ Hf) as Hl. destruct Hf as [|p str ps texts [Hsp Hp] Hf].
  - exists [BOM]. split; [|done]. exists (mkSnapshot [] 1 BOM). split; [done|]. apply (yields_rest s [] [] BOM 1); [constructor|lia].
  - exists ((BOM ++ str) :: texts). split; [|split; [cbn; by rewrite app_assoc|simpl in *; lia]]. exists (mkSnapshot (p :: ps) 1 BOM). split.
    + unfold snapshot_read, PieceTreeSnapshot_ITextSnapshot, Snapshot.read. cbn [pieces_ index_ BOM_]. rewrite zlen_cons.
      pose proof (zlen_nonneg ps). destruct (Z.eqb_spec (zlen ps + 1) 0); [lia|]. rewrite Z.gtb_ltb. destruct (Z.ltb_spec (zlen ps + 1 - 1) 0); [lia|].
      change ((p :: ps).[0]) with (Some p). unfold mbind, ST_bind, non_null, mret, ST_ret, on_buffers. by rewrite (span_content _ _ _ Hsp).
    + apply (yields_rest s (p :: ps) (str :: texts) BOM 1); [|lia]. constructor; [by split|done].
Qed.

Lemma wp_snapshot_new F s its BOM :
  wf F s its -> good its -> wp (Snapshot.new BOM) s (fun sn s' => s' = s /\ sn = mkSnapshot ((fun it => it.2.1) <$> its) 0 BOM).
Proof.
  intros Hs Hg. unfold Snapshot.new. pt_step. eapply wp_root; [exact Hs|]. intros r Hr. rewrite Hr. pt_step.
  apply (wp_mono _ _ (fun v s' => s' = s /\ v = (fun it => it.2.1) <$> its)); [|intros v s' [-> ->]; by pt_step].
  destruct (bool_decide_reflect (its = [])) as [-> |Hne]; simpl negb; cbv iota; [by pt_step|]. pt_step.
  eapply wp_mono; [apply (wp_iterate_fold _ s F its (fun v (it : item) => v ++ [it.2.1])); [exact Hs|exact Hg|..]|].
  - intros v. change (SENTINEL =? SENTINEL) with true. simpl negb. cbv iota. by pt_step.
  - intros v [x [p str]] Hin. cbn [fst snd]. assert (Hx : x <> SENTINEL) by (apply list_elem_of_split in Hin as (xs & ys & ->); by eapply wf_node_ne).
    destruct (Z.eqb_spec x SENTINEL); [done|]. simpl negb. cbv iota. pt_step. eapply wp_npiece; [exact Hs|exact Hin|]. by pt_step.
  - intros [v b] s' [-> [= -> ->]]. pt_step. split; [done|]. by rewrite foldl_snoc_map.
Qed.

(** An edit of the document. *)
Inductive edit F : PieceTreeBase -> PieceTreeBase -> Prop :=
  | edit_insert s d off v n s' :
      represents F s d -> 0 <= off <= zlen d -> v <> [] -> blen s + zlen v + 5 < max_buffer ->
      (EOLNormalized_ s && n = true -> normalized (EOL_ s) (inserted_text d off v)) ->
      PT.insert off v n s = Ok (tt, s') -> edit F s s'
  | edit_delete s d off cnt s' :
      represents F s d -> 0 <= off -> off + Z.max 0 cnt <= zlen d -> blen s + 3 < max_buffer ->
      (EOLNormalized_ s = true -> normalized (EOL_ s) (deleted_text d off cnt)) ->
      PT.delete off cnt s = Ok (tt, s') -> edit F s s'.

Lemma edits_keep F s s' : rtc (edit F) s s' -> keeps (buffers_ s) (buffers_ s').
Proof.
  induction 1 as [s|s1 s2 s3 He _ IH]; [done|]. etrans; [|exact IH].
  destruct He as [s d off v n s' Hr Ho Hv Hb Hn Hrun|s d off cnt s' Hr Ho Hc Hb Hn Hrun].
  - pose proof (wp_insert F s d off v n Hr Ho Hv Hb Hn) as H. unfold wp in H. rewrite Hrun in H. apply H.
  - pose proof (wp_delete_doc F s d off cnt Hr Ho Hc Hb Hn) as H. unfold wp in H. rewrite Hrun in H. apply H.
Qed.

Lemma snapshot_yields F s d BOM :
  represents F s d -> EOLNormalized_ s = true ->
  exists snapshot, Snapshot.new BOM s = Ok (snapshot, s) /\ forall s', rtc (edit F) s s' ->
    exists cs, yields s' snapshot cs /\ concat cs = BOM ++ d /\ (List.length cs <= S (List.length (pieces_ snapshot)))%nat.
Proof.
  intros (its & Hs & Hg & Hd & _ & _ & _ & _ & He) Hn. pose proof (wp_snapshot_new F s its BOM Hs Hg) as Hw.
  apply wp_run in Hw as (sn & s0 & Hrun & -> & ->). eexists. split; [exact Hrun|]. intros s' Hedits. pose proof (edits_keep _ _ _ Hedits) as Hk.
  rewrite <- Hd in He. pose proof (normalized_texts s its Hg He Hn) as Hn'. cbn [pieces_].
  assert (Hf : Forall2 (fun p str => has_text (buffers_ s') p str) ((fun it => it.2.1) <$> its) (txts its)).
  { unfold txts. rewrite Forall2_fmap, Forall2_same_length_lookup. split; [done|]. intros i a b Ha Hb. rewrite Ha in Hb. injection Hb as <-.
    apply list_elem_of_lookup_2 in Ha. rewrite Forall_forall in Hn'. destruct (Hn' a Ha) as [H1 H2]. apply Hk; [done|done|].
    destruct a as [x [p str]]. by eapply wf_in. }
  destruct (yields_pieces s' _ _ BOM Hf) as (cs & H1 & H2 & H3). exists cs. split; [done|]. split; [|done]. by rewrite H2, <- Hd.
Qed.



(** When line endings are not normalized, a CR at the end of the change buffer shares its
    line with a LF typed after it, which the snapshot then has too. *)
Example snapshot_with_lone_CR : exists s,
  (PT.insert 0 [13] false;; snapshot ← Snapshot.new []; PT.insert 1 [10] false;; snapshotToString 5 snapshot) empty_tree = Ok ([13; 10], s).
Proof. eexists. vm_compute. reflexivity. Qed.

(** ** Loading and saving *)

(** C10: Loading and saving a text.  Let a text of less than 2^30 code units come in chunks, none
    of which is a byte order mark alone, or a single CR or high surrogate, with a byte order mark
    before it or not.  It is loaded with normalized line endings; reading the snapshot of the
    buffer with its byte order mark to the end gives the mark and the text back, with all line
    breaks made the same; a text whose breaks are all the chosen one is saved exactly as it was
    loaded. *)
Theorem load_save_roundtrip cs def :
  Forall chunk_fine cs -> 2 * zlen (concat cs) < max_buffer ->
  let T := stripUTF8BOM (concat cs) in let eol := chosen_eol T def in
  exists b, load cs true def = Ok b /\ exists snapshot b', TB.createSnapshot true b = Ok (snapshot, b') /\
    forall fuel, (S (List.length (pieces_ snapshot)) < fuel)%nat ->
      snapshotToString fuel snapshot (pieceTree_ b') = Ok (bom_of (concat cs) ++ replaceEOL T eol, pieceTree_ b') /\
      (normalized eol T -> bom_of (concat cs) ++ replaceEOL T eol = concat cs).
Proof.
  intros Hc Hl T eol. destruct (load_ok cs true def Hc Hl) as (b & Hb & Hr & _ & Hn & Hbom & _). fold T eol in Hr. exists b. split; [exact Hb|].
  destruct (snapshot_yields ∅ _ _ (BOM_buffer b) Hr Hn) as (sn & Hnew & Hsn). exists sn, b. split.
  { unfold TB.createSnapshot, TB.getBOM. unfold mbind, ST_bind, gets. cbn. unfold on_pieces. rewrite Hnew. by destruct b. }
  intros fuel Hf. destruct (Hsn _ (rtc_refl _ _)) as (cs' & Hy & Ecs & Hlen). pose proof (wp_snapshotToString fuel _ sn cs' Hy ltac:(lia)) as H1.
  apply wp_run in H1 as (str & s1 & -> & -> & ->). rewrite Ecs, Hbom. split; [done|]. intros ->. unfold T, bom_of, stripUTF8BOM.
  destruct (startsWithUTF8BOM (concat cs)) eqn:Eb; [|done]. by destruct (bom_inv _ Eb) as [t ->].
Qed.

Lemma load_save_roundtrip_witness : exists b snapshot b', load [[65279; 97; 10]; [98; 10]] true DefaultCRLF = Ok b /\
  TB.createSnapshot true b = Ok (snapshot, b') /\ snapshotToString 5 snapshot (pieceTree_ b') = Ok ([65279; 97; 10; 98; 10], pieceTree_ b').
Proof.
  assert (Hf : Forall chunk_fine [[65279; 97; 10]; [98; 10]]) by (apply Forall_cons_2; [|apply Forall_cons_2; [|apply Forall_nil_2]]; (split; [repeat (apply Forall_cons_2; [lia|]); apply Forall_nil_2|split; [discriminate|intros x [?|?]; discriminate]])).
  destruct (load_save_roundtrip [[65279; 97; 10]; [98; 10]] DefaultCRLF Hf ltac:(by vm_compute)) as (b & Hb & sn & b' & Hsn & Hread).
  exists b, sn, b'. split; [exact Hb|]. split; [exact Hsn|]. vm_compute in Hb. injection Hb as <-. vm_compute in Hsn. injection Hsn as <- <-.
  apply (Hread 5%nat). simpl. lia.
Defined.
