(* ===== verification/Diff.v ===== *)
(** * Diffs of two sequences

    The data of [src/src/vs/editor/common/diff/defaultLinesDiffComputer/algorithms/diffAlgorithm.ts]:
    [SequenceDiff], [DiffAlgorithmResult], the interface [ISequence] and the timeouts; the
    implementation [LineSequence] of [lineSequence.ts].  [describes] says when a list of diffs
    leads from one sequence to another: what lies between two diffs is the same in both.  A
    list that does so rebuilds the second sequence from the first ([patch]). *)

From S2P Require Import Prelude OffsetRange TextChange.

#[local] Open Scope js_scope.

Record SequenceDiff : Type := mkDiff { seq1Range : OffsetRange; seq2Range : OffsetRange }.

Abbreviation b1 d := (start (seq1Range d)).
Abbreviation e1 d := (endExclusive (seq1Range d)).
Abbreviation b2 d := (start (seq2Range d)).
Abbreviation e2 d := (endExclusive (seq2Range d)).

Record DiffAlgorithmResult : Type := mkDiffResult { diffs : list SequenceDiff; hitTimeout : bool }.

(** [getElement] of an offset outside is [undefined]; the score is an optional method. *)
Record ISequence : Type := mkSequence {
  getElement : Z -> option Z;
  seq_length : Z;
  getBoundaryScore : option (Z -> Z);
  isStronglyEqual : Z -> Z -> bool }.

(** What an implementation promises: the elements are those of an array, and elements that are
    strongly equal are equal. *)
Record sequence_ok (s : ISequence) : Prop := {
  sq_length : 0 <= seq_length s;
  sq_inside : forall i, 0 <= i < seq_length s -> is_Some (getElement s i);
  sq_outside : forall i, ~ 0 <= i < seq_length s -> getElement s i = None;
  sq_strong : forall i j, isStronglyEqual s i j = true -> getElement s i = getElement s j }.

(** The answer to the n-th question whether there is time left. *)
Definition ITimeout : Type := nat -> bool.
Definition InfiniteTimeout : ITimeout := fun _ => true.

Module SDiff.

(** [new SequenceDiff(new OffsetRange(..), new OffsetRange(..))]. *)
Definition new (s1 e1 s2 e2 : Z) : result SequenceDiff :=
  let* r1 := OR.new_OffsetRange s1 e1 in
  let* r2 := OR.new_OffsetRange s2 e2 in
  Ok (mkDiff r1 r2).

(** [forEachAdjacent] with the callback of [invert]. *)
Fixpoint invert_from (a : option SequenceDiff) (doc1Length : Z) (sequenceDiffs : list SequenceDiff) : result (list SequenceDiff) :=
  let seq1Start := match a with Some a => e1 a | None => 0 end in
  let seq2Start := match a with Some a => e2 a | None => 0 end in
  match sequenceDiffs with
  | [] => let* d := new seq1Start doc1Length seq2Start (match a with Some a => e2 a - e1 a | None => 0 end + doc1Length) in Ok [d]
  | b :: rest => let* d := new seq1Start (b1 b) seq2Start (b2 b) in let* l := invert_from (Some b) doc1Length rest in Ok (d :: l)
  end.

Definition invert (sequenceDiffs : list SequenceDiff) (doc1Length : Z) : result (list SequenceDiff) := invert_from None doc1Length sequenceDiffs.

Definition swap (this : SequenceDiff) : SequenceDiff := mkDiff (seq2Range this) (seq1Range this).

Definition join (this other : SequenceDiff) : result SequenceDiff :=
  let* r1 := OR.join (seq1Range this) (seq1Range other) in
  let* r2 := OR.join (seq2Range this) (seq2Range other) in
  Ok (mkDiff r1 r2).

Definition delta (this : SequenceDiff) (offset : Z) : result SequenceDiff :=
  if offset =? 0 then Ok this
  else
    let* r1 := OR.delta (seq1Range this) offset in
    let* r2 := OR.delta (seq2Range this) offset in
    Ok (mkDiff r1 r2).

End SDiff.

Definition trivial (seq1 seq2 : ISequence) : result DiffAlgorithmResult :=
  let* d := SDiff.new 0 (seq_length seq1) 0 (seq_length seq2) in Ok (mkDiffResult [d] false).

Definition trivialTimedOut (seq1 seq2 : ISequence) : result DiffAlgorithmResult :=
  let* d := SDiff.new 0 (seq_length seq1) 0 (seq_length seq2) in Ok (mkDiffResult [d] true).

(** ** The timeout of a clock *)

Record DateTimeout : Type := mkDateTimeout { startTime : Z; valid : bool; timeout : Z; disabled : bool }.

Module DT.

(** [now] is what [Date.now] gives. *)
Definition new (timeout now : Z) : result DateTimeout :=
  if timeout <=? 0 then Throw BugIndicatingError else Ok (mkDateTimeout now true timeout false).

Definition isValid (now : Z) (this : DateTimeout) : bool * DateTimeout :=
  if disabled this then (true, this)
  else
    let this := if negb (now - startTime this <? timeout this) && valid this then mkDateTimeout (startTime this) false (timeout this) false else this in
    (valid this, this).

Definition disable (this : DateTimeout) : DateTimeout := mkDateTimeout (startTime this) true MAX_SAFE_INTEGER true.

(** The answers at some times, one after the other. *)
Fixpoint answers (times : list Z) (this : DateTimeout) : list bool :=
  match times with [] => [] | now :: times => let '(b, this) := isValid now this in b :: answers times this end.

End DT.

(** ** Lines as a sequence *)

Record LineSequence : Type := mkLineSequence { trimmedHash : list Z; seq_lines : list jsstr }.

Definition getIndentation (str : jsstr) : Z :=
  while (length str) (fun i => match str.[i] with Some c => (c =? 32) || (c =? 9) | None => false end) (fun i => i + 1) 0.

Module LS.

Definition getElement (this : LineSequence) (offset : Z) : option Z := (trimmedHash this).[offset].
Definition length (this : LineSequence) : Z := zlen (trimmedHash this).

(** The lines are as many as the hashes, so that a line that is asked for is there. *)
Definition getBoundaryScore (this : LineSequence) (length : Z) : Z :=
  let indentationBefore := if length =? 0 then 0 else getIndentation (default [] (seq_lines this).[length - 1]) in
  let indentationAfter := if length =? zlen (seq_lines this) then 0 else getIndentation (default [] (seq_lines this).[length]) in
  1000 - (indentationBefore + indentationAfter).

(** [join], with a line feed. *)
Fixpoint join_lines (l : list jsstr) : jsstr :=
  match l with [] => [] | [s] => s | s :: l => s ++ 10 :: join_lines l end.

Definition getText (this : LineSequence) (range : OffsetRange) : jsstr :=
  join_lines (slice (seq_lines this) (start range) (endExclusive range)).

Definition isStronglyEqual (this : LineSequence) (offset1 offset2 : Z) : bool :=
  bool_decide ((seq_lines this).[offset1] = (seq_lines this).[offset2]).

Definition sequence (this : LineSequence) : ISequence :=
  mkSequence (getElement this) (length this) (Some (getBoundaryScore this)) (isStronglyEqual this).

End LS.

(** ** What a diff means *)

(** From [a] and [b] on, up to [a'] and [b'], both sequences are the same. *)
Definition matched (s1 s2 : ISequence) (a b a' b' : Z) : Prop :=
  a <= a' /\ a' - a = b' - b /\ forall i, 0 <= i < a' - a -> getElement s1 (a + i) = getElement s2 (b + i).

(** The diffs lead from the first sequence to the second, from [a] and [b] on. *)
Fixpoint describes (s1 s2 : ISequence) (a b : Z) (ds : list SequenceDiff) : Prop :=
  match ds with
  | [] => matched s1 s2 a b (seq_length s1) (seq_length s2)
  | d :: ds => matched s1 s2 a b (b1 d) (b2 d) /\ b1 d <= e1 d /\ b2 d <= e2 d /\ describes s1 s2 (e1 d) (e2 d) ds
  end.

(** An element lies between every two diffs, and every diff changes something. *)
Definition apart (d d' : SequenceDiff) : Prop := e1 d < b1 d'.
Definition changes (d : SequenceDiff) : Prop := b1 d < e1 d \/ b2 d < e2 d.

Fixpoint separated (ds : list SequenceDiff) : Prop :=
  match ds with
  | [] => True
  | d :: ds => match ds with [] => True | d' :: _ => apart d d' end /\ separated ds
  end.

Definition elements (s : ISequence) (a b : Z) : list (option Z) := getElement s <$> zrange a b.

(** The first sequence with the changed parts of the second. *)
Fixpoint patch (s1 s2 : ISequence) (a : Z) (ds : list SequenceDiff) : list (option Z) :=
  match ds with
  | [] => elements s1 a (seq_length s1)
  | d :: ds => elements s1 a (b1 d) ++ elements s2 (b2 d) (e2 d) ++ patch s1 s2 (e1 d) ds
  end.

(** The elements that are removed and inserted. *)
Definition cost (ds : list SequenceDiff) : Z := foldr (fun d n => (e1 d - b1 d) + (e2 d - b2 d) + n) 0 ds.

(** ** Lemmas *)

Lemma new_ok s1 e1 s2 e2 : s1 <= e1 -> s2 <= e2 -> SDiff.new s1 e1 s2 e2 = Ok (mkDiff (mkOffsetRange s1 e1) (mkOffsetRange s2 e2)).
Proof. intros H1 H2. unfold SDiff.new. by rewrite !new_OffsetRange_ok by lia. Qed.

Lemma delta_ok d k : b1 d <= e1 d -> b2 d <= e2 d ->
  SDiff.delta d k = Ok (mkDiff (mkOffsetRange (b1 d + k) (e1 d + k)) (mkOffsetRange (b2 d + k) (e2 d + k))).
Proof.
  intros H1 H2. unfold SDiff.delta. destruct (Z.eqb_spec k 0) as [->|]; [|by unfold OR.delta; rewrite !new_OffsetRange_ok by lia].
  rewrite !Z.add_0_r. by destruct d as [[] []].
Qed.

Lemma diff_join_ok d d' : b1 d <= e1 d -> b2 d <= e2 d -> e1 d <= b1 d' -> e2 d <= b2 d' -> b1 d' <= e1 d' -> b2 d' <= e2 d' ->
  SDiff.join d d' = Ok (mkDiff (mkOffsetRange (b1 d) (e1 d')) (mkOffsetRange (b2 d) (e2 d'))).
Proof. intros. unfold SDiff.join, OR.join. rewrite !new_OffsetRange_ok by lia. cbn. repeat f_equal; lia. Qed.

Lemma trivial_ok s1 s2 : sequence_ok s1 -> sequence_ok s2 ->
  exists ds, trivial s1 s2 = Ok (mkDiffResult ds false) /\ trivialTimedOut s1 s2 = Ok (mkDiffResult ds true) /\ describes s1 s2 0 0 ds /\ separated ds.
Proof.
  intros H1 H2. pose proof (sq_length _ H1). pose proof (sq_length _ H2). unfold trivial, trivialTimedOut. rewrite new_ok by lia. eexists. split; [done|]. split; [done|]. split; [|done].
  cbn. unfold matched. split_and?; try done; try lia; intros i Hi; lia.
Qed.

Section descriptions.
Context (s1 s2 : ISequence).

Lemma matched_refl a b : matched s1 s2 a b a b.
Proof. unfold matched. split_and!; lia. Qed.

Lemma matched_trans a b a' b' a'' b'' : matched s1 s2 a b a' b' -> matched s1 s2 a' b' a'' b'' -> matched s1 s2 a b a'' b''.
Proof.
  intros (H1 & H2 & H3) (H4 & H5 & H6). split_and!; [lia..|]. intros i Hi. destruct (decide (i < a' - a)) as [Hl|Hl]; [apply H3; lia|].
  replace (a + i) with (a' + (i - (a' - a))) by lia. replace (b + i) with (b' + (i - (a' - a))) by lia. apply H6. lia.
Qed.

Lemma matched_sub a b a' b' x y : matched s1 s2 a b a' b' -> a <= x <= y -> y <= a' -> matched s1 s2 x (b + (x - a)) y (b + (y - a)).
Proof.
  intros (H1 & H2 & H3) Hx Hy. split_and!; [lia..|]. intros i Hi.
  replace (x + i) with (a + (x - a + i)) by lia. replace (b + (x - a) + i) with (b + (x - a + i)) by lia. apply H3. lia.
Qed.

Lemma elements_split s a b c : a <= b <= c -> elements s a c = elements s a b ++ elements s b c.
Proof.
  intros H. unfold elements. rewrite <- fmap_app. f_equal. revert a H. intros a [Ha Hb]. remember (Z.to_nat (b - a)) as n eqn:En. revert a Ha En.
  induction n as [|n IH]; intros a Ha En; [assert (a = b) by lia; subst b; by rewrite (zrange_nil a a) by lia|].
  rewrite (zrange_cons a c), (zrange_cons a b) by lia. cbn. f_equal. apply IH; lia.
Qed.

Lemma elements_matched a b a' b' : matched s1 s2 a b a' b' -> elements s1 a a' = elements s2 b b'.
Proof.
  intros (H1 & H2 & H3). remember (Z.to_nat (a' - a)) as n eqn:En. revert a b H1 H2 H3 En. induction n as [|n IH]; intros a b H1 H2 H3 En.
  - unfold elements. by rewrite !zrange_nil by lia.
  - unfold elements. rewrite (zrange_cons a), (zrange_cons b) by lia. cbn. pose proof (H3 0 ltac:(lia)) as H0. rewrite !Z.add_0_r in H0. rewrite H0. f_equal. apply IH; [lia..| |lia].
    intros i Hi. replace (a + 1 + i) with (a + (1 + i)) by lia. replace (b + 1 + i) with (b + (1 + i)) by lia. apply H3. lia.
Qed.

Lemma describes_bounds a b ds : describes s1 s2 a b ds -> a <= seq_length s1 /\ b <= seq_length s2.
Proof. revert a b. induction ds as [|d ds IH]; intros a b H; [destruct H; lia|]. destruct H as ((?&?&?) & ? & ? & H). apply IH in H. lia. Qed.

(** Diffs that describe the way to the second sequence rebuild it. *)
Lemma describes_patch a b ds : describes s1 s2 a b ds -> patch s1 s2 a ds = elements s2 b (seq_length s2).
Proof.
  revert a b. induction ds as [|d ds IH]; intros a b H; [by apply elements_matched|].
  destruct H as (Hm & H1 & H2 & H). cbn [patch]. rewrite (IH _ _ H), (elements_matched _ _ _ _ Hm). pose proof (describes_bounds _ _ _ H).
  rewrite (elements_split s2 b (b2 d) (seq_length s2)) by (destruct Hm as (?&?&?); lia). by rewrite (elements_split s2 (b2 d) (e2 d) (seq_length s2)) by lia.
Qed.

Lemma describes_later a b a' b' ds : matched s1 s2 a b a' b' -> describes s1 s2 a' b' ds -> describes s1 s2 a b ds.
Proof. intros Hm. destruct ds as [|d ds]; cbn; [by apply matched_trans|]. intros (H1 & H). split; [by eapply matched_trans|done]. Qed.

Lemma describes_app a b ds d ds' : describes s1 s2 a b (ds ++ d :: ds') <->
  describes (mkSequence (getElement s1) (b1 d) None (fun _ _ => false)) (mkSequence (getElement s2) (b2 d) None (fun _ _ => false)) a b ds /\
  b1 d <= e1 d /\ b2 d <= e2 d /\ describes s1 s2 (e1 d) (e2 d) ds'.
Proof. revert a b. induction ds as [|c ds IH]; intros a b; cbn; [tauto|]. rewrite IH. tauto. Qed.

End descriptions.

(** Exchanging the sequences. *)
Lemma matched_swap s1 s2 a b a' b' : matched s1 s2 a b a' b' -> matched s2 s1 b a b' a'.
Proof. intros (H1 & H2 & H3). split_and!; [lia..|]. intros i Hi. symmetry. apply H3. lia. Qed.

Lemma describes_swap s1 s2 a b ds : describes s1 s2 a b ds -> describes s2 s1 b a (SDiff.swap <$> ds).
Proof.
  revert a b. induction ds as [|d ds IH]; intros a b; cbn; [by apply matched_swap|].
  intros (Hm & H1 & H2 & H). split_and!; [by apply matched_swap|done..|by apply IH].
Qed.

(** The lines with a hash of each are a sequence as it should be. *)
Lemma LS_ok (h : jsstr -> Z) lines : sequence_ok (LS.sequence (mkLineSequence (h <$> lines) lines)).
Proof.
  assert (Ha : forall i, LS.getElement (mkLineSequence (h <$> lines) lines) i = h <$> lines.[i]).
  { intros i. unfold LS.getElement, at_. cbn. destruct (i <? 0); [done|]. apply list_lookup_fmap. }
  assert (Hl : LS.length (mkLineSequence (h <$> lines) lines) = zlen lines) by (unfold LS.length, zlen; cbn; by rewrite length_fmap).
  split; cbn [LS.sequence getElement seq_length isStronglyEqual].
  - unfold LS.length. apply zlen_nonneg.
  - intros i Hi. rewrite Hl in Hi. rewrite Ha. destruct (at_in_range lines i Hi) as [x ->]. by eexists.
  - intros i Hi. rewrite Hl in Hi. rewrite Ha. destruct (lines.[i]) eqn:E; [|done]. apply at_lt in E. lia.
  - intros i j Hs. apply bool_decide_eq_true in Hs. cbn in Hs. by rewrite !Ha, Hs.
Qed.

(** Inverting a description gives the parts that are the same. *)
Lemma invert_from_matched s1 s2 a ds : describes s1 s2 (match a with Some a => e1 a | None => 0 end) (match a with Some a => e2 a | None => 0 end) ds ->
  exists l, SDiff.invert_from a (seq_length s1) ds = Ok l /\ Forall (fun d => matched s1 s2 (b1 d) (b2 d) (e1 d) (e2 d)) l.
Proof.
  revert a. induction ds as [|d ds IH]; intros a; cbn [describes SDiff.invert_from].
  - intros Hm. pose proof Hm as (H1 & H2 & _). rewrite new_ok by (destruct a; lia). eexists. split; [done|]. constructor; [|constructor]. cbn.
    by replace (match a with Some a => e2 a - e1 a | None => 0 end + seq_length s1) with (seq_length s2) by (destruct a; lia).
  - intros (Hm & H1 & H2 & H). pose proof Hm as (? & ? & _). rewrite new_ok by lia. destruct (IH (Some d) H) as (l & -> & Hl). eexists. split; [done|]. by constructor.
Qed.

(** A clock that has run out stays so, unless it is disabled. *)
Lemma answers_latched times t l l' : DT.answers times t = l ++ false :: l' -> Forall (fun b => b = false) l'.
Proof.
  assert (Hf : forall times t, disabled t = false -> valid t = false -> Forall (fun b => b = false) (DT.answers times t)).
  { clear. induction times as [|n times IH]; intros t Hd Hv; [constructor|]. cbn [DT.answers]. unfold DT.isValid. rewrite Hd, Hv, andb_false_r. cbn. constructor; [done|by apply IH]. }
  revert t l. induction times as [|n times IH]; intros t l H; [by destruct l|]. cbn [DT.answers] in H. destruct (DT.isValid n t) as [b t'] eqn:E. destruct l as [|b' l]; cbn in H; injection H as Hb H; [|by eapply IH].
  subst b l'. apply Hf; unfold DT.isValid in E; destruct (disabled t) eqn:Ed; try done; destruct (negb (n - startTime t <? timeout t) && valid t); injection E; intros; by subst t'.
Qed.
