(* ===== verification/DiffDp.v ===== *)
(** * Diffs by dynamic programming

    [DynamicProgrammingDiffing] of
    [src/src/vs/editor/common/diff/defaultLinesDiffComputer/algorithms/dynamicProgrammingDiffing.ts]
    with [Array2D] of [../utils.ts].  The scores are numbers of any kind with the laws that
    [Number] states, as callers give fractions; the theorem is that the result describes the
    way from one sequence to the other, whatever the scores and the clock say. *)

From Stdlib Require Import QArith.
From S2P Require Import Prelude OffsetRange TextChange Diff.

#[local] Open Scope js_scope.
#[local] Open Scope Z_scope.

(** The numbers of the language as far as the algorithm computes with them: [leb] is [<=], of
    which [nan] is on neither side, and [real] numbers are the others. *)
Class Number (R : Type) : Type := {
  nan : R;
  zero : R;
  one : R;
  minus_one : R;
  add : R -> R -> R;
  leb : R -> R -> bool }.

Definition real {R} `{!Number R} (x : R) : Prop := leb x x = true.

Class NumberLaws (R : Type) `{!Number R} : Prop := {
  leb_trans : forall x y z : R, leb x y = true -> leb y z = true -> leb x z = true;
  leb_total : forall x y : R, real x -> real y -> leb x y = true \/ leb y x = true;
  leb_real : forall x y : R, leb x y = true -> real x /\ real y;
  add_nonneg : forall x y : R, leb zero x = true -> leb zero y = true -> leb zero (add x y) = true;
  zero_one : leb zero one = true;
  minus_one_real : real minus_one;
  minus_one_neg : leb zero minus_one = false }.

(** [===], and [Math.max]. *)
Definition num_eqb {R} `{!Number R} (x y : R) : bool := leb x y && leb y x.
Definition num_max {R} `{!Number R} (x y : R) : R := if leb x x && leb y y then (if leb x y then y else x) else nan.

(** Integers and fractions, with [None] for [nan]. *)
#[export] Instance Z_number : Number (option Z) := {|
  nan := None; zero := Some 0; one := Some 1; minus_one := Some (-1);
  add x y := match x, y with Some x, Some y => Some (x + y) | _, _ => None end;
  leb x y := match x, y with Some x, Some y => x <=? y | _, _ => false end |}.

#[export] Instance Z_number_laws : NumberLaws (option Z).
Proof.
  split; unfold real; cbn; [..|done|done|done].
  - intros [x|] [y|] [z|]; try done. lia.
  - intros [x|] [y|]; try done. lia.
  - intros [x|] [y|]; try done. lia.
  - intros [x|] [y|]; try done. lia.
Qed.

#[export] Instance Q_number : Number (option Q) := {|
  nan := None; zero := Some 0%Q; one := Some 1%Q; minus_one := Some (-1)%Q;
  add x y := match x, y with Some x, Some y => Some (x + y)%Q | _, _ => None end;
  leb x y := match x, y with Some x, Some y => Qle_bool x y | _, _ => false end |}.

#[export] Instance Q_number_laws : NumberLaws (option Q).
Proof.
  split; unfold real; cbn; [..|done|done|done].
  - intros [x|] [y|] [z|]; try done. rewrite !Qle_bool_iff. apply Qle_trans.
  - intros [x|] [y|]; try done. rewrite !Qle_bool_iff. intros _ _. destruct (Qlt_le_dec x y) as [H|H]; [left; by apply Qlt_le_weak|by right].
  - intros [x|] [y|]; try done. rewrite !Qle_bool_iff. intros _. split; apply Qle_refl.
  - intros [x|] [y|]; try done. rewrite !Qle_bool_iff. intros Hx Hy. change 0%Q with (0 + 0)%Q. by apply Qplus_le_compat.
Qed.

(** ** Arrays of two dimensions *)

Record Array2D (A : Type) : Type := mkArray2D { width : Z; height : Z; array : list (option A) }.
Arguments mkArray2D {A}.
Arguments width {A}.
Arguments height {A}.
Arguments array {A}.

Module A2.

Definition new {A} (width height : Z) : Array2D A := mkArray2D width height (replicate (Z.to_nat (width * height)) None).
Definition get {A} (this : Array2D A) (x y : Z) : option A := mjoin (array this).[x + y * width this].

(** The indices are those of the array. *)
Definition set {A} (this : Array2D A) (x y : Z) (value : A) : Array2D A :=
  mkArray2D (width this) (height this) (set_at (array this) (x + y * width this) (Some value)).

End A2.

(** ** The algorithm *)

Module DP.
Section dp.
Context {R : Type} `{!Number R} (sequence1 sequence2 : ISequence) (timeout : ITimeout) (equalityScore : option (Z -> Z -> R)).

Record Tables : Type := mkTables { lcsLengths : Array2D R; directions : Array2D Z; lengths : Array2D R }.

Definition number (a : Array2D R) (x y : Z) : R := default nan (A2.get a x y).

(** The score of the path that goes on along the diagonal. *)
Definition extended_score (s1 s2 : Z) (t : Tables) : R :=
  if bool_decide (getElement sequence1 s1 = getElement sequence2 s2) then
    let extendedSeqScore := if (s1 =? 0) || (s2 =? 0) then zero else number (lcsLengths t) (s1 - 1) (s2 - 1) in
    let extendedSeqScore :=
      if (s1 >? 0) && (s2 >? 0) && bool_decide (A2.get (directions t) (s1 - 1) (s2 - 1) = Some 3)
      then add extendedSeqScore (number (lengths t) (s1 - 1) (s2 - 1)) else extendedSeqScore in
    add extendedSeqScore (match equalityScore with Some f => f s1 s2 | None => one end)
  else minus_one.

Definition cell (s1 s2 : Z) (t : Tables) : Tables :=
  let horizontalLen := if s1 =? 0 then zero else number (lcsLengths t) (s1 - 1) s2 in
  let verticalLen := if s2 =? 0 then zero else number (lcsLengths t) s1 (s2 - 1) in
  let extendedSeqScore := extended_score s1 s2 t in
  let newValue := num_max (num_max horizontalLen verticalLen) extendedSeqScore in
  let lcs := A2.set (lcsLengths t) s1 s2 newValue in
  let go direction len := mkTables lcs (A2.set (directions t) s1 s2 direction) (A2.set (lengths t) s1 s2 len) in
  if num_eqb newValue extendedSeqScore then
    let prevLen := if (s1 >? 0) && (s2 >? 0) then number (lengths t) (s1 - 1) (s2 - 1) else zero in
    go 3 (add prevLen one)
  else if num_eqb newValue horizontalLen then go 1 zero
  else if num_eqb newValue verticalLen then go 2 zero
  else mkTables lcs (directions t) (lengths t).

(** Both loops over the cells; [None] when the time is over. *)
Fixpoint fill (cells : list (Z * Z)) (asked : nat) (t : Tables) : option Tables :=
  match cells with
  | [] => Some t
  | (s1, s2) :: cells => if timeout asked then fill cells (S asked) (cell s1 s2 t) else None
  end.

Definition cells (n m : Z) : list (Z * Z) := zrange 0 n ≫= fun s1 => (fun s2 => (s1, s2)) <$> zrange 0 m.

(** The result so far, whose first element is the last one pushed, and the positions that were
    aligned last. *)
Record Back : Type := mkBack { result_ : list SequenceDiff; lastAligningPosS1 : Z; lastAligningPosS2 : Z }.

Definition reportDecreasingAligningPositions (s1 s2 : Z) (b : Back) : result Back :=
  if negb (s1 + 1 =? lastAligningPosS1 b) || negb (s2 + 1 =? lastAligningPosS2 b) then
    let* d := SDiff.new (s1 + 1) (lastAligningPosS1 b) (s2 + 1) (lastAligningPosS2 b) in
    Ok (mkBack (d :: result_ b) s1 s2)
  else Ok (mkBack (result_ b) s1 s2).

Fixpoint backtrack (fuel : nat) (t : Tables) (s1 s2 : Z) (b : Back) : result Back :=
  if (s1 >=? 0) && (s2 >=? 0) then
    match fuel with
    | O => Throw OtherError
    | S fuel =>
        if bool_decide (A2.get (directions t) s1 s2 = Some 3) then
          let* b := reportDecreasingAligningPositions s1 s2 b in backtrack fuel t (s1 - 1) (s2 - 1) b
        else if bool_decide (A2.get (directions t) s1 s2 = Some 1) then backtrack fuel t (s1 - 1) s2 b
        else backtrack fuel t s1 (s2 - 1) b
    end
  else Ok b.

Definition compute : result DiffAlgorithmResult :=
  let n := seq_length sequence1 in
  let m := seq_length sequence2 in
  if (n =? 0) || (m =? 0) then trivial sequence1 sequence2
  else
    match fill (cells n m) 0 (mkTables (A2.new n m) (A2.new n m) (A2.new n m)) with
    | None => trivialTimedOut sequence1 sequence2
    | Some t =>
        let* b := backtrack (Z.to_nat (n + m)) t (n - 1) (m - 1) (mkBack [] n m) in
        let* b := reportDecreasingAligningPositions (-1) (-1) b in
        Ok (mkDiffResult (result_ b) false)
    end.

End dp.
End DP.

(** ** Lemmas *)

Lemma A2_get_set {A} (a : Array2D A) n m x y x' y' v : width a = n -> zlen (array a) = n * m -> 0 <= x < n -> 0 <= y < m -> 0 <= x' < n -> 0 <= y' < m ->
  A2.get (A2.set a x y v) x' y' = if decide (x' = x /\ y' = y) then Some v else A2.get a x' y'.
Proof.
  intros Hw Hl Hx Hy Hx' Hy'. unfold A2.get, A2.set. cbn. rewrite Hw. unfold set_at, at_. destruct (Z.ltb_spec (x + y * n) 0); [nia|]. destruct (Z.ltb_spec (x' + y' * n) 0); [nia|].
  case_decide as Hd; [destruct Hd as [-> ->]; rewrite list_lookup_insert_eq; [done|unfold zlen in Hl; nia]|].
  rewrite list_lookup_insert_ne; [done|]. intros He. apply Hd. assert (Hz : x + y * n = x' + y' * n) by lia. assert (y = y') by nia. subst y'. lia.
Qed.

Lemma sorted_zrange lo hi : StronglySorted Z.lt (zrange lo hi).
Proof.
  remember (Z.to_nat (hi - lo)) as k eqn:Ek. revert lo Ek. induction k as [|k IH]; intros lo Ek; [rewrite zrange_nil by lia; constructor|].
  rewrite zrange_cons by lia. constructor; [apply IH; lia|]. apply Forall_forall. intros x Hx. apply elem_of_zrange in Hx. lia.
Qed.

Definition before (a b : Z * Z) : Prop := a.1 < b.1 \/ a.1 = b.1 /\ a.2 < b.2.

Lemma sorted_row x lo hi : StronglySorted before ((fun y => (x, y)) <$> zrange lo hi).
Proof.
  pose proof (sorted_zrange lo hi) as Hs. induction Hs as [|y l Hs IH Hf]; [constructor|]. cbn. constructor; [done|].
  apply Forall_fmap. eapply Forall_impl; [exact Hf|]. intros z Hz. right. cbn. done.
Qed.

Lemma sorted_cells n m : StronglySorted before (DP.cells n m).
Proof.
  unfold DP.cells. pose proof (sorted_zrange 0 n) as Hs. induction Hs as [|x l Hs IH Hf]; [constructor|]. cbn [mbind list_bind]. apply StronglySorted_app_2; [|apply sorted_row|done].
  intros a b Ha Hb. apply list_elem_of_fmap in Ha as (y & -> & _). apply list_elem_of_bind in Hb as (x' & Hb & Hx). apply list_elem_of_fmap in Hb as (y' & -> & _).
  left. cbn. rewrite Forall_forall in Hf. by apply Hf.
Qed.

Lemma elem_of_cells n m x y : (x, y) ∈ DP.cells n m <-> 0 <= x < n /\ 0 <= y < m.
Proof.
  unfold DP.cells. rewrite list_elem_of_bind. split.
  - intros (x' & Hb & Hx). apply list_elem_of_fmap in Hb as (y' & [= -> ->] & Hy). by rewrite !elem_of_zrange in *.
  - intros [Hx Hy]. exists x. rewrite list_elem_of_fmap, elem_of_zrange. split; [|done]. exists y. by rewrite elem_of_zrange.
Qed.

(** The cells that come before one of the table have been filled before it. *)
Lemma cells_before n m dn s1 s2 rest x y : dn ++ (s1, s2) :: rest = DP.cells n m -> 0 <= x < n -> 0 <= y < m -> before (x, y) (s1, s2) -> (x, y) ∈ dn.
Proof.
  intros E Hx Hy Hb. pose proof (sorted_cells n m) as Hs. rewrite <- E in Hs. assert (Hin : (x, y) ∈ DP.cells n m) by (by apply elem_of_cells). rewrite <- E in Hin.
  apply elem_of_app in Hin as [?|Hin]; [done|]. exfalso. apply StronglySorted_app_1_r in Hs. apply StronglySorted_inv in Hs as [_ Hf]. rewrite Forall_forall in Hf. unfold before in *. cbn in *.
  apply elem_of_cons in Hin as [[= -> ->]|Hin]; [lia|]. apply Hf in Hin. cbn in Hin. lia.
Qed.

Section tables.
Context {R : Type} `{!Number R} `{!NumberLaws R} (s1 s2 : ISequence).

Definition nonneg (x : R) : Prop := leb zero x = true.

Lemma nonneg_real (x : R) : nonneg x -> real x.
Proof. apply leb_real. Qed.

Lemma zero_nonneg : nonneg zero.
Proof. pose proof (leb_real _ _ zero_one) as [H _]. exact H. Qed.

Lemma num_max_real (x y : R) : real x -> real y -> num_max x y = x /\ leb y x = true \/ num_max x y = y /\ leb x y = true.
Proof.
  intros Hx Hy. unfold num_max. rewrite Hx, Hy. cbn. destruct (leb x y) eqn:E; [by right|left]. split; [done|]. destruct (leb_total x y Hx Hy); congruence.
Qed.

Lemma num_max_nonneg (x y : R) : nonneg x -> real y -> nonneg (num_max x y).
Proof.
  intros Hx Hy. destruct (num_max_real x y (nonneg_real x Hx) Hy) as [[-> _]|[-> Hl]]; [done|]. by eapply leb_trans.
Qed.

Lemma num_max_eqb (x y : R) : num_eqb (num_max x y) x = false -> real x -> real y -> num_max x y = y.
Proof.
  intros He Hx Hy. destruct (num_max_real x y Hx Hy) as [[E _]|[E _]]; [|done]. rewrite E in He. unfold num_eqb in He. rewrite Hx in He. done.
Qed.

Lemma num_eqb_refl (x : R) : real x -> num_eqb x x = true.
Proof. intros Hx. unfold num_eqb. by rewrite Hx. Qed.

(** A cell that has been filled. *)
Record filled (t : DP.Tables (R := R)) (i j : Z) : Prop := {
  fl_lcs : nonneg (DP.number (DP.lcsLengths t) i j);
  fl_len : nonneg (DP.number (DP.lengths t) i j);
  fl_diagonal : A2.get (DP.directions t) i j = Some 3 -> getElement s1 i = getElement s2 j }.

Record shaped (t : DP.Tables (R := R)) : Prop := {
  sh_width : width (DP.lcsLengths t) = seq_length s1 /\ width (DP.directions t) = seq_length s1 /\ width (DP.lengths t) = seq_length s1;
  sh_array : zlen (array (DP.lcsLengths t)) = seq_length s1 * seq_length s2 /\ zlen (array (DP.directions t)) = seq_length s1 * seq_length s2 /\
             zlen (array (DP.lengths t)) = seq_length s1 * seq_length s2 }.

Section fill.
Context (timeout : ITimeout) (equalityScore : option (Z -> Z -> R)).
Hypothesis Hscore : forall f i j, equalityScore = Some f -> nonneg (f i j).
Abbreviation n := (seq_length s1).
Abbreviation m := (seq_length s2).
Abbreviation cell := (DP.cell s1 s2 equalityScore).

Definition past_filled (t : DP.Tables (R := R)) (i j : Z) : Prop := forall x y, 0 <= x < n -> 0 <= y < m -> before (x, y) (i, j) -> filled t x y.

Lemma extended_cases t i j : 0 <= i < n -> 0 <= j < m -> past_filled t i j ->
  getElement s1 i = getElement s2 j /\ nonneg (DP.extended_score s1 s2 equalityScore i j t) \/ DP.extended_score s1 s2 equalityScore i j t = minus_one.
Proof.
  intros Hi Hj Hp. unfold DP.extended_score. case_bool_decide as He; [left; split; [done|]|by right].
  apply add_nonneg; [|destruct equalityScore as [f|] eqn:Ef; [by apply (Hscore f)|apply zero_one]].
  assert (Hd : 0 < i -> 0 < j -> filled t (i - 1) (j - 1)) by (intros; apply Hp; [lia..|left; cbn; lia]).
  assert (Hn : nonneg (if (i =? 0) || (j =? 0) then zero else DP.number (DP.lcsLengths t) (i - 1) (j - 1))).
  { destruct (Z.eqb_spec i 0), (Z.eqb_spec j 0); try apply zero_nonneg. cbn. apply (fl_lcs t), Hd; lia. }
  destruct ((i >? 0) && (j >? 0) && bool_decide _) eqn:E; [|done]. apply add_nonneg; [done|]. apply (fl_len t), Hd; lia.
Qed.

Definition put (t : DP.Tables (R := R)) (i j : Z) (w : R) (direction : Z) (len : R) : DP.Tables (R := R) :=
  DP.mkTables (A2.set (DP.lcsLengths t) i j w) (A2.set (DP.directions t) i j direction) (A2.set (DP.lengths t) i j len).

Lemma put_ok t i j w direction len : shaped t -> 0 <= i < n -> 0 <= j < m -> nonneg w -> nonneg len -> (direction = 3 -> getElement s1 i = getElement s2 j) ->
  shaped (put t i j w direction len) /\ filled (put t i j w direction len) i j /\
  forall x y, 0 <= x < n -> 0 <= y < m -> (x, y) <> (i, j) -> filled t x y -> filled (put t i j w direction len) x y.
Proof.
  intros [(W1 & W2 & W3) (A1 & A2 & A3)] Hi Hj Hw Hl Hd.
  assert (Hset : forall A (a : Array2D A) v, zlen (array (A2.set a i j v)) = zlen (array a)).
  { intros A a v. unfold A2.set, set_at, zlen. cbn. destruct (_ <? 0); [done|]. by rewrite length_insert. }
  split; [unfold put; split; cbn [DP.lcsLengths DP.lengths DP.directions]; rewrite ?Hset; by split_and!|]. split.
  - split; unfold DP.number, put; cbn [DP.lcsLengths DP.lengths DP.directions].
    + rewrite (A2_get_set _ n m) by done. by rewrite decide_True.
    + rewrite (A2_get_set _ n m) by done. by rewrite decide_True.
    + rewrite (A2_get_set _ n m) by done. rewrite decide_True by done. intros [= Ed]. by apply Hd.
  - intros x y Hx Hy Hne [F1 F2 F3]. assert (Hne' : ~ (x = i /\ y = j)) by (intros [-> ->]; done).
    split; unfold DP.number, put in *; cbn [DP.lcsLengths DP.lengths DP.directions]; rewrite (A2_get_set _ n m) by done; by rewrite decide_False.
Qed.

Lemma cell_ok t i j : shaped t -> 0 <= i < n -> 0 <= j < m -> past_filled t i j ->
  shaped (cell i j t) /\ filled (cell i j t) i j /\ forall x y, 0 <= x < n -> 0 <= y < m -> (x, y) <> (i, j) -> filled t x y -> filled (cell i j t) x y.
Proof.
  intros Hs Hi Hj Hp. unfold DP.cell. cbv zeta.
  set (h := if i =? 0 then zero else _). set (v := if j =? 0 then zero else _). set (e := DP.extended_score _ _ _ _ _ _). set (w := num_max (num_max h v) e).
  assert (Hh : nonneg h) by (unfold h; destruct (Z.eqb_spec i 0); [apply zero_nonneg|apply (fl_lcs t), Hp; [lia..|left; cbn; lia]]).
  assert (Hv : nonneg v) by (unfold v; destruct (Z.eqb_spec j 0); [apply zero_nonneg|apply (fl_lcs t), Hp; [lia..|right; cbn; lia]]).
  assert (Hl : nonneg (if (i >? 0) && (j >? 0) then DP.number (DP.lengths t) (i - 1) (j - 1) else zero)).
  { destruct ((i >? 0) && (j >? 0)) eqn:E; [|apply zero_nonneg]. apply (fl_len t), Hp; [lia..|left; cbn; lia]. }
  set (l := if (i >? 0) && (j >? 0) then _ else _) in *. assert (Hm : nonneg (num_max h v)) by (apply num_max_nonneg; [done|by apply nonneg_real]).
  assert (He : real e /\ (getElement s1 i = getElement s2 j \/ e = minus_one)).
  { destruct (extended_cases t i j Hi Hj Hp) as [[Heq He]|He]; fold e in He; [split; [by apply nonneg_real|by left]|]. rewrite He. split; [apply minus_one_real|by right]. }
  destruct He as [Hr He]. assert (Hw : nonneg w) by (by apply num_max_nonneg). destruct (num_eqb w e) eqn:E1.
  { apply (put_ok t i j w 3 (add l one)); try done; [apply add_nonneg; [done|apply zero_one]|]. intros _. destruct He as [He|He]; [done|]. exfalso.
    rewrite He in E1. apply andb_prop in E1 as [E1 _]. pose proof (leb_trans _ _ _ Hw E1) as Hc. by rewrite minus_one_neg in Hc. }
  destruct (num_eqb w h) eqn:E2; [by apply (put_ok t i j w 1 zero); [..|apply zero_nonneg|]|].
  destruct (num_eqb w v) eqn:E3; [by apply (put_ok t i j w 2 zero); [..|apply zero_nonneg|]|]. exfalso.
  unfold w in E1, E2, E3. destruct (num_max_real (num_max h v) e (nonneg_real _ Hm) Hr) as [[Ew _]|[Ew _]]; rewrite Ew in E1, E2, E3; [|by rewrite num_eqb_refl in E1].
  destruct (num_max_real h v (nonneg_real _ Hh) (nonneg_real _ Hv)) as [[Ev _]|[Ev _]]; rewrite Ev in E2, E3; [by rewrite num_eqb_refl in E2 by (by apply nonneg_real)|].
  by rewrite num_eqb_refl in E3 by (by apply nonneg_real).
Qed.

Definition all_filled (t : DP.Tables (R := R)) : Prop := forall x y, 0 <= x < n -> 0 <= y < m -> filled t x y.

Lemma fill_ok dn rest asked t t' : dn ++ rest = DP.cells n m -> shaped t -> (forall x y, (x, y) ∈ dn -> filled t x y) ->
  DP.fill s1 s2 timeout equalityScore rest asked t = Some t' -> all_filled t'.
Proof.
  revert dn asked t. induction rest as [|[i j] rest IH]; intros dn asked t E Hs Hf; cbn [DP.fill].
  - intros [= <-] x y Hx Hy. apply Hf. rewrite app_nil_r in E. rewrite E. by apply elem_of_cells.
  - destruct (timeout asked); [|done]. assert (Hin : (i, j) ∈ DP.cells n m) by (rewrite <- E; set_solver). apply elem_of_cells in Hin as [Hi Hj].
    assert (Hp : past_filled t i j) by (intros x y Hx Hy Hb; apply Hf; by eapply cells_before).
    destruct (cell_ok t i j Hs Hi Hj Hp) as (Hs' & Hc & Hk). apply (IH (dn ++ [(i, j)])); [by rewrite <- app_assoc|done|]. intros x y Hxy. apply elem_of_app in Hxy as [Hxy|Hxy].
    + assert (Hr : (x, y) ∈ DP.cells n m) by (rewrite <- E; set_solver). apply elem_of_cells in Hr as [Hx Hy]. destruct (decide ((x, y) = (i, j))) as [[= -> ->]|Hne]; [done|]. apply Hk; [done..|by apply Hf].
    + apply list_elem_of_singleton in Hxy as [= -> ->]. exact Hc.
Qed.

(** The result so far describes the way from the positions aligned last, and begins behind
    them. *)
Record aligned_back (i j : Z) (b : DP.Back) : Prop := {
  ab_describes : describes s1 s2 (DP.lastAligningPosS1 b) (DP.lastAligningPosS2 b) (DP.result_ b);
  ab_separated : separated (DP.result_ b);
  ab_changes : Forall changes (DP.result_ b);
  ab_head : match DP.result_ b with [] => True | d :: _ => DP.lastAligningPosS1 b < b1 d end;
  ab_before : i < DP.lastAligningPosS1 b /\ j < DP.lastAligningPosS2 b }.

(** What reporting a pair of positions adds: the diff behind them. *)
Lemma report_ok i j b : aligned_back i j b ->
  exists ds, DP.reportDecreasingAligningPositions i j b = Ok (DP.mkBack ds i j) /\ describes s1 s2 (i + 1) (j + 1) ds /\ separated ds /\ Forall changes ds /\
  match ds with [] => True | d :: _ => i < b1 d end.
Proof.
  intros [Hd Hs Hc Hh [Hi Hj]]. unfold DP.reportDecreasingAligningPositions. destruct (Z.eqb_spec (i + 1) (DP.lastAligningPosS1 b)) as [E1|E1], (Z.eqb_spec (j + 1) (DP.lastAligningPosS2 b)) as [E2|E2]; cbn [negb orb].
  { eexists. split; [done|]. rewrite E1, E2. split_and!; [done..|]. destruct (DP.result_ b); [done|]. lia. }
  all: rewrite new_ok by lia; eexists; split; [done|]; split; [cbn; split; [apply matched_refl|]; split_and!; [lia..|exact Hd]|].
  all: split; [cbn; split; [destruct (DP.result_ b); [done|]; unfold apart; cbn; lia|exact Hs]|].
  all: split; [constructor; [unfold changes; cbn; lia|exact Hc]|cbn; lia].
Qed.

Lemma backtrack_ok fuel t i j b : all_filled t -> aligned_back i j b -> -1 <= i < n -> -1 <= j < m -> (Z.to_nat (i + 1) + Z.to_nat (j + 1) <= fuel)%nat ->
  exists b', DP.backtrack fuel t i j b = Ok b' /\ aligned_back (-1) (-1) b'.
Proof.
  intros Hf. revert i j b. induction fuel as [|fuel IH]; intros i j b Hb Hi Hj Hfuel; cbn [DP.backtrack].
  all: destruct ((i >=? 0) && (j >=? 0)) eqn:Ec; [|exists b; split; [done|]; destruct Hb as [? ? ? ? [? ?]]; split; try done; lia].
  { lia. }
  case_bool_decide as E3.
  - destruct (report_ok i j b Hb) as (ds & -> & Hd & Hs & Hc & Hh). cbn [result_bind]. apply IH; [|lia..]. split; cbn; try done; [|lia].
    eapply describes_later; [|exact Hd]. split_and!; [lia..|]. intros k Hk. replace k with 0 by lia. rewrite !Z.add_0_r. apply (fl_diagonal t); [apply Hf; lia|done].
  - case_bool_decide; apply IH; try lia; destruct Hb as [? ? ? ? [? ?]]; split; try done; lia.
Qed.

End fill.

End tables.

Lemma replicate_shaped {R} `{!Number R} s1 s2 : sequence_ok s1 -> sequence_ok s2 ->
  shaped s1 s2 (DP.mkTables (A2.new (seq_length s1) (seq_length s2)) (A2.new (seq_length s1) (seq_length s2)) (A2.new (seq_length s1) (seq_length s2)) : DP.Tables (R := R)).
Proof.
  intros H1 H2. pose proof (sq_length _ H1). pose proof (sq_length _ H2). split; [done|]. unfold A2.new. cbn. unfold zlen. rewrite !length_replicate. split_and!; nia.
Qed.

Lemma dynamic_ok {R} `{!Number R} `{!NumberLaws R} s1 s2 timeout (equalityScore : option (Z -> Z -> R)) : sequence_ok s1 -> sequence_ok s2 ->
  (forall f i j, equalityScore = Some f -> leb zero (f i j) = true) ->
  exists r, DP.compute s1 s2 timeout equalityScore = Ok r /\ describes s1 s2 0 0 (diffs r) /\ separated (diffs r) /\
  (hitTimeout r = false -> 0 < seq_length s1 -> 0 < seq_length s2 -> Forall changes (diffs r)).
Proof.
  intros H1 H2 Hsc. pose proof (sq_length _ H1) as L1. pose proof (sq_length _ H2) as L2.
  destruct (trivial_ok s1 s2 H1 H2) as (ds & E1 & E2 & Hd & Hs). unfold DP.compute. cbv zeta.
  destruct ((seq_length s1 =? 0) || (seq_length s2 =? 0)) eqn:E0; [rewrite E1; eexists; cbn; split_and!; [done..|lia]|].
  destruct (DP.fill _ _ _ _ _ _ _) as [t|] eqn:Et; [|rewrite E2; eexists; cbn; split_and!; [done..|done]].
  assert (Hf : all_filled s1 s2 t) by (eapply (fill_ok s1 s2 timeout equalityScore Hsc []); [done|by apply replicate_shaped|by intros x y Hx%not_elem_of_nil|exact Et]).
  destruct (backtrack_ok s1 s2 (Z.to_nat (seq_length s1 + seq_length s2)) t (seq_length s1 - 1) (seq_length s2 - 1) (DP.mkBack [] (seq_length s1) (seq_length s2)) Hf) as (b & -> & Hb); [|lia..|].
  { split; cbn; try done; [apply matched_refl|lia]. }
  cbn [result_bind]. destruct (report_ok s1 s2 (-1) (-1) b Hb) as (l & -> & Hl & Hsl & Hcl & _). cbn [result_bind]. eexists. cbn. by split_and!.
Qed.

(** C21: Diffs by dynamic programming are right.  For every pair of sequences, with any scores
    that are not negative, of integers, fractions or any other kind of numbers with the laws,
    and however the clock answers, [compute] ends without throwing, and its diffs describe the
    way from the first sequence to the second: they are in order, an element lies between every
    two, and what lies between them is the same in both sequences.  Putting the changed parts of
    the second sequence into the first gives the second.  When the time was enough and no
    sequence is empty, every diff changes something. *)
Theorem dynamic_diff_describes {R} `{!Number R} `{!NumberLaws R} s1 s2 timeout (equalityScore : option (Z -> Z -> R)) : sequence_ok s1 -> sequence_ok s2 ->
  (forall f i j, equalityScore = Some f -> leb zero (f i j) = true) ->
  exists r, DP.compute s1 s2 timeout equalityScore = Ok r /\ describes s1 s2 0 0 (diffs r) /\ separated (diffs r) /\
  patch s1 s2 0 (diffs r) = elements s2 0 (seq_length s2) /\ (hitTimeout r = false -> 0 < seq_length s1 -> 0 < seq_length s2 -> Forall changes (diffs r)).
Proof.
  intros H1 H2 Hsc. destruct (dynamic_ok s1 s2 timeout equalityScore H1 H2 Hsc) as (r & E & Hd & Hs & Hc). exists r. split_and!; [done..|by apply describes_patch|done].
Qed.

Definition of_list (l : list Z) : ISequence := LS.sequence (mkLineSequence l ((fun x => [x]) <$> l)).

Lemma of_list_ok l : sequence_ok (of_list l).
Proof. unfold of_list. pose proof (LS_ok (fun s => default 0 (head s)) ((fun x => [x]) <$> l)) as H. rewrite <- list_fmap_compose in H. unfold compose in H. cbn in H. by rewrite list_fmap_id in H. Qed.

(** The lines [a b c d] and [b x d], whose common lines are [b] and [d]. *)
Lemma dynamic_diff_describes_witness :
  DP.compute (of_list [97; 98; 99; 100]) (of_list [98; 120; 100]) InfiniteTimeout (Some (fun _ _ => Some (99 # 100)%Q)) =
    Ok (mkDiffResult [mkDiff (mkOffsetRange 0 1) (mkOffsetRange 0 0); mkDiff (mkOffsetRange 2 3) (mkOffsetRange 1 2)] false) /\
  patch (of_list [97; 98; 99; 100]) (of_list [98; 120; 100]) 0 [mkDiff (mkOffsetRange 0 1) (mkOffsetRange 0 0); mkDiff (mkOffsetRange 2 3) (mkOffsetRange 1 2)] = [Some 98; Some 120; Some 100].
Proof.
  destruct (dynamic_diff_describes (of_list [97; 98; 99; 100]) (of_list [98; 120; 100]) InfiniteTimeout (Some (fun _ _ => Some (99 # 100)%Q)) (of_list_ok _) (of_list_ok _)) as (r & Er & _ & _ & Hp & _).
  { intros f i j [= <-]. reflexivity. }
  vm_compute in Er. injection Er as <-. split; [by vm_compute|exact Hp].
Defined.
