(* ===== verification/DiffOptimize.v ===== *)
(** * Moving and joining diffs

    [src/src/vs/editor/common/diff/defaultLinesDiffComputer/heuristicSequenceOptimizations.ts]:
    diffs that only insert or only remove are moved along equal elements, to the next diff if
    they reach it, or to the place with the best score; diffs with little between them are
    joined.  The steps that look at words, and those for the characters of long diffs, are left
    out.  The theorems say that what comes out describes the same two sequences. *)

From S2P Require Import Prelude OffsetRange TextChange Diff DiffDp.

#[local] Open Scope js_scope.

Definition shiftable (d : SequenceDiff) : bool := OR.isEmpty (seq1Range d) || OR.isEmpty (seq2Range d).

Section optimize.
Context (sequence1 sequence2 : ISequence).

(** ** Joining by shifting *)

(** Is the element that comes in at one end of [cur], moved by an offset, the one that goes out
    at the other end, in both sequences? *)
Definition same_ends (cur : SequenceDiff) (offset : Z) : bool :=
  bool_decide (getElement sequence1 (b1 cur + offset) = getElement sequence1 (e1 cur + offset)) &&
  bool_decide (getElement sequence2 (b2 cur + offset) = getElement sequence2 (e2 cur + offset)).

(** How far [cur] moves left, after [d--], and right. *)
Definition left_distance (cur : SequenceDiff) (length : Z) : Z :=
  while (Z.to_nat length) (fun d => (d <=? length) && same_ends cur (- d)) (fun d => d + 1) 1 - 1.

Definition right_distance (cur : SequenceDiff) (length : Z) : Z :=
  while (Z.to_nat length) (fun d => (d <? length) && same_ends cur d) (fun d => d + 1) 0.

(** The body of the first loop; the last element of [result] comes first. *)
Definition join_left (result : list SequenceDiff) (cur : SequenceDiff) : Prelude.result (list SequenceDiff) :=
  match result with
  | [] => Throw TypeError
  | prevResult :: before =>
      if shiftable cur then
        let length := b1 cur - e1 prevResult in
        let d := left_distance cur length in
        if d =? length then
          let* r := SDiff.new (b1 prevResult) (e1 cur - length) (b2 prevResult) (e2 cur - length) in Ok (r :: before)
        else let* cur := SDiff.delta cur (- d) in Ok (cur :: result)
      else Ok (cur :: result)
  end.

(** The second loop. *)
Fixpoint join_right (cur : SequenceDiff) (rest : list SequenceDiff) : result (list SequenceDiff) :=
  match rest with
  | [] => Ok [cur]
  | nextResult :: rest =>
      if shiftable cur then
        let length := b1 nextResult - e1 cur in
        let d := right_distance cur length in
        if d =? length then
          let* r := SDiff.new (b1 cur + length) (e1 nextResult) (b2 cur + length) (e2 nextResult) in join_right r rest
        else
          let* cur := (if d >? 0 then SDiff.delta cur d else Ok cur) in
          let* l := join_right nextResult rest in Ok (cur :: l)
      else let* l := join_right nextResult rest in Ok (cur :: l)
  end.

Definition joinSequenceDiffsByShifting (sequenceDiffs : list SequenceDiff) : result (list SequenceDiff) :=
  match sequenceDiffs with
  | [] => Ok sequenceDiffs
  | first :: rest =>
      let* result := foldl (fun acc cur => let* result := acc in join_left result cur) (Ok [first]) rest in
      match rev result with [] => Ok [] | cur :: rest => join_right cur rest end
  end.

End optimize.

(** ** Shifting to a better position *)

Section shift.

Definition maxShiftLimit : Z := 100.

(** [diff] is empty in [sequence1]. *)
Definition delta_before (diff : SequenceDiff) (sequence2 : ISequence) (seq1ValidRange seq2ValidRange : OffsetRange) : Z :=
  while (Z.to_nat maxShiftLimit) (fun deltaBefore =>
    (b1 diff - deltaBefore >=? start seq1ValidRange) && (b2 diff - deltaBefore >=? start seq2ValidRange) &&
    isStronglyEqual sequence2 (b2 diff - deltaBefore) (e2 diff - deltaBefore) && (deltaBefore <? maxShiftLimit)) (fun deltaBefore => deltaBefore + 1) 1 - 1.

Definition delta_after (diff : SequenceDiff) (sequence2 : ISequence) (seq1ValidRange seq2ValidRange : OffsetRange) : Z :=
  while (Z.to_nat maxShiftLimit) (fun deltaAfter =>
    (b1 diff + deltaAfter <? endExclusive seq1ValidRange) && (e2 diff + deltaAfter <? endExclusive seq2ValidRange) &&
    isStronglyEqual sequence2 (b2 diff + deltaAfter) (e2 diff + deltaAfter) && (deltaAfter <? maxShiftLimit)) (fun deltaAfter => deltaAfter + 1) 0.

(** The first delta with the best score. *)
Definition best_delta (diff : SequenceDiff) (score1 score2 : Z -> Z) (deltaBefore deltaAfter : Z) : Z :=
  (foldl (fun '(bestDelta, bestScore) delta =>
     let score := score1 (b1 diff + delta) + score2 (b2 diff + delta) + score2 (e2 diff + delta) in
     if score >? bestScore then (delta, score) else (bestDelta, bestScore)) (0, -1) (zrange (- deltaBefore) (deltaAfter + 1))).1.

Definition shiftDiffToBetterPosition (diff : SequenceDiff) (sequence2 : ISequence) (score1 score2 : Z -> Z) (seq1ValidRange seq2ValidRange : OffsetRange)
    : result SequenceDiff :=
  let deltaBefore := delta_before diff sequence2 seq1ValidRange seq2ValidRange in
  let deltaAfter := delta_after diff sequence2 seq1ValidRange seq2ValidRange in
  if (deltaBefore =? 0) && (deltaAfter =? 0) then Ok diff
  else SDiff.delta diff (best_delta diff score1 score2 deltaBefore deltaAfter).

(** The loop: the diff before has been shifted, the one after has not. *)
Fixpoint shift_from (sequence1 sequence2 : ISequence) (score1 score2 : Z -> Z) (prevDiff : option SequenceDiff) (sequenceDiffs : list SequenceDiff)
    : result (list SequenceDiff) :=
  match sequenceDiffs with
  | [] => Ok []
  | diff :: rest =>
      let nextDiff := head rest in
      let* seq1ValidRange := OR.new_OffsetRange (match prevDiff with Some p => b1 p + 1 | None => 0 end) (match nextDiff with Some n => e1 n - 1 | None => seq_length sequence1 end) in
      let* seq2ValidRange := OR.new_OffsetRange (match prevDiff with Some p => b2 p + 1 | None => 0 end) (match nextDiff with Some n => e2 n - 1 | None => seq_length sequence2 end) in
      let* diff :=
        (if OR.isEmpty (seq1Range diff) then shiftDiffToBetterPosition diff sequence2 score1 score2 seq1ValidRange seq2ValidRange
         else if OR.isEmpty (seq2Range diff) then result_map SDiff.swap (shiftDiffToBetterPosition (SDiff.swap diff) sequence1 score2 score1 seq2ValidRange seq1ValidRange)
         else Ok diff) in
      let* rest := shift_from sequence1 sequence2 score1 score2 (Some diff) rest in
      Ok (diff :: rest)
  end.

Definition shiftSequenceDiffs (sequence1 sequence2 : ISequence) (sequenceDiffs : list SequenceDiff) : result (list SequenceDiff) :=
  match getBoundaryScore sequence1, getBoundaryScore sequence2 with
  | Some score1, Some score2 => shift_from sequence1 sequence2 score1 score2 None sequenceDiffs
  | _, _ => Ok sequenceDiffs
  end.

End shift.

Definition optimizeSequenceDiffs (sequence1 sequence2 : ISequence) (sequenceDiffs : list SequenceDiff) : result (list SequenceDiff) :=
  let* result := joinSequenceDiffsByShifting sequence1 sequence2 sequenceDiffs in
  shiftSequenceDiffs sequence1 sequence2 result.

(** ** Joining diffs with little between them *)

(** The loop over the diffs, which joins one to the last result when [shouldJoin] says so. *)
Definition join_when (shouldJoin : SequenceDiff -> SequenceDiff -> result bool) (ds : list SequenceDiff) : result (bool * list SequenceDiff) :=
  match ds with
  | [] => Ok (false, [])
  | first :: rest =>
      let* r :=
        foldl (fun acc cur =>
          let* state := acc in
          let '(joined, result) := state in
          match result with
          | [] => Throw TypeError
          | lastResult :: before =>
              let* join := shouldJoin lastResult cur in
              if join : bool then let* r := SDiff.join lastResult cur in Ok (true, r :: before) else Ok (joined, cur :: result)
          end) (Ok (false, [first])) rest in
      Ok (r.1, rev r.2)
  end.

Definition removeShortMatches (sequenceDiffs : list SequenceDiff) : result (list SequenceDiff) :=
  result_map snd (join_when (fun last s => Ok ((b1 s - e1 last <=? 2) || (b2 s - e2 last <=? 2))) sequenceDiffs).

(** [\s] of a regular expression. *)
Definition is_white (c : Z) : bool :=
  (9 <=? c) && (c <=? 13) || (c =? 32) || (c =? 160) || (c =? 5760) || (8192 <=? c) && (c <=? 8202) || (c =? 8232) || (c =? 8233) || (c =? 8239) || (c =? 8287) ||
  (c =? 12288) || (c =? 65279).

Definition shouldJoinDiffs (sequence1 : LineSequence) (before after : SequenceDiff) : result bool :=
  let* unchangedRange := OR.new_OffsetRange (e1 before) (b1 after) in
  let unchangedTextWithoutWs := filter (fun c => is_white c = false) (LS.getText sequence1 unchangedRange) in
  Ok ((zlen unchangedTextWithoutWs <=? 4) &&
      ((OR.length (seq1Range before) + OR.length (seq2Range before) >? 5) || (OR.length (seq1Range after) + OR.length (seq2Range after) >? 5))).

(** The [do] loop, which is left when the counter was ten. *)
Fixpoint repeat_join (n : nat) (shouldJoin : SequenceDiff -> SequenceDiff -> result bool) (ds : list SequenceDiff) : result (list SequenceDiff) :=
  let* r := join_when shouldJoin ds in
  let '(shouldRepeat, ds) := r in
  match n with
  | S n => if shouldRepeat : bool then repeat_join n shouldJoin ds else Ok ds
  | O => Ok ds
  end.

Definition removeVeryShortMatchingLinesBetweenDiffs (sequence1 : LineSequence) (sequenceDiffs : list SequenceDiff) : result (list SequenceDiff) :=
  if zlen sequenceDiffs =? 0 then Ok sequenceDiffs else repeat_join 10 (shouldJoinDiffs sequence1) sequenceDiffs.

(** ** Lemmas *)

Section lemmas.
Context (s1 s2 : ISequence).
Implicit Types (d cur prev : SequenceDiff) (l rest : list SequenceDiff).

Lemma same_ends_true d k : same_ends s1 s2 d k = true <->
  getElement s1 (b1 d + k) = getElement s1 (e1 d + k) /\ getElement s2 (b2 d + k) = getElement s2 (e2 d + k).
Proof. unfold same_ends. by rewrite andb_true_iff, !bool_decide_eq_true. Qed.

(** A diff that moves left past equal ends leaves the sequences aligned, before and behind. *)
Lemma move_left a b d k : matched s1 s2 a b (b1 d) (b2 d) -> 0 <= k -> a <= b1 d - k -> (forall t, 1 <= t <= k -> same_ends s1 s2 d (- t) = true) ->
  matched s1 s2 a b (b1 d - k) (b2 d - k) /\ matched s1 s2 (e1 d - k) (e2 d - k) (e1 d) (e2 d).
Proof.
  intros (H1 & H2 & H3) Hk Ha Hs. split; split_and!; try lia.
  - intros i Hi. apply H3. lia.
  - intros i Hi. pose proof (Hs (k - i) ltac:(lia)) as Ht. apply same_ends_true in Ht as [Ht1 Ht2].
    replace (e1 d - k + i) with (e1 d + - (k - i)) by lia. replace (e2 d - k + i) with (e2 d + - (k - i)) by lia. rewrite <- Ht1, <- Ht2.
    replace (b1 d + - (k - i)) with (a + (b1 d - (k - i) - a)) by lia. replace (b2 d + - (k - i)) with (b + (b1 d - (k - i) - a)) by lia. apply H3. lia.
Qed.

Lemma move_right a b d k : matched s1 s2 (e1 d) (e2 d) a b -> 0 <= k -> e1 d + k <= a -> (forall t, 0 <= t < k -> same_ends s1 s2 d t = true) ->
  matched s1 s2 (b1 d) (b2 d) (b1 d + k) (b2 d + k) /\ matched s1 s2 (e1 d + k) (e2 d + k) a b.
Proof.
  intros (H1 & H2 & H3) Hk Ha Hs. split; split_and!; try lia.
  - intros i Hi. pose proof (Hs i ltac:(lia)) as Ht. apply same_ends_true in Ht as [Ht1 Ht2]. rewrite Ht1, Ht2. apply H3. lia.
  - intros i Hi. replace (e1 d + k + i) with (e1 d + (k + i)) by lia. replace (e2 d + k + i) with (e2 d + (k + i)) by lia. apply H3. lia.
Qed.

Lemma left_distance_spec d len : 0 <= len -> 0 <= left_distance s1 s2 d len <= len /\ forall t, 1 <= t <= left_distance s1 s2 d len -> same_ends s1 s2 d (- t) = true.
Proof.
  intros Hl. unfold left_distance.
  while_inv (fun k => 1 <= k <= len + 1 /\ forall t, 1 <= t < k -> same_ends s1 s2 d (- t) = true) (fun k => Z.to_nat (len + 1 - k)) as [[Hk Hs] _].
  - intros k [Hk Hs] Hc. apply andb_prop in Hc as [Hc1 Hc2]. apply Z.leb_le in Hc1. split; [|lia]. split; [lia|]. intros t Ht. destruct (decide (t = k)) as [->|]; [done|apply Hs; lia].
  - split; [lia|]. intros t Ht. lia.
  - lia.
  - split; [lia|]. intros t Ht. apply Hs. lia.
Qed.

Lemma right_distance_spec d len : 0 <= len -> 0 <= right_distance s1 s2 d len <= len /\ forall t, 0 <= t < right_distance s1 s2 d len -> same_ends s1 s2 d t = true.
Proof.
  intros Hl. unfold right_distance.
  while_inv (fun k => 0 <= k <= len /\ forall t, 0 <= t < k -> same_ends s1 s2 d t = true) (fun k => Z.to_nat (len - k)) as [[Hk Hs] _].
  - intros k [Hk Hs] Hc. apply andb_prop in Hc as [Hc1 Hc2]. apply Z.ltb_lt in Hc1. split; [|lia]. split; [lia|]. intros t Ht. destruct (decide (t = k)) as [->|]; [done|apply Hs; lia].
  - split; [lia|]. intros t Ht. lia.
  - lia.
  - done.
Qed.

(** The first loop, from the left. *)
Fixpoint join_left_all prev rest : result (list SequenceDiff) :=
  match rest with
  | [] => Ok [prev]
  | cur :: rest =>
      let* r := join_left s1 s2 [prev] cur in
      match r with [merged] => join_left_all merged rest | cur :: _ => let* l := join_left_all cur rest in Ok (prev :: l) | [] => Ok [] end
  end.

Lemma join_left_throws e rest : foldl (fun acc cur => let* result := acc in join_left s1 s2 result cur) (Throw e) rest = Throw e.
Proof. by induction rest. Qed.

Lemma join_left_all_eq prev before rest :
  foldl (fun acc cur => let* result := acc in join_left s1 s2 result cur) (Ok (prev :: before)) rest = result_map (fun l => rev l ++ before) (join_left_all prev rest).
Proof.
  revert prev before. induction rest as [|cur rest IH]; intros prev before; [done|]. cbn [foldl join_left_all result_bind]. unfold join_left.
  destruct (shiftable cur); [|cbn [result_bind]; rewrite IH; destruct (join_left_all cur rest); cbn; [by rewrite <- app_assoc|done]].
  cbv zeta. destruct (_ =? _).
  - destruct (SDiff.new _ _ _ _) as [r|e]; cbn [result_bind]; [apply IH|apply join_left_throws].
  - destruct (SDiff.delta _ _) as [r|e]; cbn [result_bind]; [|apply join_left_throws]. rewrite IH. destruct (join_left_all r rest); cbn; [by rewrite <- app_assoc|done].
Qed.

(** What the steps keep: the diffs lead to the second sequence, elements lie between them, and
    as many elements are removed and inserted as before. *)
Record keeps_diff (a b : Z) l l' : Prop := {
  kd_describes : describes s1 s2 a b l';
  kd_separated : separated l';
  kd_cost : cost l' = cost l }.

Lemma separated_cons d l : separated (d :: l) <-> match l with [] => True | d' :: _ => apart d d' end /\ separated l.
Proof. done. Qed.

Lemma apart_later d d' l : match l with [] => True | c :: _ => apart d c end -> e1 d' <= e1 d -> match l with [] => True | c :: _ => apart d' c end.
Proof. destruct l; [done|]. unfold apart. lia. Qed.

Lemma join_left_all_ok rest : forall prev a b, describes s1 s2 a b (prev :: rest) -> separated (prev :: rest) ->
  exists h t, join_left_all prev rest = Ok (h :: t) /\ keeps_diff a b (prev :: rest) (h :: t) /\ b1 h = b1 prev.
Proof.
  induction rest as [|cur rest IH]; intros prev a b Hd Hs; [by exists prev, []|]. cbn [join_left_all join_left].
  destruct Hd as (Hm & P1 & P2 & Hc & C1 & C2 & Hr). destruct Hs as (Hap & Hac & Hs). unfold apart in Hap. pose proof Hc as (G1 & G2 & _).
  assert (Hgo : forall cur' : SequenceDiff, matched s1 s2 (e1 prev) (e2 prev) (b1 cur') (b2 cur') -> b1 cur' <= e1 cur' -> b2 cur' <= e2 cur' -> describes s1 s2 (e1 cur') (e2 cur') rest -> e1 cur' <= e1 cur -> e1 prev < b1 cur' ->
    e1 cur' - b1 cur' = e1 cur - b1 cur -> e2 cur' - b2 cur' = e2 cur - b2 cur ->
    exists h t, (let* l := join_left_all cur' rest in Ok (prev :: l)) = Ok (h :: t) /\ keeps_diff a b (prev :: cur :: rest) (h :: t) /\ b1 h = b1 prev).
  { intros cur' M1 M2 M3 M4 M5 M6 M7 M8. destruct (IH cur' (e1 prev) (e2 prev)) as (h & t & -> & [K1 K2 K3] & K4); [done|split; [by eapply apart_later|done]|].
    cbn [result_bind]. exists prev, (h :: t). split; [done|]. split; [|done]. split; [done| |].
    - apply separated_cons. split; [unfold apart; rewrite K4; lia|done].
    - change (cost (prev :: h :: t)) with ((e1 prev - b1 prev) + (e2 prev - b2 prev) + cost (h :: t)). rewrite K3. cbn. lia. }
  destruct (shiftable cur) eqn:Esh; [|cbn [result_bind]; by apply Hgo; try done; lia]. cbv zeta.
  destruct (left_distance_spec cur (b1 cur - e1 prev) ltac:(lia)) as [Hk Hse]. set (k := left_distance s1 s2 cur (b1 cur - e1 prev)) in *.
  destruct (move_left (e1 prev) (e2 prev) cur k Hc ltac:(lia) ltac:(lia) Hse) as [Hb Hb'].
  destruct (Z.eqb_spec k (b1 cur - e1 prev)) as [Ek|Ek].
  - rewrite new_ok by lia. cbn [result_bind]. set (r := mkDiff _ _). destruct (IH r a b) as (h & t & E & [K1 K2 K3] & K4).
    + split; [exact Hm|]. split; [cbn; lia|]. split; [cbn; lia|]. cbn. rewrite <- Ek. by eapply describes_later.
    + split; [|done]. eapply apart_later; [exact Hac|cbn; lia].
    + exists h, t. split; [exact E|]. split; [|exact K4]. split; [done|done|]. rewrite K3. cbn. lia.
  - rewrite delta_ok by lia. cbn [result_bind]. apply Hgo; cbn; try lia; [by replace (b1 cur + - k) with (b1 cur - k) by lia; replace (b2 cur + - k) with (b2 cur - k) by lia|].
    replace (e1 cur + - k) with (e1 cur - k) by lia. replace (e2 cur + - k) with (e2 cur - k) by lia. by eapply describes_later.
Qed.

Lemma join_right_ok rest : forall cur a b, describes s1 s2 a b (cur :: rest) -> separated (cur :: rest) ->
  exists h t, join_right s1 s2 cur rest = Ok (h :: t) /\ keeps_diff a b (cur :: rest) (h :: t) /\ b1 cur <= b1 h.
Proof.
  induction rest as [|next rest IH]; intros cur a b Hd Hs; [by exists cur, []|]. cbn [join_right].
  destruct Hd as (Hm & C1 & C2 & Hc & N1 & N2 & Hr). destruct Hs as (Hap & Hs). unfold apart in Hap. pose proof Hc as (G1 & G2 & _).
  assert (Hgo : forall cur' : SequenceDiff, matched s1 s2 a b (b1 cur') (b2 cur') -> b1 cur' <= e1 cur' -> b2 cur' <= e2 cur' -> matched s1 s2 (e1 cur') (e2 cur') (b1 next) (b2 next) -> e1 cur' < b1 next -> b1 cur <= b1 cur' ->
    e1 cur' - b1 cur' = e1 cur - b1 cur -> e2 cur' - b2 cur' = e2 cur - b2 cur ->
    exists h t, (let* l := join_right s1 s2 next rest in Ok (cur' :: l)) = Ok (h :: t) /\ keeps_diff a b (cur :: next :: rest) (h :: t) /\ b1 cur <= b1 h).
  { intros cur' M1 M2 M3 M4 M5 M6 M7 M8. destruct (IH next (e1 cur') (e2 cur')) as (h & t & -> & [K1 K2 K3] & K4); [done|done|].
    cbn [result_bind]. exists cur', (h :: t). split; [done|]. split; [|done]. split; [done| |].
    - apply separated_cons. split; [unfold apart; lia|done].
    - change (cost (cur' :: h :: t)) with ((e1 cur' - b1 cur') + (e2 cur' - b2 cur') + cost (h :: t)). rewrite K3. cbn. lia. }
  destruct (shiftable cur) eqn:Esh; [|by apply Hgo; try done; lia]. cbv zeta.
  destruct (right_distance_spec cur (b1 next - e1 cur) ltac:(lia)) as [Hk Hse]. set (k := right_distance s1 s2 cur (b1 next - e1 cur)) in *.
  destruct (move_right (b1 next) (b2 next) cur k Hc ltac:(lia) ltac:(lia) Hse) as [Hb Hb'].
  destruct (Z.eqb_spec k (b1 next - e1 cur)) as [Ek|Ek].
  - rewrite new_ok by lia. cbn [result_bind]. set (r := mkDiff _ _). destruct (IH r a b) as (h & t & E & [K1 K2 K3] & K4).
    + split; [cbn; rewrite <- Ek; by eapply matched_trans|]. split; [cbn; lia|]. split; [cbn; lia|]. exact Hr.
    + exact Hs.
    + exists h, t. split; [exact E|]. split; [|cbn in K4; lia]. split; [done|done|]. rewrite K3. cbn. lia.
  - assert (E : (if k >? 0 then SDiff.delta cur k else Ok cur) = Ok (mkDiff (mkOffsetRange (b1 cur + k) (e1 cur + k)) (mkOffsetRange (b2 cur + k) (e2 cur + k)))).
    { rewrite <- delta_ok by lia. destruct (k >? 0) eqn:E; [done|]. assert (k = 0) as -> by lia. done. }
    rewrite E. cbn [result_bind]. apply Hgo; cbn; try lia; [by eapply matched_trans|done].
Qed.

Lemma joinSequence_ok l : describes s1 s2 0 0 l -> separated l -> exists l', joinSequenceDiffsByShifting s1 s2 l = Ok l' /\ keeps_diff 0 0 l l'.
Proof.
  intros Hd Hs. destruct l as [|first rest]; [by exists []|]. unfold joinSequenceDiffsByShifting. rewrite join_left_all_eq.
  destruct (join_left_all_ok rest first 0 0 Hd Hs) as (h & t & -> & [K1 K2 K3] & _). cbn [result_map result_bind]. rewrite app_nil_r, rev_involutive.
  destruct (join_right_ok t h 0 0 K1 K2) as (h' & t' & E & [L1 L2 L3] & _). exists (h' :: t'). split; [done|]. split; [done|done|]. by rewrite L3.
Qed.

End lemmas.

(** A diff moved by an offset. *)
Definition moved (d : SequenceDiff) (k : Z) : SequenceDiff := mkDiff (mkOffsetRange (b1 d + k) (e1 d + k)) (mkOffsetRange (b2 d + k) (e2 d + k)).

Section shift_one.
Context (s1 s2 : ISequence) (Hstrong : forall i j, isStronglyEqual s2 i j = true -> getElement s2 i = getElement s2 j).
Context (d : SequenceDiff) (v1 v2 : OffsetRange) (lo hi a b a' b' : Z).
Hypothesis Hempty : b1 d = e1 d.
Hypothesis Hwf : b2 d <= e2 d.
Hypothesis Hbefore : matched s1 s2 a b (b1 d) (b2 d).
Hypothesis Hafter : matched s1 s2 (e1 d) (e2 d) a' b'.
Hypothesis Hlo : a <= lo <= b1 d /\ forall k, 1 <= k -> start v1 <= b1 d - k -> start v2 <= b2 d - k -> lo <= b1 d - k.
Hypothesis Hhi : e1 d <= hi <= a' /\ forall k, 0 <= k -> b1 d + k < endExclusive v1 -> e2 d + k < endExclusive v2 -> e1 d + k + 1 <= hi.

Lemma same_strong k : isStronglyEqual s2 (b2 d + k) (e2 d + k) = true -> same_ends s1 s2 d k = true.
Proof. intros H. apply same_ends_true. split; [by rewrite Hempty|by apply Hstrong]. Qed.

Lemma delta_before_spec : let k := delta_before d s2 v1 v2 in 0 <= k /\ lo <= b1 d - k /\ forall t, 1 <= t <= k -> same_ends s1 s2 d (- t) = true.
Proof.
  cbv zeta. unfold delta_before.
  while_inv (fun k => 1 <= k <= maxShiftLimit /\ lo <= b1 d - (k - 1) /\ forall t, 1 <= t < k -> same_ends s1 s2 d (- t) = true) (fun k => Z.to_nat (maxShiftLimit - k)) as [(Hk & Hl & Hs) _].
  - intros k (Hk & Hl & Hs) Hc. rewrite !andb_true_iff in Hc. destruct Hc as [[[C1 C2] C3] C4]. unfold maxShiftLimit in *. split; [|lia]. split; [lia|]. split; [replace (k + 1 - 1) with k by lia; apply Hlo; lia|].
    intros t Ht. destruct (decide (t = k)) as [->|]; [|apply Hs; lia]. by apply same_strong.
  - unfold maxShiftLimit. split_and!; [lia..|]. intros t Ht. lia.
  - unfold maxShiftLimit. lia.
  - split_and!; [lia..|]. intros t Ht. apply Hs. lia.
Qed.

Lemma delta_after_spec : let k := delta_after d s2 v1 v2 in 0 <= k /\ e1 d + k <= hi /\ forall t, 0 <= t < k -> same_ends s1 s2 d t = true.
Proof.
  cbv zeta. unfold delta_after.
  while_inv (fun k => 0 <= k <= maxShiftLimit /\ e1 d + k <= hi /\ forall t, 0 <= t < k -> same_ends s1 s2 d t = true) (fun k => Z.to_nat (maxShiftLimit - k)) as [(Hk & Hl & Hs) _].
  - intros k (Hk & Hl & Hs) Hc. rewrite !andb_true_iff in Hc. destruct Hc as [[[C1 C2] C3] C4]. unfold maxShiftLimit in *. split; [|lia]. split; [lia|]. destruct Hhi as [_ Hh]. split; [rewrite Z.add_assoc; apply Hh; lia|].
    intros t Ht. destruct (decide (t = k)) as [->|]; [|apply Hs; lia]. by apply same_strong.
  - unfold maxShiftLimit. split_and!; [lia..|]. intros t Ht. lia.
  - unfold maxShiftLimit. lia.
  - split_and!; [lia..|]. intros t Ht. apply Hs. lia.
Qed.

Lemma best_delta_range score1 score2 kb ka : 0 <= kb -> 0 <= ka -> - kb <= best_delta d score1 score2 kb ka <= ka.
Proof.
  intros Hb Ha. unfold best_delta. set (l := zrange _ _). assert (Hl : Forall (fun k => - kb <= k <= ka) l) by (apply Forall_forall; intros k Hk; apply elem_of_zrange in Hk; lia).
  assert (Hi : - kb <= (0, -1).1 <= ka) by (cbn; lia). revert Hi. generalize (0, -1). induction Hl as [|k l Hk Hl IH]; intros [bd bs] Hi; [done|]. cbn [foldl]. apply IH. by destruct (_ >? _).
Qed.

Lemma shift_one_ok score1 score2 : exists k, shiftDiffToBetterPosition d s2 score1 score2 v1 v2 = Ok (moved d k) /\ lo <= b1 d + k /\ e1 d + k <= hi /\
  matched s1 s2 a b (b1 d + k) (b2 d + k) /\ matched s1 s2 (e1 d + k) (e2 d + k) a' b'.
Proof.
  pose proof delta_before_spec as HB. pose proof delta_after_spec as HA. cbv zeta in HB, HA. unfold shiftDiffToBetterPosition.
  set (kb := delta_before d s2 v1 v2) in *. set (ka := delta_after d s2 v1 v2) in *. destruct HB as (B1 & B2 & B3), HA as (A1 & A2 & A3).
  assert (Hgo : forall k, - kb <= k <= ka -> lo <= b1 d + k /\ e1 d + k <= hi /\ matched s1 s2 a b (b1 d + k) (b2 d + k) /\ matched s1 s2 (e1 d + k) (e2 d + k) a' b').
  { intros k Hk. split; [lia|]. split; [lia|]. destruct (decide (0 <= k)) as [Hp|Hn].
    - destruct (move_right s1 s2 a' b' d k Hafter Hp) as [M1 M2]; [lia|intros t Ht; apply A3; lia|]. split; [|done]. by eapply matched_trans.
    - destruct (move_left s1 s2 a b d (- k) Hbefore) as [M1 M2]; [lia..|intros t Ht; apply B3; lia|]. rewrite !Z.sub_opp_r in M1, M2. split; [done|]. by eapply matched_trans. }
  destruct ((kb =? 0) && (ka =? 0)) eqn:E0.
  - exists 0. unfold moved. rewrite !Z.add_0_r. split; [by destruct d as [[] []]|]. pose proof (Hgo 0 ltac:(lia)) as H. by rewrite !Z.add_0_r in H.
  - exists (best_delta d score1 score2 kb ka). rewrite delta_ok by lia. split; [done|]. apply Hgo. by apply best_delta_range.
Qed.

End shift_one.

(** Neighbours that can both be moved, or neither. *)
Fixpoint alike (ds : list SequenceDiff) : Prop :=
  match ds with
  | [] => True
  | d :: ds => match ds with [] => True | d' :: _ => shiftable d = shiftable d' end /\ alike ds
  end.

Lemma shiftable_true d : shiftable d = true <-> b1 d = e1 d \/ b2 d = e2 d.
Proof. unfold shiftable, OR.isEmpty. rewrite orb_true_iff, !Z.eqb_eq. tauto. Qed.

Lemma shiftable_moved d k : shiftable (moved d k) = shiftable d.
Proof. apply eq_bool_prop_intro. rewrite !Is_true_true, !shiftable_true. cbn. lia. Qed.

Lemma swap_moved d k : SDiff.swap (moved (SDiff.swap d) k) = moved d k.
Proof. done. Qed.

Section shifting.
Context (s1 s2 : ISequence) (H1 : sequence_ok s1) (H2 : sequence_ok s2) (score1 score2 : Z -> Z).

(** The diff that comes before, as the loop has left it. *)
Definition follows (prev : option SequenceDiff) (a b : Z) (d : SequenceDiff) : Prop :=
  match prev with
  | Some p => a = e1 p /\ b = e2 p /\ b1 p <= e1 p /\ b2 p <= e2 p /\ apart p d /\ shiftable p = shiftable d
  | None => a = 0 /\ b = 0
  end.

Definition precedes (d : SequenceDiff) (rest : list SequenceDiff) : Prop :=
  match rest with [] => True | n :: _ => apart d n /\ shiftable d = shiftable n end.

(** The body of the loop. *)
Lemma shift_step_ok prev d rest a b : describes s1 s2 a b (d :: rest) -> follows prev a b d -> precedes d rest ->
  exists k, shift_from s1 s2 score1 score2 prev (d :: rest) = (let* l := shift_from s1 s2 score1 score2 (Some (moved d k)) rest in Ok (moved d k :: l)) /\
    describes s1 s2 a b (moved d k :: rest) /\ match prev with Some p => apart p (moved d k) | None => True end /\ match rest with [] => True | n :: _ => apart (moved d k) n end.
Proof.
  intros (Hm & D1 & D2 & Hr) Hp Hn. cbn [shift_from].
  set (lo := match prev with Some p => e1 p + 1 | None => 0 end). set (hi := match rest with [] => seq_length s1 | n :: _ => b1 n - 1 end).
  set (sv1 := match prev with Some p => b1 p + 1 | None => 0 end). set (sv2 := match prev with Some p => b2 p + 1 | None => 0 end).
  set (ev1 := match head rest with Some n => e1 n - 1 | None => seq_length s1 end). set (ev2 := match head rest with Some n => e2 n - 1 | None => seq_length s2 end).
  set (a' := match rest with [] => seq_length s1 | n :: _ => b1 n end). set (b' := match rest with [] => seq_length s2 | n :: _ => b2 n end).
  assert (Ha : matched s1 s2 (e1 d) (e2 d) a' b') by (unfold a', b'; destruct rest; [exact Hr|apply Hr]).
  pose proof Hm as (M1 & M2 & _). pose proof Ha as (A1 & A2 & _).
  assert (Hlo : a <= lo <= b1 d /\ sv1 <= b1 d /\ sv2 <= b2 d /\ (shiftable d = true -> forall k, 1 <= k -> sv1 <= b1 d - k -> sv2 <= b2 d - k -> lo <= b1 d - k)).
  { unfold lo, sv1, sv2. destruct prev as [p|]; [|destruct Hp; split_and!; try lia]. destruct Hp as (-> & -> & P1 & P2 & P3 & P4). unfold apart in P3. split_and!; try lia.
    intros Hs k Hk. rewrite Hs in P4. apply shiftable_true in P4. lia. }
  assert (Hhi : e1 d <= hi <= a' /\ e1 d <= ev1 /\ e2 d <= ev2 /\ (shiftable d = true -> forall k, 0 <= k -> e1 d + k < ev1 -> e2 d + k < ev2 -> e1 d + k + 1 <= hi)).
  { unfold hi, ev1, ev2, a', b' in *. destruct rest as [|n rest]; cbn [head]; [split_and!; try lia|]. destruct Hn as [N1 N2]. destruct Hr as (_ & N3 & N4 & _). unfold apart in N1. split_and!; try lia.
    intros Hs k Hk. rewrite Hs in N2. symmetry in N2. apply shiftable_true in N2. lia. }
  destruct Hlo as (L1 & L2 & L3 & L4), Hhi as (U1 & U2 & U3 & U4). rewrite !new_OffsetRange_ok by lia. cbn [result_bind].
  assert (Hgo : forall k r, r = Ok (moved d k) -> lo <= b1 d + k -> e1 d + k <= hi -> matched s1 s2 a b (b1 d + k) (b2 d + k) -> matched s1 s2 (e1 d + k) (e2 d + k) a' b' ->
    exists k, (let* diff := r in let* l := shift_from s1 s2 score1 score2 (Some diff) rest in Ok (diff :: l)) = (let* l := shift_from s1 s2 score1 score2 (Some (moved d k)) rest in Ok (moved d k :: l)) /\
      describes s1 s2 a b (moved d k :: rest) /\ match prev with Some p => apart p (moved d k) | None => True end /\ match rest with [] => True | n :: _ => apart (moved d k) n end).
  { intros k r -> K1 K2 K3 K4. exists k. split; [done|]. split; [split; [exact K3|]; split; [cbn; lia|]; split; [cbn; lia|]; unfold a', b' in K4; destruct rest; [exact K4|split; [exact K4|apply Hr]]|].
    split; [destruct prev; [unfold apart; cbn; unfold lo in K1; lia|done]|]. destruct rest; [done|]. unfold apart. cbn. unfold hi in K2. lia. }
  unfold OR.isEmpty. destruct (Z.eqb_spec (b1 d) (e1 d)) as [E1|E1].
  { assert (Hs : shiftable d = true) by (apply shiftable_true; by left).
    destruct (shift_one_ok s1 s2 (sq_strong _ H2) d (mkOffsetRange sv1 ev1) (mkOffsetRange sv2 ev2) lo hi a b a' b' E1 D2 Hm Ha) with (score1 := score1) (score2 := score2) as (k & E & K); [split; [lia|cbn; by apply L4]|split; [lia|cbn; intros k Hk; rewrite E1; by apply U4]|].
    destruct K as (K1 & K2 & K3 & K4). by apply (Hgo k _ E). }
  destruct (Z.eqb_spec (b2 d) (e2 d)) as [E2|E2].
  - assert (Hs : shiftable d = true) by (apply shiftable_true; by right).
    destruct (shift_one_ok s2 s1 (sq_strong _ H1) (SDiff.swap d) (mkOffsetRange sv2 ev2) (mkOffsetRange sv1 ev1) (lo - b1 d + b2 d) (hi - e1 d + e2 d) b a b' a' E2 D1 (matched_swap _ _ _ _ _ _ Hm) (matched_swap _ _ _ _ _ _ Ha)) with (score1 := score2) (score2 := score1) as (k & E & K1 & K2 & K3 & K4).
    + split; [cbn; lia|cbn; intros k Hk Hk1 Hk2]. pose proof (L4 Hs k Hk Hk2 Hk1). lia.
    + split; [cbn; lia|cbn; intros k Hk Hk1 Hk2]. pose proof (U4 Hs k Hk Hk2 ltac:(lia)). lia.
    + apply (Hgo k); [by rewrite E|cbn in *; lia|cbn in *; lia|by apply matched_swap|by apply matched_swap].
  - apply (Hgo 0); rewrite ?Z.add_0_r; try done; try lia. unfold moved. rewrite !Z.add_0_r. by destruct d as [[] []].
Qed.

Lemma shift_from_ok ds : forall prev a b, describes s1 s2 a b ds -> separated ds -> alike ds -> match ds with [] => True | d :: _ => follows prev a b d end ->
  exists l, shift_from s1 s2 score1 score2 prev ds = Ok l /\ keeps_diff s1 s2 a b ds l /\ match prev, l with Some p, h :: _ => apart p h | _, _ => True end.
Proof.
  induction ds as [|d rest IH]; intros prev a b Hd Hs Hal Hf; [exists []; cbn; by destruct prev|].
  assert (Hn : precedes d rest) by (unfold precedes; destruct rest; [done|]; split; [apply Hs|apply Hal]).
  destruct (shift_step_ok prev d rest a b Hd Hf Hn) as (k & -> & Hdm & Hp & Hap).
  destruct (IH (Some (moved d k)) (e1 (moved d k)) (e2 (moved d k))) as (l & -> & [K1 K2 K3] & K4).
  - apply Hdm.
  - apply Hs.
  - apply Hal.
  - destruct rest as [|n rest]; [done|]. destruct Hd as (_ & D1 & D2 & _). split_and!; try done; [cbn; lia..|]. rewrite shiftable_moved. apply Hal.
  - cbn [result_bind]. exists (moved d k :: l). split; [done|]. split; [|destruct prev; [exact Hp|done]]. split.
    + destruct Hdm as (M1 & M2 & M3 & _). done.
    + apply separated_cons. split; [|done]. destruct l; [done|]. exact K4.
    + change (cost (moved d k :: l)) with ((e1 (moved d k) - b1 (moved d k)) + (e2 (moved d k) - b2 (moved d k)) + cost l). rewrite K3. change (cost (d :: rest)) with ((e1 d - b1 d) + (e2 d - b2 d) + cost rest). cbn [moved seq1Range seq2Range start endExclusive]. lia.
Qed.

End shifting.

(** ** Joining *)

Section joining.
Context (s1 s2 : ISequence) (should : SequenceDiff -> SequenceDiff -> result bool).
Hypothesis Hshould : forall d d', e1 d <= b1 d' -> exists j, should d d' = Ok j.

Lemma join_loop_ok rest : forall prev before joined a b, describes s1 s2 a b (prev :: rest) -> separated (prev :: rest) ->
  exists j h t, foldl (fun acc cur =>
          let* state := acc in
          let '(joined, result) := state in
          match result with
          | [] => Throw TypeError
          | lastResult :: before =>
              let* join := should lastResult cur in
              if join : bool then let* r := SDiff.join lastResult cur in Ok (true, r :: before) else Ok (joined, cur :: result)
          end) (Ok (joined, prev :: before)) rest = Ok (j, rev (h :: t) ++ before) /\
    describes s1 s2 a b (h :: t) /\ separated (h :: t) /\ b1 h = b1 prev /\ (length t <= length rest)%nat.
Proof.
  induction rest as [|cur rest IH]; intros prev before joined a b Hd Hs; [by exists joined, prev, []|]. cbn [foldl result_bind].
  destruct Hd as (Hm & P1 & P2 & Hc & C1 & C2 & Hr). destruct Hs as (Hap & Hac & Hs). unfold apart in Hap. pose proof Hc as (G1 & G2 & _).
  destruct (Hshould prev cur ltac:(lia)) as [[] ->]; cbn [result_bind].
  - rewrite diff_join_ok by lia. cbn [result_bind]. set (r := mkDiff _ _). destruct (IH r before true a b) as (j & h & t & E & K1 & K2 & K3 & K4).
    + split; [exact Hm|]. split; [cbn; lia|]. split; [cbn; lia|]. exact Hr.
    + split; [|done]. exact Hac.
    + exists j, h, t. split_and!; try done. cbn. lia.
  - destruct (IH cur (prev :: before) joined (e1 prev) (e2 prev)) as (j & h & t & E & K1 & K2 & K3 & K4); [done|done|].
    exists j, prev, (h :: t). split; [rewrite E; cbn; by rewrite <- !app_assoc|]. split; [done|]. split; [|split; [done|cbn; lia]]. apply separated_cons. split; [unfold apart; lia|done].
Qed.

Lemma join_when_ok ds : describes s1 s2 0 0 ds -> separated ds -> exists j l, join_when should ds = Ok (j, l) /\ describes s1 s2 0 0 l /\ separated l /\ (length l <= length ds)%nat.
Proof.
  intros Hd Hs. destruct ds as [|first rest]; [by exists false, []|]. unfold join_when.
  destruct (join_loop_ok rest first [] false 0 0 Hd Hs) as (j & h & t & -> & K1 & K2 & _ & K4). cbn [result_bind]. exists j, (h :: t). cbn [fst snd]. rewrite app_nil_r, rev_involutive. split_and!; [done..|]. cbn. lia.
Qed.

Lemma repeat_join_ok n ds : describes s1 s2 0 0 ds -> separated ds -> exists l, repeat_join n should ds = Ok l /\ describes s1 s2 0 0 l /\ separated l /\ (length l <= length ds)%nat.
Proof.
  revert ds. induction n as [|n IH]; intros ds Hd Hs; cbn [repeat_join]; destruct (join_when_ok ds Hd Hs) as (j & l & -> & K1 & K2 & K3); cbn [result_bind]; [by exists l|].
  destruct j; [|by exists l]. destruct (IH l K1 K2) as (l' & -> & L1 & L2 & L3). exists l'. split_and!; [done..|]. lia.
Qed.

End joining.

Lemma removeVeryShort_ok s1 s2 this ds : describes s1 s2 0 0 ds -> separated ds ->
  exists l, removeVeryShortMatchingLinesBetweenDiffs this ds = Ok l /\ describes s1 s2 0 0 l /\ separated l.
Proof.
  intros Hd Hs. unfold removeVeryShortMatchingLinesBetweenDiffs. destruct (zlen ds =? 0); [by exists ds|].
  destruct (repeat_join_ok s1 s2 (shouldJoinDiffs this)) with (n := 10%nat) (ds := ds) as (l & E & K1 & K2 & _); [|done|done|by exists l].
  intros d d' H. unfold shouldJoinDiffs. rewrite new_OffsetRange_ok by lia. by eexists.
Qed.

Lemma optimize_ok s1 s2 ds l : sequence_ok s1 -> sequence_ok s2 -> joinSequenceDiffsByShifting s1 s2 ds = Ok l -> keeps_diff s1 s2 0 0 ds l -> alike l ->
  exists l', optimizeSequenceDiffs s1 s2 ds = Ok l' /\ describes s1 s2 0 0 l' /\ separated l' /\ cost l' = cost ds.
Proof.
  intros H1 H2 E [K1 K2 K3] Hal. unfold optimizeSequenceDiffs. rewrite E. cbn [result_bind]. unfold shiftSequenceDiffs. destruct (getBoundaryScore s1) as [f|], (getBoundaryScore s2) as [g|]; [|by exists l..].
  destruct (shift_from_ok s1 s2 H1 H2 f g l None 0 0 K1 K2 Hal) as (l' & El & [L1 L2 L3] & _); [by destruct l|]. exists l'. split_and!; [done..|]. by rewrite L3.
Qed.

(** C24: Moving and joining diffs keeps what they describe.  For any diffs that lead from one
    sequence to the other with elements between them: [joinSequenceDiffsByShifting] does not
    throw, and gives diffs that lead there too, with elements between them, that remove and
    insert as many elements; so does [shiftSequenceDiffs] after it, and [optimizeSequenceDiffs],
    when neighbouring diffs can both be moved or neither.  Joining diffs with little between
    them ([removeShortMatches]) gives diffs that lead to the second sequence, no more than there
    were. *)
Theorem optimize_describes s1 s2 ds : sequence_ok s1 -> sequence_ok s2 -> describes s1 s2 0 0 ds -> separated ds ->
  exists l, joinSequenceDiffsByShifting s1 s2 ds = Ok l /\ describes s1 s2 0 0 l /\ separated l /\ cost l = cost ds /\
  (alike l -> exists l', optimizeSequenceDiffs s1 s2 ds = Ok l' /\ describes s1 s2 0 0 l' /\ separated l' /\ cost l' = cost ds) /\
  exists l', removeShortMatches ds = Ok l' /\ describes s1 s2 0 0 l' /\ separated l' /\ (length l' <= length ds)%nat.
Proof.
  intros H1 H2 Hd Hs. destruct (joinSequence_ok s1 s2 ds Hd Hs) as (l & E & Hk). pose proof Hk as [K1 K2 K3]. exists l. split; [done|]. split; [done|]. split; [done|]. split; [done|].
  split; [by eapply optimize_ok|]. unfold removeShortMatches.
  destruct (join_when_ok s1 s2 (fun last s => Ok ((b1 s - e1 last <=? 2) || (b2 s - e2 last <=? 2)))) with (ds := ds) as (j & l' & -> & L1 & L2 & L3); [intros; by eexists|done|done|]. by exists l'.
Qed.

(** [a b] to [a b x b]: the insertion of [b x] stays, as no other place is better. *)
Lemma optimize_describes_witness :
  let s1 := of_list [97; 98] in let s2 := of_list [97; 98; 120; 98] in
  let ds := [mkDiff (mkOffsetRange 1 1) (mkOffsetRange 1 3)] in
  describes s1 s2 0 0 ds /\ optimizeSequenceDiffs s1 s2 ds = Ok [mkDiff (mkOffsetRange 1 1) (mkOffsetRange 1 3)].
Proof.
  intros s1 s2 ds. assert (Hd : describes s1 s2 0 0 ds).
  { cbn [describes ds]. change (seq_length s1) with 2. change (seq_length s2) with 4. unfold matched. cbn [seq1Range seq2Range start endExclusive]. split_and?; try lia; intros i Hi; assert (i = 0) as -> by lia; done. }
  split; [done|]. destruct (optimize_describes s1 s2 ds (of_list_ok _) (of_list_ok _) Hd) as (l & E & _ & _ & _ & Ho & _); [done|]. vm_compute in E. injection E as <-.
  destruct Ho as (l' & E & _); [done|]. rewrite E. vm_compute in E. injection E as <-. done.
Defined.
