(* ===== verification/Myers.v ===== *)
(** * The diff algorithm of Myers

    [MyersDiffAlgorithm] of
    [src/src/vs/editor/common/diff/defaultLinesDiffComputer/algorithms/myersDiffAlgorithm.ts].

    A number is an integer or [None] for [NaN]: the algorithm reads entries of its arrays that
    were never set, and [undefined] in a computation gives [NaN], as does [NaN] itself; a
    comparison with it is false.  An [Int32Array] keeps 0 for it. *)

From S2P Require Import Prelude OffsetRange TextChange Diff.

#[local] Open Scope js_scope.

(** ** Numbers *)

Definition num : Type := option Z.

Definition num_lt (x y : num) : bool := match x, y with Some x, Some y => x <? y | _, _ => false end.
Definition num_eq (x y : num) : bool := match x, y with Some x, Some y => x =? y | _, _ => false end.
Definition num_plus (x y : num) : num := x ← x; y ← y; Some (x + y).
Definition num_minus (x y : num) : num := x ← x; y ← y; Some (x - y).
Definition num_maximum (x y : num) : num := x ← x; y ← y; Some (Z.max x y).
Definition num_minimum (x y : num) : num := x ← x; y ← y; Some (Z.min x y).

(** ** Arrays with negative indices *)

Record FastInt32Array : Type := mkFast { positiveArr : list Z; negativeArr : list Z }.

Module FA.

Definition new : FastInt32Array := mkFast (replicate 10 0) (replicate 10 0).

Definition get (this : FastInt32Array) (idx : Z) : num :=
  if idx <? 0 then (negativeArr this).[- idx - 1] else (positiveArr this).[idx].

(** One of the two arrays: it is made twice as long when the index is behind its end; a store
    behind the end has no effect. *)
Definition store (arr : list Z) (idx : Z) (value : num) : list Z :=
  let arr := if idx >=? zlen arr then arr ++ replicate (length arr) 0 else arr in
  set_at arr idx (match value with Some v => to_int32 v | None => 0 end).

Definition set (this : FastInt32Array) (idx : Z) (value : num) : FastInt32Array :=
  if idx <? 0 then mkFast (positiveArr this) (store (negativeArr this) (- idx - 1) value)
  else mkFast (store (positiveArr this) idx value) (negativeArr this).

End FA.

(** A chain of snakes, or [null] or [undefined], which are false where they are tested. *)
Inductive SnakePath : Type := NoPath | mkSnake (prev : SnakePath) (x y length : num).

Record FastArrayNegativeIndices : Type := mkPaths { positivePaths : list SnakePath; negativePaths : list SnakePath }.

Module FP.

Definition new : FastArrayNegativeIndices := mkPaths [] [].

Definition get (this : FastArrayNegativeIndices) (idx : Z) : SnakePath :=
  default NoPath (if idx <? 0 then (negativePaths this).[- idx - 1] else (positivePaths this).[idx]).

(** An array grows to the index. *)
Definition store (arr : list SnakePath) (idx : Z) (value : SnakePath) : list SnakePath :=
  set_at (if idx >=? zlen arr then arr ++ replicate (Z.to_nat (idx + 1 - zlen arr)) NoPath else arr) idx value.

Definition set (this : FastArrayNegativeIndices) (idx : Z) (value : SnakePath) : FastArrayNegativeIndices :=
  if idx <? 0 then mkPaths (positivePaths this) (store (negativePaths this) (- idx - 1) value)
  else mkPaths (store (positivePaths this) idx value) (negativePaths this).

End FP.

(** ** The algorithm *)

Module MD.
Section myers.
Context (seqX seqY : ISequence) (timeout : ITimeout).
Abbreviation lenX := (seq_length seqX).
Abbreviation lenY := (seq_length seqY).

(** [getElement] of [NaN] is never asked for, as the tests before it are false. *)
Definition in_snake (x y : num) : bool :=
  num_lt x (Some lenX) && num_lt y (Some lenY) &&
  match x, y with Some x, Some y => bool_decide (getElement seqX x = getElement seqY y) | _, _ => false end.

Definition getXAfterSnake (x y : num) : num :=
  (while (Z.to_nat lenX) (fun '(x, y) => in_snake x y) (fun '(x, y) => (num_plus x (Some 1), num_plus y (Some 1))) (x, y)).1.

Record State : Type := mkState { V : FastInt32Array; paths : FastArrayNegativeIndices }.

(** The body of the inner loop; is it left for good? *)
Definition diagonal (lowerBound upperBound k : Z) (st : State) : bool * State :=
  let maxXofDLineTop := if k =? upperBound then Some (-1) else FA.get (V st) (k + 1) in
  let maxXofDLineLeft := if k =? lowerBound then Some (-1) else num_plus (FA.get (V st) (k - 1)) (Some 1) in
  let x := num_minimum (num_maximum maxXofDLineTop maxXofDLineLeft) (Some lenX) in
  let y := num_minus x (Some k) in
  if num_lt (Some lenX) x || num_lt (Some lenY) y then (false, st)
  else
    let newMaxX := getXAfterSnake x y in
    let V' := FA.set (V st) k newMaxX in
    let lastPath := if num_eq x maxXofDLineTop then FP.get (paths st) (k + 1) else FP.get (paths st) (k - 1) in
    let paths' := FP.set (paths st) k (if negb (num_eq newMaxX x) then mkSnake lastPath x y (num_minus newMaxX x) else lastPath) in
    (num_eq (FA.get V' k) (Some lenX) && num_eq (num_minus (FA.get V' k) (Some k)) (Some lenY), mkState V' paths').

(** [for (k = lowerBound; k <= upperBound; k += 2)], from [k] on; the diagonal with which the
    outer loop is left. *)
Fixpoint diagonals (fuel : nat) (lowerBound upperBound k : Z) (st : State) : option Z * State :=
  match fuel with
  | O => (None, st)
  | S fuel =>
      if k <=? upperBound then
        let '(found, st) := diagonal lowerBound upperBound k st in
        if found : bool then (Some k, st) else diagonals fuel lowerBound upperBound (k + 2) st
      else (None, st)
  end.

Definition lower_bound (d : Z) : Z := - Z.min d (lenY + d mod 2).
Definition upper_bound (d : Z) : Z := Z.min d (lenX + d mod 2).

(** One round of the outer loop, for [d]. *)
Definition round (d : Z) (st : State) : option Z * State :=
  let lowerBound := lower_bound d in
  let upperBound := upper_bound d in
  diagonals (Z.to_nat (upperBound - lowerBound + 1)) lowerBound upperBound lowerBound st.

(** The outer loop, left with a path, or because the time is over ([inl]); [None] is a lack of
    fuel. *)
Fixpoint search (fuel : nat) (d : Z) (st : State) : option (unit + SnakePath) :=
  match fuel with
  | O => None
  | S fuel =>
      let d := d + 1 in
      if negb (timeout (Z.to_nat (d - 1))) then Some (inl tt)
      else
        let '(found, st) := round d st in
        match found with
        | Some k => Some (inr (FP.get (paths st) k))
        | None => search fuel d st
        end
  end.

(** The loop over the path; a range with [NaN] has no place in a [SequenceDiff] here, and is
    an exception. *)
Fixpoint collect (path : SnakePath) (lastAligningPosS1 lastAligningPosS2 : num) (result : list SequenceDiff) {struct path}
    : Prelude.result (list SequenceDiff) :=
  let endX := match path with mkSnake _ x _ length => num_plus x length | NoPath => Some 0 end in
  let endY := match path with mkSnake _ _ y length => num_plus y length | NoPath => Some 0 end in
  let pushed :=
    if negb (num_eq endX lastAligningPosS1) || negb (num_eq endY lastAligningPosS2) then
      match endX, lastAligningPosS1, endY, lastAligningPosS2 with
      | Some endX, Some last1, Some endY, Some last2 => let* d := SDiff.new endX last1 endY last2 in Ok (d :: result)
      | _, _, _, _ => Throw OtherError
      end
    else Ok result in
  let* result := pushed in
  match path with
  | NoPath => Ok result
  | mkSnake prev x y _ => collect prev x y result
  end.

Definition start_state : State :=
  let V0 := FA.set FA.new 0 (getXAfterSnake (Some 0) (Some 0)) in
  mkState V0 (FP.set FP.new 0 (if num_eq (FA.get V0 0) (Some 0) then NoPath else mkSnake NoPath (Some 0) (Some 0) (FA.get V0 0))).

(** Rounds enough for any two sequences. *)
Definition rounds : nat := Z.to_nat (4 * (lenX + lenY) + 20).

Definition compute : result DiffAlgorithmResult :=
  if (lenX =? 0) || (lenY =? 0) then trivial seqX seqY
  else
    match search rounds 0 start_state with
    | None => Throw OtherError
    | Some (inl _) => trivialTimedOut seqX seqY
    | Some (inr path) =>
        let* result := collect path (Some lenX) (Some lenY) [] in
        Ok (mkDiffResult result false)
    end.

End myers.
End MD.
