(* ===== verification/MyersState.v ===== *)
(** * One diagonal of the diff algorithm

    The arrays of [Myers], what a snake is, when the entry of a diagonal is [Good], which
    entries the algorithm leaves behind besides, and what visiting one diagonal does. *)

From S2P Require Import Prelude OffsetRange TextChange Diff Myers.

#[local] Open Scope js_scope.

(** ** Arrays *)

Definition capn (a : FastInt32Array) : Z := zlen (negativeArr a).
Definition capp (a : FastInt32Array) : Z := zlen (positiveArr a).

(** A store at the end makes the array longer; what was [undefined] is 0 afterwards. *)
Lemma FA_store_other arr k x j : 0 <= k -> j <> k -> (FA.store arr k x).[j] = arr.[j] \/ arr.[j] = None /\ (FA.store arr k x).[j] = Some 0.
Proof.
  intros Hk Hj. unfold FA.store. set (arr' := if k >=? zlen arr then _ else arr). assert (Hs : forall y, (set_at arr' k y).[j] = arr'.[j]).
  { intros y. unfold set_at, at_. destruct (Z.ltb_spec k 0); [lia|]. destruct (Z.ltb_spec j 0); [done|]. apply list_lookup_insert_ne. lia. }
  rewrite Hs. unfold arr'. destruct (k >=? zlen arr) eqn:E; [|by left]. destruct (decide (j < zlen arr)) as [Hl|Hl]; [left; by apply at_app_l|].
  rewrite at_app_r by lia. destruct (arr.[j]) eqn:Ea; [apply at_lt in Ea; lia|]. destruct ((replicate (length arr) 0).[j - zlen arr]) as [y|] eqn:Er; [right|by left]. split; [done|].
  apply at_elem_of in Er. apply elem_of_replicate in Er as [-> _]. done.
Qed.

Lemma FA_store_same arr k x : 0 <= k <= zlen arr -> 0 < zlen arr -> (FA.store arr k x).[k] = Some (match x with Some x => to_int32 x | None => 0 end).
Proof.
  intros Hk Hl. unfold FA.store, set_at, at_. set (y := match x with Some x => _ | None => 0 end). destruct (Z.ltb_spec k 0); [lia|]. rewrite list_lookup_insert_eq; [done|].
  unfold zlen in *. destruct (k >=? _) eqn:E; [rewrite length_app, length_replicate; lia|lia].
Qed.

Lemma FA_store_length arr k x : zlen arr <= zlen (FA.store arr k x) /\ (0 <= k -> zlen arr <= k -> k <= 2 * zlen arr - 1 -> k < zlen (FA.store arr k x)).
Proof.
  unfold FA.store, set_at, zlen. destruct (k <? 0) eqn:E0; [|rewrite length_insert]; destruct (k >=? _) eqn:E; rewrite ?length_app, ?length_replicate; lia.
Qed.

Lemma FA_store_nan arr k : (FA.store arr k None).[k] = Some 0 \/ (FA.store arr k None).[k] = None.
Proof.
  unfold FA.store, set_at, at_. set (arr' := if k >=? zlen arr then _ else arr). destruct (k <? 0) eqn:E; [by right|]. destruct (decide (Z.to_nat k < length arr')%nat); [left; by apply list_lookup_insert_eq|].
  right. apply lookup_ge_None_2. rewrite length_insert. lia.
Qed.

Lemma FA_defined a k : FA.get a k = None <-> k < - capn a \/ capp a <= k.
Proof.
  unfold FA.get, capn, capp, at_, zlen. destruct (Z.ltb_spec k 0).
  - destruct (Z.ltb_spec (- k - 1) 0); [lia|]. split; [intros Hn; apply lookup_ge_None in Hn; lia|intros Hn; apply lookup_ge_None; lia].
  - destruct (Z.ltb_spec k 0); [lia|]. split; [intros Hn; apply lookup_ge_None in Hn; lia|intros Hn; apply lookup_ge_None; lia].
Qed.

Lemma FA_set_other a k x j : j <> k -> FA.get (FA.set a k x) j = FA.get a j \/ FA.get a j = None /\ FA.get (FA.set a k x) j = Some 0.
Proof.
  intros Hj. unfold FA.get, FA.set. destruct (Z.ltb_spec k 0), (Z.ltb_spec j 0); cbn; try (by left); apply FA_store_other; lia.
Qed.

Lemma FA_set_same a k x : - capn a - 1 <= k <= capp a -> 0 < capn a -> 0 < capp a -> FA.get (FA.set a k x) k = Some (match x with Some x => to_int32 x | None => 0 end).
Proof.
  unfold capn, capp. intros Hk Hn Hp. unfold FA.get, FA.set. destruct (Z.ltb_spec k 0); cbn; apply FA_store_same; lia.
Qed.

Lemma FA_set_nan a k : FA.get (FA.set a k None) k = Some 0 \/ FA.get (FA.set a k None) k = None.
Proof. unfold FA.get, FA.set. destruct (Z.ltb_spec k 0); cbn; apply FA_store_nan. Qed.

Lemma FA_set_caps a k x : capn a <= capn (FA.set a k x) /\ capp a <= capp (FA.set a k x).
Proof.
  unfold capn, capp, FA.set. destruct (k <? 0); cbn; split; try lia; apply FA_store_length.
Qed.

Lemma FA_set_capn a k x : k < 0 -> capn a <= - k - 1 -> - k - 1 <= 2 * capn a - 1 -> - k <= capn (FA.set a k x).
Proof.
  intros Hk H1 H2. unfold capn, FA.set in *. destruct (Z.ltb_spec k 0); [|lia]. cbn. pose proof (FA_store_length (negativeArr a) (- k - 1) x) as [_ Hl]. lia.
Qed.

Lemma FP_store_get arr k x j : 0 <= k -> default NoPath (FP.store arr k x).[j] = if decide (j = k) then x else default NoPath arr.[j].
Proof.
  intros Hk. unfold FP.store. set (arr' := if k >=? zlen arr then _ else arr).
  assert (Hl : k < zlen arr') by (unfold arr'; destruct (k >=? zlen arr) eqn:E; [rewrite zlen_app, zlen_replicate by lia; lia|lia]).
  assert (Ha : default NoPath arr'.[j] = default NoPath arr.[j]).
  { unfold arr'. destruct (k >=? zlen arr) eqn:E; [|done]. destruct (decide (j < zlen arr)) as [Hj|Hj]; [by rewrite at_app_l|]. rewrite at_app_r by lia.
    destruct (arr.[j]) eqn:Ea; [apply at_lt in Ea; lia|]. cbn. destruct ((replicate _ NoPath).[_]) as [y|] eqn:Er; [|done]. apply at_elem_of in Er. by apply elem_of_replicate in Er as [-> _]. }
  unfold set_at, at_ in *. destruct (Z.ltb_spec k 0); [lia|]. case_decide as Hd.
  - subst j. destruct (Z.ltb_spec k 0); [lia|]. unfold zlen in Hl. rewrite list_lookup_insert_eq by lia. done.
  - rewrite <- Ha. destruct (Z.ltb_spec j 0); [done|]. rewrite list_lookup_insert_ne by lia. done.
Qed.

Lemma FP_get_set a k x j : FP.get (FP.set a k x) j = if decide (j = k) then x else FP.get a j.
Proof.
  unfold FP.get, FP.set. destruct (Z.ltb_spec k 0), (Z.ltb_spec j 0); cbn; rewrite ?FP_store_get by lia; repeat case_decide; try done; lia.
Qed.

(** ** Snakes *)

Section snakes.
Context (seqX seqY : ISequence) (HX : sequence_ok seqX) (HY : sequence_ok seqY).
Abbreviation N := (seq_length seqX).
Abbreviation M := (seq_length seqY).

Lemma in_snake_some x y : 0 <= x -> MD.in_snake seqX seqY (Some x) (Some y) = true -> x < N /\ 0 <= y < M /\ getElement seqX x = getElement seqY y.
Proof.
  intros Hx H. unfold MD.in_snake in H. cbn in H. rewrite !andb_true_iff in H. destruct H as [[H1 H2] H3]. apply bool_decide_eq_true in H3. split; [lia|]. split; [|done]. split; [|lia].
  destruct (decide (0 <= y)); [done|]. rewrite (sq_outside _ HY y) in H3 by lia. destruct (sq_inside _ HX x ltac:(lia)) as [e He]. congruence.
Qed.

(** Where the snake from [x] on the diagonal [k] ends. *)
Definition snk (k x : Z) : Z := default 0 (MD.getXAfterSnake seqX seqY (Some x) (Some (x - k))).

Lemma snake_spec k x : 0 <= x <= N ->
  MD.getXAfterSnake seqX seqY (Some x) (Some (x - k)) = Some (snk k x) /\ x <= snk k x <= N /\ matched seqX seqY x (x - k) (snk k x) (snk k x - k) /\
  (x < snk k x -> 0 <= x - k /\ snk k x - k <= M).
Proof.
  intros Hx. assert (He : exists x', MD.getXAfterSnake seqX seqY (Some x) (Some (x - k)) = Some x' /\ x <= x' <= N /\ matched seqX seqY x (x - k) x' (x' - k) /\ (x < x' -> 0 <= x - k /\ x' - k <= M)).
  2: { destruct He as (x' & E & H). unfold snk. rewrite E. cbn. by split. }
  unfold MD.getXAfterSnake.
  while_inv (fun '((u, w) : num * num) => exists x', u = Some x' /\ w = Some (x' - k) /\ x <= x' <= N /\ matched seqX seqY x (x - k) x' (x' - k) /\ (x < x' -> 0 <= x - k /\ x' - k <= M))
    (fun '((u, w) : num * num) => match u with Some x' => Z.to_nat (N - x') | None => 0%nat end) as [Hi _].
  - intros [u w] (x' & -> & -> & Hx' & (M1 & M2 & M3) & Hy) Hc. apply in_snake_some in Hc as (C1 & C2 & C3); [|lia]. cbn. split; [|lia]. exists (x' + 1). split; [done|]. split; [do 2 f_equal; lia|]. split; [lia|]. split; [|lia].
    split; [lia|]. split; [lia|]. intros i Hi. destruct (decide (i = x' - x)) as [->|]; [|apply M3; lia]. replace (x + (x' - x)) with x' by lia. replace (x - k + (x' - x)) with (x' - k) by lia. done.
  - exists x. split; [done|]. split; [done|]. split; [lia|]. split; [apply matched_refl|lia].
  - lia.
  - destruct (while _ _ _ _) as [u w]. destruct Hi as (x' & -> & -> & H). exists x'. by split.
Qed.

(** ** Paths *)

Definition pend (p : SnakePath) : Z * Z :=
  match p with NoPath => (0, 0) | mkSnake _ x y l => (default 0 (num_plus x l), default 0 (num_plus y l)) end.

Fixpoint chain (p : SnakePath) : Prop :=
  match p with
  | NoPath => True
  | mkSnake prev x y l => exists X Y L, x = Some X /\ y = Some Y /\ l = Some L /\ 0 < L /\ (pend prev).1 <= X /\ (pend prev).2 <= Y /\ X + L <= N /\ Y + L <= M /\
      matched seqX seqY X Y (X + L) (Y + L) /\ chain prev
  end.

Lemma chain_end p : chain p -> 0 <= N -> 0 <= M -> (0 <= (pend p).1 <= N) /\ (0 <= (pend p).2 <= M).
Proof.
  intros Hp HN HM. induction p as [|prev IH x y l]; [cbn; lia|]. destruct Hp as (X & Y & L & -> & -> & -> & H1 & H2 & H3 & H4 & H5 & _ & Hp). apply IH in Hp. cbn. lia.
Qed.

(** ** Entries *)

Definition vget (st : MD.State) (k : Z) : num := FA.get (MD.V st) k.
Definition pget (st : MD.State) (k : Z) : SnakePath := FP.get (MD.paths st) k.

(** The point [x] of the diagonal [k] is in the grid or on its right edge, and comes behind the
    end of the path. *)
Definition behind (p : SnakePath) (k x : Z) : Prop := chain p /\ 0 <= x <= N /\ (pend p).1 <= x /\ (x = N \/ 0 <= x - k /\ (pend p).2 <= x - k).

Definition Good (st : MD.State) (k : Z) : Prop := exists x, vget st k = Some x /\ x - k <= M /\ behind (pget st k) k x.

(** The other entries: far above the grid; never set; on the right edge. *)
Definition Junk (st : MD.State) (k : Z) : Prop := exists x, vget st k = Some x /\ 0 <= x < N /\ x - k <= -2.
Definition Sat (st : MD.State) (k : Z) : Prop := vget st k = Some N /\ N <= k /\ behind (pget st k) k N.
Definition Weak (st : MD.State) (k : Z) : Prop := vget st k = None \/ vget st k = Some 0 \/ Sat st k.

(** The diagonal has reached the lower edge. *)
Definition bottom (st : MD.State) (k : Z) : Prop := vget st k = Some (M + k).

(** The entry is as it was, up to 0 for [undefined]. *)
Definition same (st st' : MD.State) (k : Z) : Prop :=
  (vget st' k = vget st k \/ vget st k = None /\ vget st' k = Some 0) /\ pget st' k = pget st k.

Lemma same_refl st k : same st st k.
Proof. by split; [left|]. Qed.

Lemma same_trans st st' st'' k : same st st' k -> same st' st'' k -> same st st'' k.
Proof. intros [[E1|[E1 E1']] P1] [[E2|[E2 E2']] P2]; (split; [|congruence]); [left|right|right|right]; try split; congruence. Qed.

Lemma same_some st st' k x : same st st' k -> vget st k = Some x -> vget st' k = Some x.
Proof. intros [[E|[E _]] _] H; congruence. Qed.

Lemma same_good st st' k : same st st' k -> Good st k -> Good st' k.
Proof. intros Hs (x & Hx & H). exists x. split; [by eapply same_some|]. destruct Hs as [_ ->]. done. Qed.

Lemma same_junk st st' k : same st st' k -> Junk st k -> Junk st' k.
Proof. intros Hs (x & Hx & H). exists x. split; [by eapply same_some|done]. Qed.

Lemma same_weak st st' k : same st st' k -> Weak st k -> Weak st' k.
Proof.
  intros [[E|[E E']] P] [H|[H|[H1 H2]]]; unfold Weak, Sat; rewrite ?P.
  - left; congruence.
  - right; left; congruence.
  - right; right; split; [congruence|done].
  - right; left; congruence.
  - congruence.
  - congruence.
Qed.

Lemma good_above st k : Good st k -> exists x, vget st k = Some x /\ k - 1 <= x \/ vget st k = Some N.
Proof. intros (x & Hx & _ & _ & _ & _ & [->|[H _]]); [exists 0; by right|exists x; left; split; [done|lia]]. Qed.

(** ** Going on from the neighbours *)

(** The path to the end of the snake from [x]. *)
Definition next_path (last : SnakePath) (k x : Z) : SnakePath :=
  if snk k x =? x then last else mkSnake last (Some x) (Some (x - k)) (Some (snk k x - x)).

Lemma behind_snake q k x : behind q k x -> x - k <= M -> behind (next_path q k x) k (snk k x) /\ snk k x - k <= M.
Proof.
  intros (Hc & Hx & H1 & H2) Hy. destruct (snake_spec k x Hx) as (_ & Hs & Hm & Hin). unfold next_path. destruct (Z.eqb_spec (snk k x) x) as [->|Hne]; [done|].
  destruct Hin as [I1 I2]; [lia|]. destruct H2 as [H2|[_ H2]]; [lia|]. split; [|done]. split.
  - exists x, (x - k), (snk k x - x). split_and!; try done; [lia..|]. replace (x + (snk k x - x)) with (snk k x) by lia. replace (x - k + (snk k x - x)) with (snk k x - k) by lia. done.
  - cbn. split; [lia|]. split; [lia|]. right. lia.
Qed.

(** From the left, one to the right; the edge stays the edge. *)
Lemma behind_left q k x : behind q (k - 1) x -> x - (k - 1) <= M -> behind q k (Z.min (x + 1) N) /\ Z.min (x + 1) N - k <= M.
Proof.
  intros (Hc & Hx & H1 & H2) Hy. split; [|lia]. split; [done|]. split; [lia|]. split; [lia|]. destruct (decide (x + 1 <= N)); [|left; lia]. destruct H2 as [H2|H2]; [lia|]. right. lia.
Qed.

Lemma behind_top q k x : behind q (k + 1) x -> behind q k x.
Proof. intros (Hc & Hx & H1 & H2). split; [done|]. split; [done|]. split; [done|]. destruct H2 as [H2|H2]; [by left|right; lia]. Qed.

(** ** Visiting a diagonal *)

Definition top_of (up : Z) (st : MD.State) (k : Z) : num := if k =? up then Some (-1) else vget st (k + 1).
Definition left_of (lo : Z) (st : MD.State) (k : Z) : num := if k =? lo then Some (-1) else num_plus (vget st (k - 1)) (Some 1).

(** What is stored when the best point to go on from is [x]. *)
Definition visited (st : MD.State) (k x : Z) (last : SnakePath) : MD.State :=
  MD.mkState (FA.set (MD.V st) k (Some (snk k x))) (FP.set (MD.paths st) k (next_path last k x)).

Lemma diagonal_unfold lo up k st : MD.diagonal seqX seqY lo up k st =
  let x := num_minimum (num_maximum (top_of up st k) (left_of lo st k)) (Some N) in
  let y := num_minus x (Some k) in
  if num_lt (Some N) x || num_lt (Some M) y then (false, st)
  else
    let newMaxX := MD.getXAfterSnake seqX seqY x y in
    let V' := FA.set (MD.V st) k newMaxX in
    let lastPath := if num_eq x (top_of up st k) then pget st (k + 1) else pget st (k - 1) in
    (num_eq (FA.get V' k) (Some N) && num_eq (num_minus (FA.get V' k) (Some k)) (Some M),
     MD.mkState V' (FP.set (MD.paths st) k (if negb (num_eq newMaxX x) then mkSnake lastPath x y (num_minus newMaxX x) else lastPath))).
Proof. reflexivity. Qed.

Lemma diagonal_some lo up k st t lf : top_of up st k = Some t -> left_of lo st k = Some lf -> 0 <= Z.max t lf -> 0 <= N ->
  let x := Z.min (Z.max t lf) N in
  MD.diagonal seqX seqY lo up k st =
    if M <? x - k then (false, st)
    else let st' := visited st k x (if x =? t then pget st (k + 1) else pget st (k - 1)) in
         (num_eq (vget st' k) (Some N) && num_eq (num_minus (vget st' k) (Some k)) (Some M), st').
Proof.
  intros Ht Hl Hx HN. cbv zeta. rewrite diagonal_unfold, Ht, Hl. cbn [num_maximum num_minimum num_minus mbind option_bind num_lt].
  set (x := Z.min (Z.max t lf) N). destruct (Z.ltb_spec N x); [lia|]. cbn [orb]. destruct (M <? x - k); [done|].
  destruct (snake_spec k x) as (E & _); [lia|]. rewrite E. cbn [num_eq num_minus mbind option_bind]. unfold visited, next_path. by destruct (snk k x =? x).
Qed.

Lemma snake_nan y : MD.getXAfterSnake seqX seqY None y = None.
Proof. unfold MD.getXAfterSnake. by destruct (Z.to_nat N). Qed.

Lemma diagonal_nan lo up k st : top_of up st k = None \/ left_of lo st k = None -> 0 < N ->
  exists q, MD.diagonal seqX seqY lo up k st = (false, MD.mkState (FA.set (MD.V st) k None) (FP.set (MD.paths st) k q)).
Proof.
  intros H HN. rewrite diagonal_unfold.
  assert (E : num_minimum (num_maximum (top_of up st k) (left_of lo st k)) (Some N) = None) by (destruct H as [-> | ->]; [done|by destruct (top_of up st k)]).
  rewrite E. cbn [num_minus mbind option_bind num_lt orb]. rewrite snake_nan. eexists. assert (E0 : (0 =? N) = false) by lia. destruct (FA_set_nan (MD.V st) k) as [-> | ->]; cbn [num_eq andb]; rewrite ?E0; done.
Qed.

(** Every other entry stays what it was. *)
Lemma stored_same st k x q j : j <> k -> same st (MD.mkState (FA.set (MD.V st) k x) (FP.set (MD.paths st) k q)) j.
Proof.
  intros Hj. split; unfold vget, pget; cbn [MD.V MD.paths]; [by apply FA_set_other|]. rewrite FP_get_set. by rewrite decide_False.
Qed.

Lemma visit_same lo up k st : forall b st', MD.diagonal seqX seqY lo up k st = (b, st') -> forall j, j <> k -> same st st' j.
Proof.
  intros b st'. unfold MD.diagonal. destruct (_ || _); intros [= <- <-] j Hj; [apply same_refl|by apply stored_same].
Qed.

(** The diagonal with which the search ends. *)
Lemma visit_found lo up k st : forall st', MD.diagonal seqX seqY lo up k st = (true, st') -> k = N - M /\ vget st' k = Some N.
Proof.
  intros st'. unfold MD.diagonal. destruct (_ || _); [done|]. intros [= Hf <-]. unfold vget. cbn [MD.V]. destruct (FA.get _ k) as [v|]; [|done]. cbn in Hf. rewrite andb_true_iff in Hf.
  destruct Hf as [H1 H2]. apply Z.eqb_eq in H1, H2. split; [lia|by rewrite H1].
Qed.

Definition in_reach (st : MD.State) (k : Z) : Prop := 0 < capn (MD.V st) /\ 0 < capp (MD.V st) /\ - capn (MD.V st) - 1 <= k <= capp (MD.V st).

(** The neighbour below is lower than what the left one leads to, or a point to go on from. *)
Definition top_ok (up : Z) (st : MD.State) (k xl : Z) : Prop :=
  exists t, top_of up st k = Some t /\ (t <= xl /\ t < N \/ k <> up /\ behind (pget st (k + 1)) (k + 1) t).

Definition best (up : Z) (st : MD.State) (k xl : Z) : Z := Z.min (Z.max (default (-1) (top_of up st k)) (xl + 1)) N.

Lemma visited_good st k x q : N < 2 ^ 31 -> in_reach st k -> behind q k x -> x - k <= M -> Good (visited st k x q) k /\ vget (visited st k x q) k = Some (snk k x).
Proof.
  intros HN (R1 & R2 & R3) Hb Hy. destruct (behind_snake q k x Hb Hy) as [Hb' Hy']. assert (Hx : 0 <= x <= N) by apply Hb. destruct (snake_spec k x Hx) as (_ & Hs & _).
  assert (E : vget (visited st k x q) k = Some (snk k x)) by (unfold vget, visited; cbn [MD.V]; rewrite FA_set_same by done; by rewrite to_int32_id by (unfold is_int32; lia)).
  split; [|done]. exists (snk k x). split; [done|]. split; [done|]. unfold pget, visited. cbn [MD.paths]. rewrite FP_get_set. by rewrite decide_True.
Qed.

Lemma visit_good lo up k st xl : N < 2 ^ 31 -> k <> lo -> vget st (k - 1) = Some xl -> xl - (k - 1) <= M -> behind (pget st (k - 1)) (k - 1) xl -> top_ok up st k xl -> in_reach st k ->
  M < best up st k xl - k /\ MD.diagonal seqX seqY lo up k st = (false, st) \/
  best up st k xl - k <= M /\ exists b st', MD.diagonal seqX seqY lo up k st = (b, st') /\ Good st' k /\ vget st' k = Some (snk k (best up st k xl)).
Proof.
  intros HN Hk Hl Hy Hb (t & Ht & Hok) Hr. assert (Hlf : left_of lo st k = Some (xl + 1)) by (unfold left_of; destruct (Z.eqb_spec k lo); [done|by rewrite Hl]).
  assert (Hxl : 0 <= xl <= N) by apply Hb. assert (Eb : best up st k xl = Z.min (Z.max t (xl + 1)) N) by (unfold best; by rewrite Ht).
  pose proof (diagonal_some lo up k st t (xl + 1) Ht Hlf ltac:(lia) ltac:(lia)) as E. cbv zeta in E. rewrite <- Eb in E. destruct (Z.ltb_spec M (best up st k xl - k)); [by left|right]. split; [done|].
  do 2 eexists. split; [exact E|]. apply visited_good; [done|done| |done]. destruct (behind_left _ k xl Hb Hy) as [Hb' _].
  destruct (Z.eqb_spec (best up st k xl) t) as [Et|Et].
  - destruct Hok as [Hok|[_ Hok]]; [lia|]. rewrite Et. by apply behind_top.
  - replace (best up st k xl) with (Z.min (xl + 1) N); [done|]. destruct Hok as [Hok|[_ (_ & Hok & _)]]; lia.
Qed.

(** The lowest diagonal of a round has only the neighbour below. *)
Lemma visit_lowest lo up st t : N < 2 ^ 31 -> lo <> up -> vget st (lo + 1) = Some t -> behind (pget st (lo + 1)) (lo + 1) t -> in_reach st lo ->
  M < t - lo /\ MD.diagonal seqX seqY lo up lo st = (false, st) \/
  t - lo <= M /\ exists b st', MD.diagonal seqX seqY lo up lo st = (b, st') /\ Good st' lo /\ vget st' lo = Some (snk lo t).
Proof.
  intros HN Hup Ht Hb Hr. assert (Htop : top_of up st lo = Some t) by (unfold top_of; by destruct (Z.eqb_spec lo up)). assert (Hlf : left_of lo st lo = Some (-1)) by (unfold left_of; by rewrite Z.eqb_refl).
  assert (Hx : 0 <= t <= N) by apply Hb. pose proof (diagonal_some lo up lo st t (-1) Htop Hlf ltac:(lia) ltac:(lia)) as E. cbv zeta in E. replace (Z.min (Z.max t (-1)) N) with t in E by lia.
  destruct (Z.ltb_spec M (t - lo)); [by left|right]. split; [done|]. do 2 eexists. split; [exact E|]. apply visited_good; [done|done| |done]. rewrite Z.eqb_refl. by apply behind_top.
Qed.

(** Unless the search ends, the last diagonal has not reached the corner. *)
Lemma visit_not_found lo up k st : forall st', MD.diagonal seqX seqY lo up k st = (false, st') -> 0 < N -> vget st (N - M) <> Some N -> vget st' (N - M) <> Some N.
Proof.
  intros st' E HN Hn He. destruct (decide (N - M = k)) as [<-|Hk].
  - revert E He. rewrite diagonal_unfold. cbv zeta. destruct (_ || _); [by intros [= <-]|]. intros [= Hf <-]. unfold vget. cbn [MD.V]. intros He. rewrite He in Hf. cbn in Hf. rewrite Z.eqb_refl in Hf. cbn in Hf. lia.
  - destruct (visit_same lo up k st false st' E (N - M) Hk) as [[E1|[_ E1]] _]; rewrite E1 in He; [done|]. injection He. lia.
Qed.

Lemma visit_caps lo up k st b st' : MD.diagonal seqX seqY lo up k st = (b, st') -> capn (MD.V st) <= capn (MD.V st') /\ capp (MD.V st) <= capp (MD.V st').
Proof. unfold MD.diagonal. destruct (_ || _); intros [= _ <-]; [lia|apply FA_set_caps]. Qed.

Lemma reach_right st k x : 10 <= capn (MD.V st) -> 10 <= capp (MD.V st) -> vget st (k - 1) = Some x -> in_reach st k.
Proof.
  intros Hn Hp Hx. assert (Hd : vget st (k - 1) <> None) by congruence. unfold vget in Hd. rewrite FA_defined in Hd. unfold in_reach. lia.
Qed.

End snakes.
