(* ===== verification/MyersRound.v ===== *)
(** * One round of the diff algorithm

    A round visits every other diagonal and reads the ones between, which the round before
    visited.  From the lowest but one diagonal on: what the round leaves behind, when the
    diagonals read are good from [go] up to [To], the last of which may be junk. *)

From S2P Require Import Prelude OffsetRange TextChange Diff Myers MyersState.

#[local] Open Scope js_scope.

(** Linear arithmetic with remainders. *)
Ltac mlia := Z.to_euclidean_division_equations; lia.

Section round.
Context (seqX seqY : ISequence) (HX : sequence_ok seqX) (HY : sequence_ok seqY).
Abbreviation N := (seq_length seqX).
Abbreviation M := (seq_length seqY).
Abbreviation Good := (Good seqX seqY).
Abbreviation Junk := (Junk seqX).
Abbreviation bottom := (bottom seqY).
Abbreviation snk := (snk seqX seqY).

(** The diagonals of the class of [To]. *)
Record class (st : MD.State) (g To : Z) : Prop := {
  cl_good : forall j, (j - To) mod 2 = 0 -> g <= j < To -> Good st j;
  cl_top : Good st To \/ Junk st To;
  cl_weak : forall j, (j - To) mod 2 = 0 -> To < j -> 2 <= j -> Weak seqX seqY st j }.

Lemma class_same st st' g To : class st g To -> (forall j, (j - To) mod 2 = 0 -> same st st' j) -> class st' g To.
Proof.
  intros [C1 C2 C3] Hs. split.
  - intros j Hp Hj. eapply same_good; [by apply Hs|by apply C1].
  - destruct C2 as [C2|C2]; [left; eapply same_good; [apply Hs; mlia|done]|right; eapply same_junk; [apply Hs; mlia|done]].
  - intros j Hp Hj H2. eapply same_weak; [by apply Hs|by apply C3].
Qed.

Context (st0 : MD.State) (lo up l To go : Z).
Hypothesis HN : 1 <= N < 2 ^ 31.
Hypothesis HM : 1 <= M.
Hypothesis Hup : l <= up <= l + 1.
Hypothesis Hlo : lo < 0 /\ (l - lo) mod 2 = 0.
Hypothesis Hl : 0 <= l <= N + 1 /\ 0 <= To.
Hypothesis Hside : l = To + 1 \/ l = To - 1 /\ N <= To.
Hypothesis Ho : class st0 go To.
Hypothesis Hgl : go + 1 <= l.
Hypothesis Hcorner : vget st0 (N - M) <> Some N.
(** The diagonals that keep their entries are good. *)
Hypothesis Hkeep : forall j, (j - l) mod 2 = 0 -> go + 1 <= j <= l - 2 -> bottom st0 (j + 1) -> Good st0 j.

(** What visiting a diagonal below the last one leaves. *)
Record outcome (st : MD.State) (j : Z) : Prop := {
  oc_good : Good st j;
  oc_keep : bottom st0 (j + 1) -> same st0 st j;
  oc_bottom : bottom st0 (j - 1) -> ~ bottom st0 (j + 1) -> bottom st j;
  oc_left : Junk st0 (j + 1) -> forall x, vget st0 (j - 1) = Some x -> vget st j = Some (snk j (Z.min (x + 1) N)) }.

(** What visiting the last diagonal leaves. *)
Inductive last_outcome (st : MD.State) : Prop :=
  | last_good : Good st l -> (bottom st0 (l - 1) -> bottom st l) ->
      (bottom st l -> M + l < N -> l = To + 1 -> Good st0 (l - 1) /\ exists x, vget st0 (l - 1) = Some x /\ x < N /\ vget st l = Some (snk l (x + 1))) -> last_outcome st
  | last_junk : Junk st l -> l = To + 1 -> l < up /\ vget st0 (l + 1) = None \/ Junk st0 To -> last_outcome st.

(** Before [k] is visited. *)
Record mid (k : Z) (st : MD.State) : Prop := {
  mid_same : forall j, (j - l) mod 2 <> 0 \/ k <= j -> same st0 st j;
  mid_done : forall j, (j - l) mod 2 = 0 -> go + 1 <= j -> j < k -> j <= l - 2 -> outcome st j;
  mid_corner : vget st (N - M) <> Some N;
  mid_caps : 10 <= capn (MD.V st) /\ 10 <= capp (MD.V st) }.

Lemma bottom_unmoved j x : 0 <= x <= N -> x = M + j -> snk j x = M + j.
Proof.
  intros Hx ->. destruct (snake_spec seqX seqY HX HY j (M + j) Hx) as (_ & H1 & _ & H2). destruct (decide (M + j < snk j (M + j))) as [Hlt|]; [|lia]. apply H2 in Hlt. lia.
Qed.

Lemma junk_not_bottom st j : Junk st j -> ~ bottom st j.
Proof. intros (x & Hx & _ & Hj) Hb. unfold MyersState.bottom in Hb. rewrite Hx in Hb. injection Hb. lia. Qed.

(** The entry above a diagonal to be visited, which is not the last one. *)
Lemma top_below k st xl : mid k st -> (k - l) mod 2 = 0 -> go + 1 <= k <= l - 2 -> vget st (k - 1) = Some xl -> behind seqX seqY (pget st (k - 1)) (k - 1) xl ->
  top_ok seqX seqY up st k xl /\ exists t, vget st0 (k + 1) = Some t /\ top_of up st k = Some t /\ (Junk st0 (k + 1) -> t <= xl /\ t < N) /\ (t <= xl /\ t < N \/ Good st0 (k + 1) /\ t <= M + k + 1).
Proof.
  intros Hm Hp Hk Hxl Hb. assert (Hs : same st0 st (k + 1)) by (apply (mid_same _ _ Hm); left; mlia).
  assert (Htop : top_of up st k = vget st (k + 1)) by (unfold top_of; destruct (Z.eqb_spec k up); [lia|done]).
  assert (Hx : k - 1 <= xl) by (destruct Hb as (_ & Hxl' & _ & [H|[H _]]); lia).
  assert (Hgj : Good st0 (k + 1) \/ Junk st0 (k + 1)).
  { destruct (decide (k + 1 = To)) as [->|Hne]; [apply Ho|left; apply (cl_good _ _ _ Ho); [mlia|lia]]. }
  destruct Hgj as [Hg|Hj].
  - pose proof (same_good _ _ _ _ _ Hs Hg) as (t & Ht & Hty & Htb). pose proof Hg as (t0 & Ht0 & _). assert (t0 = t) as -> by (apply (same_some _ _ _ _ Hs) in Ht0; congruence).
    split; [exists t; split; [congruence|right; split; [lia|done]]|]. exists t. split; [done|]. split; [congruence|]. split; [|right; split; [done|lia]].
    intros (t' & Ht' & ? & ?). assert (t' = t) as -> by congruence. lia.
  - pose proof Hj as (t & Ht & Ht1 & Ht2). pose proof (same_some _ _ _ _ Hs Ht) as Ht'. assert (Hlow : t <= xl /\ t < N) by lia.
    split; [exists t; split; [congruence|by left]|]. exists t. split; [done|]. split; [congruence|]. split; [done|by left].
Qed.

Lemma best_eq st k t xl : top_of up st k = Some t -> best seqX up st k xl = Z.min (Z.max t (xl + 1)) N.
Proof. intros H. unfold best. by rewrite H. Qed.

Lemma not_corner st j : Good st j -> bottom st j -> vget st (N - M) <> Some N -> M + j < N.
Proof.
  intros (x & Hx & _ & _ & Hr & _) Hb Hc. unfold MyersState.bottom in Hb. rewrite Hx in Hb. injection Hb as ->. destruct (decide (j = N - M)) as [->|]; [|lia]. rewrite Hx in Hc. exfalso. apply Hc. f_equal. lia.
Qed.

(** Visiting a good diagonal that is not the last one. *)
Lemma mid_step k st : mid k st -> (k - l) mod 2 = 0 -> go + 1 <= k <= l - 2 -> k <> lo ->
  (exists st', MD.diagonal seqX seqY lo up k st = (true, st') /\ k = N - M /\ vget st' k = Some N /\ Good st' k) \/
  exists st', MD.diagonal seqX seqY lo up k st = (false, st') /\ mid (k + 2) st'.
Proof.
  intros Hm Hp Hk Hne. pose proof (mid_same _ _ Hm) as Hsame. assert (Hs : same st0 st (k - 1)) by (apply Hsame; left; mlia).
  assert (Hg0 : Good st0 (k - 1)) by (apply (cl_good _ _ _ Ho); [mlia|lia]).
  pose proof Hg0 as (xl0 & Hxl0 & _). destruct (same_good _ _ _ _ _ Hs Hg0) as (xl & Hxl & Hyl & Hbl). assert (xl0 = xl) as -> by (apply (same_some _ _ _ _ Hs) in Hxl0; congruence).
  destruct (top_below k st xl Hm Hp Hk Hxl Hbl) as (Hok & t & Ht0 & Ht & Hlow & Hcase). assert (Hr : in_reach st k) by (eapply reach_right; [apply Hm|apply Hm|exact Hxl]).
  assert (Hxl' : 0 <= xl <= N) by apply Hbl. pose proof (best_eq st k t xl Ht) as Eb.
  assert (Hkb : bottom st0 (k - 1) -> M + k <= N) by (intros Hb; pose proof (not_corner st0 (k - 1) Hg0 Hb Hcorner); lia).
  assert (Htb : bottom st0 (k + 1) -> M < best seqX up st k xl - k).
  { intros Hb. unfold MyersState.bottom in Hb. assert (t = M + (k + 1)) as -> by congruence. assert (M + (k + 1) <= N); [|lia]. destruct Hcase as [?|[(t' & Ht' & _ & _ & ? & _) _]]; [lia|]. assert (t' = M + (k + 1)) by congruence. lia. }
  destruct (visit_good seqX seqY HX HY lo up k st xl) as [[Hy E]|[Hy (b & st' & E & Hg & Hv)]]; try done; [lia| |].
  - right. exists st. split; [exact E|]. assert (Hb : bottom st0 (k + 1)).
    { unfold MyersState.bottom. rewrite Ht0. f_equal. destruct Hcase as [?|[? ?]]; lia. }
    split; try apply Hm; [intros j [Hj|Hj]; apply Hsame; [by left|right; lia]|]. intros j Hj H1 H2 H3. destruct (decide (j = k)) as [->|]; [|apply (mid_done _ _ Hm); mlia].
    assert (Hsk : same st0 st k) by (apply Hsame; right; lia).
    split; [eapply same_good; [exact Hsk|by apply Hkeep]|done|done|]. intros Hj'. by apply junk_not_bottom in Hj'.
  - destruct b; [left; destruct (visit_found _ _ _ _ _ _ _ E) as [-> Hf]; by exists st'|right]. exists st'. split; [exact E|]. pose proof (visit_same _ _ lo up k st _ _ E) as Hv'. split.
    + intros j Hj. assert (Hjk : j <> k) by (intros ->; destruct Hj as [Hj|Hj]; [mlia|lia]). eapply same_trans; [apply Hsame; destruct Hj; [by left|right; lia]|by apply Hv'].
    + intros j Hj H1 H2 H3. destruct (decide (j = k)) as [->|Hjk].
      * split; [done|..].
        -- intros Hb. apply Htb in Hb. lia.
        -- intros Hb Hnb. unfold MyersState.bottom in Hb |- *. rewrite Hxl0 in Hb. injection Hb as Hb. rewrite Hv. f_equal. specialize (Hkb ltac:(unfold MyersState.bottom; rewrite Hxl0, Hb; done)).
           apply bottom_unmoved; [lia|]. assert (t <= M + k); [|lia]. destruct Hcase as [?|[? ?]]; [lia|]. destruct (decide (t = M + (k + 1))) as [->|]; [|lia]. exfalso. apply Hnb. exact Ht0.
        -- intros Hj' x Hx. assert (x = xl) as -> by congruence. rewrite Hv. do 2 f_equal. rewrite Eb. specialize (Hlow Hj'). lia.
      * destruct (mid_done _ _ Hm j Hj H1 ltac:(mlia) H3) as [O1 O2 O3 O4]. specialize (Hv' j Hjk). split.
        -- by eapply same_good.
        -- intros Hb. eapply same_trans; [by apply O2|done].
        -- intros Hb Hnb. eapply same_some; [done|by apply O3].
        -- intros Hj' x Hx. eapply same_some; [done|by apply O4].
    + eapply visit_not_found; [exact E|lia|apply Hm].
    + pose proof (visit_caps _ _ _ _ _ _ _ _ E). pose proof (mid_caps _ _ Hm). lia.
Qed.

(** Visiting a diagonal of which nothing is known. *)
Lemma mid_dead k st : mid k st -> (k - l) mod 2 = 0 -> k < go + 1 -> go + 1 <= N - M -> exists st', MD.diagonal seqX seqY lo up k st = (false, st') /\ mid (k + 2) st'.
Proof.
  intros Hm Hp Hk Hd. destruct (MD.diagonal seqX seqY lo up k st) as [[] st'] eqn:E; [apply visit_found in E as [? _]; lia|]. exists st'. split; [done|].
  pose proof (visit_same _ _ lo up k st _ _ E) as Hv. pose proof (mid_same _ _ Hm) as Hsame. split.
  - intros j Hj. assert (Hjk : j <> k) by (intros ->; destruct Hj as [Hj|Hj]; [mlia|lia]). eapply same_trans; [apply Hsame; destruct Hj; [by left|right; lia]|by apply Hv].
  - intros j Hj H1 H2 H3. assert (Hjk : j <> k) by lia. destruct (mid_done _ _ Hm j Hj H1 ltac:(mlia) H3) as [O1 O2 O3 O4]. specialize (Hv j Hjk). split.
    + by eapply same_good.
    + intros Hb. eapply same_trans; [by apply O2|done].
    + intros Hb Hnb. eapply same_some; [done|by apply O3].
    + intros Hj' x Hx. eapply same_some; [done|by apply O4].
  - eapply visit_not_found; [exact E|lia|apply Hm].
  - pose proof (visit_caps _ _ _ _ _ _ _ _ E). pose proof (mid_caps _ _ Hm). lia.
Qed.

(** The entry above the last diagonal: none, because it is the upper bound, or one of the other
    class behind its last one, or the last one of the other class. *)
Lemma top_last st xl : mid l st -> vget st (l - 1) = Some xl -> 0 <= xl ->
  (top_of up st l = None /\ l < up /\ l = To + 1 /\ vget st0 (l + 1) = None) \/
  (exists t, top_of up st l = Some t /\ t <= 0) \/
  (l = To + 1 /\ top_of up st l = Some N /\ N <= l + 1 /\ l <> up /\ behind seqX seqY (pget st (l + 1)) (l + 1) N) \/
  (l = To - 1 /\ l <> up /\ exists t, top_of up st l = Some t /\ (t < N /\ t <= l - 1 \/ behind seqX seqY (pget st (l + 1)) (l + 1) t /\ t <= N)).
Proof.
  intros Hm Hxl Hx. unfold top_of. destruct (Z.eqb_spec l up) as [->|Hne]; [right; left; exists (-1); split; [done|lia]|].
  assert (Hs : same st0 st (l + 1)) by (apply (mid_same _ _ Hm); left; mlia). destruct Hside as [Hs1|[Hs1 Hs2]].
  - pose proof (cl_weak _ _ _ Ho (l + 1) ltac:(mlia) ltac:(lia) ltac:(lia)) as Hw. destruct (vget st (l + 1)) as [t|] eqn:Et.
    + destruct (same_weak _ _ _ _ _ Hs Hw) as [W|[W|(W & W1 & W2)]]; [congruence| |].
      * right; left. exists t. split; [done|]. assert (t = 0) as -> by congruence. lia.
      * right; right; left. assert (t = N) as -> by congruence. split_and!; try done; lia.
    + left. split; [done|]. split; [lia|]. split; [done|]. destruct Hs as [[E|[_ E]] _]; congruence.
  - right; right; right. split; [done|]. split; [done|]. destruct (cl_top _ _ _ Ho) as [Hg|Hj]; replace To with (l + 1) in * by lia.
    + destruct (same_good _ _ _ _ _ Hs Hg) as (t & Ht & _ & Hb). exists t. split; [done|]. right. split; [done|]. destruct Hb as (_ & ? & _). lia.
    + destruct (same_junk _ _ _ _ Hs Hj) as (t & Ht & H1 & H2). exists t. split; [done|]. left. lia.
Qed.

Lemma good_last st b st' x : mid l st -> MD.diagonal seqX seqY lo up l st = (b, st') -> Good st' l -> vget st' l = Some x -> b = true -> l = N - M /\ vget st' l = Some N /\ Good st' l.
Proof. intros Hm E Hg Hv ->. destruct (visit_found _ _ _ _ _ _ _ E) as [H1 H2]. by split_and!. Qed.

(** Visiting the last diagonal. *)
Lemma last_step st : mid l st ->
  (exists st', MD.diagonal seqX seqY lo up l st = (true, st') /\ l = N - M /\ vget st' l = Some N /\ Good st' l) \/
  exists st', MD.diagonal seqX seqY lo up l st = (false, st') /\ last_outcome st'.
Proof.
  intros Hm. pose proof (mid_same _ _ Hm) as Hsame. assert (Hs : same st0 st (l - 1)) by (apply Hsame; left; mlia). assert (Hne : l <> lo) by lia.
  assert (Hleft : Good st0 (l - 1) \/ Junk st0 (l - 1) /\ l = To + 1).
  { destruct Hside as [Hs1|[Hs1 Hs2]]; [|left; apply (cl_good _ _ _ Ho); [mlia|lia]]. replace (l - 1) with To by lia. destruct (cl_top _ _ _ Ho); [by left|by right]. }
  destruct Hleft as [Hg0|[Hj0 Hlt]].
  - pose proof Hg0 as (xl0 & Hxl0 & _). destruct (same_good _ _ _ _ _ Hs Hg0) as (xl & Hxl & Hyl & Hbl). assert (xl0 = xl) as -> by (apply (same_some _ _ _ _ Hs) in Hxl0; congruence).
    assert (Hxl' : 0 <= xl <= N) by apply Hbl. assert (Hr : in_reach st l) by (eapply reach_right; [apply Hm|apply Hm|exact Hxl]).
    assert (Hxk : l - 1 <= xl \/ xl = N) by (destruct Hbl as (_ & _ & _ & [H|[H _]]); lia).
    assert (Hkb : bottom st0 (l - 1) -> M + l <= N) by (intros Hb; pose proof (not_corner st0 (l - 1) Hg0 Hb Hcorner); lia).
    destruct (top_last st xl Hm Hxl ltac:(lia)) as [(Ht & T1 & T2 & T3)|Ht].
    { destruct (diagonal_nan seqX seqY lo up l st) as [q E]; [by left|lia|]. right. eexists. split; [exact E|]. apply last_junk; [|done|by left]. exists 0. unfold vget. cbn [MD.V]. rewrite FA_set_same by apply Hr.
      split; [done|]. assert (Hd : vget st0 (l + 1) = None) by done. assert (Hn : vget st (l + 1) = None) by (unfold top_of in Ht; by destruct (l =? up)). unfold vget in Hn. apply FA_defined in Hn. pose proof (mid_caps _ _ Hm). lia. }
    assert (Hok : top_ok seqX seqY up st l xl /\ exists t, top_of up st l = Some t /\ t <= N /\ (t <= xl \/ N <= l + 1) /\ (t <= xl /\ t < N \/ t = N \/ l = To - 1)).
    { destruct Ht as [(t & Ht & H0)|[(H1 & Ht & H2 & H3 & H4)|(H1 & H2 & t & Ht & Hc)]].
      - split; [exists t; split; [done|left; lia]|]. exists t. split; [done|]. split; [lia|]. split; [left; lia|]. left. lia.
      - split; [exists N; split; [done|by right]|]. exists N. split; [done|]. split; [lia|]. split; [by right|]. right; by left.
      - split; [exists t; split; [done|]; destruct Hc as [Hc|[Hc _]]; [left; lia|by right]|]. exists t. split; [done|]. split; [lia|]. split; [|by right; right]. right. lia. }
    destruct Hok as [Hok (t & Ht' & Htn & Htx & Htc)]. pose proof (best_eq st l t xl Ht') as Eb.
    destruct (visit_good seqX seqY HX HY lo up l st xl) as [[Hy E]|[Hy (b & st' & E & Hg & Hv)]]; try done; [lia|exfalso; lia|].
    destruct b; [left; exists st'; split; [exact E|]; by eapply good_last|right]. exists st'. split; [exact E|]. apply last_good; [done| |].
    + intros Hb. specialize (Hkb Hb). unfold MyersState.bottom in Hb |- *. rewrite Hxl0 in Hb. injection Hb as Hb. rewrite Hv. f_equal. apply bottom_unmoved; lia.
    + intros Hb Hlt Hlt'. split; [done|]. exists xl. split; [done|]. unfold MyersState.bottom in Hb. rewrite Hv in Hb. injection Hb as Hb.
      destruct (snake_spec seqX seqY HX HY l (best seqX up st l xl) ltac:(lia)) as (_ & Hsn & _). assert (best seqX up st l xl = xl + 1) as Ebx; [|split; [lia|rewrite Hv, Ebx; done]]. destruct Htc as [?|[->|?]]; lia.
  - destruct (same_junk _ _ _ _ Hs Hj0) as (xl & Hxl & Hx1 & Hx2). assert (Hr : in_reach st l) by (eapply reach_right; [apply Hm|apply Hm|exact Hxl]).
    assert (Hnb : ~ bottom st0 (l - 1)) by (by apply junk_not_bottom). assert (HjT : Junk st0 To) by (by replace To with (l - 1) by lia).
    destruct (top_last st xl Hm Hxl ltac:(lia)) as [(Ht & T1 & T2 & T3)|[(t & Ht & Ht0)|[(_ & Ht & T1 & T2 & T3)|(T1 & _)]]]; [| | |lia].
    + destruct (diagonal_nan seqX seqY lo up l st) as [q E]; [by left|lia|]. right. eexists. split; [exact E|]. apply last_junk; [|done|by right]. exists 0. unfold vget. cbn [MD.V]. rewrite FA_set_same by apply Hr.
      split; [done|]. assert (Hn : vget st (l + 1) = None) by (unfold top_of in Ht; by destruct (l =? up)). unfold vget in Hn. apply FA_defined in Hn. pose proof (mid_caps _ _ Hm). lia.
    + assert (Hlf : left_of lo st l = Some (xl + 1)) by (unfold left_of; destruct (Z.eqb_spec l lo); [done|by rewrite Hxl]).
      pose proof (diagonal_some seqX seqY HX HY lo up l st t (xl + 1) Ht Hlf ltac:(lia) ltac:(lia)) as E. cbv zeta in E. replace (Z.min (Z.max t (xl + 1)) N) with (xl + 1) in E by lia.
      destruct (Z.ltb_spec M (xl + 1 - l)); [lia|]. set (st' := visited _ _ _ _ _ _) in E.
      assert (Hsn : snk l (xl + 1) = xl + 1) by (destruct (snake_spec seqX seqY HX HY l (xl + 1) ltac:(lia)) as (_ & H1 & _ & H2); destruct (decide (xl + 1 < snk l (xl + 1))) as [Hlt'|]; [apply H2 in Hlt'; lia|lia]).
      assert (Hv : vget st' l = Some (xl + 1)) by (unfold st', vget, visited; cbn [MD.V]; rewrite FA_set_same by apply Hr; rewrite Hsn; by rewrite to_int32_id by (unfold is_int32; lia)).
      right. exists st'. rewrite Hv in E. split; [rewrite E; f_equal; cbn; destruct (Z.eqb_spec (xl + 1) N); [lia|done]|]. apply last_junk; [|done|by right]. exists (xl + 1). split; [done|lia].
    + assert (Hlf : left_of lo st l = Some (xl + 1)) by (unfold left_of; destruct (Z.eqb_spec l lo); [done|by rewrite Hxl]).
      pose proof (diagonal_some seqX seqY HX HY lo up l st N (xl + 1) Ht Hlf ltac:(lia) ltac:(lia)) as E. cbv zeta in E. replace (Z.min (Z.max N (xl + 1)) N) with N in E by lia.
      destruct (Z.ltb_spec M (N - l)); [lia|]. rewrite Z.eqb_refl in E. destruct (visited_good seqX seqY HX HY st l N (pget st (l + 1)) ltac:(lia) Hr) as [Hg Hv]; [by apply behind_top|lia|].
      assert (Hsn : snk l N = N) by (destruct (snake_spec seqX seqY HX HY l N ltac:(lia)) as (_ & H1 & _); lia). rewrite Hsn in Hv.
      destruct (num_eq _ _ && _) eqn:Ef in E; [left|right]; (eexists; split; [exact E|]).
      * eapply good_last; [exact Hm|exact E|exact Hg|exact Hv|done].
      * apply last_good; [exact Hg|done|]. intros Hb Hlt'. unfold MyersState.bottom in Hb. rewrite Hv in Hb. injection Hb. lia.
Qed.

(** ** The rest of the round *)

Record after (st : MD.State) : Prop := {
  af_same : forall j, (j - l) mod 2 <> 0 \/ l < j -> same st0 st j;
  af_done : forall j, (j - l) mod 2 = 0 -> go + 1 <= j <= l - 2 -> outcome st j;
  af_last : last_outcome st;
  af_corner : vget st (N - M) <> Some N;
  af_caps : 10 <= capn (MD.V st) /\ 10 <= capp (MD.V st) }.

Lemma last_after st st' : mid l st -> MD.diagonal seqX seqY lo up l st = (false, st') -> last_outcome st' -> after st'.
Proof.
  intros Hm E Hl'. pose proof (visit_same _ _ lo up l st _ _ E) as Hv. pose proof (mid_same _ _ Hm) as Hsame.
  assert (Hj : forall j, j <> l -> (j - l) mod 2 <> 0 \/ l <= j -> same st0 st' j) by (intros j Hj H; eapply same_trans; [by apply Hsame|by apply Hv]).
  split; [|intros j Hp Hr|done|eapply visit_not_found; [exact E|lia|apply Hm]|pose proof (visit_caps _ _ _ _ _ _ _ _ E); pose proof (mid_caps _ _ Hm); lia].
  - intros j [H|H]; apply Hj; [intros ->; mlia|by left|lia|right; lia].
  - destruct (mid_done _ _ Hm j Hp ltac:(lia) ltac:(lia) ltac:(lia)) as [O1 O2 O3 O4]. specialize (Hv j ltac:(lia)). split.
    + by eapply same_good.
    + intros Hb. eapply same_trans; [by apply O2|done].
    + intros Hb Hnb. eapply same_some; [done|by apply O3].
    + intros Hj' x Hx. eapply same_some; [done|by apply O4].
Qed.

(** The loop ends on the diagonal of the corner, or goes through all the others. *)
Lemma loop_after fuel : forall k st, mid k st -> (k - l) mod 2 = 0 -> lo <= k <= l -> (k = lo -> k < go + 1) -> (k < go + 1 -> go + 1 <= N - M) -> up - k + 1 <= Z.of_nat fuel ->
  (exists k' st', MD.diagonals seqX seqY fuel lo up k st = (Some k', st') /\ k' = N - M /\ vget st' k' = Some N /\ Good st' k') \/
  exists st', MD.diagonals seqX seqY fuel lo up k st = (None, st') /\ after st' /\ forall j, j < k -> same st st' j.
Proof.
  induction fuel as [|fuel IH]; intros k st Hm Hp Hk Hk0 Hd Hf; [lia|]. cbn [MD.diagonals]. destruct (Z.leb_spec k up); [|lia].
  assert (Hnext : forall st', MD.diagonal seqX seqY lo up k st = (false, st') -> mid (k + 2) st' -> k <= l - 2 ->
    (exists k' st'', MD.diagonals seqX seqY fuel lo up (k + 2) st' = (Some k', st'') /\ k' = N - M /\ vget st'' k' = Some N /\ Good st'' k') \/
    exists st'', MD.diagonals seqX seqY fuel lo up (k + 2) st' = (None, st'') /\ after st'' /\ forall j, j < k -> same st st'' j).
  { intros st' E Hm' Hk'. destruct (IH (k + 2) st' Hm' ltac:(mlia) ltac:(lia) ltac:(lia) ltac:(lia) ltac:(lia)) as [H'|(st'' & E' & Ha & Hs)]; [by left|right].
    exists st''. split; [done|]. split; [done|]. intros j Hj. eapply same_trans; [eapply visit_same; [exact E|lia]|apply Hs; lia]. }
  destruct (decide (k < go + 1)) as [Hlt|Hge].
  - destruct (mid_dead k st Hm Hp Hlt (Hd Hlt)) as (st' & E & Hm'). rewrite E. apply Hnext; [done|done|mlia].
  - destruct (decide (k = l)) as [->|Hne].
    + destruct (last_step st Hm) as [(st' & E & H1 & H2 & H3)|(st' & E & Hl')]; rewrite E; [left; by exists l, st'|right]. exists st'.
      split; [destruct fuel; cbn [MD.diagonals]; [done|by destruct (Z.leb_spec (l + 2) up); [lia|]]|]. split; [by eapply last_after|]. intros j Hj. eapply visit_same; [exact E|lia].
    + destruct (mid_step k st Hm Hp ltac:(mlia) ltac:(lia)) as [(st' & E & H1 & H2 & H3)|(st' & E & Hm')]; rewrite E; [left; by exists k, st'|]. apply Hnext; [done|done|mlia].
Qed.

End round.
