(* ===== verification/MyersBounds.v ===== *)
(** * The diagonals of the rounds of the diff algorithm

    The bounds of the rounds of [Myers], the last diagonal a round visits, and the last one of
    the other class, which the round reads.  A round visits the class the round before did not
    visit, but for the one after the first that is bounded by an odd length ([flip]). *)

From S2P Require Import Prelude OffsetRange TextChange Diff Myers MyersState MyersRound.

#[local] Open Scope js_scope.

Section bounds.
Context (N M : Z).
Hypothesis HN : 1 <= N.
Hypothesis HM : 1 <= M.

Definition lo_of (d : Z) : Z := - Z.min d (M + d mod 2).
Definition up_of (d : Z) : Z := Z.min d (N + d mod 2).
Definition last_of (d : Z) : Z := up_of d - (up_of d - lo_of d) mod 2.
Definition flip (d : Z) : bool := (M mod 2 =? 1) && (d =? M + 1).

(** The last one of the class that is read, and of the one that is visited, before the round. *)
Definition read_of (d : Z) : Z := if flip d then last_of (d - 2) else last_of (d - 1).
Definition old_of (d : Z) : Z := if flip d then last_of (d - 1) else read_of (d - 1).

Lemma mod2_cases x : x mod 2 = 0 \/ x mod 2 = 1.
Proof. mlia. Qed.

Lemma last_spec d : 0 <= d -> last_of d <= up_of d <= last_of d + 1 /\ (last_of d - lo_of d) mod 2 = 0 /\ 0 <= last_of d <= N + 1 /\ Z.min d N - 1 <= last_of d <= d.
Proof. unfold last_of, up_of, lo_of. mlia. Qed.

Lemma lo_spec d : 1 <= d -> lo_of d < 0 /\ - d <= lo_of d /\ - M - 1 <= lo_of d /\ (d <= M -> lo_of d = - d) /\ (M < d -> lo_of d = - M \/ lo_of d = - M - 1).
Proof. unfold lo_of. mlia. Qed.

Lemma last_even d : 0 <= d -> N mod 2 = 0 -> (d <= M \/ M mod 2 = 0) -> last_of d = up_of d.
Proof. unfold last_of, up_of, lo_of. mlia. Qed.

Lemma flip_spec d : flip d = true <-> M mod 2 = 1 /\ d = M + 1.
Proof. unfold flip. lia. Qed.

Lemma last_succ d : 1 <= d -> flip d = false -> last_of d = last_of (d - 1) + 1 \/ last_of d = last_of (d - 1) - 1 /\ N <= last_of (d - 1).
Proof. unfold flip, last_of, up_of, lo_of. mlia. Qed.

Lemma last_flip d : flip d = true -> last_of d = last_of (d - 2) + 1 \/ last_of d = last_of (d - 2) - 1 /\ N <= last_of (d - 2).
Proof. rewrite flip_spec. intros [H ->]. unfold last_of, up_of, lo_of. mlia. Qed.

Lemma last_read d : 1 <= d -> 0 <= read_of d /\ (last_of d = read_of d + 1 \/ last_of d = read_of d - 1 /\ N <= read_of d).
Proof.
  intros Hd. unfold read_of. destruct (flip d) eqn:E.
  - pose proof E as [_ Hm]%flip_spec. pose proof (last_spec (d - 2) ltac:(lia)). pose proof (last_flip d E). lia.
  - pose proof (last_spec (d - 1) ltac:(lia)). pose proof (last_succ d Hd E). lia.
Qed.

(** The class that is visited has been visited up to two diagonals before, or farther, when the
    parity of the bounds changes. *)
Definition old_spec (d old : Z) : Prop :=
  (last_of d - old) mod 2 = 0 /\ last_of d - 2 <= old /\ (last_of d < old -> old = N + 1 /\ old = last_of d + 2 /\ N mod 2 = 0 /\ (d - 1 <= M \/ M mod 2 = 0)).

Lemma old_flip d : flip d = true -> old_spec d (last_of (d - 1)).
Proof. rewrite flip_spec. intros [H ->]. unfold old_spec, last_of, up_of, lo_of. mlia. Qed.

Lemma old_after_flip d : flip (d - 1) = true -> old_spec d (last_of (d - 3)).
Proof. rewrite flip_spec. intros [H Hd]. replace d with (M + 2) by lia. unfold old_spec, last_of, up_of, lo_of. mlia. Qed.

Lemma old_usual d : 2 <= d -> flip d = false -> flip (d - 1) = false -> old_spec d (last_of (d - 2)).
Proof. unfold flip. intros H2 H3 H4. assert (M mod 2 = 0 \/ d <= M \/ M + 3 <= d) as [H|[H|H]] by mlia; unfold old_spec, last_of, up_of, lo_of; mlia. Qed.

Lemma last_first : last_of 0 = 0 /\ last_of 1 = 1 /\ last_of (-1) = -1.
Proof. unfold last_of, up_of, lo_of. mlia. Qed.

Lemma old_ok d : 1 <= d -> old_spec d (old_of d).
Proof.
  intros Hd. unfold old_of. destruct (flip d) eqn:E; [by apply old_flip|]. unfold read_of. destruct (flip (d - 1)) eqn:E'.
  - replace (d - 1 - 2) with (d - 3) by lia. by apply old_after_flip.
  - replace (d - 1 - 1) with (d - 2) by lia. destruct (decide (d = 1)) as [->|]; [|apply old_usual; [lia|done..]].
    unfold old_spec. destruct last_first as (_ & -> & E1). replace (1 - 2) with (-1) by lia. rewrite E1. split; [done|lia].
Qed.

(** When the last diagonal reads an entry behind the last one of the other class. *)
Lemma read_bound d : 1 <= d -> M + read_of d < N -> d - 3 <= read_of d.
Proof.
  intros Hd. unfold read_of. destruct (flip d) eqn:E.
  - apply flip_spec in E as [_ ->]. pose proof (last_spec (M + 1 - 2) ltac:(lia)). lia.
  - pose proof (last_spec (d - 1) ltac:(lia)). lia.
Qed.

Lemma last_short d : 1 <= d -> last_of d = read_of d + 1 -> last_of d < up_of d -> M + read_of d < N -> M < d.
Proof.
  intros Hd. unfold read_of. destruct (flip d) eqn:E; [apply flip_spec in E as [_ ->]; lia|]. unfold last_of, up_of, lo_of. mlia.
Qed.

(** The two classes end next to each other. *)
Lemma old_read d : 1 <= d -> old_of d = read_of d + 1 \/ old_of d = read_of d - 1.
Proof.
  intros Hd. unfold old_of. destruct (flip d) eqn:E.
  - pose proof E as [_ Hm]%flip_spec. unfold read_of. rewrite E. assert (E' : flip (d - 1) = false) by (apply not_true_is_false; rewrite flip_spec; lia).
    pose proof (last_succ (d - 1) ltac:(lia) E'). replace (d - 1 - 1) with (d - 2) in * by lia. lia.
  - assert (Er : read_of d = last_of (d - 1)) by (unfold read_of; by rewrite E). rewrite Er. destruct (decide (d = 1)) as [->|].
    + unfold read_of. replace (flip (1 - 1)) with false by (symmetry; apply not_true_is_false; rewrite flip_spec; lia). destruct last_first as (E0 & _ & E2). change (1 - 1 - 1) with (-1). change (1 - 1) with 0. lia.
    + pose proof (last_read (d - 1) ltac:(lia)). lia.
Qed.

End bounds.
