(* ===== verification/MyersPhase.v ===== *)
(** * The invariant of the rounds of the diff algorithm

    What [Myers] keeps from one round to the next.  The diagonals are good from some diagonal
    on up to the last one.  At first that is all of them, those below that were never set
    included ([opened]); when the array of the negative ones ends too early, a diagonal is set
    from a neighbour that was never set, and the bad entries spread to the right, one diagonal a
    round ([shut]).  But then a diagonal before them has reached the lower edge, and that
    [front] goes to the right as well, one diagonal a round.  It is lost at most for one round,
    when it meets the last diagonal and that one is set from a neighbour that was never set. *)

From S2P Require Import Prelude OffsetRange TextChange Diff Myers MyersState MyersRound MyersBounds.

#[local] Open Scope js_scope.

Section phase.
Context (seqX seqY : ISequence) (HX : sequence_ok seqX) (HY : sequence_ok seqY).
Abbreviation N := (seq_length seqX).
Abbreviation M := (seq_length seqY).
Abbreviation Good := (Good seqX seqY).
Abbreviation Junk := (Junk seqX).
Abbreviation bottom := (bottom seqY).
Abbreviation snk := (snk seqX seqY).
Abbreviation class := (class seqX seqY).
Abbreviation lo_of := (lo_of M).
Abbreviation up_of := (up_of N).
Abbreviation last_of := (last_of N M).
Abbreviation read_of := (read_of N M).
Abbreviation old_of := (old_of N M).
Abbreviation flip := (flip M).
Hypothesis HN : 1 <= N < 2 ^ 31.
Hypothesis HM : 1 <= M.

#[local] Instance bottom_dec st j : Decision (bottom st j) := decide_rel (=) (vget st j) (Some (M + j)).

Lemma junk_untouched st j : Junk st j -> bottom st j -> False.
Proof. apply (junk_not_bottom seqX seqY HM). Qed.

(** Where a last diagonal that has reached the lower edge came from. *)
Definition traced (st : MD.State) (T : Z) : Prop :=
  1 <= T -> M + T < N -> bottom st T -> Good st (T - 1) /\ exists x, vget st (T - 1) = Some x /\ x < N /\ vget st T = Some (snk T (x + 1)).

(** A diagonal of the class of [T] that has reached the lower edge. *)
Definition touched (st : MD.State) (g T : Z) : Prop := exists F, bottom st F /\ (F - T) mod 2 = 0 /\ g <= F <= T.

Inductive front (d g T : Z) (st : MD.State) : Prop :=
  | fr_bottom F : bottom st F -> (F - T) mod 2 = 0 -> g <= F <= T -> d - 2 * M - 5 <= F -> front d g T st
  | fr_lost : Junk st T -> bottom st (T - 1) -> traced st (T - 1) -> d - 3 <= T - 1 -> 8 <= T - 1 -> M + (T - 1) < N -> M < d -> front d g T st.

(** Below 0 everything is good or was never set; as far as the rounds went, it was set. *)
Definition opened (d : Z) (st : MD.State) : Prop :=
  (forall j, - M <= j < 0 -> Good st j \/ vget st j = None /\ pget st j = NoPath) /\ (forall j, - Z.min d M <= j < 0 -> vget st j <> None).

Definition shut (d g g' : Z) : Prop := g <= d - 20 /\ g' <= d - 20 /\ - M + 1 <= g /\ - M + 1 <= g' /\ - d + 1 <= g /\ - d + 1 <= g' /\ - 1 <= g - g' <= 1.

(** The last diagonals are good when the bounds never had to be of different parity. *)
Definition even_good (d T T' : Z) (st : MD.State) : Prop := d <= M \/ M mod 2 = 0 -> N mod 2 = 0 -> Good st T /\ Good st T'.

Inductive left_side (d g g' : Z) (st : MD.State) : Prop :=
  | left_open : opened d st -> g = - Z.min d M -> g' = - Z.min d M -> (M <= d -> front d g (last_of d) st) -> left_side d g g' st
  | left_shut : shut d g g' -> front d g (last_of d) st -> (d <= M -> touched st g' (read_of d)) -> left_side d g g' st.

(** After the round [d]: the class that was visited, and the one that was read. *)
Record Inv (d g g' : Z) (st : MD.State) : Prop := {
  iv_visited : class st g (last_of d);
  iv_read : class st g' (read_of d);
  iv_corner : vget st (N - M) <> Some N;
  iv_caps : 10 <= capn (MD.V st) /\ 10 <= capp (MD.V st);
  iv_even : even_good d (last_of d) (read_of d) st;
  iv_traced : traced st (last_of d) /\ traced st (read_of d);
  iv_left : left_side d g g' st }.

(** Before the round [d]: the class it reads and the one it visits. *)
Inductive ready (d g g' : Z) (st : MD.State) : Prop :=
  | ready_open : opened (d - 1) st -> g = - Z.min (d - 1) M -> g' = - Z.min (d - 1) M -> (M < d -> flip d = false -> front (d - 1) g (read_of d) st) -> ready d g g' st
  | ready_shut : shut (d - 1) g g' -> front (d - 1) g (read_of d) st -> ready d g g' st.

Record Start (d g g' : Z) (st : MD.State) : Prop := {
  sa_read : class st g (read_of d);
  sa_old : class st g' (old_of d);
  sa_corner : vget st (N - M) <> Some N;
  sa_caps : 10 <= capn (MD.V st) /\ 10 <= capp (MD.V st);
  sa_even : even_good (d - 1) (read_of d) (old_of d) st;
  sa_traced : traced st (read_of d);
  sa_ready : ready d g g' st }.

Lemma Inv_start d g g' st : 1 <= d -> Inv (d - 1) g g' st -> exists h h', Start d h h' st.
Proof.
  intros Hd [I1 I2 I3 I4 I5 [I6 I6'] I7]. destruct (flip d) eqn:E.
  - assert (Er : read_of d = read_of (d - 1)).
    { unfold MyersBounds.read_of. rewrite E. apply flip_spec in E as [E1 ->]. replace (flip (M + 1 - 1)) with false by (symmetry; apply not_true_is_false; rewrite flip_spec; lia). f_equal. lia. }
    assert (Eo : old_of d = last_of (d - 1)) by (unfold MyersBounds.old_of; by rewrite E). apply flip_spec in E as E'. destruct E' as [E1 ->]. exists g', g. split; try done; rewrite ?Er, ?Eo; try done.
    + intros H H'. destruct (I5 H H'); by split.
    + destruct I7 as [L1 L2 L3 L4|L1 L2 L3]; [apply ready_open; [done|done|done|congruence]|]. apply ready_shut; [unfold shut in *; lia|]. rewrite Er.
      destruct (L3 ltac:(lia)) as (F & F1 & F2 & F3). apply (fr_bottom _ _ _ _ F); [done|done|done|unfold shut in *; lia].
  - assert (Er : read_of d = last_of (d - 1)) by (unfold MyersBounds.read_of; by rewrite E). assert (Eo : old_of d = read_of (d - 1)) by (unfold MyersBounds.old_of; by rewrite E).
    exists g, g'. split; try done; rewrite ?Er, ?Eo; try done. destruct I7 as [L1 L2 L3 L4|L1 L2 L3]; [apply ready_open; [done..|]|apply ready_shut; [done|by rewrite Er]]. intros H _. rewrite Er. apply L4. lia.
Qed.

(** ** What a round leaves *)

Section left_behind.
Context (st0 st' : MD.State) (d g g' go : Z).
Abbreviation l := (last_of d).
Abbreviation To := (read_of d).
Hypothesis Hd : 1 <= d.
Hypothesis Hstart : Start d g g' st0.
Hypothesis Hgo : g <= go /\ go + 1 <= l.
Hypothesis Hafter : after seqX seqY st0 (up_of d) l To go st'.

Lemma read_same j : (j - To) mod 2 = 0 -> same st0 st' j.
Proof. pose proof (last_read N M ltac:(lia) HM d Hd). intros Hj. apply (af_same _ _ _ _ _ _ _ _ Hafter). left. mlia. Qed.

Lemma read_class h : class st0 h To -> class st' h To.
Proof. intros Hc. eapply class_same; [exact Hc|]. apply read_same. Qed.

Lemma visited_class : class st' (go + 1) l.
Proof.
  pose proof (old_ok N M ltac:(lia) HM d Hd) as (O1 & O2 & O3). pose proof (last_spec N M ltac:(lia) HM d ltac:(lia)) as (_ & _ & L & _). split.
  - intros j Hp Hj. eapply oc_good, (af_done _ _ _ _ _ _ _ _ Hafter); [done|mlia].
  - destruct (af_last _ _ _ _ _ _ _ _ Hafter); [by left|by right].
  - intros j Hp Hj H2. assert (Hs : same st0 st' j) by (apply (af_same _ _ _ _ _ _ _ _ Hafter); right; lia). eapply same_weak; [exact Hs|].
    destruct (decide (old_of d < j)) as [Hlt|Hge]; [apply (cl_weak _ _ _ _ _ (sa_old _ _ _ _ Hstart)); [mlia|done..]|].
    destruct (O3 ltac:(lia)) as (E1 & E2 & E3 & E4). assert (j = old_of d) as -> by mlia. destruct (sa_even _ _ _ _ Hstart E4 E3) as [_ (x & Hx & Hy & Hb)]. right; right.
    assert (x = N) as ->; [destruct Hb as (_ & ? & _ & [?|[? _]]); lia|]. split; [done|]. split; [lia|done].
Qed.

Lemma good_not_junk j : Good st' j -> ~ Junk st' j.
Proof. intros (x & Hx & _ & _ & Hr & _ & Hb) (x' & Hx' & H1 & H2). assert (x' = x) as -> by congruence. destruct Hb as [->|[Hb _]]; lia. Qed.

Lemma even_after : even_good d l To st'.
Proof.
  intros H HE. assert (Hg : Good st' To).
  { destruct (sa_even _ _ _ _ Hstart ltac:(lia) HE) as [Hg _]. eapply same_good; [|exact Hg]. apply read_same. mlia. }
  split; [|done]. destruct (af_last _ _ _ _ _ _ _ _ Hafter) as [?|Hj H1 [[H2 _]|H2]]; [done| |].
  - pose proof (last_even N M d ltac:(lia) HE H). lia.
  - exfalso. eapply good_not_junk; [exact Hg|]. eapply same_junk; [|exact H2]. apply read_same. mlia.
Qed.

Hypothesis Hfar : 1 <= To -> M + To < N \/ d - 3 <= To -> go <= To - 2.
Hypothesis Hclass : class st0 go To.

Lemma same_bottom j : same st0 st' j -> 1 <= j -> bottom st' j -> bottom st0 j.
Proof. intros [[E|[_ E]] _] Hj Hb; unfold MyersState.bottom in *; [congruence|]. rewrite E in Hb. injection Hb. lia. Qed.

Lemma traced_read : traced st' To.
Proof.
  intros H1 H2 Hb. pose proof (last_read N M ltac:(lia) HM d Hd) as [_ Hl]. pose proof (Hfar H1 ltac:(by left)).
  assert (Hs : same st0 st' To) by (apply read_same; mlia). apply same_bottom in Hb as Hb0; [|done..].
  destruct (sa_traced _ _ _ _ Hstart H1 H2 Hb0) as (Hg & x & Hx & Hxn & E).
  assert (Hk : same st0 st' (To - 1)) by (apply (oc_keep _ _ _ _ _ (af_done _ _ _ _ _ _ _ _ Hafter (To - 1) ltac:(mlia) ltac:(lia))); by replace (To - 1 + 1) with To by lia).
  split; [by eapply same_good|]. exists x. split; [by eapply same_some|]. split; [done|by eapply same_some].
Qed.

Lemma traced_last : traced st' l.
Proof.
  intros H1 H2 Hb. pose proof (last_read N M ltac:(lia) HM d Hd) as [_ Hl]. destruct (af_last _ _ _ _ _ _ _ _ Hafter) as [_ _ H3|Hj]; [|by destruct (junk_untouched _ _ Hj Hb)].
  destruct (H3 Hb H2 ltac:(lia)) as (Hg & x & Hx & Hxn & E). assert (Hs : same st0 st' (l - 1)) by (apply (af_same _ _ _ _ _ _ _ _ Hafter); left; mlia).
  split; [by eapply same_good|]. exists x. split; [by eapply same_some|done].
Qed.

(** The last one of the class that has reached the lower edge. *)
Lemma touched_last st F T : bottom st F -> (F - T) mod 2 = 0 -> F <= T -> exists F', bottom st F' /\ (F' - T) mod 2 = 0 /\ F <= F' <= T /\ (F' + 2 <= T -> ~ bottom st (F' + 2)).
Proof.
  intros Hb Hp Hle. remember (Z.to_nat (T - F)) as n eqn:En. revert F Hb Hp Hle En. induction n as [n IH] using lt_wf_ind. intros F Hb Hp Hle En.
  destruct (decide (F + 2 <= T /\ bottom st (F + 2))) as [[H1 H2]|Hn].
  - destruct (IH (Z.to_nat (T - (F + 2))) ltac:(lia) (F + 2) H2 ltac:(mlia) ltac:(lia) eq_refl) as (F' & ? & ? & ? & ?). exists F'. split; [done|]. split; [done|]. split; [lia|done].
  - exists F. split; [done|]. split; [done|]. split; [lia|]. intros H1 H2. by apply Hn.
Qed.

Lemma touched_good F : bottom st0 F -> (F - To) mod 2 = 0 -> go <= F <= To -> Good st0 F /\ M + F < N.
Proof.
  intros Hb Hp Hr. assert (Hg : Good st0 F).
  { destruct (decide (F = To)) as [->|]; [|apply (cl_good _ _ _ _ _ Hclass); [done|lia]]. destruct (cl_top _ _ _ _ _ Hclass) as [?|Hj]; [done|]. by destruct (junk_untouched _ _ Hj Hb). }
  split; [done|]. eapply not_corner; [exact Hg|done|apply Hstart].
Qed.

Lemma front_step F : bottom st0 F -> (F - To) mod 2 = 0 -> go <= F <= To -> d - 2 * M - 6 <= F -> front d (go + 1) l st'.
Proof.
  intros Hb Hp Hr Hlow. pose proof (last_read N M ltac:(lia) HM d Hd) as [H0 Hl]. destruct (touched_last st0 F To Hb Hp ltac:(lia)) as (F' & Hb' & Hp' & Hr' & Hmax).
  destruct (touched_good F' Hb' Hp' ltac:(lia)) as [Hg HF]. destruct (decide (F' + 1 <= l - 2)) as [Hin|Hout].
  - apply (fr_bottom _ _ _ _ (F' + 1)); [|mlia|lia..]. apply (oc_bottom _ _ _ _ _ (af_done _ _ _ _ _ _ _ _ Hafter (F' + 1) ltac:(mlia) ltac:(lia))).
    + by replace (F' + 1 - 1) with F' by lia.
    + replace (F' + 1 + 1) with (F' + 2) by lia. apply Hmax. lia.
  - assert (EF : F' = l - 1) by mlia. subst F'. destruct (af_last _ _ _ _ _ _ _ _ Hafter) as [_ H2 _|Hj H1 H2].
    + apply (fr_bottom _ _ _ _ l); [by apply H2|mlia|lia..].
    + assert (ET : l - 1 = To) by lia. rewrite ET in Hb'. destruct H2 as [[H2 H3]|H2]; [|by destruct (junk_untouched _ _ H2 Hb')].
      pose proof (last_short N M ltac:(lia) HM d Hd H1 H2 ltac:(lia)). pose proof (read_bound N M ltac:(lia) HM d Hd ltac:(lia)). pose proof (sa_caps _ _ _ _ Hstart) as [C1 C2]. unfold vget in H3. apply FA_defined in H3.
      apply fr_lost; rewrite ?ET; [done| |apply traced_read|lia..]. eapply same_some; [apply read_same; mlia|done].
Qed.

Lemma front_after : front (d - 1) go To st0 -> front d (go + 1) l st'.
Proof.
  intros [F H1 H2 H3 H4|H1 H2 H3 H4 H5 H6 H7]; [by apply (front_step F); [..|lia]|]. pose proof (last_read N M ltac:(lia) HM d Hd) as [H0 Hl]. pose proof (Hfar ltac:(lia) ltac:(right; lia)).
  destruct (H3 ltac:(lia) ltac:(lia) H2) as (_ & x & Hx & Hxn & E). apply (fr_bottom _ _ _ _ (To - 1)); [|mlia|lia..].
  pose proof (oc_left _ _ _ _ _ (af_done _ _ _ _ _ _ _ _ Hafter (To - 1) ltac:(mlia) ltac:(lia))) as Ho. replace (To - 1 + 1) with To in Ho by lia. specialize (Ho H1 x Hx).
  unfold MyersState.bottom in *. rewrite Z.min_l in Ho by lia. congruence.
Qed.

End left_behind.
(** ** The round *)

Section round.
Context (d g g' : Z) (st0 : MD.State).
Abbreviation lo := (lo_of d).
Abbreviation up := (up_of d).
Abbreviation l := (last_of d).
Abbreviation To := (read_of d).
Hypothesis Hd : 1 <= d.
Hypothesis Hstart : Start d g g' st0.

Lemma round_keep go : class st0 go To -> g' <= go + 1 -> forall j, (j - l) mod 2 = 0 -> go + 1 <= j <= l - 2 -> bottom st0 (j + 1) -> Good st0 j.
Proof.
  intros Hc Hg j Hp Hj Hb. pose proof (old_ok N M ltac:(lia) HM d Hd) as (O1 & O2 & _). pose proof (old_read N M ltac:(lia) HM d Hd) as Hor. pose proof (last_read N M ltac:(lia) HM d Hd) as [_ Hl].
  destruct (decide (j < old_of d)); [apply (cl_good _ _ _ _ _ (sa_old _ _ _ _ Hstart)); [mlia|lia]|]. assert (j = old_of d) as -> by lia.
  destruct (cl_top _ _ _ _ _ (sa_old _ _ _ _ Hstart)) as [?|(x & Hx & Hx1 & Hx2)]; [done|]. assert (ET : old_of d + 1 = To) by lia. rewrite ET in Hb.
  destruct (touched_good st0 d g g' go Hstart Hc To Hb) as [_ HT]; [mlia|lia|]. destruct (sa_traced _ _ _ _ Hstart ltac:(lia) HT Hb) as [Hg' _]. by replace (old_of d) with (To - 1) by lia.
Qed.

(** From a state of which all that will be visited is as it was. *)
Lemma round_loop go k st fuel : class st0 go To -> g' <= go + 1 -> go + 1 <= l -> mid seqX seqY st0 l go k st -> (k - l) mod 2 = 0 -> lo <= k <= l -> (k = lo -> k < go + 1) ->
  (k < go + 1 -> go + 1 <= N - M) -> up - k + 1 <= Z.of_nat fuel ->
  (exists k' st', MD.diagonals seqX seqY fuel lo up k st = (Some k', st') /\ k' = N - M /\ vget st' k' = Some N /\ Good st' k') \/
  exists st', MD.diagonals seqX seqY fuel lo up k st = (None, st') /\ after seqX seqY st0 up l To go st' /\ forall j, j < k -> same st st' j.
Proof.
  intros Hc Hg Hl. pose proof (last_read N M ltac:(lia) HM d Hd) as [H0 Hside]. pose proof (last_spec N M ltac:(lia) HM d ltac:(lia)) as (L1 & L2 & L3 & _). pose proof (lo_spec M HM d Hd) as (L4 & _).
  apply (loop_after seqX seqY HX HY st0 lo up l To go); try done; [apply Hstart|by apply round_keep].
Qed.

Lemma mid_start : 10 <= capn (MD.V st0) /\ 10 <= capp (MD.V st0) -> forall go, lo <= go -> mid seqX seqY st0 l go lo st0.
Proof. intros Hc go Hgo. split; [intros; apply same_refl|lia|apply Hstart|done]. Qed.

Lemma round_shut : shut (d - 1) g g' -> front (d - 1) g To st0 ->
  (exists k' st', MD.diagonals seqX seqY (Z.to_nat (up - lo + 1)) lo up lo st0 = (Some k', st') /\ k' = N - M /\ vget st' k' = Some N /\ Good st' k') \/
  exists h h' st', MD.diagonals seqX seqY (Z.to_nat (up - lo + 1)) lo up lo st0 = (None, st') /\ Inv d h h' st'.
Proof.
  intros Hs Hf. pose proof (last_read N M ltac:(lia) HM d Hd) as [H0 Hside]. pose proof (last_spec N M ltac:(lia) HM d ltac:(lia)) as (L1 & L2 & L3 & _). pose proof (lo_spec M HM d Hd) as L4.
  assert (Hlo : lo < g) by (unfold shut in Hs; lia). assert (Hc : class st0 g To) by apply Hstart.
  assert (Hin : g + 1 <= l /\ g + 1 <= N - M).
  { destruct Hf as [F F1 F2 F3 F4|F1 F2 F3 F4 F5 F6 F7]; [|unfold shut in Hs; lia]. destruct (touched_good st0 d g g' g Hstart Hc F F1 F2 F3) as [_ ?]. lia. }
  assert (Hfar : 1 <= To -> M + To < N \/ d - 3 <= To -> g <= To - 2) by (intros _ [?|?]; [pose proof (read_bound N M ltac:(lia) HM d Hd)|]; unfold shut in Hs; lia).
  destruct (round_loop g lo st0 (Z.to_nat (up - lo + 1))) as [?|(st' & E & Ha & _)]; try done; [unfold shut in Hs; lia|lia|apply mid_start; [apply Hstart|lia]|mlia|lia..|by left|right].
  exists (g + 1), g, st'. assert (Hgg : g <= g /\ g + 1 <= l) by lia. split; [exact E|]. split.
  - by eapply visited_class.
  - by eapply read_class.
  - apply Ha.
  - apply Ha.
  - by eapply even_after.
  - split; [by eapply traced_last|by eapply traced_read].
  - apply left_shut; [unfold shut in *; lia|by eapply front_after|]. intros Hle. destruct Hf as [F F1 F2 F3 F4|]; [|lia]. exists F. split; [|by split]. eapply same_some; [|exact F1]. by eapply read_same.
Qed.

(** *** While everything below is good *)

Definition fresh (st : MD.State) (j : Z) : Prop := Good st j \/ vget st j = None /\ pget st j = NoPath.

Lemma fresh_same st st' j : - M <= j < 0 -> same st st' j -> fresh st j -> fresh st' j.
Proof.
  intros Hj Hs [Hg|[H1 H2]]; [left; by eapply same_good|]. destruct Hs as [[E|[_ E]] P]; [right; split; congruence|left]. exists 0. split; [done|]. split; [lia|]. rewrite P, H2. split; [done|]. cbn. lia.
Qed.

Lemma opened_good st j : opened d st -> - Z.min d M <= j < 0 -> Good st j.
Proof. intros [O1 O2] Hj. destruct (O1 j ltac:(lia)) as [?|[H _]]; [done|]. by destruct (O2 j Hj). Qed.

Lemma opened_class st h T : opened d st -> class st h T -> (forall j, (j - T) mod 2 = 0 -> 0 <= j -> h <= j) -> class st (- Z.min d M) T.
Proof. intros Ho [C1 C2 C3] Hh. split; [|done..]. intros j Hp Hj. destruct (decide (j < 0)); [by apply opened_good; [|lia]|apply C1; [done|]]. specialize (Hh j Hp). lia. Qed.

Lemma front_le e h h' T st : h' <= h -> front e h T st -> front e h' T st.
Proof. intros Hh [F F1 F2 F3 F4|]; [apply (fr_bottom _ _ _ _ F); [done|done|lia|done]|by apply fr_lost]. Qed.

(** The lowest diagonal is set, or it is left out because the one above has reached the edge. *)
Lemma round_lowest : opened (d - 1) st0 -> g = - Z.min (d - 1) M ->
  (exists st1, MD.diagonal seqX seqY lo up lo st0 = (true, st1) /\ lo = N - M /\ vget st1 lo = Some N /\ Good st1 lo) \/
  exists st1, MD.diagonal seqX seqY lo up lo st0 = (false, st1) /\ (Good st1 lo \/ st1 = st0 /\ bottom st0 (lo + 1)).
Proof.
  intros Ho Eg. pose proof (last_read N M ltac:(lia) HM d Hd) as [H0 Hside]. pose proof (last_spec N M ltac:(lia) HM d ltac:(lia)) as (L1 & L2 & L3 & _). pose proof (lo_spec M HM d Hd) as L4.
  assert (Hg : Good st0 (lo + 1)).
  { pose proof (sa_read _ _ _ _ Hstart) as [C1 C2 _]. destruct (decide (lo + 1 < To)); [apply C1; [mlia|lia]|]. assert (E0 : To = lo + 1) by lia. rewrite <- E0. destruct C2 as [?|(x & Hx & Hx1 & Hx2)]; [done|lia]. }
  destruct Hg as (t & Ht & Hy & Hb). pose proof (sa_caps _ _ _ _ Hstart) as Hcaps. assert (Hr : in_reach st0 lo) by (assert (Hn : vget st0 (lo + 1) <> None) by congruence; unfold vget in Hn; rewrite FA_defined in Hn; unfold in_reach; lia).
  destruct (visit_lowest seqX seqY HX HY lo up st0 t) as [[Hlt E]|[Hle ([] & st1 & E & Hg & Hv)]]; try done; [lia|lia|right|left|right].
  - exists st0. split; [done|]. right. split; [done|]. unfold MyersState.bottom. rewrite Ht. f_equal. lia.
  - exists st1. destruct (visit_found _ _ _ _ _ _ _ E) as [E1 E2]. split; [done|]. by split.
  - exists st1. split; [done|]. by left.
Qed.

Section after_lowest.
Context (st1 st' : MD.State).
Hypothesis Hopen : opened (d - 1) st0.
Hypothesis Hlow : MD.diagonal seqX seqY lo up lo st0 = (false, st1).
Hypothesis Hafter : after seqX seqY st0 up l To (lo + 1) st'.
Hypothesis Hsame : forall j, j < lo + 2 -> same st1 st' j.

(** What is below 0 is good now, or what it was. *)
Lemma opened_entry j : - M <= j < 0 -> j <> lo -> Good st' j \/ same st0 st' j.
Proof.
  intros Hj Hne. pose proof (last_spec N M ltac:(lia) HM d ltac:(lia)) as (L1 & L2 & L3 & _). destruct (decide (j < lo + 2)) as [Hlt|Hge].
  - right. eapply same_trans; [by eapply visit_same|by apply Hsame].
  - destruct (decide ((j - l) mod 2 = 0)) as [Hp|Hp]; [left|right; apply (af_same _ _ _ _ _ _ _ _ Hafter); by left]. eapply oc_good, (af_done _ _ _ _ _ _ _ _ Hafter); [done|mlia].
Qed.

Lemma opened_after : (Good st1 lo \/ st1 = st0 /\ (- M <= lo -> vget st0 lo <> None)) -> opened d st'.
Proof.
  intros Hl. pose proof (lo_spec M HM d Hd) as L4. pose proof Hopen as [O1 O2].
  assert (Hlo : - M <= lo -> Good st' lo).
  { intros Hle. eapply same_good; [apply Hsame; lia|]. destruct Hl as [?|[-> Hn]]; [done|]. destruct (O1 lo ltac:(lia)) as [?|[H _]]; [done|]. by destruct (Hn Hle). }
  assert (Hd' : forall j, Good st' j -> vget st' j <> None) by (intros j (x & Hx & _); congruence).
  split; intros j Hj.
  - destruct (decide (j = lo)) as [->|Hne]; [left; apply Hlo; lia|]. destruct (opened_entry j Hj Hne) as [?|Hs]; [by left|]. eapply fresh_same; [done|exact Hs|by apply O1].
  - destruct (decide (j = lo)) as [->|Hne]; [apply Hd', Hlo; lia|]. destruct (opened_entry j ltac:(lia) Hne) as [?|Hs]; [by apply Hd'|].
    destruct (vget st0 j) as [x|] eqn:E; [apply (same_some _ _ _ _ Hs) in E; congruence|]. by destruct (O2 j ltac:(lia)).
Qed.

Lemma inv_after h h' : class st' h l -> class st' h' To -> (1 <= To -> lo + 1 <= To - 2) -> left_side d h h' st' -> Inv d h h' st'.
Proof.
  intros H1 H2 Hf Hl. split; try done; try apply Hafter; [by eapply even_after|]. split; [by eapply traced_last|]. eapply traced_read; try done. intros ? _. by apply Hf.
Qed.

End after_lowest.

Lemma far_from_lowest : 1 <= To -> lo + 1 <= To - 2.
Proof. pose proof (last_read N M ltac:(lia) HM d Hd) as [H0 Hside]. pose proof (last_spec N M ltac:(lia) HM d ltac:(lia)) as (L1 & L2 & _). pose proof (lo_spec M HM d Hd). mlia. Qed.

Lemma round_open : opened (d - 1) st0 -> g = - Z.min (d - 1) M -> g' = - Z.min (d - 1) M -> (M < d -> flip d = false -> front (d - 1) g To st0) ->
  (exists k' st', MD.diagonals seqX seqY (Z.to_nat (up - lo + 1)) lo up lo st0 = (Some k', st') /\ k' = N - M /\ vget st' k' = Some N /\ Good st' k') \/
  exists h h' st', MD.diagonals seqX seqY (Z.to_nat (up - lo + 1)) lo up lo st0 = (None, st') /\ Inv d h h' st'.
Proof.
  intros Ho Eg Eg' Hf. pose proof (last_read N M ltac:(lia) HM d Hd) as [H0 Hside]. pose proof (last_spec N M ltac:(lia) HM d ltac:(lia)) as (L1 & L2 & L3 & _). pose proof (lo_spec M HM d Hd) as L4.
  pose proof far_from_lowest as Hfar. replace (Z.to_nat (up - lo + 1)) with (S (Z.to_nat (up - lo))) by lia. cbn [MD.diagonals]. destruct (Z.leb_spec lo up); [|lia].
  destruct (round_lowest Ho Eg) as [(st1 & E & E1 & E2 & E3)|(st1 & E & Hcase)]; rewrite E; [left; by exists lo, st1|].
  assert (Hc : class st0 (lo + 1) To).
  { pose proof (sa_read _ _ _ _ Hstart) as [C1 C2 C3]. split; [|done..]. intros j Hp Hj. apply C1; [done|lia]. }
  assert (Hm : mid seqX seqY st0 l (lo + 1) (lo + 2) st1).
  { split; [intros j Hj; eapply visit_same; [exact E|]; intros ->; mlia|lia|eapply visit_not_found; [exact E|lia|apply Hstart]|]. pose proof (visit_caps _ _ _ _ _ _ _ _ E). pose proof (sa_caps _ _ _ _ Hstart). lia. }
  destruct (round_loop (lo + 1) (lo + 2) st1 (Z.to_nat (up - lo)) Hc) as [?|(st' & E' & Ha & Hs)]; [lia|mlia|done|mlia|mlia|lia..|by left|right]. rewrite E'.
  assert (Hgo : g <= lo + 1 /\ lo + 1 + 1 <= l) by mlia.
  pose proof (visited_class st0 st' d g g' (lo + 1) Hd Hstart Ha) as Hvc. pose proof (read_class st0 st' d (lo + 1) Hd Ha) as Hrc.
  assert (Hopened : opened d st' -> exists h h' st'', (None, st') = (@None Z, st'') /\ Inv d h h' st'').
  { intros Ho'. exists (- Z.min d M), (- Z.min d M), st'. split; [done|]. eapply inv_after; try done.
    - eapply opened_class; [done|exact Hvc|]. intros j Hp Hj. mlia.
    - eapply opened_class; [done|by eapply read_class, Hstart|]. lia.
    - apply left_open; try done. intros Hle. destruct (decide (d <= M + 1 /\ lo = - M)) as [[Hd1 El]|Hnf].
      + destruct (opened_good st' (- M) Ho' ltac:(lia)) as (x & Hx & Hy & Hb & Hr & _). apply (fr_bottom _ _ _ _ (- M)); [unfold MyersState.bottom; rewrite Hx; f_equal; lia|mlia|lia..].
      + assert (Hfl : flip d = false) by (apply not_true_is_false; intros [F1 F2]%flip_spec; apply Hnf; split; [lia|]; unfold MyersBounds.lo_of in *; mlia).
        assert (HMd : M < d) by (destruct (decide (M < d)); [done|]; destruct Hnf; lia).
        eapply front_le; [|eapply (front_after st0 st' d g g' (lo + 1)); try done]; [lia|intros ? _; by apply Hfar|]. destruct (Hf HMd Hfl) as [F F1 F2 F3 F4|]; [|by apply fr_lost].
        apply (fr_bottom _ _ _ _ F); [done|done| |done]. mlia. }
  destruct Hcase as [Hg|[-> Hb]]; [apply Hopened; eapply opened_after; try done; by left|].
  destruct (decide (vget st0 lo = None /\ d <= M)) as [[Hn Hle]|Hok].
  - exists (lo + 1 + 1), (lo + 1), st'. split; [done|]. pose proof (sa_caps _ _ _ _ Hstart) as Hcaps. unfold vget in Hn. apply FA_defined in Hn.
    assert (Hfr : front d (lo + 1 + 1) l st') by (eapply (front_step st0 st' d g g' (lo + 1)); try done; [intros ? _; by apply Hfar|mlia|lia..]).
    eapply inv_after; try done; [by apply Hrc|]. apply left_shut; [unfold shut; lia|done|]. intros _. exists (lo + 1). split; [|mlia]. eapply same_some; [|exact Hb]. eapply read_same; [exact Hd|exact Ha|mlia].
  - apply Hopened. eapply opened_after; try done. right. split; [done|]. intros Hlo Hn. apply Hok. split; [done|]. destruct (decide (d <= M)); [done|]. exfalso. destruct Ho as [_ O2]. apply (O2 lo); [lia|done].
Qed.

End round.
(** A round ends the search on the diagonal of the corner, or keeps the invariant. *)
Lemma round_ok d g g' st : 1 <= d -> Inv (d - 1) g g' st ->
  (exists st', MD.round seqX seqY d st = (Some (N - M), st') /\ vget st' (N - M) = Some N /\ Good st' (N - M)) \/
  exists h h' st', MD.round seqX seqY d st = (None, st') /\ Inv d h h' st'.
Proof.
  intros Hd Hi. destruct (Inv_start d g g' st Hd Hi) as (h & h' & Hs).
  assert (Hr : (exists k' st', MD.round seqX seqY d st = (Some k', st') /\ k' = N - M /\ vget st' k' = Some N /\ Good st' k') \/ exists h h' st', MD.round seqX seqY d st = (None, st') /\ Inv d h h' st').
  { destruct (sa_ready _ _ _ _ Hs) as [R1 R2 R3 R4|R1 R2]; [by apply (round_open d h h')|by apply (round_shut d h h')]. }
  destruct Hr as [(k & st' & E & -> & H)|?]; [left; by exists st'|by right].
Qed.

(** The front comes to the corner in time. *)
Lemma inv_bound d g g' st : Inv d g g' st -> d <= N + M + 4.
Proof.
  intros [I1 I2 I3 I4 I5 I6 I7]. destruct (decide (M <= d)); [|lia]. assert (Hf : front d g (last_of d) st) by (destruct I7 as [? _ _ L4|? L2 _]; [by apply L4|done]). destruct Hf as [F F1 F2 F3 F4|]; [|lia].
  assert (Hg : Good st F).
  { destruct (decide (F = last_of d)) as [->|]; [|apply (cl_good _ _ _ _ _ I1); [done|lia]]. destruct (cl_top _ _ _ _ _ I1) as [?|Hj]; [done|]. by destruct (junk_untouched _ _ Hj F1). }
  pose proof (not_corner seqX seqY st F Hg F1 I3). lia.
Qed.

End phase.
