(* ===== verification/MyersProof.v ===== *)
(** * The diff algorithm of Myers is right

    The search of [Myers] ends, whatever the sequences are, at the corner of the grid, with a
    chain of snakes; the loop over the chain makes of it diffs that lead from the first sequence
    to the second. *)

From S2P Require Import Prelude OffsetRange TextChange Diff DiffDp Myers MyersState MyersRound MyersBounds MyersPhase.

#[local] Open Scope js_scope.

Section proof.
Context (seqX seqY : ISequence) (HX : sequence_ok seqX) (HY : sequence_ok seqY).
Abbreviation N := (seq_length seqX).
Abbreviation M := (seq_length seqY).
Abbreviation Good := (Good seqX seqY).
Abbreviation snk := (snk seqX seqY).

(** ** From the chain to the diffs *)

(** The diffs after the point [a], [b], where a snake starts or the grid ends. *)
Record collected (a b : Z) (ds : list SequenceDiff) : Prop := {
  co_describes : describes seqX seqY a b ds;
  co_separated : separated ds;
  co_behind : match ds with [] => True | d :: _ => a < b1 d end;
  co_changes : Forall changes ds }.

Lemma collect_ok path : forall a b ds, chain seqX seqY path -> (pend path).1 <= a -> (pend path).2 <= b -> collected a b ds ->
  exists ds', MD.collect path (Some a) (Some b) ds = Ok ds' /\ describes seqX seqY 0 0 ds' /\ separated ds' /\ Forall changes ds'.
Proof.
  assert (Hpush : forall p q a b ds, p <= a -> q <= b -> collected a b ds -> exists ds',
    (if negb (num_eq (Some p) (Some a)) || negb (num_eq (Some q) (Some b)) then let* d := SDiff.new p a q b in Ok (d :: ds) else Ok ds) = Ok ds' /\
    describes seqX seqY p q ds' /\ separated ds' /\ match ds' with [] => True | d :: _ => p <= b1 d end /\ Forall changes ds').
  { intros p q a b ds Hp Hq [C1 C2 C3 C4]. cbn [num_eq]. destruct (Z.eqb_spec p a) as [->|Hpa], (Z.eqb_spec q b) as [->|Hqb]; cbn [negb orb].
    1: exists ds; split_and!; try done; destruct ds; [done|lia].
    all: rewrite new_ok by lia; eexists; split; [done|]; cbn; split; [split; [apply matched_refl|by split_and!]|]; split; [split; [by destruct ds|done]|]; split; [lia|constructor; [unfold changes; cbn; lia|done]]. }
  induction path as [|prev IH x y len]; intros a b ds Hc H1 H2 Hco.
  - cbn [MD.collect]. destruct (Hpush 0 0 a b ds H1 H2 Hco) as (ds' & E & D1 & D2 & _ & D4). cbn [num_plus]. rewrite E. by exists ds'.
  - destruct Hc as (X & Y & L & -> & -> & -> & HL & P1 & P2 & B1 & B2 & Hm & Hc). cbn [pend num_plus mbind option_bind default fst snd] in H1, H2. cbn [MD.collect num_plus mbind option_bind].
    destruct (Hpush (X + L) (Y + L) a b ds H1 H2 Hco) as (ds' & E & D1 & D2 & D3 & D4). rewrite E. cbn [result_bind]. apply IH; [done..|]. split; [by eapply describes_later|done| |done]. destruct ds'; [done|lia].
Qed.

(** ** The search *)

Hypothesis HN : 1 <= N < 2 ^ 31.
Hypothesis HM : 1 <= M.

(** How a search that is over was left. *)
Definition ended (timeout : ITimeout) (o : option (unit + SnakePath)) : Prop :=
  match o with
  | None => False
  | Some (inl _) => exists n, timeout n = false
  | Some (inr p) => chain seqX seqY p /\ (pend p).1 <= N /\ (pend p).2 <= M
  end.

Lemma good_ended timeout st : Good st (N - M) -> vget st (N - M) = Some N -> ended timeout (Some (inr (pget st (N - M)))).
Proof. intros (x & Hx & _ & Hc & _) _. pose proof (chain_end seqX seqY _ Hc ltac:(lia) ltac:(lia)). cbn. split; [done|]. lia. Qed.

Lemma search_ended timeout fuel : forall d g g' st, 0 <= d -> Inv seqX seqY d g g' st -> N + M + 4 - d < Z.of_nat fuel -> ended timeout (MD.search seqX seqY timeout fuel d st).
Proof.
  induction fuel as [|fuel IH]; intros d g g' st Hd Hi Hf; [pose proof (inv_bound seqX seqY HN HM d g g' st Hi); lia|]. cbn [MD.search]. cbv zeta.
  destruct (timeout (Z.to_nat (d + 1 - 1))) eqn:Et; cbn [negb]; [|by eexists].
  destruct (round_ok seqX seqY HX HY HN HM (d + 1) g g' st) as [(st' & E & H1 & H2)|(h & h' & st' & E & Hi')]; [lia|by replace (d + 1 - 1) with d by lia| |]; rewrite E; [by apply good_ended|].
  apply (IH _ h h'); [lia|done|lia].
Qed.

(** ** The start *)

Abbreviation st0 := (MD.start_state seqX seqY).
Abbreviation x0 := (snk 0 0).

Lemma start_snake : MD.getXAfterSnake seqX seqY (Some 0) (Some 0) = Some x0 /\ 0 <= x0 <= N /\ matched seqX seqY 0 0 x0 x0 /\ x0 <= M.
Proof.
  destruct (snake_spec seqX seqY HX HY 0 0 ltac:(lia)) as (H1 & H2 & H3 & H4). rewrite !Z.sub_0_r in *. split; [done|]. split; [done|]. split; [done|]. destruct (decide (0 < x0)); [lia|lia].
Qed.

Lemma start_vget k : vget st0 k = if decide (k = 0) then Some x0 else if decide (- 10 <= k < 10) then Some 0 else None.
Proof.
  destruct start_snake as (E & Hx & _). unfold vget, MD.start_state. cbv zeta. cbn [MD.V]. rewrite E. case_decide as H0; [subst k; rewrite FA_set_same by (vm_compute; split_and?; congruence || done); by rewrite to_int32_id by (unfold is_int32; lia)|].
  assert (En : forall j, FA.get FA.new j = if decide (- 10 <= j < 10) then Some 0 else None).
  { intros j. case_decide as Hj; [|apply FA_defined; vm_compute capn; vm_compute capp; lia]. destruct (FA.get FA.new j) as [y|] eqn:Ey; [|apply FA_defined in Ey; vm_compute capn in Ey; vm_compute capp in Ey; lia].
    unfold FA.get, FA.new in Ey. cbn [positiveArr negativeArr] in Ey. destruct (j <? 0); apply at_elem_of, elem_of_replicate in Ey as [-> _]; done. }
  rewrite <- En. unfold FA.get, FA.set. change (0 <? 0) with false. cbn [positiveArr negativeArr]. destruct (k <? 0) eqn:Ek; [done|]. unfold FA.store, set_at, at_.
  change (0 >=? zlen (positiveArr FA.new)) with false. change (0 <? 0) with false. rewrite Ek. apply list_lookup_insert_ne. lia.
Qed.

Lemma start_pget k : k <> 0 -> pget st0 k = NoPath.
Proof. intros Hk. unfold pget, MD.start_state. cbv zeta. cbn [MD.paths]. rewrite FP_get_set, decide_False by done. unfold FP.get, FP.new, at_. cbn [positivePaths negativePaths]. repeat case_match; by rewrite ?lookup_nil. Qed.

Lemma start_caps : 10 <= capn (MD.V st0) /\ 10 <= capp (MD.V st0).
Proof.
  assert (Hd : vget st0 (- 10) <> None /\ vget st0 9 <> None) by (rewrite !start_vget; done). unfold vget in Hd. rewrite !FA_defined in Hd. lia.
Qed.

Lemma start_good : Good st0 0.
Proof.
  destruct start_snake as (E & Hx & Hm & Hy). pose proof (start_vget 0) as Ev. rewrite decide_True in Ev by done. exists x0. split; [done|]. split; [lia|].
  unfold pget, MD.start_state in *. cbv zeta. cbn [MD.paths MD.V] in *. rewrite FP_get_set, decide_True by done. rewrite E in *. unfold vget in Ev. cbn [MD.V] in Ev. rewrite Ev. cbn [num_eq].
  destruct (Z.eqb_spec x0 0) as [->|Hne].
  - split; [done|]. cbn. lia.
  - split; [|cbn; lia]. exists 0, 0, x0. rewrite !Z.add_0_l. split_and!; try done; lia.
Qed.

Lemma start_fresh j : - M <= j < 0 -> fresh seqX seqY st0 j.
Proof.
  intros Hj. unfold fresh. rewrite start_vget, start_pget by lia. rewrite decide_False by lia. case_decide; [left|by right]. exists 0. rewrite start_vget, start_pget by lia. rewrite decide_False, decide_True by lia.
  split; [done|]. split; [lia|]. split; [done|]. cbn. lia.
Qed.

Lemma start_weak j : 1 <= j -> Weak seqX seqY st0 j.
Proof. intros Hj. unfold Weak. rewrite start_vget, decide_False by lia. case_decide; [by right; left|by left]. Qed.

Lemma start_inv : vget st0 (N - M) <> Some N -> Inv seqX seqY 0 0 0 st0.
Proof.
  intros Hc. assert (Hlast : last_of N M 0 = 0) by (unfold last_of, up_of, lo_of; mlia).
  assert (Hread : read_of N M 0 = -1) by (unfold read_of; replace (flip M 0) with false by (symmetry; apply not_true_is_false; rewrite flip_spec; lia); unfold last_of, up_of, lo_of; mlia).
  assert (Hg : Good st0 (-1)) by (destruct (start_fresh (-1) ltac:(lia)) as [?|[Hn _]]; [done|by rewrite start_vget in Hn]).
  split; rewrite ?Hlast, ?Hread; [| |done|apply start_caps| | |].
  - split; [lia|left; apply start_good|intros; apply start_weak; lia].
  - split; [lia|by left|intros; apply start_weak; lia].
  - split; [apply start_good|done].
  - split; intros ?; lia.
  - apply left_open; [split; [apply start_fresh|lia]|lia..].
Qed.

(** *** Two sequences that are the same

    The corner is reached before the first round, and found in the first round that visits the
    diagonal 0. *)

Record at_corner (st : MD.State) : Prop := {
  ac_good : Good st 0;
  ac_end : vget st 0 = Some N;
  ac_left : vget st (-1) = Some 0;
  ac_caps : 10 <= capn (MD.V st) /\ 10 <= capp (MD.V st) }.

(** The diagonal above the corner takes its path, and ends the search or is passed over. *)
Definition beside (st : MD.State) : Prop := Good st 1 /\ vget st 1 = Some N.

Lemma odd_round st : N = M -> at_corner st -> exists st', MD.diagonals seqX seqY 3 (-1) 1 (-1) st = (None, st') /\ at_corner st' /\ beside st'.
Proof.
  intros E [(x & Hx & Hy & Hb) Ce Cl Cc]. assert (x = N) as -> by congruence. cbn [MD.diagonals]. change (-1 <=? 1) with true. change (-1 + 2) with 1. change (1 <=? 1) with true. change (1 + 2 <=? 1) with false. cbn iota.
  rewrite (diagonal_some seqX seqY HX HY (-1) 1 (-1) st N (-1)) by (done || lia). cbv zeta. destruct (Z.ltb_spec M (Z.min (Z.max N (-1)) N - -1)); [|lia].
  rewrite (diagonal_some seqX seqY HX HY (-1) 1 1 st (-1) (N + 1)) by (done || lia || (unfold left_of; change (1 =? -1) with false; change (1 - 1) with 0; by rewrite Ce)). cbv zeta. replace (Z.min (Z.max (-1) (N + 1)) N) with N by lia.
  destruct (Z.ltb_spec M (N - 1)); [lia|]. destruct (Z.eqb_spec N (-1)); [lia|]. change (1 - 1) with 0. set (st' := visited _ _ _ _ _ _).
  assert (Hr : in_reach st 1) by (unfold in_reach; lia). destruct (visited_good seqX seqY HX HY st 1 N (pget st 0) ltac:(lia) Hr) as [Hg Hv]; [|lia|].
  { destruct Hb as (B1 & B2 & B3 & _). split; [done|]. split; [done|]. split; [done|by left]. }
  assert (Hs : forall j, j <> 1 -> same st st' j) by (intros j Hj; by apply stored_same).
  assert (Hn : snk 1 N = N) by (destruct (snake_spec seqX seqY HX HY 1 N ltac:(lia)) as (_ & ? & _); lia). rewrite Hn in Hv. fold st' in Hg, Hv. rewrite Hv. exists st'.
  split; [cbn [num_eq num_minus mbind option_bind]; destruct (Z.eqb_spec (N - 1) M); [lia|]; by rewrite andb_false_r|]. split; [|by split]. split.
  - eapply same_good; [by apply Hs|]. exists N. by split_and!.
  - by eapply same_some; [apply Hs|].
  - by eapply same_some; [apply Hs|].
  - unfold st', visited. cbn [MD.V]. pose proof (FA_set_caps (MD.V st) 1 (Some (snk 1 N))). lia.
Qed.

Lemma even_round st : N = M -> at_corner st -> beside st -> exists st', MD.diagonals seqX seqY 5 (-2) 2 (-2) st = (Some 0, st') /\ Good st' 0 /\ vget st' 0 = Some N.
Proof.
  intros E [_ _ Cl Cc] [(x & Hx & Hy & Hb) Cb]. assert (x = N) as -> by congruence. cbn [MD.diagonals]. change (-2 <=? 2) with true. cbn iota.
  destruct (MD.diagonal seqX seqY (-2) 2 (-2) st) as [[] st1] eqn:E1; [apply visit_found in E1 as [? _]; lia|]. change (-2 + 2) with 0. change (0 <=? 2) with true. cbn iota.
  assert (Hs : forall j, j <> -2 -> same st st1 j) by (by eapply visit_same). assert (Ht : vget st1 1 = Some N) by (by eapply same_some; [apply Hs|]). assert (Hl : vget st1 (-1) = Some 0) by (by eapply same_some; [apply Hs|]).
  rewrite (diagonal_some seqX seqY HX HY (-2) 2 0 st1 N 1) by (done || lia || (unfold left_of; change (0 =? -2) with false; change (0 - 1) with (-1); by rewrite Hl)). cbv zeta. replace (Z.min (Z.max N 1) N) with N by lia.
  destruct (Z.ltb_spec M (N - 0)); [lia|]. rewrite Z.eqb_refl. change (0 + 1) with 1. assert (Hcaps := visit_caps _ _ _ _ _ _ _ _ E1). assert (Hr : in_reach st1 0) by (unfold in_reach; lia).
  destruct (visited_good seqX seqY HX HY st1 0 N (pget st1 1) ltac:(lia) Hr) as [Hg Hv]; [|lia|].
  { apply behind_top. destruct (Hs 1 ltac:(lia)) as [_ ->]. exact Hb. }
  assert (Hn : snk 0 N = N) by (destruct (snake_spec seqX seqY HX HY 0 N ltac:(lia)) as (_ & ? & _); lia). rewrite Hn in Hv. eexists. split; [|by split]. rewrite Hv. cbn [num_eq num_minus mbind option_bind]. rewrite Z.eqb_refl. by destruct (Z.eqb_spec (N - 0) M); [|lia].
Qed.

Lemma round_bounds d lo up : lo_of M d = lo -> up_of N d = up -> forall st, MD.round seqX seqY d st = MD.diagonals seqX seqY (Z.to_nat (up - lo + 1)) lo up lo st.
Proof. by intros <- <-. Qed.

Lemma search_step timeout fuel d st o :
  (forall st', MD.round seqX seqY (d + 1) st = (None, st') -> ended timeout (MD.search seqX seqY timeout fuel (d + 1) st')) ->
  (forall k st', MD.round seqX seqY (d + 1) st = (Some k, st') -> ended timeout (Some (inr (pget st' k)))) ->
  o = MD.search seqX seqY timeout (S fuel) d st -> ended timeout o.
Proof.
  intros H1 H2 ->. cbn [MD.search]. cbv zeta. destruct (timeout (Z.to_nat (d + 1 - 1))) eqn:Et; cbn [negb]; [|by eexists].
  destruct (MD.round seqX seqY (d + 1) st) as [[k|] st']; [by apply (H2 k)|by apply H1].
Qed.

Lemma search_corner timeout fuel st : N = M -> at_corner st -> (3 <= fuel)%nat -> ended timeout (MD.search seqX seqY timeout fuel 0 st).
Proof.
  intros E Hc Hf. destruct fuel as [|[|[|fuel]]]; [lia..|].
  assert (Hodd : forall d st, lo_of M d = -1 -> up_of N d = 1 -> at_corner st -> exists st', MD.round seqX seqY d st = (None, st') /\ at_corner st' /\ beside st').
  { intros d s E1 E2 Hs. rewrite (round_bounds d _ _ E1 E2). by apply odd_round. }
  assert (Heven : forall d st, lo_of M d = -2 -> up_of N d = 2 -> at_corner st -> beside st -> exists st', MD.round seqX seqY d st = (Some 0, st') /\ Good st' 0 /\ vget st' 0 = Some N).
  { intros d s E1 E2 Hs Hb. rewrite (round_bounds d _ _ E1 E2). by apply even_round. }
  assert (Hdone : forall s, Good s 0 -> vget s 0 = Some N -> ended timeout (Some (inr (pget s 0)))).
  { intros s. pose proof (good_ended timeout s) as Hg. by replace (N - M) with 0 in Hg by lia. }
  destruct (Hodd 1 st) as (s1 & E1 & C1 & B1); [unfold lo_of; mlia|unfold up_of; mlia|done|].
  eapply search_step; [| |done]; change (0 + 1) with 1; rewrite E1; [|done]. intros ? [= <-].
  destruct (decide (N = 1)) as [EN|EN].
  - destruct (Hodd 2 s1) as (s2 & E2 & C2 & B2); [unfold lo_of; mlia|unfold up_of; mlia|done|].
    eapply search_step; [| |done]; change (1 + 1) with 2; rewrite E2; [|done]. intros ? [= <-].
    destruct (Heven 3 s2) as (s3 & E3 & G3 & H3); [unfold lo_of; mlia|unfold up_of; mlia|done..|].
    eapply search_step; [| |done]; change (2 + 1) with 3; rewrite E3; [done|]. intros ? ? [= <- <-]. by apply Hdone.
  - destruct (Heven 2 s1) as (s2 & E2 & G2 & H2); [unfold lo_of; mlia|unfold up_of; mlia|done..|].
    eapply search_step; [| |done]; change (1 + 1) with 2; rewrite E2; [done|]. intros ? ? [= <- <-]. by apply Hdone.
Qed.

Lemma search_ok timeout : ended timeout (MD.search seqX seqY timeout (MD.rounds seqX seqY) 0 st0).
Proof.
  destruct (decide (vget st0 (N - M) = Some N)) as [Hc|Hc].
  - rewrite start_vget in Hc. case_decide as H0; [|case_decide; [injection Hc; lia|done]]. injection Hc as Hx. apply search_corner; [lia| |unfold MD.rounds; lia]. split.
    + apply start_good.
    + rewrite start_vget. by rewrite decide_True, Hx.
    + by rewrite start_vget.
    + apply start_caps.
  - apply (search_ended timeout _ 0 0 0); [done|by apply start_inv|unfold MD.rounds; lia].
Qed.

End proof.

Lemma myers_ok s1 s2 timeout : sequence_ok s1 -> sequence_ok s2 -> seq_length s1 < 2 ^ 31 ->
  exists r, MD.compute s1 s2 timeout = Ok r /\ describes s1 s2 0 0 (diffs r) /\ separated (diffs r) /\
  (hitTimeout r = true -> exists n, timeout n = false) /\
  (hitTimeout r = false -> 0 < seq_length s1 -> 0 < seq_length s2 -> Forall changes (diffs r)).
Proof.
  intros H1 H2 Hlt. pose proof (sq_length _ H1) as L1. pose proof (sq_length _ H2) as L2.
  destruct (trivial_ok s1 s2 H1 H2) as (ds & E1 & E2 & Hd & Hs). unfold MD.compute.
  destruct ((seq_length s1 =? 0) || (seq_length s2 =? 0)) eqn:E0; [rewrite E1; eexists; cbn; split_and!; [done..|lia]|].
  pose proof (search_ok s1 s2 H1 H2 ltac:(lia) ltac:(lia) timeout) as He. destruct (MD.search _ _ _ _ _ _) as [[[]|p]|]; [| |done].
  - rewrite E2. eexists. cbn. by split_and!.
  - destruct He as (Hc & P1 & P2). destruct (collect_ok s1 s2 p (seq_length s1) (seq_length s2) [] Hc P1 P2) as (l & -> & D1 & D2 & D3); [split; [apply matched_refl|done..]|].
    cbn [result_bind]. eexists. cbn. by split_and!.
Qed.

(** C20: [MyersDiffAlgorithm.compute] is right whatever the two sequences are, of fewer than 2^31
    elements, and however the clock answers.  It ends without throwing, in a number of rounds that
    is linear in the lengths, and the corner is found although entries of the arrays are read
    that were never set, or that were made of such ones.  Its diffs describe the way from the first sequence
    to the second: they are in order, an element lies between every two, and what lies between
    them is the same in both sequences, so that putting the changed parts of the second sequence
    into the first gives the second.  A timeout is reported only when the clock said so; if not,
    and if no sequence is empty, every diff changes something. *)
Theorem myers_diff_describes s1 s2 timeout : sequence_ok s1 -> sequence_ok s2 -> seq_length s1 < 2 ^ 31 ->
  exists r, MD.compute s1 s2 timeout = Ok r /\ describes s1 s2 0 0 (diffs r) /\ separated (diffs r) /\
  patch s1 s2 0 (diffs r) = elements s2 0 (seq_length s2) /\
  (hitTimeout r = true -> exists n, timeout n = false) /\
  (hitTimeout r = false -> 0 < seq_length s1 -> 0 < seq_length s2 -> Forall changes (diffs r)).
Proof.
  intros H1 H2 Hlt. destruct (myers_ok s1 s2 timeout H1 H2 Hlt) as (r & E & Hd & Hs & Ht & Hc). exists r. split_and!; [done..|by apply describes_patch|done|done].
Qed.

(** [a b c d] and [b x d]. *)
Lemma myers_diff_describes_witness :
  MD.compute (of_list [97; 98; 99; 100]) (of_list [98; 120; 100]) InfiniteTimeout =
    Ok (mkDiffResult [mkDiff (mkOffsetRange 0 1) (mkOffsetRange 0 0); mkDiff (mkOffsetRange 2 3) (mkOffsetRange 1 2)] false) /\
  patch (of_list [97; 98; 99; 100]) (of_list [98; 120; 100]) 0 [mkDiff (mkOffsetRange 0 1) (mkOffsetRange 0 0); mkDiff (mkOffsetRange 2 3) (mkOffsetRange 1 2)] = [Some 98; Some 120; Some 100].
Proof.
  destruct (myers_diff_describes (of_list [97; 98; 99; 100]) (of_list [98; 120; 100]) InfiniteTimeout (of_list_ok _) (of_list_ok _)) as (r & Er & _ & _ & Hp & _); [done|].
  vm_compute in Er. injection Er as <-. split; [by vm_compute|exact Hp].
Defined.

(** The diff of [MyersDiffAlgorithm] need not be a shortest one, although the entries are meant to
    be those of the longest d-lines: of ten different lines and the last one of them it makes a
    single diff that replaces all ten, which removes and inserts eleven, whereas removing the
    first nine describes the same change.  The length of the second sequence is odd, so that from
    the second round on the bounds are of different parities and the last diagonal that is visited
    is not the upper bound, but reads the entry above it, which no round has set.  In the tenth
    round that one is behind the end of the array, [Math.max] makes [NaN] of [undefined], and the
    path that would have come to the corner is lost. *)
Theorem myers_diff_not_shortest :
  let s1 := of_list [0; 1; 2; 3; 4; 5; 6; 7; 8; 9] in
  let s2 := of_list [9] in
  let longer := [mkDiff (mkOffsetRange 0 10) (mkOffsetRange 0 1)] in
  let shorter := [mkDiff (mkOffsetRange 0 9) (mkOffsetRange 0 0)] in
  MD.compute s1 s2 InfiniteTimeout = Ok (mkDiffResult longer false) /\ describes s1 s2 0 0 shorter /\ cost longer = 11 /\ cost shorter = 9.
Proof.
  cbv zeta. split; [by vm_compute|]. split; [|by split]. cbn [describes seq1Range seq2Range start endExclusive]. split; [apply matched_refl|]. split; [lia|]. split; [lia|].
  split; [by vm_compute|]. split; [by vm_compute|]. change (seq_length (of_list [0; 1; 2; 3; 4; 5; 6; 7; 8; 9])) with 10. intros i Hi. by assert (i = 0) as -> by lia.
Qed.
