(* ===== verification/LinesDiff.v ===== *)
(** * The alignment of the lines of two texts

    The first half of [computeDiff] in
    [src/src/vs/editor/common/diff/defaultLinesDiffComputer/defaultLinesDiffComputer.ts], up to
    the line alignments that the rest refines to diffs of characters: the hashes of the
    trimmed lines, the choice of the algorithm, and the optimizations.  The numerals of the
    language, and its logarithm, are arguments, as for [DiffDp]. *)

From Stdlib Require Import QArith.
From stdpp Require Import gmap.
From S2P Require Import Prelude OffsetRange TextChange Diff DiffDp DiffOptimize Myers MyersProof.

#[local] Open Scope js_scope.
#[local] Open Scope Z_scope.

(** [String.prototype.trim]. *)
Fixpoint trimStart (str : jsstr) : jsstr :=
  match str with [] => [] | c :: rest => if is_white c then trimStart rest else str end.

Definition trim (str : jsstr) : jsstr := rev (trimStart (rev (trimStart str))).

Module LD.

Definition getOrCreateHash (text : jsstr) (perfectHashes : gmap jsstr Z) : Z * gmap jsstr Z :=
  match perfectHashes !! text with
  | Some hash => (hash, perfectHashes)
  | None => let hash := Z.of_nat (size perfectHashes) in (hash, <[text := hash]> perfectHashes)
  end.

(** [lines.map((l) => getOrCreateHash(l.trim()))]. *)
Fixpoint linesHashes (lines : list jsstr) (perfectHashes : gmap jsstr Z) : list Z * gmap jsstr Z :=
  match lines with
  | [] => ([], perfectHashes)
  | l :: lines =>
      let '(hash, perfectHashes) := getOrCreateHash (trim l) perfectHashes in
      let '(hashes, perfectHashes) := linesHashes lines perfectHashes in
      (hash :: hashes, perfectHashes)
  end.

Definition sequences (originalLines modifiedLines : list jsstr) : LineSequence * LineSequence :=
  let '(originalLinesHashes, perfectHashes) := linesHashes originalLines ∅ in
  let '(modifiedLinesHashes, _) := linesHashes modifiedLines perfectHashes in
  (mkLineSequence originalLinesHashes originalLines, mkLineSequence modifiedLinesHashes modifiedLines).

Section alignment.
Context {R : Type} `{!Number R} (numeral : Q -> R) (log : R -> R).

Definition equalityScore (originalLines modifiedLines : list jsstr) (offset1 offset2 : Z) : R :=
  if bool_decide (originalLines.[offset1] = modifiedLines.[offset2]) then
    let length := zlen (default [] modifiedLines.[offset2]) in
    if length =? 0 then numeral (1 # 10) else add one (log (add one (numeral (inject_Z length))))
  else numeral (99 # 100).

Definition lineAlignmentResult (originalLines modifiedLines : list jsstr) (timeout : ITimeout) : result DiffAlgorithmResult :=
  let '(sequence1, sequence2) := sequences originalLines modifiedLines in
  if LS.length sequence1 + LS.length sequence2 <? 1700 then
    DP.compute (LS.sequence sequence1) (LS.sequence sequence2) timeout (Some (equalityScore originalLines modifiedLines))
  else MD.compute (LS.sequence sequence1) (LS.sequence sequence2) InfiniteTimeout.

(** The alignments, and whether the time was over. *)
Definition lineAlignments (originalLines modifiedLines : list jsstr) (timeout : ITimeout) : result (list SequenceDiff * bool) :=
  let '(sequence1, sequence2) := sequences originalLines modifiedLines in
  let* r := lineAlignmentResult originalLines modifiedLines timeout in
  let* ds := optimizeSequenceDiffs (LS.sequence sequence1) (LS.sequence sequence2) (diffs r) in
  let* ds := removeVeryShortMatchingLinesBetweenDiffs sequence1 ds in
  Ok (ds, hitTimeout r).

End alignment.
End LD.

(** ** Lemmas *)

(** The hashes of different texts are different. *)
Definition perfect (m : gmap jsstr Z) : Prop :=
  (forall a h, m !! a = Some h -> 0 <= h < Z.of_nat (size m)) /\ forall a b h, m !! a = Some h -> m !! b = Some h -> a = b.

Lemma getOrCreateHash_ok text m : perfect m -> forall h m', LD.getOrCreateHash text m = (h, m') -> perfect m' /\ m ⊆ m' /\ m' !! text = Some h.
Proof.
  intros [P1 P2] h m'. unfold LD.getOrCreateHash. destruct (m !! text) as [h0|] eqn:E; intros [= <- <-]; [done|].
  assert (Hs : size (<[text:=Z.of_nat (size m)]> m) = S (size m)) by by apply map_size_insert_None.
  split; [|split; [by apply insert_subseteq|by rewrite lookup_insert_eq]]. split.
  - intros a h. rewrite Hs, lookup_insert. case_decide; [intros [= <-]; lia|]. intros Ha. apply P1 in Ha. lia.
  - intros a b h. rewrite !lookup_insert. case_decide as H1; case_decide as H2; [by intros; congruence|..].
    + intros [= <-] Hb. apply P1 in Hb. lia.
    + intros Ha [= <-]. apply P1 in Ha. lia.
    + apply P2.
Qed.

Lemma linesHashes_ok lines : forall m, perfect m -> forall hs m', LD.linesHashes lines m = (hs, m') ->
  perfect m' /\ m ⊆ m' /\ Forall2 (fun l h => m' !! trim l = Some h) lines hs.
Proof.
  induction lines as [|l lines IH]; intros m Hm hs m'; cbn; [by intros [= <- <-]|]. destruct (LD.getOrCreateHash (trim l) m) as [h m1] eqn:E1. destruct (LD.linesHashes lines m1) as [hs' m2] eqn:E2.
  intros [= <- <-]. destruct (getOrCreateHash_ok _ _ Hm _ _ E1) as (P1 & S1 & L1). destruct (IH _ P1 _ _ E2) as (P2 & S2 & L2).
  split; [done|]. split; [by etrans|]. constructor; [by eapply lookup_weaken|done].
Qed.

(** One function gives the hashes of both texts, and tells trimmed lines apart. *)
Lemma sequences_ok originalLines modifiedLines : exists h : jsstr -> Z,
  LD.sequences originalLines modifiedLines = (mkLineSequence (h <$> originalLines) originalLines, mkLineSequence (h <$> modifiedLines) modifiedLines) /\
  forall l l', l ∈ originalLines -> l' ∈ modifiedLines -> h l = h l' <-> trim l = trim l'.
Proof.
  unfold LD.sequences. destruct (LD.linesHashes originalLines ∅) as [hs m] eqn:E1. destruct (LD.linesHashes modifiedLines m) as [hs' m'] eqn:E2.
  assert (P0 : perfect ∅) by (split; intros *; rewrite lookup_empty; done). destruct (linesHashes_ok _ _ P0 _ _ E1) as (P1 & _ & L1). destruct (linesHashes_ok _ _ P1 _ _ E2) as (P2 & S2 & L2).
  set (h := fun l => default 0 (m' !! trim l)). assert (Hmap : forall ls hs, Forall2 (fun l x => m' !! trim l = Some x) ls hs -> hs = h <$> ls /\ forall l, l ∈ ls -> m' !! trim l = Some (h l)).
  { intros ls xs H. induction H as [|l x ls xs Hx H [IH1 IH2]]; [split; [done|by intros l ?%not_elem_of_nil]|]. assert (Eh : h l = x) by (unfold h; by rewrite Hx). cbn. rewrite Eh, <- IH1. split; [done|].
    intros l' [->|Hl]%elem_of_cons; [by rewrite Eh|by apply IH2]. }
  assert (L1' : Forall2 (fun l x => m' !! trim l = Some x) originalLines hs) by (eapply Forall2_impl; [exact L1|]; intros l x Hx; exact (lookup_weaken _ _ _ _ Hx S2)).
  destruct (Hmap _ _ L1') as [-> M1]. destruct (Hmap _ _ L2) as [-> M2]. exists h. split; [done|]. intros l l' Hl Hl'. split; [|unfold h; by intros ->].
  intros Eh. apply M1 in Hl. apply M2 in Hl'. rewrite <- Eh in Hl'. by apply (proj2 P2 _ _ _ Hl Hl').
Qed.

(** C19: The line alignments of [computeDiff].  For any two texts, and however the clock answers, the
    algorithm that is chosen ends with diffs that lead from the trimmed lines of the first text
    to those of the second: lines between two diffs are equal up to white space at their ends,
    lines get the same hash only then, and an equal line lies between every two diffs.  The
    optimizations do not throw, and keep that, when of two diffs next to each other, as they are
    after they were joined by shifting, both can be moved or neither.  What is asked of the
    arithmetic is that scores are not negative. *)
Theorem line_alignments_describe {R} `{!Number R} `{!NumberLaws R} (numeral : Q -> R) (log : R -> R) originalLines modifiedLines timeout :
  zlen originalLines < 2 ^ 31 -> (forall q, (0 <= q)%Q -> leb zero (numeral q) = true) -> (forall x, leb zero x = true -> leb zero (log (add one x)) = true) ->
  let '(sequence1, sequence2) := LD.sequences originalLines modifiedLines in
  let s1 := LS.sequence sequence1 in
  let s2 := LS.sequence sequence2 in
  (forall i j l l', originalLines.[i] = Some l -> modifiedLines.[j] = Some l' -> getElement s1 i = getElement s2 j <-> trim l = trim l') /\
  seq_length s1 = zlen originalLines /\ seq_length s2 = zlen modifiedLines /\
  exists r joined, LD.lineAlignmentResult numeral log originalLines modifiedLines timeout = Ok r /\ describes s1 s2 0 0 (diffs r) /\ separated (diffs r) /\
    joinSequenceDiffsByShifting s1 s2 (diffs r) = Ok joined /\
    (alike joined -> exists ds, LD.lineAlignments numeral log originalLines modifiedLines timeout = Ok (ds, hitTimeout r) /\ describes s1 s2 0 0 ds /\ separated ds).
Proof.
  intros Hlen Hnum Hlog. destruct (sequences_ok originalLines modifiedLines) as (h & E & Hh). unfold LD.lineAlignments, LD.lineAlignmentResult. rewrite E. cbv zeta.
  set (q1 := mkLineSequence _ originalLines). set (q2 := mkLineSequence _ modifiedLines). assert (H1 : sequence_ok (LS.sequence q1)) by apply LS_ok. assert (H2 : sequence_ok (LS.sequence q2)) by apply LS_ok.
  assert (Ha : forall ls i l, ls.[i] = Some l -> (h <$> ls).[i] = Some (h l) /\ l ∈ ls).
  { intros ls i l Hi. split; [|by apply at_elem_of in Hi]. unfold at_ in *. destruct (i <? 0); [done|]. by rewrite list_lookup_fmap, Hi. }
  split. { intros i j l l' Hi Hj. destruct (Ha _ _ _ Hi) as [Ei Hl]. destruct (Ha _ _ _ Hj) as [Ej Hl']. cbn. unfold LS.getElement. cbn. rewrite Ei, Ej. rewrite <- (Hh l l' Hl Hl'). split; congruence. }
  assert (Hz : forall ls, zlen (h <$> ls) = zlen ls) by (intros ls; unfold zlen; by rewrite length_fmap). split; [apply Hz|]. split; [apply Hz|].
  assert (Hr : exists r, (if LS.length q1 + LS.length q2 <? 1700 then DP.compute (LS.sequence q1) (LS.sequence q2) timeout (Some (LD.equalityScore numeral log originalLines modifiedLines))
    else MD.compute (LS.sequence q1) (LS.sequence q2) InfiniteTimeout) = Ok r /\ describes (LS.sequence q1) (LS.sequence q2) 0 0 (diffs r) /\ separated (diffs r)).
  { destruct (_ <? 1700).
    - destruct (dynamic_ok (LS.sequence q1) (LS.sequence q2) timeout (Some (LD.equalityScore numeral log originalLines modifiedLines)) H1 H2) as (r & Er & Hd & Hs & _); [|by exists r].
      intros f i j [= <-]. unfold LD.equalityScore. case_bool_decide; [|by apply Hnum]. destruct (_ =? 0); [by apply Hnum|]. apply add_nonneg; [apply zero_one|]. apply Hlog, Hnum.
      change 0%Q with (inject_Z 0). rewrite <- Zle_Qle. apply zlen_nonneg.
    - destruct (myers_ok (LS.sequence q1) (LS.sequence q2) InfiniteTimeout H1 H2) as (r & Er & Hd & Hs & _); [by cbn; unfold LS.length; cbn; rewrite Hz|by exists r]. }
  destruct Hr as (r & Er & Hd & Hs). rewrite Er. destruct (joinSequence_ok _ _ _ Hd Hs) as (joined & Ej & Hk). exists r, joined. split; [done|]. split; [done|]. split; [done|]. split; [done|].
  intros Hal. destruct (optimize_ok _ _ _ _ H1 H2 Ej Hk Hal) as (l & El & L1 & L2 & _). cbn [result_bind]. rewrite El. cbn [result_bind].
  destruct (removeVeryShort_ok _ _ q1 l L1 L2) as (ds & Eds & D1 & D2). rewrite Eds. by exists ds.
Qed.

(** The logarithms of the integers up to 4, to four decimals. *)
Definition ln4 (x : option Q) : option Q :=
  match x with
  | Some x => Some (if Qle_bool x 1 then 0 else if Qle_bool x 2 then 6931 # 10000 else if Qle_bool x 3 then 10986 # 10000 else 13863 # 10000)%Q
  | None => None
  end.

(** [ab], [ c], [d] and [c], [d], [e]: the first line is removed, the last one is inserted. *)
Lemma line_alignments_describe_witness :
  let originalLines := [[97; 98]; [32; 99]; [100]] in
  let modifiedLines := [[99]; [100]; [101]] in
  LD.lineAlignments Some ln4 originalLines modifiedLines InfiniteTimeout =
    Ok ([mkDiff (mkOffsetRange 0 1) (mkOffsetRange 0 0); mkDiff (mkOffsetRange 3 3) (mkOffsetRange 2 3)], false) /\
  getElement (LS.sequence (LD.sequences originalLines modifiedLines).1) 1 = getElement (LS.sequence (LD.sequences originalLines modifiedLines).2) 0.
Proof.
  intros originalLines modifiedLines. pose proof (line_alignments_describe (R := option Q) Some ln4 originalLines modifiedLines InfiniteTimeout) as H.
  destruct (LD.sequences originalLines modifiedLines) as [q1 q2] eqn:Eq. cbv zeta in H. destruct H as (Hh & _ & _ & r & joined & Er & Hd & Hs & Ej & Hal); [done| | |].
  - intros q Hq. cbn. by apply Qle_bool_iff.
  - intros [x|] Hx; [|done]. cbn. by repeat case_match.
  - split; [|by apply (Hh 1 0 [32; 99] [99])]. vm_compute in Er. injection Er as <-. vm_compute in Eq. injection Eq as <- <-. vm_compute in Ej. injection Ej as <-. destruct Hal as (ds & E & _); [done|]. rewrite E. vm_compute in E. injection E as <-. done.
Defined.

(** [computeDiff] can throw, before it has compared a single character.  For the lines [Q], [R],
    [gg], [aa] and [bb], [aa], [gg], [xx], [aa], [gg], [aa ] the algorithm gives a replacement
    of the first two lines and two insertions, which lead from one text to the other.  The
    insertions are joined; the joined one can be moved back over equal lines, and
    [shiftSequenceDiffs] lets it go back to one after the start of the diff before it, where it
    means its end: the line [gg] that both texts have at this place is no limit, and the diffs
    that come out overlap.  Then [removeVeryShortMatchingLinesBetweenDiffs] makes a range of the
    lines between them, which ends before it starts, and [OffsetRange] throws. *)
Theorem line_alignments_throw :
  let originalLines := [[81]; [82]; [103; 103]; [97; 97]] in
  let modifiedLines := [[98; 98]; [97; 97]; [103; 103]; [120; 120]; [97; 97]; [103; 103]; [97; 97; 32]] in
  let '(sequence1, sequence2) := LD.sequences originalLines modifiedLines in
  exists ds d1 d2,
    LD.lineAlignmentResult Some ln4 originalLines modifiedLines InfiniteTimeout = Ok (mkDiffResult ds false) /\
    describes (LS.sequence sequence1) (LS.sequence sequence2) 0 0 ds /\ separated ds /\
    optimizeSequenceDiffs (LS.sequence sequence1) (LS.sequence sequence2) ds = Ok [d1; d2] /\ b1 d2 < e1 d1 /\
    LD.lineAlignments Some ln4 originalLines modifiedLines InfiniteTimeout = Throw BugIndicatingError.
Proof.
  intros originalLines modifiedLines. destruct (sequences_ok originalLines modifiedLines) as (h & Eh & _).
  assert (H1 : sequence_ok (LS.sequence (LD.sequences originalLines modifiedLines).1)) by (rewrite Eh; apply LS_ok).
  assert (H2 : sequence_ok (LS.sequence (LD.sequences originalLines modifiedLines).2)) by (rewrite Eh; apply LS_ok). clear h Eh.
  destruct (dynamic_ok _ _ InfiniteTimeout (Some (LD.equalityScore Some ln4 originalLines modifiedLines)) H1 H2) as (r & Er & Hd & Hs & _).
  { intros f i j [= <-]. unfold LD.equalityScore. case_bool_decide; [|done]. destruct (_ =? 0); [done|]. apply add_nonneg; [done|]. cbn. by repeat case_match. }
  vm_compute in Er. injection Er as <-. vm_compute (LD.sequences _ _) in Hd |- *. eexists _, _, _. split; [by vm_compute|]. split; [exact Hd|]. split; [exact Hs|]. split; [by vm_compute|]. split; [done|by vm_compute].
Qed.
