(* ===== verification/CharSlice.v ===== *)
(** * Lines as a sequence of characters

    [LinesSliceCharSequence] of
    [src/src/vs/editor/common/diff/defaultLinesDiffComputer/linesSliceCharSequence.ts]: the
    characters of some lines of a text, with which [refineDiff] looks for the changes in
    changed lines.  The text of the lines is [LS.join_lines].  An offset of the slice is
    translated to the position of the character in the text. *)

From S2P Require Import Prelude Position TextRange ArraysFind OffsetRange PrefixSum TextChange PtBuffer Diff DiffDp DiffOptimize Myers MyersProof LinesDiff.

#[local] Open Scope js_scope.

Inductive CharBoundaryCategory : Type := WordLower | WordUpper | WordNumber | End_ | Other | Space | LineBreakCR | LineBreakLF.

#[export] Instance CharBoundaryCategory_eq_dec : EqDecision CharBoundaryCategory.
Proof. solve_decision. Defined.

Definition getCategoryBoundaryScore (category : CharBoundaryCategory) : Z :=
  match category with
  | WordLower | WordUpper | WordNumber => 0
  | End_ => 10
  | Other => 2
  | Space => 3
  | LineBreakCR | LineBreakLF => 10
  end.

Definition isSpace (charCode : Z) : bool := (charCode =? 32) || (charCode =? 9).

Definition getCategory (charCode : Z) : CharBoundaryCategory :=
  if charCode =? 10 then LineBreakLF
  else if charCode =? 13 then LineBreakCR
  else if isSpace charCode then Space
  else if (charCode >=? 97) && (charCode <=? 122) then WordLower
  else if (charCode >=? 65) && (charCode <=? 90) then WordUpper
  else if (charCode >=? 48) && (charCode <=? 57) then WordNumber
  else if charCode =? -1 then End_
  else Other.

Definition isWordChar (charCode : Z) : bool :=
  (charCode >=? 97) && (charCode <=? 122) || (charCode >=? 65) && (charCode <=? 90) || (charCode >=? 48) && (charCode <=? 57).

Definition trimEnd (str : jsstr) : jsstr := rev (trimStart (rev str)).

Record LinesSliceCharSequence : Type := mkSlice {
  cs_elements : list Z;
  firstCharOffsetByLine : list Z;
  lineRange : OffsetRange;
  additionalOffsetByLine : list Z;
  cs_lines : list jsstr;
  considerWhitespaceChanges : bool }.

(** A store at an index up to the length; at the length, the array grows. *)
Definition store_at {A} (l : list A) (i : Z) (x : A) : list A := if i =? zlen l then l ++ [x] else set_at l i x.

Module CS.

(** The part of a line that is taken, and where it starts in the line. *)
Definition part (considerWhitespaceChanges trimFirstLineFully : bool) (line : jsstr) : Z * jsstr :=
  if trimFirstLineFully then (zlen line, [])
  else if negb considerWhitespaceChanges then
    let trimmedStartLine := trimStart line in (zlen line - zlen trimmedStartLine, trimEnd trimmedStartLine)
  else (0, line).

(** The body of the loop of the constructor for the line [i], and whether the first line is
    still to be trimmed. *)
Definition add_line (this : LinesSliceCharSequence) (trimFirstLineFully : bool) (i : Z) : result LinesSliceCharSequence :=
  match (cs_lines this).[i] with
  | None => Throw TypeError
  | Some line =>
      let '(offset, line) := part (considerWhitespaceChanges this) trimFirstLineFully line in
      let additional := additionalOffsetByLine this ++ [offset] in
      let elements := cs_elements this ++ line in
      if i <? zlen (cs_lines this) - 1 then
        let elements := elements ++ [10] in
        Ok (mkSlice elements (store_at (firstCharOffsetByLine this) (i - start (lineRange this) + 1) (zlen elements)) (lineRange this) additional (cs_lines this) (considerWhitespaceChanges this))
      else Ok (mkSlice elements (firstCharOffsetByLine this) (lineRange this) additional (cs_lines this) (considerWhitespaceChanges this))
  end.

(** The lines from [i] on. *)
Fixpoint add_lines (this : LinesSliceCharSequence) (trimFirstLineFully : bool) (indices : list Z) : result LinesSliceCharSequence :=
  match indices with
  | [] => Ok this
  | i :: indices => let* this := add_line this trimFirstLineFully i in add_lines this false indices
  end.

Definition new (lines : list jsstr) (range : OffsetRange) (considerWhitespaceChanges : bool) : result LinesSliceCharSequence :=
  let trimFirstLineFully := (start range >? 0) && (endExclusive range >=? zlen lines) in
  let* range := if trimFirstLineFully then OR.new_OffsetRange (start range - 1) (endExclusive range) else Ok range in
  let* this := add_lines (mkSlice [] [0] range [] lines considerWhitespaceChanges) trimFirstLineFully (zrange (start range) (endExclusive range)) in
  Ok (mkSlice (cs_elements this) (firstCharOffsetByLine this) (lineRange this) (additionalOffsetByLine this ++ [0]) lines considerWhitespaceChanges).

Definition getText (this : LinesSliceCharSequence) (range : OffsetRange) : jsstr := slice (cs_elements this) (start range) (endExclusive range).

Definition getElement (this : LinesSliceCharSequence) (offset : Z) : option Z := (cs_elements this).[offset].

Definition length (this : LinesSliceCharSequence) : Z := zlen (cs_elements this).

Definition text (this : LinesSliceCharSequence) : result jsstr := let* range := OR.new_OffsetRange 0 (length this) in Ok (getText this range).

(** The elements that are asked for are there. *)
Definition getBoundaryScore (this : LinesSliceCharSequence) (length : Z) : Z :=
  let prevCategory := getCategory (if length >? 0 then default (-1) (cs_elements this).[length - 1] else -1) in
  let nextCategory := getCategory (if length <? zlen (cs_elements this) then default (-1) (cs_elements this).[length] else -1) in
  if bool_decide (prevCategory = LineBreakCR) && bool_decide (nextCategory = LineBreakLF) then 0
  else
    (if bool_decide (prevCategory = nextCategory) then 0 else 10 + (if bool_decide (nextCategory = WordUpper) then 1 else 0)) +
    getCategoryBoundaryScore prevCategory + getCategoryBoundaryScore nextCategory.

(** [None] is a position with [NaN]. *)
Definition translateOffset (this : LinesSliceCharSequence) (offset : Z) : option Position :=
  if OR.isEmpty (lineRange this) then Some (mkPosition (start (lineRange this) + 1) 1)
  else
    let i := findLastIdxMonotonous (firstCharOffsetByLine this) (on_item (fun value => value <=? offset)) 0 None in
    first ← (firstCharOffsetByLine this).[i];
    additional ← (additionalOffsetByLine this).[i];
    Some (mkPosition (start (lineRange this) + i + 1) (offset - first + additional + 1)).

Definition translateRange (this : LinesSliceCharSequence) (range : OffsetRange) : option Range :=
  s ← translateOffset this (start range);
  e ← translateOffset this (endExclusive range);
  Some (Rng.fromPositions s (Some e)).

Definition is_word_at (this : LinesSliceCharSequence) (i : Z) : bool := match (cs_elements this).[i] with Some c => isWordChar c | None => false end.

Definition findWordContaining (this : LinesSliceCharSequence) (offset : Z) : result (option OffsetRange) :=
  if (offset <? 0) || (offset >=? zlen (cs_elements this)) then Ok None
  else if negb (is_word_at this offset) then Ok None
  else
    let s := while (Z.to_nat offset) (fun start => (start >? 0) && is_word_at this (start - 1)) (fun start => start - 1) offset in
    let e := while (Z.to_nat (zlen (cs_elements this) - offset)) (fun end_ => (end_ <? zlen (cs_elements this)) && is_word_at this end_) (fun end_ => end_ + 1) offset in
    result_map Some (OR.new_OffsetRange s e).

Definition countLinesIn (this : LinesSliceCharSequence) (range : OffsetRange) : option Z :=
  e ← translateOffset this (endExclusive range);
  s ← translateOffset this (start range);
  Some (lineNumber e - lineNumber s).

Definition isStronglyEqual (this : LinesSliceCharSequence) (offset1 offset2 : Z) : bool := bool_decide ((cs_elements this).[offset1] = (cs_elements this).[offset2]).

Definition extendToFullLines (this : LinesSliceCharSequence) (range : OffsetRange) : result OffsetRange :=
  let s := default 0 (findLastMonotonous (firstCharOffsetByLine this) (on_item (fun x => x <=? start range))) in
  let e := default (zlen (cs_elements this)) (findFirstMonotonous (firstCharOffsetByLine this) (on_item (fun x => endExclusive range <=? x))) in
  OR.new_OffsetRange s e.

Definition sequence (this : LinesSliceCharSequence) : ISequence :=
  mkSequence (getElement this) (length this) (Some (getBoundaryScore this)) (isStronglyEqual this).

End CS.

(** [refineDiff], as far as the diffs are moved: what follows looks at words. *)
Definition charDiffResult (slice1 slice2 : LinesSliceCharSequence) (timeout : ITimeout) : result DiffAlgorithmResult :=
  if CS.length slice1 + CS.length slice2 <? 500 then DP.compute (R := option Z) (CS.sequence slice1) (CS.sequence slice2) timeout None
  else MD.compute (CS.sequence slice1) (CS.sequence slice2) timeout.

Definition charDiffs (originalLines modifiedLines : list jsstr) (diff : SequenceDiff) (timeout : ITimeout) (considerWhitespaceChanges : bool)
    : result (LinesSliceCharSequence * LinesSliceCharSequence * list SequenceDiff * bool) :=
  let* slice1 := CS.new originalLines (seq1Range diff) considerWhitespaceChanges in
  let* slice2 := CS.new modifiedLines (seq2Range diff) considerWhitespaceChanges in
  let* diffResult := charDiffResult slice1 slice2 timeout in
  let* diffs := optimizeSequenceDiffs (CS.sequence slice1) (CS.sequence slice2) (diffs diffResult) in
  Ok (slice1, slice2, diffs, hitTimeout diffResult).

(** ** The text and its positions *)

Definition line_start (lines : list jsstr) (i : Z) : Z := sum_to ((fun l => zlen l + 1) <$> lines) i.

Definition at_line (lines : list jsstr) (p : Position) : Prop := exists l, lines.[lineNumber p - 1] = Some l /\ 1 <= column p <= zlen l + 1.

Definition text_offset (lines : list jsstr) (p : Position) : Z := line_start lines (lineNumber p - 1) + (column p - 1).

(** The parts of the lines. *)
Lemma trimStart_spec s : exists pre, s = pre ++ trimStart s /\ Forall (fun c => is_white c = true) pre.
Proof.
  induction s as [|c s IH]; cbn; [by exists []|]. destruct (is_white c) eqn:E; [|by exists []]. destruct IH as (pre & Es & Hp). exists (c :: pre). split; [cbn; by rewrite <- Es|by constructor].
Qed.

Lemma trimEnd_spec s : exists post, s = trimEnd s ++ post /\ Forall (fun c => is_white c = true) post.
Proof.
  destruct (trimStart_spec (rev s)) as (pre & Es & Hp). exists (rev pre). unfold trimEnd. split; [by rewrite <- rev_app_distr, <- Es, rev_involutive|]. by apply List.Forall_rev.
Qed.

Lemma part_spec ws tr line off l : CS.part ws tr line = (off, l) ->
  exists pre post, line = pre ++ l ++ post /\ off = zlen pre /\ Forall (fun c => is_white c = true) post /\ (ws = true -> off = (if tr then zlen line else 0) /\ off + zlen l = zlen line).
Proof.
  unfold CS.part. destruct tr; [|destruct ws; cbn [negb]]; intros [= <- <-].
  - exists line, []. rewrite !app_nil_r. split; [done|]. split; [done|]. split; [done|]. intros _. change (zlen (@nil Z)) with 0. split; [done|lia].
  - exists [], []. rewrite app_nil_r. split; [done|]. split; [done|]. split; [done|]. intros _. split; [done|lia].
  - destruct (trimStart_spec line) as (pre & E1 & _). destruct (trimEnd_spec (trimStart line)) as (post & E2 & Hp). exists pre, post. split; [by rewrite <- E2|]. split; [|by split]. rewrite E1 at 1. rewrite zlen_app. lia.
Qed.

(** ** The slice *)

Section slices.
Context (lines : list jsstr) (ws tr : bool) (lo hi : Z).
Hypothesis Hrange : 0 <= lo < hi /\ hi <= zlen lines.
Abbreviation len := (zlen lines).

Definition part_at (j : Z) : Z * jsstr := CS.part ws (tr && (j =? lo)) (default [] lines.[j]).

(** Where the part of a line starts in the slice. *)
Definition part_start (j : Z) : Z := zsum ((fun m => zlen (part_at m).2 + 1) <$> zrange lo j).

Lemma part_start_first : part_start lo = 0.
Proof. unfold part_start. by rewrite zrange_nil by lia. Qed.

Lemma part_start_next j : lo <= j -> part_start (j + 1) = part_start j + (zlen (part_at j).2 + 1).
Proof. intros Hj. unfold part_start. rewrite (zrange_snoc lo (j + 1)) by lia. replace (j + 1 - 1) with j by lia. rewrite fmap_app, zsum_app. cbn. lia. Qed.

Lemma part_start_mono j k : lo <= j <= k -> part_start j <= part_start k.
Proof.
  intros Hj. remember (Z.to_nat (k - j)) as n eqn:En. revert k Hj En. induction n as [|n IH]; intros k Hj En; [by assert (k = j) as -> by lia|].
  specialize (IH (k - 1) ltac:(lia) ltac:(lia)). pose proof (part_start_next (k - 1) ltac:(lia)) as Hn. replace (k - 1 + 1) with k in Hn by lia. pose proof (zlen_nonneg (part_at (k - 1)).2). lia.
Qed.

(** After the lines before [i]. *)
Record built (i : Z) (this : LinesSliceCharSequence) : Prop := {
  bu_lines : cs_lines this = lines;
  bu_ws : considerWhitespaceChanges this = ws;
  bu_range : lineRange this = mkOffsetRange lo hi;
  bu_firsts_length : zlen (firstCharOffsetByLine this) = Z.min i (len - 1) - lo + 1;
  bu_firsts : forall j, lo <= j <= Z.min i (len - 1) -> (firstCharOffsetByLine this).[j - lo] = Some (part_start j);
  bu_adds_length : zlen (additionalOffsetByLine this) = i - lo;
  bu_adds : forall j, lo <= j < i -> (additionalOffsetByLine this).[j - lo] = Some (part_at j).1;
  bu_length : zlen (cs_elements this) = if i <? len then part_start i else part_start i - 1;
  bu_elements : forall j c, lo <= j < i -> 0 <= c <= zlen (part_at j).2 -> (c < zlen (part_at j).2 \/ j < len - 1) ->
    (cs_elements this).[part_start j + c] = if c <? zlen (part_at j).2 then (part_at j).2.[c] else Some 10 }.

Lemma at_snoc {A} (l : list A) x i y : l.[i] = Some y -> (l ++ [x]).[i] = Some y.
Proof. intros H. pose proof (at_lt _ _ _ H). by rewrite at_app_l by lia. Qed.

Lemma at_snoc_last {A} (l : list A) x : (l ++ [x]).[zlen l] = Some x.
Proof. rewrite at_app_r by lia. by replace (zlen l - zlen l) with 0 by lia. Qed.

Lemma add_line_built i this : built i this -> lo <= i < hi -> exists this', CS.add_line this (tr && (i =? lo)) i = Ok this' /\ built (i + 1) this'.
Proof.
  intros [B1 B2 B3 B4 B5 B6 B7 B8 B9] Hi. destruct (at_in_range lines i ltac:(lia)) as [line Hline]. unfold CS.add_line. rewrite B1, B2, Hline.
  assert (Ep : CS.part ws (tr && (i =? lo)) line = part_at i) by (unfold part_at; by rewrite Hline). rewrite Ep. destruct (part_at i) as [off l] eqn:El.
  assert (Hnext : part_start (i + 1) = part_start i + (zlen l + 1)) by (rewrite part_start_next by lia; by rewrite El).
  assert (Hlen : zlen (cs_elements this) = part_start i) by (rewrite B8; destruct (Z.ltb_spec i len); [done|lia]).
  assert (Hadds : forall j, lo <= j < i + 1 -> (additionalOffsetByLine this ++ [off]).[j - lo] = Some (part_at j).1).
  { intros j Hj. destruct (decide (j = i)) as [->|]; [rewrite <- B6, El; apply at_snoc_last|apply at_snoc, B7; lia]. }
  assert (Hels : forall j c rest, lo <= j < i + 1 -> 0 <= c <= zlen (part_at j).2 -> c < zlen (part_at j).2 \/ j < i -> (c < zlen (part_at j).2 \/ j < len - 1) ->
    (cs_elements this ++ l ++ rest).[part_start j + c] = if c <? zlen (part_at j).2 then (part_at j).2.[c] else Some 10).
  { intros j c rest Hj Hc Hcase Hcase'. destruct (decide (j = i)) as [->|].
    - rewrite El in *. cbn [snd] in *. rewrite <- Hlen, at_app_zlen by lia. rewrite at_app_l by lia. by destruct (Z.ltb_spec c (zlen l)); [|lia].
    - pose proof (part_start_mono (j + 1) i ltac:(lia)) as Hm. rewrite part_start_next in Hm by lia. pose proof (part_start_mono lo j ltac:(lia)) as Hm'. rewrite part_start_first in Hm'. rewrite at_app_l by lia. apply B9; lia. }
  rewrite B3. cbn [start]. destruct (Z.ltb_spec i (len - 1)) as [Hlt|Hge]; (eexists; split; [done|]); split; try done; cbn [cs_elements firstCharOffsetByLine additionalOffsetByLine].
  - unfold store_at. rewrite B4. destruct (Z.eqb_spec (i - lo + 1) (Z.min i (len - 1) - lo + 1)); [|lia]. rewrite zlen_app. change (zlen [_]) with 1. lia.
  - intros j Hj. unfold store_at. rewrite B4. destruct (Z.eqb_spec (i - lo + 1) (Z.min i (len - 1) - lo + 1)); [|lia]. destruct (decide (j = i + 1)) as [->|].
    + replace (i + 1 - lo) with (zlen (firstCharOffsetByLine this)) by lia. rewrite at_snoc_last, !zlen_app, Hnext. f_equal. change (zlen [10]) with 1. lia.
    + apply at_snoc, B5. lia.
  - rewrite zlen_app. change (zlen [off]) with 1. lia.
  - rewrite !zlen_app. change (zlen [10]) with 1. destruct (Z.ltb_spec (i + 1) len); lia.
  - intros j c Hj Hc Hcase. rewrite <- app_assoc. destruct (decide (j = i /\ c = zlen (part_at j).2)) as [[-> ->]|Hne]; [|apply Hels; lia].
    rewrite El. cbn [snd]. rewrite <- Hlen, at_app_zlen by (apply zlen_nonneg). rewrite Z.ltb_irrefl. apply at_snoc_last.
  - rewrite B4. lia.
  - intros j Hj. apply B5. lia.
  - rewrite zlen_app. change (zlen [off]) with 1. lia.
  - rewrite zlen_app. destruct (Z.ltb_spec (i + 1) len); lia.
  - intros j c Hj Hc Hcase. rewrite <- (app_nil_r l). apply Hels; lia.
Qed.

Lemma add_lines_built i this : built i this -> lo <= i <= hi -> exists this', CS.add_lines this (tr && (i =? lo)) (zrange i hi) = Ok this' /\ built hi this'.
Proof.
  intros Hb Hi. remember (Z.to_nat (hi - i)) as n eqn:En. revert i this Hb Hi En. induction n as [|n IH]; intros i this Hb Hi En.
  - assert (i = hi) as -> by lia. rewrite zrange_nil by lia. by exists this.
  - rewrite zrange_cons by lia. cbn [CS.add_lines]. destruct (add_line_built i this Hb ltac:(lia)) as (this1 & -> & Hb1). cbn [result_bind].
    destruct (IH (i + 1) this1 Hb1 ltac:(lia) ltac:(lia)) as (this' & E & Hb'). exists this'. split; [|done]. rewrite <- E. f_equal. destruct (Z.eqb_spec (i + 1) lo); [lia|]. by rewrite andb_false_r.
Qed.

Lemma sliced_new : exists this, CS.add_lines (mkSlice [] [0] (mkOffsetRange lo hi) [] lines ws) tr (zrange lo hi) = Ok this /\ built hi this.
Proof.
  destruct (add_lines_built lo (mkSlice [] [0] (mkOffsetRange lo hi) [] lines ws)) as (this & E & Hb); [|lia|].
  - split; try done; cbn [firstCharOffsetByLine additionalOffsetByLine cs_elements].
    + change (zlen [0]) with 1. lia.
    + intros j Hj. assert (j = lo) as -> by lia. by rewrite Z.sub_diag, part_start_first.
    + change (zlen (@nil Z)) with 0. lia.
    + lia.
    + rewrite part_start_first. by destruct (Z.ltb_spec lo len); [|lia].
    + lia.
  - rewrite Z.eqb_refl, andb_true_r in E. by exists this.
Qed.

(** The line of an offset, and the place in its part. *)
Lemma offset_line b o : built hi b -> 0 <= o <= zlen (cs_elements b) ->
  let k := findLastIdxMonotonous (firstCharOffsetByLine b) (on_item (fun value => value <=? o)) 0 None in
  exists j c, k = j - lo /\ lo <= j <= hi /\ j < len /\ o = part_start j + c /\ 0 <= c /\ (if j <? hi then c <= zlen (part_at j).2 else c = 0).
Proof.
  intros [B1 B2 B3 B4 B5 B6 B7 B8 B9] Ho k. set (p := on_item (fun value => value <=? o)). set (a := firstCharOffsetByLine b) in *.
  assert (Hp : forall i, 0 <= i < zlen a -> p a.[i] = (part_start (lo + i) <=? o)).
  { intros i Hi. pose proof (B5 (lo + i) ltac:(lia)) as E. replace (lo + i - lo) with i in E by lia. unfold p. by rewrite E. }
  assert (Hmono : true_then_false a p 0 (zlen a)).
  { intros i j Hi Hij Hj. rewrite !Hp by lia. pose proof (part_start_mono (lo + i) (lo + j) ltac:(lia)). lia. }
  destruct (search_last a p 0 (zlen a) (zlen_nonneg _) Hmono) as (K1 & K2 & K3). change (findLastIdxMonotonous a p 0 (Some (zlen a))) with k in *.
  assert (K0 : 0 <= k). { destruct (decide (0 <= k)); [done|]. pose proof (K3 0 ltac:(lia)) as E. rewrite Hp in E by lia. rewrite Z.add_0_r, part_start_first in E. lia. }
  pose proof (K2 k ltac:(lia)) as Hk. rewrite Hp in Hk by lia. exists (lo + k), (o - part_start (lo + k)). split; [lia|]. split; [lia|]. split; [lia|]. split; [lia|]. split; [lia|].
  destruct (Z.ltb_spec (lo + k) hi) as [Hlt|Hge].
  - pose proof (part_start_next (lo + k) ltac:(lia)) as Hn. destruct (decide (k + 1 < zlen a)) as [Hin|Hout].
    + pose proof (K3 (k + 1) ltac:(lia)) as E. rewrite Hp in E by lia. replace (lo + (k + 1)) with (lo + k + 1) in E by lia. lia.
    + assert (Eh : hi = lo + k + 1) by lia. rewrite B8, Eh in Ho. destruct (Z.ltb_spec (lo + k + 1) len); lia.
  - assert (Eh : lo + k = hi) by lia. rewrite Eh in *. rewrite B8 in Ho. destruct (Z.ltb_spec hi len); [lia|lia].
Qed.

(** What the position of an offset is. *)
Record position_of (els : list Z) (o : Z) (p : Position) : Prop := {
  po_line : at_line lines p;
  po_element : o < zlen els -> exists l e, lines.[lineNumber p - 1] = Some l /\ els.[o] = Some e /\
    (l.[column p - 1] = Some e \/ e = 10 /\ lineNumber p < len /\ Forall (fun c => is_white c = true) (drop (Z.to_nat (column p - 1)) l) /\ (ws = true -> column p - 1 = zlen l));
  po_offset : ws = true -> text_offset lines p = line_start lines lo + (if tr then zlen (default [] lines.[lo]) else 0) + o }.

Lemma sizes_at j l : lines.[j] = Some l -> line_start lines (j + 1) = line_start lines j + (zlen l + 1).
Proof. intros Hl. apply sum_to_S. rewrite at_fmap. change (fmap (M := option) (fun l : jsstr => zlen l + 1) (at_ lines j) = Some (zlen l + 1)). by rewrite Hl. Qed.

Lemma part_line j l : lines.[j] = Some l -> exists pre post, l = pre ++ (part_at j).2 ++ post /\ (part_at j).1 = zlen pre /\ Forall (fun c => is_white c = true) post /\
  (ws = true -> (part_at j).1 = (if tr && (j =? lo) then zlen l else 0) /\ (part_at j).1 + zlen (part_at j).2 = zlen l).
Proof. intros Hl. unfold part_at. rewrite Hl. cbn [default]. apply part_spec. by destruct (CS.part _ _ _). Qed.

(** With white space, the parts are as long as what is left of the lines. *)
Lemma part_start_exact j : ws = true -> lo <= j <= hi -> line_start lines lo + (if tr then zlen (default [] lines.[lo]) else 0) + part_start j =
  line_start lines j + (if tr && (j =? lo) then zlen (default [] lines.[lo]) else 0).
Proof.
  intros Hw Hj. remember (Z.to_nat (j - lo)) as n eqn:En. revert j Hj En. induction n as [|n IH]; intros j Hj En.
  - assert (j = lo) as -> by lia. rewrite part_start_first, Z.eqb_refl, andb_true_r. lia.
  - specialize (IH (j - 1) ltac:(lia) ltac:(lia)). destruct (at_in_range lines (j - 1) ltac:(lia)) as [l Hl]. pose proof (sizes_at _ _ Hl) as Hs. pose proof (part_start_next (j - 1) ltac:(lia)) as Hn.
    replace (j - 1 + 1) with j in * by lia. destruct (part_line _ _ Hl) as (pre & post & El & Eo & _ & Ew). destruct (Ew Hw) as [Ew1 Ew2].
    destruct (Z.eqb_spec j lo); [lia|]. destruct (Z.eqb_spec (j - 1) lo) as [E1|E1]; destruct tr; cbn [andb] in *; try lia. assert (El' : default [] lines.[lo] = l) by (by rewrite <- E1, Hl). rewrite El' in *. lia.
Qed.

Definition finished (b : LinesSliceCharSequence) : LinesSliceCharSequence :=
  mkSlice (cs_elements b) (firstCharOffsetByLine b) (lineRange b) (additionalOffsetByLine b ++ [0]) lines ws.

(** Where in its line an offset is. *)
Record located (o j c add : Z) : Prop := {
  lc_range : lo <= j <= hi /\ j < len;
  lc_offset : o = part_start j + c;
  lc_inside : 0 <= c /\ (if j <? hi then c <= zlen (part_at j).2 else c = 0);
  lc_add : add = if j <? hi then (part_at j).1 else 0 }.

Lemma translate_located b o : built hi b -> 0 <= o <= zlen (cs_elements b) ->
  exists j c add, located o j c add /\ CS.translateOffset (finished b) o = Some (mkPosition (j + 1) (c + add + 1)).
Proof.
  intros Hb Ho. pose proof Hb as [B1 B2 B3 B4 B5 B6 B7 B8 B9]. destruct (offset_line b o Hb Ho) as (j & c & Ek & H1 & H2 & H3 & H4 & H5).
  exists j, c, (if j <? hi then (part_at j).1 else 0). split; [by split|]. unfold CS.translateOffset, finished. cbn [lineRange firstCharOffsetByLine additionalOffsetByLine]. rewrite B3. unfold OR.isEmpty. cbn [start endExclusive].
  destruct (Z.eqb_spec lo hi); [lia|]. rewrite Ek, B5 by lia. cbn [mbind option_bind].
  assert (Ea : (additionalOffsetByLine b ++ [0]).[j - lo] = Some (if j <? hi then (part_at j).1 else 0)).
  { destruct (Z.ltb_spec j hi); [apply at_snoc, B7; lia|]. replace (j - lo) with (zlen (additionalOffsetByLine b)) by lia. apply at_snoc_last. }
  rewrite Ea. cbn [mbind option_bind]. f_equal. f_equal; lia.
Qed.

Lemma located_mono o o' j c add j' c' add' : located o j c add -> located o' j' c' add' -> o <= o' -> pos_le (mkPosition (j + 1) (c + add + 1)) (mkPosition (j' + 1) (c' + add' + 1)).
Proof.
  intros [H1 H2 H3 H4] [H1' H2' H3' H4'] Ho. unfold pos_le. cbn [lineNumber column]. destruct (Z.lt_trichotomy j j') as [?|[->|Hj]]; [by left; lia|right; subst; lia|].
  pose proof (part_start_mono (j' + 1) j ltac:(lia)) as Hm. rewrite part_start_next in Hm by lia. destruct (Z.ltb_spec j' hi); lia.
Qed.

Lemma located_position b o j c add : built hi b -> 0 <= o <= zlen (cs_elements b) -> located o j c add -> position_of (cs_elements b) o (mkPosition (j + 1) (c + add + 1)).
Proof.
  intros Hb Ho [[H1 H1'] -> [H3 H3'] H4]. pose proof Hb as [B1 B2 B3 B4 B5 B6 B7 B8 B9]. destruct (at_in_range lines j ltac:(lia)) as [l Hl].
  destruct (part_line j l Hl) as (pre & post & El & Eo & Hpost & Hw). assert (Hz : zlen l = zlen pre + zlen (part_at j).2 + zlen post) by (rewrite El, !zlen_app; lia).
  pose proof (zlen_nonneg pre). pose proof (zlen_nonneg post). pose proof (zlen_nonneg l). split; cbn [lineNumber column].
  - exists l. cbn [lineNumber column]. replace (j + 1 - 1) with j by lia. split; [done|]. destruct (Z.ltb_spec j hi); lia.
  - intros Hlt. assert (Hj : j < hi) by (destruct (decide (j < hi)); [done|]; assert (j = hi) as -> by lia; rewrite B8 in Hlt; destruct (Z.ltb_spec hi len); lia).
    destruct (Z.ltb_spec j hi); [|lia]. rewrite H4 in *. rewrite Eo in *. replace (j + 1 - 1) with j by lia. replace (c + zlen pre + 1 - 1) with (zlen pre + c) by lia. exists l.
    destruct (decide (c < zlen (part_at j).2)) as [Hc|Hc].
    + destruct (at_in_range (part_at j).2 c ltac:(lia)) as [e He]. exists e. split; [done|]. pose proof (B9 j c ltac:(lia) ltac:(lia) ltac:(by left)) as E. destruct (Z.ltb_spec c (zlen (part_at j).2)); [|lia]. rewrite He in E. split; [done|]. left.
      rewrite El, at_app_zlen by lia. by rewrite at_app_l by lia.
    + assert (c = zlen (part_at j).2) as -> by lia. assert (Hjl : j < len - 1).
      { destruct (decide (j < len - 1)); [done|]. rewrite B8 in Hlt. assert (hi = j + 1) as Eh by lia. rewrite Eh, part_start_next in Hlt by lia. destruct (Z.ltb_spec (j + 1) len); lia. }
      exists 10. split; [done|]. pose proof (zlen_nonneg (part_at j).2). pose proof (B9 j (zlen (part_at j).2) ltac:(lia) ltac:(lia) ltac:(by right)) as E. rewrite Z.ltb_irrefl in E. split; [done|]. right. split; [done|]. split; [lia|]. split; [|intros Ew; destruct (Hw Ew); lia].
      rewrite El, app_assoc. replace (Z.to_nat (zlen pre + zlen (part_at j).2)) with (length (pre ++ (part_at j).2)) by (rewrite length_app; unfold zlen; lia). by rewrite drop_app_length.
  - intros Ew. unfold text_offset. cbn [lineNumber column]. replace (j + 1 - 1) with j by lia. pose proof (part_start_exact j Ew H1) as Hx. destruct (Z.eqb_spec j lo) as [->|Hne].
    + destruct (Hw Ew) as [Hw1 Hw2]. rewrite Hl in *. cbn [default] in *. unfold id in *. assert (Elt : (lo <? hi) = true) by lia. rewrite Elt in *. destruct tr; cbn [andb] in *; lia.
    + destruct (Hw Ew) as [Hw1 Hw2]. destruct (Z.eqb_spec j lo); [lia|]. destruct tr; cbn [andb] in *; destruct (Z.ltb_spec j hi); lia.
Qed.

End slices.

(** ** The characters of the text *)

Lemma line_start_cons l lines i : 0 <= i -> line_start (l :: lines) (i + 1) = zlen l + 1 + line_start lines i.
Proof. intros Hi. unfold line_start, sum_to. replace (Z.to_nat (i + 1)) with (S (Z.to_nat i)) by lia. done. Qed.

Lemma text_char lines : forall i l c, lines.[i] = Some l -> 0 <= c <= zlen l -> (c < zlen l \/ i < zlen lines - 1) ->
  (LS.join_lines lines).[line_start lines i + c] = if c <? zlen l then l.[c] else Some 10.
Proof.
  induction lines as [|l0 rest IH]; intros i l c Hl Hc Hcase; [apply at_lt in Hl; unfold zlen in Hl; cbn in Hl; lia|]. pose proof (at_lt _ _ _ Hl) as Hi. rewrite zlen_cons in *. rewrite at_cons in Hl.
  destruct (Z.eqb_spec i 0) as [->|Hne].
  - injection Hl as ->. change (line_start (l :: rest) 0 + c) with (0 + c). rewrite Z.add_0_l. destruct rest as [|l1 rest].
    + unfold zlen at 2 in Hcase. cbn [length] in Hcase. cbn [LS.join_lines]. destruct (Z.ltb_spec c (zlen l)); [done|lia].
    + cbn [LS.join_lines]. destruct (Z.ltb_spec c (zlen l)); [by apply at_app_l|]. rewrite at_app_r by lia. by replace (c - zlen l) with 0 by lia.
  - replace i with (i - 1 + 1) by lia. rewrite line_start_cons by lia. destruct rest as [|l1 rest]; [apply at_lt in Hl; unfold zlen in Hl; cbn in Hl; lia|]. cbn [LS.join_lines].
    assert (H0 : 0 <= line_start (l1 :: rest) (i - 1)).
    { unfold line_start, sum_to. apply zsum_nonneg, Forall_take, Forall_fmap, Forall_true. intros x. pose proof (zlen_nonneg x). cbn. lia. }
    replace (zlen l0 + 1 + line_start (l1 :: rest) (i - 1) + c) with (zlen l0 + (1 + (line_start (l1 :: rest) (i - 1) + c))) by lia. rewrite at_app_zlen by lia. rewrite at_cons.
    destruct (Z.eqb_spec (1 + (line_start (l1 :: rest) (i - 1) + c)) 0); [lia|]. replace (1 + (line_start (l1 :: rest) (i - 1) + c) - 1) with (line_start (l1 :: rest) (i - 1) + c) by lia.
    apply IH; [done|done|lia].
Qed.

(** The text between two positions. *)
Definition text_between (lines : list jsstr) (p q : Position) : jsstr := slice (LS.join_lines lines) (text_offset lines p) (text_offset lines q).

(** ** Slices *)

Section theorems.
Context (lines : list jsstr) (range : OffsetRange) (ws : bool).
Hypothesis Hlines : lines <> [].
Hypothesis Hrange : 0 <= start range <= endExclusive range /\ endExclusive range <= zlen lines.

(** Is the slice at the end of the text, so that it starts with the end of the line before? *)
Definition at_text_end : bool := (start range >? 0) && (endExclusive range >=? zlen lines).
Definition first_line : Z := if at_text_end then start range - 1 else start range.

(** The offset of the slice in the text. *)
Definition slice_base : Z := line_start lines first_line + (if at_text_end then zlen (default [] lines.[first_line]) else 0).

(** Offsets are translated in order, to positions of the text. *)
Record translates (this : LinesSliceCharSequence) : Prop := {
  tr_position : forall o, 0 <= o <= CS.length this -> exists p, CS.translateOffset this o = Some p /\ position_of lines ws at_text_end first_line (cs_elements this) o p;
  tr_mono : forall o o' p p', 0 <= o <= o' -> o' <= CS.length this -> CS.translateOffset this o = Some p -> CS.translateOffset this o' = Some p' -> pos_le p p' }.

Lemma new_translates : exists this, CS.new lines range ws = Ok this /\ translates this.
Proof.
  assert (Hlen : 0 < zlen lines) by (destruct lines; [done|rewrite zlen_cons; pose proof (zlen_nonneg l); lia]).
  unfold CS.new. fold at_text_end. set (hi := endExclusive range).
  assert (E1 : (if at_text_end then OR.new_OffsetRange (start range - 1) hi else Ok range) = Ok (mkOffsetRange first_line hi)).
  { unfold first_line. destruct at_text_end; [apply new_OffsetRange_ok; lia|by destruct range]. }
  rewrite E1. cbn [result_bind start endExclusive]. destruct (decide (first_line < hi)) as [Hlt|Hge].
  - assert (Hr : 0 <= first_line < hi /\ hi <= zlen lines) by (unfold first_line, at_text_end, hi in *; destruct (start range >? 0) eqn:E; cbn [andb] in *; [destruct (endExclusive range >=? zlen lines); lia|lia]).
    destruct (sliced_new lines ws at_text_end first_line hi Hr) as (b & -> & Hb). cbn [result_bind]. eexists. split; [done|]. change (mkSlice _ _ _ _ _ _) with (finished lines ws b). split.
    + intros o Ho. destruct (translate_located lines ws at_text_end first_line hi Hr b o Hb Ho) as (j & c & add & Hl & E). eexists. split; [exact E|]. exact (located_position lines ws at_text_end first_line hi Hr b o j c add Hb Ho Hl).
    + intros o o' p p' Ho Ho' Hp Hp'. destruct (translate_located lines ws at_text_end first_line hi Hr b o Hb ltac:(unfold CS.length, finished in Ho'; cbn in Ho'; lia)) as (j & c & add & Hl & E).
      destruct (translate_located lines ws at_text_end first_line hi Hr b o' Hb ltac:(unfold CS.length, finished in Ho'; cbn in Ho'; lia)) as (j' & c' & add' & Hl' & E'). rewrite Hp in E. rewrite Hp' in E'. injection E as ->. injection E' as ->.
      eapply located_mono; [exact Hl|exact Hl'|lia].
  - assert (Ht : at_text_end = false /\ first_line = hi /\ hi < zlen lines).
    { unfold first_line, at_text_end, hi in *. destruct (start range >? 0) eqn:E; cbn [andb] in *; [destruct (endExclusive range >=? zlen lines) eqn:E'; [lia|split; [done|lia]]|split; [done|lia]]. }
    destruct Ht as (Ht & Ef & Hh). rewrite zrange_nil by lia. cbn [CS.add_lines result_bind]. eexists. split; [done|].
    assert (Ep : forall o, CS.translateOffset (mkSlice [] [0] (mkOffsetRange first_line hi) [0] lines ws) o = Some (mkPosition (first_line + 1) 1)).
    { intros o. unfold CS.translateOffset, OR.isEmpty. cbn [lineRange start endExclusive]. by destruct (Z.eqb_spec first_line hi). }
    cbn [cs_elements firstCharOffsetByLine lineRange additionalOffsetByLine app]. split.
    + intros o Ho. change (0 <= o <= 0) in Ho. assert (o = 0) as -> by lia. eexists. split; [apply Ep|]. destruct (at_in_range lines first_line) as [l Hl]; [unfold first_line in *; rewrite Ht in *; lia|]. split; cbn [lineNumber column cs_elements].
      * exists l. cbn [lineNumber column]. replace (first_line + 1 - 1) with first_line by lia. split; [done|]. pose proof (zlen_nonneg l). lia.
      * change (zlen (@nil Z)) with 0. lia.
      * intros _. unfold text_offset. cbn [lineNumber column]. replace (first_line + 1 - 1) with first_line by lia. rewrite Ht. lia.
    + intros o o' p p' _ _ Hp Hp'. rewrite Ep in Hp, Hp'. injection Hp as <-. injection Hp' as <-. right. cbn. lia.
Qed.

Lemma slice_sequence_ok this : sequence_ok (CS.sequence this).
Proof.
  split; cbn [CS.sequence Diff.getElement seq_length Diff.isStronglyEqual]; unfold CS.getElement, CS.length.
  - apply zlen_nonneg.
  - intros i Hi. destruct (at_in_range (cs_elements this) i Hi) as [x ->]. by eexists.
  - intros i Hi. destruct ((cs_elements this).[i]) eqn:E; [|done]. apply at_lt in E. lia.
  - intros i j Hs. by apply bool_decide_eq_true in Hs.
Qed.

(** With white space, the slice is a part of the text. *)
Lemma slice_element this o : ws = true -> translates this -> 0 <= o < CS.length this -> (cs_elements this).[o] = (LS.join_lines lines).[slice_base + o].
Proof.
  intros Ew Ht Ho. destruct (tr_position _ Ht o ltac:(lia)) as (p & _ & [(l & Hl & Hc) P2 P3]). destruct (P2 ltac:(unfold CS.length in Ho; lia)) as (l' & e & Hl' & -> & Hcase). assert (l' = l) as -> by congruence.
  unfold slice_base. rewrite <- (P3 Ew). unfold text_offset. destruct Hcase as [He|(-> & H1 & _ & H2)].
  - pose proof (at_lt _ _ _ He). rewrite (text_char lines _ l) by (done || lia). by destruct (Z.ltb_spec (column p - 1) (zlen l)); [|lia].
  - specialize (H2 Ew). unfold jsstr in *. rewrite (text_char lines _ l) by (done || lia). by destruct (Z.ltb_spec (column p - 1) (zlen l)); [lia|].
Qed.

End theorems.

(** ** The theorems *)

(** The text of a range. *)
Definition text_of_range (lines : list jsstr) (r : Range) : jsstr :=
  text_between lines (mkPosition (startLineNumber r) (startColumn r)) (mkPosition (endLineNumber r) (endColumn r)).

Lemma list_eq_at {A} (l l' : list A) : zlen l = zlen l' -> (forall i, 0 <= i < zlen l -> l.[i] = l'.[i]) -> l = l'.
Proof.
  intros Hz H. apply list_eq. intros i. destruct (decide (Z.of_nat i < zlen l)) as [Hi|Hi]; [rewrite <- !at_nat; apply H; lia|]. rewrite !lookup_ge_None_2; [done|unfold zlen in *; lia..].
Qed.

Lemma slice_inside {A} (l : list A) s e : 0 <= s <= e -> e <= zlen l -> zlen (slice l s e) = e - s /\ forall i, 0 <= i < e - s -> (slice l s e).[i] = l.[s + i].
Proof.
  intros Hs He. unfold slice, rel_index. destruct (Z.ltb_spec s 0); [lia|]. destruct (Z.ltb_spec e 0); [lia|]. rewrite !Z.min_l by lia. split.
  - rewrite zlen_take; [done|]. rewrite zlen_drop by lia. lia.
  - intros i Hi. rewrite at_take by lia. unfold at_. destruct (Z.ltb_spec i 0); [lia|]. destruct (Z.ltb_spec (s + i) 0); [lia|]. rewrite lookup_drop. f_equal. lia.
Qed.

Lemma slice_same {A} (l : list A) s : slice l s s = [].
Proof. unfold slice. by rewrite Z.sub_diag. Qed.

(** The text of a slice is the text of the translated range. *)
Lemma slice_text lines range ws this r : lines <> [] -> ws = true -> translates lines range ws this -> 0 <= start r <= endExclusive r -> endExclusive r <= CS.length this ->
  exists rg, CS.translateRange this r = Some rg /\ CS.getText this r = text_of_range lines rg.
Proof.
  intros Hne Ew Ht Hr He. destruct (tr_position _ _ _ _ Ht (start r) ltac:(lia)) as (p & Ep & [P1 _ P3]). destruct (tr_position _ _ _ _ Ht (endExclusive r) ltac:(lia)) as (q & Eq & [Q1 _ Q3]).
  pose proof (tr_mono _ _ _ _ Ht _ _ _ _ Hr He Ep Eq) as Hle. unfold CS.translateRange. rewrite Ep, Eq. cbn [mbind option_bind]. eexists. split; [done|].
  assert (Hrg : Rng.fromPositions p (Some q) = mkRange (lineNumber p) (column p) (lineNumber q) (column q)).
  { unfold Rng.fromPositions. cbn [default]. unfold id. by apply new_Range_id. }
  rewrite Hrg. unfold text_of_range, text_between. cbn [startLineNumber startColumn endLineNumber endColumn].
  destruct p as [pl pc], q as [ql qc]. cbn [lineNumber column]. rewrite (P3 Ew), (Q3 Ew). fold (slice_base lines range). set (base := slice_base lines range) in *.
  destruct (decide (start r = endExclusive r)) as [Ee|Hn]; [unfold CS.getText; by rewrite Ee, !slice_same|].
  assert (Hb : 0 <= base).
  { unfold base, slice_base. assert (0 <= line_start lines (first_line lines range)); [|pose proof (zlen_nonneg (default [] lines.[first_line lines range])); destruct (at_text_end lines range); lia].
    unfold line_start, sum_to. apply zsum_nonneg, Forall_take, Forall_fmap, Forall_true. intros x. pose proof (zlen_nonneg x). cbn. lia. }
  assert (Hel : forall o, 0 <= o < CS.length this -> (cs_elements this).[o] = (LS.join_lines lines).[base + o]) by (intros o Ho; by eapply slice_element).
  assert (Hend : base + endExclusive r <= zlen (LS.join_lines lines)).
  { destruct (at_in_range (cs_elements this) (endExclusive r - 1)) as [x Hx]; [unfold CS.length in He; lia|]. rewrite Hel in Hx by lia. apply at_lt in Hx. lia. }
  destruct (slice_inside (cs_elements this) (start r) (endExclusive r)) as [Z1 A1]; [lia|done|]. destruct (slice_inside (LS.join_lines lines) (base + start r) (base + endExclusive r)) as [Z2 A2]; [lia|done|].
  apply list_eq_at; unfold CS.getText; [lia|]. intros i Hi. rewrite A1, A2 by lia. rewrite Hel by lia. f_equal. lia.
Qed.

(** C23: The characters of lines.  For any lines of a text, the slice of them is made without throwing,
    and every offset in it, the one at its end included, is translated to a position of the text,
    in the order of the offsets.  The character at the position is the element of the slice; where
    the element is a line feed, nothing but white space is left of the line, and a line follows.
    When white space counts, the slice is the part of the text that starts where its first line
    does, or one line feed before when it ends where the text ends, and the text of a range of
    the slice is the text in the translated range. *)
Theorem slice_is_text lines range ws : lines <> [] -> 0 <= start range <= endExclusive range -> endExclusive range <= zlen lines ->
  exists this, CS.new lines range ws = Ok this /\ translates lines range ws this /\
  (ws = true -> forall r, 0 <= start r <= endExclusive r -> endExclusive r <= CS.length this -> exists rg, CS.translateRange this r = Some rg /\ CS.getText this r = text_of_range lines rg).
Proof.
  intros Hne Hr Hl. destruct (new_translates lines range ws Hne ltac:(lia)) as (this & E & Ht). exists this. split; [done|]. split; [done|]. intros Ew r H1 H2. by eapply slice_text.
Qed.

(** The lines [ab] and [c] of [ab], [c], [d], and the range of [b], line feed, [c]. *)
Lemma slice_is_text_witness :
  let lines := [[97; 98]; [99]; [100]] in
  exists this, CS.new lines (mkOffsetRange 0 2) true = Ok this /\ CS.translateRange this (mkOffsetRange 1 4) = Some (mkRange 1 2 2 2) /\ text_of_range lines (mkRange 1 2 2 2) = [98; 10; 99].
Proof.
  intros lines. destruct (slice_is_text lines (mkOffsetRange 0 2) true) as (this & E & _ & H); [done|cbn; lia|vm_compute; congruence|]. exists this. split; [done|]. vm_compute in E. injection E as <-.
  destruct (H eq_refl (mkOffsetRange 1 4)) as (rg & Er & Et); [cbn; lia|vm_compute; congruence|]. vm_compute in Er. injection Er as <-. split; [done|]. rewrite <- Et. done.
Defined.

Lemma describes_ranges s1 s2 ds : forall a b, 0 <= a -> 0 <= b -> describes s1 s2 a b ds -> Forall (fun d => (0 <= b1 d <= e1 d /\ e1 d <= seq_length s1) /\ (0 <= b2 d <= e2 d /\ e2 d <= seq_length s2)) ds.
Proof.
  induction ds as [|d ds IH]; intros a b Ha Hb; [constructor|]. intros ((H1 & H2 & _) & H3 & H4 & H). pose proof (describes_bounds _ _ _ _ _ H). constructor; [lia|]. eapply IH; [| |exact H]; lia.
Qed.

(** The ranges of a diff of slices have the text of the slices. *)
Definition translated (originalLines modifiedLines : list jsstr) (slice1 slice2 : LinesSliceCharSequence) (d : SequenceDiff) : Prop :=
  exists r1 r2, CS.translateRange slice1 (seq1Range d) = Some r1 /\ CS.translateRange slice2 (seq2Range d) = Some r2 /\
    text_of_range originalLines r1 = CS.getText slice1 (seq1Range d) /\ text_of_range modifiedLines r2 = CS.getText slice2 (seq2Range d).

(** C22: The characters of changed lines.  For a diff of lines of two texts, and however the clock
    answers, [refineDiff] makes slices of the lines, and the algorithm it chooses ends with diffs
    that lead from one slice to the other, with equal characters between them.  Moving them does
    not throw, and keeps that, when of two diffs next to each other, as they are after they were
    joined by shifting, both can be moved or neither.  When white space counts, the ranges of
    every diff are ranges of the texts with the characters of the slices. *)
Theorem char_diffs_describe originalLines modifiedLines diff timeout ws : originalLines <> [] -> modifiedLines <> [] ->
  0 <= b1 diff <= e1 diff -> e1 diff <= zlen originalLines -> 0 <= b2 diff <= e2 diff -> e2 diff <= zlen modifiedLines ->
  exists slice1 slice2, CS.new originalLines (seq1Range diff) ws = Ok slice1 /\ CS.new modifiedLines (seq2Range diff) ws = Ok slice2 /\
  let s1 := CS.sequence slice1 in
  let s2 := CS.sequence slice2 in
  (CS.length slice1 < 2 ^ 31 -> exists r joined,
    charDiffResult slice1 slice2 timeout = Ok r /\ describes s1 s2 0 0 (diffs r) /\ separated (diffs r) /\ joinSequenceDiffsByShifting s1 s2 (diffs r) = Ok joined /\
    (alike joined -> exists ds, charDiffs originalLines modifiedLines diff timeout ws = Ok (slice1, slice2, ds, hitTimeout r) /\
       describes s1 s2 0 0 ds /\ separated ds /\ cost ds = cost (diffs r) /\ patch s1 s2 0 ds = elements s2 0 (CS.length slice2) /\
       (ws = true -> Forall (translated originalLines modifiedLines slice1 slice2) ds))).
Proof.
  intros Ho Hm H1 H1' H2 H2'. destruct (new_translates originalLines (seq1Range diff) ws Ho ltac:(lia)) as (slice1 & E1 & T1). destruct (new_translates modifiedLines (seq2Range diff) ws Hm ltac:(lia)) as (slice2 & E2 & T2).
  exists slice1, slice2. split; [done|]. split; [done|]. cbv zeta. intros Hlen. pose proof (slice_sequence_ok slice1) as K1. pose proof (slice_sequence_ok slice2) as K2.
  assert (Hr : exists r, charDiffResult slice1 slice2 timeout = Ok r /\ describes (CS.sequence slice1) (CS.sequence slice2) 0 0 (diffs r) /\ separated (diffs r)).
  { unfold charDiffResult. destruct (_ <? 500).
    - destruct (dynamic_ok (R := option Z) _ _ timeout None K1 K2) as (r & Er & D1 & D2 & _); [done|by exists r].
    - destruct (myers_ok _ _ timeout K1 K2 Hlen) as (r & Er & D1 & D2 & _). by exists r. }
  destruct Hr as (r & Er & D1 & D2). destruct (joinSequence_ok _ _ _ D1 D2) as (joined & Ej & Hk). exists r, joined. split; [done|]. split; [done|]. split; [done|]. split; [done|]. intros Hal.
  destruct (optimize_ok _ _ _ _ K1 K2 Ej Hk Hal) as (ds & Eds & O1 & O2 & O3). exists ds. unfold charDiffs. rewrite E1. cbn [result_bind]. rewrite E2. cbn [result_bind]. rewrite Er. cbn [result_bind]. rewrite Eds. cbn [result_bind].
  split; [done|]. split; [done|]. split; [done|]. split; [done|]. split; [by apply describes_patch|]. intros Ew. eapply Forall_impl; [by eapply describes_ranges; [| |exact O1]|]. intros d [[A1 A2] [A3 A4]].
  destruct (slice_text _ _ _ _ (seq1Range d) Ho Ew T1 A1 A2) as (r1 & R1 & X1). destruct (slice_text _ _ _ _ (seq2Range d) Hm Ew T2 A3 A4) as (r2 & R2 & X2). by exists r1, r2.
Qed.

(** [ab] becomes [axb]. *)
Lemma char_diffs_describe_witness :
  let diff := mkDiff (mkOffsetRange 0 1) (mkOffsetRange 0 1) in
  exists slice1 slice2, charDiffs [[97; 98]; [99]] [[97; 120; 98]; [99]] diff InfiniteTimeout true = Ok (slice1, slice2, [mkDiff (mkOffsetRange 1 1) (mkOffsetRange 1 2)], false) /\
    Forall (translated [[97; 98]; [99]] [[97; 120; 98]; [99]] slice1 slice2) [mkDiff (mkOffsetRange 1 1) (mkOffsetRange 1 2)].
Proof.
  intros diff. destruct (char_diffs_describe [[97; 98]; [99]] [[97; 120; 98]; [99]] diff InfiniteTimeout true) as (slice1 & slice2 & E1 & E2 & H); [done|done|cbn; lia|vm_compute; congruence|cbn; lia|vm_compute; congruence|].
  exists slice1, slice2. vm_compute in E1. injection E1 as <-. vm_compute in E2. injection E2 as <-. destruct H as (r & joined & Er & _ & _ & Ej & H); [done|].
  vm_compute in Er. injection Er as <-. vm_compute in Ej. injection Ej as <-. destruct H as (ds & E & _ & _ & _ & _ & Ht); [done|]. specialize (Ht eq_refl). vm_compute in E. injection E as <-. split; [by vm_compute|exact Ht].
Defined.
